(* ===== verification/_CoqProject ===== *)
-Q . S2P
Prelude.v
ScriptTypes.v
CryptoModel.v
Opcodes.v
ScriptStack.v
TariScript.v
ScriptEncoding.v
ScriptMultisig.v
ScriptSafety.v
ScriptControl.v
MmrCommon.v
Mmr.v
MmrForest.v
MmrSpec.v
MmrNodes.v
MmrProof.v
MmrProofSpec.v
MutableMmr.v
MmrCache.v
BalancedMerkle.v
BalancedMerged.v
Amounts.v
Emission.v
Difficulty.v
MoneroMerkle.v
MoneroMerkleSpec.v
ConsensusConstants.v
ConsensusManager.v
MempoolTypes.v
UnconfirmedPool.v
UnconfirmedPoolSpec.v
UnconfirmedPoolFetch.v
ReorgPool.v
MempoolStorage.v
TariAddress.v
TariAddressSpec.v
Covenants.v
TxComponents.v
BlockHeader.v
CovenantFilters.v
CovenantSpec.v
AggregatedBody.v
BodyValidator.v
BodyBalance.v
OutputHash.v
MergeMining.v
BodyValidatorSpec.v
ChainStorage.v
ChainDatabase.v
Reorg.v
HeaderValidator.v
FullValidator.v
ChainTables.v
ChainStorageSpec.v
ChainRewind.v
BlockReading.v
ReorgSpec.v
HeaderSpec.v
HeaderChain.v
ReorgAtomic.v
ChainStored.v
FullValidatorSpec.v
BlockSyncSpec.v
ChunkIter.v
HorizonSync.v
SyncService.v
HeaderSync.v
HeaderSyncSpec.v
ChainBalance.v
SyncServed.v
HorizonKernels.v
HorizonSafe.v
HorizonOutputs.v
HorizonFinal.v
HorizonLive.v
TxModel.v
TxExamples.v
ChainExamples.v
FullExamples.v
HorizonExamples.v
