(* ===== verification/Prelude.v ===== *)
(** * A verification library for the core of the Tari base layer

    The repository is a workspace of Rust crates for the Tari base node and wallet. This library
    translates the deterministic core of it (the code that decides whether scripts, proofs,
    blocks and transactions are accepted, and the data structures behind those decisions) into
    executable definitions and proves what they promise. Names follow the source; where the same name
    is used by two types, a short prefix tells them apart ([mm_push], [up_insert], [rp_insert]).

    ** How Rust is modelled

    - Outcomes: [result E A] has [Ok], [Err] and [Panic]. The release profile aborts on panic and
      checks overflow, so arithmetic outside the range of its type, a failed [unwrap] and an
      index out of range are all [Panic] (this file).
    - Machine integers are [Z]; [arith lo hi] aborts outside the range, [checked lo hi] gives [None].
      [usize] has 64 bits. Bytes are lists of [Z].
    - [HashMap] is [gmap], [HashSet] is [gset]; [BTreeMap] is a sorted association list. Where the
      order of a hash map matters the theorem says so.
    - State is passed explicitly; loops are [foldM] or recursion with fuel. The fuel is the length of
      the input wherever a loop consumes it, and running out of it is [Panic], so that the
      theorems that exclude [Panic] also show that the fuel is enough.
    - Code outside the repository (curves and hashes of tari_crypto, the croaring bitmap, 256-bit
      integers, the transaction validator) is a parameter: a type class whose laws are
      hypotheses of the theorems that need them. Witness lemmas ([.._witness]) instantiate them.

    ** Parts

    - TariScript (src/infrastructure/tari_script): [ScriptTypes], [CryptoModel], [Opcodes],
      [ScriptStack] and [TariScript] model opcodes, stack items, the stack machine and the
      encodings. [ScriptEncoding]: round trips and totality of decoding. [ScriptMultisig]: multi-signatures
      are sound. [ScriptSafety]: no abort, the stack limit, the one opcode that can abort.
      [ScriptControl]: conditionals refine a structured evaluation.
    - Merkle mountain ranges (src/base_layer/mmr): [MmrCommon], [Mmr], [MmrProof], [MutableMmr],
      [MmrCache] model indices, ranges, proofs, the range with deletions and the checkpoint cache.
      [MmrForest], [MmrSpec], [MmrNodes]: the array is the post-order forest of the leaves.
      [MmrProofSpec]: proofs are complete, and sound up to collisions. [MutableMmr]: refinement
      of the pair of leaves and deletions.
    - Balanced Merkle trees (src/base_layer/mmr): [BalancedMerkle],
      [BalancedMerged].
    - Amounts, weight and fees, emission, difficulty (src/base_layer/core): [Amounts], [Emission],
      [Difficulty].
    - Consensus constants, manager and chain strength: [ConsensusConstants], [ConsensusManager]: among others, how much the networks
      emit.
    - Mempool (src/base_layer/core/src/mempool): [MempoolTypes] (priorities), [UnconfirmedPool] with
      [UnconfirmedPoolSpec] (indexes stay consistent), [UnconfirmedPoolFetch] (selection);
      [ReorgPool]; [MempoolStorage] (the handlers that connect both pools).
    - Addresses (src/base_layer/common_types): [TariAddress] (check digits, emoji ids and
      addresses), [TariAddressSpec] (round trips, and errors that are noticed).
    - Covenants (src/base_layer/core/src/covenants): [Covenants] (tokens and encodings, which
      are read back), [CovenantFilters] (output sets and filters), [CovenantSpec]: execution is
      the evaluation of an expression on each output, and anything else is refused.
    - Transactions (src/base_layer/core/src/transactions): [TxComponents] (inputs, outputs, kernels, their
      hashes and signatures), [AggregatedBody] (bodies and their sums), [OutputHash]: equal hashes mean equal
      contents, up to collisions.
    - Validation (src/base_layer/core/src/validation): [BodyValidator] models the validators of bodies,
      transactions and block bodies. [BodyBalance]: what is accepted creates nothing but the reward.
      [BodyValidatorSpec]: it spends existing outputs once, honours covenants and matches burns.
      [TxModel] and [TxExamples] instantiate the parameters with a small group and validate a
      transaction and a block.
    - Chain storage (src/base_layer/core/src/chain_storage): [ChainStorage] (the tables of blocks, their rows, storing
      and deleting a block), [ChainDatabase] (headers, orphans, metadata, write transactions, reading blocks) and
      [Reorg] (reorganisations, pruning, adding a block). [ChainTables] says which tables a chain of blocks has;
      [ChainStorageSpec] and [ChainRewind]: storing and deleting a block go from the tables of one chain to those of the
      other and back. [BlockReading]: the pool of orphans stays consistent, blocks are read as they were stored.
      [ReorgSpec] and [ReorgAtomic]: reorganisations are all or nothing and end on the strongest chain.
      [ChainStored]: what the validators accept can be stored. [ChainExamples] has a chain with a fork.
    - Block headers and merge mining (src/base_layer/core/src/blocks/block_header.rs, proof_of_work): [MoneroMerkle] (tree hash and
      proofs of Monero), [BlockHeader] (headers, their hashes and their work). [MoneroMerkleSpec]: a proof binds its
      transaction. [MergeMining]: what a header hash binds, that honest merge mining succeeds, and two proofs that should not pass
      or not abort. [TxModel] instantiates the parameters.
    - Header validation (validation/header, difficulty_calculator.rs, base_node/sync/header_sync): [HeaderValidator]; [HeaderSpec]: the
      synchronisation and the validation of blocks demand the same work.
    - Validation against the chain (validation/block_body/block_body_full_validator.rs, calculate_mmr_roots) and block synchronisation
      (base_node/sync/block_sync): [FullValidator]. [FullValidatorSpec]: a block that passes the validators follows the chain, which is
      what [ReorgSpec] and [ReorgAtomic] require of blocks, and its header commits to the chain with it. [BlockSyncSpec]: a peer moves
      the chain only along validated blocks, and with the bodies of the stored headers it reaches the last one. [FullExamples] has a block that passes all of them.
    - Header synchronisation (base_node/sync/header_sync/synchronizer.rs): [HeaderSync], the conversation with peers, which are functions from
      requests to answers. [HeaderChain]: databases with headers ahead of their blocks, storing, deleting and rewinding them.
      [HeaderSyncSpec]: with any peer the headers change only to linked ones with proven work that are not weaker, or are cut off at
      the split; with an honest peer that is not weaker its headers are stored; the index a peer answers can abort the node, and
      a peer that is exactly one batch ahead is banned. [FullExamples.LongChain] has chains of headers of any length.
    - Horizon synchronisation (base_node/sync/horizon_state_sync, validation/chain_balance.rs) and the service that answers it
      (base_node/sync/rpc, iterators/chunk.rs): [HorizonSync] (kernels, outputs, sums, the final balance), [SyncService] (the streams) and
      [ChunkIter] (chunks of a range). [SyncServed]: what a node with a chain answers. [ChainBalance]: a chain of
      validated blocks balances. [HorizonKernels], [HorizonOutputs], [HorizonFinal] and [HorizonLive]: with such a peer the
      synchronisation completes, and what it leaves in the index of unspent outputs. [HorizonSafe]: with any peer, only verified
      kernels and outputs are stored. [HorizonExamples] has two blocks that one node serves to another.
    The parts meet in the mempool: it weighs transactions with [Amounts], takes its limits from
    [ConsensusManager], and moves transactions between the pools. They meet in validation: it runs the
    scripts of [TariScript] and the covenants of the spent outputs, weighs bodies with [Amounts] and takes
    the reward from [Emission] through [ConsensusManager]. They meet in the full validator: it reads the tables of [ChainStorage],
    runs the validators of bodies and headers and compares the roots of the ranges; its theorem is what storing and
    reorganising rely on.

    The theorems on stored chains are about archival nodes and blocks that can be stored and deleted again: without validator node and
    template registrations, which deleting a block leaves behind, and without a kernel excess that the chain already has, which no
    validator looks for ([block_ok] of [ChainTables], [follows] and [holds] of [ReorgSpec]). What the database does outside of
    these conditions is among the findings.

    Theorems about hashes and commitments do not assume that they are injective or binding. Where a conclusion
    depends on it, it names the two values at hand that collide, or the two openings of one
    commitment that follow from those given.

    ** Not modelled

    Asynchronous services, the transport to peers (dialling, sessions of the RPC protocol, measuring the latency: what a peer
    answers, and whether in time, is an argument), the hooks of the synchronisation, user interfaces, foreign function interfaces and generated code: they are calls to
    libraries and to the operating system, with little computation of their own. LMDB is modelled by its tables, not by its
    files. Logging and metrics have no effect on the results. The capacities of hash maps ([compact]) are not
    observable. RandomX, Keccak and the encodings of Monero are parameters. The ranges of the database are given by their
    leaves, whose roots [MmrSpec] and [MutableMmr] prove to be those of the pruned copies the code keeps. *)

From stdpp Require Export base tactics numbers list option gmap strings.
From Stdlib Require Export ZArith Lia.

(** ** Outcomes of Rust code

    [Ok] and [Err] are the two cases of a Rust [Result]; [Panic] is an abort: an
    [unwrap]/[expect] of nothing, an index or slice out of range, a division by zero, or an
    arithmetic overflow. The workspace's release profile sets [overflow-checks = true] and
    [panic = abort] (src/Cargo.toml), so an overflow is a panic in every build. *)
Inductive result (E A : Type) : Type :=
| Ok (a : A)
| Err (e : E)
| Panic.
Arguments Ok {E A} a.
Arguments Err {E A} e.
Arguments Panic {E A}.

#[export] Instance result_ret {E} : MRet (result E) := fun A a => Ok a.
#[export] Instance result_bind {E} : MBind (result E) := fun A B f m =>
  match m with
  | Ok a => f a
  | Err e => Err e
  | Panic => Panic
  end.
#[export] Instance result_fmap {E} : FMap (result E) := fun A B f m =>
  match m with
  | Ok a => Ok (f a)
  | Err e => Err e
  | Panic => Panic
  end.

#[export] Instance result_eq_dec {E A} `{EqDecision E, EqDecision A} : EqDecision (result E A).
Proof. solve_decision. Defined.

(** [o.ok_or(e)] *)
Definition ok_or {E A} (o : option A) (e : E) : result E A :=
  match o with Some a => Ok a | None => Err e end.

(** [o.unwrap()] and [o.expect(..)] *)
Definition unwrap {E A} (o : option A) : result E A :=
  match o with Some a => Ok a | None => Panic end.

(** [r.unwrap()] of a result *)
Definition expect {E E' A} (r : result E A) : result E' A := match r with Ok a => Ok a | _ => Panic end.

(** [r.map_err(f)] *)
Definition map_err {E E' A} (f : E -> E') (r : result E A) : result E' A :=
  match r with Ok a => Ok a | Err e => Err (f e) | Panic => Panic end.

Definition is_ok {E A} (r : result E A) : bool :=
  match r with Ok _ => true | _ => false end.

Definition no_panic {E A} (r : result E A) : Prop := r <> Panic.

Section ResultLemmas.
Context {E A B : Type}.
Implicit Types (m : result E A) (f : A -> result E B).

Lemma bind_Ok_iff m f b : m ≫= f = Ok b <-> exists a, m = Ok a /\ f a = Ok b.
Proof. destruct m; cbn; naive_solver. Qed.

Lemma bind_Err_iff m f e :
  m ≫= f = Err e <-> m = Err e \/ exists a, m = Ok a /\ f a = Err e.
Proof. destruct m; cbn; naive_solver. Qed.

Lemma bind_no_panic m f :
  no_panic m -> (forall a, m = Ok a -> no_panic (f a)) -> no_panic (m ≫= f).
Proof. unfold no_panic. destruct m; cbn; naive_solver. Qed.

Lemma ok_or_Ok (o : option A) (e : E) a : ok_or o e = Ok a <-> o = Some a.
Proof. destruct o; cbn; naive_solver. Qed.

Lemma ok_or_no_panic (o : option A) (e : E) : no_panic (ok_or o e).
Proof. by destruct o. Qed.

Lemma unwrap_Ok (o : option A) a : @unwrap E A o = Ok a <-> o = Some a.
Proof. destruct o; cbn; naive_solver. Qed.
End ResultLemmas.

Lemma result_bind_assoc {E A B C} (m : result E A) (f : A -> result E B) (g : B -> result E C) :
  (m ≫= f) ≫= g = m ≫= (fun a => f a ≫= g).
Proof. by destruct m. Qed.

(** ** Machine integers *)

Local Open Scope Z_scope.

Definition U8_MAX : Z := 2 ^ 8 - 1.
Definition U16_MAX : Z := 2 ^ 16 - 1.
Definition U32_MAX : Z := 2 ^ 32 - 1.
Definition U64_MAX : Z := 2 ^ 64 - 1.
Definition USIZE_MAX : Z := U64_MAX.
Definition U128_MAX : Z := 2 ^ 128 - 1.
Definition I64_MIN : Z := - 2 ^ 63.
Definition I64_MAX : Z := 2 ^ 63 - 1.

Definition fits (lo hi z : Z) : bool := (lo <=? z) && (z <=? hi).
Definition is_u8 (z : Z) : Prop := 0 <= z <= U8_MAX.
Definition is_u64 (z : Z) : Prop := 0 <= z <= U64_MAX.
Definition is_i64 (z : Z) : Prop := I64_MIN <= z <= I64_MAX.

#[export] Instance is_u8_dec z : Decision (is_u8 z).
Proof. unfold is_u8. apply _. Defined.
#[export] Instance is_u64_dec z : Decision (is_u64 z).
Proof. unfold is_u64. apply _. Defined.
#[export] Instance is_i64_dec z : Decision (is_i64 z).
Proof. unfold is_i64. apply _. Defined.

(** [checked_*]: [None] outside of the type's range. *)
Definition checked (lo hi z : Z) : option Z := if fits lo hi z then Some z else None.

(** Plain [+], [-], [*]: a panic outside of the type's range. *)
Definition arith {E} (lo hi z : Z) : result E Z := if fits lo hi z then Ok z else Panic.

Lemma fits_true lo hi z : fits lo hi z = true <-> lo <= z <= hi.
Proof. unfold fits. rewrite andb_true_iff, !Z.leb_le. done. Qed.

Lemma arith_ok {E} lo hi z : lo <= z <= hi -> @arith E lo hi z = Ok z.
Proof. intros H. unfold arith. by rewrite (proj2 (fits_true lo hi z) H). Qed.

Lemma arith_Ok_iff {E} lo hi z z' : @arith E lo hi z = Ok z' <-> z' = z /\ lo <= z <= hi.
Proof.
  unfold arith. destruct (fits lo hi z) eqn:F.
  - apply fits_true in F. naive_solver.
  - split; [done|]. intros [_ H]. apply fits_true in H. congruence.
Qed.

Lemma checked_ok lo hi z : lo <= z <= hi -> checked lo hi z = Some z.
Proof. intros H. unfold checked. by rewrite (proj2 (fits_true lo hi z) H). Qed.

Lemma checked_Some lo hi z z' : checked lo hi z = Some z' <-> z' = z /\ lo <= z <= hi.
Proof.
  unfold checked. destruct (fits lo hi z) eqn:F.
  - apply fits_true in F. naive_solver.
  - split; [done|]. intros [_ H]. apply fits_true in H. congruence.
Qed.

(** ** Loops

    [while c { s = body(s) }] with a bound on the number of iterations. A loop whose guard is
    still true when the fuel runs out returns that state; the termination lemmas of the
    components show this does not happen. *)
Fixpoint while_fuel {S : Type} (fuel : nat) (c : S -> bool) (body : S -> S) (s : S) : S :=
  match fuel with
  | O => s
  | Datatypes.S n => if c s then while_fuel n c body (body s) else s
  end.

(** ** Bytes *)

(** Little-endian bytes of the low [8 * n] bits of [z]. *)
Fixpoint le_bytes (n : nat) (z : Z) : list Z :=
  match n with
  | O => []
  | S n => z mod 256 :: le_bytes n (z / 256)
  end.

Fixpoint le_value (bs : list Z) : Z :=
  match bs with
  | [] => 0
  | b :: bs => b + 256 * le_value bs
  end.

(** Two's complement reading of a [w]-bit word. *)
Definition to_signed (w z : Z) : Z := if z <? 2 ^ (w - 1) then z else z - 2 ^ w.

Lemma length_le_bytes n z : length (le_bytes n z) = n.
Proof. revert z. induction n as [|n IH]; intros z; cbn; [done|]. by rewrite IH. Qed.

Lemma le_bytes_bytes n z : Forall is_u8 (le_bytes n z).
Proof.
  revert z. induction n as [|n IH]; intros z; cbn; constructor; [|apply IH].
  unfold is_u8, U8_MAX. pose proof (Z.mod_pos_bound z 256). lia.
Qed.

Lemma le_value_bytes n z : le_value (le_bytes n z) = z mod 256 ^ Z.of_nat n.
Proof.
  revert z. induction n as [|n IH]; intros z.
  - cbn. by rewrite Z.mod_1_r.
  - cbn [le_bytes le_value]. rewrite IH, Nat2Z.inj_succ, Z.pow_succ_r by lia.
    rewrite Z.rem_mul_r by lia. lia.
Qed.

Lemma to_signed_mod z : is_i64 z -> to_signed 64 (z mod 2 ^ 64) = z.
Proof.
  unfold is_i64, I64_MIN, I64_MAX, to_signed. intros H.
  change (64 - 1) with 63. destruct (Z.ltb_spec 0 (z + 1)).
  - rewrite Z.mod_small by lia. destruct (Z.ltb_spec z (2 ^ 63)); lia.
  - assert (z mod 2 ^ 64 = z + 2 ^ 64) as ->.
    { symmetry. apply Z.mod_unique_pos with (q := -1); lia. }
    destruct (Z.ltb_spec (z + 2 ^ 64) (2 ^ 63)); lia.
Qed.

Lemma i64_le_bytes z : is_i64 z -> to_signed 64 (le_value (le_bytes 8 z)) = z.
Proof.
  intros H. rewrite le_value_bytes. change (256 ^ Z.of_nat 8) with (2 ^ 64).
  by apply to_signed_mod.
Qed.

(** ** Byte strings in order *)

(** The order of [Vec<u8>]: lexicographic, a prefix first. *)
Fixpoint bytes_compare (a b : list Z) : comparison :=
  match a, b with
  | [], [] => Eq
  | [], _ :: _ => Lt
  | _ :: _, [] => Gt
  | x :: a, y :: b => match x ?= y with Eq => bytes_compare a b | c => c end
  end.

Definition bytes_lt (a b : list Z) : Prop := bytes_compare a b = Lt.
Definition bytes_ltb (a b : list Z) : bool := match bytes_compare a b with Lt => true | _ => false end.

Lemma bytes_compare_eq a b : bytes_compare a b = Eq <-> a = b.
Proof.
  revert b. induction a as [|x a IH]; intros [|y b]; cbn; try done.
  destruct (Z.compare_spec x y); naive_solver lia.
Qed.

Lemma bytes_compare_antisym a b : bytes_compare b a = CompOpp (bytes_compare a b).
Proof.
  revert b. induction a as [|x a IH]; intros [|y b]; cbn; try done.
  rewrite (Z.compare_antisym x y). destruct (x ?= y); cbn; auto.
Qed.

Lemma bytes_lt_irrefl a : ~ bytes_lt a a.
Proof. unfold bytes_lt. by rewrite (proj2 (bytes_compare_eq a a)). Qed.

Lemma bytes_lt_trans a b c : bytes_lt a b -> bytes_lt b c -> bytes_lt a c.
Proof.
  unfold bytes_lt. revert b c. induction a as [|x a IH]; intros [|y b] [|z c]; cbn; try done.
  destruct (Z.compare_spec x y), (Z.compare_spec y z), (Z.compare_spec x z); intros; try done; try lia. by eapply IH.
Qed.

Lemma bytes_ltb_lt a b : bytes_ltb a b = true <-> bytes_lt a b.
Proof. unfold bytes_ltb, bytes_lt. by destruct (bytes_compare a b). Qed.

(** Keys of equal length compare by their common-length prefixes first. *)
Lemma bytes_lt_app a b c d : length a = length b ->
  bytes_lt (a ++ c) (b ++ d) <-> bytes_lt a b \/ a = b /\ bytes_lt c d.
Proof.
  unfold bytes_lt. revert b. induction a as [|x a IH]; intros [|y b]; cbn; try done; [naive_solver|].
  intros [= Hl]. destruct (Z.compare_spec x y) as [->|?|?]; [rewrite IH by done; naive_solver|naive_solver|].
  split; [done|]. intros [?|[[= -> ->] ?]]; [done|lia].
Qed.

(** ** Slices *)

(** [&s[a..b]]: a panic when [a > b] or [b > s.len()]. *)
Definition slice {E A} (s : list A) (a b : nat) : result E (list A) :=
  if decide (a <= b <= length s)%nat then Ok (take (b - a) (drop a s)) else Panic.

(** [&s[a..]] *)
Definition slice_from {E A} (s : list A) (a : nat) : result E (list A) :=
  if decide (a <= length s)%nat then Ok (drop a s) else Panic.

(** [&s[i]] *)
Definition index {E A} (s : list A) (i : nat) : result E A := unwrap (s !! i).

(** [s.chunks_exact(n)]: the consecutive chunks of exactly [n] elements; the remainder is not
    part of the iterator. The number of elements bounds the number of chunks. *)
Fixpoint chunks_exact_fuel {A} (fuel n : nat) (s : list A) : list (list A) :=
  match fuel with
  | O => []
  | S fuel => if decide (n <= length s)%nat then take n s :: chunks_exact_fuel fuel n (drop n s) else []
  end.
Definition chunks_exact {A} (n : nat) (s : list A) : list (list A) := chunks_exact_fuel (length s) n s.

(** [Vec::insert(i, x)]: a panic when [i > len]. *)
Definition vec_insert {E A} (l : list A) (i : nat) (x : A) : result E (list A) :=
  if decide (i <= length l)%nat then Ok (take i l ++ x :: drop i l) else Panic.

(** [Vec::remove(i)]: a panic when [i >= len]. *)
Definition vec_remove {E A} (l : list A) (i : nat) : result E (list A) :=
  if decide (i < length l)%nat then Ok (take i l ++ drop (S i) l) else Panic.

(** [Vec::pop] *)
Definition vec_pop {A} (l : list A) : option (A * list A) :=
  match rev l with
  | [] => None
  | x :: r => Some (x, rev r)
  end.

(** [iter().fold(b, f)] with a fallible [f] *)
Fixpoint foldM {E A B} (f : B -> A -> result E B) (l : list A) (b : B) : result E B :=
  match l with
  | [] => Ok b
  | x :: l => f b x ≫= foldM f l
  end.

(** [iter().position(p)] *)
Fixpoint position {A} (p : A -> bool) (l : list A) : option nat :=
  match l with
  | [] => None
  | x :: l => if p x then Some O else S <$> position p l
  end.

Section SliceLemmas.
Context {E A : Type}.
Implicit Types s t : list A.

Lemma slice_ok s a b : (a <= b <= length s)%nat -> @slice E A s a b = Ok (take (b - a) (drop a s)).
Proof. intros H. unfold slice. by rewrite decide_True. Qed.

Lemma slice_from_ok s a : (a <= length s)%nat -> @slice_from E A s a = Ok (drop a s).
Proof. intros H. unfold slice_from. by rewrite decide_True. Qed.

Lemma slice_at s p q t a b :
  s = p ++ q ++ t -> a = length p -> b = (length p + length q)%nat -> @slice E A s a b = Ok q.
Proof.
  intros -> -> ->. rewrite slice_ok; [|rewrite !length_app; lia]. f_equal.
  rewrite drop_app_length. replace (_ - _)%nat with (length q) by lia. apply take_app_length.
Qed.

Lemma slice_from_at s p q a : s = p ++ q -> a = length p -> @slice_from E A s a = Ok q.
Proof.
  intros -> ->. rewrite slice_from_ok; [|rewrite length_app; lia]. by rewrite drop_app_length.
Qed.

(** The shape of every length-prefixed or fixed-width read: a header byte, [k] payload bytes
    and the rest of the input. *)
Lemma slice_cons_app c s t b :
  b = S (length s) -> @slice E A (c :: s ++ t) 1 b = Ok s.
Proof.
  intros ->. rewrite slice_ok; [|cbn; rewrite length_app; lia].
  f_equal. rewrite skipn_cons, drop_0. replace (S (length s) - 1)%nat with (length s) by lia.
  apply take_app_length.
Qed.

Lemma slice_from_cons_app c s t b :
  b = S (length s) -> @slice_from E A (c :: s ++ t) b = Ok t.
Proof.
  intros ->. rewrite slice_from_ok; [|cbn; rewrite length_app; lia].
  f_equal. rewrite skipn_cons. apply drop_app_length.
Qed.

Lemma chunks_exact_fuel_concat (n : nat) (ls : list (list A)) t fuel :
  (0 < n)%nat -> Forall (fun l => length l = n) ls -> (length (concat ls ++ t) <= fuel)%nat ->
  take (length ls) (chunks_exact_fuel fuel n (concat ls ++ t)) = ls.
Proof.
  intros Hn Hls. revert fuel. induction Hls as [|l ls Hl Hls IH]; intros fuel Hf; [by rewrite take_0|].
  cbn [concat] in *. rewrite <- app_assoc in *. rewrite length_app in Hf.
  destruct fuel as [|fuel]; [lia|]. cbn [chunks_exact_fuel length].
  rewrite decide_True by (rewrite length_app; lia). cbn [take]. f_equal.
  - by rewrite <- Hl, take_app_length.
  - rewrite <- Hl at 2. rewrite drop_app_length. apply IH. lia.
Qed.

Lemma chunks_exact_concat (n : nat) (ls : list (list A)) :
  (0 < n)%nat -> Forall (fun l => length l = n) ls ->
  take (length ls) (chunks_exact n (concat ls)) = ls.
Proof.
  intros Hn Hls. rewrite <- (app_nil_r (concat ls)) at 1.
  apply chunks_exact_fuel_concat; [done..|]. by rewrite app_nil_r.
Qed.

Lemma length_concat_const (n : nat) (ls : list (list A)) :
  Forall (fun l => length l = n) ls -> length (concat ls) = (length ls * n)%nat.
Proof. induction 1 as [|l ls Hl _ IH]; cbn; [done|]. rewrite length_app. lia. Qed.
End SliceLemmas.

Lemma vec_pop_Some {A} (l l' : list A) x : vec_pop l = Some (x, l') <-> l = l' ++ [x].
Proof.
  unfold vec_pop. split.
  - destruct (rev l) as [|y r] eqn:Hr; [done|]. intros [= -> <-].
    by rewrite <- (rev_involutive l), Hr.
  - intros ->. rewrite rev_app_distr. cbn. by rewrite rev_involutive.
Qed.

Lemma vec_pop_snoc {A} (l : list A) x : vec_pop (l ++ [x]) = Some (x, l).
Proof. by apply vec_pop_Some. Qed.

Lemma vec_pop_None {A} (l : list A) : vec_pop l = None <-> l = [].
Proof.
  unfold vec_pop. split; [|by intros ->]. destruct (rev l) as [|y r] eqn:Hr; [|done].
  intros _. by rewrite <- (rev_involutive l), Hr.
Qed.

Lemma mapM_Ok_Forall2 {E A B} (f : A -> result E B) l k :
  mapM f l = Ok k <-> Forall2 (fun x y => f x = Ok y) l k.
Proof.
  split.
  - revert k. induction l as [|x l IH]; intros k; cbn.
    + intros [= <-]. constructor.
    + intros (y & Hy & (ys & Hys & [= <-])%bind_Ok_iff)%bind_Ok_iff. eauto.
  - induction 1 as [|x y l k Hxy _ IH]; cbn; [done|]. rewrite Hxy. cbn. by rewrite IH.
Qed.

Lemma mapM_no_panic {E A B} (f : A -> result E B) l :
  Forall (fun x => no_panic (f x)) l -> no_panic (mapM f l).
Proof.
  induction 1 as [|x l Hx _ IH]; cbn; [done|].
  apply bind_no_panic; [done|]. intros y _. by apply bind_no_panic.
Qed.

Lemma lookup_at {A} (s p q : list A) x i : s = p ++ x :: q -> i = length p -> s !! i = Some x.
Proof. intros -> ->. by apply list_lookup_middle. Qed.

Lemma Forall2_snoc_inv {A B} (P : A -> B -> Prop) l k x y :
  Forall2 P (l ++ [x]) (k ++ [y]) -> Forall2 P l k /\ P x y.
Proof.
  intros H. apply Forall2_app_inv in H as [H1 H2].
  - by inversion_clear H2.
  - apply Forall2_length in H. rewrite !length_app in H. cbn in H. lia.
Qed.

(** Folds, and invariants of folds over the positions of a list. *)
Lemma foldM_app {E A S} (g : S -> A -> result E S) l1 l2 s : foldM g (l1 ++ l2) s = foldM g l1 s ≫= foldM g l2.
Proof.
  revert s. induction l1 as [|x l1 IH]; intros s; cbn; [done|]. destruct (g s x); cbn; [apply IH|done|done].
Qed.

(** A loop whose state is a function of the elements it has seen. *)
Lemma foldM_prefix {E A S} (f : S -> A -> result E S) (l : list A) (st : list A -> S) :
  (forall done x rest, l = done ++ x :: rest -> f (st done) x = Ok (st (done ++ [x]))) -> foldM f l (st []) = Ok (st l).
Proof.
  intros Hf. cut (forall rest done, l = done ++ rest -> foldM f rest (st done) = Ok (st l)); [intros H; by apply (H l [])|].
  induction rest as [|x rest IH]; intros done Hl; cbn [foldM]; [by rewrite Hl, app_nil_r|].
  rewrite (Hf done x rest Hl). cbn. apply IH. by rewrite <- app_assoc.
Qed.

Lemma foldM_imap_inv {E X B} (f : B -> nat * X -> result E B) (l : list X) (P : nat -> B -> Prop) b :
  (forall i x b, l !! i = Some x -> P i b -> exists b', f b (i, x) = Ok b' /\ P (S i) b') ->
  P 0%nat b -> exists b', foldM f (imap pair l) b = Ok b' /\ P (length l) b'.
Proof.
  induction l as [|x l IH] using rev_ind; intros Hf Hb; [by exists b|].
  destruct IH as (b1 & Hb1 & HP1); [|done|].
  { intros i y b' Hl. apply Hf. by apply lookup_app_l_Some. }
  destruct (Hf (length l) x b1) as (b2 & Hb2 & HP2); [by apply list_lookup_middle|done|].
  exists b2. rewrite imap_app, foldM_app, Hb1, length_app, Nat.add_1_r. cbn. rewrite Nat.add_0_r, Hb2. done.
Qed.

Lemma foldM_seq_inv {E B} (f : B -> nat -> result E B) (n : nat) (P : nat -> B -> Prop) b :
  (forall i b, (i < n)%nat -> P i b -> exists b', f b i = Ok b' /\ P (S i) b') ->
  P 0%nat b -> exists b', foldM f (seq 0 n) b = Ok b' /\ P n b'.
Proof.
  induction n as [|n IH]; intros Hf Hb; [by exists b|]. destruct IH as (b1 & Hb1 & HP1); [by eauto|done|].
  destruct (Hf n b1) as (b2 & Hb2 & HP2); [lia|done|]. exists b2. rewrite seq_S, foldM_app, Hb1. cbn. by rewrite Hb2.
Qed.

(** A sum of non-negative machine integers is exact or aborts. *)
Definition sum_Z (l : list Z) : Z := foldr Z.add 0 l.

Lemma sum_Z_app l1 l2 : sum_Z (l1 ++ l2) = sum_Z l1 + sum_Z l2.
Proof. unfold sum_Z. induction l1 as [|x l1 IH]; cbn [app foldr]; lia. Qed.

Lemma sum_Z_nonneg l : Forall (Z.le 0) l -> 0 <= sum_Z l.
Proof. unfold sum_Z. induction 1; cbn [foldr]; lia. Qed.

Lemma foldM_sum {E} hi l b :
  Forall (Z.le 0) l -> 0 <= b ->
  (b + sum_Z l <= hi -> foldM (fun acc s => @arith E 0 hi (acc + s)) l b = Ok (b + sum_Z l)) /\
  (forall r, foldM (fun acc s => @arith E 0 hi (acc + s)) l b = Ok r -> r = b + sum_Z l /\ (l <> [] -> r <= hi)).
Proof.
  intros Hl. revert b. induction Hl as [|x l Hx Hl IH]; intros b Hb; cbn [foldM].
  - split; [intros _; f_equal; cbn; lia|]. intros r [= <-]. cbn. split; [lia|done].
  - destruct (IH (b + x)) as [IH1 IH2]; [lia|]. pose proof (sum_Z_nonneg l Hl).
    change (sum_Z (x :: l)) with (x + sum_Z l). split.
    + intros Hmax. rewrite arith_ok by lia. cbn [mbind result_bind]. rewrite IH1 by lia. f_equal. lia.
    + intros r (c & [-> Hc]%arith_Ok_iff & Hr)%bind_Ok_iff. destruct (IH2 r Hr) as [-> Hle]. split; [lia|]. intros _.
      destruct l as [|y l]; [cbn; lia|by apply Hle].
Qed.

(** ** Automation *)

(** [inv_bind H] splits a successful sequence of fallible steps into its steps. *)
Ltac inv_bind H :=
  repeat match type of H with
  | _ ≫= _ = Ok _ =>
      let a := fresh "r" in let Ha := fresh "Hr" in
      apply bind_Ok_iff in H; destruct H as (a & Ha & H)
  | ok_or _ _ = Ok _ => apply ok_or_Ok in H
  | unwrap _ = Ok _ => apply unwrap_Ok in H
  | Ok _ = Ok _ => injection H as H
  end.

(** Side conditions of [slice_at] and [slice_from_at]: an equation between appends, or between
    a position and a length. *)
Ltac solve_slice :=
  first [ cbn [app]; rewrite <- ?app_assoc; reflexivity
        | rewrite ?length_app; cbn [length]; rewrite ?length_app, ?length_le_bytes; lia ].

(** Equality of tuples (also under a constructor) with arithmetic in the components. *)
Ltac pair_lia :=
  repeat match goal with
  | |- (_, _) = (_, _) => f_equal
  | |- Some _ = Some _ => f_equal
  | |- Ok _ = Ok _ => f_equal
  | |- _ ++ _ = _ ++ _ => f_equal
  | |- _ :: _ = _ :: _ => f_equal
  end; first [done | lia].

(** A closed decidable statement, by running its decision procedure. *)
Ltac by_evaluation := refine (bool_decide_unpack _ _); vm_compute; exact I.

Create HintDb tari discriminated.
#[export] Hint Resolve ok_or_no_panic mapM_no_panic length_le_bytes le_bytes_bytes : tari.
#[export] Hint Extern 0 (no_panic (Ok _)) => discriminate : tari.
#[export] Hint Extern 0 (no_panic (Err _)) => discriminate : tari.
#[export] Hint Extern 1 (no_panic (_ ≫= _)) => apply bind_no_panic; [|intros ? ?] : tari.
