(* ===== verification/ScriptTypes.v ===== *)
(** * TariScript: errors and the cryptographic interface

    [ScriptError] (src/infrastructure/tari_script/src/error.rs), and the operations of the
    third-party crates [tari_crypto], [integer_encoding], [digest] and the hash crates that the
    script code calls, as a class of operations [ScriptCrypto] with the laws the script code
    relies on in [ScriptCryptoLaws]. *)

From S2P Require Import Prelude.

Local Open Scope Z_scope.

(** src/infrastructure/tari_script/src/error.rs *)
Inductive ScriptError :=
| EReturn
| StackOverflow
| NonUnitLengthStack
| StackUnderflow
| IncompatibleTypes
| ValueExceedsBounds
| InvalidOpcode
| MissingOpcode
| InvalidSignature
| InvalidInput
| InvalidData
| VerifyFailed
| InvalidDigest.

#[export] Instance ScriptError_eq_dec : EqDecision ScriptError.
Proof. solve_decision. Defined.

(** The kinds of [std::io::Error] that the Borsh implementations return. *)
Inductive IoError := UnexpectedEof | IoInvalidData | IoInvalidInput.

(** Bytes are [u8] values in [Z]. *)
Abbreviation bytes := (list Z).

Class ScriptCrypto := {
  (* tari_crypto::ristretto::RistrettoPublicKey *)
  RistrettoPublicKey : Type;
  pk_eq_dec :: EqDecision RistrettoPublicKey;
  pk_from_bytes : bytes -> option RistrettoPublicKey;
  pk_as_bytes : RistrettoPublicKey -> bytes;
  pk_add : RistrettoPublicKey -> RistrettoPublicKey -> RistrettoPublicKey;
  pk_default : RistrettoPublicKey;
  (* tari_crypto::ristretto::RistrettoSecretKey *)
  RistrettoSecretKey : Type;
  sk_from_bytes : bytes -> option RistrettoSecretKey;
  sk_as_bytes : RistrettoSecretKey -> bytes;
  pk_from_secret_key : RistrettoSecretKey -> RistrettoPublicKey;
  (* tari_crypto::ristretto::pedersen::PedersenCommitment *)
  PedersenCommitment : Type;
  com_eq_dec :: EqDecision PedersenCommitment;
  com_from_bytes : bytes -> option PedersenCommitment;
  com_as_bytes : PedersenCommitment -> bytes;
  com_default : PedersenCommitment;
  com_add : PedersenCommitment -> PedersenCommitment -> PedersenCommitment;
  com_sub : PedersenCommitment -> PedersenCommitment -> PedersenCommitment;
  (* tari_crypto::ristretto::RistrettoSchnorr *)
  RistrettoSchnorr : Type;
  sig_eq_dec :: EqDecision RistrettoSchnorr;
  sig_new : RistrettoPublicKey -> RistrettoSecretKey -> RistrettoSchnorr;
  get_public_nonce : RistrettoSchnorr -> RistrettoPublicKey;
  get_signature : RistrettoSchnorr -> RistrettoSecretKey;
  sig_add : RistrettoSchnorr -> RistrettoSchnorr -> RistrettoSchnorr;
  verify_challenge : RistrettoSchnorr -> RistrettoPublicKey -> bytes -> bool;
  (* D::digest(b) for the three digests of the opcodes *)
  blake256 : bytes -> bytes;
  sha256 : bytes -> bytes;
  sha3_256 : bytes -> bytes;
  (* integer_encoding::VarInt for u64 and i64: the encoded bytes; the value and the number of
     bytes read *)
  encode_var_u64 : Z -> bytes;
  decode_var_u64 : bytes -> option (Z * nat);
  encode_var_i64 : Z -> bytes;
  decode_var_i64 : bytes -> option (Z * nat);
  (* integer_encoding::{VarIntWriter, VarIntReader} for usize: the bytes written; the value read
     and the rest of the buffer *)
  write_varint : Z -> bytes;
  read_varint : bytes -> option (Z * bytes);
}.

(** The documented behaviour of these crates: fixed-width encodings that decode to what was
    encoded, prefix-decodable variable-length integers, decoders that read no more bytes than
    they are given and return values of their type, and 32-byte digests. *)
Class ScriptCryptoLaws (C : ScriptCrypto) : Prop := {
  pk_roundtrip k : pk_from_bytes (pk_as_bytes k) = Some k;
  pk_length k : length (pk_as_bytes k) = 32%nat;
  sk_roundtrip k : sk_from_bytes (sk_as_bytes k) = Some k;
  sk_length k : length (sk_as_bytes k) = 32%nat;
  com_roundtrip c : com_from_bytes (com_as_bytes c) = Some c;
  com_length c : length (com_as_bytes c) = 32%nat;
  sig_eta s : sig_new (get_public_nonce s) (get_signature s) = s;
  var_u64_roundtrip v rest :
    is_u64 v -> decode_var_u64 (encode_var_u64 v ++ rest) = Some (v, length (encode_var_u64 v));
  var_u64_bound bs v n : decode_var_u64 bs = Some (v, n) -> (n <= length bs)%nat;
  var_u64_range bs v n : decode_var_u64 bs = Some (v, n) -> is_u64 v;
  var_i64_roundtrip v rest :
    is_i64 v -> decode_var_i64 (encode_var_i64 v ++ rest) = Some (v, length (encode_var_i64 v));
  var_i64_bound bs v n : decode_var_i64 bs = Some (v, n) -> (n <= length bs)%nat;
  var_i64_range bs v n : decode_var_i64 bs = Some (v, n) -> is_i64 v;
  varint_roundtrip v rest : is_u64 v -> read_varint (write_varint v ++ rest) = Some (v, rest);
  blake256_length b : length (blake256 b) = 32%nat;
  sha256_length b : length (sha256 b) = 32%nat;
  sha3_256_length b : length (sha3_256 b) = 32%nat;
}.

#[export] Hint Resolve pk_length sk_length com_length var_u64_bound var_i64_bound
  blake256_length sha256_length sha3_256_length : tari.
