(* ===== verification/CryptoModel.v ===== *)
(** * A concrete model of the cryptographic interface

    An instance of [ScriptCrypto] that satisfies [ScriptCryptoLaws] and evaluates: scalars and
    group elements are the integers modulo 256, written as 32 bytes, and signatures are Schnorr
    signatures over that group ([s = r + e * k]). The examples of the script components run the
    machine on it. *)

From S2P Require Import Prelude ScriptTypes.
From Stdlib Require Import Ascii.

Local Open Scope Z_scope.

Module Mod256.

Definition to_z (a : ascii) : Z := Z.of_N (N_of_ascii a).
Definition of_z (z : Z) : ascii := ascii_of_N (Z.to_N (z mod 256)).

Definition enc (a : ascii) : bytes := to_z a :: replicate 31 0.

Definition dec (b : bytes) : option ascii :=
  match b with
  | x :: r => if decide (0 <= x < 256 /\ r = replicate 31 0) then Some (of_z x) else None
  | [] => None
  end.

Record schnorr := { nonce : ascii; response : ascii }.

#[export] Instance schnorr_eq_dec : EqDecision schnorr.
Proof. solve_decision. Defined.

Definition add (x y : ascii) : ascii := of_z (to_z x + to_z y).
Definition sub (x y : ascii) : ascii := of_z (to_z x - to_z y).

(** [s = r + e * k] with the challenge [e] the sum of the message bytes. *)
Definition schnorr_verify (s : schnorr) (k : ascii) (m : bytes) : bool :=
  bool_decide (response s = of_z (to_z (nonce s) + foldr Z.add 1 m * to_z k)).

Definition sign (k r : ascii) (m : bytes) : schnorr :=
  {| nonce := r; response := of_z (to_z r + foldr Z.add 1 m * to_z k) |}.

Definition enc_word (v : Z) : bytes := le_bytes 8 v.
Definition dec_word (b : bytes) : option (Z * nat) :=
  if decide (8 <= length b)%nat then Some (le_value (take 8 b) mod 2 ^ 64, 8%nat) else None.
Definition dec_signed (b : bytes) : option (Z * nat) :=
  '(v, n) ← dec_word b; Some (to_signed 64 v, n).

(** 256 bits of state. *)
Definition MASK : Z := Eval vm_compute in Z.ones 256.
Definition mix (b : bytes) : Z := foldl (fun h x => Z.land (257 * h + x + 1) MASK) 0 b.
Definition digest (seed : Z) (b : bytes) : bytes := le_bytes 32 (mix (seed :: b)).

#[export] Instance crypto : ScriptCrypto := {|
  RistrettoPublicKey := ascii; pk_from_bytes := dec; pk_as_bytes := enc; pk_add := add; pk_default := of_z 0;
  RistrettoSecretKey := ascii; sk_from_bytes := dec; sk_as_bytes := enc; pk_from_secret_key k := k;
  PedersenCommitment := ascii; com_from_bytes := dec; com_as_bytes := enc; com_default := of_z 0;
  com_add := add; com_sub := sub;
  RistrettoSchnorr := schnorr; sig_new := Build_schnorr; get_public_nonce := nonce; get_signature := response;
  sig_add s t := {| nonce := add (nonce s) (nonce t); response := add (response s) (response t) |};
  verify_challenge := schnorr_verify;
  blake256 := digest 1; sha256 := digest 2; sha3_256 := digest 3;
  encode_var_u64 := enc_word; decode_var_u64 := dec_word;
  encode_var_i64 := enc_word; decode_var_i64 := dec_signed;
  write_varint := enc_word;
  read_varint b := '(v, n) ← dec_word b; Some (v, drop n b);
|}.

Lemma to_z_range a : 0 <= to_z a < 256.
Proof. unfold to_z. pose proof (N_ascii_bounded a). lia. Qed.

Lemma of_to_z a : of_z (to_z a) = a.
Proof.
  unfold of_z. rewrite Z.mod_small by apply to_z_range. unfold to_z. rewrite N2Z.id. apply ascii_N_embedding.
Qed.

Lemma dec_enc a : dec (enc a) = Some a.
Proof. unfold dec, enc. rewrite decide_True by (split; [apply to_z_range|done]). by rewrite of_to_z. Qed.

Lemma enc_length a : length (enc a) = 32%nat.
Proof. done. Qed.

Lemma dec_word_app v rest : dec_word (enc_word v ++ rest) = Some (v mod 2 ^ 64, 8%nat).
Proof.
  unfold dec_word, enc_word.
  rewrite decide_True by (rewrite length_app, length_le_bytes; lia).
  rewrite (take_app_le _ _ 8), take_ge by (rewrite length_le_bytes; lia).
  rewrite le_value_bytes. change (256 ^ Z.of_nat 8) with (2 ^ 64). by rewrite Z.mod_mod.
Qed.

Lemma dec_word_Some b v n : dec_word b = Some (v, n) -> (n <= length b)%nat /\ is_u64 v.
Proof.
  unfold dec_word. case_decide; [|done]. intros [= <- <-]. split; [done|].
  unfold is_u64, U64_MAX. pose proof (Z.mod_pos_bound (le_value (take 8 b)) (2 ^ 64)). lia.
Qed.

#[export] Instance laws : ScriptCryptoLaws crypto.
Proof.
  split; cbn -[dec_word enc_word digest dec enc]; try (intros; apply dec_enc); try (intros; apply enc_length).
  - by intros [].
  - intros v rest Hv. unfold is_u64, U64_MAX in Hv. rewrite dec_word_app, Z.mod_small by lia.
    done.
  - intros b v n H. by apply dec_word_Some in H as [? _].
  - intros b v n H. by apply dec_word_Some in H as [_ ?].
  - intros v rest Hv. unfold dec_signed. rewrite dec_word_app. cbn. rewrite to_signed_mod by done.
    done.
  - intros b v n. unfold dec_signed. destruct (dec_word b) as [[w k]|] eqn:H; [|done].
    intros [= <- <-]. by apply dec_word_Some in H as [? _].
  - intros b v n. unfold dec_signed. destruct (dec_word b) as [[w k]|] eqn:H; [|done].
    intros [= <- <-]. apply dec_word_Some in H as [_ Hw]. unfold is_u64, is_i64, U64_MAX, I64_MIN, I64_MAX in *.
    unfold to_signed. change (64 - 1) with 63. destruct (Z.ltb_spec w (2 ^ 63)); lia.
  - intros v rest Hv. unfold is_u64, U64_MAX in Hv. rewrite dec_word_app. cbn. by rewrite Z.mod_small by lia.
  - intros b. apply length_le_bytes.
  - intros b. apply length_le_bytes.
  - intros b. apply length_le_bytes.
Qed.

End Mod256.
