(* ===== verification/Opcodes.v ===== *)
(** * TariScript opcodes and their binary encoding

    src/infrastructure/tari_script/src/op_codes.rs: the opcode constants, the [Opcode] enum,
    [Opcode::read_next], [Opcode::read_multisig_args], [Opcode::parse] and
    [Opcode::to_bytes]. *)

From S2P Require Import Prelude ScriptTypes.

Local Open Scope Z_scope.

Definition PUBLIC_KEY_LENGTH : nat := 32.
Definition MESSAGE_LENGTH : nat := 32.

(** ** Opcode constants *)
Abbreviation OP_CHECK_HEIGHT_VERIFY := 0x66.
Abbreviation OP_CHECK_HEIGHT := 0x67.
Abbreviation OP_COMPARE_HEIGHT_VERIFY := 0x68.
Abbreviation OP_COMPARE_HEIGHT := 0x69.
Abbreviation OP_DROP := 0x70.
Abbreviation OP_DUP := 0x71.
Abbreviation OP_REV_ROT := 0x72.
Abbreviation OP_PUSH_HASH := 0x7a.
Abbreviation OP_PUSH_ZERO := 0x7b.
Abbreviation OP_NOP := 0x73.
Abbreviation OP_PUSH_ONE := 0x7c.
Abbreviation OP_PUSH_INT := 0x7d.
Abbreviation OP_PUSH_PUBKEY := 0x7e.
Abbreviation OP_EQUAL := 0x80.
Abbreviation OP_EQUAL_VERIFY := 0x81.
Abbreviation OP_ADD := 0x93.
Abbreviation OP_SUB := 0x94.
Abbreviation OP_GE_ZERO := 0x82.
Abbreviation OP_GT_ZERO := 0x83.
Abbreviation OP_LE_ZERO := 0x84.
Abbreviation OP_LT_ZERO := 0x85.
Abbreviation OP_OR_VERIFY := 0x64.
Abbreviation OP_OR := 0x65.
Abbreviation OP_CHECK_SIG := 0xac.
Abbreviation OP_CHECK_SIG_VERIFY := 0xad.
Abbreviation OP_CHECK_MULTI_SIG := 0xae.
Abbreviation OP_CHECK_MULTI_SIG_VERIFY := 0xaf.
Abbreviation OP_HASH_BLAKE256 := 0xb0.
Abbreviation OP_HASH_SHA256 := 0xb1.
Abbreviation OP_HASH_SHA3 := 0xb2.
Abbreviation OP_TO_RISTRETTO_POINT := 0xb3.
Abbreviation OP_CHECK_MULTI_SIG_VERIFY_AGGREGATE_PUB_KEY := 0xb4.
Abbreviation OP_RETURN := 0x60.
Abbreviation OP_IF_THEN := 0x61.
Abbreviation OP_ELSE := 0x62.
Abbreviation OP_END_IF := 0x63.

Inductive OpcodeVersion := V0.

Section Opcodes.
Context {C : ScriptCrypto}.

(** [HashValue] and [Message] are [[u8; 32]]: byte lists of length 32. *)
Inductive Opcode :=
| CheckHeightVerify (height : Z)
| CheckHeight (height : Z)
| CompareHeightVerify
| CompareHeight
| Nop
| PushZero
| PushOne
| PushHash (h : bytes)
| PushInt (n : Z)
| PushPubKey (p : RistrettoPublicKey)
| Drop
| Dup
| RevRot
| GeZero
| GtZero
| LeZero
| LtZero
| Add
| Sub
| Equal
| EqualVerify
| Or (n : Z)
| OrVerify (n : Z)
| HashBlake256
| HashSha256
| HashSha3
| CheckSig (msg : bytes)
| CheckSigVerify (msg : bytes)
| CheckMultiSig (m n : Z) (public_keys : list RistrettoPublicKey) (msg : bytes)
| CheckMultiSigVerify (m n : Z) (public_keys : list RistrettoPublicKey) (msg : bytes)
| CheckMultiSigVerifyAggregatePubKey (m n : Z) (public_keys : list RistrettoPublicKey) (msg : bytes)
| ToRistrettoPoint
| Return
| IfThen
| Else
| EndIf.

#[export] Instance Opcode_eq_dec : EqDecision Opcode.
Proof. solve_decision. Defined.

Definition get_version (op : Opcode) : OpcodeVersion :=
  match op with
  | CheckHeightVerify _ | CheckHeight _ | CompareHeightVerify | CompareHeight | Nop | PushZero
  | PushOne | PushHash _ | PushInt _ | PushPubKey _ | Drop | Dup | RevRot | GeZero | GtZero
  | LeZero | LtZero | Add | Sub | Equal | EqualVerify | Or _ | OrVerify _ | HashBlake256
  | HashSha256 | HashSha3 | CheckSig _ | CheckSigVerify _ | CheckMultiSig _ _ _ _
  | CheckMultiSigVerify _ _ _ _ | CheckMultiSigVerifyAggregatePubKey _ _ _ _
  | ToRistrettoPoint | Return | IfThen | Else | EndIf => V0
  end.

(** ** Decoding *)

(** [copy_from_slice] into a 32-byte array panics on any other length. *)
Definition slice_to_hash (s : bytes) : result ScriptError bytes :=
  if decide (length s = 32%nat) then Ok s else Panic.

Definition slice_to_message (s : bytes) : result ScriptError bytes :=
  if decide (length s = MESSAGE_LENGTH) then Ok s else Panic.

(** [impl From<ByteArrayError> for ScriptError] *)
Definition pk_from_bytes_res (b : bytes) : result ScriptError RistrettoPublicKey :=
  ok_or (pk_from_bytes b) InvalidData.

Definition slice_to_vec_pubkeys (s : bytes) (num : nat) : result ScriptError (list RistrettoPublicKey) :=
  if decide (length s < num * PUBLIC_KEY_LENGTH)%nat then Err InvalidData
  else mapM pk_from_bytes_res (take num (chunks_exact PUBLIC_KEY_LENGTH s)).

Definition read_multisig_args (b : bytes) : result ScriptError (Z * Z * list RistrettoPublicKey * bytes * nat) :=
  if decide (length b < 3)%nat then Err InvalidData
  else
    m ← index b 1;
    n ← index b 2;
    let num := Z.to_nat n in
    let len := (3 + num * PUBLIC_KEY_LENGTH)%nat in
    let end_ := (len + MESSAGE_LENGTH)%nat in
    if decide (length b < end_)%nat then Err InvalidData
    else
      keys ← (s ← slice b 3 len; slice_to_vec_pubkeys s num);
      msg ← (s ← slice b len end_; slice_to_message s);
      Ok (m, n, keys, msg, end_).

(** An opcode without data. *)
Definition read_plain (op : Opcode) (b : bytes) : result ScriptError (Opcode * bytes) :=
  rest ← slice_from b 1;
  Ok (op, rest).

(** [decode_var(&bytes[1..])] *)
Definition read_var (decode : bytes -> option (Z * nat)) (op : Z -> Opcode) (b : bytes)
    : result ScriptError (Opcode * bytes) :=
  data ← slice_from b 1;
  '(v, size) ← ok_or (decode data) InvalidData;
  rest ← slice_from b (size + 1);
  Ok (op v, rest).

(** A 32-byte payload converted by [conv]. *)
Definition read_32 {A} (conv : bytes -> result ScriptError A) (op : A -> Opcode) (b : bytes)
    : result ScriptError (Opcode * bytes) :=
  if decide (length b < 33)%nat then Err InvalidData
  else
    x ← (s ← slice b 1 33; conv s);
    rest ← slice_from b 33;
    Ok (op x, rest).

(** A one-byte payload. *)
Definition read_u8 (op : Z -> Opcode) (b : bytes) : result ScriptError (Opcode * bytes) :=
  if decide (length b < 2)%nat then Err InvalidData
  else
    n ← index b 1;
    rest ← slice_from b 2;
    Ok (op n, rest).

Definition read_multisig (op : Z -> Z -> list RistrettoPublicKey -> bytes -> Opcode) (b : bytes)
    : result ScriptError (Opcode * bytes) :=
  '(m, n, keys, msg, end_) ← read_multisig_args b;
  rest ← slice_from b end_;
  Ok (op m n keys msg, rest).

Definition read_next (b : bytes) : result ScriptError (Opcode * bytes) :=
  code ← ok_or (head b) InvalidOpcode;
  match code with
  | 0x66 => read_var decode_var_u64 CheckHeightVerify b
  | 0x67 => read_var decode_var_u64 CheckHeight b
  | 0x68 => read_plain CompareHeightVerify b
  | 0x69 => read_plain CompareHeight b
  | 0x73 => read_plain Nop b
  | 0x7b => read_plain PushZero b
  | 0x7c => read_plain PushOne b
  | 0x7a => read_32 slice_to_hash PushHash b
  | 0x7d => read_var decode_var_i64 PushInt b
  | 0x7e => read_32 pk_from_bytes_res PushPubKey b
  | 0x70 => read_plain Drop b
  | 0x71 => read_plain Dup b
  | 0x72 => read_plain RevRot b
  | 0x82 => read_plain GeZero b
  | 0x83 => read_plain GtZero b
  | 0x84 => read_plain LeZero b
  | 0x85 => read_plain LtZero b
  | 0x93 => read_plain Add b
  | 0x94 => read_plain Sub b
  | 0x80 => read_plain Equal b
  | 0x81 => read_plain EqualVerify b
  | 0x65 => read_u8 Or b
  | 0x64 => read_u8 OrVerify b
  | 0xb0 => read_plain HashBlake256 b
  | 0xb1 => read_plain HashSha256 b
  | 0xb2 => read_plain HashSha3 b
  | 0xac => read_32 slice_to_message CheckSig b
  | 0xad => read_32 slice_to_message CheckSigVerify b
  | 0xae => read_multisig CheckMultiSig b
  | 0xaf => read_multisig CheckMultiSigVerify b
  | 0xb4 => read_multisig CheckMultiSigVerifyAggregatePubKey b
  | 0xb3 => read_plain ToRistrettoPoint b
  | 0x60 => read_plain Return b
  | 0x61 => read_plain IfThen b
  | 0x62 => read_plain Else b
  | 0x63 => read_plain EndIf b
  | _ => Err InvalidOpcode
  end.

(** The loop of [Opcode::parse]. The number of input bytes bounds the number of iterations:
    every opcode takes at least one byte ([read_next_shorter]). *)
Fixpoint parse_loop (fuel : nat) (bytes_copy : bytes) (script : list Opcode)
    : result ScriptError (list Opcode) :=
  match bytes_copy with
  | [] => Ok script
  | _ =>
      match fuel with
      | O => Panic
      | S fuel =>
          '(opcode, bytes_left) ← read_next bytes_copy;
          parse_loop fuel bytes_left (script ++ [opcode])
      end
  end.

Definition parse (b : bytes) : result ScriptError (list Opcode) := parse_loop (length b) b [].

(** ** Encoding *)

(** The bytes [Opcode::to_bytes] appends. *)
Definition opcode_bytes (op : Opcode) : bytes :=
  match op with
  | CheckHeightVerify height => OP_CHECK_HEIGHT_VERIFY :: encode_var_u64 height
  | CheckHeight height => OP_CHECK_HEIGHT :: encode_var_u64 height
  | CompareHeightVerify => [OP_COMPARE_HEIGHT_VERIFY]
  | CompareHeight => [OP_COMPARE_HEIGHT]
  | Nop => [OP_NOP]
  | PushZero => [OP_PUSH_ZERO]
  | PushOne => [OP_PUSH_ONE]
  | PushHash h => OP_PUSH_HASH :: h
  | PushInt n => OP_PUSH_INT :: encode_var_i64 n
  | PushPubKey p => OP_PUSH_PUBKEY :: pk_as_bytes p
  | Drop => [OP_DROP]
  | Dup => [OP_DUP]
  | RevRot => [OP_REV_ROT]
  | GeZero => [OP_GE_ZERO]
  | GtZero => [OP_GT_ZERO]
  | LeZero => [OP_LE_ZERO]
  | LtZero => [OP_LT_ZERO]
  | Add => [OP_ADD]
  | Sub => [OP_SUB]
  | Equal => [OP_EQUAL]
  | EqualVerify => [OP_EQUAL_VERIFY]
  | Or n => [OP_OR; n]
  | OrVerify n => [OP_OR_VERIFY; n]
  | HashBlake256 => [OP_HASH_BLAKE256]
  | HashSha256 => [OP_HASH_SHA256]
  | HashSha3 => [OP_HASH_SHA3]
  | CheckSig msg => OP_CHECK_SIG :: msg
  | CheckSigVerify msg => OP_CHECK_SIG_VERIFY :: msg
  | CheckMultiSig m n public_keys msg =>
      OP_CHECK_MULTI_SIG :: m :: n :: concat (map pk_as_bytes public_keys) ++ msg
  | CheckMultiSigVerify m n public_keys msg =>
      OP_CHECK_MULTI_SIG_VERIFY :: m :: n :: concat (map pk_as_bytes public_keys) ++ msg
  | CheckMultiSigVerifyAggregatePubKey m n public_keys msg =>
      OP_CHECK_MULTI_SIG_VERIFY_AGGREGATE_PUB_KEY :: m :: n :: concat (map pk_as_bytes public_keys) ++ msg
  | ToRistrettoPoint => [OP_TO_RISTRETTO_POINT]
  | Return => [OP_RETURN]
  | IfThen => [OP_IF_THEN]
  | Else => [OP_ELSE]
  | EndIf => [OP_END_IF]
  end.

(** [Opcode::to_bytes(&self, array)]: [array] with the opcode's bytes appended. *)
Definition Opcode_to_bytes (op : Opcode) (array : bytes) : bytes := array ++ opcode_bytes op.

(** The values a Rust [Opcode] can hold (widths of the integers, lengths of the arrays), and
    the one constraint the encoding relies on beyond the types: a multisig opcode carries
    exactly [n] public keys. *)
Definition opcode_wf (op : Opcode) : Prop :=
  match op with
  | CheckHeightVerify h | CheckHeight h => is_u64 h
  | PushInt n => is_i64 n
  | PushHash h | CheckSig h | CheckSigVerify h => length h = 32%nat
  | Or n | OrVerify n => is_u8 n
  | CheckMultiSig m n ks msg | CheckMultiSigVerify m n ks msg
  | CheckMultiSigVerifyAggregatePubKey m n ks msg =>
      is_u8 m /\ is_u8 n /\ length ks = Z.to_nat n /\ length msg = 32%nat
  | _ => True
  end.

End Opcodes.

(** ** Round trip *)
Section RoundTrip.
Context {C : ScriptCrypto} {L : ScriptCryptoLaws C}.
Implicit Types (op : Opcode) (b rest : bytes).

Lemma read_plain_cons op c rest : read_plain op (c :: rest) = Ok (op, rest).
Proof. unfold read_plain. rewrite slice_from_ok by (cbn; lia). cbn. by rewrite drop_0. Qed.

Lemma read_var_app decode (encode : Z -> bytes) (mk : Z -> Opcode) c v rest :
  decode (encode v ++ rest) = Some (v, length (encode v)) ->
  read_var decode mk (c :: encode v ++ rest) = Ok (mk v, rest).
Proof.
  intros Hd. unfold read_var. rewrite slice_from_ok by (cbn; lia).
  cbn [mbind result_bind]. rewrite skipn_cons, drop_0, Hd. cbn [ok_or mbind result_bind].
  rewrite (slice_from_cons_app c (encode v) rest) by lia. done.
Qed.

Lemma read_32_app {A} (conv : bytes -> result ScriptError A) (mk : A -> Opcode) c p x rest :
  length p = 32%nat -> conv p = Ok x -> read_32 conv mk (c :: p ++ rest) = Ok (mk x, rest).
Proof.
  intros Hp Hc. unfold read_32. rewrite decide_False by (cbn; rewrite length_app; lia).
  rewrite (slice_cons_app c p rest), (slice_from_cons_app c p rest) by lia.
  cbn [mbind result_bind]. by rewrite Hc.
Qed.

Lemma read_u8_cons (mk : Z -> Opcode) c n rest : read_u8 mk (c :: n :: rest) = Ok (mk n, rest).
Proof.
  unfold read_u8. rewrite decide_False by (cbn; lia). cbn.
  rewrite slice_from_ok by (cbn; lia). cbn. by rewrite drop_0.
Qed.

Lemma slice_to_hash_ok b : length b = 32%nat -> slice_to_hash b = Ok b.
Proof. intros H. unfold slice_to_hash. by rewrite decide_True. Qed.

Lemma slice_to_message_ok b : length b = 32%nat -> slice_to_message b = Ok b.
Proof. intros H. unfold slice_to_message, MESSAGE_LENGTH. by rewrite decide_True. Qed.

Lemma pk_from_bytes_res_ok k : pk_from_bytes_res (pk_as_bytes k) = Ok k.
Proof. unfold pk_from_bytes_res. by rewrite pk_roundtrip. Qed.

Lemma pk_bytes_32 ks : Forall (fun l => length l = 32%nat) (map pk_as_bytes ks).
Proof. apply Forall_fmap, Forall_true. intros k. apply pk_length. Qed.

Lemma slice_to_vec_pubkeys_app ks :
  slice_to_vec_pubkeys (concat (map pk_as_bytes ks)) (length ks) = Ok ks.
Proof.
  unfold slice_to_vec_pubkeys, PUBLIC_KEY_LENGTH.
  rewrite (length_concat_const 32) by apply pk_bytes_32.
  rewrite length_map, decide_False by lia.
  rewrite <- (length_map pk_as_bytes ks) at 1.
  rewrite chunks_exact_concat by (lia || apply pk_bytes_32).
  apply mapM_Ok_Forall2. induction ks; cbn; constructor; [apply pk_from_bytes_res_ok|done].
Qed.

Lemma read_multisig_app (mk : Z -> Z -> list RistrettoPublicKey -> bytes -> Opcode) c m n ks msg rest :
  length ks = Z.to_nat n -> length msg = 32%nat ->
  read_multisig mk (c :: m :: n :: (concat (map pk_as_bytes ks) ++ msg) ++ rest) = Ok (mk m n ks msg, rest).
Proof.
  intros Hk Hm. remember (concat (map pk_as_bytes ks)) as kb eqn:Ekb.
  assert (length kb = (Z.to_nat n * 32)%nat) as Hkb.
  { rewrite Ekb, (length_concat_const 32) by apply pk_bytes_32. by rewrite length_map, Hk. }
  unfold read_multisig, read_multisig_args, PUBLIC_KEY_LENGTH, MESSAGE_LENGTH.
  assert (length (c :: m :: n :: (kb ++ msg) ++ rest) = 3 + (Z.to_nat n * 32) + 32 + length rest)%nat as Hlen.
  { cbn. rewrite !length_app. lia. }
  rewrite decide_False by lia. cbn [index lookup list_lookup unwrap mbind result_bind].
  rewrite decide_False by lia.
  rewrite (slice_at _ [c; m; n] kb (msg ++ rest) 3 (3 + Z.to_nat n * 32)) by solve_slice.
  cbn [mbind result_bind]. rewrite Ekb at 1. rewrite <- Hk, slice_to_vec_pubkeys_app, Hk.
  cbn [mbind result_bind].
  rewrite (slice_at _ ([c; m; n] ++ kb) msg rest) by solve_slice.
  cbn [mbind result_bind]. rewrite slice_to_message_ok by done. cbn [mbind result_bind].
  rewrite (slice_from_at _ ([c; m; n] ++ kb ++ msg) rest) by solve_slice.
  done.
Qed.

(** Reading back an encoded opcode returns it and the input that follows it. *)
Lemma read_next_opcode_bytes op rest :
  opcode_wf op -> read_next (opcode_bytes op ++ rest) = Ok (op, rest).
Proof.
  destruct op; cbn [opcode_wf opcode_bytes]; intros Hwf;
    cbn [app read_next head ok_or mbind result_bind];
    first [ apply read_plain_cons | apply read_u8_cons | idtac ].
  - apply read_var_app, var_u64_roundtrip, Hwf.
  - apply read_var_app, var_u64_roundtrip, Hwf.
  - apply read_32_app; [done|by apply slice_to_hash_ok].
  - apply read_var_app, var_i64_roundtrip, Hwf.
  - apply read_32_app; [apply pk_length|apply pk_from_bytes_res_ok].
  - apply read_32_app; [done|by apply slice_to_message_ok].
  - apply read_32_app; [done|by apply slice_to_message_ok].
  - apply read_multisig_app; apply Hwf.
  - apply read_multisig_app; apply Hwf.
  - apply read_multisig_app; apply Hwf.
Qed.

End RoundTrip.

(** ** Decoding arbitrary input *)
Section Safety.
Context {C : ScriptCrypto} {L : ScriptCryptoLaws C}.
Implicit Types (op : Opcode) (b rest : bytes).

(** A reader's contract: it does not panic, and on success it has consumed a non-empty prefix
    of the input and built an opcode that respects the Rust types. *)
Definition reads_ok (b : bytes) (r : result ScriptError (Opcode * bytes)) : Prop :=
  no_panic r /\
  forall op rest, r = Ok (op, rest) -> exists p, b = p ++ rest /\ p <> [] /\ (Forall is_u8 b -> opcode_wf op).

Lemma reads_ok_Ok b op n :
  (0 < n <= length b)%nat -> (Forall is_u8 b -> opcode_wf op) -> reads_ok b (Ok (op, drop n b)).
Proof.
  intros Hn Hwf. split; [done|]. intros op' rest [= <- <-]. exists (take n b).
  split_and!; [by rewrite take_drop| |done].
  intros Hnil%(f_equal length). rewrite length_take in Hnil. cbn in Hnil. lia.
Qed.

Lemma reads_ok_Err b e : reads_ok b (Err e).
Proof. by split. Qed.

Lemma read_plain_ok op b : (0 < length b)%nat -> opcode_wf op -> reads_ok b (read_plain op b).
Proof.
  intros Hb Hwf. unfold read_plain. rewrite slice_from_ok by lia. by apply reads_ok_Ok; [lia|].
Qed.

Lemma read_var_ok decode (mk : Z -> Opcode) (P : Z -> Prop) b :
  (0 < length b)%nat ->
  (forall bs v n, decode bs = Some (v, n) -> (n <= length bs)%nat) ->
  (forall bs v n, decode bs = Some (v, n) -> P v) ->
  (forall v, P v -> opcode_wf (mk v)) -> reads_ok b (read_var decode mk b).
Proof.
  intros Hb Hn HP Hwf. unfold read_var. rewrite slice_from_ok by lia. cbn [mbind result_bind].
  destruct (decode (drop 1 b)) as [[v n]|] eqn:Hd; cbn; [|apply reads_ok_Err].
  pose proof (Hn _ _ _ Hd) as Hle. rewrite length_drop in Hle.
  rewrite slice_from_ok by lia. cbn. apply reads_ok_Ok; [lia|]. eauto.
Qed.

Lemma read_32_ok {A} (conv : bytes -> result ScriptError A) (mk : A -> Opcode) b :
  (forall s, length s = 32%nat -> no_panic (conv s)) ->
  (forall s x, length s = 32%nat -> conv s = Ok x -> opcode_wf (mk x)) -> reads_ok b (read_32 conv mk b).
Proof.
  intros Hnp Hwf. unfold read_32. case_decide as Hl; [apply reads_ok_Err|].
  assert (length (take (33 - 1) (drop 1 b)) = 32)%nat as Hs by (rewrite length_take, length_drop; lia).
  rewrite slice_ok by lia. cbn [mbind result_bind].
  destruct (conv _) as [x|e|] eqn:Hc; cbn.
  - rewrite slice_from_ok by lia. cbn. apply reads_ok_Ok; [lia|]. eauto.
  - apply reads_ok_Err.
  - exfalso. by apply (Hnp _ Hs).
Qed.

Lemma read_u8_ok (mk : Z -> Opcode) b :
  (forall n, is_u8 n -> opcode_wf (mk n)) -> reads_ok b (read_u8 mk b).
Proof.
  intros Hwf. unfold read_u8. case_decide as Hl; [apply reads_ok_Err|].
  destruct b as [|c [|n rest]]; cbn in Hl; [lia..|].
  cbn [index lookup list_lookup unwrap mbind result_bind]. rewrite slice_from_ok by (cbn; lia).
  cbn [mbind result_bind]. apply (reads_ok_Ok _ _ 2); [cbn; lia|]. intros Hb. apply Hwf.
  by inversion_clear Hb as [|? ? _ Hb']; inversion_clear Hb'.
Qed.

Lemma slice_to_vec_pubkeys_no_panic b num : no_panic (slice_to_vec_pubkeys b num).
Proof.
  unfold slice_to_vec_pubkeys. case_decide; [done|].
  apply mapM_no_panic, Forall_true. intros x. apply ok_or_no_panic.
Qed.

Lemma length_chunks_exact_fuel {A} (fuel n num : nat) (s : list A) :
  (0 < n)%nat -> (num * n <= length s <= fuel)%nat -> (num <= length (chunks_exact_fuel fuel n s))%nat.
Proof.
  intros Hn. revert num s. induction fuel as [|fuel IH]; intros num s Hs; cbn.
  - destruct num; cbn in *; lia.
  - destruct num as [|num]; [lia|]. rewrite decide_True by nia. cbn.
    apply le_n_S, IH. rewrite length_drop. nia.
Qed.

Lemma slice_to_vec_pubkeys_length b num ks :
  slice_to_vec_pubkeys b num = Ok ks -> length ks = num.
Proof.
  unfold slice_to_vec_pubkeys, PUBLIC_KEY_LENGTH. case_decide as Hl; [done|].
  intros Hks%mapM_Ok_Forall2%Forall2_length. rewrite <- Hks, length_take.
  apply Nat.min_l, length_chunks_exact_fuel; lia.
Qed.

Lemma read_multisig_ok (mk : Z -> Z -> list RistrettoPublicKey -> bytes -> Opcode) b :
  (forall m n ks msg, is_u8 m -> is_u8 n -> length ks = Z.to_nat n -> length msg = 32%nat ->
    opcode_wf (mk m n ks msg)) -> reads_ok b (read_multisig mk b).
Proof.
  intros Hwf. unfold read_multisig, read_multisig_args, MESSAGE_LENGTH.
  destruct b as [|c [|m [|n b]]]; [apply reads_ok_Err..|].
  rewrite decide_False by (cbn; lia). cbn [index lookup list_lookup unwrap mbind result_bind].
  set (len := (3 + Z.to_nat n * PUBLIC_KEY_LENGTH)%nat). set (b0 := c :: m :: n :: b).
  case_decide as Hl; [apply reads_ok_Err|].
  rewrite (slice_ok b0 3 len), (slice_ok b0 len (len + 32)) by lia. cbn [mbind result_bind].
  destruct (slice_to_vec_pubkeys _ _) as [ks|e|] eqn:Hk; cbn [mbind result_bind].
  - assert (length (take (len + 32 - len) (drop len b0)) = 32)%nat as Hm.
    { rewrite length_take, length_drop. lia. }
    rewrite slice_to_message_ok by done. cbn [mbind result_bind].
    rewrite slice_from_ok by lia. cbn [mbind result_bind]. apply reads_ok_Ok; [lia|].
    intros (_ & (Hm8 & (Hn8 & _)%Forall_cons)%Forall_cons)%Forall_cons.
    apply Hwf; eauto using slice_to_vec_pubkeys_length.
  - apply reads_ok_Err.
  - exfalso. by apply (slice_to_vec_pubkeys_no_panic _ _ Hk).
Qed.

Lemma read_next_ok b : reads_ok b (read_next b).
Proof.
  destruct b as [|c b]; [apply reads_ok_Err|]. unfold read_next. cbn [head ok_or mbind result_bind].
  assert (0 < length (c :: b))%nat as Hlen by (cbn; lia).
  repeat case_match; subst;
    first [ by apply reads_ok_Err
          | by apply read_plain_ok
          | by apply read_u8_ok
          | solve [apply read_var_ok with (P := is_u64); eauto using var_u64_bound, var_u64_range]
          | solve [apply read_var_ok with (P := is_i64); eauto using var_i64_bound, var_i64_range]
          | solve [apply read_multisig_ok; cbn; eauto]
          | idtac ].
  all: apply read_32_ok.
  all: try (intros s Hs; apply ok_or_no_panic).
  all: try (intros s Hs; first [rewrite slice_to_hash_ok by done|rewrite slice_to_message_ok by done]; done).
  all: intros s x Hs; first [rewrite slice_to_hash_ok by done|rewrite slice_to_message_ok by done|idtac]; cbn; naive_solver.
Qed.

Lemma parse_loop_no_panic fuel b acc : (length b <= fuel)%nat -> no_panic (parse_loop fuel b acc).
Proof.
  revert b acc. induction fuel as [|fuel IH]; intros b acc Hf.
  - destruct b; cbn in *; [done|lia].
  - destruct b as [|c b]; [done|]. cbn [parse_loop].
    destruct (read_next_ok (c :: b)) as [Hnp Hok]. apply bind_no_panic; [done|].
    intros [op rest] Hr. destruct (Hok _ _ Hr) as (p & Hp & Hne & _). apply IH.
    apply (f_equal length) in Hp. rewrite length_app in Hp. destruct p; cbn in *; [done|lia].
Qed.

(** Decoding any byte string returns a script or an error: no slice is out of range, and the
    loop ends. *)
Lemma parse_no_panic b : no_panic (parse b).
Proof. by apply parse_loop_no_panic. Qed.

Lemma parse_loop_wf fuel b acc ops :
  Forall is_u8 b -> Forall opcode_wf acc -> parse_loop fuel b acc = Ok ops -> Forall opcode_wf ops.
Proof.
  revert b acc. induction fuel as [|fuel IH]; intros b acc Hb Hacc.
  - destruct b; [by intros [= <-]|done].
  - destruct b as [|c b]; [by intros [= <-]|]. cbn [parse_loop].
    intros ([op rest] & Hr & Hl)%bind_Ok_iff.
    destruct (proj2 (read_next_ok (c :: b)) _ _ Hr) as (p & Hp & _ & Hwf).
    eapply IH; [| |exact Hl].
    + rewrite Hp in Hb. by apply Forall_app in Hb as [_ Hb].
    + apply Forall_app_2; [done|]. constructor; [by apply Hwf|done].
Qed.

Lemma parse_wf b ops : Forall is_u8 b -> parse b = Ok ops -> Forall opcode_wf ops.
Proof. intros Hb. by apply parse_loop_wf. Qed.

Lemma parse_loop_concat fuel ops acc :
  Forall opcode_wf ops -> (length (concat (map opcode_bytes ops)) <= fuel)%nat ->
  parse_loop fuel (concat (map opcode_bytes ops)) acc = Ok (acc ++ ops).
Proof.
  intros Hwf. revert fuel acc. induction Hwf as [|op ops Hop _ IH]; intros fuel acc Hf.
  - cbn. rewrite app_nil_r. by destruct fuel.
  - cbn [map concat] in *. pose proof (read_next_opcode_bytes op (concat (map opcode_bytes ops)) Hop) as Hr.
    assert (exists c r, opcode_bytes op = c :: r) as (c & r & Hc) by (destruct op; cbn; eauto).
    rewrite length_app in Hf. rewrite Hc in *. cbn [app length] in *.
    destruct fuel as [|fuel]; [lia|]. cbn [parse_loop]. rewrite Hr. cbn [mbind result_bind].
    rewrite IH by lia. by rewrite <- app_assoc.
Qed.

Lemma parse_concat ops : Forall opcode_wf ops -> parse (concat (map opcode_bytes ops)) = Ok ops.
Proof. intros Hwf. unfold parse. by rewrite parse_loop_concat. Qed.

End Safety.
