(* ===== verification/ScriptStack.v ===== *)
(** * The execution stack

    src/infrastructure/tari_script/src/stack.rs: [StackItem] and [ExecutionStack] with their
    binary encodings and the stack operations of the script machine. A [Vec] is a list with the
    bottom of the stack first. *)

From S2P Require Import Prelude ScriptTypes.

Local Open Scope Z_scope.

Definition MAX_STACK_SIZE : nat := 255.

Abbreviation TYPE_NUMBER := 1.
Abbreviation TYPE_HASH := 2.
Abbreviation TYPE_COMMITMENT := 3.
Abbreviation TYPE_PUBKEY := 4.
Abbreviation TYPE_SIG := 5.
Abbreviation TYPE_SCALAR := 6.

Section Stack.
Context {C : ScriptCrypto}.

Inductive StackItem :=
| Number (v : Z)
| Hash (h : bytes)
| Scalar (s : bytes)
| Commitment (c : PedersenCommitment)
| PublicKey (p : RistrettoPublicKey)
| Signature (s : RistrettoSchnorr).

#[export] Instance StackItem_eq_dec : EqDecision StackItem.
Proof. solve_decision. Defined.

(** ** Encoding of items *)

Definition item_bytes (it : StackItem) : bytes :=
  match it with
  | Number v => TYPE_NUMBER :: le_bytes 8 v
  | Hash h => TYPE_HASH :: h
  | Commitment c => TYPE_COMMITMENT :: com_as_bytes c
  | PublicKey p => TYPE_PUBKEY :: pk_as_bytes p
  | Signature s => TYPE_SIG :: pk_as_bytes (get_public_nonce s) ++ sk_as_bytes (get_signature s)
  | Scalar s => TYPE_SCALAR :: s
  end.

Definition StackItem_to_bytes (it : StackItem) (array : bytes) : bytes := array ++ item_bytes it.

(** [Option] results; a slice out of range would be a panic. The unit error stands for [None]. *)
Definition b_to_number (b : bytes) : result unit (StackItem * bytes) :=
  if decide (length b < 8)%nat then Err ()
  else
    arr ← slice b 0 8;
    rest ← slice_from b 8;
    Ok (Number (to_signed 64 (le_value arr)), rest).

Definition b_to_hash (b : bytes) : result unit (StackItem * bytes) :=
  if decide (length b < 32)%nat then Err ()
  else
    arr ← slice b 0 32;
    rest ← slice_from b 32;
    Ok (Hash arr, rest).

Definition b_to_scalar (b : bytes) : result unit (StackItem * bytes) :=
  if decide (length b < 32)%nat then Err ()
  else
    arr ← slice b 0 32;
    rest ← slice_from b 32;
    Ok (Scalar arr, rest).

Definition b_to_commitment (b : bytes) : result unit (StackItem * bytes) :=
  if decide (length b < 32)%nat then Err ()
  else
    arr ← slice b 0 32;
    c ← ok_or (com_from_bytes arr) ();
    rest ← slice_from b 32;
    Ok (Commitment c, rest).

Definition b_to_pubkey (b : bytes) : result unit (StackItem * bytes) :=
  if decide (length b < 32)%nat then Err ()
  else
    arr ← slice b 0 32;
    p ← ok_or (pk_from_bytes arr) ();
    rest ← slice_from b 32;
    Ok (PublicKey p, rest).

Definition b_to_sig (b : bytes) : result unit (StackItem * bytes) :=
  if decide (length b < 64)%nat then Err ()
  else
    rb ← slice b 0 32;
    r ← ok_or (pk_from_bytes rb) ();
    sb ← slice b 32 64;
    s ← ok_or (sk_from_bytes sb) ();
    rest ← slice_from b 64;
    Ok (Signature (sig_new r s), rest).

Definition item_read_next (b : bytes) : result unit (StackItem * bytes) :=
  code ← ok_or (head b) ();
  data ← slice_from b 1;
  match code with
  | 1 => b_to_number data
  | 2 => b_to_hash data
  | 3 => b_to_commitment data
  | 4 => b_to_pubkey data
  | 5 => b_to_sig data
  | 6 => b_to_scalar data
  | _ => Err ()
  end.

(** ** The stack *)

Record ExecutionStack := { items : list StackItem }.

#[export] Instance ExecutionStack_eq_dec : EqDecision ExecutionStack.
Proof. solve_decision. Defined.

Definition stack_new (its : list StackItem) : ExecutionStack := {| items := its |}.
Definition stack_size (st : ExecutionStack) : nat := length (items st).
Definition stack_peek (st : ExecutionStack) : option StackItem := last (items st).
Definition stack_is_empty (st : ExecutionStack) : bool := bool_decide (items st = []).

(** [self.items.pop()]: the popped item and the stack without it; [None] leaves an empty stack
    as it is. *)
Definition stack_pop (st : ExecutionStack) : option (StackItem * ExecutionStack) :=
  '(x, l) ← vec_pop (items st); Some (x, {| items := l |}).

(** [stack.pop().ok_or(ScriptError::StackUnderflow)?] *)
Definition pop_or_underflow (st : ExecutionStack) : result ScriptError (StackItem * ExecutionStack) :=
  ok_or (stack_pop st) StackUnderflow.

(** [T::try_from(n: i64)] for the two types the machine uses. *)
Definition u64_try_from (n : Z) : option Z := if 0 <=? n then Some n else None.
Definition i64_try_from (n : Z) : option Z := Some n.

Definition pop_into_number (try_from : Z -> option Z) (st : ExecutionStack)
    : result ScriptError (Z * ExecutionStack) :=
  '(item, st') ← pop_or_underflow st;
  match item with
  | Number n => v ← ok_or (try_from n) ValueExceedsBounds; Ok (v, st')
  | _ => Err InvalidInput
  end.

Definition pop_num_items (num_items : nat) (st : ExecutionStack)
    : result ScriptError (list StackItem * ExecutionStack) :=
  if decide (stack_size st < num_items)%nat then Err StackUnderflow
  else
    let at_ := (stack_size st - num_items)%nat in
    Ok (drop at_ (items st), {| items := take at_ (items st) |}).

(** [[u8; 6]]: one count per variant. *)
Definition counter (values : Z * Z * Z * Z * Z * Z) (it : StackItem)
    : result ScriptError (Z * Z * Z * Z * Z * Z) :=
  let '(n, h, c, p, s, z) := values in
  match it with
  | Number _ => n ← arith 0 U8_MAX (n + 1); Ok (n, h, c, p, s, z)
  | Hash _ => h ← arith 0 U8_MAX (h + 1); Ok (n, h, c, p, s, z)
  | Commitment _ => c ← arith 0 U8_MAX (c + 1); Ok (n, h, c, p, s, z)
  | PublicKey _ => p ← arith 0 U8_MAX (p + 1); Ok (n, h, c, p, s, z)
  | Signature _ => s ← arith 0 U8_MAX (s + 1); Ok (n, h, c, p, s, z)
  | Scalar _ => z ← arith 0 U8_MAX (z + 1); Ok (n, h, c, p, s, z)
  end.

(** [counts.iter().filter(|&c| *c > 0).count()] *)
Definition num_distinct_variants (values : Z * Z * Z * Z * Z * Z) : nat :=
  let '(n, h, c, p, s, z) := values in
  length (filter (fun x => 0 < x) [n; h; c; p; s; z]).

Definition pop_n_plus_one_contains (n : Z) (st : ExecutionStack)
    : result ScriptError (bool * ExecutionStack) :=
  '(its, st) ← pop_num_items (Z.to_nat n) st;
  '(item, st) ← pop_or_underflow st;
  counts ← foldM counter its (0, 0, 0, 0, 0, 0);
  counts ← counter counts item;
  if decide (1 < num_distinct_variants counts)%nat then Err InvalidInput
  else Ok (bool_decide (item ∈ its), st).

Definition stack_push (item : StackItem) (st : ExecutionStack) : result ScriptError ExecutionStack :=
  if decide (MAX_STACK_SIZE <= stack_size st)%nat then Err StackOverflow
  else Ok {| items := items st ++ [item] |}.

Definition push_down (depth : nat) (st : ExecutionStack) : result ScriptError ExecutionStack :=
  let n := stack_size st in
  if decide (n < depth + 1)%nat then Err StackUnderflow
  else if decide (depth = 0)%nat then Ok st
  else
    '(top, st) ← unwrap (stack_pop st);
    its ← vec_insert (items st) (n - depth - 1) top;
    Ok {| items := its |}.

(** ** Encoding of the stack *)

Definition stack_to_bytes (st : ExecutionStack) : bytes :=
  fold_left (fun bytes item => StackItem_to_bytes item bytes) (items st) [].

(** The loop of [ExecutionStack::from_bytes]; every item takes at least one byte. *)
Fixpoint stack_from_bytes_loop (fuel : nat) (byte_str : bytes) (st : ExecutionStack)
    : result ScriptError ExecutionStack :=
  match byte_str with
  | [] => Ok st
  | _ =>
      match fuel with
      | O => Panic
      | S fuel =>
          match item_read_next byte_str with
          | Ok (item, b) => st ← stack_push item st; stack_from_bytes_loop fuel b st
          | Err _ => Err InvalidInput
          | Panic => Panic
          end
      end
  end.

Definition stack_from_bytes (b : bytes) : result ScriptError ExecutionStack :=
  stack_from_bytes_loop (length b) b {| items := [] |}.

(** ** Borsh: a length prefix and the bytes *)

Definition borsh_bytes (b : bytes) : bytes := write_varint (Z.of_nat (length b)) ++ b.

(** [Vec::<u8>::with_capacity(len)] panics above [isize::MAX]; then [len] single-byte reads. *)
Definition borsh_read_bytes (buf : bytes) : result IoError (bytes * bytes) :=
  '(len, buf) ← ok_or (read_varint buf) UnexpectedEof;
  if decide (I64_MAX < len) then Panic
  else if decide (length buf < Z.to_nat len)%nat then Err UnexpectedEof
  else Ok (take (Z.to_nat len) buf, drop (Z.to_nat len) buf).

Definition stack_borsh_serialize (st : ExecutionStack) : bytes := borsh_bytes (stack_to_bytes st).

Definition stack_borsh_deserialize (buf : bytes) : result IoError (ExecutionStack * bytes) :=
  '(data, buf) ← borsh_read_bytes buf;
  st ← map_err (fun _ => IoInvalidInput) (stack_from_bytes data);
  Ok (st, buf).

(** The values a Rust [StackItem] can hold. *)
Definition item_wf (it : StackItem) : Prop :=
  match it with
  | Number v => is_i64 v
  | Hash h | Scalar h => length h = 32%nat
  | _ => True
  end.

(** The bound every stack built by [push] respects. *)
Definition stack_bounded (st : ExecutionStack) : Prop := (stack_size st <= MAX_STACK_SIZE)%nat.

Definition stack_wf (st : ExecutionStack) : Prop := stack_bounded st /\ Forall item_wf (items st).

End Stack.

(** ** Items: round trip and safety of the readers *)
Section Items.
Context {C : ScriptCrypto} {L : ScriptCryptoLaws C}.
Implicit Types (it : StackItem) (b rest : bytes).

(** Reading back an encoded item returns it and the input that follows it. *)
Lemma item_read_next_bytes it rest :
  item_wf it -> item_read_next (item_bytes it ++ rest) = Ok (it, rest).
Proof.
  destruct it as [v|h|s|c|p|s]; cbn [item_wf item_bytes app]; intros Hwf;
    unfold item_read_next; cbn [head ok_or mbind result_bind];
    rewrite slice_from_ok by (cbn; lia); cbn [mbind result_bind]; rewrite skipn_cons, drop_0.
  - unfold b_to_number. rewrite decide_False by (rewrite length_app, length_le_bytes; lia).
    rewrite (slice_at _ [] (le_bytes 8 v) rest) by solve_slice. cbn [mbind result_bind].
    rewrite (slice_from_at _ (le_bytes 8 v) rest) by solve_slice. cbn [mbind result_bind].
    by rewrite i64_le_bytes.
  - unfold b_to_hash. rewrite decide_False by (rewrite length_app; lia).
    rewrite (slice_at _ [] h rest), (slice_from_at _ h rest) by solve_slice. done.
  - unfold b_to_scalar. rewrite decide_False by (rewrite length_app; lia).
    rewrite (slice_at _ [] s rest), (slice_from_at _ s rest) by solve_slice. done.
  - unfold b_to_commitment. pose proof (com_length c).
    rewrite decide_False by (rewrite length_app; lia).
    rewrite (slice_at _ [] (com_as_bytes c) rest) by solve_slice. cbn [mbind result_bind].
    rewrite com_roundtrip. cbn [ok_or mbind result_bind].
    rewrite (slice_from_at _ (com_as_bytes c) rest) by solve_slice. done.
  - unfold b_to_pubkey. pose proof (pk_length p).
    rewrite decide_False by (rewrite length_app; lia).
    rewrite (slice_at _ [] (pk_as_bytes p) rest) by solve_slice. cbn [mbind result_bind].
    rewrite pk_roundtrip. cbn [ok_or mbind result_bind].
    rewrite (slice_from_at _ (pk_as_bytes p) rest) by solve_slice. done.
  - unfold b_to_sig.
    set (nb := pk_as_bytes (get_public_nonce s)). set (sb := sk_as_bytes (get_signature s)).
    assert (length nb = 32%nat) as Hn by apply pk_length.
    assert (length sb = 32%nat) as Hs by apply sk_length.
    rewrite decide_False by (rewrite !length_app; lia). rewrite <- app_assoc.
    rewrite (slice_at _ [] nb (sb ++ rest) 0 32) by solve_slice. cbn [mbind result_bind].
    rewrite (pk_roundtrip _ : pk_from_bytes nb = Some (get_public_nonce s)). cbn [ok_or mbind result_bind].
    rewrite (slice_at _ nb sb rest) by solve_slice. cbn [mbind result_bind].
    rewrite (sk_roundtrip _ : sk_from_bytes sb = Some (get_signature s)). cbn [ok_or mbind result_bind].
    rewrite (slice_from_at _ (nb ++ sb) rest) by solve_slice. cbn [mbind result_bind].
    by rewrite sig_eta.
Qed.

(** The readers' contract: no panic; on success at most the given bytes are left and the item
    respects the Rust types. *)
Definition item_reads_ok (b : bytes) (r : result unit (StackItem * bytes)) : Prop :=
  no_panic r /\
  forall it rest, r = Ok (it, rest) -> exists p, b = p ++ rest /\ (Forall is_u8 b -> item_wf it).

Lemma item_reads_Ok b it n :
  (Forall is_u8 b -> item_wf it) -> item_reads_ok b (Ok (it, drop n b)).
Proof.
  intros Hwf. split; [done|]. intros it' rest [= <- <-]. exists (take n b).
  by rewrite take_drop.
Qed.

Lemma item_reads_Err b : item_reads_ok b (Err ()).
Proof. by split. Qed.

Lemma le_value_bound bs : Forall is_u8 bs -> 0 <= le_value bs < 256 ^ Z.of_nat (length bs).
Proof.
  induction 1 as [|b bs Hb _ IH]; [cbn; lia|]. cbn [le_value length].
  rewrite Nat2Z.inj_succ, Z.pow_succ_r by lia. unfold is_u8, U8_MAX in Hb. lia.
Qed.

Lemma to_signed_range z : 0 <= z < 2 ^ 64 -> is_i64 (to_signed 64 z).
Proof.
  unfold to_signed, is_i64, I64_MIN, I64_MAX. change (64 - 1) with 63. intros H.
  destruct (Z.ltb_spec z (2 ^ 63)); lia.
Qed.

Lemma b_to_ok b :
  item_reads_ok b (b_to_number b) /\ item_reads_ok b (b_to_hash b) /\ item_reads_ok b (b_to_scalar b) /\
  item_reads_ok b (b_to_commitment b) /\ item_reads_ok b (b_to_pubkey b) /\ item_reads_ok b (b_to_sig b).
Proof.
  unfold b_to_number, b_to_hash, b_to_scalar, b_to_commitment, b_to_pubkey, b_to_sig.
  split_and!; (case_decide; [apply item_reads_Err|]);
    rewrite !slice_ok, !slice_from_ok by lia; cbn [mbind result_bind];
    repeat (case_match; cbn [ok_or mbind result_bind]; [|apply item_reads_Err]);
    repeat match goal with |- context [ok_or ?o _] => destruct o eqn:?; cbn [ok_or mbind result_bind] end;
    try apply item_reads_Err; apply item_reads_Ok; try done.
  - intros Hb. apply to_signed_range. rewrite drop_0.
    pose proof (le_value_bound (take (8 - 0) b)) as Hv.
    rewrite length_take_le in Hv by lia. apply Hv. by apply Forall_take.
  - intros _. cbn [item_wf]. rewrite length_take, length_drop. lia.
  - intros _. cbn [item_wf]. rewrite length_take, length_drop. lia.
Qed.

Lemma item_read_next_ok b :
  no_panic (item_read_next b) /\
  forall it rest, item_read_next b = Ok (it, rest) ->
    (length rest < length b)%nat /\ (exists p, b = p ++ rest) /\ (Forall is_u8 b -> item_wf it).
Proof.
  destruct b as [|c b]; [done|]. unfold item_read_next. cbn [head ok_or mbind result_bind].
  rewrite slice_from_ok by (cbn; lia). cbn [mbind result_bind]. rewrite skipn_cons, drop_0.
  assert (forall r, item_reads_ok b r -> no_panic r /\
    forall it rest, r = Ok (it, rest) ->
      (length rest < length (c :: b))%nat /\ (exists p, c :: b = p ++ rest) /\
      (Forall is_u8 (c :: b) -> item_wf it)) as Hlift.
  { intros r [Hnp Hok]. split; [done|]. intros it rest Hr. destruct (Hok _ _ Hr) as (p & -> & Hwf).
    rewrite length_cons, length_app. split_and!; [lia|by exists (c :: p)|].
    intros Hb. apply Hwf. by apply Forall_cons in Hb as [_ Hb]. }
  destruct (b_to_ok b) as (? & ? & ? & ? & ? & ?).
  repeat case_match; subst; apply Hlift; try done; apply item_reads_Err.
Qed.

End Items.

(** ** Stack operations *)
Section StackLemmas.
Context {C : ScriptCrypto}.
Implicit Types (it : StackItem) (its l : list StackItem) (st : ExecutionStack).

Lemma stack_pop_Some st it st' :
  stack_pop st = Some (it, st') <-> items st = items st' ++ [it].
Proof.
  unfold stack_pop. destruct (vec_pop (items st)) as [[x l]|] eqn:Hp; cbn.
  - apply vec_pop_Some in Hp. rewrite Hp. split.
    + intros [= -> <-]. done.
    + intros [-> [= ->]]%app_inj_tail. by destruct st'.
  - apply vec_pop_None in Hp. rewrite Hp. split; [done|].
    intros H%(f_equal length). rewrite length_app in H. cbn in H. lia.
Qed.

Lemma stack_pop_snoc l it : stack_pop {| items := l ++ [it] |} = Some (it, {| items := l |}).
Proof. by apply stack_pop_Some. Qed.

Lemma pop_or_underflow_Ok st it st' :
  pop_or_underflow st = Ok (it, st') <-> items st = items st' ++ [it].
Proof. unfold pop_or_underflow. rewrite ok_or_Ok. apply stack_pop_Some. Qed.

Lemma stack_push_Ok it st st' :
  stack_push it st = Ok st' <-> (stack_size st < MAX_STACK_SIZE)%nat /\ st' = {| items := items st ++ [it] |}.
Proof.
  unfold stack_push. case_decide; split; [done|intros [? _]; lia|intros [= <-]; split; [lia|done]|by intros [_ ->]].
Qed.

Lemma stack_push_no_panic it st : no_panic (stack_push it st).
Proof. unfold stack_push. by case_decide. Qed.

Lemma pop_no_panic st : no_panic (pop_or_underflow st).
Proof. apply ok_or_no_panic. Qed.

Lemma stack_push_wf it st st' : stack_push it st = Ok st' -> item_wf it -> stack_wf st -> stack_wf st'.
Proof.
  rewrite stack_push_Ok. intros [Hs ->] Hit [Hb Hw]. split.
  - unfold stack_bounded, stack_size in *. cbn. rewrite length_app. cbn. lia.
  - cbn. by apply Forall_app_2; [|constructor].
Qed.

Lemma pop_wf st it st' :
  pop_or_underflow st = Ok (it, st') -> stack_wf st -> item_wf it /\ stack_wf st'.
Proof.
  rewrite pop_or_underflow_Ok. unfold stack_wf, stack_bounded, stack_size. intros -> [Hb Hw].
  rewrite length_app in Hb. apply Forall_app in Hw as [Hw Hit]. inversion_clear Hit.
  split_and!; auto; cbn in Hb; lia.
Qed.

Lemma pop_num_items_Ok n st its st' :
  pop_num_items n st = Ok (its, st') <-> items st = items st' ++ its /\ length its = n.
Proof.
  unfold pop_num_items, stack_size. case_decide as Hd; split.
  - done.
  - intros [Hi Hn]. apply (f_equal length) in Hi. rewrite length_app in Hi. lia.
  - intros [= <- <-]. cbn. rewrite take_drop, length_drop. split; [done|lia].
  - intros [Hi Hn]. destruct st as [l], st' as [l']. cbn in *. subst l n.
    rewrite length_app. replace (_ - _)%nat with (length l') by lia.
    by rewrite drop_app_length, take_app_length.
Qed.

Lemma pop_num_items_no_panic n st : no_panic (pop_num_items n st).
Proof. unfold pop_num_items. by case_decide. Qed.

(** *** [push_down]: the top item moves [depth] positions down *)
Lemma push_down_spec l its it :
  its <> [] -> push_down (length its) {| items := l ++ its ++ [it] |} = Ok {| items := l ++ it :: its |}.
Proof.
  intros Hne. unfold push_down, stack_size. cbn [items].
  rewrite !length_app. cbn [length]. rewrite decide_False by lia.
  rewrite decide_False by (by destruct its).
  rewrite app_assoc, stack_pop_snoc. cbn [unwrap mbind result_bind items].
  unfold vec_insert. rewrite decide_True by (rewrite length_app; lia). cbn [mbind result_bind].
  replace (length l + (length its + 1) - length its - 1)%nat with (length l) by lia.
  by rewrite take_app_length, drop_app_length.
Qed.

(** *** The variant counter *)

Definition variant (it : StackItem) : nat :=
  match it with
  | Number _ => 0 | Hash _ => 1 | Commitment _ => 2 | PublicKey _ => 3 | Signature _ => 4 | Scalar _ => 5
  end.

Definition count_variant (k : nat) (l : list StackItem) : Z := Z.of_nat (length (filter (fun it => variant it = k) l)).

Definition counts (l : list StackItem) : Z * Z * Z * Z * Z * Z :=
  (count_variant 0 l, count_variant 1 l, count_variant 2 l, count_variant 3 l, count_variant 4 l,
   count_variant 5 l).

Lemma count_variant_snoc k l it :
  count_variant k (l ++ [it]) = if decide (variant it = k) then count_variant k l + 1 else count_variant k l.
Proof.
  unfold count_variant. rewrite filter_app, length_app, filter_cons, filter_nil.
  case_decide; cbn; lia.
Qed.

Lemma count_variant_le k l : 0 <= count_variant k l <= Z.of_nat (length l).
Proof. unfold count_variant. pose proof (length_filter (fun it => variant it = k) l). lia. Qed.

Lemma counter_counts l it :
  (length l < 255)%nat -> counter (counts l) it = Ok (counts (l ++ [it])).
Proof.
  intros Hl. unfold counts. rewrite !count_variant_snoc. unfold counter, U8_MAX.
  destruct it; cbn [variant]; rewrite arith_ok by
    (match goal with |- context [count_variant ?k l + 1] => pose proof (count_variant_le k l); lia end); done.
Qed.

Lemma foldM_counter l its :
  (length l + length its <= 255)%nat -> foldM counter its (counts l) = Ok (counts (l ++ its)).
Proof.
  revert l. induction its as [|it its IH]; intros l Hl; cbn [foldM]; [by rewrite app_nil_r|].
  cbn [length] in Hl. rewrite counter_counts by lia. cbn [mbind result_bind].
  rewrite IH by (rewrite length_app; cbn; lia). by rewrite <- app_assoc.
Qed.

Lemma count_variant_pos k l : 0 < count_variant k l <-> exists it, it ∈ l /\ variant it = k.
Proof.
  unfold count_variant. split.
  - intros H. destruct (filter _ l) as [|it r] eqn:Hf; [cbn in H; lia|].
    exists it. assert (it ∈ filter (fun it => variant it = k) l) as Hin by (rewrite Hf; left).
    apply list_elem_of_filter in Hin. naive_solver.
  - intros (it & Hin & Hv).
    assert (it ∈ filter (fun it => variant it = k) l) as Hf by (apply list_elem_of_filter; done).
    destruct (filter _ l); [by apply elem_of_nil in Hf|cbn; lia].
Qed.

(** At most one count is positive exactly when all the items are of one variant. *)
Lemma num_distinct_variants_le_1 l :
  ~ (1 < num_distinct_variants (counts l))%nat <-> (forall x y, x ∈ l -> y ∈ l -> variant x = variant y).
Proof.
  unfold num_distinct_variants, counts.
  assert (forall k, 0 < count_variant k l \/ count_variant k l = 0) as Hdec.
  { intros k. pose proof (count_variant_le k l). lia. }
  split.
  - intros Hn x y Hx Hy. destruct (decide (variant x = variant y)) as [|Hne]; [done|]. exfalso. apply Hn.
    assert (0 < count_variant (variant x) l) as Px by (apply count_variant_pos; eauto).
    assert (0 < count_variant (variant y) l) as Py by (apply count_variant_pos; eauto).
    rewrite !filter_cons, filter_nil.
    destruct x, y; cbn [variant] in *; try done; rewrite (decide_True _ _ Px), (decide_True _ _ Py);
      repeat case_decide; cbn; lia.
  - intros Hall Hn.
    assert (exists v, forall k, k <> v -> count_variant k l = 0) as [v Hv].
    { destruct l as [|x l]; [by exists 0%nat|]. exists (variant x). intros k Hk.
      destruct (Hdec k) as [(it & Hin & <-)%count_variant_pos|]; [|done].
      destruct Hk. apply Hall; [done|left]. }
    revert Hn. rewrite !filter_cons, filter_nil.
    destruct v as [|[|[|[|[|[|v]]]]]];
      repeat match goal with |- context [count_variant ?k l] => rewrite (Hv k) by lia end;
      repeat case_decide; cbn; lia.
Qed.

(** The items popped by [pop_n_plus_one_contains n] are the top [n] of the stack and the one
    below them, the candidate. *)
Lemma pop_n_plus_one_contains_spec n l it its :
  0 <= n -> length its = Z.to_nat n -> (length its < 255)%nat ->
  pop_n_plus_one_contains n {| items := l ++ it :: its |} =
    if decide (Forall (fun x => variant x = variant it) its)
    then Ok (bool_decide (it ∈ its), {| items := l |})
    else Err InvalidInput.
Proof.
  intros Hn Hlen Hmax. unfold pop_n_plus_one_contains.
  rewrite (proj2 (pop_num_items_Ok _ _ its {| items := l ++ [it] |})); cycle 1.
  { cbn. by rewrite <- app_assoc. }
  cbn [mbind result_bind]. rewrite (proj2 (pop_or_underflow_Ok _ it {| items := l |})) by done.
  cbn [mbind result_bind]. change (0, 0, 0, 0, 0, 0) with (counts []).
  rewrite foldM_counter by (cbn; lia). cbn [mbind result_bind app].
  rewrite counter_counts by lia. cbn [mbind result_bind].
  destruct (decide (Forall _ its)) as [Hall|Hall].
  - rewrite decide_False; [done|]. apply num_distinct_variants_le_1.
    rewrite Forall_forall in Hall. intros x y.
    rewrite !elem_of_app, !list_elem_of_singleton.
    intros [Hx| ->] [Hy| ->]; repeat match goal with H : _ ∈ its |- _ => apply Hall in H end; congruence.
  - rewrite decide_True; [done|].
    apply dec_stable. rewrite num_distinct_variants_le_1. intros H. apply Hall, Forall_forall.
    intros x Hx. apply H; rewrite elem_of_app, ?list_elem_of_singleton; auto.
Qed.

End StackLemmas.

(** ** The encoding of the stack *)
Section StackEncoding.
Context {C : ScriptCrypto} {L : ScriptCryptoLaws C}.
Implicit Types (it : StackItem) (its : list StackItem) (st : ExecutionStack) (b buf : bytes).

Lemma stack_to_bytes_concat its : stack_to_bytes {| items := its |} = concat (map item_bytes its).
Proof.
  unfold stack_to_bytes. cbn [items]. rewrite <- (app_nil_l (concat _)). generalize (@nil Z).
  induction its as [|it its IH]; intros acc; cbn; [by rewrite app_nil_r|].
  rewrite IH. unfold StackItem_to_bytes. by rewrite <- app_assoc.
Qed.

Lemma item_bytes_length it : item_wf it -> (1 <= length (item_bytes it) <= 65)%nat.
Proof.
  destruct it; cbn [item_wf item_bytes length]; intros Hwf;
    rewrite ?length_le_bytes, ?length_app, ?pk_length, ?sk_length, ?com_length; lia.
Qed.

Lemma stack_to_bytes_length st : stack_wf st -> (length (stack_to_bytes st) <= 65 * MAX_STACK_SIZE)%nat.
Proof.
  destruct st as [its]. intros [Hb Hw]. rewrite stack_to_bytes_concat.
  unfold stack_bounded, stack_size in Hb. cbn [items] in *.
  trans (65 * length its)%nat; [|lia]. clear Hb. induction Hw as [|it its Hit _ IH]; [done|].
  cbn [map concat length]. rewrite length_app. apply item_bytes_length in Hit. lia.
Qed.

Lemma stack_from_bytes_loop_concat fuel its its0 :
  Forall item_wf its -> (length its0 + length its <= MAX_STACK_SIZE)%nat ->
  (length (concat (map item_bytes its)) <= fuel)%nat ->
  stack_from_bytes_loop fuel (concat (map item_bytes its)) {| items := its0 |} = Ok {| items := its0 ++ its |}.
Proof.
  intros Hwf. revert fuel its0. induction Hwf as [|it its Hit _ IH]; intros fuel its0 Hlen Hf.
  { destruct fuel; cbn; by rewrite app_nil_r. }
  cbn [map concat length] in *. rewrite length_app in Hf.
  pose proof (item_bytes_length it Hit) as Hl. pose proof (item_read_next_bytes it (concat (map item_bytes its)) Hit) as Hr.
  destruct (item_bytes it) as [|x xs] eqn:Hb; [cbn in Hl; lia|].
  destruct fuel as [|fuel]; [cbn in Hf; lia|]. cbn [app stack_from_bytes_loop] in *. rewrite Hr.
  unfold stack_push, stack_size. cbn [items]. rewrite decide_False by lia. cbn [mbind result_bind].
  rewrite IH by (rewrite ?length_app; cbn in *; lia). by rewrite <- app_assoc.
Qed.

Lemma stack_bytes_roundtrip st : stack_wf st -> stack_from_bytes (stack_to_bytes st) = Ok st.
Proof.
  destruct st as [its]. intros [Hb Hw]. rewrite stack_to_bytes_concat. unfold stack_from_bytes.
  by rewrite (stack_from_bytes_loop_concat _ its []).
Qed.

(** The reading loop never runs out of fuel, and what it builds respects the bound and types. *)
Lemma stack_from_bytes_loop_ok fuel b st :
  (length b <= fuel)%nat ->
  no_panic (stack_from_bytes_loop fuel b st) /\
  (forall st', stack_from_bytes_loop fuel b st = Ok st' -> Forall is_u8 b -> stack_wf st -> stack_wf st').
Proof.
  revert b st. induction fuel as [|fuel IH]; intros [|x b] st Hf; cbn [stack_from_bytes_loop length] in *;
    try (split; [done|by intros st' [= <-]]); [lia|].
  pose proof (item_read_next_ok (x :: b)) as [Hnp Hok].
  destruct (item_read_next (x :: b)) as [[it rest]| |] eqn:Hr; [|by split|done].
  destruct (Hok it rest eq_refl) as (Hsh & (p & Hb) & Hwf). cbn [length] in Hsh.
  destruct (stack_push it st) as [st1| |] eqn:Hp; cbn [mbind result_bind];
    [|by split|by destruct (stack_push_no_panic it st)].
  destruct (IH rest st1) as [IH1 IH2]; [lia|]. split; [done|].
  intros st' Hl Hu Hst. apply (IH2 st' Hl).
  - rewrite Hb in Hu. by apply Forall_app in Hu as [_ Hu].
  - apply (stack_push_wf it st); auto.
Qed.

Lemma stack_from_bytes_no_panic b : no_panic (stack_from_bytes b).
Proof. by apply stack_from_bytes_loop_ok. Qed.

Lemma stack_from_bytes_wf b st : Forall is_u8 b -> stack_from_bytes b = Ok st -> stack_wf st.
Proof.
  intros Hb H. refine (proj2 (stack_from_bytes_loop_ok (length b) b _ _) st H Hb _); [done|].
  split; [unfold stack_bounded; cbn; lia|constructor].
Qed.

Lemma borsh_bytes_roundtrip b rest :
  Z.of_nat (length b) <= I64_MAX -> borsh_read_bytes (borsh_bytes b ++ rest) = Ok (b, rest).
Proof.
  intros Hb. unfold borsh_read_bytes, borsh_bytes. rewrite <- app_assoc, varint_roundtrip.
  - cbn [ok_or mbind result_bind]. rewrite Nat2Z.id, decide_False by lia.
    rewrite decide_False by (rewrite length_app; lia). by rewrite take_app_length, drop_app_length.
  - unfold is_u64, U64_MAX. unfold I64_MAX in Hb. lia.
Qed.

Lemma stack_borsh_roundtrip_lemma st rest :
  stack_wf st -> stack_borsh_deserialize (stack_borsh_serialize st ++ rest) = Ok (st, rest).
Proof.
  intros Hwf. unfold stack_borsh_deserialize, stack_borsh_serialize. rewrite borsh_bytes_roundtrip.
  - cbn [mbind result_bind]. by rewrite stack_bytes_roundtrip.
  - pose proof (stack_to_bytes_length st Hwf). unfold I64_MAX, MAX_STACK_SIZE in *. lia.
Qed.

End StackEncoding.
