(* ===== verification/TariScript.v ===== *)
(** * The TariScript machine

    src/infrastructure/tari_script/src/script.rs: [TariScript], its execution
    ([execute_with_context], [should_execute], [execute_opcode] and the handlers), its encodings
    and digests; [ScriptContext] of script_context.rs. The handlers mutate the stack they are
    given; here they return it. An error leaves the script, so no state comes with it. *)

From S2P Require Import Prelude ScriptTypes Opcodes ScriptStack.

Local Open Scope Z_scope.

Definition MAX_MULTISIG_LIMIT : Z := 32.

Inductive Branch := NotExecuted | ExecuteIf | ExecuteElse.

Record IfState := { branch : Branch; else_expected : bool }.

Record ExecutionState := { executing : bool; if_stack : list IfState }.

#[export] Instance Branch_eq_dec : EqDecision Branch.
Proof. solve_decision. Defined.
#[export] Instance IfState_eq_dec : EqDecision IfState.
Proof. solve_decision. Defined.
#[export] Instance ExecutionState_eq_dec : EqDecision ExecutionState.
Proof. solve_decision. Defined.

Definition ExecutionState_default : ExecutionState := {| executing := true; if_stack := [] |}.

Section Script.
Context {C : ScriptCrypto}.

Record ScriptContext := {
  block_height : Z;
  prev_block_hash : bytes;
  commitment : PedersenCommitment;
}.

Record TariScript := { script : list Opcode }.

#[export] Instance TariScript_eq_dec : EqDecision TariScript.
Proof. solve_decision. Defined.

Definition script_size (self : TariScript) : nat := length (script self).

(** ** Heights *)

(** [i64::try_from(h: u64)?] with [impl From<TryFromIntError> for ScriptError] *)
Definition height_to_i64 (h : Z) : result ScriptError Z :=
  if h <=? I64_MAX then Ok h else Err ValueExceedsBounds.

Definition handle_check_height_verify (height bh : Z) (st : ExecutionStack)
    : result ScriptError ExecutionStack :=
  if height <=? bh then Ok st else Err VerifyFailed.

Definition handle_check_height (height bh : Z) (st : ExecutionStack) : result ScriptError ExecutionStack :=
  height ← height_to_i64 height;
  bh ← height_to_i64 bh;
  item ← arith I64_MIN I64_MAX (bh - height);
  stack_push (Number item) st.

Definition handle_compare_height_verify (bh : Z) (st : ExecutionStack) : result ScriptError ExecutionStack :=
  '(target_height, st) ← pop_into_number u64_try_from st;
  if target_height <=? bh then Ok st else Err VerifyFailed.

Definition handle_compare_height (bh : Z) (st : ExecutionStack) : result ScriptError ExecutionStack :=
  '(target_height, st) ← pop_into_number i64_try_from st;
  bh ← height_to_i64 bh;
  item ← arith I64_MIN I64_MAX (bh - target_height);
  stack_push (Number item) st.

(** ** Comparison and logic *)

Definition handle_cmp_to_zero (valid_orderings : list comparison) (st : ExecutionStack)
    : result ScriptError ExecutionStack :=
  '(stack_number, st) ← pop_into_number i64_try_from st;
  if bool_decide ((stack_number ?= 0) ∈ valid_orderings) then stack_push (Number 1) st
  else stack_push (Number 0) st.

Definition handle_or (n : Z) (st : ExecutionStack) : result ScriptError ExecutionStack :=
  '(found, st) ← pop_n_plus_one_contains n st;
  if found : bool then stack_push (Number 1) st else stack_push (Number 0) st.

Definition handle_or_verify (n : Z) (st : ExecutionStack) : result ScriptError ExecutionStack :=
  '(found, st) ← pop_n_plus_one_contains n st;
  if found : bool then Ok st else Err VerifyFailed.

(** ** Control flow *)

Definition push_if (b : Branch) (ifs : list IfState) : list IfState :=
  ifs ++ [{| branch := b; else_expected := true |}].

Definition handle_if_then (st : ExecutionStack) (state : ExecutionState)
    : result ScriptError (ExecutionStack * ExecutionState) :=
  if executing state then
    '(pred, st) ← pop_or_underflow st;
    match pred with
    | Number 1 => Ok (st, {| executing := true; if_stack := push_if ExecuteIf (if_stack state) |})
    | Number 0 => Ok (st, {| executing := false; if_stack := push_if ExecuteElse (if_stack state) |})
    | _ => Err InvalidInput
    end
  else Ok (st, {| executing := executing state; if_stack := push_if NotExecuted (if_stack state) |}).

(** [if_stack.last_mut()] is updated in place. *)
Definition handle_else (state : ExecutionState) : result ScriptError ExecutionState :=
  '(if_state, rest) ← ok_or (vec_pop (if_stack state)) InvalidOpcode;
  if negb (else_expected if_state) then Err InvalidOpcode
  else
    let executing' :=
      match branch if_state with
      | NotExecuted => false
      | ExecuteIf => false
      | ExecuteElse => true
      end in
    Ok {| executing := executing';
          if_stack := rest ++ [{| branch := branch if_state; else_expected := false |}] |}.

Definition handle_end_if (state : ExecutionState) : result ScriptError ExecutionState :=
  '(if_state, rest) ← ok_or (vec_pop (if_stack state)) InvalidOpcode;
  if else_expected if_state then Err MissingOpcode
  else
    let executing' :=
      match branch if_state with
      | NotExecuted => false
      | ExecuteIf => true
      | ExecuteElse => true
      end in
    Ok {| executing := executing'; if_stack := rest |}.

(** ** Hashes and stack shuffling *)

(** [hash.copy_from_slice(D::digest(b).as_slice())] into a 32-byte array *)
Definition digest_to_arr (digest : bytes -> bytes) (b : bytes) : result ScriptError bytes :=
  if decide (length (digest b) = 32%nat) then Ok (digest b) else Panic.

Definition handle_hash (digest : bytes -> bytes) (st : ExecutionStack) : result ScriptError ExecutionStack :=
  '(top, st) ← pop_or_underflow st;
  hash_value ← match top with
    | Commitment c => digest_to_arr digest (com_as_bytes c)
    | PublicKey k => digest_to_arr digest (pk_as_bytes k)
    | Hash h => digest_to_arr digest h
    | _ => Err IncompatibleTypes
    end;
  stack_push (Hash hash_value) st.

Definition handle_dup (st : ExecutionStack) : result ScriptError ExecutionStack :=
  match stack_peek st with
  | Some last => stack_push last st
  | None => Err StackUnderflow
  end.

Definition handle_drop (st : ExecutionStack) : result ScriptError ExecutionStack :=
  match stack_pop st with
  | Some (_, st) => Ok st
  | None => Err StackUnderflow
  end.

(** ** Arithmetic *)

Definition handle_op_add (st : ExecutionStack) : result ScriptError ExecutionStack :=
  '(top, st) ← pop_or_underflow st;
  '(two, st) ← pop_or_underflow st;
  match top, two with
  | Number v1, Number v2 =>
      v ← ok_or (checked I64_MIN I64_MAX (v1 + v2)) ValueExceedsBounds; stack_push (Number v) st
  | Commitment c1, Commitment c2 => stack_push (Commitment (com_add c1 c2)) st
  | PublicKey p1, PublicKey p2 => stack_push (PublicKey (pk_add p1 p2)) st
  | Signature s1, Signature s2 => stack_push (Signature (sig_add s1 s2)) st
  | _, _ => Err IncompatibleTypes
  end.

Definition handle_op_sub (st : ExecutionStack) : result ScriptError ExecutionStack :=
  '(top, st) ← pop_or_underflow st;
  '(two, st) ← pop_or_underflow st;
  match top, two with
  | Number v1, Number v2 =>
      v ← ok_or (checked I64_MIN I64_MAX (v2 - v1)) ValueExceedsBounds; stack_push (Number v) st
  | Commitment c1, Commitment c2 => stack_push (Commitment (com_sub c2 c1)) st
  | _, _ => Err IncompatibleTypes
  end.

Definition handle_equal (st : ExecutionStack) : result ScriptError (bool * ExecutionStack) :=
  '(top, st) ← pop_or_underflow st;
  '(two, st) ← pop_or_underflow st;
  match top, two with
  | Number v1, Number v2 => Ok (bool_decide (v1 = v2), st)
  | Commitment c1, Commitment c2 => Ok (bool_decide (c1 = c2), st)
  | Signature s1, Signature s2 => Ok (bool_decide (s1 = s2), st)
  | PublicKey p1, PublicKey p2 => Ok (bool_decide (p1 = p2), st)
  | Hash h1, Hash h2 => Ok (bool_decide (h1 = h2), st)
  | _, _ => Err IncompatibleTypes
  end.

(** ** Signatures *)

Definition check_sig (message : bytes) (st : ExecutionStack) : result ScriptError (bool * ExecutionStack) :=
  '(pk, st) ← pop_or_underflow st;
  '(sig, st) ← pop_or_underflow st;
  match pk, sig with
  | PublicKey p, Signature s => Ok (verify_challenge s p message, st)
  | _, _ => Err IncompatibleTypes
  end.

(** The locals of the matching loop of [check_multisig]. *)
Record MultisigState := {
  key_signed : list bool;
  sig_set : list RistrettoSchnorr;
  agg_pub_key : RistrettoPublicKey;
}.

(** The inner loop: [for (i, pk) in public_keys.iter().enumerate()] with its [break]. *)
Fixpoint multisig_match (s : RistrettoSchnorr) (message : bytes) (i : nat)
    (public_keys : list RistrettoPublicKey) (ms : MultisigState) : result ScriptError MultisigState :=
  match public_keys with
  | [] => Ok ms
  | pk :: public_keys =>
      signed ← index (key_signed ms) i;
      if negb (bool_decide (s ∈ sig_set ms)) && negb signed && verify_challenge s pk message then
        Ok {| key_signed := <[i := true]> (key_signed ms);
              sig_set := s :: sig_set ms;
              agg_pub_key := pk_add (agg_pub_key ms) pk |}
      else multisig_match s message (S i) public_keys ms
  end.

(** The outer loop: [for s in &signatures]; [None] is the early [return Ok(None)]. *)
Fixpoint multisig_loop (signatures : list RistrettoSchnorr) (message : bytes)
    (public_keys : list RistrettoPublicKey) (ms : MultisigState) : result ScriptError (option MultisigState) :=
  match signatures with
  | [] => Ok (Some ms)
  | s :: signatures =>
      ms ← multisig_match s message 0 public_keys ms;
      if bool_decide (s ∈ sig_set ms) then multisig_loop signatures message public_keys ms
      else Ok None
  end.

Definition item_to_signature (item : StackItem) : result ScriptError RistrettoSchnorr :=
  match item with
  | Signature s => Ok s
  | _ => Err IncompatibleTypes
  end.

Definition check_multisig (m n : Z) (public_keys : list RistrettoPublicKey) (message : bytes)
    (st : ExecutionStack) : result ScriptError (option RistrettoPublicKey * ExecutionStack) :=
  if (m =? 0) || (n =? 0) || (n <? m) || (MAX_MULTISIG_LIMIT <? n)
     || negb (Z.of_nat (length public_keys) =? n) then Err ValueExceedsBounds
  else
    let m := Z.to_nat m in
    '(its, st) ← pop_num_items m st;
    signatures ← mapM item_to_signature its;
    r ← multisig_loop signatures message public_keys
          {| key_signed := replicate (length public_keys) false; sig_set := []; agg_pub_key := pk_default |};
    match r with
    | None => Ok (None, st)
    | Some ms => if decide (length (sig_set ms) = m) then Ok (Some (agg_pub_key ms), st) else Ok (None, st)
    end.

Definition handle_to_ristretto_point (st : ExecutionStack) : result ScriptError ExecutionStack :=
  '(item, st) ← pop_or_underflow st;
  scalar ← match item with
    | Hash hash => Ok hash
    | Scalar scalar => Ok scalar
    | _ => Err IncompatibleTypes
    end;
  ristretto_sk ← ok_or (sk_from_bytes scalar) InvalidData;
  stack_push (PublicKey (pk_from_secret_key ristretto_sk)) st.

(** ** Execution *)

Definition should_execute (opcode : Opcode) (state : ExecutionState) : bool :=
  match opcode with
  | IfThen | Else | EndIf => true
  | _ => executing state
  end.

(** The opcodes that only use the stack. *)
Definition execute_stack_opcode (opcode : Opcode) (ctx : ScriptContext) (st : ExecutionStack)
    : result ScriptError ExecutionStack :=
  match opcode with
  | CheckHeightVerify height => handle_check_height_verify height (block_height ctx) st
  | CheckHeight height => handle_check_height height (block_height ctx) st
  | CompareHeightVerify => handle_compare_height_verify (block_height ctx) st
  | CompareHeight => handle_compare_height (block_height ctx) st
  | Nop => Ok st
  | PushZero => stack_push (Number 0) st
  | PushOne => stack_push (Number 1) st
  | PushHash h => stack_push (Hash h) st
  | PushInt n => stack_push (Number n) st
  | PushPubKey p => stack_push (PublicKey p) st
  | Drop => handle_drop st
  | Dup => handle_dup st
  | RevRot => push_down 2 st
  | GeZero => handle_cmp_to_zero [Gt; Eq] st
  | GtZero => handle_cmp_to_zero [Gt] st
  | LeZero => handle_cmp_to_zero [Lt; Eq] st
  | LtZero => handle_cmp_to_zero [Lt] st
  | Add => handle_op_add st
  | Sub => handle_op_sub st
  | Equal =>
      '(b, st) ← handle_equal st;
      if b : bool then stack_push (Number 1) st else stack_push (Number 0) st
  | EqualVerify => '(b, st) ← handle_equal st; if b : bool then Ok st else Err VerifyFailed
  | Or n => handle_or n st
  | OrVerify n => handle_or_verify n st
  | HashBlake256 => handle_hash blake256 st
  | HashSha256 => handle_hash sha256 st
  | HashSha3 => handle_hash sha3_256 st
  | CheckSig msg =>
      '(b, st) ← check_sig msg st;
      if b : bool then stack_push (Number 1) st else stack_push (Number 0) st
  | CheckSigVerify msg => '(b, st) ← check_sig msg st; if b : bool then Ok st else Err VerifyFailed
  | CheckMultiSig m n public_keys msg =>
      '(r, st) ← check_multisig m n public_keys msg st;
      match r with Some _ => stack_push (Number 1) st | None => stack_push (Number 0) st end
  | CheckMultiSigVerify m n public_keys msg =>
      '(r, st) ← check_multisig m n public_keys msg st;
      match r with Some _ => Ok st | None => Err VerifyFailed end
  | CheckMultiSigVerifyAggregatePubKey m n public_keys msg =>
      '(r, st) ← check_multisig m n public_keys msg st;
      match r with Some agg_pub_key => stack_push (PublicKey agg_pub_key) st | None => Err VerifyFailed end
  | ToRistrettoPoint => handle_to_ristretto_point st
  | Return => Err EReturn
  | IfThen | Else | EndIf => Ok st
  end.

Definition execute_opcode (opcode : Opcode) (ctx : ScriptContext) (st : ExecutionStack)
    (state : ExecutionState) : result ScriptError (ExecutionStack * ExecutionState) :=
  match opcode with
  | IfThen => handle_if_then st state
  | Else => state ← handle_else state; Ok (st, state)
  | EndIf => state ← handle_end_if state; Ok (st, state)
  | _ => st ← execute_stack_opcode opcode ctx st; Ok (st, state)
  end.

(** The loop of [execute_with_context]. *)
Fixpoint execute_loop (opcodes : list Opcode) (ctx : ScriptContext) (st : ExecutionStack)
    (state : ExecutionState) : result ScriptError (ExecutionStack * ExecutionState) :=
  match opcodes with
  | [] => Ok (st, state)
  | opcode :: opcodes =>
      if should_execute opcode state then
        '(st, state) ← execute_opcode opcode ctx st state;
        execute_loop opcodes ctx st state
      else execute_loop opcodes ctx st state
  end.

Definition execute_with_context (self : TariScript) (inputs : ExecutionStack) (ctx : ScriptContext)
    : result ScriptError StackItem :=
  '(st, state) ← execute_loop (script self) ctx inputs ExecutionState_default;
  match if_stack state with
  | _ :: _ => Err MissingOpcode
  | [] =>
      if decide (stack_size st = 1%nat) then
        '(item, _) ← ok_or (stack_pop st) NonUnitLengthStack;
        Ok item
      else Err NonUnitLengthStack
  end.

Definition ScriptContext_default : ScriptContext :=
  {| block_height := 0; prev_block_hash := replicate 32 0; commitment := com_default |}.

Definition execute (self : TariScript) (inputs : ExecutionStack) : result ScriptError StackItem :=
  execute_with_context self inputs ScriptContext_default.

(** ** Encodings and digests *)

Definition script_to_bytes (self : TariScript) : bytes :=
  fold_left (fun bytes op => Opcode_to_bytes op bytes) (script self) [].

Definition script_from_bytes (b : bytes) : result ScriptError TariScript :=
  ops ← parse b;
  Ok {| script := ops |}.

Definition script_borsh_serialize (self : TariScript) : bytes := borsh_bytes (script_to_bytes self).

Definition script_borsh_deserialize (buf : bytes) : result IoError (TariScript * bytes) :=
  '(data, buf) ← borsh_read_bytes buf;
  s ← map_err (fun _ => IoInvalidData) (script_from_bytes data);
  Ok (s, buf).

(** [as_hash::<D>()], with [D::output_size()] and [D::digest]. *)
Definition as_hash (output_size : nat) (digest : bytes -> bytes) (self : TariScript)
    : result ScriptError bytes :=
  if decide (output_size < 32)%nat then Err InvalidDigest
  else
    s ← slice (digest (script_to_bytes self)) 0 32;
    slice_to_hash s.

Definition script_message (self : TariScript) (pub_key : RistrettoPublicKey)
    : result ScriptError RistrettoSecretKey :=
  ok_or (sk_from_bytes (blake256 (pk_as_bytes pub_key ++ script_to_bytes self))) InvalidSignature.

Definition TariScript_default : TariScript := {| script := [PushZero] |}.

(** src/infrastructure/tari_script/src/lib.rs *)
Definition stealth_payment_script (nonce_public_key script_spending_key : RistrettoPublicKey) : TariScript :=
  {| script := [PushPubKey nonce_public_key; Drop; PushPubKey script_spending_key] |}.

Definition one_sided_payment_script (destination_public_key : RistrettoPublicKey) : TariScript :=
  {| script := [PushPubKey destination_public_key] |}.

End Script.
