(* ===== verification/ScriptEncoding.v ===== *)
(** * Encodings of scripts and stacks

    The theorems on the wire formats of [TariScript] and [ExecutionStack]: what is written can
    be read back, decoding any bytes terminates without an abort, and the one way the Borsh
    readers can abort. *)

From S2P Require Import Prelude ScriptTypes CryptoModel Opcodes ScriptStack TariScript.

Local Open Scope Z_scope.

Section Encoding.
Context {C : ScriptCrypto} {L : ScriptCryptoLaws C}.
Implicit Types (s : TariScript) (st : ExecutionStack) (b rest : bytes).

Definition script_wf s : Prop := Forall opcode_wf (script s).

Lemma script_to_bytes_concat s : script_to_bytes s = concat (map opcode_bytes (script s)).
Proof.
  unfold script_to_bytes. rewrite <- (app_nil_l (concat _)). generalize (@nil Z).
  induction (script s) as [|op ops IH]; intros acc; cbn; [by rewrite app_nil_r|].
  rewrite IH. unfold Opcode_to_bytes. by rewrite <- app_assoc.
Qed.

Lemma script_roundtrip s : script_wf s -> script_from_bytes (script_to_bytes s) = Ok s.
Proof.
  intros Hwf. rewrite script_to_bytes_concat. unfold script_from_bytes. rewrite parse_concat by done.
  by destruct s.
Qed.

Lemma script_from_bytes_wf b s : Forall is_u8 b -> script_from_bytes b = Ok s -> script_wf s.
Proof.
  unfold script_from_bytes, script_wf. intros Hb H. inv_bind H. subst s. by eapply parse_wf.
Qed.

Lemma script_borsh_roundtrip s rest : script_wf s -> Z.of_nat (length (script_to_bytes s)) <= I64_MAX ->
  script_borsh_deserialize (script_borsh_serialize s ++ rest) = Ok (s, rest).
Proof.
  intros Hwf Hlen. unfold script_borsh_deserialize, script_borsh_serialize. rewrite borsh_bytes_roundtrip by done.
  cbn [mbind result_bind]. by rewrite script_roundtrip.
Qed.

(** C24: a script of at most [2^63 - 1] bytes whose opcodes hold values of their types, and whose multisignature opcodes carry as many keys as they declare, is read back from its bytes, from the
    raw encoding and from the length-prefixed Borsh encoding, where it also leaves what follows. The condition is needed: no other script is read back. The types of the code
    admit a multisignature opcode with another number of keys, which is encoded without an error. *)
Theorem script_encoding_roundtrip s rest :
  Z.of_nat (length (script_to_bytes s)) <= I64_MAX ->
  (script_wf s -> script_from_bytes (script_to_bytes s) = Ok s /\ script_borsh_deserialize (script_borsh_serialize s ++ rest) = Ok (s, rest)) /\
  (Forall is_u8 (script_to_bytes s) -> script_from_bytes (script_to_bytes s) = Ok s -> script_wf s).
Proof. intros Hlen. split; [intros Hwf; split; [by apply script_roundtrip|by apply script_borsh_roundtrip]|apply script_from_bytes_wf]. Qed.

(** C25: decoding a script or an input stack from arbitrary bytes terminates with a value or an
    error, never an abort, and every decoded script re-encodes to bytes that decode to it. *)
Theorem decoding_total b :
  Forall is_u8 b ->
  no_panic (script_from_bytes b) /\ no_panic (stack_from_bytes b) /\
  (forall s, script_from_bytes b = Ok s -> script_from_bytes (script_to_bytes s) = Ok s) /\
  (forall st, stack_from_bytes b = Ok st ->
    (stack_size st <= MAX_STACK_SIZE)%nat /\ stack_from_bytes (stack_to_bytes st) = Ok st).
Proof.
  intros Hb. split_and!.
  - apply bind_no_panic; [apply parse_no_panic|done].
  - apply stack_from_bytes_no_panic.
  - intros s Hs. by apply script_roundtrip, (script_from_bytes_wf b).
  - intros st Hst. pose proof (stack_from_bytes_wf b st Hb Hst) as Hwf.
    split; [apply Hwf|by apply stack_bytes_roundtrip].
Qed.

(** An input stack of at most 255 well-typed items is read back from its bytes and from its
    Borsh encoding. *)
Theorem stack_encoding_roundtrip st rest :
  stack_wf st ->
  stack_from_bytes (stack_to_bytes st) = Ok st /\
  stack_borsh_deserialize (stack_borsh_serialize st ++ rest) = Ok (st, rest).
Proof. intros Hwf. split; [by apply stack_bytes_roundtrip|by apply stack_borsh_roundtrip_lemma]. Qed.

(** The Borsh readers allocate the declared length before reading: a length prefix above
    [isize::MAX] aborts the process, whatever follows it. *)
Theorem borsh_length_prefix_aborts len rest :
  I64_MAX < len <= U64_MAX ->
  script_borsh_deserialize (write_varint len ++ rest) = Panic /\
  stack_borsh_deserialize (write_varint len ++ rest) = Panic.
Proof.
  intros Hlen. unfold script_borsh_deserialize, stack_borsh_deserialize, borsh_read_bytes.
  rewrite varint_roundtrip by (unfold is_u64, I64_MAX in *; lia). cbn [ok_or mbind result_bind].
  by rewrite decide_True by lia.
Qed.

End Encoding.

Section EncodingExamples.
Import Mod256.

Definition encoded_script : TariScript :=
  {| script := [CheckHeightVerify 42; PushHash (replicate 32 9); PushPubKey (of_z 200); OrVerify 3;
      CheckMultiSig 1 2 [of_z 1; of_z 2] (replicate 32 0)] |}.
Definition encoded_stack : ExecutionStack :=
  {| items := [Number (-1); Scalar (replicate 32 8); Commitment (of_z 5); Signature (sign (of_z 1) (of_z 2) [])] |}.

Lemma encoded_script_wf : script_wf encoded_script.
Proof. repeat constructor; by vm_compute. Qed.

Lemma encoded_stack_wf : stack_wf encoded_stack.
Proof. split; [unfold stack_bounded, MAX_STACK_SIZE; cbn; lia|]. repeat constructor; by vm_compute. Qed.

(** Two keys are declared and one is carried. *)
Definition short_multisig : TariScript := {| script := [CheckMultiSig 1 2 [of_z 1] (replicate 32 0)] |}.

Lemma script_encoding_roundtrip_witness :
  script_from_bytes (script_to_bytes encoded_script) = Ok encoded_script /\ ~ script_wf short_multisig /\ script_from_bytes (script_to_bytes short_multisig) <> Ok short_multisig.
Proof.
  split; [apply (script_encoding_roundtrip encoded_script []); [by_evaluation|apply encoded_script_wf]|].
  assert (~ script_wf short_multisig) as Hn by (intros Hwf; apply Forall_cons in Hwf as [(_ & _ & Hk & _) _]; discriminate Hk). split; [exact Hn|].
  intros Hr. apply Hn, (script_encoding_roundtrip short_multisig []); [by_evaluation|repeat constructor; by vm_compute|exact Hr].
Defined.

Lemma decoding_total_witness : no_panic (script_from_bytes [127; 1; 255]).
Proof. apply (decoding_total [127; 1; 255]). by_evaluation. Defined.

Lemma stack_encoding_roundtrip_witness :
  stack_from_bytes (stack_to_bytes encoded_stack) = Ok encoded_stack.
Proof. apply (stack_encoding_roundtrip encoded_stack []), encoded_stack_wf. Defined.

Lemma borsh_length_prefix_aborts_witness :
  script_borsh_deserialize (write_varint (2 ^ 63) ++ []) = Panic.
Proof. apply (borsh_length_prefix_aborts (2 ^ 63) []). unfold I64_MAX, U64_MAX. lia. Defined.

End EncodingExamples.
