(* ===== verification/ScriptMultisig.v ===== *)
(** * m-of-n signatures

    What [check_multisig] (src/infrastructure/tari_script/src/script.rs) accepts: exactly [m]
    distinct signatures matched to [m] different key positions, with the aggregate of the
    matched keys as its result. *)

From S2P Require Import Prelude ScriptTypes CryptoModel Opcodes ScriptStack TariScript.

Local Open Scope Z_scope.

Section Multisig.
Context {C : ScriptCrypto}.
Implicit Types (s : RistrettoSchnorr) (pks : list RistrettoPublicKey) (ms : MultisigState)
  (sigs done : list RistrettoSchnorr) (idxs : list nat) (st : ExecutionStack).

(** [s] verifies under the key at position [i]. *)
Definition signed_by pks (message : bytes) s (i : nat) : Prop :=
  exists pk, pks !! i = Some pk /\ verify_challenge s pk message = true.

(** The sum of the keys at the given positions, in that order. *)
Definition aggregate_keys pks idxs : RistrettoPublicKey :=
  foldl pk_add pk_default (omap (fun i => pks !! i) idxs).

(** A valid witness for the signatures: different positions, one per signature, each signing. *)
Definition matching pks message sigs idxs : Prop :=
  NoDup sigs /\ NoDup idxs /\ Forall2 (signed_by pks message) sigs idxs.

(** The loop invariant: the signatures matched so far and the positions they were matched to. *)
Record multisig_inv pks message ms done idxs : Prop := {
  inv_len : length (key_signed ms) = length pks;
  inv_sigs : forall s, s ∈ sig_set ms <-> s ∈ done;
  inv_count : length (sig_set ms) = length done;
  inv_match : matching pks message done idxs;
  inv_keys : forall i, key_signed ms !! i = Some true <-> i ∈ idxs;
  inv_agg : agg_pub_key ms = aggregate_keys pks idxs;
}.

Definition multisig_init pks : MultisigState :=
  {| key_signed := replicate (length pks) false; sig_set := []; agg_pub_key := pk_default |}.

Definition mark s (i : nat) pk ms : MultisigState :=
  {| key_signed := <[i := true]> (key_signed ms);
     sig_set := s :: sig_set ms;
     agg_pub_key := pk_add (agg_pub_key ms) pk |}.

Lemma multisig_match_seen s message i pks ms :
  s ∈ sig_set ms -> (i + length pks <= length (key_signed ms))%nat ->
  multisig_match s message i pks ms = Ok ms.
Proof.
  intros Hs. revert i. induction pks as [|pk pks IH]; intros i Hi; cbn [multisig_match length] in *; [done|].
  destruct (lookup_lt_is_Some_2 (key_signed ms) i) as [b Hb]; [lia|].
  unfold index. rewrite Hb. cbn [unwrap mbind result_bind]. rewrite bool_decide_true by done. cbn.
  apply IH. lia.
Qed.

(** The inner loop marks the first unsigned position whose key verifies the signature. *)
Lemma multisig_match_new s message i pks ms :
  s ∉ sig_set ms -> (i + length pks <= length (key_signed ms))%nat ->
  (exists j pk, pks !! j = Some pk /\ key_signed ms !! (i + j)%nat = Some false /\
     verify_challenge s pk message = true /\ multisig_match s message i pks ms = Ok (mark s (i + j) pk ms)) \/
  (multisig_match s message i pks ms = Ok ms /\
   forall j pk, pks !! j = Some pk -> verify_challenge s pk message = true ->
     key_signed ms !! (i + j)%nat = Some true).
Proof.
  intros Hs. revert i. induction pks as [|pk pks IH]; intros i Hi; cbn [multisig_match length] in *.
  { right. split; [done|]. by intros j pk Hj. }
  destruct (lookup_lt_is_Some_2 (key_signed ms) i) as [b Hb]; [lia|].
  unfold index. rewrite Hb. cbn [unwrap mbind result_bind]. rewrite bool_decide_false by done. cbn [negb andb].
  destruct (negb b && verify_challenge s pk message) eqn:Hv.
  - apply andb_true_iff in Hv as [Hneg Hv]. apply negb_true_iff in Hneg. subst b.
    left. exists 0%nat, pk. by rewrite Nat.add_0_r.
  - destruct (IH (S i)) as [(j & pk' & Hj & Hk & Hv' & Hm)|[Hm Hno]]; [lia| |].
    + left. exists (S j), pk'. rewrite <- plus_n_Sm. cbn [lookup list_lookup]. done.
    + right. split; [done|]. intros [|j] pk' Hj Hv'.
      * injection Hj as ->. rewrite Nat.add_0_r, Hb. rewrite Hv', andb_true_r in Hv. by destruct b.
      * rewrite <- plus_n_Sm. by apply (Hno j pk').
Qed.

Lemma multisig_inv_init pks message : multisig_inv pks message (multisig_init pks) [] [].
Proof.
  split; cbn; try done.
  - apply length_replicate.
  - split_and!; constructor.
  - intros i. rewrite lookup_replicate, elem_of_nil. naive_solver.
Qed.

Lemma multisig_inv_mark pks message ms done idxs s j pk :
  multisig_inv pks message ms done idxs -> s ∉ sig_set ms ->
  pks !! j = Some pk -> key_signed ms !! j = Some false -> verify_challenge s pk message = true ->
  multisig_inv pks message (mark s j pk ms) (done ++ [s]) (idxs ++ [j]).
Proof.
  intros [Hlen Hsigs Hcnt (Hnd & Hni & Hf) Hkeys Hagg] Hs Hj Hk Hv.
  split; unfold mark; cbn [key_signed sig_set agg_pub_key].
  - by rewrite length_insert.
  - intros t. rewrite elem_of_cons, elem_of_app, list_elem_of_singleton, Hsigs. tauto.
  - rewrite length_app, length_cons. cbn [length]. lia.
  - split_and!.
    + apply NoDup_app. split_and!; [done| |apply NoDup_singleton].
      intros x Hx ->%list_elem_of_singleton. by apply Hs, Hsigs.
    + apply NoDup_app. split_and!; [done| |apply NoDup_singleton].
      intros x Hx ->%list_elem_of_singleton. apply Hkeys in Hx. congruence.
    + apply Forall2_app; [done|]. constructor; [|constructor]. by exists pk.
  - intros i. rewrite elem_of_app, list_elem_of_singleton, <- Hkeys.
    destruct (decide (i = j)) as [->|Hne].
    + rewrite list_lookup_insert_eq by (apply lookup_lt_Some in Hk; done). tauto.
    + rewrite list_lookup_insert_ne by done. naive_solver.
  - rewrite Hagg. unfold aggregate_keys. rewrite omap_app, foldl_app. cbn. by rewrite Hj.
Qed.

Lemma multisig_match_inv pks message ms done idxs s :
  multisig_inv pks message ms done idxs -> s ∉ sig_set ms ->
  (exists j pk, pks !! j = Some pk /\ multisig_match s message 0 pks ms = Ok (mark s j pk ms) /\
     signed_by pks message s j /\ multisig_inv pks message (mark s j pk ms) (done ++ [s]) (idxs ++ [j])) \/
  (multisig_match s message 0 pks ms = Ok ms /\ forall j, signed_by pks message s j -> j ∈ idxs).
Proof.
  intros Hinv Hs. pose proof (inv_len _ _ _ _ _ Hinv) as Hlen.
  destruct (multisig_match_new s message 0 pks ms Hs) as [(j & pk & Hj & Hk & Hv & Hm)|[Hm Hno]]; [lia| |].
  - left. exists j, pk. split_and!; [done|done|by exists pk|]. by apply multisig_inv_mark.
  - right. split; [done|]. intros j (pk & Hj & Hv). apply (inv_keys _ _ _ _ _ Hinv), (Hno j pk); done.
Qed.

Lemma multisig_loop_inv pks message sigs ms done idxs :
  multisig_inv pks message ms done idxs ->
  exists r, multisig_loop sigs message pks ms = Ok r /\
  forall ms', r = Some ms' ->
  exists extra idxs', multisig_inv pks message ms' (done ++ extra) (idxs ++ idxs') /\
    (length extra <= length sigs)%nat /\ (length extra = length sigs -> extra = sigs).
Proof.
  revert ms done idxs. induction sigs as [|s sigs IH]; intros ms done idxs Hinv; cbn [multisig_loop].
  { eexists. split; [done|]. intros ms' [= <-]. exists [], []. by rewrite !app_nil_r. }
  destruct (decide (s ∈ sig_set ms)) as [Hin|Hnin].
  - rewrite multisig_match_seen by (rewrite ?(inv_len _ _ _ _ _ Hinv); done). cbn [mbind result_bind].
    rewrite bool_decide_true by done. destruct (IH ms done idxs Hinv) as (r & Hr & Hsome).
    exists r. split; [done|]. intros ms' Hms'. destruct (Hsome ms' Hms') as (ex & ix & Hi & Hle & _).
    exists ex, ix. cbn [length]. split_and!; [done|lia|lia].
  - destruct (multisig_match_inv pks message ms done idxs s Hinv Hnin)
      as [(j & pk & Hj & Hm & _ & Hinv')|[Hm _]]; rewrite Hm; cbn [mbind result_bind].
    + rewrite bool_decide_true by (cbn; left). destruct (IH _ _ _ Hinv') as (r & Hr & Hsome).
      exists r. split; [done|]. intros ms' Hms'. destruct (Hsome ms' Hms') as (ex & ix & Hi & Hle & Heq).
      exists (s :: ex), (j :: ix). rewrite <- !app_assoc in Hi. cbn in *.
      split_and!; [done|lia|]. intros ?. f_equal. apply Heq. lia.
    + rewrite bool_decide_false by done. by exists None.
Qed.

(** With keys that no signature fits twice, the greedy matching finds the one there is. *)
Lemma multisig_loop_complete pks message sigs ms done idxs idxs' :
  (forall s i j, s ∈ sigs -> signed_by pks message s i -> signed_by pks message s j -> i = j) ->
  multisig_inv pks message ms done idxs ->
  matching pks message (done ++ sigs) (idxs ++ idxs') -> length done = length idxs ->
  exists ms', multisig_loop sigs message pks ms = Ok (Some ms') /\
    multisig_inv pks message ms' (done ++ sigs) (idxs ++ idxs').
Proof.
  revert ms done idxs idxs'. induction sigs as [|s sigs IH]; intros ms done idxs idxs' Huniq Hinv Hmatch Hl;
    cbn [multisig_loop]; pose proof Hmatch as (Hnd & Hni & Hf);
    apply (Forall2_app_inv _ _ _ _ _ Hl) in Hf as [_ Hf].
  { apply Forall2_nil_inv_l in Hf as ->. eexists. split; [done|]. by rewrite !app_nil_r. }
  apply Forall2_cons_inv_l in Hf as (j & ix & Hj & Hrest & ->).
  assert (s ∉ sig_set ms) as Hnin.
  { rewrite (inv_sigs _ _ _ _ _ Hinv). apply NoDup_app in Hnd as (_ & Hd & _). intros Hs.
    apply (Hd s Hs). left. }
  destruct (multisig_match_inv pks message ms done idxs s Hinv Hnin)
    as [(k & pk & Hk & Hm & Hsk & Hinv')|[_ Hno]].
  - assert (k = j) as -> by (apply (Huniq s); [left|done|done]). rewrite Hm. cbn [mbind result_bind].
    rewrite bool_decide_true by (cbn; left).
    destruct (IH (mark s j pk ms) (done ++ [s]) (idxs ++ [j]) ix) as (ms' & Hms' & Hi); [|done|..].
    + intros t a b Ht. apply Huniq. by right.
    + by rewrite <- !app_assoc.
    + rewrite !length_app. cbn. lia.
    + exists ms'. by rewrite <- !app_assoc in Hi.
  - apply Hno in Hj. apply NoDup_app in Hni as (_ & Hd & _). destruct (Hd j Hj). left.
Qed.

(** The guard of [check_multisig]. *)
Definition multisig_params (m n : Z) pks : Prop :=
  1 <= m <= n /\ n <= MAX_MULTISIG_LIMIT /\ Z.of_nat (length pks) = n.

Lemma multisig_guard m n pks :
  0 <= m -> 0 <= n ->
  ((m =? 0) || (n =? 0) || (n <? m) || (MAX_MULTISIG_LIMIT <? n) || negb (Z.of_nat (length pks) =? n)) = false
  <-> multisig_params m n pks.
Proof.
  unfold multisig_params. intros Hm Hn. rewrite !orb_false_iff, negb_false_iff, !Z.eqb_neq, Z.eqb_eq, !Z.ltb_ge. lia.
Qed.

Lemma item_to_signature_Ok it s : item_to_signature it = Ok s <-> it = Signature s.
Proof. destruct it; naive_solver. Qed.

Lemma mapM_item_to_signature its sigs : mapM item_to_signature its = Ok sigs <-> its = Signature <$> sigs.
Proof.
  rewrite mapM_Ok_Forall2. split.
  - induction 1 as [|it s its sigs Hs _ IH]; [done|]. apply item_to_signature_Ok in Hs. cbn. by subst.
  - intros ->. induction sigs; cbn; constructor; auto.
Qed.

Lemma item_to_signature_no_panic it : no_panic (item_to_signature it).
Proof. by destruct it. Qed.

(** The two outcomes of the signature check after the parameter guard. *)
Lemma check_multisig_cases m n pks message st :
  0 <= m -> 0 <= n -> multisig_params m n pks ->
  check_multisig m n pks message st = Err StackUnderflow \/
  check_multisig m n pks message st = Err IncompatibleTypes \/
  exists sigs st', items st = items st' ++ (Signature <$> sigs) /\ length sigs = Z.to_nat m /\
    (check_multisig m n pks message st = Ok (None, st') \/
     exists idxs, matching pks message sigs idxs /\
       check_multisig m n pks message st = Ok (Some (aggregate_keys pks idxs), st')).
Proof.
  intros Hm Hn Hp. apply multisig_guard in Hp; [|done..]. unfold check_multisig. rewrite Hp.
  destruct (pop_num_items (Z.to_nat m) st) as [[its st']|e|] eqn:Hpop; cbn [mbind result_bind].
  - apply pop_num_items_Ok in Hpop as [Hi Hl].
    destruct (mapM item_to_signature its) as [sigs|e|] eqn:Hmap; cbn [mbind result_bind].
    + apply mapM_item_to_signature in Hmap as ->. rewrite length_fmap in Hl.
      right; right. exists sigs, st'. split_and!; [done|done|].
      destruct (multisig_loop_inv pks message sigs _ [] [] (multisig_inv_init pks message)) as (r & Hr & Hsome).
      unfold multisig_init in Hr. rewrite Hr. cbn [mbind result_bind].
      destruct r as [ms'|]; [|by left]. destruct (Hsome ms' eq_refl) as (ex & ix & Hinv & Hle & Heq).
      cbn [app] in Hinv. case_decide as Hc; [|by left]. right. exists ix.
      assert (ex = sigs) as -> by (apply Heq; rewrite (inv_count _ _ _ _ _ Hinv) in Hc; lia).
      split; [apply Hinv|]. by rewrite (inv_agg _ _ _ _ _ Hinv).
    + right; left. assert (e = IncompatibleTypes) as ->; [|done].
      clear - Hmap. revert Hmap. induction its as [|it its IH]; cbn; [done|].
      destruct it; cbn; try (by intros [= <-]). destruct (mapM item_to_signature its); cbn; [done| |done].
      intros [= ->]. auto.
    + exfalso. revert Hmap. apply mapM_no_panic, Forall_true, item_to_signature_no_panic.
  - left. unfold pop_num_items in Hpop. case_decide; naive_solver.
  - by destruct (pop_num_items_no_panic (Z.to_nat m) st).
Qed.

Lemma check_multisig_no_panic m n pks message st :
  0 <= m -> 0 <= n -> no_panic (check_multisig m n pks message st).
Proof.
  intros Hm Hn. destruct ((m =? 0) || (n =? 0) || (n <? m) || (MAX_MULTISIG_LIMIT <? n)
     || negb (Z.of_nat (length pks) =? n)) eqn:Hg.
  - unfold check_multisig. by rewrite Hg.
  - apply multisig_guard in Hg; [|done..].
    destruct (check_multisig_cases m n pks message st Hm Hn Hg)
      as [->|[->|(sigs & st' & _ & _ & [->|(idxs & _ & ->)])]]; done.
Qed.

Lemma check_multisig_suffix m n pks message st r st' :
  check_multisig m n pks message st = Ok (r, st') -> exists l, items st = items st' ++ l.
Proof.
  unfold check_multisig. destruct (_ || _); [done|]. intros H.
  apply bind_Ok_iff in H as ([its st1] & Hp & H). apply pop_num_items_Ok in Hp as [Hi _].
  apply bind_Ok_iff in H as (sigs & _ & H). apply bind_Ok_iff in H as (r' & _ & H).
  exists its. destruct r'; [case_decide|]; by injection H as _ <-.
Qed.

(** C1: [check_multisig] accepts only if the top of the stack holds [m] pairwise different
    signatures, matched to [m] different positions of the key list, each signature verifying
    under the key at its position; the result is the sum of exactly those keys and the
    signatures are popped. *)
Theorem check_multisig_sound m n pks message st agg st' :
  is_u8 m -> is_u8 n ->
  check_multisig m n pks message st = Ok (Some agg, st') ->
  exists sigs idxs,
    1 <= m <= n /\ n <= MAX_MULTISIG_LIMIT /\ Z.of_nat (length pks) = n /\
    items st = items st' ++ (Signature <$> sigs) /\ Z.of_nat (length sigs) = m /\
    matching pks message sigs idxs /\ agg = aggregate_keys pks idxs.
Proof.
  intros [Hm _] [Hn _] H.
  assert (multisig_params m n pks) as Hp.
  { apply multisig_guard; [done..|]. revert H. unfold check_multisig. by destruct (_ || _). }
  destruct (check_multisig_cases m n pks message st Hm Hn Hp)
    as [E|[E|(sigs & st1 & Hi & Hl & [E|(idxs & Hmt & E)])]]; rewrite E in H; try done.
  injection H as <- <-. exists sigs, idxs. destruct Hp as ([? ?] & ? & ?). split_and!; try done. lia.
Qed.

(** When no signature fits two keys, every valid set of [m] signatures on the stack is
    accepted: [check_multisig] pops them and returns the sum of the keys that signed. *)
Theorem check_multisig_complete m n pks message l sigs idxs :
  multisig_params m n pks -> Z.of_nat (length sigs) = m ->
  matching pks message sigs idxs ->
  (forall s i j, s ∈ sigs -> signed_by pks message s i -> signed_by pks message s j -> i = j) ->
  check_multisig m n pks message {| items := l ++ (Signature <$> sigs) |} =
    Ok (Some (aggregate_keys pks idxs), {| items := l |}).
Proof.
  intros Hp Hl Hmatch Huniq. pose proof Hp as ([? ?] & ? & ?).
  apply multisig_guard in Hp; [|lia..]. unfold check_multisig. rewrite Hp.
  rewrite (proj2 (pop_num_items_Ok _ _ (Signature <$> sigs) {| items := l |}))
    by (rewrite length_fmap; cbn; split; [done|lia]).
  cbn [mbind result_bind]. rewrite (proj2 (mapM_item_to_signature _ sigs)) by done. cbn [mbind result_bind].
  destruct (multisig_loop_complete pks message sigs (multisig_init pks) [] [] idxs) as (ms & Hms & Hinv);
    auto using multisig_inv_init.
  unfold multisig_init in Hms. rewrite Hms. cbn [mbind result_bind app] in *.
  rewrite decide_True by (rewrite (inv_count _ _ _ _ _ Hinv); lia).
  by rewrite (inv_agg _ _ _ _ _ Hinv).
Qed.

End Multisig.

(** ** Examples: a 2-of-3 check *)
Section MultisigExamples.
Import Mod256.

Definition example_keys : list RistrettoPublicKey := of_z <$> [3; 5; 7].
Definition example_message : bytes := replicate 32 1.
Definition example_sigs : list RistrettoSchnorr :=
  [sign (of_z 7) (of_z 11) example_message; sign (of_z 3) (of_z 12) example_message].

(** [signed_by] as a function. *)
Definition signed_byb (s : RistrettoSchnorr) (i : nat) : bool :=
  match example_keys !! i with
  | Some pk => verify_challenge s pk example_message
  | None => false
  end.

Lemma signed_byb_spec s i : signed_by example_keys example_message s i <-> signed_byb s i = true.
Proof.
  unfold signed_by, signed_byb. destruct (example_keys !! i) as [pk|]; naive_solver.
Qed.

Lemma example_table :
  map (fun s => map (signed_byb s) (seq 0 3)) example_sigs = [[false; false; true]; [true; false; false]].
Proof. by vm_compute. Qed.

Lemma example_unique s i j :
  s ∈ example_sigs -> signed_by example_keys example_message s i ->
  signed_by example_keys example_message s j -> i = j.
Proof.
  rewrite !signed_byb_spec. pose proof example_table as Ht. unfold example_sigs in *.
  remember (sign (of_z 7) (of_z 11) example_message) as s1.
  remember (sign (of_z 3) (of_z 12) example_message) as s2. clear Heqs1 Heqs2.
  cbn [map seq] in Ht. injection Ht as H10 H11 H12 H20 H21 H22.
  rewrite !elem_of_cons, elem_of_nil.
  intros Hs Hi Hj. destruct i as [|[|[|i]]], j as [|[|[|j]]]; try done; naive_solver congruence.
Qed.

Lemma example_matching : matching example_keys example_message example_sigs [2%nat; 0%nat].
Proof.
  split_and!.
  - by_evaluation.
  - by_evaluation.
  - repeat constructor; apply signed_byb_spec; by vm_compute.
Qed.

Lemma check_multisig_sound_witness :
  exists sigs idxs, matching example_keys example_message sigs idxs /\
    (Signature <$> example_sigs) = (Signature <$> sigs).
Proof.
  destruct (check_multisig_sound 2 3 example_keys example_message
    {| items := Signature <$> example_sigs |} (of_z 10) {| items := [] |})
    as (sigs & idxs & _ & _ & _ & Hi & _ & Hm & _).
  - unfold is_u8, U8_MAX; lia.
  - unfold is_u8, U8_MAX; lia.
  - by_evaluation.
  - exists sigs, idxs. by split.
Defined.

Lemma check_multisig_complete_witness :
  check_multisig 2 3 example_keys example_message {| items := [Number 4] ++ (Signature <$> example_sigs) |} =
    Ok (Some (aggregate_keys example_keys [2%nat; 0%nat]), {| items := [Number 4] |}).
Proof.
  apply (check_multisig_complete 2 3 example_keys example_message [Number 4] example_sigs).
  - unfold multisig_params, MAX_MULTISIG_LIMIT. cbn. lia.
  - done.
  - apply example_matching.
  - apply example_unique.
Defined.

End MultisigExamples.
