(* ===== verification/ScriptSafety.v ===== *)
(** * Safety of script execution

    What the machine preserves and what it cannot do: the stack stays within its bound with
    items of their Rust types, and no opcode but [CompareHeight] can abort. *)

From S2P Require Import Prelude ScriptTypes CryptoModel Opcodes ScriptStack TariScript ScriptMultisig.

Local Open Scope Z_scope.

Section Safety.
Context {C : ScriptCrypto} {L : ScriptCryptoLaws C}.
Implicit Types (op : Opcode) (st : ExecutionStack) (ctx : ScriptContext) (state : ExecutionState).

(** A step's contract: it does not abort, and from a well-formed stack it leaves one. *)
Definition safe_step (r : result ScriptError ExecutionStack) : Prop :=
  no_panic r /\ forall st, r = Ok st -> stack_wf st.

Lemma safe_Ok st : stack_wf st -> safe_step (Ok st).
Proof. intros H. split; [done|]. by intros st' [= <-]. Qed.

Lemma safe_Err e : safe_step (Err e).
Proof. done. Qed.

Lemma safe_push it st : item_wf it -> stack_wf st -> safe_step (stack_push it st).
Proof. intros Hi Hs. split; [apply stack_push_no_panic|]. intros st' Hp. by eapply stack_push_wf. Qed.

Lemma safe_bind {A} (m : result ScriptError A) f :
  no_panic m -> (forall a, m = Ok a -> safe_step (f a)) -> safe_step (m ≫= f).
Proof. intros Hm Hf. destruct m as [a|e|]; [by apply Hf|done|done]. Qed.

Lemma safe_pop st f :
  stack_wf st -> (forall it st', item_wf it -> stack_wf st' -> safe_step (f (it, st'))) ->
  safe_step (pop_or_underflow st ≫= f).
Proof.
  intros Hst Hf. apply safe_bind; [apply pop_no_panic|]. intros [it st'] Hp.
  apply pop_wf in Hp as [? ?]; auto.
Qed.

Lemma safe_pop_number tf st f :
  stack_wf st -> (forall n v st', is_i64 n -> tf n = Some v -> stack_wf st' -> safe_step (f (v, st'))) ->
  safe_step (pop_into_number tf st ≫= f).
Proof.
  intros Hst Hf. unfold pop_into_number. rewrite result_bind_assoc. apply safe_pop; [done|].
  intros it st' Hit Hst'. destruct it; try apply safe_Err.
  destruct (tf v) as [w|] eqn:Htf; [|apply safe_Err]. cbn. by eapply Hf.
Qed.

Hint Resolve safe_Ok safe_Err safe_push : tari.

Lemma safe_bool (b : bool) st : stack_wf st ->
  safe_step (if b then stack_push (Number 1) st else stack_push (Number 0) st).
Proof. intros. destruct b; apply safe_push; cbn; unfold is_i64, I64_MIN, I64_MAX; auto; lia. Qed.

Lemma safe_verify (b : bool) st : stack_wf st -> safe_step (if b then Ok st else Err VerifyFailed).
Proof. destruct b; auto with tari. Qed.

Hint Resolve safe_bool safe_verify : tari.

Lemma safe_contains n st f :
  stack_wf st -> (forall b st', stack_wf st' -> safe_step (f (b, st'))) ->
  safe_step (pop_n_plus_one_contains n st ≫= f).
Proof.
  intros Hst Hf. unfold pop_n_plus_one_contains. rewrite result_bind_assoc.
  apply safe_bind; [apply pop_num_items_no_panic|]. intros [its st1] Hits.
  apply pop_num_items_Ok in Hits as [Hi _].
  assert (stack_wf st1 /\ (length its + length (items st1) <= MAX_STACK_SIZE)%nat) as [Hst1 Hlen].
  { destruct Hst as [Hb Hw]. unfold stack_wf, stack_bounded, stack_size in *. rewrite Hi, length_app in Hb.
    rewrite Hi in Hw. apply Forall_app in Hw as [Hw _]. split; [split; [lia|done]|lia]. }
  rewrite result_bind_assoc. apply safe_bind; [apply pop_no_panic|]. intros [it st2] Hp.
  pose proof (pop_wf _ _ _ Hp Hst1) as [_ Hst2]. apply pop_or_underflow_Ok in Hp.
  rewrite Hp, length_app in Hlen. cbn [length] in Hlen. unfold MAX_STACK_SIZE in *.
  change (0, 0, 0, 0, 0, 0) with (counts []). rewrite foldM_counter by (cbn; lia).
  cbn [mbind result_bind app]. rewrite counter_counts by lia. cbn [mbind result_bind].
  case_decide; cbn; auto with tari.
Qed.

Lemma suffix_wf st st' l : items st = items st' ++ l -> stack_wf st -> stack_wf st'.
Proof.
  unfold stack_wf, stack_bounded, stack_size. intros ->. rewrite length_app.
  intros [Hb [Hw _]%Forall_app]. split; [lia|done].
Qed.

Lemma safe_multisig m n pks msg st f :
  0 <= m -> 0 <= n -> stack_wf st -> (forall r st', stack_wf st' -> safe_step (f (r, st'))) ->
  safe_step (check_multisig m n pks msg st ≫= f).
Proof.
  intros Hm Hn Hst Hf. apply safe_bind; [by apply check_multisig_no_panic|].
  intros [r st'] Hc. apply check_multisig_suffix in Hc as [l Hl]. apply Hf. by eapply suffix_wf.
Qed.

Lemma safe_hash digest st :
  (forall b, length (digest b) = 32%nat) -> stack_wf st -> safe_step (handle_hash digest st).
Proof.
  intros Hd Hst. unfold handle_hash. apply safe_pop; [done|]. intros it st' Hit Hst'.
  unfold digest_to_arr. destruct it; cbn; try apply safe_Err; rewrite decide_True by done; cbn;
    apply safe_push; cbn; done.
Qed.

Lemma safe_equal st f :
  stack_wf st -> (forall b st', stack_wf st' -> safe_step (f (b, st'))) -> safe_step (handle_equal st ≫= f).
Proof.
  intros Hst Hf. unfold handle_equal. rewrite result_bind_assoc. apply safe_pop; [done|].
  intros it st1 Hit Hst1. rewrite result_bind_assoc. apply safe_pop; [done|]. intros it2 st2 _ Hst2.
  destruct it, it2; cbn; auto with tari.
Qed.

Lemma safe_check_sig msg st f :
  stack_wf st -> (forall b st', stack_wf st' -> safe_step (f (b, st'))) -> safe_step (check_sig msg st ≫= f).
Proof.
  intros Hst Hf. unfold check_sig. rewrite result_bind_assoc. apply safe_pop; [done|].
  intros it st1 Hit Hst1. rewrite result_bind_assoc. apply safe_pop; [done|]. intros it2 st2 _ Hst2.
  destruct it, it2; cbn; auto with tari.
Qed.

Lemma safe_checked v st :
  stack_wf st -> safe_step (v' ← ok_or (checked I64_MIN I64_MAX v) ValueExceedsBounds; stack_push (Number v') st).
Proof.
  intros Hst. apply safe_bind; [apply ok_or_no_panic|].
  intros v' [-> Hv]%ok_or_Ok%checked_Some. by apply safe_push.
Qed.

Lemma safe_add st : stack_wf st -> safe_step (handle_op_add st).
Proof.
  intros Hst. unfold handle_op_add. apply safe_pop; [done|]. intros it st1 Hit Hst1.
  apply safe_pop; [done|]. intros it2 st2 _ Hst2.
  destruct it, it2; cbn; try apply safe_Err; try (by apply safe_push). by apply safe_checked.
Qed.

Lemma safe_sub st : stack_wf st -> safe_step (handle_op_sub st).
Proof.
  intros Hst. unfold handle_op_sub. apply safe_pop; [done|]. intros it st1 Hit Hst1.
  apply safe_pop; [done|]. intros it2 st2 _ Hst2.
  destruct it, it2; cbn; try apply safe_Err; try (by apply safe_push). by apply safe_checked.
Qed.

Lemma safe_check_height h bh st :
  0 <= h -> 0 <= bh -> stack_wf st -> safe_step (handle_check_height h bh st).
Proof.
  intros Hh Hbh Hst. unfold handle_check_height, height_to_i64, I64_MIN, I64_MAX.
  destruct (Z.leb_spec h (2 ^ 63 - 1)); [|done]. destruct (Z.leb_spec bh (2 ^ 63 - 1)); [|done].
  cbn [mbind result_bind]. rewrite arith_ok by lia. apply safe_push; [|done].
  unfold item_wf, is_i64, I64_MIN, I64_MAX. lia.
Qed.

Lemma stack_peek_wf st it : stack_peek st = Some it -> stack_wf st -> item_wf it.
Proof.
  unfold stack_peek. intros Hl [_ Hw]. apply last_Some in Hl as [l Hl]. rewrite Hl in Hw.
  apply Forall_app in Hw as [_ Hw]. by inversion_clear Hw.
Qed.

Lemma safe_push_down n st : stack_wf st -> safe_step (push_down n st).
Proof.
  intros [Hb Hw]. unfold push_down. case_decide as Hn; [done|]. case_decide as H0; [by apply safe_Ok|].
  unfold stack_bounded, stack_size in *. destruct st as [l]. cbn [items] in *.
  destruct l as [|it l _] using rev_ind; [cbn in *; lia|].
  rewrite stack_pop_snoc. cbn [unwrap mbind result_bind items]. unfold vec_insert.
  rewrite length_app in *. cbn [length] in *. rewrite decide_True by lia. cbn.
  apply Forall_app in Hw as [Hw Hit]. inversion_clear Hit. apply safe_Ok. split.
  - unfold stack_bounded, stack_size. cbn. rewrite length_app, length_take. cbn. rewrite length_drop. lia.
  - cbn. apply Forall_app_2; [by apply Forall_take|]. constructor; [done|by apply Forall_drop].
Qed.

Lemma safe_compare_zero os st : stack_wf st -> safe_step (handle_cmp_to_zero os st).
Proof.
  intros Hst. unfold handle_cmp_to_zero. apply safe_pop_number; [done|]. intros. by apply safe_bool.
Qed.

Lemma safe_to_point st : stack_wf st -> safe_step (handle_to_ristretto_point st).
Proof.
  intros Hst. unfold handle_to_ristretto_point. apply safe_pop; [done|]. intros it st' _ Hst'.
  destruct it; cbn; try apply safe_Err;
    (apply safe_bind; [apply ok_or_no_panic|]; intros sk _; by apply safe_push).
Qed.

Lemma execute_stack_opcode_safe op ctx st :
  opcode_wf op -> is_u64 (block_height ctx) -> op <> CompareHeight -> stack_wf st ->
  safe_step (execute_stack_opcode op ctx st).
Proof.
  intros Hop [Hctx _] Hne Hst.
  destruct op; cbn [execute_stack_opcode opcode_wf] in *; try done; try (by apply safe_Ok);
    try (by apply safe_push; cbn; auto).
  - unfold handle_check_height_verify. by apply safe_verify.
  - apply safe_check_height; [apply Hop|done|done].
  - unfold handle_compare_height_verify. apply safe_pop_number; [done|]. intros. by apply safe_verify.
  - unfold handle_drop. destruct (stack_pop st) as [[it st']|] eqn:Hp; [|done].
    apply safe_Ok. apply stack_pop_Some in Hp. by eapply suffix_wf.
  - unfold handle_dup. destruct (stack_peek st) as [it|] eqn:Hp; [|done].
    apply safe_push; [by eapply stack_peek_wf|done].
  - by apply safe_push_down.
  - by apply safe_compare_zero.
  - by apply safe_compare_zero.
  - by apply safe_compare_zero.
  - by apply safe_compare_zero.
  - by apply safe_add.
  - by apply safe_sub.
  - apply safe_equal; auto with tari.
  - apply safe_equal; auto with tari.
  - apply safe_contains; auto with tari.
  - apply safe_contains; auto with tari.
  - apply safe_hash; auto with tari.
  - apply safe_hash; auto with tari.
  - apply safe_hash; auto with tari.
  - apply safe_check_sig; auto with tari.
  - apply safe_check_sig; auto with tari.
  - destruct Hop as ([? _] & [? _] & _). apply safe_multisig; [done..|].
    intros [r|] st' Hst'; by apply safe_push.
  - destruct Hop as ([? _] & [? _] & _). apply safe_multisig; [done..|].
    intros [r|] st' Hst'; auto with tari.
  - destruct Hop as ([? _] & [? _] & _). apply safe_multisig; [done..|].
    intros [r|] st' Hst'; [by apply safe_push|done].
  - by apply safe_to_point.
Qed.

(** The same contract for the steps that also change the control state. *)
Definition safe_run (r : result ScriptError (ExecutionStack * ExecutionState)) : Prop :=
  no_panic r /\ forall st state, r = Ok (st, state) -> stack_wf st.

Lemma handle_else_no_panic state : no_panic (handle_else state).
Proof.
  unfold handle_else. apply bind_no_panic; [apply ok_or_no_panic|]. intros [f r] _. by destruct (negb _).
Qed.

Lemma handle_end_if_no_panic state : no_panic (handle_end_if state).
Proof.
  unfold handle_end_if. apply bind_no_panic; [apply ok_or_no_panic|]. intros [f r] _. by destruct (else_expected f).
Qed.

Lemma handle_if_then_safe st state : stack_wf st -> safe_run (handle_if_then st state).
Proof.
  intros Hst. unfold handle_if_then. destruct (executing state); cycle 1.
  { split; [done|]. by intros st' state' [= <- _]. }
  destruct (pop_or_underflow st) as [[it st']|e|] eqn:Hp; [|done|by destruct (pop_no_panic st)].
  apply pop_wf in Hp as [_ Hst']; [|done]. cbn.
  repeat case_match; (split; [done|]); intros ? ? Hr; try done; by injection Hr as <- _.
Qed.

Lemma execute_opcode_safe op ctx st state :
  opcode_wf op -> is_u64 (block_height ctx) -> op <> CompareHeight -> stack_wf st ->
  safe_run (execute_opcode op ctx st state).
Proof.
  intros Hop Hctx Hne Hst.
  assert (safe_run (st' ← execute_stack_opcode op ctx st; Ok (st', state))) as Hlift.
  { destruct (execute_stack_opcode_safe op ctx st) as [Hnp Hok]; [done..|].
    destruct (execute_stack_opcode op ctx st) as [st'|e|]; [|done|done]. split; [done|].
    intros ? ? [= <- _]. by apply Hok. }
  destruct op; try exact Hlift; cbn [execute_opcode].
  - by apply handle_if_then_safe.
  - pose proof (handle_else_no_panic state) as Hnp. destruct (handle_else state); [|done|done].
    split; [done|]. by intros ? ? [= <- _].
  - pose proof (handle_end_if_no_panic state) as Hnp. destruct (handle_end_if state); [|done|done].
    split; [done|]. by intros ? ? [= <- _].
Qed.

Lemma execute_loop_safe ops ctx st state :
  Forall opcode_wf ops -> CompareHeight ∉ ops -> is_u64 (block_height ctx) -> stack_wf st ->
  safe_run (execute_loop ops ctx st state).
Proof.
  intros Hops Hne Hctx. revert st state. induction Hops as [|op ops Hop _ IH]; intros st state Hst.
  { split; [done|]. by intros ? ? [= <- _]. }
  apply not_elem_of_cons in Hne as [Hne1 Hne]. cbn [execute_loop].
  destruct (should_execute op state); [|by apply IH].
  destruct (execute_opcode_safe op ctx st state) as [Hnp Hok]; [done..|].
  destruct (execute_opcode op ctx st state) as [[st' state']|e|]; [|done|done].
  apply IH; [done|]. by eapply Hok.
Qed.

(** C23: a script and an input stack decoded from any bytes run to a value or a script error,
    never to an abort (no overflow, no slice or index out of range), at any block height,
    provided the script has no [CompareHeight]. *)
Theorem execution_never_aborts sb ib s inputs ctx :
  Forall is_u8 sb -> Forall is_u8 ib -> is_u64 (block_height ctx) ->
  script_from_bytes sb = Ok s -> stack_from_bytes ib = Ok inputs -> CompareHeight ∉ script s ->
  no_panic (execute_with_context s inputs ctx).
Proof.
  intros Hsb Hib Hctx Hs Hi Hne. unfold script_from_bytes in Hs. inv_bind Hs. subst s. cbn [script] in *.
  apply parse_wf in Hr; [|done]. apply stack_from_bytes_wf in Hi; [|done].
  unfold execute_with_context. cbn [script].
  apply bind_no_panic; [by apply execute_loop_safe|]. intros [st state] _.
  destruct (if_stack state); [|done]. case_decide; [|done].
  apply bind_no_panic; [apply ok_or_no_panic|]. by intros [].
Qed.

(** Through the execution of any part of a script the stack holds at most 255 items, each
    of its Rust type (64-bit numbers, 32-byte hashes and scalars). *)
Theorem execution_preserves_stack ops ctx st state st' state' :
  Forall opcode_wf ops -> CompareHeight ∉ ops -> is_u64 (block_height ctx) -> stack_wf st ->
  execute_loop ops ctx st state = Ok (st', state') ->
  (stack_size st' <= 255)%nat /\ Forall item_wf (items st').
Proof.
  intros Hops Hne Hctx Hst Hrun.
  exact (proj2 (execute_loop_safe ops ctx st state Hops Hne Hctx Hst) st' state' Hrun).
Qed.

(** [CompareHeight] computes [block_height - target] in [i64] without a check: with a number
    on top it aborts exactly when the difference exceeds the largest [i64]. *)
Theorem compare_height_aborts_iff n l ctx state :
  is_i64 n -> 0 <= block_height ctx <= I64_MAX -> (length l < 255)%nat ->
  execute_opcode CompareHeight ctx {| items := l ++ [Number n] |} state = Panic <->
  I64_MAX < block_height ctx - n.
Proof.
  intros Hn Hbh Hl. unfold execute_opcode, execute_stack_opcode, handle_compare_height, pop_into_number.
  rewrite (proj2 (pop_or_underflow_Ok _ (Number n) {| items := l |})) by done. cbn [mbind result_bind ok_or i64_try_from].
  unfold height_to_i64. rewrite (proj2 (Z.leb_le _ _)) by lia. cbn [mbind result_bind].
  unfold is_i64, I64_MIN, I64_MAX in *. unfold arith. destruct (fits _ _ _) eqn:F.
  - apply fits_true in F. cbn [mbind result_bind]. unfold stack_push, stack_size, MAX_STACK_SIZE.
    cbn [items]. rewrite decide_False by lia. cbn. split; [done|lia].
  - split; [intros _|done]. apply Z.nle_gt. intros Hle.
    assert (fits (- 2 ^ 63) (2 ^ 63 - 1) (block_height ctx - n) = true) as F' by (apply fits_true; lia).
    congruence.
Qed.

End Safety.

(** ** Examples *)
Section SafetyExamples.
Import Mod256.

Definition example_script : TariScript :=
  {| script := [PushInt 7; Add; IfThen; PushOne; Else; PushZero; EndIf] |}.
Definition example_inputs : ExecutionStack := {| items := [Number (-7)] |}.

Lemma execution_never_aborts_witness :
  no_panic (execute_with_context example_script example_inputs ScriptContext_default).
Proof.
  apply (execution_never_aborts (script_to_bytes example_script) (stack_to_bytes example_inputs)).
  - by_evaluation.
  - by_evaluation.
  - by_evaluation.
  - by_evaluation.
  - by_evaluation.
  - by_evaluation.
Defined.

Lemma execution_preserves_stack_witness : (1 <= 255)%nat /\ Forall item_wf [Number 0].
Proof.
  apply (execution_preserves_stack (script example_script) ScriptContext_default example_inputs
    ExecutionState_default {| items := [Number 0] |} ExecutionState_default).
  - repeat constructor; by vm_compute.
  - by_evaluation.
  - by_evaluation.
  - split; [unfold stack_bounded, MAX_STACK_SIZE; cbn; lia|]. repeat constructor; by vm_compute.
  - by_evaluation.
Defined.

Lemma compare_height_aborts_iff_witness :
  execute_opcode CompareHeight ScriptContext_default {| items := [] ++ [Number I64_MIN] |} ExecutionState_default
    = Panic.
Proof.
  apply (compare_height_aborts_iff I64_MIN [] ScriptContext_default ExecutionState_default).
  - by vm_compute.
  - by vm_compute.
  - cbn. lia.
  - by vm_compute.
Defined.

End SafetyExamples.
