(* ===== verification/ScriptControl.v ===== *)
(** * Control flow of scripts

    The flat machine of src/infrastructure/tari_script/src/script.rs keeps a stack of
    [IfState]s and a flag. Here is the structured language it implements, blocks with nested
    conditionals, its evaluator, and the theorem that the flat machine accepts exactly the
    serialisations of blocks, with the evaluator's result. *)

From S2P Require Import Prelude ScriptTypes CryptoModel Opcodes ScriptStack TariScript.

Local Open Scope Z_scope.

Section Control.
Context {C : ScriptCrypto}.
Implicit Types (op : Opcode) (ops : list Opcode) (st : ExecutionStack) (ctx : ScriptContext).

Inductive block :=
| BNil
| BOp (op : Opcode) (k : block)
| BIf (t e k : block).

Definition is_control op : bool :=
  match op with
  | IfThen | Else | EndIf => true
  | _ => false
  end.

Fixpoint block_wf (b : block) : Prop :=
  match b with
  | BNil => True
  | BOp op k => is_control op = false /\ block_wf k
  | BIf t e k => block_wf t /\ block_wf e /\ block_wf k
  end.

Fixpoint flatten (b : block) : list Opcode :=
  match b with
  | BNil => []
  | BOp op k => op :: flatten k
  | BIf t e k => IfThen :: flatten t ++ Else :: flatten e ++ EndIf :: flatten k
  end.

(** The predicate of a conditional: the numbers 1 and 0. *)
Definition pop_condition st : result ScriptError (bool * ExecutionStack) :=
  '(it, st) ← pop_or_underflow st;
  match it with
  | Number 1 => Ok (true, st)
  | Number 0 => Ok (false, st)
  | _ => Err InvalidInput
  end.

Fixpoint eval_block (b : block) ctx st : result ScriptError ExecutionStack :=
  match b with
  | BNil => Ok st
  | BOp op k => st ← execute_stack_opcode op ctx st; eval_block k ctx st
  | BIf t e k =>
      '(c, st) ← pop_condition st;
      st ← (if c : bool then eval_block t ctx st else eval_block e ctx st);
      eval_block k ctx st
  end.

(** ** The machine on serialised blocks *)

Abbreviation running ifs := {| executing := true; if_stack := ifs |}.
Abbreviation skipping ifs := {| executing := false; if_stack := ifs |}.
Abbreviation frame b e := {| branch := b; else_expected := e |}.

Lemma execute_opcode_plain op ctx st state :
  is_control op = false ->
  execute_opcode op ctx st state = (st ← execute_stack_opcode op ctx st; Ok (st, state)).
Proof. by destruct op. Qed.

Lemma should_execute_plain op state : is_control op = false -> should_execute op state = executing state.
Proof. by destruct op. Qed.

Lemma execute_loop_plain op ops ctx st state :
  is_control op = false ->
  execute_loop (op :: ops) ctx st state =
    if executing state then st ← execute_stack_opcode op ctx st; execute_loop ops ctx st state
    else execute_loop ops ctx st state.
Proof.
  intros Hop. cbn [execute_loop]. rewrite should_execute_plain, execute_opcode_plain by done.
  destruct (executing state); [|done]. rewrite result_bind_assoc. by destruct (execute_stack_opcode op ctx st).
Qed.

Lemma execute_loop_if ops ctx st ifs :
  execute_loop (IfThen :: ops) ctx st (running ifs) =
    ('(c, st) ← pop_condition st;
     if c : bool then execute_loop ops ctx st (running (push_if ExecuteIf ifs))
     else execute_loop ops ctx st (skipping (push_if ExecuteElse ifs))).
Proof.
  cbn. unfold handle_if_then, pop_condition. cbn. destruct (pop_or_underflow st) as [[it st']|e|]; cbn; [|done..].
  destruct it as [[|[|p|]|]| | | | |]; reflexivity.
Qed.

Lemma execute_loop_if_skip ops ctx st ifs :
  execute_loop (IfThen :: ops) ctx st (skipping ifs) =
    execute_loop ops ctx st (skipping (push_if NotExecuted ifs)).
Proof. done. Qed.

(** [Else] and [EndIf] on the innermost frame. *)
Lemma execute_loop_else ops ctx st ex ifs b e :
  execute_loop (Else :: ops) ctx st {| executing := ex; if_stack := ifs ++ [frame b e] |} =
    if e then execute_loop ops ctx st
      {| executing := (match b with ExecuteElse => true | _ => false end); if_stack := ifs ++ [frame b false] |}
    else Err InvalidOpcode.
Proof. cbn. unfold handle_else. cbn. rewrite vec_pop_snoc. cbn. by destruct e, b. Qed.

Lemma execute_loop_end_if ops ctx st ex ifs b e :
  execute_loop (EndIf :: ops) ctx st {| executing := ex; if_stack := ifs ++ [frame b e] |} =
    if e then Err MissingOpcode
    else execute_loop ops ctx st
      {| executing := (match b with NotExecuted => false | _ => true end); if_stack := ifs |}.
Proof. cbn. unfold handle_end_if. cbn. rewrite vec_pop_snoc. cbn. by destruct e, b. Qed.

(** A block in a branch that is not taken is skipped. *)
Lemma execute_loop_skip b rest ctx st ifs :
  block_wf b ->
  execute_loop (flatten b ++ rest) ctx st (skipping ifs) = execute_loop rest ctx st (skipping ifs).
Proof.
  revert rest ifs. induction b as [|op k IH|t IHt e IHe k IHk]; intros rest ifs; cbn [block_wf flatten app]; [done| |].
  - intros [Hop Hk]. rewrite execute_loop_plain by done. cbn [executing]. by apply IH.
  - intros (Ht & He & Hk). rewrite execute_loop_if_skip. unfold push_if.
    rewrite <- app_assoc, IHt by done. cbn [app]. rewrite execute_loop_else.
    rewrite <- app_assoc, IHe by done. cbn [app]. rewrite execute_loop_end_if. by apply IHk.
Qed.

Lemma execute_loop_block b rest ctx st ifs :
  block_wf b ->
  execute_loop (flatten b ++ rest) ctx st (running ifs) =
    (st ← eval_block b ctx st; execute_loop rest ctx st (running ifs)).
Proof.
  revert rest st ifs. induction b as [|op k IH|t IHt e IHe k IHk]; intros rest st ifs;
    cbn [block_wf flatten app eval_block]; [done| |].
  - intros [Hop Hk]. rewrite execute_loop_plain by done. cbn [executing].
    rewrite result_bind_assoc. destruct (execute_stack_opcode op ctx st) as [st'|er|]; cbn; [|done..]. by apply IH.
  - intros (Ht & He & Hk). rewrite execute_loop_if, result_bind_assoc.
    destruct (pop_condition st) as [[c st1]|er|]; cbn [mbind result_bind]; [|done..].
    unfold push_if. destruct c; rewrite <- app_assoc; cbn [app].
    + rewrite IHt, result_bind_assoc by done.
      destruct (eval_block t ctx st1) as [st2|er|]; cbn [mbind result_bind]; [|done..].
      rewrite execute_loop_else, <- app_assoc, execute_loop_skip by done. cbn [app].
      rewrite execute_loop_end_if. by apply IHk.
    + rewrite execute_loop_skip, execute_loop_else, <- app_assoc, IHe, result_bind_assoc by done.
      destruct (eval_block e ctx st1) as [st2|er|]; cbn [mbind result_bind app]; [|done..].
      rewrite execute_loop_end_if. by apply IHk.
Qed.

(** ** What the machine accepts is a serialised block *)

Definition stops (rest : list Opcode) : Prop :=
  match rest with
  | [] | Else :: _ | EndIf :: _ => True
  | _ => False
  end.

Lemma execute_loop_continue b rest ctx st ex ifs r :
  block_wf b -> execute_loop (flatten b ++ rest) ctx st {| executing := ex; if_stack := ifs |} = Ok r ->
  exists st1, execute_loop rest ctx st1 {| executing := ex; if_stack := ifs |} = Ok r.
Proof.
  intros Hb. destruct ex.
  - rewrite execute_loop_block by done. intros H. inv_bind H. eauto.
  - rewrite execute_loop_skip by done. eauto.
Qed.

(** The run of a script that ends with no open conditional starts with a whole block, up to the
    end of the script or to the [Else] or [EndIf] that closes the enclosing branch. *)
Lemma execute_loop_prefix n ops ctx st ex ifs st' ex' :
  (length ops <= n)%nat ->
  execute_loop ops ctx st {| executing := ex; if_stack := ifs |} = Ok (st', {| executing := ex'; if_stack := [] |}) ->
  exists b rest, ops = flatten b ++ rest /\ block_wf b /\ stops rest.
Proof.
  revert ops st ex ifs. induction n as [|n IH]; intros ops st ex ifs Hlen Hrun.
  { destruct ops; [|cbn in Hlen; lia]. by exists BNil, []. }
  destruct ops as [|op ops]; [by exists BNil, []|]. cbn [length] in Hlen.
  destruct (is_control op) eqn:Hc; cycle 1.
  { rewrite execute_loop_plain in Hrun by done. cbn [executing] in Hrun.
    assert (exists st1, execute_loop ops ctx st1 {| executing := ex; if_stack := ifs |} =
      Ok (st', {| executing := ex'; if_stack := [] |})) as [st1 Hrun1].
    { destruct ex; [inv_bind Hrun|]; eauto. }
    destruct (IH ops st1 ex ifs) as (b & rest & -> & Hwf & Hs); [lia|done|].
    by exists (BOp op b), rest. }
  destruct op; try done; [|by exists BNil, (Else :: ops)|by exists BNil, (EndIf :: ops)].
  assert (exists st1 ex1 br, execute_loop ops ctx st1 {| executing := ex1; if_stack := push_if br ifs |} =
    Ok (st', {| executing := ex'; if_stack := [] |})) as (st1 & ex1 & br & Hrun1).
  { destruct ex; [|by exists st, false, NotExecuted].
    rewrite execute_loop_if in Hrun. inv_bind Hrun. destruct r as [[] st1]; eauto. }
  clear Hrun. unfold push_if in Hrun1.
  destruct (IH ops st1 ex1 (ifs ++ [frame br true])) as (t & rest1 & -> & Ht & Hs1); [lia|done|].
  rewrite length_app in Hlen. apply execute_loop_continue in Hrun1 as [st2 Hrun2]; [|done].
  destruct rest1 as [|[] ops2]; try done; [by injection Hrun2; destruct ifs| |];
    [rewrite execute_loop_else in Hrun2|by rewrite execute_loop_end_if in Hrun2].
  cbn [length] in Hlen. destruct (IH ops2 _ _ _ ltac:(lia) Hrun2) as (e & rest2 & -> & He & Hs2).
  rewrite length_app in Hlen. apply execute_loop_continue in Hrun2 as [st3 Hrun3]; [|done].
  destruct rest2 as [|[] ops3]; try done; [by injection Hrun3; destruct ifs| |];
    [by rewrite execute_loop_else in Hrun3|rewrite execute_loop_end_if in Hrun3].
  cbn [length] in Hlen. destruct (IH ops3 _ _ _ ltac:(lia) Hrun3) as (k & rest3 & -> & Hk & Hs3).
  exists (BIf t e k), rest3. split_and!; [|done|done]. cbn [flatten app]. by rewrite <- !app_assoc; cbn; rewrite <- app_assoc.
Qed.

Lemma execute_loop_accepts ops ctx st st' ex' :
  execute_loop ops ctx st (running []) = Ok (st', {| executing := ex'; if_stack := [] |}) ->
  exists b, ops = flatten b /\ block_wf b.
Proof.
  intros Hrun. destruct (execute_loop_prefix (length ops) ops ctx st true [] st' ex') as (b & rest & -> & Hwf & Hs);
    [done..|]. apply execute_loop_continue in Hrun as [st1 Hrun]; [|done].
  destruct rest as [|[] rest]; try done. exists b. by rewrite app_nil_r.
Qed.

(** C2: a script succeeds with a value exactly when it is the serialisation of a well-bracketed
    block ([IfThen .. Else .. EndIf], properly nested) whose structured evaluation leaves that
    value alone on the stack. *)
Theorem execute_refines_blocks s inputs ctx item :
  execute_with_context s inputs ctx = Ok item <->
  exists b, script s = flatten b /\ block_wf b /\ eval_block b ctx inputs = Ok {| items := [item] |}.
Proof.
  unfold execute_with_context, ExecutionState_default. split.
  - intros H. inv_bind H. destruct r as [st [ex ifs]]. destruct ifs; [|done]. cbn [if_stack] in H.
    destruct (execute_loop_accepts _ _ _ _ _ Hr) as (b & Hb & Hwf). exists b. split_and!; [done..|].
    rewrite Hb, <- (app_nil_r (flatten b)), execute_loop_block in Hr by done.
    inv_bind Hr. case_decide as Hsz; [|done]. inv_bind H. destruct r0 as [it st1]. injection H as ->.
    cbn in Hr. injection Hr as -> _. apply ok_or_Ok, stack_pop_Some in Hr1.
    destruct st as [l], st1 as [l1]. cbn in *. subst l. unfold stack_size in Hsz. cbn in Hsz.
    rewrite length_app in Hsz. destruct l1; [done|cbn in Hsz; lia].
  - intros (b & -> & Hwf & Hev). cbn [script]. rewrite <- (app_nil_r (flatten b)), execute_loop_block, Hev by done. done.
Qed.

End Control.
