(* ===== verification/MmrCommon.v ===== *)
(** * Positions in a Merkle mountain range

    src/base_layer/mmr/src/common.rs: the arithmetic that relates leaf indices, node positions,
    heights and peaks of the post-order layout, and MerkleMountainRangeError of error.rs.
    [usize] is 64 bits wide. The loops over [peak_size] take the values [2^k - 1] for [k] from
    the bit length of the size down to 0, so 64 iterations suffice. *)

From S2P Require Import Prelude.

Local Open Scope Z_scope.

(** src/base_layer/mmr/src/error.rs; the text of a backend error is not kept. *)
Inductive MerkleMountainRangeError :=
| CorruptDataStructure
| BackendError
| InvalidMerkleTree
| MaximumSizeReached
| HashNotFound (i : Z)
| OutOfRange
| InvalidConfig
| InvalidMmrSize.

#[export] Instance MerkleMountainRangeError_eq_dec : EqDecision MerkleMountainRangeError.
Proof. solve_decision. Defined.

Abbreviation mmr_result := (result MerkleMountainRangeError).

(** ** Bit operations of [usize] *)

Fixpoint pos_count_ones (p : positive) : Z :=
  match p with
  | xH => 1
  | xO p => pos_count_ones p
  | xI p => 1 + pos_count_ones p
  end.

(** [usize::count_ones] *)
Definition count_ones (n : Z) : Z :=
  match n with
  | Zpos p => pos_count_ones p
  | _ => 0
  end.

(** [usize::leading_zeros] *)
Definition leading_zeros (n : Z) : Z := if n =? 0 then 64 else 63 - Z.log2 n.

(** [x << 1] drops the bit shifted out. *)
Definition shl1 (x : Z) : Z := Z.shiftl x 1 mod 2 ^ 64.

Definition ALL_ONES : Z := USIZE_MAX.

(** ** Leaf and node indices *)

Definition node_index (leaf_index : Z) : mmr_result Z :=
  if leaf_index =? 0 then Ok 0
  else
    d ← arith 0 USIZE_MAX (2 * leaf_index);
    arith 0 USIZE_MAX (d - count_ones leaf_index).

(** The loop state of [checked_n_leaves]: [(peak_size, nleaves, size_left)]. *)
Definition n_leaves_body (s : Z * Z * Z) : Z * Z * Z :=
  let '(peak_size, nleaves, size_left) := s in
  let '(nleaves, size_left) :=
    if peak_size <=? size_left then (nleaves + Z.shiftr (peak_size + 1) 1, size_left - peak_size)
    else (nleaves, size_left) in
  (Z.shiftr peak_size 1, nleaves, size_left).

Definition peak_size_nonzero {A B : Type} (s : Z * A * B) : bool := negb (s.1.1 =? 0).

Definition checked_n_leaves (size : Z) : option Z :=
  if size =? 0 then Some 0
  else if size =? USIZE_MAX then None
  else
    let '(_, nleaves, size_left) :=
      while_fuel 64 peak_size_nonzero n_leaves_body (Z.shiftr ALL_ONES (leading_zeros size), 0, size) in
    if size_left =? 0 then Some nleaves else Some (nleaves + 1).

(** [leaf_index(node_index: u32) -> u32] *)
Definition leaf_index (node_index : Z) : mmr_result Z :=
  n ← unwrap (checked_n_leaves node_index);
  unwrap (checked 0 U32_MAX n).

(** ** Peaks *)

(** The loop state of [peak_map_height]: [(peak_size, bitmap, pos)]. *)
Definition peak_map_body (s : Z * Z * Z) : Z * Z * Z :=
  let '(peak_size, bitmap, pos) := s in
  let bitmap := shl1 bitmap in
  let '(bitmap, pos) :=
    if peak_size <=? pos then (Z.lor bitmap 1, pos - peak_size) else (bitmap, pos) in
  (Z.shiftr peak_size 1, bitmap, pos).

Definition peak_map_height (pos : Z) : Z * Z :=
  if pos =? 0 then (0, 0)
  else
    let '(_, bitmap, pos) :=
      while_fuel 64 peak_size_nonzero peak_map_body (Z.shiftr ALL_ONES (leading_zeros pos), 0, pos) in
    (bitmap, pos).

Definition bintree_height (num : Z) : Z := if num =? 0 then 0 else (peak_map_height num).2.

Definition is_leaf (pos : Z) : bool := bintree_height pos =? 0.

Definition is_left_sibling (pos : Z) : bool :=
  let '(peak_map, height) := peak_map_height pos in
  Z.land peak_map (Z.shiftl 1 height) =? 0.

(** The loop state of [find_peaks]: [(peak_size, (num_left, sum_prev_peaks), peaks)]. The sums
    stay below the size: they add up parts of it. *)
Definition find_peaks_body (s : Z * (Z * Z) * list Z) : Z * (Z * Z) * list Z :=
  let '(peak_size, (num_left, sum_prev_peaks), peaks) := s in
  let '(num_left, sum_prev_peaks, peaks) :=
    if peak_size <=? num_left
    then (num_left - peak_size, sum_prev_peaks + peak_size, peaks ++ [sum_prev_peaks + peak_size - 1])
    else (num_left, sum_prev_peaks, peaks) in
  (Z.shiftr peak_size 1, (num_left, sum_prev_peaks), peaks).

Definition find_peaks (size : Z) : option (list Z) :=
  if size =? 0 then Some []
  else
    let '(_, (num_left, _), peaks) :=
      while_fuel 64 peak_size_nonzero find_peaks_body
        (Z.shiftr ALL_ONES (leading_zeros size), (size, 0), []) in
    if 0 <? num_left then None else Some peaks.

(** ** Families *)

(** [let peak = 1 << height] feeds [i128::from], so the literal has the default type [i32]: the
    shift panics from 32 and wraps to the sign bit at 31. *)
Definition shl_i32 (height : Z) : mmr_result Z :=
  if height <? 32 then Ok (to_signed 32 (Z.shiftl 1 height mod 2 ^ 32)) else Panic.

(** [usize::try_from(z: i128)] *)
Definition usize_try_from (z : Z) : option Z := checked 0 USIZE_MAX z.

Definition family (pos : Z) : mmr_result (Z * Z) :=
  let '(peak_map, height) := peak_map_height pos in
  peak ← shl_i32 height;
  let res :=
    if Z.land peak_map peak =? 0 then (pos + 2 * peak, pos + 2 * peak - 1)
    else (pos + 1, pos + 1 - 2 * peak) in
  parent ← ok_or (usize_try_from res.1) OutOfRange;
  sibling ← ok_or (usize_try_from res.2) OutOfRange;
  Ok (parent, sibling).

(** The loop of [family_branch]; a position has fewer than 64 ancestors. *)
Fixpoint family_branch_loop (fuel : nat) (peak_map last_pos current peak : Z) (branch : list (Z * Z))
    : mmr_result (list (Z * Z)) :=
  if current <? last_pos then
    match fuel with
    | O => Panic
    | S fuel =>
        '(current, sibling) ←
          (if Z.land peak_map peak =? 0 then
             d ← arith 0 USIZE_MAX (2 * peak);
             current ← arith 0 USIZE_MAX (current + d);
             sibling ← arith 0 USIZE_MAX (current - 1);
             Ok (current, sibling)
           else
             current ← arith 0 USIZE_MAX (current + 1);
             d ← arith 0 USIZE_MAX (2 * peak);
             sibling ← arith 0 USIZE_MAX (current - d);
             Ok (current, sibling));
        if last_pos <? current then Ok branch
        else family_branch_loop fuel peak_map last_pos current (shl1 peak) (branch ++ [(current, sibling)])
    end
  else Ok branch.

Definition family_branch (pos last_pos : Z) : mmr_result (list (Z * Z)) :=
  let '(peak_map, height) := peak_map_height pos in
  family_branch_loop 64 peak_map last_pos pos (Z.shiftl 1 height) [].

(** ** The size of a range

    [mmr_size n] is the number of nodes of a range with [n] leaves, and the position of leaf
    [n]. *)
Definition mmr_size (n : Z) : Z := 2 * n - count_ones n.

(** *** Counting ones *)

Lemma count_ones_double n : count_ones (2 * n) = count_ones n.
Proof. by destruct n. Qed.

Lemma count_ones_double_1 n : 0 <= n -> count_ones (2 * n + 1) = 1 + count_ones n.
Proof. by destruct n; intros; [| |lia]. Qed.

Lemma even_odd_split n : 0 <= n -> exists m, 0 <= m /\ (n = 2 * m \/ n = 2 * m + 1).
Proof.
  intros Hn. exists (n / 2). pose proof (Z.div_mod n 2 ltac:(lia)).
  pose proof (Z.mod_pos_bound n 2). split; [apply Z.div_pos; lia|lia].
Qed.

Lemma count_ones_add_pow k n : 0 <= n < 2 ^ Z.of_nat k -> count_ones (2 ^ Z.of_nat k + n) = 1 + count_ones n.
Proof.
  revert n. induction k as [|k IH]; intros n Hn.
  - assert (n = 0) as -> by (change (2 ^ Z.of_nat 0) with 1 in Hn; lia). done.
  - rewrite Nat2Z.inj_succ, Z.pow_succ_r in * by lia.
    destruct (even_odd_split n) as (m & Hm & [-> | ->]); [lia| |].
    + rewrite <- Z.mul_add_distr_l, !count_ones_double. apply IH. lia.
    + rewrite Z.add_assoc, <- Z.mul_add_distr_l, !count_ones_double_1 by lia.
      rewrite IH by lia. lia.
Qed.

Lemma count_ones_bound n : 0 <= n -> 0 <= count_ones n <= n.
Proof.
  intros Hn. assert (forall p, 1 <= pos_count_ones p <= Zpos p) as Hp.
  { induction p; cbn [pos_count_ones]; lia. }
  destruct n as [|p|p]; cbn; [lia|specialize (Hp p); lia|lia].
Qed.

(** *** The sizes *)

Lemma mmr_size_0 : mmr_size 0 = 0.
Proof. done. Qed.

Lemma mmr_size_add_pow k n :
  0 <= n < 2 ^ Z.of_nat k -> mmr_size (2 ^ Z.of_nat k + n) = 2 ^ (Z.of_nat k + 1) - 1 + mmr_size n.
Proof.
  intros Hn. unfold mmr_size. rewrite count_ones_add_pow by done.
  rewrite Z.pow_add_r by lia. lia.
Qed.

Lemma mmr_size_pow k : mmr_size (2 ^ Z.of_nat k) = 2 ^ (Z.of_nat k + 1) - 1.
Proof.
  assert (0 < 2 ^ Z.of_nat k) by lia.
  rewrite <- (Z.add_0_r (2 ^ Z.of_nat k)), mmr_size_add_pow, mmr_size_0; lia.
Qed.

Lemma count_ones_succ n : 0 <= n -> count_ones (n + 1) <= count_ones n + 1.
Proof.
  intros Hn. assert (forall p, pos_count_ones (Pos.succ p) <= pos_count_ones p + 1) as Hp.
  { induction p as [p IHp|p _|]; [|change (1 + pos_count_ones p <= pos_count_ones p + 1); lia|done].
    change (pos_count_ones (Pos.succ p) <= 1 + pos_count_ones p + 1). lia. }
  destruct n as [|p|p]; [done| |lia]. change (Zpos p + 1) with (Zpos (p + 1)).
  rewrite Pos.add_1_r. apply Hp.
Qed.

Lemma mmr_size_lt_succ n : 0 <= n -> mmr_size n < mmr_size (n + 1).
Proof. intros Hn. unfold mmr_size. pose proof (count_ones_succ n Hn). lia. Qed.

Lemma mmr_size_mono n m : 0 <= n <= m -> mmr_size n <= mmr_size m.
Proof.
  intros [Hn Hm]. replace m with (n + Z.of_nat (Z.to_nat (m - n))) by lia.
  generalize (Z.to_nat (m - n)) as d. clear Hm m.
  induction d as [|d IH]; [rewrite Z.add_0_r; lia|].
  rewrite Nat2Z.inj_succ. unfold Z.succ. rewrite Z.add_assoc.
  pose proof (mmr_size_lt_succ (n + Z.of_nat d)). lia.
Qed.

Lemma mmr_size_strict n m : 0 <= n < m -> mmr_size n < mmr_size m.
Proof.
  intros H. pose proof (mmr_size_lt_succ n). pose proof (mmr_size_mono (n + 1) m). lia.
Qed.

Lemma mmr_size_bounds n : 0 <= n -> n <= mmr_size n <= 2 * n.
Proof. intros Hn. unfold mmr_size. pose proof (count_ones_bound n Hn). lia. Qed.

(** Every position belongs to one leaf: the leaf itself and the parents it completes. *)
Lemma position_cases pos : 0 <= pos -> exists n, 0 <= n /\ mmr_size n <= pos < mmr_size (n + 1).
Proof.
  intros Hp. rewrite <- (Z2Nat.id pos) by lia. induction (Z.to_nat pos) as [|p IH].
  - exists 0. change (mmr_size (0 + 1)) with 1. rewrite mmr_size_0. lia.
  - destruct IH as (n & Hn & Hlo & Hhi). rewrite Nat2Z.inj_succ.
    destruct (Z.eq_dec (Z.succ (Z.of_nat p)) (mmr_size (n + 1))) as [Heq|Hne].
    + exists (n + 1). pose proof (mmr_size_lt_succ (n + 1)). lia.
    + exists n. lia.
Qed.

(** ** The loops over peak sizes *)

(** [pos] is the position of leaf [n] or of one of the parents leaf [n] completes, seen from a
    tree of height [k]; in the last leaf's column all larger positions are included. *)
Definition at_leaf (k : nat) (n pos : Z) : Prop :=
  0 <= n < 2 ^ Z.of_nat k /\ mmr_size n <= pos /\ (pos < mmr_size (n + 1) \/ n + 1 = 2 ^ Z.of_nat k).

Definition peak_sz (k : nat) : Z := 2 ^ Z.of_nat k - 1.

Lemma pow_S k : 2 ^ Z.of_nat (S k) = 2 * 2 ^ Z.of_nat k.
Proof. rewrite Nat2Z.inj_succ, Z.pow_succ_r; lia. Qed.

Lemma pow_pos k : 0 < 2 ^ Z.of_nat k.
Proof. lia. Qed.

Lemma peak_sz_S k : peak_sz (S k) = 2 * peak_sz k + 1.
Proof. unfold peak_sz. rewrite pow_S. lia. Qed.

Lemma mmr_size_split k n : 0 <= n < 2 ^ Z.of_nat k -> mmr_size (2 ^ Z.of_nat k + n) = peak_sz (S k) + mmr_size n.
Proof. intros H. rewrite mmr_size_add_pow by done. unfold peak_sz. rewrite Nat2Z.inj_succ. done. Qed.

Lemma mmr_size_full k : mmr_size (2 ^ Z.of_nat k) = peak_sz (S k).
Proof. rewrite mmr_size_pow. unfold peak_sz. by rewrite Nat2Z.inj_succ. Qed.

(** One iteration: either the peak of height [k] is there and the rest lies to its right, or the
    position lies under it. *)
Lemma at_leaf_step k n pos :
  at_leaf (S k) n pos ->
  (peak_sz (S k) <= pos /\ at_leaf k (n - 2 ^ Z.of_nat k) (pos - peak_sz (S k)) /\
   mmr_size n = peak_sz (S k) + mmr_size (n - 2 ^ Z.of_nat k) /\ 2 ^ Z.of_nat k <= n) \/
  (pos < peak_sz (S k) /\ at_leaf k n pos /\ n < 2 ^ Z.of_nat k).
Proof.
  intros (Hn & Hlo & Hhi). rewrite pow_S in Hn, Hhi. pose proof (pow_pos k).
  destruct (Z.le_gt_cases (2 ^ Z.of_nat k) n) as [Hge|Hlt].
  - left. replace n with (2 ^ Z.of_nat k + (n - 2 ^ Z.of_nat k)) in Hlo by lia.
    assert (mmr_size n = peak_sz (S k) + mmr_size (n - 2 ^ Z.of_nat k)) as Hs.
    { rewrite <- mmr_size_split by lia. f_equal. lia. }
    rewrite mmr_size_split in Hlo by lia. pose proof (mmr_size_bounds (n - 2 ^ Z.of_nat k)).
    split_and!; [lia| |done|done]. unfold at_leaf. split_and!; [lia..|].
    destruct (Z.eq_dec (n + 1) (2 * 2 ^ Z.of_nat k)) as [He|He]; [right; lia|left].
    destruct Hhi as [Hhi|]; [|lia].
    replace (n + 1) with (2 ^ Z.of_nat k + (n - 2 ^ Z.of_nat k + 1)) in Hhi by lia.
    rewrite mmr_size_split in Hhi by lia. lia.
  - right. destruct Hhi as [Hhi|]; [|lia].
    pose proof (mmr_size_mono (n + 1) (2 ^ Z.of_nat k)) as Hm. rewrite mmr_size_full in Hm.
    unfold at_leaf. split_and!; try lia.
Qed.

Lemma shiftr_peak_sz k : Z.shiftr (peak_sz (S k)) 1 = peak_sz k.
Proof.
  rewrite Z.shiftr_div_pow2, peak_sz_S by lia. change (2 ^ 1) with 2. rewrite Z.add_comm, Z.mul_comm, Z.div_add by lia.
  rewrite Z.div_small; lia.
Qed.

Lemma peak_sz_nonneg k : 0 <= peak_sz k.
Proof. unfold peak_sz. pose proof (pow_pos k). lia. Qed.

Lemma peak_sz_S_nonzero {A B} k (a : A) (b : B) : peak_size_nonzero (peak_sz (S k), a, b) = true.
Proof.
  unfold peak_size_nonzero. cbn [fst]. rewrite negb_true_iff, Z.eqb_neq, peak_sz_S.
  pose proof (peak_sz_nonneg k). lia.
Qed.

Lemma while_peak_0 {A B} fuel f (a : A) (b : B) : while_fuel fuel peak_size_nonzero f (peak_sz 0, a, b) = (0, a, b).
Proof. by destruct fuel. Qed.

Lemma while_peak_S {A B} fuel k f (a : A) (b : B) :
  while_fuel (S fuel) peak_size_nonzero f (peak_sz (S k), a, b) =
  while_fuel fuel peak_size_nonzero f (f (peak_sz (S k), a, b)).
Proof. cbn [while_fuel]. by rewrite peak_sz_S_nonzero. Qed.

Lemma at_leaf_0 n pos : at_leaf 0 n pos -> n = 0.
Proof. intros (Hn & _). change (2 ^ Z.of_nat 0) with 1 in Hn. lia. Qed.

Lemma shl1_small b : 0 <= b < 2 ^ 63 -> shl1 b = 2 * b.
Proof.
  intros Hb. unfold shl1. rewrite Z.shiftl_mul_pow2 by lia. change (2 ^ 1) with 2.
  rewrite Z.mod_small; lia.
Qed.


Lemma lor_1 b : 0 <= b -> Z.lor (2 * b) 1 = 2 * b + 1.
Proof. intros Hb. by destruct b; [| |lia]. Qed.

Lemma peak_map_loop k fuel bm n pos :
  (k <= fuel)%nat -> (k <= 64)%nat -> 0 <= bm < 2 ^ (64 - Z.of_nat k) -> at_leaf k n pos ->
  while_fuel fuel peak_size_nonzero peak_map_body (peak_sz k, bm, pos) =
    (0, bm * 2 ^ Z.of_nat k + n, pos - mmr_size n).
Proof.
  revert fuel bm n pos. induction k as [|k IH]; intros fuel bm n pos Hf Hk Hbm Hat.
  - apply at_leaf_0 in Hat as ->. rewrite while_peak_0. rewrite mmr_size_0.
    change (2 ^ Z.of_nat 0) with 1. pair_lia.
  - destruct fuel as [|fuel]; [lia|]. rewrite while_peak_S. unfold peak_map_body at 2.
    assert (2 ^ (64 - Z.of_nat k) = 2 * 2 ^ (64 - Z.of_nat (S k))) as Hpow.
    { rewrite <- Z.pow_succ_r by lia. f_equal. lia. }
    assert (2 ^ (64 - Z.of_nat (S k)) <= 2 ^ 63) as H63 by (apply Z.pow_le_mono_r; lia).
    rewrite shl1_small by lia.
    destruct (at_leaf_step k n pos Hat) as [(Hge & Hat' & Hs & _)|(Hlt & Hat' & _)].
    + rewrite (proj2 (Z.leb_le _ _)) by lia. rewrite lor_1, shiftr_peak_sz by lia.
      rewrite (IH fuel (2 * bm + 1) _ _ ltac:(lia) ltac:(lia) ltac:(lia) Hat'), Hs, pow_S.
      pair_lia.
    + rewrite (proj2 (Z.leb_gt _ _)) by lia. rewrite shiftr_peak_sz.
      rewrite (IH fuel (2 * bm) _ _ ltac:(lia) ltac:(lia) ltac:(lia) Hat'), pow_S.
      pair_lia.
Qed.

Lemma n_leaves_loop k fuel nl n pos :
  (k <= fuel)%nat -> at_leaf k n pos ->
  while_fuel fuel peak_size_nonzero n_leaves_body (peak_sz k, nl, pos) = (0, nl + n, pos - mmr_size n).
Proof.
  revert fuel nl n pos. induction k as [|k IH]; intros fuel nl n pos Hf Hat.
  - apply at_leaf_0 in Hat as ->. rewrite while_peak_0, mmr_size_0.
    pair_lia.
  - destruct fuel as [|fuel]; [lia|]. rewrite while_peak_S. unfold n_leaves_body at 2.
    destruct (at_leaf_step k n pos Hat) as [(Hge & Hat' & Hs & Hn)|(Hlt & Hat' & _)].
    + rewrite (proj2 (Z.leb_le _ _)) by lia. rewrite shiftr_peak_sz.
      rewrite (IH fuel _ _ _ ltac:(lia) Hat'), Hs.
      assert (Z.shiftr (peak_sz (S k) + 1) 1 = 2 ^ Z.of_nat k) as ->.
      { unfold peak_sz. rewrite pow_S, Z.sub_add, Z.shiftr_div_pow2 by lia. change (2 ^ 1) with 2.
        by rewrite Z.mul_comm, Z.div_mul. }
      pair_lia.
    + rewrite (proj2 (Z.leb_gt _ _)) by lia. rewrite shiftr_peak_sz.
      by rewrite (IH fuel _ _ _ ltac:(lia) Hat').
Qed.

(** The peaks of a range with [n < 2^k] leaves that starts at position [sum]. *)
Fixpoint peak_positions (k : nat) (n sum : Z) : list Z :=
  match k with
  | O => []
  | S k =>
      if 2 ^ Z.of_nat k <=? n
      then (sum + peak_sz (S k) - 1) :: peak_positions k (n - 2 ^ Z.of_nat k) (sum + peak_sz (S k))
      else peak_positions k n sum
  end.

Lemma find_peaks_loop k fuel n pos sum peaks :
  (k <= fuel)%nat -> at_leaf k n pos ->
  while_fuel fuel peak_size_nonzero find_peaks_body (peak_sz k, (pos, sum), peaks) =
    (0, (pos - mmr_size n, sum + mmr_size n), peaks ++ peak_positions k n sum).
Proof.
  revert fuel n pos sum peaks. induction k as [|k IH]; intros fuel n pos sum peaks Hf Hat.
  - apply at_leaf_0 in Hat as ->. rewrite while_peak_0, mmr_size_0. cbn [peak_positions].
    rewrite app_nil_r. pair_lia.
  - destruct fuel as [|fuel]; [lia|]. rewrite while_peak_S. unfold find_peaks_body at 2. cbn [peak_positions].
    destruct (at_leaf_step k n pos Hat) as [(Hge & Hat' & Hs & Hn)|(Hlt & Hat' & Hn)].
    + rewrite (proj2 (Z.leb_le (peak_sz _) _)), (proj2 (Z.leb_le (2 ^ _) _)) by lia. rewrite shiftr_peak_sz.
      rewrite (IH fuel _ _ _ _ ltac:(lia) Hat'), Hs, <- app_assoc. cbn [app]. pair_lia.
    + rewrite (proj2 (Z.leb_gt (peak_sz _) _)), (proj2 (Z.leb_gt (2 ^ _) _)) by lia. rewrite shiftr_peak_sz.
      by rewrite (IH fuel _ _ _ _ ltac:(lia) Hat').
Qed.

(** ** What the functions compute *)

Lemma first_peak_size pos :
  0 < pos <= USIZE_MAX ->
  exists k, (k <= 64)%nat /\ pos < 2 ^ Z.of_nat k /\ Z.shiftr ALL_ONES (leading_zeros pos) = peak_sz k.
Proof.
  unfold USIZE_MAX, U64_MAX. intros Hpos.
  assert (0 <= Z.log2 pos < 64) as Hlog.
  { split; [apply Z.log2_nonneg|]. apply Z.log2_lt_pow2; lia. }
  exists (Z.to_nat (Z.log2 pos + 1)). split_and!; [lia| |].
  - rewrite Z2Nat.id by lia. pose proof (Z.log2_spec pos). lia.
  - unfold leading_zeros, ALL_ONES, USIZE_MAX, U64_MAX. rewrite (proj2 (Z.eqb_neq _ _)) by lia.
    rewrite Z.shiftr_div_pow2 by lia. unfold peak_sz. rewrite Z2Nat.id by lia.
    set (a := Z.log2 pos + 1). replace (63 - Z.log2 pos) with (64 - a) by lia.
    assert (2 ^ 64 = 2 ^ a * 2 ^ (64 - a)) as Hp by (rewrite <- Z.pow_add_r by lia; f_equal; lia).
    assert (0 < 2 ^ (64 - a)) by lia.
    symmetry. apply Z.div_unique with (r := 2 ^ (64 - a) - 1); [lia|]. rewrite Hp. lia.
Qed.

Section Positions.
Context (n pos : Z) (Hn : 0 <= n) (Hpos : mmr_size n <= pos < mmr_size (n + 1)).

Lemma at_leaf_start k : pos < 2 ^ Z.of_nat k -> at_leaf k n pos.
Proof.
  intros Hk. pose proof (mmr_size_bounds n Hn). unfold at_leaf. lia.
Qed.

Lemma pos_zero : pos = 0 -> n = 0.
Proof. intros ->. pose proof (mmr_size_bounds n Hn). lia. Qed.

(** The peak map of a position is the number of leaves before its own, its height the distance
    from that leaf. *)
Lemma peak_map_height_at : pos <= USIZE_MAX -> peak_map_height pos = (n, pos - mmr_size n).
Proof.
  intros Hmax. unfold peak_map_height. pose proof (mmr_size_bounds n Hn).
  destruct (Z.eqb_spec pos 0) as [H0|H0]; [by rewrite (pos_zero H0), H0|].
  destruct (first_peak_size pos) as (k & Hk & Hlt & ->); [lia|].
  rewrite (peak_map_loop k 64 0 n pos); [pair_lia|lia|lia|lia|]. by apply at_leaf_start.
Qed.

Lemma checked_n_leaves_at :
  pos < USIZE_MAX -> checked_n_leaves pos = Some (if pos =? mmr_size n then n else n + 1).
Proof.
  intros Hmax. unfold checked_n_leaves. pose proof (mmr_size_bounds n Hn).
  destruct (Z.eqb_spec pos 0) as [H0|H0]; [by rewrite (pos_zero H0), H0|].
  rewrite (proj2 (Z.eqb_neq _ _)) by lia.
  destruct (first_peak_size pos) as (k & Hk & Hlt & ->); [lia|].
  rewrite (n_leaves_loop k 64 0 n pos); [|lia|by apply at_leaf_start].
  destruct (Z.eqb_spec (pos - mmr_size n) 0), (Z.eqb_spec pos (mmr_size n)); pair_lia.
Qed.

Lemma peak_positions_S k sum : n < 2 ^ Z.of_nat k -> peak_positions (S k) n sum = peak_positions k n sum.
Proof. intros Hk. cbn [peak_positions]. by rewrite (proj2 (Z.leb_gt _ _)). Qed.

Lemma peak_positions_indep j k sum :
  n < 2 ^ Z.of_nat j -> n < 2 ^ Z.of_nat k -> peak_positions j n sum = peak_positions k n sum.
Proof.
  assert (forall d i, n < 2 ^ Z.of_nat i -> peak_positions (d + i) n sum = peak_positions i n sum) as Hd.
  { induction d as [|d IH]; intros i Hi; [done|]. cbn [Nat.add]. rewrite peak_positions_S; [by apply IH|].
    assert (2 ^ Z.of_nat i <= 2 ^ Z.of_nat (d + i)) by (apply Z.pow_le_mono_r; lia). lia. }
  intros Hj Hk. destruct (Nat.le_ge_cases j k) as [H|H].
  - replace k with (k - j + j)%nat by lia. symmetry. by apply Hd.
  - replace j with (j - k + k)%nat by lia. by apply Hd.
Qed.

Lemma find_peaks_at k :
  pos <= USIZE_MAX -> n < 2 ^ Z.of_nat k ->
  find_peaks pos = if pos =? mmr_size n then Some (peak_positions k n 0) else None.
Proof.
  intros Hmax Hk. unfold find_peaks. pose proof (mmr_size_bounds n Hn).
  destruct (Z.eqb_spec pos 0) as [H0|H0].
  { rewrite (pos_zero H0), H0. cbn. clear. induction k as [|k IH]; [done|]. cbn [peak_positions].
    pose proof (pow_pos k). by rewrite (proj2 (Z.leb_gt _ _)). }
  destruct (first_peak_size pos) as (j & Hj & Hlt & ->); [lia|].
  rewrite (find_peaks_loop j 64 n pos); [|lia|by apply at_leaf_start]. cbn [app].
  rewrite (peak_positions_indep j k) by lia.
  destruct (Z.eqb_spec pos (mmr_size n)), (Z.ltb_spec 0 (pos - mmr_size n)); pair_lia.
Qed.

End Positions.

Lemma node_index_size n : 0 <= n < 2 ^ 63 -> node_index n = Ok (mmr_size n).
Proof.
  intros Hn. unfold node_index. destruct (Z.eqb_spec n 0) as [->|]; [done|].
  pose proof (mmr_size_bounds n). unfold mmr_size in *.
  rewrite !arith_ok by (unfold USIZE_MAX, U64_MAX; lia). cbn [mbind result_bind].
  rewrite arith_ok by (unfold USIZE_MAX, U64_MAX; lia). done.
Qed.
