(* ===== verification/Mmr.v ===== *)
(** * Merkle mountain ranges

    src/base_layer/mmr/src: the storage trait [ArrayLike] of backend.rs with its [Vec]
    implementation, the pruned storage of pruned_hashset.rs, [MerkleMountainRange] of
    merkle_mountain_range.rs over any storage, and the pruning functions of functions.rs.

    A hasher [D] is what it does to the bytes it is fed: [D::new()] is the empty string,
    [chain] appends, [finalize] applies [digest]. *)

From S2P Require Import Prelude MmrCommon.

Local Open Scope Z_scope.

(** [D: Digest + DomainDigest], a third-party hash function. *)
Class Hasher := digest : list Z -> list Z.

Abbreviation Hash := (list Z).

(** ** Storage *)

(** The trait [ArrayLike]: every operation can fail; the ones that change the storage return it. *)
Class ArrayLike (V B : Type) := {
  al_len : B -> mmr_result Z;
  al_is_empty : B -> mmr_result bool;
  al_push : V -> B -> mmr_result (Z * B);
  al_get : Z -> B -> mmr_result (option V);
  al_clear : B -> mmr_result B;
  al_position : V -> B -> mmr_result (option Z);
}.

(** [impl ArrayLike for Vec<T>] *)
#[export] Instance Vec_ArrayLike {T} `{EqDecision T} : ArrayLike T (list T) := {|
  al_len v := Ok (Z.of_nat (length v));
  al_is_empty v := Ok (bool_decide (v = []));
  al_push item v := Ok (Z.of_nat (length (v ++ [item])) - 1, v ++ [item]);
  al_get index v := Ok (v !! Z.to_nat index);
  al_clear v := Ok [];
  al_position item v := Ok (Z.of_nat <$> position (fun stored_item => bool_decide (stored_item = item)) v);
|}.

(** [impl ArrayLikeExt for Vec<T>] *)
Definition ext_truncate {T} (len : Z) (v : list T) : list T := take (Z.to_nat len) v.
Definition ext_shift {T} (n : Z) (v : list T) : list T := drop (Nat.min (Z.to_nat n) (length v)) v.
Definition ext_push_front {T} (item : T) (v : list T) : list T := item :: v.

(** ** The range *)

Record MerkleMountainRange (B : Type) := { hashes : B }.
Arguments hashes {B}.
Arguments Build_MerkleMountainRange {B}.

(** [map_err(|e| MerkleMountainRangeError::BackendError(e.to_string()))] *)
Definition backend_err {A} (r : mmr_result A) : mmr_result A := map_err (fun _ => BackendError) r.

Section Mmr.
Context {H : Hasher} {B : Type} `{ArrayLike Hash B}.
Implicit Types (self : MerkleMountainRange B).

Definition hash_together (left right : Hash) : Hash := digest (left ++ right).

Definition mmr_new (backend : B) : MerkleMountainRange B := {| hashes := backend |}.

Definition mmr_len self : mmr_result Z := backend_err (al_len (hashes self)).

Definition mmr_is_empty self : mmr_result bool := len ← mmr_len self; Ok (len =? 0).

Definition get_node_hash (node_index : Z) self : mmr_result (option Hash) :=
  backend_err (al_get node_index (hashes self)).

Definition get_leaf_count self : mmr_result Z :=
  len ← mmr_len self; ok_or (checked_n_leaves len) MaximumSizeReached.

Definition get_leaf_hash (leaf_index : Z) self : mmr_result (option Hash) :=
  i ← node_index leaf_index; get_node_hash i self.

(** [a..=b] *)
Definition range_inclusive (a b : Z) : list Z := seqZ a (b - a + 1).

Definition get_leaf_hashes (leaf_index count : Z) self : mmr_result (list Hash) :=
  leaf_count ← get_leaf_count self;
  if leaf_count <=? leaf_index then Ok []
  else
    let count := Z.max 1 count in
    s ← arith 0 USIZE_MAX (leaf_index + count);
    let last_leaf_index := Z.min (s - 1) leaf_count in
    foldM (fun leaf_hashes leaf_index =>
      o ← get_leaf_hash leaf_index self;
      match o with
      | Some hash => Ok (leaf_hashes ++ [hash])
      | None => Ok leaf_hashes
      end) (range_inclusive leaf_index last_leaf_index) [].

Definition null_hash : Hash := digest [].

(** [hash_to_root]: feeds the peaks to the hasher. *)
Definition hash_to_root (hasher : list Z) self : mmr_result (list Z) :=
  len ← backend_err (al_len (hashes self));
  peaks ← ok_or (find_peaks len) InvalidMmrSize;
  foldM (fun hasher i =>
    match al_get i (hashes self) with
    | Ok (Some h) => Ok (hasher ++ h)
    | _ => Panic
    end) peaks hasher.

Definition get_merkle_root self : mmr_result Hash :=
  empty ← mmr_is_empty self;
  if empty : bool then Ok null_hash
  else hasher ← hash_to_root [] self; Ok (digest hasher).

Definition push_hash (hash : Hash) self : mmr_result (Z * MerkleMountainRange B) :=
  '(i, b) ← backend_err (al_push hash (hashes self)); Ok (i, {| hashes := b |}).

(** The loop of [push]; the peak map has at most 64 bits. *)
Fixpoint push_loop (fuel : nat) (peak_map peak pos : Z) (last_hash : Hash) self
    : mmr_result (Z * MerkleMountainRange B) :=
  if Z.land peak_map peak =? 0 then Ok (pos, self)
  else
    match fuel with
    | O => Panic
    | S fuel =>
        p ← arith 0 USIZE_MAX (pos + 1);
        d ← arith 0 USIZE_MAX (2 * peak);
        left_sibling ← arith 0 USIZE_MAX (p - d);
        o ← backend_err (al_get left_sibling (hashes self));
        left_hash ← unwrap o;
        peak ← arith 0 USIZE_MAX (peak * 2);
        pos ← arith 0 USIZE_MAX (pos + 1);
        let new_hash := hash_together left_hash last_hash in
        '(_, self) ← push_hash new_hash self;
        push_loop fuel peak_map peak pos new_hash self
    end.

Definition mmr_push (hash : Hash) self : mmr_result (Z * MerkleMountainRange B) :=
  empty ← mmr_is_empty self;
  if empty : bool then push_hash hash self
  else
    pos ← mmr_len self;
    let '(peak_map, height) := peak_map_height pos in
    if negb (height =? 0) then Err CorruptDataStructure
    else
      '(_, self) ← push_hash hash self;
      push_loop 64 peak_map 1 pos hash self.

(** [for hash in hash_iter { self.push(hash)?; }] *)
Fixpoint push_all (hash_iter : list Hash) self : mmr_result (MerkleMountainRange B) :=
  match hash_iter with
  | [] => Ok self
  | hash :: hash_iter => '(_, self) ← mmr_push hash self; push_all hash_iter self
  end.

Definition mmr_clear self : mmr_result (MerkleMountainRange B) :=
  b ← backend_err (al_clear (hashes self)); Ok {| hashes := b |}.

Definition assign_iter (hash_iter : list Hash) self : mmr_result (MerkleMountainRange B) :=
  self ← mmr_clear self; push_all hash_iter self.

Definition assign (leaf_hashes : list Hash) self : mmr_result (MerkleMountainRange B) :=
  assign_iter leaf_hashes self.

(** One iteration of [validate]. *)
Definition validate_node self (n : Z) : mmr_result unit :=
  let height := bintree_height n in
  if 0 <? height then
    o ← get_node_hash n self;
    hash ← ok_or o CorruptDataStructure;
    left_pos ← arith 0 USIZE_MAX (n - Z.shiftl 1 height);
    right_pos ← arith 0 USIZE_MAX (n - 1);
    o ← get_node_hash left_pos self;
    left_child_hash ← ok_or o CorruptDataStructure;
    o ← get_node_hash right_pos self;
    right_child_hash ← ok_or o CorruptDataStructure;
    if decide (hash_together left_child_hash right_child_hash = hash) then Ok ()
    else Err InvalidMerkleTree
  else Ok ().

Definition validate self : mmr_result unit :=
  len ← mmr_len self;
  foldM (fun _ n => validate_node self n) (seqZ 0 len) ().

Definition find_node_index (hash : Hash) self : mmr_result (option Z) :=
  backend_err (al_position hash (hashes self)).

Definition find_leaf_index (hash : Hash) self : mmr_result (option Z) :=
  o ← find_node_index hash self;
  match o with
  | Some node_index =>
      if is_leaf node_index then
        i ← ok_or (checked 0 U32_MAX node_index) MaximumSizeReached;
        l ← leaf_index i;
        Ok (Some l)
      else Ok None
  | None => Ok None
  end.

End Mmr.

(** [PartialEq]: equal roots, across storages. *)
Definition mmr_eq `{Hasher, ArrayLike Hash B, ArrayLike Hash B2}
    (self : MerkleMountainRange B) (other : MerkleMountainRange B2) : mmr_result bool :=
  match get_merkle_root self, get_merkle_root other with
  | Panic, _ | _, Panic => Panic
  | r1, r2 => Ok (bool_decide (r1 = r2))
  end.

(** ** Pruned storage *)

Record PrunedHashSet := {
  base_offset : Z;
  peak_indices : list Z;
  peak_hashes : list Hash;
  pruned_hashes : list Hash;
}.

Definition PrunedHashSet_default : PrunedHashSet :=
  {| base_offset := 0; peak_indices := []; peak_hashes := []; pruned_hashes := [] |}.

(** [TryFrom<&MerkleMountainRange>] *)
Definition PrunedHashSet_try_from `{ArrayLike Hash B} (base_mmr : MerkleMountainRange B)
    : mmr_result PrunedHashSet :=
  base_offset ← mmr_len base_mmr;
  peak_indices ← ok_or (find_peaks base_offset) InvalidMmrSize;
  peak_hashes ← mapM (fun i =>
    o ← get_node_hash i base_mmr;
    match o with
    | Some h => Ok h
    | None => Err (HashNotFound i)
    end) peak_indices;
  Ok {| base_offset := base_offset; peak_indices := peak_indices; peak_hashes := peak_hashes;
        pruned_hashes := [] |}.

Definition pruned_len (self : PrunedHashSet) : mmr_result Z :=
  arith 0 USIZE_MAX (base_offset self + Z.of_nat (length (pruned_hashes self))).

(** [binary_search] on the sorted peak indices finds the position of the index if it is there. *)
Definition pruned_get (index : Z) (self : PrunedHashSet) : mmr_result (option Hash) :=
  if index <? base_offset self then
    match position (Z.eqb index) (peak_indices self) with
    | Some nth_peak => h ← unwrap (peak_hashes self !! nth_peak); Ok (Some h)
    | None => Ok None
    end
  else Ok (pruned_hashes self !! Z.to_nat (index - base_offset self)).

Definition pruned_push (item : Hash) (self : PrunedHashSet) : mmr_result (Z * PrunedHashSet) :=
  let self :=
    {| base_offset := base_offset self; peak_indices := peak_indices self; peak_hashes := peak_hashes self;
       pruned_hashes := pruned_hashes self ++ [item] |} in
  len ← pruned_len self;
  i ← arith 0 USIZE_MAX (len - 1);
  Ok (i, self).

(** The search loop of [position]. *)
Fixpoint pruned_position_loop (item : Hash) (indices : list Z) (self : PrunedHashSet) : mmr_result (option Z) :=
  match indices with
  | [] => Ok None
  | index :: indices =>
      o ← pruned_get index self;
      if bool_decide (o = Some item) then Ok (Some index) else pruned_position_loop item indices self
  end.

#[export] Instance PrunedHashSet_ArrayLike : ArrayLike Hash PrunedHashSet := {|
  al_len := pruned_len;
  al_is_empty self := len ← pruned_len self; Ok (len =? 0);
  al_push := pruned_push;
  al_get := pruned_get;
  al_clear self := Ok PrunedHashSet_default;
  al_position item self := len ← pruned_len self; pruned_position_loop item (seqZ 0 len) self;
|}.

(** ** Pruning functions *)

Section Functions.
Context {H : Hasher} {B : Type} `{ArrayLike Hash B}.

Definition get_pruned_hash_set (self : MerkleMountainRange B) : mmr_result PrunedHashSet :=
  PrunedHashSet_try_from self.

Definition prune_mmr (mmr : MerkleMountainRange B) : mmr_result (MerkleMountainRange PrunedHashSet) :=
  backend ← PrunedHashSet_try_from mmr; Ok {| hashes := backend |}.

Definition calculate_mmr_root (src : MerkleMountainRange B) (additions : list Hash) : mmr_result Hash :=
  mmr ← prune_mmr src;
  mmr ← push_all additions mmr;
  get_merkle_root mmr.

End Functions.
