(* ===== verification/MmrForest.v ===== *)
(** * Forests of perfect trees

    The mathematical object behind a Merkle mountain range: one perfect binary tree for every
    one bit of the number of leaves. A forest is the list of its trees by height, lowest first;
    adding a leaf is the increment of a binary counter. The nodes of a forest in post-order are
    the array the code stores. *)

From S2P Require Import Prelude MmrCommon Mmr.

Local Open Scope Z_scope.

Section Forest.
Context {H : Hasher}.

Inductive tree :=
| Leaf (h : Hash)
| Node (l r : tree).

Fixpoint root (t : tree) : Hash :=
  match t with
  | Leaf h => h
  | Node l r => hash_together (root l) (root r)
  end.

Fixpoint nodes (t : tree) : list Hash :=
  match t with
  | Leaf h => [h]
  | Node l r => nodes l ++ nodes r ++ [hash_together (root l) (root r)]
  end.

Fixpoint leaves (t : tree) : list Hash :=
  match t with
  | Leaf h => [h]
  | Node l r => leaves l ++ leaves r
  end.

Fixpoint perfect (k : nat) (t : tree) : Prop :=
  match k, t with
  | O, Leaf _ => True
  | S k, Node l r => perfect k l /\ perfect k r
  | _, _ => False
  end.

Abbreviation forest := (list (option tree)).
Implicit Types (t l r : tree) (o : option tree) (f : forest).

Definition opt_list {A} (g : tree -> list A) o : list A :=
  match o with Some t => g t | None => [] end.

Fixpoint add_tree t f : forest :=
  match f with
  | [] => [Some t]
  | None :: f => Some t :: f
  | Some l :: f => None :: add_tree (Node l t) f
  end.

(** The number of leaves, in units of the lowest tree. *)
Fixpoint value f : Z :=
  match f with
  | [] => 0
  | o :: f => (match o with Some _ => 1 | None => 0 end) + 2 * value f
  end.

Fixpoint forest_nodes f : list Hash :=
  match f with [] => [] | o :: f => forest_nodes f ++ opt_list nodes o end.

Fixpoint forest_leaves f : list Hash :=
  match f with [] => [] | o :: f => forest_leaves f ++ opt_list leaves o end.

Fixpoint forest_peaks f : list Hash :=
  match f with [] => [] | o :: f => forest_peaks f ++ opt_list (fun t => [root t]) o end.

Fixpoint forest_wf (k : nat) f : Prop :=
  match f with
  | [] => True
  | o :: f => match o with Some t => perfect k t | None => True end /\ forest_wf (S k) f
  end.

(** The hashes a new tree of the lowest height adds above itself. *)
Fixpoint merges t f : list Hash :=
  match f with
  | Some l :: f => hash_together (root l) (root t) :: merges (Node l t) f
  | _ => []
  end.

(** The forest of a list of leaves. *)
Definition build (ls : list Hash) : forest := fold_left (fun f h => add_tree (Leaf h) f) ls [].

(** ** Sizes *)

Lemma nodes_root t : exists ns, nodes t = ns ++ [root t].
Proof. destruct t as [h|l r]; [by exists []|]. exists (nodes l ++ nodes r). cbn. by rewrite app_assoc. Qed.

Lemma length_nodes k t : perfect k t -> Z.of_nat (length (nodes t)) = peak_sz (S k).
Proof.
  revert t. induction k as [|k IH]; intros [h|l r]; cbn [perfect nodes]; try done.
  intros [Hl Hr]. rewrite !length_app. cbn [length]. rewrite peak_sz_S.
  apply IH in Hl, Hr. lia.
Qed.

Lemma length_leaves k t : perfect k t -> Z.of_nat (length (leaves t)) = 2 ^ Z.of_nat k.
Proof.
  revert t. induction k as [|k IH]; intros [h|l r]; cbn [perfect leaves]; try done.
  intros [Hl Hr]. rewrite length_app, pow_S. apply IH in Hl, Hr. lia.
Qed.

Lemma value_nonneg f : 0 <= value f.
Proof. induction f as [|[t|] f IH]; cbn; lia. Qed.

Lemma length_forest_nodes k f :
  forest_wf k f ->
  Z.of_nat (length (forest_nodes f)) = 2 ^ (Z.of_nat k + 1) * value f - count_ones (value f).
Proof.
  revert k. induction f as [|o f IH]; intros k; cbn [forest_wf forest_nodes value]; [intros _; cbn; lia|].
  intros [Ho Hf]. apply IH in Hf. pose proof (value_nonneg f).
  rewrite length_app, Nat2Z.inj_add, Hf, Nat2Z.inj_succ. unfold Z.succ.
  rewrite (Z.pow_add_r 2 (Z.of_nat k + 1) 1) by lia. destruct o as [t|]; cbn [opt_list length].
  - rewrite (Z.add_comm 1), count_ones_double_1, (length_nodes k t) by done.
    unfold peak_sz. rewrite Nat2Z.inj_succ. unfold Z.succ. lia.
  - rewrite Z.add_0_l, count_ones_double. lia.
Qed.

Lemma length_forest_nodes_0 f : forest_wf 0 f -> Z.of_nat (length (forest_nodes f)) = mmr_size (value f).
Proof. intros Hf. by rewrite (length_forest_nodes 0). Qed.

Lemma length_forest_leaves k f :
  forest_wf k f -> Z.of_nat (length (forest_leaves f)) = 2 ^ Z.of_nat k * value f.
Proof.
  revert k. induction f as [|o f IH]; intros k; cbn [forest_wf forest_leaves value]; [intros _; cbn; lia|].
  intros [Ho Hf]. apply IH in Hf. rewrite length_app, Nat2Z.inj_add, Hf, pow_S.
  destruct o as [t|]; cbn [opt_list length]; [rewrite (length_leaves k t) by done|]; lia.
Qed.

(** ** Adding a tree *)

Lemma value_add t f : value (add_tree t f) = value f + 1.
Proof. revert t. induction f as [|[l|] f IH]; intros t; cbn [add_tree value]; [done|rewrite IH; lia|lia]. Qed.

Lemma add_tree_wf k t f : perfect k t -> forest_wf k f -> forest_wf k (add_tree t f).
Proof.
  revert k t. induction f as [|[l|] f IH]; intros k t Ht; cbn [add_tree forest_wf]; [done| |tauto].
  intros [Hl Hf]. split; [done|]. by apply IH.
Qed.

Lemma forest_nodes_add t f : forest_nodes (add_tree t f) = forest_nodes f ++ nodes t ++ merges t f.
Proof.
  revert t. induction f as [|[l|] f IH]; intros t; cbn [add_tree forest_nodes merges opt_list].
  - by rewrite app_nil_r.
  - rewrite app_nil_r, IH. cbn [nodes]. by rewrite <- !app_assoc.
  - by rewrite !app_nil_r.
Qed.

Lemma forest_leaves_add t f : forest_leaves (add_tree t f) = forest_leaves f ++ leaves t.
Proof.
  revert t. induction f as [|[l|] f IH]; intros t; cbn [add_tree forest_leaves opt_list].
  - done.
  - rewrite app_nil_r, IH. cbn [leaves]. by rewrite <- app_assoc.
  - by rewrite app_nil_r.
Qed.

Lemma build_snoc ls h : build (ls ++ [h]) = add_tree (Leaf h) (build ls).
Proof. unfold build. by rewrite fold_left_app. Qed.

Lemma build_wf ls : forest_wf 0 (build ls).
Proof. induction ls as [|h ls IH] using rev_ind; [done|]. rewrite build_snoc. by apply add_tree_wf. Qed.

Lemma value_build ls : value (build ls) = Z.of_nat (length ls).
Proof.
  induction ls as [|h ls IH] using rev_ind; [done|]. rewrite build_snoc, value_add, IH, length_app. cbn. lia.
Qed.

Lemma forest_leaves_build ls : forest_leaves (build ls) = ls.
Proof. induction ls as [|h ls IH] using rev_ind; [done|]. by rewrite build_snoc, forest_leaves_add, IH. Qed.

(** ** Positions of the peaks *)

(** The peaks of [f], whose lowest height is [k], laid out from position [sum]. *)
Fixpoint forest_positions (k : nat) f (sum : Z) : list Z :=
  match f with
  | [] => []
  | o :: f' =>
      forest_positions (S k) f' sum ++
      match o with
      | Some _ => [sum + Z.of_nat (length (forest_nodes f)) - 1]
      | None => []
      end
  end.

Lemma forest_nodes_app f1 f2 : forest_nodes (f1 ++ f2) = forest_nodes f2 ++ forest_nodes f1.
Proof.
  induction f1 as [|o f1 IH]; cbn [app forest_nodes]; [by rewrite app_nil_r|]. by rewrite IH, app_assoc.
Qed.

Lemma forest_positions_snoc k f o sum :
  match o with Some t => perfect (k + length f) t | None => True end ->
  forest_positions k (f ++ [o]) sum =
    match o with
    | Some t =>
        (sum + peak_sz (S (k + length f)) - 1) :: forest_positions k f (sum + peak_sz (S (k + length f)))
    | None => forest_positions k f sum
    end.
Proof.
  revert k. induction f as [|x f IH]; intros k Ho.
  - cbn. rewrite Nat.add_0_r in *. destruct o as [t|]; cbn; [|done]. by rewrite (length_nodes k).
  - cbn [length] in Ho. rewrite <- plus_n_Sm in Ho. cbn [app forest_positions length].
    rewrite <- plus_n_Sm. rewrite (IH (S k)) by done.
    cbn [forest_nodes]. rewrite forest_nodes_app. cbn [forest_nodes app].
    destruct o as [t|]; cbn [opt_list]; [|done].
    cbn [app]. f_equal. f_equal. destruct x as [u|]; [|done]. rewrite !length_app.
    pose proof (length_nodes _ _ Ho) as Hl. f_equal. lia.
Qed.

Lemma value_snoc f o :
  value (f ++ [o]) = value f + match o with Some _ => 2 ^ Z.of_nat (length f) | None => 0 end.
Proof.
  induction f as [|x f IH]; cbn [app value length]; [destruct o; cbn; lia|].
  rewrite IH, pow_S. destruct o; lia.
Qed.

Lemma value_bound f : value f < 2 ^ Z.of_nat (length f).
Proof.
  induction f as [|o f IH]; [done|]. cbn [value length]. rewrite pow_S. destruct o; lia.
Qed.

Lemma forest_wf_snoc k f o :
  forest_wf k (f ++ [o]) <->
  forest_wf k f /\ match o with Some t => perfect (k + length f) t | None => True end.
Proof.
  revert k. induction f as [|x f IH]; intros k; cbn [app forest_wf length].
  - rewrite Nat.add_0_r. tauto.
  - rewrite IH, <- plus_n_Sm. tauto.
Qed.

(** The positions computed from the number of leaves are the positions of the trees' roots. *)
Lemma peak_positions_forest f sum :
  forest_wf 0 f -> peak_positions (length f) (value f) sum = forest_positions 0 f sum.
Proof.
  revert sum. induction f as [|o f IH] using rev_ind; intros sum Hf; [done|].
  apply forest_wf_snoc in Hf as [Hf Ho]. rewrite forest_positions_snoc by done.
  rewrite length_app, Nat.add_1_r, value_snoc. cbn [peak_positions].
  pose proof (value_bound f). pose proof (value_nonneg f). cbn [Nat.add] in *.
  destruct o as [t|].
  - rewrite (proj2 (Z.leb_le _ _)) by lia. rewrite <- IH by done. f_equal. f_equal. lia.
  - rewrite (proj2 (Z.leb_gt _ _)) by lia. rewrite Z.add_0_r. by apply IH.
Qed.

Lemma find_peaks_forest f :
  forest_wf 0 f -> mmr_size (value f) <= USIZE_MAX ->
  find_peaks (mmr_size (value f)) = Some (forest_positions 0 f 0).
Proof.
  intros Hf Hmax. pose proof (value_nonneg f). pose proof (mmr_size_lt_succ (value f)).
  rewrite (find_peaks_at (value f) (mmr_size (value f)) ltac:(done) ltac:(lia) (length f)); [|done|apply value_bound].
  by rewrite Z.eqb_refl, peak_positions_forest.
Qed.

(** The array holds the root of every tree at its position. *)
Lemma forest_positions_lookup k f (pre : list Hash) :
  Forall2 (fun p h => (pre ++ forest_nodes f) !! Z.to_nat p = Some h /\
             Z.of_nat (length pre) <= p < Z.of_nat (length (pre ++ forest_nodes f)))
    (forest_positions k f (Z.of_nat (length pre))) (forest_peaks f).
Proof.
  revert k. induction f as [|o f IH]; intros k; cbn [forest_positions forest_peaks forest_nodes]; [constructor|].
  apply Forall2_app.
  - eapply Forall2_impl; [apply IH|]. cbn. intros p h [Hp Hb]. rewrite app_assoc, length_app. split.
    + by apply lookup_app_l_Some.
    + lia.
  - destruct o as [t|]; cbn [opt_list]; [|constructor]. constructor; [|constructor].
    destruct (nodes_root t) as [ns Hns]. rewrite Hns, !length_app. cbn [length]. split; [|lia].
    rewrite !app_assoc. rewrite lookup_app_r; rewrite !length_app; [|lia].
    replace (_ - _)%nat with 0%nat by lia. done.
Qed.

Lemma forest_positions_bound k f :
  Forall (fun p => 0 <= p < Z.of_nat (length (forest_nodes f))) (forest_positions k f 0).
Proof.
  eapply Forall2_Forall_l; [apply (forest_positions_lookup k f [])|].
  apply Forall_true. cbn. tauto.
Qed.

Lemma forest_positions_NoDup k f : NoDup (forest_positions k f 0).
Proof.
  revert k. induction f as [|o f IH]; intros k; cbn [forest_positions]; [constructor|].
  destruct o as [t|]; [|by rewrite app_nil_r]. apply NoDup_app. split_and!; [apply IH| |apply NoDup_singleton].
  intros p Hp Hlast%list_elem_of_singleton. pose proof (forest_positions_bound (S k) f) as Hb.
  rewrite Forall_forall in Hb. apply Hb in Hp. cbn [forest_nodes opt_list] in Hlast.
  destruct (nodes_root t) as [ns Hns]. rewrite Hns, !length_app in Hlast. cbn [length] in Hlast. lia.
Qed.

(** ** The leaves in the array *)

Lemma nodes_lookup_leaf k t i :
  perfect k t -> 0 <= i < 2 ^ Z.of_nat k ->
  nodes t !! Z.to_nat (mmr_size i) = leaves t !! Z.to_nat i /\ mmr_size i < Z.of_nat (length (nodes t)).
Proof.
  revert t i. induction k as [|k IH]; intros [h|l r] i; cbn [perfect nodes leaves]; try done.
  - intros _ Hi. change (2 ^ Z.of_nat 0) with 1 in Hi. assert (i = 0) as -> by lia. done.
  - intros [Hl Hr] Hi. rewrite pow_S in Hi. pose proof (length_nodes k l Hl) as Hnl.
    pose proof (length_leaves k l Hl) as Hll. rewrite !length_app.
    destruct (Z.lt_ge_cases i (2 ^ Z.of_nat k)) as [Hlt|Hge].
    + destruct (IH l i Hl) as [Heq Hb]; [lia|]. pose proof (mmr_size_bounds i).
      rewrite !lookup_app_l by lia. split; [done|lia].
    + pose proof (mmr_size_split k (i - 2 ^ Z.of_nat k) ltac:(lia)) as Hs.
      replace (2 ^ Z.of_nat k + (i - 2 ^ Z.of_nat k)) with i in Hs by lia.
      destruct (IH r (i - 2 ^ Z.of_nat k) Hr) as [Heq Hb]; [lia|].
      pose proof (mmr_size_bounds (i - 2 ^ Z.of_nat k)).
      rewrite (lookup_app_r (nodes l)), (lookup_app_r (leaves l)), (lookup_app_l (nodes r)) by lia.
      split; [|lia].
      replace (Z.to_nat (mmr_size i) - length (nodes l))%nat with (Z.to_nat (mmr_size (i - 2 ^ Z.of_nat k))) by lia.
      rewrite Heq. f_equal. lia.
Qed.

Lemma forest_lookup_leaf_snoc f o i :
  forest_wf 0 (f ++ [o]) -> 0 <= i < value (f ++ [o]) ->
  (forall j, 0 <= j < value f -> forest_nodes f !! Z.to_nat (mmr_size j) = forest_leaves f !! Z.to_nat j) ->
  forest_nodes (f ++ [o]) !! Z.to_nat (mmr_size i) =
    (opt_list leaves o ++ forest_leaves f) !! Z.to_nat i.
Proof.
  intros [Hf Ho]%forest_wf_snoc Hi IH. cbn [Nat.add] in Ho. rewrite value_snoc in Hi.
  rewrite forest_nodes_app. cbn [forest_nodes app].
  destruct o as [t|]; cbn [opt_list]; [|apply IH; lia].
  pose proof (length_nodes _ _ Ho) as Hnt. pose proof (length_leaves _ _ Ho) as Hlt.
  pose proof (mmr_size_bounds i ltac:(lia)). pose proof (value_bound f).
  destruct (Z.lt_ge_cases i (2 ^ Z.of_nat (length f))) as [Hc|Hc].
  - destruct (nodes_lookup_leaf _ t i Ho) as [Heq Hb]; [lia|]. by rewrite !lookup_app_l by lia.
  - pose proof (mmr_size_split (length f) (i - 2 ^ Z.of_nat (length f)) ltac:(lia)) as Hs.
    replace (2 ^ Z.of_nat (length f) + (i - 2 ^ Z.of_nat (length f))) with i in Hs by lia.
    pose proof (mmr_size_bounds (i - 2 ^ Z.of_nat (length f)) ltac:(lia)).
    rewrite !lookup_app_r by lia.
    replace (Z.to_nat (mmr_size i) - length (nodes t))%nat
      with (Z.to_nat (mmr_size (i - 2 ^ Z.of_nat (length f)))) by lia.
    rewrite IH by lia. f_equal. lia.
Qed.

Lemma forest_leaves_app f1 f2 : forest_leaves (f1 ++ f2) = forest_leaves f2 ++ forest_leaves f1.
Proof.
  induction f1 as [|o f1 IH]; cbn [app forest_leaves]; [by rewrite app_nil_r|]. by rewrite IH, app_assoc.
Qed.

(** Leaf [i] is stored at position [mmr_size i]. *)
Lemma forest_lookup_leaf f i :
  forest_wf 0 f -> 0 <= i < value f ->
  forest_nodes f !! Z.to_nat (mmr_size i) = forest_leaves f !! Z.to_nat i.
Proof.
  revert i. induction f as [|o f IH] using rev_ind; intros i Hf Hi; [cbn in Hi; lia|].
  rewrite forest_leaves_app. cbn [forest_leaves app]. apply forest_lookup_leaf_snoc; [done..|].
  intros j Hj. apply IH; [|done]. by apply forest_wf_snoc in Hf as [Hf _].
Qed.

(** ** The peaks from the list of leaves

    A definition that does not go through insertion: the largest perfect tree that fits is taken
    off the front, again and again. *)
Fixpoint tree_root (k : nat) (ls : list Hash) : Hash :=
  match k with
  | O => default [] (head ls)
  | S k => hash_together (tree_root k (take (2 ^ k) ls)) (tree_root k (drop (2 ^ k) ls))
  end.

Fixpoint peak_roots (k : nat) (ls : list Hash) : list Hash :=
  match k with
  | O => []
  | S k =>
      if decide (2 ^ k <= length ls)%nat
      then tree_root k (take (2 ^ k) ls) :: peak_roots k (drop (2 ^ k) ls)
      else peak_roots k ls
  end.

Definition mmr_root (ls : list Hash) : Hash :=
  match ls with
  | [] => digest []
  | _ => digest (concat (peak_roots (length ls) ls))
  end.

Lemma length_leaves_nat k t : perfect k t -> length (leaves t) = (2 ^ k)%nat.
Proof. intros Ht. apply length_leaves in Ht. apply Nat2Z.inj. rewrite Ht, Nat2Z.inj_pow. done. Qed.

Lemma tree_root_leaves k t : perfect k t -> tree_root k (leaves t) = root t.
Proof.
  revert t. induction k as [|k IH]; intros [h|l r]; cbn [perfect leaves root tree_root]; try done.
  intros [Hl Hr]. rewrite <- (length_leaves_nat k l Hl), take_app_length, drop_app_length.
  by rewrite !IH.
Qed.

Lemma forest_peaks_app f1 f2 : forest_peaks (f1 ++ f2) = forest_peaks f2 ++ forest_peaks f1.
Proof.
  induction f1 as [|o f1 IH]; cbn [app forest_peaks]; [by rewrite app_nil_r|]. by rewrite IH, app_assoc.
Qed.

Lemma forest_leaves_bound f : forest_wf 0 f -> (length (forest_leaves f) < 2 ^ length f)%nat.
Proof.
  intros Hf. apply length_forest_leaves in Hf. pose proof (value_bound f).
  apply Nat2Z.inj_lt. rewrite Nat2Z.inj_pow. change (2 ^ Z.of_nat 0) with 1 in Hf. lia.
Qed.

Lemma forest_peaks_roots f : forest_wf 0 f -> forest_peaks f = peak_roots (length f) (forest_leaves f).
Proof.
  induction f as [|o f IH] using rev_ind; [done|]. intros [Hf Ho]%forest_wf_snoc. cbn [Nat.add] in Ho.
  rewrite length_app, Nat.add_1_r, forest_peaks_app, forest_leaves_app. cbn [forest_peaks forest_leaves app peak_roots].
  pose proof (forest_leaves_bound f Hf) as Hb. destruct o as [t|]; cbn [opt_list app].
  - pose proof (length_leaves_nat _ _ Ho) as Hl. rewrite decide_True by (rewrite length_app; lia).
    rewrite <- Hl, take_app_length, drop_app_length, tree_root_leaves, IH by done. done.
  - rewrite decide_False by lia. auto.
Qed.

Lemma peak_roots_indep ls j k :
  (length ls < 2 ^ j)%nat -> (length ls < 2 ^ k)%nat -> peak_roots j ls = peak_roots k ls.
Proof.
  assert (forall d i, (length ls < 2 ^ i)%nat -> peak_roots (d + i) ls = peak_roots i ls) as Hd.
  { induction d as [|d IH]; intros i Hi; [done|]. cbn [Nat.add peak_roots]. rewrite decide_False; [by apply IH|].
    assert (2 ^ i <= 2 ^ (d + i))%nat by (apply Nat.pow_le_mono_r; lia). lia. }
  intros Hj Hk. destruct (Nat.le_ge_cases j k).
  - replace k with (k - j + j)%nat by lia. symmetry. by apply Hd.
  - replace j with (j - k + k)%nat by lia. by apply Hd.
Qed.

Lemma peaks_build ls : forest_peaks (build ls) = peak_roots (length ls) ls.
Proof.
  rewrite forest_peaks_roots by apply build_wf. rewrite forest_leaves_build. apply peak_roots_indep.
  - rewrite <- (forest_leaves_build ls) at 1. apply forest_leaves_bound, build_wf.
  - apply Nat.pow_gt_lin_r. lia.
Qed.

End Forest.

Abbreviation forest := (list (option tree)).
