(* ===== verification/MmrSpec.v ===== *)
(** * Correctness of the Merkle mountain range

    The range over any lawful storage implements the forest of its leaves: pushing a hash adds
    a leaf, the root is the hash of the forest's peaks, and a storage that has forgotten all but
    the peaks gives the same roots. *)

From S2P Require Import Prelude MmrCommon Mmr MmrForest.

Local Open Scope Z_scope.

(** ** The contract of a storage

    What the range relies on: the length is not negative, a push appends one element and leaves
    the others readable as they were, and clearing empties. Elements may be unreadable. *)
Class ArrayLikeLaws (V B : Type) `{ArrayLike V B} : Prop := {
  law_len_nonneg (b : B) n : al_len b = Ok n -> 0 <= n;
  law_push (b : B) n (x : V) :
    al_len b = Ok n -> n < USIZE_MAX ->
    exists b', al_push x b = Ok (n, b') /\ al_len b' = Ok (n + 1) /\
      al_get n b' = Ok (Some x) /\ (forall i, 0 <= i < n -> al_get i b' = al_get i b);
  law_clear (b : B) : exists b', al_clear b = Ok b' /\ al_len b' = Ok 0;
}.

#[export] Instance Vec_laws {T} `{EqDecision T} : ArrayLikeLaws T (list T).
Proof.
  split; cbn.
  - intros b n [= <-]. lia.
  - intros b n x [= <-] _. exists (b ++ [x]). rewrite length_app. cbn [length]. split_and!.
    + f_equal. f_equal. lia.
    + f_equal. lia.
    + by rewrite Nat2Z.id, list_lookup_middle.
    + intros i Hi. f_equal. apply lookup_app_l. lia.
  - intros b. by exists [].
Qed.

#[export] Instance PrunedHashSet_laws : ArrayLikeLaws Hash PrunedHashSet.
Proof.
  split; cbn [al_len al_push al_get al_clear PrunedHashSet_ArrayLike].
  - unfold pruned_len. intros b n [-> Hn]%arith_Ok_iff. lia.
  - unfold pruned_len, pruned_push, pruned_get. intros b n x [-> Hn]%arith_Ok_iff Hmax.
    unfold pruned_len. cbn [base_offset pruned_hashes peak_indices]. rewrite length_app. cbn [length].
    rewrite arith_ok by lia. cbn [mbind result_bind]. rewrite arith_ok by lia. cbn [mbind result_bind].
    eexists. split; [pair_lia|]. cbn [base_offset pruned_hashes peak_indices]. rewrite length_app. cbn [length].
    rewrite arith_ok by lia. split_and!; [pair_lia| |].
    + rewrite (proj2 (Z.ltb_ge _ _)) by lia. f_equal.
      rewrite lookup_app_r by lia. replace (_ - _)%nat with 0%nat by lia. done.
    + intros i Hi. destruct (Z.ltb_spec i (base_offset b)); [done|]. f_equal. apply lookup_app_l. lia.
  - intros b. by exists PrunedHashSet_default.
Qed.

Section Spec.
Context {H : Hasher} {B : Type} `{AL : ArrayLike Hash B} {L : ArrayLikeLaws Hash B}.
Implicit Types (b : B) (self : MerkleMountainRange B) (t : tree) (f : forest) (h : Hash).

(** [b'] is [b] with the elements [xs] appended. *)
Definition appended b b' (xs : list Hash) : Prop :=
  exists n, 0 <= n /\ al_len b = Ok n /\ al_len b' = Ok (n + Z.of_nat (length xs)) /\
    (forall i, 0 <= i < n -> al_get i b' = al_get i b) /\
    (forall i x, xs !! i = Some x -> al_get (n + Z.of_nat i) b' = Ok (Some x)).

(** Position [p] of [b] holds [h]. *)
Definition holds b (p : Z) h : Prop := 0 <= p /\ al_get p b = Ok (Some h).

(** The storage of a range with forest [f]: the right length, and at least the peaks. *)
Definition represents b f : Prop :=
  forest_wf 0 f /\ al_len b = Ok (mmr_size (value f)) /\
  Forall2 (holds b) (forest_positions 0 f 0) (forest_peaks f).

Lemma appended_nil b n : al_len b = Ok n -> appended b b [].
Proof.
  intros Hn. exists n. pose proof (law_len_nonneg b n Hn). rewrite Z.add_0_r. split_and!; try done.
Qed.

Lemma appended_app b1 b2 b3 xs ys : appended b1 b2 xs -> appended b2 b3 ys -> appended b1 b3 (xs ++ ys).
Proof.
  intros (n & Hn & Hb1 & Hb2 & Hold & Hnew) (m & Hm & Hb2' & Hb3 & Hold' & Hnew').
  assert (m = n + Z.of_nat (length xs)) as -> by congruence.
  exists n. rewrite length_app. split_and!; [done|done|rewrite Hb3; f_equal; lia| |].
  - intros i Hi. rewrite Hold' by lia. apply Hold. lia.
  - intros i x Hi. apply lookup_app_Some in Hi as [Hi|[Hle Hi]].
    + pose proof (lookup_lt_Some _ _ _ Hi). rewrite Hold' by lia. by apply Hnew.
    + apply Hnew' in Hi. rewrite <- Hi. f_equal. lia.
Qed.

Lemma push_hash_appended self h n :
  al_len (hashes self) = Ok n -> n < USIZE_MAX ->
  exists self', push_hash h self = Ok (n, self') /\ appended (hashes self) (hashes self') [h].
Proof.
  intros Hn Hmax. pose proof (law_len_nonneg _ _ Hn) as H0.
  destruct (law_push _ _ h Hn Hmax) as (b' & Hp & Hl & Hg & Hold).
  exists {| hashes := b' |}. unfold push_hash. rewrite Hp. split; [done|]. exists n. cbn.
  split_and!; try done. intros [|i] x Hi; [|done]. injection Hi as <-. by rewrite Z.add_0_r.
Qed.

Lemma holds_appended b b' xs p h n :
  appended b b' xs -> al_len b = Ok n -> p < n -> holds b p h -> holds b' p h.
Proof.
  intros (m & Hm & Hb & _ & Hold & _) Hn Hp [H0 Hh]. assert (m = n) as -> by congruence.
  split; [done|]. by rewrite Hold.
Qed.

Lemma appended_holds_new b b' xs n i x :
  appended b b' xs -> al_len b = Ok n -> xs !! i = Some x -> holds b' (n + Z.of_nat i) x.
Proof.
  intros (m & Hm & Hb & _ & _ & Hnew) Hn Hi. assert (m = n) as -> by congruence.
  split; [lia|]. by apply Hnew.
Qed.

Lemma holds_all_appended b b' xs k f n :
  appended b b' xs -> al_len b = Ok n -> Z.of_nat (length (forest_nodes f)) <= n ->
  Forall2 (holds b) (forest_positions k f 0) (forest_peaks f) ->
  Forall2 (holds b') (forest_positions k f 0) (forest_peaks f).
Proof.
  intros Happ Hn Hle Hp. pose proof (forest_positions_bound k f) as Hb.
  induction Hp as [|p h ps hs Hh _ IH]; [constructor|].
  apply Forall_cons in Hb as [Hp Hb]. constructor; [|by apply IH].
  eapply holds_appended; try done. lia.
Qed.

(** ** Push *)

Lemma land_pow2 n k : 0 <= k -> (Z.land n (2 ^ k) =? 0) = negb (Z.odd (Z.shiftr n k)).
Proof.
  intros Hk. rewrite <- Z.bit0_odd, Z.shiftr_spec, Z.add_0_l by lia.
  destruct (Z.testbit n k) eqn:Hb; cbn [negb].
  - apply Z.eqb_neq. intros H0. assert (Z.testbit (Z.land n (2 ^ k)) k = true) as Ht.
    { by rewrite Z.land_spec, Hb, Z.pow2_bits_true. }
    rewrite H0, Z.bits_0 in Ht. done.
  - apply Z.eqb_eq, Z.bits_inj'. intros i Hi. rewrite Z.land_spec, Z.bits_0.
    destruct (Z.eq_dec i k) as [->|Hne]; [by rewrite Hb|].
    by rewrite Z.pow2_bits_false, andb_false_r by done.
Qed.

Lemma odd_value f : Z.odd (value f) = match f with Some _ :: _ => true | _ => false end.
Proof.
  destruct f as [|[t|] f]; cbn [value]; [done| |]; rewrite Z.odd_add, Z.odd_mul; done.
Qed.

Lemma half_value o f : value (o :: f) / 2 = value f.
Proof.
  cbn [value]. pose proof (value_nonneg f). destruct o.
  - rewrite Z.add_comm, Z.mul_comm, Z.div_add_l by lia. change (1 / 2) with 0. lia.
  - rewrite Z.add_0_l, Z.mul_comm, Z.div_mul; lia.
Qed.

Lemma shiftr_step n k o f :
  0 <= k -> Z.shiftr n k = value (o :: f) -> Z.shiftr n (k + 1) = value f.
Proof.
  intros Hk Hs. rewrite <- Z.shiftr_shiftr, Hs, Z.shiftr_div_pow2 by lia. change (2 ^ 1) with 2. apply half_value.
Qed.

Lemma shiftr_ge n k : 0 <= k -> 0 <= n -> 1 <= Z.shiftr n k -> 2 ^ k <= n.
Proof.
  intros Hk Hn Hs. rewrite Z.shiftr_div_pow2 in Hs by done. apply Z.nlt_ge. intros Hlt.
  rewrite Z.div_small in Hs; lia.
Qed.

(** The loop merges the new tree with the trees of the same height, one after the other. *)
Lemma push_loop_spec f k t n pos self fuel :
  perfect k t -> forest_wf k f -> 0 <= n < 2 ^ 62 -> Z.shiftr n (Z.of_nat k) = value f ->
  value f < 2 ^ Z.of_nat fuel ->
  pos + 1 = Z.of_nat (length (forest_nodes f)) + Z.of_nat (length (nodes t)) ->
  al_len (hashes self) = Ok (pos + 1) ->
  pos + Z.of_nat (length (merges t f)) < 2 ^ 63 ->
  Forall2 (holds (hashes self)) (forest_positions k f 0) (forest_peaks f) ->
  exists self', push_loop fuel n (2 ^ Z.of_nat k) pos (root t) self =
      Ok (pos + Z.of_nat (length (merges t f)), self') /\
    appended (hashes self) (hashes self') (merges t f).
Proof.
  revert k t pos self fuel. induction f as [|[l|] f IH]; intros k t pos self fuel Ht Hf Hn Hs Hfuel Hpos Hlen Hmax Hp;
    destruct fuel as [|fuel]; cbn [push_loop]; rewrite land_pow2, Hs, odd_value by lia; cbn [negb];
    try (exists self; cbn [merges length]; rewrite Z.add_0_r; split; [done|by eapply appended_nil]).
  - cbn [value] in Hfuel. pose proof (value_nonneg f). lia.
  - destruct Hf as [Hl Hf]. cbn [forest_positions forest_peaks opt_list merges length forest_nodes] in *.
    rewrite length_app, (Nat2Z.inj_add (length (forest_nodes f))) in *.
    pose proof (length_nodes k l Hl) as Hnl. pose proof (length_nodes k t Ht) as Hnt.
    assert (peak_sz (S k) = 2 * 2 ^ Z.of_nat k - 1) as Hsz by (unfold peak_sz; rewrite pow_S; done).
    assert (2 ^ Z.of_nat k <= n) as Hk.
    { apply shiftr_ge; [lia..|]. rewrite Hs. cbn [value]. pose proof (value_nonneg f). lia. }
    assert (0 <= pos) as Hpos0 by lia.
    rewrite !arith_ok by (unfold USIZE_MAX, U64_MAX; lia). cbn [mbind result_bind].
    rewrite arith_ok by (unfold USIZE_MAX, U64_MAX; lia). cbn [mbind result_bind].
    apply Forall2_snoc_inv in Hp as [Hp [_ Hroot]].
    replace (pos + 1 - 2 * 2 ^ Z.of_nat k)
      with (0 + (Z.of_nat (length (forest_nodes f)) + Z.of_nat (length (nodes l))) - 1) by lia.
    rewrite Hroot. cbn [backend_err map_err mbind result_bind unwrap].
    destruct (push_hash_appended self (hash_together (root l) (root t)) (pos + 1) Hlen) as (self' & Hpush & Happ);
      [unfold USIZE_MAX, U64_MAX; lia|].
    rewrite Hpush. cbn [mbind result_bind]. rewrite (Z.mul_comm _ 2), <- pow_S.
    assert (al_len (hashes self') = Ok (pos + 1 + 1)) as Hlen'.
    { destruct Happ as (m & _ & Hm & Hm' & _). rewrite Hm'. cbn. do 2 f_equal. congruence. }
    destruct (IH (S k) (Node l t) (pos + 1) self' fuel) as (self'' & Hloop & Happ'); try done.
    + rewrite Nat2Z.inj_succ. unfold Z.succ. eapply shiftr_step; [lia|done].
    + rewrite pow_S in Hfuel. cbn [value] in Hfuel. pose proof (value_nonneg f). lia.
    + cbn [nodes]. rewrite !length_app. cbn [length]. lia.
    + lia.
    + eapply holds_all_appended; [done|done|lia|done].
    + exists self''. cbn [root] in Hloop. rewrite Hloop. split; [pair_lia|].
      by apply (appended_app _ (hashes self') _ [_]).
Qed.

Lemma merges_length t f k :
  perfect k t -> forest_wf k f ->
  Z.of_nat (length (forest_nodes (add_tree t f))) =
    Z.of_nat (length (forest_nodes f)) + peak_sz (S k) + Z.of_nat (length (merges t f)).
Proof. intros Ht Hf. rewrite forest_nodes_add, !length_app. rewrite <- (length_nodes k t Ht). lia. Qed.

(** A push on a represented range appends the new leaf and the parents it completes; the
    position returned is that of the last of them. *)
Lemma mmr_push_appended h f self :
  represents (hashes self) f -> value f < 2 ^ 62 ->
  exists self', mmr_push h self = Ok (mmr_size (value f + 1) - 1, self') /\
    appended (hashes self) (hashes self') (h :: merges (Leaf h) f).
Proof.
  intros (Hwf & Hlen & Hp) Hmax. unfold mmr_push, mmr_is_empty, mmr_len. rewrite Hlen.
  cbn [backend_err map_err mbind result_bind].
  pose proof (value_nonneg f) as Hv. pose proof (mmr_size_bounds (value f) Hv) as Hb.
  pose proof (mmr_size_bounds (value f + 1)) as Hb1.
  pose proof (length_forest_nodes_0 f Hwf) as Hln.
  pose proof (merges_length (Leaf h) f 0 I Hwf) as Hm.
  rewrite (length_forest_nodes_0 (add_tree _ _)), value_add in Hm by (by apply add_tree_wf).
  change (peak_sz 1) with 1 in Hm.
  destruct (push_hash_appended self h _ Hlen) as (self1 & Hpush & Happ); [unfold USIZE_MAX, U64_MAX; lia|].
  destruct (Z.eqb_spec (mmr_size (value f)) 0) as [H0|H0].
  - assert (value f = 0) as Hv0 by lia. exists self1. rewrite Hpush.
    assert (merges (Leaf h) f = []) as Hnil.
    { clear -Hv0. destruct f as [|[l|] f]; cbn in *; [done| |done]. pose proof (value_nonneg f). lia. }
    rewrite Hnil. split; [|done]. rewrite Hnil in Hm. cbn [length] in Hm. pair_lia.
  - rewrite (peak_map_height_at (value f)) by (unfold USIZE_MAX, U64_MAX; pose proof (mmr_size_lt_succ (value f)); lia).
    rewrite Z.sub_diag. cbn [Z.eqb negb]. rewrite Hpush. cbn [mbind result_bind].
    assert (al_len (hashes self1) = Ok (mmr_size (value f) + 1)) as Hlen1.
    { destruct Happ as (m & _ & Hl & Hl' & _). rewrite Hl'. cbn. do 2 f_equal. congruence. }
    destruct (push_loop_spec f 0 (Leaf h) (value f) (mmr_size (value f)) self1 64)
      as (self2 & Hloop & Happ2); try done; try lia.
    + cbn. lia.
    + eapply holds_all_appended; [done|done|lia|done].
    + exists self2. cbn [root] in Hloop. change (2 ^ Z.of_nat 0) with 1 in Hloop. rewrite Hloop.
      split; [pair_lia|]. by apply (appended_app _ (hashes self1) _ [h]).
Qed.

(** The peaks after a push: the roots that were there, and the root of the tree the push
    completes. *)
Lemma add_tree_peaks f k t b :
  perfect k t -> forest_wf k f ->
  Forall2 (holds b) (forest_positions k f 0) (forest_peaks f) ->
  holds b (Z.of_nat (length (forest_nodes f)) + Z.of_nat (length (nodes t)) - 1) (root t) ->
  (forall i x, merges t f !! i = Some x ->
    holds b (Z.of_nat (length (forest_nodes f)) + Z.of_nat (length (nodes t)) + Z.of_nat i) x) ->
  Forall2 (holds b) (forest_positions k (add_tree t f) 0) (forest_peaks (add_tree t f)).
Proof.
  revert k t. induction f as [|[l|] f IH]; intros k t Ht Hf Hp Hr Hm;
    cbn [add_tree forest_positions forest_peaks opt_list forest_nodes merges app] in *.
  - constructor; [|constructor]. done.
  - destruct Hf as [Hl Hf]. apply Forall2_snoc_inv in Hp as [Hp _]. rewrite !app_nil_r.
    rewrite length_app, Nat2Z.inj_add in *. apply IH; try done.
    + specialize (Hm 0%nat _ eq_refl). cbn [nodes root]. rewrite !length_app. cbn [length].
      replace (_ - 1) with (Z.of_nat (length (forest_nodes f)) + Z.of_nat (length (nodes l)) +
        Z.of_nat (length (nodes t)) + Z.of_nat 0) by lia. done.
    + intros i x Hi. specialize (Hm (S i) x Hi). cbn [nodes]. rewrite !length_app. cbn [length].
      replace (_ + Z.of_nat i) with (Z.of_nat (length (forest_nodes f)) + Z.of_nat (length (nodes l)) +
        Z.of_nat (length (nodes t)) + Z.of_nat (S i)) by lia. done.
  - rewrite !app_nil_r in *. apply Forall2_app; [done|]. constructor; [|constructor].
    by rewrite length_app, Nat2Z.inj_add, Z.add_0_l.
Qed.

Lemma represents_push h f b b' :
  represents b f -> appended b b' (h :: merges (Leaf h) f) -> represents b' (add_tree (Leaf h) f).
Proof.
  intros (Hwf & Hlen & Hp) Happ. pose proof (length_forest_nodes_0 f Hwf) as Hln.
  assert (forest_wf 0 (add_tree (Leaf h) f)) as Hwf' by (by apply add_tree_wf).
  split_and!; [done| |].
  - rewrite <- length_forest_nodes_0, forest_nodes_add by done.
    destruct Happ as (m & _ & Hl & Hl' & _). rewrite Hl'. f_equal. rewrite !length_app. cbn [nodes length].
    assert (m = mmr_size (value f)) as -> by congruence. cbn [length]. lia.
  - apply add_tree_peaks; [done|done| | |].
    + eapply holds_all_appended; [done|done|lia|done].
    + pose proof (appended_holds_new _ _ _ _ 0 h Happ Hlen eq_refl) as Hh. rewrite Hln. cbn [nodes length root].
      by replace (mmr_size (value f) + Z.of_nat 1 - 1) with (mmr_size (value f) + Z.of_nat 0) by lia.
    + intros i x Hi. pose proof (appended_holds_new _ _ _ _ (S i) x Happ Hlen Hi) as Hh. rewrite Hln.
      cbn [nodes length]. by replace (_ + Z.of_nat i) with (mmr_size (value f) + Z.of_nat (S i)) by lia.
Qed.

Lemma mmr_push_represents h ls self :
  represents (hashes self) (build ls) -> Z.of_nat (length ls) < 2 ^ 62 ->
  exists self' i, mmr_push h self = Ok (i, self') /\ represents (hashes self') (build (ls ++ [h])) /\
    appended (hashes self) (hashes self') (h :: merges (Leaf h) (build ls)).
Proof.
  intros Hrep Hmax. rewrite <- value_build in Hmax.
  destruct (mmr_push_appended h _ self Hrep Hmax) as (self' & Hpush & Happ).
  exists self', (mmr_size (value (build ls) + 1) - 1). split_and!; [done| |done].
  rewrite build_snoc. by eapply represents_push.
Qed.

Lemma forest_nodes_snoc ls h :
  forest_nodes (build (ls ++ [h])) = forest_nodes (build ls) ++ h :: merges (Leaf h) (build ls).
Proof. rewrite build_snoc. exact (forest_nodes_add (Leaf h) (build ls)). Qed.

Lemma push_all_represents hs ls self :
  represents (hashes self) (build ls) -> Z.of_nat (length (ls ++ hs)) <= 2 ^ 62 ->
  exists self' xs, push_all hs self = Ok self' /\ represents (hashes self') (build (ls ++ hs)) /\
    appended (hashes self) (hashes self') xs /\ forest_nodes (build (ls ++ hs)) = forest_nodes (build ls) ++ xs.
Proof.
  revert ls self. induction hs as [|h hs IH]; intros ls self Hrep Hmax; cbn [push_all].
  - exists self, []. rewrite !app_nil_r. split_and!; [done|done| |done].
    destruct Hrep as (_ & Hlen & _). by eapply appended_nil.
  - rewrite length_app in Hmax. cbn [length] in Hmax.
    destruct (mmr_push_represents h ls self Hrep) as (self1 & i & Hpush & Hrep1 & Happ1); [lia|].
    rewrite Hpush. cbn [mbind result_bind].
    destruct (IH (ls ++ [h]) self1 Hrep1) as (self2 & xs & Hall & Hrep2 & Happ2 & Hnodes).
    { rewrite !length_app. cbn [length]. lia. }
    rewrite <- app_assoc in Hrep2, Hnodes. cbn [app] in Hrep2, Hnodes.
    exists self2, ((h :: merges (Leaf h) (build ls)) ++ xs). split_and!; [done|done|by eapply appended_app|].
    rewrite Hnodes, forest_nodes_snoc. by rewrite <- app_assoc.
Qed.

Lemma represents_empty b : al_len b = Ok 0 -> represents b (build []).
Proof. intros Hl. split_and!; [done|done|constructor]. Qed.

Lemma assign_represents ls self :
  Z.of_nat (length ls) <= 2 ^ 62 ->
  exists self', assign ls self = Ok self' /\ represents (hashes self') (build ls).
Proof.
  intros Hmax. unfold assign, assign_iter, mmr_clear.
  destruct (law_clear (hashes self)) as (b0 & Hc & H0). rewrite Hc. cbn [backend_err map_err mbind result_bind].
  destruct (push_all_represents ls [] {| hashes := b0 |}) as (self' & xs & Hall & Hrep & _);
    [by apply represents_empty|done|]. by exists self'.
Qed.

(** ** Root *)

Lemma hash_to_root_fold b acc ps hs :
  Forall2 (holds b) ps hs ->
  foldM (fun hasher i =>
    match al_get i b with
    | Ok (Some h) => Ok (hasher ++ h)
    | _ => Panic
    end) ps acc = (Ok (acc ++ concat hs) : mmr_result (list Z)).
Proof.
  intros Hp. revert acc. induction Hp as [|p h ps hs [_ Hh] _ IH]; intros acc; cbn [foldM concat].
  - by rewrite app_nil_r.
  - rewrite Hh. cbn [mbind result_bind]. rewrite IH. by rewrite <- app_assoc.
Qed.

Lemma hash_to_root_represents acc f self :
  represents (hashes self) f -> value f <= 2 ^ 62 ->
  hash_to_root acc self = Ok (acc ++ concat (forest_peaks f)).
Proof.
  intros (Hwf & Hlen & Hp) Hmax. unfold hash_to_root. rewrite Hlen. cbn [backend_err map_err mbind result_bind].
  pose proof (value_nonneg f) as Hv. pose proof (mmr_size_bounds (value f) Hv).
  rewrite find_peaks_forest by (done || (unfold USIZE_MAX, U64_MAX; lia)). cbn [ok_or mbind result_bind].
  by apply hash_to_root_fold.
Qed.

Definition forest_root f : Hash := if value f =? 0 then null_hash else digest (concat (forest_peaks f)).

Lemma get_merkle_root_represents f self :
  represents (hashes self) f -> value f <= 2 ^ 62 -> get_merkle_root self = Ok (forest_root f).
Proof.
  intros Hrep Hmax. unfold get_merkle_root, mmr_is_empty, mmr_len, forest_root.
  pose proof Hrep as (Hwf & Hlen & _). rewrite Hlen. cbn [backend_err map_err mbind result_bind].
  pose proof (mmr_size_bounds (value f) (value_nonneg f)).
  destruct (Z.eqb_spec (value f) 0) as [Hz|Hz].
  - by rewrite Hz.
  - rewrite (proj2 (Z.eqb_neq (mmr_size _) _)) by lia. by rewrite (hash_to_root_represents [] f).
Qed.

Lemma forest_root_build ls : forest_root (build ls) = mmr_root ls.
Proof.
  unfold forest_root, mmr_root. rewrite value_build, peaks_build.
  destruct ls as [|h ls]; [done|]. by rewrite (proj2 (Z.eqb_neq _ _)) by (cbn; lia).
Qed.

Lemma root_of_leaves ls self :
  represents (hashes self) (build ls) -> Z.of_nat (length ls) <= 2 ^ 62 ->
  get_merkle_root self = Ok (mmr_root ls).
Proof.
  intros Hrep Hmax. rewrite (get_merkle_root_represents (build ls)), forest_root_build; [done|done|].
  by rewrite value_build.
Qed.

Lemma leaf_count_represents ls self :
  represents (hashes self) (build ls) -> Z.of_nat (length ls) <= 2 ^ 62 ->
  get_leaf_count self = Ok (Z.of_nat (length ls)).
Proof.
  intros (_ & Hlen & _) Hmax. unfold get_leaf_count, mmr_len. rewrite Hlen. cbn [backend_err map_err mbind result_bind].
  rewrite value_build in *. pose proof (mmr_size_bounds (Z.of_nat (length ls))).
  pose proof (mmr_size_lt_succ (Z.of_nat (length ls))).
  rewrite (checked_n_leaves_at (Z.of_nat (length ls))) by (unfold USIZE_MAX, U64_MAX; lia).
  by rewrite Z.eqb_refl.
Qed.

(** ** Pruning *)

Lemma position_lookup (ps : list Z) i p : NoDup ps -> ps !! i = Some p -> position (Z.eqb p) ps = Some i.
Proof.
  intros Hnd. revert i. induction Hnd as [|q ps Hq _ IH]; intros i Hi; [done|]. cbn [position].
  destruct i as [|i]; cbn in Hi.
  - injection Hi as ->. by rewrite Z.eqb_refl.
  - rewrite (proj2 (Z.eqb_neq _ _)); [by rewrite (IH i Hi)|].
    intros ->. apply Hq. by eapply list_elem_of_lookup_2.
Qed.

End Spec.

(** ** The root of a pruned copy

    A section of its own: pruning changes the storage. *)
Section Pruned.
Context {H : Hasher} {B : Type} `{AL : ArrayLike Hash B} {L : ArrayLikeLaws Hash B}.

(** Pruning keeps the length and the peaks. *)
Lemma prune_represents f self :
  represents (hashes self) f -> value f <= 2 ^ 62 ->
  exists m, prune_mmr self = Ok m /\ represents (hashes m) f.
Proof.
  intros (Hwf & Hlen & Hp) Hmax. unfold prune_mmr, PrunedHashSet_try_from, mmr_len. rewrite Hlen.
  cbn [backend_err map_err mbind result_bind].
  pose proof (mmr_size_bounds (value f) (value_nonneg f)) as Hb. pose proof (length_forest_nodes_0 f Hwf) as Hln.
  rewrite find_peaks_forest by (done || (unfold USIZE_MAX, U64_MAX; lia)). cbn [ok_or mbind result_bind].
  rewrite (proj2 (mapM_Ok_Forall2 _ _ (forest_peaks f))); cycle 1.
  { eapply Forall2_impl; [exact Hp|]. intros p h [_ Hh]. unfold get_node_hash. by rewrite Hh. }
  eexists. split; [done|]. split_and!; [done| |].
  - cbn. unfold pruned_len. cbn [base_offset pruned_hashes length].
    rewrite arith_ok by (unfold USIZE_MAX, U64_MAX; lia). pair_lia.
  - apply Forall2_same_length_lookup. split; [by apply Forall2_length in Hp|].
    intros i p h Hip Hih. pose proof (forest_positions_bound 0 f) as Hbd. rewrite Forall_lookup in Hbd.
    specialize (Hbd i p Hip). split; [lia|]. cbn. unfold pruned_get. cbn [base_offset peak_indices peak_hashes].
    rewrite (proj2 (Z.ltb_lt _ _)) by lia.
    rewrite (position_lookup _ i p) by (done || apply forest_positions_NoDup). by rewrite Hih.
Qed.

(** C26: [calculate_mmr_root] works on a copy that has forgotten everything but the peaks, and
    returns the root the full range would have with the additions pushed: the hash of the peaks
    of the concatenated list of leaves. *)
Theorem calculate_mmr_root_correct (src : MerkleMountainRange B) ls additions :
  represents (hashes src) (build ls) -> Z.of_nat (length (ls ++ additions)) <= 2 ^ 62 ->
  calculate_mmr_root src additions = Ok (mmr_root (ls ++ additions)) /\
  exists src', push_all additions src = Ok src' /\ get_merkle_root src' = Ok (mmr_root (ls ++ additions)).
Proof.
  intros Hrep Hmax. split.
  - unfold calculate_mmr_root.
    destruct (prune_represents _ _ Hrep) as (m & Hm & Hrep').
    { rewrite value_build. rewrite length_app in Hmax. lia. }
    rewrite Hm. cbn [mbind result_bind].
    destruct (push_all_represents additions ls m Hrep' Hmax) as (m' & xs & Hall & Hrep2 & _).
    rewrite Hall. cbn [mbind result_bind]. by apply root_of_leaves.
  - destruct (push_all_represents additions ls src Hrep Hmax) as (m' & xs & Hall & Hrep2 & _).
    exists m'. split; [done|by apply root_of_leaves].
Qed.

End Pruned.

(** ** Ranges stored in a [Vec] *)
Section VecRange.
Context {H : Hasher}.
Implicit Types (ls : list Hash) (self : MerkleMountainRange (list Hash)).

Lemma vec_appended (v v' : list Hash) xs : appended v v' xs -> v' = v ++ xs.
Proof.
  intros (n & Hn & Hv & Hv' & Hold & Hnew). cbn in *. injection Hv as <-. injection Hv' as Hv'.
  apply list_eq_same_length with (n := length v'); [rewrite length_app; lia|done|].
  intros i x y Hi Hx Hy. apply lookup_app_Some in Hy as [Hy|[Hle Hy]].
  - specialize (Hold (Z.of_nat i)). rewrite Nat2Z.id in Hold. pose proof (lookup_lt_Some _ _ _ Hy).
    injection (Hold ltac:(lia)) as He. congruence.
  - apply Hnew in Hy. replace (Z.to_nat (Z.of_nat (length v) + Z.of_nat (i - length v))) with i in Hy by lia.
    congruence.
Qed.

(** The array of a range with leaves [ls]. *)
Definition mmr_array ls : list Hash := forest_nodes (build ls).

Lemma mmr_array_represents ls : represents (mmr_array ls) (build ls).
Proof.
  split_and!; [apply build_wf| |].
  - cbn. f_equal. apply length_forest_nodes_0, build_wf.
  - eapply Forall2_impl; [apply (forest_positions_lookup 0 (build ls) [])|].
    intros p h [Hh Hb]. split; [cbn in Hb; lia|]. cbn in *. unfold mmr_array. by rewrite Hh.
Qed.

Lemma push_all_array ls hs :
  Z.of_nat (length (ls ++ hs)) <= 2 ^ 62 ->
  push_all hs {| hashes := mmr_array ls |} = Ok {| hashes := mmr_array (ls ++ hs) |}.
Proof.
  intros Hmax. destruct (push_all_represents hs ls {| hashes := mmr_array ls |}) as ([v] & xs & Hall & _ & Happ & Hn);
    [apply mmr_array_represents|done|].
  rewrite Hall. apply vec_appended in Happ. cbn in Happ. unfold mmr_array in *. by rewrite Happ, Hn.
Qed.

Lemma assign_array ls self :
  Z.of_nat (length ls) <= 2 ^ 62 -> assign ls self = Ok {| hashes := mmr_array ls |}.
Proof. intros Hmax. apply (push_all_array [] ls Hmax). Qed.

Lemma get_leaf_hash_array ls i :
  0 <= i < Z.of_nat (length ls) -> Z.of_nat (length ls) <= 2 ^ 62 ->
  get_leaf_hash i {| hashes := mmr_array ls |} = Ok (ls !! Z.to_nat i).
Proof.
  intros Hi Hmax. unfold get_leaf_hash. rewrite node_index_size by lia. cbn.
  unfold mmr_array. rewrite forest_lookup_leaf by (rewrite ?value_build; done || apply build_wf).
  by rewrite forest_leaves_build.
Qed.

(** Assigning a list of leaf hashes to a range stored in a [Vec] stores the post-order
    array of the forest of the leaves; the root is the hash of the peaks, each the Merkle root
    of the largest power-of-two block left; the leaf count and every leaf can be read back. *)
Theorem assign_correct ls self :
  Z.of_nat (length ls) <= 2 ^ 62 ->
  exists m, assign ls self = Ok m /\
    hashes m = forest_nodes (build ls) /\
    get_merkle_root m = Ok (mmr_root ls) /\
    get_leaf_count m = Ok (Z.of_nat (length ls)) /\
    (forall i x, ls !! i = Some x -> get_leaf_hash (Z.of_nat i) m = Ok (Some x)).
Proof.
  intros Hmax. exists {| hashes := mmr_array ls |}. split_and!.
  - by apply assign_array.
  - done.
  - apply root_of_leaves; [apply mmr_array_represents|done].
  - apply leaf_count_represents; [apply mmr_array_represents|done].
  - intros i x Hi. pose proof (lookup_lt_Some _ _ _ Hi). rewrite get_leaf_hash_array by lia. by rewrite Nat2Z.id, Hi.
Qed.

End VecRange.

(** ** Examples *)
Section SpecExamples.

#[local] Instance spec_example_hasher : Hasher := fun b => 7 :: b.

Definition spec_leaves : list Hash := [[1]; [2]; [3]].

Lemma calculate_mmr_root_correct_witness :
  calculate_mmr_root {| hashes := mmr_array spec_leaves |} [[4]; [5]] = Ok (mmr_root (spec_leaves ++ [[4]; [5]])).
Proof.
  apply (calculate_mmr_root_correct {| hashes := mmr_array spec_leaves |} spec_leaves [[4]; [5]]).
  - apply mmr_array_represents.
  - cbn. lia.
Defined.

Lemma assign_correct_witness :
  exists m, assign spec_leaves {| hashes := [] : list Hash |} = Ok m /\ get_merkle_root m = Ok (mmr_root spec_leaves).
Proof.
  destruct (assign_correct spec_leaves {| hashes := [] |}) as (m & Hm & _ & Hr & _).
  - cbn. lia.
  - by exists m.
Defined.

End SpecExamples.
