(* ===== verification/MmrNodes.v ===== *)
(** * Nodes by level and index

    Every node of a range is the [m]-th node of its level [j]; it covers the leaves from
    [m * 2^j] on. This file gives its position, its family and its hash, and shows that
    [validate] accepts exactly the arrays that are Merkle mountain ranges. *)

From S2P Require Import Prelude MmrCommon Mmr MmrForest MmrSpec.

Local Open Scope Z_scope.

(** The position of node [m] of level [j]. *)
Definition npos (j : nat) (m : Z) : Z := mmr_size (2 ^ Z.of_nat j * m) + peak_sz (S j) - 1.

(** The other child of the parent of node [m]. *)
Definition sibling_index (m : Z) : Z := if Z.even m then m + 1 else m - 1.

(** ** Arithmetic of positions *)

Lemma count_ones_mul_pow j m : count_ones (2 ^ Z.of_nat j * m) = count_ones m.
Proof.
  induction j as [|j IH]; [by rewrite Z.mul_1_l|]. by rewrite pow_S, <- Z.mul_assoc, count_ones_double.
Qed.

Lemma mmr_size_mul_pow j m : mmr_size (2 ^ Z.of_nat j * m) = 2 * 2 ^ Z.of_nat j * m - count_ones m.
Proof. unfold mmr_size. rewrite count_ones_mul_pow. lia. Qed.

Lemma count_ones_even_succ m : 0 <= m -> Z.even m = true -> count_ones (m + 1) = count_ones m + 1.
Proof.
  intros Hm He. apply Z.even_spec in He as [q ->]. rewrite count_ones_double_1, count_ones_double; lia.
Qed.

Lemma count_ones_low j m q :
  0 <= m -> 0 <= q < 2 ^ Z.of_nat j -> count_ones (2 ^ Z.of_nat j * m + q) = count_ones m + count_ones q.
Proof.
  intros Hm. revert q. induction j as [|j IH]; intros q Hq.
  - change (2 ^ Z.of_nat 0) with 1 in *. assert (q = 0) as -> by lia. rewrite Z.mul_1_l, !Z.add_0_r. done.
  - rewrite pow_S in *. assert (0 <= 2 ^ Z.of_nat j * m) by (apply Z.mul_nonneg_nonneg; lia).
    destruct (even_odd_split q) as (r & Hr & [-> | ->]); [lia| |].
    + rewrite <- Z.mul_assoc, <- Z.mul_add_distr_l, !count_ones_double. apply IH. lia.
    + rewrite Z.add_assoc, <- Z.mul_assoc, <- Z.mul_add_distr_l.
      rewrite !count_ones_double_1 by lia. rewrite IH by lia. lia.
Qed.

Lemma mmr_size_low j m q :
  0 <= m -> 0 <= q < 2 ^ Z.of_nat j ->
  mmr_size (2 ^ Z.of_nat j * m + q) = mmr_size (2 ^ Z.of_nat j * m) + mmr_size q.
Proof. intros Hm Hq. unfold mmr_size. rewrite count_ones_low, count_ones_mul_pow by done. lia. Qed.

Lemma mmr_size_ones j : mmr_size (2 ^ Z.of_nat j - 1) = peak_sz (S j) - 1 - Z.of_nat j.
Proof.
  induction j as [|j IH]; [done|]. pose proof (pow_pos j). rewrite pow_S.
  replace (2 * 2 ^ Z.of_nat j - 1) with (2 ^ Z.of_nat j + (2 ^ Z.of_nat j - 1)) by lia.
  rewrite mmr_size_split by lia. rewrite IH. rewrite (peak_sz_S (S j)). lia.
Qed.

(** Node [m] of level [j] is [j] steps above the last leaf it covers, and exists as soon as that
    leaf does. *)
Lemma npos_last_leaf j m :
  0 <= m -> npos j m = mmr_size (2 ^ Z.of_nat j * m + (2 ^ Z.of_nat j - 1)) + Z.of_nat j.
Proof.
  intros Hm. unfold npos. pose proof (pow_pos j). rewrite mmr_size_low by lia. rewrite mmr_size_ones. lia.
Qed.

Lemma npos_lt_next j m : 0 <= m -> npos j m < mmr_size (2 ^ Z.of_nat j * (m + 1)).
Proof.
  intros Hm. unfold npos. rewrite !mmr_size_mul_pow. pose proof (count_ones_succ m Hm).
  unfold peak_sz. rewrite pow_S. lia.
Qed.

Lemma npos_lt_size j m n : 0 <= m -> 2 ^ Z.of_nat j * (m + 1) <= n -> npos j m < mmr_size n.
Proof.
  intros Hm Hn. pose proof (npos_lt_next j m Hm). pose proof (pow_pos j).
  pose proof (mmr_size_mono (2 ^ Z.of_nat j * (m + 1)) n). lia.
Qed.

Lemma npos_nonneg j m : 0 <= m -> 0 <= npos j m.
Proof.
  intros Hm. unfold npos. pose proof (pow_pos j).
  pose proof (mmr_size_bounds (2 ^ Z.of_nat j * m)). pose proof (peak_sz_S j).
  pose proof (peak_sz_nonneg j). lia.
Qed.

Lemma npos_leaf i : npos 0 i = mmr_size i.
Proof. unfold npos. change (2 ^ Z.of_nat 0) with 1. change (peak_sz 1) with 1. rewrite Z.mul_1_l. lia. Qed.

Lemma peak_map_height_npos j m :
  0 <= m -> npos j m <= USIZE_MAX ->
  peak_map_height (npos j m) = (2 ^ Z.of_nat j * m + (2 ^ Z.of_nat j - 1), Z.of_nat j).
Proof.
  intros Hm Hmax. pose proof (pow_pos j). pose proof (npos_last_leaf j m Hm) as Hl.
  pose proof (npos_lt_next j m Hm) as Hn.
  rewrite (peak_map_height_at (2 ^ Z.of_nat j * m + (2 ^ Z.of_nat j - 1))); [pair_lia|lia| |done].
  replace (2 ^ Z.of_nat j * m + (2 ^ Z.of_nat j - 1) + 1) with (2 ^ Z.of_nat j * (m + 1)) by lia. lia.
Qed.

Lemma bintree_height_npos j m : 0 <= m -> npos j m <= USIZE_MAX -> bintree_height (npos j m) = Z.of_nat j.
Proof.
  intros Hm Hmax. unfold bintree_height. destruct (Z.eqb_spec (npos j m) 0) as [Hz|_].
  - destruct j; [done|]. unfold npos in Hz. pose proof (mmr_size_bounds (2 ^ Z.of_nat (S j) * m)).
    rewrite !peak_sz_S in Hz. pose proof (peak_sz_nonneg j). lia.
  - by rewrite peak_map_height_npos.
Qed.

(** The parent and the children of a node. *)
Lemma npos_parent j m : 0 <= m -> npos (S j) m = npos j (2 * m + 1) + 1.
Proof.
  intros Hm. unfold npos. rewrite !mmr_size_mul_pow, count_ones_double_1, (peak_sz_S (S j)) by done.
  unfold peak_sz. rewrite pow_S. lia.
Qed.

Lemma npos_left j m : 0 <= m -> npos (S j) m = npos j (2 * m) + 2 * 2 ^ Z.of_nat j.
Proof.
  intros Hm. unfold npos. rewrite !mmr_size_mul_pow, count_ones_double, (peak_sz_S (S j)).
  unfold peak_sz. rewrite pow_S. lia.
Qed.

Lemma bit_of_node j m :
  0 <= m -> (Z.land (2 ^ Z.of_nat j * m + (2 ^ Z.of_nat j - 1)) (2 ^ Z.of_nat j) =? 0) = Z.even m.
Proof.
  intros Hm. pose proof (pow_pos j). rewrite land_pow2, Z.negb_odd by lia.
  rewrite Z.shiftr_div_pow2 by lia. rewrite (Z.mul_comm _ m), Z.div_add_l, Z.div_small by lia.
  by rewrite Z.add_0_r.
Qed.

Lemma is_left_sibling_npos j m : 0 <= m -> npos j m <= USIZE_MAX -> is_left_sibling (npos j m) = Z.even m.
Proof.
  intros Hm Hmax. unfold is_left_sibling. rewrite peak_map_height_npos by done.
  rewrite Z.shiftl_1_l. by apply bit_of_node.
Qed.

Lemma half_even m : Z.even m = true -> m = 2 * (m / 2).
Proof. intros [q ->]%Z.even_spec. rewrite (Z.mul_comm 2 q), Z.div_mul; lia. Qed.

Lemma half_odd m : Z.even m = false -> m = 2 * (m / 2) + 1.
Proof.
  intros Ho. rewrite <- Z.negb_odd, negb_false_iff in Ho. apply Z.odd_spec in Ho as [q ->].
  rewrite (Z.mul_comm 2 q), Z.div_add_l by lia. change (1 / 2) with 0. lia.
Qed.

(** [family] computes parent and sibling for the levels its 32-bit shift can express. *)
Lemma family_npos j m :
  (j <= 30)%nat -> 0 <= m -> npos (S j) (m / 2) <= USIZE_MAX ->
  family (npos j m) = Ok (npos (S j) (m / 2), npos j (sibling_index m)).
Proof.
  intros Hj Hm Hmax. assert (0 <= m / 2) as Hh by (apply Z.div_pos; lia).
  assert (2 ^ Z.of_nat j <= 2 ^ 30) as H30 by (apply Z.pow_le_mono_r; lia).
  assert (npos j m <= USIZE_MAX) as Hp.
  { destruct (Z.even m) eqn:He; [pose proof (half_even m He) as Hm2|pose proof (half_odd m He) as Hm2]; rewrite Hm2;
      [pose proof (npos_left j _ Hh)|pose proof (npos_parent j _ Hh)]; lia. }
  unfold family. rewrite peak_map_height_npos by done. unfold shl_i32.
  rewrite (proj2 (Z.ltb_lt _ _)) by lia. cbn [mbind result_bind].
  rewrite Z.shiftl_1_l, Z.mod_small by lia. unfold to_signed. rewrite (proj2 (Z.ltb_lt _ _)) by (cbn; lia).
  rewrite bit_of_node by done. unfold usize_try_from, sibling_index.
  pose proof (npos_nonneg (S j) (m / 2) Hh). destruct (Z.even m) eqn:He; cbn [fst snd].
  - pose proof (half_even m He) as Hm2. pose proof (npos_left j _ Hh) as Hl. pose proof (npos_parent j _ Hh) as Hr.
    rewrite <- Hm2 in Hl, Hr. pose proof (npos_nonneg j (m + 1)).
    rewrite !checked_ok by lia. cbn [ok_or mbind result_bind]. pair_lia.
  - pose proof (half_odd m He) as Hm2. pose proof (npos_left j _ Hh) as Hl. pose proof (npos_parent j _ Hh) as Hr.
    rewrite <- Hm2 in Hr. replace (2 * (m / 2)) with (m - 1) in Hl by lia. pose proof (npos_nonneg j (m - 1)).
    rewrite !checked_ok by lia. cbn [ok_or mbind result_bind]. pair_lia.
Qed.

(** ** Parent hashes *)
Section Validate.
Context {H : Hasher}.
Implicit Types (v : list Hash) (ls : list Hash) (t : tree) (f : forest).

(** The parent at position [p] is the hash of its children. *)
Definition node_ok v (p : Z) : Prop :=
  0 < bintree_height p ->
  exists a b, v !! Z.to_nat (p - 2 ^ bintree_height p) = Some a /\ v !! Z.to_nat (p - 1) = Some b /\
    v !! Z.to_nat p = Some (hash_together a b).

Definition array_ok v : Prop := forall p, 0 <= p < Z.of_nat (length v) -> node_ok v p.

(** Position [p] is a leaf or lies [h] steps above leaf [n]. *)
Lemma bintree_height_at n p :
  0 <= n -> mmr_size n <= p < mmr_size (n + 1) -> p <= USIZE_MAX -> bintree_height p = p - mmr_size n.
Proof.
  intros Hn Hp Hmax. unfold bintree_height. destruct (Z.eqb_spec p 0) as [->|].
  - pose proof (mmr_size_bounds n Hn). lia.
  - by rewrite (peak_map_height_at n).
Qed.

Lemma height_child_nonneg p : 0 <= p <= USIZE_MAX -> 0 < bintree_height p -> 0 <= p - 2 ^ bintree_height p.
Proof.
  intros Hp Hh. destruct (position_cases p) as (n & Hn & Hlo & Hhi); [lia|].
  rewrite (bintree_height_at n) in * by lia. set (h := p - mmr_size n) in *.
  destruct (Z.le_gt_cases (2 ^ h) (p)); [lia|]. exfalso.
  assert (count_ones (n + 1) <= count_ones n + 1 - h) as Hc by (unfold h, mmr_size in *; lia).
  assert (forall q k, 0 <= q -> count_ones (q + 1) <= count_ones q + 1 - Z.of_nat k -> 2 ^ Z.of_nat k - 1 <= q) as Hones.
  { clear. intros q k. revert q. induction k as [|k IH]; intros q Hq Hc; [change (2 ^ Z.of_nat 0) with 1; lia|].
    rewrite pow_S. destruct (even_odd_split q Hq) as (r & Hr & [-> | ->]).
    - rewrite count_ones_double_1, count_ones_double in Hc by lia. lia.
    - replace (2 * r + 1 + 1) with (2 * (r + 1)) in Hc by lia.
      rewrite count_ones_double, count_ones_double_1 in Hc by lia. pose proof (IH r Hr). lia. }
  specialize (Hones n (Z.to_nat h) Hn). rewrite Z2Nat.id in Hones by lia.
  specialize (Hones Hc). pose proof (mmr_size_bounds n Hn). unfold h in *. lia.
Qed.

(** The hashes a push appends are the hashes of their children. *)
Lemma merges_children f k t i x :
  perfect k t -> forest_wf k f -> merges t f !! i = Some x ->
  let a := forest_nodes f ++ nodes t ++ merges t f in
  let p := Z.of_nat (length (forest_nodes f)) + Z.of_nat (length (nodes t)) + Z.of_nat i in
  exists l r, x = hash_together l r /\ a !! Z.to_nat (p - 1) = Some r /\
    a !! Z.to_nat (p - 2 ^ (Z.of_nat k + Z.of_nat i + 1)) = Some l.
Proof.
  revert k t i. induction f as [|[l|] f IH]; intros k t i Ht Hf Hi; try done.
  destruct Hf as [Hl Hf]. cbn [merges] in *. cbn zeta.
  pose proof (length_nodes k l Hl) as Hnl. pose proof (length_nodes k t Ht) as Hnt.
  assert (peak_sz (S k) = 2 * 2 ^ Z.of_nat k - 1) as Hsz by (unfold peak_sz; rewrite pow_S; done).
  pose proof (pow_pos k). cbn [forest_nodes opt_list]. rewrite !length_app.
  destruct i as [|i].
  - injection Hi as <-. exists (root l), (root t). split; [done|].
    destruct (nodes_root l) as [nl Hnl']. destruct (nodes_root t) as [nt Hnt'].
    rewrite Hnl', Hnt' in *. rewrite !length_app in *. cbn [length] in *. split.
    + eapply (lookup_at _ (forest_nodes f ++ nl ++ root l :: nt)).
      * rewrite <- !app_assoc. reflexivity.
      * rewrite !length_app. cbn [length]. lia.
    + change (Z.of_nat 0) with 0. rewrite !Z.add_0_r, Z.pow_add_r by lia. change (2 ^ 1) with 2.
      eapply (lookup_at _ (forest_nodes f ++ nl)).
      * rewrite <- !app_assoc. reflexivity.
      * rewrite !length_app. lia.
  - destruct (IH (S k) (Node l t) i) as (a & b & -> & Hb & Ha); [done|done|done|].
    cbn [nodes] in Ha, Hb. rewrite !length_app in Ha, Hb. cbn [length] in Ha, Hb. rewrite <- !app_assoc in Ha, Hb.
    cbn [app] in Ha, Hb. exists a, b. split; [done|]. rewrite <- !app_assoc. split; [rewrite <- Hb|rewrite <- Ha]; f_equal.
    + lia.
    + do 2 f_equal; [lia|]. f_equal. lia.
Qed.

Lemma node_ok_app v w p : 0 <= p < Z.of_nat (length v) -> node_ok v p -> node_ok (v ++ w) p.
Proof.
  intros Hp Hok Hh. destruct (Hok Hh) as (a & b & Ha & Hb & Hv). exists a, b.
  split_and!; by apply lookup_app_l_Some.
Qed.

Lemma mmr_array_ok ls : Z.of_nat (length ls) <= 2 ^ 62 -> array_ok (mmr_array ls).
Proof.
  induction ls as [|h ls IH] using rev_ind; intros Hmax p Hp.
  { unfold mmr_array in Hp. cbn in Hp. lia. }
  rewrite length_app in Hmax. cbn [length] in Hmax.
  pose proof (length_forest_nodes_0 (build ls) (build_wf ls)) as Hlen. rewrite value_build in Hlen.
  unfold mmr_array in *. rewrite forest_nodes_snoc in *.
  destruct (Z.lt_ge_cases p (mmr_size (Z.of_nat (length ls)))) as [Hlt|Hge].
  - apply node_ok_app; [lia|]. apply IH; lia.
  - pose proof (length_forest_nodes_0 (build (ls ++ [h])) (build_wf _)) as Hlen'.
    rewrite value_build, length_app, forest_nodes_snoc in Hlen'. cbn [length] in Hlen'. rewrite Nat2Z.inj_add in Hlen'.
    change (Z.of_nat 1) with 1 in Hlen'.
    rewrite Hlen' in Hp. pose proof (mmr_size_bounds (Z.of_nat (length ls) + 1)).
    unfold node_ok. rewrite (bintree_height_at (Z.of_nat (length ls)) p) by (unfold USIZE_MAX, U64_MAX; lia). intros Hh.
    rewrite length_app in Hlen'. cbn [length] in Hlen'.
    destruct (lookup_lt_is_Some_2 (merges (Leaf h) (build ls)) (Z.to_nat (p - mmr_size (Z.of_nat (length ls)) - 1)))
      as [x Hx]; [lia|].
    destruct (merges_children _ 0 (Leaf h) _ x I (build_wf ls) Hx) as (l & r & -> & Hr & Hl).
    cbn [nodes length app] in Hr, Hl. rewrite Hlen in Hr, Hl. exists l, r. split_and!.
    + rewrite <- Hl. f_equal. f_equal. f_equal; [lia|]. f_equal. lia.
    + rewrite <- Hr. f_equal. f_equal. lia.
    + rewrite lookup_app_r by lia. rewrite lookup_cons_ne_0 by lia. rewrite <- Hx. f_equal. lia.
Qed.

(** Two arrays with the same leaves whose parents are all right are the same. *)
Lemma array_ok_unique v w n :
  0 <= n -> mmr_size n <= USIZE_MAX -> Z.of_nat (length v) = mmr_size n -> length w = length v ->
  array_ok v -> array_ok w ->
  (forall i, 0 <= i < n -> v !! Z.to_nat (mmr_size i) = w !! Z.to_nat (mmr_size i)) -> v = w.
Proof.
  intros Hn Hmax Hv Hw Hokv Hokw Hleaf.
  assert (forall q p : nat, (p < q)%nat -> (p < length v)%nat -> v !! p = w !! p) as Hall.
  { induction q as [|q IH]; intros p Hq Hp; [lia|].
    destruct (position_cases (Z.of_nat p)) as (m & Hm & Hlo & Hhi); [lia|].
    pose proof (bintree_height_at m (Z.of_nat p) Hm ltac:(lia) ltac:(lia)) as Hh.
    destruct (Z.eq_dec (Z.of_nat p) (mmr_size m)) as [He|He].
    - assert (m < n) as Hmn.
      { apply Z.nle_gt. intros Hle. pose proof (mmr_size_mono n m). lia. }
      specialize (Hleaf m ltac:(lia)). rewrite <- He, Nat2Z.id in Hleaf. done.
    - destruct (Hokv (Z.of_nat p) ltac:(lia) ltac:(lia)) as (a & b & Ha & Hb & Hvp).
      destruct (Hokw (Z.of_nat p) ltac:(lia) ltac:(lia)) as (a' & b' & Ha' & Hb' & Hwp).
      pose proof (height_child_nonneg (Z.of_nat p) ltac:(lia) ltac:(lia)) as Hc.
      assert (0 < 2 ^ bintree_height (Z.of_nat p)) by lia.
      rewrite IH in Ha, Hb by lia. rewrite Nat2Z.id in Hvp, Hwp. rewrite Hvp, Hwp. congruence. }
  apply list_eq. intros p. destruct (decide (p < length v)%nat) as [Hlt|Hge].
  - apply (Hall (S p)); [lia|done].
  - rewrite !lookup_ge_None_2 by lia. done.
Qed.

Lemma array_ok_leaves v n :
  0 <= n <= 2 ^ 62 -> Z.of_nat (length v) = mmr_size n -> array_ok v ->
  exists ls, Z.of_nat (length ls) = n /\ v = mmr_array ls.
Proof.
  intros Hn Hv Hok. pose proof (mmr_size_bounds n). assert (mmr_size n <= USIZE_MAX) by (unfold USIZE_MAX, U64_MAX; lia).
  exists (map (fun i => default [] (v !! Z.to_nat (mmr_size (Z.of_nat i)))) (seq 0 (Z.to_nat n))).
  set (ls := map _ _). assert (Z.of_nat (length ls) = n) as Hls.
  { unfold ls. rewrite length_map, length_seq. lia. }
  split; [done|]. pose proof (length_forest_nodes_0 (build ls) (build_wf ls)) as Hlen.
  rewrite value_build, Hls in Hlen. apply (array_ok_unique v (mmr_array ls) n); try done; try (unfold mmr_array; lia).
  - apply mmr_array_ok. lia.
  - intros i Hi. pose proof (get_leaf_hash_array ls i ltac:(lia) ltac:(lia)) as Hg.
    unfold get_leaf_hash in Hg. rewrite node_index_size in Hg by lia. cbn in Hg. injection Hg as ->.
    unfold ls. change (map ?f ?l) with (f <$> l). rewrite list_lookup_fmap, lookup_seq_lt by lia.
    cbn. rewrite Z2Nat.id by lia. pose proof (mmr_size_bounds i). pose proof (mmr_size_strict i n).
    destruct (lookup_lt_is_Some_2 v (Z.to_nat (mmr_size i))) as [x Hx]; [lia|]. by rewrite Hx.
Qed.

(** *** [validate] *)

Lemma foldM_unit_Ok {A} (g : A -> mmr_result unit) l :
  foldM (fun _ n => g n) l () = Ok () <-> Forall (fun n => g n = Ok ()) l.
Proof.
  induction l as [|x l IH]; cbn [foldM]; [by split|]. rewrite Forall_cons, bind_Ok_iff, <- IH.
  split; [by intros [[] ?]|]. intros. by exists ().
Qed.

Lemma validate_node_Ok v p :
  0 <= p < Z.of_nat (length v) -> Z.of_nat (length v) <= USIZE_MAX ->
  validate_node {| hashes := v |} p = Ok () <-> node_ok v p.
Proof.
  intros Hp Hmax. unfold validate_node, node_ok. destruct (Z.ltb_spec 0 (bintree_height p)) as [Hh|Hh]; cycle 1.
  { split; [lia|done]. }
  pose proof (height_child_nonneg p ltac:(lia) Hh) as Hc. rewrite Z.shiftl_1_l.
  assert (0 < 2 ^ bintree_height p) as Hpow by lia.
  destruct (lookup_lt_is_Some_2 v (Z.to_nat p)) as [x Hx]; [lia|].
  destruct (lookup_lt_is_Some_2 v (Z.to_nat (p - 1))) as [r Hr]; [lia|].
  destruct (lookup_lt_is_Some_2 v (Z.to_nat (p - 2 ^ bintree_height p))) as [l Hl]; [lia|].
  unfold get_node_hash. cbn [al_get Vec_ArrayLike hashes]. rewrite Hx. cbn [backend_err map_err mbind result_bind ok_or].
  rewrite !arith_ok by lia. cbn [mbind result_bind].
  rewrite Hl. cbn [backend_err map_err mbind result_bind ok_or]. rewrite Hr.
  cbn [backend_err map_err mbind result_bind ok_or]. case_decide as He.
  - split; [|done]. intros _ _. exists l, r. by rewrite He.
  - split; [done|]. intros Hok. destruct (Hok Hh) as (a & b & Ha & Hb & Hv). destruct He. congruence.
Qed.

Lemma validate_Ok v :
  Z.of_nat (length v) <= USIZE_MAX -> validate {| hashes := v |} = Ok () <-> array_ok v.
Proof.
  intros Hmax. unfold validate, mmr_len. cbn [al_len Vec_ArrayLike hashes backend_err map_err mbind result_bind].
  rewrite foldM_unit_Ok, Forall_forall. unfold array_ok. split.
  - intros Hall p Hp. apply validate_node_Ok; [done|done|]. apply Hall, elem_of_seqZ. lia.
  - intros Hok p Hp%elem_of_seqZ. apply validate_node_Ok; [lia|done|]. apply Hok. lia.
Qed.

(** [validate] accepts a stored array of a valid size exactly when it is the Merkle mountain
    range of some list of leaves: it accepts every range built by pushes, and any change to a
    parent hash is detected. *)
Theorem validate_iff v n :
  0 <= n <= 2 ^ 62 -> Z.of_nat (length v) = mmr_size n ->
  validate {| hashes := v |} = Ok () <->
  exists ls, Z.of_nat (length ls) = n /\ v = forest_nodes (build ls).
Proof.
  intros Hn Hv. pose proof (mmr_size_bounds n ltac:(lia)).
  rewrite validate_Ok by (unfold USIZE_MAX, U64_MAX; lia). split.
  - by apply array_ok_leaves.
  - intros (ls & Hls & ->). apply mmr_array_ok. lia.
Qed.

(** ** The hash of a node *)

(** The leaves under node [m] of level [j]. *)
Definition segment (j : nat) (m : Z) ls : list Hash := take (2 ^ j) (drop (Z.to_nat (2 ^ Z.of_nat j * m)) ls).

Definition node_hash (j : nat) (m : Z) ls : Hash := tree_root j (segment j m ls).

Lemma node_hash_S j m ls :
  0 <= m -> node_hash (S j) m ls = hash_together (node_hash j (2 * m) ls) (node_hash j (2 * m + 1) ls).
Proof.
  intros Hm. unfold node_hash. cbn [tree_root]. unfold segment.
  assert (Z.to_nat (2 ^ Z.of_nat j) = (2 ^ j)%nat) as Hp by (rewrite <- (Nat2Z.id (2 ^ j)), Nat2Z.inj_pow; done).
  assert (0 <= 2 ^ Z.of_nat j * (2 * m)) as Hnn by (pose proof (pow_pos j); lia).
  rewrite pow_S. f_equal; f_equal.
  - rewrite take_take, Nat.pow_succ_r'. replace (2 ^ j `min` (2 * 2 ^ j))%nat with (2 ^ j)%nat by lia. do 2 f_equal. lia.
  - rewrite Z.mul_add_distr_l, Z.mul_1_r, Z2Nat.inj_add, Hp by lia.
    rewrite Nat.pow_succ_r'. replace (2 * 2 ^ j)%nat with (2 ^ j + 2 ^ j)%nat by lia.
    rewrite <- take_drop_commute, drop_drop. do 2 f_equal. lia.
Qed.

(** The array holds the Merkle root of the leaves under a node at the node's position. *)
Lemma node_at j m ls :
  0 <= m -> 2 ^ Z.of_nat j * (m + 1) <= Z.of_nat (length ls) -> Z.of_nat (length ls) <= 2 ^ 62 ->
  mmr_array ls !! Z.to_nat (npos j m) = Some (node_hash j m ls).
Proof.
  intros Hm Hle Hmax. revert m Hm Hle. induction j as [|j IH]; intros m Hm Hle.
  - rewrite npos_leaf. change (2 ^ Z.of_nat 0) with 1 in Hle. unfold mmr_array.
    rewrite forest_lookup_leaf, forest_leaves_build by (rewrite ?value_build; lia || apply build_wf).
    unfold node_hash, segment. change (2 ^ Z.of_nat 0) with 1. rewrite Z.mul_1_l. cbn [Nat.pow tree_root].
    destruct (lookup_lt_is_Some_2 ls (Z.to_nat m)) as [x Hx]; [lia|]. rewrite Hx.
    rewrite (drop_S _ _ _ Hx). done.
  - rewrite pow_S in Hle. assert (2 ^ Z.of_nat j * (2 * m + 1 + 1) <= Z.of_nat (length ls)) as Hle' by lia.
    pose proof (pow_pos j).
    pose proof (npos_lt_size (S j) m (Z.of_nat (length ls)) Hm ltac:(rewrite pow_S; lia)) as Hlt.
    pose proof (length_forest_nodes_0 (build ls) (build_wf ls)) as Hlen. rewrite value_build in Hlen.
    pose proof (npos_nonneg (S j) m Hm). pose proof (mmr_size_bounds (Z.of_nat (length ls))).
    destruct (mmr_array_ok ls Hmax (npos (S j) m)) as (a & b & Ha & Hb & Hv).
    + unfold mmr_array. lia.
    + rewrite bintree_height_npos by (unfold USIZE_MAX, U64_MAX; lia). lia.
    + rewrite bintree_height_npos in Ha by (unfold USIZE_MAX, U64_MAX; lia).
      rewrite Hv, node_hash_S by done. f_equal.
      rewrite (npos_left j m Hm) in Ha. rewrite pow_S in Ha.
      replace (npos j (2 * m) + 2 * 2 ^ Z.of_nat j - 2 * 2 ^ Z.of_nat j) with (npos j (2 * m)) in Ha by lia.
      rewrite IH in Ha by lia. rewrite (npos_parent j m Hm), Z.add_simpl_r, IH in Hb by lia. congruence.
Qed.

End Validate.

(** ** Example *)
Section NodesExample.

#[local] Instance nodes_example_hasher : Hasher := fun b => 7 :: b.

Lemma validate_iff_witness :
  validate {| hashes := mmr_array [[1]; [2]; [3]] |} = Ok ().
Proof.
  apply (validate_iff (mmr_array [[1]; [2]; [3]]) 3).
  - lia.
  - done.
  - by exists [[1]; [2]; [3]].
Defined.

End NodesExample.
