(* ===== verification/MmrProof.v ===== *)
(** * Merkle proofs

    src/base_layer/mmr/src/merkle_proof.rs: [MerkleProof], its construction from a range and its
    verification against a root. *)

From S2P Require Import Prelude MmrCommon Mmr MmrForest MmrSpec MmrNodes.

Local Open Scope Z_scope.

Inductive MerkleProofError :=
| RootMismatch
| NonLeafNode
| ProofHashNotFound (i : Z)
| IncorrectPeakMap
| Unexpected
| ProofMmrError (e : MerkleMountainRangeError).

#[export] Instance MerkleProofError_eq_dec : EqDecision MerkleProofError.
Proof. solve_decision. Defined.

Record MerkleProof := {
  proof_mmr_size : Z;
  proof_path : list Hash;
  proof_peaks : list Hash;
}.

Abbreviation proof_result := (result MerkleProofError).

(** The [?] operator with [#[from] MerkleMountainRangeError]. *)
Definition from_mmr {A} (r : mmr_result A) : proof_result A := map_err ProofMmrError r.

Section Proofs.
Context {H : Hasher} {B : Type} `{ArrayLike Hash B}.

Definition generate_proof (mmr : MerkleMountainRange B) (pos : Z) : proof_result MerkleProof :=
  o ← from_mmr (get_node_hash pos mmr);
  _ ← ok_or o (ProofHashNotFound pos);
  mmr_size ← from_mmr (mmr_len mmr);
  family_branch ← from_mmr (family_branch pos mmr_size);
  path ← mapM (fun '(_, sibling) =>
    o ← from_mmr (get_node_hash sibling mmr); ok_or o (ProofHashNotFound sibling)) family_branch;
  let peak_pos := match last family_branch with Some (parent, _) => parent | None => pos end in
  peaks ← ok_or (find_peaks mmr_size) (ProofMmrError InvalidMmrSize);
  _ ← arith 0 USIZE_MAX (Z.of_nat (length peaks) - 1);
  peak_hashes ← foldM (fun peak_hashes peak_index =>
    if peak_index =? peak_pos then Ok peak_hashes
    else
      o ← from_mmr (get_node_hash peak_index mmr);
      hash ← ok_or o (ProofHashNotFound peak_index);
      Ok (peak_hashes ++ [hash])) peaks [];
  Ok {| proof_mmr_size := mmr_size; proof_path := path; proof_peaks := peak_hashes |}.

Definition for_leaf_node (mmr : MerkleMountainRange B) (leaf_index : Z) : proof_result MerkleProof :=
  pos ← from_mmr (node_index leaf_index); generate_proof mmr pos.

Definition for_node (mmr : MerkleMountainRange B) (pos : Z) : proof_result MerkleProof :=
  if negb (is_leaf pos) then Err NonLeafNode else generate_proof mmr pos.

(** The fold of [check_root]: the hasher and the iterator over the proof's peaks. *)
Definition check_root_step (hash : Hash) (pos : Z) (s : list Z * list Hash) (i : Z)
    : proof_result (list Z * list Hash) :=
  let '(hasher, peak_hashes) := s in
  if i =? pos then Ok (hasher ++ hash, peak_hashes)
  else
    match peak_hashes with
    | h :: peak_hashes => Ok (hasher ++ h, peak_hashes)
    | [] => Panic
    end.

Definition check_root (self_peaks : list Hash) (hash : Hash) (pos : Z) (peaks : list Z) : proof_result Hash :=
  if negb (length peaks =? length self_peaks + 1)%nat then Err IncorrectPeakMap
  else
    '(hasher, _) ← foldM (check_root_step hash pos) peaks ([], self_peaks);
    Ok (digest hasher).

(** The recursion consumes [self.path] from the front; the other fields do not change. *)
Fixpoint verify_consume (self_mmr_size : Z) (self_peaks path : list Hash) (root hash : Hash) (pos : Z)
    (peaks : list Z) : proof_result unit :=
  match path with
  | [] =>
      calculated_root ← check_root self_peaks hash pos peaks;
      if decide (root = calculated_root) then Ok () else Err RootMismatch
  | sibling :: path =>
      '(parent_pos, sibling_pos) ← from_mmr (family pos);
      if self_mmr_size <? parent_pos then Err Unexpected
      else
        let parent :=
          if is_left_sibling sibling_pos then hash_together sibling hash else hash_together hash sibling in
        verify_consume self_mmr_size self_peaks path root parent parent_pos peaks
  end.

Definition verify (self : MerkleProof) (root hash : Hash) (pos : Z) : proof_result unit :=
  peaks ← ok_or (find_peaks (proof_mmr_size self)) (ProofMmrError InvalidMmrSize);
  verify_consume (proof_mmr_size self) (proof_peaks self) (proof_path self) root hash pos peaks.

Definition verify_leaf (self : MerkleProof) (root hash : Hash) (leaf_index : Z) : proof_result unit :=
  pos ← from_mmr (node_index leaf_index); verify self root hash pos.

End Proofs.

(** ** Peaks by level and index *)

(** The peaks over [n < 2^k] leaves that start at leaf [base]. *)
Fixpoint peak_nodes (k : nat) (n base : Z) : list (nat * Z) :=
  match k with
  | O => []
  | S k =>
      if 2 ^ Z.of_nat k <=? n
      then (k, base / 2 ^ Z.of_nat k) :: peak_nodes k (n - 2 ^ Z.of_nat k) (base + 2 ^ Z.of_nat k)
      else peak_nodes k n base
  end.

Definition peak_pos (jm : nat * Z) : Z := npos jm.1 jm.2.

Lemma peak_positions_nodes k n b :
  0 <= n < 2 ^ Z.of_nat k -> 0 <= b ->
  peak_positions k n (mmr_size (2 ^ Z.of_nat k * b)) = map peak_pos (peak_nodes k n (2 ^ Z.of_nat k * b)).
Proof.
  revert n b. induction k as [|k IH]; intros n b Hn Hb; [done|]. cbn [peak_positions peak_nodes].
  pose proof (pow_pos k). rewrite pow_S in *.
  assert (2 * 2 ^ Z.of_nat k * b = 2 ^ Z.of_nat k * (2 * b)) as Hb2 by lia. rewrite Hb2.
  destruct (Z.leb_spec (2 ^ Z.of_nat k) n) as [Hge|Hlt]; [|apply IH; lia].
  cbn [map]. rewrite (Z.mul_comm _ (2 * b)), Z.div_mul, Z.mul_comm by lia. f_equal.
  - replace (2 ^ Z.of_nat k * (2 * b) + 2 ^ Z.of_nat k) with (2 ^ Z.of_nat k * (2 * b + 1)) by lia.
    rewrite <- IH by lia. f_equal.
    rewrite !mmr_size_mul_pow, count_ones_double, count_ones_double_1 by done.
    unfold peak_sz. rewrite pow_S. lia.
Qed.

Lemma find_peaks_nodes n :
  0 <= n -> mmr_size n <= USIZE_MAX ->
  find_peaks (mmr_size n) = Some (map peak_pos (peak_nodes (Z.to_nat (Z.log2 n + 1)) n 0)).
Proof.
  intros Hn Hmax. pose proof (mmr_size_lt_succ n Hn).
  assert (n < 2 ^ Z.of_nat (Z.to_nat (Z.log2 n + 1))) as Hk.
  { pose proof (Z.log2_nonneg n). rewrite Z2Nat.id by lia.
    destruct (Z.eq_dec n 0) as [->|]; [done|]. pose proof (Z.log2_spec n). lia. }
  rewrite (find_peaks_at n (mmr_size n) Hn ltac:(lia) (Z.to_nat (Z.log2 n + 1))) by done.
  rewrite Z.eqb_refl. f_equal. rewrite <- mmr_size_0, <- (Z.mul_0_r (2 ^ Z.of_nat (Z.to_nat (Z.log2 n + 1)))) at 1.
  rewrite peak_positions_nodes by lia. by rewrite Z.mul_0_r.
Qed.

(** What a peak is: a complete node whose parent is not complete. *)
Definition is_peak (n : Z) (jm : nat * Z) : Prop :=
  let '(j, m) := jm in
  0 <= m /\ Z.even m = true /\ 2 ^ Z.of_nat j * (m + 1) <= n < 2 ^ Z.of_nat j * (m + 2).

Lemma peak_nodes_are_peaks k n b :
  0 <= n < 2 ^ Z.of_nat k -> 0 <= b ->
  Forall (is_peak (2 ^ Z.of_nat k * b + n)) (peak_nodes k n (2 ^ Z.of_nat k * b)).
Proof.
  revert n b. induction k as [|k IH]; intros n b Hn Hb; [constructor|]. cbn [peak_nodes].
  pose proof (pow_pos k). rewrite pow_S in *.
  assert (2 * 2 ^ Z.of_nat k * b = 2 ^ Z.of_nat k * (2 * b)) as Hb2 by lia. rewrite Hb2.
  destruct (Z.leb_spec (2 ^ Z.of_nat k) n) as [Hge|Hlt].
  - constructor.
    + rewrite (Z.mul_comm _ (2 * b)), Z.div_mul, Z.mul_comm by lia. unfold is_peak.
      rewrite Z.even_mul. cbn [Z.even orb]. split_and!; [lia|done|lia|lia].
    + specialize (IH (n - 2 ^ Z.of_nat k) (2 * b + 1) ltac:(lia) ltac:(lia)).
      replace (2 ^ Z.of_nat k * (2 * b + 1)) with (2 ^ Z.of_nat k * (2 * b) + 2 ^ Z.of_nat k) in IH by lia.
      by replace (2 ^ Z.of_nat k * (2 * b) + 2 ^ Z.of_nat k + (n - 2 ^ Z.of_nat k))
        with (2 ^ Z.of_nat k * (2 * b) + n) in IH by lia.
  - apply IH; lia.
Qed.

(** Every leaf is under a peak. *)
Lemma peak_nodes_cover k n b i :
  0 <= n < 2 ^ Z.of_nat k -> 0 <= b -> 2 ^ Z.of_nat k * b <= i < 2 ^ Z.of_nat k * b + n ->
  exists j, (j, i / 2 ^ Z.of_nat j) ∈ peak_nodes k n (2 ^ Z.of_nat k * b).
Proof.
  revert n b. induction k as [|k IH]; intros n b Hn Hb Hi; [change (2 ^ Z.of_nat 0) with 1 in *; lia|].
  cbn [peak_nodes]. pose proof (pow_pos k). rewrite pow_S in *.
  assert (2 * 2 ^ Z.of_nat k * b = 2 ^ Z.of_nat k * (2 * b)) as Hb2 by lia. rewrite Hb2 in *.
  destruct (Z.leb_spec (2 ^ Z.of_nat k) n) as [Hge|Hlt]; [|apply IH; lia].
  destruct (Z.lt_ge_cases i (2 ^ Z.of_nat k * (2 * b) + 2 ^ Z.of_nat k)) as [Hin|Hout].
  - exists k. replace (i / 2 ^ Z.of_nat k) with (2 ^ Z.of_nat k * (2 * b) / 2 ^ Z.of_nat k); [left|].
    rewrite (Z.mul_comm _ (2 * b)), Z.div_mul by lia.
    apply Z.div_unique_pos with (r := i - 2 ^ Z.of_nat k * (2 * b)); lia.
  - destruct (IH (n - 2 ^ Z.of_nat k) (2 * b + 1)) as [j Hj]; [lia..|]. exists j. right.
    by replace (2 ^ Z.of_nat k * (2 * b) + 2 ^ Z.of_nat k) with (2 ^ Z.of_nat k * (2 * b + 1)) by lia.
Qed.
