(* ===== verification/MmrProofSpec.v ===== *)
(** * Merkle proofs are complete and sound

    A proof generated for a leaf of a range verifies against the range's root; a proof that
    verifies for a leaf index shows the leaf's hash, as long as the hash function has no
    collision between what the verifier hashes and what the range hashed. *)

From S2P Require Import Prelude CryptoModel MmrCommon Mmr MmrForest MmrSpec MmrNodes MmrProof.

Local Open Scope Z_scope.

(** ** The path of a leaf *)

Lemma npos_even j m :
  0 <= m -> Z.even m = true ->
  npos (S j) (m / 2) = npos j m + 2 * 2 ^ Z.of_nat j /\ npos j (m + 1) = npos (S j) (m / 2) - 1.
Proof.
  intros Hm He. assert (0 <= m / 2) as Hh by (apply Z.div_pos; lia). pose proof (half_even m He) as Hm2.
  pose proof (npos_left j _ Hh) as Hl. pose proof (npos_parent j _ Hh) as Hr. rewrite <- Hm2 in Hl, Hr. lia.
Qed.

Lemma npos_odd j m :
  0 <= m -> Z.even m = false ->
  npos (S j) (m / 2) = npos j m + 1 /\ npos j (m - 1) = npos (S j) (m / 2) - 2 * 2 ^ Z.of_nat j.
Proof.
  intros Hm He. assert (0 <= m / 2) as Hh by (apply Z.div_pos; lia). pose proof (half_odd m He) as Hm2.
  pose proof (npos_left j _ Hh) as Hl. pose proof (npos_parent j _ Hh) as Hr. rewrite <- Hm2 in Hr.
  replace (2 * (m / 2)) with (m - 1) in Hl by lia. lia.
Qed.

Lemma npos_parent_le j m : 0 <= m -> npos j m < npos (S j) (m / 2) <= npos j m + 2 * 2 ^ Z.of_nat j.
Proof.
  intros Hm. pose proof (pow_pos j).
  destruct (Z.even m) eqn:He; [destruct (npos_even j m Hm He)|destruct (npos_odd j m Hm He)]; lia.
Qed.

Lemma div_pow_S i j : i / 2 ^ Z.of_nat (S j) = i / 2 ^ Z.of_nat j / 2.
Proof. rewrite pow_S, Z.mul_comm. pose proof (pow_pos j). by rewrite Z.div_div by lia. Qed.

Lemma sibling_nonneg m : 0 <= m -> 0 <= sibling_index m.
Proof.
  intros Hm. unfold sibling_index. destruct (Z.even m) eqn:He; [lia|]. pose proof (half_odd m He).
  assert (0 <= m / 2) by (apply Z.div_pos; lia). lia.
Qed.

Lemma sibling_bound m : 0 <= m -> sibling_index m + 1 <= 2 * (m / 2 + 1).
Proof.
  intros Hm. unfold sibling_index. destruct (Z.even m) eqn:He;
    [pose proof (half_even m He)|pose proof (half_odd m He)]; lia.
Qed.

Lemma ancestor_nonneg i j : 0 <= i -> 0 <= i / 2 ^ Z.of_nat j.
Proof. intros Hi. pose proof (pow_pos j). apply Z.div_pos; lia. Qed.

Section LeafPath.
Context (n i : Z) (J : nat) (Hi : 0 <= i) (Hpeak : is_peak n (J, i / 2 ^ Z.of_nat J)) (Hmax : n <= 2 ^ 62).

(** The ancestors of the leaf up to its peak are complete. *)
Lemma ancestor_complete j : (j <= J)%nat -> 2 ^ Z.of_nat j * (i / 2 ^ Z.of_nat j + 1) <= n.
Proof.
  intros Hj. destruct Hpeak as (_ & _ & Hle & _). pose proof (pow_pos j). pose proof (pow_pos J).
  assert (2 ^ Z.of_nat J = 2 ^ Z.of_nat j * 2 ^ Z.of_nat (J - j)) as Hp.
  { rewrite <- Z.pow_add_r by lia. f_equal. lia. }
  assert (i < 2 ^ Z.of_nat J * (i / 2 ^ Z.of_nat J + 1)) as Hlt.
  { pose proof (Z.mul_succ_div_gt i (2 ^ Z.of_nat J)). lia. }
  assert (i / 2 ^ Z.of_nat j < 2 ^ Z.of_nat (J - j) * (i / 2 ^ Z.of_nat J + 1)) as Hd.
  { apply Z.div_lt_upper_bound; lia. }
  etrans; [|exact Hle]. remember (i / 2 ^ Z.of_nat J) as M. rewrite Hp, <- Z.mul_assoc.
  apply Z.mul_le_mono_nonneg_l; lia.
Qed.

Lemma peak_parent_outside : mmr_size n < npos (S J) (i / 2 ^ Z.of_nat J / 2).
Proof.
  destruct Hpeak as (Hm & He & Hle & Hlt). pose proof (pow_pos J).
  set (m := i / 2 ^ Z.of_nat J) in *. pose proof (half_even m He) as Hm2.
  rewrite npos_last_leaf by lia. rewrite pow_S.
  replace (2 * 2 ^ Z.of_nat J * (m / 2) + (2 * 2 ^ Z.of_nat J - 1)) with (2 ^ Z.of_nat J * (m + 2) - 1) by lia.
  pose proof (mmr_size_mono n (2 ^ Z.of_nat J * (m + 2) - 1)). lia.
Qed.

Definition branch_entry (j : nat) : Z * Z :=
  (npos (S j) (i / 2 ^ Z.of_nat (S j)), npos j (sibling_index (i / 2 ^ Z.of_nat j))).

(** One step of the loop from an ancestor of the leaf: its parent and its sibling. *)
Lemma family_branch_step (j fuel : nat) branch :
  (j <= J)%nat ->
  family_branch_loop (S fuel) i (mmr_size n) (npos j (i / 2 ^ Z.of_nat j)) (2 ^ Z.of_nat j) branch =
    if mmr_size n <? npos (S j) (i / 2 ^ Z.of_nat (S j)) then Ok branch
    else family_branch_loop fuel i (mmr_size n) (npos (S j) (i / 2 ^ Z.of_nat (S j))) (2 ^ Z.of_nat (S j))
           (branch ++ [branch_entry j]).
Proof.
  intros Hj. unfold branch_entry. pose proof (ancestor_nonneg i j Hi) as Hm. pose proof (ancestor_complete j Hj) as Hc.
  pose proof (pow_pos j). rewrite div_pow_S in *. set (m := i / 2 ^ Z.of_nat j) in *.
  assert (2 ^ Z.of_nat j <= n) as Hpn by lia.
  pose proof (npos_lt_size j m n Hm Hc) as Hlt. pose proof (mmr_size_bounds n ltac:(lia)).
  pose proof (npos_nonneg j m Hm). pose proof (npos_parent_le j m Hm).
  cbn [family_branch_loop]. rewrite (proj2 (Z.ltb_lt _ _)) by done.
  rewrite land_pow2, Z.negb_odd, Z.shiftr_div_pow2 by lia. fold m.
  assert (shl1 (2 ^ Z.of_nat j) = 2 ^ Z.of_nat (S j)) as ->.
  { rewrite shl1_small, pow_S; lia. }
  unfold sibling_index. unfold USIZE_MAX, U64_MAX. destruct (Z.even m) eqn:He.
  - destruct (npos_even j m Hm He) as [Hp Hs]. rewrite (arith_ok _ _ (2 * _)) by lia. cbn [mbind result_bind].
    rewrite arith_ok by lia. cbn [mbind result_bind]. rewrite arith_ok by lia. cbn [mbind result_bind].
    by rewrite <- Hp, Hs.
  - destruct (npos_odd j m Hm He) as [Hp Hs]. pose proof (sibling_nonneg m Hm) as Hsn. unfold sibling_index in Hsn.
    rewrite He in Hsn. pose proof (npos_nonneg j (m - 1) Hsn).
    rewrite (arith_ok _ _ (_ + 1)) by lia. cbn [mbind result_bind].
    rewrite arith_ok by lia. cbn [mbind result_bind]. rewrite arith_ok by lia. cbn [mbind result_bind].
    by rewrite <- Hp, Hs.
Qed.

Lemma family_branch_loop_spec d (j fuel : nat) branch :
  (j + d = J)%nat -> (d < fuel)%nat ->
  family_branch_loop fuel i (mmr_size n) (npos j (i / 2 ^ Z.of_nat j)) (2 ^ Z.of_nat j) branch =
    Ok (branch ++ map branch_entry (seq j d)).
Proof.
  revert j fuel branch. induction d as [|d IH]; intros j fuel branch Hj Hf; (destruct fuel as [|fuel]; [lia|]);
    rewrite family_branch_step by lia.
  - replace j with J by lia. rewrite div_pow_S, (proj2 (Z.ltb_lt _ _)) by apply peak_parent_outside.
    by rewrite app_nil_r.
  - pose proof (ancestor_complete (S j) ltac:(lia)). pose proof (ancestor_nonneg i (S j) Hi).
    pose proof (npos_lt_size (S j) _ n ltac:(done) ltac:(done)).
    rewrite (proj2 (Z.ltb_ge _ _)) by lia. rewrite IH by lia. cbn [seq map]. by rewrite <- app_assoc.
Qed.

Lemma family_branch_leaf :
  family_branch (mmr_size i) (mmr_size n) = Ok (map branch_entry (seq 0 J)).
Proof.
  pose proof (mmr_size_lt_succ i Hi). pose proof (ancestor_complete 0 ltac:(lia)) as Hn.
  change (2 ^ Z.of_nat 0) with 1 in Hn. rewrite Z.div_1_r in Hn. pose proof (mmr_size_bounds i Hi).
  unfold family_branch. rewrite (peak_map_height_at i) by (unfold USIZE_MAX, U64_MAX; lia).
  rewrite Z.sub_diag, Z.shiftl_0_r.
  assert (J < 64)%nat as HJ.
  { destruct Hpeak as (Hm & _ & Hle & _). pose proof (pow_pos J). apply Nat.nle_gt. intros H64.
    assert (2 ^ 64 <= 2 ^ Z.of_nat J) by (apply Z.pow_le_mono_r; lia). lia. }
  pose proof (family_branch_loop_spec J 0 64 [] ltac:(lia) HJ) as Hl.
  change (2 ^ Z.of_nat 0) with 1 in Hl. by rewrite Z.div_1_r, npos_leaf in Hl.
Qed.

End LeafPath.

(** ** Walking up from a node *)
Section Climb.
Context {H : Hasher}.
Implicit Types (ls path hs : list Hash) (h root : Hash).

(** The bytes hashed at each level, from node [m] with hash [h] along the siblings. *)
Definition parent_input (m : Z) h (s : Hash) : list Z := if Z.even m then h ++ s else s ++ h.

Fixpoint climb (m : Z) path h : Hash :=
  match path with
  | [] => h
  | s :: path => climb (m / 2) path (digest (parent_input m h s))
  end.

Fixpoint climb_inputs (m : Z) path h : list (list Z) :=
  match path with
  | [] => []
  | s :: path => parent_input m h s :: climb_inputs (m / 2) path (digest (parent_input m h s))
  end.

(** The position reached after climbing [len] levels. *)
Lemma even_sibling m : Z.even (sibling_index m) = negb (Z.even m).
Proof.
  unfold sibling_index. destruct (Z.even m) eqn:He; rewrite ?Z.even_add, ?Z.even_sub, He; done.
Qed.

Lemma div_pow_climb m len : m / 2 / 2 ^ Z.of_nat len = m / 2 ^ Z.of_nat (S len).
Proof. rewrite pow_S. pose proof (pow_pos len). by rewrite Z.div_div by lia. Qed.

(** One step of [verify_consume] at a node of a level below 31. *)
Lemma verify_consume_step size pks s path root h j m ps :
  (j <= 30)%nat -> 0 <= m -> npos j m <= 2 ^ 63 ->
  verify_consume size pks (s :: path) root h (npos j m) ps =
    if size <? npos (S j) (m / 2) then Err Unexpected
    else verify_consume size pks path root (digest (parent_input m h s)) (npos (S j) (m / 2)) ps.
Proof.
  intros Hj Hm Hp. pose proof (npos_parent_le j m Hm).
  assert (2 ^ Z.of_nat j <= 2 ^ 30) by (apply Z.pow_le_mono_r; lia).
  cbn [verify_consume]. rewrite family_npos by (unfold USIZE_MAX, U64_MAX; lia || done). cbn [from_mmr map_err mbind result_bind].
  assert (npos j (sibling_index m) <= USIZE_MAX) as Hs.
  { unfold sibling_index, USIZE_MAX, U64_MAX. destruct (Z.even m) eqn:He;
      [destruct (npos_even j m Hm He)|destruct (npos_odd j m Hm He)]; lia. }
  destruct (size <? npos (S j) (m / 2)); [done|].
  rewrite is_left_sibling_npos, even_sibling by (done || by apply sibling_nonneg).
  unfold parent_input, hash_together. by destruct (Z.even m).
Qed.

(** ** The peaks *)

Lemma check_root_step_other h pos acc hs p :
  pos <> p ->
  check_root_step h pos (acc, hs) p = match hs with x :: hs => Ok (acc ++ x, hs) | [] => Panic end.
Proof. intros Hp. unfold check_root_step. by rewrite (proj2 (Z.eqb_neq _ _)). Qed.

Lemma check_root_step_at h pos acc hs : check_root_step h pos (acc, hs) pos = Ok (acc ++ h, hs).
Proof. unfold check_root_step. by rewrite Z.eqb_refl. Qed.

(** The fold of [check_root] over positions without the candidate's. *)
Lemma check_root_fold_other h pos ps acc hs :
  pos ∉ ps ->
  foldM (check_root_step h pos) ps (acc, hs) =
    if decide (length ps <= length hs)%nat
    then Ok (acc ++ concat (take (length ps) hs), drop (length ps) hs) else Panic.
Proof.
  revert acc hs. induction ps as [|p ps IH]; intros acc hs Hn; cbn [foldM length].
  { by rewrite take_0, drop_0, app_nil_r. }
  apply not_elem_of_cons in Hn as [Hp Hn]. rewrite check_root_step_other by done.
  destruct hs as [|x hs]; [done|]. cbn [mbind result_bind]. rewrite IH by done. cbn [length take drop concat].
  repeat case_decide; try lia; [|done]. by rewrite <- app_assoc.
Qed.

(** With the candidate at a peak position, its hash is inserted there. *)
Lemma check_root_fold_at h p1 pos p2 (h1 h2 : list Hash) :
  pos ∉ p1 -> pos ∉ p2 -> length h1 = length p1 -> length h2 = length p2 ->
  foldM (check_root_step h pos) (p1 ++ pos :: p2) ([], h1 ++ h2) = Ok (concat (h1 ++ h :: h2), []).
Proof.
  intros Hp1 Hp2 Hl1 Hl2. rewrite foldM_app, check_root_fold_other by done.
  rewrite decide_True by (rewrite length_app; lia). cbn [mbind result_bind app foldM].
  rewrite check_root_step_at. cbn [mbind result_bind].
  rewrite <- Hl1, take_app_length, drop_app_length, check_root_fold_other by done.
  rewrite decide_True by lia. rewrite <- Hl2, take_ge, drop_ge by lia.
  rewrite !concat_app. cbn [concat]. by rewrite <- app_assoc.
Qed.

Lemma check_root_at h pks p1 pos p2 (h1 h2 : list Hash) :
  NoDup (p1 ++ pos :: p2) -> pks = h1 ++ h2 -> length h1 = length p1 -> length h2 = length p2 ->
  check_root pks h pos (p1 ++ pos :: p2) = Ok (digest (concat (h1 ++ h :: h2))).
Proof.
  intros Hnd -> Hl1 Hl2. unfold check_root. rewrite !length_app. cbn [length].
  rewrite (proj2 (Nat.eqb_eq _ _)) by lia. cbn [negb].
  apply NoDup_app in Hnd as (_ & Hd & [Hn _]%NoDup_cons).
  rewrite check_root_fold_at; [done| |done..]. intros Hin. apply (Hd pos Hin). left.
Qed.

(** A successful [check_root] has the candidate at one of the peak positions. *)
Lemma check_root_Ok pks h pos ps r :
  NoDup ps -> check_root pks h pos ps = Ok r ->
  exists p1 p2 (h1 h2 : list Hash), ps = p1 ++ pos :: p2 /\ pks = h1 ++ h2 /\ length h1 = length p1 /\ length h2 = length p2 /\
    r = digest (concat (h1 ++ h :: h2)).
Proof.
  intros Hnd Hr. assert (length ps = length pks + 1)%nat as Hlen.
  { unfold check_root in Hr. destruct (length ps =? length pks + 1)%nat eqn:Hl; [by apply Nat.eqb_eq|done]. }
  destruct (decide (pos ∈ ps)) as [(p1 & p2 & ->)%list_elem_of_split|Hn].
  - rewrite length_app in Hlen. cbn [length] in Hlen.
    exists p1, p2, (take (length p1) pks), (drop (length p1) pks).
    rewrite take_drop, length_take, length_drop. split_and!; [done|done|lia|lia|].
    rewrite (check_root_at h pks p1 pos p2 (take (length p1) pks) (drop (length p1) pks)) in Hr;
      rewrite ?take_drop, ?length_take, ?length_drop; try done; try lia. by injection Hr as <-.
  - unfold check_root in Hr. rewrite (proj2 (Nat.eqb_eq _ _)) in Hr by lia. cbn [negb] in Hr.
    rewrite check_root_fold_other, decide_False in Hr by (done || lia). done.
Qed.

End Climb.

(** ** Completeness *)
Section Complete.
Context {H : Hasher} (ls : list Hash).
Let n : Z := Z.of_nat (length ls).
Context (Hn : n < 2 ^ 31).

Definition peaks_of_size (n : Z) : list (nat * Z) := peak_nodes (Z.to_nat (Z.log2 n + 1)) n 0.

Definition peak_hash (jm : nat * Z) : Hash := node_hash jm.1 jm.2 ls.

Lemma n_nonneg : 0 <= n.
Proof. unfold n. lia. Qed.

Lemma size_small : mmr_size n <= 2 ^ 32.
Proof. pose proof (mmr_size_bounds n n_nonneg). lia. Qed.

Lemma log_bound : n < 2 ^ Z.of_nat (Z.to_nat (Z.log2 n + 1)).
Proof.
  pose proof (Z.log2_nonneg n). pose proof n_nonneg. rewrite Z2Nat.id by lia.
  destruct (Z.eq_dec n 0) as [->|]; [done|]. pose proof (Z.log2_spec n). lia.
Qed.

Lemma peaks_are_peaks : Forall (is_peak n) (peaks_of_size n).
Proof.
  pose proof log_bound. pose proof n_nonneg.
  pose proof (peak_nodes_are_peaks (Z.to_nat (Z.log2 n + 1)) n 0 ltac:(lia) ltac:(lia)) as Hp.
  rewrite Z.mul_0_r, Z.add_0_l in Hp. done.
Qed.

Lemma peaks_cover i : 0 <= i < n -> exists j, (j, i / 2 ^ Z.of_nat j) ∈ peaks_of_size n.
Proof.
  intros Hi. pose proof log_bound. pose proof n_nonneg.
  destruct (peak_nodes_cover (Z.to_nat (Z.log2 n + 1)) n 0 i) as [j Hj]; [lia|lia|lia|].
  rewrite Z.mul_0_r in Hj. by exists j.
Qed.

Lemma find_peaks_size : find_peaks (mmr_size n) = Some (map peak_pos (peaks_of_size n)).
Proof.
  pose proof size_small. apply find_peaks_nodes; [apply n_nonneg|unfold USIZE_MAX, U64_MAX; lia].
Qed.

Lemma peak_positions_array : map peak_pos (peaks_of_size n) = forest_positions 0 (build ls) 0.
Proof.
  pose proof (find_peaks_forest (build ls) (build_wf ls)) as Hf. rewrite value_build in Hf. fold n in Hf.
  pose proof size_small. rewrite find_peaks_size in Hf. injection (Hf ltac:(unfold USIZE_MAX, U64_MAX; lia)) as ->. done.
Qed.

Lemma peak_positions_NoDup : NoDup (map peak_pos (peaks_of_size n)).
Proof. rewrite peak_positions_array. apply forest_positions_NoDup. Qed.

(** The peaks of the range are the hashes of the peak nodes. *)
Lemma peaks_array : forest_peaks (build ls) = map peak_hash (peaks_of_size n).
Proof.
  pose proof (mmr_array_represents ls) as (_ & _ & Hp). rewrite <- peak_positions_array in Hp.
  pose proof peaks_are_peaks as Hk. revert Hp Hk.
  generalize (forest_peaks (build ls)) as hs. induction (peaks_of_size n) as [|[j m] qs IH]; intros hs Hp Hk.
  { by inversion Hp. }
  apply Forall_cons in Hk as [(Hm & _ & Hle & _) Hk]. cbn [map] in *.
  apply Forall2_cons_inv_l in Hp as (h & hs' & [_ Hh] & Hp & ->). rewrite (IH hs') by done. f_equal.
  cbn in Hh. unfold peak_pos in Hh. cbn [fst snd] in Hh.
  rewrite node_at in Hh by (done || (fold n; lia)). by injection Hh as <-.
Qed.

Lemma parent_input_node j m :
  0 <= m ->
  digest (parent_input m (node_hash j m ls) (node_hash j (sibling_index m) ls)) = node_hash (S j) (m / 2) ls.
Proof.
  intros Hm. assert (0 <= m / 2) by (apply Z.div_pos; lia). rewrite node_hash_S by done.
  unfold parent_input, sibling_index, hash_together. destruct (Z.even m) eqn:He.
  - pose proof (half_even m He) as Hm2. by rewrite <- Hm2.
  - pose proof (half_odd m He) as Hm2. replace (2 * (m / 2)) with (m - 1) by lia. by replace (m - 1 + 1) with m by lia.
Qed.

Lemma get_node_array j m :
  0 <= m -> 2 ^ Z.of_nat j * (m + 1) <= n ->
  get_node_hash (npos j m) {| hashes := mmr_array ls |} = Ok (Some (node_hash j m ls)).
Proof.
  intros Hm Hle. unfold get_node_hash. cbn. by rewrite node_at by (done || (fold n; lia)).
Qed.

Section Leaf.
Context (i : Z) (J : nat) (Hi : 0 <= i < n) (HJ : (J, i / 2 ^ Z.of_nat J) ∈ peaks_of_size n).

Lemma leaf_peak : is_peak n (J, i / 2 ^ Z.of_nat J).
Proof. pose proof peaks_are_peaks as Hp. rewrite Forall_forall in Hp. by apply Hp. Qed.

Definition leaf_path (j d : nat) : list Hash :=
  map (fun j => node_hash j (sibling_index (i / 2 ^ Z.of_nat j)) ls) (seq j d).

Lemma level_small j : (j <= J)%nat -> (j <= 30)%nat.
Proof.
  intros Hj. pose proof (ancestor_complete n i J leaf_peak j Hj) as Hc.
  pose proof (ancestor_nonneg i j ltac:(lia)) as Hm. pose proof (pow_pos j).
  apply Nat.nlt_ge. intros H31. assert (2 ^ 31 <= 2 ^ Z.of_nat j) by (apply Z.pow_le_mono_r; lia). lia.
Qed.

(** Verifying along the leaf's own siblings reaches the hash of its peak. *)
Lemma verify_consume_leaf_path pks root ps d j :
  (j + d = J)%nat ->
  verify_consume (mmr_size n) pks (leaf_path j d) root (node_hash j (i / 2 ^ Z.of_nat j) ls)
    (npos j (i / 2 ^ Z.of_nat j)) ps =
  verify_consume (mmr_size n) pks [] root (node_hash J (i / 2 ^ Z.of_nat J) ls)
    (npos J (i / 2 ^ Z.of_nat J)) ps.
Proof.
  revert j. induction d as [|d IH]; intros j Hj; [by replace j with J by lia|].
  unfold leaf_path. cbn [seq map]. fold (leaf_path (S j) d).
  pose proof (ancestor_nonneg i j ltac:(lia)) as Hm.
  pose proof (ancestor_complete n i J leaf_peak j ltac:(lia)) as Hc.
  pose proof (npos_lt_size j _ n Hm Hc). pose proof size_small.
  rewrite verify_consume_step by (lia || (apply level_small; lia)).
  rewrite parent_input_node, <- div_pow_S by done.
  pose proof (ancestor_complete n i J leaf_peak (S j) ltac:(lia)) as Hc'.
  pose proof (npos_lt_size (S j) _ n (ancestor_nonneg i (S j) ltac:(lia)) Hc').
  rewrite (proj2 (Z.ltb_ge _ _)) by lia. apply IH. lia.
Qed.

(** The siblings on the path are stored. *)
Lemma generate_path :
  mapM (fun '(_, sibling) =>
    o ← from_mmr (get_node_hash sibling {| hashes := mmr_array ls |}); ok_or o (ProofHashNotFound sibling))
    (map (branch_entry i) (seq 0 J)) = Ok (leaf_path 0 J).
Proof.
  apply mapM_Ok_Forall2, Forall2_fmap, Forall_Forall2_diag, Forall_forall.
  intros j Hj%elem_of_seq. cbn [branch_entry]. pose proof (ancestor_nonneg i j ltac:(lia)) as Hm.
  pose proof (ancestor_complete n i J leaf_peak (S j) ltac:(lia)) as Hc.
  rewrite div_pow_S, pow_S in Hc. pose proof (sibling_bound _ Hm). pose proof (sibling_nonneg _ Hm).
  pose proof (pow_pos j). unfold branch_entry.
  rewrite get_node_array; [done|done|].
  etrans; [apply Z.mul_le_mono_nonneg_l; [lia|done]|]. lia.
Qed.

Lemma generate_peak_pos :
  match last (map (branch_entry i) (seq 0 J)) with Some (parent, _) => parent | None => mmr_size i end =
    npos J (i / 2 ^ Z.of_nat J).
Proof.
  destruct J as [|J']; [cbn; by rewrite Z.div_1_r, npos_leaf|]. rewrite seq_S, map_app.
  cbn [map]. by rewrite last_snoc.
Qed.

End Leaf.

Lemma generate_peaks_other pp qs acc :
  pp ∉ map peak_pos qs -> Forall (is_peak n) qs ->
  foldM (fun peak_hashes peak_index =>
    if peak_index =? pp then Ok peak_hashes
    else
      o ← from_mmr (get_node_hash peak_index {| hashes := mmr_array ls |});
      hash ← ok_or o (ProofHashNotFound peak_index);
      Ok (peak_hashes ++ [hash])) (map peak_pos qs) acc = Ok (acc ++ map peak_hash qs).
Proof.
  revert acc. induction qs as [|[j m] qs IH]; intros acc Hn' Hk; cbn [map foldM]; [by rewrite app_nil_r|].
  apply not_elem_of_cons in Hn' as [Hne Hn']. apply Forall_cons in Hk as [(Hm & _ & Hle & _) Hk].
  rewrite (proj2 (Z.eqb_neq _ _)) by done. change (peak_pos (j, m)) with (npos j m).
  rewrite get_node_array by done. cbn [from_mmr map_err mbind result_bind ok_or].
  rewrite IH by done. by rewrite <- app_assoc.
Qed.

Lemma peaks_short : Z.of_nat (length (peaks_of_size n)) <= 64.
Proof.
  assert (forall k a b, (length (peak_nodes k a b) <= k)%nat) as Hl.
  { induction k as [|k IH]; intros a b; cbn [peak_nodes]; [done|]. case_match; cbn [length];
      [specialize (IH (a - 2 ^ Z.of_nat k) (b + 2 ^ Z.of_nat k))|specialize (IH a b)]; lia. }
  specialize (Hl (Z.to_nat (Z.log2 n + 1)) n 0). unfold peaks_of_size. pose proof n_nonneg.
  assert (Z.log2 n <= 31) by (apply Z.log2_le_mono with (b := 2 ^ 31); lia). lia.
Qed.

(** The proof generated for leaf [i] below peak [(J, i / 2^J)]. *)
Lemma generate_proof_leaf i J q1 q2 :
  0 <= i < n -> peaks_of_size n = q1 ++ (J, i / 2 ^ Z.of_nat J) :: q2 ->
  generate_proof {| hashes := mmr_array ls |} (mmr_size i) =
    Ok {| proof_mmr_size := mmr_size n; proof_path := leaf_path i 0 J; proof_peaks := map peak_hash (q1 ++ q2) |}.
Proof.
  intros Hi Hq. assert ((J, i / 2 ^ Z.of_nat J) ∈ peaks_of_size n) as HJ.
  { rewrite Hq. apply elem_of_app. right. left. }
  pose proof (leaf_peak i J HJ) as Hpk. unfold generate_proof.
  pose proof (get_node_array 0 i ltac:(lia) ltac:(change (2 ^ Z.of_nat 0) with 1; lia)) as Hg.
  rewrite npos_leaf in Hg. rewrite Hg.
  cbn [from_mmr map_err mbind result_bind ok_or]. unfold mmr_len.
  cbn [al_len Vec_ArrayLike hashes backend_err from_mmr map_err mbind result_bind].
  pose proof (length_forest_nodes_0 (build ls) (build_wf ls)) as Hlen. rewrite value_build in Hlen. fold n in Hlen.
  change (forest_nodes (build ls)) with (mmr_array ls) in Hlen. rewrite !Hlen, (family_branch_leaf n i J) by (done || lia).
  cbn [from_mmr map_err mbind result_bind]. rewrite (generate_path i J Hi HJ). cbn [mbind result_bind].
  rewrite (generate_peak_pos i J), find_peaks_size by done. cbn [ok_or mbind result_bind].
  pose proof peak_positions_NoDup as Hnd. pose proof peaks_are_peaks as Hk. rewrite Hq in *.
  pose proof peaks_short as Hshort. rewrite Hq in Hshort.
  rewrite arith_ok by (rewrite length_map; rewrite length_app in *; cbn [length] in *; unfold USIZE_MAX, U64_MAX; lia).
  cbn [mbind result_bind]. rewrite map_app in *. cbn [map] in *. change (peak_pos (J, _)) with (npos J (i / 2 ^ Z.of_nat J)) in *.
  apply Forall_app in Hk as [Hk1 [_ Hk2]%Forall_cons].
  apply NoDup_app in Hnd as (_ & Hd1 & [Hd2 _]%NoDup_cons).
  rewrite foldM_app, generate_peaks_other by (try done; intros Hin; apply (Hd1 _ Hin); left).
  cbn [mbind result_bind foldM]. rewrite Z.eqb_refl. cbn [mbind result_bind].
  rewrite generate_peaks_other by done. by rewrite map_app.
Qed.

Lemma mmr_root_peaks : 0 < n -> mmr_root ls = digest (concat (map peak_hash (peaks_of_size n))).
Proof.
  intros Hpos. rewrite <- peaks_array, <- forest_root_build. unfold forest_root. rewrite value_build. fold n.
  by rewrite (proj2 (Z.eqb_neq _ _)) by lia.
Qed.

Lemma leaf_hash_node i x : ls !! Z.to_nat i = Some x -> 0 <= i -> node_hash 0 i ls = x.
Proof.
  intros Hx Hi. unfold node_hash, segment. change (2 ^ Z.of_nat 0) with 1. rewrite Z.mul_1_l.
  cbn [Nat.pow tree_root]. by rewrite (drop_S _ _ _ Hx).
Qed.

Lemma merkle_proof_verifies i x :
  0 <= i -> ls !! Z.to_nat i = Some x ->
  exists proof, for_leaf_node {| hashes := mmr_array ls |} i = Ok proof /\
    verify_leaf proof (mmr_root ls) x i = Ok ().
Proof.
  intros Hi0 Hx. pose proof (lookup_lt_Some _ _ _ Hx) as Hlt. assert (0 <= i < n) as Hi by (unfold n; lia).
  destruct (peaks_cover i Hi) as [J HJ]. destruct (list_elem_of_split _ _ HJ) as (q1 & q2 & Hq).
  unfold for_leaf_node, verify_leaf. rewrite node_index_size by lia. cbn [from_mmr map_err mbind result_bind].
  rewrite (generate_proof_leaf i J q1 q2 Hi Hq). eexists. split; [done|].
  unfold verify. cbn [proof_mmr_size proof_peaks proof_path]. rewrite find_peaks_size. cbn [ok_or mbind result_bind].
  pose proof (verify_consume_leaf_path i J Hi HJ (map peak_hash (q1 ++ q2)) (mmr_root ls)
    (map peak_pos (peaks_of_size n)) J 0 eq_refl) as Hv.
  change (2 ^ Z.of_nat 0) with 1 in Hv. rewrite Z.div_1_r, npos_leaf, (leaf_hash_node i x Hx Hi0) in Hv.
  rewrite Hv. cbn [verify_consume]. pose proof peak_positions_NoDup as Hnd.
  rewrite Hq, (map_app peak_pos) in Hnd |- *. cbn [map] in *.
  change (peak_pos (J, _)) with (npos J (i / 2 ^ Z.of_nat J)) in *.
  rewrite (check_root_at _ _ _ (npos J (i / 2 ^ Z.of_nat J)) _ (map peak_hash q1) (map peak_hash q2))
    by (rewrite ?length_map, ?map_app; done).
  cbn [mbind result_bind]. rewrite decide_True; [done|].
  rewrite mmr_root_peaks, Hq, map_app by lia. done.
Qed.

(** For every leaf of a range of fewer than [2^31] leaves, proof generation succeeds and the
    proof verifies the leaf's hash at its index against the range's root. *)
Theorem merkle_proof_complete (self : MerkleMountainRange (list Hash)) i x :
  0 <= i -> ls !! Z.to_nat i = Some x ->
  exists mmr root proof, assign ls self = Ok mmr /\ get_merkle_root mmr = Ok root /\
    for_leaf_node mmr i = Ok proof /\ verify_leaf proof root x i = Ok ().
Proof.
  intros Hi Hx. destruct (merkle_proof_verifies i x Hi Hx) as (proof & Hgen & Hver).
  assert (Z.of_nat (length ls) <= 2 ^ 62) as Hmax by (fold n; lia).
  exists {| hashes := mmr_array ls |}, (mmr_root ls), proof. split_and!; [by apply assign_array| |done|done].
  apply root_of_leaves; [apply mmr_array_represents|done].
Qed.

End Complete.

(** ** Soundness *)
Section Sound.
Context {H : Hasher} (ls : list Hash).
Let n : Z := Z.of_nat (length ls).
Context (Hn : n < 2 ^ 31) (Hdigest : forall b, length (digest b) = 32%nat)
  (Hleaves : Forall (fun h => length h = 32%nat) ls).

(** What the range hashed: the children of every complete parent, and the peaks. *)
Definition hashed_by_mmr (y : list Z) : Prop :=
  y = concat (map (peak_hash ls) (peaks_of_size n)) \/
  exists j m, 0 <= m /\ 2 ^ Z.of_nat (S j) * (m + 1) <= n /\
    y = node_hash j (2 * m) ls ++ node_hash j (2 * m + 1) ls.

(** What verifying a proof for leaf [i] hashes: the pairs on the way up, and the peaks with the
    computed one inserted before peak number [k]. *)
Definition hashed_by_verify (proof : MerkleProof) (hash : Hash) (i : Z) (x : list Z) : Prop :=
  x ∈ climb_inputs i (proof_path proof) hash \/
  exists k, x = concat (take k (proof_peaks proof) ++ climb i (proof_path proof) hash :: drop k (proof_peaks proof)).

Lemma node_hash_length j m : 0 <= m -> 2 ^ Z.of_nat j * (m + 1) <= n -> length (node_hash j m ls) = 32%nat.
Proof.
  intros Hm Hle. destruct j as [|j].
  - change (2 ^ Z.of_nat 0) with 1 in Hle.
    destruct (lookup_lt_is_Some_2 ls (Z.to_nat m)) as [x Hx]; [unfold n in Hle; lia|].
    rewrite (leaf_hash_node ls m x Hx Hm). rewrite Forall_forall in Hleaves. apply Hleaves.
    by eapply list_elem_of_lookup_2.
  - rewrite node_hash_S by done. apply Hdigest.
Qed.

Lemma climb_length m path h : length h = 32%nat -> length (climb m path h) = 32%nat.
Proof. revert m h. induction path as [|s path IH]; intros m h Hh; cbn [climb]; [done|]. apply IH, Hdigest. Qed.

Lemma concat_inj (l k : list Hash) :
  Forall (fun h => length h = 32%nat) l -> Forall (fun h => length h = 32%nat) k -> concat l = concat k -> l = k.
Proof.
  intros Hl. revert k. induction Hl as [|x l Hx Hl IH]; intros k Hk; destruct Hk as [|y k Hy Hk]; cbn; intros He.
  - done.
  - apply (f_equal length) in He. rewrite length_app in He. cbn in He. lia.
  - apply (f_equal length) in He. rewrite length_app in He. cbn in He. lia.
  - apply app_inj_1 in He as [-> He]; [|lia]. f_equal. by apply IH.
Qed.

(** Positions determine nodes. *)
Lemma npos_inj j m j' m' : 0 <= m -> 0 <= m' -> npos j m <= USIZE_MAX -> npos j m = npos j' m' -> j = j' /\ m = m'.
Proof.
  intros Hm Hm' Hmax He. pose proof (peak_map_height_npos j m Hm Hmax) as H1.
  rewrite He in H1, Hmax. rewrite (peak_map_height_npos j' m' Hm' Hmax) in H1. injection H1 as H1 H2.
  apply Nat2Z.inj in H2 as ->. split; [done|]. pose proof (pow_pos j). nia.
Qed.

Lemma level_bound j m : 0 <= m -> npos j m <= mmr_size n -> (j <= 30)%nat.
Proof.
  intros Hm Hle. apply Nat.nlt_ge. intros H31. pose proof (mmr_size_mono n (2 ^ Z.of_nat 31 - 1)) as Hmono.
  rewrite mmr_size_ones in Hmono. unfold npos, peak_sz in *. pose proof (pow_pos j).
  pose proof (mmr_size_bounds (2 ^ Z.of_nat j * m) ltac:(lia)).
  assert (2 ^ Z.of_nat 32 <= 2 ^ Z.of_nat (S j)) by (apply Z.pow_le_mono_r; lia).
  change (Z.of_nat 31) with 31 in *. change (Z.of_nat 32) with 32 in *.
  assert (0 <= n) by (unfold n; lia). lia.
Qed.

(** A successful verification ends in a successful comparison at the node the path leads to. *)
Lemma verify_consume_climb pks path root ps j m h :
  (j <= 30)%nat -> 0 <= m -> npos j m <= 2 ^ 63 ->
  verify_consume (mmr_size n) pks path root h (npos j m) ps = Ok () ->
  exists r, check_root pks (climb m path h)
      (npos (j + length path) (m / 2 ^ Z.of_nat (length path))) ps = Ok r /\ root = r.
Proof.
  revert j m h. induction path as [|s path IH]; intros j m h Hj Hm Hp Hv.
  - cbn [verify_consume] in Hv. inv_bind Hv. case_decide as He; [|done]. exists r.
    cbn [length climb]. change (2 ^ Z.of_nat 0) with 1. by rewrite Nat.add_0_r, Z.div_1_r.
  - rewrite verify_consume_step in Hv by done. assert (0 <= m / 2) as Hh by (apply Z.div_pos; lia).
    destruct (Z.ltb_spec (mmr_size n) (npos (S j) (m / 2))) as [|Hle]; [done|].
    pose proof (level_bound _ _ Hh Hle) as Hj'.
    assert (mmr_size n <= 2 ^ 63) by (pose proof (mmr_size_bounds n ltac:(unfold n; lia)); lia).
    apply IH in Hv; [|done|done|lia]. cbn [length climb]. rewrite <- plus_n_Sm, <- div_pow_climb. done.
Qed.

Lemma below_complete j m d : 0 <= m ->
  2 ^ Z.of_nat (j + d) * (m / 2 ^ Z.of_nat d + 1) <= n -> 2 ^ Z.of_nat j * (m + 1) <= n.
Proof.
  intros Hm Hle. etrans; [|exact Hle]. pose proof (pow_pos j). pose proof (pow_pos d).
  rewrite Nat2Z.inj_add, Z.pow_add_r, <- Z.mul_assoc by lia. apply Z.mul_le_mono_nonneg_l; [lia|].
  pose proof (Z.mul_succ_div_gt m (2 ^ Z.of_nat d)). lia.
Qed.

(** If climbing reaches the hash of a node of the range, it started from one. *)
Lemma climb_sound path j m h :
  0 <= m -> length h = 32%nat -> Forall (fun s => length s = 32%nat) path ->
  2 ^ Z.of_nat (j + length path) * (m / 2 ^ Z.of_nat (length path) + 1) <= n ->
  (forall x y, x ∈ climb_inputs m path h -> hashed_by_mmr y -> digest x = digest y -> x = y) ->
  climb m path h = node_hash (j + length path) (m / 2 ^ Z.of_nat (length path)) ls ->
  h = node_hash j m ls.
Proof.
  revert j m h. induction path as [|s path IH]; intros j m h Hm Hh Hpath Hle Hcf Hclimb; cbn [length climb climb_inputs] in *.
  { change (2 ^ Z.of_nat 0) with 1 in Hclimb. by rewrite Nat.add_0_r, Z.div_1_r in Hclimb. }
  apply Forall_cons in Hpath as [Hs Hpath]. assert (0 <= m / 2) as Hh2 by (apply Z.div_pos; lia).
  pose proof (below_complete j m (S (length path)) Hm Hle) as Hc.
  rewrite <- plus_n_Sm, <- div_pow_climb in Hclimb, Hle.
  pose proof (below_complete (S j) (m / 2) (length path) Hh2 Hle) as Hc2.
  assert (digest (parent_input m h s) = node_hash (S j) (m / 2) ls) as Hpar.
  { apply IH; try done. intros x y Hx. apply Hcf. by right. }
  rewrite node_hash_S in Hpar by done. apply Hcf in Hpar; [|left|right; exists j, (m / 2); done].
  unfold parent_input in Hpar. rewrite pow_S in Hc2. pose proof (pow_pos j). destruct (Z.even m) eqn:He.
  - rewrite <- (half_even m He) in Hpar. apply app_inj_1 in Hpar as [Hpar _]; [done|].
    by rewrite Hh, node_hash_length.
  - pose proof (half_odd m He) as Hm2. rewrite <- Hm2 in Hpar. apply app_inj_1 in Hpar as [_ Hpar]; [done|].
    rewrite Hs, node_hash_length by lia. done.
Qed.

Lemma peak_hash_length jm : is_peak n jm -> length (peak_hash ls jm) = 32%nat.
Proof. destruct jm as [j m]. intros (Hm & _ & Hle & _). by apply node_hash_length. Qed.

(** Splitting the peak nodes where their positions split. *)
Lemma peaks_split p1 pos p2 :
  map peak_pos (peaks_of_size n) = p1 ++ pos :: p2 ->
  exists q1 jm q2, peaks_of_size n = q1 ++ jm :: q2 /\ length q1 = length p1 /\ peak_pos jm = pos /\ is_peak n jm.
Proof.
  intros Hm. change (map peak_pos (peaks_of_size n)) with (peak_pos <$> peaks_of_size n) in Hm.
  apply fmap_app_inv in Hm as (q1 & q2' & Hp1 & Hp2 & Hq).
  destruct q2' as [|jm q2]; [done|]. cbn in Hp2. injection Hp2 as -> _.
  exists q1, jm, q2. pose proof (peaks_are_peaks ls Hn) as Hk. fold n in Hk. rewrite Hq in Hk.
  apply Forall_app in Hk as [_ [Hk _]%Forall_cons]. split_and!; [done| |done|done].
  by rewrite Hp1, length_fmap.
Qed.

(** C27: a proof whose size is that of the range, made of 32-byte hashes, that verifies a 32-byte
    hash for a leaf index against the range's root, shows the hash of that leaf, unless the
    digest maps two different inputs, one hashed by the verifier and one by the range, to the
    same output. *)
Theorem merkle_proof_sound proof hash i :
  0 <= i < 2 ^ 62 -> proof_mmr_size proof = mmr_size n ->
  length hash = 32%nat -> Forall (fun s => length s = 32%nat) (proof_path proof) ->
  Forall (fun s => length s = 32%nat) (proof_peaks proof) ->
  (forall x y, hashed_by_verify proof hash i x -> hashed_by_mmr y -> digest x = digest y -> x = y) ->
  verify_leaf proof (mmr_root ls) hash i = Ok () -> ls !! Z.to_nat i = Some hash.
Proof.
  intros Hi Hsize Hhash Hpath Hpeaks Hcf Hv. unfold verify_leaf in Hv. rewrite node_index_size in Hv by lia.
  cbn [from_mmr map_err mbind result_bind] in Hv. unfold verify in Hv.
  pose proof (find_peaks_size ls Hn) as Hfp. fold n in Hfp.
  rewrite Hsize, Hfp in Hv. cbn [ok_or mbind result_bind] in Hv.
  rewrite <- (npos_leaf i) in Hv.
  assert (npos 0 i <= 2 ^ 63) as Hp63 by (rewrite npos_leaf; pose proof (mmr_size_bounds i); lia).
  apply verify_consume_climb in Hv as (r & Hr & Hroot); [|lia|lia|done].
  apply check_root_Ok in Hr as (p1 & p2 & h1 & h2 & Hps & Hpks & Hl1 & Hl2 & ->);
    [|apply (peak_positions_NoDup ls Hn)].
  destruct (peaks_split _ _ _ Hps) as (q1 & [J M] & q2 & Hq & Hlq & Hpos & HJ).
  pose proof HJ as (HM & _ & HJle & _). set (D := length (proof_path proof)) in *.
  assert (0 <= i / 2 ^ Z.of_nat D) as HiD by (apply ancestor_nonneg; lia).
  pose proof (npos_lt_size J M n HM HJle). pose proof (size_small ls Hn) as Hsmall. fold n in Hsmall.
  destruct (npos_inj J M (0 + D) (i / 2 ^ Z.of_nat D)) as [-> ->]; [done|done|unfold USIZE_MAX, U64_MAX; lia|done|].
  assert (0 < n) as Hpos0 by (pose proof (pow_pos (0 + D)); lia).
  rewrite (mmr_root_peaks ls Hn Hpos0) in Hroot. fold n in Hroot.
  symmetry in Hroot. apply Hcf in Hroot; cycle 1.
  { right. exists (length h1). by rewrite Hpks, take_app_length, drop_app_length. }
  { by left. }
  apply concat_inj in Hroot; cycle 1.
  { rewrite Hpks in Hpeaks. apply Forall_app in Hpeaks as [? ?]. apply Forall_app. split; [done|].
    constructor; [by apply climb_length|done]. }
  { apply Forall_fmap, (Forall_impl (is_peak n)); [apply (peaks_are_peaks ls Hn)|apply peak_hash_length]. }
  rewrite Hq, map_app in Hroot. cbn [map] in Hroot.
  apply app_inj_1 in Hroot as [_ Hroot]; [|rewrite length_map; lia]. injection Hroot as Hclimb _.
  assert (hash = node_hash 0 i ls) as ->.
  { apply (climb_sound (proof_path proof) 0 i); try done; [lia|]. intros x y Hx. apply Hcf. by left. }
  pose proof (below_complete 0 i D ltac:(lia) HJle) as Hin. change (2 ^ Z.of_nat 0) with 1 in Hin.
  destruct (lookup_lt_is_Some_2 ls (Z.to_nat i)) as [x Hx]; [unfold n in Hin; lia|].
  by rewrite (leaf_hash_node ls i x Hx) by lia.
Qed.

End Sound.

(** ** What the verifier does not check *)
Section Unchecked.
Context {H : Hasher}.

(** Verification aborts, instead of returning an error, on a proof whose path stops short
    of a peak: the iterator over the proof's peaks is unwrapped once too often. *)
Theorem verify_short_path_aborts proof root hash pos ps :
  find_peaks (proof_mmr_size proof) = Some ps -> proof_path proof = [] ->
  length ps = S (length (proof_peaks proof)) -> pos ∉ ps ->
  verify proof root hash pos = Panic.
Proof.
  intros Hps Hpath Hlen Hpos. unfold verify. rewrite Hps, Hpath. cbn [ok_or mbind result_bind verify_consume].
  unfold check_root. rewrite (proj2 (Nat.eqb_eq _ _)) by lia. cbn [negb].
  by rewrite check_root_fold_other, decide_False by (done || lia).
Qed.

(** The lengths of the hashes in a proof are not checked: the concatenation of two leaves
    can be split at another place, and a proof for the shifted "leaf" verifies. *)
Theorem verify_length_confusion (a b : Hash) (x : Z) :
  verify_leaf {| proof_mmr_size := 3; proof_path := [b]; proof_peaks := [] |} (mmr_root [a; x :: b]) (a ++ [x]) 0 =
    Ok ().
Proof.
  unfold verify_leaf, verify. change (node_index 0) with (@Ok MerkleMountainRangeError Z 0).
  cbn [from_mmr map_err mbind result_bind ok_or proof_mmr_size proof_path proof_peaks].
  change (find_peaks 3) with (Some [2]). cbn [mbind result_bind ok_or verify_consume].
  change (family 0) with (@Ok MerkleMountainRangeError (Z * Z) (2, 1)).
  cbn [from_mmr map_err mbind result_bind]. change (3 <? 2) with false. change (is_left_sibling 1) with false.
  cbn [verify_consume]. unfold check_root. cbn [length Nat.add Nat.eqb negb foldM].
  rewrite check_root_step_at. cbn [mbind result_bind app]. rewrite decide_True; [done|].
  change (mmr_root [a; x :: b]) with (digest (concat [hash_together a (x :: b)])).
  cbn [concat]. unfold hash_together. by rewrite app_nil_r, <- app_assoc.
Qed.

End Unchecked.

(** ** Examples *)
Section ProofExamples.

#[local] Instance example_hasher : Hasher := Mod256.digest 9.

Definition example_leaves : list Hash := [replicate 32 1; replicate 32 2; replicate 32 3].
Definition example_proof : MerkleProof :=
  {| proof_mmr_size := 4; proof_path := [replicate 32 1]; proof_peaks := [replicate 32 3] |}.

Lemma merkle_proof_complete_witness :
  exists mmr root proof, assign example_leaves {| hashes := [] : list Hash |} = Ok mmr /\ get_merkle_root mmr = Ok root /\
    for_leaf_node mmr 1 = Ok proof /\ verify_leaf proof root (replicate 32 2) 1 = Ok ().
Proof.
  apply (merkle_proof_complete example_leaves).
  - cbn. lia.
  - lia.
  - done.
Defined.

(** The inputs of the range and of the verifier in the example. *)
Lemma example_hashed_by_mmr y :
  hashed_by_mmr example_leaves y ->
  y ∈ [concat (map (peak_hash example_leaves) (peaks_of_size 3)); replicate 32 1 ++ replicate 32 2].
Proof.
  change (Z.of_nat (length example_leaves)) with 3.
  intros [->|(j & m & Hm & Hle & ->)]; [left|]. change (Z.of_nat (length example_leaves)) with 3 in Hle.
  rewrite pow_S in Hle. pose proof (pow_pos j). assert (m = 0) as -> by nia.
  destruct j as [|j]; [right; left|]. rewrite pow_S in Hle. pose proof (pow_pos j). nia.
Qed.

Lemma example_hashed_by_verify x :
  hashed_by_verify example_proof (replicate 32 2) 1 x ->
  x ∈ [replicate 32 1 ++ replicate 32 2;
       concat [digest (replicate 32 1 ++ replicate 32 2); replicate 32 3];
       concat [replicate 32 3; digest (replicate 32 1 ++ replicate 32 2)]].
Proof.
  intros [Hx|[k ->]].
  - apply list_elem_of_singleton in Hx as ->. left.
  - destruct k as [|k]; [right; left|]. cbn [example_proof proof_peaks take drop].
    rewrite take_nil, drop_nil. right; right; left.
Qed.

Lemma example_collision_free x y :
  hashed_by_verify example_proof (replicate 32 2) 1 x -> hashed_by_mmr example_leaves y ->
  digest x = digest y -> x = y.
Proof.
  intros Hx%example_hashed_by_verify Hy%example_hashed_by_mmr. revert x y Hx Hy.
  assert (Forall (fun x => Forall (fun y => digest x = digest y -> x = y)
    [concat (map (peak_hash example_leaves) (peaks_of_size 3)); replicate 32 1 ++ replicate 32 2])
    [replicate 32 1 ++ replicate 32 2; concat [digest (replicate 32 1 ++ replicate 32 2); replicate 32 3];
     concat [replicate 32 3; digest (replicate 32 1 ++ replicate 32 2)]]) as Hall by by_evaluation.
  intros x y Hx Hy. rewrite Forall_forall in Hall. apply Hall in Hx. rewrite Forall_forall in Hx. by apply Hx.
Qed.

Lemma merkle_proof_sound_witness : example_leaves !! 1%nat = Some (replicate 32 2).
Proof.
  apply (merkle_proof_sound example_leaves) with (proof := example_proof) (i := 1).
  - cbn. lia.
  - intros b. apply length_le_bytes.
  - by_evaluation.
  - lia.
  - done.
  - done.
  - by_evaluation.
  - by_evaluation.
  - apply example_collision_free.
  - by_evaluation.
Defined.

Lemma verify_short_path_aborts_witness :
  verify {| proof_mmr_size := 3; proof_path := []; proof_peaks := [] |} [] [] 0 = Panic.
Proof.
  apply (verify_short_path_aborts _ _ _ _ [2]).
  - done.
  - done.
  - done.
  - by_evaluation.
Defined.

End ProofExamples.
