(* ===== verification/MutableMmr.v ===== *)
(** * Mutable Merkle mountain ranges

    src/base_layer/mmr/src: [MutableMmr] of mutable_mmr.rs, [MutableMmrLeafNodes] of
    mutable_mmr_leaf_nodes.rs, [MerkleCheckPoint] of merkle_checkpoint.rs, and the functions of
    functions.rs on mutable ranges. The roaring bitmap of the crate croaring is a class of
    operations on sets of [u32]. *)

From S2P Require Import Prelude MmrCommon Mmr MmrForest MmrSpec.

Local Open Scope Z_scope.

(** [croaring::Bitmap] *)
Class CRoaring := {
  Bitmap : Type;
  bitmap_create : Bitmap;
  bitmap_add : Z -> Bitmap -> Bitmap;
  bitmap_contains : Bitmap -> Z -> bool;
  bitmap_cardinality : Bitmap -> Z;
  bitmap_or : Bitmap -> Bitmap -> Bitmap;
  bitmap_remove_range_closed : Z -> Z -> Bitmap -> Bitmap;
  (* [run_optimize] changes the representation and says whether it did *)
  bitmap_run_optimize : Bitmap -> bool * Bitmap;
  bitmap_serialize : Bitmap -> list Z;
}.

(** Its documentation: a set of 32-bit integers, whose serialization after [run_optimize]
    depends on the elements only. *)
Class CRoaringLaws (R : CRoaring) := {
  bits : Bitmap -> gset Z;
  bits_create : bits bitmap_create = ∅;
  bits_add i b : bits (bitmap_add i b) = {[i]} ∪ bits b;
  bits_contains b i : bitmap_contains b i = bool_decide (i ∈ bits b);
  bits_cardinality b : bitmap_cardinality b = Z.of_nat (size (bits b));
  bits_or b b' : bits (bitmap_or b b') = bits b ∪ bits b';
  bits_remove lo hi b i : i ∈ bits (bitmap_remove_range_closed lo hi b) <-> i ∈ bits b /\ ~ (lo <= i <= hi);
  bits_run_optimize b : bits (bitmap_run_optimize b).2 = bits b;
  serialize_ext b b' : bits b = bits b' ->
    bitmap_serialize (bitmap_run_optimize b).2 = bitmap_serialize (bitmap_run_optimize b').2;
}.

Section Mutable.
Context {H : Hasher} {R : CRoaring}.

Record MutableMmrLeafNodes := { leaf_hashes : list Hash; leaf_deleted : Bitmap }.

Definition leaf_nodes_new (ls : list Hash) (d : Bitmap) : MutableMmrLeafNodes :=
  {| leaf_hashes := ls; leaf_deleted := d |}.

(** [combine] *)
Definition leaf_nodes_combine (next_state self : MutableMmrLeafNodes) : MutableMmrLeafNodes :=
  {| leaf_hashes := leaf_hashes self ++ leaf_hashes next_state;
     leaf_deleted := bitmap_or (leaf_deleted self) (leaf_deleted next_state) |}.

(** [From<Vec<Hash>>] *)
Definition leaf_nodes_from (ls : list Hash) : MutableMmrLeafNodes :=
  {| leaf_hashes := ls; leaf_deleted := bitmap_create |}.

Record MutableMmr (B : Type) := {
  mm_mmr : MerkleMountainRange B;
  mm_deleted : Bitmap;
  mm_size : Z;
}.
Arguments mm_mmr {B}.
Arguments mm_deleted {B}.
Arguments mm_size {B}.
Arguments Build_MutableMmr {B}.

(** [u32::try_from(x).unwrap()] *)
Definition to_u32 (x : Z) : mmr_result Z := unwrap (checked 0 U32_MAX x).

(** [x as u32] *)
Definition as_u32 (x : Z) : Z := x mod 2 ^ 32.

Section Ops.
Context {B : Type} `{ArrayLike Hash B}.
Implicit Types (self : MutableMmr B).

Definition mm_new (mmr_backend : B) (deleted : Bitmap) : mmr_result (MutableMmr B) :=
  let mmr := mmr_new mmr_backend in
  n ← get_leaf_count mmr;
  size ← to_u32 n;
  Ok {| mm_mmr := mmr; mm_deleted := deleted; mm_size := size |}.

Definition mm_assign (state : MutableMmrLeafNodes) self : mmr_result (MutableMmr B) :=
  mmr ← assign (leaf_hashes state) (mm_mmr self);
  n ← get_leaf_count mmr;
  size ← to_u32 n;
  Ok {| mm_mmr := mmr; mm_deleted := leaf_deleted state; mm_size := size |}.

Definition mm_len self : mmr_result Z :=
  c ← to_u32 (bitmap_cardinality (mm_deleted self));
  arith 0 U32_MAX (mm_size self - c).

Definition mm_is_empty self : mmr_result bool :=
  e ← mmr_is_empty (mm_mmr self);
  Ok (e || (bitmap_cardinality (mm_deleted self) =? mm_size self)).

Definition mm_get_leaf_hash (leaf_index : Z) self : mmr_result (option Hash) :=
  if bitmap_contains (mm_deleted self) (as_u32 leaf_index) then Ok None
  else i ← node_index leaf_index; get_node_hash i (mm_mmr self).

Definition mm_get_leaf_status (leaf_index : Z) self : mmr_result (option Hash * bool) :=
  i ← node_index leaf_index;
  hash ← get_node_hash i (mm_mmr self);
  Ok (hash, bitmap_contains (mm_deleted self) (as_u32 leaf_index)).

Definition mm_get_leaf_count self : Z := mm_size self.

Definition mm_get_merkle_root self : mmr_result Hash :=
  mmr_root ← get_merkle_root (mm_mmr self);
  let bitmap := (bitmap_run_optimize (mm_deleted self)).2 in
  let bitmap_ser := bitmap_serialize bitmap in
  Ok (digest (mmr_root ++ bitmap_ser)).

Definition get_mmr_only_root self : mmr_result Hash := get_merkle_root (mm_mmr self).

Definition mm_find_node_index (hash : Hash) self : mmr_result (option Z) := find_node_index hash (mm_mmr self).

Definition mm_find_leaf_index (hash : Hash) self : mmr_result (option Z) := find_leaf_index hash (mm_mmr self).

Definition mm_push (hash : Hash) self : mmr_result (Z * MutableMmr B) :=
  if mm_size self =? U32_MAX then Err MaximumSizeReached
  else
    '(_, mmr) ← mmr_push hash (mm_mmr self);
    size ← arith 0 U32_MAX (mm_size self + 1);
    Ok (size, {| mm_mmr := mmr; mm_deleted := mm_deleted self; mm_size := size |}).

Definition mm_delete (leaf_index : Z) self : bool * MutableMmr B :=
  if (mm_size self <=? leaf_index) || bitmap_contains (mm_deleted self) leaf_index then (false, self)
  else (true, {| mm_mmr := mm_mmr self; mm_deleted := bitmap_add leaf_index (mm_deleted self);
                 mm_size := mm_size self |}).

Definition mm_compress self : bool * MutableMmr B :=
  let '(r, deleted) := bitmap_run_optimize (mm_deleted self) in
  (r, {| mm_mmr := mm_mmr self; mm_deleted := deleted; mm_size := mm_size self |}).

Definition mm_validate self : mmr_result unit := validate (mm_mmr self).

Definition get_sub_bitmap (leaf_index count : Z) self : mmr_result Bitmap :=
  let deleted := mm_deleted self in
  deleted ← (if 0 <? leaf_index
             then hi ← to_u32 (leaf_index - 1); Ok (bitmap_remove_range_closed 0 hi deleted)
             else Ok deleted);
  leaf_count ← get_leaf_count (mm_mmr self);
  if 1 <? leaf_count then
    s ← arith 0 USIZE_MAX (leaf_index + count);
    last_index ← arith 0 USIZE_MAX (s - 1);
    if last_index <? leaf_count - 1 then
      lo ← to_u32 (last_index + 1);
      hi ← to_u32 leaf_count;
      Ok (bitmap_remove_range_closed lo hi deleted)
    else Ok deleted
  else Ok deleted.

Definition to_leaf_nodes (leaf_index count : Z) self : mmr_result MutableMmrLeafNodes :=
  hs ← get_leaf_hashes leaf_index count (mm_mmr self);
  d ← get_sub_bitmap leaf_index count self;
  Ok {| leaf_hashes := hs; leaf_deleted := d |}.

Definition set_deleted (deleted : Bitmap) self : MutableMmr B :=
  {| mm_mmr := mm_mmr self; mm_deleted := deleted; mm_size := mm_size self |}.

Definition mm_clear self : mmr_result (MutableMmr B) :=
  mmr ← mmr_clear (mm_mmr self);
  Ok {| mm_mmr := mmr; mm_deleted := bitmap_create; mm_size := 0 |}.

(** [for hash in additions { mmr.push(hash)?; }] *)
Fixpoint mm_push_all (additions : list Hash) self : mmr_result (MutableMmr B) :=
  match additions with
  | [] => Ok self
  | hash :: additions => '(_, self) ← mm_push hash self; mm_push_all additions self
  end.

(** [for index in deletions { mmr.delete(index); }] *)
Definition mm_delete_all (deletions : list Z) self : MutableMmr B :=
  fold_left (fun self index => (mm_delete index self).2) deletions self.

End Ops.

(** ** Checkpoints *)

Record MerkleCheckPoint := {
  nodes_added : list Hash;
  nodes_deleted : Bitmap;
  prev_accumulated_nodes_added_count : Z;
}.

#[export] Instance MerkleCheckPoint_eq_dec `{EqDecision Bitmap} : EqDecision MerkleCheckPoint.
Proof. solve_decision. Defined.

Implicit Types (cp : MerkleCheckPoint).

Definition checkpoint_default : MerkleCheckPoint :=
  {| nodes_added := []; nodes_deleted := bitmap_create; prev_accumulated_nodes_added_count := 0 |}.

Definition checkpoint_apply `{ArrayLike Hash B} cp (mmr : MutableMmr B) : mmr_result (MutableMmr B) :=
  mmr ← mm_push_all (nodes_added cp) mmr;
  Ok {| mm_mmr := mm_mmr mmr; mm_deleted := bitmap_or (mm_deleted mmr) (nodes_deleted cp); mm_size := mm_size mmr |}.

Definition accumulated_nodes_added_count cp : mmr_result Z :=
  n ← to_u32 (Z.of_nat (length (nodes_added cp)));
  arith 0 U32_MAX (prev_accumulated_nodes_added_count cp + n).

Definition reset_to (checkpoint self : MerkleCheckPoint) : mmr_result MerkleCheckPoint :=
  n ← accumulated_nodes_added_count checkpoint;
  Ok {| nodes_added := []; nodes_deleted := bitmap_create; prev_accumulated_nodes_added_count := n |}.

Definition checkpoint_reset self : mmr_result MerkleCheckPoint := reset_to self self.

Definition push_addition (hash : Hash) cp : MerkleCheckPoint :=
  {| nodes_added := nodes_added cp ++ [hash]; nodes_deleted := nodes_deleted cp;
     prev_accumulated_nodes_added_count := prev_accumulated_nodes_added_count cp |}.

Definition push_deletion (leaf_index : Z) cp : MerkleCheckPoint :=
  {| nodes_added := nodes_added cp; nodes_deleted := bitmap_add leaf_index (nodes_deleted cp);
     prev_accumulated_nodes_added_count := prev_accumulated_nodes_added_count cp |}.

Definition checkpoint_append (cp self : MerkleCheckPoint) : MerkleCheckPoint :=
  {| nodes_added := nodes_added self ++ nodes_added cp;
     nodes_deleted := bitmap_or (nodes_deleted self) (nodes_deleted cp);
     prev_accumulated_nodes_added_count := prev_accumulated_nodes_added_count self |}.

Definition into_parts cp : list Hash * Bitmap := (nodes_added cp, nodes_deleted cp).

(** ** Pruning *)

Definition prune_mutable_mmr `{ArrayLike Hash B} (mmr : MutableMmr B) : mmr_result (MutableMmr PrunedHashSet) :=
  backend ← PrunedHashSet_try_from (mm_mmr mmr);
  Ok {| mm_mmr := mmr_new backend; mm_deleted := mm_deleted mmr; mm_size := mm_size mmr |}.

Definition calculate_pruned_mmr_root `{ArrayLike Hash B} (src : MutableMmr B) (additions : list Hash)
    (deletions : list Z) : mmr_result Hash :=
  pruned_mmr ← prune_mutable_mmr src;
  pruned_mmr ← mm_push_all additions pruned_mmr;
  let pruned_mmr := mm_delete_all deletions pruned_mmr in
  mm_get_merkle_root pruned_mmr.

End Mutable.

Arguments mm_mmr {R B}.
Arguments mm_deleted {R B}.
Arguments mm_size {R B}.
Arguments Build_MutableMmr {R B}.

(** [PartialEq]: equal merklish roots, across storages. *)
Definition mm_eq `{Hasher, CRoaring, ArrayLike Hash B, ArrayLike Hash B2}
    (self : MutableMmr B) (other : MutableMmr B2) : mmr_result bool :=
  match mm_get_merkle_root self, mm_get_merkle_root other with
  | Panic, _ | _, Panic => Panic
  | r1, r2 => Ok (bool_decide (r1 = r2))
  end.

(** * Correctness of the mutable range

    A mutable range over any lawful storage implements a pair of a list of leaves and a set of
    deleted indices. *)

(** ** The abstract state *)

Record mm_state := { st_leaves : list Hash; st_deleted : gset Z }.

Inductive mm_op := OPush (h : Hash) | ODelete (i : Z) | OCompress.

(** What an operation answers: the number of leaves, whether the index was marked. Whether compressing changed the representation of
    the bitmap is not an answer about the set. *)
Inductive mm_answer := Count (n : Z) | Marked (b : bool) | Compressed.

Definition st_push (h : Hash) (s : mm_state) : mm_state :=
  {| st_leaves := st_leaves s ++ [h]; st_deleted := st_deleted s |}.

(** A delete marks an index of an existing leaf that is not marked yet. *)
Definition can_delete (i : Z) (s : mm_state) : bool :=
  bool_decide (0 <= i < Z.of_nat (length (st_leaves s)) /\ i ∉ st_deleted s).

Definition st_delete (i : Z) (s : mm_state) : mm_state :=
  if can_delete i s then {| st_leaves := st_leaves s; st_deleted := {[i]} ∪ st_deleted s |} else s.

Definition st_step (op : mm_op) (s : mm_state) : mm_answer * mm_state :=
  match op with
  | OPush h => (Count (Z.of_nat (length (st_leaves s)) + 1), st_push h s)
  | ODelete i => (Marked (can_delete i s), st_delete i s)
  | OCompress => (Compressed, s)
  end.

Fixpoint st_run (ops : list mm_op) (s : mm_state) : list mm_answer * mm_state :=
  match ops with
  | [] => ([], s)
  | op :: ops => let '(o, s) := st_step op s in let '(os, s) := st_run ops s in (o :: os, s)
  end.

Definition pushes (ops : list mm_op) : list Hash := omap (fun op => match op with OPush h => Some h | _ => None end) ops.

Definition op_wf (op : mm_op) : Prop := match op with ODelete i => 0 <= i <= U32_MAX | _ => True end.

(** Every deleted index is the index of a leaf. *)
Definition st_wf (s : mm_state) : Prop :=
  forall i, i ∈ st_deleted s -> 0 <= i < Z.of_nat (length (st_leaves s)).

(** The operations on the code's side. *)
Definition mm_step `{Hasher, CRoaring, ArrayLike Hash B} (op : mm_op) (m : MutableMmr B)
    : mmr_result (mm_answer * MutableMmr B) :=
  match op with
  | OPush h => '(n, m) ← mm_push h m; Ok (Count n, m)
  | ODelete i => let '(b, m) := mm_delete i m in Ok (Marked b, m)
  | OCompress => Ok (Compressed, (mm_compress m).2)
  end.

Fixpoint mm_run `{Hasher, CRoaring, ArrayLike Hash B} (ops : list mm_op) (m : MutableMmr B)
    : mmr_result (list mm_answer * MutableMmr B) :=
  match ops with
  | [] => Ok ([], m)
  | op :: ops => '(o, m) ← mm_step op m; '(os, m) ← mm_run ops m; Ok (o :: os, m)
  end.

Section MutableSpec.
Context {H : Hasher} {R : CRoaring} {RL : CRoaringLaws R} {B : Type} `{AL : ArrayLike Hash B}
  {L : ArrayLikeLaws Hash B}.
Implicit Types (m : MutableMmr B) (s : mm_state).

Definition mm_rep m s : Prop :=
  represents (hashes (mm_mmr m)) (build (st_leaves s)) /\ bits (mm_deleted m) = st_deleted s /\
  mm_size m = Z.of_nat (length (st_leaves s)) /\ Z.of_nat (length (st_leaves s)) <= U32_MAX.

Lemma mm_push_rep h m s :
  mm_rep m s -> Z.of_nat (length (st_leaves s)) < U32_MAX ->
  exists m', mm_push h m = Ok (Z.of_nat (length (st_leaves s)) + 1, m') /\ mm_rep m' (st_push h s).
Proof.
  intros (Hrep & Hbits & Hsize & _) Hmax. unfold mm_push. rewrite Hsize, (proj2 (Z.eqb_neq _ _)) by lia.
  destruct (mmr_push_represents h _ _ Hrep) as (mmr' & i & Hpush & Hrep' & _).
  { unfold U32_MAX in Hmax. lia. }
  rewrite Hpush. cbn [mbind result_bind]. rewrite arith_ok by lia. cbn [mbind result_bind].
  eexists. split; [done|]. unfold mm_rep. cbn. rewrite length_app. cbn. split_and!; [done|done|lia|lia].
Qed.

Lemma mm_push_full h m s :
  mm_rep m s -> Z.of_nat (length (st_leaves s)) = U32_MAX -> mm_push h m = Err MaximumSizeReached.
Proof. intros (_ & _ & Hsize & _) Hmax. unfold mm_push. by rewrite Hsize, Hmax. Qed.

Lemma mm_delete_rep i m s :
  mm_rep m s -> 0 <= i -> (mm_delete i m).1 = can_delete i s /\ mm_rep (mm_delete i m).2 (st_delete i s).
Proof.
  intros (Hrep & Hbits & Hsize & Hmax) Hi. unfold mm_delete, st_delete, can_delete.
  rewrite bits_contains, Hbits, Hsize. destruct (Z.leb_spec (Z.of_nat (length (st_leaves s))) i); cbn [orb].
  { rewrite bool_decide_false by lia. split; [done|]. split_and!; done. }
  case_bool_decide as Hin.
  { rewrite bool_decide_false by tauto. split; [done|]. split_and!; done. }
  rewrite bool_decide_true by (split; [lia|done]). split; [done|]. unfold mm_rep. cbn.
  rewrite bits_add, Hbits. split_and!; done.
Qed.

Lemma mm_compress_rep m s : mm_rep m s -> mm_rep (mm_compress m).2 s.
Proof.
  intros (Hrep & Hbits & Hsize & Hmax). unfold mm_compress. pose proof (bits_run_optimize (mm_deleted m)) as Hopt.
  destruct (bitmap_run_optimize (mm_deleted m)) as [r d]. cbn in *. split_and!; [done|exact (eq_trans Hopt Hbits)|done|done].
Qed.

Lemma mm_run_rep ops m s :
  mm_rep m s -> Forall op_wf ops -> Z.of_nat (length (st_leaves s ++ pushes ops)) <= U32_MAX ->
  exists m', mm_run ops m = Ok ((st_run ops s).1, m') /\ mm_rep m' (st_run ops s).2.
Proof.
  intros Hrep Hops. revert m s Hrep. induction Hops as [|op ops Hop _ IH]; intros m s Hrep Hmax; [by exists m|].
  destruct op as [h|i|]; cbn [mm_run mm_step st_run st_step].
  - change (pushes (OPush h :: ops)) with (h :: pushes ops) in Hmax. rewrite length_app in Hmax. cbn [length] in Hmax.
    destruct (mm_push_rep h m s Hrep) as (m1 & Hpush & Hrep1); [lia|]. rewrite Hpush. cbn [mbind result_bind].
    destruct (IH m1 (st_push h s) Hrep1) as (m2 & Hrun & Hrep2).
    { cbn [st_push st_leaves]. rewrite !length_app. cbn [length]. lia. }
    rewrite Hrun. cbn [mbind result_bind]. destruct (st_run ops (st_push h s)) as [os s2] eqn:Hst. by exists m2.
  - destruct (mm_delete_rep i m s Hrep) as [Hb Hrep1]; [apply Hop|].
    destruct (mm_delete i m) as [b m1]. cbn [fst snd] in *. subst b. cbn [mbind result_bind].
    assert (st_leaves (st_delete i s) = st_leaves s) as Hl by (unfold st_delete; by destruct (can_delete i s)).
    destruct (IH m1 (st_delete i s) Hrep1) as (m2 & Hrun & Hrep2); [by rewrite Hl|].
    rewrite Hrun. cbn [mbind result_bind]. destruct (st_run ops (st_delete i s)) as [os s2] eqn:Hst. by exists m2.
  - destruct (IH _ s (mm_compress_rep m s Hrep) Hmax) as (m2 & Hrun & Hrep2). cbn [mbind result_bind]. rewrite Hrun. cbn [mbind result_bind].
    destruct (st_run ops s) as [os s2]. by exists m2.
Qed.

Lemma st_step_wf op s : st_wf s -> st_wf (st_step op s).2.
Proof.
  intros Hwf. destruct op as [h|i|]; cbn [st_step snd]; [| |done].
  - intros i Hi. specialize (Hwf i Hi). cbn. rewrite length_app. lia.
  - unfold st_delete, can_delete. case_bool_decide as Hc; [|done]. intros j. cbn.
    rewrite elem_of_union, elem_of_singleton. intros [->|Hj]; [tauto|by apply Hwf].
Qed.

Lemma st_run_wf ops s : st_wf s -> st_wf (st_run ops s).2.
Proof.
  revert s. induction ops as [|op ops IH]; intros s Hwf; [done|]. cbn [st_run].
  pose proof (st_step_wf op s Hwf) as Hwf'. destruct (st_step op s) as [o s1]. cbn [snd] in Hwf'.
  specialize (IH s1 Hwf'). by destruct (st_run ops s1).
Qed.

(** The merklish root: the range's root and the serialized bitmap. *)
Definition merklish_root (ls : list Hash) (deleted : Bitmap) : Hash :=
  digest (mmr_root ls ++ bitmap_serialize (bitmap_run_optimize deleted).2).

(** The root of the abstract state: any bitmap with the deleted indices gives it. *)
Definition bitmap_of (l : list Z) : Bitmap := foldr bitmap_add bitmap_create l.
Definition st_root (s : mm_state) : Hash := merklish_root (st_leaves s) (bitmap_of (elements (st_deleted s))).

Lemma bits_of l : bits (bitmap_of l) = list_to_set l.
Proof. induction l as [|i l IH]; cbn; [apply bits_create|]. etrans; [apply bits_add|]. by f_equal. Qed.

Lemma merklish_root_ext ls b b' : bits b = bits b' -> merklish_root ls b = merklish_root ls b'.
Proof. intros Hb. unfold merklish_root. by rewrite (serialize_ext b b' Hb). Qed.

Lemma mm_root_rep m s : mm_rep m s -> mm_get_merkle_root m = Ok (merklish_root (st_leaves s) (mm_deleted m)).
Proof.
  intros (Hrep & _ & _ & Hmax). unfold mm_get_merkle_root.
  rewrite (root_of_leaves (st_leaves s)) by (done || (unfold U32_MAX in Hmax; lia)). done.
Qed.

Lemma mm_root_state m s : mm_rep m s -> mm_get_merkle_root m = Ok (st_root s).
Proof.
  intros Hrep. rewrite (mm_root_rep m s Hrep). f_equal. apply merklish_root_ext. rewrite bits_of, list_to_set_elements_L. apply Hrep.
Qed.

Lemma deleted_size s : st_wf s -> Z.of_nat (size (st_deleted s)) <= Z.of_nat (length (st_leaves s)).
Proof.
  intros Hwf. assert (st_deleted s ⊆ list_to_set (seqZ 0 (Z.of_nat (length (st_leaves s))))) as Hsub.
  { intros i Hi. apply elem_of_list_to_set, elem_of_seqZ. apply Hwf in Hi. lia. }
  apply subseteq_size in Hsub. rewrite size_list_to_set in Hsub by apply NoDup_seqZ.
  rewrite length_seqZ in Hsub. lia.
Qed.

Lemma mm_len_rep m s :
  mm_rep m s -> st_wf s -> mm_len m = Ok (Z.of_nat (length (st_leaves s)) - Z.of_nat (size (st_deleted s))).
Proof.
  intros (_ & Hbits & Hsize & Hmax) Hwf. pose proof (deleted_size s Hwf). unfold mm_len, to_u32.
  rewrite bits_cardinality, Hbits, checked_ok by lia. cbn [unwrap mbind result_bind].
  rewrite Hsize. apply arith_ok. lia.
Qed.


End MutableSpec.

(** ** Pruned copies *)
Section MutablePruned.
Context {H : Hasher} {R : CRoaring} {RL : CRoaringLaws R} {B : Type} `{AL : ArrayLike Hash B}
  {L : ArrayLikeLaws Hash B}.

Lemma prune_mutable_rep (m : MutableMmr B) s :
  mm_rep m s -> exists p, prune_mutable_mmr m = Ok p /\ mm_rep p s /\ mm_deleted p = mm_deleted m.
Proof.
  intros (Hrep & Hbits & Hsize & Hmax).
  destruct (prune_represents _ _ Hrep) as ([b] & Hm & Hrep').
  { rewrite value_build. unfold U32_MAX in Hmax. lia. }
  unfold prune_mmr in Hm. apply bind_Ok_iff in Hm as (b' & Hb & [= ->]).
  unfold prune_mutable_mmr. rewrite Hb. cbn [mbind result_bind]. eexists. split; [done|]. split; [|done].
  split_and!; done.
Qed.

(** Pushes then deletions, as one list of operations. *)
Definition change_ops (additions : list Hash) (deletions : list Z) : list mm_op :=
  (OPush <$> additions) ++ (ODelete <$> deletions).

Lemma mm_run_changes `{AL2 : ArrayLike Hash B2} additions deletions (m : MutableMmr B2) os m' :
  mm_run (change_ops additions deletions) m = Ok (os, m') ->
  (m1 ← mm_push_all additions m; Ok (mm_delete_all deletions m1)) = Ok m'.
Proof.
  unfold change_ops. revert m os. induction additions as [|h additions IH]; intros m os.
  - cbn [fmap list_fmap app mm_push_all]. revert m os. induction deletions as [|i deletions IHd]; intros m os; cbn.
    + intros [= <- <-]. done.
    + destruct (mm_delete i m) as [b m1] eqn:Hd. cbn. intros Hr. inv_bind Hr.
      destruct r as [os' m2]. injection Hr as <- <-. exact (IHd m1 os' Hr0).
  - cbn [fmap list_fmap app mm_push_all mm_run mm_step]. intros Hr. inv_bind Hr.
    destruct r as [o m1]. inv_bind Hr. destruct r as [os' m2]. injection Hr as <- <-.
    inv_bind Hr0. destruct r as [n m1']. injection Hr0 as <- <-. rewrite Hr. cbn [mbind result_bind].
    by eapply IH.
Qed.

Lemma pushes_change_ops additions deletions : pushes (change_ops additions deletions) = additions.
Proof.
  unfold pushes, change_ops. rewrite omap_app. rewrite <- (app_nil_r additions) at 2. f_equal.
  - induction additions as [|h l IH]; cbn; [done|]. by rewrite IH.
  - by induction deletions.
Qed.

(** [calculate_pruned_mmr_root] computes, on a pruned copy, the merklish root the range has
    after the additions are pushed and the deletions applied to it. *)
Theorem calculate_pruned_mmr_root_correct (src : MutableMmr B) s additions deletions :
  mm_rep src s -> Forall (fun i => 0 <= i <= U32_MAX) deletions ->
  Z.of_nat (length (st_leaves s ++ additions)) <= U32_MAX ->
  exists os src', mm_run (change_ops additions deletions) src = Ok (os, src') /\
    calculate_pruned_mmr_root src additions deletions = mm_get_merkle_root src'.
Proof.
  intros Hrep Hdel Hmax.
  assert (Forall op_wf (change_ops additions deletions)) as Hops.
  { apply Forall_app. split; apply Forall_fmap; [by apply Forall_true|done]. }
  rewrite <- (pushes_change_ops additions deletions) in Hmax.
  destruct (prune_mutable_rep src s Hrep) as (p & Hp & Hrepp & _).
  destruct (mm_run_rep _ src s Hrep Hops Hmax) as (src' & Hrun & Hrep').
  destruct (mm_run_rep _ p s Hrepp Hops Hmax) as (p' & Hrunp & Hrepp').
  exists (st_run (change_ops additions deletions) s).1, src'. split; [done|].
  unfold calculate_pruned_mmr_root. rewrite Hp. cbn [mbind result_bind].
  apply mm_run_changes in Hrunp. apply bind_Ok_iff in Hrunp as (p1 & Hp1 & [= <-]).
  rewrite Hp1. cbn [mbind result_bind]. rewrite (mm_root_rep _ _ Hrepp'), (mm_root_rep _ _ Hrep').
  unfold merklish_root. do 3 f_equal. apply serialize_ext.
  destruct Hrepp' as (_ & -> & _). by destruct Hrep' as (_ & -> & _).
Qed.

End MutablePruned.

(** ** A model of the bitmap and examples *)
Section MutableExamples.

Definition remove_range (lo hi : Z) (b : gset Z) : gset Z := filter (fun i => ~ (lo <= i <= hi)) b.

#[local] Instance set_bitmap : CRoaring := {|
  Bitmap := gset Z; bitmap_create := ∅; bitmap_add i b := {[i]} ∪ b; bitmap_contains b i := bool_decide (i ∈ b);
  bitmap_cardinality b := Z.of_nat (size b); bitmap_or b b' := b ∪ b'; bitmap_remove_range_closed := remove_range;
  bitmap_run_optimize b := (false, b); bitmap_serialize b := elements b;
|}.

#[local] Instance set_bitmap_laws : CRoaringLaws set_bitmap.
Proof.
  refine {| bits := (fun b => b : gset Z) |}; try done.
  - intros lo hi b i. cbn. unfold remove_range. rewrite elem_of_filter. tauto.
  - cbn. by intros b b' ->.
Defined.

#[local] Instance mutable_example_hasher : Hasher := fun b => 7 :: b.

Definition empty_range : MutableMmr (list Hash) :=
  {| mm_mmr := {| hashes := [] |}; mm_deleted := bitmap_create; mm_size := 0 |}.
Definition empty_state : mm_state := {| st_leaves := []; st_deleted := ∅ |}.

Lemma empty_range_rep : mm_rep empty_range empty_state.
Proof. split_and!; [by apply represents_empty|done|done|done]. Qed.

Lemma empty_state_wf : st_wf empty_state.
Proof. intros i Hi. by apply elem_of_empty in Hi. Qed.


Lemma calculate_pruned_mmr_root_correct_witness :
  exists os src', mm_run (change_ops [[1]; [2]] [0]) empty_range = Ok (os, src') /\
    calculate_pruned_mmr_root empty_range [[1]; [2]] [0] = mm_get_merkle_root src'.
Proof.
  apply (calculate_pruned_mmr_root_correct empty_range empty_state).
  - apply empty_range_rep.
  - repeat constructor; by vm_compute.
  - by vm_compute.
Defined.

End MutableExamples.
