(* ===== verification/MmrCache.v ===== *)
(** * The range cache

    src/base_layer/mmr/src/mmr_cache.rs: [MmrCache] keeps a base range with the checkpoints up to
    [base_cp_index] applied and a pruned current range with all of them. The checkpoints live in a
    store shared with its writers: between two calls the store can change, which is modelled by
    replacing the field [checkpoints]. *)

From S2P Require Import Prelude MmrCommon Mmr MmrForest MmrSpec MutableMmr.

Local Open Scope Z_scope.

Record MmrCacheConfig := { rewind_hist_len : Z }.

Definition MmrCacheConfig_default : MmrCacheConfig := {| rewind_hist_len := 100 |}.

Section Cache.
Context {H : Hasher} {R : CRoaring} {BB CB : Type} `{ALB : ArrayLike Hash BB} `{ALC : ArrayLike MerkleCheckPoint CB}.

Record MmrCache := {
  base_cp_index : Z;
  curr_cp_index : Z;
  base_mmr : MutableMmr BB;
  curr_mmr : MutableMmr PrunedHashSet;
  checkpoints : CB;
  config : MmrCacheConfig;
}.

Implicit Types (self : MmrCache).

Definition set_base (i : Z) (m : MutableMmr BB) self : MmrCache :=
  {| base_cp_index := i; curr_cp_index := curr_cp_index self; base_mmr := m; curr_mmr := curr_mmr self;
     checkpoints := checkpoints self; config := config self |}.

Definition set_curr (i : Z) (m : MutableMmr PrunedHashSet) self : MmrCache :=
  {| base_cp_index := base_cp_index self; curr_cp_index := i; base_mmr := base_mmr self; curr_mmr := m;
     checkpoints := checkpoints self; config := config self |}.

Definition set_checkpoints (cps : CB) self : MmrCache :=
  {| base_cp_index := base_cp_index self; curr_cp_index := curr_cp_index self; base_mmr := base_mmr self;
     curr_mmr := curr_mmr self; checkpoints := cps; config := config self |}.

Definition calculate_base_cp_index self : mmr_result Z :=
  cp_count ← backend_err (al_len (checkpoints self));
  if rewind_hist_len (config self) <? cp_count then Ok (cp_count - rewind_hist_len (config self)) else Ok 0.

(** The body shared by the loops: [if let Some(cp) = self.checkpoints.get(cp_index)? { cp.apply(mmr)?; }] *)
Fixpoint apply_checkpoints `{ArrayLike Hash B} (cps : CB) (indices : list Z) (mmr : MutableMmr B)
    : mmr_result (MutableMmr B) :=
  match indices with
  | [] => Ok mmr
  | cp_index :: indices =>
      o ← backend_err (al_get cp_index cps);
      mmr ← match o with Some cp => checkpoint_apply cp mmr | None => Ok mmr end;
      apply_checkpoints cps indices mmr
  end.

Definition create_base_mmr self : mmr_result MmrCache :=
  base ← mm_clear (base_mmr self);
  i ← calculate_base_cp_index self;
  base ← apply_checkpoints (checkpoints self) (range_inclusive 0 i) base;
  Ok (set_base i base self).

Definition create_curr_mmr self : mmr_result MmrCache :=
  curr_index ← backend_err (al_len (checkpoints self));
  curr ← prune_mutable_mmr (base_mmr self);
  first ← arith 0 USIZE_MAX (base_cp_index self + 1);
  curr ← apply_checkpoints (checkpoints self) (seqZ first (curr_index - first)) curr;
  Ok (set_curr curr_index curr self).

Definition update_base_mmr self : mmr_result MmrCache :=
  let prev_cp_index := base_cp_index self in
  i ← calculate_base_cp_index self;
  if prev_cp_index <? i then
    base ← apply_checkpoints (checkpoints self) (range_inclusive (prev_cp_index + 1) i) (base_mmr self);
    Ok (set_base i base self)
  else create_base_mmr (set_base i (base_mmr self) self).

Definition cache_update self : mmr_result MmrCache :=
  cp_count ← backend_err (al_len (checkpoints self));
  if cp_count <=? base_cp_index self then self ← create_base_mmr self; create_curr_mmr self
  else if cp_count <? curr_cp_index self then create_curr_mmr self
  else if curr_cp_index self <? cp_count then self ← update_base_mmr self; create_curr_mmr self
  else Ok self.

Definition checkpoints_merged (num_merged : Z) self : mmr_result MmrCache :=
  let self :=
    if num_merged =? 0 then self
    else
      let num_reverse := num_merged - 1 in
      {| base_cp_index := Z.max 0 (base_cp_index self - num_reverse);
         curr_cp_index := Z.max 0 (curr_cp_index self - num_reverse);
         base_mmr := base_mmr self; curr_mmr := curr_mmr self; checkpoints := checkpoints self;
         config := config self |} in
  cache_update self.

Definition cache_reset self : mmr_result MmrCache := self ← create_base_mmr self; create_curr_mmr self.

Definition cache_new (base : BB) (cps : CB) (conf : MmrCacheConfig) : mmr_result MmrCache :=
  base ← mm_new base bitmap_create;
  curr ← prune_mutable_mmr base;
  cache_reset {| base_cp_index := 0; curr_cp_index := 0; base_mmr := base; curr_mmr := curr;
                 checkpoints := cps; config := conf |}.

Definition fetch_mmr_node (leaf_index : Z) self : mmr_result (option Hash * bool) :=
  '(base_hash, base_deleted) ← mm_get_leaf_status leaf_index (base_mmr self);
  '(curr_hash, curr_deleted) ← mm_get_leaf_status leaf_index (curr_mmr self);
  match base_hash with
  | Some base_hash => Ok (Some base_hash, base_deleted || curr_deleted)
  | None => Ok (curr_hash, base_deleted || curr_deleted)
  end.

Definition cache_find_leaf_index (hash : Hash) self : mmr_result (option Z) :=
  index ← mm_find_leaf_index hash (base_mmr self);
  match index with
  | None => mm_find_leaf_index hash (curr_mmr self)
  | Some i => Ok (Some i)
  end.

End Cache.

(** ** The state the cache stands for *)
Section CacheSpec.
Context {H : Hasher} {R : CRoaring} {RL : CRoaringLaws R} {BB CB : Type} `{ALB : ArrayLike Hash BB}
  {LB : ArrayLikeLaws Hash BB} `{ALC : ArrayLike MerkleCheckPoint CB}.
Implicit Types (cps : list MerkleCheckPoint) (store : CB) (c : MmrCache (BB := BB) (CB := CB)).

(** All leaves added and all indices deleted by a list of checkpoints. *)
Definition cp_state cps : mm_state :=
  {| st_leaves := concat (map nodes_added cps); st_deleted := ⋃ (map (fun cp => bits (nodes_deleted cp)) cps) |}.

Definition cp_small cps : Prop := Z.of_nat (length (concat (map nodes_added cps))) <= U32_MAX.

(** The store holds the checkpoints. *)
Definition holds_cps store cps : Prop :=
  al_len store = Ok (Z.of_nat (length cps)) /\ forall i, 0 <= i -> al_get i store = Ok (cps !! Z.to_nat i).

(** The cache is up to date with [cps]: the base range has the checkpoints up to its index, the
    current range has all of them. *)
Definition synced c cps : Prop :=
  holds_cps (checkpoints c) cps /\ curr_cp_index c = Z.of_nat (length cps) /\
  0 <= base_cp_index c /\ (base_cp_index c < Z.of_nat (length cps) \/ cps = [] /\ base_cp_index c = 0) /\
  mm_rep (base_mmr c) (cp_state (take (Z.to_nat (base_cp_index c + 1)) cps)) /\
  mm_rep (curr_mmr c) (cp_state cps).

Lemma cp_state_app cps cps' :
  cp_state (cps ++ cps') =
    {| st_leaves := st_leaves (cp_state cps) ++ st_leaves (cp_state cps');
       st_deleted := st_deleted (cp_state cps) ∪ st_deleted (cp_state cps') |}.
Proof.
  unfold cp_state. cbn. rewrite !map_app, concat_app, union_list_app_L. done.
Qed.

Lemma cp_small_app cps cps' : cp_small (cps ++ cps') -> cp_small cps.
Proof. unfold cp_small. rewrite map_app, concat_app, length_app. lia. Qed.

Lemma mm_push_all_rep `{AL : ArrayLike Hash B} {L : ArrayLikeLaws Hash B} hs (m : MutableMmr B) s :
  mm_rep m s -> Z.of_nat (length (st_leaves s ++ hs)) <= U32_MAX ->
  exists m', mm_push_all hs m = Ok m' /\
    mm_rep m' {| st_leaves := st_leaves s ++ hs; st_deleted := st_deleted s |}.
Proof.
  revert m s. induction hs as [|h hs IH]; intros m s Hrep Hmax; cbn [mm_push_all].
  - exists m. rewrite app_nil_r. by destruct s.
  - rewrite length_app in Hmax. cbn [length] in Hmax.
    destruct (mm_push_rep h m s Hrep) as (m1 & Hp & Hrep1); [lia|]. rewrite Hp. cbn [mbind result_bind].
    destruct (IH m1 _ Hrep1) as (m2 & Hall & Hrep2).
    { cbn. rewrite !length_app. cbn. lia. }
    exists m2. cbn in Hrep2. by rewrite <- app_assoc in Hrep2.
Qed.

Lemma checkpoint_apply_rep `{AL : ArrayLike Hash B} {L : ArrayLikeLaws Hash B} cp cps (m : MutableMmr B) :
  mm_rep m (cp_state cps) -> cp_small (cps ++ [cp]) ->
  exists m', checkpoint_apply cp m = Ok m' /\ mm_rep m' (cp_state (cps ++ [cp])).
Proof.
  intros Hrep Hmax. unfold checkpoint_apply. unfold cp_small in Hmax.
  rewrite map_app, concat_app in Hmax. cbn [map concat] in Hmax. rewrite app_nil_r in Hmax.
  destruct (mm_push_all_rep (nodes_added cp) m _ Hrep Hmax) as (m1 & Hp & Hrep1).
  rewrite Hp. cbn [mbind result_bind]. eexists. split; [done|].
  destruct Hrep1 as (Hr & Hb & Hs & Hm). rewrite cp_state_app. cbn in *. rewrite !app_nil_r, union_empty_r_L.
  split_and!; cbn; [done| |done|done]. by rewrite bits_or, Hb.
Qed.

(** Applying the checkpoints at indices [i..i+n) after the ones before them; indices past the end
    are skipped. *)
Lemma apply_checkpoints_rep `{AL : ArrayLike Hash B} {L : ArrayLikeLaws Hash B} store cps n i (m : MutableMmr B) :
  holds_cps store cps -> cp_small cps -> 0 <= i -> mm_rep m (cp_state (take (Z.to_nat i) cps)) ->
  exists m', apply_checkpoints store (seqZ i (Z.of_nat n)) m = Ok m' /\
    mm_rep m' (cp_state (take (Z.to_nat i + n) cps)).
Proof.
  intros [_ Hget] Hmax. revert i m. induction n as [|n IH]; intros i m Hi Hrep.
  { exists m. by rewrite Nat.add_0_r. }
  rewrite seqZ_cons by lia. cbn [apply_checkpoints]. rewrite Hget by done. cbn [backend_err map_err mbind result_bind].
  assert (exists m1, match cps !! Z.to_nat i with Some cp => checkpoint_apply cp m | None => Ok m end = Ok m1 /\
    mm_rep m1 (cp_state (take (Z.to_nat (i + 1)) cps))) as (m1 & Hm1 & Hrep1).
  { replace (Z.to_nat (i + 1)) with (S (Z.to_nat i)) by lia. destruct (cps !! Z.to_nat i) as [cp|] eqn:Hcp.
    - rewrite (take_S_r _ _ cp) by done. apply checkpoint_apply_rep; [done|].
      rewrite <- (take_S_r _ _ cp) by done. apply (cp_small_app _ (drop (S (Z.to_nat i)) cps)). by rewrite take_drop.
    - exists m. split; [done|]. apply lookup_ge_None in Hcp. rewrite take_ge in Hrep |- * by lia. done. }
  rewrite Hm1. cbn [mbind result_bind]. unfold Z.succ. replace (Z.pred (Z.of_nat (S n))) with (Z.of_nat n) by lia.
  destruct (IH (i + 1) m1 ltac:(lia) Hrep1) as (m2 & Hm2 & Hrep2).
  exists m2. split; [done|]. by replace (Z.to_nat i + S n)%nat with (Z.to_nat (i + 1) + n)%nat by lia.
Qed.

(** ** Rebuilding *)

Lemma calculate_base_spec c cps :
  holds_cps (checkpoints c) cps -> 1 <= rewind_hist_len (config c) ->
  exists i, calculate_base_cp_index c = Ok i /\ 0 <= i /\
    (i < Z.of_nat (length cps) \/ cps = [] /\ i = 0).
Proof.
  intros [Hlen _] Hh. unfold calculate_base_cp_index. rewrite Hlen. cbn [backend_err map_err mbind result_bind].
  destruct (Z.ltb_spec (rewind_hist_len (config c)) (Z.of_nat (length cps))).
  - eexists. split; [done|]. lia.
  - exists 0. split; [done|]. split; [lia|]. destruct cps; [by right|left; cbn; lia].
Qed.

Lemma mm_clear_rep (m : MutableMmr BB) : exists m', mm_clear m = Ok m' /\ mm_rep m' (cp_state []).
Proof.
  unfold mm_clear, mmr_clear. destruct (law_clear (hashes (mm_mmr m))) as (b & Hb & Hl). rewrite Hb.
  cbn [backend_err map_err mbind result_bind]. eexists. split; [done|].
  split_and!; cbn; [by apply represents_empty|apply bits_create|done|done].
Qed.

Lemma create_base_spec c cps :
  holds_cps (checkpoints c) cps -> cp_small cps -> 1 <= rewind_hist_len (config c) ->
  exists i m, create_base_mmr c = Ok (set_base i m c) /\ 0 <= i /\
    (i < Z.of_nat (length cps) \/ cps = [] /\ i = 0) /\ mm_rep m (cp_state (take (Z.to_nat (i + 1)) cps)).
Proof.
  intros Hst Hmax Hh. destruct (calculate_base_spec c cps Hst Hh) as (i & Hi & Hi0 & Hlt).
  destruct (mm_clear_rep (base_mmr c)) as (m0 & Hm0 & Hrep0).
  unfold create_base_mmr. rewrite Hm0. cbn [mbind result_bind]. rewrite Hi. cbn [mbind result_bind].
  destruct (apply_checkpoints_rep (checkpoints c) cps (Z.to_nat (i + 1)) 0 m0) as (m & Hm & Hrep); [done|done|lia|done|].
  unfold range_inclusive. rewrite Z.sub_0_r. rewrite Z2Nat.id in Hm by lia. rewrite Hm. cbn [mbind result_bind].
  exists i, m. split_and!; done.
Qed.

Lemma create_curr_spec c cps :
  holds_cps (checkpoints c) cps -> cp_small cps -> Z.of_nat (length cps) < 2 ^ 63 ->
  0 <= base_cp_index c -> (base_cp_index c < Z.of_nat (length cps) \/ cps = [] /\ base_cp_index c = 0) ->
  mm_rep (base_mmr c) (cp_state (take (Z.to_nat (base_cp_index c + 1)) cps)) ->
  exists c', create_curr_mmr c = Ok c' /\ synced c' cps /\ config c' = config c.
Proof.
  intros Hst Hmax Hlen Hb Hlt Hrep. pose proof Hst as [Hl _]. unfold create_curr_mmr. rewrite Hl.
  cbn [backend_err map_err mbind result_bind].
  destruct (prune_mutable_rep _ _ Hrep) as (p & Hp & Hrepp & _). rewrite Hp. cbn [mbind result_bind].
  rewrite arith_ok by (unfold USIZE_MAX, U64_MAX; lia). cbn [mbind result_bind].
  set (n := Z.of_nat (length cps) - (base_cp_index c + 1)).
  destruct (apply_checkpoints_rep (checkpoints c) cps (Z.to_nat n) (base_cp_index c + 1) p) as (m & Hm & Hrepm);
    [done|done|lia|done|].
  assert (apply_checkpoints (checkpoints c) (seqZ (base_cp_index c + 1) n) p = Ok m) as ->.
  { destruct (Z.le_ge_cases 0 n); [by rewrite Z2Nat.id in Hm by lia|].
    replace (Z.to_nat n) with 0%nat in Hm by lia. unfold seqZ in *. by replace (Z.to_nat n) with 0%nat by lia. }
  cbn [mbind result_bind]. eexists. split; [done|]. split; [|done]. split_and!; cbn; try done.
  rewrite take_ge in Hrepm; [done|]. unfold n. destruct Hlt as [|[-> _]]; [lia|cbn; lia].
Qed.

Lemma create_both_spec c cps :
  holds_cps (checkpoints c) cps -> cp_small cps -> Z.of_nat (length cps) < 2 ^ 63 -> 1 <= rewind_hist_len (config c) ->
  exists c', (c ← create_base_mmr c; create_curr_mmr c) = Ok c' /\ synced c' cps /\ config c' = config c.
Proof.
  intros Hst Hmax Hlen Hh. destruct (create_base_spec c cps Hst Hmax Hh) as (i & m & Hc & Hi & Hlt & Hrep).
  rewrite Hc. cbn [mbind result_bind].
  destruct (create_curr_spec (set_base i m c) cps) as (c' & Hc' & Hs & Hconf); try done. by exists c'.
Qed.

(** Extending the base range after checkpoints were appended. *)
Lemma update_base_spec c cps :
  holds_cps (checkpoints c) cps -> cp_small cps -> 1 <= rewind_hist_len (config c) ->
  0 <= base_cp_index c -> mm_rep (base_mmr c) (cp_state (take (Z.to_nat (base_cp_index c + 1)) cps)) ->
  exists i m, update_base_mmr c = Ok (set_base i m c) /\ 0 <= i /\
    (i < Z.of_nat (length cps) \/ cps = [] /\ i = 0) /\ mm_rep m (cp_state (take (Z.to_nat (i + 1)) cps)).
Proof.
  intros Hst Hmax Hh Hb Hrep. destruct (calculate_base_spec c cps Hst Hh) as (i & Hi & Hi0 & Hlt).
  unfold update_base_mmr. rewrite Hi. cbn [mbind result_bind]. destruct (Z.ltb_spec (base_cp_index c) i) as [Hup|Hdown].
  - destruct (apply_checkpoints_rep (checkpoints c) cps (Z.to_nat (i - base_cp_index c)) (base_cp_index c + 1) (base_mmr c))
      as (m & Hm & Hrepm); [done|done|lia|done|].
    rewrite Z2Nat.id in Hm by lia. unfold range_inclusive.
    replace (i - (base_cp_index c + 1) + 1) with (i - base_cp_index c) by lia. rewrite Hm. cbn [mbind result_bind].
    exists i, m. split_and!; try done. by replace (Z.to_nat (i + 1))
      with (Z.to_nat (base_cp_index c + 1) + Z.to_nat (i - base_cp_index c))%nat by lia.
  - destruct (create_base_spec (set_base i (base_mmr c) c) cps) as (j & m & Hc & Hj & Hlt' & Hrep'); try done.
    exists j, m. by rewrite Hc.
Qed.

(** What can happen to the shared store between two updates: checkpoints are appended (to a store
    the cache has seen a checkpoint of), or the last ones are removed. *)
Definition store_change cps cps' : Prop :=
  (cps <> [] /\ exists new, cps' = cps ++ new) \/ (exists k, (k <= length cps)%nat /\ cps' = take k cps).

Lemma take_prefix_base c cps cps' :
  store_change cps cps' ->
  (base_cp_index c < Z.of_nat (length cps) \/ cps = [] /\ base_cp_index c = 0) ->
  base_cp_index c < Z.of_nat (length cps') -> 0 <= base_cp_index c ->
  take (Z.to_nat (base_cp_index c + 1)) cps' = take (Z.to_nat (base_cp_index c + 1)) cps.
Proof.
  intros [(Hne & new & ->)|(k & Hk & ->)] Hlt Hlt' Hb.
  - rewrite take_app_le; [done|]. destruct Hlt as [|[-> _]]; [lia|done].
  - rewrite length_take in Hlt'. rewrite take_take. f_equal. lia.
Qed.

Lemma cache_update_spec c cps cps' store' :
  synced c cps -> holds_cps store' cps' -> store_change cps cps' -> cp_small cps' ->
  Z.of_nat (length cps') < 2 ^ 63 -> 1 <= rewind_hist_len (config c) ->
  exists c', cache_update (set_checkpoints store' c) = Ok c' /\ synced c' cps' /\ config c' = config c.
Proof.
  intros (_ & Hcurr & Hb & Hlt & Hbase & Hcurrm) Hst Hch Hmax Hlen Hh. pose proof Hst as [Hl _].
  unfold cache_update. cbn [checkpoints set_checkpoints base_cp_index curr_cp_index]. rewrite Hl.
  cbn [backend_err map_err mbind result_bind].
  destruct (Z.leb_spec (Z.of_nat (length cps')) (base_cp_index c)) as [Hle|Hgt].
  { by apply (create_both_spec (set_checkpoints store' c) cps'). }
  pose proof (take_prefix_base c cps cps' Hch Hlt ltac:(lia) Hb) as Htake.
  rewrite <- Htake in Hbase. rewrite Hcurr.
  destruct (Z.ltb_spec (Z.of_nat (length cps')) (Z.of_nat (length cps))) as [Hshort|Hlong].
  { apply (create_curr_spec (set_checkpoints store' c) cps'); try done. left. done. }
  destruct (Z.ltb_spec (Z.of_nat (length cps)) (Z.of_nat (length cps'))) as [Hext|Hsame].
  - destruct (update_base_spec (set_checkpoints store' c) cps') as (i & m & Hc & Hi & Hlti & Hrep); try done.
    rewrite Hc. cbn [mbind result_bind].
    by apply (create_curr_spec (set_base i m (set_checkpoints store' c)) cps').
  - exists (set_checkpoints store' c). split; [done|]. split; [|done].
    assert (cps' = cps) as ->.
    { destruct Hch as [(_ & new & ->)|(k & Hk & ->)].
      - rewrite length_app in *. destruct new; [by rewrite app_nil_r|cbn in *; lia].
      - rewrite length_take in *. by rewrite take_ge by lia. }
    split_and!; done.
Qed.

(** With a rewind history of at least one checkpoint, an update brings the cache in line
    with the shared checkpoints after any append or rewind of them: its current range has exactly
    the leaves and deletions of all checkpoints, and so has its root. *)
Theorem cache_update_correct c cps cps' store' :
  synced c cps -> holds_cps store' cps' -> store_change cps cps' -> cp_small cps' ->
  Z.of_nat (length cps') < 2 ^ 63 -> 1 <= rewind_hist_len (config c) ->
  exists c', cache_update (set_checkpoints store' c) = Ok c' /\ synced c' cps' /\
    mm_get_merkle_root (curr_mmr c') =
      Ok (merklish_root (concat (map nodes_added cps')) (mm_deleted (curr_mmr c'))) /\
    bits (mm_deleted (curr_mmr c')) = ⋃ (map (fun cp => bits (nodes_deleted cp)) cps').
Proof.
  intros Hs Hst Hch Hmax Hlen Hh.
  destruct (cache_update_spec c cps cps' store' Hs Hst Hch Hmax Hlen Hh) as (c' & Hc & Hsync & _).
  exists c'. pose proof Hsync as (_ & _ & _ & _ & _ & Hrep). split_and!; [done|done| |].
  - by rewrite (mm_root_rep _ _ Hrep).
  - by destruct Hrep as (_ & -> & _).
Qed.

End CacheSpec.

(** ** Examples, and the two configurations the theorem excludes *)
Section CacheExamples.

#[local] Existing Instance set_bitmap.
#[local] Existing Instance set_bitmap_laws.
#[local] Existing Instance mutable_example_hasher.

Definition example_cp (h : Z) : MerkleCheckPoint :=
  {| nodes_added := [[h]]; nodes_deleted := bitmap_create; prev_accumulated_nodes_added_count := 0 |}.

Abbreviation example_cache := (MmrCache (BB := list Hash) (CB := list MerkleCheckPoint)).

Definition initial_cache (hist : Z) (cps : list MerkleCheckPoint) : example_cache :=
  {| base_cp_index := 0; curr_cp_index := 0; base_mmr := empty_range;
     curr_mmr := {| mm_mmr := {| hashes := PrunedHashSet_default |}; mm_deleted := bitmap_create; mm_size := 0 |};
     checkpoints := cps; config := {| rewind_hist_len := hist |} |}.

Lemma list_holds_cps (cps : list MerkleCheckPoint) : holds_cps cps cps.
Proof. by split. Qed.

Lemma cache_update_correct_witness :
  exists (c c' : example_cache), synced c [example_cp 1] /\
    cache_update (set_checkpoints [example_cp 1; example_cp 2; example_cp 3] c) = Ok c' /\
    synced c' [example_cp 1; example_cp 2; example_cp 3].
Proof.
  destruct (create_both_spec (initial_cache 1 [example_cp 1]) [example_cp 1]) as (c & _ & Hs & Hconf).
  - apply list_holds_cps.
  - by vm_compute.
  - cbn. lia.
  - done.
  - destruct (cache_update_correct c [example_cp 1] [example_cp 1; example_cp 2; example_cp 3]
      [example_cp 1; example_cp 2; example_cp 3] Hs) as (c' & Hup & Hs' & _).
    + apply list_holds_cps.
    + left. split; [done|]. by exists [example_cp 2; example_cp 3].
    + by vm_compute.
    + cbn. lia.
    + by rewrite Hconf.
    + by exists c, c'.
Defined.

(** The number of leaves in the current range after an update. *)
Definition leaves_after (hist : Z) (before after : list MerkleCheckPoint) : mmr_result Z :=
  c ← cache_new (BB := list Hash) [] before {| rewind_hist_len := hist |};
  c ← cache_update (set_checkpoints after c);
  Ok (mm_size (curr_mmr c)).

(** Outside of the conditions of the update theorem the cache loses a checkpoint: when it is
    created on an empty store and more checkpoints than the rewind history arrive before the first
    update, checkpoint 0 is never applied; with a rewind history of 0 the first checkpoint of
    every batch is skipped. *)
Theorem cache_update_skips :
  leaves_after 1 [] [example_cp 1; example_cp 2] = Ok 1 /\
  leaves_after 0 [example_cp 1] [example_cp 1; example_cp 2] = Ok 1 /\
  leaves_after 1 [example_cp 1] [example_cp 1; example_cp 2] = Ok 2.
Proof. split_and!; by_evaluation. Qed.

End CacheExamples.
