(* ===== verification/BalancedMerkle.v ===== *)
(** * Balanced binary Merkle trees

    src/base_layer/mmr/src: [BalancedBinaryMerkleTree] of balanced_binary_merkle_tree.rs and the
    single and merged proofs of balanced_binary_merkle_proof.rs. The tree is an array in heap
    order, with the leaves at its end. *)

From S2P Require Import Prelude CryptoModel MmrCommon Mmr.

Local Open Scope Z_scope.

Inductive BalancedBinaryMerkleTreeError := LeafNotFound | MathOverFlow.

Inductive BalancedBinaryMerkleProofError := CantMergeZeroProofs | BadProofSemantics | MathOverflow.

#[export] Instance BalancedBinaryMerkleTreeError_eq_dec : EqDecision BalancedBinaryMerkleTreeError.
Proof. solve_decision. Defined.
#[export] Instance BalancedBinaryMerkleProofError_eq_dec : EqDecision BalancedBinaryMerkleProofError.
Proof. solve_decision. Defined.

Section Balanced.
Context {H : Hasher}.

Record BalancedBinaryMerkleTree := { tree_hashes : list Hash }.

(** One iteration of [create]: [hashes[i] = hash_together(&hashes[2i+1], &hashes[2i+2])]. *)
Definition create_step {E} (hashes : list Hash) (i : nat) : result E (list Hash) :=
  l ← index hashes (2 * i + 1);
  r ← index hashes (2 * i + 2);
  _ ← index hashes i;
  Ok (<[i := hash_together l r]> hashes).

Definition tree_create {E} (leaves : list Hash) : result E BalancedBinaryMerkleTree :=
  let leaves_cnt := length leaves in
  match leaves with
  | [] => Ok {| tree_hashes := [] |}
  | _ =>
      let hashes := replicate (leaves_cnt - 1) (replicate 32 0) ++ leaves in
      hashes ← foldM create_step (rev (seq 0 (leaves_cnt - 1))) hashes;
      Ok {| tree_hashes := hashes |}
  end.

Definition tree_get_merkle_root (self : BalancedBinaryMerkleTree) : Hash :=
  match tree_hashes self with
  | [] => digest []
  | h :: _ => h
  end.

Definition get_hash {E} (pos : nat) (self : BalancedBinaryMerkleTree) : result E Hash := index (tree_hashes self) pos.

(** [leaf_index + (self.hashes.len() >> 1)] *)
Definition get_node_index (leaf_index : nat) (self : BalancedBinaryMerkleTree) : nat :=
  leaf_index + Nat.div2 (length (tree_hashes self)).

Definition get_leaf {E} (leaf_index : nat) (self : BalancedBinaryMerkleTree) : result E Hash :=
  get_hash (get_node_index leaf_index self) self.

Definition tree_cast_to_u32 (value : nat) : result BalancedBinaryMerkleTreeError Z :=
  ok_or (checked 0 U32_MAX (Z.of_nat value)) MathOverFlow.

Definition find_leaf_index_for_hash (hash : Hash) (self : BalancedBinaryMerkleTree)
    : result BalancedBinaryMerkleTreeError Z :=
  pos ← ok_or (position (fun h => bool_decide (h = hash)) (tree_hashes self)) LeafNotFound;
  if decide (pos < Nat.div2 (length (tree_hashes self)))%nat then Err LeafNotFound
  else tree_cast_to_u32 (pos - Nat.div2 (length (tree_hashes self))).

(** ** Proofs of one leaf *)

Record BalancedBinaryMerkleProof := { bp_path : list Hash; bp_node_index : Z }.

Definition cast_to_u32 (value : nat) : result BalancedBinaryMerkleProofError Z :=
  ok_or (checked 0 U32_MAX (Z.of_nat value)) MathOverflow.

(** The loop of [verify]; [node_index - 1] panics on 0. *)
Fixpoint bp_verify_loop {E} (path : list Hash) (node_index : Z) (computed_root : Hash) : result E Hash :=
  match path with
  | [] => Ok computed_root
  | sibling :: path =>
      let computed_root :=
        if Z.land node_index 1 =? 1 then hash_together computed_root sibling
        else hash_together sibling computed_root in
      d ← arith 0 U32_MAX (node_index - 1);
      bp_verify_loop path (Z.shiftr d 1) computed_root
  end.

Definition bp_verify {E} (self : BalancedBinaryMerkleProof) (root leaf_hash : Hash) : result E bool :=
  r ← bp_verify_loop (bp_path self) (bp_node_index self) leaf_hash;
  Ok (bool_decide (r = root)).

(** The loop of [generate_proof]; the index decreases. *)
Fixpoint bp_generate_loop {E} (fuel : nat) (tree : BalancedBinaryMerkleTree) (node_index : nat) (proof : list Hash)
    : result E (list Hash) :=
  match node_index with
  | O => Ok proof
  | S pred =>
      match fuel with
      | O => Panic
      | S fuel =>
          let parent := Nat.div2 pred in
          h ← get_hash (4 * parent + 3 - node_index) tree;
          bp_generate_loop fuel tree parent (proof ++ [h])
      end
  end.

Definition bp_generate_proof (tree : BalancedBinaryMerkleTree) (leaf_index : nat)
    : result BalancedBinaryMerkleProofError BalancedBinaryMerkleProof :=
  let node_index := get_node_index leaf_index tree in
  path ← bp_generate_loop node_index tree node_index [];
  i ← cast_to_u32 (get_node_index leaf_index tree);
  Ok {| bp_path := path; bp_node_index := i |}.

(** ** Merged proofs *)

Inductive MergedBalancedBinaryMerkleDataType := DataIndex | DataHash.

Record MergedBalancedBinaryMerkleProof := {
  mp_paths : list (list (MergedBalancedBinaryMerkleDataType * list Z));
  mp_node_indices : list Z;
  mp_heights : list Z;
}.

(** [iter().max()] *)
Definition list_max_Z (l : list Z) : option Z :=
  match l with
  | [] => None
  | x :: l => Some (fold_left Z.max l x)
  end.

(** The locals of [create_from_proofs]. *)
Record MergeState := {
  ms_indices : list Z;
  ms_paths : list (list (MergedBalancedBinaryMerkleDataType * list Z));
  ms_join : list (option nat);
  ms_map : gmap Z nat;
}.

(** The inner loop's body for one proof at one height. *)
Definition merge_one (height : nat) (ms : MergeState) (ip : nat * BalancedBinaryMerkleProof)
    : result BalancedBinaryMerkleProofError MergeState :=
  let '(i, proof) := ip in
  joined ← index (ms_join ms) i;
  if bool_decide (joined = None) && (height <? length (bp_path proof))%nat then
    idx ← index (ms_indices ms) i;
    d ← arith 0 U32_MAX (idx - 1);
    let parent := Z.shiftr d 1 in
    let map' := <[parent := i]> (ms_map ms) in
    '(join, paths) ←
      match ms_map ms !! parent with
      | Some other_proof =>
          p ← index (ms_paths ms) other_proof;
          match p with
          | [] => Panic
          | _ :: p => Ok (<[i := Some other_proof]> (ms_join ms),
                          <[other_proof := (DataIndex, le_bytes 8 (Z.of_nat i)) :: p]> (ms_paths ms))
          end
      | None =>
          p ← index (ms_paths ms) i;
          h ← index (bp_path proof) (length (bp_path proof) - 1 - height);
          Ok (ms_join ms, <[i := (DataHash, h) :: p]> (ms_paths ms))
      end;
    Ok {| ms_indices := <[i := parent]> (ms_indices ms); ms_paths := paths; ms_join := join; ms_map := map' |}
  else Ok ms.

(** One height: a fresh map, then every proof in order. *)
Definition merge_row (proofs : list BalancedBinaryMerkleProof) (ms : MergeState) (height : nat)
    : result BalancedBinaryMerkleProofError MergeState :=
  foldM (merge_one height) (imap pair proofs)
    {| ms_indices := ms_indices ms; ms_paths := ms_paths ms; ms_join := ms_join ms; ms_map := ∅ |}.

Definition create_from_proofs (proofs : list BalancedBinaryMerkleProof)
    : result BalancedBinaryMerkleProofError MergedBalancedBinaryMerkleProof :=
  heights ← mapM (fun proof => cast_to_u32 (length (bp_path proof))) proofs;
  max_height ← ok_or (list_max_Z heights) CantMergeZeroProofs;
  ms ← foldM (merge_row proofs) (rev (seq 0 (Z.to_nat max_height)))
         {| ms_indices := map bp_node_index proofs; ms_paths := replicate (length proofs) [];
            ms_join := replicate (length proofs) None; ms_map := ∅ |};
  Ok {| mp_paths := ms_paths ms; mp_node_indices := map bp_node_index proofs; mp_heights := heights |}.

(** The locals of [verify_consume]: the paths and indices of [self] and the computed hashes. *)
Record VerifyState := {
  vs_paths : list (list (MergedBalancedBinaryMerkleDataType * list Z));
  vs_indices : list Z;
  vs_hashes : list Hash;
}.

(** [usize::from_le_bytes(bytes.try_into()?)], an index into the snapshot [hashes]. *)
Definition data_hash (hashes : list Hash) (d : MergedBalancedBinaryMerkleDataType * list Z)
    : result BalancedBinaryMerkleProofError Hash :=
  match d with
  | (DataIndex, b) =>
      if decide (length b = 8%nat) then
        let i := le_value b in
        if i <? Z.of_nat (length hashes) then index hashes (Z.to_nat i) else Err BadProofSemantics
      else Err BadProofSemantics
  | (DataHash, b) => Ok b
  end.

Definition verify_one (heights : list Z) (height : Z) (hashes : list Hash) (vs : VerifyState) (i : nat)
    : result BalancedBinaryMerkleProofError VerifyState :=
  h ← index heights i;
  if height <? h then
    path ← index (vs_paths vs) i;
    match vec_pop path with
    | None => Ok vs
    | Some (hash_or_index, path) =>
        hash ← data_hash hashes hash_or_index;
        idx ← index (vs_indices vs) i;
        d ← arith 0 U32_MAX (idx - 1);
        leaf ← index (vs_hashes vs) i;
        let leaf := if Z.land idx 1 =? 1 then hash_together leaf hash else hash_together hash leaf in
        Ok {| vs_paths := <[i := path]> (vs_paths vs); vs_indices := <[i := Z.shiftr d 1]> (vs_indices vs);
              vs_hashes := <[i := leaf]> (vs_hashes vs) |}
    end
  else Ok vs.

Definition verify_row (heights : list Z) (n : nat) (vs : VerifyState) (height : nat)
    : result BalancedBinaryMerkleProofError VerifyState :=
  foldM (verify_one heights (Z.of_nat height) (vs_hashes vs)) (seq 0 n) vs.

Definition mp_verify_consume (self : MergedBalancedBinaryMerkleProof) (root : Hash) (leaves_hashes : list Hash)
    : result BalancedBinaryMerkleProofError bool :=
  let n := length (mp_node_indices self) in
  if negb (length (mp_paths self) =? n)%nat || negb (length leaves_hashes =? n)%nat then Err BadProofSemantics
  else
    max_height ← ok_or (list_max_Z (mp_heights self)) CantMergeZeroProofs;
    vs ← foldM (verify_row (mp_heights self) n) (rev (seq 0 (Z.to_nat max_height)))
           {| vs_paths := mp_paths self; vs_indices := mp_node_indices self; vs_hashes := leaves_hashes |};
    h ← index (vs_hashes vs) 0;
    Ok (bool_decide (h = root)).

End Balanced.

(** * What balanced Merkle trees and their proofs promise

    The array built by [tree_create] satisfies the Merkle equations, the proofs it yields verify,
    and a proof that verifies shows a leaf of the tree. *)

Section BalancedSpec.
Context {H : Hasher}.

(** The Merkle equations from node [p] on, for a tree of [n] leaves. *)
Definition heap_from (p n : nat) (A : list Hash) : Prop :=
  length A = (2 * n - 1)%nat /\
  forall i, (p <= i < n - 1)%nat -> exists l r,
    A !! (2 * i + 1)%nat = Some l /\ A !! (2 * i + 2)%nat = Some r /\ A !! i = Some (hash_together l r).

(** The array of a tree over [leaves]. *)
Definition heap_of (leaves : list Hash) (A : list Hash) : Prop :=
  heap_from 0 (length leaves) A /\ drop (length leaves - 1) A = leaves.

(** The depth of a node of the heap. *)
Definition node_depth (k : nat) : nat := Nat.log2 (k + 1).

Definition parent (k : nat) : nat := Nat.div2 (k - 1).
Definition sibling (k : nat) : nat := 4 * parent k + 3 - k.

(** The path of node [k]: the siblings of its ancestors, from the node up. *)
Definition honest_path (A : list Hash) (k : nat) (path : list Hash) : Prop :=
  length path = node_depth k /\
  forall d, (d < node_depth k)%nat -> path !! d = A !! sibling (Nat.iter d parent k).

(** The inputs the tree hashes, and those a verifier hashes on the way up. *)
Definition hashed_by_tree (A : list Hash) (x : list Z) : Prop :=
  exists i l r, A !! (2 * i + 1)%nat = Some l /\ A !! (2 * i + 2)%nat = Some r /\ x = l ++ r.

Definition bp_input (k : nat) (h s : Hash) : list Z := if Nat.odd k then h ++ s else s ++ h.

Fixpoint hashed_by_bp (k : nat) (path : list Hash) (h : Hash) : list (list Z) :=
  match path with
  | [] => []
  | s :: path => bp_input k h s :: hashed_by_bp (Nat.div2 (k - 1)) path (digest (bp_input k h s))
  end.

(** ** The array *)

Lemma index_Some {E A} (l : list A) i x : l !! i = Some x -> @index E A l i = Ok x.
Proof. unfold index. by intros ->. Qed.

Lemma create_step_ok {E} n p A :
  (p < n - 1)%nat -> heap_from (S p) n A ->
  exists A', @create_step H E A p = Ok A' /\ heap_from p n A' /\ drop (n - 1) A' = drop (n - 1) A.
Proof.
  intros Hp [HA Heq]. unfold create_step.
  destruct (lookup_lt_is_Some_2 A (2 * p + 1)) as [l Hl]; [lia|].
  destruct (lookup_lt_is_Some_2 A (2 * p + 2)) as [r Hr]; [lia|].
  destruct (lookup_lt_is_Some_2 A p) as [x Hx]; [lia|].
  rewrite (index_Some _ _ _ Hl), (index_Some _ _ _ Hr), (index_Some _ _ _ Hx). cbn.
  eexists. split; [done|]. rewrite drop_insert_lt by lia. split; [|done].
  split; [by rewrite length_insert|]. intros i Hi. destruct (decide (i = p)) as [->|Hne].
  - exists l, r. rewrite !list_lookup_insert_ne by lia. by rewrite list_lookup_insert_eq by lia.
  - destruct (Heq i) as (l' & r' & Hl' & Hr' & Hi'); [lia|]. exists l', r'. by rewrite !list_lookup_insert_ne by lia.
Qed.

Lemma create_loop_ok {E} n p A :
  (p <= n - 1)%nat -> heap_from p n A ->
  exists A', foldM (@create_step H E) (rev (seq 0 p)) A = Ok A' /\ heap_from 0 n A' /\ drop (n - 1) A' = drop (n - 1) A.
Proof.
  revert A. induction p as [|p IH]; intros A Hp HA; [by exists A|].
  rewrite seq_S, rev_app_distr. cbn [rev app foldM Nat.add].
  destruct (@create_step_ok E n p A) as (A1 & Hs & HA1 & Hd); [lia|done|]. rewrite Hs. cbn [mbind result_bind].
  destruct (IH A1) as (A2 & Hf & HA2 & Hd2); [lia|done|]. exists A2. by rewrite Hd2.
Qed.

Lemma create_ok {E} leaves :
  leaves <> [] -> exists A, @tree_create H E leaves = Ok {| tree_hashes := A |} /\ heap_of leaves A.
Proof.
  intros Hne. unfold tree_create. destruct leaves as [|l0 ls]; [done|]. clear Hne. set (leaves := l0 :: ls).
  destruct (@create_loop_ok E (length leaves) (length leaves - 1)
    (replicate (length leaves - 1) (replicate 32 0) ++ leaves)) as (A & HA & Hh & Hd); [lia| |].
  - split; [rewrite length_app, length_replicate; cbn; lia|]. intros i Hi. lia.
  - rewrite HA. cbn. exists A. split; [done|]. split; [done|]. fold leaves.
    rewrite Hd. by rewrite drop_app_length' by (by rewrite length_replicate).
Qed.

Lemma heap_leaf leaves A j : heap_of leaves A -> A !! (j + (length leaves - 1))%nat = leaves !! j.
Proof. intros [_ Hd]. rewrite <- Hd at 2. rewrite lookup_drop. f_equal. lia. Qed.

Lemma heap_half leaves A : leaves <> [] -> heap_of leaves A -> Nat.div2 (length A) = (length leaves - 1)%nat.
Proof.
  intros Hne [[HA _] _]. rewrite HA. destruct leaves as [|l ls]; [done|]. cbn [length].
  replace (2 * S (length ls) - 1)%nat with (S (2 * length ls)) by lia. rewrite Nat.div2_succ_double. lia.
Qed.

(** Building a tree succeeds, every inner node holds the hash of its two children, and the
    leaves are found at their indices. *)
Theorem tree_create_correct {E} (leaves : list Hash) :
  leaves <> [] -> exists tree, @tree_create H E leaves = Ok tree /\
    (forall i, (i < length leaves - 1)%nat -> exists l r,
       @get_hash E (2 * i + 1) tree = Ok l /\ @get_hash E (2 * i + 2) tree = Ok r /\
       @get_hash E i tree = Ok (hash_together l r)) /\
    (forall j leaf, leaves !! j = Some leaf -> @get_leaf E j tree = Ok leaf) /\
    @get_hash E 0 tree = Ok (tree_get_merkle_root tree).
Proof.
  intros Hne. destruct (@create_ok E leaves Hne) as (A & HA & Hh). eexists. split; [done|]. unfold get_hash, get_leaf, get_node_index.
  cbn [tree_hashes]. split_and!.
  - intros i Hi. destruct (proj2 (proj1 Hh) i) as (l & r & Hl & Hr & Hp); [lia|]. exists l, r. split_and!; by apply index_Some.
  - intros j leaf Hj. apply index_Some. cbn [tree_hashes]. rewrite (heap_half _ _ Hne Hh). by rewrite (heap_leaf _ _ _ Hh).
  - apply index_Some. unfold tree_get_merkle_root. cbn [tree_hashes].
    destruct A as [|h A]; [|done]. exfalso. destruct Hh as [[Hl _] _]. cbn in Hl. destruct leaves; [done|]. cbn in Hl. lia.
Qed.

(** ** Proofs of one leaf *)

Lemma parent_cases k : (0 < k)%nat ->
  (Nat.odd k = true /\ k = 2 * Nat.div2 (k - 1) + 1 \/ Nat.odd k = false /\ k = 2 * Nat.div2 (k - 1) + 2)%nat.
Proof.
  intros Hk. destruct k as [|k]; [lia|]. replace (S k - 1)%nat with k by lia.
  pose proof (Nat.div2_odd k) as Hd. rewrite Nat.odd_succ, <- Nat.negb_odd. destruct (Nat.odd k); cbn [negb Nat.b2n] in *; lia.
Qed.

Lemma node_depth_parent k : (0 < k)%nat -> node_depth k = S (node_depth (Nat.div2 (k - 1))).
Proof.
  intros Hk. unfold node_depth. set (p := Nat.div2 (k - 1)).
  destruct (parent_cases k Hk) as [[_ Hp]|[_ Hp]]; fold p in Hp; rewrite Hp.
  - replace (2 * p + 1 + 1)%nat with (2 * (p + 1))%nat by lia. apply Nat.log2_double. lia.
  - replace (2 * p + 2 + 1)%nat with (2 * (p + 1) + 1)%nat by lia. apply Nat.log2_succ_double. lia.
Qed.

(** One step up: the sibling read by the prover, and the value of the parent. *)
Lemma heap_parent leaves A k :
  heap_of leaves A -> (0 < k < length A)%nat ->
  exists h s, A !! k = Some h /\ A !! (4 * Nat.div2 (k - 1) + 3 - k)%nat = Some s /\
    A !! Nat.div2 (k - 1) = Some (digest (bp_input k h s)) /\ hashed_by_tree A (bp_input k h s).
Proof.
  intros [[HA Heq] _] Hk. set (p := Nat.div2 (k - 1)). destruct (parent_cases k) as [[Ho Hp]|[Ho Hp]]; [lia|..]; fold p in Hp.
  - destruct (Heq p) as (l & r & Hl & Hr & Hh); [lia|]. exists l, r. unfold bp_input. rewrite Ho.
    replace (4 * p + 3 - k)%nat with (2 * p + 2)%nat by lia. rewrite Hp at 1. split_and!; try done. by exists p, l, r.
  - destruct (Heq p) as (l & r & Hl & Hr & Hh); [lia|]. exists r, l. unfold bp_input. rewrite Ho.
    replace (4 * p + 3 - k)%nat with (2 * p + 1)%nat by lia. rewrite Hp at 1. split_and!; try done. by exists p, l, r.
Qed.

Lemma land_odd k : (Z.land (Z.of_nat k) 1 =? 1) = Nat.odd k.
Proof.
  change 1 with (Z.ones 1) at 1. rewrite Z.land_ones by lia. change (2 ^ 1) with 2.
  pose proof (Nat.div2_odd k) as Hd. apply (f_equal Z.of_nat) in Hd. rewrite Nat2Z.inj_add, Nat2Z.inj_mul in Hd.
  change (Z.of_nat 2) with 2 in Hd. rewrite Hd at 1. rewrite Z.mul_comm, Z.add_comm, Z.mod_add by lia. by destruct (Nat.odd k).
Qed.

Lemma shift_parent k : (0 < k)%nat -> Z.shiftr (Z.of_nat k - 1) 1 = Z.of_nat (parent k).
Proof.
  intros Hk. unfold parent. rewrite Z.shiftr_div_pow2 by lia. change (2 ^ 1) with 2.
  rewrite Nat.div2_div, Nat2Z.inj_div. f_equal. lia.
Qed.

Lemma bp_verify_step {E} k s path h :
  (0 < k)%nat -> Z.of_nat k <= U32_MAX ->
  @bp_verify_loop H E (s :: path) (Z.of_nat k) h =
    bp_verify_loop path (Z.of_nat (Nat.div2 (k - 1))) (digest (bp_input k h s)).
Proof.
  intros Hk Hmax. cbn [bp_verify_loop]. rewrite arith_ok by lia. cbn [mbind result_bind].
  rewrite land_odd, shift_parent by done. unfold bp_input, hash_together. by destruct (Nat.odd k).
Qed.

Lemma honest_path_cons A k s path :
  (0 < k)%nat -> A !! sibling k = Some s -> honest_path A (parent k) path -> honest_path A k (s :: path).
Proof.
  intros Hk Hs [Hl Hp]. unfold honest_path. rewrite node_depth_parent by done. fold (parent k).
  split; [cbn; by rewrite Hl|]. intros [|d] Hd; [done|]. cbn [lookup list_lookup].
  rewrite Nat.iter_succ_r. apply Hp. lia.
Qed.

Lemma bp_generate_step {E} fuel tree k acc : (0 < k)%nat ->
  @bp_generate_loop E (S fuel) tree k acc =
    h ← get_hash (4 * Nat.div2 (k - 1) + 3 - k) tree; bp_generate_loop fuel tree (Nat.div2 (k - 1)) (acc ++ [h]).
Proof. intros Hk. destruct k as [|k]; [lia|]. cbn [bp_generate_loop]. by replace (S k - 1)%nat with k by lia. Qed.

Lemma generate_loop_ok {E E'} leaves A fuel k acc h :
  heap_of leaves A -> (k <= fuel)%nat -> A !! k = Some h -> Z.of_nat (length A) <= U32_MAX ->
  exists path root, @bp_generate_loop E fuel {| tree_hashes := A |} k acc = Ok (acc ++ path) /\
    honest_path A k path /\ A !! 0%nat = Some root /\
    @bp_verify_loop H E' path (Z.of_nat k) h = Ok root.
Proof.
  intros Hh. revert fuel acc h. induction k as [k IH] using (well_founded_induction lt_wf); intros fuel acc h Hf Hk Hmax.
  destruct (decide (k = 0%nat)) as [->|Hne].
  { exists [], h. unfold honest_path. destruct fuel; cbn [bp_generate_loop]; rewrite app_nil_r; split_and!; by try intros ? ?%Nat.nlt_0_r. }
  apply lookup_lt_Some in Hk as Hlt.
  destruct (heap_parent leaves A k Hh) as (h' & s & Hk' & Hs & Hp & _); [lia|]. simplify_eq.
  destruct (parent_cases k) as [[_ Hpk]|[_ Hpk]]; [lia|..]; set (p := Nat.div2 (k - 1)) in *.
  all: destruct fuel as [|fuel]; [lia|]; destruct (IH p ltac:(lia) fuel (acc ++ [s]) _ ltac:(lia) Hp Hmax) as (path & root & Hg & Hl & Hr & Hv);
    exists (s :: path), root; split_and!; [|by apply honest_path_cons; [lia|..]|done|by rewrite bp_verify_step by lia].
  all: rewrite bp_generate_step by lia; fold p; unfold get_hash; cbn [tree_hashes]; rewrite (index_Some _ _ _ Hs);
    cbn [mbind result_bind]; rewrite Hg; by rewrite <- app_assoc.
Qed.

Lemma heap_bounds leaves A : heap_of leaves A -> length A = (2 * length leaves - 1)%nat.
Proof. by intros [[? _] _]. Qed.

(** The proof generated for a leaf of a tree (whose nodes are numbered in 32 bits) has the
    depth of the leaf's node as its length and verifies the leaf against the root. *)
Theorem balanced_proof_complete {E} (leaves : list Hash) (j : nat) (leaf : Hash) :
  Z.of_nat (2 * length leaves) <= U32_MAX -> leaves !! j = Some leaf ->
  exists tree proof, @tree_create H E leaves = Ok tree /\ bp_generate_proof tree j = Ok proof /\
    length (bp_path proof) = node_depth (get_node_index j tree) /\
    @bp_verify H E proof (tree_get_merkle_root tree) leaf = Ok true.
Proof.
  intros Hmax Hj. assert (leaves <> []) as Hne by (by intros ->).
  destruct (@create_ok E leaves Hne) as (A & HA & Hh). exists {| tree_hashes := A |}.
  pose proof (heap_bounds _ _ Hh) as Hlen. pose proof (heap_leaf _ _ j Hh) as Hleaf. rewrite Hj in Hleaf.
  apply lookup_lt_Some in Hj as Hjl.
  destruct (@generate_loop_ok BalancedBinaryMerkleProofError E leaves A _ _ [] leaf Hh (Nat.le_refl _) Hleaf) as (path & root & Hg & Hl & Hr & Hv); [lia|].
  unfold bp_generate_proof, get_node_index. cbn [tree_hashes]. rewrite (heap_half _ _ Hne Hh).
  rewrite Hg. cbn [mbind result_bind app].
  unfold cast_to_u32. rewrite checked_ok by lia. cbn [ok_or mbind result_bind].
  eexists. split_and!; [done|done|apply Hl|]. unfold bp_verify. cbn [bp_path bp_node_index]. rewrite Hv. cbn.
  unfold tree_get_merkle_root. cbn [tree_hashes]. destruct A as [|a A]; [done|]. injection Hr as ->. by rewrite bool_decide_eq_true_2.
Qed.

Lemma bp_verify_loop_total {E} path k h :
  Z.of_nat k <= U32_MAX ->
  (exists r, @bp_verify_loop H E path (Z.of_nat k) h = Ok r) /\ (length path <= node_depth k)%nat \/
  @bp_verify_loop H E path (Z.of_nat k) h = Panic /\ (node_depth k < length path)%nat.
Proof.
  revert k h. induction path as [|s path IH]; intros k h Hk; [left; split; [by eexists|cbn; lia]|].
  destruct (decide (k = 0%nat)) as [->|Hne]; [right; split; [done|cbn; lia]|].
  rewrite bp_verify_step, (node_depth_parent k) by lia. cbn [length].
  pose proof (parent_cases k ltac:(lia)). destruct (IH (Nat.div2 (k - 1)) (digest (bp_input k h s))) as [[? ?]|[? ?]]; [lia|left|right]; (split; [done|lia]).
Qed.

(** Verification aborts the process, by underflow of the node index, exactly when the path
    of the proof is longer than the depth of its node index. *)
Theorem bp_verify_aborts_iff {E} proof root leaf :
  0 <= bp_node_index proof <= U32_MAX ->
  @bp_verify H E proof root leaf = Panic <->
  (node_depth (Z.to_nat (bp_node_index proof)) < length (bp_path proof))%nat.
Proof.
  intros Hi. unfold bp_verify. rewrite <- (Z2Nat.id (bp_node_index proof)) at 1 by lia.
  destruct (@bp_verify_loop_total E (bp_path proof) (Z.to_nat (bp_node_index proof)) leaf) as [[[r ->] Hle]|[-> Hlt]]; [lia|..]; cbn.
  - split; [done|lia].
  - done.
Qed.

Section Sound.
Context (Hlen : forall x : list Z, length (digest x) = 32%nat).

Lemma create_hashes_length leaves A : heap_of leaves A ->
  Forall (fun s => length s = 32%nat) leaves -> Forall (fun s => length s = 32%nat) A.
Proof.
  intros [[HA Heq] Hd] Hls. rewrite Forall_lookup in *. intros i x Hx.
  destruct (decide (i < length leaves - 1)%nat) as [Hi|Hi].
  - destruct (Heq i) as (l & r & _ & _ & Hr); [lia|]. simplify_eq. apply Hlen.
  - apply (Hls (i - (length leaves - 1))%nat). rewrite <- Hd at 2. rewrite lookup_drop. rewrite <- Hx. f_equal. lia.
Qed.

Lemma bp_input_inj k h s h' s' :
  length h = 32%nat -> length s = 32%nat -> length h' = 32%nat -> length s' = 32%nat ->
  bp_input k h s = bp_input k h' s' -> h = h'.
Proof.
  unfold bp_input. intros ? ? ? ? Heq. destruct (Nat.odd k); apply app_inj_1 in Heq; try naive_solver congruence.
Qed.

Lemma bp_climb_sound {E} leaves A path k h r :
  heap_of leaves A -> Forall (fun s => length s = 32%nat) A -> Z.of_nat (length A) <= U32_MAX ->
  (k < length A)%nat -> length path = node_depth k ->
  length h = 32%nat -> Forall (fun s => length s = 32%nat) path ->
  (forall x y, x ∈ hashed_by_bp k path h -> hashed_by_tree A y -> digest x = digest y -> x = y) ->
  @bp_verify_loop H E path (Z.of_nat k) h = Ok r -> A !! 0%nat = Some r -> A !! k = Some h.
Proof.
  intros Hh HA Hmax. revert k h. induction path as [|s path IH]; intros k h Hk Hd Hl Hp Hcf Hv Hr.
  { destruct (decide (k = 0%nat)) as [->|Hne]; [naive_solver|]. rewrite node_depth_parent in Hd by lia. done. }
  assert (0 < k)%nat as Hk0. { destruct k; [done|lia]. }
  rewrite bp_verify_step in Hv by lia. rewrite node_depth_parent in Hd by lia. cbn in Hd. injection Hd as Hd.
  apply Forall_cons in Hp as [Hs Hp]. cbn [hashed_by_bp] in Hcf.
  destruct (heap_parent leaves A k Hh) as (h' & s' & Hk' & Hs' & Hpar & Hin); [lia|].
  apply IH in Hv; [|pose proof (parent_cases k Hk0); lia|done|apply Hlen|done| |done].
  2: { intros x y Hx. apply Hcf. by right. }
  rewrite Hv in Hpar. injection Hpar as Hpar. apply Hcf in Hpar; [|left|done].
  rewrite Forall_lookup in HA. apply bp_input_inj in Hpar as ->; eauto.
Qed.

(** A proof for the node of leaf [j], as long as that node is deep and made of 32-byte
    hashes, that verifies a 32-byte hash against the root shows the hash of leaf [j], unless the
    digest maps two different inputs, one hashed by the verifier and one by the tree, to the same
    output. *)
Theorem balanced_proof_sound {E} leaves tree proof j leaf :
  @tree_create H E leaves = Ok tree -> Z.of_nat (2 * length leaves) <= U32_MAX ->
  Forall (fun s => length s = 32%nat) leaves -> (j < length leaves)%nat ->
  bp_node_index proof = Z.of_nat (get_node_index j tree) ->
  length (bp_path proof) = node_depth (get_node_index j tree) ->
  length leaf = 32%nat -> Forall (fun s => length s = 32%nat) (bp_path proof) ->
  (forall x y, x ∈ hashed_by_bp (get_node_index j tree) (bp_path proof) leaf -> hashed_by_tree (tree_hashes tree) y ->
     digest x = digest y -> x = y) ->
  @bp_verify H E proof (tree_get_merkle_root tree) leaf = Ok true -> leaves !! j = Some leaf.
Proof.
  intros Hc Hmax Hls Hj Hi Hd Hl Hp Hcf Hv. assert (leaves <> []) as Hne by (destruct leaves; [cbn in Hj; lia|done]).
  destruct (@create_ok E leaves Hne) as (A & HA & Hh). rewrite Hc in HA. injection HA as ->. cbn [tree_hashes] in *.
  pose proof (heap_bounds _ _ Hh) as Hlen'. pose proof (heap_leaf _ _ j Hh) as Hleaf. rewrite <- Hleaf.
  unfold get_node_index in *. cbn [tree_hashes] in *. rewrite (heap_half _ _ Hne Hh) in *.
  unfold bp_verify in Hv. inv_bind Hv. apply bool_decide_eq_true in Hv as ->. rewrite Hi in Hr.
  eapply bp_climb_sound; try done.
  - by apply (create_hashes_length leaves).
  - lia.
  - lia.
  - unfold tree_get_merkle_root. cbn [tree_hashes]. destruct A; [cbn in Hlen'; lia|done].
Qed.

End Sound.

(** ** Merged proofs *)

(** A merged proof is checked against the root through its first path only: next to an
    honest proof of leaf [a] of the tree over [a] and [b], the merged proof below verifies any
    hash [x] whatsoever at any node index. *)
Theorem merged_proof_unsound a b x i :
  mp_verify_consume {| mp_paths := [[(DataHash, b)]; []]; mp_node_indices := [1; i]; mp_heights := [1; 0] |}
    (hash_together a b) [a; x] = Ok true.
Proof.
  transitivity (@Ok BalancedBinaryMerkleProofError _ (bool_decide (hash_together a b = hash_together a b))); [done|].
  by rewrite bool_decide_eq_true_2.
Qed.

End BalancedSpec.

(** ** Examples *)
Section BalancedExamples.

#[local] Instance balanced_example_hasher : Hasher := Mod256.digest 9.

Definition balanced_leaves : list Hash := [replicate 32 1; replicate 32 2; replicate 32 3].

Lemma tree_create_correct_witness :
  exists tree, @tree_create _ unit balanced_leaves = Ok tree /\ @get_leaf unit 1 tree = Ok (replicate 32 2).
Proof.
  destruct (@tree_create_correct _ unit balanced_leaves) as (t & Ht & _ & Hl & _); [done|]. exists t. split; [done|]. by apply Hl.
Defined.

Lemma balanced_proof_complete_witness :
  exists tree proof, @tree_create _ unit balanced_leaves = Ok tree /\ bp_generate_proof tree 1 = Ok proof /\
    length (bp_path proof) = node_depth (get_node_index 1 tree) /\
    @bp_verify _ unit proof (tree_get_merkle_root tree) (replicate 32 2) = Ok true.
Proof. apply (balanced_proof_complete balanced_leaves 1); [cbn; unfold U32_MAX; lia|done]. Defined.

Lemma bp_verify_aborts_iff_witness :
  @bp_verify _ unit {| bp_path := [[]]; bp_node_index := 0 |} [] [] = Panic.
Proof. apply bp_verify_aborts_iff; by_evaluation. Defined.

Definition balanced_tree : BalancedBinaryMerkleTree :=
  match @tree_create _ unit balanced_leaves with Ok t => t | _ => {| tree_hashes := [] |} end.

Definition balanced_proof : BalancedBinaryMerkleProof :=
  {| bp_path := [replicate 32 3; replicate 32 1]; bp_node_index := 3 |}.

Lemma balanced_hashed_by_tree y :
  hashed_by_tree (tree_hashes balanced_tree) y ->
  y ∈ [replicate 32 2 ++ replicate 32 3; hash_together (replicate 32 2) (replicate 32 3) ++ replicate 32 1].
Proof.
  intros (i & l & r & Hl & Hr & ->). destruct i as [|[|i]].
  - vm_compute in Hl, Hr. injection Hl as <-. injection Hr as <-. by_evaluation.
  - vm_compute in Hl, Hr. injection Hl as <-. injection Hr as <-. by_evaluation.
  - apply lookup_lt_Some in Hr. change (length (tree_hashes balanced_tree)) with 5%nat in Hr. lia.
Qed.

Lemma balanced_collision_free x y :
  x ∈ hashed_by_bp 3 (bp_path balanced_proof) (replicate 32 2) -> hashed_by_tree (tree_hashes balanced_tree) y ->
  digest x = digest y -> x = y.
Proof.
  intros Hx Hy%balanced_hashed_by_tree. revert x y Hx Hy.
  assert (Forall (fun x => Forall (fun y => digest x = digest y -> x = y)
    [replicate 32 2 ++ replicate 32 3; hash_together (replicate 32 2) (replicate 32 3) ++ replicate 32 1])
    (hashed_by_bp 3 (bp_path balanced_proof) (replicate 32 2))) as Hall by by_evaluation.
  intros x y Hx Hy. rewrite Forall_forall in Hall. apply Hall in Hx. rewrite Forall_forall in Hx. by apply Hx.
Qed.

Lemma balanced_proof_sound_witness : balanced_leaves !! 1%nat = Some (replicate 32 2).
Proof.
  apply (@balanced_proof_sound balanced_example_hasher) with (E := unit) (tree := balanced_tree) (proof := balanced_proof).
  - intros x. apply length_le_bytes.
  - by vm_compute.
  - cbn. unfold U32_MAX. lia.
  - by_evaluation.
  - cbn. lia.
  - by_evaluation.
  - by_evaluation.
  - done.
  - by_evaluation.
  - apply balanced_collision_free.
  - by_evaluation.
Defined.

End BalancedExamples.
