(* ===== verification/BalancedMerged.v ===== *)
(** * Merged balanced Merkle proofs are complete

    [create_from_proofs] (balanced_binary_merkle_proof.rs) merges the paths of several leaves by
    replacing a sibling that another proof computes with that proof's position. Row by row, the
    merged paths let [verify_consume] recompute the nodes of the tree, up to its root. *)

From S2P Require Import Prelude CryptoModel MmrCommon Mmr BalancedMerkle.

Local Open Scope Z_scope.

(** ** Ancestors *)

Lemma parent_lt k : (0 < k)%nat -> (parent k < k)%nat.
Proof. intros Hk. pose proof (parent_cases k Hk). unfold parent. lia. Qed.

(** Two different children of one node are each other's siblings. *)
Lemma siblings k k' : (0 < k)%nat -> (0 < k')%nat -> k <> k' -> parent k = parent k' -> k' = sibling k.
Proof. intros Hk Hk' Hne Hp. pose proof (parent_cases k Hk). pose proof (parent_cases k' Hk'). unfold sibling, parent in *. lia. Qed.

Lemma no_three_children k1 k2 k3 : (0 < k1)%nat -> (0 < k2)%nat -> (0 < k3)%nat ->
  parent k1 = parent k2 -> parent k2 = parent k3 -> k1 <> k2 -> k2 <> k3 -> k1 <> k3 -> False.
Proof.
  intros H1 H2 H3 Hp1 Hp2 N1 N2 N3. apply N3.
  rewrite (siblings k2 k1), (siblings k2 k3) by (try done; by symmetry). done.
Qed.

(** The ancestor of [k] at depth [h], or [k] where it is not that deep. *)
Definition ancestor (h k : nat) : nat := Nat.iter (node_depth k - h) parent k.

Lemma iter_parent_depth d k : (d <= node_depth k)%nat -> node_depth (Nat.iter d parent k) = (node_depth k - d)%nat.
Proof.
  induction d as [|d IH]; intros Hd; [cbn; lia|]. rewrite Nat.iter_succ. specialize (IH ltac:(lia)).
  assert (0 < Nat.iter d parent k)%nat as Hpos.
  { destruct (Nat.iter d parent k); [|lia]. change (node_depth 0) with 0%nat in IH. lia. }
  rewrite node_depth_parent in IH by done. fold (parent (Nat.iter d parent k)) in IH. lia.
Qed.

Lemma ancestor_depth h k : node_depth (ancestor h k) = Nat.min h (node_depth k).
Proof. unfold ancestor. rewrite iter_parent_depth by lia. lia. Qed.

Lemma depth_pos k : (0 < node_depth k)%nat -> (0 < k)%nat.
Proof. destruct k; [|lia]. change (node_depth 0) with 0%nat. lia. Qed.

Lemma ancestor_pos h k : (h < node_depth k)%nat -> (0 < ancestor (S h) k)%nat.
Proof. intros Hh. apply depth_pos. rewrite ancestor_depth. lia. Qed.

Lemma ancestor_step h k : (h < node_depth k)%nat -> ancestor h k = parent (ancestor (S h) k).
Proof. intros Hh. unfold ancestor. by replace (node_depth k - h)%nat with (S (node_depth k - S h)) by lia. Qed.

Lemma ancestor_shallow h k : (node_depth k <= h)%nat -> ancestor h k = k.
Proof. intros Hh. unfold ancestor. by replace (node_depth k - h)%nat with 0%nat by lia. Qed.

Lemma ancestor_root k : ancestor 0 k = 0%nat.
Proof.
  pose proof (ancestor_depth 0 k) as Hd. destruct (ancestor 0 k) as [|a]; [done|].
  rewrite node_depth_parent in Hd by lia. done.
Qed.

Lemma ancestor_le h k : (ancestor h k <= k)%nat.
Proof.
  unfold ancestor. induction (node_depth k - h)%nat as [|d IH]; [done|]. rewrite Nat.iter_succ.
  unfold parent at 1. pose proof (Nat.div2_decr (Nat.iter d parent k - 1) (Nat.iter d parent k)). lia.
Qed.

Section Merged.
Context {H : Hasher} (leaves A : list Hash) (Hh : heap_of leaves A) (Hsize : Z.of_nat (length A) <= U32_MAX).
Context (ps : list BalancedBinaryMerkleProof) (K : nat -> nat).

Let n := length ps.

(** The proofs are those of pairwise different leaves. *)
Definition proofs_of : Prop :=
  (forall i p, ps !! i = Some p -> bp_node_index p = Z.of_nat (K i) /\ honest_path A (K i) (bp_path p) /\
     (length leaves - 1 <= K i < length A)%nat) /\
  (forall i j, (i < n)%nat -> (j < n)%nat -> K i = K j -> i = j).

Context (Hps : proofs_of).

(** The node proof [i] has reached at depth [h]. *)
Definition cur (h i : nat) : nat := ancestor h (K i).

Definition free (ms : MergeState) (i : nat) : Prop := ms_join ms !! i = Some None.

Definition lengths (ms : MergeState) : Prop :=
  length (ms_indices ms) = n /\ length (ms_paths ms) = n /\ length (ms_join ms) = n.

(** The state of [create_from_proofs] once the rows down to height [h] are done. *)
Definition row_inv (h : nat) (ms : MergeState) : Prop :=
  lengths ms /\ free ms 0 /\
  (forall i, free ms i -> ms_indices ms !! i = Some (Z.of_nat (cur h i))) /\
  (forall i j, free ms i -> free ms j -> cur h i = cur h j -> i = j).

(** Proof [i] takes a step in row [h]. *)
Definition active (h : nat) (ms : MergeState) (i : nat) : Prop := free ms i /\ (h < node_depth (K i))%nat.

(** An entry of proof [i]'s merged path for row [h] stands for the sibling of its node. *)
Definition denotes (h : nat) (ms0 : MergeState) (i : nat) (e : MergedBalancedBinaryMerkleDataType * list Z) : Prop :=
  match e with
  | (DataHash, s) => A !! sibling (cur (S h) i) = Some s
  | (DataIndex, b) => exists j, b = le_bytes 8 (Z.of_nat j) /\ free ms0 j /\ cur (S h) j = sibling (cur (S h) i)
  end.

(** What row [h] does to proof [i]. *)
Definition row_done (h : nat) (ms0 ms : MergeState) (i : nat) : Prop :=
  (active h ms0 i ->
     ms_indices ms !! i = Some (Z.of_nat (cur h i)) /\
     (free ms i /\ (exists e old, ms_paths ms0 !! i = Some old /\ ms_paths ms !! i = Some (e :: old) /\ denotes h ms0 i e) \/
      (exists o, ms_join ms !! i = Some (Some o) /\ (o < i)%nat /\ active h ms0 o /\ cur h o = cur h i) /\
        ms_paths ms !! i = ms_paths ms0 !! i)) /\
  (~ active h ms0 i ->
     ms_indices ms !! i = ms_indices ms0 !! i /\ ms_join ms !! i = ms_join ms0 !! i /\ ms_paths ms !! i = ms_paths ms0 !! i).

(** The invariant of the loop over the proofs of row [h], after the first [p]. *)
Definition prefix_inv (h : nat) (ms0 : MergeState) (p : nat) (ms : MergeState) : Prop :=
  lengths ms /\
  (forall i, (i < p)%nat -> row_done h ms0 ms i) /\
  (forall i, (p <= i)%nat -> ms_indices ms !! i = ms_indices ms0 !! i /\ ms_join ms !! i = ms_join ms0 !! i /\
     ms_paths ms !! i = ms_paths ms0 !! i) /\
  (forall q j, ms_map ms !! q = Some j -> (j < p)%nat /\ active h ms0 j /\ q = Z.of_nat (cur h j)) /\
  (forall j, (j < p)%nat -> active h ms0 j -> is_Some (ms_map ms !! Z.of_nat (cur h j))) /\
  (forall i j, (i < p)%nat -> (j < p)%nat -> active h ms0 i -> active h ms0 j -> free ms i -> free ms j ->
     cur h i = cur h j -> i = j).

Lemma free_lt ms i : lengths ms -> free ms i -> (i < n)%nat.
Proof. intros (_ & _ & <-) Hf. by eapply lookup_lt_Some. Qed.

Lemma active_dec h ms i : Decision (active h ms i).
Proof. unfold active, free. apply _. Defined.

Lemma row_done_frame h ms0 ms ms' i :
  ms_indices ms' !! i = ms_indices ms !! i -> ms_join ms' !! i = ms_join ms !! i ->
  ms_paths ms' !! i = ms_paths ms !! i -> row_done h ms0 ms i -> row_done h ms0 ms' i.
Proof. unfold row_done, free. by intros -> -> ->. Qed.

Lemma proof_length i p : ps !! i = Some p -> length (bp_path p) = node_depth (K i).
Proof. intros Hp. by destruct (proj1 Hps i p Hp) as (_ & [Hl _] & _). Qed.

(** The entry of the path for row [h] is the sibling at depth [h + 1]. *)
Lemma proof_entry h i p : ps !! i = Some p -> (h < node_depth (K i))%nat ->
  exists s, bp_path p !! (length (bp_path p) - 1 - h)%nat = Some s /\ A !! sibling (cur (S h) i) = Some s.
Proof.
  intros Hp Hd. destruct (proj1 Hps i p Hp) as (_ & [Hl Hpath] & _).
  destruct (lookup_lt_is_Some_2 (bp_path p) (length (bp_path p) - 1 - h)) as [s Hs]; [lia|].
  exists s. split; [done|]. rewrite Hl, Hpath in Hs by lia. unfold cur, ancestor.
  by replace (node_depth (K i) - S h)%nat with (node_depth (K i) - 1 - h)%nat by lia.
Qed.

Lemma cur_small h i : (i < n)%nat -> Z.of_nat (cur h i) <= U32_MAX.
Proof.
  intros [p Hp]%lookup_lt_is_Some_2. destruct (proj1 Hps i p Hp) as (_ & _ & ?).
  pose proof (ancestor_le h (K i)). unfold cur. lia.
Qed.

Lemma merge_one_skip h ms0 p pr ms :
  ps !! p = Some pr -> prefix_inv h ms0 p ms -> lengths ms0 -> ~ active h ms0 p ->
  merge_one h ms (p, pr) = Ok ms /\ prefix_inv h ms0 (S p) ms.
Proof.
  intros Hpr Hinv Hl0 Hna. pose proof Hinv as (Hl & Hdone & Hrest & Hmap & Hmap' & Hinj).
  apply lookup_lt_Some in Hpr as Hp. fold n in Hp.
  destruct (Hrest p) as (Hi & Hj & Hpa); [lia|]. split.
  - unfold merge_one. destruct (lookup_lt_is_Some_2 (ms_join ms) p) as [o Ho]; [unfold lengths in Hl; lia|].
    rewrite (index_Some _ _ _ Ho). cbn [mbind result_bind].
    rewrite (proof_length _ _ Hpr). case_bool_decide as Hn; [|done]. cbn [andb].
    destruct (Nat.ltb_spec h (node_depth (K p))); [|done]. destruct Hna. split; [|done]. unfold free. congruence.
  - split_and!; try done.
    + intros i Hi'. destruct (decide (i = p)) as [->|]; [|apply Hdone; lia]. by split.
    + intros i Hi'. apply Hrest. lia.
    + intros q j Hq. destruct (Hmap q j Hq) as (? & ? & ?). split_and!; [lia|done|done].
    + intros j Hj' Ha. destruct (decide (j = p)) as [->|]; [done|]. apply Hmap'; [lia|done].
    + intros i j Hi' Hj' Hai Haj. destruct (decide (i = p)) as [->|]; [done|]. destruct (decide (j = p)) as [->|]; [done|].
      apply Hinj; by try lia.
Qed.

(** The first proof to reach a node in a row takes the sibling's hash. *)
Lemma prefix_inv_lead h ms0 p pr ms old s :
  ps !! p = Some pr -> prefix_inv h ms0 p ms -> active h ms0 p ->
  ms_map ms !! Z.of_nat (cur h p) = None -> ms_paths ms0 !! p = Some old ->
  A !! sibling (cur (S h) p) = Some s ->
  prefix_inv h ms0 (S p) {| ms_indices := <[p := Z.of_nat (cur h p)]> (ms_indices ms);
    ms_paths := <[p := (DataHash, s) :: old]> (ms_paths ms); ms_join := ms_join ms;
    ms_map := <[Z.of_nat (cur h p) := p]> (ms_map ms) |}.
Proof.
  intros Hpr (Hl & Hdone & Hrest & Hmap & Hmap' & Hinj) Ha Hnone Hold Hs.
  apply lookup_lt_Some in Hpr as Hp. fold n in Hp. destruct Hl as (Hl1 & Hl2 & Hl3).
  destruct (Hrest p) as (_ & Hj & _); [lia|]. split_and!; cbn [ms_indices ms_paths ms_join ms_map].
  - unfold lengths. cbn. by rewrite !length_insert.
  - intros i Hi. destruct (decide (i = p)) as [->|Hne].
    + split; [|done]. intros _. cbn [ms_indices ms_paths]. rewrite !list_lookup_insert_eq by lia. split; [done|]. left.
      split; [unfold free; cbn; rewrite Hj; apply Ha|]. by exists (DataHash, s), old.
    + apply (row_done_frame h ms0 ms); cbn; [by rewrite list_lookup_insert_ne by done|done|by rewrite list_lookup_insert_ne by done|].
      apply Hdone. lia.
  - intros i Hi. rewrite !list_lookup_insert_ne by lia. apply Hrest. lia.
  - intros q j. destruct (decide (q = Z.of_nat (cur h p))) as [->|Hne].
    + rewrite lookup_insert_eq. intros [= <-]. split_and!; [lia|done|done].
    + rewrite lookup_insert_ne by done. intros (? & ? & ?)%Hmap. split_and!; [lia|done|done].
  - intros j Hj' Haj. destruct (decide (Z.of_nat (cur h j) = Z.of_nat (cur h p))) as [->|Hne].
    + by rewrite lookup_insert_eq.
    + rewrite lookup_insert_ne by done. apply Hmap'; [|done]. destruct (decide (j = p)) as [->|]; [done|lia].
  - intros i j Hi Hj' Hai Haj Hfi Hfj Heq. destruct (decide (i = p)) as [->|], (decide (j = p)) as [->|]; [done|..].
    + destruct (Hmap' j) as [? Hs']; [lia|done|]. rewrite <- Heq in Hs'. congruence.
    + destruct (Hmap' i) as [? Hs']; [lia|done|]. rewrite Heq in Hs'. congruence.
    + apply Hinj; by try lia.
Qed.

Lemma active_pos h ms0 i : active h ms0 i -> (0 < cur (S h) i)%nat.
Proof. intros [_ Hd]. by apply ancestor_pos. Qed.

Lemma active_parent h ms0 i : active h ms0 i -> cur h i = parent (cur (S h) i).
Proof. intros [_ Hd]. by apply ancestor_step. Qed.

(** The proof that is found under a node reached again is not itself joined: a node has two
    children only. *)
Lemma other_free h ms0 p ms other :
  row_inv (S h) ms0 -> prefix_inv h ms0 p ms -> active h ms0 p ->
  ms_map ms !! Z.of_nat (cur h p) = Some other ->
  (other < p)%nat /\ active h ms0 other /\ cur h other = cur h p /\ free ms other /\
  (exists e old, ms_paths ms0 !! other = Some old /\ ms_paths ms !! other = Some (e :: old)).
Proof.
  intros (_ & _ & _ & Hinj0) (Hl & Hdone & Hrest & Hmap & _) Ha Hm.
  destruct (Hmap _ _ Hm) as (Ho & Hao & Hq%Nat2Z.inj). split_and!; [done|done|done|..].
  all: destruct (Hdone other Ho) as [Hd _]; destruct (Hd Hao) as [_ [[Hf (e & old & ? & ? & _)]|[(o & _ & Hlt & Haq & Hc) _]]];
    [by eauto|exfalso].
  all: apply (no_three_children (cur (S h) p) (cur (S h) other) (cur (S h) o)); try (by eapply active_pos);
    try (by rewrite <- !(active_parent h ms0) by done; congruence).
  all: intros Heq; apply Hinj0 in Heq; [lia|by apply Ha || by apply Hao || by apply Haq..].
Qed.

Lemma prefix_inv_join h ms0 p pr ms other e old :
  ps !! p = Some pr -> row_inv (S h) ms0 -> prefix_inv h ms0 p ms -> active h ms0 p ->
  (other < p)%nat -> active h ms0 other -> cur h other = cur h p -> free ms other ->
  ms_paths ms0 !! other = Some old -> ms_paths ms !! other = Some (e :: old) ->
  prefix_inv h ms0 (S p) {| ms_indices := <[p := Z.of_nat (cur h p)]> (ms_indices ms);
    ms_paths := <[other := (DataIndex, le_bytes 8 (Z.of_nat p)) :: old]> (ms_paths ms);
    ms_join := <[p := Some other]> (ms_join ms); ms_map := <[Z.of_nat (cur h p) := p]> (ms_map ms) |}.
Proof.
  intros Hpr (_ & _ & _ & Hinj0) (Hl & Hdone & Hrest & Hmap & Hmap' & Hinj) Ha Ho Hao Hc Hf Hold Hpath.
  apply lookup_lt_Some in Hpr as Hp. fold n in Hp. destruct Hl as (Hl1 & Hl2 & Hl3).
  destruct (Hrest p) as (_ & Hj & Hpp); [lia|]. split_and!; cbn [ms_indices ms_paths ms_join ms_map].
  - unfold lengths. cbn. by rewrite !length_insert.
  - intros i Hi. destruct (decide (i = p)) as [->|Hne]; [|destruct (decide (i = other)) as [->|Hne']].
    + split; [|done]. intros _. cbn [ms_indices ms_paths ms_join]. rewrite !list_lookup_insert_eq, list_lookup_insert_ne by lia.
      split; [done|]. right. split; [|done]. by exists other.
    + split; [|done]. intros _. cbn [ms_indices ms_paths ms_join]. rewrite list_lookup_insert_eq, list_lookup_insert_ne by lia.
      destruct (Hdone other Ho) as [Hd _]. split; [by apply Hd|]. left. split; [unfold free; cbn; by rewrite list_lookup_insert_ne by lia|].
      eexists _, old. split_and!; [done|done|]. exists p. split_and!; [done|apply Ha|].
      apply siblings; try (by eapply active_pos); [|by rewrite <- !(active_parent h ms0) by done].
      intros Heq. apply Hinj0 in Heq; [lia|apply Hao|apply Ha].
    + apply (row_done_frame h ms0 ms); cbn; [by rewrite list_lookup_insert_ne by done..|]. apply Hdone. lia.
  - intros i Hi. rewrite !list_lookup_insert_ne by lia. apply Hrest. lia.
  - intros q j. destruct (decide (q = Z.of_nat (cur h p))) as [->|Hne].
    + rewrite lookup_insert_eq. intros [= <-]. split_and!; [lia|done|done].
    + rewrite lookup_insert_ne by done. intros (? & ? & ?)%Hmap. split_and!; [lia|done|done].
  - intros j Hj' Haj. destruct (decide (Z.of_nat (cur h j) = Z.of_nat (cur h p))) as [->|Hne].
    + by rewrite lookup_insert_eq.
    + rewrite lookup_insert_ne by done. apply Hmap'; [|done]. destruct (decide (j = p)) as [->|]; [done|lia].
  - intros i j Hi Hj' Hai Haj. unfold free. cbn [ms_join]. destruct (decide (i = p)) as [->|], (decide (j = p)) as [->|]; [done|..].
    + by rewrite list_lookup_insert_eq by lia.
    + rewrite (list_lookup_insert_eq _ p) by lia. done.
    + rewrite !list_lookup_insert_ne by done. apply Hinj; by try lia.
Qed.

Lemma merge_one_ok h ms0 p pr ms :
  ps !! p = Some pr -> row_inv (S h) ms0 -> prefix_inv h ms0 p ms ->
  exists ms', merge_one h ms (p, pr) = Ok ms' /\ prefix_inv h ms0 (S p) ms'.
Proof.
  intros Hpr Hrow Hinv. destruct (active_dec h ms0 p) as [Ha|Hna].
  2: { exists ms. apply merge_one_skip; try done. apply Hrow. }
  pose proof Hinv as ((Hl1 & Hl2 & Hl3) & _ & Hrest & _). pose proof Hrow as (Hl0 & _ & Hidx & _).
  apply lookup_lt_Some in Hpr as Hp. fold n in Hp. destruct (Hrest p) as (Hi & Hj & Hpp); [lia|].
  unfold merge_one. rewrite (index_Some (ms_join ms) p None) by (rewrite Hj; apply Ha). cbn [mbind result_bind].
  rewrite bool_decide_eq_true_2, (proof_length _ _ Hpr) by done. rewrite (proj2 (Nat.ltb_lt _ _) (proj2 Ha)). cbn [andb].
  rewrite (index_Some _ _ _ (eq_trans Hi (Hidx p (proj1 Ha)))). cbn [mbind result_bind].
  pose proof (active_pos _ _ _ Ha). pose proof (cur_small (S h) p Hp).
  rewrite arith_ok by lia. cbn [mbind result_bind].
  rewrite shift_parent by done. rewrite <- (active_parent h ms0 p Ha). destruct (ms_map ms !! Z.of_nat (cur h p)) as [other|] eqn:Hm.
  - destruct (other_free h ms0 p ms other Hrow Hinv Ha Hm) as (Ho & Hao & Hc & Hf & e & old & Hold & Hpath).
    rewrite (index_Some _ _ _ Hpath). cbn [mbind result_bind]. eexists. split; [done|]. by eapply prefix_inv_join.
  - destruct (lookup_lt_is_Some_2 (ms_paths ms) p) as [old Hold]; [lia|]. rewrite (index_Some _ _ _ Hold). cbn [mbind result_bind].
    destruct (proof_entry h p pr Hpr (proj2 Ha)) as (s & Hs & HA). rewrite (proof_length _ _ Hpr) in Hs.
    rewrite (index_Some _ _ _ Hs). cbn [mbind result_bind]. eexists. split; [done|]. eapply prefix_inv_lead; try done. congruence.
Qed.

Lemma cur_leaf h i : (i < n)%nat -> (node_depth (K i) <= h)%nat -> cur h i = K i.
Proof. intros _. apply ancestor_shallow. Qed.

Lemma K_bounds i : (i < n)%nat -> (length leaves - 1 <= K i < length A)%nat.
Proof. intros [p Hp]%lookup_lt_is_Some_2. by apply (proj1 Hps i p Hp). Qed.

Lemma active_inner h ms0 i : (i < n)%nat -> active h ms0 i -> (cur h i < length leaves - 1)%nat.
Proof.
  intros Hi Ha. rewrite (active_parent _ _ _ Ha). pose proof (active_pos _ _ _ Ha) as Hp.
  pose proof (parent_cases _ Hp). pose proof (K_bounds i Hi). pose proof (ancestor_le (S h) (K i)).
  pose proof (heap_bounds _ _ Hh). unfold parent, cur in *. lia.
Qed.

Lemma inactive_cur h ms0 i : (i < n)%nat -> free ms0 i -> ~ active h ms0 i -> cur h i = K i /\ cur (S h) i = K i.
Proof.
  intros Hi Hf Hna. assert (~ h < node_depth (K i))%nat by (unfold active in Hna; tauto).
  split; apply cur_leaf; (done || lia).
Qed.

(** A proof that is free after a row was free before it. *)
Lemma free_before h ms0 ms i : row_done h ms0 ms i -> free ms i -> free ms0 i.
Proof.
  intros [_ Hn] Hf. destruct (active_dec h ms0 i) as [Ha|Hna]; [apply Ha|].
  destruct (Hn Hna) as (_ & Hj & _). unfold free in *. congruence.
Qed.

Lemma row_inv_next h ms0 ms : row_inv (S h) ms0 -> prefix_inv h ms0 n ms -> row_inv h ms.
Proof.
  intros (Hl0 & H0 & Hidx0 & Hinj0) (Hl & Hdone & _ & _ & _ & Hinj).
  assert (forall i, free ms i -> (i < n)%nat /\ row_done h ms0 ms i /\ free ms0 i) as Hfree.
  { intros i Hf. pose proof (free_lt _ _ Hl Hf) as Hi. split_and!; [done|by apply Hdone|]. eapply free_before; [by apply Hdone|done]. }
  split_and!; [done|..].
  - destruct (Hdone 0%nat) as [Ha Hn]; [exact (free_lt _ _ Hl0 H0)|]. destruct (active_dec h ms0 0) as [Hac|Hna].
    + destruct (Ha Hac) as [_ [[? _]|[(o & _ & ? & _) _]]]; [done|lia].
    + unfold free in *. by rewrite (proj1 (proj2 (Hn Hna))).
  - intros i Hf. destruct (Hfree i Hf) as (Hi & [Ha Hn] & Hf0). destruct (active_dec h ms0 i) as [Hac|Hna].
    + by apply Ha.
    + rewrite (proj1 (Hn Hna)), (Hidx0 i Hf0). by destruct (inactive_cur h ms0 i Hi Hf0 Hna) as [-> ->].
  - intros i j Hfi Hfj Heq. destruct (Hfree i Hfi) as (Hi & _ & Hfi0), (Hfree j Hfj) as (Hj & _ & Hfj0).
    pose proof (K_bounds i Hi). pose proof (K_bounds j Hj).
    destruct (active_dec h ms0 i) as [Hai|Hni], (active_dec h ms0 j) as [Haj|Hnj].
    + by apply Hinj.
    + pose proof (active_inner _ _ _ Hi Hai). destruct (inactive_cur h ms0 j Hj Hfj0 Hnj). lia.
    + pose proof (active_inner _ _ _ Hj Haj). destruct (inactive_cur h ms0 i Hi Hfi0 Hni). lia.
    + destruct (inactive_cur h ms0 i Hi Hfi0 Hni), (inactive_cur h ms0 j Hj Hfj0 Hnj). apply (proj2 Hps); [done..|congruence].
Qed.

Lemma merge_row_ok h ms0 : row_inv (S h) ms0 ->
  exists ms, merge_row ps ms0 h = Ok ms /\ row_inv h ms /\ (forall i, (i < n)%nat -> row_done h ms0 ms i).
Proof.
  intros Hrow. unfold merge_row.
  destruct (foldM_imap_inv (merge_one h) ps (prefix_inv h ms0)
    {| ms_indices := ms_indices ms0; ms_paths := ms_paths ms0; ms_join := ms_join ms0; ms_map := ∅ |}) as (ms & Hms & Hinv).
  - intros i x b Hx Hb. by apply merge_one_ok.
  - split; [apply Hrow|]. split_and!; cbn; (done || lia).
  - exists ms. split_and!; [done|by apply (row_inv_next h ms0)|apply Hinv].
Qed.

(** ** The verifier's rows *)

(** Proof [i] in the verifier, once the rows down to height [h] are done: what is left of its
    path and what the prover had built make up the merged path [F], and its hash is that of the
    node it has reached. *)
Definition ver_at (h : nat) (ms : MergeState) (F : list (list (MergedBalancedBinaryMerkleDataType * list Z)))
    (vs : VerifyState) (i : nat) : Prop :=
  (exists r q, vs_paths vs !! i = Some r /\ ms_paths ms !! i = Some q /\ F !! i = Some (r ++ q) /\ (~ free ms i -> r = [])) /\
  (free ms i -> vs_indices vs !! i = Some (Z.of_nat (cur h i)) /\ vs_hashes vs !! i = A !! cur h i).

Definition vs_lengths (vs : VerifyState) : Prop :=
  length (vs_indices vs) = n /\ length (vs_paths vs) = n /\ length (vs_hashes vs) = n.

(** The merged paths extend those of the state [ms], for the proofs that are still free. *)
Definition extends (ms : MergeState) (F : list (list (MergedBalancedBinaryMerkleDataType * list Z))) : Prop :=
  forall i q, ms_paths ms !! i = Some q -> exists r, F !! i = Some (r ++ q) /\ (~ free ms i -> r = []).

Lemma free_dec ms i : Decision (free ms i).
Proof. unfold free. apply _. Defined.

Lemma proofs_small : Z.of_nat n <= U32_MAX.
Proof.
  assert (length (map K (seq 0 n)) <= length (seq 0 (length A)))%nat as Hl.
  { apply NoDup_incl_length.
    - apply NoDup_ListNoDup, NoDup_fmap_2_strong; [|apply NoDup_seq].
      intros i j Hi%elem_of_seq Hj%elem_of_seq. apply (proj2 Hps); lia.
    - intros k (i & <- & Hi%in_seq)%in_map_iff. apply in_seq. pose proof (K_bounds i). lia. }
  rewrite length_map, !length_seq in Hl. lia.
Qed.

(** An entry of a merged path yields the sibling's hash in the verifier. *)
Lemma data_hash_ok h ms0 i e hs :
  lengths ms0 -> length hs = n -> denotes h ms0 i e ->
  (forall j, free ms0 j -> hs !! j = A !! cur (S h) j) ->
  is_Some (A !! sibling (cur (S h) i)) ->
  exists s, data_hash hs e = Ok s /\ A !! sibling (cur (S h) i) = Some s.
Proof.
  intros Hl Hhs He Hj [s Hs]. exists s. split; [|done]. destruct e as [[|] b]; cbn [denotes data_hash] in *; [|congruence].
  destruct He as (j & -> & Hf & Hc). rewrite length_le_bytes, decide_True, le_value_bytes by done.
  pose proof (free_lt _ _ Hl Hf) as Hjn. pose proof proofs_small as Hn. rewrite Z.mod_small.
  2: { split; [lia|]. change (256 ^ Z.of_nat 8) with (2 ^ 64). unfold U32_MAX in Hn. lia. }
  rewrite Hhs, (proj2 (Z.ltb_lt _ _)), Nat2Z.id by lia. apply index_Some. by rewrite Hj, Hc.
Qed.

Lemma heap_step h ms0 i x s :
  (i < n)%nat -> active h ms0 i -> A !! cur (S h) i = Some x -> A !! sibling (cur (S h) i) = Some s ->
  A !! cur h i = Some (digest (bp_input (cur (S h) i) x s)).
Proof.
  intros Hi Ha Hx Hs. pose proof (active_pos _ _ _ Ha) as Hp. apply lookup_lt_Some in Hx as Hlt.
  destruct (heap_parent leaves A (cur (S h) i) Hh) as (x' & s' & Hx' & Hs' & Hpar & _); [lia|].
  rewrite (active_parent _ _ _ Ha). unfold sibling, parent in *. congruence.
Qed.

Lemma sibling_Some h ms0 i : (i < n)%nat -> active h ms0 i -> is_Some (A !! sibling (cur (S h) i)).
Proof.
  intros Hi Ha. pose proof (active_pos _ _ _ Ha) as Hp. pose proof (K_bounds i Hi). pose proof (ancestor_le (S h) (K i)).
  destruct (heap_parent leaves A (cur (S h) i) Hh) as (x' & s' & _ & Hs' & _); [unfold cur in *; lia|]. by exists s'.
Qed.

Lemma cur_Some h i : (i < n)%nat -> is_Some (A !! cur h i).
Proof. intros Hi. apply lookup_lt_is_Some_2. pose proof (K_bounds i Hi). pose proof (ancestor_le h (K i)). unfold cur. lia. Qed.

(** The verifier's step for a proof that takes one. *)
Lemma verify_one_step heights h hs vs i k r e x s :
  heights !! i = Some (Z.of_nat k) -> (h < k)%nat -> (0 < cur (S h) i)%nat -> Z.of_nat (cur (S h) i) <= U32_MAX ->
  vs_paths vs !! i = Some (r ++ [e]) -> vs_indices vs !! i = Some (Z.of_nat (cur (S h) i)) ->
  vs_hashes vs !! i = Some x -> data_hash hs e = Ok s ->
  verify_one heights (Z.of_nat h) hs vs i =
    Ok {| vs_paths := <[i := r]> (vs_paths vs); vs_indices := <[i := Z.of_nat (parent (cur (S h) i))]> (vs_indices vs);
          vs_hashes := <[i := digest (bp_input (cur (S h) i) x s)]> (vs_hashes vs) |}.
Proof.
  intros Hk Hlt Hp Hm Hr Hi Hx He. unfold verify_one. rewrite (index_Some _ _ _ Hk). cbn [mbind result_bind].
  rewrite (proj2 (Z.ltb_lt _ _)) by lia. rewrite (index_Some _ _ _ Hr). cbn [mbind result_bind].
  rewrite vec_pop_snoc, He. cbn [mbind result_bind]. rewrite (index_Some _ _ _ Hi). cbn [mbind result_bind].
  rewrite arith_ok by lia. cbn [mbind result_bind]. rewrite (index_Some _ _ _ Hx). cbn [mbind result_bind].
  rewrite land_odd, shift_parent by done. unfold bp_input, hash_together. by destruct (Nat.odd _).
Qed.

(** It does nothing for a proof whose path is used up, or that is not deep enough. *)
Lemma verify_one_idle heights h hs vs i k :
  heights !! i = Some (Z.of_nat k) -> (h < k -> vs_paths vs !! i = Some [])%nat ->
  verify_one heights (Z.of_nat h) hs vs i = Ok vs.
Proof.
  intros Hk Hr. unfold verify_one. rewrite (index_Some _ _ _ Hk). cbn [mbind result_bind].
  destruct (Z.ltb_spec (Z.of_nat h) (Z.of_nat k)); [|done]. by rewrite (index_Some _ _ _ (Hr ltac:(lia))).
Qed.

(** The two states agree on proof [i]. *)
Definition agree (vs vs' : VerifyState) (i : nat) : Prop :=
  vs_paths vs' !! i = vs_paths vs !! i /\ vs_indices vs' !! i = vs_indices vs !! i /\ vs_hashes vs' !! i = vs_hashes vs !! i.

Lemma ver_at_agree h ms F vs vs' i : agree vs vs' i -> ver_at h ms F vs i -> ver_at h ms F vs' i.
Proof. unfold agree, ver_at. by intros (-> & -> & ->). Qed.

Section VerifyRow.
Context (heights : list Z) (Hheights : forall i, (i < n)%nat -> heights !! i = Some (Z.of_nat (node_depth (K i)))).
Context (h : nat) (ms0 ms : MergeState) (F : list (list (MergedBalancedBinaryMerkleDataType * list Z))) (vs0 : VerifyState).
Context (Hrow : row_inv (S h) ms0) (Hdone : forall i, (i < n)%nat -> row_done h ms0 ms i) (HF : extends ms F).
Context (Hl0 : vs_lengths vs0) (Hver : forall i, (i < n)%nat -> ver_at (S h) ms0 F vs0 i).

(** The proofs that are done, joined or not deep enough keep their state. *)
Lemma ver_at_idle i : (i < n)%nat -> ~ (active h ms0 i /\ free ms i) ->
  (h < node_depth (K i) -> vs_paths vs0 !! i = Some [])%nat /\ ver_at h ms F vs0 i.
Proof.
  intros Hi Hna. destruct (Hver i Hi) as [(r & q & Hr & Hq & HFi & Hrf) Hf]. destruct (Hdone i Hi) as [Ha Hn].
  destruct (active_dec h ms0 i) as [Hac|Hnac].
  - destruct (Ha Hac) as [_ [[? _]|[(o & Ho & _) Hp]]]; [tauto|]. assert (~ free ms i) as Hnf by (unfold free; congruence).
    rewrite Hq in Hp. destruct (HF i q Hp) as (r' & HFi' & Hr'). rewrite (Hr' Hnf) in HFi'. rewrite HFi in HFi'.
    injection HFi' as Heq%(app_inv_tail q r []). subst r. split; [done|]. split; [|done]. by exists [], q.
  - destruct (Hn Hnac) as (_ & Hj & Hp). assert (free ms i <-> free ms0 i) as Hff by (unfold free; by rewrite Hj). split.
    + intros Hd. rewrite Hrf in Hr; [done|]. intros Hf0. by apply Hnac.
    + split; [exists r, q; split_and!; try done; [congruence|tauto]|]. intros Hfi%Hff. destruct (Hf Hfi) as [-> ->].
      by destruct (inactive_cur h ms0 i Hi Hfi Hnac) as [-> ->].
Qed.

Lemma verify_one_ok i vs : (i < n)%nat -> vs_lengths vs -> agree vs0 vs i ->
  exists vs', verify_one heights (Z.of_nat h) (vs_hashes vs0) vs i = Ok vs' /\ vs_lengths vs' /\
    ver_at h ms F vs' i /\ (forall j, j <> i -> agree vs vs' j).
Proof.
  intros Hi Hl (Hp & Hx & Hhs). destruct (active_dec h ms0 i) as [Ha|Hna], (free_dec ms i) as [Hf|Hnf].
  2-4: destruct (ver_at_idle i Hi ltac:(tauto)) as [Hidle Hv]; exists vs; split_and!; [|apply Hl..|by apply (ver_at_agree _ _ _ vs0)|done];
    eapply verify_one_idle; [by apply Hheights|]; by rewrite Hp.
  destruct (proj1 (Hdone i Hi) Ha) as [_ [[_ (e & old & Hold & Hpath & He)]|[(o & Ho & _) _]]]; [|unfold free in Hf; congruence].
  destruct (Hver i Hi) as [(r & q & Hr & Hq & HFi & _) Hfr]. destruct (Hfr (proj1 Ha)) as [Hidx Hhash].
  assert (q = old) as -> by congruence. destruct (HF i _ Hpath) as (r' & HFi' & _). rewrite HFi in HFi'.
  injection HFi' as Heq. change (e :: old) with ([e] ++ old) in Heq. rewrite app_assoc in Heq. apply app_inv_tail in Heq as ->.
  destruct (data_hash_ok h ms0 i e (vs_hashes vs0)) as (s & Hs & HA); [apply Hrow|apply Hl0|done| |by eapply sibling_Some|].
  { intros j Hj. apply Hver; [|done]. eapply free_lt; [apply Hrow|done]. }
  destruct (cur_Some (S h) i Hi) as [x Hxi]. eexists. split.
  { eapply verify_one_step; [by apply Hheights|apply Ha|by eapply active_pos|by apply cur_small|exact (eq_trans Hp Hr)|congruence|
      exact (eq_trans Hhs (eq_trans Hhash Hxi))|done]. }
  destruct Hl as (Hl1 & Hl2 & Hl3). split; [by unfold vs_lengths; cbn; rewrite !length_insert|]. split.
  - split; cbn [vs_paths vs_indices vs_hashes]; [exists r', (e :: old); rewrite list_lookup_insert_eq by lia; rewrite <- app_assoc in HFi; by split_and!|].
    intros _. rewrite !list_lookup_insert_eq by lia. rewrite (active_parent _ _ _ Ha). split; [done|].
    rewrite <- (active_parent _ _ _ Ha). by erewrite heap_step.
  - intros j Hj. unfold agree. cbn. by rewrite !list_lookup_insert_ne by done.
Qed.

Lemma verify_row_ok : exists vs, verify_row heights n vs0 h = Ok vs /\ vs_lengths vs /\ (forall i, (i < n)%nat -> ver_at h ms F vs i).
Proof.
  unfold verify_row.
  destruct (foldM_seq_inv (verify_one heights (Z.of_nat h) (vs_hashes vs0)) n
    (fun p vs => vs_lengths vs /\ (forall i, (i < p)%nat -> ver_at h ms F vs i) /\ (forall i, (p <= i)%nat -> agree vs0 vs i)) vs0)
    as (vs & Hvs & Hl & Hv & _); [| |by exists vs].
  - intros p vs Hp (Hl & Hv & Hr). destruct (verify_one_ok p vs Hp Hl) as (vs' & Hvs' & Hl' & Hv' & Hj); [by apply Hr|].
    exists vs'. split; [done|]. split; [done|]. split.
    + intros i Hi. destruct (decide (i = p)) as [->|]; [done|]. apply (ver_at_agree _ _ _ vs); [by apply Hj|]. apply Hv. lia.
    + intros i Hi. destruct (Hj i) as (? & ? & ?); [lia|]. destruct (Hr i) as (? & ? & ?); [lia|]. split_and!; congruence.
  - split; [done|]. split; [lia|done].
Qed.

End VerifyRow.

(** All the rows: the prover's merged paths lead the verifier to the root. *)
Lemma merge_rows heights h ms :
  (forall i, (i < n)%nat -> heights !! i = Some (Z.of_nat (node_depth (K i)))) -> row_inv h ms ->
  exists ms', foldM (merge_row ps) (rev (seq 0 h)) ms = Ok ms' /\ length (ms_paths ms') = n /\ extends ms (ms_paths ms') /\
    forall vs, vs_lengths vs -> (forall i, (i < n)%nat -> ver_at h ms (ms_paths ms') vs i) ->
      exists vs', foldM (verify_row heights n) (rev (seq 0 h)) vs = Ok vs' /\ vs_hashes vs' !! 0%nat = A !! 0%nat.
Proof.
  intros Hheights. revert ms. induction h as [|h IH]; intros ms Hrow.
  - exists ms. split; [done|]. split; [exact (proj1 (proj2 (proj1 Hrow)))|]. split; [intros i q Hq; by exists []|].
    intros vs _ Hv. exists vs. split; [done|]. destruct Hrow as (Hl & H0 & _).
    destruct (Hv 0%nat) as [_ Hf]; [exact (free_lt _ _ Hl H0)|]. destruct (Hf H0) as [_ ->]. unfold cur. by rewrite ancestor_root.
  - rewrite seq_S, rev_app_distr. cbn [rev app foldM Nat.add].
    destruct (merge_row_ok h ms Hrow) as (ms1 & -> & Hrow1 & Hdone). cbn [mbind result_bind].
    destruct (IH ms1 Hrow1) as (ms' & Hms' & Hl' & Hext & Hver). exists ms'. split; [done|]. split; [done|]. split.
    + intros i q Hq. assert (i < n)%nat as Hi by (apply lookup_lt_Some in Hq; destruct Hrow as ((_ & Hl & _) & _); lia).
      destruct (Hdone i Hi) as [Ha Hn]. destruct (active_dec h ms i) as [Hac|Hna].
      * destruct (Ha Hac) as [_ [[Hf (e & old & Hold & Hp & _)]|[_ Hp]]].
        -- destruct (Hext i _ Hp) as (r & Hr & _). exists (r ++ [e]). rewrite Hq in Hold. injection Hold as <-.
           rewrite <- app_assoc. split; [done|]. intros Hnf. destruct Hnf. apply Hac.
        -- rewrite Hq in Hp. destruct (Hext i q Hp) as (r & Hr & _). exists r. split; [done|]. intros Hnf. destruct Hnf. apply Hac.
      * destruct (Hn Hna) as (_ & Hj & Hp). rewrite Hq in Hp. destruct (Hext i q Hp) as (r & Hr & Hrf). exists r.
        unfold free in *. by rewrite Hj in Hrf.
    + intros vs Hl Hv. destruct (verify_row_ok heights Hheights h ms ms1 (ms_paths ms') vs Hrow Hdone Hext Hl Hv) as (vs1 & -> & Hl1 & Hv1).
      cbn [mbind result_bind]. by apply Hver.
Qed.

End Merged.

Section Complete.
Context {H : Hasher}.

Lemma list_max_Z_spec l : l <> [] -> exists m, list_max_Z l = Some m /\ Forall (fun x => x <= m) l.
Proof.
  destruct l as [|x l]; [done|]. intros _. eexists. split; [done|].
  assert (forall l a, a <= fold_left Z.max l a /\ Forall (fun y => y <= fold_left Z.max l a) l) as Hmax.
  { clear. induction l as [|y l IH]; intros a; cbn; [by split|]. destruct (IH (Z.max a y)) as [? ?].
    split; [lia|]. constructor; [lia|done]. }
  constructor; apply Hmax.
Qed.

Lemma node_depth_le k : (node_depth k <= k)%nat.
Proof. unfold node_depth. pose proof (Nat.log2_lt_lin (k + 1)). lia. Qed.

(** The proofs generated for a list of leaves are honest. *)
Lemma generate_honest leaves A j leaf :
  heap_of leaves A -> Z.of_nat (2 * length leaves) <= U32_MAX -> leaves !! j = Some leaf ->
  exists p, bp_generate_proof {| tree_hashes := A |} j = Ok p /\
    bp_node_index p = Z.of_nat (j + (length leaves - 1)) /\ honest_path A (j + (length leaves - 1)) (bp_path p).
Proof.
  intros Hh Hmax Hj. assert (leaves <> []) as Hne by (by intros ->).
  pose proof (heap_bounds _ _ Hh) as Hlen. pose proof (heap_leaf _ _ j Hh) as Hleaf. rewrite Hj in Hleaf.
  apply lookup_lt_Some in Hj as Hjl.
  destruct (@generate_loop_ok _ BalancedBinaryMerkleProofError unit leaves A _ _ [] leaf Hh (Nat.le_refl _) Hleaf)
    as (path & root & Hg & Hp & _); [lia|].
  unfold bp_generate_proof, get_node_index. cbn [tree_hashes]. rewrite (heap_half _ _ Hne Hh), Hg. cbn [mbind result_bind app].
  unfold cast_to_u32. rewrite checked_ok by lia. cbn. by eexists.
Qed.

Lemma generate_all leaves A js :
  heap_of leaves A -> Z.of_nat (2 * length leaves) <= U32_MAX -> Forall (fun j => (j < length leaves)%nat) js ->
  exists ps, mapM (bp_generate_proof {| tree_hashes := A |}) js = Ok ps /\
    Forall2 (fun j p => bp_node_index p = Z.of_nat (j + (length leaves - 1)) /\
      honest_path A (j + (length leaves - 1)) (bp_path p)) js ps.
Proof.
  intros Hh Hmax. induction 1 as [|j js Hj _ (ps & Hps & Hall)]; [by exists []|].
  destruct (lookup_lt_is_Some_2 leaves j Hj) as [leaf Hl]. destruct (generate_honest leaves A j leaf Hh Hmax Hl) as (p & Hp & Hi).
  exists (p :: ps). split; [|by constructor]. cbn. rewrite Hp. cbn. by rewrite Hps.
Qed.

Lemma cast_all (ps : list BalancedBinaryMerkleProof) (ds : list nat) :
  Forall2 (fun p d => length (bp_path p) = d /\ Z.of_nat d <= U32_MAX) ps ds ->
  mapM (fun proof => cast_to_u32 (length (bp_path proof))) ps = Ok (map Z.of_nat ds).
Proof.
  intros Hall. apply mapM_Ok_Forall2. induction Hall as [|p d ps' ds' [Hp Hd] _ IH]; cbn; constructor; [|done].
  unfold cast_to_u32. by rewrite Hp, checked_ok by lia.
Qed.

(** The initial states of the prover and of the verifier. *)
Lemma initial_row_inv leaves A ps K M :
  proofs_of leaves A ps K -> ps <> [] -> (forall i, (i < length ps)%nat -> node_depth (K i) <= M)%nat ->
  row_inv ps K M {| ms_indices := map bp_node_index ps; ms_paths := replicate (length ps) [];
                    ms_join := replicate (length ps) None; ms_map := ∅ |}.
Proof.
  intros [Hps Hinj] Hne HM. assert (0 < length ps)%nat by (destruct ps; [done|cbn; lia]).
  assert (forall i, (replicate (length ps) None : list (option nat)) !! i = Some None -> (i < length ps)%nat) as Hlt.
  { intros i (_ & Hi)%lookup_replicate. done. }
  split_and!; unfold lengths, free; cbn.
  - by rewrite length_map, !length_replicate.
  - by apply lookup_replicate_2.
  - intros i Hi%Hlt. destruct (lookup_lt_is_Some_2 ps i Hi) as [p Hp]. change (map bp_node_index ps) with (bp_node_index <$> ps).
    rewrite list_lookup_fmap, Hp. cbn. destruct (Hps i p Hp) as (-> & _). unfold cur. by rewrite ancestor_shallow by auto.
  - intros i j Hi%Hlt Hj%Hlt. unfold cur. rewrite !ancestor_shallow by auto. by apply Hinj.
Qed.

(** Merging the proofs of different leaves and verifying the result, for the nodes [K]. *)
Lemma merged_ok leaves A ps K ls root :
  heap_of leaves A -> Z.of_nat (length A) <= U32_MAX -> proofs_of leaves A ps K -> ps <> [] ->
  length ls = length ps -> (forall i, (i < length ps)%nat -> ls !! i = A !! K i) -> A !! 0%nat = Some root ->
  exists merged, create_from_proofs ps = Ok merged /\ mp_verify_consume merged root ls = Ok true.
Proof.
  intros Hh Hsize Hps Hne Hls Hl Hroot. set (ds := map (fun p => length (bp_path p)) ps).
  assert (forall i, (i < length ps)%nat -> ds !! i = Some (node_depth (K i)) /\ Z.of_nat (node_depth (K i)) <= U32_MAX) as Hds.
  { intros i [p Hp]%lookup_lt_is_Some_2. destruct (proj1 Hps i p Hp) as (_ & [Hpl _] & Hk).
    pose proof (node_depth_le (K i)). unfold ds. change (map ?f ps) with (f <$> ps). rewrite list_lookup_fmap, Hp. cbn.
    rewrite Hpl. split; [done|lia]. }
  assert (length ds = length ps) as Hdl by apply length_map.
  unfold create_from_proofs. rewrite (cast_all ps ds).
  2: { apply Forall2_same_length_lookup_2; [done|]. intros i p d Hp Hd. apply lookup_lt_Some in Hp as Hi.
       destruct (Hds i Hi) as [Hd' ?]. rewrite Hd in Hd'. injection Hd' as ->. split; [|done].
       by destruct (proj1 Hps i p Hp) as (_ & [? _] & _). }
  cbn [mbind result_bind]. destruct (list_max_Z_spec (map Z.of_nat ds)) as (M & HM & Hmax).
  { destruct ds; [destruct ps; [done|cbn in Hdl; lia]|done]. }
  rewrite HM. cbn [ok_or mbind result_bind].
  assert (forall i, (i < length ps)%nat -> map Z.of_nat ds !! i = Some (Z.of_nat (node_depth (K i)))) as Hheights.
  { intros i Hi. change (map Z.of_nat ds) with (Z.of_nat <$> ds). rewrite list_lookup_fmap. by rewrite (proj1 (Hds i Hi)). }
  destruct (merge_rows leaves A Hh Hsize ps K Hps (map Z.of_nat ds) (Z.to_nat M) _ Hheights
    (initial_row_inv leaves A ps K (Z.to_nat M) Hps Hne ltac:(intros i Hi; rewrite Forall_lookup in Hmax; specialize (Hmax i _ (Hheights i Hi)); lia)))
    as (ms' & -> & Hlen & Hext & Hver). cbn [mbind result_bind].
  eexists. split; [done|]. unfold mp_verify_consume. cbn [mp_node_indices mp_paths mp_heights].
  rewrite length_map, Hlen, Hls, !Nat.eqb_refl, HM. cbn [negb orb ok_or mbind result_bind].
  edestruct Hver as (vs' & -> & Hroot'); [| |cbn [mbind result_bind]; rewrite Hroot in Hroot'; rewrite (index_Some _ _ _ Hroot');
    cbn; by rewrite bool_decide_eq_true_2].
  - unfold vs_lengths. cbn. by rewrite length_map.
  - intros i Hi. destruct (lookup_lt_is_Some_2 ps i Hi) as [p Hp]. split; cbn [vs_paths vs_indices vs_hashes ms_paths].
    + destruct (Hext i []) as (r & Hr & _); [by apply lookup_replicate_2|]. exists r, []. split_and!; [by rewrite Hr, app_nil_r|by apply lookup_replicate_2|done|].
      intros Hnf. destruct Hnf. by apply lookup_replicate_2.
    + intros _. unfold cur. rewrite ancestor_shallow.
      2: { rewrite Forall_lookup in Hmax. specialize (Hmax i _ (Hheights i Hi)). lia. }
      change (map bp_node_index ps) with (bp_node_index <$> ps). rewrite list_lookup_fmap, Hp. cbn.
      destruct (proj1 Hps i p Hp) as (-> & _). split; [done|by apply Hl].
Qed.

(** Merging the proofs generated for any non-empty list of different leaves succeeds, and
    the merged proof verifies those leaves against the root of the tree. *)
Theorem merged_proof_complete {E} (leaves : list Hash) (js : list nat) (ls : list Hash) :
  Z.of_nat (2 * length leaves) <= U32_MAX -> js <> [] -> NoDup js ->
  Forall2 (fun j l => leaves !! j = Some l) js ls ->
  exists tree ps merged, @tree_create H E leaves = Ok tree /\ mapM (bp_generate_proof tree) js = Ok ps /\
    create_from_proofs ps = Ok merged /\ mp_verify_consume merged (tree_get_merkle_root tree) ls = Ok true.
Proof.
  intros Hmax Hne Hnd Hjs. assert (Forall (fun j => (j < length leaves)%nat) js) as Hlt.
  { induction Hjs as [|j l js' ls' Hj]; [done|]. constructor; [by eapply lookup_lt_Some|]. destruct js'; [done|].
    apply IHHjs; [done|]. by apply NoDup_cons in Hnd as [_ ?]. }
  assert (leaves <> []) as Hlne by (intros ->; destruct Hlt; [done|cbn in *; lia]).
  destruct (@create_ok _ E leaves Hlne) as (A & HA & Hh). destruct (generate_all leaves A js Hh Hmax Hlt) as (ps & Hps & Hall).
  pose proof (heap_bounds _ _ Hh) as Hlen. pose proof (Forall2_length _ _ _ Hall) as Hlp. pose proof (Forall2_length _ _ _ Hjs) as Hll.
  destruct (lookup_lt_is_Some_2 A 0) as [root Hroot]; [destruct leaves; [done|cbn in *; lia]|].
  set (K i := (js !!! i + (length leaves - 1))%nat).
  destruct (merged_ok leaves A ps K ls root Hh) as (merged & Hm & Hv); [lia| | |lia| |done|].
  - split.
    + intros i p Hp. destruct (Forall2_lookup_r _ _ _ _ _ Hall Hp) as (j & Hj & Hi & Hpath). unfold K.
      rewrite (list_lookup_total_correct _ _ _ Hj). split_and!; [done|done|lia|]. rewrite Forall_lookup in Hlt. apply Hlt in Hj. lia.
    + intros i j Hi Hj Hk. destruct (lookup_lt_is_Some_2 js i) as [a Ha]; [lia|]. destruct (lookup_lt_is_Some_2 js j) as [b Hb]; [lia|].
      unfold K in Hk. rewrite (list_lookup_total_correct _ _ _ Ha), (list_lookup_total_correct _ _ _ Hb) in Hk.
      eapply NoDup_lookup; [exact Hnd|exact Ha|]. rewrite Hb. f_equal. lia.
  - intros ->. destruct js; [done|]. cbn in Hlp. lia.
  - intros i Hi. destruct (lookup_lt_is_Some_2 ls i) as [l Hl]; [lia|]. destruct (Forall2_lookup_r _ _ _ _ _ Hjs Hl) as (j & Hj & Hleaf).
    unfold K. rewrite (list_lookup_total_correct _ _ _ Hj), (heap_leaf _ _ _ Hh). congruence.
  - exists {| tree_hashes := A |}, ps, merged. split_and!; [done..|]. unfold tree_get_merkle_root. cbn [tree_hashes].
    destruct A as [|a A']; [done|]. injection Hroot as ->. done.
Qed.

End Complete.

(** ** Examples *)
Section MergedExamples.

#[local] Instance merged_example_hasher : Hasher := Mod256.digest 9.

Lemma merged_proof_complete_witness :
  exists tree ps merged, @tree_create _ unit [replicate 32 1; replicate 32 2; replicate 32 3] = Ok tree /\
    mapM (bp_generate_proof tree) [2%nat; 0%nat] = Ok ps /\ create_from_proofs ps = Ok merged /\
    mp_verify_consume merged (tree_get_merkle_root tree) [replicate 32 3; replicate 32 1] = Ok true.
Proof.
  apply (merged_proof_complete [replicate 32 1; replicate 32 2; replicate 32 3]).
  - cbn. unfold U32_MAX. lia.
  - done.
  - by_evaluation.
  - repeat constructor.
Defined.

End MergedExamples.
