(* ===== verification/Amounts.v ===== *)
(** * Amounts, weights and fees

    src/base_layer/core/src/transactions: [MicroTari] of tari_amount.rs (arithmetic on 64-bit
    amounts), [TransactionWeight] of weight.rs and [Fee] of fee.rs. The outputs of a body matter
    to the weight only through [get_features_and_scripts_size], an argument of the section. *)

From S2P Require Import Prelude.

Local Open Scope Z_scope.

(** ** Amounts *)

(** [MicroTari(pub u64)] *)
Definition MicroTari : Type := Z.

Definition uT : MicroTari := 1.
Definition T : MicroTari := 1000000.

Section MicroTari.
Context {E : Type}.
Implicit Types v w : MicroTari.

(** The operators derived with [newtype_ops!] are those of [u64]. *)
Definition mt_add v w : result E MicroTari := arith 0 U64_MAX (v + w).
Definition mt_sub v w : result E MicroTari := arith 0 U64_MAX (v - w).
Definition mt_mul v w : result E MicroTari := arith 0 U64_MAX (v * w).
Definition mt_div v w : result E MicroTari := if w =? 0 then Panic else Ok (v / w).

Definition mt_checked_add v w : option MicroTari := checked 0 U64_MAX (v + w).
Definition mt_checked_sub v w : result E (option MicroTari) :=
  if w <=? v then d ← mt_sub v w; Ok (Some d) else Ok None.
Definition mt_checked_mul v w : option MicroTari := checked 0 U64_MAX (v * w).
Definition mt_checked_div v w : option MicroTari := if w =? 0 then None else Some (v / w).
Definition mt_saturating_sub v w : result E MicroTari := if w <=? v then mt_sub v w else Ok 0.

(** [impl Sum for MicroTari] *)
Definition mt_sum (l : list MicroTari) : result E MicroTari := foldM mt_add l 0.

Lemma mt_sub_ok v w : 0 <= v - w <= U64_MAX -> mt_sub v w = Ok (v - w).
Proof. apply arith_ok. Qed.

End MicroTari.

(** ** Weights *)

Record WeightParams := {
  kernel_weight : Z;
  input_weight : Z;
  output_weight : Z;
  features_and_scripts_bytes_per_gram : option Z;
}.

(** [WeightParams::v1()] *)
Definition weight_params_v1 : WeightParams :=
  {| kernel_weight := 10; input_weight := 8; output_weight := 53;
     features_and_scripts_bytes_per_gram := Some 16 |}.

Record TransactionWeight := { params : WeightParams }.

Definition weight_latest : TransactionWeight := {| params := weight_params_v1 |}.

Definition weight_calculate {E} (self : TransactionWeight) (num_kernels num_inputs num_outputs size : Z) : result E Z :=
  let p := params self in
  k ← arith 0 U64_MAX (kernel_weight p * num_kernels);
  i ← arith 0 U64_MAX (input_weight p * num_inputs);
  ki ← arith 0 U64_MAX (k + i);
  o ← arith 0 U64_MAX (output_weight p * num_outputs);
  kio ← arith 0 U64_MAX (ki + o);
  let f := match features_and_scripts_bytes_per_gram p with Some per_gram => size / per_gram | None => 0 end in
  arith 0 U64_MAX (kio + f).

Definition round_up_features_and_scripts_size (self : TransactionWeight) (size : Z) : Z :=
  default size
    (per_gram ← features_and_scripts_bytes_per_gram (params self);
     let rem := size mod per_gram in
     if rem =? 0 then Some size else checked 0 USIZE_MAX (size + (per_gram - rem))).

(** A transaction or block body (aggregated_body.rs). *)
Record AggregateBody (I O K : Type) := { sorted : bool; inputs : list I; outputs : list O; kernels : list K }.
Arguments sorted {I O K}.
Arguments inputs {I O K}.
Arguments outputs {I O K}.
Arguments kernels {I O K}.

#[export] Instance AggregateBody_eq_dec {I O K} `{EqDecision I, EqDecision O, EqDecision K} : EqDecision (AggregateBody I O K).
Proof. solve_decision. Defined.

Section Body.
Context {I O K : Type} (get_features_and_scripts_size : O -> Z).
Implicit Types body : AggregateBody I O K.

Definition calculate_normalised_total_features_and_scripts_size {E} (self : TransactionWeight) body : result E Z :=
  foldM (fun acc s => arith 0 USIZE_MAX (acc + s))
    (map (fun o => round_up_features_and_scripts_size self (get_features_and_scripts_size o)) (outputs body)) 0.

Definition weight_calculate_body {E} (self : TransactionWeight) body : result E Z :=
  size ← calculate_normalised_total_features_and_scripts_size self body;
  weight_calculate self (Z.of_nat (length (kernels body))) (Z.of_nat (length (inputs body)))
    (Z.of_nat (length (outputs body))) size.

(** ** Fees *)

Record Fee := { weighting : TransactionWeight }.

Definition MINIMUM_TRANSACTION_FEE : MicroTari := 101.

Definition fee_calculate {E} (self : Fee) (fee_per_gram : MicroTari) (num_kernels num_inputs num_outputs size : Z)
    : result E MicroTari :=
  weight ← weight_calculate (weighting self) num_kernels num_inputs num_outputs size;
  mt_mul weight fee_per_gram.

Definition fee_calculate_body {E} (self : Fee) (fee_per_gram : MicroTari) body : result E MicroTari :=
  weight ← weight_calculate_body (weighting self) body;
  mt_mul weight fee_per_gram.

Definition fee_normalize (fee : MicroTari) : MicroTari := Z.max MINIMUM_TRANSACTION_FEE fee.

(** ** Weights add up *)

Definition body_app (b1 b2 : AggregateBody I O K) : AggregateBody I O K :=
  {| sorted := false; inputs := inputs b1 ++ inputs b2; outputs := outputs b1 ++ outputs b2;
     kernels := kernels b1 ++ kernels b2 |}.

Definition weight_wf (W : TransactionWeight) : Prop :=
  0 <= kernel_weight (params W) /\ 0 <= input_weight (params W) /\ 0 <= output_weight (params W) /\
  (forall p, features_and_scripts_bytes_per_gram (params W) = Some p -> 0 < p).

(** Every output of the body can be rounded up within the width of [usize]. *)
Definition rounds (W : TransactionWeight) body : Prop :=
  Forall (fun o => 0 <= get_features_and_scripts_size o /\
    forall p, features_and_scripts_bytes_per_gram (params W) = Some p -> get_features_and_scripts_size o + p <= USIZE_MAX) (outputs body).

Lemma round_up_spec W s p :
  features_and_scripts_bytes_per_gram (params W) = Some p -> 0 < p -> 0 <= s -> s + p <= USIZE_MAX ->
  exists q, round_up_features_and_scripts_size W s = p * q /\ s <= p * q < s + p.
Proof.
  intros Hp Hpos Hs Hmax. unfold round_up_features_and_scripts_size. rewrite Hp. cbn [mbind option_bind].
  pose proof (Z.div_mod s p ltac:(lia)) as Hdm. pose proof (Z.mod_pos_bound s p Hpos).
  destruct (Z.eqb_spec (s mod p) 0) as [H0|H0]; cbn [default].
  - exists (s / p). unfold id. lia.
  - rewrite checked_ok by lia. cbn. exists (s / p + 1). lia.
Qed.

Lemma round_up_nonneg W s : weight_wf W -> 0 <= s -> 0 <= round_up_features_and_scripts_size W s.
Proof.
  intros (_ & _ & _ & Hp) Hs. unfold round_up_features_and_scripts_size.
  destruct (features_and_scripts_bytes_per_gram (params W)) as [p|]; cbn [mbind option_bind default]; unfold id; [|done].
  destruct (_ =? 0); cbn [default]; unfold id; [done|]. destruct (checked _ _ _) as [z|] eqn:Hc; cbn; unfold id; [|done].
  apply checked_Some in Hc. lia.
Qed.

(** The sum of the rounded sizes of a body's outputs. *)
Definition rounded_size (W : TransactionWeight) body : Z :=
  sum_Z (map (fun o => round_up_features_and_scripts_size W (get_features_and_scripts_size o)) (outputs body)).

(** The weight as a sum over the parts of the body. *)
Definition weight_of (W : TransactionWeight) body : Z :=
  kernel_weight (params W) * Z.of_nat (length (kernels body)) + input_weight (params W) * Z.of_nat (length (inputs body)) +
  output_weight (params W) * Z.of_nat (length (outputs body)) +
  match features_and_scripts_bytes_per_gram (params W) with Some p => rounded_size W body / p | None => 0 end.

Lemma rounded_nonneg W body : weight_wf W -> rounds W body ->
  Forall (Z.le 0) (map (fun o => round_up_features_and_scripts_size W (get_features_and_scripts_size o)) (outputs body)).
Proof.
  intros HW Hr. apply Forall_map. eapply Forall_impl; [exact Hr|]. intros o [Ho _]. by apply round_up_nonneg.
Qed.

Lemma weight_calculate_iff {E} W k i o s w :
  weight_wf W -> 0 <= k -> 0 <= i -> 0 <= o -> 0 <= s ->
  @weight_calculate E W k i o s = Ok w <->
  w = kernel_weight (params W) * k + input_weight (params W) * i + output_weight (params W) * o +
      match features_and_scripts_bytes_per_gram (params W) with Some p => s / p | None => 0 end /\ w <= U64_MAX.
Proof.
  intros (Hk & Hi & Ho & Hp) ? ? ? ?. unfold weight_calculate.
  assert (0 <= match features_and_scripts_bytes_per_gram (params W) with Some p => s / p | None => 0 end) as Hf.
  { destruct (features_and_scripts_bytes_per_gram (params W)) as [p|]; [|lia]. apply Z.div_pos; [lia|by apply Hp]. }
  pose proof (Z.mul_nonneg_nonneg _ k Hk). pose proof (Z.mul_nonneg_nonneg _ i Hi). pose proof (Z.mul_nonneg_nonneg _ o Ho). split.
  - intros Hw. inv_bind Hw. repeat match goal with H : arith _ _ _ = Ok _ |- _ => apply arith_Ok_iff in H as [-> ?] end. lia.
  - intros [-> Hmax]. repeat (rewrite arith_ok by lia; cbn [mbind result_bind]). done.
Qed.

Lemma weight_body_iff {E} W body w :
  weight_wf W -> rounds W body -> rounded_size W body <= USIZE_MAX ->
  @weight_calculate_body E W body = Ok w <-> w = weight_of W body /\ w <= U64_MAX.
Proof.
  intros HW Hr Hmax. pose proof (rounded_nonneg _ _ HW Hr) as Hnn. unfold weight_calculate_body, calculate_normalised_total_features_and_scripts_size.
  rewrite (proj1 (@foldM_sum E USIZE_MAX _ 0 Hnn ltac:(lia))) by done. cbn [mbind result_bind]. rewrite Z.add_0_l.
  apply weight_calculate_iff; try done; try lia. by apply sum_Z_nonneg.
Qed.

Lemma rounded_multiple W body p : weight_wf W -> rounds W body ->
  features_and_scripts_bytes_per_gram (params W) = Some p -> exists q, rounded_size W body = p * q.
Proof.
  intros HW Hr Hp. unfold rounded_size. unfold rounds in Hr. induction Hr as [|o os [Ho Hmax] Hos (q & Hq)]; [exists 0; cbn; lia|].
  destruct (round_up_spec W _ p Hp (proj2 (proj2 (proj2 HW)) p Hp) Ho (Hmax p Hp)) as (q' & Hq' & _).
  exists (q' + q). cbn [map sum_Z foldr]. fold (sum_Z (map (λ o0 : O, round_up_features_and_scripts_size W (get_features_and_scripts_size o0)) os)).
  rewrite Hq, Hq'. lia.
Qed.

(** Because every output's size is rounded up to a multiple of the bytes per gram, the weight
    of a body put together from two bodies (transactions in a block) is the sum of their weights,
    as long as nothing exceeds the width of the integers. *)
Theorem weight_additive {E} (W : TransactionWeight) (b1 b2 : AggregateBody I O K) w1 w2 :
  weight_wf W -> rounds W b1 -> rounds W b2 ->
  rounded_size W b1 + rounded_size W b2 <= USIZE_MAX -> w1 + w2 <= U64_MAX ->
  @weight_calculate_body E W b1 = Ok w1 -> @weight_calculate_body E W b2 = Ok w2 ->
  @weight_calculate_body E W (body_app b1 b2) = Ok (w1 + w2).
Proof.
  intros HW H1 H2 Hmax Hw Hw1 Hw2.
  pose proof (sum_Z_nonneg _ (rounded_nonneg _ _ HW H1)). pose proof (sum_Z_nonneg _ (rounded_nonneg _ _ HW H2)).
  fold (rounded_size W b1) in *. fold (rounded_size W b2) in *.
  apply weight_body_iff in Hw1 as [-> _]; [|done|done|lia]. apply weight_body_iff in Hw2 as [-> _]; [|done|done|lia].
  assert (rounded_size W (body_app b1 b2) = rounded_size W b1 + rounded_size W b2) as Hsum.
  { unfold rounded_size. cbn [outputs body_app]. by rewrite map_app, sum_Z_app. }
  apply weight_body_iff; [done|by apply Forall_app|lia|]. split; [|done].
  unfold weight_of. cbn [body_app inputs outputs kernels]. rewrite !length_app, !Nat2Z.inj_add. fold (body_app b1 b2). rewrite Hsum.
  destruct (features_and_scripts_bytes_per_gram (params W)) as [p|] eqn:Hp; [|lia].
  pose proof (proj2 (proj2 (proj2 HW)) p Hp). destruct (rounded_multiple _ _ p HW H1 Hp) as [q1 ->], (rounded_multiple _ _ p HW H2 Hp) as [q2 ->].
  rewrite <- Z.mul_add_distr_l, !(Z.mul_comm p), !Z.div_mul by lia. lia.
Qed.

End Body.

Lemma weight_additive_witness :
  @weight_calculate_body unit Z unit id unit weight_latest
    {| sorted := false; inputs := [tt; tt]; outputs := [17; 40]; kernels := [tt; tt] |} = Ok (10 + 8 + 53 + 2 + (10 + 8 + 53 + 3)).
Proof.
  apply (weight_additive id weight_latest {| sorted := true; inputs := [tt]; outputs := [17]; kernels := [tt] |}
    {| sorted := true; inputs := [tt]; outputs := [40]; kernels := [tt] |}).
  - split_and!; cbn; try lia. intros p [= <-]. lia.
  - repeat constructor; [by_evaluation|]. intros p [= <-]. by_evaluation.
  - repeat constructor; [by_evaluation|]. intros p [= <-]. by_evaluation.
  - by_evaluation.
  - by_evaluation.
  - done.
  - done.
Defined.
