(* ===== verification/Emission.v ===== *)
(** * The emission schedule

    src/base_layer/core/src/consensus/emission.rs: [EmissionSchedule], its decay parameters, the
    iterator [EmissionRate] and the loops of [block_reward] and [supply_at_block]. Characters are
    Unicode scalar values. *)

From S2P Require Import Prelude Amounts.

Local Open Scope Z_scope.

Record EmissionSchedule := { initial : MicroTari; decay : list Z; tail : MicroTari }.

(** [EmissionSchedule::new] *)
Definition schedule_new {E} (initial : MicroTari) (decay : list Z) (tail : MicroTari) : result E EmissionSchedule :=
  if forallb (fun i => i <? 64) decay then Ok {| initial := initial; decay := decay; tail := tail |} else Panic.

(** ** Decay parameters *)

Definition is_ascii_digit (c : Z) : bool := (48 <=? c) && (c <=? 57).

Definition frac_vec (n : list Z) : option (list Z) :=
  match n with
  | 48 :: 46 :: digits => if forallb is_ascii_digit digits then Some (map (fun i => i - 48) digits) else None
  | _ => None
  end.

(** The digits are doubled from the last one on; the carry of the first is returned. *)
Fixpoint times_two (num : list Z) : list Z * bool :=
  match num with
  | [] => ([], false)
  | d :: num =>
      let '(num', carry_last) := times_two num in
      ((2 * d) mod 10 + (if carry_last : bool then 1 else 0) :: num', 5 <=? d)
  end.

Definition is_zero (v : list Z) : bool := forallb (fun i => i =? 0) v.

(** The [while] loop: [index] goes from 1 to 63. The result is in the order of the pushes. *)
Fixpoint decay_loop (fuel : nat) (next : list Z) (index : Z) (res : list Z) : list Z * Z * bool :=
  match fuel with
  | O => (res, index, false)
  | S fuel =>
      if is_zero next then (res, index, true)
      else
        let '(next, overflow) := times_two next in
        let res := if overflow then res else res ++ [index] in
        if 63 <=? index then (res, index, false) else decay_loop fuel next (index + 1) res
  end.

Definition decay_params (k : list Z) : option (list Z) :=
  next ← frac_vec k;
  let '(res, index, exact) := decay_loop 63 next 1 [] in
  Some (if exact then res ++ [index - 1] else res).

(** ** The iterator *)

Record EmissionRate := { block_num : Z; supply : MicroTari; reward : MicroTari }.

Definition rate_new (schedule : EmissionSchedule) : EmissionRate :=
  {| block_num := 0; supply := initial schedule; reward := initial schedule |}.

Definition next_reward {E} (schedule : EmissionSchedule) (self : EmissionRate) : result E MicroTari :=
  let r := reward self in
  next ← foldM (fun sum i => mt_sub sum (Z.shiftr r i)) (decay schedule) (reward self);
  Ok (Z.max next (tail schedule)).

(** [next(&mut self)]: the reward is updated also when the supply would overflow and the iterator
    ends. *)
Definition rate_next {E} (schedule : EmissionSchedule) (self : EmissionRate)
    : result E (option (Z * MicroTari * MicroTari) * EmissionRate) :=
  r ← next_reward schedule self;
  match mt_checked_add (supply self) r with
  | None => Ok (None, {| block_num := block_num self; supply := supply self; reward := r |})
  | Some s =>
      n ← arith 0 U64_MAX (block_num self + 1);
      Ok (Some (n, r, s), {| block_num := n; supply := s; reward := r |})
  end.

(** [while iterator.block_height() < height { iterator.next(); }]; [None] when the fuel runs out. *)
Fixpoint advance {E} (fuel : nat) (schedule : EmissionSchedule) (height : Z) (self : EmissionRate)
    : option (result E EmissionRate) :=
  if block_num self <? height then
    match fuel with
    | O => None
    | S fuel =>
        match rate_next schedule self with
        | Ok (_, self) => advance fuel schedule height self
        | Err e => Some (Err e)
        | Panic => Some Panic
        end
    end
  else Some (Ok self).

Definition block_reward {E} (fuel : nat) (schedule : EmissionSchedule) (height : Z) : option (result E MicroTari) :=
  fmap (M := result E) reward <$> advance fuel schedule height (rate_new schedule).

Definition supply_at_block {E} (fuel : nat) (schedule : EmissionSchedule) (height : Z) : option (result E MicroTari) :=
  fmap (M := result E) supply <$> advance fuel schedule height (rate_new schedule).

(** ** The schedule as a recurrence *)

(** [r_{n+1} = max(r_n - sum(r_n >> k_i), t)], on unbounded integers. *)
Fixpoint reward_at (S0 : EmissionSchedule) (n : nat) : Z :=
  match n with
  | O => initial S0
  | S n => let r := reward_at S0 n in Z.max (r - sum_Z (map (Z.shiftr r) (decay S0))) (tail S0)
  end.

Fixpoint supply_at (S0 : EmissionSchedule) (n : nat) : Z :=
  match n with
  | O => initial S0
  | S n => supply_at S0 n + reward_at S0 (S n)
  end.

(** The decay factor is at most one: the parameters are powers of two that sum up to at most
    one, in units of [2^-63]. *)
Definition schedule_wf (S0 : EmissionSchedule) : Prop :=
  is_u64 (initial S0) /\ is_u64 (tail S0) /\ Forall (fun k => 0 <= k <= 63) (decay S0) /\
  sum_Z (map (fun k => 2 ^ (63 - k)) (decay S0)) <= 2 ^ 63.

(** ** Rewards and supply *)

Lemma shiftr_sum r ks :
  0 <= r -> Forall (fun k => 0 <= k <= 63) ks ->
  sum_Z (map (Z.shiftr r) ks) * 2 ^ 63 <= r * sum_Z (map (fun k => 2 ^ (63 - k)) ks) /\ Forall (Z.le 0) (map (Z.shiftr r) ks).
Proof.
  intros Hr. induction 1 as [|k ks Hk _ [IH1 IH2]]; [split; [cbn; lia|done]|].
  change (sum_Z (map ?f (k :: ks))) with (f k + sum_Z (map f ks)). cbn [map].
  rewrite Z.shiftr_div_pow2 by lia. pose proof (Z.pow_pos_nonneg 2 k ltac:(lia) ltac:(lia)).
  pose proof (Z.mul_div_le r (2 ^ k) ltac:(lia)). assert (2 ^ 63 = 2 ^ k * 2 ^ (63 - k)) as He by (rewrite <- Z.pow_add_r by lia; f_equal; lia).
  pose proof (Z.pow_pos_nonneg 2 (63 - k) ltac:(lia) ltac:(lia)). split; [|constructor; [apply Z.div_pos; lia|done]].
  rewrite !Z.mul_add_distr_r, Z.mul_add_distr_l. apply Z.add_le_mono; [|done]. rewrite He. nia.
Qed.

Lemma decay_fits S0 r : schedule_wf S0 -> 0 <= r -> 0 <= sum_Z (map (Z.shiftr r) (decay S0)) <= r.
Proof.
  intros (_ & _ & Hd & Hsum) Hr. destruct (shiftr_sum r (decay S0) Hr Hd) as [Hle Hnn].
  pose proof (sum_Z_nonneg _ Hnn). split; [done|]. nia.
Qed.

Lemma foldM_sub {E} r ks s :
  Forall (Z.le 0) (map (Z.shiftr r) ks) -> 0 <= s - sum_Z (map (Z.shiftr r) ks) -> s <= U64_MAX ->
  foldM (fun sum i => @mt_sub E sum (Z.shiftr r i)) ks s = Ok (s - sum_Z (map (Z.shiftr r) ks)).
Proof.
  revert s. induction ks as [|k ks IH]; intros s Hnn Hle Hmax; cbn [foldM map]; [f_equal; cbn; lia|].
  cbn [map] in Hnn. apply Forall_cons in Hnn as [Hk Hnn]. pose proof (sum_Z_nonneg _ Hnn).
  change (sum_Z (map (Z.shiftr r) (k :: ks))) with (Z.shiftr r k + sum_Z (map (Z.shiftr r) ks)) in Hle.
  change (sum_Z (Z.shiftr r k :: map (Z.shiftr r) ks)) with (Z.shiftr r k + sum_Z (map (Z.shiftr r) ks)).
  rewrite mt_sub_ok by lia. cbn [mbind result_bind]. rewrite IH by (done || lia). f_equal. lia.
Qed.

Lemma next_reward_ok {E} S0 st : schedule_wf S0 -> is_u64 (reward st) ->
  @next_reward E S0 st = Ok (Z.max (reward st - sum_Z (map (Z.shiftr (reward st)) (decay S0))) (tail S0)).
Proof.
  intros Hwf Hr. unfold next_reward. unfold is_u64 in Hr. pose proof (decay_fits S0 _ Hwf (proj1 Hr)).
  rewrite foldM_sub; [done| |lia|lia]. apply shiftr_sum; [lia|apply Hwf].
Qed.

Lemma next_reward_u64 S0 r : schedule_wf S0 -> is_u64 r ->
  is_u64 (Z.max (r - sum_Z (map (Z.shiftr r) (decay S0))) (tail S0)).
Proof. intros Hwf Hr. unfold is_u64 in *. pose proof (decay_fits S0 r Hwf (proj1 Hr)). destruct Hwf as (_ & Ht & _). unfold is_u64 in Ht. lia. Qed.

Lemma reward_at_u64 S0 n : schedule_wf S0 -> is_u64 (reward_at S0 n).
Proof. intros Hwf. induction n as [|n IH]; cbn [reward_at]; [apply Hwf|by apply next_reward_u64]. Qed.

Lemma supply_at_mono S0 n m : schedule_wf S0 -> (n <= m)%nat -> supply_at S0 n <= supply_at S0 m.
Proof.
  intros Hwf. induction 1 as [|m _ IH]; [done|]. cbn [supply_at]. pose proof (reward_at_u64 S0 (S m) Hwf). unfold is_u64 in *. lia.
Qed.

(** The state of the iterator after [n] blocks. *)
Definition rate_at (S0 : EmissionSchedule) (n : nat) : EmissionRate :=
  {| block_num := Z.of_nat n; supply := supply_at S0 n; reward := reward_at S0 n |}.

Lemma rate_next_at {E} S0 n :
  schedule_wf S0 -> supply_at S0 (S n) <= U64_MAX -> Z.of_nat (S n) <= U64_MAX ->
  @rate_next E S0 (rate_at S0 n) = Ok (Some (Z.of_nat (S n), reward_at S0 (S n), supply_at S0 (S n)), rate_at S0 (S n)).
Proof.
  intros Hwf Hs Hn. unfold rate_next. rewrite next_reward_ok by (try done; by apply reward_at_u64). cbn [mbind result_bind rate_at reward supply block_num].
  change (Z.max _ _) with (reward_at S0 (S n)). unfold mt_checked_add.
  pose proof (reward_at_u64 S0 (S n) Hwf) as Hr. pose proof (supply_at_mono S0 0 n Hwf ltac:(lia)) as H0.
  destruct Hwf as (Hi & _). unfold is_u64 in Hr, Hi. change (supply_at S0 0) with (initial S0) in H0.
  change (supply_at S0 (S n)) with (supply_at S0 n + reward_at S0 (S n)) in *.
  rewrite checked_ok by lia. rewrite arith_ok by lia. cbn [mbind result_bind]. unfold rate_at.
  replace (Z.of_nat n + 1) with (Z.of_nat (S n)) by lia. done.
Qed.

Lemma advance_at {E} S0 n h fuel :
  schedule_wf S0 -> (n <= h)%nat -> (h - n <= fuel)%nat -> supply_at S0 h <= U64_MAX -> Z.of_nat h <= U64_MAX ->
  @advance E fuel S0 (Z.of_nat h) (rate_at S0 n) = Some (Ok (rate_at S0 h)).
Proof.
  intros Hwf. revert n. induction fuel as [|fuel IH]; intros n Hn Hf Hs Hh.
  - assert (n = h) as -> by lia. cbn [advance rate_at block_num]. by rewrite Z.ltb_irrefl.
  - cbn [advance]. destruct (Z.ltb_spec (block_num (rate_at S0 n)) (Z.of_nat h)) as [Hlt|Hge]; cbn [rate_at block_num] in *.
    + rewrite rate_next_at; [apply IH; lia|done| |lia]. pose proof (supply_at_mono S0 (S n) h Hwf ltac:(lia)). lia.
    + by assert (n = h) as -> by lia.
Qed.

(** C37: as long as the emitted supply fits in 64 bits, the reward and the supply computed for a
    height are those of the recurrence, and as many iterations as the height suffice. *)
Theorem emission_correct {E} (S0 : EmissionSchedule) (h fuel : nat) :
  schedule_wf S0 -> supply_at S0 h <= U64_MAX -> Z.of_nat h <= U64_MAX -> (h <= fuel)%nat ->
  @block_reward E fuel S0 (Z.of_nat h) = Some (Ok (reward_at S0 h)) /\
  @supply_at_block E fuel S0 (Z.of_nat h) = Some (Ok (supply_at S0 h)).
Proof.
  intros Hwf Hs Hh Hf. unfold block_reward, supply_at_block. change (rate_new S0) with (rate_at S0 0).
  rewrite (@advance_at E S0 0 h) by (done || lia). done.
Qed.

(** Once no more can be emitted the iterator no longer moves. *)
Lemma rate_next_bounds {E} S0 st : schedule_wf S0 -> is_u64 (reward st) -> is_u64 (supply st) ->
  is_u64 (block_num st) -> initial S0 + tail S0 * block_num st <= supply st ->
  (forall o st', @rate_next E S0 st = Ok (o, st') ->
     is_u64 (reward st') /\ is_u64 (supply st') /\ is_u64 (block_num st') /\ initial S0 + tail S0 * block_num st' <= supply st').
Proof.
  intros Hwf Hr Hs Hb Hinv o st'. unfold rate_next. rewrite next_reward_ok by done. cbn [mbind result_bind].
  pose proof (next_reward_u64 S0 _ Hwf Hr) as Hr'. set (r := Z.max _ _) in *. assert (tail S0 <= r) by (unfold r; lia).
  unfold mt_checked_add. destruct (checked 0 U64_MAX (supply st + r)) as [s|] eqn:Hc.
  - apply checked_Some in Hc as [-> Hc]. intros (c & [-> Hn]%arith_Ok_iff & [= _ <-])%bind_Ok_iff. cbn. split_and!; try done. lia.
  - intros [= _ <-]. cbn. done.
Qed.

(** For a height at which the tail emission alone exceeds 64 bits, the loops of
    [block_reward] and [supply_at_block] never return a value: the iterator "is done" and no
    longer advances, and the loops wait for it to. *)
Theorem emission_never_returns {E} (S0 : EmissionSchedule) (h : Z) (fuel : nat) :
  schedule_wf S0 -> U64_MAX < initial S0 + tail S0 * h -> forall v,
  @block_reward E fuel S0 h <> Some (Ok v) /\ @supply_at_block E fuel S0 h <> Some (Ok v).
Proof.
  intros Hwf Hh v.
  assert (forall st st', is_u64 (reward st) -> is_u64 (supply st) -> is_u64 (block_num st) ->
    initial S0 + tail S0 * block_num st <= supply st -> @advance E fuel S0 h st <> Some (Ok st')) as Hadv.
  { clear v. induction fuel as [|fuel IH]; intros st st' Hr Hs Hb Hinv; cbn [advance].
    all: destruct (Z.ltb_spec (block_num st) h) as [Hlt|Hge]; [|exfalso; destruct Hwf as (_ & Ht & _); unfold is_u64 in *; nia].
    - done.
    - destruct (rate_next S0 st) as [[o st1]|e|] eqn:Hn; [|done|done].
      apply rate_next_bounds in Hn as (? & ? & ? & ?); try done. by apply IH. }
  assert (forall st', @advance E fuel S0 h (rate_new S0) <> Some (Ok st')) as Hno.
  { intros st'. destruct Hwf as (Hi & _). apply Hadv; cbn; try done; lia. }
  unfold block_reward, supply_at_block. destruct (advance fuel S0 h (rate_new S0)) as [[st|e|]|]; cbn; try done.
  by destruct (Hno st).
Qed.

(** ** Decay parameters *)

(** The integer a list of decimal digits stands for. *)
Fixpoint digits_value (ds : list Z) : Z :=
  match ds with
  | [] => 0
  | d :: ds => d * 10 ^ Z.of_nat (length ds) + digits_value ds
  end.

Definition digits_ok (ds : list Z) : Prop := Forall (fun d => 0 <= d <= 9) ds.

(** The sum of the powers of two, in units of [2^-63]. *)
Definition decay_value (ks : list Z) : Z := sum_Z (map (fun k => 2 ^ (63 - k)) ks).

Lemma digits_value_bounds ds : digits_ok ds -> 0 <= digits_value ds < 10 ^ Z.of_nat (length ds).
Proof.
  induction 1 as [|d ds Hd _ IH]; [cbn; lia|]. cbn [digits_value length].
  rewrite Nat2Z.inj_succ, Z.pow_succ_r by lia. nia.
Qed.

Lemma times_two_spec ds ds' c : digits_ok ds -> times_two ds = (ds', c) ->
  digits_ok ds' /\ length ds' = length ds /\
  digits_value ds' + (if c then 10 ^ Z.of_nat (length ds) else 0) = 2 * digits_value ds.
Proof.
  intros Hds. revert ds' c. induction Hds as [|d ds Hd Hds IH]; intros ds' c; cbn [times_two].
  { intros [= <- <-]. split; [constructor|done]. }
  destruct (times_two ds) as [ds1 c1]. destruct (IH ds1 c1 eq_refl) as (Hok & Hl & Hv). intros [= <- <-].
  cbn [digits_value length]. rewrite Hl, Nat2Z.inj_succ, Z.pow_succ_r by lia.
  assert (2 * d = (2 * d) mod 10 + (if 5 <=? d then 10 else 0) /\ 0 <= (2 * d) mod 10 <= 8) as [Hmod Hb].
  { assert (d = 0 \/ d = 1 \/ d = 2 \/ d = 3 \/ d = 4 \/ d = 5 \/ d = 6 \/ d = 7 \/ d = 8 \/ d = 9) as Hc by lia.
    repeat (destruct Hc as [->|Hc]; [by vm_compute|]). by subst. }
  split_and!; [|done|destruct (5 <=? d), c1; nia]. constructor; [destruct c1; lia|done].
Qed.

Lemma is_zero_value ds : is_zero ds = true -> digits_value ds = 0.
Proof.
  unfold is_zero. induction ds as [|d ds IH]; [done|]. cbn. rewrite andb_true_iff, Z.eqb_eq. intros [-> H].
  rewrite (IH H). lia.
Qed.

Lemma decay_value_snoc ks k : decay_value (ks ++ [k]) = decay_value ks + 2 ^ (63 - k).
Proof. unfold decay_value. rewrite map_app, sum_Z_app. cbn. lia. Qed.

(** The loop keeps the difference between one and the value of the fraction. *)
Lemma decay_loop_spec fuel n V next i res res' i' exact :
  Z.of_nat fuel = 64 - i -> 1 <= i <= 63 -> digits_ok next -> length next = n ->
  Forall (fun k => 0 <= k <= 63) res ->
  10 ^ Z.of_nat n * decay_value res = 2 ^ 63 * (10 ^ Z.of_nat n - V) - 2 ^ (64 - i) * (10 ^ Z.of_nat n - digits_value next) ->
  decay_loop fuel next i res = (res', i', exact) ->
  Forall (fun k => 0 <= k <= 63) res' /\ 1 <= i' <= 63 /\
  if exact then 10 ^ Z.of_nat n * (decay_value res' + 2 ^ (64 - i')) = 2 ^ 63 * (10 ^ Z.of_nat n - V)
  else 0 <= 2 ^ 63 * (10 ^ Z.of_nat n - V) - 10 ^ Z.of_nat n * decay_value res' <= 10 ^ Z.of_nat n.
Proof.
  revert next i res. induction fuel as [|fuel IH]; intros next i res Hf Hi Hok Hl Hres Hinv; [lia|].
  cbn [decay_loop]. destruct (is_zero next) eqn:Hz.
  { intros [= <- <- <-]. apply is_zero_value in Hz. split_and!; [done|lia|lia|]. lia. }
  destruct (times_two next) as [next' c] eqn:Ht. destruct (times_two_spec _ _ _ Hok Ht) as (Hok' & Hl' & Hv).
  assert (2 ^ (64 - i) = 2 * 2 ^ (63 - i)) as Hp by (rewrite <- Z.pow_succ_r by lia; f_equal; lia).
  set (res1 := if c then res else res ++ [i]).
  assert (Forall (fun k => 0 <= k <= 63) res1) as Hres1.
  { unfold res1. destruct c; [done|]. apply Forall_app. split; [done|]. by constructor; [lia|]. }
  assert (10 ^ Z.of_nat n * decay_value res1 = 2 ^ 63 * (10 ^ Z.of_nat n - V) - 2 ^ (63 - i) * (10 ^ Z.of_nat n - digits_value next')) as Hinv1.
  { unfold res1. rewrite Hl in Hv. destruct c; [|rewrite decay_value_snoc]; nia. }
  destruct (Z.leb_spec 63 i) as [H63|H63].
  - intros [= <- <- <-]. assert (i = 63) as -> by lia. split_and!; [done|lia|lia|..].
    all: pose proof (digits_value_bounds _ Hok') as Hb; rewrite Hl', Hl in Hb; change (2 ^ (63 - 63)) with 1 in Hinv1; lia.
  - apply IH; [lia|lia|done|lia|done|]. by replace (64 - (i + 1)) with (63 - i) by lia.
Qed.

(** For a decimal fraction [0.d1d2..dn] the decay parameters are shifts below 64 whose powers
    of two sum up to one minus the fraction, from below and with an error of at most [2^-63]; a
    schedule with these parameters never decays below zero. *)
Theorem decay_params_correct (digits : list Z) :
  Forall (fun c => is_ascii_digit c = true) digits ->
  let V := digits_value (map (fun c => c - 48) digits) in let D := 10 ^ Z.of_nat (length digits) in
  exists ks, decay_params (48 :: 46 :: digits) = Some ks /\ Forall (fun k => 0 <= k <= 63) ks /\
    0 <= 2 ^ 63 * (D - V) - D * decay_value ks <= D /\ decay_value ks <= 2 ^ 63.
Proof.
  intros Hd V D. unfold decay_params, frac_vec. assert (forallb is_ascii_digit digits = true) as ->.
  { apply forallb_forall. intros c Hc%list_elem_of_In. rewrite Forall_forall in Hd. by apply Hd. }
  cbn [mbind option_bind]. destruct (decay_loop 63 (map (fun i => i - 48) digits) 1 []) as [[res i] exact] eqn:Hloop.
  assert (digits_ok (map (fun c => c - 48) digits)) as Hok.
  { apply Forall_map. eapply Forall_impl; [exact Hd|]. unfold is_ascii_digit. intros c Hc. cbn.
    rewrite andb_true_iff, !Z.leb_le in Hc. lia. }
  apply (decay_loop_spec 63 (length digits) V) in Hloop as (Hres & Hi & Hv); try done; [|apply length_map|].
  2: { fold V. cbn [decay_value map sum_Z foldr]. change (2 ^ (64 - 1)) with (2 ^ 63). lia. }
  pose proof (digits_value_bounds _ Hok) as HV. rewrite length_map in HV. fold V in HV. fold D in Hv, HV.
  assert (0 < D) by (unfold D; lia). eexists. split; [done|]. destruct exact.
  - rewrite decay_value_snoc. replace (63 - (i - 1)) with (64 - i) by lia. split; [|split; [lia|nia]].
    apply Forall_app. split; [done|]. by constructor; [lia|].
  - split; [done|]. split; [done|nia].
Qed.

(** ** How much is emitted *)

Lemma shiftr_sum_lower r ks : 0 <= r -> Forall (fun k => 0 <= k <= 63) ks ->
  r * decay_value ks <= 2 ^ 63 * (sum_Z (map (Z.shiftr r) ks) + Z.of_nat (length ks)).
Proof.
  intros Hr. unfold decay_value. induction 1 as [|k ks Hk _ IH]; [cbn; lia|].
  change (sum_Z (map ?f (k :: ks))) with (f k + sum_Z (map f ks)). cbn [length]. rewrite Z.shiftr_div_pow2 by lia.
  pose proof (Z.pow_pos_nonneg 2 k ltac:(lia) ltac:(lia)) as Hp. pose proof (Z.mod_pos_bound r (2 ^ k) Hp). pose proof (Z_div_mod_eq_full r (2 ^ k)).
  assert (2 ^ 63 = 2 ^ k * 2 ^ (63 - k)) as He by (rewrite <- Z.pow_add_r by lia; f_equal; lia). pose proof (Z.pow_pos_nonneg 2 (63 - k) ltac:(lia) ltac:(lia)).
  assert (r * 2 ^ (63 - k) <= 2 ^ 63 * (r / 2 ^ k + 1)) by (rewrite He; nia). lia.
Qed.

Section Emitted.
Context (S0 : EmissionSchedule) (Hwf : schedule_wf S0) (Htail : tail S0 <= initial S0).

Lemma reward_at_next n : reward_at S0 (S n) = Z.max (reward_at S0 n - sum_Z (map (Z.shiftr (reward_at S0 n)) (decay S0))) (tail S0).
Proof. done. Qed.

Lemma reward_at_tail n : tail S0 <= reward_at S0 n.
Proof. destruct n; [exact Htail|rewrite reward_at_next; lia]. Qed.

Lemma reward_at_decreases n : reward_at S0 (S n) <= reward_at S0 n.
Proof. rewrite reward_at_next. pose proof (reward_at_tail n). pose proof (decay_fits S0 (reward_at S0 n) Hwf (proj1 (reward_at_u64 S0 n Hwf))). lia. Qed.

Lemma reward_at_initial n : reward_at S0 n <= initial S0.
Proof. induction n as [|n IH]; [done|]. pose proof (reward_at_decreases n). lia. Qed.

(** With [k] the least shift, a reward below [2^k] does not decay; when the shifts take less than [2^(1-k)] of the reward, it stops at [2^k - 1]. *)
Lemma reward_at_stops k n : 0 <= k <= 63 -> decay_value (decay S0) * 2 ^ k < 2 * 2 ^ 63 -> Forall (fun i => k <= i) (decay S0) -> 2 ^ k - 1 <= initial S0 -> 2 ^ k - 1 <= reward_at S0 n.
Proof.
  intros Hk Hv Hks Hi. induction n as [|n IH]; [done|]. rewrite reward_at_next. set (r := reward_at S0 n) in *. pose proof (reward_at_u64 S0 n Hwf) as Hr. unfold is_u64 in Hr. fold r in Hr.
  destruct (shiftr_sum r (decay S0) ltac:(lia) ltac:(apply Hwf)) as [Hle Hnn]. fold (decay_value (decay S0)) in Hle. set (sum := sum_Z (map (Z.shiftr r) (decay S0))) in *.
  pose proof (Z.pow_pos_nonneg 2 k ltac:(lia) ltac:(lia)) as Hp. assert (sum <= r - (2 ^ k - 1)); [|lia]. destruct (Z.lt_ge_cases r (2 ^ k)) as [Hlt|Hge].
  - assert (sum = 0) as ->; [|lia]. unfold sum. clear - Hks Hlt Hr Hk. induction Hks as [|i ks Hi _ IH]; [done|]. change (sum_Z (map ?f (i :: ks))) with (f i + sum_Z (map f ks)).
    rewrite IH, Z.shiftr_div_pow2, Z.div_small by (pose proof (Z.pow_le_mono_r 2 k i); lia). done.
  - assert (0 <= decay_value (decay S0)) by (apply sum_Z_nonneg, Forall_map, Forall_true; intros; apply Z.pow_nonneg; lia). assert (decay_value (decay S0) <= 2 ^ 63) by apply Hwf.
    set (V := decay_value (decay S0)) in *. set (P := 2 ^ k) in *. set (Q := 2 ^ 63) in *. assert (sum * Q <= P * V + (r - P) * V) by lia. assert ((r - P) * V <= (r - P) * Q) by nia. assert (sum < r - P + 2) by nia. lia.
Qed.

(** The supply grows by at most [c] a block once the initial emission, the initial reward divided by the decay, is paid. *)
Lemma supply_at_bound K c n : 0 <= K -> 2 ^ 63 <= (1 + K) * decay_value (decay S0) -> tail S0 <= c -> Z.of_nat (length (decay S0)) * (1 + K) <= c ->
  supply_at S0 n + K * reward_at S0 n <= (1 + K) * initial S0 + c * Z.of_nat n.
Proof.
  intros HK HV Hc1 Hc2. induction n as [|n IH]; [cbn; lia|]. change (supply_at S0 (S n)) with (supply_at S0 n + reward_at S0 (S n)). pose proof (reward_at_tail n) as Ht.
  rewrite reward_at_next. set (r := reward_at S0 n) in *. pose proof (reward_at_u64 S0 n Hwf) as Hr. unfold is_u64 in Hr. fold r in Hr.
  pose proof (shiftr_sum_lower r (decay S0) ltac:(lia) ltac:(apply Hwf)) as Hl. destruct (decay_fits S0 r Hwf ltac:(lia)) as [Hs0 _].
  set (sum := sum_Z (map (Z.shiftr r) (decay S0))) in *. set (V := decay_value (decay S0)) in *. assert (r <= (1 + K) * (sum + Z.of_nat (length (decay S0)))) by nia.
  replace (Z.of_nat (S n)) with (Z.of_nat n + 1) by lia. destruct (Z.max_spec (r - sum) (tail S0)) as [[_ ->]|[_ ->]]; nia.
Qed.

End Emitted.

(** ** Examples *)

Definition example_schedule : EmissionSchedule := {| initial := 10000100; decay := [22; 23; 24; 26; 27]; tail := 100 |}.

Lemma example_schedule_wf : schedule_wf example_schedule.
Proof. repeat split; try by vm_compute. repeat constructor; lia. Qed.

Lemma emission_correct_witness :
  @block_reward unit 100 example_schedule 100 = Some (Ok 9999800) /\
  @supply_at_block unit 100 example_schedule 100 = Some (Ok 1009994950).
Proof.
  pose proof (@emission_correct unit example_schedule 100 100 example_schedule_wf ltac:(by vm_compute) ltac:(by vm_compute) ltac:(lia)) as Hc.
  vm_compute in Hc. exact Hc.
Defined.

Lemma emission_never_returns_witness : @block_reward unit 5 example_schedule U64_MAX <> Some (Ok 0).
Proof. apply (@emission_never_returns unit example_schedule U64_MAX 5 example_schedule_wf ltac:(by vm_compute) 0). Defined.

Lemma decay_params_correct_witness :
  exists ks, decay_params [48; 46; 55; 53] = Some ks /\ decay_value ks <= 2 ^ 63.
Proof.
  destruct (decay_params_correct [55; 53]) as (ks & Hks & _ & _ & Hle); [by repeat constructor|]. by exists ks.
Defined.
