(* ===== verification/Difficulty.v ===== *)
(** * Proof-of-work difficulty

    src/base_layer/core/src/proof_of_work: the difficulty of a hash (difficulty.rs), the linear
    weighted moving average that sets the next target (lwma_diff.rs), its window
    (target_difficulty_window.rs) and [AchievedTargetDifficulty] (target_difficulty.rs).

    [EpochTime] (tari_utilities) and [U256] (the uint crate) are not part of the repository: the
    operations used are the fields of the classes below, with the documented behaviour as laws. *)

From S2P Require Import Prelude.

Local Open Scope Z_scope.

(** ** Difficulty of a hash *)

Definition MIN_DIFFICULTY : Z := 1.

(** [Difficulty(u64)] *)
Definition Difficulty : Type := Z.

Definition difficulty_checked_sub (v w : Difficulty) : option Difficulty := checked 0 U64_MAX (v - w).

Definition U256_MAX : Z := 2 ^ 256 - 1.

(** Conversions of [U256]; the integers themselves are integers below [2^256]. *)
Class U256Ops := {
  from_big_endian : list Z -> Z;
  from_little_endian : list Z -> Z;
}.

(** A slice of at most 32 bytes is read as an unsigned integer. *)
Class U256Laws (U : U256Ops) : Prop := {
  from_little_endian_value b : (length b <= 32)%nat -> Forall is_u8 b -> from_little_endian b = le_value b;
  from_big_endian_value b : (length b <= 32)%nat -> Forall is_u8 b -> from_big_endian b = le_value (rev b);
}.

(** [U256::MAX / scalar] panics for a zero scalar. *)
Definition scalar_difficulty {E} (scalar : Z) : result E Difficulty :=
  if scalar =? 0 then Panic
  else
    let r := U256_MAX / scalar in
    let r := Z.min r U64_MAX in
    Ok (r mod 2 ^ 64).

Definition big_endian_difficulty `{U256Ops} {E} (hash : list Z) : result E Difficulty := scalar_difficulty (from_big_endian hash).

Definition little_endian_difficulty `{U256Ops} {E} (hash : list Z) : result E Difficulty := scalar_difficulty (from_little_endian hash).

(** ** Achieved targets *)

Inductive PowAlgorithm := Monero | Sha3.

Record AchievedTargetDifficulty := { pow_algo : PowAlgorithm; achieved : Difficulty; target : Difficulty }.

Definition try_construct (pow_algo : PowAlgorithm) (target achieved : Difficulty) : option AchievedTargetDifficulty :=
  if achieved <? target then None
  else Some {| pow_algo := pow_algo; achieved := achieved; target := target |}.

(** ** The moving average *)

(** Times are numbers of seconds. *)
Class EpochOps := {
  increase : Z -> Z -> Z;
  since : Z -> Z -> Z;
}.

Class EpochLaws (T : EpochOps) : Prop := {
  increase_value t s : 0 <= t -> 0 <= s -> t + s <= U64_MAX -> increase t s = t + s;
  since_value t u : 0 <= u <= t -> since t u = t - u;
}.

Record LinearWeightedMovingAverage := {
  target_difficulties : list (Z * Difficulty);
  block_window : Z;
  target_time : Z;
  max_block_time : Z;
}.

Definition lwma_new {E} (block_window target_time max_block_time : Z) : result E LinearWeightedMovingAverage :=
  _ ← arith 0 USIZE_MAX (block_window + 1);
  Ok {| target_difficulties := []; block_window := block_window; target_time := target_time; max_block_time := max_block_time |}.

Definition set_difficulties (ds : list (Z * Difficulty)) (self : LinearWeightedMovingAverage) : LinearWeightedMovingAverage :=
  {| target_difficulties := ds; block_window := block_window self; target_time := target_time self;
     max_block_time := max_block_time self |}.

Definition num_samples (self : LinearWeightedMovingAverage) : Z := Z.of_nat (length (target_difficulties self)).

Definition lwma_is_full (self : LinearWeightedMovingAverage) : bool := num_samples self =? block_window self + 1.

Definition lwma_add_front (timestamp : Z) (target_difficulty : Difficulty) (self : LinearWeightedMovingAverage) :=
  let ds := target_difficulties self in
  let ds := if lwma_is_full self then removelast ds else ds in
  set_difficulties ((timestamp, target_difficulty) :: ds) self.

Definition lwma_add_back (timestamp : Z) (target_difficulty : Difficulty) (self : LinearWeightedMovingAverage) :=
  let ds := target_difficulties self in
  let ds := if lwma_is_full self then drop 1 ds else ds in
  set_difficulties (ds ++ [(timestamp, target_difficulty)]) self.

Section Calculate.
Context `{EpochOps} {E : Type}.

(** One iteration of the loop over the solve times: [(weighted_times, previous_timestamp)]. *)
Definition solve_step (self : LinearWeightedMovingAverage) (st : Z * Z) (it : nat * (Z * Difficulty)) : result E (Z * Z) :=
  let '(weighted_times, previous_timestamp) := st in
  let '(i, (timestamp, _)) := it in
  let this_timestamp := if previous_timestamp <? timestamp then timestamp else increase previous_timestamp 1 in
  let solve_time := Z.min (since this_timestamp previous_timestamp) (max_block_time self) in
  w ← arith 0 U64_MAX (solve_time * (Z.of_nat i + 1));
  weighted_times ← arith 0 U128_MAX (weighted_times + w);
  Ok (weighted_times, this_timestamp).

Definition lwma_calculate (self : LinearWeightedMovingAverage) : result E (option Difficulty) :=
  match target_difficulties self with
  | [] => Ok None
  | [_] => Ok None
  | (first_timestamp, _) :: rest =>
      let n := Z.of_nat (length rest) in
      difficulty ← foldM (fun difficulty d => arith 0 U128_MAX (difficulty + d)) (map snd rest) 0;
      let ave_difficulty := difficulty / n in
      '(weighted_times, _) ← foldM (solve_step self) (imap pair rest) (0, first_timestamp);
      n1 ← arith 0 U128_MAX (n * (n + 1));
      k2 ← arith 0 U128_MAX (n1 * target_time self);
      let k := k2 / 2 in
      a ← arith 0 U128_MAX (ave_difficulty * k);
      if weighted_times =? 0 then Panic else Ok (Some ((a / weighted_times) mod 2 ^ 64))
  end.

(** ** The window *)

(** [TargetDifficultyWindow::new] *)
Definition window_new (block_window target_time max_block_time : Z) : result E LinearWeightedMovingAverage :=
  if 0 <? block_window then lwma_new block_window target_time max_block_time else Panic.

(** [TargetDifficultyWindow::calculate] *)
Definition window_calculate (min max : Difficulty) (self : LinearWeightedMovingAverage) : result E Difficulty :=
  d ← lwma_calculate self;
  Ok (Z.max min (Z.min max (default min d))).

End Calculate.

(** ** The window keeps the most recent samples *)

Lemma add_back_spec ts d self l :
  (0 <= block_window self) -> target_difficulties self = drop (length l - Z.to_nat (block_window self + 1)) l ->
  target_difficulties (lwma_add_back ts d self) = drop (length (l ++ [(ts, d)]) - Z.to_nat (block_window self + 1)) (l ++ [(ts, d)]).
Proof.
  intros Hb Hds. unfold lwma_add_back, lwma_is_full, num_samples. cbn [target_difficulties set_difficulties]. rewrite Hds, length_drop, length_app. cbn [length].
  set (w := Z.to_nat (block_window self + 1)). destruct (Z.eqb_spec (Z.of_nat (length l - (length l - w))) (block_window self + 1)) as [He|He].
  - rewrite drop_drop. replace (length l + 1 - w)%nat with (S (length l - w)) by lia. rewrite Nat.add_1_r, drop_app_le by lia. done.
  - replace (length l + 1 - w)%nat with 0%nat by lia. replace (length l - w)%nat with 0%nat by lia. done.
Qed.

(** A window holds the last [block_window + 1] of the samples appended to it. *)
Theorem window_keeps_latest {E} (bw tt mbt : Z) (w : LinearWeightedMovingAverage) (l : list (Z * Difficulty)) :
  @window_new E bw tt mbt = Ok w ->
  target_difficulties (foldl (fun w s => lwma_add_back s.1 s.2 w) w l) = drop (length l - Z.to_nat (bw + 1)) l.
Proof.
  unfold window_new, lwma_new. destruct (Z.ltb_spec 0 bw) as [Hbw|]; [|done]. intros Hw. inv_bind Hw. subst w.
  match goal with |- context [foldl ?f ?w0 l] => set (f0 := f); set (w0' := w0) end.
  assert (target_difficulties (foldl f0 w0' l) = drop (length l - Z.to_nat (bw + 1)) l /\ block_window (foldl f0 w0' l) = bw) as [H _]; [|exact H].
  induction l as [|[ts d] l [IH1 IH2]] using rev_ind; [done|]. rewrite foldl_app. cbn [foldl]. split.
  - unfold f0 at 1. rewrite (add_back_spec ts d _ l); rewrite IH2; [done|lia|done].
  - done.
Qed.

(** ** The difficulty of a hash *)

(** A non-zero hash has at least difficulty [t] exactly when its value times [t] is at most
    [2^256 - 1]; this is when [try_construct] accepts it for the target [t]. *)
Theorem difficulty_meets_target {U : U256Ops} {L : U256Laws U} {E : Type} (hash : list Z) (t : Difficulty) (algo : PowAlgorithm) :
  (length hash <= 32)%nat -> Forall is_u8 hash -> 1 <= t <= U64_MAX -> 0 < le_value (rev hash) ->
  exists d, @big_endian_difficulty U E hash = Ok d /\
    (is_Some (try_construct algo t d) <-> le_value (rev hash) * t <= U256_MAX).
Proof.
  intros Hl Hb Ht Hpos. unfold big_endian_difficulty, scalar_difficulty. rewrite from_big_endian_value by done.
  destruct (Z.eqb_spec (le_value (rev hash)) 0) as [|_]; [lia|]. eexists. split; [done|].
  assert (0 <= U256_MAX / le_value (rev hash)) by (apply Z.div_pos; unfold U256_MAX; lia).
  rewrite Z.mod_small by (unfold U64_MAX; lia). unfold try_construct.
  assert (t <= U256_MAX / le_value (rev hash) <-> le_value (rev hash) * t <= U256_MAX) as Hiff.
  { split; intros Hle; [pose proof (Z.mul_div_le U256_MAX (le_value (rev hash)) Hpos); nia|by apply Z.div_le_lower_bound]. }
  destruct (Z.ltb_spec (Z.min (U256_MAX / le_value (rev hash)) U64_MAX) t) as [Hlt|Hge].
  - split; [by intros [? ?]|]. intros Hle%Hiff. lia.
  - split; [|by eexists]. intros _. apply Hiff. lia.
Qed.

(** ** Bounds of the moving average *)

(** [1 + 2 + ... + m] *)
Fixpoint tri (m : nat) : Z := match m with O => 0 | S m => tri m + Z.of_nat (S m) end.

Lemma tri_double m : 2 * tri m = Z.of_nat m * (Z.of_nat m + 1).
Proof. induction m as [|m IH]; [done|]. cbn [tri]. lia. Qed.

Section Bounds.
Context {T : EpochOps} {L : EpochLaws T} {E : Type}.

(** Samples for which nothing overflows: timestamps and difficulties of 64 bits, a window, a
    target time and a maximal block time of practical size. *)
Definition lwma_ok (self : LinearWeightedMovingAverage) (t0 d0 : Z) (rest : list (Z * Difficulty)) : Prop :=
  target_difficulties self = (t0, d0) :: rest /\ rest <> [] /\ 0 <= t0 <= 2 ^ 62 /\
  Forall (fun s => 0 <= s.1 <= 2 ^ 62 /\ is_u64 s.2) rest /\
  Z.of_nat (length rest) <= 2 ^ 32 /\ 1 <= max_block_time self /\
  max_block_time self * Z.of_nat (length rest) <= U64_MAX /\
  0 <= target_time self /\ 2 * tri (length rest) * target_time self <= 2 ^ 64.

Lemma weighted_small m i n : 0 <= m -> (i < n)%nat -> Z.of_nat n <= 2 ^ 32 -> m * Z.of_nat n <= U64_MAX -> m * tri i <= 2 ^ 96.
Proof.
  intros Hm Hi Hn Hmn. pose proof (tri_double i) as Ht.
  assert (0 <= tri i <= Z.of_nat n * Z.of_nat n) as Htri by nia.
  transitivity (m * (Z.of_nat n * Z.of_nat n)); [apply Z.mul_le_mono_nonneg_l; lia|].
  rewrite Z.mul_assoc. change (2 ^ 96) with (2 ^ 64 * 2 ^ 32). 
  assert (0 <= m * Z.of_nat n) by (apply Z.mul_nonneg_nonneg; lia). unfold U64_MAX in Hmn. apply Z.mul_le_mono_nonneg; lia.
Qed.

Lemma solve_step_ok self t0 d0 rest i s w prev :
  lwma_ok self t0 d0 rest -> rest !! i = Some s ->
  0 <= w <= max_block_time self * tri i -> 0 <= prev <= 2 ^ 62 + Z.of_nat i ->
  exists st this, @solve_step T E self (w, prev) (i, s) = Ok (w + st * Z.of_nat (S i), this) /\
    1 <= st <= max_block_time self /\ 0 <= this <= 2 ^ 62 + Z.of_nat (S i) /\
    (prev < s.1 -> this = s.1 /\ st = Z.min (s.1 - prev) (max_block_time self)).
Proof.
  intros (_ & _ & _ & Hall & Hn & Hm & Hmn & _) Hi Hw Hp. destruct s as [ts d].
  rewrite Forall_lookup in Hall. destruct (Hall i _ Hi) as [Hts _]. apply lookup_lt_Some in Hi. cbn [fst] in *.
  unfold solve_step. set (this := if prev <? ts then ts else increase prev 1).
  assert (prev < this <= 2 ^ 62 + Z.of_nat (S i) /\ (prev < ts -> this = ts)) as [Hthis Heq].
  { unfold this. destruct (Z.ltb_spec prev ts); [lia|]. rewrite increase_value by (unfold U64_MAX; lia). lia. }
  rewrite since_value by lia. pose proof (tri_double i). replace (Z.of_nat i + 1) with (Z.of_nat (S i)) by lia.
  set (st := Z.min (this - prev) (max_block_time self)) in *.
  assert (1 <= st <= max_block_time self) as Hst by lia.
  assert (0 <= st * Z.of_nat (S i) <= max_block_time self * Z.of_nat (length rest)) as Hsti.
  { split; [apply Z.mul_nonneg_nonneg; lia|]. apply Z.mul_le_mono_nonneg; lia. }
  pose proof (weighted_small (max_block_time self) i (length rest) ltac:(lia) ltac:(lia) Hn Hmn).
  rewrite arith_ok by lia. cbn [mbind result_bind]. rewrite arith_ok by (unfold U128_MAX, U64_MAX in *; lia). cbn.
  exists st, this. split_and!; try done; lia.
Qed.

Lemma solve_loop_ok self t0 d0 rest : lwma_ok self t0 d0 rest ->
  exists w prev, foldM (@solve_step T E self) (imap pair rest) (0, t0) = Ok (w, prev) /\
    tri (length rest) <= w <= max_block_time self * tri (length rest).
Proof.
  intros Hok. destruct (foldM_imap_inv (@solve_step T E self) rest
    (fun i '(w, prev) => tri i <= w <= max_block_time self * tri i /\ 0 <= prev <= 2 ^ 62 + Z.of_nat i) (0, t0)) as ([w prev] & Hf & Hw & _).
  - intros i s [w prev] Hi [Hw Hp]. pose proof (tri_double i).
    destruct (solve_step_ok self t0 d0 rest i s w prev Hok Hi) as (st & this & Hs & Hst & Hthis & _); [lia|done|].
    eexists. split; [exact Hs|]. split; [|done]. cbn [tri]. destruct Hok as (_ & _ & _ & _ & _ & Hm & _). nia.
  - destruct Hok as (_ & _ & Ht0 & _). cbn. lia.
  - by exists w, prev.
Qed.

(** The average difficulty of the samples after the first. *)
Definition ave_difficulty (rest : list (Z * Difficulty)) : Z := sum_Z (map snd rest) / Z.of_nat (length rest).

Lemma ave_bounds self t0 d0 rest : lwma_ok self t0 d0 rest ->
  Forall (Z.le 0) (map snd rest) /\ 0 <= sum_Z (map snd rest) <= U64_MAX * Z.of_nat (length rest) /\ 0 <= ave_difficulty rest <= U64_MAX.
Proof.
  intros (_ & Hne & _ & Hall & _). assert (0 < Z.of_nat (length rest)) by (destruct rest; [done|cbn; lia]).
  assert (Forall (Z.le 0) (map snd rest) /\ sum_Z (map snd rest) <= U64_MAX * Z.of_nat (length rest)) as [Hnn Hsum].
  { clear -Hall. induction Hall as [|[ts d] rest [_ Hs] _ [IH1 IH2]]; [by split|]. unfold is_u64 in Hs. cbn [snd] in Hs.
    change (sum_Z (map snd ((ts, d) :: rest))) with (d + sum_Z (map snd rest)). cbn [length map snd]. 
    split; [constructor; [exact (proj1 Hs)|done]|]. rewrite Nat2Z.inj_succ, Z.mul_succ_r, Z.add_comm.
    apply Z.add_le_mono; [exact IH2|exact (proj2 Hs)]. }
  pose proof (sum_Z_nonneg _ Hnn). split_and!; try done; unfold ave_difficulty; [apply Z.div_pos; lia|]. apply Z.div_le_upper_bound; lia.
Qed.

Lemma calculate_eq self t0 d0 rest w prev : lwma_ok self t0 d0 rest ->
  foldM (@solve_step T E self) (imap pair rest) (0, t0) = Ok (w, prev) -> 0 < w ->
  @lwma_calculate T E self = Ok (Some ((ave_difficulty rest * (tri (length rest) * target_time self) / w) mod 2 ^ 64)).
Proof.
  intros Hok Hf Hw. destruct (ave_bounds _ _ _ _ Hok) as (Hnn & Hsum & Have).
  destruct Hok as (Hds & Hne & _ & _ & Hn & _ & _ & Htt & Hk). unfold lwma_calculate. rewrite Hds.
  pose proof (tri_double (length rest)) as Ht.
  rewrite (proj1 (@foldM_sum E U128_MAX _ 0 Hnn ltac:(lia))) by (unfold U128_MAX, U64_MAX in *; nia). rewrite Z.add_0_l.
  destruct rest as [|s rest]; [done|]. cbn [mbind result_bind]. rewrite Hf. cbn [mbind result_bind].
  rewrite arith_ok by (unfold U128_MAX; nia). cbn [mbind result_bind].
  rewrite <- Ht, arith_ok by (unfold U128_MAX; nia). cbn [mbind result_bind].
  replace (2 * tri (length (s :: rest)) * target_time self / 2) with (tri (length (s :: rest)) * target_time self).
  2: { symmetry. rewrite <- Z.mul_assoc, (Z.mul_comm 2). apply Z.div_mul. lia. }
  change (sum_Z (map snd (s :: rest)) / Z.of_nat (length (s :: rest))) with (ave_difficulty (s :: rest)).
  assert (0 <= ave_difficulty (s :: rest) * (tri (length (s :: rest)) * target_time self) <= 2 ^ 64 * 2 ^ 63) as Hmul.
  { unfold U64_MAX in Have. assert (0 <= tri (length (s :: rest)) * target_time self) by (apply Z.mul_nonneg_nonneg; lia).
    split; [apply Z.mul_nonneg_nonneg; lia|]. apply Z.mul_le_mono_nonneg; lia. }
  rewrite arith_ok by (unfold U128_MAX; lia). cbn [mbind result_bind].
  destruct (Z.eqb_spec w 0); [lia|done].
Qed.

(** C38: provided that the average difficulty times the target time fits in 64 bits, the next target lies between this product divided by
    the maximal block time and the product itself, whatever the timestamps are. Otherwise it can be truncated ([lwma_truncates]). *)
Theorem lwma_bounds (self : LinearWeightedMovingAverage) (t0 d0 : Z) (rest : list (Z * Difficulty)) :
  lwma_ok self t0 d0 rest -> ave_difficulty rest * target_time self <= U64_MAX ->
  exists d, @lwma_calculate T E self = Ok (Some d) /\
    ave_difficulty rest * target_time self / max_block_time self <= d <= ave_difficulty rest * target_time self.
Proof.
  intros Hok Hmax. destruct (solve_loop_ok _ _ _ _ Hok) as (w & prev & Hf & Hw).
  destruct (ave_bounds _ _ _ _ Hok) as (_ & _ & Have). pose proof (tri_double (length rest)) as Ht.
  assert (0 < tri (length rest)) as Hpos.
  { destruct Hok as (_ & Hne & _). destruct rest; [done|]. cbn [length] in *. lia. }
  rewrite (calculate_eq _ _ _ _ w prev Hok Hf) by lia. destruct Hok as (_ & _ & _ & _ & _ & Hm & _ & Htt & _).
  set (A := ave_difficulty rest) in *. set (B := tri (length rest)) in *. set (V := A * (B * target_time self) / w).
  assert (A * target_time self / max_block_time self <= V <= A * target_time self) as HV.
  { assert (0 <= A * target_time self) by nia. unfold V. split.
    - apply Z.div_le_lower_bound; [lia|]. pose proof (Z.mul_div_le (A * target_time self) (max_block_time self) ltac:(lia)).
      assert (0 <= A * target_time self / max_block_time self) by (apply Z.div_pos; lia). nia.
    - apply Z.div_le_upper_bound; [lia|]. nia. }
  exists V. rewrite Z.mod_small; [done|]. split; [|unfold U64_MAX in Hmax; lia]. unfold V. apply Z.div_pos; [nia|lia].
Qed.

(** At a steady rate, with every block solved in exactly the target time and with the same
    difficulty [d], the next target is [d] again. *)
Theorem lwma_steady (self : LinearWeightedMovingAverage) (t0 d0 d : Z) (rest : list (Z * Difficulty)) :
  lwma_ok self t0 d0 rest -> 1 <= target_time self <= max_block_time self ->
  (forall i s, rest !! i = Some s -> s = (t0 + Z.of_nat (S i) * target_time self, d)) ->
  @lwma_calculate T E self = Ok (Some d).
Proof.
  intros Hok Htt Hs. assert (0 < tri (length rest)) as Hpos.
  { destruct Hok as (_ & Hne & _). pose proof (tri_double (length rest)). destruct rest; [done|]. cbn [length] in *. lia. }
  destruct (foldM_imap_inv (@solve_step T E self) rest
    (fun i st => st = (target_time self * tri i, t0 + Z.of_nat i * target_time self) /\
       t0 + Z.of_nat i * target_time self <= 2 ^ 62 + Z.of_nat i) (0, t0)) as (st & Hf & -> & _).
  - intros i s st Hi [-> Hp]. pose proof (tri_double i). pose proof Hok as (_ & _ & Ht0 & _ & _).
    destruct (solve_step_ok self t0 d0 rest i s (target_time self * tri i) (t0 + Z.of_nat i * target_time self) Hok Hi) as (st & this & Hst & _ & Hthis & Heq);
      [split; [nia|]; apply Z.mul_le_mono_nonneg_r; lia|nia|].
    pose proof (Hs i s Hi) as ->. cbn [fst] in Heq. destruct Heq as [-> ->]; [nia|].
    eexists. split; [exact Hst|]. split; [|lia]. f_equal. cbn [tri].
    replace (t0 + Z.of_nat (S i) * target_time self - (t0 + Z.of_nat i * target_time self)) with (target_time self) by lia.
    rewrite Z.min_l by lia. lia.
  - destruct Hok as (_ & _ & Ht0 & _). split; [|lia]. cbn. f_equal; lia.
  - rewrite (calculate_eq _ _ _ _ _ _ Hok Hf) by nia. do 2 f_equal.
    assert (ave_difficulty rest = d /\ is_u64 d) as [-> Hd].
    { destruct Hok as (_ & Hne & _ & Hall & _). assert (0 < Z.of_nat (length rest)) by (destruct rest; [done|cbn; lia]).
      assert (sum_Z (map snd rest) = d * Z.of_nat (length rest)) as Hsum.
      { clear -Hs. induction rest as [|s rest IH] using rev_ind; [cbn; lia|]. rewrite map_app, sum_Z_app, IH, length_app.
        - rewrite (Hs (length rest) s) by (by apply list_lookup_middle). cbn. lia.
        - intros i s' Hi. apply Hs. by apply lookup_app_l_Some. }
      unfold ave_difficulty. rewrite Hsum, Z.div_mul by lia. split; [done|]. destruct rest as [|s rest]; [done|].
      apply Forall_cons in Hall as [[_ Hd] _]. by rewrite (Hs 0%nat s) in Hd. }
    rewrite (Z.mul_comm (target_time self)), Z.div_mul by nia. apply Z.mod_small. unfold is_u64, U64_MAX in Hd. lia.
Qed.

End Bounds.

(** The quotient is truncated to 64 bits: with an average difficulty of [2^61], a target time
    of 8 seconds and blocks solved within a second, the computed target is zero, and the window
    returns its minimum. *)
Theorem lwma_truncates {T : EpochOps} {L : EpochLaws T} {E : Type} (min max : Difficulty) :
  min <= max -> 0 <= min ->
  @window_calculate T E min max
    {| target_difficulties := [(0, 2 ^ 61); (1, 2 ^ 61)]; block_window := 90; target_time := 8; max_block_time := 48 |} = Ok min.
Proof.
  intros Hle Hmin. unfold window_calculate. set (w := {| target_difficulties := _ |}).
  assert (@lwma_calculate T E w = Ok (Some 0)) as ->.
  { rewrite (calculate_eq w 0 (2 ^ 61) [(1, 2 ^ 61)] 1 1); [by vm_compute|by_evaluation| |lia].
    cbn [imap foldM]. unfold solve_step. cbn. by rewrite since_value by lia. }
  cbn. f_equal. unfold id. lia.
Qed.

(** ** Examples *)
Section DifficultyExamples.

#[local] Instance example_epoch : EpochOps := {| increase := Z.add; since := Z.sub |}.
#[local] Instance example_epoch_laws : EpochLaws example_epoch.
Proof. by split. Qed.
#[local] Instance example_u256 : U256Ops := {| from_big_endian b := le_value (rev b); from_little_endian := le_value |}.
#[local] Instance example_u256_laws : U256Laws example_u256.
Proof. by split. Qed.

Definition example_window : LinearWeightedMovingAverage :=
  {| target_difficulties := [(60, 100); (180, 100); (300, 100)]; block_window := 5; target_time := 120; max_block_time := 720 |}.

Lemma example_window_ok : lwma_ok example_window 60 100 [(180, 100); (300, 100)].
Proof. by_evaluation. Qed.

Lemma window_keeps_latest_witness :
  target_difficulties (foldl (fun w s => lwma_add_back s.1 s.2 w)
    {| target_difficulties := []; block_window := 1; target_time := 8; max_block_time := 48 |} [(1, 5); (2, 6); (3, 7)]) = [(2, 6); (3, 7)].
Proof. apply (@window_keeps_latest unit 1 8 48). by vm_compute. Defined.

Lemma difficulty_meets_target_witness :
  exists d, @big_endian_difficulty _ unit (replicate 31 0 ++ [200]) = Ok d /\
    (is_Some (try_construct Sha3 1000 d) <-> le_value (rev (replicate 31 0 ++ [200])) * 1000 <= U256_MAX).
Proof. apply difficulty_meets_target; by_evaluation. Defined.

Lemma lwma_bounds_witness : exists d, @lwma_calculate _ unit example_window = Ok (Some d) /\
  ave_difficulty [(180, 100); (300, 100)] * 120 / 720 <= d <= ave_difficulty [(180, 100); (300, 100)] * 120.
Proof. apply (lwma_bounds example_window 60 100); [apply example_window_ok|by_evaluation]. Defined.

Lemma lwma_steady_witness : @lwma_calculate _ unit example_window = Ok (Some 100).
Proof.
  apply (lwma_steady example_window 60 100 100 [(180, 100); (300, 100)]).
  - apply example_window_ok.
  - by_evaluation.
  - intros [|[|i]] s Hs; cbn in Hs; [by injection Hs as <-|by injection Hs as <-|done].
Defined.

Lemma lwma_truncates_witness : @window_calculate _ unit 1 (2 ^ 63)
  {| target_difficulties := [(0, 2 ^ 61); (1, 2 ^ 61)]; block_window := 90; target_time := 8; max_block_time := 48 |} = Ok 1.
Proof. apply lwma_truncates; lia. Defined.

End DifficultyExamples.
