(* ===== verification/MoneroMerkle.v ===== *)
(** * Merkle trees of Monero blocks

    src/base_layer/core/src/proof_of_work/monero_rx/merkle_tree.rs: the tree hash of the
    transactions of a Monero block, the Merkle proof of one of them, and the check of such a
    proof. [monero::Hash] is an array of 32 bytes and [monero::Hash::new] is Keccak-256, a function
    of the [monero] crate.

    The loops that overwrite the buffer of hashes are loops over that buffer, index by index. *)

From S2P Require Import Prelude ScriptTypes.

Local Open Scope Z_scope.

(** src/base_layer/core/src/proof_of_work/monero_rx/error.rs *)
Inductive MergeMineError :=
| SerializeError
| DeserializeError
| HashingError
| RandomXError
| MmValidationError
| HexError
| InvalidMerkleRoot.

(** The operations of the [monero] and [randomx_rs] crates that the code calls. *)
Inductive SubField :=
| MergeMining (depth : option Z) (hash : bytes)
| Padding (n : Z)
| OtherSubField (data : bytes).

Class MoneroLib := {
  (* monero::Hash::new *)
  keccak : bytes -> bytes;
  (* Hash::consensus_encode and Hash::consensus_decode *)
  monero_hash_encode : bytes -> bytes;
  monero_hash_decode : bytes -> option (bytes * bytes);
  (* monero::BlockHeader, with consensus_decode and consensus::serialize *)
  MoneroBlockHeader : Type;
  monero_header_decode : bytes -> option (MoneroBlockHeader * bytes);
  monero_header_encode : MoneroBlockHeader -> bytes;
  (* monero::Transaction, with consensus_decode, consensus_encode, hash and prefix.extra as parsed
     by ExtraField::try_parse *)
  MoneroTransaction : Type;
  monero_tx_decode : bytes -> option (MoneroTransaction * bytes);
  monero_tx_encode : MoneroTransaction -> bytes;
  monero_tx_hash : MoneroTransaction -> bytes;
  monero_tx_extra : MoneroTransaction -> option (list SubField);
  monero_tx_with_extra : MoneroTransaction -> list SubField -> MoneroTransaction;
  (* consensus::serialize(&VarInt(n)) *)
  monero_varint : Z -> bytes;
  (* RandomXFactory::create(key) and calculate_hash(input) *)
  randomx_hash : bytes -> bytes -> option bytes;
}.

Section MoneroMerkle.
Context {ML : MoneroLib}.

Definition cn_fast_hash (data : bytes) : bytes := keccak data.

Definition cn_fast_hash2 (hash1 hash2 : bytes) : bytes := cn_fast_hash (hash1 ++ hash2).

(** [Hash::null()] *)
Definition null_hash : bytes := replicate 32 0.

(** ** The tree hash *)

Definition tree_hash_count (count : Z) : result MergeMineError Z :=
  if count <? 3 then Err HashingError
  else if 0x10000000 <? count then Err HashingError
  else
    let pow := while_fuel 28 (fun pow => pow <? count) (fun pow => Z.shiftl pow 1) 2 in
    Ok (Z.shiftr pow 1).

(** The hashes of the bottom row that have no sibling are copied, the others are hashed in pairs:
    [for b in &mut buf[c..cnt]] writes one element per pair. *)
Definition hash_pairs (hashes : list bytes) (c cnt : nat) : result MergeMineError (list bytes * nat) :=
  foldM (fun '(buf, i) b =>
    h1 ← index hashes i;
    h2 ← index hashes (i + 1)%nat;
    Ok (<[b := cn_fast_hash2 h1 h2]> buf, (i + 2)%nat))
    (seq c (cnt - c)) (take c hashes ++ replicate (cnt - c) null_hash, c).

(** One round of the [while cnt > 2] loop: [buf[j]] for [j < cnt] becomes the hash of the pair
    [buf[2j]], [buf[2j+1]]. *)
Definition hash_round (buf : list bytes) (cnt : nat) : result MergeMineError (list bytes) :=
  fst <$> foldM (fun '(buf, i) j =>
    h1 ← index buf i;
    h2 ← index buf (i + 1)%nat;
    Ok (<[j := cn_fast_hash2 h1 h2]> buf, (i + 2)%nat))
    (seq 0 cnt) (buf, 0%nat).

Fixpoint hash_rounds (fuel : nat) (buf : list bytes) (cnt : nat) : result MergeMineError (list bytes) :=
  match fuel with
  | O => Panic
  | S fuel =>
      if decide (2 < cnt)%nat then
        let cnt := (cnt / 2)%nat in
        buf ← hash_round buf cnt;
        hash_rounds fuel buf cnt
      else Ok buf
  end.

Definition tree_hash (hashes : list bytes) : result MergeMineError bytes :=
  match hashes with
  | [] => Err HashingError
  | [h] => Ok h
  | [h1; h2] => Ok (cn_fast_hash2 h1 h2)
  | _ =>
      cnt ← tree_hash_count (Z.of_nat (length hashes));
      c ← arith 0 USIZE_MAX (2 * cnt - Z.of_nat (length hashes));
      let c := Z.to_nat c in
      let cnt := Z.to_nat cnt in
      '(buf, i) ← hash_pairs hashes c cnt;
      if decide (i = length hashes) then
        buf ← hash_rounds (length hashes) buf cnt;
        h1 ← index buf 0;
        h2 ← index buf 1;
        Ok (cn_fast_hash2 h1 h2)
      else Err HashingError
  end.

(** ** Merkle proofs *)

Record MerkleProof := { mp_branch : list bytes; mp_depth : Z; mp_path_bitmap : Z }.

Definition merkle_proof_try_construct (branch : list bytes) (depth path_bitmap : Z) : option MerkleProof :=
  match branch with
  | [] => None
  | _ => Some {| mp_branch := branch; mp_depth := depth; mp_path_bitmap := path_bitmap |}
  end.

Definition merkle_proof_default : MerkleProof := {| mp_branch := [null_hash]; mp_depth := 0; mp_path_bitmap := 0 |}.

(** [a >> n] of a [u32] panics for [n >= 32]. *)
Definition shr_u32 {E} (a n : Z) : result E Z := if n <? 32 then Ok (Z.shiftr a n) else Panic.

Definition calculate_root {E} (self : MerkleProof) (hash : bytes) : result E bytes :=
  if mp_depth self =? 0 then index (mp_branch self) 0
  else
    foldM (fun root d =>
      bits ← shr_u32 (mp_path_bitmap self) (mp_depth self - Z.of_nat d - 1);
      sibling ← index (mp_branch self) d;
      if 0 <? Z.land bits 1 then Ok (cn_fast_hash2 sibling root) else Ok (cn_fast_hash2 root sibling))
      (seq 0 (Z.to_nat (mp_depth self))) hash.

(** The variables [branch], [depth], [path] and [idx] of [create_merkle_proof]. *)
Record proof_state := { ps_branch : list bytes; ps_depth : Z; ps_path : Z; ps_idx : nat }.

(** [if idx == i || idx == i + 1 { .. }]: the sibling of [idx] joins the branch, [idx] moves up to [j].
    [row] is the array the sibling is read from. *)
Definition climb (row : list bytes) (i j : nat) (ps : proof_state) : result MergeMineError proof_state :=
  let idx := ps_idx ps in
  if decide (idx = i \/ idx = i + 1)%nat then
    let ii := if decide (idx = i) then (i + 1)%nat else i in
    h ← index row ii;
    depth ← arith 0 U16_MAX (ps_depth ps + 1);
    Ok {| ps_branch := ps_branch ps ++ [h];
          ps_depth := depth;
          ps_path := Z.lor (Z.land (Z.shiftl (ps_path ps) 1) U32_MAX) (if decide (idx = i) then 0 else 1);
          ps_idx := j |}
  else Ok ps.

Definition proof_pairs (hashes : list bytes) (c cnt : nat) (ps : proof_state)
    : result MergeMineError (list bytes * nat * proof_state) :=
  foldM (fun '(ints, i, ps) j =>
    ps ← climb hashes i j ps;
    h1 ← index hashes i;
    h2 ← index hashes (i + 1)%nat;
    Ok (<[j := cn_fast_hash2 h1 h2]> ints, (i + 2)%nat, ps))
    (seq c (cnt - c)) (take c hashes ++ replicate (cnt - c) null_hash, c, ps).

Definition proof_round (ints : list bytes) (cnt : nat) (ps : proof_state)
    : result MergeMineError (list bytes * nat * proof_state) :=
  foldM (fun '(ints, i, ps) j =>
    ps ← climb ints i j ps;
    h1 ← index ints i;
    h2 ← index ints (i + 1)%nat;
    Ok (<[j := cn_fast_hash2 h1 h2]> ints, (i + 2)%nat, ps))
    (seq 0 cnt) (ints, 0%nat, ps).

Fixpoint proof_rounds (fuel : nat) (ints : list bytes) (cnt : nat) (ps : proof_state)
    : result MergeMineError (list bytes * proof_state) :=
  match fuel with
  | O => Panic
  | S fuel =>
      if decide (2 < cnt)%nat then
        let cnt := (cnt / 2)%nat in
        '(ints, _, ps) ← proof_round ints cnt ps;
        proof_rounds fuel ints cnt ps
      else Ok (ints, ps)
  end.

(** [None] is [Ok None]; a panic remains one. *)
Definition create_merkle_proof (hashes : list bytes) (hash : bytes) : result MergeMineError (option MerkleProof) :=
  match hashes with
  | [] => Ok None
  | [h] => if decide (h = hash) then Ok (merkle_proof_try_construct [h] 0 0) else Ok None
  | [h1; h2] =>
      if decide (h1 = hash) then Ok (merkle_proof_try_construct [h2] 1 0)
      else if decide (h2 = hash) then Ok (merkle_proof_try_construct [h1] 1 1)
      else Ok None
  | _ =>
      match position (fun node => bool_decide (node = hash)) hashes with
      | None => Ok None
      | Some idx =>
          match tree_hash_count (Z.of_nat (length hashes)) with
          | Err _ => Ok None
          | Panic => Panic
          | Ok count =>
              c ← arith 0 USIZE_MAX (2 * count - Z.of_nat (length hashes));
              let c := Z.to_nat c in
              let count := Z.to_nat count in
              '(ints, i, ps) ← proof_pairs hashes c count
                 {| ps_branch := []; ps_depth := 0; ps_path := 0; ps_idx := idx |};
              '(ints, ps) ← proof_rounds (length hashes) ints count ps;
              ps ← climb ints 0 0 ps;
              Ok (merkle_proof_try_construct (ps_branch ps) (ps_depth ps) (ps_path ps))
          end
      end
  end.

End MoneroMerkle.
