(* ===== verification/MoneroMerkleSpec.v ===== *)
(** * Merkle trees of Monero blocks: what the tree hash and the proofs compute

    The reference is a complete binary tree over a row of [2^k] hashes, [tree_root]; the bottom row
    of the tree of [tree_hash] is the row of transactions with the last ones hashed in pairs. A
    Merkle proof is a list of steps, each the hash of a sibling and the side it is on. *)

From S2P Require Import Prelude ScriptTypes MoneroMerkle.

Local Open Scope Z_scope.

Class MoneroHashLaws (ML : MoneroLib) : Prop := {
  keccak_length b : length (keccak b) = 32%nat;
}.

(** A loop over a range whose state is a function of the number of rounds. *)
Lemma foldM_seq {E S} (f : S -> nat -> result E S) (st : nat -> S) (c n : nat) :
  (forall k, (k < n)%nat -> f (st k) (c + k)%nat = Ok (st (Datatypes.S k))) -> foldM f (seq c n) (st 0%nat) = Ok (st n).
Proof.
  induction n as [|n IH]; intros Hf; [done|].
  rewrite seq_S, foldM_app, IH by (intros; apply Hf; lia). cbn. by rewrite Hf by lia.
Qed.

Lemma index_Ok {E A} (l : list A) i x : l !! i = Some x -> @index E A l i = Ok x.
Proof. unfold index. by intros ->. Qed.

Section Spec.
Context {ML : MoneroLib}.
Implicit Types (row hashes : list bytes) (h : bytes).

(** ** The reference tree *)

(** The row above [row], [n] hashes wide. *)
Definition reduce (n : nat) (row : list bytes) : list bytes :=
  (fun k => cn_fast_hash2 (row !!! (2 * k)%nat) (row !!! (2 * k + 1)%nat)) <$> seq 0 n.

(** The root of the complete tree over the first [2^k] hashes of a row. *)
Fixpoint tree_root (k : nat) (row : list bytes) : bytes :=
  match k with
  | O => row !!! 0%nat
  | S k => tree_root k (reduce (2 ^ k) row)
  end.

(** The row below which the tree is complete: [2^k] hashes. *)
Definition bottom_row (c cnt : nat) (hashes : list bytes) : list bytes := take c hashes ++ reduce (cnt - c) (drop c hashes).

(** ** Steps of a proof *)

Definition step (root : bytes) (s : bytes * bool) : bytes :=
  if s.2 then cn_fast_hash2 s.1 root else cn_fast_hash2 root s.1.

Definition sibling (idx : nat) : nat := if Nat.even idx then (idx + 1)%nat else (idx - 1)%nat.

Fixpoint tree_steps (k : nat) (row : list bytes) (idx : nat) : list (bytes * bool) :=
  match k with
  | O => []
  | S k => (row !!! sibling idx, Nat.odd idx) :: tree_steps k (reduce (2 ^ k) row) (idx / 2)
  end.

(** The steps from the hash of transaction [idx]: those that are hashed in pairs have one more. *)
Definition leaf_steps (k c : nat) (hashes : list bytes) (idx : nat) : list (bytes * bool) :=
  if decide (idx < c)%nat then tree_steps k (bottom_row c (2 ^ k) hashes) idx
  else
    (drop c hashes !!! sibling (idx - c), Nat.odd (idx - c)) ::
    tree_steps k (bottom_row c (2 ^ k) hashes) (c + (idx - c) / 2).

Definition path_of (bits : list bool) : Z := fold_left (fun p b => 2 * p + Z.b2z b) bits 0.

Definition proof_of (steps : list (bytes * bool)) : MerkleProof :=
  {| mp_branch := steps.*1; mp_depth := Z.of_nat (length steps); mp_path_bitmap := path_of steps.*2 |}.

Definition ps_of (steps : list (bytes * bool)) (idx : nat) : proof_state :=
  {| ps_branch := steps.*1; ps_depth := Z.of_nat (length steps); ps_path := path_of steps.*2; ps_idx := idx |}.

(** The strings that are hashed on the way from [h] to the root. *)
Fixpoint path_inputs (h : bytes) (steps : list (bytes * bool)) : list bytes :=
  match steps with
  | [] => []
  | s :: steps => (if s.2 then s.1 ++ h else h ++ s.1) :: path_inputs (step h s) steps
  end.

(** ** Rows *)

Lemma length_reduce n row : length (reduce n row) = n.
Proof. unfold reduce. by rewrite length_fmap, length_seq. Qed.

Lemma reduce_S n row : reduce (S n) row = reduce n row ++ [cn_fast_hash2 (row !!! (2 * n)%nat) (row !!! (2 * n + 1)%nat)].
Proof. unfold reduce. by rewrite seq_S, fmap_app. Qed.

Lemma reduce_lookup n row k : (k < n)%nat ->
  reduce n row !!! k = cn_fast_hash2 (row !!! (2 * k)%nat) (row !!! (2 * k + 1)%nat).
Proof.
  intros Hk. unfold reduce. apply list_lookup_total_correct. rewrite list_lookup_fmap, lookup_seq_lt by done. done.
Qed.

Lemma reduce_app n row t : (2 * n <= length row)%nat -> reduce n (row ++ t) = reduce n row.
Proof.
  intros Hn. unfold reduce. apply list_fmap_ext. intros i k [-> Hi]%lookup_seq.
  by rewrite !lookup_total_app_l by lia.
Qed.

Lemma tree_root_app k row t : (2 ^ k <= length row)%nat -> tree_root k (row ++ t) = tree_root k row.
Proof.
  destruct k as [|k]; cbn [tree_root]; intros Hl.
  - rewrite lookup_total_app_l by (cbn in Hl; lia). done.
  - cbn in Hl. rewrite reduce_app by lia. done.
Qed.

Lemma tree_steps_app k row t idx :
  (2 ^ k <= length row)%nat -> (idx < 2 ^ k)%nat -> tree_steps k (row ++ t) idx = tree_steps k row idx.
Proof.
  destruct k as [|k]; cbn [tree_steps]; intros Hl Hi; [done|]. cbn in Hl, Hi. rewrite reduce_app by lia.
  rewrite lookup_total_app_l; [done|]. unfold sibling. destruct (Nat.even idx) eqn:He; [|lia].
  apply Nat.even_spec in He as [m ->]. lia.
Qed.

(** In-place reduction: after [n] writes the first [n] hashes are those of the next row. *)
Lemma reduce_write n row : (2 * n < length row)%nat ->
  <[n := cn_fast_hash2 (row !!! (2 * n)%nat) (row !!! (2 * n + 1)%nat)]> (reduce n row ++ drop n row) =
  reduce (S n) row ++ drop (S n) row.
Proof.
  intros Hn. rewrite insert_app_r_alt by (rewrite length_reduce; lia). rewrite length_reduce, Nat.sub_diag, reduce_S.
  destruct (lookup_lt_is_Some_2 row n) as [x Hx]; [lia|]. rewrite (drop_S _ _ _ Hx). by rewrite <- app_assoc.
Qed.

Lemma reduce_read n row i : (n <= i)%nat -> (n <= length row)%nat -> (reduce n row ++ drop n row) !! i = row !! i.
Proof.
  intros Hi Hn. rewrite lookup_app_r by (rewrite length_reduce; lia). rewrite length_reduce, lookup_drop. f_equal. lia.
Qed.

(** ** The loops of [tree_hash] *)

Lemma lookup_total_Some row i : (i < length row)%nat -> row !! i = Some (row !!! i).
Proof. intros Hi. by apply list_lookup_lookup_total_lt. Qed.

Lemma hash_round_spec buf cnt : (2 * cnt <= length buf)%nat -> hash_round buf cnt = Ok (reduce cnt buf ++ drop cnt buf).
Proof.
  intros Hl. unfold hash_round.
  rewrite (foldM_seq _ (fun k => (reduce k buf ++ drop k buf, (2 * k)%nat))); [done|]. intros k Hk. rewrite Nat.add_0_l.
  rewrite (index_Ok _ (2 * k) (buf !!! (2 * k)%nat)) by (rewrite reduce_read by lia; apply lookup_total_Some; lia). cbn beta iota delta [mbind result_bind].
  rewrite (index_Ok _ (2 * k + 1) (buf !!! (2 * k + 1)%nat)) by (rewrite reduce_read by lia; apply lookup_total_Some; lia). cbn beta iota delta [mbind result_bind].
  rewrite reduce_write by lia. do 2 f_equal. lia.
Qed.

Lemma hash_rounds_spec k fuel buf : (k < fuel)%nat -> (2 ^ S k <= length buf)%nat ->
  exists buf', hash_rounds fuel buf (2 ^ S k) = Ok buf' /\ (2 <= length buf')%nat /\
    cn_fast_hash2 (buf' !!! 0%nat) (buf' !!! 1%nat) = tree_root (S k) buf.
Proof.
  revert fuel buf. induction k as [|k IH]; intros [|fuel] buf Hf Hl; try lia.
  - exists buf. cbn. cbn in Hl. done.
  - cbn [hash_rounds]. assert (2 ^ S (S k) = 2 ^ S k * 2)%nat as Hp by (cbn; lia).
    assert (1 <= 2 ^ k)%nat by (pose proof (Nat.pow_nonzero 2 k); lia).
    rewrite decide_True by (cbn; lia). rewrite Hp in *. rewrite Nat.div_mul by lia.
    rewrite hash_round_spec by lia. cbn [mbind result_bind].
    destruct (IH fuel (reduce (2 ^ S k) buf ++ drop (2 ^ S k) buf)) as (buf' & Hb & H2 & Hr); [lia| |].
    { rewrite length_app, length_reduce, length_drop. lia. }
    exists buf'. split; [done|]. split; [done|]. rewrite Hr, tree_root_app; [done|]. by rewrite length_reduce.
Qed.

Lemma pairs_write c n m row h : (c + n < m)%nat -> length row = (c + n)%nat ->
  <[(c + n)%nat := h]> (row ++ replicate (m - c - n) null_hash) = (row ++ [h]) ++ replicate (m - c - S n) null_hash.
Proof.
  intros Hm Hl. rewrite <- Hl, insert_app_r_alt, Nat.sub_diag by lia. rewrite <- app_assoc. f_equal.
  replace (m - c - n)%nat with (S (m - c - S n)) by lia. done.
Qed.

Lemma length_bottom_row c k hashes : (c <= k)%nat -> (c <= length hashes)%nat -> length (bottom_row c k hashes) = k.
Proof. intros. unfold bottom_row. rewrite length_app, length_take, length_reduce. lia. Qed.

Lemma hash_pairs_spec hashes c cnt : (c <= cnt)%nat -> (c + 2 * (cnt - c) = length hashes)%nat ->
  hash_pairs hashes c cnt = Ok (bottom_row c cnt hashes, length hashes).
Proof.
  intros Hc Hl. unfold hash_pairs.
  set (st k := (((take c hashes ++ reduce k (drop c hashes)) ++ replicate (cnt - c - k) null_hash, (c + 2 * k)%nat))).
  replace (take c hashes ++ _, c) with (st 0%nat) by (unfold st; cbn; rewrite app_nil_r, Nat.sub_0_r, Nat.add_0_r; done).
  rewrite (foldM_seq _ st).
  { unfold st, bottom_row. rewrite Nat.sub_diag, app_nil_r. do 2 f_equal. lia. }
  intros k Hk. unfold st. cbn beta iota.
  rewrite (index_Ok _ (c + 2 * k) (drop c hashes !!! (2 * k)%nat)) by (rewrite <- lookup_drop; apply lookup_total_Some; rewrite length_drop; lia).
  cbn beta iota delta [mbind result_bind]. rewrite <- (Nat.add_assoc c (2 * k) 1).
  rewrite (index_Ok _ (c + (2 * k + 1)) (drop c hashes !!! (2 * k + 1)%nat)) by (rewrite <- lookup_drop; apply lookup_total_Some; rewrite length_drop; lia).
  cbn beta iota delta [mbind result_bind]. rewrite pairs_write, reduce_S, app_assoc; [|lia|rewrite length_app, length_take, length_reduce; lia].
  do 2 f_equal. lia.
Qed.

(** ** The width of the bottom row *)

Lemma pow_loop_spec fuel j count :
  (fuel + j = 29)%nat -> (1 <= j)%nat -> 2 ^ (Z.of_nat j - 1) < count <= 2 ^ 28 ->
  exists m, (j <= m <= 28)%nat /\ while_fuel fuel (fun pow => pow <? count) (fun pow => Z.shiftl pow 1) (2 ^ Z.of_nat j) = 2 ^ Z.of_nat m /\
    2 ^ (Z.of_nat m - 1) < count <= 2 ^ Z.of_nat m.
Proof.
  revert j. induction fuel as [|fuel IH]; intros j Hf Hj Hc.
  - assert (j = 29%nat) as -> by lia. cbn in Hc. lia.
  - cbn [while_fuel]. destruct (Z.ltb_spec (2 ^ Z.of_nat j) count) as [Hlt|Hge].
    + rewrite Z.shiftl_mul_pow2 by lia. replace (2 ^ Z.of_nat j * 2 ^ 1) with (2 ^ Z.of_nat (S j)) by (rewrite Nat2Z.inj_succ, Z.pow_succ_r; lia).
      destruct (IH (S j)) as (m & Hm & Heq & Hb); [lia|lia| |].
      { replace (Z.of_nat (S j) - 1) with (Z.of_nat j) by lia. lia. }
      exists m. split; [lia|]. done.
    + exists j. split; [|split; [done|lia]]. split; [lia|].
      destruct (decide (j = 29%nat)) as [->|]; [cbn in Hc; lia|lia].
Qed.

Lemma tree_hash_count_spec count : 3 <= count <= 2 ^ 28 ->
  exists k, (k <= 26)%nat /\ tree_hash_count count = Ok (Z.of_nat (2 ^ S k)) /\ Z.of_nat (2 ^ S k) < count <= 2 * Z.of_nat (2 ^ S k).
Proof.
  intros Hc. unfold tree_hash_count. destruct (Z.ltb_spec count 3); [lia|]. destruct (Z.ltb_spec 0x10000000 count); [lia|].
  destruct (pow_loop_spec 28 1 count) as (m & Hm & Heq & Hb); [lia|lia|cbn; lia|].
  change (2 ^ Z.of_nat 1) with 2 in Heq. rewrite Heq.
  destruct m as [|[|k]]; [lia|cbn in Hb; lia|]. exists k. split; [lia|].
  assert (2 ^ Z.of_nat (S (S k)) = 2 * Z.of_nat (2 ^ S k)) as Hp.
  { rewrite Nat2Z.inj_pow, <- Z.pow_succ_r by lia. f_equal. lia. }
  rewrite Hp, Z.shiftr_div_pow2, Z.mul_comm, Z.div_mul by lia. split; [done|].
  replace (Z.of_nat (S (S k)) - 1) with (Z.of_nat (S k)) in Hb by lia.
  rewrite Hp in Hb. rewrite Nat2Z.inj_pow in *. lia.
Qed.

(** The shape of the tree over three or more hashes: [2^k] nodes in the row above the pairs, the first [c] of
    which are hashes of transactions. *)
Record tree_shape (hashes : list bytes) (k c : nat) : Prop := {
  ts_k : (1 <= k <= 27)%nat;
  ts_c : (c + length hashes = 2 * 2 ^ k)%nat;
  ts_lt : (2 ^ k < length hashes)%nat;
  ts_count : tree_hash_count (Z.of_nat (length hashes)) = Ok (Z.of_nat (2 ^ k));
}.

Lemma tree_shape_exists hashes : 3 <= Z.of_nat (length hashes) <= 2 ^ 28 -> exists k c, tree_shape hashes k c.
Proof.
  intros Hl. destruct (tree_hash_count_spec _ Hl) as (k & Hk & Heq & Hb).
  exists (S k), (2 * 2 ^ S k - length hashes)%nat. split; [lia|lia|lia|done].
Qed.

Lemma tree_shape_c hashes k c : tree_shape hashes k c ->
  (c < 2 ^ k)%nat /\ (c + 2 * (2 ^ k - c) = length hashes)%nat /\
  @arith MergeMineError 0 USIZE_MAX (2 * Z.of_nat (2 ^ k) - Z.of_nat (length hashes)) = Ok (Z.of_nat c) /\ length (bottom_row c (2 ^ k) hashes) = (2 ^ k)%nat.
Proof.
  intros [Hk Hc Hlt _]. assert (2 ^ k <= 2 ^ 27)%nat as Hp by (apply Nat.pow_le_mono_r; lia).
  assert (Z.of_nat (2 ^ k) <= 2 ^ 27) by (rewrite Nat2Z.inj_pow; apply Z.pow_le_mono_r; lia).
  split; [lia|]. split; [lia|]. split; [|apply length_bottom_row; lia].
  replace (Z.of_nat c) with (2 * Z.of_nat (2 ^ k) - Z.of_nat (length hashes)) by lia.
  apply arith_ok. unfold USIZE_MAX, U64_MAX. lia.
Qed.

Lemma tree_hash_spec hashes k c : tree_shape hashes k c -> tree_hash hashes = Ok (tree_root k (bottom_row c (2 ^ k) hashes)).
Proof.
  intros Hs. destruct (tree_shape_c _ _ _ Hs) as (Hc & Hp & Ha & Hb). destruct Hs as [Hk _ Hlt Hcnt].
  assert (3 <= length hashes)%nat as H3.
  { pose proof (Nat.pow_le_mono_r 2 1 k). cbn in *. lia. }
  unfold tree_hash. destruct hashes as [|a [|b [|d hs]]] eqn:He; cbn [length] in H3; try lia. rewrite <- He in *.
  rewrite Hcnt. cbn [mbind result_bind]. rewrite Ha. cbn [mbind result_bind]. rewrite !Nat2Z.id, hash_pairs_spec by lia.
  cbn [mbind result_bind]. rewrite decide_True by done. destruct k as [|k]; [lia|].
  destruct (hash_rounds_spec k (length hashes) (bottom_row c (2 ^ S k) hashes)) as (buf & -> & H2 & Hr); [|lia|].
  { pose proof (Nat.pow_gt_lin_r 2 (S k)). lia. }
  cbn [mbind result_bind]. rewrite (index_Ok _ 0 (buf !!! 0%nat)), (index_Ok _ 1 (buf !!! 1%nat)) by (apply lookup_total_Some; lia).
  cbn [mbind result_bind]. by rewrite Hr.
Qed.

(** ** Steps lead to the root *)

Lemma sibling_step row idx : step (row !!! idx) (row !!! sibling idx, Nat.odd idx) = cn_fast_hash2 (row !!! (2 * (idx / 2))%nat) (row !!! (2 * (idx / 2) + 1)%nat).
Proof.
  unfold step, sibling. rewrite <- Nat.negb_even. cbn [fst snd]. destruct (Nat.even idx) eqn:He; cbn [negb].
  - apply Nat.even_spec in He as [m ->]. rewrite (Nat.mul_comm 2 m), Nat.div_mul, (Nat.mul_comm m 2) by lia. done.
  - assert (Nat.odd idx = true) as [m ->]%Nat.odd_spec by (rewrite <- Nat.negb_even, He; done).
    replace ((2 * m + 1) / 2)%nat with m by (apply Nat.div_unique with 1%nat; lia). by rewrite Nat.add_sub.
Qed.

Lemma half_lt k idx : (idx < 2 ^ S k)%nat -> (idx / 2 < 2 ^ k)%nat.
Proof. intros H. apply Nat.Div0.div_lt_upper_bound. cbn in H. lia. Qed.

Lemma tree_steps_root k row idx : (idx < 2 ^ k)%nat -> foldl step (row !!! idx) (tree_steps k row idx) = tree_root k row.
Proof.
  revert row idx. induction k as [|k IH]; intros row idx Hi; cbn [tree_steps tree_root foldl].
  - cbn in Hi. by replace idx with 0%nat by lia.
  - rewrite sibling_step, <- (reduce_lookup (2 ^ k)) by (by apply half_lt). apply IH. by apply half_lt.
Qed.

Lemma length_tree_steps k row idx : length (tree_steps k row idx) = k.
Proof. revert row idx. induction k as [|k IH]; intros; cbn; [done|]. by rewrite IH. Qed.

Lemma leaf_steps_root hashes k c idx : tree_shape hashes k c -> (idx < length hashes)%nat ->
  foldl step (hashes !!! idx) (leaf_steps k c hashes idx) = tree_root k (bottom_row c (2 ^ k) hashes).
Proof.
  intros Hs Hi. destruct (tree_shape_c _ _ _ Hs) as (Hc & Hp & _ & Hb). unfold leaf_steps. case_decide as Hd.
  - replace (hashes !!! idx) with (bottom_row c (2 ^ k) hashes !!! idx); [apply tree_steps_root; lia|].
    unfold bottom_row. rewrite lookup_total_app_l by (rewrite length_take; lia). by rewrite !list_lookup_total_alt, lookup_take_lt.
  - cbn [foldl]. replace (hashes !!! idx) with (drop c hashes !!! (idx - c)%nat) by (rewrite !list_lookup_total_alt, lookup_drop; do 2 f_equal; lia).
    assert ((idx - c) / 2 < 2 ^ k - c)%nat by (apply Nat.Div0.div_lt_upper_bound; lia).
    rewrite sibling_step, <- (reduce_lookup (2 ^ k - c)) by done.
    rewrite <- (tree_steps_root k (bottom_row c (2 ^ k) hashes) (c + (idx - c) / 2)) by lia. f_equal.
    unfold bottom_row. rewrite lookup_total_app_r by (rewrite length_take; lia). f_equal. rewrite length_take. lia.
Qed.

(** ** Paths as bitmaps *)

Lemma path_of_snoc bits b : path_of (bits ++ [b]) = 2 * path_of bits + Z.b2z b.
Proof. unfold path_of. by rewrite fold_left_app. Qed.

Lemma path_of_bound bits : 0 <= path_of bits < 2 ^ Z.of_nat (length bits).
Proof.
  induction bits as [|b bits IH] using rev_ind; [done|]. rewrite path_of_snoc, length_app. cbn [length].
  rewrite Nat.add_1_r, Nat2Z.inj_succ, Z.pow_succ_r by lia. destruct b; cbn [Z.b2z]; lia.
Qed.

Lemma path_of_shift l1 l2 : Z.shiftr (path_of (l1 ++ l2)) (Z.of_nat (length l2)) = path_of l1.
Proof.
  induction l2 as [|b l2 IH] using rev_ind; [by rewrite app_nil_r|].
  rewrite app_assoc, path_of_snoc, length_app, Nat.add_1_r, Nat2Z.inj_succ, <- Z.add_1_l, <- Z.shiftr_shiftr by lia.
  rewrite <- IH. f_equal. rewrite Z.shiftr_div_pow2 by lia. change (2 ^ 1) with 2.
  symmetry. apply Z.div_unique with (Z.b2z b); destruct b; cbn [Z.b2z]; lia.
Qed.

Lemma path_of_bit l1 b l2 : Z.land (Z.shiftr (path_of (l1 ++ b :: l2)) (Z.of_nat (length l2))) 1 = Z.b2z b.
Proof.
  rewrite cons_middle, app_assoc, path_of_shift, path_of_snoc. change 1 with (Z.ones 1). rewrite Z.land_ones by lia.
  change (2 ^ 1) with 2. rewrite Z.add_comm, Z.mul_comm, Z.mod_add by lia. by destruct b.
Qed.

(** ** The check of a proof *)

Lemma calculate_root_spec {E} steps h : (0 < length steps <= 32)%nat ->
  @calculate_root _ E (proof_of steps) h = Ok (foldl step h steps).
Proof.
  intros Hl. unfold calculate_root, proof_of. cbn [mp_depth mp_branch mp_path_bitmap].
  destruct (Z.eqb_spec (Z.of_nat (length steps)) 0) as [|_]; [lia|]. rewrite Nat2Z.id.
  pose (st n := foldl step h (take n steps)).
  change h with (st 0%nat) at 1. rewrite (foldM_seq _ st).
  { unfold st. by rewrite firstn_all. }
  intros n Hn. rewrite Nat.add_0_l. destruct (lookup_lt_is_Some_2 steps n Hn) as [[sib b] Hs].
  pose proof (take_drop_middle _ _ _ Hs) as Hsplit. set (t := drop (S n) steps) in *.
  replace (Z.of_nat (length steps) - Z.of_nat n - 1) with (Z.of_nat (length t)) by (unfold t; rewrite length_drop; lia).
  unfold shr_u32. destruct (Z.ltb_spec (Z.of_nat (length t)) 32); [|unfold t in *; rewrite length_drop in *; lia].
  cbn [mbind result_bind]. rewrite (index_Ok _ n sib) by (by rewrite list_lookup_fmap, Hs).
  cbn [mbind result_bind]. rewrite <- Hsplit at 1. rewrite fmap_app. cbn [fmap list_fmap snd].
  rewrite <- (length_fmap snd t). change (list_fmap (bytes * bool)%type bool snd t) with (t.*2).
  rewrite path_of_bit. unfold st. rewrite (take_S_r _ _ _ Hs), foldl_app. by destruct b.
Qed.

(** A depth of zero: the first hash of the branch, whatever the hash that is to be proved. *)
Lemma calculate_root_zero {E} branch h0 path h :
  @calculate_root _ E {| mp_branch := h0 :: branch; mp_depth := 0; mp_path_bitmap := path |} h = Ok h0.
Proof. done. Qed.

(** ** The construction of a proof *)

Lemma climb_hit row i j steps (b : bool) sib :
  row !! (if b then i else i + 1)%nat = Some sib -> (length steps < 32)%nat ->
  climb row i j (ps_of steps (i + Nat.b2n b)) = Ok (ps_of (steps ++ [(sib, b)]) j).
Proof.
  intros Hs Hl. unfold climb. cbn [ps_idx ps_of ps_branch ps_depth ps_path].
  assert (row !! (if decide ((i + Nat.b2n b)%nat = i) then i + 1 else i)%nat = Some sib) as Hs'.
  { destruct b; cbn [Nat.b2n] in *; case_decide; try lia; done. }
  rewrite decide_True by (destruct b; cbn; lia). rewrite (index_Ok _ _ _ Hs'). cbn [mbind result_bind].
  rewrite arith_ok by (unfold U16_MAX; lia). cbn [mbind result_bind]. f_equal. unfold ps_of.
  rewrite !fmap_app, length_app. cbn [fmap list_fmap fst snd length]. rewrite path_of_snoc. f_equal; [lia|].
  pose proof (path_of_bound (steps.*2)) as Hp. rewrite length_fmap in Hp.
  assert (2 ^ Z.of_nat (length steps) <= 2 ^ 31) by (apply Z.pow_le_mono_r; lia).
  change U32_MAX with (Z.ones 32). rewrite Z.land_ones, Z.shiftl_mul_pow2, Z.mod_small by lia.
  change (2 ^ 1) with 2. rewrite Z.mul_comm.
  destruct b; cbn [Nat.b2n Z.b2z]; [rewrite decide_False by lia|rewrite decide_True by lia; by rewrite Z.lor_0_r, Z.add_0_r].
  rewrite <- Z.add_lor_land. replace (Z.land (2 * path_of steps.*2) 1) with 0; [lia|].
  change 1 with (Z.ones 1). rewrite Z.land_ones by lia. change (2 ^ 1) with 2. by rewrite Z.mul_comm, Z.mod_mul.
Qed.

Lemma climb_miss row i j ps : ps_idx ps <> i -> ps_idx ps <> (i + 1)%nat -> climb row i j ps = Ok ps.
Proof. intros. unfold climb. rewrite decide_False; [done|]. lia. Qed.

Lemma parity_split idx : idx = (2 * (idx / 2) + Nat.b2n (Nat.odd idx))%nat.
Proof. rewrite <- Nat.bit0_odd, Nat.bit0_mod. apply Nat.div_mod. lia. Qed.

Lemma sibling_split idx : sibling idx = (if Nat.odd idx then 2 * (idx / 2) else 2 * (idx / 2) + 1)%nat.
Proof.
  unfold sibling. rewrite <- Nat.negb_odd. pose proof (parity_split idx). destruct (Nat.odd idx); cbn [Nat.b2n negb] in *; lia.
Qed.

(** The proof state after [n] pairs: [idx] has climbed once its pair has been passed. *)
Definition climbed (steps : list (bytes * bool)) (s : bytes * bool) (idx up n : nat) : proof_state :=
  if decide (up < n)%nat then ps_of (steps ++ [s]) up else ps_of steps idx.

Lemma climb_pair row base m n steps idx sib :
  let up := (m + (idx - base) / 2)%nat in
  (m <= base <= idx)%nat -> (m <= n)%nat -> (length steps < 32)%nat ->
  (up = n -> row !! (base + sibling (idx - base))%nat = Some sib) ->
  climb row (base + 2 * (n - m)) n (climbed steps (sib, Nat.odd (idx - base)) idx up n) =
  Ok (climbed steps (sib, Nat.odd (idx - base)) idx up (S n)).
Proof.
  intros up Hb Hm Hl Hs. unfold climbed.
  pose proof (parity_split (idx - base)) as Hsplit. rewrite (sibling_split (idx - base)) in Hs.
  set (b := Nat.odd (idx - base)) in *. destruct (decide (up = n)) as [He|Hne].
  - rewrite decide_False, decide_True by lia. specialize (Hs He). assert ((idx - base) / 2 = n - m)%nat as Hq by (unfold up in He; lia). rewrite Hq in Hs, Hsplit.
    rewrite <- (climb_hit row (base + 2 * (n - m)) up steps b sib); [|destruct b; [done|by rewrite <- Nat.add_assoc]|done].
    f_equal; [lia|]. f_equal. lia.
  - assert (Nat.b2n b <= 1)%nat by (destruct b; cbn; lia). destruct (decide (up < n)%nat).
    + rewrite decide_True by lia. apply climb_miss; cbn [ps_idx ps_of]; lia.
    + rewrite decide_False by lia. apply climb_miss; cbn [ps_idx ps_of]; unfold up in *; lia.
Qed.

Lemma proof_round_spec ints cnt steps idx :
  (2 * cnt <= length ints)%nat -> (idx < 2 * cnt)%nat -> (length steps < 32)%nat ->
  proof_round ints cnt (ps_of steps idx) =
  Ok (reduce cnt ints ++ drop cnt ints, (2 * cnt)%nat, ps_of (steps ++ [(ints !!! sibling idx, Nat.odd idx)]) (idx / 2)).
Proof.
  intros Hl Hi Hs. unfold proof_round.
  pose (st n := (reduce n ints ++ drop n ints, (2 * n)%nat, climbed steps (ints !!! sibling idx, Nat.odd idx) idx (idx / 2) n)).
  replace (ints, 0%nat, ps_of steps idx) with (st 0%nat) by (unfold st, climbed; rewrite decide_False by lia; done).
  assert (idx / 2 < cnt)%nat by (apply Nat.Div0.div_lt_upper_bound; lia).
  rewrite (foldM_seq _ st); [unfold st, climbed; by rewrite decide_True|].
  intros n Hn. rewrite Nat.add_0_l. unfold st. cbn beta iota.
  assert (forall i, (n <= i < length ints)%nat -> (reduce n ints ++ drop n ints) !! i = Some (ints !!! i)) as Hg.
  { intros i ?. rewrite reduce_read by lia. apply lookup_total_Some. lia. }
  pose proof (climb_pair (reduce n ints ++ drop n ints) 0 0 n steps idx (ints !!! sibling idx)) as Hc.
  rewrite !Nat.add_0_l, !Nat.sub_0_r in Hc. rewrite Hc; [|lia|lia|done|].
  2:{ intros He. apply Hg. rewrite sibling_split. destruct (Nat.odd idx); lia. }
  cbn beta iota delta [mbind result_bind]. rewrite (index_Ok _ (2 * n) _ (Hg (2 * n)%nat ltac:(lia))).
  cbn beta iota delta [mbind result_bind]. rewrite (index_Ok _ (2 * n + 1) _ (Hg (2 * n + 1)%nat ltac:(lia))).
  cbn beta iota delta [mbind result_bind]. rewrite reduce_write by lia. do 3 f_equal. lia.
Qed.

Lemma proof_rounds_spec k fuel ints steps idx :
  (k < fuel)%nat -> (2 ^ S k <= length ints)%nat -> (idx < 2 ^ S k)%nat -> (length steps + k < 32)%nat ->
  exists ints' ps, proof_rounds fuel ints (2 ^ S k) (ps_of steps idx) = Ok (ints', ps) /\
    climb ints' 0 0 ps = Ok (ps_of (steps ++ tree_steps (S k) ints idx) 0).
Proof.
  revert fuel ints steps idx. induction k as [|k IH]; intros [|fuel] ints steps idx Hf Hl Hi Hs; try lia.
  - exists ints, (ps_of steps idx). split; [done|]. cbn in Hl, Hi.
    pose proof (climb_pair ints 0 0 0 steps idx (ints !!! sibling idx)) as Hc. rewrite !Nat.add_0_l, !Nat.sub_0_r in Hc.
    assert (idx / 2 = 0)%nat as Hz by (apply Nat.div_small; lia). rewrite Hz in Hc.
    unfold climbed in Hc. rewrite decide_False, decide_True in Hc by lia. rewrite Nat.mul_0_r in Hc. apply Hc; [lia|lia|lia|].
    intros _. apply lookup_total_Some. rewrite sibling_split, Hz. destruct (Nat.odd idx); lia.
  - cbn [proof_rounds]. assert (2 ^ S (S k) = 2 ^ S k * 2)%nat as Hp by (cbn; lia).
    assert (1 <= 2 ^ k)%nat by (pose proof (Nat.pow_nonzero 2 k); lia). pose proof (half_lt (S k) idx Hi).
    rewrite decide_True by (cbn; lia). rewrite Hp in *. rewrite Nat.div_mul by lia.
    rewrite proof_round_spec by lia. cbn [mbind result_bind].
    destruct (IH fuel (reduce (2 ^ S k) ints ++ drop (2 ^ S k) ints) (steps ++ [(ints !!! sibling idx, Nat.odd idx)]) (idx / 2)%nat)
      as (ints' & ps & Hr & Hc); [lia| |done|rewrite length_app; cbn [length]; lia|].
    { rewrite length_app, length_reduce, length_drop. lia. }
    exists ints', ps. split; [done|]. rewrite Hc, <- app_assoc, tree_steps_app; [done| |done]. by rewrite length_reduce.
Qed.

Lemma proof_pairs_spec hashes c cnt idx : (c <= cnt)%nat -> (c + 2 * (cnt - c) = length hashes)%nat -> (idx < length hashes)%nat ->
  proof_pairs hashes c cnt (ps_of [] idx) =
  Ok (bottom_row c cnt hashes, length hashes,
      if decide (idx < c)%nat then ps_of [] idx
      else ps_of [(drop c hashes !!! sibling (idx - c), Nat.odd (idx - c))] (c + (idx - c) / 2)).
Proof.
  intros Hc Hl Hi. unfold proof_pairs.
  set (sib := drop c hashes !!! sibling (idx - c)).
  set (up n := if decide (idx < c)%nat then ps_of [] idx else climbed [] (sib, Nat.odd (idx - c)) idx (c + (idx - c) / 2) n).
  set (st k := (((take c hashes ++ reduce k (drop c hashes)) ++ replicate (cnt - c - k) null_hash, (c + 2 * k)%nat, up (c + k)%nat))).
  replace (take c hashes ++ _, c, ps_of [] idx) with (st 0%nat).
  2:{ unfold st, up, climbed. cbn. rewrite app_nil_r, Nat.sub_0_r, !Nat.add_0_r. rewrite (decide_False (P := (c + _ < c)%nat)) by lia. by case_decide. }
  rewrite (foldM_seq _ st).
  { unfold st, up, bottom_row, climbed. rewrite Nat.sub_diag, app_nil_r. do 2 f_equal; [f_equal; lia|]. case_decide; [done|].
    rewrite decide_True; [done|]. assert ((idx - c) / 2 < cnt - c)%nat by (apply Nat.Div0.div_lt_upper_bound; lia). lia. }
  intros k Hk. unfold st. cbn beta iota.
  assert (forall i, (i < 2 * (cnt - c))%nat -> hashes !! (c + i)%nat = Some (drop c hashes !!! i)) as Hg.
  { intros i ?. rewrite <- lookup_drop. apply lookup_total_Some. rewrite length_drop. lia. }
  assert (climb hashes (c + 2 * k) (c + k) (up (c + k)%nat) = Ok (up (c + S k)%nat)) as ->.
  { unfold up. destruct (decide (idx < c)%nat); [apply climb_miss; cbn [ps_idx ps_of]; lia|].
    pose proof (climb_pair hashes c c (c + k) [] idx sib) as Hp. replace (c + k - c)%nat with k in Hp by lia.
    rewrite Nat.add_succ_r. apply Hp; [lia|lia|cbn; lia|].
    intros He. apply Hg. rewrite sibling_split. destruct (Nat.odd (idx - c)); lia. }
  cbn beta iota delta [mbind result_bind]. rewrite (index_Ok _ (c + 2 * k) _ (Hg (2 * k)%nat ltac:(lia))).
  cbn beta iota delta [mbind result_bind]. rewrite <- (Nat.add_assoc c (2 * k) 1), (index_Ok _ (c + (2 * k + 1)) _ (Hg (2 * k + 1)%nat ltac:(lia))).
  cbn beta iota delta [mbind result_bind]. rewrite pairs_write, reduce_S, app_assoc; [|lia|rewrite length_app, length_take, length_reduce; lia].
  do 3 f_equal. lia.
Qed.

Lemma length_leaf_steps k c hashes idx : (k <= length (leaf_steps k c hashes idx) <= S k)%nat.
Proof. unfold leaf_steps. case_decide; cbn [length]; rewrite length_tree_steps; lia. Qed.

Lemma hash_position_Some {A} (P : A -> bool) (l : list A) i : position P l = Some i -> exists x, l !! i = Some x /\ P x = true.
Proof.
  revert i. induction l as [|x l IH]; intros i; cbn; [done|]. destruct (P x) eqn:HP; [intros [= <-]; eauto|].
  destruct (position P l) as [j|]; [|done]. intros [= <-]. destruct (IH j) as (y & ? & ?); eauto.
Qed.

Lemma position_elem h hashes : h ∈ hashes -> exists idx, position (fun node => bool_decide (node = h)) hashes = Some idx.
Proof.
  induction 1 as [h hs|h g hs _ [idx IH]]; cbn; [rewrite bool_decide_true by done; by exists 0%nat|].
  case_bool_decide; [by exists 0%nat|]. rewrite IH. by exists (S idx).
Qed.

Lemma position_hash hashes h idx : position (fun node => bool_decide (node = h)) hashes = Some idx -> hashes !! idx = Some h.
Proof. intros (x & Hx & Hd%bool_decide_eq_true)%hash_position_Some. by subst. Qed.

Lemma create_merkle_proof_spec hashes k c h idx :
  tree_shape hashes k c -> position (fun node => bool_decide (node = h)) hashes = Some idx ->
  create_merkle_proof hashes h = Ok (Some (proof_of (leaf_steps k c hashes idx))).
Proof.
  intros Hs Hpos. pose proof (lookup_lt_Some _ _ _ (position_hash _ _ _ Hpos)) as Hi.
  destruct (tree_shape_c _ _ _ Hs) as (Hc & Hp & Ha & Hb). destruct Hs as [Hk _ Hlt Hcnt].
  assert (3 <= length hashes)%nat as H3.
  { pose proof (Nat.pow_le_mono_r 2 1 k). cbn in *. lia. }
  unfold create_merkle_proof. destruct hashes as [|a [|b [|d hs]]] eqn:He; cbn [length] in H3; try lia. rewrite <- He in *.
  rewrite Hpos, Hcnt, Ha. cbn [mbind result_bind]. rewrite !Nat2Z.id.
  change {| ps_branch := []; ps_depth := 0; ps_path := 0; ps_idx := idx |} with (ps_of [] idx).
  rewrite proof_pairs_spec by lia. cbn [mbind result_bind]. destruct k as [|k]; [lia|].
  assert (k < length hashes)%nat by (pose proof (Nat.pow_gt_lin_r 2 (S k)); lia).
  assert (forall steps i, (i < 2 ^ S k)%nat -> (length steps + k < 32)%nat ->
    ('(ints, ps) ← proof_rounds (length hashes) (bottom_row c (2 ^ S k) hashes) (2 ^ S k) (ps_of steps i);
     ps ← climb ints 0 0 ps; Ok (merkle_proof_try_construct (ps_branch ps) (ps_depth ps) (ps_path ps))) =
    Ok (Some (proof_of (steps ++ tree_steps (S k) (bottom_row c (2 ^ S k) hashes) i)))) as Hrest.
  { intros steps i Hi' Hl. edestruct (proof_rounds_spec k) as (ints & ps & -> & Hcl); [done| |exact Hi'|exact Hl|]; [lia|].
    cbn [mbind result_bind]. rewrite Hcl. cbn [mbind result_bind]. f_equal.
    unfold merkle_proof_try_construct, ps_of, proof_of. cbn [ps_branch ps_depth ps_path].
    by destruct steps. }
  unfold leaf_steps. case_decide; [apply (Hrest []); cbn [length]; lia|].
  assert ((idx - c) / 2 < 2 ^ S k - c)%nat by (apply Nat.Div0.div_lt_upper_bound; lia).
  apply (Hrest [_]); cbn [length]; lia.
Qed.

(** ** Completeness *)

(** The proof that is made for a hash of the tree leads to the root of the tree. *)
Lemma created_proof_verifies hashes h :
  h ∈ hashes -> Z.of_nat (length hashes) <= 2 ^ 28 ->
  exists p root, create_merkle_proof hashes h = Ok (Some p) /\ tree_hash hashes = Ok root /\
    (forall E, @calculate_root _ E p h = Ok root).
Proof.
  intros Hin Hl. destruct hashes as [|a [|b [|d hs]]] eqn:He; [by apply elem_of_nil in Hin|..].
  - apply list_elem_of_singleton in Hin as ->. cbn. rewrite decide_True by done. by eexists _, _.
  - cbn. destruct (decide (a = h)) as [->|]; [by eexists _, _|]. destruct (decide (b = h)) as [->|]; [by eexists _, _|].
    set_solver.
  - rewrite <- He in *. destruct (tree_shape_exists hashes) as (k & c & Hs); [subst; cbn [length] in *; lia|].
    destruct (position_elem _ _ Hin) as [idx Hidx]. pose proof (position_hash _ _ _ Hidx) as Hh.
    exists (proof_of (leaf_steps k c hashes idx)), (tree_root k (bottom_row c (2 ^ k) hashes)).
    split; [by apply create_merkle_proof_spec|]. split; [by apply tree_hash_spec|]. intros E.
    pose proof (length_leaf_steps k c hashes idx). pose proof (ts_k _ _ _ Hs).
    rewrite calculate_root_spec by lia. apply lookup_lt_Some in Hh as Hlt. f_equal.
    rewrite <- (list_lookup_total_correct _ _ _ Hh). by apply leaf_steps_root.
Qed.

(** ** Soundness *)

(** The steps a proof stands for: the bits of the path from the highest used one down. *)
Definition steps_of (p : MerkleProof) : list (bytes * bool) :=
  let d := Z.to_nat (mp_depth p) in
  zip (mp_branch p) ((fun i => Z.testbit (mp_path_bitmap p) (mp_depth p - Z.of_nat i - 1)) <$> seq 0 d).

Lemma land_1_testbit x n : 0 <= n -> (0 <? Z.land (Z.shiftr x n) 1) = Z.testbit x n.
Proof.
  intros Hn. change 1 with (Z.ones 1). rewrite Z.land_ones, <- Z.bit0_mod, Z.shiftr_spec, Z.add_0_l by lia.
  by destruct (Z.testbit x n).
Qed.

Lemma calculate_root_Ok {E} p h r : mp_depth p <> 0 -> 0 <= mp_depth p -> @calculate_root _ E p h = Ok r ->
  r = foldl step h (steps_of p) /\ (Z.to_nat (mp_depth p) <= length (mp_branch p))%nat.
Proof.
  intros Hz Hd. unfold calculate_root. destruct (Z.eqb_spec (mp_depth p) 0) as [|_]; [done|].
  set (d := Z.to_nat (mp_depth p)). set (bit i := Z.testbit (mp_path_bitmap p) (mp_depth p - Z.of_nat i - 1)).
  assert (forall n r, (n <= d)%nat -> foldM (fun root i =>
      bits ← @shr_u32 E (mp_path_bitmap p) (mp_depth p - Z.of_nat i - 1); sibling ← index (mp_branch p) i;
      if 0 <? Z.land bits 1 then Ok (cn_fast_hash2 sibling root) else Ok (cn_fast_hash2 root sibling)) (seq 0 n) h = Ok r ->
    r = foldl step h (zip (mp_branch p) (bit <$> seq 0 n)) /\ (n <= length (mp_branch p))%nat) as Hgen.
  2:{ intros Hr. by apply Hgen in Hr. }
  induction n as [|n IH]; intros r' Hn; [cbn; rewrite zip_with_nil_r; naive_solver lia|].
  rewrite seq_S, foldM_app. intros (r1 & Hr1 & Hr2)%bind_Ok_iff. destruct (IH r1) as [-> Hl]; [lia|done|].
  cbn [foldM Nat.add] in Hr2. apply bind_Ok_iff in Hr2 as (r2 & Hr2 & [= ->]).
  apply bind_Ok_iff in Hr2 as (bits & Hb & (sib & Hs & Hr2)%bind_Ok_iff).
  unfold shr_u32 in Hb. destruct (_ <? 32); [|done]. injection Hb as <-. rewrite land_1_testbit in Hr2 by (unfold d in *; lia).
  apply unwrap_Ok in Hs as Hs'. apply lookup_lt_Some in Hs' as Hlt. split; [|lia].
  rewrite fmap_app, zip_with_app_r, zip_with_take_l, length_fmap, length_seq, (drop_S _ _ _ Hs').
  rewrite foldl_app. fold (bit n) in Hr2. cbn. rewrite zip_with_nil_r. cbn. unfold step at 1. cbn. by destruct (bit n); injection Hr2 as <-.
Qed.

Lemma steps_of_proof_of steps : steps_of (proof_of steps) = steps.
Proof.
  unfold steps_of, proof_of. cbn [mp_depth mp_branch mp_path_bitmap]. rewrite Nat2Z.id.
  assert (forall n, (n <= length steps)%nat ->
    (fun i => Z.testbit (path_of steps.*2) (Z.of_nat (length steps) - Z.of_nat i - 1)) <$> seq 0 n = take n steps.*2) as Hbits.
  2:{ rewrite Hbits by done. rewrite <- (length_fmap snd steps), firstn_all. apply zip_fst_snd. }
  induction n as [|n IH]; intros Hn; [done|]. rewrite seq_S, fmap_app, IH by lia.
  destruct (lookup_lt_is_Some_2 steps n) as [[sib b] Hs]; [lia|].
  assert (steps.*2 !! n = Some b) as Hb by (by rewrite list_lookup_fmap, Hs).
  rewrite (take_S_r _ _ _ Hb). cbn. do 2 f_equal. pose proof (take_drop_middle _ _ _ Hb) as Hsplit.
  rewrite <- land_1_testbit by lia. rewrite <- Hsplit at 1.
  replace (Z.of_nat (length steps) - Z.of_nat n - 1) with (Z.of_nat (length (drop (S n) steps.*2))) by (rewrite length_drop, length_fmap; lia).
  rewrite path_of_bit. by destruct b.
Qed.

(** Two paths with the same sides from different hashes to the same root hash two different strings to the same
    hash. *)
Lemma path_collision `{!MoneroHashLaws ML} steps1 steps2 h1 h2 :
  steps1.*2 = steps2.*2 -> Forall (fun s => length s = 32%nat) (h1 :: h2 :: steps1.*1 ++ steps2.*1) ->
  foldl step h1 steps1 = foldl step h2 steps2 ->
  h1 = h2 \/ exists n x y, path_inputs h1 steps1 !! n = Some x /\ path_inputs h2 steps2 !! n = Some y /\ x <> y /\ keccak x = keccak y.
Proof.
  revert steps2 h1 h2. induction steps1 as [|[s1 b1] steps1 IH]; intros [|[s2 b2] steps2] h1 h2 Hb Hl Hr; try done; [by left|].
  cbn [fmap list_fmap fst snd] in Hb. injection Hb as <- Hb. cbn [foldl] in Hr.
  rewrite !Forall_cons, Forall_app in Hl. cbn [fmap list_fmap fst snd] in Hl. rewrite !Forall_cons in Hl.
  destruct Hl as (Hh1 & Hh2 & [Hs1 Hf1] & [Hs2 Hf2]).
  destruct (IH steps2 (step h1 (s1, b1)) (step h2 (s2, b1))) as [Heq|(n & x & y & Hx & Hy & Hn)]; [done| |done| |].
  - rewrite !Forall_cons, Forall_app. unfold step, cn_fast_hash2, cn_fast_hash. cbn [fst snd].
    split; [destruct b1; apply keccak_length|]. split; [destruct b1; apply keccak_length|done].
  - set (x := if b1 then s1 ++ h1 else h1 ++ s1). set (y := if b1 then s2 ++ h2 else h2 ++ s2).
    destruct (decide (x = y)) as [Hxy|Hxy].
    + left. unfold x, y in Hxy. destruct b1; apply app_inj_1 in Hxy as [? ?]; congruence.
    + right. exists 0%nat, x, y. split; [done|]. split; [done|]. split; [done|].
      unfold x, y. unfold step, cn_fast_hash2, cn_fast_hash in Heq. cbn [fst snd] in Heq. by destruct b1.
  - right. exists (S n), x, y. done.
Qed.

Lemma steps_of_sides p q :
  mp_depth p = mp_depth q -> mp_path_bitmap p = mp_path_bitmap q ->
  (Z.to_nat (mp_depth p) <= length (mp_branch p))%nat -> (Z.to_nat (mp_depth q) <= length (mp_branch q))%nat ->
  (steps_of p).*2 = (steps_of q).*2.
Proof. intros Hd Hb Hp Hq. unfold steps_of. rewrite !snd_zip by (by rewrite length_fmap, length_seq). by rewrite Hd, Hb. Qed.

Lemma sibling_lt idx n : (idx < 2 * n)%nat -> (sibling idx < 2 * n)%nat.
Proof.
  intros Hi. assert (idx / 2 < n)%nat by (apply Nat.Div0.div_lt_upper_bound; lia).
  rewrite sibling_split. destruct (Nat.odd idx); lia.
Qed.

Section Lengths.
Context `{!MoneroHashLaws ML}.

Definition hash_sized (h : bytes) : Prop := length h = 32%nat.

Lemma reduce_sized n row : Forall hash_sized (reduce n row).
Proof. apply Forall_fmap, Forall_true. intros. apply keccak_length. Qed.

Lemma lookup_sized row i : Forall hash_sized row -> (i < length row)%nat -> hash_sized (row !!! i).
Proof. intros Hf Hi. exact (proj1 (Forall_lookup _ _) Hf i _ (lookup_total_Some row i Hi)). Qed.

Lemma tree_steps_sized k row idx :
  Forall hash_sized row -> (2 ^ k <= length row)%nat -> (idx < 2 ^ k)%nat -> Forall hash_sized (tree_steps k row idx).*1.
Proof.
  revert row idx. induction k as [|k IH]; intros row idx Hf Hl Hi; cbn [tree_steps fmap list_fmap fst]; [constructor|]. constructor.
  - apply lookup_sized; [done|]. pose proof (sibling_lt idx (2 ^ k)). cbn in *. lia.
  - apply IH; [apply reduce_sized|by rewrite length_reduce|by apply half_lt].
Qed.

Lemma leaf_steps_sized hashes k c idx :
  tree_shape hashes k c -> Forall hash_sized hashes -> (idx < length hashes)%nat -> Forall hash_sized (leaf_steps k c hashes idx).*1.
Proof.
  intros Hs Hf Hi. destruct (tree_shape_c _ _ _ Hs) as (Hc & Hp & _ & Hb).
  assert (Forall hash_sized (bottom_row c (2 ^ k) hashes)) by (apply Forall_app; split; [by apply Forall_take|apply reduce_sized]).
  unfold leaf_steps. case_decide; [apply tree_steps_sized; [done|lia|lia]|]. cbn [fmap list_fmap fst]. constructor.
  - apply lookup_sized; [by apply Forall_drop|]. rewrite length_drop. pose proof (sibling_lt (idx - c) (2 ^ k - c)). lia.
  - assert ((idx - c) / 2 < 2 ^ k - c)%nat by (apply Nat.Div0.div_lt_upper_bound; lia). apply tree_steps_sized; [done|lia|lia].
Qed.

Lemma tree_root_sized k row : Forall hash_sized row -> (2 ^ k <= length row)%nat -> hash_sized (tree_root k row).
Proof.
  revert row. induction k as [|k IH]; intros row Hf Hl; cbn [tree_root]; [apply lookup_sized; [done|cbn in Hl; lia]|].
  apply IH; [apply reduce_sized|by rewrite length_reduce].
Qed.

Lemma tree_hash_sized hashes root : Z.of_nat (length hashes) <= 2 ^ 28 -> Forall hash_sized hashes -> tree_hash hashes = Ok root -> hash_sized root.
Proof.
  intros Hl Hf Hr. destruct hashes as [|a [|b [|d hs]]] eqn:He; [done|..].
  - injection Hr as <-. by inversion_clear Hf.
  - injection Hr as <-. apply keccak_length.
  - rewrite <- He in *. destruct (tree_shape_exists hashes) as (k & c & Hs); [subst; cbn [length] in *; lia|].
    rewrite (tree_hash_spec _ _ _ Hs) in Hr. injection Hr as <-. destruct (tree_shape_c _ _ _ Hs) as (_ & _ & _ & Hb).
    apply tree_root_sized; [|lia]. apply Forall_app. split; [by apply Forall_take|apply reduce_sized].
Qed.

(** What a proof that [create_merkle_proof] makes looks like, for two hashes or more. *)
Lemma created_proof hashes t p root :
  2 <= Z.of_nat (length hashes) <= 2 ^ 28 -> Forall hash_sized hashes ->
  create_merkle_proof hashes t = Ok (Some p) -> tree_hash hashes = Ok root ->
  0 < mp_depth p /\ (Z.to_nat (mp_depth p) <= length (mp_branch p))%nat /\ hash_sized t /\ Forall hash_sized (steps_of p).*1 /\
  foldl step t (steps_of p) = root.
Proof.
  intros Hl Hf Hp Hr. destruct hashes as [|a [|b [|d hs]]] eqn:He; cbn [length] in Hl; [lia|lia|..].
  - cbn in Hp, Hr. rewrite !Forall_cons in Hf. destruct Hf as (Ha & Hb & _). injection Hr as <-.
    destruct (decide (a = t)) as [<-|]; [|destruct (decide (b = t)) as [<-|]; [|done]];
      injection Hp as <-; (split; [done|]; split; [cbn; lia|]; split; [done|]; split; [by repeat constructor|done]).
  - rewrite <- He in *. destruct (tree_shape_exists hashes) as (k & c & Hs); [subst; cbn [length] in *; lia|].
    destruct (position (fun node => bool_decide (node = t)) hashes) as [idx|] eqn:Hpos.
    2:{ unfold create_merkle_proof in Hp. rewrite He in Hp at 1. by rewrite Hpos in Hp. }
    rewrite (create_merkle_proof_spec _ _ _ _ _ Hs Hpos) in Hp. injection Hp as <-.
    rewrite (tree_hash_spec _ _ _ Hs) in Hr. injection Hr as <-. pose proof (position_hash _ _ _ Hpos) as Ht.
    apply lookup_lt_Some in Ht as Hlt. pose proof (length_leaf_steps k c hashes idx). pose proof (ts_k _ _ _ Hs).
    rewrite steps_of_proof_of. cbn [proof_of mp_depth mp_branch]. rewrite length_fmap, Nat2Z.id.
    split; [lia|]. split; [lia|]. split; [by eapply Forall_lookup_1|]. split; [by apply leaf_steps_sized|].
    rewrite <- (list_lookup_total_correct _ _ _ Ht). by apply leaf_steps_root.
Qed.

(** C29: a Merkle proof with the depth and the path of the proof that [create_merkle_proof] makes for a transaction [t]
    of a block of two or more transactions, at most [2^28], is accepted for the root of the block's tree ([tree_hash]) only for [t]:
    a proof of another hash leads to two different strings, one hashed while the proof is checked and the other
    hashed on the path of [t], with the same Keccak hash. (The proof for a block of one transaction has depth 0 and is accepted for every hash.) *)
Theorem merkle_proof_binding hashes t p0 root p h :
  2 <= Z.of_nat (length hashes) <= 2 ^ 28 -> Forall hash_sized hashes -> hash_sized h -> Forall hash_sized (mp_branch p) ->
  create_merkle_proof hashes t = Ok (Some p0) -> tree_hash hashes = Ok root ->
  mp_depth p = mp_depth p0 -> mp_path_bitmap p = mp_path_bitmap p0 -> @calculate_root _ MergeMineError p h = Ok root ->
  h = t \/ exists n x y, path_inputs h (steps_of p) !! n = Some x /\ path_inputs t (steps_of p0) !! n = Some y /\
    x <> y /\ keccak x = keccak y.
Proof.
  intros Hl Hf Hh Hb Hp0 Hr Hd Hpath Hp.
  destruct (created_proof _ _ _ _ Hl Hf Hp0 Hr) as (Hd0 & Hl0 & Ht & Hf0 & Hroot).
  apply calculate_root_Ok in Hp as [Hp Hlp]; [|lia|lia]. apply path_collision; [by apply steps_of_sides| |congruence].
  constructor; [done|]. constructor; [done|]. apply Forall_app. split; [|done].
  unfold steps_of. apply Forall_fmap, Forall_forall. intros [x b] Hx%elem_of_zip_l. by apply (proj1 (Forall_forall _ _) Hb).
Qed.

End Lengths.
End Spec.
