(* ===== verification/ConsensusConstants.v ===== *)
(** * The consensus constants

    The constants of every network (consensus/consensus_constants.rs, consensus/network.rs), the
    derived quantities, and the checks the comments of the source ask for: that the maximum solve
    time is six target times, that the time limit is the chain's target time times the window over
    twenty, and that every network's emission, weights and windows are usable. *)

From Stdlib Require Import Sorted.
From S2P Require Import Prelude Amounts Emission Difficulty.

Local Open Scope Z_scope.

(** Output and range proof types (output_type.rs, range_proof_type.rs). *)
Inductive OutputType := Standard | Coinbase | Burn | ValidatorNodeRegistration | CodeTemplateRegistration.
Inductive RangeProofType := BulletProofPlus | RevealedValue.

Definition output_type_as_byte (t : OutputType) : Z :=
  match t with Standard => 0 | Coinbase => 1 | Burn => 2 | ValidatorNodeRegistration => 3 | CodeTemplateRegistration => 4 end.

Definition output_type_from_byte (value : Z) : option OutputType :=
  match value with
  | 0 => Some Standard | 1 => Some Coinbase | 2 => Some Burn
  | 3 => Some ValidatorNodeRegistration | 4 => Some CodeTemplateRegistration | _ => None
  end.

Definition output_type_all : list OutputType := [Standard; Coinbase; Burn; ValidatorNodeRegistration; CodeTemplateRegistration].

Definition is_sidechain_type (t : OutputType) : bool :=
  match t with ValidatorNodeRegistration | CodeTemplateRegistration | Burn => true | _ => false end.

Definition range_proof_type_as_byte (t : RangeProofType) : Z := match t with BulletProofPlus => 0 | RevealedValue => 1 end.

Definition range_proof_type_from_byte (value : Z) : option RangeProofType :=
  match value with 0 => Some BulletProofPlus | 1 => Some RevealedValue | _ => None end.

Definition range_proof_type_all : list RangeProofType := [BulletProofPlus; RevealedValue].

#[export] Instance OutputType_eq_dec : EqDecision OutputType.
Proof. solve_decision. Defined.
#[export] Instance RangeProofType_eq_dec : EqDecision RangeProofType.
Proof. solve_decision. Defined.
#[export] Instance PowAlgorithm_eq_dec : EqDecision PowAlgorithm.
Proof. solve_decision. Defined.
#[export] Instance PowAlgorithm_countable : Countable PowAlgorithm.
Proof.
  refine (inj_countable' (fun a => match a with Monero => false | Sha3 => true end) (fun b : bool => if b then Sha3 else Monero) _).
  by intros [].
Defined.

(** A range of versions, both ends included. *)
Definition RangeInclusive : Type := Z * Z.
Definition in_range (range : RangeInclusive) (v : Z) : bool := (fst range <=? v) && (v <=? snd range).

Record OutputVersionRange := { range_outputs : RangeInclusive; range_features : RangeInclusive; range_opcode : RangeInclusive }.

Record PowAlgorithmConstants := {
  max_target_time : Z;
  min_difficulty : Difficulty;
  max_difficulty : Difficulty;
  pow_target_time : Z;
}.

Record ConsensusConstants := {
  effective_from_height : Z;
  coinbase_lock_height : Z;
  blockchain_version : Z;
  valid_blockchain_version_range : RangeInclusive;
  future_time_limit : Z;
  difficulty_block_window : Z;
  max_block_transaction_weight : Z;
  median_timestamp_count : Z;
  emission_initial : MicroTari;
  emission_decay : list Z;
  emission_tail : MicroTari;
  max_randomx_seed_height : Z;
  proof_of_work : gmap PowAlgorithm PowAlgorithmConstants;
  faucet_value : MicroTari;
  transaction_weight : TransactionWeight;
  max_script_byte_size : Z;
  input_version_range : RangeInclusive;
  output_version_range : OutputVersionRange;
  kernel_version_range : RangeInclusive;
  permitted_output_types : list OutputType;
  permitted_range_proof_types : list RangeProofType;
  coinbase_output_features_extra_max_length : Z;
  vn_epoch_length : Z;
  vn_validity_period_epochs : Z;
  vn_registration_min_deposit_amount : MicroTari;
  vn_registration_lock_height : Z;
  vn_registration_shuffle_interval : Z;
}.

(** [version_zero]: only version 0 of inputs, outputs, their features, opcodes and kernels. *)
Definition version_zero : RangeInclusive * OutputVersionRange * RangeInclusive :=
  ((0, 0), {| range_outputs := (0, 0); range_features := (0, 0); range_opcode := (0, 0) |}, (0, 0)).

Abbreviation input_versions := (version_zero.1.1).
Abbreviation output_versions := (version_zero.1.2).
Abbreviation kernel_versions := (version_zero.2).

(** ** Derived quantities *)

Definition emission_amounts (self : ConsensusConstants) : MicroTari * list Z * MicroTari :=
  (emission_initial self, emission_decay self, emission_tail self).

(** The encoded default features (version, type, maturity, extra length, no side chain feature,
    range proof type) and the encoded script of one [Nop] (length and opcode). *)
Definition default_features_size : Z := 1 + 1 + 8 + 4 + 1 + 1.
Definition nop_script_size : Z := 1 + 1.

Section Derived.
Context {E : Type}.

Definition coinbase_weight (self : ConsensusConstants) : result E Z :=
  let features_and_scripts_size :=
    round_up_features_and_scripts_size (transaction_weight self) (default_features_size + nop_script_size) in
  weight_calculate (transaction_weight self) 1 0 1 features_and_scripts_size.

Definition get_max_block_weight_excluding_coinbase (self : ConsensusConstants) : result E Z :=
  w ← coinbase_weight self;
  arith 0 U64_MAX (max_block_transaction_weight self - w).

Definition block_height_to_epoch (self : ConsensusConstants) (height : Z) : result E Z :=
  if vn_epoch_length self =? 0 then Panic else Ok (height / vn_epoch_length self).

Definition epoch_to_block_height (self : ConsensusConstants) (epoch : Z) : result E Z :=
  arith 0 U64_MAX (epoch * vn_epoch_length self).

End Derived.

Definition get_pow_algo_count (self : ConsensusConstants) : Z := Z.of_nat (size (proof_of_work self)).

Definition get_diff_target_block_interval (self : ConsensusConstants) (pow_algo : PowAlgorithm) : Z :=
  match proof_of_work self !! pow_algo with Some v => pow_target_time v | None => 0 end.

Definition get_difficulty_max_block_interval (self : ConsensusConstants) (pow_algo : PowAlgorithm) : Z :=
  match proof_of_work self !! pow_algo with Some v => max_target_time v | None => 0 end.

Definition min_pow_difficulty (self : ConsensusConstants) (pow_algo : PowAlgorithm) : Difficulty :=
  match proof_of_work self !! pow_algo with Some v => min_difficulty v | None => 0 end.

Definition max_pow_difficulty (self : ConsensusConstants) (pow_algo : PowAlgorithm) : Difficulty :=
  match proof_of_work self !! pow_algo with Some v => max_difficulty v | None => 0 end.

(** ** The networks *)

Definition ESMERALDA_FAUCET_VALUE : Z := 5025126665742480.
Definition EMISSION_DECAY : list Z := [21; 22; 23; 25; 26; 37].
Definition DIBBLER_DECAY_PARAMS : list Z := [21; 22; 23; 25; 26; 37].
Definition ESMERALDA_DECAY_PARAMS : list Z := [21; 22; 23; 25; 26; 37].

Definition current_permitted_output_types : list OutputType := [Coinbase; Standard; Burn].
Definition current_permitted_range_proof_types : list RangeProofType := [BulletProofPlus].

Definition localnet : list ConsensusConstants :=
  let algos := <[Sha3 := {| max_target_time := 1800; min_difficulty := 1; max_difficulty := 1; pow_target_time := 300 |}]>
    (<[Monero := {| max_target_time := 1200; min_difficulty := 1; max_difficulty := 1; pow_target_time := 200 |}]> ∅) in
  [{| effective_from_height := 0; coinbase_lock_height := 2; blockchain_version := 0;
      valid_blockchain_version_range := (0, 0); future_time_limit := 540; difficulty_block_window := 90;
      max_block_transaction_weight := 19500; median_timestamp_count := 11;
      emission_initial := 18462816327 * uT; emission_decay := ESMERALDA_DECAY_PARAMS;
      emission_tail := 800 * T; max_randomx_seed_height := U64_MAX; proof_of_work := algos;
      faucet_value := ESMERALDA_FAUCET_VALUE; transaction_weight := weight_latest;
      max_script_byte_size := 2048; input_version_range := input_versions;
      output_version_range := output_versions; kernel_version_range := kernel_versions;
      permitted_output_types := output_type_all; permitted_range_proof_types := range_proof_type_all;
      vn_epoch_length := 10; vn_validity_period_epochs := 100; vn_registration_min_deposit_amount := 0;
      vn_registration_lock_height := 0; vn_registration_shuffle_interval := 100;
      coinbase_output_features_extra_max_length := 64 |}].

Definition weatherwax : list ConsensusConstants :=
  let algos := <[Sha3 := {| max_target_time := 1800; min_difficulty := 60000000; max_difficulty := U64_MAX; pow_target_time := 300 |}]>
    (<[Monero := {| max_target_time := 1200; min_difficulty := 60000; max_difficulty := U64_MAX; pow_target_time := 200 |}]> ∅) in
  [{| effective_from_height := 0; coinbase_lock_height := 6; blockchain_version := 1;
      valid_blockchain_version_range := (0, 3); future_time_limit := 540; difficulty_block_window := 90;
      max_block_transaction_weight := 19500; median_timestamp_count := 11;
      emission_initial := 5538846115 * uT; emission_decay := EMISSION_DECAY; emission_tail := 100;
      max_randomx_seed_height := U64_MAX; proof_of_work := algos; faucet_value := (5000 * 4000) * T;
      transaction_weight := weight_latest; max_script_byte_size := 2048;
      input_version_range := input_versions; output_version_range := output_versions;
      kernel_version_range := kernel_versions; permitted_output_types := current_permitted_output_types;
      permitted_range_proof_types := current_permitted_range_proof_types; vn_epoch_length := 60;
      vn_validity_period_epochs := 100; vn_registration_min_deposit_amount := 0;
      vn_registration_lock_height := 0; vn_registration_shuffle_interval := 100;
      coinbase_output_features_extra_max_length := 64 |}].

Definition igor : list ConsensusConstants :=
  let MONERO_SPLIT := 60 in
  let SHA3_SPLIT := 100 - MONERO_SPLIT in
  let MONERO_TARGET_TIME := 20 in
  let SHA3_TARGET_TIME := MONERO_TARGET_TIME * (100 - SHA3_SPLIT) / SHA3_SPLIT in
  let algos := <[Sha3 := {| max_target_time := SHA3_TARGET_TIME * 6; min_difficulty := SHA3_TARGET_TIME * 200000; max_difficulty := U64_MAX; pow_target_time := SHA3_TARGET_TIME |}]>
    (<[Monero := {| max_target_time := MONERO_TARGET_TIME * 6; min_difficulty := MONERO_TARGET_TIME * 300; max_difficulty := U64_MAX; pow_target_time := MONERO_TARGET_TIME |}]> ∅) in
  [{| effective_from_height := 0; coinbase_lock_height := 6; blockchain_version := 0;
      valid_blockchain_version_range := (0, 0); future_time_limit := 540; difficulty_block_window := 90;
      max_block_transaction_weight := 127795; median_timestamp_count := 11;
      emission_initial := 5538846115 * uT; emission_decay := EMISSION_DECAY; emission_tail := 100;
      max_randomx_seed_height := U64_MAX; proof_of_work := algos; faucet_value := 1581548314320266;
      transaction_weight := weight_latest; max_script_byte_size := 2048;
      input_version_range := input_versions; output_version_range := output_versions;
      kernel_version_range := kernel_versions; permitted_output_types := output_type_all;
      permitted_range_proof_types := range_proof_type_all; vn_epoch_length := 10;
      vn_validity_period_epochs := 3; vn_registration_min_deposit_amount := 0;
      vn_registration_lock_height := 0; vn_registration_shuffle_interval := 100;
      coinbase_output_features_extra_max_length := 64 |}].

Definition dibbler : list ConsensusConstants :=
  let algos := <[Sha3 := {| max_target_time := 1800; min_difficulty := 60000000; max_difficulty := U64_MAX; pow_target_time := 300 |}]>
    (<[Monero := {| max_target_time := 1200; min_difficulty := 60000; max_difficulty := U64_MAX; pow_target_time := 200 |}]> ∅) in
  [{| effective_from_height := 0; coinbase_lock_height := 360; blockchain_version := 2;
      valid_blockchain_version_range := (0, 3); future_time_limit := 540; difficulty_block_window := 90;
      max_block_transaction_weight := 127795; median_timestamp_count := 11;
      emission_initial := 18462816327 * uT; emission_decay := DIBBLER_DECAY_PARAMS;
      emission_tail := 800 * T; max_randomx_seed_height := U64_MAX; proof_of_work := algos;
      faucet_value := (10 * 4000) * T; transaction_weight := weight_latest; max_script_byte_size := 2048;
      input_version_range := input_versions; output_version_range := output_versions;
      kernel_version_range := kernel_versions; permitted_output_types := current_permitted_output_types;
      permitted_range_proof_types := current_permitted_range_proof_types; vn_epoch_length := 60;
      vn_validity_period_epochs := 100; vn_registration_min_deposit_amount := 0;
      vn_registration_lock_height := 0; vn_registration_shuffle_interval := 100;
      coinbase_output_features_extra_max_length := 64 |};
   {| effective_from_height := 23000; coinbase_lock_height := 360; blockchain_version := 3;
      valid_blockchain_version_range := (0, 3); future_time_limit := 540; difficulty_block_window := 90;
      max_block_transaction_weight := 127795; median_timestamp_count := 11;
      emission_initial := 18462816327 * uT; emission_decay := DIBBLER_DECAY_PARAMS;
      emission_tail := 800 * T; max_randomx_seed_height := U64_MAX; proof_of_work := algos;
      faucet_value := (10 * 4000) * T; transaction_weight := weight_latest; max_script_byte_size := 2048;
      input_version_range := input_versions; output_version_range := output_versions;
      kernel_version_range := kernel_versions; permitted_output_types := current_permitted_output_types;
      permitted_range_proof_types := current_permitted_range_proof_types; vn_epoch_length := 60;
      vn_validity_period_epochs := 100; vn_registration_min_deposit_amount := 0;
      vn_registration_lock_height := 0; vn_registration_shuffle_interval := 100;
      coinbase_output_features_extra_max_length := 64 |}].

Definition esmeralda : list ConsensusConstants :=
  let algos := <[Sha3 := {| max_target_time := 1800; min_difficulty := 60000000; max_difficulty := U64_MAX; pow_target_time := 300 |}]>
    (<[Monero := {| max_target_time := 1200; min_difficulty := 60000; max_difficulty := U64_MAX; pow_target_time := 200 |}]> ∅) in
  [{| effective_from_height := 0; coinbase_lock_height := 6; blockchain_version := 0;
      valid_blockchain_version_range := (0, 0); future_time_limit := 540; difficulty_block_window := 90;
      max_block_transaction_weight := 127795; median_timestamp_count := 11;
      emission_initial := 18462816327 * uT; emission_decay := ESMERALDA_DECAY_PARAMS;
      emission_tail := 800 * T; max_randomx_seed_height := 3000; proof_of_work := algos;
      faucet_value := ESMERALDA_FAUCET_VALUE; transaction_weight := weight_latest;
      max_script_byte_size := 2048; input_version_range := input_versions;
      output_version_range := output_versions; kernel_version_range := kernel_versions;
      permitted_output_types := current_permitted_output_types;
      permitted_range_proof_types := current_permitted_range_proof_types; vn_epoch_length := 60;
      vn_validity_period_epochs := 100; vn_registration_min_deposit_amount := 0;
      vn_registration_lock_height := 0; vn_registration_shuffle_interval := 100;
      coinbase_output_features_extra_max_length := 64 |}].

Definition stagenet : list ConsensusConstants :=
  let algos := <[Sha3 := {| max_target_time := 1800; min_difficulty := 60000000; max_difficulty := U64_MAX; pow_target_time := 300 |}]>
    (<[Monero := {| max_target_time := 1200; min_difficulty := 60000; max_difficulty := U64_MAX; pow_target_time := 200 |}]> ∅) in
  [{| effective_from_height := 0; coinbase_lock_height := 360; blockchain_version := 0;
      valid_blockchain_version_range := (0, 0); future_time_limit := 540; difficulty_block_window := 90;
      max_block_transaction_weight := 127795; median_timestamp_count := 11;
      emission_initial := 18462816327 * uT; emission_decay := EMISSION_DECAY; emission_tail := 800 * T;
      max_randomx_seed_height := 3000; proof_of_work := algos; faucet_value := 0;
      transaction_weight := weight_latest; max_script_byte_size := 2048;
      input_version_range := input_versions; output_version_range := output_versions;
      kernel_version_range := kernel_versions; permitted_output_types := current_permitted_output_types;
      permitted_range_proof_types := current_permitted_range_proof_types; vn_epoch_length := 60;
      vn_validity_period_epochs := 100; vn_registration_min_deposit_amount := 0;
      vn_registration_lock_height := 0; vn_registration_shuffle_interval := 100;
      coinbase_output_features_extra_max_length := 64 |}].

Definition nextnet : list ConsensusConstants :=
  let algos := <[Sha3 := {| max_target_time := 1800; min_difficulty := 60000000; max_difficulty := U64_MAX; pow_target_time := 300 |}]>
    (<[Monero := {| max_target_time := 1200; min_difficulty := 60000; max_difficulty := U64_MAX; pow_target_time := 200 |}]> ∅) in
  [{| effective_from_height := 0; coinbase_lock_height := 360; blockchain_version := 0;
      valid_blockchain_version_range := (0, 0); future_time_limit := 540; difficulty_block_window := 90;
      max_block_transaction_weight := 127795; median_timestamp_count := 11;
      emission_initial := 18462816327 * uT; emission_decay := EMISSION_DECAY; emission_tail := 800 * T;
      max_randomx_seed_height := 3000; proof_of_work := algos; faucet_value := 0;
      transaction_weight := weight_latest; max_script_byte_size := 2048;
      input_version_range := input_versions; output_version_range := output_versions;
      kernel_version_range := kernel_versions; permitted_output_types := current_permitted_output_types;
      permitted_range_proof_types := current_permitted_range_proof_types; vn_epoch_length := 60;
      vn_validity_period_epochs := 100; vn_registration_min_deposit_amount := 0;
      vn_registration_lock_height := 0; vn_registration_shuffle_interval := 100;
      coinbase_output_features_extra_max_length := 64 |}].

Definition mainnet : list ConsensusConstants :=
  let algos := <[Sha3 := {| max_target_time := 1800; min_difficulty := 40000; max_difficulty := U64_MAX; pow_target_time := 300 |}]>
    (<[Monero := {| max_target_time := 800; min_difficulty := 70000000; max_difficulty := U64_MAX; pow_target_time := 200 |}]> ∅) in
  [{| effective_from_height := 0; coinbase_lock_height := 1; blockchain_version := 1;
      valid_blockchain_version_range := (0, 0); future_time_limit := 540; difficulty_block_window := 90;
      max_block_transaction_weight := 19500; median_timestamp_count := 11; emission_initial := 10000000;
      emission_decay := EMISSION_DECAY; emission_tail := 100; max_randomx_seed_height := U64_MAX;
      proof_of_work := algos; faucet_value := 0; transaction_weight := weight_latest;
      max_script_byte_size := 2048; input_version_range := input_versions;
      output_version_range := output_versions; kernel_version_range := kernel_versions;
      permitted_output_types := current_permitted_output_types;
      permitted_range_proof_types := current_permitted_range_proof_types; vn_epoch_length := 60;
      vn_validity_period_epochs := 100; vn_registration_min_deposit_amount := 0;
      vn_registration_lock_height := 0; vn_registration_shuffle_interval := 100;
      coinbase_output_features_extra_max_length := 64 |}].

(** The networks and their bytes (configuration/network.rs). *)
Inductive Network := MainNet | StageNet | NextNet | LocalNet | Ridcully | Stibbons | Weatherwax | Igor | Dibbler | Esmeralda.

#[export] Instance Network_eq_dec : EqDecision Network.
Proof. solve_decision. Defined.

Definition network_as_byte (n : Network) : Z :=
  match n with
  | MainNet => 0x00 | StageNet => 0x01 | NextNet => 0x02 | LocalNet => 0x10 | Ridcully => 0x21 | Stibbons => 0x22
  | Weatherwax => 0xa3 | Igor => 0x24 | Dibbler => 0x25 | Esmeralda => 0x26
  end.

Definition network_try_from (v : Z) : option Network :=
  if v =? network_as_byte MainNet then Some MainNet
  else if v =? network_as_byte StageNet then Some StageNet
  else if v =? network_as_byte NextNet then Some NextNet
  else if v =? network_as_byte LocalNet then Some LocalNet
  else if v =? network_as_byte Ridcully then Some Ridcully
  else if v =? network_as_byte Stibbons then Some Stibbons
  else if v =? network_as_byte Weatherwax then Some Weatherwax
  else if v =? network_as_byte Igor then Some Igor
  else if v =? network_as_byte Dibbler then Some Dibbler
  else if v =? network_as_byte Esmeralda then Some Esmeralda
  else None.

(** [NetworkConsensus::create_consensus_constants]; two retired networks abort. *)
Definition create_consensus_constants {E} (n : Network) : result E (list ConsensusConstants) :=
  match n with
  | MainNet => Ok mainnet
  | StageNet => Ok stagenet
  | NextNet => Ok nextnet
  | LocalNet => Ok localnet
  | Dibbler => Ok dibbler
  | Igor => Ok igor
  | Weatherwax => Ok weatherwax
  | Esmeralda => Ok esmeralda
  | Ridcully => Panic
  | Stibbons => Panic
  end.

(** ** What holds of the networks *)

(** The chain's target time: the rate of blocks is the sum of the rates of both algorithms. *)
Definition chain_target_time (c : ConsensusConstants) : Z :=
  let m := get_diff_target_block_interval c Monero in
  let s := get_diff_target_block_interval c Sha3 in
  m * s / (m + s).

Definition emission_of (c : ConsensusConstants) : EmissionSchedule :=
  {| initial := emission_initial c; decay := emission_decay c; tail := emission_tail c |}.

(** Constants a node can run with: a decaying emission, room for transactions in a block, and for
    both algorithms a difficulty window that never divides by zero and admits a difficulty. *)
Definition usable (c : ConsensusConstants) : Prop :=
  schedule_wf (emission_of c) /\
  (exists w, @get_max_block_weight_excluding_coinbase unit c = Ok w /\ 0 < w < max_block_transaction_weight c) /\
  get_pow_algo_count c = 2 /\
  (forall algo, (exists window, @window_new unit (difficulty_block_window c) (get_diff_target_block_interval c algo)
      (get_difficulty_max_block_interval c algo) = Ok window) /\
    0 < get_diff_target_block_interval c algo <= get_difficulty_max_block_interval c algo /\
    1 <= min_pow_difficulty c algo /\ min_pow_difficulty c algo <= max_pow_difficulty c algo <= U64_MAX) /\
  0 < vn_epoch_length c.

(** Constants sorted by the height they are in force from, the first from the genesis block. *)
Definition constants_sorted (cs : list ConsensusConstants) : Prop :=
  match cs with [] => False | c :: _ => effective_from_height c = 0 end /\
  StronglySorted (fun c c' => effective_from_height c < effective_from_height c') cs.

(** A decision procedure for [usable]. *)
Definition algo_check (c : ConsensusConstants) (algo : PowAlgorithm) : bool :=
  (0 <? get_diff_target_block_interval c algo) && (get_diff_target_block_interval c algo <=? get_difficulty_max_block_interval c algo) &&
  (1 <=? min_pow_difficulty c algo) && (min_pow_difficulty c algo <=? max_pow_difficulty c algo) && (max_pow_difficulty c algo <=? U64_MAX).

Definition usable_check (c : ConsensusConstants) : bool :=
  bool_decide (schedule_wf (emission_of c)) &&
  match @get_max_block_weight_excluding_coinbase unit c with Ok w => (0 <? w) && (w <? max_block_transaction_weight c) | _ => false end &&
  (get_pow_algo_count c =? 2) && (0 <? difficulty_block_window c) && (difficulty_block_window c <? U32_MAX) &&
  algo_check c Monero && algo_check c Sha3 && (0 <? vn_epoch_length c).

Lemma usable_check_sound c : usable_check c = true -> usable c.
Proof.
  unfold usable_check, usable, algo_check. rewrite !andb_true_iff, bool_decide_eq_true, !Z.ltb_lt, Z.eqb_eq, !Z.leb_le. intros Hall.
  destruct (get_max_block_weight_excluding_coinbase c) as [w| |] eqn:Hw; [|naive_solver..]. rewrite andb_true_iff, !Z.ltb_lt in Hall.
  split; [naive_solver|]. split; [exists w; naive_solver|]. split; [naive_solver|]. split; [|naive_solver].
  intros algo. split.
  - unfold window_new, lwma_new. destruct (Z.ltb_spec 0 (difficulty_block_window c)); [|lia]. rewrite arith_ok; [by eexists|].
    assert (U32_MAX < USIZE_MAX) by done. lia.
  - destruct algo; lia.
Qed.

(** Every network that is still supported runs on constants that are usable: the emission
    decays, a block has room for transactions next to its coinbase, and both proof of work
    algorithms have a difficulty window and a range of difficulties. *)
Theorem network_constants_usable (n : Network) (cs : list ConsensusConstants) :
  @create_consensus_constants unit n = Ok cs -> constants_sorted cs /\ Forall usable cs.
Proof.
  intros Hn. split.
  - destruct n; injection Hn as <- || discriminate; (split; [done|]); repeat constructor; done.
  - apply Forall_forall. intros c Hc. apply usable_check_sound. revert c Hc. apply Forall_forall.
    destruct n; injection Hn as <- || discriminate; repeat constructor.
Qed.

Lemma network_constants_usable_witness : constants_sorted mainnet /\ Forall usable mainnet.
Proof. by apply (network_constants_usable MainNet). Defined.

(** The claims the comments of the source make about a network. *)
Definition six_target_times (c : ConsensusConstants) (algo : PowAlgorithm) : bool :=
  get_difficulty_max_block_interval c algo =? 6 * get_diff_target_block_interval c algo.
Definition time_limit_follows_window (c : ConsensusConstants) : bool :=
  future_time_limit c =? chain_target_time c * difficulty_block_window c / 20.
Definition accepts_own_version (c : ConsensusConstants) : bool :=
  in_range (valid_blockchain_version_range c) (blockchain_version c).

(** The rules the comments state for the constants hold on every network, with three exceptions:
    on MainNet the maximum solve time of Monero blocks is four target times, not six, and the
    network does not accept blocks of its own version; on Igor the future time limit is not the
    target time times the window over twenty. *)
Theorem network_constants_rules (n : Network) (cs : list ConsensusConstants) (c : ConsensusConstants) :
  @create_consensus_constants unit n = Ok cs -> c ∈ cs ->
  (forall algo, six_target_times c algo = bool_decide (~ (n = MainNet /\ algo = Monero))) /\
  accepts_own_version c = bool_decide (n <> MainNet) /\ time_limit_follows_window c = bool_decide (n <> Igor).
Proof.
  intros Hn Hc. set (P c := forall algo, six_target_times c algo = bool_decide (~ (n = MainNet /\ algo = Monero)) /\
    accepts_own_version c = bool_decide (n <> MainNet) /\ time_limit_follows_window c = bool_decide (n <> Igor)).
  assert (Forall P cs) as HP.
  { destruct n; injection Hn as <- || discriminate; repeat (apply Forall_cons_2; [intros []; (split; [|split]); by vm_compute|]); apply Forall_nil_2. }
  rewrite Forall_forall in HP. specialize (HP c Hc). split; [intros algo; apply (HP algo)|apply (HP Monero)].
Qed.

Lemma network_constants_rules_witness : exists c, (c ∈ mainnet) /\ accepts_own_version c = false /\ six_target_times c Monero = false.
Proof.
  eexists. split; [left|]. match goal with |- accepts_own_version ?c = false /\ _ =>
    destruct (network_constants_rules MainNet mainnet c eq_refl ltac:(left)) as (Hs & -> & _) end.
  split; [done|]. by rewrite Hs.
Defined.

(** ** Epochs and bytes *)

Lemma epoch_of_height c h : 0 < vn_epoch_length c -> is_u64 h ->
  exists e start, @block_height_to_epoch unit c h = Ok e /\ @epoch_to_block_height unit c e = Ok start /\ start <= h < start + vn_epoch_length c.
Proof.
  unfold is_u64. intros Hl Hh. unfold block_height_to_epoch, epoch_to_block_height. destruct (Z.eqb_spec (vn_epoch_length c) 0); [lia|].
  pose proof (Z.mul_div_le h (vn_epoch_length c) Hl). pose proof (Z.mod_pos_bound h _ Hl). pose proof (Z_div_mod_eq_full h (vn_epoch_length c)).
  assert (0 <= h / vn_epoch_length c) by (apply Z.div_pos; lia). eexists _, _. split; [done|]. rewrite arith_ok by nia. split; [done|lia].
Qed.

Lemma network_byte_roundtrip n : network_try_from (network_as_byte n) = Some n.
Proof. by destruct n. Qed.

Lemma output_type_roundtrip t : output_type_from_byte (output_type_as_byte t) = Some t.
Proof. by destruct t. Qed.

Lemma range_proof_type_roundtrip t : range_proof_type_from_byte (range_proof_type_as_byte t) = Some t.
Proof. by destruct t. Qed.
