(* ===== verification/ConsensusManager.v ===== *)
(** * The consensus manager and the strength of chains

    The constants in force at a height (consensus/consensus_manager.rs), the difficulty a chain of
    headers accumulates (blocks/accumulated_data.rs) and the order in which competing chains are
    preferred (consensus/chain_strength_comparer.rs). *)

From Stdlib Require Import Sorted.
From S2P Require Import Prelude Amounts Emission Difficulty ConsensusConstants.

Local Open Scope Z_scope.

(** ** Chain strength *)

Section Accumulated.
Context {HashOutput BlindingFactor : Type} `{EqDecision HashOutput} (offset_add : BlindingFactor -> BlindingFactor -> BlindingFactor).

Record BlockHeaderAccumulatedData := {
  acc_hash : HashOutput;
  total_kernel_offset : BlindingFactor;
  achieved_difficulty : Difficulty;
  total_accumulated_difficulty : Z;
  accumulated_monero_difficulty : Difficulty;
  accumulated_sha_difficulty : Difficulty;
  target_difficulty : Difficulty;
}.

Record BlockHeaderAccumulatedDataBuilder := {
  previous_accum : BlockHeaderAccumulatedData;
  builder_hash : option HashOutput;
  current_total_kernel_offset : option BlindingFactor;
  current_achieved_target : option AchievedTargetDifficulty;
}.

Inductive BlockError := BuilderMissingField (field : string) | BuilderInvalidValue (field : string).

Definition from_previous (previous : BlockHeaderAccumulatedData) : BlockHeaderAccumulatedDataBuilder :=
  {| previous_accum := previous; builder_hash := None; current_total_kernel_offset := None; current_achieved_target := None |}.

Definition with_hash (hash : HashOutput) (self : BlockHeaderAccumulatedDataBuilder) : BlockHeaderAccumulatedDataBuilder :=
  {| previous_accum := previous_accum self; builder_hash := Some hash; current_total_kernel_offset := current_total_kernel_offset self;
     current_achieved_target := current_achieved_target self |}.

Definition with_total_kernel_offset (offset : BlindingFactor) (self : BlockHeaderAccumulatedDataBuilder) : BlockHeaderAccumulatedDataBuilder :=
  {| previous_accum := previous_accum self; builder_hash := builder_hash self; current_total_kernel_offset := Some offset;
     current_achieved_target := current_achieved_target self |}.

Definition with_achieved_target_difficulty (achieved_target : AchievedTargetDifficulty) (self : BlockHeaderAccumulatedDataBuilder)
    : BlockHeaderAccumulatedDataBuilder :=
  {| previous_accum := previous_accum self; builder_hash := builder_hash self;
     current_total_kernel_offset := current_total_kernel_offset self; current_achieved_target := Some achieved_target |}.

Definition accumulated_build (self : BlockHeaderAccumulatedDataBuilder) : result BlockError BlockHeaderAccumulatedData :=
  let previous := previous_accum self in
  hash ← ok_or (builder_hash self) (BuilderMissingField "hash");
  if decide (hash = acc_hash previous) then Err (BuilderInvalidValue "hash")
  else
    achieved_target ← ok_or (current_achieved_target self) (BuilderMissingField "Current achieved difficulty");
    '(monero_diff, sha_diff) ←
      match pow_algo achieved_target with
      | Monero =>
          m ← arith 0 U64_MAX (accumulated_monero_difficulty previous + achieved achieved_target);
          Ok (m, accumulated_sha_difficulty previous)
      | Sha3 =>
          s ← arith 0 U64_MAX (accumulated_sha_difficulty previous + achieved achieved_target);
          Ok (accumulated_monero_difficulty previous, s)
      end;
    offset ← ok_or ((fun o => offset_add (total_kernel_offset previous) o) <$> current_total_kernel_offset self)
      (BuilderMissingField "total_kernel_offset");
    total ← arith 0 U128_MAX (monero_diff * sha_diff);
    Ok {| acc_hash := hash; total_kernel_offset := offset; achieved_difficulty := achieved achieved_target;
          total_accumulated_difficulty := total; accumulated_monero_difficulty := monero_diff;
          accumulated_sha_difficulty := sha_diff; target_difficulty := target achieved_target |}.

(** What the comparers look at: the height of a header and its accumulated data. *)
Record ChainHeader := { header_height : Z; accumulated_data : BlockHeaderAccumulatedData }.

Definition Comparer : Type := ChainHeader -> ChainHeader -> comparison.

Definition AccumulatedDifficultySquaredComparer : Comparer := fun a b =>
  total_accumulated_difficulty (accumulated_data a) ?= total_accumulated_difficulty (accumulated_data b).
Definition MoneroDifficultyComparer : Comparer := fun a b =>
  accumulated_monero_difficulty (accumulated_data a) ?= accumulated_monero_difficulty (accumulated_data b).
Definition Sha3DifficultyComparer : Comparer := fun a b =>
  accumulated_sha_difficulty (accumulated_data a) ?= accumulated_sha_difficulty (accumulated_data b).
Definition HeightComparer : Comparer := fun a b => header_height a ?= header_height b.

Definition ThenComparer (before after : Comparer) : Comparer := fun a b =>
  match before a b with Eq => after a b | Lt => Lt | Gt => Gt end.

(** The builder: a comparer so far, or none. *)
Definition ChainStrengthComparerBuilder : Type := option Comparer.

Definition add_comparer_as_then (inner : Comparer) (self : ChainStrengthComparerBuilder) : ChainStrengthComparerBuilder :=
  match self with Some t => Some (ThenComparer t inner) | None => Some inner end.
Definition strongest_chain : ChainStrengthComparerBuilder := None.
Definition by_accumulated_difficulty := add_comparer_as_then AccumulatedDifficultySquaredComparer.
Definition by_monero_difficulty := add_comparer_as_then MoneroDifficultyComparer.
Definition by_sha3_difficulty := add_comparer_as_then Sha3DifficultyComparer.
Definition by_height := add_comparer_as_then HeightComparer.
Definition comparer_build {E} (self : ChainStrengthComparerBuilder) : result E Comparer := unwrap self.

(** The comparer a consensus manager has unless another one is given. *)
Definition default_comparer {E} : result E Comparer :=
  comparer_build (by_sha3_difficulty (by_monero_difficulty (by_height (by_accumulated_difficulty strongest_chain)))).

End Accumulated.
Arguments ChainHeader HashOutput BlindingFactor : clear implicits.

(** ** The manager *)

Record ConsensusManager := {
  consensus_constants_list : list ConsensusConstants;
  emission : EmissionSchedule;
}.

Section Manager.
Context {E : Type}.

(** [ConsensusManagerBuilder::build], from the constants added to the builder. *)
Definition manager_build (network : Network) (constants : list ConsensusConstants) : result E ConsensusManager :=
  constants ← match constants with [] => create_consensus_constants network | _ => Ok constants end;
  first ← unwrap (head constants);
  emission ← schedule_new (emission_initial first) (emission_decay first) (emission_tail first);
  Ok {| consensus_constants_list := constants; emission := emission |}.

(** The loop of [consensus_constants]. *)
Fixpoint constants_loop (height : Z) (current : ConsensusConstants) (cs : list ConsensusConstants) : ConsensusConstants :=
  match cs with
  | [] => current
  | c :: cs => if effective_from_height c >? height then current else constants_loop height c cs
  end.

Definition consensus_constants (self : ConsensusManager) (height : Z) : result E ConsensusConstants :=
  first ← unwrap (head (consensus_constants_list self));
  Ok (constants_loop height first (consensus_constants_list self)).

Definition get_block_reward_at (fuel : nat) (self : ConsensusManager) (height : Z) : option (result E MicroTari) :=
  block_reward fuel (emission self) height.

Definition get_total_emission_at (fuel : nat) (self : ConsensusManager) (height : Z) : option (result E MicroTari) :=
  supply_at_block fuel (emission self) height.

Definition calculate_coinbase_and_fees (fuel : nat) (self : ConsensusManager) (height : Z) (kernel_fees : list MicroTari)
    : option (result E MicroTari) :=
  coinbase ← block_reward fuel (emission self) height;
  Some (coinbase ← coinbase; foldM mt_add kernel_fees coinbase).

Definition new_target_difficulty (self : ConsensusManager) (pow_algo : PowAlgorithm) (height : Z) : result E LinearWeightedMovingAverage :=
  constants ← consensus_constants self height;
  block_window ← unwrap (checked 0 USIZE_MAX (difficulty_block_window constants));
  window_new block_window (get_diff_target_block_interval constants pow_algo) (get_difficulty_max_block_interval constants pow_algo).

End Manager.

(** ** Extending a chain makes it stronger *)

Section Strength.
Context {HashOutput BlindingFactor : Type} `{EqDecision HashOutput} (offset_add : BlindingFactor -> BlindingFactor -> BlindingFactor).
Implicit Types d : @BlockHeaderAccumulatedData HashOutput BlindingFactor.

(** The accumulated difficulties are machine integers and their product is the total. *)
Definition accumulated_ok d : Prop :=
  is_u64 (accumulated_monero_difficulty d) /\ is_u64 (accumulated_sha_difficulty d) /\
  total_accumulated_difficulty d = accumulated_monero_difficulty d * accumulated_sha_difficulty d.

(** The builder for the header after the one with data [d]. *)
Definition next_builder d (hash : HashOutput) (offset : BlindingFactor) (achieved_target : AchievedTargetDifficulty) :=
  with_achieved_target_difficulty achieved_target (with_total_kernel_offset offset (with_hash hash (from_previous d))).

(** The difficulties after a block with the given proof of work. *)
Definition new_monero d (t : AchievedTargetDifficulty) : Z :=
  accumulated_monero_difficulty d + match pow_algo t with Monero => achieved t | Sha3 => 0 end.
Definition new_sha d (t : AchievedTargetDifficulty) : Z :=
  accumulated_sha_difficulty d + match pow_algo t with Monero => 0 | Sha3 => achieved t end.

Lemma product_fits m s : is_u64 m -> is_u64 s -> 0 <= m * s <= U128_MAX.
Proof.
  unfold is_u64. intros Hm Hs. split; [lia|]. transitivity (U64_MAX * U64_MAX); [|done]. apply Z.mul_le_mono_nonneg; lia.
Qed.

Lemma accumulated_build_ok d hash offset t : accumulated_ok d -> hash <> acc_hash d -> is_u64 (new_monero d t) -> is_u64 (new_sha d t) ->
  exists d', accumulated_build offset_add (next_builder d hash offset t) = Ok d' /\ accumulated_ok d' /\
    accumulated_monero_difficulty d' = new_monero d t /\ accumulated_sha_difficulty d' = new_sha d t /\ acc_hash d' = hash.
Proof.
  intros (Hm & Hs & Ht) Hh Hm' Hs'. unfold accumulated_build, next_builder, new_monero, new_sha in *. cbn.
  rewrite decide_False by done. cbn. destruct (pow_algo t); cbn; rewrite arith_ok by done; cbn;
    rewrite ?Z.add_0_r in *; rewrite arith_ok by (by apply product_fits); cbn; eexists; (split; [done|]); done.
Qed.

(** A header that extends a chain is always preferred to the header it extends, whatever the
    algorithm and the achieved difficulty. The accumulated difficulties cannot overflow their
    product, so the only way for the data not to be built is a sum beyond 64 bits. *)
Theorem extension_is_stronger d hash offset t h cmp :
  accumulated_ok d -> hash <> acc_hash d -> 0 <= achieved t -> is_u64 (new_monero d t) -> is_u64 (new_sha d t) ->
  @default_comparer HashOutput BlindingFactor unit = Ok cmp ->
  exists d', accumulated_build offset_add (next_builder d hash offset t) = Ok d' /\ accumulated_ok d' /\
    cmp {| header_height := h + 1; accumulated_data := d' |} {| header_height := h; accumulated_data := d |} = Gt.
Proof.
  intros Hok Hh Ha Hm Hs [= <-]. destruct (accumulated_build_ok d hash offset t Hok Hh Hm Hs) as (d' & Hb & Hok' & Hm' & Hs' & _).
  exists d'. split; [done|]. split; [done|]. unfold ThenComparer, AccumulatedDifficultySquaredComparer, HeightComparer. cbn [header_height accumulated_data].
  destruct Hok as (Hmu & Hsu & Ht), Hok' as (_ & _ & Ht'). assert (total_accumulated_difficulty d <= total_accumulated_difficulty d') as Hle.
  { rewrite Ht, Ht', Hm', Hs'. unfold is_u64, new_monero, new_sha in *. apply Z.mul_le_mono_nonneg; destruct (pow_algo t); lia. }
  rewrite (proj2 (Z.compare_gt_iff (h + 1) h)) by lia.
  destruct (Z.compare_spec (total_accumulated_difficulty d') (total_accumulated_difficulty d)); [done|lia|done].
Qed.

(** The four quantities a header is compared by, in order. *)
Definition strength (a : ChainHeader HashOutput BlindingFactor) : list Z :=
  [total_accumulated_difficulty (accumulated_data a); header_height a;
   accumulated_monero_difficulty (accumulated_data a); accumulated_sha_difficulty (accumulated_data a)].

Fixpoint lex (l l' : list Z) : comparison :=
  match l, l' with
  | x :: l, y :: l' => match x ?= y with Eq => lex l l' | c => c end
  | _, _ => Eq
  end.

Lemma lex_opp l l' : length l = length l' -> lex l' l = CompOpp (lex l l').
Proof.
  revert l'. induction l as [|x l IH]; intros [|y l'] [=]; [done|]. cbn. rewrite (Z.compare_antisym x y). destruct (x ?= y); cbn; auto.
Qed.

Lemma lex_eq l l' : length l = length l' -> lex l l' = Eq -> l = l'.
Proof.
  revert l'. induction l as [|x l IH]; intros [|y l'] [=]; [done|]. cbn. destruct (Z.compare_spec x y); [|done..]. intros. f_equal; auto.
Qed.

Lemma lex_trans l1 l2 l3 : length l1 = length l2 -> length l2 = length l3 -> lex l1 l2 = Lt -> lex l2 l3 <> Gt -> lex l1 l3 = Lt.
Proof.
  revert l2 l3. induction l1 as [|x l1 IH]; intros [|y l2] [|z l3] [=] [=]; [done|]. cbn.
  destruct (Z.compare_spec x y) as [<-|Hxy|Hxy]; [|intros _|done]; destruct (Z.compare_spec x z) as [<-|Hxz|Hxz]; try done.
  - intros Hlt Hgt. by eapply IH.
  - destruct (Z.compare_spec y x); [lia|lia|done].
  - destruct (Z.compare_spec y z); [lia|lia|done].
Qed.

Lemma lex_le_trans l1 l2 l3 : length l1 = length l2 -> length l2 = length l3 -> lex l1 l2 <> Gt -> lex l2 l3 = Lt -> lex l1 l3 = Lt.
Proof. intros H12 H23 Hle Hlt. destruct (lex l1 l2) eqn:E; [|apply (lex_trans _ l2); by rewrite ?Hlt|done]. by rewrite (lex_eq l1 l2). Qed.

Lemma default_comparer_lex (cmp : Comparer) : @default_comparer HashOutput BlindingFactor unit = Ok cmp -> forall a b, cmp a b = lex (strength a) (strength b).
Proof.
  intros [= <-] a b. unfold ThenComparer, AccumulatedDifficultySquaredComparer, HeightComparer, MoneroDifficultyComparer, Sha3DifficultyComparer. cbn.
  repeat case_match; congruence.
Qed.

(** The default rule by which a node prefers chains is the lexicographic order on total
    difficulty, height, Monero difficulty and SHA3 difficulty: it is antisymmetric and transitive,
    and two headers tie only if they agree on all four. *)
Theorem default_comparer_order (cmp : Comparer) :
  @default_comparer HashOutput BlindingFactor unit = Ok cmp ->
  (forall a b, cmp a b = lex (strength a) (strength b)) /\ (forall a b, cmp b a = CompOpp (cmp a b)) /\
  (forall a b, cmp a b = Eq <-> strength a = strength b) /\
  (forall a b c, cmp a b = Lt -> cmp b c <> Gt -> cmp a c = Lt).
Proof.
  intros Hcmp. pose proof (default_comparer_lex cmp Hcmp) as Heq. split; [done|]. setoid_rewrite Heq. split; [intros; by apply lex_opp|]. split.
  - intros a b. split; [by apply lex_eq|]. intros ->. cbn. by rewrite !Z.compare_refl.
  - intros a b c. by apply lex_trans.
Qed.

End Strength.

(** ** The constants in force *)

Lemma constants_loop_spec h cur cs :
  effective_from_height cur <= h -> StronglySorted (fun c c' => effective_from_height c < effective_from_height c') cs ->
  Forall (fun c => effective_from_height cur <= effective_from_height c) cs ->
  let c := constants_loop h cur cs in
  (c ∈ cur :: cs) /\ effective_from_height c <= h /\ effective_from_height cur <= effective_from_height c /\
  Forall (fun c' => effective_from_height c' <= h -> effective_from_height c' <= effective_from_height c) cs.
Proof.
  revert cur. induction cs as [|c cs IH]; intros cur Hcur Hs Hf; cbn; [split; [left|done]|].
  apply StronglySorted_inv in Hs as [Hs Hc]. apply Forall_cons in Hf as [Hf1 Hf2]. rewrite Z.gtb_ltb. destruct (Z.ltb_spec h (effective_from_height c)) as [Hlt|Hle].
  - split; [left|]. split; [done|]. split; [lia|]. apply Forall_cons_2; [lia|]. eapply Forall_impl; [exact Hc|]. cbn. lia.
  - destruct (IH c Hle Hs) as (H1 & H2 & H3 & H4); [eapply Forall_impl; [exact Hc|cbn; lia]|].
    split; [by right|]. split; [done|]. split; [lia|]. by apply Forall_cons_2.
Qed.

(** For constants sorted by height from the genesis block on, as every network has them, the
    manager uses at each height the last constants that have come into force. *)
Theorem consensus_constants_in_force {E} (self : ConsensusManager) (height : Z) :
  constants_sorted (consensus_constants_list self) -> 0 <= height ->
  exists c, @consensus_constants E self height = Ok c /\ (c ∈ consensus_constants_list self) /\ effective_from_height c <= height /\
    forall c', c' ∈ consensus_constants_list self -> effective_from_height c' <= height -> effective_from_height c' <= effective_from_height c.
Proof.
  intros [H0 Hs] Hh. unfold consensus_constants. destruct (consensus_constants_list self) as [|c cs]; [done|]. cbn.
  pose proof (StronglySorted_inv Hs) as [_ Hc]. rewrite Z.gtb_ltb. destruct (Z.ltb_spec height (effective_from_height c)); [lia|].
  destruct (constants_loop_spec height c cs) as (H1 & H2 & H3 & H4); [done|by apply StronglySorted_inv in Hs as []|eapply Forall_impl; [exact Hc|cbn; lia]|].
  eexists. split; [done|]. split; [done|]. split; [done|]. rewrite Forall_forall in H4. intros c' [->|Hin]%elem_of_cons; [done|]. by apply H4.
Qed.

(** ** The emission of the networks *)

(** What is checked of the constants of a network: every shift is at least 21, the initial emission divided by the decay is at most 21.001 billion Tari, and
    the rest fits in 64 bits for [2^34] blocks. *)
Definition emission_check (S0 : EmissionSchedule) : bool :=
  let K := 2 ^ 63 / decay_value (decay S0) in
  bool_decide (schedule_wf S0) && (tail S0 <=? initial S0) && (2 ^ 21 - 1 <=? initial S0) && forallb (fun k => 21 <=? k) (decay S0) && (0 <? decay_value (decay S0)) &&
  (decay_value (decay S0) * 2 ^ 21 <? 2 * 2 ^ 63) && (Z.of_nat (length (decay S0)) * (1 + K) <=? 7 * T) && ((1 + K) * initial S0 <=? 21001000000 * T) &&
  (21001000000 * T + Z.max (tail S0) (7 * T) * 2 ^ 34 <=? U64_MAX).

Lemma emission_check_sound S0 n : emission_check S0 = true ->
  schedule_wf S0 /\ Z.max (tail S0) (2 ^ 21 - 1) <= reward_at S0 n <= initial S0 /\ reward_at S0 (S n) <= reward_at S0 n /\
  supply_at S0 n <= 21001000000 * T + Z.max (tail S0) (7 * T) * Z.of_nat n /\ 21001000000 * T + Z.max (tail S0) (7 * T) * 2 ^ 34 <= U64_MAX.
Proof.
  unfold emission_check. rewrite !andb_true_iff, bool_decide_eq_true, forallb_forall, !Z.leb_le, !Z.ltb_lt. set (K := 2 ^ 63 / decay_value (decay S0)).
  intros ((((((((Hwf & Ht) & Hi) & Hks) & Hv) & Hdv) & Hlen) & Hcap) & Hmax). assert (Forall (fun k => 21 <= k) (decay S0)) as Hall.
  { apply Forall_forall. intros k Hk%list_elem_of_In%Hks. by apply Z.leb_le. }
  pose proof (reward_at_stops S0 Hwf 21 n ltac:(lia) Hdv Hall Hi). pose proof (reward_at_tail S0 Ht n). pose proof (reward_at_initial S0 Hwf Ht n).
  pose proof (Z.mod_pos_bound (2 ^ 63) _ Hv). pose proof (Z_div_mod_eq_full (2 ^ 63) (decay_value (decay S0))) as Hdiv. fold K in Hdiv.
  assert (0 <= K) by (apply Z.div_pos; lia). pose proof (supply_at_bound S0 Hwf Ht K (Z.max (tail S0) (7 * T)) n ltac:(lia) ltac:(nia) ltac:(lia) ltac:(lia)) as Hs.
  pose proof (proj1 (reward_at_u64 S0 n Hwf)). split_and!; [done|lia|lia|by apply reward_at_decreases|nia|done].
Qed.

(** C39: on every network that is still supported, and at every height up to [2^34], the reward of a block and the supply up to it are computed without overflow, in as many steps as the height. The reward
    never rises; it lies between the tail emission and the initial one, and never falls below [2^21 - 1] micro Tari, so that where the tail is 100 micro Tari it is never reached. The supply is at
    most 21.001 billion Tari and for each block the tail emission, or seven Tari where that is less. *)
Theorem network_emission_bounded (n : Network) (self : ConsensusManager) (h fuel : nat) : @manager_build unit n [] = Ok self -> Z.of_nat h <= 2 ^ 34 -> (h < fuel)%nat ->
  exists r r' s, @get_block_reward_at unit fuel self (Z.of_nat h) = Some (Ok r) /\ @get_total_emission_at unit fuel self (Z.of_nat h) = Some (Ok s) /\
    (Z.of_nat h < 2 ^ 34 -> @get_block_reward_at unit fuel self (Z.of_nat (S h)) = Some (Ok r') /\ r' <= r) /\
    Z.max (tail (emission self)) (2 ^ 21 - 1) <= r <= initial (emission self) /\ s <= 21001000000 * T + Z.max (tail (emission self)) (7 * T) * Z.of_nat h <= U64_MAX.
Proof.
  intros Hb Hh Hf. assert (emission_check (emission self) = true) as Hc by (destruct n; injection Hb as <- || discriminate; vm_compute; exact eq_refl).
  destruct (emission_check_sound _ h Hc) as (Hwf & Hr & Hd & Hs & Hmax). assert (2 ^ 34 <= U64_MAX) by (vm_compute; discriminate).
  exists (reward_at (emission self) h), (reward_at (emission self) (S h)), (supply_at (emission self) h). unfold get_block_reward_at, get_total_emission_at, block_reward, supply_at_block.
  change (rate_new (emission self)) with (rate_at (emission self) 0). rewrite (@advance_at unit (emission self) 0 h) by (done || nia). split_and!; [done|done| |lia|lia|done|nia].
  intros Hlt. destruct (emission_check_sound _ (S h) Hc) as (_ & _ & _ & Hs' & _). rewrite (@advance_at unit (emission self) 0 (S h)) by (done || nia). done.
Qed.

(** ** Instances *)

Definition genesis_data : @BlockHeaderAccumulatedData Z Z :=
  {| acc_hash := 0; total_kernel_offset := 0; achieved_difficulty := 1; total_accumulated_difficulty := 1;
     accumulated_monero_difficulty := 1; accumulated_sha_difficulty := 1; target_difficulty := 1 |}.

Lemma extension_is_stronger_witness : exists cmp d', default_comparer = (Ok cmp : result unit Comparer) /\
  accumulated_build Z.add (next_builder genesis_data 7 3 {| pow_algo := Sha3; achieved := 50; target := 40 |}) = Ok d' /\
  cmp {| header_height := 0 + 1; accumulated_data := d' |} {| header_height := 0; accumulated_data := genesis_data |} = Gt.
Proof.
  pose (cmp := ThenComparer (ThenComparer (ThenComparer (@AccumulatedDifficultySquaredComparer Z Z) HeightComparer) MoneroDifficultyComparer)
    Sha3DifficultyComparer).
  exists cmp. destruct (extension_is_stronger Z.add genesis_data 7 3 {| pow_algo := Sha3; achieved := 50; target := 40 |} 0 cmp) as (d' & Hb & _ & Hgt);
    [done..|]. exists d'. split; [done|]. split; [exact Hb|exact Hgt].
Defined.

Lemma default_comparer_order_witness : exists cmp, default_comparer = (Ok cmp : result unit Comparer) /\
  cmp {| header_height := 4; accumulated_data := genesis_data |} {| header_height := 3; accumulated_data := genesis_data |} = Gt.
Proof.
  eexists. split; [done|]. match goal with |- ?cmp _ _ = _ => destruct (default_comparer_order cmp eq_refl) as (-> & _) end. done.
Defined.

Lemma consensus_constants_in_force_witness : exists c,
  @consensus_constants unit {| consensus_constants_list := dibbler; emission := example_schedule |} 23000 = Ok c /\ 23000 <= effective_from_height c.
Proof.
  destruct (@consensus_constants_in_force unit {| consensus_constants_list := dibbler; emission := example_schedule |} 23000) as (c & Hc & _ & _ & Hl).
  - split; [done|]. repeat constructor; done.
  - done.
  - exists c. split; [done|]. assert (exists c', (c' ∈ dibbler) /\ effective_from_height c' = 23000) as (c' & Hin & He); [eexists; split; [right; left|done]|].
    rewrite <- He. apply Hl; [done|]. lia.
Defined.

Lemma network_emission_bounded_witness : exists self r s, @manager_build unit Esmeralda [] = Ok self /\ @get_block_reward_at unit 101 self 100 = Some (Ok r) /\
  @get_total_emission_at unit 101 self 100 = Some (Ok s) /\ r <= 18462816327 /\ s <= 21001000000 * T + 800 * T * 100.
Proof.
  destruct (@manager_build unit Esmeralda []) as [self| |] eqn:Hb; [|discriminate Hb..].
  destruct (network_emission_bounded Esmeralda self 100 101 Hb ltac:(lia) ltac:(lia)) as (r & r' & s & Hr & Hs & _ & Hrb & Hsb & _). injection Hb as <-.
  eexists _, r, s. split; [reflexivity|]. split; [exact Hr|]. split; [exact Hs|]. split; [exact (proj2 Hrb)|exact Hsb].
Defined.
