(* ===== verification/MempoolTypes.v ===== *)
(** * Transactions in the mempool and their priority

    src/base_layer/core/src/mempool/priority/prioritized_transaction.rs: [FeePriority] and
    [PrioritizedTransaction]; and the ordered map [BTreeMap] the pools use.

    The pools see a transaction through its body: the output hashes of its inputs and outputs, the
    fees and the excess signatures of its kernels. Those are the fields of the class [TxView]; keys
    and nonces are tari_crypto's. Floating-point arithmetic is that of binary64. *)

From Stdlib Require Import SpecFloat.
From S2P Require Import Prelude Amounts.

Local Open Scope Z_scope.

(** ** Transactions *)

Class TxView := {
  TransactionInput : Type;
  TransactionOutput : Type;
  TransactionKernel : Type;
  HashOutput : Type;
  PrivateKey : Type;
  PublicKey : Type;
  #[global] HashOutput_eq_dec :: EqDecision HashOutput;
  #[global] HashOutput_countable :: Countable HashOutput;
  #[global] PrivateKey_eq_dec :: EqDecision PrivateKey;
  #[global] PrivateKey_countable :: Countable PrivateKey;
  #[global] TransactionInput_eq_dec :: EqDecision TransactionInput;
  input_output_hash : TransactionInput -> HashOutput;
  output_hash : TransactionOutput -> HashOutput;
  get_features_and_scripts_size : TransactionOutput -> Z;
  kernel_fee : TransactionKernel -> MicroTari;
  get_signature : TransactionKernel -> PrivateKey;
  get_public_nonce : TransactionKernel -> PublicKey;
  sk_default : PrivateKey;
  sk_add : PrivateKey -> PrivateKey -> PrivateKey;
  sk_as_bytes : PrivateKey -> list Z;
  pk_default : PublicKey;
  pk_add : PublicKey -> PublicKey -> PublicKey;
  pk_bytes : PublicKey -> list Z;
}.

(** Keys are 32 bytes long. *)
Class TxViewLaws (V : TxView) : Prop := {
  sk_as_bytes_length s : length (sk_as_bytes s) = 32%nat;
  pk_bytes_length p : length (pk_bytes p) = 32%nat;
}.

Section Transactions.
Context {V : TxView} {E : Type}.

Definition Body : Type := AggregateBody TransactionInput TransactionOutput TransactionKernel.

(** A transaction; the offsets do not matter to the pools. *)
Record Transaction := { body : Body }.

(** A block, as far as the pools read it. *)
Record Block := { block_height : Z; block_body : Body }.

(** The values the pools index a body by. *)
Definition kernel_sigs (b : Body) : list PrivateKey := map get_signature (kernels b).
Definition input_hashes (b : Body) : list HashOutput := map input_output_hash (inputs b).
Definition output_hashes (b : Body) : list HashOutput := map output_hash (outputs b).

Definition get_total_fee (b : Body) : result E MicroTari := mt_sum (map kernel_fee (kernels b)).

Definition calculate_weight (weighting : TransactionWeight) (tx : Transaction) : result E Z :=
  weight_calculate_body get_features_and_scripts_size weighting (body tx).

(** ** Priorities *)

(** [u64 as f64], [f64 as u64] *)
Definition u64_as_f64 (z : Z) : spec_float := binary_normalize 53 1024 z 0 false.
Definition f64_as_u64 (x : spec_float) : Z :=
  match x with
  | S754_zero _ | S754_nan => 0
  | S754_infinity s => if s then 0 else U64_MAX
  | S754_finite s m e => if s then 0 else Z.min (Z.shiftl (Z.pos m) e) U64_MAX
  end.

Definition be_bytes (n : nat) (z : Z) : list Z := rev (le_bytes n z).

(** [FeePriority(Vec<u8>)] *)
Definition FeePriority : Type := list Z.

Definition fee_per_byte (fee weight : Z) : Z :=
  f64_as_u64 (SFmul 53 1024 (SFdiv 53 1024 (u64_as_f64 fee) (u64_as_f64 weight)) (u64_as_f64 1000)).

(** [copy_from_slice] into a range of [n] bytes *)
Definition copy_exact (n : nat) (b : list Z) : result E (list Z) := if decide (length b = n) then Ok b else Panic.

Definition FeePriority_new (tx : Transaction) (insert_epoch weight : Z) : result E FeePriority :=
  fee ← get_total_fee (body tx);
  let fee_priority := be_bytes 8 (fee_per_byte fee weight) in
  age ← arith 0 U64_MAX (U64_MAX - insert_epoch);
  let age_priority := be_bytes 8 age in
  let '(agg_sig, agg_nonce) :=
    fold_left (fun '(agg_sk, agg_nonce) k => (sk_add agg_sk (get_signature k), pk_add agg_nonce (get_public_nonce k)))
      (kernels (body tx)) (sk_default, pk_default) in
  s ← copy_exact 32 (sk_as_bytes agg_sig);
  n ← copy_exact 32 (pk_bytes agg_nonce);
  Ok (fee_priority ++ age_priority ++ s ++ n).

Record PrioritizedTransaction := {
  ptx_key : Z;
  transaction : Transaction;
  priority : FeePriority;
  weight : Z;
  dependent_output_hashes : list HashOutput;
}.

(** [PrioritizedTransaction::new]; [insert_epoch] is the system time. *)
Definition ptx_new (insert_epoch key : Z) (weighting : TransactionWeight) (tx : Transaction)
    (dependent_outputs : option (list HashOutput)) : result E PrioritizedTransaction :=
  w ← calculate_weight weighting tx;
  p ← FeePriority_new tx insert_epoch w;
  Ok {| ptx_key := key; transaction := tx; priority := p; weight := w;
        dependent_output_hashes := default [] dependent_outputs |}.

End Transactions.

(** ** Ordered maps *)

(** A [BTreeMap] keyed by byte vectors: its entries in ascending order of the keys. *)
Section BTreeMap.
Context {A : Type}.
Implicit Types m : list (list Z * A).

Fixpoint btree_insert (k : list Z) (v : A) m : list (list Z * A) :=
  match m with
  | [] => [(k, v)]
  | (k', v') :: m' =>
      match bytes_compare k k' with
      | Lt => (k, v) :: m
      | Eq => (k, v) :: m'
      | Gt => (k', v') :: btree_insert k v m'
      end
  end.

Definition btree_remove (k : list Z) m : list (list Z * A) := filter (fun kv => kv.1 <> k) m.

(** The keys are in strictly ascending order. *)
Fixpoint btree_sorted m : Prop :=
  match m with
  | [] => True
  | (k, _) :: m' => Forall (fun kv => bytes_lt k kv.1) m' /\ btree_sorted m'
  end.

End BTreeMap.

(** ** Lemmas on the order *)

(** Big-endian bytes are ordered as the numbers. *)
Lemma be_bytes_S n z : be_bytes (S n) z = be_bytes n (z / 256) ++ [z mod 256].
Proof. done. Qed.

Lemma be_bytes_lt n x y : 0 <= x < 256 ^ Z.of_nat n -> 0 <= y < 256 ^ Z.of_nat n ->
  bytes_lt (be_bytes n x) (be_bytes n y) <-> x < y.
Proof.
  revert x y. induction n as [|n IH]; intros x y Hx Hy.
  - cbn in *. unfold bytes_lt. cbn. split; [done|lia].
  - rewrite Nat2Z.inj_succ, Z.pow_succ_r in Hx, Hy by lia. rewrite !be_bytes_S.
    assert (forall z, length (be_bytes n z) = n) as Hl by (intros z; unfold be_bytes; rewrite length_rev; apply length_le_bytes).
    rewrite bytes_lt_app by (by rewrite !Hl).
    assert (0 <= x / 256 < 256 ^ Z.of_nat n) by (split; [apply Z.div_pos; lia|apply Z.div_lt_upper_bound; lia]).
    assert (0 <= y / 256 < 256 ^ Z.of_nat n) by (split; [apply Z.div_pos; lia|apply Z.div_lt_upper_bound; lia]).
    rewrite IH by done. pose proof (Z.div_mod x 256 ltac:(lia)). pose proof (Z.div_mod y 256 ltac:(lia)).
    pose proof (Z.mod_pos_bound x 256). pose proof (Z.mod_pos_bound y 256).
    assert (forall a b, bytes_lt [a] [b] <-> a < b) as Hone by (intros a b; unfold bytes_lt; cbn; destruct (Z.compare_spec a b); naive_solver lia).
    rewrite Hone. split.
    + intros [?|[Heq ?]]; [lia|]. assert (x / 256 = y / 256); [|lia].
      destruct (Z.lt_trichotomy (x / 256) (y / 256)) as [Hlt|[?|Hlt]]; [|done|].
      * apply IH in Hlt; [|done|done]. rewrite Heq in Hlt. by apply bytes_lt_irrefl in Hlt.
      * apply IH in Hlt; [|done|done]. rewrite Heq in Hlt. by apply bytes_lt_irrefl in Hlt.
    + intros Hlt. destruct (decide (x / 256 < y / 256)); [by left|right]. assert (x / 256 = y / 256) as Heq by lia.
      rewrite Heq. split; [done|lia].
Qed.

(** ** Lemmas on ordered maps *)
Section BTreeLemmas.
Context {A : Type}.
Implicit Types m : list (list Z * A).

Lemma btree_insert_elem k v m x : btree_sorted m ->
  x ∈ btree_insert k v m <-> x = (k, v) \/ x ∈ m /\ x.1 <> k.
Proof.
  induction m as [|[k' v'] m IH]; intros Hs; cbn [btree_insert].
  - rewrite list_elem_of_singleton. split; [by left|]. intros [?|[Hx _]]; [done|by apply not_elem_of_nil in Hx].
  - destruct Hs as [Hlt Hs]. rewrite Forall_forall in Hlt. destruct (bytes_compare k k') eqn:Hc.
    + apply bytes_compare_eq in Hc as <-. rewrite !elem_of_cons. split.
      * intros [?|Hx]; [by left|]. right. split; [by right|]. intros Heq. specialize (Hlt _ Hx). rewrite Heq in Hlt. by apply bytes_lt_irrefl in Hlt.
      * naive_solver.
    + rewrite !elem_of_cons. split; [|naive_solver]. intros [?|[->|Hx]]; [by left| |].
      * right. split; [by left|]. cbn. intros ->. by apply bytes_lt_irrefl in Hc.
      * right. split; [by right|]. intros Heq. specialize (Hlt _ Hx). rewrite Heq in Hlt.
        apply (bytes_lt_irrefl k). by eapply bytes_lt_trans.
    + rewrite !elem_of_cons, IH by done. split; [|naive_solver]. intros [->|[?|[? ?]]]; [|by left|right; naive_solver].
      right. split; [by left|]. cbn. intros ->. by rewrite (proj2 (bytes_compare_eq k k)) in Hc.
Qed.

Lemma btree_insert_sorted k v m : btree_sorted m -> btree_sorted (btree_insert k v m).
Proof.
  induction m as [|[k' v'] m IH]; intros Hs; cbn [btree_insert]; [by split|]. pose proof Hs as [Hlt Hs'].
  destruct (bytes_compare k k') eqn:Hc; cbn [btree_sorted].
  - apply bytes_compare_eq in Hc as <-. done.
  - split; [|done]. constructor; [done|]. eapply Forall_impl; [exact Hlt|]. intros [k2 v2] H2. cbn in *. by eapply bytes_lt_trans.
  - split; [|by apply IH]. apply Forall_forall. intros x Hx. apply btree_insert_elem in Hx as [->|[Hx _]]; [|by rewrite Forall_forall in Hlt; apply Hlt|done].
    cbn. unfold bytes_lt. by rewrite bytes_compare_antisym, Hc.
Qed.

Lemma btree_remove_elem k m x : x ∈ btree_remove k m <-> x ∈ m /\ x.1 <> k.
Proof. unfold btree_remove. rewrite list_elem_of_filter. naive_solver. Qed.

Lemma btree_remove_sorted k m : btree_sorted m -> btree_sorted (btree_remove k m).
Proof.
  unfold btree_remove. induction m as [|[k' v'] m IH]; intros Hs; [done|]. destruct Hs as [Hlt Hs]. rewrite filter_cons.
  case_decide; [|by apply IH]. split; [|by apply IH]. apply Forall_forall. intros x [_ Hx]%list_elem_of_filter.
  rewrite Forall_forall in Hlt. by apply Hlt.
Qed.

(** A key has one entry. *)
Lemma btree_unique m k v v' : btree_sorted m -> (k, v) ∈ m -> (k, v') ∈ m -> v = v'.
Proof.
  induction m as [|[k0 v0] m IH]; intros Hs Hv Hv'; [by apply not_elem_of_nil in Hv|]. destruct Hs as [Hlt Hs]. rewrite Forall_forall in Hlt.
  apply elem_of_cons in Hv as [Heq|Hv]; apply elem_of_cons in Hv' as [Heq'|Hv']; simplify_eq; try done.
  - by apply Hlt, bytes_lt_irrefl in Hv'.
  - by apply Hlt, bytes_lt_irrefl in Hv.
  - by apply IH.
Qed.

Lemma btree_sorted_NoDup m : btree_sorted m -> NoDup m.
Proof.
  induction m as [|[k v] m IH]; intros Hs; [constructor|]. destruct Hs as [Hlt Hs]. constructor; [|by apply IH].
  intros Hin. rewrite Forall_forall in Hlt. by apply Hlt, bytes_lt_irrefl in Hin.
Qed.

(** The first entry has the lowest key. *)
Lemma btree_first m k v x : btree_sorted ((k, v) :: m) -> x ∈ (k, v) :: m -> x = (k, v) \/ bytes_lt k x.1.
Proof. intros [Hlt _] [->|Hx]%elem_of_cons; [by left|right]. rewrite Forall_forall in Hlt. by apply Hlt. Qed.

End BTreeLemmas.

(** ** The order of priorities *)
Section Priority.
Context {V : TxView} {E : Type}.

Lemma f64_as_u64_range x : 0 <= f64_as_u64 x <= U64_MAX.
Proof.
  unfold f64_as_u64, U64_MAX. destruct x as [s|s| |s m e]; try lia; destruct s; try lia.
  split; [|lia]. apply Z.min_glb; [|lia]. apply Z.shiftl_nonneg. lia.
Qed.

Lemma FeePriority_new_shape tx e w p : @FeePriority_new V E tx e w = Ok p ->
  exists fee rest, @get_total_fee V E (body tx) = Ok fee /\ e <= U64_MAX /\
    p = be_bytes 8 (fee_per_byte fee w) ++ be_bytes 8 (U64_MAX - e) ++ rest.
Proof.
  unfold FeePriority_new. intros Hp. inv_bind Hp. apply arith_Ok_iff in Hr0 as [-> ?]. destruct (fold_left _ _ _) as [s n].
  inv_bind Hp. subst p. do 2 eexists. split; [done|]. split; [lia|done].
Qed.

(** Priorities are ordered by the fee per gram first, and a transaction that entered the
    pool earlier has the higher priority among those with the same fee per gram. *)
Theorem fee_priority_order tx1 tx2 e1 e2 w1 w2 f1 f2 p1 p2 :
  @get_total_fee V E (body tx1) = Ok f1 -> @get_total_fee V E (body tx2) = Ok f2 -> 0 <= e1 -> 0 <= e2 ->
  @FeePriority_new V E tx1 e1 w1 = Ok p1 -> @FeePriority_new V E tx2 e2 w2 = Ok p2 ->
  (fee_per_byte f1 w1 < fee_per_byte f2 w2 -> bytes_lt p1 p2) /\
  (fee_per_byte f1 w1 = fee_per_byte f2 w2 -> e2 < e1 -> bytes_lt p1 p2).
Proof.
  intros Hf1 Hf2 He1 He2 (f1' & r1 & Hf1' & Hm1 & ->)%FeePriority_new_shape (f2' & r2 & Hf2' & Hm2 & ->)%FeePriority_new_shape.
  rewrite Hf1 in Hf1'. rewrite Hf2 in Hf2'. injection Hf1' as <-. injection Hf2' as <-.
  assert (forall z, length (be_bytes 8 z) = 8%nat) as Hl by (intros z; unfold be_bytes; rewrite length_rev; apply length_le_bytes).
  pose proof (f64_as_u64_range (SFmul 53 1024 (SFdiv 53 1024 (u64_as_f64 f1) (u64_as_f64 w1)) (u64_as_f64 1000))) as Hr1.
  pose proof (f64_as_u64_range (SFmul 53 1024 (SFdiv 53 1024 (u64_as_f64 f2) (u64_as_f64 w2)) (u64_as_f64 1000))) as Hr2.
  fold (fee_per_byte f1 w1) in Hr1. fold (fee_per_byte f2 w2) in Hr2. change (256 ^ Z.of_nat 8) with (2 ^ 64). unfold U64_MAX in *. split.
  - intros Hlt. apply bytes_lt_app; [by rewrite !Hl|]. left. apply be_bytes_lt; [change (256 ^ Z.of_nat 8) with (2 ^ 64); lia..|done].
  - intros -> Hlt. apply bytes_lt_app; [by rewrite !Hl|]. right. split; [done|]. apply bytes_lt_app; [by rewrite !Hl|]. left.
    apply be_bytes_lt; [change (256 ^ Z.of_nat 8) with (2 ^ 64); lia..|lia].
Qed.

End Priority.

(** ** A concrete view of transactions, for examples: inputs and outputs are their hashes, a kernel
    is a signature and a fee. *)
Module ExampleTx.

#[export] Instance view : TxView := {|
  TransactionInput := Z;
  TransactionOutput := Z;
  TransactionKernel := Z * Z;
  HashOutput := Z;
  PrivateKey := Z;
  PublicKey := Z;
  input_output_hash i := i;
  output_hash o := o;
  get_features_and_scripts_size o := 0;
  kernel_fee k := k.2;
  get_signature k := k.1;
  get_public_nonce k := k.1;
  sk_default := 0;
  sk_add s t := (s + t) mod 2 ^ 256;
  sk_as_bytes := le_bytes 32;
  pk_default := 0;
  pk_add s t := (s + t) mod 2 ^ 256;
  pk_bytes := le_bytes 32;
|}.

#[export] Instance laws : TxViewLaws view.
Proof. split; intros x; apply length_le_bytes. Qed.

#[export] Instance body_eq_dec : EqDecision (@Body view) := (_ : EqDecision (AggregateBody Z Z (Z * Z))).
#[export] Instance tx_eq_dec : EqDecision (@Transaction view).
Proof. solve_decision. Defined.
#[export] Instance ptx_eq_dec : EqDecision (@PrioritizedTransaction view).
Proof. solve_decision. Defined.

Definition mk_tx (ins outs : list Z) (sig fee : Z) : @Transaction view :=
  {| body := {| sorted := true; inputs := ins; outputs := outs; kernels := [(sig, fee)] |} |}.

End ExampleTx.

Lemma fee_priority_order_witness :
  exists p1 p2, @FeePriority_new ExampleTx.view unit (ExampleTx.mk_tx [1] [2] 7 500) 100 71 = Ok p1 /\
    @FeePriority_new ExampleTx.view unit (ExampleTx.mk_tx [3] [4] 8 900) 100 71 = Ok p2 /\ bytes_lt p1 p2.
Proof.
  eexists _, _. split; [by vm_compute|]. split; [by vm_compute|].
  refine (proj1 (@fee_priority_order ExampleTx.view unit (ExampleTx.mk_tx [1] [2] 7 500) (ExampleTx.mk_tx [3] [4] 8 900)
    100 100 71 71 500 900 _ _ _ _ _ _ _ _) _); by vm_compute.
Defined.
