(* ===== verification/UnconfirmedPool.v ===== *)
(** * The unconfirmed pool

    src/base_layer/core/src/mempool/unconfirmed_pool/unconfirmed_pool.rs: every operation of
    [UnconfirmedPool]. The hash maps are finite maps; where the code iterates over one, in an
    unspecified order, the model uses the order of [map_to_list]. [compact] only changes the
    capacity of the hash maps, which are not part of the state; the map [txs_by_unique_id], which no
    operation fills, is left out. *)

From S2P Require Import Prelude Amounts MempoolTypes.

Local Open Scope Z_scope.

Inductive UnconfirmedPoolError := StorageOutofSync | PoolTransactionNoKernels.

#[export] Instance UnconfirmedPoolError_eq_dec : EqDecision UnconfirmedPoolError.
Proof. solve_decision. Defined.

Record UnconfirmedPoolConfig := { storage_capacity : Z; weight_tx_skip_count : Z }.

Definition UnconfirmedPoolConfig_default : UnconfirmedPoolConfig :=
  {| storage_capacity := 40000; weight_tx_skip_count := 20 |}.

Section UnconfirmedPool.
Context {V : TxView}.

Abbreviation pool_result := (result UnconfirmedPoolError).

Record UnconfirmedPool := {
  up_config : UnconfirmedPoolConfig;
  up_key_counter : Z;
  up_tx_by_key : gmap Z PrioritizedTransaction;
  up_txs_by_signature : gmap PrivateKey (list Z);
  up_tx_by_priority : list (FeePriority * Z);
  up_txs_by_output : gmap HashOutput (list Z);
}.

Definition up_new (config : UnconfirmedPoolConfig) : UnconfirmedPool :=
  {| up_config := config; up_key_counter := 0; up_tx_by_key := ∅; up_txs_by_signature := ∅;
     up_tx_by_priority := []; up_txs_by_output := ∅ |}.

(** The three indexes of the pool changed together. *)
Definition set_indexes (by_key : gmap Z PrioritizedTransaction) (by_priority : list (FeePriority * Z))
    (by_signature : gmap PrivateKey (list Z)) (by_output : gmap HashOutput (list Z)) (self : UnconfirmedPool) : UnconfirmedPool :=
  {| up_config := up_config self; up_key_counter := up_key_counter self; up_tx_by_key := by_key;
     up_txs_by_signature := by_signature; up_tx_by_priority := by_priority; up_txs_by_output := by_output |}.

Definition up_get_next_key (self : UnconfirmedPool) : pool_result (Z * UnconfirmedPool) :=
  n ← arith 0 USIZE_MAX (up_key_counter self + 1);
  Ok (up_key_counter self,
      {| up_config := up_config self; up_key_counter := n mod USIZE_MAX; up_tx_by_key := up_tx_by_key self;
         up_txs_by_signature := up_txs_by_signature self; up_tx_by_priority := up_tx_by_priority self;
         up_txs_by_output := up_txs_by_output self |}).

(** [map.entry(k).or_default().push(key)] *)
Definition index_push `{Countable K} (key : Z) (m : gmap K (list Z)) (k : K) : gmap K (list Z) :=
  <[k := default [] (m !! k) ++ [key]]> m.

(** [Vec::remove(pos)] *)
Definition remove_at {A} (pos : nat) (l : list A) : list A := take pos l ++ drop (S pos) l.

(** Removal of [key] from the vector of [k]; a vector that becomes empty is removed. A missing key
    is a panic for the signatures and is ignored for the outputs. *)
Definition index_remove_sig (key : Z) (m : gmap PrivateKey (list Z)) (k : PrivateKey) : pool_result (gmap PrivateKey (list Z)) :=
  match m !! k with
  | None => Ok m
  | Some keys =>
      pos ← unwrap (position (fun x => x =? key) keys);
      let keys := remove_at pos keys in
      Ok (if decide (keys = []) then delete k m else <[k := keys]> m)
  end.

Definition index_remove_output (key : Z) (m : gmap HashOutput (list Z)) (k : HashOutput) : gmap HashOutput (list Z) :=
  match m !! k with
  | None => m
  | Some keys =>
      let keys := match position (fun x => x =? key) keys with Some pos => remove_at pos keys | None => keys end in
      if decide (keys = []) then delete k m else <[k := keys]> m
  end.

Definition remove_transaction (tx_key : Z) (self : UnconfirmedPool) : pool_result (option Transaction * UnconfirmedPool) :=
  match up_tx_by_key self !! tx_key with
  | None => Ok (None, self)
  | Some ptx =>
      let b := body (transaction ptx) in
      by_signature ← foldM (index_remove_sig tx_key) (kernel_sigs b) (up_txs_by_signature self);
      let by_output := fold_left (index_remove_output tx_key) (output_hashes b) (up_txs_by_output self) in
      Ok (Some (transaction ptx),
          set_indexes (delete tx_key (up_tx_by_key self)) (btree_remove (priority ptx) (up_tx_by_priority self))
            by_signature by_output self)
  end.

Definition lowest_priority (self : UnconfirmedPool) : pool_result FeePriority := unwrap (fst <$> head (up_tx_by_priority self)).

Definition remove_lowest_priority_tx (self : UnconfirmedPool) : pool_result UnconfirmedPool :=
  match up_tx_by_priority self with
  | [] => Ok self
  | (_, tx_key) :: _ => '(_, self) ← remove_transaction tx_key self; Ok self
  end.

(** The end of [insert]: the transaction is entered in all the indexes. *)
Definition insert_prioritized (ptx : PrioritizedTransaction) (self : UnconfirmedPool) : UnconfirmedPool :=
  let key := ptx_key ptx in
  let b := body (transaction ptx) in
  set_indexes (<[key := ptx]> (up_tx_by_key self)) (btree_insert (priority ptx) key (up_tx_by_priority self))
    (fold_left (index_push key) (kernel_sigs b) (up_txs_by_signature self))
    (fold_left (index_push key) (output_hashes b) (up_txs_by_output self)) self.

(** [insert]; [now] is the system time. *)
Definition up_insert (now : Z) (tx : Transaction) (dependent_outputs : option (list HashOutput))
    (transaction_weighting : TransactionWeight) (self : UnconfirmedPool) : pool_result UnconfirmedPool :=
  if forallb (fun s => bool_decide (is_Some (up_txs_by_signature self !! s))) (kernel_sigs (body tx)) then Ok self
  else
    '(new_key, self) ← up_get_next_key self;
    ptx ← ptx_new now new_key transaction_weighting tx dependent_outputs;
    if storage_capacity (up_config self) <=? Z.of_nat (size (up_tx_by_key self)) then
      lowest ← lowest_priority self;
      if bytes_ltb (priority ptx) lowest then Ok self
      else
        self ← remove_lowest_priority_tx self;
        Ok (insert_prioritized ptx self)
    else Ok (insert_prioritized ptx self).

Definition contains_all_outputs (outputs : list HashOutput) (self : UnconfirmedPool) : bool :=
  forallb (fun hash => bool_decide (is_Some (up_txs_by_output self !! hash))) outputs.

Definition up_has_tx_with_excess_sig (excess_sig : PrivateKey) (self : UnconfirmedPool) : bool :=
  bool_decide (is_Some (up_txs_by_signature self !! excess_sig)).

(** ** Selection of transactions for a block *)

Definition find_highest_priority_transaction (keys : list Z) (self : UnconfirmedPool) : pool_result PrioritizedTransaction :=
  match keys with
  | [] => Err StorageOutofSync
  | key :: keys =>
      highest ← ok_or (up_tx_by_key self !! key) StorageOutofSync;
      foldM (fun highest key =>
        tx ← ok_or (up_tx_by_key self !! key) StorageOutofSync;
        Ok (if bytes_ltb (priority highest) (priority tx) then tx else highest)) keys highest
  end.

(** The mutable arguments of [get_all_dependent_transactions]. *)
Record DependentState := {
  required : gmap Z Transaction;
  recheck : list (Z * Transaction);
  dep_weight : Z;
}.

Definition push_recheck (ptx : PrioritizedTransaction) (ds : DependentState) : DependentState :=
  {| required := required ds; recheck := recheck ds ++ [(ptx_key ptx, transaction ptx)]; dep_weight := dep_weight ds |}.

(** The end of [get_all_dependent_transactions]. *)
Definition require_tx (ptx : PrioritizedTransaction) (ds : DependentState) : pool_result DependentState :=
  let required' := <[ptx_key ptx := transaction ptx]> (required ds) in
  match required ds !! ptx_key ptx with
  | Some _ => Ok {| required := required'; recheck := recheck ds; dep_weight := dep_weight ds |}
  | None =>
      w ← arith 0 U64_MAX (dep_weight ds + weight ptx);
      Ok {| required := required'; recheck := recheck ds; dep_weight := w |}
  end.

(** The loop over the dependent outputs of [ptx]; [rec] is the recursive call. *)
Fixpoint dependent_loop (rec : PrioritizedTransaction -> DependentState -> pool_result DependentState) (self : UnconfirmedPool)
    (selected_txs : gmap Z Transaction) (ptx : PrioritizedTransaction) (deps : list HashOutput) (ds : DependentState)
    : pool_result DependentState :=
  match deps with
  | [] => Ok ds
  | dependent_output :: deps =>
      match up_txs_by_output self !! dependent_output with
      | Some signatures =>
          dep ← find_highest_priority_transaction signatures self;
          match selected_txs !! ptx_key dep with
          | Some _ => dependent_loop rec self selected_txs ptx deps ds
          | None =>
              ds ← rec dep ds;
              match recheck ds with
              | [] => dependent_loop rec self selected_txs ptx deps ds
              | _ => Ok (push_recheck ptx ds)
              end
          end
      | None => Ok (push_recheck ptx ds)
      end
  end.

(** The recursion follows the dependencies without a bound: it descends forever, and exhausts
    the stack, on a cyclic dependency. The fuel is the depth of the stack; running out is a
    panic. *)
Fixpoint get_all_dependent_transactions (fuel : nat) (self : UnconfirmedPool) (selected_txs : gmap Z Transaction)
    (ptx : PrioritizedTransaction) (ds : DependentState) : pool_result DependentState :=
  match fuel with
  | O => Panic
  | S fuel =>
      ds ← dependent_loop (get_all_dependent_transactions fuel self selected_txs) self selected_txs ptx
             (dependent_output_hashes ptx) ds;
      require_tx ptx ds
  end.

Definition find_duplicate_input (current_transactions transactions_to_insert : gmap Z Transaction) : bool :=
  let insert_set : gset HashOutput :=
    list_to_set (map_to_list transactions_to_insert ≫= fun kv => input_hashes (body kv.2)) in
  existsb (fun kv => existsb (fun h => bool_decide (h ∈ insert_set)) (input_hashes (body kv.2))) (map_to_list current_transactions).

(** The locals of [fetch_highest_priority_txs]. *)
Record FetchState := {
  selected : gmap Z Transaction;
  curr_weight : Z;
  curr_skip_count : Z;
  to_recheck : list (Z * Transaction);
}.

(** One iteration of the loop; [false] after a [break]. The depth of the dependencies is at most
    the number of transactions, unless they are cyclic. *)
Definition fetch_step (self : UnconfirmedPool) (total_weight : Z) (tx_key : Z) (st : FetchState)
    : pool_result (bool * FetchState) :=
  match selected st !! tx_key with
  | Some _ => Ok (true, st)
  | None =>
      ptx ← ok_or (up_tx_by_key self !! tx_key) StorageOutofSync;
      ds ← get_all_dependent_transactions (S (size (up_tx_by_key self))) self (selected st) ptx
             {| required := ∅; recheck := []; dep_weight := 0 |};
      total_weight_after_candidates ← arith 0 U64_MAX (curr_weight st + dep_weight ds);
      if (total_weight_after_candidates <=? total_weight) && bool_decide (recheck ds = []) then
        if find_duplicate_input (selected st) (required ds) then Ok (true, st)
        else
          Ok (true, {| selected := required ds ∪ selected st; curr_weight := total_weight_after_candidates;
                       curr_skip_count := curr_skip_count st; to_recheck := to_recheck st |})
      else
        let st := {| selected := selected st; curr_weight := curr_weight st; curr_skip_count := curr_skip_count st + 1;
                     to_recheck := to_recheck st ++ recheck ds |} in
        Ok (negb (weight_tx_skip_count (up_config self) <=? curr_skip_count st), st)
  end.

Fixpoint fetch_loop (self : UnconfirmedPool) (total_weight : Z) (keys : list Z) (st : FetchState) : pool_result FetchState :=
  match keys with
  | [] => Ok st
  | tx_key :: keys =>
      '(continue, st) ← fetch_step self total_weight tx_key st;
      if continue : bool then fetch_loop self total_weight keys st else Ok st
  end.

Record RetrieveResults := { retrieved_transactions : list Transaction; transactions_to_insert : list Transaction }.

(** The removals at the end of [fetch_highest_priority_txs] and in the handlers below. *)
Definition remove_step (acc : list Transaction * UnconfirmedPool) (key : Z) : pool_result (list Transaction * UnconfirmedPool) :=
  '(tx, self) ← remove_transaction key acc.2;
  Ok (acc.1 ++ match tx with Some tx => [tx] | None => [] end, self).

Definition remove_transactions (keys : list Z) (self : UnconfirmedPool) : pool_result (list Transaction * UnconfirmedPool) :=
  foldM remove_step keys ([], self).

Definition fetch_highest_priority_txs (total_weight : Z) (self : UnconfirmedPool)
    : pool_result (RetrieveResults * UnconfirmedPool) :=
  st ← fetch_loop self total_weight (rev (map snd (up_tx_by_priority self)))
         {| selected := ∅; curr_weight := 0; curr_skip_count := 0; to_recheck := [] |};
  '(_, self) ← remove_transactions (map fst (to_recheck st)) self;
  Ok ({| retrieved_transactions := map snd (map_to_list (selected st)); transactions_to_insert := map snd (to_recheck st) |}, self).

(** The loop of [retrieve_by_excess_sigs] over an index of signatures. *)
Definition find_sigs (by_signature : gmap PrivateKey (list Z)) (excess_sigs : list PrivateKey) : gset Z * list PrivateKey :=
  fold_left (fun (acc : gset Z * list PrivateKey) sig =>
    match by_signature !! sig with
    | Some ids => (acc.1 ∪ list_to_set ids, acc.2)
    | None => (acc.1, acc.2 ++ [sig])
    end) excess_sigs (∅, []).

Definition up_retrieve_by_excess_sigs (excess_sigs : list PrivateKey) (self : UnconfirmedPool)
    : pool_result (list Transaction * list PrivateKey) :=
  let '(found, remaining) := find_sigs (up_txs_by_signature self) excess_sigs in
  txs ← mapM (fun id => unwrap (transaction <$> up_tx_by_key self !! id)) (elements found);
  Ok (txs, remaining).

(** ** Blocks and reorgs *)

(** [drain_all_mempool_transactions] *)
Definition drain_all_mempool_transactions (self : UnconfirmedPool) : list Transaction * UnconfirmedPool :=
  (map (fun kv => transaction kv.2) (map_to_list (up_tx_by_key self)), set_indexes ∅ [] ∅ ∅ self).

Definition find_matching_block_input (ptx : PrioritizedTransaction) (published_block : gset HashOutput) : bool :=
  existsb (fun h => bool_decide (h ∈ published_block)) (input_hashes (body (transaction ptx))).

(** The keys found in an index for a list of indexed values. *)
Definition lookup_all `{Countable K} (m : gmap K (list Z)) (ks : list K) : list Z := ks ≫= fun k => default [] (m !! k).

Definition remove_published_and_discard_deprecated_transactions (published_block : Block) (self : UnconfirmedPool)
    : pool_result (list Transaction * UnconfirmedPool) :=
  let b := block_body published_block in
  '(removed1, self) ← remove_transactions (lookup_all (up_txs_by_signature self) (kernel_sigs b)) self;
  let published_block_hash_set : gset HashOutput := list_to_set (input_hashes b) in
  let to_remove := map fst (filter (fun kv => find_matching_block_input kv.2 published_block_hash_set) (map_to_list (up_tx_by_key self))) in
  '(removed2, self) ← remove_transactions to_remove self;
  '(removed3, self) ← remove_transactions (lookup_all (up_txs_by_output self) (output_hashes b)) self;
  Ok (removed1 ++ removed2 ++ removed3, self).

(** ** Statistics *)

Definition up_len (self : UnconfirmedPool) : Z := Z.of_nat (size (up_txs_by_signature self)).

Definition up_snapshot (self : UnconfirmedPool) : list Transaction :=
  map (fun kv => transaction kv.2) (map_to_list (up_tx_by_key self)).

Definition up_calculate_weight (transaction_weight : TransactionWeight) (self : UnconfirmedPool) : pool_result Z :=
  foldM (fun weight kv => w ← calculate_weight transaction_weight (transaction kv.2); arith 0 U64_MAX (weight + w))
    (map_to_list (up_tx_by_key self)) 0.

Record FeePerGramStat := { order : Z; min_fee_per_gram : MicroTari; avg_fee_per_gram : MicroTari; max_fee_per_gram : MicroTari }.

(** One block of [get_fee_per_gram_stats]: [(total_weight, total_fees, min, max, count)]. *)
Fixpoint stat_block (self : UnconfirmedPool) (target_block_weight : Z) (keys : list Z) (acc : Z * Z * Z * Z * Z)
    : pool_result (Z * Z * Z * Z * Z) :=
  match keys with
  | [] => Ok acc
  | key :: keys =>
      let '(total_weight, total_fees, min, max, n) := acc in
      ptx ← ok_or (up_tx_by_key self !! key) StorageOutofSync;
      next ← arith 0 U64_MAX (total_weight + weight ptx);
      if target_block_weight <? next then Ok acc
      else
        total_tx_fee ← get_total_fee (body (transaction ptx));
        fee_per_gram ← mt_div total_tx_fee (weight ptx);
        total_fees ← mt_add total_fees total_tx_fee;
        stat_block self target_block_weight keys (next, total_fees, Z.min min fee_per_gram, Z.max max fee_per_gram, n + 1)
  end.

Fixpoint stat_loop (self : UnconfirmedPool) (target_block_weight : Z) (count start : nat) (offset : Z) (stats : list FeePerGramStat)
    : pool_result (list FeePerGramStat) :=
  match count with
  | O => Ok stats
  | S count =>
      '(total_weight, total_fees, min, max, n) ←
        stat_block self target_block_weight (drop (Z.to_nat offset) (rev (map snd (up_tx_by_priority self)))) (0, 0, U64_MAX, 0, 0);
      if total_weight =? 0 then Ok stats
      else
        avg ← mt_div total_fees total_weight;
        stat_loop self target_block_weight count (S start) (offset + n)
          (stats ++ [{| order := Z.of_nat start; min_fee_per_gram := min; avg_fee_per_gram := avg; max_fee_per_gram := max |}])
  end.

Definition up_get_fee_per_gram_stats (count : nat) (target_block_weight : Z) (self : UnconfirmedPool) : pool_result (list FeePerGramStat) :=
  if (count =? 0)%nat || (target_block_weight =? 0) then Ok []
  else if up_len self =? 0 then Ok []
  else stat_loop self target_block_weight count 0 0 [].

End UnconfirmedPool.
