(* ===== verification/UnconfirmedPoolSpec.v ===== *)
(** * The unconfirmed pool stays consistent

    Every operation of the pool keeps its four indexes in step with each other, none of the
    [expect]s that guard the indexes can fail, and removing the transactions of a block removes
    exactly those that conflict with it. *)

From S2P Require Import Prelude Amounts MempoolTypes UnconfirmedPool.

Local Open Scope Z_scope.

(** ** Occurrences in a list *)

Section Occurrences.
Context `{EqDecision A}.
Implicit Types (x y : A) (l : list A).

Definition occ x l : nat := length (filter (eq x) l).

Lemma occ_cons x y l : occ x (y :: l) = ((if decide (x = y) then 1 else 0) + occ x l)%nat.
Proof. unfold occ. rewrite filter_cons. by destruct (decide (x = y)). Qed.

Lemma occ_app x l1 l2 : occ x (l1 ++ l2) = (occ x l1 + occ x l2)%nat.
Proof. unfold occ. by rewrite filter_app, length_app. Qed.

Lemma occ_pos x l : (0 < occ x l)%nat <-> x ∈ l.
Proof.
  unfold occ. split.
  - intros Hlt. destruct (filter (eq x) l) as [|y l'] eqn:Hf; [cbn in Hlt; lia|].
    assert (y ∈ filter (eq x) l) as [<- ?]%list_elem_of_filter; [rewrite Hf; left|done].
  - intros Hx. assert (x ∈ filter (eq x) l) as Hf by (by apply list_elem_of_filter). destruct (filter (eq x) l); [by apply not_elem_of_nil in Hf|cbn; lia].
Qed.

End Occurrences.

Lemma position_Some {A} (p : A -> bool) l i : position p l = Some i -> exists x, l !! i = Some x /\ p x = true.
Proof.
  revert i. induction l as [|y l IH]; intros i; cbn; [done|]. destruct (p y) eqn:Hp; [intros [= <-]; by exists y|].
  destruct (position p l) as [j|]; cbn; [|done]. intros [= <-]. by apply IH.
Qed.

Lemma position_None {A} (p : A -> bool) l : position p l = None -> forall x, x ∈ l -> p x = false.
Proof.
  induction l as [|y l IH]; cbn; intros Hp x Hx; [by apply not_elem_of_nil in Hx|]. destruct (p y) eqn:Hy; [done|].
  apply elem_of_cons in Hx as [->|Hx]; [done|]. apply IH; [|done]. by destruct (position p l).
Qed.

Lemma remove_at_split {A} pos (l : list A) x : l !! pos = Some x ->
  l = take pos l ++ x :: drop (S pos) l /\ remove_at pos l = take pos l ++ drop (S pos) l.
Proof. intros Hx. split; [by rewrite take_drop_middle|done]. Qed.

(** ** Indexes *)

Section Index.
Context `{Countable K}.
Implicit Types (m : gmap K (list Z)) (vals : Z -> list K).

(** The index [m] lists a key under a value as often as the key's transaction has the value, and
    has no empty entries. *)
Definition index_ok m vals : Prop :=
  (forall k key, occ key (default [] (m !! k)) = occ k (vals key)) /\ (forall k, m !! k <> Some []).

(** [vals] with the values of one key replaced. *)
Definition with_vals (key : Z) (ks : list K) vals : Z -> list K := fun key' => if decide (key' = key) then ks else vals key'.

Lemma index_ok_ext m vals vals' : (forall key, vals key = vals' key) -> index_ok m vals -> index_ok m vals'.
Proof. intros Hv [H1 H2]. split; [|done]. intros k key. by rewrite <- Hv. Qed.

Lemma index_ok_empty : index_ok ∅ (fun _ => []).
Proof. split; intros k; [intros key|]; by rewrite lookup_empty. Qed.

Lemma index_push_ok key m k vals : index_ok m vals -> index_ok (index_push key m k) (with_vals key (vals key ++ [k]) vals).
Proof.
  intros [H1 H2]. unfold index_push, with_vals. split.
  - intros k' key'. destruct (decide (k' = k)) as [->|Hk].
    + rewrite lookup_insert_eq. cbn [default]. unfold id. rewrite occ_app, H1, occ_cons. change (occ key' []) with 0%nat.
      destruct (decide (key' = key)) as [->|]; [|lia]. rewrite occ_app, occ_cons. change (occ k []) with 0%nat. rewrite decide_True by done. lia.
    + rewrite lookup_insert_ne by done. rewrite H1. destruct (decide (key' = key)) as [->|]; [|done].
      rewrite occ_app, occ_cons. change (occ k' []) with 0%nat. rewrite decide_False by done. lia.
  - intros k'. destruct (decide (k' = k)) as [->|Hk]; [rewrite lookup_insert_eq|by rewrite lookup_insert_ne].
    intros [= Heq]. by apply app_nil in Heq as [_ ?].
Qed.

Lemma index_push_all key ks m vals : index_ok m vals ->
  index_ok (fold_left (index_push key) ks m) (with_vals key (vals key ++ ks) vals).
Proof.
  revert m vals. induction ks as [|k ks IH]; intros m vals Hok; cbn [fold_left].
  - eapply index_ok_ext; [|exact Hok]. intros key'. unfold with_vals. case_decide; [subst; by rewrite app_nil_r|done].
  - eapply index_ok_ext; [|by apply IH, index_push_ok]. intros key'. unfold with_vals at 1 3.
    destruct (decide (key' = key)) as [->|]; [|unfold with_vals; by rewrite decide_False]. unfold with_vals.
    rewrite !decide_True by done. by rewrite <- app_assoc.
Qed.

(** The entry of a value that a key's transaction has. *)
Lemma index_entry m vals key k ks : index_ok m vals -> vals key = k :: ks ->
  exists keys pos, m !! k = Some keys /\ position (fun x => x =? key) keys = Some pos /\
    (forall key', occ key' (remove_at pos keys) = (occ key' keys - if decide (key' = key) then 1 else 0)%nat) /\
    keys !! pos = Some key.
Proof.
  intros [H1 H2] Hv. assert (key ∈ default [] (m !! k)) as Hin.
  { apply occ_pos. rewrite H1, Hv, occ_cons, decide_True by done. lia. }
  destruct (m !! k) as [keys|] eqn:Hk; [|by apply not_elem_of_nil in Hin]. exists keys.
  destruct (position (fun x => x =? key) keys) as [pos|] eqn:Hpos.
  2: { pose proof (position_None _ _ Hpos _ Hin) as Hf. cbn in Hf. by rewrite Z.eqb_refl in Hf. }
  exists pos. split; [done|]. split; [done|]. apply position_Some in Hpos as (x & Hx & ->%Z.eqb_eq). split; [|done].
  destruct (remove_at_split _ _ _ Hx) as [Heq ->]. intros key'. rewrite Heq at 3. rewrite !occ_app, occ_cons. lia.
Qed.

(** Replacing an entry by one with a key less. *)
Lemma index_removed_ok m vals key k ks keys keys' :
  index_ok m vals -> vals key = k :: ks -> m !! k = Some keys ->
  (forall key', occ key' keys' = (occ key' keys - if decide (key' = key) then 1 else 0)%nat) ->
  index_ok (if decide (keys' = []) then delete k m else <[k := keys']> m) (with_vals key ks vals).
Proof.
  intros [H1 H2] Hv Hk Hocc. set (m' := if decide (keys' = []) then _ else _).
  assert (default [] (m' !! k) = keys' /\ m' !! k <> Some [] /\ forall k', k' <> k -> m' !! k' = m !! k') as (Hd & Hne & Hother).
  { unfold m'. case_decide as Hn.
    - rewrite lookup_delete_eq. split_and!; [done|done|]. intros k' Hk'. by rewrite lookup_delete_ne.
    - rewrite lookup_insert_eq. split_and!; [done|congruence|]. intros k' Hk'. by rewrite lookup_insert_ne. }
  clearbody m'. split.
  - intros k' key'. destruct (decide (k' = k)) as [->|Hne'].
    + rewrite Hd, Hocc. pose proof (H1 k key') as Heq. rewrite Hk in Heq. cbn [default] in Heq. unfold id in Heq. rewrite Heq.
      unfold with_vals. case_decide; [subst; rewrite Hv, occ_cons, decide_True by done; lia|lia].
    + rewrite Hother by done. rewrite H1. unfold with_vals. case_decide; [subst|done]. by rewrite Hv, occ_cons, decide_False.
  - intros k'. destruct (decide (k' = k)) as [->|Hne']; [done|]. by rewrite Hother.
Qed.

Lemma with_vals_twice key ks ks' vals key' : with_vals key ks (with_vals key ks' vals) key' = with_vals key ks vals key'.
Proof. unfold with_vals. by case_decide. Qed.

Lemma with_vals_same key ks vals : with_vals key ks vals key = ks.
Proof. unfold with_vals. by rewrite decide_True. Qed.

End Index.

(** ** The pool invariant *)

Section Pool.
Context {V : TxView}.
Implicit Types self : UnconfirmedPool.

(** The values under which a key is indexed. *)
Definition vals_of {K} (f : Body -> list K) (m : gmap Z PrioritizedTransaction) (key : Z) : list K :=
  match m !! key with Some ptx => f (body (transaction ptx)) | None => [] end.

Definition pool_ok self : Prop :=
  btree_sorted (up_tx_by_priority self) /\
  (forall p k, (p, k) ∈ up_tx_by_priority self <-> exists ptx, up_tx_by_key self !! k = Some ptx /\ priority ptx = p) /\
  (forall k ptx, up_tx_by_key self !! k = Some ptx -> ptx_key ptx = k /\ 0 <= k < up_key_counter self) /\
  index_ok (up_txs_by_signature self) (vals_of kernel_sigs (up_tx_by_key self)) /\
  index_ok (up_txs_by_output self) (vals_of output_hashes (up_tx_by_key self)) /\
  0 <= up_key_counter self < USIZE_MAX.

(** The parts of the invariant as subgoals. *)
Ltac split_pool := split; [|split; [|split; [|split; [|split]]]].

Lemma up_new_ok config : pool_ok (up_new config).
Proof.
  split_and!; cbn; try done. intros p k. rewrite lookup_empty. split; [by intros ?%not_elem_of_nil|naive_solver].
Qed.

Lemma index_remove_sig_eq key m k keys pos : m !! k = Some keys -> position (fun x => x =? key) keys = Some pos ->
  index_remove_sig key m k = Ok (if decide (remove_at pos keys = []) then delete k m else <[k := remove_at pos keys]> m).
Proof. intros Hk Hpos. unfold index_remove_sig. by rewrite Hk, Hpos. Qed.

Lemma index_remove_output_eq key m k keys pos : m !! k = Some keys -> position (fun x => x =? key) keys = Some pos ->
  index_remove_output key m k = if decide (remove_at pos keys = []) then delete k m else <[k := remove_at pos keys]> m.
Proof. intros Hk Hpos. unfold index_remove_output. by rewrite Hk, Hpos. Qed.

Lemma remove_sigs_ok key ks m vals : index_ok m vals -> vals key = ks ->
  exists m', foldM (index_remove_sig key) ks m = Ok m' /\ index_ok m' (with_vals key [] vals).
Proof.
  revert m vals. induction ks as [|k ks IH]; intros m vals Hok Hv; cbn [foldM].
  - exists m. split; [done|]. eapply index_ok_ext; [|exact Hok]. intros key'. unfold with_vals. case_decide; congruence.
  - destruct (index_entry m vals key k ks Hok Hv) as (keys & pos & Hk & Hpos & Hocc & _).
    rewrite (index_remove_sig_eq _ _ _ _ _ Hk Hpos). cbn [mbind result_bind].
    destruct (IH _ (with_vals key ks vals) (index_removed_ok _ _ _ _ _ _ _ Hok Hv Hk Hocc) (with_vals_same _ _ _)) as (m' & Hm' & Hok').
    exists m'. split; [done|]. eapply index_ok_ext; [|exact Hok']. intros key'. apply with_vals_twice.
Qed.

Lemma remove_outputs_ok key ks m vals : index_ok m vals -> vals key = ks ->
  index_ok (fold_left (index_remove_output key) ks m) (with_vals key [] vals).
Proof.
  revert m vals. induction ks as [|k ks IH]; intros m vals Hok Hv; cbn [fold_left].
  - eapply index_ok_ext; [|exact Hok]. intros key'. unfold with_vals. case_decide; congruence.
  - destruct (index_entry m vals key k ks Hok Hv) as (keys & pos & Hk & Hpos & Hocc & _).
    rewrite (index_remove_output_eq _ _ _ _ _ Hk Hpos).
    eapply index_ok_ext; [|apply (IH _ (with_vals key ks vals) (index_removed_ok _ _ _ _ _ _ _ Hok Hv Hk Hocc) (with_vals_same _ _ _))].
    intros key'. apply with_vals_twice.
Qed.

Lemma vals_of_delete {K} (f : Body -> list K) m key key' :
  with_vals key [] (vals_of f m) key' = vals_of f (delete key m) key'.
Proof.
  unfold with_vals, vals_of. case_decide; [subst; by rewrite lookup_delete_eq|by rewrite lookup_delete_ne].
Qed.

Lemma vals_of_insert {K} (f : Body -> list K) m key ptx key' : m !! key = None ->
  with_vals key (vals_of f m key ++ f (body (transaction ptx))) (vals_of f m) key' = vals_of f (<[key := ptx]> m) key'.
Proof.
  intros Hm. unfold with_vals, vals_of. rewrite Hm. case_decide; [subst; by rewrite lookup_insert_eq|by rewrite lookup_insert_ne].
Qed.

(** Removing a transaction: no [expect] fails, and only that transaction goes. *)
Lemma remove_transaction_ok key self : pool_ok self ->
  exists self', remove_transaction key self = Ok (transaction <$> (up_tx_by_key self !! key), self') /\ pool_ok self' /\
    up_tx_by_key self' = delete key (up_tx_by_key self) /\
    up_config self' = up_config self /\ up_key_counter self' = up_key_counter self.
Proof.
  intros Hok. pose proof Hok as (Hs & Hp & Hk & Hsig & Hout & Hc). unfold remove_transaction.
  destruct (up_tx_by_key self !! key) as [ptx|] eqn:Hptx; cbn [fmap option_fmap option_map].
  2: { exists self. split; [done|]. split; [done|]. by rewrite delete_id. }
  destruct (remove_sigs_ok key (kernel_sigs (body (transaction ptx))) _ _ Hsig) as (m' & -> & Hm'); [unfold vals_of; by rewrite Hptx|].
  cbn [mbind result_bind]. eexists. split; [done|]. split; [|done]. split_pool; cbn.
  - by apply btree_remove_sorted.
  - intros p k. rewrite btree_remove_elem, Hp. cbn [fst]. split.
    + intros [(ptx' & Hk' & <-) Hne]. exists ptx'. split; [|done]. rewrite lookup_delete_ne; [done|]. intros <-. congruence.
    + intros (ptx' & Hd & <-). apply lookup_delete_Some in Hd as [Hne Hk']. split; [by exists ptx'|]. intros Heq.
      apply Hne. apply (btree_unique (up_tx_by_priority self) (priority ptx)); [done|apply Hp; by exists ptx|apply Hp; by exists ptx'].
  - intros k ptx' [_ Hk']%lookup_delete_Some. by apply Hk.
  - eapply index_ok_ext; [|exact Hm']. apply vals_of_delete.
  - eapply index_ok_ext; [|apply remove_outputs_ok; [exact Hout|unfold vals_of; by rewrite Hptx]]. apply vals_of_delete.
  - done.
Qed.

Lemma remove_transactions_acc keys self acc : pool_ok self ->
  exists removed self', foldM remove_step keys (acc, self) = Ok (removed, self') /\ pool_ok self' /\
    (forall k, up_tx_by_key self' !! k = if decide (k ∈ keys) then None else up_tx_by_key self !! k) /\
    (forall tx, tx ∈ removed <-> tx ∈ acc \/ exists k ptx, k ∈ keys /\ up_tx_by_key self !! k = Some ptx /\ transaction ptx = tx) /\
    up_config self' = up_config self /\ up_key_counter self' = up_key_counter self.
Proof.
  revert self acc. induction keys as [|key keys IH]; intros self acc Hok; cbn [foldM].
  - exists acc, self. split; [done|]. split; [done|]. split; [done|]. split; [|done]. intros tx. split; [by left|].
    intros [?|(k & _ & []%not_elem_of_nil & _)]. done.
  - destruct (remove_transaction_ok key self Hok) as (self1 & Hr1 & Hok1 & Hd & Hcfg & Hctr).
    assert (remove_step (acc, self) key = Ok (acc ++ option_list (transaction <$> up_tx_by_key self !! key), self1)) as ->.
    { unfold remove_step. cbn [fst snd]. rewrite Hr1. by destruct (up_tx_by_key self !! key). }
    cbn [mbind result_bind].
    destruct (IH self1 (acc ++ option_list (transaction <$> up_tx_by_key self !! key)) Hok1) as (removed & self' & Hr & Hok' & Hl & Hin & Hcfg' & Hctr').
    exists removed, self'. split; [exact Hr|]. split; [done|]. split; [|split; [|by rewrite Hcfg', Hctr']].
    + intros k. rewrite Hl, Hd. destruct (decide (k = key)) as [->|Hne].
      * rewrite lookup_delete_eq. rewrite (decide_True (P := key ∈ key :: keys)) by left. by case_decide.
      * rewrite lookup_delete_ne by done. destruct (decide (k ∈ keys)); [rewrite decide_True by (by right); done|].
        rewrite decide_False; [done|]. by intros [?|?]%elem_of_cons.
    + intros tx. assert (tx ∈ option_list (transaction <$> up_tx_by_key self !! key) <-> exists ptx, up_tx_by_key self !! key = Some ptx /\ tx = transaction ptx) as Ho.
      { destruct (up_tx_by_key self !! key) as [ptx|]; cbn; [rewrite list_elem_of_singleton; naive_solver|]. rewrite elem_of_nil. naive_solver. }
      rewrite Hin, elem_of_app, Ho. rewrite Hd. split.
      * intros [[?|(ptx & Hptx & ->)]|(k & ptx & Hk & [Hne Hptx]%lookup_delete_Some & <-)]; [by left|right; exists key, ptx; split_and!; [left|done|done]|].
        right. exists k, ptx. split_and!; [by right|done|done].
      * intros [?|(k & ptx & Hk & Hptx & <-)]; [by left; left|]. destruct (decide (k = key)) as [->|Hne]; [left; right; by exists ptx|].
        right. exists k, ptx. apply elem_of_cons in Hk as [?|Hk]; [done|]. split_and!; [done|by rewrite lookup_delete_ne|done].
Qed.

Lemma remove_transactions_ok keys self : pool_ok self ->
  exists removed self', remove_transactions keys self = Ok (removed, self') /\ pool_ok self' /\
    (forall k, up_tx_by_key self' !! k = if decide (k ∈ keys) then None else up_tx_by_key self !! k) /\
    (forall tx, tx ∈ removed <-> exists k ptx, k ∈ keys /\ up_tx_by_key self !! k = Some ptx /\ transaction ptx = tx) /\
    up_config self' = up_config self /\ up_key_counter self' = up_key_counter self.
Proof.
  intros Hok. destruct (remove_transactions_acc keys self [] Hok) as (removed & self' & Hr & Hok' & Hl & Hin & Hrest).
  exists removed, self'. split; [done|]. split; [done|]. split; [done|]. split; [|done]. intros tx. rewrite Hin.
  split; [intros [[]%not_elem_of_nil|?]; done|by right].
Qed.

(** ** Blocks *)

(** A transaction that a block conflicts with: it shares a kernel, spends an input that the block
    spends, or has an output that the block has. *)
Definition conflicts (b : Body) (ptx : PrioritizedTransaction) : Prop :=
  (exists s, s ∈ kernel_sigs b /\ s ∈ kernel_sigs (body (transaction ptx))) \/
  (exists h, h ∈ input_hashes b /\ h ∈ input_hashes (body (transaction ptx))) \/
  (exists h, h ∈ output_hashes b /\ h ∈ output_hashes (body (transaction ptx))).

Lemma lookup_all_elem `{Countable K} (m : gmap K (list Z)) (f : Body -> list K) by_key ks k :
  index_ok m (vals_of f by_key) ->
  k ∈ lookup_all m ks <-> exists ptx v, by_key !! k = Some ptx /\ v ∈ ks /\ v ∈ f (body (transaction ptx)).
Proof.
  intros [Hocc _]. unfold lookup_all. rewrite list_elem_of_bind.
  assert (forall v, k ∈ default [] (m !! v) <-> exists ptx, by_key !! k = Some ptx /\ v ∈ f (body (transaction ptx))) as Hv.
  { intros v. rewrite <- !occ_pos, Hocc. unfold vals_of. destruct (by_key !! k) as [ptx|].
    - rewrite occ_pos. naive_solver.
    - change (occ v []) with 0%nat. split; [lia|naive_solver]. }
  split.
  - intros (v & Hk & Hin). apply Hv in Hk as (ptx & Hptx & Hf). by exists ptx, v.
  - intros (ptx & v & Hptx & Hin & Hf). exists v. split; [|done]. apply Hv. by exists ptx.
Qed.

Lemma find_matching_block_input_iff ptx (s : gset HashOutput) :
  find_matching_block_input ptx s = true <-> exists h, h ∈ s /\ h ∈ input_hashes (body (transaction ptx)).
Proof.
  unfold find_matching_block_input. rewrite existsb_exists. setoid_rewrite <- list_elem_of_In. setoid_rewrite bool_decide_eq_true. naive_solver.
Qed.

(** after a block is published the pool keeps exactly the transactions that the block does
    not conflict with, its indexes are consistent, and the removed transactions are returned. *)
Lemma remove_published_exact (block : Block) self :
  pool_ok self -> exists removed self',
    remove_published_and_discard_deprecated_transactions block self = Ok (removed, self') /\ pool_ok self' /\
    (forall k ptx, up_tx_by_key self' !! k = Some ptx <-> up_tx_by_key self !! k = Some ptx /\ ~ conflicts (block_body block) ptx) /\
    (forall tx, tx ∈ removed <-> exists k ptx, up_tx_by_key self !! k = Some ptx /\ transaction ptx = tx /\ conflicts (block_body block) ptx).
Proof.
  intros Hok. unfold remove_published_and_discard_deprecated_transactions. set (b := block_body block).
  destruct (remove_transactions_ok (lookup_all (up_txs_by_signature self) (kernel_sigs b)) self Hok) as (r1 & s1 & -> & Hok1 & Hl1 & Hin1 & _).
  cbn [mbind result_bind].
  set (keys2 := map fst _). destruct (remove_transactions_ok keys2 s1 Hok1) as (r2 & s2 & -> & Hok2 & Hl2 & Hin2 & _). cbn [mbind result_bind].
  destruct (remove_transactions_ok (lookup_all (up_txs_by_output s2) (output_hashes b)) s2 Hok2) as (r3 & s3 & -> & Hok3 & Hl3 & Hin3 & _).
  cbn [mbind result_bind]. exists (r1 ++ r2 ++ r3), s3. split; [done|]. split; [done|].
  assert (forall k, k ∈ lookup_all (up_txs_by_signature self) (kernel_sigs b) <-> exists ptx v, up_tx_by_key self !! k = Some ptx /\ v ∈ kernel_sigs b /\ v ∈ kernel_sigs (body (transaction ptx))) as HK1
    by (intros k; by apply lookup_all_elem, Hok).
  assert (forall k, k ∈ keys2 <-> exists ptx v, up_tx_by_key s1 !! k = Some ptx /\ v ∈ input_hashes b /\ v ∈ input_hashes (body (transaction ptx))) as HK2.
  { intros k. unfold keys2. rewrite list_elem_of_fmap. split.
    - intros ([k' ptx] & -> & [Hf Hk]%list_elem_of_filter). apply elem_of_map_to_list in Hk. cbn [snd] in Hf. apply Is_true_true, find_matching_block_input_iff in Hf as (h & Hh & Hin).
      exists ptx, h. split_and!; [done|by apply elem_of_list_to_set in Hh|done].
    - intros (ptx & v & Hptx & Hv & Hin). exists (k, ptx). split; [done|]. apply list_elem_of_filter. split; [|by apply elem_of_map_to_list].
      apply Is_true_true, find_matching_block_input_iff. exists v. split; [by apply elem_of_list_to_set|done]. }
  assert (forall k, k ∈ lookup_all (up_txs_by_output s2) (output_hashes b) <-> exists ptx v, up_tx_by_key s2 !! k = Some ptx /\ v ∈ output_hashes b /\ v ∈ output_hashes (body (transaction ptx))) as HK3
    by (intros k; by apply lookup_all_elem, Hok2).
  clearbody keys2. unfold conflicts. fold b. split.
  - intros k ptx. rewrite Hl3. specialize (HK1 k). specialize (HK2 k). specialize (HK3 k). rewrite Hl2, Hl1 in *.
    destruct (decide (k ∈ lookup_all (up_txs_by_signature self) (kernel_sigs b))), (decide (k ∈ keys2)),
      (decide (k ∈ lookup_all (up_txs_by_output s2) (output_hashes b))); naive_solver.
  - intros tx. rewrite !elem_of_app, Hin1, Hin2, Hin3. split.
    + intros [(k & ptx & Hk & Hptx & <-)|[(k & ptx & Hk & Hptx & <-)|(k & ptx & Hk & Hptx & <-)]]; exists k, ptx.
      * apply HK1 in Hk. naive_solver.
      * apply HK2 in Hk. rewrite Hl1 in Hptx, Hk. case_decide; naive_solver.
      * apply HK3 in Hk. rewrite Hl2, Hl1 in Hptx, Hk. repeat case_decide; naive_solver.
    + intros (k & ptx & Hptx & <- & Hc). destruct (decide (k ∈ lookup_all (up_txs_by_signature self) (kernel_sigs b))) as [H1|H1]; [left; by exists k, ptx|right].
      assert (up_tx_by_key s1 !! k = Some ptx) as Hptx1 by (rewrite Hl1; by case_decide).
      destruct (decide (k ∈ keys2)) as [H2|H2]; [left; by exists k, ptx|right].
      assert (up_tx_by_key s2 !! k = Some ptx) as Hptx2 by (rewrite Hl2; by case_decide).
      exists k, ptx. split; [|done]. apply HK3. rewrite HK1 in H1. rewrite HK2 in H2. naive_solver.
Qed.

(** ** Insertion *)

Lemma insert_prioritized_ok ptx self :
  pool_ok self -> up_tx_by_key self !! ptx_key ptx = None -> 0 <= ptx_key ptx < up_key_counter self ->
  (forall k ptx', up_tx_by_key self !! k = Some ptx' -> priority ptx' <> priority ptx) ->
  pool_ok (insert_prioritized ptx self).
Proof.
  intros (Hs & Hp & Hk & Hsig & Hout & Hc) Hfresh Hkey Hprio. unfold insert_prioritized. split_pool; cbn.
  - by apply btree_insert_sorted.
  - intros p k. rewrite btree_insert_elem, Hp by done. cbn [fst]. split.
    + intros [[= -> ->]|[(ptx' & Hk' & <-) _]]; [exists ptx; by rewrite lookup_insert_eq|].
      exists ptx'. split; [|done]. rewrite lookup_insert_ne; [done|]. intros <-. congruence.
    + intros (ptx' & Hl & <-). apply lookup_insert_Some in Hl as [[<- <-]|[Hne Hl]]; [by left|right].
      split; [by exists ptx'|]. by eapply Hprio.
  - intros k ptx' Hl. apply lookup_insert_Some in Hl as [[<- <-]|[_ Hl]]; [done|by apply Hk].
  - eapply index_ok_ext; [|apply index_push_all, Hsig]. intros key. by apply vals_of_insert.
  - eapply index_ok_ext; [|apply index_push_all, Hout]. intros key. by apply vals_of_insert.
  - done.
Qed.

(** The lowest priority is that of a stored transaction, below all the others. *)
Lemma lowest_spec p k rest self : pool_ok self -> up_tx_by_priority self = (p, k) :: rest ->
  exists low, up_tx_by_key self !! k = Some low /\ priority low = p /\
    (forall k' ptx', up_tx_by_key self !! k' = Some ptx' -> k' <> k -> bytes_lt p (priority ptx')).
Proof.
  intros (Hs & Hp & _) Hl. destruct (proj1 (Hp p k)) as (low & Hlow & Hpr); [rewrite Hl; left|]. exists low. split; [done|]. split; [done|].
  intros k' ptx' Hk' Hne. assert ((priority ptx', k') ∈ up_tx_by_priority self) as Hin by (apply Hp; by exists ptx'). rewrite Hl in Hs, Hin.
  destruct (btree_first _ _ _ _ Hs Hin) as [[= _ ->]|Hlt]; [done|exact Hlt].
Qed.

(** A pool that holds a transaction has a lowest priority. *)
Lemma lowest_exists self : pool_ok self -> (0 < size (up_tx_by_key self))%nat -> exists p k rest, up_tx_by_priority self = (p, k) :: rest.
Proof.
  intros (_ & Hp & _) Hsize. destruct (up_tx_by_priority self) as [|[p k] rest] eqn:Hl; [|by exists p, k, rest].
  destruct (map_choose (up_tx_by_key self)) as (k & ptx & Hk); [intros Heq; rewrite Heq, map_size_empty in Hsize; lia|].
  assert ((priority ptx, k) ∈ (@nil (FeePriority * Z))) as Hin by (apply Hp; by exists ptx). by apply not_elem_of_nil in Hin.
Qed.

(** The pool once the key counter has moved on. *)
Definition next_counter self : UnconfirmedPool :=
  {| up_config := up_config self; up_key_counter := up_key_counter self + 1; up_tx_by_key := up_tx_by_key self;
     up_txs_by_signature := up_txs_by_signature self; up_tx_by_priority := up_tx_by_priority self;
     up_txs_by_output := up_txs_by_output self |}.

Lemma next_counter_ok self : pool_ok self -> up_key_counter self + 1 < USIZE_MAX ->
  up_get_next_key self = Ok (up_key_counter self, next_counter self) /\ pool_ok (next_counter self).
Proof.
  intros (Hs & Hp & Hk & Hsig & Hout & Hc) Hlt. unfold up_get_next_key. rewrite arith_ok by lia. cbn [mbind result_bind].
  rewrite Z.mod_small by lia. split; [done|]. split_pool; cbn; try done; [|lia]. intros k ptx Hl. destruct (Hk k ptx Hl). split; [done|lia].
Qed.

(** Whether all the kernels of a transaction are known to the pool. *)
Definition known self (tx : Transaction) : bool :=
  forallb (fun s => bool_decide (is_Some (up_txs_by_signature self !! s))) (kernel_sigs (body tx)).

Definition capacity self : Z := storage_capacity (up_config self).

(** What [insert] does with the transaction [ptx]. *)
Inductive inserted (self : UnconfirmedPool) (ptx : PrioritizedTransaction) (m : gmap Z PrioritizedTransaction) : Prop :=
| inserted_known : known self (transaction ptx) = true -> m = up_tx_by_key self -> inserted self ptx m
| inserted_room : Z.of_nat (size (up_tx_by_key self)) < capacity self ->
    m = <[ptx_key ptx := ptx]> (up_tx_by_key self) -> inserted self ptx m
| inserted_refused : Z.of_nat (size (up_tx_by_key self)) = capacity self ->
    (forall k ptx', up_tx_by_key self !! k = Some ptx' -> bytes_lt (priority ptx) (priority ptx')) ->
    m = up_tx_by_key self -> inserted self ptx m
| inserted_evicting k low : Z.of_nat (size (up_tx_by_key self)) = capacity self ->
    up_tx_by_key self !! k = Some low -> bytes_lt (priority low) (priority ptx) ->
    (forall k' ptx', up_tx_by_key self !! k' = Some ptx' -> k' <> k -> bytes_lt (priority low) (priority ptx')) ->
    m = <[ptx_key ptx := ptx]> (delete k (up_tx_by_key self)) -> inserted self ptx m.

Lemma ptx_new_fields {E} now key W tx deps ptx : @ptx_new V E now key W tx deps = Ok ptx ->
  ptx_key ptx = key /\ transaction ptx = tx /\ dependent_output_hashes ptx = default [] deps.
Proof. unfold ptx_new. intros Hp. inv_bind Hp. by subst ptx. Qed.

(** C36: inserting a transaction into a pool of capacity at least 1 does not fail or abort and keeps the pool consistent and within its
    capacity. The transaction is ignored if all its kernels are known; it is stored if there is
    room; in a full pool it replaces the transaction of lowest priority, or is refused if its own
    priority is lower. Assumed are that its fee, weight and priority can be computed ([ptx_new]), that the priority, which includes the aggregate signature, is not in
    use by another transaction, and that the key counter has room. A pool of capacity 0 aborts ([insert_zero_capacity_aborts]). *)
Theorem insert_correct now tx deps W self ptx :
  pool_ok self -> 1 <= capacity self -> Z.of_nat (size (up_tx_by_key self)) <= capacity self ->
  up_key_counter self + 1 < USIZE_MAX ->
  @ptx_new V UnconfirmedPoolError now (up_key_counter self) W tx deps = Ok ptx ->
  (forall k ptx', up_tx_by_key self !! k = Some ptx' -> priority ptx' <> priority ptx) ->
  exists self', up_insert now tx deps W self = Ok self' /\ pool_ok self' /\
    Z.of_nat (size (up_tx_by_key self')) <= capacity self /\ inserted self ptx (up_tx_by_key self').
Proof.
  intros Hok Hcap Hsize Hctr Hnew Hprio. destruct (ptx_new_fields _ _ _ _ _ _ Hnew) as (Hkey & Htx & _).
  unfold up_insert. fold (known self tx). destruct (known self tx) eqn:Hknown.
  { exists self. split; [done|]. split; [done|]. split; [done|]. apply inserted_known; [by rewrite Htx|done]. }
  destruct (next_counter_ok self Hok Hctr) as [-> Hok']. cbn [mbind result_bind]. rewrite Hnew. cbn [mbind result_bind].
  assert (up_tx_by_key self !! ptx_key ptx = None) as Hfresh.
  { destruct (up_tx_by_key self !! ptx_key ptx) as [ptx'|] eqn:Hl; [|done]. apply (proj1 (proj2 (proj2 Hok))) in Hl. rewrite Hkey in Hl. lia. }
  assert (0 <= ptx_key ptx < up_key_counter (next_counter self)) as Hrange.
  { rewrite Hkey. cbn. destruct Hok as (_ & _ & _ & _ & _ & ?). lia. }
  fold (capacity (next_counter self)). change (capacity (next_counter self)) with (capacity self).
  destruct (Z.leb_spec (capacity self) (Z.of_nat (size (up_tx_by_key (next_counter self))))) as [Hfull|Hroom].
  - cbn in Hfull. destruct (lowest_exists (next_counter self) Hok') as (p & k & rest & Hl); [cbn; lia|].
    unfold lowest_priority, remove_lowest_priority_tx. rewrite Hl. cbn [head fmap option_fmap option_map fst unwrap mbind result_bind].
    destruct (lowest_spec p k rest _ Hok' Hl) as (low & Hlow & <- & Hmin). cbn [next_counter up_tx_by_key] in Hlow, Hmin.
    destruct (bytes_ltb (priority ptx) (priority low)) eqn:Hlt.
    + apply bytes_ltb_lt in Hlt. exists (next_counter self). split; [done|]. split; [done|]. split; [done|].
      apply inserted_refused; [lia| |done]. intros k' ptx' Hk'. destruct (decide (k' = k)) as [->|Hne]; [congruence|].
      eapply bytes_lt_trans; [exact Hlt|]. by eapply Hmin.
    + destruct (remove_transaction_ok k (next_counter self) Hok') as (self1 & -> & Hok1 & Hd & Hcfg & Hctr1). cbn [mbind result_bind].
      cbn [next_counter up_tx_by_key] in Hd. eexists. split; [done|].
      assert (k <> ptx_key ptx) as Hkne by (intros ->; congruence).
      assert (bytes_lt (priority low) (priority ptx)) as Hgt.
      { unfold bytes_lt. destruct (bytes_compare (priority low) (priority ptx)) eqn:Hc; [|done|].
        - apply bytes_compare_eq in Hc. by destruct (Hprio _ _ Hlow).
        - exfalso. rewrite bytes_compare_antisym in Hc. unfold bytes_ltb in Hlt. by destruct (bytes_compare (priority ptx) (priority low)). }
      split; [|split].
      * apply insert_prioritized_ok; [done|by rewrite Hd, lookup_delete_ne|by rewrite Hctr1|].
        intros k' ptx'. rewrite Hd. intros [_ ?]%lookup_delete_Some. by eapply Hprio.
      * cbn [insert_prioritized set_indexes up_tx_by_key]. rewrite Hd, map_size_insert_None by (by rewrite lookup_delete_ne).
        rewrite map_size_delete_Some by (by eexists). lia.
      * apply (inserted_evicting _ _ _ k low); [lia|done|done|done|]. cbn. by rewrite Hd.
  - cbn in Hroom. eexists. split; [done|]. split; [|split].
    + by apply insert_prioritized_ok.
    + cbn. rewrite map_size_insert_None by done. lia.
    + by apply inserted_room.
Qed.

(** With a storage capacity of zero, inserting a transaction into an empty pool aborts: the
    pool is full, and has no lowest priority. *)
Theorem insert_zero_capacity_aborts now tx deps W skip ptx :
  kernels (body tx) <> [] -> @ptx_new V UnconfirmedPoolError now 0 W tx deps = Ok ptx ->
  up_insert now tx deps W (up_new {| storage_capacity := 0; weight_tx_skip_count := skip |}) = Panic.
Proof.
  intros Hk Hnew. unfold up_insert. destruct (kernels (body tx)) as [|k ks] eqn:Hks; [done|]. unfold kernel_sigs. rewrite Hks.
  cbn [map forallb up_new up_txs_by_signature]. rewrite lookup_empty, bool_decide_eq_false_2 by (by intros [? ?]). cbn [andb].
  unfold up_get_next_key. cbn [up_new up_key_counter]. rewrite arith_ok by (unfold USIZE_MAX, U64_MAX; lia). cbn [mbind result_bind].
  by rewrite Hnew.
Qed.

(** ** Lookups *)

Lemma sig_known_iff self s : pool_ok self ->
  is_Some (up_txs_by_signature self !! s) <-> exists k ptx, up_tx_by_key self !! k = Some ptx /\ s ∈ kernel_sigs (body (transaction ptx)).
Proof.
  intros (_ & _ & _ & [Hocc Hne] & _). split.
  - intros [keys Hkeys]. destruct keys as [|k keys]; [by destruct (Hne s)|]. exists k.
    pose proof (Hocc s k) as Ho. rewrite Hkeys in Ho. cbn [default] in Ho. unfold id in Ho. rewrite occ_cons, decide_True in Ho by done. unfold vals_of in Ho.
    destruct (up_tx_by_key self !! k) as [ptx|]; [|change (occ s []) with 0%nat in Ho; lia]. exists ptx. split; [done|]. apply occ_pos. lia.
  - intros (k & ptx & Hk & Hin). pose proof (Hocc s k) as Ho. unfold vals_of in Ho. rewrite Hk in Ho. apply occ_pos in Hin. rewrite <- Ho in Hin.
    destruct (up_txs_by_signature self !! s); [by eexists|]. change (occ k (default [] None)) with 0%nat in Hin. lia.
Qed.

Lemma find_sigs_spec m sigs : let '(found, remaining) := find_sigs m sigs in
  (forall k, k ∈ found <-> exists s keys, s ∈ sigs /\ m !! s = Some keys /\ k ∈ keys) /\
  remaining = filter (fun s => m !! s = None) sigs.
Proof.
  induction sigs as [|s sigs IH] using rev_ind; unfold find_sigs in *; [split; [|done]; intros k; set_solver|].
  rewrite fold_left_app. cbn [fold_left]. destruct (fold_left _ sigs _) as [found remaining]. destruct IH as [IH1 ->].
  rewrite filter_app. cbn [fst snd]. destruct (m !! s) as [keys|] eqn:Hs; (split; [intros k|]).
  - rewrite elem_of_union, elem_of_list_to_set, IH1. setoid_rewrite elem_of_app. setoid_rewrite list_elem_of_singleton. naive_solver.
  - rewrite filter_cons_False by congruence. by rewrite filter_nil, app_nil_r.
  - rewrite IH1. setoid_rewrite elem_of_app. setoid_rewrite list_elem_of_singleton. naive_solver.
  - rewrite filter_cons_True by done. by rewrite filter_nil.
Qed.

(** Looking transactions up by excess signatures never aborts; it returns the pool's
    transactions that have one of the signatures, and the signatures of none. *)
Theorem retrieve_by_sigs_correct sigs self : pool_ok self ->
  exists txs remaining, up_retrieve_by_excess_sigs sigs self = Ok (txs, remaining) /\
    (forall tx, tx ∈ txs <-> exists k ptx s, up_tx_by_key self !! k = Some ptx /\ transaction ptx = tx /\ s ∈ sigs /\ s ∈ kernel_sigs (body tx)) /\
    (forall s, s ∈ remaining <-> s ∈ sigs /\ ~ exists k ptx, up_tx_by_key self !! k = Some ptx /\ s ∈ kernel_sigs (body (transaction ptx))).
Proof.
  intros Hok. unfold up_retrieve_by_excess_sigs. pose proof (find_sigs_spec (up_txs_by_signature self) sigs) as Hspec.
  destruct (find_sigs (up_txs_by_signature self) sigs) as [found remaining]. destruct Hspec as [Hfound ->].
  assert (forall k, k ∈ found <-> exists ptx s, up_tx_by_key self !! k = Some ptx /\ s ∈ sigs /\ s ∈ kernel_sigs (body (transaction ptx))) as Hin.
  { intros k. rewrite <- (lookup_all_elem (up_txs_by_signature self) kernel_sigs (up_tx_by_key self) sigs k) by apply Hok.
    rewrite Hfound. unfold lookup_all. rewrite list_elem_of_bind. split.
    - intros (s & keys & Hs & Hm & Hk). exists s. by rewrite Hm.
    - intros (s & Hk & Hs). destruct (up_txs_by_signature self !! s) as [keys|] eqn:Hm; [by exists s, keys|by apply not_elem_of_nil in Hk]. }
  assert (exists txs, mapM (fun id => @unwrap UnconfirmedPoolError _ (transaction <$> up_tx_by_key self !! id)) (elements found) = Ok txs /\
    Forall2 (fun id tx => (transaction <$> up_tx_by_key self !! id) = Some tx) (elements found) txs) as (txs & Hm & Hall).
  { assert (Forall (fun id => is_Some (up_tx_by_key self !! id)) (elements found)) as Hsome.
    { apply Forall_forall. intros k (ptx & _ & Hk & _)%elem_of_elements%Hin. by eexists. }
    induction Hsome as [|id ids [ptx Hid] _ (txs & Hm & Hall)]; [by exists []|]. exists (transaction ptx :: txs). cbn [mapM].
    rewrite Hid. cbn [fmap option_fmap option_map unwrap mbind result_bind]. cbn in Hm. rewrite Hm. split; [done|]. constructor; [by rewrite Hid|done]. }
  rewrite Hm. cbn [mbind result_bind]. eexists txs, _. split; [done|]. split.
  - intros tx. split.
    + intros Hi. apply list_elem_of_lookup in Hi as [i Hi]. destruct (Forall2_lookup_r _ _ _ _ _ Hall Hi) as (k & Hk & Htx).
      apply list_elem_of_lookup_2, elem_of_elements, Hin in Hk as (ptx & s & Hptx & Hs & Hks). rewrite Hptx in Htx. injection Htx as <-. by exists k, ptx, s.
    + intros (k & ptx & s & Hptx & <- & Hs & Hks). assert (k ∈ elements found) as Hk by (apply elem_of_elements, Hin; by exists ptx, s).
      apply list_elem_of_lookup in Hk as [i Hi]. destruct (Forall2_lookup_l _ _ _ _ _ Hall Hi) as (tx & Htx & Heq).
      rewrite Hptx in Heq. injection Heq as <-. by eapply list_elem_of_lookup_2.
  - intros s. rewrite list_elem_of_filter, <- (sig_known_iff self s Hok), eq_None_not_Some. naive_solver.
Qed.

End Pool.
