(* ===== verification/UnconfirmedPoolFetch.v ===== *)
(** * Selecting transactions for a block

    [fetch_highest_priority_txs] of the unconfirmed pool: the selection fits the weight it is
    given and contains the transactions its members depend on. It ends as long as the
    dependencies are not cyclic. *)

From S2P Require Import Prelude Amounts MempoolTypes UnconfirmedPool UnconfirmedPoolSpec.

Local Open Scope Z_scope.

Section Fetch.
Context {V : TxView}.

(** ** Weights of sets of transactions *)

Section Weights.
Context (wt : Z -> Z).

Definition wsum (D : gset Z) : Z := sum_Z (map wt (elements D)).

Lemma sum_Z_perm l l' : l ≡ₚ l' -> sum_Z l = sum_Z l'.
Proof. unfold sum_Z. induction 1; cbn [foldr]; lia. Qed.

Lemma wsum_union D D' : D ## D' -> wsum (D ∪ D') = wsum D + wsum D'.
Proof.
  intros Hd. unfold wsum. rewrite <- sum_Z_app, <- map_app. apply sum_Z_perm.
  change (map wt ?l) with (wt <$> l). by rewrite elements_disj_union.
Qed.

Lemma wsum_insert k D : k ∉ D -> wsum ({[k]} ∪ D) = wt k + wsum D.
Proof. intros Hk. rewrite wsum_union by set_solver. unfold wsum. rewrite elements_singleton. cbn. lia. Qed.

Context (Hwt : forall k, 0 <= wt k).

Lemma wsum_nonneg D : 0 <= wsum D.
Proof. unfold wsum. apply sum_Z_nonneg, Forall_map, Forall_true. intros k. apply Hwt. Qed.

Lemma wsum_subset D D' : D ⊆ D' -> wsum D <= wsum D'.
Proof.
  intros Hs. rewrite (union_difference_L _ _ Hs), wsum_union by set_solver. pose proof (wsum_nonneg (D' ∖ D)). lia.
Qed.
End Weights.

Context (self : UnconfirmedPool).

Definition stored (k : Z) (ptx : PrioritizedTransaction) : Prop := up_tx_by_key self !! k = Some ptx.

Definition wt (k : Z) : Z := match up_tx_by_key self !! k with Some ptx => weight ptx | None => 0 end.

(** The output [h] is an output of a stored transaction of [D]. *)
Definition provided (D : gset Z) (h : HashOutput) : Prop :=
  exists k ptx, k ∈ D /\ stored k ptx /\ h ∈ output_hashes (body (transaction ptx)).

(** Every transaction of [D] finds the outputs it depends on among the outputs of [D']. *)
Definition closed_in (D D' : gset Z) : Prop :=
  forall k ptx, k ∈ D -> stored k ptx -> Forall (provided D') (dependent_output_hashes ptx).

Lemma provided_mono D D' h : D ⊆ D' -> provided D h -> provided D' h.
Proof. intros Hs (k & ptx & Hk & Hrest). exists k, ptx. split; [by apply Hs|done]. Qed.

Lemma closed_in_mono D D1 D2 : D1 ⊆ D2 -> closed_in D D1 -> closed_in D D2.
Proof. intros Hs Hc k ptx Hk Hst. eapply Forall_impl; [by eapply Hc|]. intros h. by apply provided_mono. Qed.

(** The pool: consistent, with weights that do not overflow. *)
Context (Hok : pool_ok self) (Hw : forall k ptx, stored k ptx -> 0 <= weight ptx)
  (Hsum : wsum wt (dom (up_tx_by_key self)) <= U64_MAX).

(** A topological numbering of the transactions: the providers of an output come before the
    transactions that depend on it. *)
Definition topological (rank : Z -> nat) : Prop :=
  (forall k ptx, stored k ptx -> (rank k < size (up_tx_by_key self))%nat) /\
  (forall k ptx h k' ptx', stored k ptx -> h ∈ dependent_output_hashes ptx -> stored k' ptx' ->
     h ∈ output_hashes (body (transaction ptx')) -> (rank k' < rank k)%nat).

Lemma wt_nonneg k : 0 <= wt k.
Proof. unfold wt. destruct (up_tx_by_key self !! k) as [ptx|] eqn:Hk; [by eapply Hw|lia]. Qed.

Lemma find_highest_ok h keys : up_txs_by_output self !! h = Some keys ->
  exists ptx, find_highest_priority_transaction keys self = Ok ptx /\ stored (ptx_key ptx) ptx /\
    h ∈ output_hashes (body (transaction ptx)).
Proof.
  intros Hkeys. destruct Hok as (_ & _ & Hk & _ & [Hocc Hne] & _).
  assert (forall k, k ∈ keys -> exists ptx, up_tx_by_key self !! k = Some ptx /\ ptx_key ptx = k /\ h ∈ output_hashes (body (transaction ptx))) as Hall.
  { intros k Hin. apply occ_pos in Hin. pose proof (Hocc h k) as Ho. rewrite Hkeys in Ho. cbn [default] in Ho. unfold id, vals_of in Ho.
    destruct (up_tx_by_key self !! k) as [ptx|] eqn:Hptx; [|change (occ h []) with 0%nat in Ho; lia]. exists ptx. split; [done|].
    split; [by apply (Hk k ptx)|]. apply occ_pos. lia. }
  unfold find_highest_priority_transaction. destruct keys as [|k keys]; [by destruct (Hne h)|].
  destruct (Hall k ltac:(left)) as (ptx & Hptx & Hkey & Hh). rewrite Hptx. cbn [ok_or mbind result_bind].
  assert (stored (ptx_key ptx) ptx) as Hst by (unfold stored; congruence). assert (forall k, k ∈ keys -> exists ptx, up_tx_by_key self !! k = Some ptx /\
    ptx_key ptx = k /\ h ∈ output_hashes (body (transaction ptx))) as Hall' by (intros k' Hk'; apply Hall; by right).
  clear Hptx Hkey Hall Hkeys. revert ptx Hst Hh. induction keys as [|k' keys IH]; intros ptx Hst Hh; cbn [foldM].
  - by exists ptx.
  - destruct (Hall' k' ltac:(left)) as (ptx' & Hptx' & Hkey' & Hh'). rewrite Hptx'. cbn [ok_or mbind result_bind].
    assert (stored (ptx_key ptx') ptx') by (unfold stored; congruence).
    apply IH; [|by destruct (bytes_ltb _ _)|by destruct (bytes_ltb _ _)]. intros k'' Hk''. apply Hall'. by right.
Qed.

(** ** Dependencies *)

Section Dependencies.
Context (rank : Z -> nat) (Hrank : topological rank) (sel : gmap Z Transaction).

Definition from_pool (k : Z) (tx : Transaction) : Prop := exists ptx, stored k ptx /\ transaction ptx = tx.

Definition dep_inv (ds : DependentState) : Prop :=
  (forall k tx, required ds !! k = Some tx -> from_pool k tx /\ k ∉ dom sel) /\
  dep_weight ds = wsum wt (dom (required ds)) /\
  Forall (fun kt => from_pool kt.1 kt.2) (recheck ds) /\
  (recheck ds = [] -> closed_in (dom (required ds)) (dom (required ds) ∪ dom sel)).

(** The result of following the dependencies of [ptx] from the state [ds]. *)
Definition dep_result (ptx : PrioritizedTransaction) (ds ds' : DependentState) : Prop :=
  dep_inv ds' /\ dom (required ds) ⊆ dom (required ds') /\ (recheck ds' = [] -> ptx_key ptx ∈ dom (required ds')).

Lemma required_in_pool ds : dep_inv ds -> dom (required ds) ⊆ dom (up_tx_by_key self).
Proof.
  intros (Hr & _) k [tx Hk]%elem_of_dom. destruct (Hr k tx Hk) as [(ptx & Hst & _) _]. apply elem_of_dom. by exists ptx.
Qed.

Lemma push_recheck_inv ptx ds : dep_inv ds -> stored (ptx_key ptx) ptx -> dep_inv (push_recheck ptx ds).
Proof.
  intros (Hr & Hd & Hc & _) Hst. split; [done|]. split; [done|]. split; cbn [push_recheck recheck].
  - apply Forall_app. split; [done|]. constructor; [by exists ptx|done].
  - intros Hnil. by apply app_nil in Hnil as [_ ?].
Qed.

Lemma require_tx_ok ptx ds : dep_inv ds -> stored (ptx_key ptx) ptx -> ptx_key ptx ∉ dom sel ->
  (recheck ds = [] -> Forall (provided (dom (required ds) ∪ dom sel)) (dependent_output_hashes ptx)) ->
  exists ds', require_tx ptx ds = Ok ds' /\ dep_result ptx ds ds' /\ recheck ds' = recheck ds.
Proof.
  intros Hinv Hst Hsel Hdeps. pose proof Hinv as (Hr & Hd & Hc & Hcl).
  set (R' := <[ptx_key ptx := transaction ptx]> (required ds)). assert (dom R' = {[ptx_key ptx]} ∪ dom (required ds)) as HR' by apply dom_insert_L.
  assert (exists w, require_tx ptx ds = Ok {| required := R'; recheck := recheck ds; dep_weight := w |} /\ w = wsum wt (dom R')) as (w & -> & Hw').
  { unfold require_tx. fold R'. destruct (required ds !! ptx_key ptx) as [tx|] eqn:Hk.
    - eexists. split; [done|]. rewrite Hd, HR'. f_equal. apply elem_of_dom_2 in Hk. set_solver.
    - apply not_elem_of_dom in Hk. assert (wsum wt (dom R') = wt (ptx_key ptx) + wsum wt (dom (required ds))) as Hs by (by rewrite HR', wsum_insert).
      assert (wt (ptx_key ptx) = weight ptx) as Hwp by (unfold wt; by rewrite Hst).
      assert (wsum wt (dom R') <= wsum wt (dom (up_tx_by_key self))) as Hle.
      { apply wsum_subset; [apply wt_nonneg|]. rewrite HR'. pose proof (required_in_pool ds Hinv). apply elem_of_dom_2 in Hst. set_solver. }
      pose proof (wsum_nonneg wt wt_nonneg (dom (required ds))). pose proof (Hw _ _ Hst).
      rewrite arith_ok by lia. cbn. eexists. split; [done|]. lia. }
  eexists. split; [done|]. split; [|done]. split; [|split; cbn [required]].
  - split; [|split; [done|split; [done|]]]; cbn [required recheck].
    + intros k tx Hk. apply lookup_insert_Some in Hk as [[<- <-]|[_ Hk]]; [|by apply Hr]. split; [by exists ptx|done].
    + intros Hnil. specialize (Hcl Hnil). specialize (Hdeps Hnil). rewrite HR'. intros k ptx' Hk Hst'. apply elem_of_union in Hk as [Hk|Hk].
      * apply elem_of_singleton in Hk as ->. unfold stored in *. rewrite Hst in Hst'. injection Hst' as <-.
        eapply Forall_impl; [exact Hdeps|]. intros h. apply provided_mono. set_solver.
      * eapply Forall_impl; [by eapply Hcl|]. intros h. apply provided_mono. set_solver.
  - rewrite HR'. set_solver.
  - intros _. rewrite HR'. set_solver.
Qed.

(** The loop over the dependencies of [ptx], given the recursive calls. *)
Lemma dependent_loop_ok rec ptx deps ds :
  (forall dep ds, (rank (ptx_key dep) < rank (ptx_key ptx))%nat -> stored (ptx_key dep) dep -> ptx_key dep ∉ dom sel ->
     dep_inv ds -> recheck ds = [] -> exists ds', rec dep ds = Ok ds' /\ dep_result dep ds ds') ->
  stored (ptx_key ptx) ptx -> Forall (fun h => h ∈ dependent_output_hashes ptx) deps -> dep_inv ds -> recheck ds = [] ->
  exists ds', dependent_loop rec self sel ptx deps ds = Ok ds' /\ dep_inv ds' /\ dom (required ds) ⊆ dom (required ds') /\
    (recheck ds' = [] -> Forall (provided (dom (required ds') ∪ dom sel)) deps).
Proof.
  intros Hrec Hst. revert ds. induction deps as [|h deps IH]; intros ds Hdeps Hinv Hnil; cbn [dependent_loop]; [by exists ds|].
  apply Forall_cons in Hdeps as [Hh Hdeps]. destruct (up_txs_by_output self !! h) as [keys|] eqn:Hkeys.
  2: { exists (push_recheck ptx ds). split; [done|]. split; [by apply push_recheck_inv|]. split; [done|]. intros Hn. by apply app_nil in Hn as [_ ?]. }
  destruct (find_highest_ok h keys Hkeys) as (dep & -> & Hdep & Hout). cbn [mbind result_bind].
  destruct (sel !! ptx_key dep) as [tx|] eqn:Hsel.
  - destruct (IH ds Hdeps Hinv Hnil) as (ds' & Hl & Hinv' & Hsub & Hall). exists ds'. split; [done|]. split; [done|]. split; [done|].
    intros Hn. constructor; [|by apply Hall]. exists (ptx_key dep), dep. split; [|done]. apply elem_of_dom_2 in Hsel. set_solver.
  - apply not_elem_of_dom in Hsel. assert (rank (ptx_key dep) < rank (ptx_key ptx))%nat as Hlt by (by eapply (proj2 Hrank)).
    destruct (Hrec dep ds Hlt Hdep Hsel Hinv Hnil) as (ds1 & -> & Hinv1 & Hsub1 & Hin1). cbn [mbind result_bind].
    destruct (recheck ds1) as [|kt rest] eqn:Hrc.
    + destruct (IH ds1 Hdeps Hinv1 Hrc) as (ds' & Hl & Hinv' & Hsub & Hall). exists ds'. split; [done|]. split; [done|]. split; [set_solver|].
      intros Hn. constructor; [|by apply Hall]. exists (ptx_key dep), dep. split; [|done]. specialize (Hin1 eq_refl). set_solver.
    + exists (push_recheck ptx ds1). split; [done|]. split; [by apply push_recheck_inv|]. split; [done|]. intros Hn. by apply app_nil in Hn as [_ ?].
Qed.

Lemma get_all_dependent_ok fuel ptx ds :
  (rank (ptx_key ptx) < fuel)%nat -> stored (ptx_key ptx) ptx -> ptx_key ptx ∉ dom sel -> dep_inv ds -> recheck ds = [] ->
  exists ds', get_all_dependent_transactions fuel self sel ptx ds = Ok ds' /\ dep_result ptx ds ds'.
Proof.
  revert ptx ds. induction fuel as [|fuel IH]; intros ptx ds Hlt Hst Hsel Hinv Hnil; [lia|]. cbn [get_all_dependent_transactions].
  destruct (dependent_loop_ok (get_all_dependent_transactions fuel self sel) ptx (dependent_output_hashes ptx) ds) as (ds1 & -> & Hinv1 & Hsub1 & Hall1);
    [|done|by apply Forall_forall|done|done|].
  { intros dep ds' Hd. intros. apply IH; try done. lia. }
  cbn [mbind result_bind]. destruct (require_tx_ok ptx ds1 Hinv1 Hst Hsel Hall1) as (ds2 & -> & (Hinv2 & Hsub2 & Hin2) & _).
  exists ds2. split; [done|]. split; [done|]. split; [set_solver|done].
Qed.

End Dependencies.

(** ** The selection *)

Definition fetch_inv (total_weight : Z) (st : FetchState) : Prop :=
  (forall k tx, selected st !! k = Some tx -> from_pool k tx) /\
  curr_weight st = wsum wt (dom (selected st)) /\ curr_weight st <= total_weight /\
  closed_in (dom (selected st)) (dom (selected st)) /\
  Forall (fun kt => from_pool kt.1 kt.2) (to_recheck st).

Lemma selected_in_pool total_weight st : fetch_inv total_weight st -> dom (selected st) ⊆ dom (up_tx_by_key self).
Proof. intros (Hs & _) k [tx Hk]%elem_of_dom. destruct (Hs k tx Hk) as (ptx & Hst & _). apply elem_of_dom. by exists ptx. Qed.

Lemma fetch_step_ok rank total_weight k ptx st :
  topological rank -> stored k ptx -> fetch_inv total_weight st ->
  exists c st', fetch_step self total_weight k st = Ok (c, st') /\ fetch_inv total_weight st'.
Proof.
  intros Hrank Hst Hinv. pose proof Hinv as (Hs & Hc & Hle & Hcl & Hrc). unfold fetch_step.
  destruct (selected st !! k) as [tx|] eqn:Hk; [by exists true, st|]. unfold stored in Hst. rewrite Hst. cbn [ok_or mbind result_bind].
  assert (ptx_key ptx = k) as Hkey by (by apply (proj1 (proj2 (proj2 Hok)))). rewrite <- Hkey in Hst, Hk.
  destruct (get_all_dependent_ok rank Hrank (selected st) (S (size (up_tx_by_key self))) ptx {| required := ∅; recheck := []; dep_weight := 0 |})
    as (ds & -> & (Hr & Hd & Hre & Hdcl) & _ & _); [pose proof (proj1 Hrank _ _ Hst); lia|done|by apply not_elem_of_dom| |done|].
  { split; [intros k' tx'; cbn; by rewrite lookup_empty|]. split; [cbn; by rewrite dom_empty_L|]. split; [done|]. intros _ k' ptx'. cbn. rewrite dom_empty_L. set_solver. }
  cbn [mbind result_bind]. assert (dom (required ds) ## dom (selected st)) as Hdisj.
  { intros k' [tx' Hk']%elem_of_dom Hin. by destruct (Hr k' tx' Hk'). }
  assert (dom (required ds) ∪ dom (selected st) ⊆ dom (up_tx_by_key self)) as Hsub.
  { apply union_subseteq. split; [|by eapply selected_in_pool]. intros k' [tx' Hk']%elem_of_dom. destruct (Hr k' tx' Hk') as [(p' & Hst' & _) _].
    apply elem_of_dom. by exists p'. }
  pose proof (wsum_subset wt wt_nonneg _ _ Hsub) as Hbound. rewrite wsum_union in Hbound by done.
  pose proof (wsum_nonneg wt wt_nonneg (dom (required ds))). pose proof (wsum_nonneg wt wt_nonneg (dom (selected st))).
  rewrite arith_ok by lia. cbn [mbind result_bind]. destruct ((_ <=? total_weight) && _) eqn:Hfit.
  - apply andb_true_iff in Hfit as [Hfit%Z.leb_le Hnil%bool_decide_eq_true]. destruct (find_duplicate_input _ _); [by exists true, st|].
    eexists true, _. split; [done|]. split; [|split; [|split; [|split]]]; cbn [selected curr_weight to_recheck]; [|..|done].
    + intros k' tx' Hk'. apply lookup_union_Some_raw in Hk' as [Hk'|[_ Hk']]; [by apply Hr|by apply Hs].
    + rewrite dom_union_L, wsum_union by done. lia.
    + done.
    + rewrite dom_union_L. intros k' ptx' [Hk'|Hk']%elem_of_union Hst'; [by apply (Hdcl Hnil k')|].
      eapply Forall_impl; [by apply (Hcl k')|]. intros h. apply provided_mono. set_solver.
  - eexists _, _. split; [done|]. split; [done|]. split; [done|]. split; [done|]. split; [done|]. cbn. by apply Forall_app.
Qed.

Lemma fetch_loop_ok rank total_weight keys st :
  topological rank -> Forall (fun k => exists ptx, stored k ptx) keys -> fetch_inv total_weight st ->
  exists st', fetch_loop self total_weight keys st = Ok st' /\ fetch_inv total_weight st'.
Proof.
  intros Hrank Hkeys. revert st. induction Hkeys as [|k keys [ptx Hk] _ IH]; intros st Hinv; cbn [fetch_loop]; [by exists st|].
  destruct (fetch_step_ok rank total_weight k ptx st Hrank Hk Hinv) as (c & st' & -> & Hinv'). cbn [mbind result_bind].
  destruct c; [by apply IH|by exists st'].
Qed.

(** C35: with a consistent pool whose weights are not negative and add up to at most [2^64 - 1], and no cyclic dependencies, selecting transactions for a block
    succeeds, the pool stays consistent, and the selected transactions are transactions of the
    pool whose weights fit into the requested weight and which include a provider of every
    output that one of them is recorded to depend on. With a cycle the selection aborts ([dependency_cycle_aborts]). *)
Theorem fetch_correct rank total_weight :
  0 <= total_weight -> topological rank ->
  exists results self' D, fetch_highest_priority_txs total_weight self = Ok (results, self') /\ pool_ok self' /\
    (forall tx, tx ∈ retrieved_transactions results <-> exists k, k ∈ D /\ from_pool k tx) /\
    wsum wt D <= total_weight /\ closed_in D D.
Proof.
  intros Htw Hrank. unfold fetch_highest_priority_txs.
  destruct (fetch_loop_ok rank total_weight (rev (map snd (up_tx_by_priority self)))
    {| selected := ∅; curr_weight := 0; curr_skip_count := 0; to_recheck := [] |}) as (st & -> & Hinv); [done|..].
  - apply Forall_forall. intros k Hk%list_elem_of_In%in_rev%list_elem_of_In. change (map snd ?l) with (snd <$> l) in Hk.
    apply list_elem_of_fmap in Hk as ([p k'] & -> & Hin). apply (proj1 (proj2 Hok)) in Hin as (ptx & Hptx & _). by exists ptx.
  - split; [intros k tx; cbn; by rewrite lookup_empty|]. split; [cbn; by rewrite dom_empty_L|]. split; [done|]. split; [|done].
    intros k ptx. cbn. rewrite dom_empty_L. set_solver.
  - cbn [mbind result_bind]. destruct (remove_transactions_ok (map fst (to_recheck st)) self Hok) as (removed & self' & -> & Hok' & _).
    cbn [mbind result_bind]. destruct Hinv as (Hs & Hc & Hle & Hcl & _). eexists _, self', (dom (selected st)).
    split; [done|]. split; [done|]. split; [|split; [lia|done]]. cbn [retrieved_transactions]. intros tx. change (map snd ?l) with (snd <$> l).
    rewrite list_elem_of_fmap. split.
    + intros ([k tx'] & -> & Hin%elem_of_map_to_list). exists k. split; [by apply elem_of_dom_2 in Hin|by apply Hs].
    + intros (k & [tx' Hk]%elem_of_dom & (ptx & Hst & <-)). destruct (Hs k tx' Hk) as (ptx' & Hst' & <-). exists (k, transaction ptx').
      unfold stored in *. split; [cbn; congruence|by apply elem_of_map_to_list].
Qed.

End Fetch.

(** * The unconfirmed pool at work

    Two behaviours of the selection of transactions that the pool's checks do not rule out, and
    instances of the theorems on the pool at concrete states, reached by insertions. *)

Section Cycle.
Context {V : TxView} (self : UnconfirmedPool).

(** A set of transactions each of which depends, first, on an output whose provider of highest
    priority is in the set as well. *)
Definition cyclic (C : gset Z) : Prop :=
  forall k ptx, k ∈ C -> stored self k ptx -> exists h rest keys dep, dependent_output_hashes ptx = h :: rest /\
    up_txs_by_output self !! h = Some keys /\ find_highest_priority_transaction keys self = Ok dep /\
    exists k', k' ∈ C /\ stored self k' dep.

Lemma cycle_descends C fuel k ptx ds : cyclic C -> k ∈ C -> stored self k ptx ->
  get_all_dependent_transactions fuel self ∅ ptx ds = Panic.
Proof.
  intros Hcyc. revert k ptx ds. induction fuel as [|fuel IH]; intros k ptx ds Hk Hst; [done|].
  destruct (Hcyc k ptx Hk Hst) as (h & rest & keys & dep & Hdeps & Hkeys & Hhigh & k' & Hin & Hdep).
  cbn [get_all_dependent_transactions]. rewrite Hdeps. cbn [dependent_loop]. rewrite Hkeys, Hhigh. cbn [mbind result_bind].
  rewrite lookup_empty, (IH k' dep) by done. done.
Qed.

(** Nothing stops the recursion that collects the dependencies of a transaction when they
    are cyclic: it exceeds any depth. If the transaction of highest priority is in a cycle, no
    block template can be made. *)
Theorem dependency_cycle_aborts C k ptx p rest :
  cyclic C -> k ∈ C -> stored self k ptx -> up_tx_by_priority self = rest ++ [(p, k)] ->
  (forall fuel ds, get_all_dependent_transactions fuel self ∅ ptx ds = Panic) /\
  (forall total_weight, fetch_highest_priority_txs total_weight self = Panic).
Proof.
  intros Hcyc Hk Hst Hp. split; [intros fuel ds; by eapply cycle_descends|]. intros total_weight. unfold fetch_highest_priority_txs.
  rewrite Hp, map_app, rev_app_distr. cbn [map rev app fetch_loop snd]. unfold fetch_step at 1. cbn [selected].
  rewrite lookup_empty. unfold stored in Hst. rewrite Hst. cbn [ok_or mbind result_bind].
  by rewrite (cycle_descends C _ k).
Qed.

End Cycle.

(** ** Concrete pools *)
Import ExampleTx.

(** Insert transactions, each with the outputs it depends on, into a pool. *)
Definition insert_all_txs (txs : list (Transaction * option (list Z))) (pool : UnconfirmedPool) : result UnconfirmedPoolError UnconfirmedPool :=
  foldM (fun pool tx => up_insert 100 tx.1 tx.2 weight_latest pool) txs pool.

Definition example_config : UnconfirmedPoolConfig := {| storage_capacity := 4; weight_tx_skip_count := 20 |}.

Definition pool_of (txs : list (Transaction * option (list Z))) : UnconfirmedPool :=
  match insert_all_txs txs (up_new example_config) with Ok pool => pool | _ => up_new example_config end.

(** [A] makes output 2; [B] spends 2 and makes 3; [A2] spends 3 and makes output 2 again. *)
Definition cyclic_pool : UnconfirmedPool :=
  pool_of [(mk_tx [1] [2] 11 500, None); (mk_tx [2] [3] 12 1000, Some [2]); (mk_tx [3; 4] [2] 13 2000, Some [3])].

(** One edge of the cycle: [k] depends on [h] first, for which [k'] is the provider of highest
    priority. *)
Definition edgeb (k h k' : Z) : bool :=
  bool_decide ((dependent_output_hashes <$> up_tx_by_key cyclic_pool !! k) = Some [h]) &&
  match up_txs_by_output cyclic_pool !! h with
  | Some keys => bool_decide (find_highest_priority_transaction keys cyclic_pool = ok_or (up_tx_by_key cyclic_pool !! k') StorageOutofSync)
  | None => false
  end && bool_decide (is_Some (up_tx_by_key cyclic_pool !! k')).

Lemma edge_cyclic k h k' ptx (C : gset Z) : edgeb k h k' = true -> k' ∈ C -> stored cyclic_pool k ptx ->
  exists h rest keys dep, dependent_output_hashes ptx = h :: rest /\ up_txs_by_output cyclic_pool !! h = Some keys /\
    find_highest_priority_transaction keys cyclic_pool = Ok dep /\ exists k', k' ∈ C /\ stored cyclic_pool k' dep.
Proof.
  unfold edgeb, stored. intros [[Hd%bool_decide_eq_true Hh]%andb_true_iff [dep Hdep]%bool_decide_eq_true]%andb_true_iff Hk' Hst.
  rewrite Hst in Hd. injection Hd as Hd. destruct (up_txs_by_output cyclic_pool !! h) as [keys|] eqn:Hkeys; [|done].
  apply bool_decide_eq_true in Hh. rewrite Hdep in Hh. exists h, [], keys, dep. split; [done|]. split; [done|]. split; [done|]. by exists k'.
Qed.

Lemma cyclic_pool_cyclic : cyclic cyclic_pool {[1; 2]}.
Proof.
  intros k ptx Hk. apply elem_of_union in Hk as [Hk|Hk]; apply elem_of_singleton in Hk as ->.
  - apply (edge_cyclic 1 2 2); [by vm_compute|set_solver].
  - apply (edge_cyclic 2 3 1); [by vm_compute|set_solver].
Qed.

Lemma dependency_cycle_aborts_witness : fetch_highest_priority_txs 10000 cyclic_pool = Panic.
Proof.
  assert (match last (up_tx_by_priority cyclic_pool) with Some (_, k) => k =? 2 | None => false end = true) as Hl by (by vm_compute).
  destruct (up_tx_by_priority cyclic_pool) as [|[p k] rest _] eqn:Hp using rev_ind; [done|]. rewrite last_snoc in Hl. apply Z.eqb_eq in Hl as ->.
  destruct (up_tx_by_key cyclic_pool !! 2) as [ptx|] eqn:Hptx.
  - apply (proj2 (dependency_cycle_aborts cyclic_pool {[1; 2]} 2 ptx p rest cyclic_pool_cyclic ltac:(set_solver) Hptx Hp)).
  - assert (bool_decide (is_Some (up_tx_by_key cyclic_pool !! 2)) = true) as Hs by (by vm_compute). rewrite Hptx in Hs.
    apply bool_decide_eq_true in Hs as [? ?]. done.
Defined.

(** [B] and [C] both spend output 1; [D] depends on an output of each. *)
Definition double_spend_pool : UnconfirmedPool :=
  pool_of [(mk_tx [1] [2] 11 500, None); (mk_tx [1] [3] 12 500, None); (mk_tx [2; 3] [4] 13 2000, Some [2; 3])].

(** The check for duplicate inputs compares a candidate with the transactions selected
    before, not with the transactions the candidate depends on: the selection made from the pool
    above contains two transactions that spend the same output. *)
Theorem selection_double_spends :
  exists results pool, fetch_highest_priority_txs 10000 double_spend_pool = Ok (results, pool) /\
    mk_tx [1] [2] 11 500 ∈ retrieved_transactions results /\ mk_tx [1] [3] 12 500 ∈ retrieved_transactions results.
Proof.
  assert (match fetch_highest_priority_txs 10000 double_spend_pool with
    | Ok (results, _) => bool_decide (mk_tx [1] [2] 11 500 ∈ retrieved_transactions results) &&
                         bool_decide (mk_tx [1] [3] 12 500 ∈ retrieved_transactions results)
    | _ => false end = true) as Hf by (by vm_compute).
  destruct (fetch_highest_priority_txs 10000 double_spend_pool) as [[results pool]|e|]; [|done..].
  apply andb_true_iff in Hf as [H1%bool_decide_eq_true H2%bool_decide_eq_true]. by exists results, pool.
Qed.

(** ** Instances of the theorems on the pool *)

Definition example_ptx : PrioritizedTransaction :=
  {| ptx_key := 0; transaction := mk_tx [1] [2] 11 500; priority := [1]; weight := 71; dependent_output_hashes := [] |}.

Definition example_pool : UnconfirmedPool := insert_prioritized example_ptx (next_counter (up_new example_config)).

Lemma example_pool_ok : pool_ok example_pool.
Proof.
  apply insert_prioritized_ok.
  - apply next_counter_ok; [apply up_new_ok|by_evaluation].
  - apply lookup_empty.
  - by_evaluation.
  - intros k ptx. cbn. by rewrite lookup_empty.
Qed.

Lemma example_pool_stored k ptx : up_tx_by_key example_pool !! k = Some ptx -> k = 0 /\ ptx = example_ptx.
Proof. cbn. intros [[<- <-]|[_ Hk]]%lookup_insert_Some; [done|]. by rewrite lookup_empty in Hk. Qed.

Lemma insert_correct_witness : exists self',
  up_insert 100 (mk_tx [3] [4] 12 300) None weight_latest example_pool = Ok self' /\ pool_ok self'.
Proof.
  destruct (@ptx_new view UnconfirmedPoolError 100 1 weight_latest (mk_tx [3] [4] 12 300) None) as [ptx|e|] eqn:Hptx.
  - destruct (insert_correct 100 (mk_tx [3] [4] 12 300) None weight_latest example_pool ptx) as (self' & Hi & Hok & _).
    + apply example_pool_ok.
    + by_evaluation.
    + by_evaluation.
    + by_evaluation.
    + exact Hptx.
    + intros k ptx' [_ ->]%example_pool_stored. cbn. intros Hp.
      assert (match @ptx_new view UnconfirmedPoolError 100 1 weight_latest (mk_tx [3] [4] 12 300) None with
        | Ok p => negb (bool_decide (priority p = [1])) | _ => false end = true) as Hne by (by vm_compute).
      rewrite Hptx, bool_decide_eq_true_2 in Hne; done.
    + by exists self'.
  - assert (is_ok (@ptx_new view UnconfirmedPoolError 100 1 weight_latest (mk_tx [3] [4] 12 300) None) = true) as Ho by (by vm_compute).
    rewrite Hptx in Ho. done.
  - assert (is_ok (@ptx_new view UnconfirmedPoolError 100 1 weight_latest (mk_tx [3] [4] 12 300) None) = true) as Ho by (by vm_compute).
    rewrite Hptx in Ho. done.
Defined.

Lemma insert_zero_capacity_aborts_witness :
  up_insert 100 (mk_tx [3] [4] 12 300) None weight_latest (up_new {| storage_capacity := 0; weight_tx_skip_count := 20 |}) = Panic.
Proof.
  destruct (@ptx_new view UnconfirmedPoolError 100 0 weight_latest (mk_tx [3] [4] 12 300) None) as [ptx|e|] eqn:Hptx.
  - by apply (insert_zero_capacity_aborts 100 (mk_tx [3] [4] 12 300) None weight_latest 20 ptx).
  - assert (is_ok (@ptx_new view UnconfirmedPoolError 100 0 weight_latest (mk_tx [3] [4] 12 300) None) = true) as Ho by (by vm_compute).
    rewrite Hptx in Ho. done.
  - assert (is_ok (@ptx_new view UnconfirmedPoolError 100 0 weight_latest (mk_tx [3] [4] 12 300) None) = true) as Ho by (by vm_compute).
    rewrite Hptx in Ho. done.
Defined.

Lemma retrieve_by_sigs_correct_witness : exists txs remaining,
  up_retrieve_by_excess_sigs [11; 12] example_pool = Ok (txs, remaining) /\ transaction example_ptx ∈ txs.
Proof.
  destruct (@retrieve_by_sigs_correct view [11; 12] example_pool example_pool_ok) as (txs & remaining & Hr & Hin & _).
  exists txs, remaining. split; [done|]. apply Hin. exists 0, example_ptx, 11. split; [by_evaluation|]. split; [done|]. split; left.
Defined.

Lemma fetch_correct_witness : exists results self' D, fetch_highest_priority_txs 100 example_pool = Ok (results, self') /\ pool_ok self' /\
  (forall tx, tx ∈ retrieved_transactions results <-> exists k, k ∈ D /\ from_pool example_pool k tx) /\
  wsum (wt example_pool) D <= 100 /\ closed_in example_pool D D.
Proof.
  apply (fetch_correct example_pool) with (rank := fun _ => 0%nat).
  - apply example_pool_ok.
  - intros k ptx [_ ->]%example_pool_stored. cbn. lia.
  - by_evaluation.
  - lia.
  - split.
    + intros k ptx _. apply Nat.ltb_lt. by vm_compute.
    + intros k ptx h k' ptx' [_ ->]%example_pool_stored Hh. by apply not_elem_of_nil in Hh.
Defined.
