(* ===== verification/ReorgPool.v ===== *)
(** * The reorg pool

    src/base_layer/core/src/mempool/reorg_pool/reorg_pool.rs: every operation of [ReorgPool], the
    pool of the transactions of recent blocks. Hash maps are finite maps, iterated in the order of
    [map_to_list]; [compact] only changes their capacity. *)

From S2P Require Import Prelude Amounts MempoolTypes UnconfirmedPool UnconfirmedPoolSpec.

Local Open Scope Z_scope.

Record ReorgPoolConfig := { expiry_height : Z }.

Definition ReorgPoolConfig_default : ReorgPoolConfig := {| expiry_height := 5 |}.

Section ReorgPool.
Context {V : TxView}.

Abbreviation reorg_result := (result UnconfirmedPoolError).

Record ReorgPool := {
  rp_config : ReorgPoolConfig;
  rp_key_counter : Z;
  rp_tx_by_key : gmap Z Transaction;
  rp_txs_by_signature : gmap PrivateKey (list Z);
  rp_txs_by_height : gmap Z (list Z);
}.

Definition rp_new (config : ReorgPoolConfig) : ReorgPool :=
  {| rp_config := config; rp_key_counter := 0; rp_tx_by_key := ∅; rp_txs_by_signature := ∅; rp_txs_by_height := ∅ |}.

Definition rp_set (by_key : gmap Z Transaction) (by_signature : gmap PrivateKey (list Z)) (by_height : gmap Z (list Z))
    (self : ReorgPool) : ReorgPool :=
  {| rp_config := rp_config self; rp_key_counter := rp_key_counter self; rp_tx_by_key := by_key;
     rp_txs_by_signature := by_signature; rp_txs_by_height := by_height |}.

Definition rp_get_next_key (self : ReorgPool) : reorg_result (Z * ReorgPool) :=
  n ← arith 0 USIZE_MAX (rp_key_counter self + 1);
  Ok (rp_key_counter self,
      {| rp_config := rp_config self; rp_key_counter := n mod USIZE_MAX; rp_tx_by_key := rp_tx_by_key self;
         rp_txs_by_signature := rp_txs_by_signature self; rp_txs_by_height := rp_txs_by_height self |}).

(** One transaction of [cleanup_expired]. *)
Definition expire_tx (self : ReorgPool) (tx_id : Z) : reorg_result ReorgPool :=
  tx ← unwrap (rp_tx_by_key self !! tx_id);
  by_signature ← foldM (index_remove_sig tx_id) (kernel_sigs (body tx)) (rp_txs_by_signature self);
  Ok (rp_set (delete tx_id (rp_tx_by_key self)) by_signature (rp_txs_by_height self) self).

Definition cleanup_expired (height : Z) (self : ReorgPool) : reorg_result ReorgPool :=
  match checked 0 U64_MAX (height - expiry_height (rp_config self)) with
  | None => Ok self
  | Some height =>
      match rp_txs_by_height self !! height with
      | None => Ok self
      | Some tx_ids =>
          foldM expire_tx tx_ids (rp_set (rp_tx_by_key self) (rp_txs_by_signature self) (delete height (rp_txs_by_height self)) self)
      end
  end.

Definition rp_insert (height : Z) (tx : Transaction) (self : ReorgPool) : reorg_result ReorgPool :=
  if forallb (fun s => bool_decide (is_Some (rp_txs_by_signature self !! s))) (kernel_sigs (body tx)) then cleanup_expired height self
  else
    '(new_key, self) ← rp_get_next_key self;
    cleanup_expired height
      (rp_set (<[new_key := tx]> (rp_tx_by_key self))
         (fold_left (index_push new_key) (kernel_sigs (body tx)) (rp_txs_by_signature self))
         (index_push new_key (rp_txs_by_height self) height) self).

Definition rp_insert_all (height : Z) (txs : list Transaction) (self : ReorgPool) : reorg_result ReorgPool :=
  match txs with
  | [] => cleanup_expired height self
  | _ => foldM (fun self tx => rp_insert height tx self) txs self
  end.

Definition clear_and_retrieve_all (self : ReorgPool) : list Transaction * ReorgPool :=
  (map snd (map_to_list (rp_tx_by_key self)), rp_set ∅ ∅ ∅ self).

Definition rp_retrieve_by_excess_sigs (excess_sigs : list PrivateKey) (self : ReorgPool)
    : reorg_result (list Transaction * list PrivateKey) :=
  let '(found, remaining) := find_sigs (rp_txs_by_signature self) excess_sigs in
  txs ← mapM (fun id => unwrap (rp_tx_by_key self !! id)) (elements found);
  Ok (txs, remaining).

Definition rp_has_tx_with_excess_sig (excess_sig : PrivateKey) (self : ReorgPool) : bool :=
  bool_decide (is_Some (rp_txs_by_signature self !! excess_sig)).

(** The ids of one height with [tx_id] removed; [None] removes the height. *)
Definition height_without (tx_id : Z) (ids : list Z) : option (list Z) :=
  match position (fun id => id =? tx_id) ids with
  | Some pos => let ids := remove_at pos ids in if decide (ids = []) then None else Some ids
  | None => Some ids
  end.

Definition remove_from_height_index (tx_id : Z) (by_height : gmap Z (list Z)) : gmap Z (list Z) :=
  omap (height_without tx_id) by_height.

(** One id found for a kernel of a removed block. *)
Definition remove_reorged_id (acc : list Transaction * ReorgPool) (tx_id : Z) : list Transaction * ReorgPool :=
  let '(removed_txs, self) := acc in
  match rp_tx_by_key self !! tx_id with
  | Some tx =>
      (removed_txs ++ [tx],
       rp_set (delete tx_id (rp_tx_by_key self)) (rp_txs_by_signature self)
         (remove_from_height_index tx_id (rp_txs_by_height self)) self)
  | None => acc
  end.

Definition remove_reorged_kernel (acc : list Transaction * ReorgPool) (sig : PrivateKey) : list Transaction * ReorgPool :=
  let '(removed_txs, self) := acc in
  match rp_txs_by_signature self !! sig with
  | Some ids =>
      fold_left remove_reorged_id ids
        (removed_txs, rp_set (rp_tx_by_key self) (delete sig (rp_txs_by_signature self)) (rp_txs_by_height self) self)
  | None => acc
  end.

(** The signatures of a transaction, where the pool insists on their presence. *)
Definition strict_remove_sig (tx_id : Z) (m : gmap PrivateKey (list Z)) (sig : PrivateKey) : reorg_result (gmap PrivateKey (list Z)) :=
  match m !! sig with
  | None => Panic
  | Some _ => index_remove_sig tx_id m sig
  end.

Definition rp_remove (tx_id : Z) (self : ReorgPool) : reorg_result (option Transaction * ReorgPool) :=
  match rp_tx_by_key self !! tx_id with
  | None => Ok (None, self)
  | Some tx =>
      by_signature ← foldM (strict_remove_sig tx_id) (kernel_sigs (body tx)) (rp_txs_by_signature self);
      Ok (Some tx, rp_set (delete tx_id (rp_tx_by_key self)) by_signature (remove_from_height_index tx_id (rp_txs_by_height self)) self)
  end.

Definition discard_double_spends (published_block : Block) (self : ReorgPool) : reorg_result ReorgPool :=
  let to_remove := map_to_list (rp_tx_by_key self) ≫= fun kv =>
    map (fun _ => kv.1) (filter (fun input => input ∈ inputs (block_body published_block)) (inputs (body kv.2))) in
  foldM (fun self id => '(_, self) ← rp_remove id self; Ok self) to_remove self.

Definition remove_reorged_txs_and_discard_double_spends (removed_blocks new_blocks : list Block) (self : ReorgPool)
    : reorg_result (list Transaction * ReorgPool) :=
  self ← foldM (fun self block => discard_double_spends block self) new_blocks self;
  Ok (fold_left remove_reorged_kernel (removed_blocks ≫= fun block => kernel_sigs (block_body block)) ([], self)).

Definition rp_len (self : ReorgPool) : Z := Z.of_nat (size (rp_tx_by_key self)).

Definition rp_snapshot (self : ReorgPool) : list Transaction := map snd (map_to_list (rp_tx_by_key self)).

(** ** Consistency *)

(** The signatures of a stored transaction. *)
Definition tx_sigs (m : gmap Z Transaction) (id : Z) : list PrivateKey :=
  match m !! id with Some tx => kernel_sigs (body tx) | None => [] end.

(** [hv] gives the height of every stored transaction, once. *)
Definition heights_ok (self : ReorgPool) (hv : Z -> list Z) : Prop :=
  index_ok (rp_txs_by_height self) hv /\
  (forall id, rp_tx_by_key self !! id = None -> hv id = []) /\
  (forall id tx, rp_tx_by_key self !! id = Some tx -> exists h, hv id = [h] /\ 0 <= h <= U64_MAX).

Definition reorg_ok (self : ReorgPool) : Prop :=
  index_ok (rp_txs_by_signature self) (tx_sigs (rp_tx_by_key self)) /\ (exists hv, heights_ok self hv) /\
  (forall id tx, rp_tx_by_key self !! id = Some tx -> 0 <= id < rp_key_counter self) /\ 0 <= rp_key_counter self < USIZE_MAX.

End ReorgPool.

(** * The reorg pool stays consistent

    Insertion, expiry and the removal of double spends keep the indexes of the reorg pool in step.
    Removing the transactions of reorged blocks does so as well if a block contains either all
    the kernels of a pooled transaction or none; otherwise a signature is left behind that points
    to no transaction, and looking it up aborts. *)

Section ReorgPoolSpec.
Context {V : TxView}.
Implicit Types self : ReorgPool.

(** ** The height index *)

Lemma remove_height_ok id m hv h : index_ok m hv -> hv id = [h] ->
  index_ok (remove_from_height_index id m) (with_vals id [] hv).
Proof.
  intros Hok Hh. destruct (index_entry m hv id h [] Hok Hh) as (keys & pos & Hk & Hpos & Hocc & _).
  pose proof (index_removed_ok _ _ _ _ _ _ _ Hok Hh Hk Hocc) as [H1 H2].
  assert (forall k, remove_from_height_index id m !! k = (if decide (remove_at pos keys = []) then delete h m else <[h := remove_at pos keys]> m) !! k) as Heq.
  { intros k. unfold remove_from_height_index. rewrite lookup_omap. destruct (decide (k = h)) as [->|Hne].
    - rewrite Hk. cbn [mbind option_bind]. unfold height_without. rewrite Hpos.
      destruct (decide (remove_at pos keys = [])); [by rewrite lookup_delete_eq|by rewrite lookup_insert_eq].
    - assert (m !! k ≫= height_without id = m !! k) as ->; [|destruct (decide (remove_at pos keys = [])); [by rewrite lookup_delete_ne|by rewrite lookup_insert_ne]].
      destruct (m !! k) as [ids|] eqn:Hids; [|done]. cbn [mbind option_bind]. unfold height_without.
      destruct (position (fun i => i =? id) ids) as [p|] eqn:Hp; [|done]. apply position_Some in Hp as (x & Hx & ->%Z.eqb_eq).
      apply list_elem_of_lookup_2, occ_pos in Hx. pose proof (proj1 Hok k id) as Ho. rewrite Hids, Hh, occ_cons in Ho.
      change (default [] (Some ids)) with ids in Ho. rewrite decide_False in Ho by done. change (occ k []) with 0%nat in Ho. lia. }
  split; [intros k key; rewrite Heq; apply H1|intros k; rewrite Heq; apply H2].
Qed.

Lemma tx_sigs_delete m id key : with_vals id [] (tx_sigs m) key = tx_sigs (delete id m) key.
Proof. unfold with_vals, tx_sigs. case_decide; [subst; by rewrite lookup_delete_eq|by rewrite lookup_delete_ne]. Qed.

Lemma tx_sigs_insert m id tx key : m !! id = None ->
  with_vals id (tx_sigs m id ++ kernel_sigs (body tx)) (tx_sigs m) key = tx_sigs (<[id := tx]> m) key.
Proof. intros Hm. unfold with_vals, tx_sigs. rewrite Hm. case_decide; [subst; by rewrite lookup_insert_eq|by rewrite lookup_insert_ne]. Qed.

Lemma strict_remove_sigs id ks m vals : index_ok m vals -> vals id = ks ->
  exists m', foldM (strict_remove_sig id) ks m = Ok m' /\ index_ok m' (with_vals id [] vals).
Proof.
  revert m vals. induction ks as [|k ks IH]; intros m vals Hok Hv; cbn [foldM].
  - exists m. split; [done|]. eapply index_ok_ext; [|exact Hok]. intros key'. unfold with_vals. case_decide; congruence.
  - destruct (index_entry m vals id k ks Hok Hv) as (keys & pos & Hk & Hpos & Hocc & _).
    assert (strict_remove_sig id m k = index_remove_sig id m k) as -> by (unfold strict_remove_sig; by rewrite Hk).
    rewrite (index_remove_sig_eq _ _ _ _ _ Hk Hpos). cbn [mbind result_bind].
    destruct (IH _ (with_vals id ks vals) (index_removed_ok _ _ _ _ _ _ _ Hok Hv Hk Hocc) (with_vals_same _ _ _)) as (m' & Hm' & Hok').
    exists m'. split; [done|]. eapply index_ok_ext; [|exact Hok']. intros key'. apply with_vals_twice.
Qed.

Lemma heights_remove self id tx hv by_sig : heights_ok self hv -> rp_tx_by_key self !! id = Some tx ->
  heights_ok (rp_set (delete id (rp_tx_by_key self)) by_sig (remove_from_height_index id (rp_txs_by_height self)) self) (with_vals id [] hv).
Proof.
  intros (Hi & Hn & Hs) Hid. destruct (Hs id tx Hid) as (h & Hh & _). split; [by eapply remove_height_ok|]. cbn. split.
  - intros id' Hid'. unfold with_vals. case_decide; [done|]. apply Hn. by rewrite lookup_delete_ne in Hid'.
  - intros id' tx' [Hne Hid']%lookup_delete_Some. unfold with_vals. rewrite decide_False by done. by eapply Hs.
Qed.

(** ** Removal *)

Lemma rp_remove_ok id self : reorg_ok self ->
  exists self', rp_remove id self = Ok (rp_tx_by_key self !! id, self') /\ reorg_ok self' /\
    rp_tx_by_key self' = delete id (rp_tx_by_key self) /\ rp_key_counter self' = rp_key_counter self /\ rp_config self' = rp_config self.
Proof.
  intros Hok. pose proof Hok as (Hsig & (hv & Hhv) & Hk & Hc). unfold rp_remove. destruct (rp_tx_by_key self !! id) as [tx|] eqn:Hid.
  - destruct (strict_remove_sigs id (kernel_sigs (body tx)) _ _ Hsig) as (m' & -> & Hm'); [unfold tx_sigs; by rewrite Hid|].
    cbn [mbind result_bind]. eexists. split; [done|]. split; [|done]. split; [|split; [|split]]; cbn.
    + eapply index_ok_ext; [|exact Hm']. apply tx_sigs_delete.
    + exists (with_vals id [] hv). by eapply heights_remove.
    + intros id' tx' [_ Hid']%lookup_delete_Some. by eapply Hk.
    + done.
  - exists self. split; [done|]. split; [done|]. by rewrite delete_id.
Qed.

Lemma discard_double_spends_ok block self : reorg_ok self ->
  exists self', discard_double_spends block self = Ok self' /\ reorg_ok self' /\ rp_key_counter self' = rp_key_counter self /\
    rp_config self' = rp_config self /\
    (forall id tx, rp_tx_by_key self' !! id = Some tx <->
       rp_tx_by_key self !! id = Some tx /\ Forall (fun input => input ∉ inputs (block_body block)) (inputs (body tx))).
Proof.
  intros Hok. unfold discard_double_spends. set (to_remove := _ ≫= _).
  assert (forall ids self, reorg_ok self -> exists self', foldM (fun self id => '(_, self) ← rp_remove id self; Ok self) ids self = Ok self' /\
    reorg_ok self' /\ rp_key_counter self' = rp_key_counter self /\ rp_config self' = rp_config self /\
    (forall id, rp_tx_by_key self' !! id = if decide (id ∈ ids) then None else rp_tx_by_key self !! id)) as Hrm.
  { clear. intros ids. induction ids as [|id ids IH]; intros self Hok; cbn [foldM]; [by exists self|].
    destruct (rp_remove_ok id self Hok) as (self1 & -> & Hok1 & Hd & Hc & Hcfg). cbn [mbind result_bind].
    destruct (IH self1 Hok1) as (self' & Hf & Hok' & Hc' & Hcfg' & Hl). exists self'. split; [done|]. split; [done|]. split; [congruence|]. split; [congruence|].
    intros id'. rewrite Hl, Hd. destruct (decide (id' = id)) as [->|Hne].
    - rewrite lookup_delete_eq. rewrite (decide_True (P := id ∈ id :: ids)) by left. by case_decide.
    - rewrite lookup_delete_ne by done. destruct (decide (id' ∈ ids)); [by rewrite decide_True by (by right)|]. rewrite decide_False; [done|]. by intros [?|?]%elem_of_cons. }
  destruct (Hrm to_remove self Hok) as (self' & Hf & Hok' & Hc & Hcfg & Hl). exists self'. split; [done|]. split; [done|]. split; [done|]. split; [done|].
  intros id tx. rewrite Hl. assert (id ∈ to_remove <-> exists tx, rp_tx_by_key self !! id = Some tx /\ Exists (fun input => input ∈ inputs (block_body block)) (inputs (body tx))) as Hin.
  { unfold to_remove. rewrite list_elem_of_bind. split.
    - intros ([id' tx'] & Hm & Hk%elem_of_map_to_list). change (map ?f ?l) with (f <$> l) in Hm. apply list_elem_of_fmap in Hm as (input & -> & [Hi Hin]%list_elem_of_filter).
      exists tx'. split; [done|]. apply Exists_exists. by exists input.
    - intros (tx' & Hid & (input & Hin & Hi)%Exists_exists). exists (id, tx'). split; [|by apply elem_of_map_to_list]. change (map ?f ?l) with (f <$> l).
      apply list_elem_of_fmap. exists input. split; [done|]. by apply list_elem_of_filter. }
  destruct (decide (id ∈ to_remove)) as [H1|H1]; rewrite Hin in H1.
  - split; [done|]. intros [Hid Hall]. destruct H1 as (tx' & Hid' & Hex). rewrite Hid in Hid'. injection Hid' as <-.
    apply Exists_exists in Hex as (i & Hi & Hb). rewrite Forall_forall in Hall. by destruct (Hall i Hi).
  - split; [|by intros [? _]]. intros Hid. split; [done|]. apply Forall_forall. intros i Hi Hb. apply H1. exists tx. split; [done|]. apply Exists_exists. by exists i.
Qed.

(** ** Expiry *)

Lemma occ_NoDup (ids : list Z) : (forall id, (occ id ids <= 1)%nat) -> NoDup ids.
Proof.
  induction ids as [|id ids IH]; intros H; constructor.
  - intros Hin%occ_pos. specialize (H id). rewrite occ_cons, decide_True in H by done. lia.
  - apply IH. intros id'. specialize (H id'). rewrite occ_cons in H. lia.
Qed.

Lemma height_ids self hv h ids : heights_ok self hv -> rp_txs_by_height self !! h = Some ids ->
  NoDup ids /\ (forall id, id ∈ ids <-> hv id = [h]) /\ (forall id, id ∈ ids -> is_Some (rp_tx_by_key self !! id)).
Proof.
  intros (Hi & Hn & Hs) Hids.
  assert (forall id, (hv id = [h] /\ occ id ids = 1%nat) \/ (hv id <> [h] /\ occ id ids = 0%nat)) as Hocc.
  { intros id. pose proof (proj1 Hi h id) as Ho. rewrite Hids in Ho. change (default [] (Some ids)) with ids in Ho.
    destruct (rp_tx_by_key self !! id) as [tx|] eqn:Hid; [|rewrite (Hn id Hid) in *; by right].
    destruct (Hs id tx Hid) as (h' & Hh & _). rewrite Hh, occ_cons in *. change (occ h []) with 0%nat in Ho.
    destruct (decide (h = h')) as [->|Hne]; [by left|right]. split; [congruence|lia]. }
  split; [|split].
  - apply occ_NoDup. intros id. destruct (Hocc id) as [[_ ->]|[_ ->]]; lia.
  - intros id. rewrite <- occ_pos. destruct (Hocc id) as [[? ->]|[? ->]]; split; intros; done || lia.
  - intros id Hin%occ_pos. destruct (rp_tx_by_key self !! id) eqn:Hid; [done|]. destruct (Hocc id) as [[Hh _]|[_ Ho]]; [|lia]. rewrite (Hn id Hid) in Hh. done.
Qed.

Lemma expire_all ids self : NoDup ids -> (forall id, id ∈ ids -> is_Some (rp_tx_by_key self !! id)) ->
  index_ok (rp_txs_by_signature self) (tx_sigs (rp_tx_by_key self)) ->
  exists self', foldM expire_tx ids self = Ok self' /\ index_ok (rp_txs_by_signature self') (tx_sigs (rp_tx_by_key self')) /\
    rp_txs_by_height self' = rp_txs_by_height self /\ rp_key_counter self' = rp_key_counter self /\ rp_config self' = rp_config self /\
    (forall id, rp_tx_by_key self' !! id = if decide (id ∈ ids) then None else rp_tx_by_key self !! id).
Proof.
  revert self. induction ids as [|id ids IH]; intros self Hnd Hin Hok; cbn [foldM]; [by exists self|].
  apply NoDup_cons in Hnd as [Hni Hnd]. destruct (Hin id) as [tx Htx]; [left|]. unfold expire_tx. rewrite Htx. cbn [unwrap mbind result_bind].
  destruct (remove_sigs_ok id (kernel_sigs (body tx)) _ _ Hok) as (m' & -> & Hm'); [unfold tx_sigs; by rewrite Htx|]. cbn [mbind result_bind].
  destruct (IH (rp_set (delete id (rp_tx_by_key self)) m' (rp_txs_by_height self) self) Hnd) as (self' & Hf & Hok' & Hh & Hc & Hcfg & Hl).
  { intros id' Hid'. cbn. rewrite lookup_delete_ne by (intros ->; done). apply Hin. by right. }
  { cbn. eapply index_ok_ext; [|exact Hm']. apply tx_sigs_delete. }
  exists self'. split; [done|]. split; [done|]. split; [done|]. split; [done|]. split; [done|]. intros id'. rewrite Hl. cbn. destruct (decide (id' = id)) as [->|Hne].
  - rewrite lookup_delete_eq, (decide_True (P := id ∈ id :: ids)) by left. by case_decide.
  - rewrite lookup_delete_ne by done. destruct (decide (id' ∈ ids)); [by rewrite decide_True by (by right)|]. rewrite decide_False; [done|]. by intros [?|?]%elem_of_cons.
Qed.

Lemma index_delete_ok (m : gmap Z (list Z)) hv h ids : index_ok m hv -> m !! h = Some ids -> (forall id, id ∈ ids <-> hv id = [h]) ->
  (forall id, hv id = [] \/ exists h', hv id = [h']) -> index_ok (delete h m) (fun id => if decide (id ∈ ids) then [] else hv id).
Proof.
  intros [H1 H2] Hids Hin Hsh. split.
  - intros k id. destruct (decide (k = h)) as [->|Hne].
    + rewrite lookup_delete_eq. cbn [default]. change (occ id []) with 0%nat. case_decide as Hd; [done|]. rewrite <- H1, Hids.
      change (default [] (Some ids)) with ids. rewrite <- occ_pos in Hd. lia.
    + rewrite lookup_delete_ne by done. case_decide as Hd; [|apply H1]. apply Hin in Hd. rewrite H1, Hd, occ_cons, decide_False by done. done.
  - intros k. destruct (decide (k = h)) as [->|Hne]; [by rewrite lookup_delete_eq|by rewrite lookup_delete_ne].
Qed.

Lemma cleanup_expired_ok height self : reorg_ok self ->
  exists self', cleanup_expired height self = Ok self' /\ reorg_ok self' /\ rp_key_counter self' = rp_key_counter self /\
    rp_config self' = rp_config self /\ rp_txs_by_height self' !! (height - expiry_height (rp_config self)) = None /\
    (forall id tx, rp_tx_by_key self' !! id = Some tx <->
       rp_tx_by_key self !! id = Some tx /\ id ∉ default [] (rp_txs_by_height self !! (height - expiry_height (rp_config self)))).
Proof.
  intros Hok. pose proof Hok as (Hsig & (hv & Hhv) & Hk & Hc). unfold cleanup_expired.
  pose proof (proj1 (proj2 Hhv)) as Hn. pose proof (proj2 (proj2 Hhv)) as Hs.
  assert (forall id, hv id = [] \/ exists h', hv id = [h']) as Hsh.
  { intros id. destruct (rp_tx_by_key self !! id) as [tx|] eqn:Hid; [right|by left; apply Hn]. destruct (Hs id tx Hid) as (h & -> & _). by exists h. }
  set (h := height - expiry_height (rp_config self)).
  destruct (rp_txs_by_height self !! h) as [ids|] eqn:Hids.
  - destruct (height_ids _ _ _ _ Hhv Hids) as (Hnd & Hin & Hst).
    assert (0 <= h <= U64_MAX) as Hb.
    { destruct ids as [|id ids']; [by destruct (proj2 (proj1 Hhv) h)|]. destruct (Hst id) as [tx Htx]; [left|].
      destruct (Hs id tx Htx) as (h' & Hh' & Hb). rewrite (proj1 (Hin id)) in Hh' by left. congruence. }
    rewrite checked_ok by done. rewrite Hids.
    destruct (expire_all ids (rp_set (rp_tx_by_key self) (rp_txs_by_signature self) (delete h (rp_txs_by_height self)) self) Hnd Hst Hsig)
      as (self' & Hf & Hok' & Hh & Hc' & Hcfg & Hl). cbn in *. exists self'. split; [done|].
    split; [|split; [done|split; [done|split; [by rewrite Hh, lookup_delete_eq|]]]]; [|intros id tx; rewrite Hl; case_decide; naive_solver].
    split; [done|]. split; [|split; [|congruence]].
    + exists (fun id => if decide (id ∈ ids) then [] else hv id). split; [rewrite Hh; by apply index_delete_ok; [apply Hhv|..]|]. split.
      * intros id. rewrite Hl. case_decide; [done|apply Hn].
      * intros id tx. rewrite Hl. case_decide; [done|apply Hs].
    + intros id tx. rewrite Hl, Hc'. case_decide; [done|apply Hk].
  - assert ((match checked 0 U64_MAX h with None => Ok self | Some h' => match rp_txs_by_height self !! h' with None => Ok self
      | Some tx_ids => foldM expire_tx tx_ids (rp_set (rp_tx_by_key self) (rp_txs_by_signature self) (delete h' (rp_txs_by_height self)) self) end end) = Ok self) as ->.
    { destruct (checked 0 U64_MAX h) as [h'|] eqn:Hch; [|done]. apply checked_Some in Hch as [-> _]. by rewrite Hids. }
    exists self. split; [done|]. split; [done|]. split; [done|]. split; [done|]. split; [done|]. intros id tx. cbn. set_solver.
Qed.

(** ** Insertion *)

(** The pool with [tx] stored under the next key. *)
Definition rp_stored (height : Z) (tx : Transaction) self : ReorgPool :=
  {| rp_config := rp_config self; rp_key_counter := rp_key_counter self + 1;
     rp_tx_by_key := <[rp_key_counter self := tx]> (rp_tx_by_key self);
     rp_txs_by_signature := fold_left (index_push (rp_key_counter self)) (kernel_sigs (body tx)) (rp_txs_by_signature self);
     rp_txs_by_height := index_push (rp_key_counter self) (rp_txs_by_height self) height |}.

Lemma rp_new_ok config : reorg_ok (rp_new config).
Proof.
  split; [|split; [exists (fun _ => []); split; [apply index_ok_empty|split; [done|]]|split]]; cbn; done.
Qed.

Lemma next_key_fresh self : reorg_ok self -> rp_tx_by_key self !! rp_key_counter self = None.
Proof. intros (_ & _ & Hk & _). destruct (rp_tx_by_key self !! rp_key_counter self) eqn:Hx; [|done]. apply Hk in Hx. lia. Qed.

Lemma rp_stored_ok height tx self : reorg_ok self -> rp_key_counter self + 1 < USIZE_MAX -> 0 <= height <= U64_MAX ->
  reorg_ok (rp_stored height tx self).
Proof.
  intros Hok Hcnt Hh. pose proof (next_key_fresh self Hok) as Hfresh. destruct Hok as (Hsig & (hv & Hi & Hn & Hs) & Hk & Hcb).
  unfold rp_stored. set (key := rp_key_counter self) in *. split; [|split; [|split]]; cbn; [| | |lia].
  - eapply index_ok_ext; [|by apply index_push_all]. intros id. by apply tx_sigs_insert.
  - exists (with_vals key [height] hv). split; [|split]; cbn.
    + eapply index_ok_ext; [|by apply index_push_ok]. intros id. unfold with_vals. case_decide; [|done]. by rewrite (Hn key Hfresh).
    + intros id [Hne Hid]%lookup_insert_None. unfold with_vals. rewrite decide_False by done. by apply Hn.
    + intros id tx'. unfold with_vals. case_decide as Hd; [subst; intros _; by exists height|]. rewrite lookup_insert_ne by done. apply Hs.
  - intros id tx'. destruct (decide (id = key)) as [->|Hne]; [lia|]. rewrite lookup_insert_ne by done. intros Hx%Hk. lia.
Qed.

Lemma rp_insert_eq height tx self : reorg_ok self -> rp_key_counter self + 1 < USIZE_MAX ->
  rp_insert height tx self =
    if forallb (fun s => bool_decide (is_Some (rp_txs_by_signature self !! s))) (kernel_sigs (body tx)) then cleanup_expired height self
    else cleanup_expired height (rp_stored height tx self).
Proof.
  intros (_ & _ & _ & Hc) Hb. unfold rp_insert. case_match; [done|]. unfold rp_get_next_key. rewrite arith_ok by lia. cbn [mbind result_bind].
  rewrite Z.mod_small by lia. done.
Qed.

(** The reorg pool already knows every kernel of [tx]. *)
Definition rp_known self (tx : Transaction) : bool :=
  forallb (fun s => bool_decide (is_Some (rp_txs_by_signature self !! s))) (kernel_sigs (body tx)).

(** The ids that a block at [height] expires. *)
Definition expired self (height : Z) : list Z := default [] (rp_txs_by_height self !! (height - expiry_height (rp_config self))).

Lemma rp_insert_ok height tx self : reorg_ok self -> rp_key_counter self + 1 < USIZE_MAX -> 0 <= height <= U64_MAX ->
  0 < expiry_height (rp_config self) ->
  exists self', rp_insert height tx self = Ok self' /\ reorg_ok self' /\ rp_key_counter self' <= rp_key_counter self + 1 /\
    rp_config self' = rp_config self /\ expired self' height = [] /\
    (forall id tx', rp_tx_by_key self' !! id = Some tx' <->
       (rp_known self tx = false /\ id = rp_key_counter self /\ tx' = tx) \/ (rp_tx_by_key self !! id = Some tx' /\ id ∉ expired self height)).
Proof.
  intros Hok Hcnt Hh He. rewrite rp_insert_eq by done. fold (rp_known self tx). destruct (rp_known self tx) eqn:Hkn.
  { destruct (cleanup_expired_ok height self Hok) as (self' & -> & Hok' & Hc & Hcfg & Hx & Hl). exists self'. split; [done|]. split; [done|].
    split; [lia|]. split; [done|]. split; [unfold expired; by rewrite Hcfg, Hx|]. intros id tx'. rewrite Hl. naive_solver. }
  destruct (cleanup_expired_ok height _ (rp_stored_ok height tx self Hok Hcnt Hh)) as (self' & -> & Hok' & Hc & Hcfg & Hexp & Hl).
  exists self'. split; [done|]. split; [done|]. cbn in Hc, Hcfg, Hexp. split; [lia|]. split; [done|]. split; [unfold expired; by rewrite Hcfg, Hexp|].
  pose proof (next_key_fresh self Hok) as Hfresh.
  intros id tx'. rewrite Hl. cbn. unfold index_push. rewrite (lookup_insert_ne (rp_txs_by_height self)) by lia. fold (expired self height).
  assert (rp_key_counter self ∉ expired self height) as Hx.
  { unfold expired. destruct (rp_txs_by_height self !! _) as [ids|] eqn:Hids; [|apply not_elem_of_nil]. pose proof Hok as (_ & (hv & Hhv) & _).
    intros Hin. destruct (height_ids self hv _ _ Hhv Hids) as (_ & _ & Hst). destruct (Hst _ Hin). congruence. }
  destruct (decide (id = rp_key_counter self)) as [->|Hne]; [rewrite lookup_insert_eq|rewrite lookup_insert_ne by done]; naive_solver.
Qed.

Lemma sig_ids self s ids id tx : index_ok (rp_txs_by_signature self) (tx_sigs (rp_tx_by_key self)) ->
  rp_tx_by_key self !! id = Some tx -> default [] (rp_txs_by_signature self !! s) = ids -> id ∈ ids <-> s ∈ kernel_sigs (body tx).
Proof.
  intros [H1 _] Hid Hs. rewrite <- !occ_pos. specialize (H1 s id). rewrite Hs in H1. unfold tx_sigs in H1. rewrite Hid in H1. by rewrite H1.
Qed.

(** A signature is known exactly if a pooled transaction has it. *)
Lemma rp_has_sig_iff s self : reorg_ok self ->
  rp_has_tx_with_excess_sig s self = true <-> exists id tx, rp_tx_by_key self !! id = Some tx /\ s ∈ kernel_sigs (body tx).
Proof.
  intros ((H1 & H2) & _). unfold rp_has_tx_with_excess_sig. rewrite bool_decide_eq_true. split.
  - intros [ids Hids]. destruct ids as [|id ids]; [by destruct (H2 s)|]. specialize (H1 s id). rewrite Hids in H1.
    change (default [] (Some (id :: ids))) with (id :: ids) in H1. rewrite occ_cons, decide_True in H1 by done. unfold tx_sigs in H1.
    destruct (rp_tx_by_key self !! id) as [tx|] eqn:Hid; [|change (occ s []) with 0%nat in H1; lia]. exists id, tx. split; [done|]. apply occ_pos. lia.
  - intros (id & tx & Hid & Hin). apply (sig_ids self s _ id tx (conj H1 H2) Hid eq_refl) in Hin.
    destruct (rp_txs_by_signature self !! s); [done|]. by apply not_elem_of_nil in Hin.
Qed.

Lemma rp_known_iff self tx : rp_known self tx = true <-> Forall (fun s => rp_has_tx_with_excess_sig s self = true) (kernel_sigs (body tx)).
Proof. unfold rp_known. by rewrite forallb_forall, List.Forall_forall. Qed.

(** [self'] is [self] without the ids [gone] and with the transactions [txs], whose kernels can be
    found unless they were all known before and some id is gone. *)
Definition entered self (gone : list Z) (txs : list Transaction) (self' : ReorgPool) : Prop :=
  reorg_ok self' /\
  (forall id tx, rp_tx_by_key self !! id = Some tx -> id ∉ gone -> rp_tx_by_key self' !! id = Some tx) /\
  (forall id tx, rp_tx_by_key self' !! id = Some tx -> (rp_tx_by_key self !! id = Some tx /\ id ∉ gone) \/ tx ∈ txs) /\
  (forall tx, tx ∈ txs -> rp_known self tx = false \/ gone = [] ->
     Forall (fun s => rp_has_tx_with_excess_sig s self' = true) (kernel_sigs (body tx))).

Lemma entered_cons self gone tx txs self1 self' :
  reorg_ok self -> reorg_ok self1 -> entered self1 [] txs self' ->
  (forall id tx', rp_tx_by_key self1 !! id = Some tx' <->
     (rp_known self tx = false /\ id = rp_key_counter self /\ tx' = tx) \/ (rp_tx_by_key self !! id = Some tx' /\ id ∉ gone)) ->
  entered self gone (tx :: txs) self'.
Proof.
  intros Hok Hok1 (Hok' & Hkeep & Hfrom & Hall) Hl1.
  assert (forall id tx', rp_tx_by_key self1 !! id = Some tx' -> rp_tx_by_key self' !! id = Some tx') as Hk by (intros; apply Hkeep; [done|apply not_elem_of_nil]).
  split; [done|]. split; [intros; apply Hk, Hl1; naive_solver|]. split.
  { intros id tx' [[Hid _]|Hin]%Hfrom; [|right; by right]. apply Hl1 in Hid as [(_ & _ & ->)|?]; [right; left|by left]. }
  intros tx' [->|Hin]%elem_of_cons Hexp; [|apply Hall; [done|by right]]. apply Forall_forall. intros s Hs. apply rp_has_sig_iff; [done|].
  destruct (rp_known self tx) eqn:Hkn.
  - destruct Hexp as [?| ->]; [done|]. apply rp_known_iff in Hkn. rewrite Forall_forall in Hkn.
    apply Hkn, rp_has_sig_iff in Hs as (id & tx' & Hid & Hin); [|done]. exists id, tx'. split; [|done]. apply Hk, Hl1. right. split; [done|apply not_elem_of_nil].
  - exists (rp_key_counter self), tx. split; [|done]. apply Hk, Hl1. naive_solver.
Qed.

Lemma rp_insert_batch height txs self : reorg_ok self -> rp_key_counter self + Z.of_nat (length txs) < USIZE_MAX -> 0 <= height <= U64_MAX ->
  0 < expiry_height (rp_config self) -> expired self height = [] \/ txs <> [] ->
  exists self', foldM (fun self tx => rp_insert height tx self) txs self = Ok self' /\ entered self (expired self height) txs self'.
Proof.
  intros Hok Hc Hh. revert self Hok Hc. induction txs as [|tx txs IH]; intros self Hok Hc He Hx; cbn [foldM].
  { destruct Hx as [-> | ?]; [|done]. exists self. split; [done|]. split; [done|]. split; [done|]. split; [set_solver|]. by intros tx' ?%not_elem_of_nil. }
  cbn [length] in Hc. destruct (rp_insert_ok height tx self Hok ltac:(lia) Hh He) as (self1 & -> & Hok1 & Hc1 & Hcfg1 & Hx1 & Hl1). cbn [mbind result_bind].
  destruct (IH self1 Hok1) as (self' & -> & Hent); [lia|by rewrite Hcfg1|by left|]. rewrite Hx1 in Hent.
  exists self'. split; [done|]. by eapply entered_cons.
Qed.

(** Entering the transactions of a published block drops exactly the transactions stored
    [expiry_height] blocks before it. *)
Lemma rp_insert_all_ok height txs self : reorg_ok self -> rp_key_counter self + Z.of_nat (length txs) < USIZE_MAX -> 0 <= height <= U64_MAX ->
  0 < expiry_height (rp_config self) ->
  exists self', rp_insert_all height txs self = Ok self' /\ entered self (expired self height) txs self'.
Proof.
  intros Hok Hc Hh He. destruct txs as [|tx txs]; cbn [rp_insert_all]; [|apply rp_insert_batch; by auto].
  destruct (cleanup_expired_ok height self Hok) as (self' & -> & Hok' & _ & _ & _ & Hl). exists self'. split; [done|]. fold (expired self height) in Hl.
  split; [done|]. split; [intros; by apply Hl|]. split; [intros id tx ?%Hl; by left|]. by intros tx ?%not_elem_of_nil.
Qed.

(** ** Removal of reorged transactions *)

Definition shares_kernel (sigs : list PrivateKey) (tx : Transaction) : Prop := Exists (fun s => s ∈ sigs) (kernel_sigs (body tx)).

(** Every pooled transaction has all or none of its kernels among [sigs]. *)
Definition covers (sigs : list PrivateKey) self : Prop :=
  forall id tx, rp_tx_by_key self !! id = Some tx -> shares_kernel sigs tx -> Forall (fun s => s ∈ sigs) (kernel_sigs (body tx)).

(** What the removal of the ids [gone] leaves, while the signature index still holds them. *)
Definition removed_to (self : ReorgPool) (gone : list Z) (txs : list Transaction) (self' : ReorgPool) : Prop :=
  (exists hv, heights_ok self' hv) /\ rp_key_counter self' = rp_key_counter self /\ rp_config self' = rp_config self /\
  (forall id tx, rp_tx_by_key self' !! id = Some tx <-> rp_tx_by_key self !! id = Some tx /\ id ∉ gone) /\
  (forall tx, tx ∈ txs <-> exists id, rp_tx_by_key self !! id = Some tx /\ id ∈ gone).

Lemma removed_to_ext self gone gone' txs s : removed_to self gone txs s ->
  (forall id, is_Some (rp_tx_by_key self !! id) -> id ∈ gone <-> id ∈ gone') -> removed_to self gone' txs s.
Proof.
  intros (H1 & H2 & H3 & H4 & H5) He. split; [done|]. split; [done|]. split; [done|].
  split; [intros id tx; rewrite H4|intros tx; rewrite H5].
  - split; intros [Hid ?]; (split; [done|]); [rewrite <- He|rewrite He]; done.
  - split; intros (id & Hid & ?); exists id; (split; [done|]); [rewrite <- He|rewrite He]; done.
Qed.

Lemma remove_id_ok self gone id txs s : removed_to self gone txs s ->
  let '(txs', s') := remove_reorged_id (txs, s) id in
  removed_to self (gone ++ [id]) txs' s' /\ rp_txs_by_signature s' = rp_txs_by_signature s.
Proof.
  intros Hr. pose proof Hr as ((hv & Hhv) & Hc & Hcfg & Hl & Htx). unfold remove_reorged_id. destruct (rp_tx_by_key s !! id) as [tx|] eqn:Hid.
  - split; [|done]. split; [exists (with_vals id [] hv); by eapply heights_remove|]. split; [done|]. split; [done|].
    cbn. apply Hl in Hid as [Hid Hng]. split.
    + intros i tx'. rewrite lookup_delete_Some, Hl, elem_of_app, list_elem_of_singleton. naive_solver.
    + intros tx'. rewrite elem_of_app, list_elem_of_singleton, Htx. setoid_rewrite elem_of_app. setoid_rewrite list_elem_of_singleton. naive_solver.
  - split; [|done]. eapply removed_to_ext; [exact Hr|]. intros i [tx Hi]. rewrite elem_of_app, list_elem_of_singleton.
    split; [by left|]. intros [?|Heq]; [done|]. subst i. destruct (decide (id ∈ gone)) as [|Hn]; [done|]. assert (rp_tx_by_key s !! id = Some tx) by (by apply Hl). congruence.
Qed.

Lemma remove_ids_ok self gone ids txs s : removed_to self gone txs s ->
  let '(txs', s') := fold_left remove_reorged_id ids (txs, s) in
  removed_to self (gone ++ ids) txs' s' /\ rp_txs_by_signature s' = rp_txs_by_signature s.
Proof.
  revert gone txs s. induction ids as [|id ids IH]; intros gone txs s Hr; cbn [fold_left]; [by rewrite app_nil_r|].
  pose proof (remove_id_ok self gone id txs s Hr) as H1. destruct (remove_reorged_id (txs, s) id) as [txs1 s1]. destruct H1 as [H1 Hs1].
  specialize (IH _ _ _ H1). rewrite <- app_assoc in IH. destruct (fold_left _ ids _) as [txs' s']. destruct IH as [? ?]. split; [done|congruence].
Qed.

(** After the kernels [done], the signature index has lost exactly them. *)
Definition kernels_removed (self : ReorgPool) (done : list PrivateKey) (txs : list Transaction) (self' : ReorgPool) : Prop :=
  (forall s, rp_txs_by_signature self' !! s = if decide (s ∈ done) then None else rp_txs_by_signature self !! s) /\
  exists gone, removed_to self gone txs self' /\
    forall id tx, rp_tx_by_key self !! id = Some tx -> id ∈ gone <-> shares_kernel done tx.

Lemma shares_kernel_snoc sigs s tx : shares_kernel (sigs ++ [s]) tx <-> shares_kernel sigs tx \/ s ∈ kernel_sigs (body tx).
Proof. unfold shares_kernel. rewrite !Exists_exists. set_solver. Qed.

Lemma remove_kernel_ok self sigs sig txs s : reorg_ok self -> kernels_removed self sigs txs s ->
  let '(txs', s') := remove_reorged_kernel (txs, s) sig in kernels_removed self (sigs ++ [sig]) txs' s'.
Proof.
  intros Hok (Hs & gone & Hr & Hg). pose proof Hok as (Hsig & _). unfold remove_reorged_kernel.
  destruct (rp_txs_by_signature s !! sig) as [ids|] eqn:Hids.
  - assert ((sig ∉ sigs) /\ rp_txs_by_signature self !! sig = Some ids) as [Hni Hid] by (rewrite Hs in Hids; by case_decide).
    pose proof (remove_ids_ok self gone ids txs (rp_set (rp_tx_by_key s) (delete sig (rp_txs_by_signature s)) (rp_txs_by_height s) s) Hr) as H1.
    destruct (fold_left _ ids _) as [txs' s']. destruct H1 as [H1 Hsg]. cbn in Hsg. split.
    + intros k. rewrite Hsg. destruct (decide (k = sig)) as [->|Hne]; [rewrite lookup_delete_eq|rewrite lookup_delete_ne by done; rewrite Hs].
      * by rewrite decide_True by set_solver.
      * destruct (decide (k ∈ sigs)); [by rewrite decide_True by set_solver|by rewrite decide_False by set_solver].
    + exists (gone ++ ids). split; [done|]. intros id tx Hx. rewrite elem_of_app, shares_kernel_snoc, (Hg id tx Hx), (sig_ids self sig ids id tx); [done|done|done|by rewrite Hid].
  - split.
    + intros k. rewrite Hs. destruct (decide (k = sig)) as [->|Hne].
      * rewrite (decide_True (P := sig ∈ sigs ++ [sig])) by set_solver. by rewrite <- Hs.
      * destruct (decide (k ∈ sigs)); [by rewrite decide_True by set_solver|by rewrite decide_False by set_solver].
    + exists gone. split; [done|]. intros id tx Hx. rewrite shares_kernel_snoc, (Hg id tx Hx). split; [by left|]. intros [|Hk]; [done|].
      unfold shares_kernel. apply Exists_exists. exists sig. split; [done|]. destruct (decide (sig ∈ sigs)) as [|Hd]; [done|].
      rewrite Hs, decide_False in Hids by done. rewrite <- (sig_ids self sig [] id tx) in Hk; [by apply not_elem_of_nil in Hk|done|done|by rewrite Hids].
Qed.

Lemma remove_kernels_ok self sigs : reorg_ok self ->
  let '(txs, s) := fold_left remove_reorged_kernel sigs ([], self) in kernels_removed self sigs txs s.
Proof.
  intros Hok. induction sigs as [|sig sigs IH] using rev_ind.
  - cbn. split; [intros k; by rewrite decide_False by apply not_elem_of_nil|]. exists []. pose proof Hok as (_ & Hhv & _). split.
    + split; [done|]. split; [done|]. split; [done|]. split; [|intros tx]; set_solver.
    + intros id tx _. unfold shares_kernel. rewrite Exists_exists. set_solver.
  - rewrite fold_left_app. cbn [fold_left]. destruct (fold_left _ sigs _) as [txs s]. by apply remove_kernel_ok.
Qed.

Lemma kernels_removed_ok self sigs txs s : reorg_ok self -> covers sigs self -> kernels_removed self sigs txs s -> reorg_ok s.
Proof.
  intros ((H1 & H2) & _ & Hk & Hc) Hcov (Hs & gone & (Hhv & Hcnt & _ & Hl & _) & Hg). split; [|split; [done|split]].
  - split; [|intros k; rewrite Hs; by case_decide]. intros k id. rewrite Hs. unfold tx_sigs.
    assert (forall tx, rp_tx_by_key s !! id = Some tx -> rp_tx_by_key self !! id = Some tx /\ ~ shares_kernel sigs tx) as Hst.
    { intros tx [Hid Hn]%Hl. split; [done|]. by rewrite <- (Hg id tx Hid). }
    case_decide as Hd.
    + cbn [default]. change (occ id []) with 0%nat. destruct (rp_tx_by_key s !! id) as [tx|]; [|done]. destruct (Hst tx eq_refl) as [_ Hn].
      destruct (Nat.eq_0_gt_0_cases (occ k (kernel_sigs (body tx)))) as [|Ho%occ_pos]; [done|]. destruct Hn. apply Exists_exists. by exists k.
    + rewrite H1. unfold tx_sigs. destruct (rp_tx_by_key s !! id) as [tx|] eqn:Hid; [by destruct (Hst tx eq_refl) as [-> _]|].
      destruct (rp_tx_by_key self !! id) as [tx|] eqn:Hid'; [|done]. change (occ k []) with 0%nat.
      destruct (Nat.eq_0_gt_0_cases (occ k (kernel_sigs (body tx)))) as [|Ho%occ_pos]; [done|].
      assert (id ∈ gone) as Hgo. { destruct (decide (id ∈ gone)); [done|]. assert (rp_tx_by_key s !! id = Some tx) by (by apply Hl). congruence. }
      apply (Hg id tx Hid'), (Hcov id tx Hid') in Hgo. rewrite Forall_forall in Hgo. by destruct Hd; apply Hgo.
  - intros id tx [Hid _]%Hl. rewrite Hcnt. by eapply Hk.
  - by rewrite Hcnt.
Qed.

(** None of the inputs of [tx] is spent by the [blocks]. *)
Definition unspent_by (blocks : list Block) (tx : Transaction) : Prop :=
  Forall (fun block => Forall (fun input => input ∉ inputs (block_body block)) (inputs (body tx))) blocks.

Lemma discard_blocks_ok blocks self : reorg_ok self ->
  exists self', foldM (fun self block => discard_double_spends block self) blocks self = Ok self' /\ reorg_ok self' /\
    (forall id tx, rp_tx_by_key self' !! id = Some tx <-> rp_tx_by_key self !! id = Some tx /\ unspent_by blocks tx).
Proof.
  revert self. induction blocks as [|block blocks IH]; intros self Hok; cbn [foldM].
  { exists self. split; [done|]. split; [done|]. intros id tx. split; [|by intros [? _]]. intros ?. split; [done|]. by apply Forall_nil. }
  destruct (discard_double_spends_ok block self Hok) as (s & -> & Hok1 & _ & _ & Hl1). cbn [mbind result_bind].
  destruct (IH s Hok1) as (self' & Hf & Hok' & Hl). exists self'. split; [done|]. split; [done|]. intros id tx. rewrite Hl, Hl1. unfold unspent_by. rewrite Forall_cons. tauto.
Qed.

(** The kernels of a list of blocks. *)
Definition block_sigs (blocks : list Block) : list PrivateKey := blocks ≫= fun block => kernel_sigs (block_body block).

(** Processing a reorg on a consistent pool, where each pooled transaction has all or none of
    its kernels in the removed blocks, never aborts and keeps the pool consistent. It returns
    exactly the transactions of the removed blocks that the new blocks do not double spend, and
    keeps exactly the other transactions that they do not double spend. *)
Theorem remove_reorged_correct removed_blocks new_blocks self :
  reorg_ok self -> covers (block_sigs removed_blocks) self ->
  exists txs self', remove_reorged_txs_and_discard_double_spends removed_blocks new_blocks self = Ok (txs, self') /\ reorg_ok self' /\
    (forall tx, tx ∈ txs <-> exists id, rp_tx_by_key self !! id = Some tx /\ unspent_by new_blocks tx /\ shares_kernel (block_sigs removed_blocks) tx) /\
    (forall id tx, rp_tx_by_key self' !! id = Some tx <->
       rp_tx_by_key self !! id = Some tx /\ unspent_by new_blocks tx /\ ~ shares_kernel (block_sigs removed_blocks) tx).
Proof.
  intros Hok Hcov. unfold remove_reorged_txs_and_discard_double_spends. fold (block_sigs removed_blocks).
  destruct (discard_blocks_ok new_blocks self Hok) as (s & -> & Hok1 & Hl1). cbn [mbind result_bind].
  pose proof (remove_kernels_ok s (block_sigs removed_blocks) Hok1) as Hr. destruct (fold_left _ _ _) as [txs self'].
  exists txs, self'. split; [done|]. split.
  - eapply kernels_removed_ok; [exact Hok1| |exact Hr]. intros id tx [Hid _]%Hl1. by eapply Hcov.
  - destruct Hr as (_ & gone & (_ & _ & _ & Hl & Htx) & Hg). split; intros; [rewrite Htx|rewrite Hl]; setoid_rewrite Hl1; split.
    + intros (id & Hid & Hgo). exists id. rewrite <- (Hg id tx (proj2 (Hl1 _ _) Hid)). naive_solver.
    + intros (id & Hid & Hu & Hsh). exists id. rewrite (Hg id tx (proj2 (Hl1 _ _) (conj Hid Hu))). naive_solver.
    + intros [Hid Hgo]. rewrite <- (Hg id tx (proj2 (Hl1 _ _) Hid)). naive_solver.
    + intros (Hid & Hu & Hsh). rewrite (Hg id tx (proj2 (Hl1 _ _) (conj Hid Hu))). naive_solver.
Qed.

Lemma mapM_unwrap_panic (m : gmap Z Transaction) ids id : id ∈ ids -> m !! id = None ->
  mapM (fun id => unwrap (E := UnconfirmedPoolError) (m !! id)) ids = Panic.
Proof.
  intros Hin Hm. induction ids as [|i ids IH]; [by apply not_elem_of_nil in Hin|]. cbn. destruct (m !! i) as [tx|] eqn:Hi; [|done].
  apply elem_of_cons in Hin as [->|Hin]; [congruence|]. cbn. by rewrite IH.
Qed.

(** If a removed block contains a kernel of a pooled transaction but the removed blocks do
    not contain another kernel of it (the transaction was only partly in the block, or the kernel
    was copied), the reorg leaves an index entry that points to nothing: asking the reorg pool for
    that other kernel aborts the node. *)
Theorem reorged_kernel_aborts removed_blocks new_blocks self id tx sig :
  reorg_ok self -> rp_tx_by_key self !! id = Some tx -> unspent_by new_blocks tx ->
  shares_kernel (block_sigs removed_blocks) tx -> sig ∈ kernel_sigs (body tx) -> sig ∉ block_sigs removed_blocks ->
  exists txs self', remove_reorged_txs_and_discard_double_spends removed_blocks new_blocks self = Ok (txs, self') /\
    rp_has_tx_with_excess_sig sig self' = true /\ rp_retrieve_by_excess_sigs [sig] self' = Panic.
Proof.
  intros Hok Hid Hu Hsh Hin Hni. unfold remove_reorged_txs_and_discard_double_spends. fold (block_sigs removed_blocks).
  destruct (discard_blocks_ok new_blocks self Hok) as (s & -> & Hok1 & Hl1). cbn [mbind result_bind].
  pose proof (remove_kernels_ok s (block_sigs removed_blocks) Hok1) as Hr. destruct (fold_left _ _ _) as [txs self'].
  exists txs, self'. split; [done|]. destruct Hr as (Hs & gone & (_ & _ & _ & Hl & _) & Hg).
  assert (rp_tx_by_key s !! id = Some tx) as Hid1 by (by apply Hl1). pose proof (proj2 (Hg id tx Hid1) Hsh) as Hgo.
  assert (rp_tx_by_key self' !! id = None) as Hno. { destruct (rp_tx_by_key self' !! id) eqn:Hx; [|done]. by apply Hl in Hx as [_ ?]. }
  apply (sig_ids s sig _ id tx (proj1 Hok1) Hid1 eq_refl) in Hin. specialize (Hs sig). rewrite decide_False in Hs by done.
  destruct (rp_txs_by_signature s !! sig) as [ids|] eqn:Hids; [|by apply not_elem_of_nil in Hin]. change (default [] (Some ids)) with ids in Hin. split.
  - unfold rp_has_tx_with_excess_sig. rewrite Hs. by rewrite bool_decide_true.
  - unfold rp_retrieve_by_excess_sigs. pose proof (find_sigs_spec (rp_txs_by_signature self') [sig]) as Hf. destruct (find_sigs _ _) as [found remaining].
    rewrite (mapM_unwrap_panic _ _ id); [done| |done]. apply elem_of_elements, Hf. exists sig, ids. split; [set_solver|done].
Qed.

End ReorgPoolSpec.

(** ** Instances *)
Import ExampleTx.

(** Two published transactions, the second with two kernels. *)
Definition single_tx : Transaction := mk_tx [1] [2] 21 500.
Definition double_tx : Transaction :=
  {| body := {| sorted := true; inputs := [3]; outputs := [4]; kernels := [(22, 500); (23, 500)] |} |}.
Definition example_reorg_pool : ReorgPool := rp_stored 7 double_tx (rp_stored 7 single_tx (rp_new ReorgPoolConfig_default)).
Definition block_with (sigs : list Z) : Block :=
  {| block_height := 7; block_body := {| sorted := true; inputs := []; outputs := []; kernels := map (fun s => (s, 500)) sigs |} |}.

Lemma example_reorg_pool_ok : reorg_ok example_reorg_pool.
Proof. apply rp_stored_ok; [apply rp_stored_ok; [apply rp_new_ok|..]|..]; done. Qed.

Lemma remove_reorged_correct_witness : exists txs self',
  remove_reorged_txs_and_discard_double_spends [block_with [21]] [block_with [24]] example_reorg_pool = Ok (txs, self') /\ reorg_ok self' /\
  (single_tx ∈ txs) /\ rp_tx_by_key self' !! 1 = Some double_tx.
Proof.
  destruct (remove_reorged_correct [block_with [21]] [block_with [24]] example_reorg_pool) as (txs & self' & Hr & Hok & Htx & Hl).
  { apply example_reorg_pool_ok. }
  { intros id tx. destruct (decide (id = 1)) as [->|H1].
    - intros [= <-]. unfold shares_kernel. rewrite Exists_exists. set_solver.
    - unfold example_reorg_pool, rp_stored. cbn. rewrite lookup_insert_ne by done. intros [(<- & <-)|(_ & ?)]%lookup_insert_Some; [|done].
      intros _. repeat constructor. }
  exists txs, self'. split; [done|]. split; [done|]. split.
  - apply Htx. exists 0. split; [done|]. split; [repeat constructor; apply not_elem_of_nil|]. repeat constructor.
  - apply Hl. split; [done|]. split; [repeat constructor; apply not_elem_of_nil|]. unfold shares_kernel. rewrite Exists_exists. set_solver.
Defined.

Lemma reorged_kernel_aborts_witness : exists txs self',
  remove_reorged_txs_and_discard_double_spends [block_with [22]] [] example_reorg_pool = Ok (txs, self') /\
  rp_has_tx_with_excess_sig 23 self' = true /\ rp_retrieve_by_excess_sigs [23] self' = Panic.
Proof.
  apply (reorged_kernel_aborts [block_with [22]] [] example_reorg_pool 1 double_tx 23).
  - apply example_reorg_pool_ok.
  - done.
  - constructor.
  - repeat constructor.
  - right. left.
  - by intros [?|?%not_elem_of_nil]%elem_of_cons.
Defined.
