(* ===== verification/MempoolStorage.v ===== *)
(** * The mempool

    The storage behind the mempool (mempool/mempool_storage.rs): the unconfirmed pool, the reorg pool
    and the handlers for new transactions, published, failed and reorged blocks and sync. The
    transaction validator and the hash map order of drained transactions are outside the code; the
    validator is a field, as it is in the source. [mempool.rs] runs each handler under a lock. *)

From S2P Require Import Prelude Amounts Emission Difficulty ConsensusConstants ConsensusManager MempoolTypes UnconfirmedPool UnconfirmedPoolSpec ReorgPool.

Local Open Scope Z_scope.

Inductive TxStorageResponse :=
| InUnconfirmedPool | InReorgPool | NotStoredOrphan | NotStoredTimeLocked | NotStoredAlreadySpent | NotStoredConsensus
| NotStored | NotStoredAlreadyMined.

#[export] Instance TxStorageResponse_eq_dec : EqDecision TxStorageResponse.
Proof. solve_decision. Defined.

Definition is_stored (self : TxStorageResponse) : bool :=
  match self with InUnconfirmedPool | InReorgPool => true | _ => false end.

Record StatsResponse := { unconfirmed_txs : Z; reorg_txs : Z; unconfirmed_weight : Z }.

Section MempoolStorage.
Context {V : TxView}.

(** The errors of the validator; the mempool does not tell the [OtherError]s apart. *)
Inductive ValidatorError :=
| UnknownInputs (outputs : list HashOutput) | ContainsSTxO | MaturityError | ConsensusError (msg : string)
| DuplicateKernelError (msg : string) | OtherError (msg : string).

Inductive MempoolError := FromUnconfirmedPool (e : UnconfirmedPoolError) | TransactionNoKernels.

Abbreviation mempool_result := (result MempoolError).

Record StateResponse := { state_unconfirmed : list Transaction; state_reorg : list (option PrivateKey) }.

Record MempoolStorage := {
  unconfirmed_pool : UnconfirmedPool;
  reorg_pool : ReorgPool;
  validator : Transaction -> result ValidatorError unit;
  rules : ConsensusManager;
}.

Definition set_unconfirmed (pool : UnconfirmedPool) (self : MempoolStorage) : MempoolStorage :=
  {| unconfirmed_pool := pool; reorg_pool := reorg_pool self; validator := validator self; rules := rules self |}.

Definition set_reorg (pool : ReorgPool) (self : MempoolStorage) : MempoolStorage :=
  {| unconfirmed_pool := unconfirmed_pool self; reorg_pool := pool; validator := validator self; rules := rules self |}.

Definition storage_new (config : UnconfirmedPoolConfig) (reorg_config : ReorgPoolConfig) (rules : ConsensusManager)
    (validator : Transaction -> result ValidatorError unit) : MempoolStorage :=
  {| unconfirmed_pool := up_new config; reorg_pool := rp_new reorg_config; validator := validator; rules := rules |}.

Definition lift_pool {A} (r : result UnconfirmedPoolError A) : mempool_result A := map_err FromUnconfirmedPool r.

Definition get_transaction_weighting (self : MempoolStorage) (height : Z) : mempool_result TransactionWeight :=
  c ← consensus_constants (rules self) height;
  Ok (transaction_weight c).

(** [insert] at time [now]. *)
Definition insert (now : Z) (tx : Transaction) (self : MempoolStorage) : mempool_result (TxStorageResponse * MempoolStorage) :=
  match validator self tx with
  | Ok _ =>
      weight ← get_transaction_weighting self 0;
      pool ← lift_pool (up_insert now tx None weight (unconfirmed_pool self));
      Ok (InUnconfirmedPool, set_unconfirmed pool self)
  | Err (UnknownInputs dependent_outputs) =>
      if contains_all_outputs dependent_outputs (unconfirmed_pool self) then
        weight ← get_transaction_weighting self 0;
        pool ← lift_pool (up_insert now tx (Some dependent_outputs) weight (unconfirmed_pool self));
        Ok (InUnconfirmedPool, set_unconfirmed pool self)
      else Ok (NotStoredOrphan, self)
  | Err ContainsSTxO => Ok (NotStoredAlreadySpent, self)
  | Err MaturityError => Ok (NotStoredTimeLocked, self)
  | Err (ConsensusError _) => Ok (NotStoredConsensus, self)
  | Err (DuplicateKernelError _) => Ok (NotStoredAlreadyMined, self)
  | Err (OtherError _) => Ok (NotStored, self)
  | Panic => Panic
  end.

(** [insert_txs]; the [i]-th transaction is inserted at time [clock i]. *)
Definition insert_txs (clock : nat -> Z) (txs : list Transaction) (self : MempoolStorage) : mempool_result MempoolStorage :=
  foldM (fun self itx => '(_, self) ← insert (clock itx.1) itx.2 self; Ok self) (imap pair txs) self.

Definition process_published_block (published_block : Block) (self : MempoolStorage) : mempool_result MempoolStorage :=
  '(removed_transactions, pool) ←
    lift_pool (remove_published_and_discard_deprecated_transactions published_block (unconfirmed_pool self));
  reorg ← lift_pool (rp_insert_all (block_height published_block) removed_transactions (reorg_pool self));
  Ok (set_reorg reorg (set_unconfirmed pool self)).

Definition clear_transactions_for_failed_block (clock : nat -> Z) (failed_block : Block) (self : MempoolStorage)
    : mempool_result MempoolStorage :=
  '(txs, pool) ← lift_pool (remove_published_and_discard_deprecated_transactions failed_block (unconfirmed_pool self));
  insert_txs clock txs (set_unconfirmed pool self).

Definition process_reorg (clock clock' : nat -> Z) (removed_blocks new_blocks : list Block) (self : MempoolStorage)
    : mempool_result MempoolStorage :=
  let '(removed_txs, pool) := drain_all_mempool_transactions (unconfirmed_pool self) in
  self ← insert_txs clock removed_txs (set_unconfirmed pool self);
  '(removed_txs, reorg) ← lift_pool (remove_reorged_txs_and_discard_double_spends removed_blocks new_blocks (reorg_pool self));
  insert_txs clock' removed_txs (set_reorg reorg self).

Definition process_sync (clock clock' : nat -> Z) (self : MempoolStorage) : mempool_result MempoolStorage :=
  let '(txs, pool) := drain_all_mempool_transactions (unconfirmed_pool self) in
  self ← insert_txs clock txs (set_unconfirmed pool self);
  let '(txs, reorg) := clear_and_retrieve_all (reorg_pool self) in
  insert_txs clock' txs (set_reorg reorg self).

Definition storage_snapshot (self : MempoolStorage) : list Transaction := up_snapshot (unconfirmed_pool self).

Definition retrieve_and_revalidate (clock : nat -> Z) (total_weight : Z) (self : MempoolStorage)
    : mempool_result (list Transaction * MempoolStorage) :=
  '(results, pool) ← lift_pool (fetch_highest_priority_txs total_weight (unconfirmed_pool self));
  self ← insert_txs clock (transactions_to_insert results) (set_unconfirmed pool self);
  Ok (retrieved_transactions results, self).

Definition retrieve_by_excess_sigs (excess_sigs : list PrivateKey) (self : MempoolStorage)
    : mempool_result (list Transaction * list PrivateKey) :=
  '(found_txns, remaining) ← lift_pool (up_retrieve_by_excess_sigs excess_sigs (unconfirmed_pool self));
  '(found_published_transactions, remaining) ← lift_pool (rp_retrieve_by_excess_sigs remaining (reorg_pool self));
  Ok (found_txns ++ found_published_transactions, remaining).

Definition has_tx_with_excess_sig (excess_sig : PrivateKey) (self : MempoolStorage) : TxStorageResponse :=
  if up_has_tx_with_excess_sig excess_sig (unconfirmed_pool self) then InUnconfirmedPool
  else if rp_has_tx_with_excess_sig excess_sig (reorg_pool self) then InReorgPool
  else NotStored.

(** One kernel in the fold of [has_transaction]. *)
Definition has_kernel (self : MempoolStorage) (stored : option TxStorageResponse) (excess_sig : PrivateKey) : option TxStorageResponse :=
  match stored with
  | None => Some (has_tx_with_excess_sig excess_sig self)
  | Some stored =>
      match has_tx_with_excess_sig excess_sig self, stored with
      | InUnconfirmedPool, InUnconfirmedPool => Some InUnconfirmedPool
      | InUnconfirmedPool, InReorgPool | InReorgPool, InUnconfirmedPool => Some NotStoredAlreadySpent
      | InReorgPool, InReorgPool => Some InReorgPool
      | InUnconfirmedPool, other | InReorgPool, other | other, _ => Some other
      end
  end.

Definition has_transaction (tx : Transaction) (self : MempoolStorage) : mempool_result TxStorageResponse :=
  ok_or (fold_left (has_kernel self) (kernel_sigs (body tx)) None) TransactionNoKernels.

Definition storage_stats (self : MempoolStorage) : mempool_result StatsResponse :=
  weighting ← get_transaction_weighting self 0;
  w ← lift_pool (up_calculate_weight weighting (unconfirmed_pool self));
  Ok {| unconfirmed_txs := up_len (unconfirmed_pool self); reorg_txs := rp_len (reorg_pool self); unconfirmed_weight := w |}.

(** The signatures of the first kernels, [None] where the source has the default signature. *)
Definition storage_state (self : MempoolStorage) : StateResponse :=
  {| state_unconfirmed := up_snapshot (unconfirmed_pool self);
     state_reorg := map (fun tx => head (kernel_sigs (body tx))) (rp_snapshot (reorg_pool self)) |}.

Definition get_fee_per_gram_stats (count : nat) (tip_height : Z) (self : MempoolStorage) : mempool_result (list FeePerGramStat) :=
  c ← consensus_constants (rules self) tip_height;
  target_weight ← get_max_block_weight_excluding_coinbase c;
  lift_pool (up_get_fee_per_gram_stats count target_weight (unconfirmed_pool self)).

End MempoolStorage.

(** * The mempool keeps its promises

    A published block moves the transactions it settles from the unconfirmed pool to the reorg
    pool; the report on a transaction is determined by where its kernels are; and two cases in
    which a transaction is lost without notice: one that is reported as stored when the pool is
    full, and one that depends on another unconfirmed transaction when the pool is revalidated. *)

Section Published.
Context {V : TxView}.
Implicit Types self : MempoolStorage.

(** ** Published blocks *)

Lemma remove_transaction_size key pool tx pool' : remove_transaction key pool = Ok (tx, pool') ->
  (length (option_list tx) + size (up_tx_by_key pool') = size (up_tx_by_key pool))%nat.
Proof.
  unfold remove_transaction. destruct (up_tx_by_key pool !! key) as [ptx|] eqn:Hk; [|by intros [= <- <-]].
  destruct (foldM _ _ _); [|done..]. intros [= <- <-]. cbn. rewrite map_size_delete_Some by done.
  assert (size (up_tx_by_key pool) <> 0%nat) by (apply map_size_ne_0_lookup_2 with key; eauto). lia.
Qed.

Lemma remove_transactions_size keys acc pool removed pool' : foldM remove_step keys (acc, pool) = Ok (removed, pool') ->
  (length removed + size (up_tx_by_key pool') = length acc + size (up_tx_by_key pool))%nat.
Proof.
  revert acc pool. induction keys as [|key keys IH]; intros acc pool; cbn [foldM]; [by intros [= <- <-]|].
  destruct (remove_step (acc, pool) key) as [[acc1 pool1]| |] eqn:Hs; [|done..]. cbn [mbind result_bind]. intros Hf%IH.
  unfold remove_step in Hs. cbn [fst snd] in Hs. destruct (remove_transaction key pool) as [[tx pool2]| |] eqn:Hr; [|done..].
  injection Hs as <- <-. apply remove_transaction_size in Hr. rewrite Hf, length_app. destruct tx; cbn in *; lia.
Qed.

Lemma remove_published_size block pool removed pool' :
  remove_published_and_discard_deprecated_transactions block pool = Ok (removed, pool') -> (length removed <= size (up_tx_by_key pool))%nat.
Proof.
  unfold remove_published_and_discard_deprecated_transactions, remove_transactions.
  destruct (foldM remove_step _ ([], pool)) as [[r1 p1]| |] eqn:H1; [|done..]. cbn [mbind result_bind].
  destruct (foldM remove_step _ ([], p1)) as [[r2 p2]| |] eqn:H2; [|done..]. cbn [mbind result_bind].
  destruct (foldM remove_step _ ([], p2)) as [[r3 p3]| |] eqn:H3; [|done..]. cbn [mbind result_bind]. intros [= <- <-].
  apply remove_transactions_size in H1, H2, H3. rewrite !length_app. cbn in *. lia.
Qed.

Definition storage_ok self : Prop := pool_ok (unconfirmed_pool self) /\ reorg_ok (reorg_pool self).

(** A published block never aborts a consistent mempool and leaves it consistent. The unconfirmed
    pool keeps exactly the transactions that do not conflict with the block. The reorg pool keeps
    its transactions except those stored [expiry_height] blocks earlier, gains only transactions
    removed from the unconfirmed pool, and knows the kernels of all of these that it did not know
    before. *)
Theorem process_published_correct (block : Block) self :
  storage_ok self -> 0 <= block_height block <= U64_MAX -> 0 < expiry_height (rp_config (reorg_pool self)) ->
  rp_key_counter (reorg_pool self) + Z.of_nat (size (up_tx_by_key (unconfirmed_pool self))) < USIZE_MAX ->
  exists self' moved, process_published_block block self = Ok self' /\ storage_ok self' /\
    (forall k ptx, up_tx_by_key (unconfirmed_pool self') !! k = Some ptx <->
       up_tx_by_key (unconfirmed_pool self) !! k = Some ptx /\ ~ conflicts (block_body block) ptx) /\
    (forall tx, tx ∈ moved <-> exists k ptx, up_tx_by_key (unconfirmed_pool self) !! k = Some ptx /\ transaction ptx = tx /\ conflicts (block_body block) ptx) /\
    entered (reorg_pool self) (expired (reorg_pool self) (block_height block)) moved (reorg_pool self').
Proof.
  intros [Hup Hrp] Hh He Hc. destruct (remove_published_exact block _ Hup) as (moved & pool & Hr & Hup' & Hk & Hm).
  pose proof (remove_published_size _ _ _ _ Hr) as Hlen.
  destruct (rp_insert_all_ok (block_height block) moved (reorg_pool self) Hrp ltac:(lia) Hh He) as (reorg & Hi & Hent).
  exists (set_reorg reorg (set_unconfirmed pool self)), moved. unfold process_published_block. rewrite Hr. cbn [lift_pool map_err mbind result_bind]. rewrite Hi.
  split; [done|]. split; [split; [done|apply Hent]|]. split; [done|]. split; [done|exact Hent].
Qed.

(** ** Reports *)

(** The report on a transaction with the given kernels, by where each of them is. *)
Definition report self (sigs : list PrivateKey) : TxStorageResponse :=
  let where_ s := has_tx_with_excess_sig s self in
  if forallb (fun s => bool_decide (where_ s = InUnconfirmedPool)) sigs then InUnconfirmedPool
  else if forallb (fun s => bool_decide (where_ s = InReorgPool)) sigs then InReorgPool
  else if existsb (fun s => bool_decide (where_ s = NotStored)) sigs then NotStored
  else NotStoredAlreadySpent.

Lemma has_sig_cases s self : has_tx_with_excess_sig s self = InUnconfirmedPool \/ has_tx_with_excess_sig s self = InReorgPool \/ has_tx_with_excess_sig s self = NotStored.
Proof. unfold has_tx_with_excess_sig. repeat case_match; auto. Qed.

(** Kernels that are all in one place are not in another one. *)
Lemma all_in_one sigs s self r r' : r <> r' ->
  forallb (fun s => bool_decide (has_tx_with_excess_sig s self = r)) (sigs ++ [s]) = true ->
  existsb (fun s => bool_decide (has_tx_with_excess_sig s self = r')) (sigs ++ [s]) = false /\
  forallb (fun s => bool_decide (has_tx_with_excess_sig s self = r')) (sigs ++ [s]) = false.
Proof.
  intros Hne Hall. rewrite forallb_forall in Hall.
  assert (forall x, In x (sigs ++ [s]) -> bool_decide (has_tx_with_excess_sig x self = r') = false) as Hno.
  { intros x Hx%Hall%bool_decide_eq_true. apply bool_decide_eq_false. congruence. }
  split.
  - apply not_true_iff_false. intros (x & Hx & Ht)%existsb_exists. by rewrite Hno in Ht.
  - rewrite forallb_app. cbn [forallb]. rewrite Hno by (apply in_or_app; right; left; done). by rewrite andb_false_r.
Qed.

Lemma report_snoc sigs s' s self : has_kernel self (Some (report self (sigs ++ [s']))) s = Some (report self ((sigs ++ [s']) ++ [s])).
Proof.
  pose proof (all_in_one sigs s' self InUnconfirmedPool NotStored ltac:(done)) as HUN.
  pose proof (all_in_one sigs s' self InUnconfirmedPool InReorgPool ltac:(done)) as HUR.
  pose proof (all_in_one sigs s' self InReorgPool NotStored ltac:(done)) as HRN.
  unfold report. rewrite !(forallb_app _ _ [s]), !(existsb_app _ _ [s]). cbn [forallb existsb has_kernel].
  set (U := forallb _ (sigs ++ [s'])) in *. set (N := existsb _ (sigs ++ [s'])) in *.
  set (R := forallb (fun s => bool_decide (has_tx_with_excess_sig s self = InReorgPool)) _) in *.
  clearbody U N R. destruct (has_sig_cases s self) as [-> | [-> | ->]], U, R, N; naive_solver.
Qed.

Lemma has_kernels_report self sigs s : fold_left (has_kernel self) (sigs ++ [s]) None = Some (report self (sigs ++ [s])).
Proof.
  revert s. induction sigs as [|s' sigs IH] using rev_ind; intros s.
  - unfold report. cbn. destruct (has_sig_cases s self) as [-> | [-> | ->]]; done.
  - rewrite fold_left_app, IH. apply report_snoc.
Qed.

(** The report on a transaction depends only on where its kernels are, not on their order:
    it is in a pool if all its kernels are in that pool, not stored if some kernel is in neither,
    and already spent if its kernels are divided between the pools. *)
Theorem has_transaction_correct (tx : Transaction) self :
  has_transaction tx self =
    match kernel_sigs (body tx) with [] => Err TransactionNoKernels | sigs => Ok (report self sigs) end.
Proof.
  unfold has_transaction. destruct (kernel_sigs (body tx)) as [|s sigs] eqn:Hs; [done|].
  destruct (exists_last (l := s :: sigs)) as (l & x & ->); [done|]. rewrite has_kernels_report. by destruct l.
Qed.

(** ** A transaction that is reported stored and is not *)

(** When the pool is full and a valid transaction has a lower priority than all those in it, the
    transaction is discarded, but the mempool answers that it is in the unconfirmed pool. *)
Theorem insert_reports_discarded now (tx : Transaction) self c ptx lowest :
  validator self tx = Ok tt -> consensus_constants (E := MempoolError) (rules self) 0 = Ok c ->
  up_key_counter (unconfirmed_pool self) + 1 <= USIZE_MAX -> 0 <= up_key_counter (unconfirmed_pool self) ->
  capacity (unconfirmed_pool self) <= Z.of_nat (size (up_tx_by_key (unconfirmed_pool self))) ->
  known (unconfirmed_pool self) tx = false ->
  @ptx_new V UnconfirmedPoolError now (up_key_counter (unconfirmed_pool self)) (transaction_weight c) tx None = Ok ptx ->
  lowest_priority (unconfirmed_pool self) = Ok lowest -> bytes_ltb (priority ptx) lowest = true ->
  exists self', insert now tx self = Ok (InUnconfirmedPool, self') /\
    up_tx_by_key (unconfirmed_pool self') = up_tx_by_key (unconfirmed_pool self) /\
    forall s, has_tx_with_excess_sig s self' = has_tx_with_excess_sig s self.
Proof.
  intros Hv Hc Hcnt Hcnt0 Hcap Hkn Hptx Hlow Hlt. unfold insert. rewrite Hv. unfold get_transaction_weighting. rewrite Hc. cbn [mbind result_bind].
  unfold up_insert. unfold known in Hkn. rewrite Hkn. unfold up_get_next_key. rewrite arith_ok by lia. cbn [mbind result_bind]. rewrite Hptx. cbn [mbind result_bind].
  unfold capacity in Hcap. cbn. rewrite (proj2 (Z.leb_le _ _) Hcap). unfold lowest_priority in *. cbn. rewrite Hlow. cbn. rewrite Hlt. cbn. by eexists.
Qed.

End Published.

(** ** Concrete mempools *)
Import ExampleTx.

(** A chain on which exactly the outputs below 100 exist. *)
Definition chain_validator (tx : Transaction) : result ValidatorError unit :=
  match filter (fun i => 100 <= i) (inputs (body tx)) with [] => Ok tt | unknown => Err (UnknownInputs unknown) end.

Definition example_rules : ConsensusManager := {| consensus_constants_list := esmeralda; emission := example_schedule |}.

Definition storage_of (cap : Z) (txs : list Transaction) : MempoolStorage :=
  let empty := storage_new {| storage_capacity := cap; weight_tx_skip_count := 20 |} ReorgPoolConfig_default example_rules chain_validator in
  match insert_txs (fun i => 100 + Z.of_nat i) txs empty with Ok self => self | _ => empty end.

(** [parent_tx] makes the output 100, which [child_tx] spends. *)
Definition parent_tx : Transaction := mk_tx [1] [100] 11 500.
Definition child_tx : Transaction := mk_tx [100] [101] 12 500.

Definition where_is (tx : Transaction) (r : result MempoolError MempoolStorage) : option TxStorageResponse :=
  match r with
  | Ok self => match has_transaction tx self with Ok r => Some r | _ => None end
  | _ => None
  end.

Definition family_storage : MempoolStorage := storage_of 10 [parent_tx; child_tx].

(** The family in an order in which a map may yield it. *)
Definition reinserted (txs : list Transaction) : result MempoolError MempoolStorage :=
  insert_txs (fun i => 200 + Z.of_nat i) txs (set_unconfirmed (drain_all_mempool_transactions (unconfirmed_pool family_storage)).2 family_storage).

(** After a sync (or a reorg) the mempool drains the unconfirmed pool in the arbitrary order of
    a hash map and inserts the transactions again. A transaction that depends on another one is kept
    if it comes second and is silently dropped if it comes first. *)
Theorem sync_loses_dependents :
  where_is parent_tx (Ok family_storage) = Some InUnconfirmedPool /\ where_is child_tx (Ok family_storage) = Some InUnconfirmedPool /\
  ((drain_all_mempool_transactions (unconfirmed_pool family_storage)).1 ≡ₚ [parent_tx; child_tx]) /\
  where_is child_tx (reinserted [parent_tx; child_tx]) = Some InUnconfirmedPool /\
  where_is parent_tx (reinserted [child_tx; parent_tx]) = Some InUnconfirmedPool /\
  where_is child_tx (reinserted [child_tx; parent_tx]) = Some NotStored /\
  where_is child_tx (process_sync (fun i => 200 + Z.of_nat i) (fun _ => 300) family_storage) = Some NotStored.
Proof.
  split; [by vm_compute|]. split; [by vm_compute|]. split.
  { assert ((drain_all_mempool_transactions (unconfirmed_pool family_storage)).1 = [child_tx; parent_tx]) as -> by by_evaluation.
    apply Permutation_swap. }
  repeat split; by vm_compute.
Qed.

Definition published : Block := {| block_height := 5; block_body := body (mk_tx [1] [7] 13 300) |}.

Definition one_ptx : PrioritizedTransaction :=
  {| ptx_key := 0; transaction := mk_tx [1] [2] 11 500; priority := [1]; weight := 71; dependent_output_hashes := [] |}.

Definition one_storage : MempoolStorage :=
  {| unconfirmed_pool := insert_prioritized one_ptx (next_counter (up_new {| storage_capacity := 1; weight_tx_skip_count := 20 |}));
     reorg_pool := rp_new ReorgPoolConfig_default; validator := chain_validator; rules := example_rules |}.

Lemma one_storage_ok : storage_ok one_storage.
Proof.
  split; [|apply rp_new_ok]. apply insert_prioritized_ok.
  - apply next_counter_ok; [apply up_new_ok|by_evaluation].
  - apply lookup_empty.
  - by_evaluation.
  - intros k ptx. cbn. by rewrite lookup_empty.
Qed.

Lemma process_published_correct_witness : exists self' (moved : list Transaction), process_published_block published one_storage = Ok self' /\ storage_ok self' /\
  mk_tx [1] [2] 11 500 ∈ moved.
Proof.
  destruct (process_published_correct published one_storage one_storage_ok) as (self' & moved & Hp & Hok & _ & Hm & _); [by_evaluation..|].
  exists self', moved. split; [done|]. split; [done|]. apply Hm. exists 0, one_ptx. split; [done|]. split; [done|]. right. left. exists 1. split; left.
Defined.

Definition rich_ptx : PrioritizedTransaction :=
  {| ptx_key := 0; transaction := mk_tx [1] [2] 11 500; priority := [255]; weight := 71; dependent_output_hashes := [] |}.

Definition full_storage : MempoolStorage :=
  {| unconfirmed_pool := insert_prioritized rich_ptx (next_counter (up_new {| storage_capacity := 1; weight_tx_skip_count := 20 |}));
     reorg_pool := rp_new ReorgPoolConfig_default; validator := chain_validator; rules := example_rules |}.
Definition cheap_tx : Transaction := mk_tx [2] [50] 14 1.

Lemma insert_reports_discarded_witness : exists self', insert 200 cheap_tx full_storage = Ok (InUnconfirmedPool, self') /\
  has_tx_with_excess_sig 14 self' = NotStored.
Proof.
  destruct (@ptx_new view UnconfirmedPoolError 200 1 weight_latest cheap_tx None) as [ptx| |] eqn:Hptx.
  2, 3: exfalso; assert (is_ok (@ptx_new view UnconfirmedPoolError 200 1 weight_latest cheap_tx None) = true) as Ht by (by vm_compute); by rewrite Hptx in Ht.
  assert (match @ptx_new view UnconfirmedPoolError 200 1 weight_latest cheap_tx None with Ok p => bytes_ltb (priority p) [255] | _ => false end = true) as Hlt
    by (by vm_compute). rewrite Hptx in Hlt.
  destruct (insert_reports_discarded 200 cheap_tx full_storage _ ptx [255] eq_refl eq_refl) as (self' & Hi & _ & Hs); [done|done|done|by vm_compute|exact Hptx|done|done|].
  exists self'. split; [done|]. rewrite Hs. by vm_compute.
Defined.
