(* ===== verification/TariAddress.v ===== *)
(** * The DammSum checksum

    src/base_layer/common_types/src/dammsum.rs: the checksum of emoji ids and addresses. A step
    adds a byte and doubles in the field of 256 elements. Doubling is linear and one-to-one, so a
    substituted byte always changes the checksum; its order is 51, so exchanging two different
    bytes changes it whenever they are fewer than 51 places apart. *)

From S2P Require Import Prelude Amounts Emission Difficulty ConsensusConstants.

Local Open Scope Z_scope.

Inductive ChecksumError := InputDataTooShort | InvalidChecksum.

Definition COEFFICIENTS : list Z := [4; 3; 1].

(** The bitmask of the reduction, computed with 8-bit additions. *)
Definition checksum_mask {E} : result E Z :=
  foldM (fun mask bit => arith 0 U8_MAX (mask + Z.shiftl 1 bit)) COEFFICIENTS 1.

(** One iteration of the loop of [compute_checksum]. *)
Definition checksum_step (mask res digit : Z) : Z :=
  let res := Z.lxor res digit in
  let overflow := negb (Z.land res (Z.shiftl 1 7) =? 0) in
  let res := Z.shiftl res 1 mod 2 ^ 8 in
  if overflow then Z.lxor res mask else res.

Definition compute_checksum {E} (data : list Z) : result E Z :=
  mask ← checksum_mask;
  Ok (fold_left (checksum_step mask) data 0).

Definition validate_checksum (data : list Z) : result ChecksumError unit :=
  if (length data <? 2)%nat then Err InputDataTooShort
  else
    c ← compute_checksum data;
    if c =? 0 then Ok tt else Err InvalidChecksum.

(** ** Doubling *)

(** All bytes, for statements that are checked by running through them. *)
Definition all_bytes : list Z := map Z.of_nat (seq 0 256).

Lemma all_bytes_elem b : is_u8 b -> In b all_bytes.
Proof. unfold is_u8, U8_MAX. intros Hb. apply in_map_iff. exists (Z.to_nat b). split; [lia|]. apply in_seq. lia. Qed.

Lemma bytes_check (P : Z -> bool) : forallb P all_bytes = true -> forall b, is_u8 b -> P b = true.
Proof. rewrite forallb_forall. intros H b Hb. by apply H, all_bytes_elem. Qed.

Lemma bytes_check2 (P : Z -> Z -> bool) : forallb (fun a => forallb (P a) all_bytes) all_bytes = true ->
  forall a b, is_u8 a -> is_u8 b -> P a b = true.
Proof. intros H a b Ha Hb. apply (bytes_check _ (bytes_check _ H a Ha) b Hb). Qed.

(** Multiplication by two in the field. *)
Definition double (z : Z) : Z := checksum_step 27 z 0.

Lemma xor_u8 a b : is_u8 a -> is_u8 b -> is_u8 (Z.lxor a b).
Proof.
  intros Ha Hb. apply (bool_decide_unpack _). apply Is_true_true. revert a b Ha Hb. apply (bytes_check2 (fun a b => bool_decide (is_u8 (Z.lxor a b)))). by vm_compute.
Qed.

Lemma double_u8 a : is_u8 a -> is_u8 (double a).
Proof. intros Ha. apply (bool_decide_unpack _), Is_true_true. revert a Ha. apply (bytes_check (fun a => bool_decide (is_u8 (double a)))). by vm_compute. Qed.

Lemma double_xor a b : is_u8 a -> is_u8 b -> double (Z.lxor a b) = Z.lxor (double a) (double b).
Proof. intros Ha Hb. apply Z.eqb_eq. revert a b Ha Hb. apply (bytes_check2 (fun a b => double (Z.lxor a b) =? Z.lxor (double a) (double b))). by vm_compute. Qed.

(** The order of doubling is 51. *)
Lemma double_order k a : (1 <= k <= 50)%nat -> is_u8 a -> Nat.iter k double a = a -> a = 0.
Proof.
  intros Hk Ha Heq. assert (forallb (fun a => (a =? 0) || forallb (fun k => negb (Nat.iter k double a =? a)) (seq 1 50)) all_bytes = true) as Hall by (by vm_compute).
  pose proof (bytes_check _ Hall a Ha) as H. apply orb_true_iff in H as [H%Z.eqb_eq|H]; [done|]. rewrite forallb_forall in H.
  specialize (H k ltac:(apply in_seq; lia)). by rewrite Heq, Z.eqb_refl in H.
Qed.

Lemma double_order_51 a : is_u8 a -> Nat.iter 51 double a = a.
Proof. intros Ha. apply Z.eqb_eq. revert a Ha. apply (bytes_check (fun a => Nat.iter 51 double a =? a)). by vm_compute. Qed.

Lemma double_inj a : is_u8 a -> double a = 0 -> a = 0.
Proof.
  intros Ha H0. assert (Nat.iter 50 double (double a) = a) as H by (by rewrite <- Nat.iter_succ_r; apply double_order_51).
  rewrite H0 in H. rewrite <- H. by vm_compute.
Qed.

(** ** The checksum as a fold of doublings *)

Definition damm_from (res : Z) (data : list Z) : Z := fold_left (fun res digit => double (Z.lxor res digit)) data res.

Lemma compute_checksum_eq {E} data : @compute_checksum E data = Ok (damm_from 0 data).
Proof.
  unfold compute_checksum. change (@checksum_mask E) with (Ok (E := E) 27). cbn [mbind result_bind]. f_equal. unfold damm_from. generalize 0.
  induction data as [|d data IH]; intros r; [done|]. cbn [fold_left]. rewrite <- IH. f_equal. unfold double, checksum_step. by rewrite Z.lxor_0_r.
Qed.

Lemma damm_from_app res l1 l2 : damm_from res (l1 ++ l2) = damm_from (damm_from res l1) l2.
Proof. apply fold_left_app. Qed.

Lemma damm_from_cons res d l : damm_from res (d :: l) = damm_from (double (Z.lxor res d)) l.
Proof. done. Qed.

Lemma damm_from_u8 res data : is_u8 res -> Forall is_u8 data -> is_u8 (damm_from res data).
Proof. intros Hr Hd. revert res Hr. induction Hd as [|d data Hd _ IH]; intros r Hr; [done|]. apply IH. by apply double_u8, xor_u8. Qed.

(** A difference between two states is doubled by every further byte. *)
Lemma damm_from_diff res diff data : is_u8 res -> is_u8 diff -> Forall is_u8 data ->
  damm_from (Z.lxor res diff) data = Z.lxor (damm_from res data) (Nat.iter (length data) double diff).
Proof.
  intros Hr Hf Hd. revert res diff Hr Hf. induction Hd as [|d data Hd _ IH]; intros r diff Hr Hf; [done|]. cbn [length]. rewrite !damm_from_cons, Nat.iter_succ_r.
  rewrite <- IH; [|by apply double_u8, xor_u8|by apply double_u8]. f_equal.
  rewrite <- double_xor by (done || by apply xor_u8). f_equal. rewrite !Z.lxor_assoc. f_equal. apply Z.lxor_comm.
Qed.

Lemma iter_u8 k a : is_u8 a -> is_u8 (Nat.iter k double a).
Proof. intros Ha. induction k as [|k IH]; [done|]. rewrite Nat.iter_succ. by apply double_u8. Qed.

Lemma iter_double_inj k a : is_u8 a -> Nat.iter k double a = 0 -> a = 0.
Proof.
  intros Ha. induction k as [|k IH]; [done|]. rewrite Nat.iter_succ. intros H%double_inj; [by apply IH|]. by apply iter_u8.
Qed.

Lemma lxor_fixed r x : Z.lxor r x = r -> x = 0.
Proof. intros H. by rewrite <- (Z.lxor_0_l x), <- (Z.lxor_nilpotent r), Z.lxor_assoc, H. Qed.

Lemma lxor_cancel r a b : Z.lxor r b = Z.lxor (Z.lxor r a) (Z.lxor a b).
Proof. rewrite Z.lxor_assoc, <- (Z.lxor_assoc a a b), Z.lxor_nilpotent, Z.lxor_0_l. done. Qed.

(** The effect of replacing byte [a] by [b]. *)
Lemma damm_substitute l1 a b l2 : Forall is_u8 (l1 ++ a :: l2) -> is_u8 b ->
  damm_from 0 (l1 ++ b :: l2) = Z.lxor (damm_from 0 (l1 ++ a :: l2)) (Nat.iter (S (length l2)) double (Z.lxor a b)).
Proof.
  intros [H1 [Ha H2]%Forall_cons]%Forall_app Hb. rewrite !damm_from_app, !damm_from_cons. assert (is_u8 (damm_from 0 l1)) by (by apply damm_from_u8).
  rewrite (lxor_cancel _ a b), double_xor by (by repeat apply xor_u8). rewrite Nat.iter_succ_r. apply damm_from_diff; [by apply double_u8, xor_u8|by apply double_u8, xor_u8|done].
Qed.

Lemma iter_double_xor k a b : is_u8 a -> is_u8 b -> Nat.iter k double (Z.lxor a b) = Z.lxor (Nat.iter k double a) (Nat.iter k double b).
Proof. intros Ha Hb. induction k as [|k IH]; [done|]. rewrite !Nat.iter_succ, IH. by apply double_xor; apply iter_u8. Qed.

(** The effect of exchanging two bytes. *)
Lemma damm_transpose l1 a m b l2 : Forall is_u8 (l1 ++ a :: m ++ b :: l2) ->
  damm_from 0 (l1 ++ b :: m ++ a :: l2) =
    Z.lxor (damm_from 0 (l1 ++ a :: m ++ b :: l2))
      (Nat.iter (S (length l2)) double (Z.lxor (Nat.iter (S (length m)) double (Z.lxor a b)) (Z.lxor a b))).
Proof.
  intros Hall. pose proof Hall as [H1 [Ha [Hm [Hb H2]%Forall_cons]%Forall_app]%Forall_cons]%Forall_app.
  assert (is_u8 (Z.lxor a b)) as Hab by (by apply xor_u8).
  rewrite (app_assoc (l1) (b :: m) (a :: l2) : l1 ++ b :: m ++ a :: l2 = _).
  rewrite (damm_substitute (l1 ++ b :: m) b a l2); [|by rewrite !Forall_app, !Forall_cons|done].
  rewrite <- (app_assoc l1 (b :: m) (b :: l2)). change ((b :: m) ++ b :: l2) with (b :: m ++ b :: l2).
  rewrite (damm_substitute l1 a b (m ++ b :: l2)) by done. rewrite Z.lxor_assoc. f_equal.
  rewrite (iter_double_xor (S (length l2)) (Nat.iter (S (length m)) double (Z.lxor a b)) (Z.lxor a b)) by (done || by apply iter_u8).
  rewrite <- Nat.iter_add, length_app. cbn [length].
  rewrite (Z.lxor_comm b a). do 2 f_equal. lia.
Qed.

(** ** What the checksum detects *)

(** Data with its checksum validates, and no other last byte does. *)
Lemma checksum_valid_iff data c : Forall is_u8 data -> data <> [] -> is_u8 c ->
  validate_checksum (data ++ [c]) = Ok tt <-> compute_checksum (E := ChecksumError) data = Ok c.
Proof.
  intros Hd Hne Hc. unfold validate_checksum. rewrite !compute_checksum_eq, length_app. cbn [mbind result_bind length].
  destruct (Nat.ltb_spec (length data + 1) 2); [destruct data; [done|cbn in *; lia]|]. rewrite damm_from_app, damm_from_cons. cbn [damm_from fold_left].
  assert (is_u8 (damm_from 0 data)) as Hr by (by apply damm_from_u8). destruct (Z.eqb_spec (double (Z.lxor (damm_from 0 data) c)) 0) as [Heq|Hneq].
  - apply double_inj, Z.lxor_eq in Heq; [|by apply xor_u8]. by rewrite Heq.
  - split; [done|]. intros [= Heq]. destruct Hneq. by rewrite Heq, Z.lxor_nilpotent.
Qed.

(** A single substituted byte, or two different bytes exchanged fewer than 51 places apart. *)
Inductive corrupted : list Z -> list Z -> Prop :=
| substituted l1 a b l2 : a <> b -> is_u8 b -> corrupted (l1 ++ a :: l2) (l1 ++ b :: l2)
| transposed l1 a m b l2 : a <> b -> (length m < 50)%nat -> corrupted (l1 ++ a :: m ++ b :: l2) (l1 ++ b :: m ++ a :: l2).

Lemma corrupted_length l l' : corrupted l l' -> length l = length l'.
Proof. intros [l1 a b l2|l1 a m b l2]; rewrite !length_app; cbn; rewrite ?length_app; done. Qed.

Lemma corrupted_u8 l l' : corrupted l l' -> Forall is_u8 l -> Forall is_u8 l'.
Proof. intros [l1 a b l2 ? ?|l1 a m b l2]; rewrite !Forall_app, !Forall_cons, ?Forall_app, ?Forall_cons; naive_solver. Qed.

Lemma corrupted_changes l l' : corrupted l l' -> Forall is_u8 l -> damm_from 0 l' <> damm_from 0 l.
Proof.
  intros [l1 a b l2 Hne Hb|l1 a m b l2 Hne Hm] Hall.
  - pose proof Hall as [_ [Ha _]%Forall_cons]%Forall_app. rewrite (damm_substitute l1 a b l2 Hall Hb). intros Heq.
    apply Hne, Z.lxor_eq, (iter_double_inj (S (length l2))); [by apply xor_u8|by apply lxor_fixed in Heq].
  - pose proof Hall as [_ [Ha [_ [Hb _]%Forall_cons]%Forall_app]%Forall_cons]%Forall_app. rewrite (damm_transpose l1 a m b l2 Hall). intros Heq.
    assert (is_u8 (Z.lxor a b)) as Hab by (by apply xor_u8). apply Hne, Z.lxor_eq, (double_order (S (length m))); [lia|done|].
    apply Z.lxor_eq, (iter_double_inj (S (length l2))); [by apply xor_u8; [apply iter_u8|]|by apply lxor_fixed in Heq].
Qed.

(** The checksum of data of any length changes if one byte is substituted or if two different
    bytes less than 51 places apart are exchanged: the corrupted data no longer validates. *)
Theorem checksum_detects data data' :
  Forall is_u8 data -> validate_checksum data = Ok tt -> corrupted data data' -> validate_checksum data' = Err InvalidChecksum.
Proof.
  intros Hd Hv Hc. pose proof (corrupted_changes _ _ Hc Hd) as Hch. unfold validate_checksum in *. rewrite !compute_checksum_eq in *. cbn [mbind result_bind] in *.
  rewrite <- (corrupted_length _ _ Hc). destruct (length data <? 2)%nat; [done|]. destruct (Z.eqb_spec (damm_from 0 data) 0) as [H0|]; [|done].
  destruct (Z.eqb_spec (damm_from 0 data') 0); [congruence|done].
Qed.

(** Bytes exactly 51 places apart can be exchanged unnoticed. *)
Lemma distant_exchange_unnoticed l1 a m b l2 : Forall is_u8 (l1 ++ a :: m ++ b :: l2) -> length m = 50%nat ->
  damm_from 0 (l1 ++ b :: m ++ a :: l2) = damm_from 0 (l1 ++ a :: m ++ b :: l2).
Proof.
  intros Hall Hm. pose proof Hall as [_ [Ha [_ [Hb _]%Forall_cons]%Forall_app]%Forall_cons]%Forall_app. rewrite (damm_transpose l1 a m b l2 Hall), Hm.
  rewrite double_order_51 by (by apply xor_u8). rewrite Z.lxor_nilpotent. assert (forall k, Nat.iter k double 0 = 0) as ->; [|apply Z.lxor_0_r].
  intros k. induction k as [|k IH]; [done|]. by rewrite Nat.iter_succ, IH.
Qed.

Lemma checksum_detects_witness : validate_checksum ([7; 9; 3] ++ [11]) = Err InvalidChecksum.
Proof.
  apply (checksum_detects ([7; 9; 3] ++ [damm_from 0 [7; 9; 3]])).
  - by_evaluation.
  - by vm_compute.
  - apply substituted; by_evaluation.
Defined.

(** * Emoji ids and addresses

    src/base_layer/common_types/src/emoji.rs and tari_address.rs: a public key as 33 emoji (32 for
    the key and a checksum) and an address (a key and a network, whose byte masks the checksum).
    Strings are lists of code points. Public keys and hexadecimal strings are those of tari_crypto
    and tari_utilities: the class [KeyView]. *)

Class KeyView := {
  PublicKey : Type;
  key_as_bytes : PublicKey -> list Z;
  key_from_bytes : list Z -> option PublicKey;
  (* tari_utilities::hex *)
  bytes_to_hex : list Z -> list Z;
  bytes_from_hex : list Z -> option (list Z);
}.

(** Keys have 32 bytes and are read back from them; hexadecimal strings have two digits or
    lower-case letters per byte and are read back. *)
Class KeyLaws (K : KeyView) : Prop := {
  key_bytes k : Forall is_u8 (key_as_bytes k);
  key_length k : length (key_as_bytes k) = 32%nat;
  key_roundtrip k : key_from_bytes (key_as_bytes k) = Some k;
  hex_length b : length (bytes_to_hex b) = (2 * length b)%nat;
  hex_digits b : Forall (fun c => 48 <= c <= 57 \/ 97 <= c <= 102) (bytes_to_hex b);
  hex_roundtrip b : Forall is_u8 b -> bytes_from_hex (bytes_to_hex b) = Some b;
}.

(** ** The emoji table *)

Definition DICT_SIZE : nat := 256.
Definition emoji_INTERNAL_SIZE : nat := 32.
Definition CHECKSUM_SIZE : nat := 1.

(** The code points of the table. *)
Definition EMOJI : list Z :=
  [0x1f300; 0x1f302; 0x1f308; 0x1f30a; 0x1f30b; 0x1f30d; 0x1f319; 0x1f31d;
   0x1f31e; 0x1f31f; 0x1f320; 0x1f330; 0x1f334; 0x1f335; 0x1f337; 0x1f338;
   0x1f339; 0x1f33b; 0x1f33d; 0x1f340; 0x1f341; 0x1f344; 0x1f345; 0x1f346;
   0x1f347; 0x1f348; 0x1f349; 0x1f34a; 0x1f34b; 0x1f34c; 0x1f34d; 0x1f34e;
   0x1f350; 0x1f351; 0x1f352; 0x1f353; 0x1f354; 0x1f355; 0x1f357; 0x1f35a;
   0x1f35e; 0x1f35f; 0x1f360; 0x1f363; 0x1f366; 0x1f369; 0x1f36a; 0x1f36b;
   0x1f36c; 0x1f36d; 0x1f36f; 0x1f370; 0x1f373; 0x1f374; 0x1f375; 0x1f376;
   0x1f377; 0x1f378; 0x1f379; 0x1f37a; 0x1f37c; 0x1f380; 0x1f381; 0x1f382;
   0x1f383; 0x1f384; 0x1f388; 0x1f389; 0x1f392; 0x1f393; 0x1f3a0; 0x1f3a1;
   0x1f3a2; 0x1f3a3; 0x1f3a4; 0x1f3a5; 0x1f3a7; 0x1f3a8; 0x1f3a9; 0x1f3aa;
   0x1f3ac; 0x1f3ad; 0x1f3ae; 0x1f3b0; 0x1f3b1; 0x1f3b2; 0x1f3b3; 0x1f3b5;
   0x1f3b7; 0x1f3b8; 0x1f3b9; 0x1f3ba; 0x1f3bb; 0x1f3bc; 0x1f3bd; 0x1f3be;
   0x1f3bf; 0x1f3c0; 0x1f3c1; 0x1f3c6; 0x1f3c8; 0x1f3c9; 0x1f3e0; 0x1f3e5;
   0x1f3e6; 0x1f3ed; 0x1f3f0; 0x1f400; 0x1f409; 0x1f40a; 0x1f40c; 0x1f40d;
   0x1f40e; 0x1f410; 0x1f411; 0x1f413; 0x1f416; 0x1f417; 0x1f418; 0x1f419;
   0x1f41a; 0x1f41b; 0x1f41c; 0x1f41d; 0x1f41e; 0x1f422; 0x1f423; 0x1f428;
   0x1f429; 0x1f42a; 0x1f42c; 0x1f42d; 0x1f42e; 0x1f42f; 0x1f430; 0x1f432;
   0x1f433; 0x1f434; 0x1f435; 0x1f436; 0x1f437; 0x1f438; 0x1f43a; 0x1f43b;
   0x1f43c; 0x1f43d; 0x1f43e; 0x1f440; 0x1f445; 0x1f451; 0x1f452; 0x1f453;
   0x1f454; 0x1f455; 0x1f456; 0x1f457; 0x1f458; 0x1f459; 0x1f45a; 0x1f45b;
   0x1f45e; 0x1f45f; 0x1f460; 0x1f461; 0x1f462; 0x1f463; 0x1f479; 0x1f47b;
   0x1f47d; 0x1f47e; 0x1f47f; 0x1f480; 0x1f484; 0x1f488; 0x1f489; 0x1f48a;
   0x1f48b; 0x1f48c; 0x1f48d; 0x1f48e; 0x1f490; 0x1f494; 0x1f495; 0x1f498;
   0x1f4a1; 0x1f4a3; 0x1f4a4; 0x1f4a6; 0x1f4a8; 0x1f4a9; 0x1f4ad; 0x1f4af;
   0x1f4b0; 0x1f4b3; 0x1f4b8; 0x1f4ba; 0x1f4bb; 0x1f4bc; 0x1f4c8; 0x1f4c9;
   0x1f4cc; 0x1f4ce; 0x1f4da; 0x1f4dd; 0x1f4e1; 0x1f4e3; 0x1f4f1; 0x1f4f7;
   0x1f50b; 0x1f50c; 0x1f50e; 0x1f511; 0x1f514; 0x1f525; 0x1f526; 0x1f527;
   0x1f528; 0x1f529; 0x1f52a; 0x1f52b; 0x1f52c; 0x1f52d; 0x1f52e; 0x1f531;
   0x1f5fd; 0x1f602; 0x1f607; 0x1f608; 0x1f609; 0x1f60d; 0x1f60e; 0x1f631;
   0x1f637; 0x1f639; 0x1f63b; 0x1f63f; 0x1f680; 0x1f681; 0x1f682; 0x1f68c;
   0x1f691; 0x1f692; 0x1f693; 0x1f695; 0x1f697; 0x1f69c; 0x1f6a2; 0x1f6a6;
   0x1f6a7; 0x1f6a8; 0x1f6aa; 0x1f6ab; 0x1f6b2; 0x1f6bd; 0x1f6bf; 0x1f6c1].

Definition REVERSE_EMOJI : gmap Z Z :=
  fold_left (fun m ic => <[ic.2 := Z.of_nat ic.1 mod 2 ^ 8]> m) (imap pair EMOJI) ∅.

Inductive EmojiIdError := EmojiInvalidSize | EmojiInvalidEmoji | EmojiInvalidChecksum | EmojiCannotRecoverPublicKey.

Inductive TariAddressError := InvalidSize | InvalidNetworkOrChecksum | InvalidEmoji | CannotRecoverPublicKey.

Section Address.
Context {K : KeyView}.

Record EmojiId := { emoji_key : PublicKey }.

Definition emoji_from_emoji_string (emoji : list Z) : result EmojiIdError EmojiId :=
  if negb (length emoji =? emoji_INTERNAL_SIZE + CHECKSUM_SIZE)%nat then Err EmojiInvalidSize
  else
    bytes ← mapM (fun c => ok_or (REVERSE_EMOJI !! c) EmojiInvalidEmoji) emoji;
    match validate_checksum bytes with
    | Err _ => Err EmojiInvalidChecksum
    | Panic => Panic
    | Ok _ =>
        public_key ← ok_or (key_from_bytes (removelast bytes)) EmojiCannotRecoverPublicKey;
        Ok {| emoji_key := public_key |}
    end.

Definition emoji_from_public_key (public_key : PublicKey) : EmojiId := {| emoji_key := public_key |}.

Definition emoji_to_emoji_string (self : EmojiId) : result EmojiIdError (list Z) :=
  let bytes := key_as_bytes (emoji_key self) in
  c ← compute_checksum bytes;
  mapM (fun b => unwrap (EMOJI !! Z.to_nat b)) (bytes ++ [c]).

Definition emoji_to_public_key (self : EmojiId) : PublicKey := emoji_key self.

(** ** Addresses *)

Definition INTERNAL_SIZE : nat := 33.

Record TariAddress := { addr_network : Network; addr_public_key : PublicKey }.

Definition addr_new (public_key : PublicKey) (network : Network) : TariAddress :=
  {| addr_network := network; addr_public_key := public_key |}.

Definition emoji_to_bytes (emoji : list Z) : result TariAddressError (list Z) :=
  if negb (length emoji =? INTERNAL_SIZE)%nat then Err InvalidSize
  else mapM (fun c => ok_or (REVERSE_EMOJI !! c) InvalidEmoji) emoji.

Definition from_bytes_with_network (bytes : list Z) (network : Network) : result TariAddressError TariAddress :=
  if negb (length bytes =? INTERNAL_SIZE)%nat then Err InvalidSize
  else
    last ← unwrap (bytes !! 32%nat);
    let fixed_data := <[32%nat := Z.lxor last (network_as_byte network)]> bytes in
    match validate_checksum fixed_data with
    | Err _ => Err InvalidNetworkOrChecksum
    | Panic => Panic
    | Ok _ =>
        key ← ok_or (key_from_bytes (take 32 bytes)) CannotRecoverPublicKey;
        Ok {| addr_network := network; addr_public_key := key |}
    end.

Definition addr_from_bytes (bytes : list Z) : result TariAddressError TariAddress :=
  if negb (length bytes =? INTERNAL_SIZE)%nat then Err InvalidSize
  else
    checksum ← compute_checksum (take 32 bytes);
    last ← unwrap (bytes !! 32%nat);
    network ← ok_or (network_try_from (Z.lxor checksum last)) InvalidNetworkOrChecksum;
    key ← ok_or (key_from_bytes (take 32 bytes)) CannotRecoverPublicKey;
    Ok {| addr_network := network; addr_public_key := key |}.

(** [copy_from_slice] aborts unless the key has exactly 32 bytes. *)
Definition addr_to_bytes (self : TariAddress) : result TariAddressError (list Z) :=
  let buf := key_as_bytes (addr_public_key self) in
  if negb (length buf =? 32)%nat then Panic
  else
    checksum ← compute_checksum buf;
    Ok (buf ++ [Z.lxor (network_as_byte (addr_network self)) checksum]).

Definition from_emoji_string_with_network (emoji : list Z) (network : Network) : result TariAddressError TariAddress :=
  bytes ← emoji_to_bytes emoji; from_bytes_with_network bytes network.

Definition addr_from_emoji_string (emoji : list Z) : result TariAddressError TariAddress :=
  bytes ← emoji_to_bytes emoji; addr_from_bytes bytes.

Definition addr_to_emoji_string (self : TariAddress) : result TariAddressError (list Z) :=
  bytes ← addr_to_bytes self;
  mapM (fun b => unwrap (EMOJI !! Z.to_nat b)) bytes.

Definition from_hex_with_network (hex_str : list Z) (network : Network) : result TariAddressError TariAddress :=
  buf ← ok_or (bytes_from_hex hex_str) CannotRecoverPublicKey; from_bytes_with_network buf network.

Definition addr_from_hex (hex_str : list Z) : result TariAddressError TariAddress :=
  buf ← ok_or (bytes_from_hex hex_str) CannotRecoverPublicKey; addr_from_bytes buf.

Definition addr_to_hex (self : TariAddress) : result TariAddressError (list Z) :=
  buf ← addr_to_bytes self; Ok (bytes_to_hex buf).

(** [str::trim]: the code points with the White_Space property are removed at both ends. *)
Definition is_white_space (c : Z) : bool :=
  ((9 <=? c) && (c <=? 13)) || (c =? 0x20) || (c =? 0x85) || (c =? 0xA0) || (c =? 0x1680) || ((0x2000 <=? c) && (c <=? 0x200A))
  || (c =? 0x2028) || (c =? 0x2029) || (c =? 0x202F) || (c =? 0x205F) || (c =? 0x3000).

Fixpoint trim_start (s : list Z) : list Z :=
  match s with
  | [] => []
  | c :: s' => if is_white_space c then trim_start s' else s
  end.

Definition trim (s : list Z) : list Z := rev (trim_start (rev (trim_start s))).

(** [FromStr]: emoji, possibly separated by bars, or else hexadecimal. *)
Definition addr_from_str (key : list Z) : result TariAddressError TariAddress :=
  match addr_from_emoji_string (filter (fun c => c <> 124) (trim key)) with
  | Ok address => Ok address
  | Panic => Panic
  | Err _ =>
      match addr_from_hex key with
      | Ok address => Ok address
      | Panic => Panic
      | Err _ => Err CannotRecoverPublicKey
      end
  end.

End Address.
