(* ===== verification/TariAddressSpec.v ===== *)
(** * Addresses can be read back, and mistakes in them are found

    Every address and emoji id is read back from its bytes, its emoji and its hexadecimal form. A
    single wrong or two exchanged symbols are always detected when the network is known. *)

From S2P Require Import Prelude Amounts Emission Difficulty ConsensusConstants TariAddress.

Local Open Scope Z_scope.

(** ** The table *)

Lemma emoji_of_byte b : is_u8 b -> exists c, EMOJI !! Z.to_nat b = Some c /\ REVERSE_EMOJI !! c = Some b.
Proof.
  intros Hb. assert ((match EMOJI !! Z.to_nat b with Some c => bool_decide (REVERSE_EMOJI !! c = Some b) | None => false end) = true) as H.
  { revert b Hb. apply (bytes_check (fun b => match EMOJI !! Z.to_nat b with Some c => bool_decide (REVERSE_EMOJI !! c = Some b) | None => false end)). by vm_compute. }
  destruct (EMOJI !! Z.to_nat b) as [c|]; [|done]. exists c. split; [done|]. by apply bool_decide_eq_true in H.
Qed.

Lemma reverse_emoji_fold l (m : gmap Z Z) c b : (forall c b, m !! c = Some b -> is_u8 b /\ EMOJI !! Z.to_nat b = Some c) ->
  Forall (fun ic => EMOJI !! ic.1 = Some ic.2 /\ (ic.1 < 256)%nat) l ->
  fold_left (fun m ic => <[ic.2 := Z.of_nat ic.1 mod 2 ^ 8]> m) l m !! c = Some b -> is_u8 b /\ EMOJI !! Z.to_nat b = Some c.
Proof.
  revert m. induction l as [|[i e] l IH]; intros m Hm Hl; [apply Hm|]. apply Forall_cons in Hl as [[He Hi] Hl]. cbn [fst snd] in He, Hi. apply IH; [|done].
  intros c' b' [[<- <-]|[_ ?]]%lookup_insert_Some; [|by apply Hm]. cbn [fst snd]. rewrite Z.mod_small by (change (2 ^ 8) with 256; lia).
  rewrite Nat2Z.id. split; [unfold is_u8, U8_MAX; lia|done].
Qed.

Lemma byte_of_emoji c b : REVERSE_EMOJI !! c = Some b -> is_u8 b /\ EMOJI !! Z.to_nat b = Some c.
Proof.
  apply reverse_emoji_fold; [intros ? ?; by rewrite lookup_empty|]. apply Forall_lookup. intros i [k e] Hi.
  apply list_lookup_imap_Some in Hi as (x & Hx & [= -> ->]). split; [done|]. apply lookup_lt_Some in Hx. by vm_compute in Hx.
Qed.

#[local] Opaque EMOJI REVERSE_EMOJI.

(** Bytes to emoji and back. *)
Lemma emoji_encode {E} bytes : Forall is_u8 bytes ->
  exists s, mapM (fun b => unwrap (E := E) (EMOJI !! Z.to_nat b)) bytes = Ok s /\ length s = length bytes /\
    Forall2 (fun c b => REVERSE_EMOJI !! c = Some b) s bytes.
Proof.
  induction 1 as [|b bytes Hb _ (s & Hs & Hl & Hf)]; [by exists []|]. destruct (emoji_of_byte b Hb) as (c & Hc & Hr).
  exists (c :: s). cbn. rewrite Hc. cbn. rewrite Hs. cbn. split; [done|]. split; [by rewrite Hl|by constructor].
Qed.

Lemma emoji_decode {E} (e : E) s bytes : Forall2 (fun c b => REVERSE_EMOJI !! c = Some b) s bytes ->
  mapM (fun c => ok_or (REVERSE_EMOJI !! c) e) s = Ok bytes.
Proof. induction 1 as [|c b s bytes Hc _ IH]; [done|]. cbn. rewrite Hc. cbn. by rewrite IH. Qed.

Lemma emoji_symbols s bytes : Forall2 (fun c b => REVERSE_EMOJI !! c = Some b) s bytes -> Forall (fun c => c ∈ EMOJI) s.
Proof. induction 1 as [|c b s bytes [_ Hc]%byte_of_emoji _ IH]; constructor; [|done]. by eapply list_elem_of_lookup_2. Qed.

(** ** Round trips *)

Section Roundtrips.
Context {K : KeyView} {L : KeyLaws K}.

Lemma network_byte_u8 n : is_u8 (network_as_byte n).
Proof. destruct n; by_evaluation. Qed.

(** The last byte of an address. *)
Definition masked (a : TariAddress) : Z := Z.lxor (network_as_byte (addr_network a)) (damm_from 0 (key_as_bytes (addr_public_key a))).

Lemma masked_u8 a : is_u8 (masked a).
Proof. apply xor_u8; [apply network_byte_u8|]. apply damm_from_u8; [done|apply key_bytes]. Qed.

Lemma addr_to_bytes_eq a : addr_to_bytes a = Ok (key_as_bytes (addr_public_key a) ++ [masked a]).
Proof. unfold addr_to_bytes. rewrite key_length, compute_checksum_eq. done. Qed.

Lemma addr_bytes_u8 a : Forall is_u8 (key_as_bytes (addr_public_key a) ++ [masked a]).
Proof. apply Forall_app. split; [apply key_bytes|]. constructor; [apply masked_u8|done]. Qed.

Lemma key_part (a : TariAddress) x : take 32 (key_as_bytes (addr_public_key a) ++ [x]) = key_as_bytes (addr_public_key a).
Proof. rewrite take_app_le by (rewrite key_length; lia). apply take_ge. by rewrite key_length. Qed.

Lemma last_part (a : TariAddress) x : (key_as_bytes (addr_public_key a) ++ [x]) !! 32%nat = Some x.
Proof. by rewrite lookup_app_r, key_length by (by rewrite key_length). Qed.

Lemma from_to_bytes a : addr_from_bytes (key_as_bytes (addr_public_key a) ++ [masked a]) = Ok a.
Proof.
  unfold addr_from_bytes. rewrite length_app, key_length. cbn [Nat.eqb Nat.add length negb INTERNAL_SIZE]. rewrite key_part, last_part, compute_checksum_eq.
  cbn [mbind result_bind unwrap]. unfold masked. rewrite (Z.lxor_comm (network_as_byte _)), <- Z.lxor_assoc, Z.lxor_nilpotent, Z.lxor_0_l, network_byte_roundtrip.
  cbn. rewrite key_roundtrip. cbn. by destruct a.
Qed.

(** The checksum of the bytes with the network unmasked. *)
Lemma unmask_checksum bytes n last : length bytes = 33%nat -> Forall is_u8 bytes -> bytes !! 32%nat = Some last ->
  damm_from 0 (<[32%nat := Z.lxor last (network_as_byte n)]> bytes) = Z.lxor (damm_from 0 bytes) (double (network_as_byte n)).
Proof.
  intros Hlen Hu Hlast. destruct (list_elem_of_split_length bytes 32 last Hlast) as (l1 & l2 & -> & Hl1).
  rewrite length_app in Hlen. cbn in Hlen. destruct l2; [|cbn in Hlen; lia].
  rewrite insert_app_r_alt, Hl1, Nat.sub_diag by lia. change (<[0%nat := ?x]> [last]) with [x]. rewrite (damm_substitute l1 last (Z.lxor last (network_as_byte n)) []); [|done|].
  - cbn [length Nat.iter nat_rect]. rewrite <- Z.lxor_assoc, Z.lxor_nilpotent, Z.lxor_0_l. done.
  - apply Forall_app in Hu as [_ [? _]%Forall_cons]. apply xor_u8; [done|apply network_byte_u8].
Qed.

Lemma with_network_eq bytes n : length bytes = 33%nat -> Forall is_u8 bytes ->
  from_bytes_with_network bytes n =
    if damm_from 0 bytes =? double (network_as_byte n) then
      key ← ok_or (key_from_bytes (take 32 bytes)) CannotRecoverPublicKey; Ok {| addr_network := n; addr_public_key := key |}
    else Err InvalidNetworkOrChecksum.
Proof.
  intros Hlen Hu. unfold from_bytes_with_network. rewrite Hlen. cbn [Nat.eqb negb INTERNAL_SIZE].
  destruct (lookup_lt_is_Some_2 bytes 32) as [last Hlast]; [lia|]. rewrite Hlast. cbn [mbind result_bind unwrap].
  unfold validate_checksum. rewrite compute_checksum_eq, length_insert, Hlen, (unmask_checksum bytes n last Hlen Hu Hlast). cbn [Nat.ltb Nat.leb mbind result_bind].
  destruct (Z.eqb_spec (damm_from 0 bytes) (double (network_as_byte n))) as [->|Hne]; [by rewrite Z.lxor_nilpotent|].
  destruct (Z.eqb_spec (Z.lxor (damm_from 0 bytes) (double (network_as_byte n))) 0) as [H0|]; [|done]. by apply Z.lxor_eq in H0.
Qed.

Lemma address_checksum a : damm_from 0 (key_as_bytes (addr_public_key a) ++ [masked a]) = double (network_as_byte (addr_network a)).
Proof.
  rewrite damm_from_app. cbn [damm_from fold_left]. fold (damm_from 0 (key_as_bytes (addr_public_key a))). unfold masked. f_equal.
  by rewrite (Z.lxor_comm (network_as_byte _)), <- Z.lxor_assoc, Z.lxor_nilpotent, Z.lxor_0_l.
Qed.

Lemma with_network_valid a : from_bytes_with_network (key_as_bytes (addr_public_key a) ++ [masked a]) (addr_network a) = Ok a.
Proof.
  rewrite with_network_eq; [|by rewrite length_app, key_length|apply addr_bytes_u8]. rewrite address_checksum, Z.eqb_refl, key_part, key_roundtrip. by destruct a.
Qed.

(** Symbols that reading a string leaves alone. *)
Definition plain (c : Z) : bool := negb (is_white_space c) && negb (c =? 124).

Lemma trim_start_plain s : Forall (fun c => plain c = true) s -> trim_start s = s.
Proof. intros [|c s' Hc _]; [done|]. cbn. unfold plain in Hc. by destruct (is_white_space c). Qed.

Lemma read_plain s : Forall (fun c => plain c = true) s -> filter (fun c => c <> 124) (trim s) = s.
Proof.
  intros Hs. unfold trim. rewrite (trim_start_plain s Hs), trim_start_plain, rev_involutive by (by apply Forall_rev).
  induction Hs as [|c s Hc _ IH]; [done|]. rewrite filter_cons_True, IH; [done|]. intros ->. by vm_compute in Hc.
Qed.

Lemma emoji_plain s bytes : Forall2 (fun c b => REVERSE_EMOJI !! c = Some b) s bytes -> Forall (fun c => plain c = true) s.
Proof.
  intros Hs%emoji_symbols. eapply Forall_impl; [exact Hs|]. cbn. intros c Hc. assert (forallb plain EMOJI = true) as Hall by (by vm_compute).
  rewrite forallb_forall in Hall. by apply Hall, list_elem_of_In.
Qed.

Lemma hex_plain b : Forall (fun c => plain c = true) (bytes_to_hex b).
Proof.
  eapply Forall_impl; [apply hex_digits|]. cbn. intros c Hc. unfold plain, is_white_space.
  repeat match goal with |- context [?x =? ?y] => destruct (Z.eqb_spec x y); [lia|] | |- context [?x <=? ?y] => destruct (Z.leb_spec x y); try lia end; done.
Qed.

(** C40: an address is read back from its bytes, its emoji string and its hexadecimal string, with
    the network given or derived, and from either string through [from_str], whatever the key and
    the network. *)
Theorem address_roundtrip (a : TariAddress) :
  exists bytes emoji hex, addr_to_bytes a = Ok bytes /\ addr_to_emoji_string a = Ok emoji /\ addr_to_hex a = Ok hex /\
    length bytes = 33%nat /\ length emoji = 33%nat /\ length hex = 66%nat /\
    addr_from_bytes bytes = Ok a /\ from_bytes_with_network bytes (addr_network a) = Ok a /\
    addr_from_emoji_string emoji = Ok a /\ from_emoji_string_with_network emoji (addr_network a) = Ok a /\
    addr_from_hex hex = Ok a /\ from_hex_with_network hex (addr_network a) = Ok a /\
    addr_from_str emoji = Ok a /\ addr_from_str hex = Ok a.
Proof.
  set (bytes := key_as_bytes (addr_public_key a) ++ [masked a]). destruct (@emoji_encode TariAddressError bytes (addr_bytes_u8 a)) as (emoji & He & Hl & Hf).
  assert (length bytes = 33%nat) as Hlen by (unfold bytes; by rewrite length_app, key_length).
  exists bytes, emoji, (bytes_to_hex bytes). unfold addr_to_emoji_string, addr_to_hex. rewrite addr_to_bytes_eq. fold bytes. cbn [mbind result_bind].
  assert (emoji_to_bytes emoji = Ok bytes) as Hd by (unfold emoji_to_bytes; rewrite Hl, Hlen; cbn [Nat.eqb negb INTERNAL_SIZE]; by apply emoji_decode).
  assert (addr_from_emoji_string emoji = Ok a) as Hfe by (unfold addr_from_emoji_string; rewrite Hd; apply from_to_bytes).
  assert (addr_from_hex (bytes_to_hex bytes) = Ok a) as Hfh by (unfold addr_from_hex; rewrite hex_roundtrip by apply addr_bytes_u8; apply from_to_bytes).
  assert (length (bytes_to_hex bytes) = 66%nat) as Hlh by (by rewrite hex_length, Hlen).
  do 3 (split; [done|]). split; [done|]. split; [congruence|]. split; [done|]. split; [apply from_to_bytes|]. split; [apply with_network_valid|]. split; [done|].
  split; [unfold from_emoji_string_with_network; rewrite Hd; apply with_network_valid|]. split; [done|].
  split; [unfold from_hex_with_network; rewrite hex_roundtrip by apply addr_bytes_u8; apply with_network_valid|].
  unfold addr_from_str. rewrite !read_plain by (apply hex_plain || by eapply emoji_plain). split; [by rewrite Hfe|].
  unfold addr_from_emoji_string, emoji_to_bytes. rewrite Hlh. cbn [Nat.eqb negb INTERNAL_SIZE mbind result_bind]. by rewrite Hfh.
Qed.

(** Bytes that were read as an address of a network are refused for that network after one byte is
    replaced by another or two different bytes are exchanged. *)
Theorem address_errors_detected (bytes bytes' : list Z) (n : Network) (a : TariAddress) :
  Forall is_u8 bytes -> from_bytes_with_network bytes n = Ok a -> corrupted bytes bytes' ->
  from_bytes_with_network bytes' n = Err InvalidNetworkOrChecksum.
Proof.
  intros Hu Hok Hc. assert (length bytes = 33%nat) as Hlen.
  { unfold from_bytes_with_network in Hok. destruct (Nat.eqb_spec (length bytes) INTERNAL_SIZE); done. }
  rewrite with_network_eq in Hok by done. rewrite with_network_eq; [|by rewrite <- (corrupted_length _ _ Hc)|by eapply corrupted_u8].
  destruct (Z.eqb_spec (damm_from 0 bytes) (double (network_as_byte n))) as [Heq|]; [|done].
  pose proof (corrupted_changes _ _ Hc Hu). destruct (Z.eqb_spec (damm_from 0 bytes') (double (network_as_byte n))); [congruence|done].
Qed.

(** Any two different bytes of an address can be the two exchanged ones. *)
Lemma exchange_corrupts l1 x m y l2 : x <> y -> length (l1 ++ x :: m ++ y :: l2) = 33%nat -> corrupted (l1 ++ x :: m ++ y :: l2) (l1 ++ y :: m ++ x :: l2).
Proof. intros Hne Hlen. rewrite length_app in Hlen. cbn in Hlen. rewrite length_app in Hlen. cbn in Hlen. constructor; [done|lia]. Qed.

(** Without a given network, addresses of one key on neighbouring networks differ in one byte, and
    both are accepted. *)
Lemma network_confusable k : corrupted (key_as_bytes k ++ [masked (addr_new k Igor)]) (key_as_bytes k ++ [masked (addr_new k Dibbler)]).
Proof.
  constructor; [|apply masked_u8]. unfold masked. cbn. intros H. rewrite !(Z.lxor_comm _ (damm_from 0 _)) in H.
  assert (Z.lxor 36 37 = 0) as Hx; [|by vm_compute in Hx]. rewrite (lxor_cancel (damm_from 0 (key_as_bytes k)) 36 37) in H. symmetry in H. by apply lxor_fixed in H.
Qed.

(** An emoji id is read back from its emoji string. *)
Lemma emoji_id_roundtrip (e : EmojiId) : exists emoji, emoji_to_emoji_string e = Ok emoji /\ length emoji = 33%nat /\ emoji_from_emoji_string emoji = Ok e.
Proof.
  unfold emoji_to_emoji_string. rewrite compute_checksum_eq. cbn [mbind result_bind]. set (c := damm_from 0 (key_as_bytes (emoji_key e))).
  assert (is_u8 c) as Hc by (apply damm_from_u8; [done|apply key_bytes]).
  destruct (@emoji_encode EmojiIdError (key_as_bytes (emoji_key e) ++ [c])) as (emoji & -> & Hl & Hf); [apply Forall_app; split; [apply key_bytes|by apply Forall_singleton]|].
  rewrite length_app, key_length in Hl. exists emoji. split; [done|]. split; [done|]. unfold emoji_from_emoji_string. rewrite Hl. cbn [Nat.eqb Nat.add length negb emoji_INTERNAL_SIZE CHECKSUM_SIZE].
  rewrite (emoji_decode _ _ _ Hf). cbn [mbind result_bind].
  rewrite (proj2 (checksum_valid_iff (key_as_bytes (emoji_key e)) c (key_bytes _) ltac:(intros H; pose proof (key_length (emoji_key e)) as Hk; by rewrite H in Hk) Hc)) by apply compute_checksum_eq.
  rewrite removelast_last, key_roundtrip. by destruct e.
Qed.

End Roundtrips.

(** ** Instances *)

(** Keys that are their 32 bytes, and hexadecimal digits. *)
Definition hex_digit (n : Z) : Z := if n <? 10 then 48 + n else 87 + n.
Definition hex_value (c : Z) : Z := if c <? 97 then c - 48 else c - 87.
Fixpoint hex_pairs (s : list Z) : option (list Z) :=
  match s with
  | [] => Some []
  | [_] => None
  | a :: b :: s => r ← hex_pairs s; Some (16 * hex_value a + hex_value b :: r)
  end.

Definition key_ok (b : list Z) : bool := (length b =? 32)%nat && forallb (fun x => (0 <=? x) && (x <? 256)) b.

#[export] Instance byte_keys : KeyView := {|
  PublicKey := { b : list Z | key_ok b = true };
  key_as_bytes k := proj1_sig k;
  key_from_bytes b := match bool_dec (key_ok b) true with left H => Some (exist _ b H) | right _ => None end;
  bytes_to_hex b := b ≫= fun x => [hex_digit (x mod 256 / 16); hex_digit (x mod 16)];
  bytes_from_hex := hex_pairs;
|}.

Lemma hex_digit_range n : 0 <= n < 16 -> (48 <= hex_digit n <= 57 \/ 97 <= hex_digit n <= 102) /\ hex_value (hex_digit n) = n.
Proof.
  intros Hn. unfold hex_digit, hex_value. destruct (Z.ltb_spec n 10).
  - destruct (Z.ltb_spec (48 + n) 97); lia.
  - destruct (Z.ltb_spec (87 + n) 97); lia.
Qed.

Lemma hex_nibbles x : 0 <= x mod 256 / 16 < 16 /\ 0 <= x mod 16 < 16.
Proof. split; [|apply Z.mod_pos_bound; lia]. pose proof (Z.mod_pos_bound x 256). split; [apply Z.div_pos|apply Z.div_lt_upper_bound]; lia. Qed.

#[export] Instance byte_key_laws : KeyLaws byte_keys.
Proof.
  split.
  - intros [b H]. cbn. unfold key_ok in H. apply andb_true_iff in H as [_ H]. apply Forall_forall. intros x Hx.
    rewrite forallb_forall in H. specialize (H x). rewrite <- list_elem_of_In in H. specialize (H Hx). cbn in H. apply andb_true_iff in H as [?%Z.leb_le ?%Z.ltb_lt]. unfold is_u8, U8_MAX. lia.
  - intros [b H]. cbn. unfold key_ok in H. apply andb_true_iff in H as [H _]. by apply Nat.eqb_eq.
  - intros [b H]. cbn. destruct (bool_dec (key_ok b) true) as [H'|]; [|done]. do 2 f_equal. apply Eqdep_dec.UIP_dec, bool_dec.
  - intros b. cbn. induction b as [|x b IH]; [done|]. cbn in *. lia.
  - intros b. cbn. induction b as [|x b IH]; [constructor|]. cbn. pose proof (hex_nibbles x) as [].
    constructor; [by apply hex_digit_range|]. constructor; [by apply hex_digit_range|done].
  - intros b Hb. cbn. induction Hb as [|x b Hx _ IH]; [done|]. cbn in *. rewrite IH. cbn. pose proof (hex_nibbles x) as [H1 H2].
    rewrite (proj2 (hex_digit_range _ H1)), (proj2 (hex_digit_range _ H2)). do 2 f_equal. unfold is_u8, U8_MAX in Hx.
    rewrite (Z.mod_small x 256) by lia. symmetry. apply Z.div_mod. lia.
Qed.

Definition some_key : PublicKey := exist _ (seqZ 1 32) eq_refl.

Definition some_bytes : list Z := key_as_bytes some_key ++ [masked (addr_new some_key Esmeralda)].

Lemma address_errors_detected_witness :
  from_bytes_with_network (<[3%nat := 9]> some_bytes) Esmeralda = Err InvalidNetworkOrChecksum /\
  from_bytes_with_network (firstn 4 some_bytes ++ 7 :: 6 :: 5 :: skipn 7 some_bytes) Esmeralda = Err InvalidNetworkOrChecksum.
Proof.
  assert (Forall is_u8 some_bytes) as Hu by (apply (addr_bytes_u8 (addr_new some_key Esmeralda))).
  split; apply (address_errors_detected some_bytes _ Esmeralda (addr_new some_key Esmeralda)).
  - exact Hu.
  - apply (with_network_valid (addr_new some_key Esmeralda)).
  - apply (substituted (firstn 3 some_bytes) 4 9 (skipn 4 some_bytes)); unfold is_u8, U8_MAX; lia.
  - exact Hu.
  - apply (with_network_valid (addr_new some_key Esmeralda)).
  - apply (transposed (firstn 4 some_bytes) 5 [6] 7 (skipn 7 some_bytes)); cbn; lia.
Defined.

Lemma address_roundtrip_witness : exists hex, length hex = 66%nat /\ addr_from_str hex = Ok (addr_new some_key Igor).
Proof. destruct (address_roundtrip (addr_new some_key Igor)) as (bytes & emoji & hex & H). exists hex. split; apply H. Defined.
