(* ===== verification/Covenants.v ===== *)
(** * Covenants: tokens and their encoding

    src/base_layer/core/src/covenants: byte_codes.rs, fields.rs, arguments.rs, token.rs, encoder.rs,
    decoder.rs and the encodings of covenant.rs.

    A covenant is a list of tokens in prefix order: filters, and arguments, of which one kind is a
    covenant again. The Borsh encodings of keys, commitments, numbers and byte vectors belong to
    tari_crypto and borsh: class [BorshPrims]. The readers of the source move a cursor over a
    byte slice; here they return the rest of it. *)

From S2P Require Import Prelude ScriptTypes Opcodes ScriptStack TariScript ScriptEncoding ConsensusConstants.

Local Open Scope Z_scope.

(** ** Byte codes *)

Abbreviation ARG_HASH := 0x01.
Abbreviation ARG_PUBLIC_KEY := 0x02.
Abbreviation ARG_COMMITMENT := 0x03.
Abbreviation ARG_TARI_SCRIPT := 0x04.
Abbreviation ARG_COVENANT := 0x05.
Abbreviation ARG_UINT := 0x06.
Abbreviation ARG_OUTPUT_FIELD := 0x07.
Abbreviation ARG_OUTPUT_FIELDS := 0x08.
Abbreviation ARG_BYTES := 0x09.
Abbreviation ARG_OUTPUT_TYPE := 0x0a.

Definition ALL_ARGS : list Z :=
  [ARG_HASH; ARG_PUBLIC_KEY; ARG_COMMITMENT; ARG_TARI_SCRIPT; ARG_COVENANT; ARG_UINT; ARG_OUTPUT_FIELD;
   ARG_OUTPUT_FIELDS; ARG_BYTES; ARG_OUTPUT_TYPE].

Definition is_valid_arg_code (code : Z) : bool := existsb (Z.eqb code) ALL_ARGS.

Abbreviation FILTER_IDENTITY := 0x20.
Abbreviation FILTER_AND := 0x21.
Abbreviation FILTER_OR := 0x22.
Abbreviation FILTER_XOR := 0x23.
Abbreviation FILTER_NOT := 0x24.
Abbreviation FILTER_OUTPUT_HASH_EQ := 0x30.
Abbreviation FILTER_FIELDS_PRESERVED := 0x31.
Abbreviation FILTER_FIELDS_HASHED_EQ := 0x32.
Abbreviation FILTER_FIELD_EQ := 0x33.
Abbreviation FILTER_ABSOLUTE_HEIGHT := 0x34.

Definition ALL_FILTERS : list Z :=
  [FILTER_IDENTITY; FILTER_AND; FILTER_OR; FILTER_XOR; FILTER_NOT; FILTER_OUTPUT_HASH_EQ; FILTER_FIELDS_PRESERVED;
   FILTER_FIELDS_HASHED_EQ; FILTER_FIELD_EQ; FILTER_ABSOLUTE_HEIGHT].

Definition is_valid_filter_code (code : Z) : bool := existsb (Z.eqb code) ALL_FILTERS.

Abbreviation FIELD_COMMITMENT := 0x00.
Abbreviation FIELD_SCRIPT := 0x01.
Abbreviation FIELD_SENDER_OFFSET_PUBLIC_KEY := 0x02.
Abbreviation FIELD_COVENANT := 0x03.
Abbreviation FIELD_FEATURES := 0x04.
Abbreviation FIELD_FEATURES_OUTPUT_TYPE := 0x05.
Abbreviation FIELD_FEATURES_MATURITY := 0x06.
Abbreviation FIELD_FEATURES_SIDE_CHAIN_FEATURES := 0x08.

(** ** Errors, filters and fields *)

Inductive CovenantDecodeError :=
| UnknownFilterByteCode (code : Z)
| UnknownArgByteCode (code : Z)
| UnknownByteCode (code : Z)
| CovenantUnexpectedEof
| CovenantScriptError (e : ScriptError)
| ExceededMaxBytes
| CovenantIo (e : IoError).

Inductive CovenantFilter :=
| F_Identity | F_And | F_Or | F_Xor | F_Not | F_OutputHashEq | F_FieldsPreserved | F_FieldEq | F_FieldsHashedEq
| F_AbsoluteHeight.

Definition filter_as_byte_code (f : CovenantFilter) : Z :=
  match f with
  | F_Identity => FILTER_IDENTITY
  | F_And => FILTER_AND
  | F_Or => FILTER_OR
  | F_Xor => FILTER_XOR
  | F_Not => FILTER_NOT
  | F_OutputHashEq => FILTER_OUTPUT_HASH_EQ
  | F_FieldsPreserved => FILTER_FIELDS_PRESERVED
  | F_FieldEq => FILTER_FIELD_EQ
  | F_FieldsHashedEq => FILTER_FIELDS_HASHED_EQ
  | F_AbsoluteHeight => FILTER_ABSOLUTE_HEIGHT
  end.

Definition try_from_byte_code (code : Z) : result CovenantDecodeError CovenantFilter :=
  match code with
  | FILTER_IDENTITY => Ok F_Identity
  | FILTER_AND => Ok F_And
  | FILTER_OR => Ok F_Or
  | FILTER_XOR => Ok F_Xor
  | FILTER_NOT => Ok F_Not
  | FILTER_OUTPUT_HASH_EQ => Ok F_OutputHashEq
  | FILTER_FIELDS_PRESERVED => Ok F_FieldsPreserved
  | FILTER_FIELD_EQ => Ok F_FieldEq
  | FILTER_FIELDS_HASHED_EQ => Ok F_FieldsHashedEq
  | FILTER_ABSOLUTE_HEIGHT => Ok F_AbsoluteHeight
  | _ => Err (UnknownFilterByteCode code)
  end.

Inductive OutputField :=
| Field_Commitment | Field_Script | Field_SenderOffsetPublicKey | Field_Covenant | Field_Features
| Field_FeaturesOutputType | Field_FeaturesMaturity | Field_FeaturesSideChainFeatures.

Definition field_as_byte (f : OutputField) : Z :=
  match f with
  | Field_Commitment => FIELD_COMMITMENT
  | Field_Script => FIELD_SCRIPT
  | Field_SenderOffsetPublicKey => FIELD_SENDER_OFFSET_PUBLIC_KEY
  | Field_Covenant => FIELD_COVENANT
  | Field_Features => FIELD_FEATURES
  | Field_FeaturesOutputType => FIELD_FEATURES_OUTPUT_TYPE
  | Field_FeaturesMaturity => FIELD_FEATURES_MATURITY
  | Field_FeaturesSideChainFeatures => FIELD_FEATURES_SIDE_CHAIN_FEATURES
  end.

Definition field_from_byte (byte : Z) : result CovenantDecodeError OutputField :=
  match byte with
  | FIELD_COMMITMENT => Ok Field_Commitment
  | FIELD_SCRIPT => Ok Field_Script
  | FIELD_SENDER_OFFSET_PUBLIC_KEY => Ok Field_SenderOffsetPublicKey
  | FIELD_COVENANT => Ok Field_Covenant
  | FIELD_FEATURES => Ok Field_Features
  | FIELD_FEATURES_OUTPUT_TYPE => Ok Field_FeaturesOutputType
  | FIELD_FEATURES_MATURITY => Ok Field_FeaturesMaturity
  | FIELD_FEATURES_SIDE_CHAIN_FEATURES => Ok Field_FeaturesSideChainFeatures
  | _ => Err (UnknownByteCode byte)
  end.

Record OutputFields := { fields : list OutputField }.

Definition NUM_FIELDS : nat := 10.

#[export] Instance CovenantFilter_eq_dec : EqDecision CovenantFilter.
Proof. solve_decision. Defined.
#[export] Instance OutputField_eq_dec : EqDecision OutputField.
Proof. solve_decision. Defined.
#[export] Instance OutputFields_eq_dec : EqDecision OutputFields.
Proof. solve_decision. Defined.

(** ** Encodings of tari_crypto and borsh *)

Class BorshPrims (C : ScriptCrypto) := {
  pk_serialize : RistrettoPublicKey -> bytes;
  pk_deserialize : bytes -> option (RistrettoPublicKey * bytes);
  com_serialize : PedersenCommitment -> bytes;
  com_deserialize : bytes -> option (PedersenCommitment * bytes);
  u64_serialize : Z -> bytes;
  u64_deserialize : bytes -> option (Z * bytes);
  vec_u8_serialize : bytes -> bytes;
  vec_u8_deserialize : bytes -> option (bytes * bytes);
  (* integer_encoding::VarIntReader for u16 *)
  read_varint_u16 : bytes -> option (Z * bytes);
}.

(** What was written is read back and the rest is left; readers leave a suffix; numbers are in the
    range of their type; a vector has at most [u32::MAX] bytes. *)
Class BorshLaws {C : ScriptCrypto} (B : BorshPrims C) : Prop := {
  pk_borsh k rest : pk_deserialize (pk_serialize k ++ rest) = Some (k, rest);
  com_borsh c rest : com_deserialize (com_serialize c ++ rest) = Some (c, rest);
  u64_borsh v rest : is_u64 v -> u64_deserialize (u64_serialize v ++ rest) = Some (v, rest);
  vec_u8_borsh v rest : Z.of_nat (length v) <= U32_MAX -> vec_u8_deserialize (vec_u8_serialize v ++ rest) = Some (v, rest);
  varint_u16_borsh v rest : 0 <= v <= U16_MAX -> read_varint_u16 (write_varint v ++ rest) = Some (v, rest);
  pk_suffix b k r : pk_deserialize b = Some (k, r) -> r `suffix_of` b;
  com_suffix b c r : com_deserialize b = Some (c, r) -> r `suffix_of` b;
  u64_suffix b v r : u64_deserialize b = Some (v, r) -> r `suffix_of` b;
  vec_u8_suffix b v r : vec_u8_deserialize b = Some (v, r) -> r `suffix_of` b;
  varint_u16_suffix b v r : read_varint_u16 b = Some (v, r) -> r `suffix_of` b;
  varint_suffix b v r : read_varint b = Some (v, r) -> r `suffix_of` b;
}.

Section Covenants.
Context {C : ScriptCrypto} {B : BorshPrims C}.

(** ** Tokens *)

Inductive CovenantToken :=
| Token_Filter (filter : CovenantFilter)
| Token_Arg (arg : CovenantArg)
with CovenantArg :=
| Arg_Hash (hash : bytes)
| Arg_PublicKey (pk : RistrettoPublicKey)
| Arg_Commitment (commitment : PedersenCommitment)
| Arg_TariScript (script : TariScript)
| Arg_Covenant (covenant : list CovenantToken)
| Arg_OutputType (output_type : OutputType)
| Arg_Uint (int : Z)
| Arg_OutputField (field : OutputField)
| Arg_OutputFields (fields : OutputFields)
| Arg_Bytes (bytes : bytes).

(** The [tokens] of a [Covenant]. *)
Definition Covenant : Type := list CovenantToken.

Definition covenant_new : Covenant := [].

Definition push_token (self : Covenant) (token : CovenantToken) : Covenant := self ++ [token].

Definition MAX_COVENANT_BYTES : nat := 4096.
Definition MAX_COVENANT_ARG_SIZE : nat := 4096.

(** ** Encoding *)

Definition filter_write_to (f : CovenantFilter) : result IoError bytes := Ok [filter_as_byte_code f].

Definition fields_write_to (self : OutputFields) : result IoError bytes :=
  let len := length (fields self) in
  if (NUM_FIELDS <? len)%nat then Err IoInvalidInput
  else Ok (write_varint (Z.of_nat len) ++ map field_as_byte (fields self)).

Fixpoint arg_write_to (self : CovenantArg) : result IoError bytes :=
  match self with
  | Arg_Hash hash => Ok (ARG_HASH :: hash)
  | Arg_PublicKey pk => Ok (ARG_PUBLIC_KEY :: pk_serialize pk)
  | Arg_Commitment commitment => Ok (ARG_COMMITMENT :: com_serialize commitment)
  | Arg_TariScript script => Ok (ARG_TARI_SCRIPT :: script_borsh_serialize script)
  | Arg_Covenant covenant =>
      (* [get_byte_length] writes the covenant to a counter and unwraps; [write_to] writes it again *)
      written ← expect (mapM token_write_to covenant);
      Ok (ARG_COVENANT :: write_varint (Z.of_nat (length (concat written))) ++ concat written)
  | Arg_OutputType output_type => Ok [ARG_OUTPUT_TYPE; output_type_as_byte output_type]
  | Arg_Uint int => Ok (ARG_UINT :: u64_serialize int)
  | Arg_OutputField field => Ok [ARG_OUTPUT_FIELD; field_as_byte field]
  | Arg_OutputFields fields =>
      b ← fields_write_to fields;
      Ok (ARG_OUTPUT_FIELDS :: b)
  | Arg_Bytes bytes => Ok (ARG_BYTES :: vec_u8_serialize bytes)
  end
with token_write_to (self : CovenantToken) : result IoError bytes :=
  match self with
  | Token_Filter filter => filter_write_to filter
  | Token_Arg arg => arg_write_to arg
  end.

Definition encoder_write_to (tokens : list CovenantToken) : result IoError bytes :=
  written ← mapM token_write_to tokens;
  Ok (concat written).

Definition covenant_write_to (self : Covenant) : result IoError bytes := encoder_write_to self.

Definition get_byte_length (self : Covenant) : result IoError Z :=
  written ← expect (covenant_write_to self);
  Ok (Z.of_nat (length written)).

Definition covenant_to_bytes (self : Covenant) : result IoError bytes :=
  _ ← get_byte_length self;
  expect (covenant_write_to self).

Definition covenant_borsh_serialize (self : Covenant) : result IoError bytes :=
  bytes ← covenant_to_bytes self;
  Ok (borsh_bytes bytes).

(** ** Decoding *)

Definition read_next_byte_code (reader : bytes) : option Z * bytes :=
  match reader with [] => (None, []) | c :: reader => (Some c, reader) end.

Definition read_variable_length_bytes (max_size : nat) (reader : bytes) : result IoError (bytes * bytes) :=
  '(len, reader) ← ok_or (read_varint_u16 reader) UnexpectedEof;
  let len := Z.to_nat len in
  if (max_size <? len)%nat then Err IoInvalidInput
  else if (length reader <? len)%nat then Err UnexpectedEof
  else Ok (take len reader, drop len reader).

Definition fields_read_from (reader : bytes) : result CovenantDecodeError (OutputFields * bytes) :=
  '(buf, reader) ← map_err CovenantIo (read_variable_length_bytes NUM_FIELDS reader);
  fs ← mapM field_from_byte buf;
  Ok ({| fields := fs |}, reader).

(** A Borsh value of a foreign type, as an argument. *)
Definition read_borsh {A} (mk : A -> CovenantArg) (r : option (A * bytes)) : result CovenantDecodeError (CovenantArg * bytes) :=
  '(v, reader) ← ok_or r (CovenantIo UnexpectedEof);
  Ok (mk v, reader).

Definition output_type_deserialize (reader : bytes) : option (OutputType * bytes) :=
  match reader with
  | [] => None
  | b :: reader => t ← output_type_from_byte b; Some (t, reader)
  end.

(** [<[u8; 32]>::deserialize] *)
Definition hash_deserialize (reader : bytes) : option (bytes * bytes) :=
  if (length reader <? 32)%nat then None else Some (take 32 reader, drop 32 reader).

Section ReadFrom.
Context (from_bytes : bytes -> result CovenantDecodeError Covenant).

Definition arg_read_from (reader : bytes) (code : Z) : result CovenantDecodeError (CovenantArg * bytes) :=
  match code with
  | ARG_HASH => read_borsh Arg_Hash (hash_deserialize reader)
  | ARG_PUBLIC_KEY => read_borsh Arg_PublicKey (pk_deserialize reader)
  | ARG_COMMITMENT => read_borsh Arg_Commitment (com_deserialize reader)
  | ARG_TARI_SCRIPT =>
      '(script, reader) ← map_err CovenantIo (script_borsh_deserialize reader);
      Ok (Arg_TariScript script, reader)
  | ARG_COVENANT =>
      '(buf, reader) ← map_err CovenantIo (read_variable_length_bytes MAX_COVENANT_ARG_SIZE reader);
      covenant ← from_bytes buf;
      Ok (Arg_Covenant covenant, reader)
  | ARG_OUTPUT_TYPE => read_borsh Arg_OutputType (output_type_deserialize reader)
  | ARG_UINT => read_borsh Arg_Uint (u64_deserialize reader)
  | ARG_OUTPUT_FIELD =>
      let '(v, reader) := read_next_byte_code reader in
      v ← ok_or v CovenantUnexpectedEof;
      field ← field_from_byte v;
      Ok (Arg_OutputField field, reader)
  | ARG_OUTPUT_FIELDS =>
      '(fields, reader) ← fields_read_from reader;
      Ok (Arg_OutputFields fields, reader)
  | ARG_BYTES => read_borsh Arg_Bytes (vec_u8_deserialize reader)
  | _ => Err (UnknownArgByteCode code)
  end.

Definition token_read_from (reader : bytes) : result CovenantDecodeError (option CovenantToken * bytes) :=
  let '(code, reader) := read_next_byte_code reader in
  match code with
  | None => Ok (None, reader)
  | Some code =>
      if is_valid_filter_code code then
        filter ← try_from_byte_code code;
        Ok (Some (Token_Filter filter), reader)
      else if is_valid_arg_code code then
        '(arg, reader) ← arg_read_from reader code;
        Ok (Some (Token_Arg arg), reader)
      else Err (UnknownByteCode code)
  end.

End ReadFrom.

(** [Covenant::from_bytes], given the decoder of a non-empty slice that is not too long. *)
Definition from_bytes_with (collect : bytes -> result CovenantDecodeError Covenant) (bytes : bytes)
    : result CovenantDecodeError Covenant :=
  match bytes with
  | [] => Ok covenant_new
  | _ => if (MAX_COVENANT_BYTES <? length bytes)%nat then Err ExceededMaxBytes else collect bytes
  end.

(** The token decoder, collected: a token at a time until there is none left, or an error. *)
Fixpoint decoder_collect (fuel : nat) (buf : bytes) : result CovenantDecodeError Covenant :=
  match fuel with
  | O => Panic
  | S fuel =>
      '(token, buf) ← token_read_from (from_bytes_with (decoder_collect fuel)) buf;
      match token with
      | None => Ok []
      | Some token => tokens ← decoder_collect fuel buf; Ok (token :: tokens)
      end
  end.

Definition covenant_from_bytes (bytes : bytes) : result CovenantDecodeError Covenant :=
  from_bytes_with (decoder_collect (S (length bytes))) bytes.

Definition covenant_borsh_deserialize (buf : bytes) : result IoError (Covenant * bytes) :=
  '(data, buf) ← borsh_read_bytes buf;
  covenant ← map_err (fun _ => IoInvalidInput) (covenant_from_bytes data);
  Ok (covenant, buf).

End Covenants.

(** Equality of covenants is decidable, at any depth. *)
#[export] Instance CovenantToken_eq_dec {C : ScriptCrypto} : EqDecision CovenantToken.
Proof.
  unfold EqDecision, Decision. fix go 1. intros [f|a] [g|b]; try (right; congruence).
  - destruct (decide (f = g)); [left|right]; congruence.
  - destruct a as [x|x|x|x|x|x|x|x|x|x], b as [y|y|y|y|y|y|y|y|y|y]; try (right; congruence);
      try (destruct (decide (x = y)); [left|right]; congruence).
    assert ({x = y} + {x <> y}) as [->|]; [|by left|right; congruence].
    revert y. induction x as [|t x IH]; intros [|u y]; try (right; congruence); [by left|].
    destruct (go t u) as [->|]; [|right; congruence]. destruct (IH y) as [->|]; [by left|right; congruence].
Defined.

(** * Covenants: encodings are read back

    The round trip of the token encoding of [Covenants], for covenants within covenants to any depth,
    and that decoding has enough fuel. *)

Section Encoding.
Context {C : ScriptCrypto} {CL : ScriptCryptoLaws C} {B : BorshPrims C} {BL : BorshLaws B}.

(** ** Induction on tokens *)

Definition is_nested (a : CovenantArg) : bool := match a with Arg_Covenant _ => true | _ => false end.

Lemma token_arg_ind (P : CovenantToken -> Prop) (Q : CovenantArg -> Prop) :
  (forall f, P (Token_Filter f)) -> (forall a, Q a -> P (Token_Arg a)) ->
  (forall c, Forall P c -> Q (Arg_Covenant c)) -> (forall a, is_nested a = false -> Q a) ->
  forall t, P t.
Proof.
  intros HF HA HC HQ.
  refine (fix go_t (t : CovenantToken) : P t := match t with Token_Filter f => HF f | Token_Arg a => HA a _ end).
  destruct a as [| | | |c| | | | |]; try (by apply HQ). apply HC. induction c as [|x c IH]; constructor; [apply go_t|exact IH].
Qed.

(** The values a Rust covenant can hold, within the limits the decoder accepts. *)
Fixpoint arg_wf (a : CovenantArg) : Prop :=
  match a with
  | Arg_Hash h => length h = 32%nat
  | Arg_TariScript s => script_wf s /\ Z.of_nat (length (script_to_bytes s)) <= I64_MAX
  | Arg_Covenant c =>
      foldr (fun t P => token_wf t /\ P) True c /\
      (exists b, encoder_write_to c = Ok b /\ (length b <= MAX_COVENANT_ARG_SIZE)%nat)
  | Arg_Uint v => is_u64 v
  | Arg_OutputFields fs => (length (fields fs) <= NUM_FIELDS)%nat
  | Arg_Bytes b => Z.of_nat (length b) <= U32_MAX
  | _ => True
  end
with token_wf (t : CovenantToken) : Prop := match t with Token_Filter _ => True | Token_Arg a => arg_wf a end.

Definition covenant_wf (c : Covenant) : Prop :=
  Forall token_wf c /\ exists b, encoder_write_to c = Ok b /\ (length b <= MAX_COVENANT_BYTES)%nat.

Lemma foldr_Forall {A} (P : A -> Prop) l : foldr (fun t Q => P t /\ Q) True l <-> Forall P l.
Proof. induction l as [|x l IH]; cbn; [done|]. by rewrite IH, Forall_cons. Qed.

(** ** Round trips *)

Lemma filter_code_roundtrip f : is_valid_filter_code (filter_as_byte_code f) = true /\ try_from_byte_code (filter_as_byte_code f) = Ok f.
Proof. by destruct f. Qed.

Lemma field_code_roundtrip f : field_from_byte (field_as_byte f) = Ok f.
Proof. by destruct f. Qed.

Lemma field_codes_roundtrip fs : mapM field_from_byte (map field_as_byte fs) = Ok fs.
Proof. induction fs as [|f fs IH]; [done|]. cbn. by rewrite field_code_roundtrip, IH. Qed.

Lemma read_variable_roundtrip (max : nat) b rest : (length b <= max)%nat -> (max <= 4096)%nat ->
  read_variable_length_bytes max (write_varint (Z.of_nat (length b)) ++ b ++ rest) = Ok (b, rest).
Proof.
  intros Hb Hm. unfold read_variable_length_bytes. rewrite varint_u16_borsh by (unfold U16_MAX; lia).
  cbn [ok_or mbind result_bind]. rewrite Nat2Z.id. destruct (Nat.ltb_spec max (length b)); [lia|].
  rewrite length_app. destruct (Nat.ltb_spec (length b + length rest) (length b)); [lia|].
  by rewrite take_app_length, drop_app_length.
Qed.

Lemma encoder_cons t c : encoder_write_to (t :: c) = (b1 ← token_write_to t; b2 ← encoder_write_to c; Ok (b1 ++ b2)).
Proof. unfold encoder_write_to. cbn. destruct (token_write_to t); [|done..]. cbn. by destruct (mapM token_write_to c). Qed.

Lemma nested_write c : token_write_to (Token_Arg (Arg_Covenant c)) =
  (b ← expect (encoder_write_to c); Ok (ARG_COVENANT :: write_varint (Z.of_nat (length b)) ++ b)).
Proof.
  change (token_write_to (Token_Arg (Arg_Covenant c))) with
    (w ← @expect IoError IoError _ (mapM token_write_to c); Ok (ARG_COVENANT :: write_varint (Z.of_nat (length (concat w))) ++ concat w)).
  unfold encoder_write_to. by destruct (mapM token_write_to c).
Qed.

(** A reader that gives back the token it is given the encoding of. *)
Definition reads (t : CovenantToken) (b : bytes) : Prop :=
  forall fuel rest, (length b <= fuel)%nat -> token_read_from (from_bytes_with (decoder_collect fuel)) (b ++ rest) = Ok (Some t, rest).

Definition token_ok (t : CovenantToken) : Prop := token_wf t -> exists b, token_write_to t = Ok b /\ b <> [] /\ reads t b.

Lemma tokens_roundtrip c : Forall token_ok c -> Forall token_wf c ->
  exists b, encoder_write_to c = Ok b /\ forall fuel, (length b < fuel)%nat -> decoder_collect fuel b = Ok c.
Proof.
  intros Hok Hwf. induction Hok as [|t c Ht _ IH]; [exists []; split; [done|]; intros [|fuel] ?; [lia|done]|].
  apply Forall_cons in Hwf as [Hwt Hwc]. destruct (Ht Hwt) as (b1 & Hb1 & Hne & Hr). destruct (IH Hwc) as (b2 & Hb2 & Hd).
  exists (b1 ++ b2). rewrite encoder_cons, Hb1, Hb2. split; [done|]. intros [|fuel] Hf; [lia|]. rewrite length_app in Hf. cbn [decoder_collect].
  rewrite Hr by lia. cbn [mbind result_bind]. rewrite Hd; [done|]. destruct b1; [done|]. cbn in Hf. lia.
Qed.

Lemma fields_ok fs : token_ok (Token_Arg (Arg_OutputFields fs)).
Proof.
  intros Hwf. cbn in Hwf. exists (ARG_OUTPUT_FIELDS :: write_varint (Z.of_nat (length (fields fs))) ++ map field_as_byte (fields fs)).
  split; [|split; [done|]].
  - cbn [token_write_to arg_write_to]. unfold fields_write_to. by destruct (Nat.ltb_spec NUM_FIELDS (length (fields fs))); [lia|].
  - intros fuel rest _. unfold token_read_from. cbn [app read_next_byte_code]. cbn -[fields_read_from]. unfold fields_read_from.
    rewrite <- app_assoc, <- (length_map field_as_byte), read_variable_roundtrip by (rewrite ?length_map; unfold NUM_FIELDS in *; lia).
    cbn [map_err mbind result_bind]. rewrite field_codes_roundtrip. by destruct fs.
Qed.

Lemma arg_simple_ok a : is_nested a = false -> token_ok (Token_Arg a).
Proof.
  intros Hn. destruct a as [h|k|c|s|c|o|v|f|fs|b]; try discriminate Hn; try apply fields_ok; intros Hwf; cbn in Hwf; eexists; (split; [cbn|split]); try done;
    try (intros fuel rest _; cbn [app]; unfold token_read_from; cbn [read_next_byte_code]; cbn -[fields_read_from script_borsh_deserialize]).
  - unfold hash_deserialize. rewrite length_app, Hwf. by rewrite take_app_length', drop_app_length'.
  - by rewrite pk_borsh.
  - by rewrite com_borsh.
  - destruct Hwf as [Hs Hl]. by rewrite script_borsh_roundtrip.
  - by destruct o.
  - by rewrite u64_borsh.
  - by rewrite field_code_roundtrip.
  - by rewrite vec_u8_borsh.
Qed.

Lemma all_tokens_ok t : token_ok t.
Proof.
  revert t. apply (token_arg_ind token_ok (fun a => token_ok (Token_Arg a))); [| |intros c Hc Hwf|apply arg_simple_ok].
  - intros f _. exists [filter_as_byte_code f]. split; [done|]. split; [done|]. intros fuel rest _. unfold token_read_from.
    cbn [app read_next_byte_code]. destruct (filter_code_roundtrip f) as [-> ->]. done.
  - done.
  - cbn in Hwf. destruct Hwf as [Hwf (b & Hb & Hlen)]. rewrite (foldr_Forall token_wf) in Hwf.
    destruct (tokens_roundtrip c Hc Hwf) as (b' & Hb' & Hd). rewrite Hb in Hb'. injection Hb' as <-.
    exists (ARG_COVENANT :: write_varint (Z.of_nat (length b)) ++ b). split; [|split; [done|]].
    + by rewrite nested_write, Hb.
    + intros fuel rest Hf. cbn in Hf. rewrite length_app in Hf. unfold token_read_from. cbn [app read_next_byte_code].
      cbn -[read_variable_length_bytes from_bytes_with]. rewrite <- app_assoc, read_variable_roundtrip by (done || (unfold MAX_COVENANT_ARG_SIZE; lia)).
      cbn [map_err mbind result_bind]. unfold from_bytes_with. destruct b as [|x b]; [|].
      * specialize (Hd 1%nat ltac:(cbn; lia)). cbn in Hd. injection Hd as <-. done.
      * destruct (Nat.ltb_spec MAX_COVENANT_BYTES (length (x :: b))); [unfold MAX_COVENANT_BYTES, MAX_COVENANT_ARG_SIZE in *; lia|].
        rewrite Hd by lia. done.
Qed.

Lemma covenant_bytes_roundtrip c : covenant_wf c ->
  exists b, covenant_to_bytes c = Ok b /\ (length b <= MAX_COVENANT_BYTES)%nat /\ covenant_from_bytes b = Ok c.
Proof.
  intros [Hwf (b & Hb & Hlen)]. destruct (tokens_roundtrip c) as (b' & Hb' & Hd); [apply Forall_forall; intros; apply all_tokens_ok|done|].
  rewrite Hb in Hb'. injection Hb' as <-. exists b. split; [unfold covenant_to_bytes, get_byte_length, covenant_write_to; by rewrite Hb|]. split; [done|].
  unfold covenant_from_bytes, from_bytes_with. specialize (Hd (S (length b)) ltac:(lia)). destruct b as [|x b]; [by injection Hd as <-|].
  destruct (Nat.ltb_spec MAX_COVENANT_BYTES (length (x :: b))); [lia|done].
Qed.

Lemma covenant_borsh_roundtrip c rest b' : covenant_wf c -> covenant_borsh_serialize c = Ok b' -> covenant_borsh_deserialize (b' ++ rest) = Ok (c, rest).
Proof.
  intros (b & Hto & Hlen & Hfrom)%covenant_bytes_roundtrip. unfold covenant_borsh_serialize, covenant_borsh_deserialize. rewrite Hto. intros [= <-].
  rewrite borsh_bytes_roundtrip by (unfold MAX_COVENANT_BYTES, I64_MAX in *; lia). cbn [mbind result_bind]. by rewrite Hfrom.
Qed.

(** A covenant whose values fit their types, and whose encoding and those of the covenants in it
    fit the limit, is read back from its bytes and from its Borsh encoding, where it also
    leaves what follows. *)
Theorem covenant_encoding_roundtrip (c : Covenant) (rest : bytes) :
  covenant_wf c ->
  exists b b', covenant_to_bytes c = Ok b /\ covenant_from_bytes b = Ok c /\
    covenant_borsh_serialize c = Ok b' /\ covenant_borsh_deserialize (b' ++ rest) = Ok (c, rest).
Proof.
  intros Hwf. destruct (covenant_bytes_roundtrip c Hwf) as (b & Hto & _ & Hfrom).
  assert (covenant_borsh_serialize c = Ok (borsh_bytes b)) as Hs by (unfold covenant_borsh_serialize; by rewrite Hto).
  exists b, (borsh_bytes b). by rewrite (covenant_borsh_roundtrip c rest _ Hwf Hs).
Qed.

(** ** Decoding terminates *)

Lemma borsh_read_shorter b d r : borsh_read_bytes b = Ok (d, r) -> (length r <= length b)%nat.
Proof.
  unfold borsh_read_bytes. destruct (read_varint b) as [[len b']|] eqn:Hv; [|done]. apply varint_suffix, suffix_length in Hv. cbn.
  do 2 (case_decide; [done|]). intros [= <- <-]. rewrite ?length_take, length_drop. lia.
Qed.

Lemma read_variable_shorter max b d r : read_variable_length_bytes max b = Ok (d, r) -> (length d <= length b /\ length r <= length b)%nat.
Proof.
  unfold read_variable_length_bytes. destruct (read_varint_u16 b) as [[len b']|] eqn:Hv; [|done]. apply varint_u16_suffix, suffix_length in Hv.
  cbn [ok_or mbind result_bind]. do 2 (case_match; [done|]). intros [= <- <-]. rewrite ?length_take, length_drop. lia.
Qed.

Lemma read_borsh_Ok {A} (mk : A -> CovenantArg) o a r : read_borsh mk o = Ok (a, r) -> exists v, o = Some (v, r).
Proof. unfold read_borsh. destruct o as [[v r']|]; [|done]. cbn. intros [= <- <-]. by exists v. Qed.

Lemma hash_shorter b h r : hash_deserialize b = Some (h, r) -> (length r <= length b)%nat.
Proof. unfold hash_deserialize. case_match; [done|]. intros [= <- <-]. rewrite length_drop. lia. Qed.

Lemma output_type_shorter b t r : output_type_deserialize b = Some (t, r) -> (length r <= length b)%nat.
Proof. destruct b as [|x b]; [done|]. cbn. destruct (output_type_from_byte x); [|done]. cbn. intros [= <- <-]. lia. Qed.

Lemma script_shorter b s r : script_borsh_deserialize b = Ok (s, r) -> (length r <= length b)%nat.
Proof.
  unfold script_borsh_deserialize. destruct (borsh_read_bytes b) as [[d r']| |] eqn:Hb; [|done..]. apply borsh_read_shorter in Hb. cbn.
  destruct (script_from_bytes d); [|done..]. cbn. by intros [= <- <-].
Qed.

Lemma fields_shorter b fs r : fields_read_from b = Ok (fs, r) -> (length r <= length b)%nat.
Proof.
  unfold fields_read_from. destruct (read_variable_length_bytes NUM_FIELDS b) as [[d r']| |] eqn:Hb; [|done..].
  apply read_variable_shorter in Hb. cbn. destruct (mapM field_from_byte d); [|done..]. cbn. intros [= <- <-]. lia.
Qed.

(** The code of an argument, case by case. *)
Ltac arg_cases code := let p := fresh "p" in destruct code as [|p|p]; try done; do 4 (try (destruct p as [p|p|]; try done)).

Lemma arg_read_shorter f b code a r : arg_read_from f b code = Ok (a, r) -> (length r <= length b)%nat.
Proof.
  unfold arg_read_from. intros H. arg_cases code; try (apply read_borsh_Ok in H as [v Hv]);
    try (by eapply hash_shorter); try (by eapply output_type_shorter);
    try (first [apply pk_suffix in Hv|apply com_suffix in Hv|apply u64_suffix in Hv|apply vec_u8_suffix in Hv]; by apply suffix_length).
  - destruct b as [|x b]; [done|]. cbn in H. destruct (field_from_byte x); [|done..]. cbn in H. injection H as <- <-. cbn. lia.
  - destruct (read_variable_length_bytes _ b) as [[d r']| |] eqn:Hb; [|done..]. apply read_variable_shorter in Hb. cbn in H.
    destruct (f d); [|done..]. cbn in H. injection H as <- <-. lia.
  - destruct (fields_read_from b) as [[fs r']| |] eqn:Hb; [|done..]. apply fields_shorter in Hb. cbn in H. by injection H as <- <-.
  - destruct (script_borsh_deserialize b) as [[s r']| |] eqn:Hb; [|done..]. apply script_shorter in Hb. cbn in H. by injection H as <- <-.
Qed.

Lemma arg_read_ext f g b code : (forall d, (length d <= length b)%nat -> f d = g d) -> arg_read_from f b code = arg_read_from g b code.
Proof.
  intros Hfg. unfold arg_read_from. arg_cases code. destruct (read_variable_length_bytes MAX_COVENANT_ARG_SIZE b) as [[d r]| |] eqn:Hb; [|done..].
  apply read_variable_shorter in Hb. cbn. by rewrite Hfg by lia.
Qed.

Lemma token_read_shorter f b t r : token_read_from f b = Ok (Some t, r) -> (length r < length b)%nat.
Proof.
  unfold token_read_from. destruct b as [|c b]; [done|]. cbn [read_next_byte_code]. case_match.
  - destruct (try_from_byte_code c); [|done..]. cbn. intros [= <- <-]. lia.
  - case_match; [|done]. destruct (arg_read_from f b c) as [[a r']| |] eqn:Ha; [|done..]. apply arg_read_shorter in Ha. cbn. intros [= <- <-]. lia.
Qed.

Lemma token_read_ext f g b : (forall d, (length d < length b)%nat -> f d = g d) -> token_read_from f b = token_read_from g b.
Proof.
  intros Hfg. unfold token_read_from. destruct b as [|c b]; [done|]. cbn [read_next_byte_code]. case_match; [done|]. case_match; [|done].
  rewrite (arg_read_ext f g); [done|]. intros d Hd. apply Hfg. cbn. lia.
Qed.

(** More fuel than there are bytes changes nothing: the decoder has terminated. *)
Lemma decoder_fuel fuel1 fuel2 b : (length b < fuel1)%nat -> (length b < fuel2)%nat -> decoder_collect fuel1 b = decoder_collect fuel2 b.
Proof.
  revert fuel2 b. induction fuel1 as [|n IH]; intros [|m] b H1 H2; [lia..|]. cbn [decoder_collect].
  rewrite (token_read_ext _ (from_bytes_with (decoder_collect m))).
  - destruct (token_read_from _ b) as [[[t|] r]| |] eqn:Ht; [|done..]. apply token_read_shorter in Ht. cbn. rewrite (IH m) by lia. done.
  - intros d Hd. unfold from_bytes_with. destruct d as [|x d]; [done|]. case_match; [done|]. apply IH; lia.
Qed.

End Encoding.
