(* ===== verification/TxComponents.v ===== *)
(** * Inputs, outputs and kernels

    src/base_layer/core/src/transactions/transaction_components: transaction_output.rs,
    transaction_input.rs, transaction_kernel.rs, output_features.rs, kernel_features.rs, side_chain, the
    version types and the hash of an output (mod.rs); consensus/consensus_encoding/hashing.rs.

    Signatures, commitments, range proofs and their encodings are tari_crypto's: class [TxCrypto]. A
    consensus hash is Blake256 of a domain tag and the Borsh encodings of the parts; encodings derived
    by Borsh are the encodings of the fields in order, after a tag byte for enums. The encoding of a
    covenant can fail, so hashing can abort. *)

From Stdlib Require Import String.
From S2P Require Import Prelude ScriptTypes Opcodes ScriptStack TariScript Amounts ConsensusConstants Covenants.

Local Open Scope Z_scope.

(** ** Errors *)

Inductive RangeProofError := InvalidRangeProof.

Inductive TransactionError :=
| TxValidationError | InvalidSignatureError | NoSignatureError | TxRangeProofError (e : RangeProofError) | SigningError | InvalidKernel
| InvalidCoinbase | InvalidCoinbaseMaturity | MoreThanOneCoinbase | NoCoinbase | MissingRangeProof | InputMaturity
| TxScriptError (e : ScriptError) | ConversionError | EncryptionError | ScriptOffset | ScriptExecutionError
| MissingTransactionInputData | TxCovenantError | InvalidCommitteeLength (len max : Z) | MissingValidatorNodeSignature
| NonCoinbaseHasOutputFeaturesCoinbaseExtra | InvalidOutputFeaturesCoinbaseExtraSize (len max : Z) | InvalidRevealedValue.

(** ** Cryptography *)

Inductive HashDomain := TransactionHashDomain | BaseLayerCovenantsDomain | ValidatorNodeHashDomain | BlocksHashDomain.

Class TxCrypto (C : ScriptCrypto) := {
  pk_sub : RistrettoPublicKey -> RistrettoPublicKey -> RistrettoPublicKey;
  sk_default : RistrettoSecretKey;
  sk_add : RistrettoSecretKey -> RistrettoSecretKey -> RistrettoSecretKey;
  sk_mul : RistrettoSecretKey -> RistrettoSecretKey -> RistrettoSecretKey;
  sk_from_u64 : Z -> RistrettoSecretKey;
  as_public_key : PedersenCommitment -> RistrettoPublicKey;
  commit_value : RistrettoSecretKey -> Z -> PedersenCommitment;
  com_compare : PedersenCommitment -> PedersenCommitment -> comparison;
  sig_compare : RistrettoSchnorr -> RistrettoSchnorr -> comparison;
  sig_serialize : RistrettoSchnorr -> bytes;
  sk_serialize : RistrettoSecretKey -> bytes;
  (* borsh for u16 and u32 *)
  u16_serialize : Z -> bytes;
  u16_deserialize : bytes -> option (Z * bytes);
  u32_serialize : Z -> bytes;
  u32_deserialize : bytes -> option (Z * bytes);
  (* tari_crypto::signatures::CommitmentAndPublicKeySignature *)
  ComAndPubSignature : Type;
  cps_eq_dec :: EqDecision ComAndPubSignature;
  cps_serialize : ComAndPubSignature -> bytes;
  ephemeral_commitment : ComAndPubSignature -> PedersenCommitment;
  ephemeral_pubkey : ComAndPubSignature -> RistrettoPublicKey;
  u_a : ComAndPubSignature -> RistrettoSecretKey;
  cps_verify_challenge : ComAndPubSignature -> PedersenCommitment -> RistrettoPublicKey -> bytes -> bool;
  (* BulletproofsPlusService::verify_batch: proofs and their statements (commitment, minimum value) *)
  verify_batch : list bytes -> list (PedersenCommitment * Z) -> bool;
  (* DomainSeparation::add_domain_separation_tag: the bytes fed to the digest for a label *)
  domain_tag : HashDomain -> string -> bytes;
}.

(** [FixedHash::zero()] *)
Definition zero_hash : bytes := replicate 32 0.

(** ** Versions and features *)

Inductive OutputFeaturesVersion := FeaturesV0 | FeaturesV1.
Inductive TransactionInputVersion := InputV0 | InputV1.
Inductive TransactionOutputVersion := OutputV0 | OutputV1.
Inductive TransactionKernelVersion := KernelV0.

Definition features_version_as_u8 (v : OutputFeaturesVersion) : Z := match v with FeaturesV0 => 0 | FeaturesV1 => 1 end.
Definition input_version_as_u8 (v : TransactionInputVersion) : Z := match v with InputV0 => 0 | InputV1 => 1 end.
Definition output_version_as_u8 (v : TransactionOutputVersion) : Z := match v with OutputV0 => 0 | OutputV1 => 1 end.
Definition kernel_version_as_u8 (v : TransactionKernelVersion) : Z := match v with KernelV0 => 0 end.

(** [KernelFeatures] are flags in a byte. *)
Definition COINBASE_KERNEL : Z := 1.
Definition BURN_KERNEL : Z := 2.
Definition kernel_features_contains (features flag : Z) : bool := Z.land features flag =? flag.

Section Components.
Context {C : ScriptCrypto} {B : BorshPrims C} {X : TxCrypto C}.

(** [DomainSeparatedConsensusHasher::<D>::new(label).chain(..)...finalize()] *)
Definition consensus_hash (domain : HashDomain) (label : string) (parts : list bytes) : bytes :=
  blake256 (domain_tag domain label ++ concat parts).

(** ** Side chain features *)

Record ValidatorNodeSignature := { vns_public_key : RistrettoPublicKey; vns_signature : RistrettoSchnorr }.

Record ValidatorNodeReg := { vnr_signature : ValidatorNodeSignature }.

Inductive TemplateType := Template_Wasm (abi_version : Z) | Template_Flow | Template_Manifest.

Record BuildInfo := { repo_url : bytes; commit_hash : bytes }.

Record CodeTemplateReg := {
  author_public_key : RistrettoPublicKey;
  author_signature : RistrettoSchnorr;
  template_name : bytes;
  template_version : Z;
  template_type : TemplateType;
  build_info : BuildInfo;
  binary_sha : bytes;
  binary_url : bytes;
}.

Record ConfidentialOutputData := { claim_public_key : RistrettoPublicKey }.

Inductive SideChainFeature :=
| Side_ValidatorNodeRegistration (r : ValidatorNodeReg)
| Side_TemplateRegistration (r : CodeTemplateReg)
| Side_ConfidentialOutput (d : ConfidentialOutputData).

Definition construct_challenge (public_key public_nonce : RistrettoPublicKey) (msg : bytes) : bytes :=
  consensus_hash ValidatorNodeHashDomain "registration" [pk_as_bytes public_key; pk_as_bytes public_nonce; msg].

Definition is_valid_signature_for (self : ValidatorNodeSignature) (msg : bytes) : bool :=
  let challenge := construct_challenge (vns_public_key self) (get_public_nonce (vns_signature self)) msg in
  verify_challenge (vns_signature self) (vns_public_key self) challenge.

(** ** Outputs *)

Record OutputFeatures := {
  feat_version : OutputFeaturesVersion;
  feat_output_type : OutputType;
  feat_maturity : Z;
  coinbase_extra : bytes;
  sidechain_feature : option SideChainFeature;
  feat_range_proof_type : RangeProofType;
}.

Definition features_default : OutputFeatures :=
  {| feat_version := FeaturesV0; feat_output_type := Standard; feat_maturity := 0; coinbase_extra := [];
     sidechain_feature := None; feat_range_proof_type := BulletProofPlus |}.

Definition create_coinbase (maturity_height : Z) (extra : option bytes) : OutputFeatures :=
  {| feat_version := FeaturesV0; feat_output_type := Coinbase; feat_maturity := maturity_height;
     coinbase_extra := default [] extra; sidechain_feature := None; feat_range_proof_type := BulletProofPlus |}.

Definition validator_node_registration (self : OutputFeatures) : option ValidatorNodeReg :=
  match sidechain_feature self with Some (Side_ValidatorNodeRegistration r) => Some r | _ => None end.

Record TransactionOutput := {
  out_version : TransactionOutputVersion;
  out_features : OutputFeatures;
  out_commitment : PedersenCommitment;
  out_proof : option bytes;
  out_script : TariScript;
  out_sender_offset_public_key : RistrettoPublicKey;
  out_metadata_signature : ComAndPubSignature;
  out_covenant : Covenant;
  out_encrypted_data : bytes;
  out_minimum_value_promise : MicroTari;
}.

Definition output_is_coinbase (self : TransactionOutput) : bool :=
  match feat_output_type (out_features self) with Coinbase => true | _ => false end.

Definition output_is_burned (self : TransactionOutput) : bool :=
  match feat_output_type (out_features self) with Burn => true | _ => false end.

(** ** Encodings *)

Definition option_serialize {A} (f : A -> bytes) (o : option A) : bytes :=
  match o with None => [0] | Some a => 1 :: f a end.

Definition vns_serialize (s : ValidatorNodeSignature) : bytes := pk_serialize (vns_public_key s) ++ sig_serialize (vns_signature s).

Definition template_type_serialize (t : TemplateType) : bytes :=
  match t with Template_Wasm v => 0 :: u16_serialize v | Template_Flow => [1] | Template_Manifest => [2] end.

Definition code_template_serialize (r : CodeTemplateReg) : bytes :=
  pk_serialize (author_public_key r) ++ sig_serialize (author_signature r) ++ vec_u8_serialize (template_name r) ++
  u16_serialize (template_version r) ++ template_type_serialize (template_type r) ++
  (vec_u8_serialize (repo_url (build_info r)) ++ vec_u8_serialize (commit_hash (build_info r))) ++
  vec_u8_serialize (binary_sha r) ++ vec_u8_serialize (binary_url r).

Definition sidechain_serialize (f : SideChainFeature) : bytes :=
  match f with
  | Side_ValidatorNodeRegistration r => 0 :: vns_serialize (vnr_signature r)
  | Side_TemplateRegistration r => 1 :: code_template_serialize r
  | Side_ConfidentialOutput d => 2 :: pk_serialize (claim_public_key d)
  end.

Definition features_serialize (f : OutputFeatures) : bytes :=
  [features_version_as_u8 (feat_version f); output_type_as_byte (feat_output_type f)] ++ u64_serialize (feat_maturity f) ++
  vec_u8_serialize (coinbase_extra f) ++ option_serialize sidechain_serialize (sidechain_feature f) ++
  [range_proof_type_as_byte (feat_range_proof_type f)].

Definition get_features_and_scripts_size {E} (self : TransactionOutput) : result E Z :=
  covenant ← expect (covenant_borsh_serialize (out_covenant self));
  Ok (Z.of_nat (List.length (features_serialize (out_features self)) + List.length (script_borsh_serialize (out_script self)) + List.length covenant)).

(** ** Hashes *)

Definition hash_output {E} (version : TransactionOutputVersion) (features : OutputFeatures) (commitment : PedersenCommitment)
    (script : TariScript) (covenant : Covenant) (encrypted_data : bytes) (sender_offset_public_key : RistrettoPublicKey)
    (minimum_value_promise : MicroTari) : result E bytes :=
  covenant ← expect (covenant_borsh_serialize covenant);
  Ok (consensus_hash TransactionHashDomain "transaction_output"
    [[output_version_as_u8 version]; features_serialize features; com_serialize commitment; script_borsh_serialize script;
     covenant; encrypted_data; pk_serialize sender_offset_public_key; u64_serialize minimum_value_promise]).

Definition output_hash {E} (self : TransactionOutput) : result E bytes :=
  hash_output (out_version self) (out_features self) (out_commitment self) (out_script self) (out_covenant self)
    (out_encrypted_data self) (out_sender_offset_public_key self) (out_minimum_value_promise self).

(** ** Inputs *)

Inductive SpentOutput :=
| OutputHash (hash : bytes)
| OutputData (version : TransactionOutputVersion) (features : OutputFeatures) (commitment : PedersenCommitment) (script : TariScript)
    (sender_offset_public_key : RistrettoPublicKey) (covenant : Covenant) (encrypted_data : bytes) (minimum_value_promise : MicroTari).

Record TransactionInput := {
  in_version : TransactionInputVersion;
  spent_output : SpentOutput;
  input_data : ExecutionStack;
  script_signature : ComAndPubSignature;
}.

Definition in_commitment (self : TransactionInput) : result TransactionError PedersenCommitment :=
  match spent_output self with OutputHash _ => Err MissingTransactionInputData | OutputData _ _ c _ _ _ _ _ => Ok c end.

Definition in_features (self : TransactionInput) : result TransactionError OutputFeatures :=
  match spent_output self with OutputHash _ => Err MissingTransactionInputData | OutputData _ f _ _ _ _ _ _ => Ok f end.

Definition in_script (self : TransactionInput) : result TransactionError TariScript :=
  match spent_output self with OutputHash _ => Err MissingTransactionInputData | OutputData _ _ _ s _ _ _ _ => Ok s end.

Definition in_sender_offset_public_key (self : TransactionInput) : result TransactionError RistrettoPublicKey :=
  match spent_output self with OutputHash _ => Err MissingTransactionInputData | OutputData _ _ _ _ k _ _ _ => Ok k end.

Definition in_covenant (self : TransactionInput) : result TransactionError Covenant :=
  match spent_output self with OutputHash _ => Err MissingTransactionInputData | OutputData _ _ _ _ _ c _ _ => Ok c end.

(** The script leaves a public key. *)
Definition run_script (self : TransactionInput) (context : option ScriptContext) : result TransactionError RistrettoPublicKey :=
  let context := default ScriptContext_default context in
  script ← in_script self;
  item ← map_err TxScriptError (execute_with_context script (input_data self) context);
  match item with
  | PublicKey pubkey => Ok pubkey
  | _ => Err ScriptExecutionError
  end.

Definition build_script_signature_message (version : TransactionInputVersion) (script : TariScript) (input_data : ExecutionStack) : bytes :=
  consensus_hash TransactionHashDomain "script_message"
    [[input_version_as_u8 version]; script_borsh_serialize script; stack_borsh_serialize input_data].

Definition build_script_signature_challenge (version : TransactionInputVersion) (ephemeral_commitment : PedersenCommitment)
    (ephemeral_pubkey : RistrettoPublicKey) (script : TariScript) (input_data : ExecutionStack)
    (script_public_key : RistrettoPublicKey) (commitment : PedersenCommitment) : bytes :=
  let message := build_script_signature_message version script input_data in
  consensus_hash TransactionHashDomain "script_challenge"
    [com_serialize ephemeral_commitment; pk_serialize ephemeral_pubkey; pk_serialize script_public_key; com_serialize commitment; message].

Definition validate_script_signature (self : TransactionInput) (script_public_key : RistrettoPublicKey) : result TransactionError unit :=
  match spent_output self with
  | OutputHash _ => Err MissingTransactionInputData
  | OutputData _ _ commitment script _ _ _ _ =>
      let challenge := build_script_signature_challenge (in_version self) (ephemeral_commitment (script_signature self))
        (ephemeral_pubkey (script_signature self)) script (input_data self) script_public_key commitment in
      if cps_verify_challenge (script_signature self) commitment script_public_key challenge then Ok tt else Err InvalidSignatureError
  end.

Definition run_and_verify_script (self : TransactionInput) (context : option ScriptContext) : result TransactionError RistrettoPublicKey :=
  key ← run_script self context;
  _ ← validate_script_signature self key;
  Ok key.

Definition is_mature_at (self : TransactionInput) (block_height : Z) : result TransactionError bool :=
  match spent_output self with
  | OutputHash _ => Err MissingTransactionInputData
  | OutputData _ features _ _ _ _ _ _ => Ok (feat_maturity features <=? block_height)
  end.

Definition input_output_hash {E} (self : TransactionInput) : result E bytes :=
  match spent_output self with
  | OutputHash h => Ok h
  | OutputData version features commitment script sender_offset_public_key covenant encrypted_data minimum_value_promise =>
      hash_output version features commitment script covenant encrypted_data sender_offset_public_key minimum_value_promise
  end.

Definition is_compact (self : TransactionInput) : bool := match spent_output self with OutputHash _ => true | _ => false end.

Definition add_output_data (self : TransactionInput) (version : TransactionOutputVersion) (features : OutputFeatures)
    (commitment : PedersenCommitment) (script : TariScript) (sender_offset_public_key : RistrettoPublicKey) (covenant : Covenant)
    (encrypted_data : bytes) (minimum_value_promise : MicroTari) : TransactionInput :=
  {| in_version := in_version self;
     spent_output := OutputData version features commitment script sender_offset_public_key covenant encrypted_data minimum_value_promise;
     input_data := input_data self; script_signature := script_signature self |}.

Definition input_to_compact {E} (self : TransactionInput) : result E TransactionInput :=
  h ← input_output_hash self;
  Ok {| in_version := in_version self; spent_output := OutputHash h; input_data := input_data self; script_signature := script_signature self |}.

(** ** Signatures and range proofs of outputs *)

Definition build_metadata_signature_message (version : TransactionOutputVersion) (script : TariScript) (features : OutputFeatures)
    (covenant : bytes) (encrypted_data : bytes) (minimum_value_promise : MicroTari) : bytes :=
  consensus_hash TransactionHashDomain "metadata_message"
    [[output_version_as_u8 version]; script_borsh_serialize script; features_serialize features; covenant; encrypted_data;
     u64_serialize minimum_value_promise].

Definition build_metadata_signature_challenge (version : TransactionOutputVersion) (script : TariScript) (features : OutputFeatures)
    (sender_offset_public_key : RistrettoPublicKey) (ephemeral_commitment : PedersenCommitment) (ephemeral_pubkey : RistrettoPublicKey)
    (commitment : PedersenCommitment) (covenant : bytes) (encrypted_data : bytes) (minimum_value_promise : MicroTari) : bytes :=
  let message := build_metadata_signature_message version script features covenant encrypted_data minimum_value_promise in
  consensus_hash TransactionHashDomain "metadata_signature"
    [pk_serialize ephemeral_pubkey; com_serialize ephemeral_commitment; pk_serialize sender_offset_public_key; com_serialize commitment; message].

Definition verify_metadata_signature_internal (self : TransactionOutput) : result TransactionError bytes :=
  covenant ← expect (covenant_borsh_serialize (out_covenant self));
  let challenge := build_metadata_signature_challenge (out_version self) (out_script self) (out_features self)
    (out_sender_offset_public_key self) (ephemeral_commitment (out_metadata_signature self))
    (ephemeral_pubkey (out_metadata_signature self)) (out_commitment self) covenant (out_encrypted_data self)
    (out_minimum_value_promise self) in
  if cps_verify_challenge (out_metadata_signature self) (out_commitment self) (out_sender_offset_public_key self) challenge
  then Ok challenge else Err InvalidSignatureError.

Definition verify_metadata_signature (self : TransactionOutput) : result TransactionError unit :=
  _ ← verify_metadata_signature_internal self;
  Ok tt.

Definition output_proof_result (self : TransactionOutput) : result RangeProofError bytes := ok_or (out_proof self) InvalidRangeProof.

Definition revealed_value_range_proof_check (self : TransactionOutput) : result RangeProofError unit :=
  if negb (bool_decide (feat_range_proof_type (out_features self) = RevealedValue)) then Err InvalidRangeProof
  else
    e_bytes ← map_err (fun _ => InvalidRangeProof) (verify_metadata_signature_internal self);
    e ← unwrap (sk_from_bytes e_bytes);
    let value_as_private_key := sk_from_u64 (out_minimum_value_promise self) in
    if bool_decide (sk_as_bytes (u_a (out_metadata_signature self)) = sk_as_bytes (sk_add sk_default (sk_mul e value_as_private_key)))
    then Ok tt else Err InvalidRangeProof.

(** Of one output, to find the culprit of a batch. *)
Definition verify_range_proof (self : TransactionOutput) : result TransactionError unit :=
  match feat_range_proof_type (out_features self) with
  | RevealedValue => map_err (fun _ => TxValidationError) (revealed_value_range_proof_check self)
  | BulletProofPlus =>
      proof ← map_err TxRangeProofError (output_proof_result self);
      if verify_batch [proof] [(out_commitment self, out_minimum_value_promise self)] then Ok tt else Err TxValidationError
  end.

Definition batch_verify_range_proofs (outputs : list TransactionOutput) : result RangeProofError unit :=
  let bulletproof_plus_proofs := filter (fun o => feat_range_proof_type (out_features o) = BulletProofPlus) outputs in
  _ ← (if decide (bulletproof_plus_proofs = []) then Ok tt
       else
         proofs ← mapM output_proof_result bulletproof_plus_proofs;
         let statements := map (fun o => (out_commitment o, out_minimum_value_promise o)) bulletproof_plus_proofs in
         if verify_batch proofs statements then Ok tt
         else
           _ ← mapM (fun o => map_err (fun _ => InvalidRangeProof) (verify_range_proof o)) bulletproof_plus_proofs;
           Err InvalidRangeProof);
  let revealed_value_proofs := filter (fun o => feat_range_proof_type (out_features o) = RevealedValue) outputs in
  foldM (fun _ o => revealed_value_range_proof_check o) revealed_value_proofs tt.

(** ** Kernels *)

Record TransactionKernel := {
  k_version : TransactionKernelVersion;
  k_features : Z;
  k_fee : MicroTari;
  k_lock_height : Z;
  k_excess : PedersenCommitment;
  k_excess_sig : RistrettoSchnorr;
  k_burn_commitment : option PedersenCommitment;
}.

Definition kernel_is_coinbase (self : TransactionKernel) : bool := kernel_features_contains (k_features self) COINBASE_KERNEL.

Definition kernel_is_burned (self : TransactionKernel) : bool := kernel_features_contains (k_features self) BURN_KERNEL.

Definition get_burn_commitment (self : TransactionKernel) : result TransactionError PedersenCommitment :=
  match k_burn_commitment self with Some c => Ok c | None => Err InvalidKernel end.

Definition build_kernel_signature_message (version : TransactionKernelVersion) (fee : MicroTari) (lock_height : Z) (features : Z)
    (burn_commitment : option PedersenCommitment) : bytes :=
  consensus_hash TransactionHashDomain "kernel_message"
    [[kernel_version_as_u8 version]; u64_serialize fee; u64_serialize lock_height; [features]; option_serialize com_serialize burn_commitment].

Definition build_kernel_signature_challenge (version : TransactionKernelVersion) (sum_public_nonces total_excess : RistrettoPublicKey)
    (fee : MicroTari) (lock_height : Z) (features : Z) (burn_commitment : option PedersenCommitment) : bytes :=
  let message := build_kernel_signature_message version fee lock_height features burn_commitment in
  consensus_hash TransactionHashDomain "kernel_signature" [pk_serialize sum_public_nonces; pk_serialize total_excess; message].

Definition verify_signature (self : TransactionKernel) : result TransactionError unit :=
  let excess := as_public_key (k_excess self) in
  let r := get_public_nonce (k_excess_sig self) in
  let c := build_kernel_signature_challenge (k_version self) r excess (k_fee self) (k_lock_height self) (k_features self)
    (k_burn_commitment self) in
  if verify_challenge (k_excess_sig self) excess c then Ok tt else Err InvalidSignatureError.

End Components.

(** ** Decidable equality *)

#[export] Instance OutputFeaturesVersion_eq_dec : EqDecision OutputFeaturesVersion.
Proof. solve_decision. Defined.
#[export] Instance TransactionOutputVersion_eq_dec : EqDecision TransactionOutputVersion.
Proof. solve_decision. Defined.

Section Equality.
Context {C : ScriptCrypto} {X : TxCrypto C}.

#[export] Instance ValidatorNodeSignature_eq_dec : EqDecision ValidatorNodeSignature.
Proof. solve_decision. Defined.
#[export] Instance ValidatorNodeReg_eq_dec : EqDecision ValidatorNodeReg.
Proof. solve_decision. Defined.
#[export] Instance TemplateType_eq_dec : EqDecision TemplateType.
Proof. solve_decision. Defined.
#[export] Instance BuildInfo_eq_dec : EqDecision BuildInfo.
Proof. solve_decision. Defined.
#[export] Instance CodeTemplateReg_eq_dec : EqDecision CodeTemplateReg.
Proof. solve_decision. Defined.
#[export] Instance ConfidentialOutputData_eq_dec : EqDecision ConfidentialOutputData.
Proof. solve_decision. Defined.
#[export] Instance SideChainFeature_eq_dec : EqDecision SideChainFeature.
Proof. solve_decision. Defined.
#[export] Instance OutputFeatures_eq_dec : EqDecision OutputFeatures.
Proof. solve_decision. Defined.
#[export] Instance Covenant_eq_dec : EqDecision Covenant.
Proof. unfold Covenant. apply _. Defined.
#[export] Instance TransactionOutput_eq_dec : EqDecision TransactionOutput.
Proof. solve_decision. Defined.

End Equality.
