(* ===== verification/BlockHeader.v ===== *)
(** * Block headers and merge mining

    [BlockHeader] with its hashes (src/base_layer/core/src/blocks/block_header.rs), [ProofOfWork]
    (proof_of_work/proof_of_work.rs), the Sha3 difficulty (proof_of_work/sha3_pow.rs) and the merge-mined proof of work:
    [MoneroPowData] with its encoding (proof_of_work/monero_rx/pow_data.rs, fixed_array.rs, merkle_tree.rs), its
    construction from a Monero block and its verification (proof_of_work/monero_rx/helpers.rs). *)

From S2P Require Import Prelude ScriptTypes Amounts Difficulty Covenants TxComponents MoneroMerkle.

Local Open Scope Z_scope.

(** ** Proof of work *)

Definition pow_algo_as_u8 (a : PowAlgorithm) : Z := match a with Monero => 0 | Sha3 => 1 end.

Record ProofOfWork := { pw_algo : PowAlgorithm; pw_data : bytes }.

Definition pow_default : ProofOfWork := {| pw_algo := Sha3; pw_data := [] |}.

Definition pow_to_bytes (self : ProofOfWork) : bytes := pow_algo_as_u8 (pw_algo self) :: pw_data self.

Section Header.
Context {C : ScriptCrypto} {B : BorshPrims C} {X : TxCrypto C}.

(** The derived Borsh encoding: the index of the variant and the vector. *)
Definition pow_serialize (self : ProofOfWork) : bytes := pow_algo_as_u8 (pw_algo self) :: vec_u8_serialize (pw_data self).

(** ** Headers *)

Record BlockHeader := {
  bh_version : Z;
  bh_height : Z;
  bh_prev_hash : bytes;
  bh_timestamp : Z;
  bh_output_mr : bytes;
  bh_witness_mr : bytes;
  bh_output_mmr_size : Z;
  bh_kernel_mr : bytes;
  bh_kernel_mmr_size : Z;
  bh_input_mr : bytes;
  bh_total_kernel_offset : RistrettoSecretKey;
  bh_total_script_offset : RistrettoSecretKey;
  bh_nonce : Z;
  bh_pow : ProofOfWork;
  bh_validator_node_mr : bytes;
}.

Definition bh_mining_hash (self : BlockHeader) : bytes :=
  consensus_hash BlocksHashDomain "block_header"
    [u16_serialize (bh_version self); u64_serialize (bh_height self); bh_prev_hash self; u64_serialize (bh_timestamp self);
     bh_input_mr self; bh_output_mr self; u64_serialize (bh_output_mmr_size self); bh_witness_mr self; bh_kernel_mr self;
     u64_serialize (bh_kernel_mmr_size self); sk_serialize (bh_total_kernel_offset self); sk_serialize (bh_total_script_offset self)].

Definition bh_hash (self : BlockHeader) : bytes :=
  consensus_hash BlocksHashDomain "block_header"
    [bh_mining_hash self; pow_serialize (bh_pow self); u64_serialize (bh_nonce self)].

Definition bh_pow_algo (self : BlockHeader) : PowAlgorithm := pw_algo (bh_pow self).

(** [BlockHeader::from_previous], at the time [now]. *)
Definition header_from_previous {E} (now : Z) (prev : BlockHeader) : result E BlockHeader :=
  height ← arith 0 U64_MAX (bh_height prev + 1);
  Ok {| bh_version := bh_version prev; bh_height := height; bh_prev_hash := bh_hash prev; bh_timestamp := now;
        bh_output_mr := zero_hash; bh_witness_mr := zero_hash; bh_output_mmr_size := bh_output_mmr_size prev;
        bh_kernel_mr := zero_hash; bh_kernel_mmr_size := bh_kernel_mmr_size prev; bh_input_mr := zero_hash;
        bh_total_kernel_offset := sk_default; bh_total_script_offset := sk_default; bh_nonce := 0; bh_pow := pow_default;
        bh_validator_node_mr := zero_hash |}.

(** ** Sha3 *)

Definition sha3_hash (header : BlockHeader) : bytes :=
  sha3_256 (le_bytes 8 (bh_nonce header) ++ bh_mining_hash header ++ pow_to_bytes (bh_pow header)).

Definition sha3x_difficulty_with_hash {E} `{U256Ops} (header : BlockHeader) : result E (Difficulty * bytes) :=
  let hash := sha3_hash header in
  let hash := sha3_256 hash in
  let hash := sha3_256 hash in
  difficulty ← big_endian_difficulty hash;
  Ok (difficulty, hash).

Definition sha3x_difficulty {E} `{U256Ops} (header : BlockHeader) : result E Difficulty := fst <$> sha3x_difficulty_with_hash header.

(** ** Reading the proof of work of a merge-mined header *)

(** [FixedByteArray]: up to 63 bytes. *)
Definition MAX_ARR_SIZE : Z := 63.

Definition fixed_from_bytes (b : bytes) : option bytes := if MAX_ARR_SIZE <? Z.of_nat (length b) then None else Some b.

Definition fixed_serialize (self : bytes) : bytes := Z.of_nat (length self) :: self.

(** [u8::deserialize] *)
Definition read_u8 (buf : bytes) : result IoError (Z * bytes) :=
  match buf with
  | [] => Err UnexpectedEof
  | b :: buf => Ok (b, buf)
  end.

Fixpoint read_bytes (n : nat) (buf : bytes) : result IoError (bytes * bytes) :=
  match n with
  | O => Ok ([], buf)
  | S n => '(b, buf) ← read_u8 buf; '(bs, buf) ← read_bytes n buf; Ok (b :: bs, buf)
  end.

Definition fixed_deserialize (buf : bytes) : result IoError (bytes * bytes) :=
  '(len, buf) ← read_u8 buf;
  if MAX_ARR_SIZE <? len then Err IoInvalidInput
  else
    '(b, buf) ← read_bytes (Z.to_nat len) buf;
    a ← unwrap (fixed_from_bytes b);
    Ok (a, buf).

Context {ML : MoneroLib}.

Definition merkle_proof_serialize (self : MerkleProof) : bytes :=
  write_varint (Z.of_nat (length (mp_branch self))) ++ concat (map monero_hash_encode (mp_branch self)) ++
  u16_serialize (mp_depth self) ++ u32_serialize (mp_path_bitmap self).

Fixpoint read_hashes (n : nat) (buf : bytes) : result IoError (list bytes * bytes) :=
  match n with
  | O => Ok ([], buf)
  | S n => '(h, buf) ← ok_or (monero_hash_decode buf) IoInvalidData; '(hs, buf) ← read_hashes n buf; Ok (h :: hs, buf)
  end.

(** [Vec::with_capacity(len)] of 32-byte hashes panics when they do not fit in [isize::MAX] bytes; below that the memory is taken to be
    available, while the code aborts when the allocator refuses it. The number of hashes read is bounded by the number of bytes. *)
Definition merkle_proof_deserialize (buf : bytes) : result IoError (MerkleProof * bytes) :=
  '(len, buf) ← ok_or (read_varint buf) UnexpectedEof;
  if I64_MAX <? 32 * len then Panic
  else
    '(branch, buf) ← read_hashes (Z.to_nat len) buf;
    '(depth, buf) ← ok_or (u16_deserialize buf) UnexpectedEof;
    '(path_bitmap, buf) ← ok_or (u32_deserialize buf) UnexpectedEof;
    Ok ({| mp_branch := branch; mp_depth := depth; mp_path_bitmap := path_bitmap |}, buf).

Record MoneroPowData := {
  md_header : MoneroBlockHeader;
  md_randomx_key : bytes;
  md_transaction_count : Z;
  md_merkle_root : bytes;
  md_coinbase_merkle_proof : MerkleProof;
  md_coinbase_tx : MoneroTransaction;
}.

Definition monero_data_serialize (self : MoneroPowData) : bytes :=
  monero_header_encode (md_header self) ++ fixed_serialize (md_randomx_key self) ++ u16_serialize (md_transaction_count self) ++
  monero_hash_encode (md_merkle_root self) ++ merkle_proof_serialize (md_coinbase_merkle_proof self) ++
  monero_tx_encode (md_coinbase_tx self).

Definition monero_data_deserialize (buf : bytes) : result IoError (MoneroPowData * bytes) :=
  '(header, buf) ← ok_or (monero_header_decode buf) IoInvalidData;
  '(randomx_key, buf) ← fixed_deserialize buf;
  '(transaction_count, buf) ← ok_or (u16_deserialize buf) UnexpectedEof;
  '(merkle_root, buf) ← ok_or (monero_hash_decode buf) IoInvalidData;
  '(coinbase_merkle_proof, buf) ← merkle_proof_deserialize buf;
  '(coinbase_tx, buf) ← ok_or (monero_tx_decode buf) IoInvalidData;
  Ok ({| md_header := header; md_randomx_key := randomx_key; md_transaction_count := transaction_count; md_merkle_root := merkle_root;
         md_coinbase_merkle_proof := coinbase_merkle_proof; md_coinbase_tx := coinbase_tx |}, buf).

(** [MoneroPowData::from_header]: what follows the data is ignored. *)
Definition from_header (tari_header : BlockHeader) : result MergeMineError MoneroPowData :=
  map_err (fun _ => DeserializeError) (fst <$> monero_data_deserialize (pw_data (bh_pow tari_header))).

Definition is_valid_merkle_root {E} (self : MoneroPowData) : result E bool :=
  let coinbase_hash := monero_tx_hash (md_coinbase_tx self) in
  merkle_root ← calculate_root (md_coinbase_merkle_proof self) coinbase_hash;
  Ok (bool_decide (md_merkle_root self = merkle_root)).

Definition create_block_hashing_blob (header : MoneroBlockHeader) (merkle_root : bytes) (transaction_count : Z) : bytes :=
  monero_header_encode header ++ merkle_root ++ monero_varint transaction_count.

Definition to_blockhashing_blob (self : MoneroPowData) : bytes :=
  create_block_hashing_blob (md_header self) (md_merkle_root self) (md_transaction_count self).

(** ** Verification *)

(** The merge mining tag of a Tari header. *)
Definition is_tag (hash : bytes) (item : SubField) : bool :=
  match item with
  | MergeMining (Some depth) merge_mining_hash => (depth =? 0) && bool_decide (merge_mining_hash = hash)
  | _ => false
  end.

Definition verify_header (header : BlockHeader) : result MergeMineError MoneroPowData :=
  monero_data ← from_header header;
  let expected_merge_mining_hash := bh_mining_hash header in
  extra_field ← ok_or (monero_tx_extra (md_coinbase_tx monero_data)) DeserializeError;
  if existsb (is_tag expected_merge_mining_hash) extra_field then
    valid ← is_valid_merkle_root monero_data;
    if valid : bool then Ok monero_data else Err InvalidMerkleRoot
  else Err MmValidationError.

Definition get_random_x_difficulty `{U256Ops} (input key : bytes) : result MergeMineError Difficulty :=
  hash ← ok_or (randomx_hash key input) RandomXError;
  little_endian_difficulty hash.

Definition monero_difficulty `{U256Ops} (header : BlockHeader) : result MergeMineError Difficulty :=
  monero_pow_data ← verify_header header;
  get_random_x_difficulty (to_blockhashing_blob monero_pow_data) (md_randomx_key monero_pow_data).

(** ** Mining *)

(** [monero::Block] *)
Record MoneroBlock := { mb_header : MoneroBlockHeader; mb_miner_tx : MoneroTransaction; mb_tx_hashes : list bytes }.

Definition create_ordered_transaction_hashes_from_block (block : MoneroBlock) : list bytes :=
  monero_tx_hash (mb_miner_tx block) :: mb_tx_hashes block.

Definition append_merge_mining_tag (block : MoneroBlock) (hash : bytes) : result MergeMineError MoneroBlock :=
  if decide (length hash = 32%nat) then
    let mm_tag := MergeMining (Some 0) hash in
    extra_field ← ok_or (monero_tx_extra (mb_miner_tx block)) DeserializeError;
    Ok {| mb_header := mb_header block; mb_miner_tx := monero_tx_with_extra (mb_miner_tx block) (extra_field ++ [mm_tag]);
          mb_tx_hashes := mb_tx_hashes block |}
  else Err HashingError.

Definition construct_monero_data (block : MoneroBlock) (seed : bytes) : result MergeMineError MoneroPowData :=
  let hashes := create_ordered_transaction_hashes_from_block block in
  root ← tree_hash hashes;
  h0 ← index hashes 0;
  proof ← create_merkle_proof hashes h0;
  coinbase_merkle_proof ← ok_or proof MmValidationError;
  Ok {| md_header := mb_header block; md_randomx_key := seed; md_transaction_count := Z.of_nat (length hashes) mod 2 ^ 16;
        md_merkle_root := root; md_coinbase_merkle_proof := coinbase_merkle_proof; md_coinbase_tx := mb_miner_tx block |}.

(** [create_blockhashing_blob_from_block], before the hexadecimal encoding. *)
Definition create_blockhashing_blob_from_block (block : MoneroBlock) : result MergeMineError bytes :=
  let tx_hashes := create_ordered_transaction_hashes_from_block block in
  root ← tree_hash tx_hashes;
  Ok (create_block_hashing_blob (mb_header block) root (Z.of_nat (length tx_hashes))).

Definition extract_tari_hash (monero : MoneroBlock) : result MergeMineError (option bytes) :=
  extra_field ← ok_or (monero_tx_extra (mb_miner_tx monero)) DeserializeError;
  Ok (foldr (fun item rest => match item with MergeMining _ merge_mining_hash => Some merge_mining_hash | _ => rest end) None extra_field).

End Header.
