(* ===== verification/CovenantFilters.v ===== *)
(** * Covenants: execution

    src/base_layer/core/src/covenants: fields.rs (reading fields), output_set.rs, context.rs, the filters
    and [Covenant::execute].

    A filter consumes its arguments from the remaining tokens and narrows the set of outputs in place;
    both are passed along here. [OutputSet] is a [BTreeSet] of outputs ordered by their index in
    the transaction: a list in ascending order of indices. *)

From Stdlib Require Import String.
From S2P Require Import Prelude ScriptTypes Opcodes ScriptStack TariScript Amounts ConsensusConstants Covenants TxComponents.

Local Open Scope Z_scope.

Inductive CovenantError :=
| UnexpectedEndOfTokens | ExpectedArgButGotFilter | ExpectedFilterButGotArg | UnexpectedArgument | NoMatchingOutputs
| RemainingTokens | InvalidArgument.

Section Execution.
Context {C : ScriptCrypto} {B : BorshPrims C} {X : TxCrypto C}.

(** ** Fields of an output *)

(** The value of a field, with its type ([&dyn Any]). *)
Inductive FieldValue :=
| FV_Commitment (c : PedersenCommitment)
| FV_TariScript (s : TariScript)
| FV_PublicKey (k : RistrettoPublicKey)
| FV_Covenant (c : Covenant)
| FV_OutputFeatures (f : OutputFeatures)
| FV_OutputType (t : OutputType)
| FV_u64 (v : Z)
| FV_SideChainFeature (f : option SideChainFeature).

Definition get_field_value_ref (self : OutputField) (output : TransactionOutput) : FieldValue :=
  match self with
  | Field_Commitment => FV_Commitment (out_commitment output)
  | Field_Script => FV_TariScript (out_script output)
  | Field_SenderOffsetPublicKey => FV_PublicKey (out_sender_offset_public_key output)
  | Field_Covenant => FV_Covenant (out_covenant output)
  | Field_Features => FV_OutputFeatures (out_features output)
  | Field_FeaturesOutputType => FV_OutputType (feat_output_type (out_features output))
  | Field_FeaturesMaturity => FV_u64 (feat_maturity (out_features output))
  | Field_FeaturesSideChainFeatures => FV_SideChainFeature (sidechain_feature (out_features output))
  end.

Definition get_field_value_bytes (self : OutputField) (output : TransactionOutput) : result CovenantError bytes :=
  match self with
  | Field_Commitment => Ok (com_serialize (out_commitment output))
  | Field_Script => Ok (script_borsh_serialize (out_script output))
  | Field_SenderOffsetPublicKey => Ok (pk_serialize (out_sender_offset_public_key output))
  | Field_Covenant => expect (covenant_borsh_serialize (out_covenant output))
  | Field_Features => Ok (features_serialize (out_features output))
  | Field_FeaturesOutputType => Ok [output_type_as_byte (feat_output_type (out_features output))]
  | Field_FeaturesMaturity => Ok (u64_serialize (feat_maturity (out_features output)))
  | Field_FeaturesSideChainFeatures => Ok (option_serialize sidechain_serialize (sidechain_feature (out_features output)))
  end.

(** [.map(..).unwrap_or(false)] *)
Definition holds {E A} (r : result E A) (p : A -> bool) : bool := match r with Ok a => p a | _ => false end.

Definition is_eq_input (self : OutputField) (input : TransactionInput) (output : TransactionOutput) : bool :=
  match self with
  | Field_Commitment => holds (in_commitment input) (fun c => bool_decide (c = out_commitment output))
  | Field_Script => holds (in_script input) (fun s => bool_decide (s = out_script output))
  | Field_SenderOffsetPublicKey => holds (in_sender_offset_public_key input) (fun k => bool_decide (k = out_sender_offset_public_key output))
  | Field_Covenant => holds (in_covenant input) (fun c => bool_decide (c = out_covenant output))
  | Field_Features => holds (in_features input) (fun f => bool_decide (f = out_features output))
  | Field_FeaturesOutputType => holds (in_features input) (fun f => bool_decide (feat_output_type f = feat_output_type (out_features output)))
  | Field_FeaturesMaturity => holds (in_features input) (fun f => feat_maturity f =? feat_maturity (out_features output))
  | Field_FeaturesSideChainFeatures => holds (in_features input) (fun f => bool_decide (sidechain_feature f = sidechain_feature (out_features output)))
  end.

(** The comparison of a field with an argument of type [T]. The side chain field is an
    [Option<SideChainFeature>], which is neither [Option<Box<T>>] nor [Option<T>] for a type [T] of an argument;
    no field is a hash or a byte vector. *)
Definition is_eq (self : OutputField) (output : TransactionOutput) (val : CovenantArg) : result CovenantError bool :=
  match self with
  | Field_FeaturesSideChainFeatures => Err InvalidArgument
  | _ =>
      match get_field_value_ref self output, val with
      | FV_PublicKey k, Arg_PublicKey v => Ok (bool_decide (k = v))
      | FV_Commitment c, Arg_Commitment v => Ok (bool_decide (c = v))
      | FV_TariScript s, Arg_TariScript v => Ok (bool_decide (s = v))
      | FV_Covenant c, Arg_Covenant v => Ok (bool_decide (c = v))
      | FV_OutputType t, Arg_OutputType v => Ok (bool_decide (t = v))
      | _, _ => Err InvalidArgument
      end
  end.

Definition construct_challenge_from (self : OutputFields) (output : TransactionOutput) : result CovenantError bytes :=
  parts ← mapM (fun field => get_field_value_bytes field output) (fields self);
  Ok (consensus_hash BaseLayerCovenantsDomain "fields" parts).

(** ** Sets of outputs *)

Definition OutputSet : Type := list (nat * TransactionOutput).

Definition output_set_new (outputs : list TransactionOutput) : OutputSet := imap pair outputs.

(** All outputs are visited; the last error is kept. *)
Definition retain_step (f : TransactionOutput -> result CovenantError bool) (acc : OutputSet * option CovenantError)
    (output : nat * TransactionOutput) : result CovenantError (OutputSet * option CovenantError) :=
  match f output.2 with
  | Ok b => Ok (if (b : bool) then acc.1 ++ [output] else acc.1, acc.2)
  | Err e => Ok (acc.1, Some e)
  | Panic => Panic
  end.

Definition retain (f : TransactionOutput -> result CovenantError bool) (self : OutputSet) : result CovenantError OutputSet :=
  '(kept, err) ← foldM (retain_step f) self ([], None);
  match err with Some e => Err e | None => Ok kept end.

(** The union of two ordered sets, elements of [self] first on equal indices. *)
Fixpoint output_set_union (self other : OutputSet) : OutputSet :=
  match self with
  | [] => other
  | a :: self' =>
      (fix go (other : OutputSet) : OutputSet :=
        match other with
        | [] => self
        | b :: other' =>
            match Nat.compare a.1 b.1 with
            | Lt => a :: output_set_union self' other
            | Eq => a :: output_set_union self' other'
            | Gt => b :: go other'
            end
        end) other
  end.

Definition difference (self other : OutputSet) : OutputSet := filter (fun a => a.1 ∉ other.*1) self.

Definition symmetric_difference (self other : OutputSet) : OutputSet :=
  output_set_union (difference self other) (difference other self).

Fixpoint output_set_find (pred : TransactionOutput -> result CovenantError bool) (self : OutputSet)
    : result CovenantError (option (nat * TransactionOutput)) :=
  match self with
  | [] => Ok None
  | a :: self => b ← pred a.2; if (b : bool) then Ok (Some a) else output_set_find pred self
  end.

Definition find_inplace (pred : TransactionOutput -> result CovenantError bool) (self : OutputSet) : result CovenantError OutputSet :=
  found ← output_set_find pred self;
  match found with Some a => Ok [a] | None => Ok [] end.

(** ** The context *)

Record CovenantContext := { cx_input : TransactionInput; cx_block_height : Z }.

(** The tokens that remain are threaded through. *)
Definition next_arg (tokens : list CovenantToken) : result CovenantError (CovenantArg * list CovenantToken) :=
  match tokens with
  | [] => Err UnexpectedEndOfTokens
  | Token_Arg arg :: tokens => Ok (arg, tokens)
  | Token_Filter _ :: _ => Err ExpectedArgButGotFilter
  end.

Definition require_next_filter (tokens : list CovenantToken) : result CovenantError (CovenantFilter * list CovenantToken) :=
  match tokens with
  | [] => Err UnexpectedEndOfTokens
  | Token_Filter filter :: tokens => Ok (filter, tokens)
  | Token_Arg _ :: _ => Err ExpectedFilterButGotArg
  end.

Definition require_hash (a : CovenantArg) : result CovenantError bytes := match a with Arg_Hash h => Ok h | _ => Err UnexpectedArgument end.
Definition require_uint (a : CovenantArg) : result CovenantError Z := match a with Arg_Uint v => Ok v | _ => Err UnexpectedArgument end.
Definition require_outputfield (a : CovenantArg) : result CovenantError OutputField :=
  match a with Arg_OutputField f => Ok f | _ => Err UnexpectedArgument end.
Definition require_outputfields (a : CovenantArg) : result CovenantError OutputFields :=
  match a with Arg_OutputFields f => Ok f | _ => Err UnexpectedArgument end.

(** ** Filters *)

Definition FilterResult : Type := result CovenantError (list CovenantToken * OutputSet).

Section Filters.
Context (cx : CovenantContext) (rec : CovenantFilter -> list CovenantToken -> OutputSet -> FilterResult).
Implicit Types (tokens : list CovenantToken) (output_set : OutputSet).

Definition identity_filter tokens output_set : FilterResult := Ok (tokens, output_set).

Definition and_filter tokens output_set : FilterResult :=
  '(a, tokens) ← require_next_filter tokens;
  '(tokens, output_set) ← rec a tokens output_set;
  '(b, tokens) ← require_next_filter tokens;
  rec b tokens output_set.

Definition or_filter tokens output_set : FilterResult :=
  '(a, tokens) ← require_next_filter tokens;
  '(tokens, output_set_a) ← rec a tokens output_set;
  '(b, tokens) ← require_next_filter tokens;
  '(tokens, output_set_b) ← rec b tokens output_set;
  Ok (tokens, output_set_union output_set_a output_set_b).

Definition xor_filter tokens output_set : FilterResult :=
  '(a, tokens) ← require_next_filter tokens;
  '(tokens, output_set_a) ← rec a tokens output_set;
  '(b, tokens) ← require_next_filter tokens;
  '(tokens, output_set_b) ← rec b tokens output_set;
  Ok (tokens, symmetric_difference output_set_a output_set_b).

Definition not_filter tokens output_set : FilterResult :=
  '(filter, tokens) ← require_next_filter tokens;
  '(tokens, output_set_copy) ← rec filter tokens output_set;
  Ok (tokens, difference output_set output_set_copy).

Definition output_hash_eq_filter tokens output_set : FilterResult :=
  '(arg, tokens) ← next_arg tokens;
  hash ← require_hash arg;
  output_set ← find_inplace (fun output => h ← output_hash output; Ok (bool_decide (h = hash))) output_set;
  Ok (tokens, output_set).

Definition fields_preserved_filter tokens output_set : FilterResult :=
  '(arg, tokens) ← next_arg tokens;
  fs ← require_outputfields arg;
  output_set ← retain (fun output => Ok (forallb (fun field => is_eq_input field (cx_input cx) output) (fields fs))) output_set;
  Ok (tokens, output_set).

Definition field_eq_filter tokens output_set : FilterResult :=
  '(arg, tokens) ← next_arg tokens;
  field ← require_outputfield arg;
  '(arg, tokens) ← next_arg tokens;
  output_set ← retain (fun output =>
    match arg with
    | Arg_Uint int =>
        match get_field_value_ref field output with
        | FV_u64 val => Ok (val =? int)
        | _ => Err InvalidArgument
        end
    | Arg_OutputField _ | Arg_OutputFields _ => Err InvalidArgument
    | _ => is_eq field output arg
    end) output_set;
  Ok (tokens, output_set).

Definition fields_hashed_eq_filter tokens output_set : FilterResult :=
  '(arg, tokens) ← next_arg tokens;
  fs ← require_outputfields arg;
  '(arg, tokens) ← next_arg tokens;
  hash ← require_hash arg;
  output_set ← retain (fun output => challenge ← construct_challenge_from fs output; Ok (bool_decide (challenge = hash))) output_set;
  Ok (tokens, output_set).

Definition absolute_height_filter tokens output_set : FilterResult :=
  '(arg, tokens) ← next_arg tokens;
  abs_height ← require_uint arg;
  Ok (tokens, if cx_block_height cx <? abs_height then [] else output_set).

End Filters.

(** [CovenantFilter::filter]; every call consumes a token before it recurses. *)
Fixpoint run_filter (fuel : nat) (cx : CovenantContext) (filter : CovenantFilter) (tokens : list CovenantToken) (output_set : OutputSet)
    : FilterResult :=
  match fuel with
  | O => Panic
  | S fuel =>
      let rec := run_filter fuel cx in
      match filter with
      | F_Identity => identity_filter tokens output_set
      | F_And => and_filter rec tokens output_set
      | F_Or => or_filter rec tokens output_set
      | F_Xor => xor_filter rec tokens output_set
      | F_Not => not_filter rec tokens output_set
      | F_OutputHashEq => output_hash_eq_filter tokens output_set
      | F_FieldsPreserved => fields_preserved_filter cx tokens output_set
      | F_FieldEq => field_eq_filter tokens output_set
      | F_FieldsHashedEq => fields_hashed_eq_filter tokens output_set
      | F_AbsoluteHeight => absolute_height_filter cx tokens output_set
      end
  end.

Definition covenant_execute (self : Covenant) (block_height : Z) (input : TransactionInput) (outputs : list TransactionOutput)
    : result CovenantError Z :=
  match self with
  | [] => Ok (Z.of_nat (List.length outputs))
  | _ =>
      let cx := {| cx_input := input; cx_block_height := block_height |} in
      '(root, tokens) ← require_next_filter self;
      '(tokens, output_set) ← run_filter (List.length self) cx root tokens (output_set_new outputs);
      if negb (bool_decide (tokens = [])) then Err RemainingTokens
      else if bool_decide (output_set = []) then Err NoMatchingOutputs
      else Ok (Z.of_nat (List.length output_set))
  end.

End Execution.
