(* ===== verification/CovenantSpec.v ===== *)
(** * Covenants: what execution decides

    A covenant that is the prefix form of an expression keeps exactly the outputs that satisfy it; any
    other non-empty covenant fails. Expressions ([cexpr]) and satisfaction ([sat]) are the
    specification; [run_filter] and [covenant_execute] are the translated code. *)

From Stdlib Require Import String Sorted.
From S2P Require Import Prelude ScriptTypes Opcodes ScriptStack TariScript Amounts ConsensusConstants Covenants TxComponents CovenantFilters.

Local Open Scope Z_scope.

Section Spec.
Context {C : ScriptCrypto} {B : BorshPrims C} {X : TxCrypto C}.

(** ** Expressions *)

Inductive cexpr :=
| EIdentity
| EAnd (a b : cexpr)
| EOr (a b : cexpr)
| EXor (a b : cexpr)
| ENot (a : cexpr)
| EOutputHashEq (hash : bytes)
| EFieldsPreserved (fs : OutputFields)
| EFieldEq (field : OutputField) (arg : CovenantArg)
| EFieldsHashedEq (fs : OutputFields) (hash : bytes)
| EAbsoluteHeight (height : Z).

Definition root (e : cexpr) : CovenantFilter :=
  match e with
  | EIdentity => F_Identity
  | EAnd _ _ => F_And
  | EOr _ _ => F_Or
  | EXor _ _ => F_Xor
  | ENot _ => F_Not
  | EOutputHashEq _ => F_OutputHashEq
  | EFieldsPreserved _ => F_FieldsPreserved
  | EFieldEq _ _ => F_FieldEq
  | EFieldsHashedEq _ _ => F_FieldsHashedEq
  | EAbsoluteHeight _ => F_AbsoluteHeight
  end.

(** The tokens of an expression, after the one of its root. *)
Fixpoint operands (e : cexpr) : list CovenantToken :=
  match e with
  | EIdentity => []
  | EAnd a b | EOr a b | EXor a b => Token_Filter (root a) :: operands a ++ Token_Filter (root b) :: operands b
  | ENot a => Token_Filter (root a) :: operands a
  | EOutputHashEq hash => [Token_Arg (Arg_Hash hash)]
  | EFieldsPreserved fs => [Token_Arg (Arg_OutputFields fs)]
  | EFieldEq field arg => [Token_Arg (Arg_OutputField field); Token_Arg arg]
  | EFieldsHashedEq fs hash => [Token_Arg (Arg_OutputFields fs); Token_Arg (Arg_Hash hash)]
  | EAbsoluteHeight height => [Token_Arg (Arg_Uint height)]
  end.

Definition tokens_of (e : cexpr) : Covenant := Token_Filter (root e) :: operands e.

(** ** Satisfaction *)

(** The argument has the type of the field. *)
Definition comparable (field : OutputField) (arg : CovenantArg) : bool :=
  match field, arg with
  | Field_Commitment, Arg_Commitment _ | Field_Script, Arg_TariScript _ | Field_SenderOffsetPublicKey, Arg_PublicKey _
  | Field_Covenant, Arg_Covenant _ | Field_FeaturesOutputType, Arg_OutputType _ | Field_FeaturesMaturity, Arg_Uint _ => true
  | _, _ => false
  end.

Fixpoint well_typed (e : cexpr) : bool :=
  match e with
  | EAnd a b | EOr a b | EXor a b => well_typed a && well_typed b
  | ENot a => well_typed a
  | EFieldEq field arg => comparable field arg
  | _ => true
  end.

Definition has_value (field : OutputField) (arg : CovenantArg) (o : TransactionOutput) : bool :=
  match field, arg with
  | Field_Commitment, Arg_Commitment c => bool_decide (out_commitment o = c)
  | Field_Script, Arg_TariScript s => bool_decide (out_script o = s)
  | Field_SenderOffsetPublicKey, Arg_PublicKey k => bool_decide (out_sender_offset_public_key o = k)
  | Field_Covenant, Arg_Covenant c => bool_decide (out_covenant o = c)
  | Field_FeaturesOutputType, Arg_OutputType t => bool_decide (feat_output_type (out_features o) = t)
  | Field_FeaturesMaturity, Arg_Uint v => feat_maturity (out_features o) =? v
  | _, _ => false
  end.

Fixpoint sat (cx : CovenantContext) (e : cexpr) (o : TransactionOutput) : bool :=
  match e with
  | EIdentity => true
  | EAnd a b => sat cx a o && sat cx b o
  | EOr a b => sat cx a o || sat cx b o
  | EXor a b => xorb (sat cx a o) (sat cx b o)
  | ENot a => negb (sat cx a o)
  | EOutputHashEq hash => holds (@output_hash _ _ _ CovenantError o) (fun h => bool_decide (h = hash))
  | EFieldsPreserved fs => forallb (fun f => is_eq_input f (cx_input cx) o) (fields fs)
  | EFieldEq field arg => has_value field arg o
  | EFieldsHashedEq fs hash => holds (construct_challenge_from fs o) (fun h => bool_decide (h = hash))
  | EAbsoluteHeight height => height <=? cx_block_height cx
  end.

(** Outputs whose covenant can be encoded. *)
Definition encodable (o : TransactionOutput) : Prop := exists b, covenant_borsh_serialize (out_covenant o) = Ok b.

(** Different outputs have different hashes. *)
Definition hashes_distinct (s : OutputSet) : Prop :=
  forall x y h, x ∈ s -> y ∈ s -> @output_hash _ _ _ CovenantError x.2 = Ok h -> @output_hash _ _ _ CovenantError y.2 = Ok h -> x = y.

(** ** Structured evaluation *)

Definition field_eq_test (field : OutputField) (arg : CovenantArg) (o : TransactionOutput) : result CovenantError bool :=
  match arg with
  | Arg_Uint int => match get_field_value_ref field o with FV_u64 val => Ok (val =? int) | _ => Err InvalidArgument end
  | Arg_OutputField _ | Arg_OutputFields _ => Err InvalidArgument
  | _ => is_eq field o arg
  end.

Fixpoint eval (cx : CovenantContext) (e : cexpr) (s : OutputSet) : result CovenantError OutputSet :=
  match e with
  | EIdentity => Ok s
  | EAnd a b => sa ← eval cx a s; eval cx b sa
  | EOr a b => sa ← eval cx a s; sb ← eval cx b s; Ok (output_set_union sa sb)
  | EXor a b => sa ← eval cx a s; sb ← eval cx b s; Ok (symmetric_difference sa sb)
  | ENot a => sa ← eval cx a s; Ok (difference s sa)
  | EOutputHashEq hash => find_inplace (fun o => h ← output_hash o; Ok (bool_decide (h = hash))) s
  | EFieldsPreserved fs => retain (fun o => Ok (forallb (fun f => is_eq_input f (cx_input cx) o) (fields fs))) s
  | EFieldEq field arg => retain (field_eq_test field arg) s
  | EFieldsHashedEq fs hash => retain (fun o => challenge ← construct_challenge_from fs o; Ok (bool_decide (challenge = hash))) s
  | EAbsoluteHeight height => Ok (if cx_block_height cx <? height then [] else s)
  end.

(** ** Execution is structured evaluation *)

Lemma run_tokens cx e : forall fuel rest s, (List.length (operands e) < fuel)%nat ->
  run_filter fuel cx (root e) (operands e ++ rest) s = (s' ← eval cx e s; Ok (rest, s')).
Proof.
  induction e as [|a IHa b IHb|a IHa b IHb|a IHa b IHb|a IHa|h|fs|f arg|fs h|v]; intros [|fuel] rest s Hf; try lia; cbn [root run_filter]; try done.
  1-3: cbn [operands] in *; cbn in Hf; rewrite length_app in Hf; cbn in Hf; rewrite <- app_comm_cons, <- app_assoc;
    unfold and_filter, or_filter, xor_filter; cbn [require_next_filter mbind result_bind eval app]; rewrite IHa by lia;
    destruct (eval cx a s) as [sa| |]; [|done..]; cbn [require_next_filter mbind result_bind app]; rewrite IHb by lia; first [done|by destruct (eval cx b s)].
  cbn [operands] in *. cbn in Hf. unfold not_filter. cbn [app require_next_filter mbind result_bind eval]. rewrite IHa by lia. by destruct (eval cx a s).
Qed.

(** The reverse: a filter that succeeds has consumed the operands of an expression. *)

Definition operand (rec : CovenantFilter -> list CovenantToken -> OutputSet -> FilterResult) (tokens : list CovenantToken) (s : OutputSet)
    : FilterResult :=
  '(a, tokens) ← require_next_filter tokens;
  rec a tokens s.

Lemma operand_inv fuel cx tokens s t s' :
  (forall f tokens s rest s', run_filter fuel cx f tokens s = Ok (rest, s') ->
    exists e, root e = f /\ tokens = operands e ++ rest /\ eval cx e s = Ok s') ->
  operand (run_filter fuel cx) tokens s = Ok (t, s') ->
  exists e, tokens = Token_Filter (root e) :: operands e ++ t /\ eval cx e s = Ok s'.
Proof.
  intros IH H. unfold operand in H. destruct tokens as [|[f|a] tokens]; [done| |done]. cbn in H.
  apply IH in H as (e & <- & -> & He). by exists e.
Qed.

Lemma and_filter_eq rec tokens s : and_filter rec tokens s = ('(t, sa) ← operand rec tokens s; operand rec t sa).
Proof. unfold and_filter, operand. destruct (require_next_filter tokens) as [[a t]| |]; done. Qed.

Lemma or_filter_eq rec tokens s :
  or_filter rec tokens s = ('(t, sa) ← operand rec tokens s; '(t, sb) ← operand rec t s; Ok (t, output_set_union sa sb)).
Proof.
  unfold or_filter, operand. destruct (require_next_filter tokens) as [[a t]| |]; [|done..]. cbn. destruct (rec a t s) as [[t' sa]| |]; [|done..]. cbn.
  by destruct (require_next_filter t') as [[b t'']| |].
Qed.

Lemma xor_filter_eq rec tokens s :
  xor_filter rec tokens s = ('(t, sa) ← operand rec tokens s; '(t, sb) ← operand rec t s; Ok (t, symmetric_difference sa sb)).
Proof.
  unfold xor_filter, operand. destruct (require_next_filter tokens) as [[a t]| |]; [|done..]. cbn. destruct (rec a t s) as [[t' sa]| |]; [|done..]. cbn.
  by destruct (require_next_filter t') as [[b t'']| |].
Qed.

Lemma not_filter_eq rec tokens s : not_filter rec tokens s = ('(t, sa) ← operand rec tokens s; Ok (t, difference s sa)).
Proof. unfold not_filter, operand. by destruct (require_next_filter tokens) as [[a t]| |]. Qed.

Lemma next_arg_Ok tokens a rest : next_arg tokens = Ok (a, rest) -> tokens = Token_Arg a :: rest.
Proof. destruct tokens as [|[g|x] tokens]; cbn; [done|done|]. by intros [= -> ->]. Qed.

(** Undo the leading step of a computation that succeeds. *)
Ltac step_Ok H :=
  match type of H with
  | ?m ≫= _ = Ok _ => let E := fresh "Hm" in destruct m as [?r| |] eqn:E; [|discriminate H..]; cbn [mbind result_bind] in H
  end.

Lemma run_filter_inv fuel cx : forall f tokens s rest s', run_filter fuel cx f tokens s = Ok (rest, s') ->
  exists e, root e = f /\ tokens = operands e ++ rest /\ eval cx e s = Ok s'.
Proof.
  induction fuel as [|fuel IH]; intros f tokens s rest s' H; [done|]. destruct f; cbn [run_filter] in H.
  - unfold identity_filter in H. injection H as <- <-. by exists EIdentity.
  - rewrite and_filter_eq in H. step_Ok H. destruct r as [t sa]. apply operand_inv in Hm as (a & -> & Ha), H as (b & -> & Hb); [|done..].
    exists (EAnd a b). split; [done|]. cbn. rewrite <- app_assoc, Ha. done.
  - rewrite or_filter_eq in H. step_Ok H. destruct r as [t sa]. step_Ok H. destruct r as [t' sb].
    apply operand_inv in Hm as (a & -> & Ha), Hm0 as (b & -> & Hb); [|done..].
    injection H as <- <-. exists (EOr a b). split; [done|]. cbn. rewrite <- app_assoc, Ha, Hb. done.
  - rewrite xor_filter_eq in H. step_Ok H. destruct r as [t sa]. step_Ok H. destruct r as [t' sb].
    apply operand_inv in Hm as (a & -> & Ha), Hm0 as (b & -> & Hb); [|done..].
    injection H as <- <-. exists (EXor a b). split; [done|]. cbn. rewrite <- app_assoc, Ha, Hb. done.
  - rewrite not_filter_eq in H. step_Ok H. destruct r as [t sa]. apply operand_inv in Hm as (a & -> & Ha); [|done].
    injection H as <- <-. exists (ENot a). split; [done|]. cbn. rewrite Ha. done.
  - unfold output_hash_eq_filter in H. step_Ok H. destruct r as [a t]. apply next_arg_Ok in Hm as ->. destruct a as [h| | | | | | | | |]; try done. cbn [require_hash mbind result_bind] in H.
    step_Ok H. injection H as <- <-. by exists (EOutputHashEq h).
  - unfold fields_preserved_filter in H. step_Ok H. destruct r as [a t]. apply next_arg_Ok in Hm as ->. destruct a as [| | | | | | | |fs|]; try done. cbn [require_outputfields mbind result_bind] in H.
    step_Ok H. injection H as <- <-. by exists (EFieldsPreserved fs).
  - unfold field_eq_filter in H. step_Ok H. destruct r as [a t]. apply next_arg_Ok in Hm as ->. destruct a as [| | | | | | |f| |]; try done. cbn [require_outputfield mbind result_bind] in H.
    step_Ok H. destruct r as [a t']. apply next_arg_Ok in Hm as ->. step_Ok H. injection H as <- <-. by exists (EFieldEq f a).
  - unfold fields_hashed_eq_filter in H. step_Ok H. destruct r as [a t]. apply next_arg_Ok in Hm as ->. destruct a as [| | | | | | | |fs|]; try done. cbn [require_outputfields mbind result_bind] in H.
    step_Ok H. destruct r as [a t']. apply next_arg_Ok in Hm as ->. destruct a as [h| | | | | | | | |]; try done. cbn [require_hash mbind result_bind] in H.
    step_Ok H. injection H as <- <-. by exists (EFieldsHashedEq fs h).
  - unfold absolute_height_filter in H. step_Ok H. destruct r as [a t]. apply next_arg_Ok in Hm as ->. destruct a as [| | | | | |v| | |]; try done. cbn [require_uint mbind result_bind] in H.
    injection H as <- <-. by exists (EAbsoluteHeight v).
Qed.

(** ** Sets of outputs *)

Abbreviation keep p s := (List.filter (fun x : nat * TransactionOutput => p x.2) s).

Definition ascending (s : OutputSet) : Prop := StronglySorted (fun x y => x.1 < y.1)%nat s.

Lemma keep_ascending p s : ascending s -> ascending (keep p s).
Proof.
  induction 1 as [|x s _ IH Hx]; cbn; [constructor|]. destruct (p x.2); [|done]. constructor; [done|].
  apply Forall_forall. intros y Hy. rewrite Forall_forall in Hx. apply Hx. apply list_elem_of_In in Hy. apply filter_In in Hy as [Hy _]. by apply list_elem_of_In.
Qed.

Lemma union_cons a l b r : output_set_union (a :: l) (b :: r) =
  match Nat.compare a.1 b.1 with
  | Lt => a :: output_set_union l (b :: r)
  | Eq => a :: output_set_union l r
  | Gt => b :: output_set_union (a :: l) r
  end.
Proof. done. Qed.

Lemma union_nil l : output_set_union l [] = l.
Proof. by destruct l. Qed.

(** An element below both sets goes first. *)
Lemma union_below_l x l r : Forall (fun y => x.1 < y.1)%nat r -> output_set_union (x :: l) r = x :: output_set_union l r.
Proof. intros [|b r' Hb _]; [by rewrite !union_nil|]. rewrite union_cons. by rewrite (proj2 (Nat.compare_lt_iff _ _) Hb). Qed.

Lemma union_below_r x l r : Forall (fun y => x.1 < y.1)%nat l -> output_set_union l (x :: r) = x :: output_set_union l r.
Proof. intros [|a l' Ha _]; [done|]. rewrite union_cons. by rewrite (proj2 (Nat.compare_gt_iff _ _) Ha). Qed.

Lemma keep_below (x : nat * TransactionOutput) p s : Forall (fun y => x.1 < y.1)%nat s -> Forall (fun y => x.1 < y.1)%nat (keep p s).
Proof. induction 1 as [|y s Hy _ IH]; cbn; [done|]. destruct (p y.2); [by constructor|done]. Qed.

Lemma union_keep p q s : ascending s -> output_set_union (keep p s) (keep q s) = keep (fun o => p o || q o) s.
Proof.
  induction 1 as [|x s _ IH Hx]; [done|]. cbn. pose proof (keep_below x p s Hx). pose proof (keep_below x q s Hx).
  destruct (p x.2), (q x.2); cbn [orb].
  - rewrite union_cons, Nat.compare_refl. by rewrite IH.
  - by rewrite union_below_l, IH.
  - by rewrite union_below_r, IH.
  - done.
Qed.

Lemma ascending_inj s x y : ascending s -> x ∈ s -> y ∈ s -> x.1 = y.1 -> x = y.
Proof.
  induction 1 as [|z s _ IH Hz]; [by intros ?%not_elem_of_nil|]. rewrite Forall_forall in Hz. rewrite !elem_of_cons.
  intros [->|Hx] [->|Hy] Heq; [done| | |by apply IH].
  - specialize (Hz _ Hy). lia.
  - specialize (Hz _ Hx). lia.
Qed.

Lemma difference_keep p q s : ascending s -> difference (keep p s) (keep q s) = keep (fun o => p o && negb (q o)) s.
Proof.
  unfold difference. intros Hs. cut (forall r : list nat, (forall x, x ∈ s -> (x.1 ∈ r <-> q x.2 = true)) -> filter (fun a => a.1 ∉ r) (keep p s) = keep (fun o => p o && negb (q o)) s).
  { intros H. apply H. intros x Hx. rewrite list_elem_of_fmap. split.
    - intros (y & Hxy & Hy). apply list_elem_of_In, filter_In in Hy as [Hy Hq]. apply list_elem_of_In in Hy. by rewrite (ascending_inj s x y).
    - intros Hq. exists x. split; [done|]. apply list_elem_of_In, filter_In. split; [by apply list_elem_of_In|done]. }
  clear Hs. induction s as [|x s IH]; intros r Hr; [done|]. cbn. rewrite <- (IH r) by (intros; apply Hr; by right). specialize (Hr x ltac:(by left)).
  destruct (p x.2); [|done]. rewrite filter_cons. destruct (q x.2); cbn.
  - rewrite decide_False; [done|]. intros H. apply H. by apply Hr.
  - rewrite decide_True; [done|]. intros H. by apply Hr in H.
Qed.

Lemma symmetric_difference_keep p q s : ascending s ->
  symmetric_difference (keep p s) (keep q s) = keep (fun o => xorb (p o) (q o)) s.
Proof.
  intros Hs. unfold symmetric_difference. rewrite !difference_keep by done.
  rewrite (union_keep (fun o => p o && negb (q o)) (fun o => q o && negb (p o))) by done. apply filter_ext. intros x. by destruct (p x.2), (q x.2).
Qed.

Lemma retain_keep f p s : Forall (fun x => f x.2 = Ok (p x.2)) s -> retain f s = Ok (keep p s).
Proof.
  intros Hf. unfold retain. cut (forall kept, foldM (retain_step f) s (kept, None) = Ok (kept ++ keep p s, None)).
  { intros H. specialize (H []). unfold OutputSet in *. by rewrite H. }
  induction Hf as [|x s Hx _ IH]; intros kept; cbn; [by rewrite app_nil_r|].
  assert (retain_step f (kept, None) x = Ok (if p x.2 then kept ++ [x] else kept, None)) as -> by (unfold retain_step; by rewrite Hx).
  cbn. rewrite IH. destruct (p x.2); [|done]. by rewrite <- app_assoc.
Qed.

Lemma find_keep f p s : Forall (fun x => f x.2 = Ok (p x.2)) s -> NoDup s ->
  (forall x y, x ∈ s -> y ∈ s -> p x.2 = true -> p y.2 = true -> x = y) -> find_inplace f s = Ok (keep p s).
Proof.
  intros Hf Hnd Hu. unfold find_inplace. induction Hf as [|x s Hx _ IH]; [done|]. cbn. rewrite Hx. cbn. apply NoDup_cons in Hnd as [Hni Hnd].
  destruct (p x.2) eqn:Hp.
  - cbn. assert (keep p s = []) as ->; [|done]. destruct (keep p s) as [|y l] eqn:Hk; [done|]. exfalso.
    assert (In y (keep p s)) as Hy by (rewrite Hk; by left). apply filter_In in Hy as [Hy Hpy]. apply list_elem_of_In in Hy.
    assert (x = y) as -> by (apply Hu; [by left|by right|done|done]). done.
  - apply IH; [done|]. intros y z Hy Hz. apply Hu; by right.
Qed.

Lemma keep_true (s : OutputSet) : keep (fun _ => true) s = s.
Proof. induction s as [|x s IH]; [done|]. cbn. by rewrite IH. Qed.

Lemma keep_false (s : OutputSet) : keep (fun _ => false) s = [].
Proof. by induction s. Qed.

Lemma keep_elem p s x : x ∈ keep p s <-> x ∈ s /\ p x.2 = true.
Proof. by rewrite !list_elem_of_In, filter_In. Qed.

Lemma ascending_NoDup s : ascending s -> NoDup s.
Proof. induction 1 as [|x s _ IH Hx]; constructor; [|done]. intros H. rewrite Forall_forall in Hx. specialize (Hx _ H). lia. Qed.

(** ** Evaluation keeps what satisfies the expression *)

Definition good (s : OutputSet) : Prop := ascending s /\ Forall (fun x => encodable x.2) s /\ hashes_distinct s.

Lemma good_keep p s : good s -> good (keep p s).
Proof.
  intros (Ha & He & Hd). split; [by apply keep_ascending|]. split.
  - rewrite Forall_forall in *. intros x [Hx _]%keep_elem. by apply He.
  - intros x y h [Hx _]%keep_elem [Hy _]%keep_elem. by apply Hd.
Qed.

Lemma encodable_hash {E} o : encodable o -> exists h, @output_hash _ _ _ E o = Ok h /\ @output_hash _ _ _ CovenantError o = Ok h.
Proof. intros [b Hb]. unfold output_hash, hash_output. rewrite Hb. cbn. by eexists. Qed.

Lemma encodable_challenge fs o : encodable o -> exists h, construct_challenge_from fs o = Ok h.
Proof.
  intros [b Hb]. unfold construct_challenge_from. assert (exists l, mapM (fun f => get_field_value_bytes f o) (fields fs) = Ok l) as [l ->]; [|by eexists].
  induction (fields fs) as [|f l IH]; [by eexists|]. destruct IH as [r Hr]. cbn. rewrite Hr. destruct f; cbn; try (by eexists). rewrite Hb. by eexists.
Qed.

Lemma field_eq_test_ok field arg o : comparable field arg = true -> field_eq_test field arg o = Ok (has_value field arg o).
Proof. by destruct field, arg. Qed.

Lemma eval_keep cx e : forall s, well_typed e = true -> good s -> eval cx e s = Ok (keep (sat cx e) s).
Proof.
  induction e as [|a IHa b IHb|a IHa b IHb|a IHa b IHb|a IHa|h|fs|f arg|fs h|v]; intros s Hw Hg; cbn in Hw; try (apply andb_true_iff in Hw as [Hwa Hwb]);
    cbn [eval sat]; try (rewrite IHa by done; cbn [mbind result_bind]; try rewrite IHb by (try done; by apply good_keep)); cbn [mbind result_bind].
  - by rewrite keep_true.
  - f_equal. clear. induction s as [|x s IH]; [done|]. cbn. destruct (sat cx a x.2); cbn; [|done]. destruct (sat cx b x.2); by rewrite IH.
  - by rewrite union_keep by apply Hg.
  - by rewrite symmetric_difference_keep by apply Hg.
  - rewrite <- (keep_true s) at 1. by rewrite (difference_keep (fun _ => true) (sat cx a)) by apply Hg.
  - destruct Hg as (Ha & He & Hd). apply (find_keep _ (sat cx (EOutputHashEq h))); [|by apply ascending_NoDup|].
    + eapply Forall_impl; [exact He|]. intros x Hx. cbn in Hx. destruct (@encodable_hash CovenantError x.2 Hx) as (h' & Hh & _). cbn. by rewrite Hh.
    + intros x y Hx Hy Hpx Hpy. cbn in Hpx, Hpy. unfold holds in Hpx, Hpy. destruct (output_hash x.2) as [hx| |] eqn:Ex; [|done..]. destruct (output_hash y.2) as [hy| |] eqn:Ey; [|done..].
      apply bool_decide_eq_true in Hpx, Hpy. subst hx hy. by eapply Hd.
  - apply (retain_keep _ (sat cx (EFieldsPreserved fs))). by apply Forall_forall.
  - apply retain_keep, Forall_forall. intros x _. by apply field_eq_test_ok.
  - apply (retain_keep _ (sat cx (EFieldsHashedEq fs h))). eapply Forall_impl; [apply Hg|]. intros x Hx. cbn in Hx. destruct (encodable_challenge fs x.2 Hx) as [h' Hh]. cbn. by rewrite Hh.
  - destruct (Z.ltb_spec (cx_block_height cx) v), (Z.leb_spec v (cx_block_height cx)); try lia; [by rewrite (keep_false s)|by rewrite (keep_true s)].
Qed.

(** ** Execution never aborts *)

Lemma union_subset a : forall b x, x ∈ output_set_union a b -> x ∈ a \/ x ∈ b.
Proof.
  induction a as [|y a IHa]; intros b x; [by right|]. induction b as [|z b IHb]; [by left|]. rewrite union_cons.
  destruct (Nat.compare y.1 z.1); rewrite elem_of_cons.
  - intros [->|[Hx|Hx]%IHa]; [left; by left|left; by right|right; by right].
  - intros [->|[Hx|Hx]%IHa]; [left; by left|left; by right|by right].
  - intros [->|[Hx|Hx]%IHb]; [right; by left|by left|right; by right].
Qed.

Lemma difference_subset a b x : x ∈ difference a b -> x ∈ a.
Proof. unfold difference. by intros [_ ?]%list_elem_of_filter. Qed.

Lemma retain_subset f s s' : retain f s = Ok s' -> forall x, x ∈ s' -> x ∈ s.
Proof.
  unfold retain. cut (forall acc acc', foldM (retain_step f) s acc = Ok acc' -> forall x, x ∈ acc'.1 -> x ∈ acc.1 \/ x ∈ s).
  { intros H Hs x Hx. destruct (foldM _ s _) as [[k e]| |] eqn:Hf; [|done..]. cbn in Hs. destruct e; [done|]. injection Hs as ->.
    destruct (H _ _ Hf x Hx) as [Hn|?]; [by apply not_elem_of_nil in Hn|done]. }
  induction s as [|y s IH]; intros acc acc' H x Hx; [injection H as ->; by left|]. cbn [foldM] in H.
  destruct (retain_step f acc y) as [acc1| |] eqn:Hs; [|done..]. unfold retain_step in Hs.
  destruct (f y.2) as [b|e|]; [| |done]; injection Hs as <-; specialize (IH _ _ H x Hx); cbn in IH; destruct IH as [IH|IH]; try (right; by right); [|by left].
  destruct b; [|by left]. apply elem_of_app in IH as [?|Hy]; [by left|]. apply list_elem_of_singleton in Hy as ->. right. by left.
Qed.

Lemma find_subset f s s' : find_inplace f s = Ok s' -> forall x, x ∈ s' -> x ∈ s.
Proof.
  unfold find_inplace. revert s'. induction s as [|y s IH]; intros s' H x Hx; [injection H as <-; done|]. cbn in H. destruct (f y.2) as [b| |]; [|done..].
  cbn in H. destruct b; cbn in H.
  - injection H as <-. apply list_elem_of_singleton in Hx as ->. by left.
  - right. by eapply IH.
Qed.

Lemma eval_subset cx e : forall s s', eval cx e s = Ok s' -> forall x, x ∈ s' -> x ∈ s.
Proof.
  induction e as [|a IHa b IHb|a IHa b IHb|a IHa b IHb|a IHa|h|fs|f arg|fs h|v]; intros s s' H x Hx; cbn [eval] in H;
    try (by eapply retain_subset); try (by eapply find_subset).
  - by injection H as ->.
  - step_Ok H. eapply IHa; [done|]. by eapply IHb.
  - step_Ok H. step_Ok H. injection H as <-. apply union_subset in Hx as [Hx|Hx]; [by eapply IHa|by eapply IHb].
  - step_Ok H. step_Ok H. injection H as <-. unfold symmetric_difference in Hx. apply union_subset in Hx as [Hx%difference_subset|Hx%difference_subset]; [by eapply IHa|by eapply IHb].
  - step_Ok H. injection H as <-. by eapply difference_subset.
  - injection H as <-. destruct (_ <? _); [by apply not_elem_of_nil in Hx|done].
Qed.

Lemma retain_no_panic f s : Forall (fun x => f x.2 <> Panic) s -> retain f s <> Panic.
Proof.
  intros Hf. unfold retain. cut (forall acc, foldM (retain_step f) s acc <> Panic).
  { intros H. specialize (H ([], None)). destruct (foldM _ s _) as [[k [e|]]| |]; done. }
  induction Hf as [|x s Hx _ IH]; intros acc; [done|]. cbn. destruct (retain_step f acc x) eqn:Hr; [apply IH|done|].
  unfold retain_step in Hr. by destruct (f x.2).
Qed.

Lemma find_no_panic f s : Forall (fun x => f x.2 <> Panic) s -> find_inplace f s <> Panic.
Proof.
  intros Hf. unfold find_inplace. induction Hf as [|x s Hx _ IH]; [done|]. cbn. destruct (f x.2) as [b| |]; [|done..]. cbn. by destruct b.
Qed.

(** The tests of the filters on encodable outputs. *)
Lemma hash_test_no_panic hash (s : OutputSet) : Forall (fun x => encodable x.2) s ->
  find_inplace (fun o => h ← output_hash o; Ok (bool_decide (h = hash))) s <> Panic.
Proof.
  intros H. apply find_no_panic. eapply Forall_impl; [exact H|]. intros x Hx. cbn in Hx.
  destruct (@encodable_hash CovenantError x.2 Hx) as (h & Hh & _). by rewrite Hh.
Qed.

Lemma challenge_test_no_panic fs hash (s : OutputSet) : Forall (fun x => encodable x.2) s ->
  retain (fun o => h ← construct_challenge_from fs o; Ok (bool_decide (h = hash))) s <> Panic.
Proof.
  intros H. apply retain_no_panic. eapply Forall_impl; [exact H|]. intros x Hx. cbn in Hx. destruct (encodable_challenge fs x.2 Hx) as [h Hh]. by rewrite Hh.
Qed.

Lemma field_eq_test_no_panic field arg (s : OutputSet) : retain (field_eq_test field arg) s <> Panic.
Proof. apply retain_no_panic, Forall_forall. intros x _. by destruct field, arg. Qed.

Lemma next_arg_cases tokens : (exists a t, tokens = Token_Arg a :: t /\ next_arg tokens = Ok (a, t)) \/ exists e, next_arg tokens = Err e.
Proof. destruct tokens as [|[f|a] t]; [right; by eexists|right; by eexists|left; by eexists _, _]. Qed.

Definition panics_not (fuel : nat) (cx : CovenantContext) : Prop := forall f tokens s, (List.length tokens < fuel)%nat -> Forall (fun x => encodable x.2) s ->
  run_filter fuel cx f tokens s <> Panic.

Lemma operand_no_panic fuel cx tokens s : panics_not fuel cx -> (List.length tokens <= fuel)%nat -> Forall (fun x => encodable x.2) s ->
  operand (run_filter fuel cx) tokens s <> Panic /\
  forall t s', operand (run_filter fuel cx) tokens s = Ok (t, s') -> (List.length t < List.length tokens)%nat /\ Forall (fun x => encodable x.2) s'.
Proof.
  intros IH Hl Hs. split.
  - unfold operand. destruct tokens as [|[f|a] tokens]; [done| |done]. cbn in *. apply IH; [lia|done].
  - intros t s' H. apply operand_inv in H as (e & -> & He); [|apply run_filter_inv]. split; [cbn; rewrite length_app; lia|].
    rewrite Forall_forall in *. intros x Hx. apply Hs. by eapply eval_subset.
Qed.

Ltac next_operand H :=
  match goal with
  | |- context [operand (run_filter ?fuel ?cx) ?tokens ?s] =>
      let Hp := fresh "Hp" in let Hn := fresh "Hn" in
      destruct (operand_no_panic fuel cx tokens s) as [Hp Hn]; [exact H|lia|done|];
      destruct (operand (run_filter fuel cx) tokens s) as [[?t ?s]| |]; [destruct (Hn _ _ eq_refl); cbn [mbind result_bind]|done|done]
  end.

Lemma run_filter_no_panic fuel cx : panics_not fuel cx.
Proof.
  induction fuel as [|fuel IH]; intros f tokens s Hl Hs; [lia|]. destruct f; cbn [run_filter].
  - done.
  - rewrite and_filter_eq. next_operand IH. apply operand_no_panic; [done|lia|done].
  - rewrite or_filter_eq. next_operand IH. next_operand IH. done.
  - rewrite xor_filter_eq. next_operand IH. next_operand IH. done.
  - rewrite not_filter_eq. next_operand IH. done.
  - unfold output_hash_eq_filter. destruct (next_arg_cases tokens) as [(a & t & -> & ->)|[e ->]]; [|done]. cbn [mbind result_bind].
    destruct a; try done. cbn [require_hash mbind result_bind]. pose proof (hash_test_no_panic hash s Hs).
    destruct (find_inplace _ s); done.
  - unfold fields_preserved_filter. destruct (next_arg_cases tokens) as [(a & t & -> & ->)|[e ->]]; [|done]. cbn [mbind result_bind].
    destruct a as [| | | | | | | |fs|]; try done. cbn [require_outputfields mbind result_bind].
    pose proof (retain_no_panic (fun o => Ok (forallb (fun f => is_eq_input f (cx_input cx) o) (fields fs))) s ltac:(by apply Forall_forall)).
    destruct (retain _ s); done.
  - unfold field_eq_filter. destruct (next_arg_cases tokens) as [(a & t & -> & ->)|[e ->]]; [|done]. cbn [mbind result_bind].
    destruct a as [| | | | | | |f| |]; try done. cbn [require_outputfield mbind result_bind].
    destruct (next_arg_cases t) as [(a & t' & -> & ->)|[e ->]]; [|done]. cbn [mbind result_bind].
    pose proof (field_eq_test_no_panic f a s) as H. unfold field_eq_test in H. destruct (retain _ s); done.
  - unfold fields_hashed_eq_filter. destruct (next_arg_cases tokens) as [(a & t & -> & ->)|[e ->]]; [|done]. cbn [mbind result_bind].
    destruct a as [| | | | | | | |fs|]; try done. cbn [require_outputfields mbind result_bind].
    destruct (next_arg_cases t) as [(a & t' & -> & ->)|[e ->]]; [|done]. cbn [mbind result_bind]. destruct a as [h| | | | | | | | |]; try done. cbn [require_hash mbind result_bind].
    pose proof (challenge_test_no_panic fs h s Hs). destruct (retain _ s); done.
  - unfold absolute_height_filter. destruct (next_arg_cases tokens) as [(a & t & -> & ->)|[e ->]]; [|done]. cbn [mbind result_bind]. by destruct a.
Qed.

(** ** Covenants *)

Lemma output_set_new_ascending outputs : ascending (output_set_new outputs).
Proof.
  unfold output_set_new. cut (forall k, ascending (imap (fun i => pair (k + i)%nat) outputs) /\ Forall (fun x => k <= x.1)%nat (imap (fun i => pair (k + i)%nat) outputs)).
  { intros H. apply (H 0%nat). }
  induction outputs as [|o l IH]; intros k; [split; constructor|]. rewrite imap_cons. destruct (IH (S k)) as [Ha Hf].
  rewrite (imap_ext _ (fun i => pair (S k + i)%nat)) by (intros; cbn; f_equal; lia). split.
  - constructor; [done|]. eapply Forall_impl; [exact Hf|]. cbn. lia.
  - constructor; [cbn; lia|]. eapply Forall_impl; [exact Hf|]. cbn. lia.
Qed.

Lemma output_set_new_elem outputs x : x ∈ output_set_new outputs <-> outputs !! x.1 = Some x.2.
Proof.
  unfold output_set_new. rewrite elem_of_lookup_imap. split.
  - by intros (i & o & -> & Ho).
  - intros H. exists x.1, x.2. by destruct x.
Qed.

Lemma keep_values p (s : OutputSet) : (keep p s).*2 = List.filter p s.*2.
Proof. induction s as [|x s IH]; [done|]. cbn. destruct (p x.2); cbn; by rewrite IH. Qed.

Lemma keep_count p outputs : List.length (keep p (output_set_new outputs)) = List.length (List.filter p outputs).
Proof.
  assert ((output_set_new outputs).*2 = outputs) as Hv.
  { unfold output_set_new. rewrite fmap_imap. erewrite imap_ext; [rewrite (imap_const id); apply list_fmap_id|]. done. }
  rewrite <- Hv at 2. rewrite <- keep_values. by rewrite length_fmap.
Qed.

(** Outputs at different places have different hashes. *)
Definition outputs_distinct (outputs : list TransactionOutput) : Prop :=
  forall i j a b h, outputs !! i = Some a -> outputs !! j = Some b ->
    @output_hash _ _ _ CovenantError a = Ok h -> @output_hash _ _ _ CovenantError b = Ok h -> i = j.

Lemma output_set_new_good outputs : Forall encodable outputs -> outputs_distinct outputs -> good (output_set_new outputs).
Proof.
  intros He Hd. split; [apply output_set_new_ascending|]. split.
  - apply Forall_forall. intros x Hx%output_set_new_elem. rewrite Forall_forall in He. eapply He, list_elem_of_lookup_2, Hx.
  - intros x y h Hx Hy Hhx Hhy. apply (ascending_inj (output_set_new outputs)); [apply output_set_new_ascending|done|done|].
    apply output_set_new_elem in Hx, Hy. by eapply Hd.
Qed.

Lemma execute_well_typed e height input outputs : well_typed e = true -> Forall encodable outputs -> outputs_distinct outputs ->
  let n := List.length (List.filter (sat {| cx_input := input; cx_block_height := height |} e) outputs) in
  covenant_execute (tokens_of e) height input outputs = if decide (n = 0%nat) then Err NoMatchingOutputs else Ok (Z.of_nat n).
Proof.
  intros Hw He Hd n. unfold covenant_execute, tokens_of. cbn [require_next_filter mbind result_bind].
  rewrite <- (app_nil_r (operands e)) at 2. rewrite run_tokens by (cbn; lia). set (cx := {| cx_input := input; cx_block_height := height |}).
  rewrite eval_keep by (done || by apply output_set_new_good). cbn [mbind result_bind]. rewrite bool_decide_true by done. cbn [negb].
  assert (List.length (keep (sat cx e) (output_set_new outputs)) = n) as <- by apply keep_count.
  destruct (keep (sat cx e) (output_set_new outputs)) as [|x s]; [done|]. rewrite bool_decide_false by done. by rewrite decide_False by done.
Qed.

Lemma execute_Ok_tokens c height input outputs n : c <> [] -> covenant_execute c height input outputs = Ok n -> exists e, c = tokens_of e.
Proof.
  intros Hne H. destruct c as [|[f|a] c]; [done| |done]. unfold covenant_execute in H. cbn [require_next_filter mbind result_bind] in H.
  destruct (run_filter _ _ f c _) as [[t s]| |] eqn:Hr; [|done..]. cbn [mbind result_bind] in H. apply run_filter_inv in Hr as (e & <- & -> & _).
  exists e. unfold tokens_of. destruct t; [by rewrite app_nil_r|done].
Qed.

(** C5: a covenant that is the prefix form of a well-typed expression accepts a transaction exactly when
    some output satisfies the expression, and then gives the number of outputs that do. *)
Theorem covenant_execute_correct (e : cexpr) (height : Z) (input : TransactionInput) (outputs : list TransactionOutput) :
  well_typed e = true -> Forall encodable outputs -> outputs_distinct outputs ->
  let n := List.length (List.filter (sat {| cx_input := input; cx_block_height := height |} e) outputs) in
  covenant_execute (tokens_of e) height input outputs = if decide (n = 0%nat) then Err NoMatchingOutputs else Ok (Z.of_nat n).
Proof. intros Hw He Hd. by apply execute_well_typed. Qed.

(** A covenant that is neither empty nor the prefix form of an expression fails with an error for
    every transaction; the empty one accepts every transaction. *)
Theorem covenant_malformed_fails (c : Covenant) (height : Z) (input : TransactionInput) (outputs : list TransactionOutput) :
  Forall encodable outputs -> (forall e, c <> tokens_of e) ->
  if decide (c = []) then covenant_execute c height input outputs = Ok (Z.of_nat (List.length outputs))
  else exists err, covenant_execute c height input outputs = Err err.
Proof.
  intros He Hne. destruct c as [|t c]; [done|]. rewrite decide_False by done. cbn [covenant_execute].
  destruct t as [f|a]; [|by eexists]. cbn [require_next_filter mbind result_bind]. set (cx := {| cx_input := input; cx_block_height := height |}).
  assert (Forall (fun x => encodable x.2) (output_set_new outputs)) as Hs.
  { apply Forall_forall. intros x Hx%output_set_new_elem. rewrite Forall_forall in He. eapply He, list_elem_of_lookup_2, Hx. }
  pose proof (run_filter_no_panic (List.length (Token_Filter f :: c)) cx f c _ ltac:(cbn; lia) Hs) as Hp.
  destruct (run_filter _ cx f c _) as [[t s]|err|] eqn:Hr; [|by eexists|done]. cbn [mbind result_bind].
  apply run_filter_inv in Hr as (e & <- & -> & _). destruct t as [|t ts]; [|by eexists].
  destruct (Hne e). unfold tokens_of. by rewrite app_nil_r.
Qed.

End Spec.
