(* ===== verification/AggregatedBody.v ===== *)
(** * Bodies of transactions and blocks

    src/base_layer/core/src/transactions/aggregated_body.rs and the addition of transactions in
    transaction_components/transaction.rs, on the inputs, outputs and kernels of [TxComponents].

    Inputs are ordered by the hash of the output they spend, outputs by their commitment, kernels by their
    signature. *)

From S2P Require Import Prelude ScriptTypes Opcodes ScriptStack TariScript Amounts ConsensusConstants Covenants TxComponents.

Local Open Scope Z_scope.

Section Bodies.
Context {C : ScriptCrypto} {B : BorshPrims C} {X : TxCrypto C}.

Definition TxBody : Type := AggregateBody TransactionInput TransactionOutput TransactionKernel.

Implicit Types self body : TxBody.

(** ** Building *)

Definition body_new (inputs : list TransactionInput) (outputs : list TransactionOutput) (kernels : list TransactionKernel) : TxBody :=
  {| sorted := false; inputs := inputs; outputs := outputs; kernels := kernels |}.

Definition new_sorted_unchecked (inputs : list TransactionInput) (outputs : list TransactionOutput) (kernels : list TransactionKernel) : TxBody :=
  {| sorted := true; inputs := inputs; outputs := outputs; kernels := kernels |}.

Definition body_empty : TxBody := new_sorted_unchecked [] [] [].

Definition add_inputs self (new_inputs : list TransactionInput) : TxBody :=
  {| sorted := false; inputs := inputs self ++ new_inputs; outputs := outputs self; kernels := kernels self |}.

Definition add_outputs self (new_outputs : list TransactionOutput) : TxBody :=
  {| sorted := false; inputs := inputs self; outputs := outputs self ++ new_outputs; kernels := kernels self |}.

(** Unlike [add_kernels] this keeps the flag. *)
Definition add_kernel self (kernel : TransactionKernel) : TxBody :=
  {| sorted := sorted self; inputs := inputs self; outputs := outputs self; kernels := kernels self ++ [kernel] |}.

Definition add_kernels self (new_kernels : list TransactionKernel) : TxBody :=
  {| sorted := false; inputs := inputs self; outputs := outputs self; kernels := kernels self ++ new_kernels |}.

Definition set_kernel self (kernel : TransactionKernel) : TxBody :=
  {| sorted := sorted self; inputs := inputs self; outputs := outputs self; kernels := [kernel] |}.

(** A transaction with its offsets. *)
Record FullTransaction := { tx_offset : RistrettoSecretKey; tx_body : TxBody; tx_script_offset : RistrettoSecretKey }.

Definition add_no_cut_through (self other : FullTransaction) : FullTransaction :=
  {| tx_offset := sk_add (tx_offset self) (tx_offset other);
     tx_body := add_kernels (add_outputs (add_inputs (tx_body self) (inputs (tx_body other))) (outputs (tx_body other))) (kernels (tx_body other));
     tx_script_offset := sk_add (tx_script_offset self) (tx_script_offset other) |}.

(** ** Order *)

(** The stable sort of a slice by a key. *)
Fixpoint insert_by {A K} (cmp : K -> K -> comparison) (x : K * A) (l : list (K * A)) : list (K * A) :=
  match l with
  | [] => [x]
  | y :: l => match cmp x.1 y.1 with Gt => y :: insert_by cmp x l | _ => x :: y :: l end
  end.

Definition sort_by {A K} (cmp : K -> K -> comparison) (l : list (K * A)) : list A := map snd (foldr (insert_by cmp) [] l).

Definition body_sort {E} self : result E TxBody :=
  if sorted self then Ok self
  else
    (* hashes are computed when inputs are compared *)
    hashes ← mapM input_output_hash (if (length (inputs self) <=? 1)%nat then [] else inputs self);
    Ok {| sorted := true;
          inputs := if (length (inputs self) <=? 1)%nat then inputs self else sort_by bytes_compare (zip hashes (inputs self));
          outputs := sort_by com_compare (map (fun o => (out_commitment o, o)) (outputs self));
          kernels := sort_by sig_compare (map (fun k => (k_excess_sig k, k)) (kernels self)) |}.

(** Inputs are compared by what they spend, their signature and their data. *)
Definition input_eq {E} (a b : TransactionInput) : result E bool :=
  ha ← input_output_hash a;
  hb ← input_output_hash b;
  Ok (bool_decide (ha = hb) && bool_decide (script_signature a = script_signature b) && bool_decide (input_data a = input_data b)).

Definition output_eq {E} (a b : TransactionOutput) : result E bool := Ok (bool_decide (a = b)).

Section Duplicates.
Context {E A : Type} (eq : A -> A -> result E bool).

(** Some element of the list equals the first argument. *)
Fixpoint any_eq (x : A) (l : list A) : result E bool :=
  match l with
  | [] => Ok false
  | y :: l => b ← eq x y; if (b : bool) then Ok true else any_eq x l
  end.

Fixpoint duplicates_adjacent (l : list A) : result E bool :=
  match l with
  | x :: (y :: _) as l => b ← eq y x; if (b : bool) then Ok true else duplicates_adjacent l
  | _ => Ok false
  end.

Fixpoint duplicates_anywhere (l : list A) : result E bool :=
  match l with
  | [] => Ok false
  | x :: l => b ← any_eq x l; if (b : bool) then Ok true else duplicates_anywhere l
  end.

End Duplicates.

Definition contains_duplicated_inputs {E} self : result E bool :=
  if sorted self then duplicates_adjacent input_eq (inputs self) else duplicates_anywhere input_eq (inputs self).

Definition contains_duplicated_outputs {E} self : result E bool :=
  if sorted self then duplicates_adjacent output_eq (outputs self) else duplicates_anywhere output_eq (outputs self).

(** ** Checks *)

Definition body_verify_kernel_signatures self : result TransactionError unit := foldM (fun _ kernel => verify_signature kernel) (kernels self) tt.

Definition body_get_total_fee {E} self : result E MicroTari := mt_sum (map k_fee (kernels self)).

Definition check_kernel_rules self (height : Z) : result TransactionError unit :=
  if existsb (fun kernel => k_lock_height kernel >? height) (kernels self) then Err InvalidKernel else Ok tt.

(** The coinbase outputs in order, each checked for its maturity. *)
Fixpoint coinbase_outputs (min_maturity : result TransactionError Z) (l : list TransactionOutput) : result TransactionError (list TransactionOutput) :=
  match l with
  | [] => Ok []
  | utxo :: l =>
      if output_is_coinbase utxo then
        min ← min_maturity;
        if feat_maturity (out_features utxo) <? min then Err InvalidCoinbaseMaturity
        else rest ← coinbase_outputs min_maturity l; Ok (utxo :: rest)
      else coinbase_outputs min_maturity l
  end.

(** The last coinbase output and kernel are compared; there is exactly one of each. *)
Definition check_coinbase_output self (reward : MicroTari) (coinbase_lock_height height : Z) : result TransactionError unit :=
  utxos ← coinbase_outputs (arith 0 U64_MAX (height + coinbase_lock_height)) (outputs self);
  if (1 <? length utxos)%nat then Err MoreThanOneCoinbase
  else if (length utxos =? 0)%nat then Err NoCoinbase
  else
    let coinbase_kernels := filter (fun k => kernel_is_coinbase k = true) (kernels self) in
    if negb (length coinbase_kernels =? 1)%nat then Err MoreThanOneCoinbase
    else
      utxo ← unwrap (last utxos);
      kernel ← unwrap (last coinbase_kernels);
      let rhs := com_add (k_excess kernel) (commit_value sk_default reward) in
      if bool_decide (rhs = out_commitment utxo) then Ok tt else Err InvalidCoinbase.

Definition check_output_features self (max_coinbase_metadata_size : Z) : result TransactionError unit :=
  foldM (fun _ output =>
    let len := Z.of_nat (length (coinbase_extra (out_features output))) in
    if negb (output_is_coinbase output) && negb (len =? 0) then Err NonCoinbaseHasOutputFeaturesCoinbaseExtra
    else if output_is_coinbase output && (len mod 2 ^ 32 >? max_coinbase_metadata_size)
    then Err (InvalidOutputFeaturesCoinbaseExtraSize len max_coinbase_metadata_size)
    else Ok tt) (outputs self) tt.

Definition check_utxo_rules self (height : Z) : result TransactionError unit :=
  foldM (fun _ input =>
    features ← in_features input;
    if feat_maturity features >? height then Err InputMaturity else Ok tt) (inputs self) tt.

(** ** Weight and heights *)

(** The weight is that of [Amounts], with the sizes of the encoded outputs. *)
Definition encoded_size (o : TransactionOutput) : Z := match @get_features_and_scripts_size _ _ _ TransactionError o with Ok s => s | _ => 0 end.

Definition body_calculate_weight {E} self (transaction_weight : TransactionWeight) : result E Z :=
  _ ← mapM get_features_and_scripts_size (outputs self);
  weight_calculate_body encoded_size transaction_weight self.

Definition min_input_maturity self : Z :=
  fold_left (fun m input => Z.min m (match in_features input with Ok f => feat_maturity f | _ => U64_MAX end)) (inputs self) U64_MAX.

Definition max_input_maturity self : Z :=
  fold_left (fun m input => Z.max m (match in_features input with Ok f => feat_maturity f | _ => 0 end)) (inputs self) 0.

Definition max_kernel_timelock self : Z := fold_left (fun m kernel => Z.max m (k_lock_height kernel)) (kernels self) 0.

Definition min_spendable_height self : Z := Z.max (max_kernel_timelock self) (max_input_maturity self).

Definition body_to_compact {E} self : result E TxBody :=
  ins ← mapM input_to_compact (inputs self);
  Ok {| sorted := sorted self; inputs := ins; outputs := outputs self; kernels := kernels self |}.

End Bodies.
