(* ===== verification/BodyValidator.v ===== *)
(** * Validation of bodies

    src/base_layer/core/src/validation: aggregate_body/aggregate_body_internal_validator.rs and
    aggregate_body_chain_validator.rs, the checks of helpers.rs they use, transaction/*.rs and
    block_body/block_body_internal_validator.rs.

    The database is the class [BlockchainBackend]: the lookups the validators make. *)

From S2P Require Import Prelude ScriptTypes Opcodes ScriptStack TariScript Amounts Emission ConsensusConstants ConsensusManager.
From S2P Require Import Covenants TxComponents CovenantFilters AggregatedBody.

Local Open Scope Z_scope.

Section Validators.
Context {C : ScriptCrypto} {B : BorshPrims C} {X : TxCrypto C}.

Inductive ValidationError :=
| MaturityError
| BlockTooLarge (actual_weight max_weight : Z)
| UnknownInputs (hashes : list bytes)
| UnknownInput
| ValTransactionError (e : TransactionError)
| ValRangeProofError (e : RangeProofError)
| CustomError
| FatalStorageError
| ContainsSTxO
| ContainsTxO
| ContainsDuplicateUtxoCommitment
| ValidatingGenesis
| UnsortedOrDuplicateInput
| UnsortedOrDuplicateOutput
| UnsortedOrDuplicateKernel
| MaxTransactionWeightExceeded
| TransactionInputSpentOutputMissing
| TransactionInputSpendsPrunedOutput
| TariScriptExceedsMaxSize (max_script_size actual_script_size : Z)
| ConsensusError
| DuplicateKernelError
| ValCovenantError (e : CovenantError)
| ErroneousCoinbaseOutput
| InvalidBurnError
| OutputTypeNotPermitted (output_type : OutputType)
| RangeProofTypeNotPermitted (range_proof_type : RangeProofType)
| ValidatorNodeRegistrationMinDepositAmount (min actual : MicroTari)
| ValidatorNodeRegistrationMinLockHeight (min actual : Z)
| InvalidValidatorNodeSignature
| ChainBalanceValidationFailed (height : Z).

Abbreviation check := (result ValidationError unit).

(** [for x in l { f(x)?; }] *)
Definition for_each {A} (f : A -> check) (l : list A) : check := foldM (fun _ x => f x) l tt.

(** ** Helpers *)

(** [item <= prev] for each item after the first fails the check. *)
Fixpoint ascending_from {A} (cmp : A -> A -> result ValidationError comparison) (prev : A) (items : list A) : result ValidationError bool :=
  match items with
  | [] => Ok true
  | item :: items =>
      c ← cmp item prev;
      match c with Gt => ascending_from cmp item items | _ => Ok false end
  end.

Definition is_all_unique_and_sorted {A} (cmp : A -> A -> result ValidationError comparison) (items : list A) : result ValidationError bool :=
  match items with [] => Ok true | item :: items => ascending_from cmp item items end.

Definition compare_inputs (a b : TransactionInput) : result ValidationError comparison :=
  ha ← input_output_hash a;
  hb ← input_output_hash b;
  Ok (bytes_compare ha hb).

Definition compare_outputs (a b : TransactionOutput) : result ValidationError comparison := Ok (com_compare (out_commitment a) (out_commitment b)).

Definition compare_kernels (a b : TransactionKernel) : result ValidationError comparison := Ok (sig_compare (k_excess_sig a) (k_excess_sig b)).

Definition check_tari_script_byte_size (script : TariScript) (max_script_size : Z) : check :=
  let script_size := Z.of_nat (length (script_borsh_serialize script)) in
  if script_size >? max_script_size then Err (TariScriptExceedsMaxSize max_script_size script_size) else Ok tt.

Definition check_permitted_output_types (constants : ConsensusConstants) (output : TransactionOutput) : check :=
  let t := feat_output_type (out_features output) in
  if bool_decide (t ∈ permitted_output_types constants) then Ok tt else Err (OutputTypeNotPermitted t).

Definition check_permitted_range_proof_types (constants : ConsensusConstants) (output : TransactionOutput) : check :=
  let t := feat_range_proof_type (out_features output) in
  if bool_decide (t ∈ permitted_range_proof_types constants) then Ok tt else Err (RangeProofTypeNotPermitted t).

Definition validate_input_version (constants : ConsensusConstants) (input : TransactionInput) : check :=
  if in_range (input_version_range constants) (input_version_as_u8 (in_version input)) then Ok tt else Err ConsensusError.

Definition opcode_version_as_u8 (v : OpcodeVersion) : Z := match v with V0 => 0 end.

Definition validate_output_version (constants : ConsensusConstants) (output : TransactionOutput) : check :=
  let range := output_version_range constants in
  if negb (in_range (range_outputs range) (output_version_as_u8 (out_version output))) then Err ConsensusError
  else if negb (in_range (range_features range) (features_version_as_u8 (feat_version (out_features output)))) then Err ConsensusError
  else if negb (forallb (fun opcode => in_range (range_opcode range) (opcode_version_as_u8 (get_version opcode))) (script (out_script output)))
  then Err ConsensusError
  else Ok tt.

Definition validate_kernel_version (constants : ConsensusConstants) (kernel : TransactionKernel) : check :=
  if in_range (kernel_version_range constants) (kernel_version_as_u8 (k_version kernel)) then Ok tt else Err ConsensusError.

(** ** Internal consistency *)

Implicit Types body : TxBody.

Definition verify_kernel_signatures body : check := for_each (fun kernel => map_err ValTransactionError (verify_signature kernel)) (kernels body).

Definition check_script_size body (max_script_size : Z) : check :=
  for_each (fun output => check_tari_script_byte_size (out_script output) max_script_size) (outputs body).

Definition check_sorting_and_duplicates body : check :=
  b ← is_all_unique_and_sorted compare_inputs (inputs body);
  if negb b then Err UnsortedOrDuplicateInput
  else
    b ← is_all_unique_and_sorted compare_outputs (outputs body);
    if negb b then Err UnsortedOrDuplicateOutput
    else
      b ← is_all_unique_and_sorted compare_kernels (kernels body);
      if negb b then Err UnsortedOrDuplicateKernel else Ok tt.

Record KernelSum := { ks_sum : PedersenCommitment; ks_fees : MicroTari }.

Definition sum_kernels_step (acc : KernelSum) (val : TransactionKernel) : result ValidationError KernelSum :=
  fees ← mt_add (ks_fees acc) (k_fee val);
  Ok {| ks_sum := com_add (ks_sum acc) (k_excess val); ks_fees := fees |}.

Definition sum_kernels body (offset_with_fee : PedersenCommitment) : result ValidationError KernelSum :=
  foldM sum_kernels_step (kernels body) {| ks_sum := offset_with_fee; ks_fees := 0 |}.

(** [iter.sum::<Commitment>()] *)
Definition com_sum (l : list PedersenCommitment) : PedersenCommitment := fold_left com_add l com_default.

Definition sum_commitments body : result ValidationError PedersenCommitment :=
  ins ← map_err ValTransactionError (mapM in_commitment (inputs body));
  let sum_inputs := com_sum ins in
  let sum_outputs := com_sum (map out_commitment (outputs body)) in
  Ok (com_sub sum_outputs sum_inputs).

Definition validate_kernel_sum body (offset_and_reward : PedersenCommitment) : check :=
  ks ← sum_kernels body offset_and_reward;
  sum_io ← sum_commitments body;
  let fees := commit_value sk_default (ks_fees ks) in
  if bool_decide (ks_sum ks = com_add sum_io fees) then Ok tt else Err CustomError.

Definition validate_range_proofs body : check :=
  map_err (fun e => ValTransactionError (TxRangeProofError e)) (batch_verify_range_proofs (outputs body)).

Definition verify_metadata_signatures body : check :=
  for_each (fun o => map_err ValTransactionError (verify_metadata_signature o)) (outputs body).

Definition input_key (prev_hash : bytes) (height : Z) (input : TransactionInput) : result ValidationError RistrettoPublicKey :=
  commitment ← map_err ValTransactionError (in_commitment input);
  let context := {| block_height := height; prev_block_hash := prev_hash; commitment := commitment |} in
  map_err ValTransactionError (run_and_verify_script input (Some context)).

Definition sum_input_keys body (prev_hash : bytes) (height : Z) : result ValidationError RistrettoPublicKey :=
  foldM (fun input_keys input => key ← input_key prev_hash height input; Ok (pk_add input_keys key)) (inputs body) pk_default.

Definition sum_output_keys body : RistrettoPublicKey :=
  fold_left (fun output_keys output =>
    if output_is_coinbase output then output_keys else pk_add output_keys (out_sender_offset_public_key output)) (outputs body) pk_default.

Definition validate_script_and_script_offset body (script_offset : RistrettoPublicKey) (prev_header : option bytes) (height : Z) : check :=
  let prev_hash := default zero_hash prev_header in
  input_keys ← sum_input_keys body prev_hash height;
  let lhs := pk_sub input_keys (sum_output_keys body) in
  if bool_decide (lhs = script_offset) then Ok tt else Err (ValTransactionError ScriptOffset).

Definition validate_covenants body (height : Z) : check :=
  for_each (fun input =>
    covenant ← map_err ValTransactionError (in_covenant input);
    _ ← map_err ValCovenantError (covenant_execute covenant height input (outputs body));
    Ok tt) (inputs body).

Definition check_weight body (constants : ConsensusConstants) : check :=
  block_weight ← body_calculate_weight body (transaction_weight constants);
  let max_weight := max_block_transaction_weight constants in
  if block_weight <=? max_weight then Ok tt else Err (BlockTooLarge block_weight max_weight).

Definition check_kernel_lock_height (height : Z) (ks : list TransactionKernel) : check :=
  if existsb (fun k => k_lock_height k >? height) ks then Err MaturityError else Ok tt.

Definition check_maturity (height : Z) (ins : list TransactionInput) : check :=
  for_each (fun input =>
    mature ← map_err ValTransactionError (is_mature_at input height);
    if (mature : bool) then Ok tt else Err (ValTransactionError InputMaturity)) ins.

(** The burned outputs by commitment; each burn kernel takes one of them out. *)
Definition remove_burned (burned_outputs : list PedersenCommitment) (kernel : TransactionKernel) : result ValidationError (list PedersenCommitment) :=
  if kernel_is_burned kernel then
    c ← map_err ValTransactionError (get_burn_commitment kernel);
    if bool_decide (c ∈ burned_outputs) then Ok (filter (fun c' => c' <> c) burned_outputs) else Err InvalidBurnError
  else Ok burned_outputs.

Definition check_total_burned body : check :=
  let burned_outputs := map out_commitment (filter (fun o => output_is_burned o = true) (outputs body)) in
  left_over ← foldM remove_burned (kernels body) burned_outputs;
  if bool_decide (left_over = []) then Ok tt else Err InvalidBurnError.

Definition check_validator_node_registration_utxo (constants : ConsensusConstants) (utxo : TransactionOutput) : check :=
  match validator_node_registration (out_features utxo) with
  | None => Ok tt
  | Some reg =>
      if out_minimum_value_promise utxo <? vn_registration_min_deposit_amount constants
      then Err (ValidatorNodeRegistrationMinDepositAmount (vn_registration_min_deposit_amount constants) (out_minimum_value_promise utxo))
      else if feat_maturity (out_features utxo) <? vn_registration_lock_height constants
      then Err (ValidatorNodeRegistrationMinLockHeight (vn_registration_lock_height constants) (feat_maturity (out_features utxo)))
      else if negb (is_valid_signature_for (vnr_signature reg) []) then Err InvalidValidatorNodeSignature
      else Ok tt
  end.

Definition validate_versions body (constants : ConsensusConstants) : check :=
  _ ← for_each (validate_input_version constants) (inputs body);
  _ ← for_each (validate_output_version constants) (outputs body);
  for_each (validate_kernel_version constants) (kernels body).

Record InternalValidator := { bypass_range_proof_verification : bool; iv_manager : ConsensusManager }.

Definition internal_validate (self : InternalValidator) body (tx_offset script_offset : RistrettoSecretKey) (total_reward : option MicroTari)
    (prev_header : option bytes) (height : Z) : check :=
  let total_reward := default 0 total_reward in
  _ ← verify_kernel_signatures body;
  constants ← consensus_constants (iv_manager self) height;
  _ ← check_script_size body (max_script_byte_size constants);
  _ ← check_sorting_and_duplicates body;
  let total_offset := commit_value tx_offset total_reward in
  _ ← validate_kernel_sum body total_offset;
  _ ← (if bypass_range_proof_verification self then Ok tt else validate_range_proofs body);
  _ ← verify_metadata_signatures body;
  let script_offset_g := pk_from_secret_key script_offset in
  _ ← validate_script_and_script_offset body script_offset_g prev_header height;
  _ ← validate_covenants body height;
  _ ← validate_versions body constants;
  _ ← check_weight body constants;
  _ ← for_each (fun output =>
    _ ← check_permitted_output_types constants output;
    _ ← check_permitted_range_proof_types constants output;
    check_validator_node_registration_utxo constants output) (outputs body);
  _ ← check_total_burned body;
  _ ← check_maturity height (inputs body);
  check_kernel_lock_height height (kernels body).

(** ** Consistency with the chain *)

Inductive PrunedOutput :=
| Pruned (output_hash witness_hash : bytes)
| NotPruned (output : TransactionOutput).

(** The lookups of [BlockchainBackend]; a storage error is [None]. *)
Class BlockchainBackend := {
  fetch_output : bytes -> option (option PrunedOutput);
  fetch_unspent_output_hash_by_commitment : PedersenCommitment -> option (option bytes);
  fetch_utxo_mmr_leaf_index : bytes -> option (option Z);
  fetch_kernel_by_excess_sig : RistrettoSchnorr -> option (option TransactionKernel);
}.

Section ChainLinked.
Context {db : BlockchainBackend}.

Definition stored {A} (r : option A) : result ValidationError A := ok_or r FatalStorageError.

Definition check_input_is_utxo (input : TransactionInput) : check :=
  output_hash ← input_output_hash input;
  commitment ← map_err ValTransactionError (in_commitment input);
  utxo ← stored (fetch_unspent_output_hash_by_commitment commitment);
  match utxo with
  | Some utxo_hash =>
      if bool_decide (utxo_hash = output_hash) then Ok tt
      else _ ← stored (fetch_output utxo_hash); Err UnknownInput
  | None =>
      spent ← stored (fetch_output output_hash);
      match spent with Some _ => Err ContainsSTxO | None => Err UnknownInput end
  end.

Definition check_not_duplicate_txo (output : TransactionOutput) : check :=
  h ← output_hash output;
  index ← stored (fetch_utxo_mmr_leaf_index h);
  match index with
  | Some _ => Err ContainsTxO
  | None =>
      utxo ← stored (fetch_unspent_output_hash_by_commitment (out_commitment output));
      match utxo with Some _ => Err ContainsDuplicateUtxoCommitment | None => Ok tt end
  end.

Definition validate_excess_sig_not_in_db body : check :=
  for_each (fun kernel =>
    found ← stored (fetch_kernel_by_excess_sig (k_excess_sig kernel));
    match found with Some _ => Err DuplicateKernelError | None => Ok tt end) (kernels body).

Definition validate_consensus body (constants : ConsensusConstants) : check :=
  _ ← validate_excess_sig_not_in_db body;
  for_each (check_validator_node_registration_utxo constants) (outputs body).

(** An input that only names the output it spends gets its data from the database. *)
Definition resolve_input (input : TransactionInput) : result ValidationError TransactionInput :=
  if is_compact input then
    hash ← input_output_hash input;
    found ← stored (fetch_output hash);
    output_mined_info ← ok_or found TransactionInputSpentOutputMissing;
    match output_mined_info with
    | Pruned _ _ => Err TransactionInputSpendsPrunedOutput
    | NotPruned output =>
        Ok (add_output_data input (out_version output) (out_features output) (out_commitment output) (out_script output)
          (out_sender_offset_public_key output) (out_covenant output) (out_encrypted_data output) (out_minimum_value_promise output))
    end
  else Ok input.

Definition validate_input_not_pruned body : result ValidationError (list TransactionInput) := mapM resolve_input (inputs body).

Definition validate_input_maturity body (height : Z) : check :=
  for_each (fun input =>
    mature ← map_err ValTransactionError (is_mature_at input height);
    if (mature : bool) then Ok tt else Err (ValTransactionError InputMaturity)) (inputs body).

(** Inputs that are not in the UTXO set may spend outputs of the same body. *)
Definition find_unknown body (not_found : list bytes) (input : TransactionInput) : result ValidationError (list bytes) :=
  match check_input_is_utxo input with
  | Ok _ => Ok not_found
  | Err UnknownInput =>
      output_hashes ← mapM output_hash (outputs body);
      h ← input_output_hash input;
      if bool_decide (h ∈ output_hashes) then Ok not_found else Ok (not_found ++ [h])
  | Err e => Err e
  | Panic => Panic
  end.

Definition check_inputs_are_utxos body : check :=
  not_found ← foldM (find_unknown body) (inputs body) [];
  if bool_decide (not_found = []) then Ok tt else Err (UnknownInputs not_found).

Definition check_outputs (constants : ConsensusConstants) body : check :=
  for_each (fun output =>
    _ ← check_tari_script_byte_size (out_script output) (max_script_byte_size constants);
    _ ← check_not_duplicate_txo output;
    check_validator_node_registration_utxo constants output) (outputs body).

Definition verify_no_duplicated_inputs_outputs body : check :=
  b ← contains_duplicated_inputs body;
  if (b : bool) then Err UnsortedOrDuplicateInput
  else
    b ← contains_duplicated_outputs body;
    if (b : bool) then Err UnsortedOrDuplicateOutput else Ok tt.

Definition verify_timelocks body (current_height : Z) : check :=
  next ← arith 0 U64_MAX (current_height + 1);
  if min_spendable_height body >? next then Err MaturityError else Ok tt.

Definition validate_input_and_maturity body (constants : ConsensusConstants) (height : Z) : result ValidationError TxBody :=
  ins ← validate_input_not_pruned body;
  let body := new_sorted_unchecked ins (outputs body) (kernels body) in
  _ ← validate_input_maturity body height;
  _ ← check_inputs_are_utxos body;
  _ ← check_outputs constants body;
  _ ← verify_no_duplicated_inputs_outputs body;
  _ ← check_total_burned body;
  _ ← verify_timelocks body height;
  Ok body.

Definition chain_validate (manager : ConsensusManager) body (height : Z) : result ValidationError TxBody :=
  constants ← consensus_constants manager height;
  _ ← validate_consensus body constants;
  validate_input_and_maturity body constants height.

(** ** Transactions *)

(** The tip of the chain, the same for all reads of one validation. *)
Record ChainMetadata := { height_of_longest_chain : Z; best_block : bytes }.

Definition validate_with_current_tip (self : InternalValidator) (tx : FullTransaction) (tip : ChainMetadata) : check :=
  if existsb output_is_coinbase (outputs (tx_body tx)) then Err ErroneousCoinbaseOutput
  else
    _ ← map_err ValTransactionError (check_output_features (tx_body tx) 1);
    internal_validate self (tx_body tx) (tx_offset tx) (tx_script_offset tx) None (Some (best_block tip)) (height_of_longest_chain tip).

Definition transaction_chain_validate (manager : ConsensusManager) (tx : FullTransaction) (tip : ChainMetadata) : check :=
  constants ← consensus_constants manager (height_of_longest_chain tip);
  weight ← body_calculate_weight (tx_body tx) (transaction_weight constants);
  max ← get_max_block_weight_excluding_coinbase constants;
  if weight >? max then Err MaxTransactionWeightExceeded
  else
    _ ← chain_validate manager (tx_body tx) (height_of_longest_chain tip);
    Ok tt.

Definition transaction_full_validate (self : InternalValidator) (tx : FullTransaction) (tip : ChainMetadata) : check :=
  _ ← validate_with_current_tip self tx tip;
  transaction_chain_validate (iv_manager self) tx tip.

End ChainLinked.

(** ** Blocks *)

(** The parts of a block the body validator reads. *)
Record FullBlock := {
  fb_height : Z;
  fb_prev_hash : bytes;
  fb_kernel_offset : RistrettoSecretKey;
  fb_script_offset : RistrettoSecretKey;
  fb_body : TxBody;
}.

(** The emission loop of [calculate_coinbase_and_fees] takes fuel; [None] is running out of it. *)
Definition validate_block_specific_checks (fuel : nat) (manager : ConsensusManager) (block : FullBlock) : option check :=
  match consensus_constants manager (fb_height block) with
  | Ok constants =>
      if fb_height block =? 0 then Some (Err ValidatingGenesis)
      else
        total_coinbase ← calculate_coinbase_and_fees fuel manager (fb_height block) (map k_fee (kernels (fb_body block)));
        Some (
          total_coinbase ← total_coinbase;
          _ ← map_err ValTransactionError (check_coinbase_output (fb_body block) total_coinbase (coinbase_lock_height constants) (fb_height block));
          map_err ValTransactionError (check_output_features (fb_body block) (coinbase_output_features_extra_max_length constants)))
  | Err e => Some (Err e)
  | Panic => Some Panic
  end.

Definition validate_block_aggregate_body (fuel : nat) (self : InternalValidator) (block : FullBlock) : option check :=
  total_coinbase ← calculate_coinbase_and_fees fuel (iv_manager self) (fb_height block) (map k_fee (kernels (fb_body block)));
  Some (
    total_coinbase ← total_coinbase;
    internal_validate self (fb_body block) (fb_kernel_offset block) (fb_script_offset block) (Some total_coinbase)
      (Some (fb_prev_hash block)) (fb_height block)).

Definition validate_block (fuel : nat) (self : InternalValidator) (block : FullBlock) : option check :=
  r ← validate_block_specific_checks fuel (iv_manager self) block;
  match r with
  | Ok _ => validate_block_aggregate_body fuel self block
  | Err e => Some (Err e)
  | Panic => Some Panic
  end.

End Validators.
