(* ===== verification/BodyBalance.v ===== *)
(** * Validated bodies balance

    What the internal validator of [BodyValidator] shows of the amounts behind the commitments: nothing is
    created except the reward, the sum of two balanced transactions balances, and a coinbase
    has the value the schedule gives it. Class [TxLaws] holds what tari_crypto documents of
    commitments, keys and their orders. *)

From S2P Require Import Prelude ScriptTypes Opcodes ScriptStack TariScript Amounts Emission ConsensusConstants ConsensusManager.
From S2P Require Import Covenants TxComponents CovenantFilters AggregatedBody BodyValidator.

Local Open Scope Z_scope.

(** Commitments and public keys are abelian groups; commitments are homomorphic in key and value; the
    orders on commitments and signatures are strict total orders. *)
Class TxLaws {C : ScriptCrypto} (X : TxCrypto C) : Prop := {
  com_add_assoc a b c : com_add a (com_add b c) = com_add (com_add a b) c;
  com_add_comm a b : com_add a b = com_add b a;
  com_add_default a : com_add com_default a = a;
  com_sub_add a b : com_add (com_sub a b) b = a;
  sk_add_default k : sk_add sk_default k = k;
  sk_add_comm k l : sk_add k l = sk_add l k;
  commit_default : commit_value sk_default 0 = com_default;
  commit_add k1 v1 k2 v2 : com_add (commit_value k1 v1) (commit_value k2 v2) = commit_value (sk_add k1 k2) (v1 + v2);
  pk_add_assoc a b c : pk_add a (pk_add b c) = pk_add (pk_add a b) c;
  pk_add_comm a b : pk_add a b = pk_add b a;
  pk_add_default a : pk_add pk_default a = a;
  pk_sub_add a b : pk_add (pk_sub a b) b = a;
  pk_from_add a b : pk_from_secret_key (sk_add a b) = pk_add (pk_from_secret_key a) (pk_from_secret_key b);
  com_compare_refl a : com_compare a a = Eq;
  com_compare_trans a b c : com_compare a b = Gt -> com_compare b c = Gt -> com_compare a c = Gt;
  sig_compare_refl a : sig_compare a a = Eq;
  sig_compare_trans a b c : sig_compare a b = Gt -> sig_compare b c = Gt -> sig_compare a c = Gt;
}.

(** ** The checks of the internal validator *)

Section Checks.
Context {C : ScriptCrypto} {B : BorshPrims C} {X : TxCrypto C}.

Record internally_valid (iv : InternalValidator) (body : TxBody) (offset script_offset : RistrettoSecretKey) (reward : MicroTari)
    (prev_header : option bytes) (height : Z) (constants : ConsensusConstants) : Prop := {
  iv_constants : @consensus_constants ValidationError (iv_manager iv) height = Ok constants;
  iv_kernel_signatures : verify_kernel_signatures body = Ok tt;
  iv_script_size : check_script_size body (max_script_byte_size constants) = Ok tt;
  iv_sorted : check_sorting_and_duplicates body = Ok tt;
  iv_kernel_sum : validate_kernel_sum body (commit_value offset reward) = Ok tt;
  iv_range_proofs : bypass_range_proof_verification iv = false -> validate_range_proofs body = Ok tt;
  iv_metadata : verify_metadata_signatures body = Ok tt;
  iv_scripts : validate_script_and_script_offset body (pk_from_secret_key script_offset) prev_header height = Ok tt;
  iv_covenants : validate_covenants body height = Ok tt;
  iv_versions : validate_versions body constants = Ok tt;
  iv_weight : check_weight body constants = Ok tt;
  iv_outputs : for_each (fun output =>
    _ ← check_permitted_output_types constants output;
    _ ← check_permitted_range_proof_types constants output;
    check_validator_node_registration_utxo constants output) (outputs body) = Ok tt;
  iv_burned : check_total_burned body = Ok tt;
  iv_maturity : check_maturity height (inputs body) = Ok tt;
  iv_lock_height : check_kernel_lock_height height (kernels body) = Ok tt;
}.

Lemma check_bind (m k : result ValidationError unit) : (_ ← m; k) = Ok tt <-> m = Ok tt /\ k = Ok tt.
Proof. destruct m as [[]| |]; cbn; naive_solver. Qed.

Lemma for_each_Ok {A} (f : A -> result ValidationError unit) l : for_each f l = Ok tt <-> Forall (fun x => f x = Ok tt) l.
Proof.
  unfold for_each. induction l as [|x l IH]; cbn; [done|]. rewrite Forall_cons, <- IH. destruct (f x) as [[]| |]; cbn; naive_solver.
Qed.

Lemma internal_validate_iff iv body offset script_offset reward prev_header height :
  internal_validate iv body offset script_offset reward prev_header height = Ok tt <->
  exists constants, internally_valid iv body offset script_offset (default 0 reward) prev_header height constants.
Proof.
  unfold internal_validate. rewrite check_bind. destruct (consensus_constants (iv_manager iv) height) as [constants|e|] eqn:Hc; cbn [mbind result_bind].
  2,3: split; [by intros []|intros [? []]; congruence].
  rewrite !check_bind. split.
  - intros. exists constants. destruct_and!. split; try done. intros Hb. by rewrite Hb in *.
  - intros [constants' [Hc']]. rewrite Hc in Hc'. injection Hc' as <-. split_and!; try done. destruct (bypass_range_proof_verification iv); [done|by apply iv_range_proofs0].
Qed.

End Checks.

Section Balance.
Context {C : ScriptCrypto} {B : BorshPrims C} {X : TxCrypto C} {L : TxLaws X}.

(** ** Groups *)

Lemma com_cancel a b c : com_add a c = com_add b c -> a = b.
Proof.
  intros H. pose proof (com_sub_add com_default c) as Hc.
  assert (forall x, com_add (com_add x c) (com_sub com_default c) = x) as Hx.
  { intros x. rewrite <- com_add_assoc, (com_add_comm c), Hc, com_add_comm. apply com_add_default. }
  by rewrite <- (Hx a), H, Hx.
Qed.

Lemma pk_cancel a b c : pk_add a c = pk_add b c -> a = b.
Proof.
  intros H. pose proof (pk_sub_add pk_default c) as Hc.
  assert (forall x, pk_add (pk_add x c) (pk_sub pk_default c) = x) as Hx.
  { intros x. rewrite <- pk_add_assoc, (pk_add_comm c), Hc, pk_add_comm. apply pk_add_default. }
  by rewrite <- (Hx a), H, Hx.
Qed.

Lemma com_fold_left l a : fold_left com_add l a = com_add a (com_sum l).
Proof.
  unfold com_sum. revert a. induction l as [|c l IH]; intros a; cbn; [by rewrite com_add_comm, com_add_default|].
  rewrite IH, (IH (com_add com_default c)), com_add_default. by rewrite com_add_assoc.
Qed.

Lemma com_sum_cons c l : com_sum (c :: l) = com_add c (com_sum l).
Proof. unfold com_sum. cbn. by rewrite com_fold_left, com_add_default. Qed.

Lemma com_sum_app l1 l2 : com_sum (l1 ++ l2) = com_add (com_sum l1) (com_sum l2).
Proof. induction l1 as [|c l1 IH]; cbn [app]; [change (com_sum []) with com_default; by rewrite com_add_default|]. by rewrite !com_sum_cons, IH, com_add_assoc. Qed.

(** ** The kernel sum *)

Definition total_fees (body : TxBody) : Z := sum_Z (map k_fee (kernels body)).

Lemma sum_kernels_from ks acc acc' : foldM sum_kernels_step ks acc = Ok acc' ->
  ks_sum acc' = com_add (ks_sum acc) (com_sum (map k_excess ks)) /\ ks_fees acc' = ks_fees acc + sum_Z (map k_fee ks) /\
  (0 <= ks_fees acc <= U64_MAX -> 0 <= ks_fees acc' <= U64_MAX).
Proof.
  revert acc. induction ks as [|k ks IH]; intros acc H; cbn [foldM map] in *.
  - injection H as <-. change (com_sum []) with com_default. rewrite com_add_comm, com_add_default. cbn. repeat split; lia.
  - destruct (sum_kernels_step acc k) as [acc1| |] eqn:Hs; [|done..]. apply IH in H as (H1 & H2 & H3). unfold sum_kernels_step in Hs.
    apply bind_Ok_iff in Hs as (fees & Hf & [= <-]). apply arith_Ok_iff in Hf as [-> Hf]. cbn [ks_sum ks_fees] in *.
    rewrite H1, com_sum_cons, com_add_assoc. change (sum_Z (k_fee k :: map k_fee ks)) with (k_fee k + sum_Z (map k_fee ks)).
    repeat split; try lia; apply H3; lia.
Qed.

Lemma sum_kernels_Ok body offset ks : sum_kernels body offset = Ok ks ->
  ks_sum ks = com_add offset (com_sum (map k_excess (kernels body))) /\ ks_fees ks = total_fees body /\ 0 <= total_fees body <= U64_MAX.
Proof.
  intros H. apply sum_kernels_from in H as (H1 & H2 & H3). cbn in *. unfold total_fees. rewrite H1.
  rewrite Z.add_0_l in H2. rewrite <- H2. split; [done|]. split; [done|]. apply H3. unfold U64_MAX. lia.
Qed.

Lemma sum_kernels_fits body offset : Forall (fun k => 0 <= k_fee k) (kernels body) -> total_fees body <= U64_MAX ->
  exists ks, sum_kernels body offset = Ok ks.
Proof.
  unfold sum_kernels, total_fees. intros Hf Hmax. set (acc := {| ks_sum := offset; ks_fees := 0 |}).
  assert (0 <= ks_fees acc /\ ks_fees acc + sum_Z (map k_fee (kernels body)) <= U64_MAX) as [H0 Hacc] by (cbn; lia). clearbody acc. clear Hmax.
  revert acc H0 Hacc. induction Hf as [|k ks Hk Hf IH]; intros acc H0 Hacc; [by eexists|]. cbn [foldM map] in *.
  change (sum_Z (k_fee k :: map k_fee ks)) with (k_fee k + sum_Z (map k_fee ks)) in Hacc.
  assert (0 <= sum_Z (map k_fee ks)) by (apply sum_Z_nonneg, Forall_map; eapply Forall_impl; [exact Hf|done]).
  assert (sum_kernels_step acc k = Ok {| ks_sum := com_add (ks_sum acc) (k_excess k); ks_fees := ks_fees acc + k_fee k |}) as ->.
  { unfold sum_kernels_step, mt_add. by rewrite arith_ok by lia. }
  apply IH; cbn [ks_fees]; lia.
Qed.

(** The check, as one equation without subtraction. *)
Lemma kernel_sum_Ok body offset : validate_kernel_sum body offset = Ok tt ->
  exists ins, mapM in_commitment (inputs body) = Ok ins /\ 0 <= total_fees body <= U64_MAX /\
    com_add (com_add offset (com_sum (map k_excess (kernels body)))) (com_sum ins) =
    com_add (com_sum (map out_commitment (outputs body))) (commit_value sk_default (total_fees body)).
Proof.
  unfold validate_kernel_sum, sum_commitments. intros H. apply bind_Ok_iff in H as (ks & Hks & H). apply sum_kernels_Ok in Hks as (Hsum & Hfees & Hr).
  destruct (mapM in_commitment (inputs body)) as [ins| |]; [|done..]. cbn in H. rewrite Hsum, Hfees in H. exists ins. split; [done|]. split; [done|].
  case_bool_decide as Heq; [|done]. rewrite Heq. set (o := com_sum (map out_commitment (outputs body))). set (f := commit_value _ _). set (i := com_sum ins).
  rewrite <- com_add_assoc, (com_add_comm f), com_add_assoc, com_sub_add. done.
Qed.

Lemma kernel_sum_intro body offset ins ks : mapM in_commitment (inputs body) = Ok ins -> sum_kernels body offset = Ok ks ->
  com_add (com_add offset (com_sum (map k_excess (kernels body)))) (com_sum ins) =
  com_add (com_sum (map out_commitment (outputs body))) (commit_value sk_default (total_fees body)) ->
  validate_kernel_sum body offset = Ok tt.
Proof.
  intros Hins Hks Heq. unfold validate_kernel_sum, sum_commitments. rewrite Hks, Hins. cbn. apply sum_kernels_Ok in Hks as (-> & -> & _).
  rewrite bool_decide_true; [done|]. apply (com_cancel _ _ (com_sum ins)). rewrite Heq, <- com_add_assoc, (com_add_comm (commit_value _ _)), com_add_assoc, com_sub_add. done.
Qed.

(** ** Openings *)

Abbreviation opening := (RistrettoSecretKey * Z)%type.
Definition commit_to (p : opening) : PedersenCommitment := commit_value p.1 p.2.

(** The keys and the amounts of several openings add up to an opening of the sum. *)
Definition add_openings (ps : list opening) : opening := (foldr sk_add sk_default (map fst ps), sum_Z (map snd ps)).

Lemma commit_to_sum ps : commit_to (add_openings ps) = com_sum (map commit_to ps).
Proof.
  induction ps as [|p ps IH]; [apply commit_default|]. cbn [map]. rewrite com_sum_cons, <- IH. unfold commit_to. by rewrite commit_add.
Qed.

(** Openings of all commitments of a body, with amounts in the range of the range proofs; excesses hide no amount. *)
Record body_openings (body : TxBody) (pin pout : list opening) (kex : list RistrettoSecretKey) : Prop := {
  bo_inputs : Forall2 (fun i p => in_commitment i = Ok (commit_to p)) (inputs body) pin;
  bo_outputs : map out_commitment (outputs body) = map commit_to pout;
  bo_kernels : map k_excess (kernels body) = map (fun k => commit_to (k, 0)) kex;
  bo_range : Forall (fun p : opening => is_u64 p.2) (pin ++ pout);
  bo_length : Z.of_nat (length (pin ++ pout)) <= 2 ^ 64;
}.

(** What the body takes in, its kernels included, and what it gives out, its fees included. *)
Definition opening_in (offset : opening) (pin : list opening) (kex : list RistrettoSecretKey) : opening :=
  add_openings (offset :: map (fun k => (k, 0)) kex ++ pin).
Definition opening_out (body : TxBody) (pout : list opening) : opening := add_openings (pout ++ [(sk_default, total_fees body)]).

(** Two openings of one commitment whose amounts differ modulo the order of the group. *)
Definition double_opening (order : Z) (p q : opening) : Prop := commit_to p = commit_to q /\ p.2 mod order <> q.2 mod order.

(** ** Nothing is created *)

Lemma sum_u64 (ps : list opening) : Forall (fun p => is_u64 p.2) ps -> 0 <= sum_Z (map snd ps) <= Z.of_nat (length ps) * U64_MAX.
Proof.
  induction 1 as [|p ps Hp _ IH]; [done|]. cbn [map]. change (sum_Z (p.2 :: map snd ps)) with (p.2 + sum_Z (map snd ps)). unfold is_u64 in Hp. cbn [length]. lia.
Qed.

Lemma openings_agree body offset pin pout kex : validate_kernel_sum body (commit_to offset) = Ok tt -> body_openings body pin pout kex ->
  commit_to (opening_in offset pin kex) = commit_to (opening_out body pout).
Proof.
  intros H Ho. apply kernel_sum_Ok in H as (ins & Hm & _ & Heq). unfold opening_in, opening_out. rewrite !commit_to_sum. cbn [map].
  rewrite com_sum_cons, !map_app, !com_sum_app, map_map, <- (bo_outputs _ _ _ _ Ho), <- (bo_kernels _ _ _ _ Ho), com_add_assoc. cbn [map].
  assert (ins = map commit_to pin) as <-.
  { apply mapM_Ok_Forall2 in Hm. pose proof (bo_inputs _ _ _ _ Ho) as Hi. clear -Hm Hi. revert ins Hm.
    induction Hi as [|i q l l' Hq _ IH]; intros ins Hm; [by apply Forall2_nil_inv_l in Hm as ->|].
    apply Forall2_cons_inv_l in Hm as (c & cs & Hc & Hm & ->). rewrite Hq in Hc. injection Hc as <-. cbn. f_equal. by apply IH. }
  rewrite Heq. f_equal. unfold com_sum. cbn. by rewrite com_add_default.
Qed.

Lemma amounts_agree body offset reward pin pout kex order :
  validate_kernel_sum body (commit_value offset reward) = Ok tt -> body_openings body pin pout kex -> is_u64 reward -> 2 ^ 130 <= order ->
  sum_Z (map snd pout) + total_fees body = sum_Z (map snd pin) + reward \/ double_opening order (opening_in (offset, reward) pin kex) (opening_out body pout).
Proof.
  intros H Hb Hr Ho. pose proof (openings_agree body (offset, reward) pin pout kex H Hb) as Hc. unfold double_opening.
  assert ((opening_in (offset, reward) pin kex).2 = reward + sum_Z (map snd pin)) as Hin.
  { unfold opening_in, add_openings. cbn [map fst snd]. rewrite map_app, map_map. change (sum_Z (?x :: ?l)) with (x + sum_Z l). rewrite sum_Z_app.
    cbn [snd]. assert (sum_Z (map (fun _ : RistrettoSecretKey => 0) kex) = 0) as -> by (clear; by induction kex). done. }
  assert ((opening_out body pout).2 = sum_Z (map snd pout) + total_fees body) as Hout.
  { unfold opening_out, add_openings. cbn [fst snd]. rewrite map_app, sum_Z_app. cbn. lia. }
  destruct (decide ((opening_in (offset, reward) pin kex).2 mod order = (opening_out body pout).2 mod order)) as [Heq|]; [left|by right].
  rewrite Hin, Hout in Heq. apply kernel_sum_Ok in H as (_ & _ & Hf & _). destruct Hb as [_ _ _ Hrange Hlen]. apply Forall_app in Hrange as [Ri Ro].
  rewrite length_app in Hlen. apply sum_u64 in Ri, Ro. unfold is_u64, U64_MAX in *. rewrite !Z.mod_small in Heq by nia. lia.
Qed.

(** C3: in a validated body the amounts of the outputs and the fees are the amounts of the inputs and
    the reward, whatever openings of its commitments are given (amounts in the range of the range proofs,
    excesses to zero); otherwise those openings give two openings of one commitment to different amounts. *)
Theorem validated_body_balances iv body offset script_offset reward prev_header height pin pout kex order :
  internal_validate iv body offset script_offset (Some reward) prev_header height = Ok tt ->
  body_openings body pin pout kex -> is_u64 reward -> 2 ^ 130 <= order ->
  sum_Z (map snd pout) + total_fees body = sum_Z (map snd pin) + reward \/ double_opening order (opening_in (offset, reward) pin kex) (opening_out body pout).
Proof. intros [constants H]%internal_validate_iff. eapply amounts_agree, iv_kernel_sum, H. Qed.

(** ** Adding transactions *)

Lemma mapM_app_Ok {E A D} (f : A -> result E D) l1 l2 k1 k2 : mapM f l1 = Ok k1 -> mapM f l2 = Ok k2 -> mapM f (l1 ++ l2) = Ok (k1 ++ k2).
Proof. rewrite !mapM_Ok_Forall2. apply Forall2_app. Qed.

Lemma total_fees_sum t1 t2 : total_fees (tx_body (add_no_cut_through t1 t2)) = total_fees (tx_body t1) + total_fees (tx_body t2).
Proof. unfold total_fees. cbn. by rewrite map_app, sum_Z_app. Qed.

Lemma fold_left_pk l a : fold_left pk_add l a = pk_add a (fold_left pk_add l pk_default).
Proof.
  revert a. induction l as [|k l IH]; intros a; cbn; [by rewrite pk_add_comm, pk_add_default|]. rewrite IH, (IH (pk_add _ k)), pk_add_default. by rewrite pk_add_assoc.
Qed.

(** The keys that count on the output side. *)
Definition output_keys (l : list TransactionOutput) : list RistrettoPublicKey :=
  map out_sender_offset_public_key (filter (fun o => output_is_coinbase o = false) l).

Lemma sum_output_keys_eq body : sum_output_keys body = fold_left pk_add (output_keys (outputs body)) pk_default.
Proof.
  unfold sum_output_keys, output_keys. generalize pk_default. induction (outputs body) as [|o l IH]; intros a; [done|]. cbn [fold_left].
  rewrite filter_cons. destruct (output_is_coinbase o); [by rewrite decide_False, IH|]. by rewrite decide_True, IH.
Qed.

Lemma sum_input_keys_Ok body prev height key : sum_input_keys body prev height = Ok key <->
  exists keys, mapM (input_key prev height) (inputs body) = Ok keys /\ key = fold_left pk_add keys pk_default.
Proof.
  unfold sum_input_keys. generalize pk_default. induction (inputs body) as [|i l IH]; intros a; cbn.
  - split; [intros [= <-]; by exists []|by intros (keys & [= <-] & ->)].
  - destruct (input_key prev height i) as [k| |]; cbn; [|naive_solver..]. rewrite IH. destruct (mapM _ l) as [ks| |]; cbn; unfold mret, result_ret.
    2,3: split; by intros (? & ? & ?).
    split; intros (? & [= <-] & ->); by eexists.
Qed.

Lemma script_offset_Ok body script_offset prev height : validate_script_and_script_offset body script_offset prev height = Ok tt <->
  exists keys, mapM (input_key (default zero_hash prev) height) (inputs body) = Ok keys /\
    fold_left pk_add keys pk_default = pk_add script_offset (fold_left pk_add (output_keys (outputs body)) pk_default).
Proof.
  unfold validate_script_and_script_offset. rewrite <- sum_output_keys_eq. split.
  - intros H. apply bind_Ok_iff in H as (key & Hk & H). apply sum_input_keys_Ok in Hk as (keys & Hm & ->). exists keys. split; [done|].
    case_bool_decide as Heq; [|done]. by rewrite <- Heq, pk_sub_add.
  - intros (keys & Hm & Heq). rewrite (proj2 (sum_input_keys_Ok _ _ _ _)) by (by exists keys). cbn. rewrite bool_decide_true; [done|].
    apply (pk_cancel _ _ (sum_output_keys body)). by rewrite pk_sub_add.
Qed.

Lemma pk_swap a b c d : pk_add (pk_add a b) (pk_add c d) = pk_add (pk_add a c) (pk_add b d).
Proof. rewrite <- !pk_add_assoc. f_equal. rewrite !pk_add_assoc. f_equal. apply pk_add_comm. Qed.

Lemma com_swap a b c d : com_add (com_add a b) (com_add c d) = com_add (com_add a c) (com_add b d).
Proof. rewrite <- !com_add_assoc. f_equal. rewrite !com_add_assoc. f_equal. apply com_add_comm. Qed.

Lemma script_offsets_add t1 t2 prev height :
  validate_script_and_script_offset (tx_body t1) (pk_from_secret_key (tx_script_offset t1)) prev height = Ok tt ->
  validate_script_and_script_offset (tx_body t2) (pk_from_secret_key (tx_script_offset t2)) prev height = Ok tt ->
  let t := add_no_cut_through t1 t2 in
  validate_script_and_script_offset (tx_body t) (pk_from_secret_key (tx_script_offset t)) prev height = Ok tt.
Proof.
  rewrite !script_offset_Ok. intros (k1 & M1 & E1) (k2 & M2 & E2). exists (k1 ++ k2). split; [by apply mapM_app_Ok|].
  cbn [add_no_cut_through tx_body tx_script_offset add_kernels add_outputs add_inputs outputs]. rewrite pk_from_add. unfold output_keys in *.
  rewrite filter_app, map_app, !fold_left_app, fold_left_pk, (fold_left_pk _ (fold_left _ _ _)), E1, E2. apply pk_swap.
Qed.

(** The sum of two transactions that balance, in their amounts and in their script keys,
    balances, if its fees fit. *)
Theorem aggregation_balances (t1 t2 : FullTransaction) (prev : option bytes) (height : Z) :
  Forall (fun k => 0 <= k_fee k) (kernels (tx_body t1) ++ kernels (tx_body t2)) ->
  total_fees (tx_body t1) + total_fees (tx_body t2) <= U64_MAX ->
  validate_kernel_sum (tx_body t1) (commit_value (tx_offset t1) 0) = Ok tt ->
  validate_kernel_sum (tx_body t2) (commit_value (tx_offset t2) 0) = Ok tt ->
  validate_script_and_script_offset (tx_body t1) (pk_from_secret_key (tx_script_offset t1)) prev height = Ok tt ->
  validate_script_and_script_offset (tx_body t2) (pk_from_secret_key (tx_script_offset t2)) prev height = Ok tt ->
  let t := add_no_cut_through t1 t2 in
  validate_kernel_sum (tx_body t) (commit_value (tx_offset t) 0) = Ok tt /\
  validate_script_and_script_offset (tx_body t) (pk_from_secret_key (tx_script_offset t)) prev height = Ok tt.
Proof.
  intros Hf Hmax H1 H2 S1 S2 t. split; [|by apply script_offsets_add].
  apply kernel_sum_Ok in H1 as (i1 & M1 & _ & E1), H2 as (i2 & M2 & _ & E2).
  destruct (sum_kernels_fits (tx_body t) (commit_value (tx_offset t) 0)) as [ks Hks]; [done|unfold t; by rewrite total_fees_sum|].
  apply (kernel_sum_intro _ _ (i1 ++ i2) ks); [by apply mapM_app_Ok|done|]. unfold t. rewrite total_fees_sum. cbn [add_no_cut_through tx_body tx_offset add_kernels add_outputs add_inputs outputs kernels].
  assert (forall k1 k2, commit_value (sk_add k1 k2) 0 = com_add (commit_value k1 0) (commit_value k2 0)) as -> by (intros; by rewrite commit_add).
  rewrite !map_app, !com_sum_app, (com_swap (commit_value _ _)), (com_swap (com_add _ _)), E1, E2, com_swap. f_equal. by rewrite commit_add, sk_add_default.
Qed.

(** ** Blocks *)

Lemma coinbase_outputs_Ok min l utxos : coinbase_outputs min l = Ok utxos ->
  utxos = filter (fun o => output_is_coinbase o = true) l /\ forall o, o ∈ utxos -> exists m, min = Ok m /\ m <= feat_maturity (out_features o).
Proof.
  revert utxos. induction l as [|o l IH]; intros utxos H; cbn in H; [injection H as <-; split; [done|by intros o ?%not_elem_of_nil]|].
  rewrite filter_cons. destruct (output_is_coinbase o) eqn:Ho; [|by rewrite decide_False; [apply IH|]].
  rewrite decide_True by done. destruct min as [m| |]; [|done..]. cbn in H. destruct (Z.ltb_spec (feat_maturity (out_features o)) m); [done|].
  destruct (coinbase_outputs (Ok m) l) as [rest| |]; [|done..]. cbn in H. injection H as <-. destruct (IH rest eq_refl) as [-> Hr]. split; [done|].
  intros x [->|Hx]%elem_of_cons; [by exists m|by apply Hr].
Qed.

Lemma check_coinbase_Ok body reward lock height : check_coinbase_output body reward lock height = Ok tt ->
  exists utxo kernel, filter (fun o => output_is_coinbase o = true) (outputs body) = [utxo] /\
    filter (fun k => kernel_is_coinbase k = true) (kernels body) = [kernel] /\
    height + lock <= feat_maturity (out_features utxo) /\ out_commitment utxo = com_add (k_excess kernel) (commit_value sk_default reward).
Proof.
  unfold check_coinbase_output. intros H. apply bind_Ok_iff in H as (utxos & Hu & H). apply coinbase_outputs_Ok in Hu as [Hu Hm].
  destruct utxos as [|utxo [|u utxos]]; [done| |done]. cbn in H. destruct (filter _ (kernels body)) as [|kernel [|k ks]]; [done| |done]. cbn in H.
  case_bool_decide as Heq; [|done]. exists utxo, kernel. split; [done|]. split; [done|]. destruct (Hm utxo) as (m & Hmin & Hle); [by left|].
  apply arith_Ok_iff in Hmin as [-> _]. done.
Qed.

Lemma fees_added {E} fees start total : foldM (@mt_add E) fees start = Ok total ->
  total = start + sum_Z fees /\ (fees <> [] -> is_u64 total).
Proof.
  revert start. induction fees as [|f fees IH]; intros start H; cbn in H; [injection H as <-; cbn; split; [lia|done]|].
  apply bind_Ok_iff in H as (s & Hs & H). apply arith_Ok_iff in Hs as [-> Hr]. apply IH in H as [-> Hu].
  change (sum_Z (f :: fees)) with (f + sum_Z fees). split; [lia|]. intros _. destruct fees; [cbn in *; unfold is_u64; lia|by apply Hu].
Qed.

Lemma validate_block_Ok fuel iv block : validate_block fuel iv block = Some (Ok tt) -> exists constants emission total,
  @consensus_constants ValidationError (iv_manager iv) (fb_height block) = Ok constants /\
  @get_block_reward_at ValidationError fuel (iv_manager iv) (fb_height block) = Some (Ok emission) /\
  foldM (@mt_add ValidationError) (map k_fee (kernels (fb_body block))) emission = Ok total /\
  check_coinbase_output (fb_body block) total (coinbase_lock_height constants) (fb_height block) = Ok tt /\
  internal_validate iv (fb_body block) (fb_kernel_offset block) (fb_script_offset block) (Some total) (Some (fb_prev_hash block)) (fb_height block) = Ok tt.
Proof.
  unfold validate_block, validate_block_specific_checks, validate_block_aggregate_body, calculate_coinbase_and_fees, get_block_reward_at. intros H.
  destruct (consensus_constants (iv_manager iv) (fb_height block)) as [constants| |] eqn:Hc; [|done..]. destruct (fb_height block =? 0); [done|].
  destruct (block_reward fuel (emission (iv_manager iv)) (fb_height block)) as [r|] eqn:Hr; [|done]. cbn in H.
  match type of H with match ?m with _ => _ end = _ => destruct m as [u| |] eqn:Hs; [|done..] end. injection H as H.
  apply bind_Ok_iff in H as (total & Ht & H). rewrite Ht in Hs. cbn [mbind result_bind] in Hs. apply bind_Ok_iff in Ht as (emission & -> & Ht).
  apply bind_Ok_iff in Hs as ([] & Hco & _). destruct (check_coinbase_output _ _ _ _) as [[]| |] eqn:Hcb; [|done..].
  by exists constants, emission, total.
Qed.

Lemma coinbase_key body pin pout kex kernel : body_openings body pin pout kex ->
  kernel ∈ filter (fun k => kernel_is_coinbase k = true) (kernels body) -> exists k, k ∈ kex /\ k_excess kernel = commit_to (k, 0).
Proof.
  intros Hb [_ Hk]%list_elem_of_filter. apply (list_elem_of_fmap_2 k_excess) in Hk. change (k_excess <$> kernels body) with (map k_excess (kernels body)) in Hk.
  rewrite (bo_kernels _ _ _ _ Hb) in Hk. apply list_elem_of_fmap in Hk as (k & Hk & Hin). by exists k.
Qed.

(** C33: a valid block has exactly one coinbase output and one coinbase kernel, matured no earlier than
    the lock allows, and the key of that kernel opens the output to the reward and the fees of the block;
    its outputs are worth what its inputs are and the emission of its height, for all openings given,
    or those give two openings of one commitment to different amounts. *)
Theorem valid_block_emission fuel iv block pin pout kex order :
  validate_block fuel iv block = Some (Ok tt) -> body_openings (fb_body block) pin pout kex -> 2 ^ 130 <= order ->
  exists constants emission utxo kernel,
    @consensus_constants ValidationError (iv_manager iv) (fb_height block) = Ok constants /\
    @get_block_reward_at ValidationError fuel (iv_manager iv) (fb_height block) = Some (Ok emission) /\
    filter (fun o => output_is_coinbase o = true) (outputs (fb_body block)) = [utxo] /\
    filter (fun k => kernel_is_coinbase k = true) (kernels (fb_body block)) = [kernel] /\
    fb_height block + coinbase_lock_height constants <= feat_maturity (out_features utxo) /\
    (exists k, k ∈ kex /\ out_commitment utxo = commit_to (k, emission + total_fees (fb_body block))) /\
    (sum_Z (map snd pout) = sum_Z (map snd pin) + emission \/
     double_opening order (opening_in (fb_kernel_offset block, emission + total_fees (fb_body block)) pin kex) (opening_out (fb_body block) pout)).
Proof.
  intros H Hb Ho. apply validate_block_Ok in H as (constants & emission & total & Hc & Hr & Ht & Hco & H).
  apply check_coinbase_Ok in Hco as (utxo & kernel & Hu & Hke & Hm & Hcom).
  apply internal_validate_iff in H as [constants' H]. pose proof (iv_kernel_sum _ _ _ _ _ _ _ _ H) as Hs. cbn in Hs.
  assert (kernels (fb_body block) <> []) as Hne by (intros He; by rewrite He in Hke).
  apply fees_added in Ht as [-> Hut]. specialize (Hut ltac:(by destruct (kernels (fb_body block)))). fold (total_fees (fb_body block)) in *.
  exists constants, emission, utxo, kernel. split; [done|]. split; [exact Hr|]. do 3 (split; [done|]). split.
  - destruct (coinbase_key (fb_body block) pin pout kex kernel Hb) as (k & Hk & He); [rewrite Hke; by left|]. exists k. split; [done|].
    rewrite Hcom, He. unfold commit_to. cbn [fst snd]. by rewrite commit_add, Z.add_0_l, sk_add_comm, sk_add_default.
  - destruct (amounts_agree _ _ _ pin pout kex order Hs Hb Hut Ho) as [Hsum|]; [left; lia|by right].
Qed.

End Balance.
