(* ===== verification/OutputHash.v ===== *)
(** * The hash of an output binds its contents

    Encodings of the parts of an output are prefix codes, so two outputs with the same hash agree on every
    hashed field, unless the digest collides (src/base_layer/core/src/transactions/
    transaction_components/mod.rs, [hash_output]). *)

From S2P Require Import Prelude ScriptTypes Opcodes ScriptStack TariScript ScriptEncoding Amounts ConsensusConstants Covenants TxComponents.

Local Open Scope Z_scope.

(** Encodings that can be told apart from what follows. *)
Definition prefix_code {A} (P : A -> Prop) (enc : A -> bytes) : Prop :=
  forall x y r s, P x -> P y -> enc x ++ r = enc y ++ s -> x = y /\ r = s.

(** The remaining encodings of tari_crypto and borsh. *)
Class EncodingLaws {C : ScriptCrypto} (X : TxCrypto C) : Prop := {
  sig_prefix : prefix_code (fun _ => True) sig_serialize;
  sk_prefix : prefix_code (fun _ => True) sk_serialize;
  u16_borsh v rest : 0 <= v <= U16_MAX -> u16_deserialize (u16_serialize v ++ rest) = Some (v, rest);
  u32_borsh v rest : 0 <= v <= U32_MAX -> u32_deserialize (u32_serialize v ++ rest) = Some (v, rest);
}.

Section Binding.
Context {C : ScriptCrypto} {CL : ScriptCryptoLaws C} {B : BorshPrims C} {BL : BorshLaws B} {X : TxCrypto C} {XL : EncodingLaws X}.

Lemma decoder_prefix {A D} (P : A -> Prop) enc (dec : bytes -> D) (mk : A -> bytes -> D) :
  (forall x y r s, mk x r = mk y s -> x = y /\ r = s) -> (forall x r, P x -> dec (enc x ++ r) = mk x r) -> prefix_code P enc.
Proof. intros Hinj Hdec x y r s Hx Hy H. apply Hinj. by rewrite <- Hdec, <- Hdec, H. Qed.

Lemma pair_inj {A D} (x y : A) (r s : D) : Some (x, r) = Some (y, s) -> x = y /\ r = s.
Proof. by intros [= -> ->]. Qed.

Lemma pk_prefix : prefix_code (fun _ => True) pk_serialize.
Proof. apply (decoder_prefix _ _ pk_deserialize (fun x r => Some (x, r))); [apply pair_inj|intros; apply pk_borsh]. Qed.

Lemma com_prefix : prefix_code (fun _ => True) com_serialize.
Proof. apply (decoder_prefix _ _ com_deserialize (fun x r => Some (x, r))); [apply pair_inj|intros; apply com_borsh]. Qed.

Lemma u64_prefix : prefix_code is_u64 u64_serialize.
Proof. apply (decoder_prefix _ _ u64_deserialize (fun x r => Some (x, r))); [apply pair_inj|intros; by apply u64_borsh]. Qed.

Lemma u16_prefix : prefix_code (fun v => 0 <= v <= U16_MAX) u16_serialize.
Proof. apply (decoder_prefix _ _ u16_deserialize (fun x r => Some (x, r))); [apply pair_inj|intros; by apply u16_borsh]. Qed.

Definition short (b : bytes) : Prop := Z.of_nat (length b) <= U32_MAX.

Lemma vec_prefix : prefix_code short vec_u8_serialize.
Proof. apply (decoder_prefix _ _ vec_u8_deserialize (fun x r => Some (x, r))); [apply pair_inj|intros; by apply vec_u8_borsh]. Qed.

Definition script_ok (s : TariScript) : Prop := script_wf s /\ Z.of_nat (length (script_to_bytes s)) <= I64_MAX.

Lemma script_prefix : prefix_code script_ok script_borsh_serialize.
Proof.
  apply (decoder_prefix _ _ script_borsh_deserialize (fun x r => Ok (x, r))); [by intros ? ? ? ? [= -> ->]|].
  intros s r [Hw Hl]. by apply script_borsh_roundtrip.
Qed.

Lemma fixed_prefix n : prefix_code (fun b => length b = n) (fun b : bytes => b).
Proof. intros x y r s Hx Hy H. apply app_inj_1; [congruence|done]. Qed.

Lemma byte_prefix {A} (f : A -> Z) : (forall x y, f x = f y -> x = y) -> prefix_code (fun _ => True) (fun x => [f x]).
Proof. intros Hf x y r s _ _ [= Hxy ->]. split; [by apply Hf|done]. Qed.

Lemma pair_prefix {A D F} (P : A -> Prop) (Q : D -> Prop) f g (mk : F -> A * D) :
  prefix_code P f -> prefix_code Q g -> (forall x y, mk x = mk y -> x = y) ->
  prefix_code (fun x => P (mk x).1 /\ Q (mk x).2) (fun x => f (mk x).1 ++ g (mk x).2).
Proof.
  intros Hf Hg Hmk x y r s [Px Qx] [Py Qy] H. rewrite <- !app_assoc in H. apply Hf in H as [H1 H]; [|done..]. apply Hg in H as [H2 ->]; [|done..].
  split; [|done]. apply Hmk. destruct (mk x), (mk y). cbn in *. congruence.
Qed.

Lemma option_prefix {A} (P : A -> Prop) f : prefix_code P f -> prefix_code (fun o => forall a, o = Some a -> P a) (option_serialize f).
Proof.
  intros Hf [x|] [y|] r s Hx Hy H; cbn in H; try done.
  - injection H as H. apply Hf in H as [-> ->]; [done|by apply Hx|by apply Hy].
  - injection H as ->. done.
Qed.

(** ** Features *)

Definition template_type_ok (t : TemplateType) : Prop := match t with Template_Wasm v => 0 <= v <= U16_MAX | _ => True end.

Definition code_template_ok (r : CodeTemplateReg) : Prop :=
  short (template_name r) /\ 0 <= template_version r <= U16_MAX /\ template_type_ok (template_type r) /\ short (repo_url (build_info r)) /\
  short (commit_hash (build_info r)) /\ short (binary_sha r) /\ short (binary_url r).

Definition sidechain_ok (f : SideChainFeature) : Prop := match f with Side_TemplateRegistration r => code_template_ok r | _ => True end.

Definition features_ok (f : OutputFeatures) : Prop :=
  is_u64 (feat_maturity f) /\ short (coinbase_extra f) /\ forall s, sidechain_feature f = Some s -> sidechain_ok s.

Lemma template_type_prefix : prefix_code template_type_ok template_type_serialize.
Proof.
  intros [v| |] [w| |] r s Hx Hy H; cbn in H; try discriminate H; injection H as H; try (by subst).
  apply u16_prefix in H as [-> ->]; done.
Qed.

Lemma vns_prefix : prefix_code (fun _ => True) vns_serialize.
Proof.
  intros [k1 s1] [k2 s2] r s _ _ H. unfold vns_serialize in H. cbn in H. rewrite <- !app_assoc in H.
  apply pk_prefix in H as [-> H]; [|done..]. apply sig_prefix in H as [-> ->]; done.
Qed.

Lemma code_template_prefix : prefix_code code_template_ok code_template_serialize.
Proof.
  intros [k1 g1 n1 v1 t1 [u1 c1] b1 l1] [k2 g2 n2 v2 t2 [u2 c2] b2 l2] r s Hx Hy H. unfold code_template_ok in *. cbn in *. destruct_and!.
  unfold code_template_serialize in H. cbn in H. rewrite <- !app_assoc in H.
  apply pk_prefix in H as [-> H]; [|done..]. apply sig_prefix in H as [-> H]; [|done..]. apply vec_prefix in H as [-> H]; [|done..].
  apply u16_prefix in H as [-> H]; [|done..]. apply template_type_prefix in H as [-> H]; [|done..].
  do 3 (apply vec_prefix in H as [-> H]; [|done..]). apply vec_prefix in H as [-> ->]; done.
Qed.

Lemma sidechain_prefix : prefix_code sidechain_ok sidechain_serialize.
Proof.
  intros [[x]|x|[x]] [[y]|y|[y]] r s Hx Hy H; cbn in H; try discriminate H; injection H as H.
  - apply vns_prefix in H as [-> ->]; done.
  - apply code_template_prefix in H as [-> ->]; done.
  - apply pk_prefix in H as [-> ->]; done.
Qed.

Lemma features_prefix : prefix_code features_ok features_serialize.
Proof.
  intros [v1 t1 m1 e1 s1 p1] [v2 t2 m2 e2 s2 p2] r s (U1 & E1 & S1) (U2 & E2 & S2) H. cbn in *. unfold features_serialize in H. cbn in H.
  rewrite <- !app_assoc in H. injection H as Hv Ht H. apply u64_prefix in H as [-> H]; [|done..]. apply vec_prefix in H as [-> H]; [|done..].
  apply (option_prefix _ _ sidechain_prefix) in H as [-> H]; [|done..]. cbn in H. injection H as Hp ->. split; [|done].
  assert (v1 = v2) as -> by (by destruct v1, v2). assert (t1 = t2) as -> by (by destruct t1, t2). assert (p1 = p2) as -> by (by destruct p1, p2). done.
Qed.

Lemma covenant_prefix c1 c2 b1 b2 r s : covenant_wf c1 -> covenant_wf c2 -> covenant_borsh_serialize c1 = Ok b1 -> covenant_borsh_serialize c2 = Ok b2 ->
  b1 ++ r = b2 ++ s -> c1 = c2 /\ r = s.
Proof.
  intros W1 W2 H1 H2 H. pose proof (covenant_borsh_roundtrip c1 r b1 W1 H1) as D1. pose proof (covenant_borsh_roundtrip c2 s b2 W2 H2) as D2.
  rewrite H, D2 in D1. by injection D1 as -> ->.
Qed.

(** ** Outputs *)

Definition output_ok (o : TransactionOutput) : Prop :=
  features_ok (out_features o) /\ script_ok (out_script o) /\ covenant_wf (out_covenant o) /\ length (out_encrypted_data o) = 80%nat /\
  is_u64 (out_minimum_value_promise o).

(** Two outputs that agree on what is hashed: all but the range proof and the metadata signature. *)
Definition same_contents (o1 o2 : TransactionOutput) : Prop :=
  out_version o1 = out_version o2 /\ out_features o1 = out_features o2 /\ out_commitment o1 = out_commitment o2 /\ out_script o1 = out_script o2 /\
  out_covenant o1 = out_covenant o2 /\ out_encrypted_data o1 = out_encrypted_data o2 /\
  out_sender_offset_public_key o1 = out_sender_offset_public_key o2 /\ out_minimum_value_promise o1 = out_minimum_value_promise o2.

(** What the digest of an output is taken of. *)
Definition output_preimage (o : TransactionOutput) (covenant : bytes) : bytes :=
  domain_tag TransactionHashDomain "transaction_output" ++
  concat [[output_version_as_u8 (out_version o)]; features_serialize (out_features o); com_serialize (out_commitment o);
          script_borsh_serialize (out_script o); covenant; out_encrypted_data o; pk_serialize (out_sender_offset_public_key o);
          u64_serialize (out_minimum_value_promise o)].

(** Two outputs with different preimages and the same digest. *)
Definition hash_collision (o1 o2 : TransactionOutput) : Prop := exists b1 b2,
  covenant_borsh_serialize (out_covenant o1) = Ok b1 /\ covenant_borsh_serialize (out_covenant o2) = Ok b2 /\
  output_preimage o1 b1 <> output_preimage o2 b2 /\ blake256 (output_preimage o1 b1) = blake256 (output_preimage o2 b2).

Lemma output_hash_binds {E1 E2} o1 o2 h : output_ok o1 -> output_ok o2 -> @output_hash _ _ _ E1 o1 = Ok h -> @output_hash _ _ _ E2 o2 = Ok h ->
  same_contents o1 o2 \/ hash_collision o1 o2.
Proof.
  intros (F1 & S1 & C1 & D1 & V1) (F2 & S2 & C2 & D2 & V2). unfold output_hash, hash_output, hash_collision.
  destruct (covenant_borsh_serialize (out_covenant o1)) as [b1| |] eqn:B1; [|done..]. destruct (covenant_borsh_serialize (out_covenant o2)) as [b2| |] eqn:B2; [|done..].
  cbn [expect mbind result_bind]. intros [= <-] [= H]. change (blake256 (output_preimage o2 b2) = blake256 (output_preimage o1 b1)) in H.
  destruct (decide (output_preimage o1 b1 = output_preimage o2 b2)) as [Heq|Hne]; [|right; by exists b1, b2].
  left. clear H. apply app_inj_1 in Heq as [_ H]; [|done]. cbn [concat] in H. apply (fixed_prefix 1) in H as [Hv H]; [|done..].
  apply features_prefix in H as [Hf H]; [|done..]. apply com_prefix in H as [Hc H]; [|done..]. apply script_prefix in H as [Hs H]; [|done..].
  destruct (covenant_prefix _ _ _ _ _ _ C1 C2 B1 B2 H) as [Hcov H']. clear H. rename H' into H. apply (fixed_prefix 80) in H as [He H]; [|done..]. apply pk_prefix in H as [Hk H]; [|done..].
  apply u64_prefix in H as [Hm _]; [|done..]. unfold same_contents. split_and!; try done. injection Hv as Hv. by destruct (out_version o1), (out_version o2).
Qed.

End Binding.
