(* ===== verification/MergeMining.v ===== *)
(** * Headers and merge mining: what is proved

    The hash of a header binds its fields but one, the merge mining data survive their encoding, and what a
    merge-mined header proves. *)

From S2P Require Import Prelude ScriptTypes Opcodes ScriptStack TariScript ScriptEncoding Amounts Difficulty ConsensusConstants Covenants TxComponents.
From S2P Require Import MoneroMerkle MoneroMerkleSpec BlockHeader OutputHash.

Local Open Scope Z_scope.

(** The documented behaviour of the [monero] crate: what was encoded is decoded and the rest is left; hashes have 32
    bytes; a merge mining tag that is appended to an extra field without padding is parsed. *)
Class MoneroLaws (ML : MoneroLib) : Prop := {
  monero_hash_laws :: MoneroHashLaws ML;
  monero_hash_roundtrip h rest : length h = 32%nat -> monero_hash_decode (monero_hash_encode h ++ rest) = Some (h, rest);
  monero_header_roundtrip h rest : monero_header_decode (monero_header_encode h ++ rest) = Some (h, rest);
  monero_tx_roundtrip t rest : monero_tx_decode (monero_tx_encode t ++ rest) = Some (t, rest);
  monero_tx_hash_length t : length (monero_tx_hash t) = 32%nat;
  monero_extra_tag t fields h :
    monero_tx_extra t = Some fields -> Forall (fun f => match f with Padding _ => False | _ => True end) fields -> length h = 32%nat ->
    monero_tx_extra (monero_tx_with_extra t (fields ++ [MergeMining (Some 0) h])) = Some (fields ++ [MergeMining (Some 0) h]);
}.

Section MergeMining.
Context {C : ScriptCrypto} {CL : ScriptCryptoLaws C} {B : BorshPrims C} {BL : BorshLaws B} {X : TxCrypto C} {XL : EncodingLaws X}.

(** ** The hash of a header *)

(** The values the fields of a header can have. *)
Record header_ok (h : BlockHeader) : Prop := {
  hk_version : 0 <= bh_version h <= U16_MAX;
  hk_height : is_u64 (bh_height h);
  hk_prev : length (bh_prev_hash h) = 32%nat;
  hk_timestamp : is_u64 (bh_timestamp h);
  hk_output_mr : length (bh_output_mr h) = 32%nat;
  hk_witness_mr : length (bh_witness_mr h) = 32%nat;
  hk_output_size : is_u64 (bh_output_mmr_size h);
  hk_kernel_mr : length (bh_kernel_mr h) = 32%nat;
  hk_kernel_size : is_u64 (bh_kernel_mmr_size h);
  hk_input_mr : length (bh_input_mr h) = 32%nat;
  hk_nonce : is_u64 (bh_nonce h);
  hk_pow : short (pw_data (bh_pow h));
}.

Definition with_validator_node_mr (mr : bytes) (h : BlockHeader) : BlockHeader :=
  {| bh_version := bh_version h; bh_height := bh_height h; bh_prev_hash := bh_prev_hash h; bh_timestamp := bh_timestamp h;
     bh_output_mr := bh_output_mr h; bh_witness_mr := bh_witness_mr h; bh_output_mmr_size := bh_output_mmr_size h;
     bh_kernel_mr := bh_kernel_mr h; bh_kernel_mmr_size := bh_kernel_mmr_size h; bh_input_mr := bh_input_mr h;
     bh_total_kernel_offset := bh_total_kernel_offset h; bh_total_script_offset := bh_total_script_offset h; bh_nonce := bh_nonce h;
     bh_pow := bh_pow h; bh_validator_node_mr := mr |}.

Definition with_pow (pow : ProofOfWork) (h : BlockHeader) : BlockHeader :=
  {| bh_version := bh_version h; bh_height := bh_height h; bh_prev_hash := bh_prev_hash h; bh_timestamp := bh_timestamp h;
     bh_output_mr := bh_output_mr h; bh_witness_mr := bh_witness_mr h; bh_output_mmr_size := bh_output_mmr_size h;
     bh_kernel_mr := bh_kernel_mr h; bh_kernel_mmr_size := bh_kernel_mmr_size h; bh_input_mr := bh_input_mr h;
     bh_total_kernel_offset := bh_total_kernel_offset h; bh_total_script_offset := bh_total_script_offset h; bh_nonce := bh_nonce h;
     bh_pow := pow; bh_validator_node_mr := bh_validator_node_mr h |}.

(** What is hashed. *)
Definition mining_preimage (h : BlockHeader) : bytes :=
  domain_tag BlocksHashDomain "block_header" ++ concat
    [u16_serialize (bh_version h); u64_serialize (bh_height h); bh_prev_hash h; u64_serialize (bh_timestamp h);
     bh_input_mr h; bh_output_mr h; u64_serialize (bh_output_mmr_size h); bh_witness_mr h; bh_kernel_mr h;
     u64_serialize (bh_kernel_mmr_size h); sk_serialize (bh_total_kernel_offset h); sk_serialize (bh_total_script_offset h)].

Definition header_preimage (h : BlockHeader) : bytes :=
  domain_tag BlocksHashDomain "block_header" ++ concat [bh_mining_hash h; pow_serialize (bh_pow h); u64_serialize (bh_nonce h)].

Definition header_collision (h1 h2 : BlockHeader) : Prop :=
  header_preimage h1 <> header_preimage h2 /\ blake256 (header_preimage h1) = blake256 (header_preimage h2) \/
  mining_preimage h1 <> mining_preimage h2 /\ blake256 (mining_preimage h1) = blake256 (mining_preimage h2).

Lemma pow_prefix : prefix_code (fun p => short (pw_data p)) pow_serialize.
Proof.
  intros [a1 d1] [a2 d2] r s H1 H2 H. unfold pow_serialize in H. cbn in *. injection H as Ha H.
  apply vec_prefix in H as [-> ->]; [|done..]. split; [|done]. by destruct a1, a2.
Qed.

Lemma mining_preimage_inj h1 h2 : header_ok h1 -> header_ok h2 -> mining_preimage h1 = mining_preimage h2 ->
  bh_pow h1 = bh_pow h2 -> bh_nonce h1 = bh_nonce h2 -> with_validator_node_mr (bh_validator_node_mr h1) h2 = h1.
Proof.
  intros [] [] H Hpow Hnonce. apply app_inj_1 in H as [_ H]; [|done]. cbn [concat] in H.
  apply u16_prefix in H as [Hv H]; [|done..]. apply u64_prefix in H as [Hh H]; [|done..]. apply (fixed_prefix 32) in H as [Hp H]; [|done..].
  apply u64_prefix in H as [Ht H]; [|done..]. apply (fixed_prefix 32) in H as [Hi H]; [|done..]. apply (fixed_prefix 32) in H as [Ho H]; [|done..].
  apply u64_prefix in H as [Hos H]; [|done..]. apply (fixed_prefix 32) in H as [Hw H]; [|done..]. apply (fixed_prefix 32) in H as [Hk H]; [|done..].
  apply u64_prefix in H as [Hks H]; [|done..]. apply sk_prefix in H as [Htk H]; [|done..]. apply sk_prefix in H as [Hts _]; [|done..].
  unfold with_validator_node_mr. destruct h1, h2. cbn in *. by subst.
Qed.

(** C31: two headers with the same hash ([BlockHeader::hash]) agree on every field except the Merkle root of the
    validator nodes, unless the digest of the headers, or that of their mining hashes, collides. *)
Theorem header_hash_binds h1 h2 : header_ok h1 -> header_ok h2 -> bh_hash h1 = bh_hash h2 ->
  with_validator_node_mr (bh_validator_node_mr h1) h2 = h1 \/ header_collision h1 h2.
Proof.
  intros Hok1 Hok2 H. change (blake256 (header_preimage h1) = blake256 (header_preimage h2)) in H.
  destruct (decide (header_preimage h1 = header_preimage h2)) as [Hp|Hne]; [|by right; left].
  pose proof Hp as Hp'. apply app_inj_1 in Hp' as [_ Hp']; [|done]. cbn [concat] in Hp'.
  apply (fixed_prefix 32) in Hp' as [Hm Hp']; [|apply blake256_length..]. apply pow_prefix in Hp' as [Hpow Hp']; [|by apply hk_pow..].
  apply u64_prefix in Hp' as [Hn _]; [|by apply hk_nonce..].
  destruct (decide (mining_preimage h1 = mining_preimage h2)) as [Hmp|Hne]; [|by right; right].
  left. by apply mining_preimage_inj.
Qed.

(** The hash of a header does not depend on the Merkle root of the validator nodes, and neither do its mining
    hash and the difficulty of its proof of work: the root can be replaced in a mined header. *)
Theorem header_hash_ignores_validator_node_mr `{U256Ops} {ML : MoneroLib} h mr :
  bh_hash (with_validator_node_mr mr h) = bh_hash h /\ bh_mining_hash (with_validator_node_mr mr h) = bh_mining_hash h /\
  @sha3x_difficulty _ _ _ MergeMineError _ (with_validator_node_mr mr h) = sha3x_difficulty h /\
  monero_difficulty (with_validator_node_mr mr h) = monero_difficulty h.
Proof. done. Qed.

(** ** Encoding of the merge mining data *)

Context {ML : MoneroLib} {MLL : MoneroLaws ML}.

Record proof_ok (p : MerkleProof) : Prop := {
  pk_branch : Forall hash_sized (mp_branch p);
  pk_count : 32 * Z.of_nat (length (mp_branch p)) <= I64_MAX;
  pk_depth : 0 <= mp_depth p <= U16_MAX;
  pk_path : 0 <= mp_path_bitmap p <= U32_MAX;
}.

Record data_ok (d : MoneroPowData) : Prop := {
  dk_key : (length (md_randomx_key d) <= 63)%nat;
  dk_count : 0 <= md_transaction_count d <= U16_MAX;
  dk_root : hash_sized (md_merkle_root d);
  dk_proof : proof_ok (md_coinbase_merkle_proof d);
}.

Lemma read_bytes_app b rest : read_bytes (length b) (b ++ rest) = Ok (b, rest).
Proof. induction b as [|x b IH]; cbn; [done|]. by rewrite IH. Qed.

Lemma fixed_roundtrip b rest : (length b <= 63)%nat -> fixed_deserialize (fixed_serialize b ++ rest) = Ok (b, rest).
Proof.
  intros Hb. unfold fixed_deserialize, fixed_serialize, fixed_from_bytes, MAX_ARR_SIZE. cbn [read_u8 app mbind result_bind].
  destruct (Z.ltb_spec 63 (Z.of_nat (length b))) as [|_]; [lia|]. rewrite Nat2Z.id, read_bytes_app. cbn [mbind result_bind].
  destruct (Z.ltb_spec 63 (Z.of_nat (length b))) as [|_]; [lia|]. done.
Qed.

Lemma read_hashes_app hs rest : Forall hash_sized hs -> read_hashes (length hs) (concat (map monero_hash_encode hs) ++ rest) = Ok (hs, rest).
Proof.
  induction 1 as [|h hs Hh _ IH]; cbn; [done|]. rewrite <- app_assoc, monero_hash_roundtrip by done. cbn. by rewrite IH.
Qed.

Lemma merkle_proof_roundtrip p rest : proof_ok p -> merkle_proof_deserialize (merkle_proof_serialize p ++ rest) = Ok (p, rest).
Proof.
  intros [Hb Hc Hd Hp]. unfold merkle_proof_deserialize, merkle_proof_serialize. rewrite <- !app_assoc.
  rewrite varint_roundtrip by (unfold is_u64, U64_MAX, I64_MAX in *; lia). cbn [ok_or mbind result_bind].
  destruct (Z.ltb_spec I64_MAX (32 * Z.of_nat (length (mp_branch p)))) as [|_]; [lia|].
  rewrite Nat2Z.id, read_hashes_app by done. cbn [mbind result_bind]. rewrite u16_borsh by done. cbn [ok_or mbind result_bind].
  rewrite u32_borsh by done. cbn [ok_or mbind result_bind]. by destruct p.
Qed.

Lemma monero_data_roundtrip d rest : data_ok d -> monero_data_deserialize (monero_data_serialize d ++ rest) = Ok (d, rest).
Proof.
  intros [Hk Hc Hr Hp]. unfold monero_data_deserialize, monero_data_serialize. rewrite <- !app_assoc.
  rewrite monero_header_roundtrip. cbn [ok_or mbind result_bind]. rewrite fixed_roundtrip by done. cbn [mbind result_bind].
  rewrite u16_borsh by done. cbn [ok_or mbind result_bind]. rewrite monero_hash_roundtrip by done. cbn [ok_or mbind result_bind].
  rewrite merkle_proof_roundtrip by done. cbn [mbind result_bind]. rewrite monero_tx_roundtrip. cbn [ok_or mbind result_bind].
  by destruct d.
Qed.

(** The proof of work of a merge-mined header; more bytes may follow the data. *)
Definition mined (h : BlockHeader) (d : MoneroPowData) (rest : bytes) : BlockHeader :=
  with_pow {| pw_algo := Monero; pw_data := monero_data_serialize d ++ rest |} h.

Lemma mined_from_header h d rest : data_ok d -> from_header (mined h d rest) = Ok d.
Proof. intros Hd. unfold from_header. cbn [bh_pow mined with_pow pw_data]. by rewrite monero_data_roundtrip. Qed.

Lemma tag_found hash fields : MergeMining (Some 0) hash ∈ fields -> existsb (is_tag hash) fields = true.
Proof.
  intros Ht. apply existsb_exists. exists (MergeMining (Some 0) hash). split; [by apply list_elem_of_In|]. cbn. by apply bool_decide_eq_true.
Qed.

Lemma verify_mined h d rest fields :
  data_ok d -> monero_tx_extra (md_coinbase_tx d) = Some fields -> MergeMining (Some 0) (bh_mining_hash h) ∈ fields ->
  @is_valid_merkle_root _ MergeMineError d = Ok true -> verify_header (mined h d rest) = Ok d.
Proof.
  intros Hd Hf Ht Hv. unfold verify_header. rewrite mined_from_header by done. cbn [mbind result_bind]. rewrite Hf. cbn [ok_or mbind result_bind].
  change (bh_mining_hash (mined h d rest)) with (bh_mining_hash h).
  by rewrite tag_found, Hv.
Qed.

(** ** What a merge-mined header proves *)

(** C22: the work of one Monero block counts for every Tari header. From the merge mining data [d] of any Monero block,
    and any Monero transaction whose extra field has the tag of a Tari header [h], merge mining data are made that
    [verify_header] accepts for [h], whatever bytes follow them, and whose difficulty is that of the Monero block: a
    Merkle proof of depth zero is checked against the root only ([calculate_root] returns the first hash of the
    branch), so the transaction need not be part of the Monero block. *)
Theorem monero_work_reusable `{U256Ops} h d tx fields rest :
  data_ok d -> monero_tx_extra tx = Some fields -> MergeMining (Some 0) (bh_mining_hash h) ∈ fields ->
  let forged := {| md_header := md_header d; md_randomx_key := md_randomx_key d; md_transaction_count := md_transaction_count d;
                   md_merkle_root := md_merkle_root d;
                   md_coinbase_merkle_proof := {| mp_branch := [md_merkle_root d]; mp_depth := 0; mp_path_bitmap := 0 |};
                   md_coinbase_tx := tx |} in
  verify_header (mined h forged rest) = Ok forged /\
  monero_difficulty (mined h forged rest) = get_random_x_difficulty (to_blockhashing_blob d) (md_randomx_key d).
Proof.
  intros Hd Hf Ht forged. assert (verify_header (mined h forged rest) = Ok forged) as Hv.
  { apply (verify_mined _ _ _ fields); [|done|done|].
    - destruct Hd as [Hk Hc Hr _]. split; [done|done|done|]. split; cbn; [by constructor|unfold I64_MAX; lia|unfold U16_MAX; lia|unfold U32_MAX; lia].
    - unfold is_valid_merkle_root. cbn. by rewrite bool_decide_true. }
  split; [done|]. unfold monero_difficulty. by rewrite Hv.
Qed.

(** A proof that its branch or its bitmap is too short for. *)
Definition malformed (p : MerkleProof) : Prop :=
  mp_branch p = [] \/ Z.of_nat (length (mp_branch p)) < mp_depth p \/ 32 < mp_depth p.

Lemma calculate_root_malformed {E} p h : 0 <= mp_depth p -> malformed p -> @calculate_root _ E p h = Panic.
Proof.
  intros Hd Hm. destruct (calculate_root p h) as [r|e|] eqn:Hr; [exfalso|exfalso|done].
  - destruct (decide (mp_depth p = 0)) as [Hz|Hz].
    + unfold calculate_root in Hr. rewrite Hz in Hr. cbn in Hr. apply unwrap_Ok in Hr. unfold malformed in Hm. destruct (mp_branch p); [done|]. rewrite Hz in Hm. destruct Hm as [Hm|[Hm|Hm]]; [done|lia|lia].
    + pose proof Hr as Hr'. apply calculate_root_Ok in Hr' as [_ Hl]; [|done|done].
      destruct Hm as [Hm|[Hm|Hm]]; [rewrite Hm in Hl; cbn in Hl; lia|lia|].
      unfold calculate_root in Hr. destruct (Z.eqb_spec (mp_depth p) 0); [lia|].
      destruct (Z.to_nat (mp_depth p)) as [|n'] eqn:Hn; [lia|]. cbn [seq foldM] in Hr.
      apply bind_Ok_iff in Hr as (r1 & (bits & Hb & _)%bind_Ok_iff & _). unfold shr_u32 in Hb.
      destruct (Z.ltb_spec (mp_depth p - Z.of_nat 0 - 1) 32); [lia|]. done.
  - unfold calculate_root in Hr. destruct (mp_depth p =? 0); [unfold index in Hr; by destruct (mp_branch p !! 0%nat)|].
    revert Hr. generalize (seq 0 (Z.to_nat (mp_depth p))) as l, h as r. induction l as [|i l IH]; intros r; cbn [foldM]; [done|].
    intros [Hr|(r1 & _ & Hr)]%bind_Err_iff; [|by apply IH in Hr].
    apply bind_Err_iff in Hr as [Hr|(bits & _ & [Hr|(sib & _ & Hr)]%bind_Err_iff)].
    + unfold shr_u32 in Hr. by destruct (_ - _ - 1 <? 32).
    + unfold index in Hr. by destruct (mp_branch p !! i).
    + by destruct (0 <? Z.land bits 1).
Qed.

(** Merge mining data with the tag of the header and a malformed Merkle proof, an empty branch, fewer hashes than
    the depth, or a depth above 32, are read without an error, and [verify_header] panics on them, so the computation of
    the difficulty does, whatever the proof of work. *)
Theorem malformed_merkle_proof_panics `{U256Ops} h d fields rest :
  data_ok d -> monero_tx_extra (md_coinbase_tx d) = Some fields -> MergeMining (Some 0) (bh_mining_hash h) ∈ fields ->
  malformed (md_coinbase_merkle_proof d) ->
  from_header (mined h d rest) = Ok d /\ verify_header (mined h d rest) = Panic /\ monero_difficulty (mined h d rest) = Panic.
Proof.
  intros Hd Hf Ht Hm. split; [by apply mined_from_header|]. assert (verify_header (mined h d rest) = Panic) as Hv.
  { unfold verify_header. rewrite mined_from_header by done. cbn [mbind result_bind]. rewrite Hf. cbn [mbind result_bind ok_or].
    change (bh_mining_hash (mined h d rest)) with (bh_mining_hash h). rewrite tag_found by done.
    unfold is_valid_merkle_root. rewrite calculate_root_malformed; [done| |done]. apply (pk_depth _ (dk_proof _ Hd)). }
  split; [done|]. unfold monero_difficulty. by rewrite Hv.
Qed.

(** ** Honest merge mining *)

Lemma created_proof_ok hashes t p : Z.of_nat (length hashes) <= 2 ^ 28 -> Forall hash_sized hashes ->
  create_merkle_proof hashes t = Ok (Some p) -> proof_ok p.
Proof.
  intros Hl Hf Hp. destruct hashes as [|a [|b [|d hs]]] eqn:He; [done|..].
  - cbn in Hp. rewrite Forall_cons in Hf. destruct Hf as [Ha _]. destruct (decide (a = t)); [|done]. injection Hp as <-.
    split; cbn; [by constructor|unfold I64_MAX; lia|unfold U16_MAX; lia|unfold U32_MAX; lia].
  - cbn in Hp. rewrite !Forall_cons in Hf. destruct Hf as (Ha & Hb & _).
    destruct (decide (a = t)); [|destruct (decide (b = t)); [|done]]; injection Hp as <-;
      (split; cbn; [by constructor|unfold I64_MAX; lia|unfold U16_MAX; lia|unfold U32_MAX; lia]).
  - rewrite <- He in *. destruct (tree_shape_exists hashes) as (k & c & Hs); [subst; cbn [length] in *; lia|].
    destruct (position (fun node => bool_decide (node = t)) hashes) as [idx|] eqn:Hpos.
    2:{ unfold create_merkle_proof in Hp. rewrite He in Hp at 1. by rewrite Hpos in Hp. }
    rewrite (create_merkle_proof_spec _ _ _ _ _ Hs Hpos) in Hp. injection Hp as <-.
    pose proof (lookup_lt_Some _ _ _ (position_hash _ _ _ Hpos)) as Hlt. pose proof (length_leaf_steps k c hashes idx). pose proof (ts_k _ _ _ Hs).
    pose proof (path_of_bound (leaf_steps k c hashes idx).*2) as Hb. rewrite length_fmap in Hb.
    assert (2 ^ Z.of_nat (length (leaf_steps k c hashes idx)) <= 2 ^ 28) by (apply Z.pow_le_mono_r; lia).
    split; cbn [proof_of mp_branch mp_depth mp_path_bitmap]; rewrite ?length_fmap.
    + by apply leaf_steps_sized.
    + unfold I64_MAX. lia.
    + unfold U16_MAX. lia.
    + unfold U32_MAX. lia.
Qed.

(** The merge mining data of a Monero block: they are made, they fit the encoding, and their Merkle proof is valid. *)
Lemma construct_monero_data_ok block seed : Z.of_nat (length (mb_tx_hashes block)) < 2 ^ 28 -> Forall hash_sized (mb_tx_hashes block) ->
  (length seed <= 63)%nat -> exists d root, construct_monero_data block seed = Ok d /\ tree_hash (create_ordered_transaction_hashes_from_block block) = Ok root /\
    data_ok d /\ @is_valid_merkle_root _ MergeMineError d = Ok true /\ md_header d = mb_header block /\ md_randomx_key d = seed /\
    md_transaction_count d = Z.of_nat (S (length (mb_tx_hashes block))) mod 2 ^ 16 /\ md_merkle_root d = root /\ md_coinbase_tx d = mb_miner_tx block.
Proof.
  intros Hl Hf Hs. unfold construct_monero_data. set (hashes := create_ordered_transaction_hashes_from_block block).
  assert (Forall hash_sized hashes) as Hh by (constructor; [apply monero_tx_hash_length|done]).
  assert (Z.of_nat (length hashes) <= 2 ^ 28) as Hn by (unfold hashes; cbn [length create_ordered_transaction_hashes_from_block]; lia).
  destruct (created_proof_verifies hashes (monero_tx_hash (mb_miner_tx block))) as (p & root & Hp & Hr & Hv); [by left|done|].
  rewrite Hr. cbn [mbind result_bind]. change (index hashes 0) with (@Ok MergeMineError _ (monero_tx_hash (mb_miner_tx block))). cbn [mbind result_bind].
  rewrite Hp. cbn [mbind result_bind ok_or]. eexists _, root. split; [done|]. split; [done|].
  split; [|split; [|done]].
  - split; cbn [md_randomx_key md_transaction_count md_merkle_root md_coinbase_merkle_proof]; [done| |by apply (tree_hash_sized hashes)|by apply (created_proof_ok hashes (monero_tx_hash (mb_miner_tx block)))].
    pose proof (Z.mod_pos_bound (Z.of_nat (length hashes)) (2 ^ 16)). unfold U16_MAX. lia.
  - unfold is_valid_merkle_root. cbn [md_coinbase_merkle_proof md_coinbase_tx md_merkle_root]. rewrite Hv. cbn. by rewrite bool_decide_true.
Qed.

(** C21: honest merge mining succeeds. When the mining hash of a Tari header is appended to the coinbase of a Monero
    block with fewer than [2^16 - 1] transactions besides the coinbase, whose extra field is read and has no padding, the merge mining data of that block ([construct_monero_data]) are
    made, their encoding in the header is read back and accepted by [verify_header], and the difficulty of the header is
    that of the Monero block's hashing blob under the RandomX key, which has at most 63 bytes. The number of transactions of a larger block is truncated in the blob. *)
Theorem merge_mining_complete `{U256Ops} h block fields seed :
  monero_tx_extra (mb_miner_tx block) = Some fields -> Forall (fun f => match f with Padding _ => False | _ => True end) fields ->
  Z.of_nat (length (mb_tx_hashes block)) < U16_MAX -> Forall hash_sized (mb_tx_hashes block) -> (length seed <= 63)%nat ->
  exists tagged d blob, append_merge_mining_tag block (bh_mining_hash h) = Ok tagged /\ construct_monero_data tagged seed = Ok d /\
    create_blockhashing_blob_from_block tagged = Ok blob /\ verify_header (mined h d []) = Ok d /\
    monero_difficulty (mined h d []) = get_random_x_difficulty blob seed.
Proof.
  intros Hx Hpad Hl Hf Hs. unfold append_merge_mining_tag. rewrite decide_True by apply blake256_length. rewrite Hx. cbn [ok_or mbind result_bind].
  set (tagged := {| mb_header := _; mb_miner_tx := _; mb_tx_hashes := _ |}).
  destruct (construct_monero_data_ok tagged seed) as (d & root & Hd & Hr & Hok & Hv & Hmh & Hmk & Hmc & Hmr & Hmt); [cbn; unfold U16_MAX in Hl; lia|done|done|].
  assert (verify_header (mined h d []) = Ok d) as Hver.
  { eapply verify_mined; [done|rewrite Hmt; apply monero_extra_tag; [done|done|apply blake256_length]|set_solver|done]. }
  eexists tagged, d, _. split; [done|]. split; [done|]. unfold create_blockhashing_blob_from_block. rewrite Hr. cbn [mbind result_bind].
  split; [done|]. split; [done|]. unfold monero_difficulty. rewrite Hver. cbn [mbind result_bind]. rewrite Hmk. f_equal.
  unfold to_blockhashing_blob. rewrite Hmh, Hmr, Hmc. do 2 f_equal. cbn [length create_ordered_transaction_hashes_from_block].
  apply Z.mod_small. unfold U16_MAX in Hl. cbn [mb_tx_hashes tagged]. lia.
Qed.

End MergeMining.
