(* ===== verification/BodyValidatorSpec.v ===== *)
(** * What validated bodies spend, burn and allow

    Consequences of the validators of [BodyValidator]: no output is spent twice or out of nothing, burned
    outputs and burn kernels match, and the covenants of the spent outputs hold. *)

From Stdlib Require Import Sorted ListDec.
From S2P Require Import Prelude ScriptTypes Opcodes ScriptStack TariScript ScriptEncoding Amounts Emission ConsensusConstants ConsensusManager.
From S2P Require Import Covenants TxComponents CovenantFilters CovenantSpec AggregatedBody BodyValidator BodyBalance OutputHash.

Local Open Scope Z_scope.

Section Spec.
Context {C : ScriptCrypto} {CL : ScriptCryptoLaws C} {B : BorshPrims C} {BL : BorshLaws B} {X : TxCrypto C} {L : TxLaws X} {XL : EncodingLaws X}.

(** ** Sorted without duplicates *)

Section SortedKeys.
Context {A K : Type} (cmp : A -> A -> result ValidationError comparison) (key : A -> K -> Prop) (kcmp : K -> K -> comparison).
Hypothesis Hcmp : forall a b ka kb, key a ka -> key b kb -> cmp a b = Ok (kcmp ka kb).
Hypothesis kcmp_refl : forall k, kcmp k k = Eq.
Hypothesis kcmp_trans : forall a b c, kcmp a b = Gt -> kcmp b c = Gt -> kcmp a c = Gt.

Lemma ascending_from_sorted items ks prev k : Forall2 key items ks -> key prev k -> ascending_from cmp prev items = Ok true ->
  Forall (fun k' => kcmp k' k = Gt) ks /\ NoDup ks.
Proof.
  intros Hf. revert prev k. induction Hf as [|i k' items ks Hi _ IH]; intros prev k Hk H; [split; constructor|]. cbn in H.
  rewrite (Hcmp i prev k' k Hi Hk) in H. cbn in H. destruct (kcmp k' k) eqn:Hc; try done. destruct (IH i k' Hi H) as [Hall Hnd]. split.
  - constructor; [done|]. eapply Forall_impl; [exact Hall|]. intros x Hx. exact (kcmp_trans _ _ _ Hx Hc).
  - constructor; [|done]. intros Hin. rewrite Forall_forall in Hall. specialize (Hall _ Hin). by rewrite kcmp_refl in Hall.
Qed.

Lemma sorted_NoDup items ks : Forall2 key items ks -> is_all_unique_and_sorted cmp items = Ok true -> NoDup ks.
Proof.
  intros [|i k items' ks' Hi Hf] H; [constructor|]. cbn in H. destruct (ascending_from_sorted _ _ _ _ Hf Hi H) as [Hall Hnd].
  constructor; [|done]. intros Hin. rewrite Forall_forall in Hall. specialize (Hall _ Hin). by rewrite kcmp_refl in Hall.
Qed.

End SortedKeys.

Lemma bytes_gt_trans a b c : bytes_compare a b = Gt -> bytes_compare b c = Gt -> bytes_compare a c = Gt.
Proof.
  intros H1 H2. rewrite bytes_compare_antisym in *. assert (bytes_lt c a) as H; [|by rewrite H].
  apply (bytes_lt_trans _ b); unfold bytes_lt.
  - by destruct (bytes_compare c b).
  - by destruct (bytes_compare b a).
Qed.

Lemma check_sorting_Ok body : check_sorting_and_duplicates body = Ok tt ->
  is_all_unique_and_sorted compare_inputs (inputs body) = Ok true /\ is_all_unique_and_sorted compare_outputs (outputs body) = Ok true /\
  is_all_unique_and_sorted compare_kernels (kernels body) = Ok true.
Proof.
  unfold check_sorting_and_duplicates. destruct (is_all_unique_and_sorted compare_inputs _) as [[]| |]; [|done..]. cbn.
  destruct (is_all_unique_and_sorted compare_outputs _) as [[]| |]; [|done..]. cbn.
  destruct (is_all_unique_and_sorted compare_kernels _) as [[]| |]; done.
Qed.

Lemma sorted_inputs_NoDup body hashes : check_sorting_and_duplicates body = Ok tt ->
  Forall2 (fun i h => @input_output_hash _ _ _ ValidationError i = Ok h) (inputs body) hashes -> NoDup hashes.
Proof.
  intros (H & _ & _)%check_sorting_Ok Hf. eapply (sorted_NoDup compare_inputs _ bytes_compare); [| |apply bytes_gt_trans|exact Hf|exact H].
  - intros a b ka kb Ha Hb. unfold compare_inputs. by rewrite Ha, Hb.
  - intros k. by apply bytes_compare_eq.
Qed.

Lemma Forall2_map_self {A K} (f : A -> K) l : Forall2 (fun a k => f a = k) l (map f l).
Proof. induction l; constructor; done. Qed.

Lemma sorted_outputs_NoDup body : check_sorting_and_duplicates body = Ok tt -> NoDup (map out_commitment (outputs body)).
Proof.
  intros (_ & H & _)%check_sorting_Ok. eapply (sorted_NoDup compare_outputs _ com_compare); [|apply com_compare_refl|apply com_compare_trans|apply Forall2_map_self|exact H].
  by intros a b ? ? <- <-.
Qed.

Lemma sorted_kernels_NoDup body : check_sorting_and_duplicates body = Ok tt -> NoDup (map k_excess_sig (kernels body)).
Proof.
  intros (_ & _ & H)%check_sorting_Ok. eapply (sorted_NoDup compare_kernels _ sig_compare); [|apply sig_compare_refl|apply sig_compare_trans|apply Forall2_map_self|exact H].
  by intros a b ? ? <- <-.
Qed.

(** ** Burned outputs *)

Lemma remove_burned_all ks l l' : NoDup l -> foldM remove_burned ks l = Ok l' ->
  exists cs, map k_burn_commitment (filter (fun k => kernel_is_burned k = true) ks) = map Some cs /\ l ≡ₚ cs ++ l'.
Proof.
  revert l. induction ks as [|k ks IH]; intros l Hnd H; cbn [foldM] in H; [injection H as <-; by exists []|].
  destruct (remove_burned l k) as [l1| |] eqn:Hr; [|done..]. cbn [mbind result_bind] in H. unfold remove_burned in Hr. rewrite filter_cons.
  destruct (kernel_is_burned k) eqn:Hb; [|rewrite decide_False by done; injection Hr as <-; by apply IH]. rewrite decide_True by done.
  unfold get_burn_commitment in Hr. destruct (k_burn_commitment k) as [c|] eqn:Hc; [|done]. cbn in Hr. case_bool_decide as Hin; [|done]. injection Hr as <-.
  apply IH in H; [|by apply NoDup_filter]. destruct H as (cs & Hcs & Hp). exists (c :: cs). split; [cbn; by rewrite Hc, Hcs|]. cbn. rewrite <- Hp.
  apply NoDup_Permutation; [done|constructor; [|by apply NoDup_filter]; intros Hx; by apply list_elem_of_filter in Hx as [? _]|].
  intros x. rewrite elem_of_cons, list_elem_of_filter. destruct (decide (x = c)); naive_solver.
Qed.

(** In a validated body the burn kernels name exactly the commitments of the burned outputs, each
    once. *)
Theorem burned_outputs_matched iv body offset script_offset reward prev_header height :
  internal_validate iv body offset script_offset reward prev_header height = Ok tt ->
  map k_burn_commitment (filter (fun k => kernel_is_burned k = true) (kernels body)) ≡ₚ
  map (fun o => Some (out_commitment o)) (filter (fun o => output_is_burned o = true) (outputs body)).
Proof.
  intros [constants H]%internal_validate_iff. pose proof (sorted_outputs_NoDup _ (iv_sorted _ _ _ _ _ _ _ _ H)) as Hnd.
  pose proof (iv_burned _ _ _ _ _ _ _ _ H) as Hb. unfold check_total_burned in Hb. destruct (foldM _ _ _) as [l| |] eqn:Hf; [|done..]. cbn in Hb.
  case_bool_decide as Hl; [|done]. subst l. apply remove_burned_all in Hf as (cs & Hcs & Hp).
  - rewrite app_nil_r in Hp. rewrite Hcs, <- (map_map out_commitment Some). apply (Permutation_map Some). by symmetry.
  - eapply sublist_NoDup; [exact Hnd|]. apply (fmap_sublist out_commitment), sublist_filter.
Qed.

(** ** Spent outputs *)

(** The output an input carries the data of. *)
Definition as_output (i : TransactionInput) : option TransactionOutput :=
  match spent_output i with
  | OutputHash _ => None
  | OutputData v f c s k cov e m =>
      Some {| out_version := v; out_features := f; out_commitment := c; out_proof := None; out_script := s; out_sender_offset_public_key := k;
              out_metadata_signature := script_signature i; out_covenant := cov; out_encrypted_data := e; out_minimum_value_promise := m |}
  end.

Lemma as_output_hash {E} i o : as_output i = Some o -> @input_output_hash _ _ _ E i = output_hash o /\ in_commitment i = Ok (out_commitment o).
Proof. unfold as_output, input_output_hash, in_commitment. destruct (spent_output i); [done|]. by intros [= <-]. Qed.

Lemma in_commitment_as_output i c : in_commitment i = Ok c -> exists o, as_output i = Some o /\ out_commitment o = c.
Proof. unfold as_output, in_commitment. destruct (spent_output i); [done|]. intros [= <-]. by eexists. Qed.

Section Chain.
Context {db : BlockchainBackend}.

(** The index of unspent outputs by commitment leads to stored outputs with that hash. *)
Definition utxo_index_ok : Prop := forall c h, fetch_unspent_output_hash_by_commitment c = Some (Some h) ->
  exists o, fetch_output h = Some (Some (NotPruned o)) /\ @output_hash _ _ _ ValidationError o = Ok h /\ output_ok o.

(** The output of the UTXO set with a given commitment. *)
Definition unspent (c : PedersenCommitment) (o : TransactionOutput) : Prop := exists h,
  fetch_unspent_output_hash_by_commitment c = Some (Some h) /\ fetch_output h = Some (Some (NotPruned o)).

(** What the chain knows of an accepted input. *)
Definition known_input (body : TxBody) (i : TransactionInput) : Prop := exists h,
  @input_output_hash _ _ _ ValidationError i = Ok h /\
  ((exists c, in_commitment i = Ok c /\ fetch_unspent_output_hash_by_commitment c = Some (Some h)) \/
   exists o, o ∈ outputs body /\ @output_hash _ _ _ ValidationError o = Ok h).

Lemma check_input_is_utxo_Ok i : check_input_is_utxo i = Ok tt -> exists h c, @input_output_hash _ _ _ ValidationError i = Ok h /\
  in_commitment i = Ok c /\ fetch_unspent_output_hash_by_commitment c = Some (Some h).
Proof.
  unfold check_input_is_utxo. intros H. destruct (input_output_hash i) as [h| |]; [|done..]. cbn in H. destruct (in_commitment i) as [c| |]; [|done..]. cbn in H.
  destruct (fetch_unspent_output_hash_by_commitment c) as [[u|]|] eqn:Hu; [| |done]; cbn in H.
  - case_bool_decide as Heq; [subst u; by exists h, c|]. by destruct (fetch_output u).
  - destruct (fetch_output h) as [[]|]; done.
Qed.

Lemma find_unknown_step body acc i acc' : find_unknown body acc i = Ok acc' -> (acc' = acc /\ known_input body i) \/ exists h, acc' = acc ++ [h].
Proof.
  unfold find_unknown. destruct (check_input_is_utxo i) as [[]|e|] eqn:Hc; [| |done].
  - intros [= <-]. left. split; [done|]. apply check_input_is_utxo_Ok in Hc as (h & c & Hh & Hcm & Hu). exists h. split; [done|]. left. by exists c.
  - destruct e; try done. intros H. destruct (mapM output_hash (outputs body)) as [hs| |] eqn:Hm; [|done..]. cbn in H.
    destruct (input_output_hash i) as [h| |] eqn:Hh; [|done..]. cbn in H. case_bool_decide as Hin; injection H as <-; [left|right; by eexists].
    split; [done|]. exists h. split; [done|]. right. apply mapM_Ok_Forall2 in Hm. apply list_elem_of_lookup in Hin as [n Hn].
    destruct (Forall2_lookup_r _ _ _ _ _ Hm Hn) as (o & Ho & Hoh). exists o. split; [by eapply list_elem_of_lookup_2|done].
Qed.

Lemma find_unknown_all body ins acc : foldM (find_unknown body) ins acc = Ok [] -> acc = [] /\ Forall (known_input body) ins.
Proof.
  revert acc. induction ins as [|i ins IH]; intros acc H; cbn [foldM] in H; [by injection H as ->|].
  destruct (find_unknown body acc i) as [acc'| |] eqn:Hs; [|done..]. apply IH in H as [-> Hf].
  apply find_unknown_step in Hs as [[<- Hk]|[h Hh]]; [by split; [|constructor]|]. by destruct acc.
Qed.

Lemma resolve_full ins cs ins' : mapM in_commitment ins = Ok cs -> mapM resolve_input ins = Ok ins' -> ins' = ins.
Proof.
  rewrite !mapM_Ok_Forall2. intros Hc. revert ins'. induction Hc as [|i c ins cs Hi _ IH]; intros ins' Hr; [by apply Forall2_nil_inv_l in Hr as ->|].
  apply Forall2_cons_inv_l in Hr as (i' & r & Hi' & Hr & ->). rewrite (IH r Hr). f_equal. unfold resolve_input, is_compact in Hi'. unfold in_commitment in Hi.
  destruct (spent_output i); [done|]. by injection Hi' as <-.
Qed.

(** Outputs and kernels that are not in the chain yet. *)
Definition new_output (o : TransactionOutput) : Prop := exists h, @output_hash _ _ _ ValidationError o = Ok h /\
  fetch_utxo_mmr_leaf_index h = Some None /\ fetch_unspent_output_hash_by_commitment (out_commitment o) = Some None.

Definition new_kernel (k : TransactionKernel) : Prop := fetch_kernel_by_excess_sig (k_excess_sig k) = Some None.

Lemma check_not_duplicate_Ok o : check_not_duplicate_txo o = Ok tt -> new_output o.
Proof.
  unfold check_not_duplicate_txo, new_output. intros H. destruct (output_hash o) as [h| |]; [|done..]. cbn in H. exists h. split; [done|].
  destruct (fetch_utxo_mmr_leaf_index h) as [[]|]; try done. cbn in H. destruct (fetch_unspent_output_hash_by_commitment _) as [[]|]; done.
Qed.

Lemma chain_validate_Ok manager body height body' : chain_validate manager body height = Ok body' ->
  mapM resolve_input (inputs body) = Ok (inputs body') /\ outputs body' = outputs body /\ kernels body' = kernels body /\
  Forall (known_input body') (inputs body') /\ Forall new_output (outputs body) /\ Forall new_kernel (kernels body).
Proof.
  unfold chain_validate, validate_input_and_maturity, validate_input_not_pruned. intros H. apply bind_Ok_iff in H as (constants & _ & H).
  apply bind_Ok_iff in H as ([] & Hcons & H). apply bind_Ok_iff in H as (ins & Hins & H). set (b := new_sorted_unchecked _ _ _) in H.
  apply bind_Ok_iff in H as ([] & _ & H). apply bind_Ok_iff in H as ([] & Hutxo & H). apply bind_Ok_iff in H as ([] & Houts & H).
  repeat (apply bind_Ok_iff in H as ([] & _ & H)). injection H as <-. split; [done|]. split; [done|]. split; [done|]. split; [|split].
  - unfold check_inputs_are_utxos in Hutxo. destruct (foldM _ _ _) as [l| |] eqn:Hf; [|done..]. cbn in Hutxo. case_bool_decide; [|done]. subst l.
    by apply find_unknown_all in Hf as [_ ?].
  - apply for_each_Ok in Houts. eapply Forall_impl; [exact Houts|]. cbn. intros o Ho. rewrite !check_bind in Ho. destruct Ho as (_ & Ho & _). by apply check_not_duplicate_Ok.
  - apply check_bind in Hcons as [Hk _]. apply for_each_Ok in Hk. eapply Forall_impl; [exact Hk|]. cbn. intros k Ho. unfold new_kernel.
    destruct (fetch_kernel_by_excess_sig _) as [[]|]; done.
Qed.

Lemma full_validate_Ok iv tx tip : transaction_full_validate iv tx tip = Ok tt ->
  (exists constants, internally_valid iv (tx_body tx) (tx_offset tx) (tx_script_offset tx) 0 (Some (best_block tip)) (height_of_longest_chain tip) constants) /\
  exists body', chain_validate (iv_manager iv) (tx_body tx) (height_of_longest_chain tip) = Ok body'.
Proof.
  unfold transaction_full_validate, validate_with_current_tip, transaction_chain_validate. intros H. apply check_bind in H as [Hi Hc].
  destruct (existsb _ _); [done|]. apply check_bind in Hi as [_ Hi%internal_validate_iff]. split; [done|].
  repeat (apply bind_Ok_iff in Hc as (? & _ & Hc)). case_match; [done|]. apply bind_Ok_iff in Hc as (body' & Hb & _). by exists body'.
Qed.

(** An accepted input carries the contents of an unspent output or of an output of the body. *)
Lemma known_input_spends body i o : utxo_index_ok -> Forall output_ok (outputs body) -> known_input body i -> as_output i = Some o -> output_ok o ->
  exists o', (unspent (out_commitment o) o' \/ o' ∈ outputs body) /\ (same_contents o o' \/ hash_collision o o').
Proof.
  intros Hidx Hok (h & Hh & Hk) Ho Hoo. destruct (@as_output_hash ValidationError i o Ho) as [Hih Hic]. rewrite Hih in Hh.
  destruct Hk as [(c & Hc & Hu)|(o' & Hin & Ho')].
  - rewrite Hic in Hc. injection Hc as <-. destruct (Hidx _ _ Hu) as (o' & Hf & Hh' & Hok'). exists o'. split; [left; by exists h|]. by eapply output_hash_binds.
  - rewrite Forall_forall in Hok. exists o'. split; [by right|]. eapply output_hash_binds; [done|by apply Hok|done|done].
Qed.

(** C4: a transaction that passes full validation spends each output at most once, and only outputs of
    the UTXO set (or its own) with all their contents, unless two different outputs at hand have the same
    digest; the commitments
    of its outputs and the signatures of its kernels are pairwise different and new to the chain. *)
Theorem validated_transaction_spends iv tx tip :
  transaction_full_validate iv tx tip = Ok tt -> utxo_index_ok ->
  Forall (fun i => forall o, as_output i = Some o -> output_ok o) (inputs (tx_body tx)) -> Forall output_ok (outputs (tx_body tx)) ->
  (exists hashes, Forall2 (fun i h => @input_output_hash _ _ _ ValidationError i = Ok h) (inputs (tx_body tx)) hashes /\ NoDup hashes) /\
  Forall (fun i => exists o o', as_output i = Some o /\ (unspent (out_commitment o) o' \/ o' ∈ outputs (tx_body tx)) /\
    (same_contents o o' \/ hash_collision o o')) (inputs (tx_body tx)) /\
  NoDup (map out_commitment (outputs (tx_body tx))) /\ Forall new_output (outputs (tx_body tx)) /\
  NoDup (map k_excess_sig (kernels (tx_body tx))) /\ Forall new_kernel (kernels (tx_body tx)).
Proof.
  intros ([constants H] & body' & Hb)%full_validate_Ok Hidx Hin Hout. apply chain_validate_Ok in Hb as (Hr & Ho & _ & Hk & Hno & Hnk).
  pose proof (iv_sorted _ _ _ _ _ _ _ _ H) as Hs. destruct (kernel_sum_Ok _ _ (iv_kernel_sum _ _ _ _ _ _ _ _ H)) as (cs & Hcs & _).
  apply (resolve_full _ _ _ Hcs) in Hr. rewrite Hr in Hk. split; [|split; [|split; [by apply sorted_outputs_NoDup|split; [done|split; [by apply sorted_kernels_NoDup|done]]]]].
  - assert (exists hashes, Forall2 (fun i h => @input_output_hash _ _ _ ValidationError i = Ok h) (inputs (tx_body tx)) hashes) as [hashes Hf].
    { clear -Hk. induction Hk as [|i l (h & Hh & _) _ [hs IH]]; [by exists []|]. exists (h :: hs). by constructor. }
    exists hashes. split; [done|]. by eapply sorted_inputs_NoDup.
  - apply mapM_Ok_Forall2 in Hcs. rewrite Forall_forall in Hk, Hin |- *. intros i Hi. apply list_elem_of_lookup in Hi as [n Hn].
    destruct (Forall2_lookup_l _ _ _ _ _ Hcs Hn) as (c & _ & Hc). apply list_elem_of_lookup_2 in Hn. apply in_commitment_as_output in Hc as (o & Hoi & _).
    rewrite <- Ho in Hout |- *. destruct (known_input_spends body' i o) as (o' & Hu & Hs'); [done|done|by apply Hk|done|by eapply Hin|by exists o, o'].
Qed.

End Chain.

(** ** Covenants *)

Lemma output_ok_encodable o : output_ok o -> encodable o.
Proof.
  intros (_ & _ & Hc & _). unfold encodable, covenant_borsh_serialize. destruct (covenant_bytes_roundtrip _ Hc) as (b & Hb & _). rewrite Hb. by eexists.
Qed.

Definition outputs_collide (outputs : list TransactionOutput) : Prop := exists a b, a ∈ outputs /\ b ∈ outputs /\ hash_collision a b.

(** Outputs with different commitments have different hashes, or two of them collide. *)
Lemma outputs_distinct_or outputs : Forall output_ok outputs -> NoDup (map out_commitment outputs) -> outputs_distinct outputs \/ outputs_collide outputs.
Proof.
  intros Hok Hnd. assert (exists hs, Forall2 (fun o h => @output_hash _ _ _ CovenantError o = Ok h) outputs hs) as [hs Hf].
  { clear Hnd. induction Hok as [|o l Ho _ [hs IH]]; [by exists []|]. destruct (@encodable_hash _ _ _ CovenantError o (output_ok_encodable o Ho)) as (h & Hh & _).
    exists (h :: hs). by constructor. }
  destruct (decide (NoDup hs)) as [Hhs|Hhs].
  - left. intros i j a b h Hi Hj Ha Hb. destruct (Forall2_lookup_l _ _ _ _ _ Hf Hi) as (h1 & H1 & E1). destruct (Forall2_lookup_l _ _ _ _ _ Hf Hj) as (h2 & H2 & E2).
    rewrite E1 in Ha. rewrite E2 in Hb. injection Ha as ->. injection Hb as ->. by eapply NoDup_lookup.
  - right. rewrite NoDup_ListNoDup in Hhs. apply not_NoDup in Hhs as (h & l1 & l2 & l3 & Heq); [|intros x y; unfold Decidable.decidable; destruct (decide (x = y)); [by left|by right]].
    assert (hs !! length l1 = Some h) as H1 by (rewrite Heq; by rewrite list_lookup_middle).
    assert (hs !! (length l1 + S (length l2))%nat = Some h) as H2.
    { rewrite Heq, lookup_app_r by lia. replace (length l1 + S (length l2) - length l1)%nat with (S (length l2)) by lia. cbn [lookup list_lookup]. by apply list_lookup_middle. }
    destruct (Forall2_lookup_r _ _ _ _ _ Hf H1) as (a & Ha & Ea), (Forall2_lookup_r _ _ _ _ _ Hf H2) as (b & Hb & Eb). rewrite Forall_lookup in Hok.
    destruct (output_hash_binds a b h (Hok _ _ Ha) (Hok _ _ Hb) Ea Eb) as [Hs|]; [|exists a, b; split; [by eapply list_elem_of_lookup_2|split; [by eapply list_elem_of_lookup_2|done]]]. exfalso.
    assert (length l1 = (length l1 + S (length l2))%nat) as ?; [|lia]. eapply NoDup_lookup; [exact Hnd| |].
    + rewrite list_lookup_fmap, Ha. done.
    + rewrite list_lookup_fmap, Hb. cbn. f_equal. symmetry. apply Hs.
Qed.

(** C34: in a validated body the covenant of every spent output is empty, or the prefix form of an
    expression that, if it is well typed, an output of the body satisfies; unless two of
    its outputs have different contents and the same digest. *)
Theorem validated_covenants_hold iv body offset script_offset reward prev_header height :
  internal_validate iv body offset script_offset reward prev_header height = Ok tt -> Forall output_ok (outputs body) ->
  Forall (fun i => exists c, in_covenant i = Ok c /\ (c = [] \/ exists e, c = tokens_of e /\
    (well_typed e = true -> exists o, o ∈ outputs body /\ sat {| cx_input := i; cx_block_height := height |} e o = true))) (inputs body) \/
  outputs_collide (outputs body).
Proof.
  intros [constants H]%internal_validate_iff Hok. destruct (outputs_distinct_or (outputs body) Hok) as [Hd|]; [by apply sorted_outputs_NoDup, H| |by right].
  left. pose proof (iv_covenants _ _ _ _ _ _ _ _ H) as Hc. apply for_each_Ok in Hc. eapply Forall_impl; [exact Hc|]. cbn. intros i Hi.
  assert (Forall encodable (outputs body)) as He by (eapply Forall_impl; [exact Hok|apply output_ok_encodable]).
  destruct (in_covenant i) as [c| |]; [|done..]. exists c. split; [done|]. cbn in Hi. destruct (decide (c = [])) as [|Hne]; [by left|right].
  destruct (covenant_execute c height i (outputs body)) as [n| |] eqn:Hx; [|done..].
  destruct (execute_Ok_tokens c height i (outputs body) n Hne Hx) as [e ->]. exists e. split; [done|]. intros Hw.
  rewrite execute_well_typed in Hx by done. set (l := List.filter _ _) in Hx. destruct l as [|o l'] eqn:Hl; [done|].
  assert (In o (o :: l')) as Hin by (by left). rewrite <- Hl in Hin. apply filter_In in Hin as [Hin Hs]. exists o. split; [by apply list_elem_of_In|done].
Qed.

End Spec.
