(* ===== verification/ChainStorage.v ===== *)
(** * Storing blocks

    src/base_layer/core/src/chain_storage/lmdb_db/lmdb_db.rs (tables of outputs, inputs, kernels and their indexes,
    insertion and removal of block bodies and headers), lmdb.rs, mod.rs (rows) and validator_node_store.rs.

    A table is a [gmap]; a composite key is the tuple of its parts, which have fixed lengths. The Merkle mountain
    ranges are represented by their leaves. Only the leaves of the block are searched in the range of outputs: a pruned
    range keeps at most one other, and outputs of earlier blocks are looked up in a table first. A write is all or nothing: an error leaves the database as it was. *)

From S2P Require Import Prelude ScriptTypes Opcodes ScriptStack TariScript Amounts Emission Difficulty ConsensusConstants ConsensusManager MmrCommon.
From S2P Require Import Covenants TxComponents BlockHeader CovenantFilters AggregatedBody BodyValidator.

From stdpp Require Import sorting.

Local Open Scope Z_scope.

Inductive ChainStorageError :=
| KeyExists | ValueNotFound | InvalidOperation | UnexpectedResult | UnspendableInput | MmrError | AccessError | InvalidQuery | InvalidBlock
| InvalidArguments | DataInconsistencyDetected | StorageBlockError (e : BlockError) | BodyValidationFailed | HeaderValidationFailed | NotTerminating | AddBlockOperationLocked
| StorageTransactionError (e : TransactionError) | CannotCalculateNonTipMmr | StorageFixedHashSizeError.

Abbreviation stored_result := (result ChainStorageError).

(** ** Tables *)

Section Tables.
Context {K V : Type} `{Countable K}.

Definition lmdb_insert (key : K) (val : V) (db : gmap K V) : stored_result (gmap K V) :=
  match db !! key with Some _ => Err KeyExists | None => Ok (<[key := val]> db) end.

Definition lmdb_delete (key : K) (db : gmap K V) : stored_result (gmap K V) :=
  match db !! key with Some _ => Ok (delete key db) | None => Err ValueNotFound end.

Definition or_not_found {A} (o : option A) : stored_result A := ok_or o ValueNotFound.

End Tables.

Abbreviation HeaderData := (@BlockHeaderAccumulatedData bytes RistrettoSecretKey).

Section Rows.
Context {C : ScriptCrypto} {B : BorshPrims C} {X : TxCrypto C}.

(** ** Hashes of rows *)

Definition witness_hash (self : TransactionOutput) : bytes :=
  consensus_hash TransactionHashDomain "transaction_output_witness"
    [option_serialize vec_u8_serialize (out_proof self); cps_serialize (out_metadata_signature self)].

Definition canonical_hash {E} (self : TransactionInput) : result E bytes :=
  h ← input_output_hash self;
  Ok (consensus_hash TransactionHashDomain "transaction_input"
    [[input_version_as_u8 (in_version self)]; cps_serialize (script_signature self); stack_borsh_serialize (input_data self); h]).

Definition kernel_hash (self : TransactionKernel) : bytes :=
  consensus_hash TransactionHashDomain "transaction_kernel"
    [[kernel_version_as_u8 (k_version self)]; [k_features self]; u64_serialize (k_fee self); u64_serialize (k_lock_height self);
     com_serialize (k_excess self); sig_serialize (k_excess_sig self); option_serialize com_serialize (k_burn_commitment self)].

(** ** Rows *)

Record TransactionOutputRowData := {
  or_output : option TransactionOutput;
  or_header_hash : bytes;
  or_mmr_position : Z;
  or_hash : bytes;
  or_witness_hash : bytes;
  or_mined_height : Z;
  or_mined_timestamp : Z;
}.

Record TransactionInputRowData := { ir_input : TransactionInput; ir_header_hash : bytes; ir_mmr_position : Z; ir_hash : bytes }.

Record TransactionKernelRowData := { kr_kernel : TransactionKernel; kr_header_hash : bytes; kr_mmr_position : Z; kr_hash : bytes }.

Record ValidatorNodeEntry := {
  vn_shard_key : bytes; vn_start_epoch : Z; vn_end_epoch : Z; vn_public_key : RistrettoPublicKey; vn_commitment : PedersenCommitment;
}.

Record TemplateRegistrationEntry := { registration_data : CodeTemplateReg; tr_output_hash : bytes; tr_block_height : Z; tr_block_hash : bytes }.

(** The pruned hash sets are given by the leaves of their ranges. *)
Record BlockAccumulatedData := {
  acc_kernels : list bytes; acc_outputs : list bytes; acc_witness : list bytes; acc_deleted : gset Z; acc_kernel_sum : PedersenCommitment;
}.

Definition accumulated_default : BlockAccumulatedData :=
  {| acc_kernels := []; acc_outputs := []; acc_witness := []; acc_deleted := ∅; acc_kernel_sum := com_default |}.

(** ** The database *)

Record TxoTables := {
  utxo_commitment_index : gmap bytes bytes;
  txos_hash_to_index_db : gmap bytes (Z * (bytes * Z));
  utxos_db : gmap (bytes * Z) TransactionOutputRowData;
  inputs_db : gmap (bytes * Z * bytes) TransactionInputRowData;
  deleted_txo_mmr_position_to_height_index : gmap Z (Z * bytes);
}.

Record KernelTables := {
  kernel_excess_index : gmap bytes (bytes * Z * bytes);
  kernel_excess_sig_index : gmap bytes (bytes * Z * bytes);
  kernels_db : gmap (bytes * Z * bytes) TransactionKernelRowData;
}.

Record SideTables := {
  db_validator_nodes : gmap (Z * bytes * bytes) ValidatorNodeEntry;
  db_validator_nodes_mapping : gmap (bytes * Z * bytes) bytes;
  template_registrations : gmap (Z * bytes) TemplateRegistrationEntry;
}.

Record HeaderTables := {
  headers_db : gmap Z BlockHeader;
  header_accumulated_data_db : gmap Z HeaderData;
  block_hashes_db : gmap bytes Z;
  kernel_mmr_size_index : gmap Z Z;
  output_mmr_size_index : gmap Z (Z * bytes);
}.

Record LMDBDatabase := {
  header_tables : HeaderTables;
  block_accumulated_data_db : gmap Z BlockAccumulatedData;
  deleted_bitmap : gset Z;
  txo_tables : TxoTables;
  kernel_tables : KernelTables;
  side_tables : SideTables;
}.

(** ** Outputs, inputs and kernels *)

Definition insert_output (header_hash : bytes) (header_height : Z) (output : TransactionOutput) (mmr_position timestamp : Z) (db : TxoTables) : stored_result TxoTables :=
  output_hash ← output_hash output;
  let output_key := (header_hash, mmr_position) in
  index ← lmdb_insert (com_as_bytes (out_commitment output)) output_hash (utxo_commitment_index db);
  txos ← lmdb_insert output_hash (mmr_position, output_key) (txos_hash_to_index_db db);
  utxos ← lmdb_insert output_key
    {| or_output := Some output; or_header_hash := header_hash; or_mmr_position := mmr_position; or_hash := output_hash;
       or_witness_hash := witness_hash output; or_mined_height := header_height; or_mined_timestamp := timestamp |} (utxos_db db);
  Ok {| utxo_commitment_index := index; txos_hash_to_index_db := txos; utxos_db := utxos; inputs_db := inputs_db db;
        deleted_txo_mmr_position_to_height_index := deleted_txo_mmr_position_to_height_index db |}.

(** The commitment may not be in the index yet when the output is of the same block. *)
Definition insert_input (header : BlockHeader) (input : TransactionInput) (mmr_position : Z) (db : TxoTables) : stored_result TxoTables :=
  commitment ← map_err StorageTransactionError (in_commitment input);
  let index := delete (com_as_bytes commitment) (utxo_commitment_index db) in
  deleted ← lmdb_insert mmr_position (bh_height header, bh_hash header) (deleted_txo_mmr_position_to_height_index db);
  hash ← canonical_hash input;
  compact ← input_to_compact input;
  ins ← lmdb_insert (bh_hash header, mmr_position, hash)
    {| ir_input := compact; ir_header_hash := bh_hash header; ir_mmr_position := mmr_position; ir_hash := hash |} (inputs_db db);
  Ok {| utxo_commitment_index := index; txos_hash_to_index_db := txos_hash_to_index_db db; utxos_db := utxos_db db; inputs_db := ins;
        deleted_txo_mmr_position_to_height_index := deleted |}.

Definition excess_sig_key (kernel : TransactionKernel) : bytes :=
  pk_as_bytes (get_public_nonce (k_excess_sig kernel)) ++ sk_as_bytes (get_signature (k_excess_sig kernel)).

Definition insert_kernel (header_hash : bytes) (kernel : TransactionKernel) (mmr_position : Z) (db : KernelTables) : stored_result KernelTables :=
  let hash := kernel_hash kernel in
  let key := (header_hash, mmr_position, hash) in
  excess ← lmdb_insert (com_as_bytes (k_excess kernel)) key (kernel_excess_index db);
  sigs ← lmdb_insert (excess_sig_key kernel) key (kernel_excess_sig_index db);
  rows ← lmdb_insert key {| kr_kernel := kernel; kr_header_hash := header_hash; kr_mmr_position := mmr_position; kr_hash := hash |} (kernels_db db);
  Ok {| kernel_excess_index := excess; kernel_excess_sig_index := sigs; kernels_db := rows |}.

(** ** Validator nodes and templates *)

Definition vn_insert (height : Z) (validator : ValidatorNodeEntry) (db : SideTables) : stored_result SideTables :=
  let pk := pk_as_bytes (vn_public_key validator) in
  let commitment := com_as_bytes (vn_commitment validator) in
  nodes ← lmdb_insert (height, pk, commitment) validator (db_validator_nodes db);
  mapping ← lmdb_insert (pk, height, commitment) (vn_shard_key validator) (db_validator_nodes_mapping db);
  Ok {| db_validator_nodes := nodes; db_validator_nodes_mapping := mapping; template_registrations := template_registrations db |}.

Definition vn_delete (height : Z) (public_key : RistrettoPublicKey) (commitment : PedersenCommitment) (db : SideTables) : stored_result SideTables :=
  let pk := pk_as_bytes public_key in
  nodes ← lmdb_delete (height, pk, com_as_bytes commitment) (db_validator_nodes db);
  mapping ← lmdb_delete (pk, height, com_as_bytes commitment) (db_validator_nodes_mapping db);
  Ok {| db_validator_nodes := nodes; db_validator_nodes_mapping := mapping; template_registrations := template_registrations db |}.

(** The cursor walks the entries of the key in the order of height and commitment, from [start_height] to
    [end_height]; the last one counts. *)
Definition later (a b : Z * bytes * bytes) : bool :=
  (b.1.1 <? a.1.1) || ((a.1.1 =? b.1.1) && bytes_ltb b.1.2 a.1.2).

Definition get_shard_key (start_height end_height : Z) (public_key : RistrettoPublicKey) (db : SideTables) : option bytes :=
  let entries := omap (fun '((pk, height, commitment), shard_key) =>
    if bool_decide (pk = pk_as_bytes public_key) && (start_height <=? height) && (height <=? end_height)
    then Some (height, commitment, shard_key) else None) (map_to_list (db_validator_nodes_mapping db)) in
  match entries with
  | [] => None
  | e :: entries => Some (fold_left (fun best e => if later e best then e else best) entries e).2
  end.

Definition generate_shard_key (public_key : RistrettoPublicKey) (entropy : bytes) : bytes :=
  consensus_hash TransactionHashDomain "validator_node_shard_key" [pk_serialize public_key; entropy].

(** 256-bit arithmetic *)
Definition does_require_new_shard_key {E} (public_key : RistrettoPublicKey) (epoch interval : Z) : result E bool :=
  sum ← arith 0 (2 ^ 256 - 1) (le_value (rev (pk_as_bytes public_key)) + epoch);
  if interval =? 0 then Panic else Ok (sum mod interval =? 0).

Definition derive_shard_key {E} (self : ValidatorNodeReg) (prev_shard_key : option bytes) (epoch interval : Z) (block_hash : bytes) : result E bytes :=
  let public_key := vns_public_key (vnr_signature self) in
  match prev_shard_key with
  | Some prev =>
      new ← does_require_new_shard_key public_key epoch interval;
      Ok (if (new : bool) then generate_shard_key public_key block_hash else prev)
  | None => Ok (generate_shard_key public_key block_hash)
  end.

Definition insert_validator_node (manager : ConsensusManager) (header : BlockHeader) (commitment : PedersenCommitment) (vn_reg : ValidatorNodeReg)
    (db : SideTables) : stored_result SideTables :=
  let public_key := vns_public_key (vnr_signature vn_reg) in
  constants ← consensus_constants manager (bh_height header);
  current_epoch ← block_height_to_epoch constants (bh_height header);
  start_height ← arith 0 U64_MAX (Z.max 0 (current_epoch - vn_validity_period_epochs constants) * vn_epoch_length constants);
  end_height ← arith 0 U64_MAX (current_epoch * vn_epoch_length constants);
  let prev_shard_key := get_shard_key start_height end_height public_key db in
  shard_key ← derive_shard_key vn_reg prev_shard_key current_epoch (vn_registration_shuffle_interval constants) (bh_prev_hash header);
  next_epoch ← arith 0 U64_MAX (current_epoch + 1);
  end_epoch ← arith 0 U64_MAX (next_epoch + vn_validity_period_epochs constants);
  vn_insert (bh_height header)
    {| vn_shard_key := shard_key; vn_start_epoch := next_epoch; vn_end_epoch := end_epoch; vn_public_key := public_key; vn_commitment := commitment |} db.

Definition insert_template_registration (entry : TemplateRegistrationEntry) (db : SideTables) : stored_result SideTables :=
  templates ← lmdb_insert (tr_block_height entry, tr_output_hash entry) entry (template_registrations db);
  Ok {| db_validator_nodes := db_validator_nodes db; db_validator_nodes_mapping := db_validator_nodes_mapping db; template_registrations := templates |}.

(** ** Ranges while a block is added *)

(** The range of outputs: the number of leaves before the block, the leaves of the block and its deletions. *)
Record OutputMmr := { om_base : Z; om_new : list bytes; om_deleted : gset Z }.

Definition om_size (self : OutputMmr) : Z := om_base self + Z.of_nat (length (om_new self)).

Definition om_push (hash : bytes) (self : OutputMmr) : stored_result OutputMmr :=
  if om_size self =? U32_MAX then Err MmrError
  else Ok {| om_base := om_base self; om_new := om_new self ++ [hash]; om_deleted := om_deleted self |}.

Definition om_find_leaf_index (hash : bytes) (self : OutputMmr) : option Z :=
  '(i, _) ← list_find (fun h => h = hash) (om_new self); Some (om_base self + Z.of_nat i).

Definition om_delete (leaf_index : Z) (self : OutputMmr) : option OutputMmr :=
  if (om_size self <=? leaf_index) || bool_decide (leaf_index ∈ om_deleted self) then None
  else Some {| om_base := om_base self; om_new := om_new self; om_deleted := {[leaf_index]} ∪ om_deleted self |}.

(** ** Adding a block body *)

Record KernelLoop := { kl_sum : PedersenCommitment; kl_hashes : list bytes; kl_tables : KernelTables }.

(** A push gives the position of the last node written. *)
Definition add_kernel_row (header : BlockHeader) (st : KernelLoop) (kernel : TransactionKernel) : stored_result KernelLoop :=
  let hashes := kl_hashes st ++ [kernel_hash kernel] in
  let pos := mmr_size (Z.of_nat (length hashes)) - 1 in
  if U32_MAX <? pos then Err InvalidOperation
  else
    tables ← insert_kernel (bh_hash header) kernel pos (kl_tables st);
    Ok {| kl_sum := com_add (kl_sum st) (k_excess kernel); kl_hashes := hashes; kl_tables := tables |}.

Record OutputLoop := { ol_mmr : OutputMmr; ol_witness : list bytes; ol_burned : list PedersenCommitment }.

Definition push_output (st : OutputLoop) (output : TransactionOutput) : stored_result OutputLoop :=
  hash ← output_hash output;
  mmr ← om_push hash (ol_mmr st);
  let witness := ol_witness st ++ [witness_hash output] in
  if output_is_burned output then
    index ← ok_or (om_find_leaf_index hash mmr) UnexpectedResult;
    mmr ← ok_or (om_delete index mmr) InvalidOperation;
    Ok {| ol_mmr := mmr; ol_witness := witness; ol_burned := ol_burned st ++ [out_commitment output] |}
  else Ok {| ol_mmr := mmr; ol_witness := witness; ol_burned := ol_burned st |}.

Record InputLoop := { il_mmr : OutputMmr; il_zero_conf : list PedersenCommitment; il_txos : TxoTables; il_side : SideTables }.

Definition spend_input (header : BlockHeader) (st : InputLoop) (input : TransactionInput) : stored_result InputLoop :=
  output_hash ← input_output_hash input;
  '(index, zero_conf) ←
    match txos_hash_to_index_db (il_txos st) !! output_hash with
    | Some (index, _) => Ok (index, il_zero_conf st)
    | None =>
        match om_find_leaf_index output_hash (il_mmr st) with
        | Some index =>
            commitment ← map_err StorageTransactionError (in_commitment input);
            Ok (index, il_zero_conf st ++ [commitment])
        | None => Err UnspendableInput
        end
    end;
  features ← map_err StorageTransactionError (in_features input);
  side ←
    match validator_node_registration features with
    | Some vn_reg =>
        commitment ← map_err StorageTransactionError (in_commitment input);
        vn_delete (bh_height header) (vns_public_key (vnr_signature vn_reg)) commitment (il_side st)
    | None => Ok (il_side st)
    end;
  mmr ← ok_or (om_delete index (il_mmr st)) InvalidOperation;
  txos ← insert_input header input index (il_txos st);
  Ok {| il_mmr := mmr; il_zero_conf := zero_conf; il_txos := txos; il_side := side |}.

Definition template_registration (self : OutputFeatures) : option CodeTemplateReg :=
  match sidechain_feature self with Some (Side_TemplateRegistration r) => Some r | _ => None end.

(** The outputs with their counts in the range, from 1. *)
Definition add_output_row (manager : ConsensusManager) (header : BlockHeader) (st : TxoTables * SideTables) (output : TransactionOutput * Z)
    : stored_result (TxoTables * SideTables) :=
  let '(output, mmr_count) := output in
  let '(txos, side) := st in
  if U32_MAX <? mmr_count then Err InvalidOperation
  else
    output_hash ← output_hash output;
    side ←
      match validator_node_registration (out_features output) with
      | Some vn_reg => insert_validator_node manager header (out_commitment output) vn_reg side
      | None => Ok side
      end;
    side ←
      match template_registration (out_features output) with
      | Some template_reg =>
          insert_template_registration {| registration_data := template_reg; tr_output_hash := output_hash;
            tr_block_height := bh_height header; tr_block_hash := bh_hash header |} side
      | None => Ok side
      end;
    txos ← insert_output (bh_hash header) (bh_height header) output (mmr_count - 1) (bh_timestamp header) txos;
    Ok (txos, side).

Definition delete_commitment (index : gmap bytes bytes) (commitment : PedersenCommitment) : stored_result (gmap bytes bytes) :=
  lmdb_delete (com_as_bytes commitment) index.

Definition with_index (index : gmap bytes bytes) (db : TxoTables) : TxoTables :=
  {| utxo_commitment_index := index; txos_hash_to_index_db := txos_hash_to_index_db db; utxos_db := utxos_db db; inputs_db := inputs_db db;
     deleted_txo_mmr_position_to_height_index := deleted_txo_mmr_position_to_height_index db |}.

Definition insert_block_body (manager : ConsensusManager) (header : BlockHeader) (body : TxBody) (db : LMDBDatabase) : stored_result LMDBDatabase :=
  current ← or_not_found (headers_db (header_tables db) !! bh_height header);
  if negb (bool_decide (bh_hash current = bh_hash header)) then Err InvalidOperation
  else
    data ← (if bh_height header =? 0 then Ok accumulated_default else or_not_found (block_accumulated_data_db db !! (bh_height header - 1)));
    ks ← foldM (add_kernel_row header) (kernels body) {| kl_sum := com_default; kl_hashes := acc_kernels data; kl_tables := kernel_tables db |};
    let base := Z.of_nat (length (acc_outputs data)) in
    let leaf_count := Z.of_nat (length (acc_witness data)) in
    os ← foldM push_output (outputs body)
      {| ol_mmr := {| om_base := base; om_new := []; om_deleted := ∅ |}; ol_witness := acc_witness data; ol_burned := [] |};
    ins ← foldM (spend_input header) (inputs body)
      {| il_mmr := ol_mmr os; il_zero_conf := []; il_txos := txo_tables db; il_side := side_tables db |};
    '(txos, side) ← foldM (add_output_row manager header) (imap (fun i output => (output, leaf_count + Z.of_nat i + 1)) (outputs body))
      (il_txos ins, il_side ins);
    index ← foldM delete_commitment (il_zero_conf ins) (utxo_commitment_index txos);
    index ← foldM delete_commitment (ol_burned os) index;
    let deleted_at_current_height := om_deleted (il_mmr ins) in
    accumulated ← lmdb_insert (bh_height header)
      {| acc_kernels := kl_hashes ks; acc_outputs := acc_outputs data ++ om_new (il_mmr ins); acc_witness := ol_witness os;
         acc_deleted := deleted_at_current_height; acc_kernel_sum := kl_sum ks |} (block_accumulated_data_db db);
    Ok {| header_tables := header_tables db; block_accumulated_data_db := accumulated;
          deleted_bitmap := deleted_bitmap db ∪ deleted_at_current_height; txo_tables := with_index index txos; kernel_tables := kl_tables ks;
          side_tables := side |}.

(** ** Removing a block body *)

(** The rows of a block in the order of their keys. *)
Definition position_le {A} (pos : A -> Z) (a b : A) : Prop := Z.le (pos a) (pos b).

#[local] Instance position_le_dec {A} (pos : A -> Z) (a b : A) : Decision (position_le pos a b).
Proof. unfold position_le. apply _. Defined.

Definition output_rows_of (block_hash : bytes) (db : gmap (bytes * Z) TransactionOutputRowData) : list TransactionOutputRowData :=
  merge_sort (position_le or_mmr_position) (map snd (map_to_list (filter (fun kv => kv.1.1 = block_hash) db))).

Definition input_rows_of (block_hash : bytes) (db : gmap (bytes * Z * bytes) TransactionInputRowData) : list TransactionInputRowData :=
  merge_sort (position_le ir_mmr_position) (map snd (map_to_list (filter (fun kv => kv.1.1.1 = block_hash) db))).

Definition kernel_rows_of (block_hash : bytes) (db : gmap (bytes * Z * bytes) TransactionKernelRowData) : list TransactionKernelRowData :=
  merge_sort (position_le kr_mmr_position) (map snd (map_to_list (filter (fun kv => kv.1.1.1 = block_hash) db))).

Definition fetch_output_in_txn (output_hash : bytes) (db : TxoTables) : option PrunedOutput :=
  '(_, key) ← txos_hash_to_index_db db !! output_hash;
  row ← utxos_db db !! key;
  Some (match or_output row with Some o => NotPruned o | None => Pruned (or_hash row) (or_witness_hash row) end).

Definition remove_output_row (input_rows : list TransactionInputRowData) (db : TxoTables) (utxo : TransactionOutputRowData) : stored_result TxoTables :=
  txos ← lmdb_delete (or_hash utxo) (txos_hash_to_index_db db);
  index ←
    match or_output utxo with
    | Some output =>
        output_hash ← output_hash output;
        hashes ← mapM (fun r => input_output_hash (ir_input r)) input_rows;
        if bool_decide (output_hash ∈ hashes) then Ok (utxo_commitment_index db)
        else if output_is_burned output then Ok (utxo_commitment_index db)
        else lmdb_delete (com_as_bytes (out_commitment output)) (utxo_commitment_index db)
    | None => Ok (utxo_commitment_index db)
    end;
  Ok {| utxo_commitment_index := index; txos_hash_to_index_db := txos; utxos_db := utxos_db db; inputs_db := inputs_db db;
        deleted_txo_mmr_position_to_height_index := deleted_txo_mmr_position_to_height_index db |}.

Definition unspend_input_row (output_rows : list TransactionOutputRowData) (db : TxoTables) (row : TransactionInputRowData) : stored_result TxoTables :=
  output_hash ← input_output_hash (ir_input row);
  deleted ← lmdb_delete (ir_mmr_position row) (deleted_txo_mmr_position_to_height_index db);
  index ←
    (if bool_decide (output_hash ∈ map or_hash output_rows) then Ok (utxo_commitment_index db)
     else
       utxo_mined_info ← or_not_found (fetch_output_in_txn output_hash db);
       match utxo_mined_info with
       | Pruned _ _ => Err (StorageTransactionError MissingTransactionInputData)
       | NotPruned output =>
           let input := add_output_data (ir_input row) (out_version output) (out_features output) (out_commitment output) (out_script output)
             (out_sender_offset_public_key output) (out_covenant output) (out_encrypted_data output) (out_minimum_value_promise output) in
           commitment ← map_err StorageTransactionError (in_commitment input);
           hash ← input_output_hash input;
           lmdb_insert (com_as_bytes commitment) hash (utxo_commitment_index db)
       end);
  Ok {| utxo_commitment_index := index; txos_hash_to_index_db := txos_hash_to_index_db db; utxos_db := utxos_db db; inputs_db := inputs_db db;
        deleted_txo_mmr_position_to_height_index := deleted |}.

Definition delete_block_inputs_outputs (block_hash : bytes) (db : TxoTables) : stored_result TxoTables :=
  let output_rows := output_rows_of block_hash (utxos_db db) in
  let input_rows := input_rows_of block_hash (inputs_db db) in
  let db := {| utxo_commitment_index := utxo_commitment_index db; txos_hash_to_index_db := txos_hash_to_index_db db;
               utxos_db := filter (fun kv => kv.1.1 <> block_hash) (utxos_db db);
               inputs_db := filter (fun kv => kv.1.1.1 <> block_hash) (inputs_db db);
               deleted_txo_mmr_position_to_height_index := deleted_txo_mmr_position_to_height_index db |} in
  db ← foldM (remove_output_row input_rows) output_rows db;
  foldM (unspend_input_row output_rows) input_rows db.

Definition remove_kernel_row (db : KernelTables) (row : TransactionKernelRowData) : stored_result KernelTables :=
  excess ← lmdb_delete (com_as_bytes (k_excess (kr_kernel row))) (kernel_excess_index db);
  sigs ← lmdb_delete (excess_sig_key (kr_kernel row)) (kernel_excess_sig_index db);
  Ok {| kernel_excess_index := excess; kernel_excess_sig_index := sigs; kernels_db := kernels_db db |}.

Definition delete_block_kernels (block_hash : bytes) (db : KernelTables) : stored_result KernelTables :=
  let rows := kernel_rows_of block_hash (kernels_db db) in
  foldM remove_kernel_row rows
    {| kernel_excess_index := kernel_excess_index db; kernel_excess_sig_index := kernel_excess_sig_index db;
       kernels_db := filter (fun kv => kv.1.1.1 <> block_hash) (kernels_db db) |}.

Definition delete_block_body (block_hash : bytes) (db : LMDBDatabase) : stored_result LMDBDatabase :=
  height ← or_not_found (block_hashes_db (header_tables db) !! block_hash);
  data ← or_not_found (block_accumulated_data_db db !! height);
  accumulated ← lmdb_delete height (block_accumulated_data_db db);
  txos ← delete_block_inputs_outputs block_hash (txo_tables db);
  kernels ← delete_block_kernels block_hash (kernel_tables db);
  Ok {| header_tables := header_tables db; block_accumulated_data_db := accumulated;
        deleted_bitmap := deleted_bitmap db ∖ acc_deleted data; txo_tables := txos; kernel_tables := kernels; side_tables := side_tables db |}.

(** ** Headers *)

(** The value with the greatest key. *)
Definition lmdb_last {V} (db : gmap Z V) : option V :=
  snd <$> fold_left (fun last e => match last with Some l => if l.1 <? e.1 then Some e else Some l | None => Some e end) (map_to_list db) None.

Definition insert_header (header : BlockHeader) (accum_data : HeaderData) (db : HeaderTables) : stored_result HeaderTables :=
  match headers_db db !! bh_height header with
  | Some _ => Err InvalidOperation
  | None =>
      _ ←
        match lmdb_last (headers_db db) with
        | Some last_header =>
            if negb (bh_height last_header =? Z.max 0 (bh_height header - 1)) then Err InvalidOperation
            else if negb (bool_decide (bh_hash last_header = bh_prev_hash header)) then Err InvalidOperation
            else Ok tt
        | None => if negb (bh_height header =? 0) then Err InvalidOperation else Ok tt
        end;
      accum ← lmdb_insert (bh_height header) accum_data (header_accumulated_data_db db);
      hashes ← lmdb_insert (bh_hash header) (bh_height header) (block_hashes_db db);
      headers ← lmdb_insert (bh_height header) header (headers_db db);
      kernel_sizes ← lmdb_insert (bh_kernel_mmr_size header) (bh_height header) (kernel_mmr_size_index db);
      output_sizes ← lmdb_insert (bh_output_mmr_size header) (bh_height header, bh_hash header) (output_mmr_size_index db);
      Ok {| headers_db := headers; header_accumulated_data_db := accum; block_hashes_db := hashes; kernel_mmr_size_index := kernel_sizes;
            output_mmr_size_index := output_sizes |}
  end.

Definition with_headers (headers : HeaderTables) (db : LMDBDatabase) : LMDBDatabase :=
  {| header_tables := headers; block_accumulated_data_db := block_accumulated_data_db db; deleted_bitmap := deleted_bitmap db; txo_tables := txo_tables db;
     kernel_tables := kernel_tables db; side_tables := side_tables db |}.

Definition delete_header (height : Z) (db : LMDBDatabase) : stored_result LMDBDatabase :=
  match block_accumulated_data_db db !! height with
  | Some _ => Err InvalidOperation
  | None =>
      let headers := header_tables db in
      header ← or_not_found (lmdb_last (headers_db headers));
      if negb (bh_height header =? height) then Err InvalidOperation
      else
        let hash := bh_hash header in
        if bool_decide (kernel_rows_of hash (kernels_db (kernel_tables db)) <> []) then Err InvalidOperation
        else if bool_decide (output_rows_of hash (utxos_db (txo_tables db)) <> []) then Err InvalidOperation
        else
          hashes ← lmdb_delete hash (block_hashes_db headers);
          rows ← lmdb_delete height (headers_db headers);
          accum ← lmdb_delete height (header_accumulated_data_db headers);
          kernel_sizes ← lmdb_delete (bh_kernel_mmr_size header) (kernel_mmr_size_index headers);
          output_sizes ← lmdb_delete (bh_output_mmr_size header) (output_mmr_size_index headers);
          Ok (with_headers {| headers_db := rows; header_accumulated_data_db := accum; block_hashes_db := hashes;
                              kernel_mmr_size_index := kernel_sizes; output_mmr_size_index := output_sizes |} db)
  end.

(** ** Reading *)

Definition fetch_kernel (excess_sig : RistrettoSchnorr) (db : KernelTables) : option TransactionKernel :=
  key ← kernel_excess_sig_index db !! (pk_as_bytes (get_public_nonce excess_sig) ++ sk_as_bytes (get_signature excess_sig));
  row ← kernels_db db !! key;
  Some (kr_kernel row).

(** The lookups of the validators, on the tables. *)
Definition backend_of (db : LMDBDatabase) : BlockchainBackend := {|
  fetch_output h := Some (fetch_output_in_txn h (txo_tables db));
  fetch_unspent_output_hash_by_commitment c := Some (utxo_commitment_index (txo_tables db) !! com_as_bytes c);
  fetch_utxo_mmr_leaf_index h := Some (fst <$> txos_hash_to_index_db (txo_tables db) !! h);
  fetch_kernel_by_excess_sig s := Some (fetch_kernel s (kernel_tables db));
|}.

End Rows.
