(* ===== verification/ChainDatabase.v ===== *)
(** * The blockchain database

    src/base_layer/core/src/chain_storage: the tables of lmdb_db/lmdb_db.rs that [ChainStorage] does not have (orphans,
    metadata, Monero seeds, reorganisations), write transactions (db_transaction.rs) and the reads of
    blockchain_database.rs. *)

From S2P Require Import Prelude ScriptTypes Opcodes ScriptStack TariScript Amounts Emission Difficulty ConsensusConstants ConsensusManager MmrCommon.
From S2P Require Import Covenants TxComponents BlockHeader CovenantFilters AggregatedBody BodyValidator ChainStorage.
From stdpp Require Import sorting.

Local Open Scope Z_scope.

Section Database.
Context {C : ScriptCrypto} {B : BorshPrims C} {X : TxCrypto C}.

(** ** Blocks *)

Record Block := { block_header : BlockHeader; block_body : TxBody }.

Record ChainBlock := { cb_accumulated_data : HeaderData; cb_block : Block }.

(** A header with its accumulated data: [ChainHeader]. *)
Record LinkedHeader := { lh_header : BlockHeader; lh_accumulated_data : HeaderData }.

Definition header_try_construct (header : BlockHeader) (data : HeaderData) : option LinkedHeader :=
  if bool_decide (acc_hash data = bh_hash header) then Some {| lh_header := header; lh_accumulated_data := data |} else None.

Definition block_try_construct (block : Block) (data : HeaderData) : option ChainBlock :=
  if bool_decide (acc_hash data = bh_hash (block_header block)) then Some {| cb_accumulated_data := data; cb_block := block |} else None.

Definition cb_header (self : ChainBlock) : BlockHeader := block_header (cb_block self).
Definition cb_hash (self : ChainBlock) : bytes := acc_hash (cb_accumulated_data self).

(** What the comparers of chains look at. *)
Definition to_chain_header (self : LinkedHeader) : ChainHeader bytes RistrettoSecretKey :=
  {| header_height := bh_height (lh_header self); accumulated_data := lh_accumulated_data self |}.

(** ** Tables *)

(** Values of one key are sorted without repetitions. *)
Record OrphanTables := {
  orphans_db : gmap bytes Block;
  orphan_header_accumulated_data_db : gmap bytes HeaderData;
  orphan_chain_tips_db : gmap bytes bytes;
  orphan_parent_map_index : gmap bytes (gset bytes);
}.

Record HorizonData := { hz_kernel_sum : PedersenCommitment; hz_utxo_sum : PedersenCommitment }.

Record DbMetadata := {
  md_tip : ChainMetadata; md_accumulated_difficulty : Z; md_timestamp : Z; md_pruning_horizon : Z; md_pruned_height : Z;
  md_horizon_data : option HorizonData;
}.

Definition is_pruned_node (self : DbMetadata) : bool := negb (md_pruning_horizon self =? 0).

Record Reorg := {
  new_height : Z; new_hash : bytes; prev_height : Z; prev_hash : bytes; num_blocks_added : Z; num_blocks_removed : Z; local_time : Z;
}.

Record Database := {
  lmdb : LMDBDatabase;
  orphans : OrphanTables;
  metadata : DbMetadata;
  monero_seed_height_db : gmap bytes Z;
  reorgs : gmap Z Reorg;
  bad_blocks : gmap bytes Z;
}.

Definition with_lmdb (t : LMDBDatabase) (db : Database) : Database :=
  {| lmdb := t; orphans := orphans db; metadata := metadata db; monero_seed_height_db := monero_seed_height_db db; reorgs := reorgs db; bad_blocks := bad_blocks db |}.
Definition with_orphans (t : OrphanTables) (db : Database) : Database :=
  {| lmdb := lmdb db; orphans := t; metadata := metadata db; monero_seed_height_db := monero_seed_height_db db; reorgs := reorgs db; bad_blocks := bad_blocks db |}.

Definition with_metadata (m : DbMetadata) (db : Database) : Database :=
  {| lmdb := lmdb db; orphans := orphans db; metadata := m; monero_seed_height_db := monero_seed_height_db db; reorgs := reorgs db; bad_blocks := bad_blocks db |}.

(** The keys of a table in order. *)
Definition bytes_le (a b : bytes) : Prop := bytes_compare a b <> Gt.

#[local] Instance bytes_le_dec a b : Decision (bytes_le a b).
Proof. unfold bytes_le. apply _. Defined.

Definition in_order (l : list bytes) : list bytes := merge_sort bytes_le l.

(** ** Orphans *)

Definition lmdb_insert_dup (key val : bytes) (db : gmap bytes (gset bytes)) : gmap bytes (gset bytes) := <[key := {[val]} ∪ default ∅ (db !! key)]> db.

Definition lmdb_delete_key_value (key val : bytes) (db : gmap bytes (gset bytes)) : stored_result (gmap bytes (gset bytes)) :=
  if bool_decide (val ∈ default ∅ (db !! key)) then Ok (<[key := default ∅ (db !! key) ∖ {[val]}]> db) else Err AccessError.

Definition lmdb_get_multiple (key : bytes) (db : gmap bytes (gset bytes)) : list bytes := in_order (elements (default ∅ (db !! key))).

Definition insert_orphan_block (block : Block) (db : OrphanTables) : stored_result OrphanTables :=
  let k := bh_hash (block_header block) in
  let parents := lmdb_insert_dup (bh_prev_hash (block_header block)) k (orphan_parent_map_index db) in
  rows ← lmdb_insert k block (orphans_db db);
  Ok {| orphans_db := rows; orphan_header_accumulated_data_db := orphan_header_accumulated_data_db db;
        orphan_chain_tips_db := orphan_chain_tips_db db; orphan_parent_map_index := parents |}.

Definition set_accumulated_data_for_orphan (data : HeaderData) (db : OrphanTables) : stored_result OrphanTables :=
  match orphans_db db !! acc_hash data with
  | None => Err InvalidOperation
  | Some _ =>
      accum ← lmdb_insert (acc_hash data) data (orphan_header_accumulated_data_db db);
      Ok {| orphans_db := orphans_db db; orphan_header_accumulated_data_db := accum; orphan_chain_tips_db := orphan_chain_tips_db db;
            orphan_parent_map_index := orphan_parent_map_index db |}
  end.

Definition delete_orphan (hash : bytes) (db : OrphanTables) : stored_result OrphanTables :=
  match orphans_db db !! hash with
  | None => Ok db
  | Some orphan =>
      let parent_hash := bh_prev_hash (block_header orphan) in
      parents ← lmdb_delete_key_value parent_hash hash (orphan_parent_map_index db);
      tips ←
        match orphan_chain_tips_db db !! hash with
        | Some _ =>
            tips ← lmdb_delete hash (orphan_chain_tips_db db);
            match orphans_db db !! parent_hash with
            | Some _ => lmdb_insert parent_hash parent_hash tips
            | None => Ok tips
            end
        | None => Ok (orphan_chain_tips_db db)
        end;
      let accum := delete hash (orphan_header_accumulated_data_db db) in
      rows ← lmdb_delete hash (orphans_db db);
      Ok {| orphans_db := rows; orphan_header_accumulated_data_db := accum; orphan_chain_tips_db := tips; orphan_parent_map_index := parents |}
  end.

Definition insert_orphan_chain_tip (hash : bytes) (db : OrphanTables) : stored_result OrphanTables :=
  tips ← lmdb_insert hash hash (orphan_chain_tips_db db);
  Ok {| orphans_db := orphans_db db; orphan_header_accumulated_data_db := orphan_header_accumulated_data_db db; orphan_chain_tips_db := tips;
        orphan_parent_map_index := orphan_parent_map_index db |}.

Definition delete_orphan_chain_tip (hash : bytes) (db : OrphanTables) : stored_result OrphanTables :=
  tips ← lmdb_delete hash (orphan_chain_tips_db db);
  Ok {| orphans_db := orphans_db db; orphan_header_accumulated_data_db := orphan_header_accumulated_data_db db; orphan_chain_tips_db := tips;
        orphan_parent_map_index := orphan_parent_map_index db |}.

(** ** Pruning and horizon synchronisation *)

(** [UpdateBlockAccumulatedData]. *)
Record AccumulatedDataUpdate := {
  kernel_hash_set : option (list bytes); utxo_hash_set : option (list bytes); witness_hash_set : option (list bytes);
  deleted_diff : option (gset Z); update_kernel_sum : option PedersenCommitment;
}.

(** The value of the first key from [key] on. *)
Definition lmdb_first_after {V} (key : Z) (db : gmap Z V) : option V :=
  snd <$> fold_left (fun first e =>
    match first with
    | Some f => if (key <=? e.1) && (e.1 <? f.1) then Some e else Some f
    | None => if key <=? e.1 then Some e else None
    end) (map_to_list db) None.

Definition with_txos (t : TxoTables) (db : LMDBDatabase) : LMDBDatabase :=
  {| header_tables := header_tables db; block_accumulated_data_db := block_accumulated_data_db db; deleted_bitmap := deleted_bitmap db; txo_tables := t;
     kernel_tables := kernel_tables db; side_tables := side_tables db |}.
Definition with_kernels (t : KernelTables) (db : LMDBDatabase) : LMDBDatabase :=
  {| header_tables := header_tables db; block_accumulated_data_db := block_accumulated_data_db db; deleted_bitmap := deleted_bitmap db; txo_tables := txo_tables db;
     kernel_tables := t; side_tables := side_tables db |}.

Definition prune_output (key : bytes * Z) (db : TxoTables) : stored_result TxoTables :=
  output ← or_not_found (utxos_db db !! key);
  _ ← ok_or (or_output output) DataInconsistencyDetected;
  Ok {| utxo_commitment_index := utxo_commitment_index db; txos_hash_to_index_db := txos_hash_to_index_db db;
        utxos_db := <[key := {| or_output := None; or_header_hash := or_header_hash output; or_mmr_position := or_mmr_position output; or_hash := or_hash output;
          or_witness_hash := or_witness_hash output; or_mined_height := or_mined_height output; or_mined_timestamp := or_mined_timestamp output |}]> (utxos_db db);
        inputs_db := inputs_db db; deleted_txo_mmr_position_to_height_index := deleted_txo_mmr_position_to_height_index db |}.

Definition insert_pruned_output (header_hash : bytes) (header_height : Z) (output_hash witness_hash : bytes) (mmr_position timestamp : Z) (db : LMDBDatabase)
    : stored_result LMDBDatabase :=
  match block_hashes_db (header_tables db) !! header_hash with
  | None => Err InvalidOperation
  | Some _ =>
      let key := (header_hash, mmr_position) in
      let t := txo_tables db in
      txos ← lmdb_insert output_hash (mmr_position, key) (txos_hash_to_index_db t);
      utxos ← lmdb_insert key
        {| or_output := None; or_header_hash := header_hash; or_mmr_position := mmr_position; or_hash := output_hash; or_witness_hash := witness_hash;
           or_mined_height := header_height; or_mined_timestamp := timestamp |} (utxos_db t);
      Ok (with_txos {| utxo_commitment_index := utxo_commitment_index t; txos_hash_to_index_db := txos; utxos_db := utxos; inputs_db := inputs_db t;
                       deleted_txo_mmr_position_to_height_index := deleted_txo_mmr_position_to_height_index t |} db)
  end.

Definition update_block_accumulated_data (header_hash : bytes) (values : AccumulatedDataUpdate) (db : LMDBDatabase) : stored_result LMDBDatabase :=
  height ← or_not_found (block_hashes_db (header_tables db) !! header_hash);
  let data := default accumulated_default (block_accumulated_data_db db !! height) in
  let data :=
    {| acc_kernels := default (acc_kernels data) (kernel_hash_set values); acc_outputs := default (acc_outputs data) (utxo_hash_set values);
       acc_witness := default (acc_witness data) (witness_hash_set values); acc_deleted := default (acc_deleted data) (deleted_diff values);
       acc_kernel_sum := default (acc_kernel_sum data) (update_kernel_sum values) |} in
  Ok {| header_tables := header_tables db; block_accumulated_data_db := <[height := data]> (block_accumulated_data_db db); deleted_bitmap := deleted_bitmap db;
        txo_tables := txo_tables db; kernel_tables := kernel_tables db; side_tables := side_tables db |}.

Definition update_deleted_bitmap (deleted : gset Z) (db : LMDBDatabase) : LMDBDatabase :=
  {| header_tables := header_tables db; block_accumulated_data_db := block_accumulated_data_db db; deleted_bitmap := deleted_bitmap db ∪ deleted;
     txo_tables := txo_tables db; kernel_tables := kernel_tables db; side_tables := side_tables db |}.

Definition delete_all_inputs_in_block (block_hash : bytes) (db : TxoTables) : TxoTables :=
  {| utxo_commitment_index := utxo_commitment_index db; txos_hash_to_index_db := txos_hash_to_index_db db; utxos_db := utxos_db db;
     inputs_db := filter (fun e => e.1.1.1 <> block_hash) (inputs_db db);
     deleted_txo_mmr_position_to_height_index := deleted_txo_mmr_position_to_height_index db |}.

(** The block of a position is the first one whose range of outputs is longer. *)
Definition prune_output_at (index : gmap Z (Z * bytes)) (db : TxoTables) (pos : Z) : stored_result TxoTables :=
  after ← arith 0 U32_MAX (pos + 1);
  '(_, hash) ← or_not_found (lmdb_first_after after index);
  prune_output (hash, pos) db.

Definition prune_outputs_at_positions (output_positions : list Z) (db : LMDBDatabase) : stored_result LMDBDatabase :=
  txos ← foldM (prune_output_at (output_mmr_size_index (header_tables db))) output_positions (txo_tables db);
  Ok (with_txos txos db).

(** [cfg(not(test))] *)
Definition CLEAN_BAD_BLOCKS_BEFORE_REL_HEIGHT : Z := 0.

Definition insert_bad_block_and_cleanup (hash : bytes) (height : Z) (db : Database) : Database :=
  let blocks := <[hash := height]> (bad_blocks db) in
  let deleted_before_height := Z.max 0 (height_of_longest_chain (md_tip (metadata db)) - CLEAN_BAD_BLOCKS_BEFORE_REL_HEIGHT) in
  let blocks := if deleted_before_height =? 0 then blocks else filter (fun e => ~ e.2 < deleted_before_height) blocks in
  {| lmdb := lmdb db; orphans := orphans db; metadata := metadata db; monero_seed_height_db := monero_seed_height_db db; reorgs := reorgs db; bad_blocks := blocks |}.

Definition bad_block_exists (hash : bytes) (db : Database) : bool := bool_decide (is_Some (bad_blocks db !! hash)).

(** ** Write transactions *)

Inductive WriteOperation :=
| InsertOrphanBlock (block : Block)
| InsertChainOrphanBlock (block : ChainBlock)
| InsertChainHeader (header : LinkedHeader)
| InsertBlockBody (block : ChainBlock)
| InsertKernel (header_hash : bytes) (kernel : TransactionKernel) (mmr_position : Z)
| InsertOutput (header_hash : bytes) (header_height : Z) (output : TransactionOutput) (mmr_position timestamp : Z)
| InsertPrunedOutput (header_hash : bytes) (header_height : Z) (output_hash witness_hash : bytes) (mmr_position timestamp : Z)
| InsertBadBlock (hash : bytes) (height : Z)
| DeleteHeader (height : Z)
| DeleteOrphan (hash : bytes)
| DeleteBlock (hash : bytes)
| DeleteOrphanChainTip (hash : bytes)
| InsertOrphanChainTip (hash : bytes)
| InsertMoneroSeedHeight (seed : bytes) (height : Z)
| UpdateBlockAccumulatedData (header_hash : bytes) (values : AccumulatedDataUpdate)
| UpdateDeletedBitmap (deleted : gset Z)
| PruneOutputsAtMmrPositions (output_positions : list Z)
| DeleteAllInputsInBlock (block_hash : bytes)
| SetAccumulatedDataForOrphan (data : HeaderData)
| SetBestBlock (height : Z) (hash : bytes) (accumulated_difficulty : Z) (expected_prev_best_block : bytes) (timestamp : Z)
| SetPruningHorizonConfig (pruning_horizon : Z)
| SetPrunedHeight (height : Z)
| SetHorizonData (horizon_data : HorizonData)
| InsertReorg (reorg : Reorg)
| ClearAllReorgs.

Definition insert_monero_seed_height (seed : bytes) (height : Z) (db : Database) : Database :=
  if height <? default U64_MAX (monero_seed_height_db db !! seed) then
    {| lmdb := lmdb db; orphans := orphans db; metadata := metadata db; monero_seed_height_db := <[seed := height]> (monero_seed_height_db db); reorgs := reorgs db;
       bad_blocks := bad_blocks db |}
  else db.

Definition set_best_block (height : Z) (hash : bytes) (accumulated_difficulty : Z) (expected_prev_best_block : bytes) (timestamp : Z) (db : Database)
    : stored_result Database :=
  if (0 <? height) && negb (bool_decide (expected_prev_best_block = best_block (md_tip (metadata db)))) then Err InvalidOperation
  else
    match block_hashes_db (header_tables (lmdb db)) !! hash with
    | None => Err InvalidOperation
    | Some _ =>
        Ok (with_metadata {| md_tip := {| height_of_longest_chain := height; best_block := hash |}; md_accumulated_difficulty := accumulated_difficulty;
                             md_timestamp := timestamp; md_pruning_horizon := md_pruning_horizon (metadata db); md_pruned_height := md_pruned_height (metadata db);
                             md_horizon_data := md_horizon_data (metadata db) |} db)
    end.

Definition insert_reorg (reorg : Reorg) (db : Database) : Database :=
  {| lmdb := lmdb db; orphans := orphans db; metadata := metadata db; monero_seed_height_db := monero_seed_height_db db;
     reorgs := <[local_time reorg := reorg]> (reorgs db); bad_blocks := bad_blocks db |}.

Definition clear_all_reorgs (db : Database) : Database :=
  {| lmdb := lmdb db; orphans := orphans db; metadata := metadata db; monero_seed_height_db := monero_seed_height_db db; reorgs := ∅; bad_blocks := bad_blocks db |}.

Definition set_pruning_horizon (pruning_horizon : Z) (self : DbMetadata) : DbMetadata :=
  {| md_tip := md_tip self; md_accumulated_difficulty := md_accumulated_difficulty self; md_timestamp := md_timestamp self;
     md_pruning_horizon := pruning_horizon; md_pruned_height := md_pruned_height self; md_horizon_data := md_horizon_data self |}.
Definition set_pruned_height (height : Z) (self : DbMetadata) : DbMetadata :=
  {| md_tip := md_tip self; md_accumulated_difficulty := md_accumulated_difficulty self; md_timestamp := md_timestamp self;
     md_pruning_horizon := md_pruning_horizon self; md_pruned_height := height; md_horizon_data := md_horizon_data self |}.
Definition set_horizon_data (data : HorizonData) (self : DbMetadata) : DbMetadata :=
  {| md_tip := md_tip self; md_accumulated_difficulty := md_accumulated_difficulty self; md_timestamp := md_timestamp self;
     md_pruning_horizon := md_pruning_horizon self; md_pruned_height := md_pruned_height self; md_horizon_data := Some data |}.

Section Write.
Context (manager : ConsensusManager).

Definition on_orphans (f : OrphanTables -> stored_result OrphanTables) (db : Database) : stored_result Database :=
  t ← f (orphans db);
  Ok (with_orphans t db).

Definition on_lmdb (f : LMDBDatabase -> stored_result LMDBDatabase) (db : Database) : stored_result Database :=
  t ← f (lmdb db);
  Ok (with_lmdb t db).

Definition apply_operation (db : Database) (op : WriteOperation) : stored_result Database :=
  match op with
  | InsertOrphanBlock block => on_orphans (insert_orphan_block block) db
  | InsertChainOrphanBlock block =>
      on_orphans (fun t => t ← insert_orphan_block (cb_block block) t; set_accumulated_data_for_orphan (cb_accumulated_data block) t) db
  | InsertChainHeader header =>
      on_lmdb (fun t => h ← insert_header (lh_header header) (lh_accumulated_data header) (header_tables t); Ok (with_headers h t)) db
  | InsertBlockBody block => on_lmdb (insert_block_body manager (cb_header block) (block_body (cb_block block))) db
  | DeleteHeader height => on_lmdb (delete_header height) db
  | DeleteOrphan hash => on_orphans (delete_orphan hash) db
  | DeleteOrphanChainTip hash => on_orphans (delete_orphan_chain_tip hash) db
  | InsertOrphanChainTip hash => on_orphans (insert_orphan_chain_tip hash) db
  | DeleteBlock hash => on_lmdb (delete_block_body hash) db
  | InsertMoneroSeedHeight seed height => Ok (insert_monero_seed_height seed height db)
  | SetAccumulatedDataForOrphan data => on_orphans (set_accumulated_data_for_orphan data) db
  | SetBestBlock height hash difficulty expected timestamp => set_best_block height hash difficulty expected timestamp db
  | InsertReorg reorg => Ok (insert_reorg reorg db)
  | ClearAllReorgs => Ok (clear_all_reorgs db)
  | InsertKernel header_hash kernel mmr_position =>
      on_lmdb (fun t => k ← insert_kernel header_hash kernel mmr_position (kernel_tables t); Ok (with_kernels k t)) db
  | InsertOutput header_hash header_height output mmr_position timestamp =>
      on_lmdb (fun t => o ← insert_output header_hash header_height output mmr_position timestamp (txo_tables t); Ok (with_txos o t)) db
  | InsertPrunedOutput header_hash header_height output_hash witness_hash mmr_position timestamp =>
      on_lmdb (insert_pruned_output header_hash header_height output_hash witness_hash mmr_position timestamp) db
  | InsertBadBlock hash height => Ok (insert_bad_block_and_cleanup hash height db)
  | UpdateBlockAccumulatedData header_hash values => on_lmdb (update_block_accumulated_data header_hash values) db
  | UpdateDeletedBitmap deleted => on_lmdb (fun t => Ok (update_deleted_bitmap deleted t)) db
  | PruneOutputsAtMmrPositions output_positions => on_lmdb (prune_outputs_at_positions output_positions) db
  | DeleteAllInputsInBlock block_hash => on_lmdb (fun t => Ok (with_txos (delete_all_inputs_in_block block_hash (txo_tables t)) t)) db
  | SetPruningHorizonConfig pruning_horizon => Ok (with_metadata (set_pruning_horizon pruning_horizon (metadata db)) db)
  | SetPrunedHeight height => Ok (with_metadata (set_pruned_height height (metadata db)) db)
  | SetHorizonData horizon_data => Ok (with_metadata (set_horizon_data horizon_data (metadata db)) db)
  end.

(** All operations, or none of them when one fails. *)
Definition db_write (txn : list WriteOperation) (db : Database) : stored_result Database := foldM apply_operation txn db.

End Write.

(** ** Reads *)

Implicit Types db : Database.

Definition fetch_header (height : Z) db : stored_result BlockHeader := or_not_found (headers_db (header_tables (lmdb db)) !! height).

Definition fetch_last_header db : stored_result BlockHeader := or_not_found (lmdb_last (headers_db (header_tables (lmdb db)))).

Definition fetch_header_by_block_hash (hash : bytes) db : option BlockHeader :=
  height ← block_hashes_db (header_tables (lmdb db)) !! hash;
  headers_db (header_tables (lmdb db)) !! height.

Definition fetch_chain_header_by_height (height : Z) db : stored_result LinkedHeader :=
  header ← or_not_found (headers_db (header_tables (lmdb db)) !! height);
  data ← or_not_found (header_accumulated_data_db (header_tables (lmdb db)) !! height);
  ok_or (header_try_construct header data) DataInconsistencyDetected.

Definition fetch_tip_header db : stored_result LinkedHeader := fetch_chain_header_by_height (height_of_longest_chain (md_tip (metadata db))) db.

Definition fetch_orphan_tip (hash : bytes) db : stored_result LinkedHeader :=
  orphan ← or_not_found (orphans_db (orphans db) !! hash);
  data ← or_not_found (orphan_header_accumulated_data_db (orphans db) !! hash);
  ok_or (header_try_construct (block_header orphan) data) DataInconsistencyDetected.

Definition fetch_orphan_chain_tip_by_hash (hash : bytes) db : stored_result (option LinkedHeader) :=
  match orphan_chain_tips_db (orphans db) !! hash with
  | None => Ok None
  | Some _ => tip ← fetch_orphan_tip hash db; Ok (Some tip)
  end.

Definition fetch_all_orphan_chain_tips db : stored_result (list LinkedHeader) :=
  mapM (fun hash => fetch_orphan_tip hash db) (omap (fun k => orphan_chain_tips_db (orphans db) !! k) (in_order (map fst (map_to_list (orphan_chain_tips_db (orphans db)))))).

Definition fetch_orphan_children_of (parent_hash : bytes) db : stored_result (list Block) :=
  mapM (fun hash => or_not_found (orphans_db (orphans db) !! hash)) (lmdb_get_multiple parent_hash (orphan_parent_map_index (orphans db))).

Definition fetch_orphan_chain_block (hash : bytes) db : stored_result (option ChainBlock) :=
  match orphans_db (orphans db) !! hash, orphan_header_accumulated_data_db (orphans db) !! hash with
  | Some block, Some data => chain_block ← ok_or (block_try_construct block data) DataInconsistencyDetected; Ok (Some chain_block)
  | _, _ => Ok None
  end.

Definition fetch_chain_header_in_all_chains (hash : bytes) db : stored_result LinkedHeader :=
  match block_hashes_db (header_tables (lmdb db)) !! hash with
  | Some height => fetch_chain_header_by_height height db
  | None =>
      match orphan_header_accumulated_data_db (orphans db) !! hash with
      | Some data =>
          orphan ← ok_or (orphans_db (orphans db) !! hash) DataInconsistencyDetected;
          ok_or (header_try_construct (block_header orphan) data) DataInconsistencyDetected
      | None => Err ValueNotFound
      end
  end.

(** ** Reading a block *)

Record HistoricalBlock := {
  hb_block : Block; confirmations : Z; hb_accumulated_data : HeaderData; pruned_outputs : list (bytes * bytes); pruned_input_count : Z;
}.

Definition check_for_valid_height (height : Z) db : stored_result (Z * bool) :=
  let tip_height := height_of_longest_chain (md_tip (metadata db)) in
  if height >? tip_height then Err InvalidQuery else Ok (tip_height, height <? md_pruned_height (metadata db)).

Definition fetch_kernels_in_block (hash : bytes) db : list TransactionKernel := map kr_kernel (kernel_rows_of hash (kernels_db (kernel_tables (lmdb db)))).

Definition row_to_pruned (row : TransactionOutputRowData) : PrunedOutput :=
  match or_output row with Some o => NotPruned o | None => Pruned (or_hash row) (or_witness_hash row) end.

Definition fetch_outputs_in_block (hash : bytes) db : list PrunedOutput := map row_to_pruned (output_rows_of hash (utxos_db (txo_tables (lmdb db)))).

Definition fetch_inputs_in_block (hash : bytes) db : list TransactionInput := map ir_input (input_rows_of hash (inputs_db (txo_tables (lmdb db)))).

Definition populate_input (compact : bool) db (compact_input : TransactionInput) : stored_result TransactionInput :=
  if compact then Ok compact_input
  else
    hash ← input_output_hash compact_input;
    utxo_mined_info ← ok_or (fetch_output_in_txn hash (txo_tables (lmdb db))) InvalidBlock;
    match utxo_mined_info with
    | Pruned _ _ => Ok compact_input
    | NotPruned output =>
        Ok (add_output_data compact_input (out_version output) (out_features output) (out_commitment output) (out_script output)
          (out_sender_offset_public_key output) (out_covenant output) (out_encrypted_data output) (out_minimum_value_promise output))
    end.

Definition pruned_inputs (height : Z) db : stored_result Z :=
  deleted ← or_not_found (block_accumulated_data_db (lmdb db) !! height);
  prev ← (if 0 <? height then prev ← or_not_found (block_accumulated_data_db (lmdb db) !! (height - 1)); Ok (acc_deleted prev) else Ok ∅);
  Ok (Z.of_nat (size (acc_deleted deleted ∖ prev))).

(** [BlockBuilder]: the fees are added up, the body is sorted. *)
Definition block_build (header : BlockHeader) (ins : list TransactionInput) (outs : list TransactionOutput) (ks : list TransactionKernel) : stored_result Block :=
  _ ← foldM mt_add (map k_fee ks) 0;
  body ← body_sort (body_new ins outs ks);
  Ok {| block_header := header; block_body := body |}.

Definition fetch_block (height : Z) (compact : bool) db : stored_result HistoricalBlock :=
  '(tip_height, is_pruned) ← check_for_valid_height height db;
  chain_header ← fetch_chain_header_by_height height db;
  let data := lh_accumulated_data chain_header in
  let kernels := fetch_kernels_in_block (acc_hash data) db in
  let outputs := fetch_outputs_in_block (acc_hash data) db in
  inputs ← mapM (populate_input compact db) (fetch_inputs_in_block (acc_hash data) db);
  let unpruned := omap (fun o => match o with NotPruned o => Some o | Pruned _ _ => None end) outputs in
  let pruned := omap (fun o => match o with Pruned h w => Some (h, w) | NotPruned _ => None end) outputs in
  count ← (if (is_pruned : bool) then pruned_inputs height db else Ok 0);
  block ← block_build (lh_header chain_header) inputs unpruned kernels;
  Ok {| hb_block := block; confirmations := tip_height - height + 1; hb_accumulated_data := data; pruned_outputs := pruned; pruned_input_count := count |}.

Definition try_into_chain_block (self : HistoricalBlock) : stored_result ChainBlock :=
  if bool_decide (pruned_outputs self <> []) || (0 <? pruned_input_count self) then Err InvalidBlock
  else ok_or (block_try_construct (hb_block self) (hb_accumulated_data self)) InvalidBlock.

End Database.
