(* ===== verification/Reorg.v ===== *)
(** * Chain reorganisation

    src/base_layer/core/src/chain_storage/blockchain_database.rs: adding a block to the orphan pool, finding the
    strongest chain of orphans and switching to it, or restoring the previous chain.

    The functions write to the database as they go, and what they wrote stays when a later step fails: their type [dbM]
    returns the database in every case. The header and body validators are trait objects of the code and the class
    [Validators] here. *)

From S2P Require Import Prelude ScriptTypes Opcodes ScriptStack TariScript Amounts Emission Difficulty ConsensusConstants ConsensusManager MmrCommon.
From S2P Require Import Covenants MoneroMerkle TxComponents BlockHeader CovenantFilters AggregatedBody BodyValidator ChainStorage ChainDatabase.
From stdpp Require Import sorting.

Local Open Scope Z_scope.

(** ** Operations on the database *)

Section Monad.
Context {C : ScriptCrypto} {X : TxCrypto C}.

Definition dbM (A : Type) : Type := Database -> Database * stored_result A.

#[export] Instance dbM_ret : MRet dbM := fun A a db => (db, Ok a).

#[export] Instance dbM_bind : MBind dbM := fun A A' k m db =>
  match m db with
  | (db, Ok a) => k a db
  | (db, Err e) => (db, Err e)
  | (db, Panic) => (db, Panic)
  end.

(** A value computed from the database. *)
Definition db_read {A} (f : Database -> stored_result A) : dbM A := fun db => (db, f db).

Definition db_lift {A} (r : stored_result A) : dbM A := fun db => (db, r).

(** [if let Err(e) = m { ... }] *)
Definition db_try {A} (m : dbM A) : dbM (stored_result A) := fun db =>
  match m db with (db, Panic) => (db, Panic) | (db, r) => (db, Ok r) end.

(** [for x in l] *)
Fixpoint db_for {A S} (f : S -> A -> dbM S) (l : list A) (s : S) : dbM S :=
  match l with
  | [] => mret s
  | x :: l => s ← f s x; db_for f l s
  end.

End Monad.

Section Reorg.
Context {C : ScriptCrypto} {B : BorshPrims C} {X : TxCrypto C} {ML : MoneroLib} (manager : ConsensusManager).

(** The traits [InternalConsistencyValidator], [CandidateBlockValidator] and [HeaderChainLinkedValidator], and the difficulty
    calculator. *)
Class Validators := {
  validate_internal_consistency : Block -> stored_result unit;
  validate_body_with_metadata : Database -> ChainBlock -> ChainMetadata -> stored_result unit;
  validate_header : Database -> BlockHeader -> BlockHeader -> list Z -> stored_result AchievedTargetDifficulty;
  check_achieved_and_target_difficulty : Database -> BlockHeader -> stored_result AchievedTargetDifficulty;
}.

Definition write (txn : list WriteOperation) : dbM unit := fun db =>
  match db_write manager txn db with
  | Ok db => (db, Ok tt)
  | Err e => (db, Err e)
  | Panic => (db, Panic)
  end.

(** [0..n] *)
Definition range (n : Z) : list Z := map Z.of_nat (seq 0 (Z.to_nat n)).

(** ** The best chain *)

Definition insert_best_block (block : ChainBlock) : stored_result (list WriteOperation) :=
  let header := cb_header block in
  seed ←
    match bh_pow_algo header with
    | Monero => monero_header ← map_err (fun _ => InvalidArguments) (from_header header); Ok [InsertMoneroSeedHeight (md_randomx_key monero_header) (bh_height header)]
    | Sha3 => Ok []
    end;
  Ok (seed ++
    [InsertChainHeader {| lh_header := header; lh_accumulated_data := cb_accumulated_data block |}; InsertBlockBody block;
     SetBestBlock (bh_height header) (cb_hash block) (total_accumulated_difficulty (cb_accumulated_data block)) (bh_prev_hash header) (bh_timestamp header)]).

(** One block back; [last] is the height the chain had, [reset] tells that the best block is set to the genesis block. *)
Definition rewind_block (last : Z) (prune_past_horizon : bool) (steps_back : Z) (removed : list ChainBlock) (h : Z) : dbM (list ChainBlock) :=
  hist ← db_read (fetch_block (last - h) false);
  block ← db_lift (try_into_chain_block hist);
  is_orphan ← db_read (fun db => Ok (bool_decide (is_Some (orphans_db (orphans db) !! cb_hash block))));
  chain_header ← db_read (fetch_chain_header_by_height (if prune_past_horizon && (h + 1 =? steps_back) then 0 else last - h - 1));
  expected ← db_read (fun db => Ok (best_block (md_tip (metadata db))));
  _ ← write (
    [DeleteBlock (cb_hash block); DeleteHeader (last - h)] ++
    (if negb prune_past_horizon && negb is_orphan then [InsertChainOrphanBlock block] else []) ++
    [SetBestBlock (bh_height (lh_header chain_header)) (acc_hash (lh_accumulated_data chain_header))
       (total_accumulated_difficulty (lh_accumulated_data chain_header)) expected (bh_timestamp (lh_header chain_header))] ++
    (if h =? 0 then [InsertOrphanChainTip (cb_hash block)] else []));
  mret (removed ++ [block]).

Definition rewind_to_height (height : Z) : dbM (list ChainBlock) :=
  last_header ← db_read fetch_last_header;
  metadata ← db_read (fun db => Ok (metadata db));
  let last_header_height := bh_height last_header in
  let last_block_height := height_of_longest_chain (md_tip metadata) in
  steps_back ← db_lift (ok_or (checked 0 U64_MAX (last_header_height - Z.max last_block_height height)) InvalidQuery);
  _ ← db_for (fun _ h => write [DeleteHeader (last_header_height - h)]) (range steps_back) tt;
  let steps_back := Z.max 0 (last_block_height - height) in
  if steps_back =? 0 then mret []
  else
    effective_pruning_horizon ← db_lift (arith 0 U64_MAX (last_block_height - md_pruned_height metadata));
    let prune_past_horizon := is_pruned_node metadata && (steps_back >? effective_pruning_horizon) in
    let steps_back := if prune_past_horizon then effective_pruning_horizon else steps_back in
    removed_blocks ← db_for (rewind_block last_block_height prune_past_horizon steps_back) (range steps_back) [];
    _ ← (if prune_past_horizon then
           db_for (fun _ h =>
             header ← db_read (fetch_header (last_block_height - h - steps_back));
             write [DeleteBlock (bh_hash header)]) (range (last_block_height - steps_back)) tt
         else mret tt);
    mret removed_blocks.

Definition rewind_to_hash (block_hash : bytes) : dbM (list ChainBlock) :=
  target_header ← db_read (fun db => or_not_found (fetch_header_by_block_hash block_hash db));
  rewind_to_height (bh_height target_header).

Definition remove_orphan (hash : bytes) : dbM unit := write [DeleteOrphan hash].

(** The blocks from the fork to the tip are put back in one transaction. *)
Definition restore_reorged_chain (to_hash : bytes) (previous_chain : list ChainBlock) : dbM unit :=
  _ ← rewind_to_hash to_hash;
  txns ← db_lift (mapM (fun block => ops ← insert_best_block block; Ok (DeleteOrphan (cb_hash block) :: ops)) (rev previous_chain));
  write (concat txns).

Definition add_fork_block `{!Validators} (fork_hash : bytes) (removed_blocks : list ChainBlock) (block : ChainBlock) : dbM unit :=
  let block_hash := cb_hash block in
  chain_metadata ← db_read (fun db => Ok (md_tip (metadata db)));
  valid ← db_try (db_read (fun db => validate_body_with_metadata db block chain_metadata));
  match valid with
  | Ok _ =>
      ops ← db_lift (insert_best_block block);
      written ← db_try (write (DeleteOrphan block_hash :: ops));
      match written with
      | Ok _ => mret tt
      | Err e => _ ← restore_reorged_chain fork_hash removed_blocks; db_lift (Err e)
      | Panic => db_lift Panic
      end
  | Err e =>
      _ ← remove_orphan block_hash;
      _ ← restore_reorged_chain fork_hash removed_blocks;
      db_lift (Err e)
  | Panic => db_lift Panic
  end.

Definition reorganize_chain `{!Validators} (fork_hash : bytes) (chain : list ChainBlock) : dbM (list ChainBlock) :=
  removed_blocks ← rewind_to_hash fork_hash;
  _ ← db_for (fun _ block => add_fork_block fork_hash removed_blocks block) chain tt;
  mret removed_blocks.

(** ** The strongest chain *)

Inductive BlockAddResult :=
| BlockAdded (block : ChainBlock)
| BlockExists
| OrphanBlock
| ChainReorg (added removed : list ChainBlock).

Definition find_strongest_orphan_tip (cmp : Comparer) (tips : list LinkedHeader) : option LinkedHeader :=
  fold_left (fun best tip =>
    match best with
    | Some current_best => match cmp (to_chain_header current_best) (to_chain_header tip) with Lt => Some tip | _ => Some current_best end
    | None => Some tip
    end) tips None.

(** The walk ends when a parent is in the main chain or unknown; fuel stands for the number of orphans. *)
Fixpoint orphan_link (fuel : nat) (db : Database) (curr_hash : bytes) (chain : list ChainBlock) : stored_result (list ChainBlock) :=
  match fuel with
  | O => Err NotTerminating
  | S fuel =>
      found ← fetch_orphan_chain_block curr_hash db;
      curr_block ← ok_or found InvalidOperation;
      let curr_hash := bh_prev_hash (cb_header curr_block) in
      let chain := curr_block :: chain in
      match block_hashes_db (header_tables (lmdb db)) !! curr_hash with
      | Some _ => Ok chain
      | None => orphan_link fuel db curr_hash chain
      end
  end.

Definition get_orphan_link_main_chain (orphan_tip : bytes) (db : Database) : stored_result (list ChainBlock) :=
  orphan_link (S (size (orphans_db (orphans db)))) db orphan_tip [].

Definition from_reorged_blocks (now : Z) (added removed : list ChainBlock) : Reorg := {|
  new_height := default 0 ((fun b => bh_height (cb_header b)) <$> head added);
  new_hash := default zero_hash (cb_hash <$> head added);
  prev_height := default 0 ((fun b => bh_height (cb_header b)) <$> head removed);
  prev_hash := default zero_hash (cb_hash <$> head removed);
  num_blocks_added := Z.of_nat (length added);
  num_blocks_removed := Z.of_nat (length removed);
  local_time := now;
|}.

Definition swap_to_highest_pow_chain `{!Validators} (track_reorgs : bool) (now : Z) (cmp : Comparer) : dbM BlockAddResult :=
  tip ← db_read (fun db => Ok (height_of_longest_chain (md_tip (metadata db))));
  _ ← rewind_to_height tip;
  all_orphan_tips ← db_read fetch_all_orphan_chain_tips;
  if bool_decide (all_orphan_tips = []) then mret OrphanBlock
  else
    best_fork_header ← db_lift (ok_or (find_strongest_orphan_tip cmp all_orphan_tips) InvalidOperation);
    tip_header ← db_read fetch_tip_header;
    match cmp (to_chain_header best_fork_header) (to_chain_header tip_header) with
    | Gt =>
        reorg_chain ← db_read (get_orphan_link_main_chain (acc_hash (lh_accumulated_data best_fork_header)));
        front ← db_lift (expect (ok_or (head reorg_chain) InvalidOperation));
        removed_blocks ← reorganize_chain (bh_prev_hash (cb_header front)) reorg_chain;
        if (0 <? Z.of_nat (length removed_blocks)) || (1 <? Z.of_nat (length reorg_chain)) then
          _ ← (if track_reorgs then _ ← db_try (write [InsertReorg (from_reorged_blocks now reorg_chain removed_blocks)]); mret tt else mret tt);
          mret (ChainReorg reorg_chain removed_blocks)
        else mret (BlockAdded front)
    | _ => mret OrphanBlock
    end.

(** ** New orphans *)

(** The data of a header that follows another one. *)
Definition next_data (parent : HeaderData) (header : BlockHeader) (achieved : AchievedTargetDifficulty) : stored_result HeaderData :=
  map_err StorageBlockError (accumulated_build sk_add (with_total_kernel_offset (bh_total_kernel_offset header)
    (with_achieved_target_difficulty achieved (with_hash (bh_hash header) (from_previous parent))))).

(** Timestamps of the headers before [hash], the last first. *)
Fixpoint prev_timestamps (n : nat) (hash : bytes) (db : Database) : stored_result (list Z) :=
  match n with
  | O => Ok []
  | S n =>
      h ← fetch_chain_header_in_all_chains hash db;
      rest ← prev_timestamps n (bh_prev_hash (lh_header h)) db;
      Ok (bh_timestamp (lh_header h) :: rest)
  end.

Definition prev_timestamps_count {E} (height : Z) : result E nat :=
  constants ← consensus_constants manager height;
  before ← arith 0 U64_MAX (height - 1);
  Ok (Z.to_nat (Z.min (median_timestamp_count constants) before)).

(** Depth first through the orphans that follow a header; fuel stands for the number of orphans. *)
Fixpoint find_orphan_descendant_tips_of `{!Validators} (fuel : nat) (prev : LinkedHeader) (timestamps : list Z) : dbM (list LinkedHeader) :=
  match fuel with
  | O => db_lift (Err NotTerminating)
  | S fuel =>
      children ← db_read (fetch_orphan_children_of (acc_hash (lh_accumulated_data prev)));
      if bool_decide (children = []) then mret [prev]
      else
        db_for (fun res child =>
          let header := block_header child in
          valid ← db_try (db_read (fun db => validate_header db header (lh_header prev) timestamps));
          match valid with
          | Ok achieved_target =>
              accum_data ← db_lift (next_data (lh_accumulated_data prev) header achieved_target);
              chain_header ← db_lift (ok_or (header_try_construct header accum_data) InvalidOperation);
              _ ← write [SetAccumulatedDataForOrphan accum_data];
              tips ← find_orphan_descendant_tips_of fuel chain_header (bh_timestamp header :: timestamps);
              mret (res ++ tips)
          | Err _ => _ ← write [DeleteOrphan (bh_hash header)]; mret res
          | Panic => db_lift Panic
          end) children []
  end.

(** [.optional()] *)
Definition optional {A} (r : stored_result A) : stored_result (option A) :=
  match r with Ok a => Ok (Some a) | Err ValueNotFound => Ok None | Err e => Err e | Panic => Panic end.

(** The header the new block follows: a candidate tip, which it replaces, or another known header. *)
Definition orphan_parent (prev_hash : bytes) : dbM (option LinkedHeader) :=
  tip ← db_read (fetch_orphan_chain_tip_by_hash prev_hash);
  match tip with
  | Some curr_parent => _ ← write [DeleteOrphanChainTip prev_hash]; mret (Some curr_parent)
  | None => db_read (fun db => optional (fetch_chain_header_in_all_chains prev_hash db))
  end.

Definition insert_orphan_and_find_new_tips `{!Validators} (block : Block) : dbM unit :=
  let header := block_header block in
  let hash := bh_hash header in
  seen ← db_read (fun db => Ok (bool_decide (is_Some (orphans_db (orphans db) !! hash))));
  if (seen : bool) then mret tt
  else
    parent ← orphan_parent (bh_prev_hash header);
    match parent with
    | None => write [InsertOrphanBlock block]
    | Some parent =>
        count ← db_lift (prev_timestamps_count (bh_height header));
        before ← db_read (prev_timestamps count (bh_prev_hash header));
        _ ← db_read (fun db => validate_header db header (lh_header parent) (bh_timestamp header :: before));
        achieved_target_diff ← db_read (fun db => check_achieved_and_target_difficulty db header);
        accumulated_data ← db_lift (next_data (lh_accumulated_data parent) header achieved_target_diff);
        chain_header ← db_lift (expect (ok_or (header_try_construct header accumulated_data) InvalidOperation));
        known ← db_read (fun db => Ok (bool_decide (is_Some (orphans_db (orphans db) !! hash))));
        _ ← write ((if (known : bool) then [] else [InsertOrphanBlock block]) ++ [SetAccumulatedDataForOrphan accumulated_data]);
        count ← db_lift (prev_timestamps_count (bh_height header));
        before ← db_read (prev_timestamps count hash);
        fuel ← db_read (fun db => Ok (S (size (orphans_db (orphans db)))));
        tips ← find_orphan_descendant_tips_of fuel chain_header (bh_timestamp header :: before);
        write (map (fun tip => InsertOrphanChainTip (acc_hash (lh_accumulated_data tip))) tips)
    end.

Definition handle_possible_reorg `{!Validators} (track_reorgs : bool) (now : Z) (cmp : Comparer) (new_block : Block) : dbM BlockAddResult :=
  _ ← insert_orphan_and_find_new_tips new_block;
  swap_to_highest_pow_chain track_reorgs now cmp.

(** ** Cleaning up *)

Definition height_le (a b : Z * bytes) : Prop := a.1 <= b.1.

#[local] Instance height_le_dec a b : Decision (height_le a b).
Proof. unfold height_le. apply _. Defined.

Fixpoint oldest (horizon_height : Z) (num_over_limit : nat) (l : list (Z * bytes)) : list bytes :=
  match l with
  | [] => []
  | (height, hash) :: l =>
      if (height >? horizon_height) && (num_over_limit =? 0)%nat then [] else hash :: oldest horizon_height (pred num_over_limit) l
  end.

Definition delete_oldest_orphans (horizon_height : Z) (orphan_storage_capacity : nat) : dbM unit :=
  rows ← db_read (fun db => Ok (orphans_db (orphans db)));
  let num_over_limit := (size rows - orphan_storage_capacity)%nat in
  if (num_over_limit =? 0)%nat then mret tt
  else
    let blocks := omap (fun k => rows !! k) (in_order (map fst (map_to_list rows))) in
    let by_height := merge_sort height_le (map (fun b => (bh_height (block_header b), bh_hash (block_header b))) blocks) in
    write (map DeleteOrphan (oldest horizon_height num_over_limit by_height)).

Definition horizon_block (self : DbMetadata) (chain_tip : Z) : Z :=
  if md_pruning_horizon self =? 0 then 0 else Z.max 0 (chain_tip - md_pruning_horizon self).

Definition cleanup_orphans (orphan_storage_capacity : nat) : dbM unit :=
  metadata ← db_read (fun db => Ok (metadata db));
  delete_oldest_orphans (horizon_block metadata (height_of_longest_chain (md_tip metadata))) orphan_storage_capacity.

(** ** Pruning *)

(** The outputs that a block spent and its inputs are removed; many blocks take several transactions. *)
Definition prune_block (state : gset Z * list WriteOperation) (block_to_prune : Z) : dbM (gset Z * list WriteOperation) :=
  let '(last_deleted, txn) := state in
  header ← db_read (fetch_chain_header_by_height block_to_prune);
  curr_block ← db_read (fun db => or_not_found (block_accumulated_data_db (lmdb db) !! block_to_prune));
  let output_mmr_positions := merge_sort Z.le (elements (acc_deleted curr_block ∖ last_deleted)) in
  let txn := txn ++ [PruneOutputsAtMmrPositions output_mmr_positions; DeleteAllInputsInBlock (acc_hash (lh_accumulated_data header))] in
  if 100 <=? Z.of_nat (length txn) then
    _ ← write (txn ++ [SetPrunedHeight block_to_prune]);
    mret (acc_deleted curr_block, [])
  else mret (acc_deleted curr_block, txn).

Definition prune_to_height (target_horizon_height : Z) : dbM unit :=
  metadata ← db_read (fun db => Ok (metadata db));
  let last_pruned := md_pruned_height metadata in
  if target_horizon_height <? last_pruned then db_lift (Err InvalidArguments)
  else if target_horizon_height =? last_pruned then mret tt
  else if target_horizon_height >? height_of_longest_chain (md_tip metadata) then db_lift (Err InvalidArguments)
  else
    last_block ← db_read (fun db => or_not_found (block_accumulated_data_db (lmdb db) !! last_pruned));
    '(_, txn) ← db_for prune_block (map (fun i => last_pruned + 1 + i) (range (target_horizon_height - last_pruned))) (acc_deleted last_block, []);
    write (txn ++ [SetPrunedHeight target_horizon_height]).

Definition prune_database_if_needed (pruning_horizon pruning_interval : Z) : dbM unit :=
  metadata ← db_read (fun db => Ok (metadata db));
  if negb (is_pruned_node metadata) then mret tt
  else
    let abs_pruning_horizon := Z.max 0 (height_of_longest_chain (md_tip metadata) - pruning_horizon) in
    if md_pruned_height metadata <? Z.max 0 (abs_pruning_horizon - pruning_interval) then prune_to_height abs_pruning_horizon else mret tt.

(** ** The public interface *)

Record BlockchainDatabaseConfig := { orphan_storage_capacity : nat; cfg_pruning_horizon : Z; cfg_pruning_interval : Z; cfg_track_reorgs : bool }.

Definition was_chain_modified (self : BlockAddResult) : bool := match self with BlockAdded _ | ChainReorg _ _ => true | _ => false end.

Definition add_block `{!Validators} (disable_add_block_flag : bool) (config : BlockchainDatabaseConfig) (now : Z) (cmp : Comparer) (block : Block) : dbM BlockAddResult :=
  if disable_add_block_flag then db_lift (Err AddBlockOperationLocked)
  else
    exists_ ← db_read (fun db => Ok (bool_decide (is_Some (block_hashes_db (header_tables (lmdb db)) !! bh_hash (block_header block)))));
    if (exists_ : bool) then mret BlockExists
    else
      _ ← db_lift (validate_internal_consistency block);
      block_add_result ← handle_possible_reorg (cfg_track_reorgs config) now cmp block;
      _ ← (if was_chain_modified block_add_result then prune_database_if_needed (cfg_pruning_horizon config) (cfg_pruning_interval config) else mret tt);
      _ ← db_try (cleanup_orphans (orphan_storage_capacity config));
      mret block_add_result.

(** Headers without a block are deleted in one transaction, the last first. *)
Definition clear_all_pending_headers : dbM Z :=
  last ← db_read (fun db => Ok (lmdb_last (headers_db (header_tables (lmdb db)))));
  match last with
  | None => mret 0
  | Some last_header =>
      metadata ← db_read (fun db => Ok (metadata db));
      let tip := height_of_longest_chain (md_tip metadata) in
      if tip =? bh_height last_header then mret 0
      else
        let heights := map (fun i => bh_height last_header - i) (range (bh_height last_header - tip)) in
        _ ← write (map DeleteHeader heights);
        mret (Z.of_nat (length heights))
  end.

End Reorg.
