(* ===== verification/HeaderValidator.v ===== *)
(** * Validation of headers

    src/base_layer/core/src/validation: header/header_full_validator.rs, difficulty_calculator.rs and the header checks of
    helpers.rs; [fetch_target_difficulty_for_next_block] and [fetch_target_difficulties_for_next_block] of
    chain_storage/blockchain_database.rs with chain_storage/target_difficulties.rs; the header validator of the
    synchronisation, base_node/sync/header_sync/validator.rs, with its window of timestamps (common/rolling_vec.rs).

    The mean of two times ([EpochTime] of tari_utilities) is an operation of a class, and the time of the check
    ([EpochTime::now()]) is an argument. *)

From S2P Require Import Prelude ScriptTypes Opcodes ScriptStack TariScript Amounts Emission Difficulty ConsensusConstants ConsensusManager MmrCommon.
From S2P Require Import Covenants MoneroMerkle TxComponents BlockHeader CovenantFilters AggregatedBody BodyValidator ChainStorage ChainDatabase Reorg.

Local Open Scope Z_scope.

(** [(a + b) / 2] *)
Class EpochMean := epoch_mean : Z -> Z -> Z.

Class EpochMeanLaws (M : EpochMean) : Prop := {
  epoch_mean_value a b : 0 <= a -> 0 <= b -> a + b <= U64_MAX -> epoch_mean a b = (a + b) / 2;
}.

(** [BlockHeaderValidationError] and the other errors of the header checks. *)
Inductive HeaderError :=
| InvalidBlockchainVersion (version : Z)
| NotEnoughTimestamps (expected actual : Z)
| InvalidTimestamp
| InvalidTimestampFutureTimeLimit
| InvalidHeight (expected actual : Z)
| InvalidPreviousHash
| BadBlockFound
| OldSeedHash
| PowDataNotEmpty
| AchievedDifficultyTooLow (achieved target : Difficulty)
| HeaderMergeMineError (e : MergeMineError)
| HeaderStorageError (e : ChainStorageError).

(** ** Timestamps *)

Section Median.
Context `{EpochMean}.

Definition calc_median_timestamp {E} (timestamps : list Z) : result E Z :=
  match timestamps with
  | [] => Panic
  | _ =>
      let mid_index := (length timestamps / 2)%nat in
      if Nat.even (length timestamps) then
        a ← index timestamps (mid_index - 1);
        b ← index timestamps mid_index;
        Ok (epoch_mean a b)
      else index timestamps mid_index
  end.

End Median.

(** A vector that keeps its capacity by dropping its first element. *)
Record RollingVec (A : Type) := { rv_capacity : nat; rv_items : list A }.
Arguments rv_capacity {A}.
Arguments rv_items {A}.
Arguments Build_RollingVec {A}.

Section RollingVec.
Context {A : Type}.
Implicit Types self : RollingVec A.

Definition rolling_new (capacity : nat) : RollingVec A := {| rv_capacity := capacity; rv_items := [] |}.

Definition rolling_is_full self : bool := (length (rv_items self) =? rv_capacity self)%nat.

Definition rolling_push (item : A) self : RollingVec A :=
  if (rv_capacity self =? 0)%nat then self
  else
    let items := if rolling_is_full self then drop 1 (rv_items self) else rv_items self in
    {| rv_capacity := rv_capacity self; rv_items := items ++ [item] |}.

Definition rolling_insert {E} (i : nat) (item : A) self : result E (RollingVec A) :=
  if decide (i < rv_capacity self)%nat then
    if decide (i < length (rv_items self))%nat then
      let items := if rolling_is_full self then drop 1 (rv_items self) else rv_items self in
      items ← vec_insert items i item;
      Ok {| rv_capacity := rv_capacity self; rv_items := items |}
    else Panic
  else Panic.

Definition rolling_extend (items : list A) self : RollingVec A :=
  let skip := if decide (rv_capacity self < length items)%nat then (length items - rv_capacity self)%nat else 0%nat in
  fold_left (fun self item => rolling_push item self) (drop skip items) self.

End RollingVec.

(** ** The full validator *)

Section HeaderValidator.
Context {C : ScriptCrypto} {B : BorshPrims C} {X : TxCrypto C} {ML : MoneroLib} `{U256Ops} `{EpochOps} `{EpochMean} (manager : ConsensusManager).
Abbreviation hcheck := (result HeaderError).
Implicit Types (header prev_header : BlockHeader) (db : Database).

Definition check_blockchain_version (constants : ConsensusConstants) (version : Z) : hcheck unit :=
  if in_range (valid_blockchain_version_range constants) version then Ok tt else Err (InvalidBlockchainVersion version).

Definition check_timestamp_count header (prev_timestamps : list Z) (constants : ConsensusConstants) : hcheck unit :=
  before ← arith 0 USIZE_MAX (bh_height header - 1);
  let expected_timestamp_count := Z.min (median_timestamp_count constants) before in
  let timestamps := take (Z.to_nat expected_timestamp_count) prev_timestamps in
  if Z.of_nat (length timestamps) <? expected_timestamp_count then Err (NotEnoughTimestamps expected_timestamp_count (Z.of_nat (length timestamps)))
  else Ok tt.

Definition check_header_timestamp_greater_than_median header (timestamps : list Z) : hcheck unit :=
  match timestamps with
  | [] => Err InvalidTimestamp
  | _ =>
      median_timestamp ← calc_median_timestamp timestamps;
      if bh_timestamp header <? median_timestamp then Err InvalidTimestamp else Ok tt
  end.

Definition check_height header prev_header : hcheck unit :=
  expected ← arith 0 U64_MAX (bh_height prev_header + 1);
  if bh_height header =? expected then Ok tt else Err (InvalidHeight expected (bh_height header)).

Definition check_prev_hash header prev_header : hcheck unit :=
  if bool_decide (bh_prev_hash header = bh_hash prev_header) then Ok tt else Err InvalidPreviousHash.

(** [ConsensusConstants::ftl] *)
Definition ftl (now : Z) (constants : ConsensusConstants) : Z := now + future_time_limit constants.

Definition check_timestamp_ftl (now : Z) header : hcheck unit :=
  constants ← consensus_constants manager (bh_height header);
  if ftl now constants <? bh_timestamp header then Err InvalidTimestampFutureTimeLimit else Ok tt.

Definition check_not_bad_block db (hash : bytes) : hcheck unit := if bad_block_exists hash db then Err BadBlockFound else Ok tt.

Definition fetch_monero_seed_first_seen_height (seed : bytes) db : Z := default 0 (monero_seed_height_db db !! seed).

Definition check_pow_data db header : hcheck unit :=
  match pw_algo (bh_pow header) with
  | Monero =>
      monero_data ← map_err HeaderMergeMineError (from_header header);
      let seed_height := fetch_monero_seed_first_seen_height (md_randomx_key monero_data) db in
      if seed_height =? 0 then Ok tt
      else
        let seed_used_height := Z.max 0 (bh_height header - seed_height) in
        constants ← consensus_constants manager (bh_height header);
        if max_randomx_seed_height constants <? seed_used_height then Err OldSeedHash else Ok tt
  | Sha3 => match pw_data (bh_pow header) with [] => Ok tt | _ => Err PowDataNotEmpty end
  end.

Definition check_target_difficulty header (target : Difficulty) : hcheck AchievedTargetDifficulty :=
  achieved ←
    match bh_pow_algo header with
    | Monero => map_err HeaderMergeMineError (monero_difficulty header)
    | Sha3 => sha3x_difficulty header
    end;
  ok_or (try_construct (bh_pow_algo header) target achieved) (AchievedDifficultyTooLow achieved target).

(** ** Target difficulties *)

Definition linked_height (h : LinkedHeader) : Z := bh_height (lh_header h).

Definition add_target (algo : PowAlgorithm) (h : LinkedHeader) (window : LinearWeightedMovingAverage) : LinearWeightedMovingAverage :=
  if decide (bh_pow_algo (lh_header h) = algo) then lwma_add_front (bh_timestamp (lh_header h)) (target_difficulty (lh_accumulated_data h)) window else window.

(** The [while] loop, through the headers before [header]. *)
Fixpoint target_window (fuel : nat) (algo : PowAlgorithm) (header : LinkedHeader) (window : LinearWeightedMovingAverage) db : stored_result LinearWeightedMovingAverage :=
  match fuel with
  | O => Err NotTerminating
  | S fuel =>
      if (0 <? linked_height header) && negb (lwma_is_full window) then
        header ← fetch_chain_header_in_all_chains (bh_prev_hash (lh_header header)) db;
        target_window fuel algo header (add_target algo header window) db
      else Ok window
  end.

(** Fuel: the number of headers there are. *)
Definition header_fuel db : nat := S (size (headers_db (header_tables (lmdb db))) + size (orphan_header_accumulated_data_db (orphans db))).

Definition fetch_target_difficulty_for_next_block (algo : PowAlgorithm) (current_block_hash : bytes) db : stored_result LinearWeightedMovingAverage :=
  header ← fetch_chain_header_in_all_chains current_block_hash db;
  height ← arith 0 U64_MAX (linked_height header + 1);
  window ← new_target_difficulty manager algo height;
  target_window (header_fuel db) algo header (add_target algo header window) db.

Definition calculator_check db header : hcheck AchievedTargetDifficulty :=
  difficulty_window ← map_err HeaderStorageError (fetch_target_difficulty_for_next_block (bh_pow_algo header) (bh_prev_hash header) db);
  constants ← consensus_constants manager (bh_height header);
  target ← window_calculate (min_pow_difficulty constants (bh_pow_algo header)) (max_pow_difficulty constants (bh_pow_algo header)) difficulty_window;
  check_target_difficulty header target.

Definition header_validate (bypass_prev_timestamp_verification : bool) (now : Z) db header prev_header (prev_timestamps : list Z) (target_difficulty : option Difficulty)
    : hcheck AchievedTargetDifficulty :=
  constants ← consensus_constants manager (bh_height header);
  _ ← check_blockchain_version constants (bh_version header);
  _ ← (if bypass_prev_timestamp_verification then Ok tt
       else _ ← check_timestamp_count header prev_timestamps constants; check_header_timestamp_greater_than_median header prev_timestamps);
  _ ← check_height header prev_header;
  _ ← check_prev_hash header prev_header;
  _ ← check_timestamp_ftl now header;
  _ ← check_not_bad_block db (bh_hash header);
  _ ← check_pow_data db header;
  match target_difficulty with
  | Some target => check_target_difficulty header target
  | None => calculator_check db header
  end.

(** ** Header synchronisation *)

Record TargetDifficulties := { td_monero : LinearWeightedMovingAverage; td_sha3 : LinearWeightedMovingAverage }.

Definition targets_new (height : Z) : stored_result TargetDifficulties :=
  monero ← new_target_difficulty manager Monero height;
  sha3 ← new_target_difficulty manager Sha3 height;
  Ok {| td_monero := monero; td_sha3 := sha3 |}.

Definition targets_get (algo : PowAlgorithm) (self : TargetDifficulties) : LinearWeightedMovingAverage :=
  match algo with Monero => td_monero self | Sha3 => td_sha3 self end.

Definition targets_alter (algo : PowAlgorithm) (f : LinearWeightedMovingAverage -> LinearWeightedMovingAverage) (self : TargetDifficulties) : TargetDifficulties :=
  match algo with
  | Monero => {| td_monero := f (td_monero self); td_sha3 := td_sha3 self |}
  | Sha3 => {| td_monero := td_monero self; td_sha3 := f (td_sha3 self) |}
  end.

Definition targets_add_back header (target_difficulty : Difficulty) : TargetDifficulties -> TargetDifficulties :=
  targets_alter (bh_pow_algo header) (lwma_add_back (bh_timestamp header) target_difficulty).

Definition targets_add_front header (target_difficulty : Difficulty) : TargetDifficulties -> TargetDifficulties :=
  targets_alter (bh_pow_algo header) (lwma_add_front (bh_timestamp header) target_difficulty).

Definition targets_is_full (self : TargetDifficulties) : bool := lwma_is_full (td_sha3 self) && lwma_is_full (td_monero self).

Definition targets_add_linked (h : LinkedHeader) (self : TargetDifficulties) : TargetDifficulties :=
  targets_add_front (lh_header h) (target_difficulty (lh_accumulated_data h)) self.

Fixpoint target_windows (fuel : nat) (header : LinkedHeader) (targets : TargetDifficulties) db : stored_result TargetDifficulties :=
  match fuel with
  | O => Err NotTerminating
  | S fuel =>
      if (0 <? linked_height header) && negb (targets_is_full targets) then
        header ← fetch_chain_header_in_all_chains (bh_prev_hash (lh_header header)) db;
        let targets := if lwma_is_full (targets_get (bh_pow_algo (lh_header header)) targets) then targets else targets_add_linked header targets in
        if targets_is_full targets then Ok targets else target_windows fuel header targets db
      else Ok targets
  end.

Definition fetch_target_difficulties_for_next_block (current_block_hash : bytes) db : stored_result TargetDifficulties :=
  current_header ← fetch_chain_header_in_all_chains current_block_hash db;
  height ← arith 0 U64_MAX (linked_height current_header + 1);
  targets ← targets_new height;
  target_windows (header_fuel db) current_header (targets_add_linked current_header targets) db.

(** [fetch_headers] of an ascending range: the headers up to the first that is missing. *)
Fixpoint fetch_headers (heights : list Z) db : list BlockHeader :=
  match heights with
  | [] => []
  | h :: heights => match headers_db (header_tables (lmdb db)) !! h with Some header => header :: fetch_headers heights db | None => [] end
  end.

Definition fetch_block_timestamps (start_hash : bytes) db : stored_result (RollingVec Z) :=
  start_header ← or_not_found (fetch_header_by_block_hash start_hash db);
  constants ← consensus_constants manager (bh_height start_header);
  let timestamp_window := median_timestamp_count constants in
  let start_window := Z.max 0 (bh_height start_header - timestamp_window) in
  let headers := fetch_headers (map (fun i => start_window + i) (range (bh_height start_header - start_window + 1))) db in
  Ok (rolling_extend (map bh_timestamp headers) (rolling_new (Z.to_nat timestamp_window))).

Definition fetch_header_accumulated_data (hash : bytes) db : option HeaderData :=
  h ← block_hashes_db (header_tables (lmdb db)) !! hash;
  header_accumulated_data_db (header_tables (lmdb db)) !! h.

Record SyncState := {
  ss_current_height : Z;
  ss_timestamps : RollingVec Z;
  ss_target_difficulties : TargetDifficulties;
  ss_previous_accum : HeaderData;
  ss_previous_header : BlockHeader;
  ss_valid_headers : list LinkedHeader;
}.

Definition initialize_state (start_hash : bytes) db : stored_result SyncState :=
  start_header ← or_not_found (fetch_header_by_block_hash start_hash db);
  timestamps ← fetch_block_timestamps start_hash db;
  target_difficulties ← fetch_target_difficulties_for_next_block start_hash db;
  previous_accum ← or_not_found (fetch_header_accumulated_data start_hash db);
  Ok {| ss_current_height := bh_height start_header; ss_timestamps := timestamps; ss_target_difficulties := target_difficulties;
        ss_previous_accum := previous_accum; ss_previous_header := start_header; ss_valid_headers := [] |}.

Definition insert_timestamp (timestamp : Z) (timestamps : RollingVec Z) : hcheck (RollingVec Z) :=
  match position (fun ts => timestamp <=? ts) (rv_items timestamps) with
  | Some pos => rolling_insert pos timestamp timestamps
  | None => Ok (rolling_push timestamp timestamps)
  end.

(** [BlockHeaderSyncValidator::validate]: its full validator is built with the check of the timestamps switched off. *)
Definition sync_validate (now : Z) header db (state : SyncState) : hcheck (Z * SyncState) :=
  constants ← consensus_constants manager (bh_height header);
  target ← window_calculate (min_pow_difficulty constants (bh_pow_algo header)) (max_pow_difficulty constants (bh_pow_algo header))
    (targets_get (bh_pow_algo header) (ss_target_difficulties state));
  achieved_target ← header_validate true now db header (ss_previous_header state) (rv_items (ss_timestamps state)) (Some target);
  timestamps ← insert_timestamp (bh_timestamp header) (ss_timestamps state);
  accumulated_data ← map_err HeaderStorageError (next_data (ss_previous_accum state) header achieved_target);
  chain_header ← unwrap (header_try_construct header accumulated_data);
  Ok (total_accumulated_difficulty accumulated_data,
      {| ss_current_height := bh_height header; ss_timestamps := timestamps;
         ss_target_difficulties := targets_add_back header target (ss_target_difficulties state);
         ss_previous_accum := accumulated_data; ss_previous_header := header; ss_valid_headers := ss_valid_headers state ++ [chain_header] |}).

End HeaderValidator.
