(* ===== verification/FullValidator.v ===== *)
(** * Validation of blocks against the chain

    src/base_layer/core/src: [BlockBodyFullValidator] of validation/block_body/block_body_full_validator.rs,
    [calculate_mmr_roots] of chain_storage/blockchain_database.rs with [fetch_active_validator_nodes] and
    [get_vn_set] (chain_storage/lmdb_db/lmdb_db.rs, validator_node_store.rs), [check_mmr_roots] of validation/helpers.rs;
    the validators of a base node as an instance of [Validators]; and the block synchronisation of
    base_node/sync/block_sync/synchronizer.rs on a stream of blocks from a peer.

    The ranges of the database are given by their leaves: their roots are those of the ranges of [Mmr] over these leaves.
    A leaf of the database is found by the table of indices, a leaf of the block by its position in the block.
    A panic is an outcome of its own: the release profile of Cargo.toml aborts the process. *)

From S2P Require Import Prelude ScriptTypes Opcodes ScriptStack TariScript Amounts Emission Difficulty ConsensusConstants ConsensusManager MmrCommon Mmr MutableMmr BalancedMerkle.
From S2P Require Import Covenants MoneroMerkle TxComponents BlockHeader CovenantFilters AggregatedBody BodyValidator ChainStorage ChainDatabase Reorg HeaderValidator.
From stdpp Require Import sorting.

Local Open Scope Z_scope.

(** The hashers of the ranges ([KernelMmrHasherBlake256] and the others of lib.rs). *)
Class BlockHashers := {
  kernel_hasher : Hasher;
  output_hasher : Hasher;
  witness_hasher : Hasher;
  input_hasher : Hasher;
  validator_node_hasher : Hasher;
  block_roaring :: CRoaring;
}.

Record MmrRoots := {
  mr_kernel_mr : bytes;
  mr_kernel_mmr_size : Z;
  mr_input_mr : bytes;
  mr_output_mr : bytes;
  mr_output_mmr_size : Z;
  mr_witness_mr : bytes;
  mr_validator_node_mr : bytes;
}.

Section FullValidator.
Context {C : ScriptCrypto} {B : BorshPrims C} {X : TxCrypto C} {ML : MoneroLib} {BH : BlockHashers} (manager : ConsensusManager).

(** ** Roots *)

(** [FixedHash::try_from] *)
Definition fixed_hash (hash : bytes) : stored_result bytes := if decide (length hash = 32%nat) then Ok hash else Err StorageFixedHashSizeError.

Definition range_root (H : Hasher) (leaves : list bytes) : stored_result bytes :=
  map_err (fun _ => MmrError) (mmr ← assign leaves (mmr_new []); get_merkle_root mmr).

(** [MutableMmr::get_merkle_root]: the root of the range and the bitmap. *)
Definition mutable_root (H : Hasher) (leaves : list bytes) (deleted : gset Z) : stored_result bytes :=
  root ← range_root H leaves;
  let bitmap := foldr bitmap_add bitmap_create (elements deleted) in
  Ok (@digest H (root ++ bitmap_serialize (bitmap_run_optimize bitmap).2)).

(** ** Validator nodes *)

(** The order of the keys of the store: height, public key, commitment. *)
Definition vn_key_le (a b : (Z * bytes * bytes) * ValidatorNodeEntry) : Prop :=
  let '((h1, k1, c1), _) := a in
  let '((h2, k2, c2), _) := b in
  h1 < h2 \/ h1 = h2 /\ (bytes_lt k1 k2 \/ k1 = k2 /\ (bytes_lt c1 c2 \/ c1 = c2)).

Definition shard_le (a b : RistrettoPublicKey * bytes) : Prop := bytes_lt a.2 b.2 \/ a.2 = b.2.

#[local] Instance bytes_lt_dec a b : Decision (bytes_lt a b).
Proof. unfold bytes_lt. apply _. Defined.
#[local] Instance vn_key_le_dec a b : Decision (vn_key_le a b).
Proof. destruct a as [[[? ?] ?] ?], b as [[[? ?] ?] ?]. unfold vn_key_le. apply _. Defined.
#[local] Instance shard_le_dec a b : Decision (shard_le a b).
Proof. unfold shard_le. apply _. Defined.

(** Of several registrations of a public key the last one is kept. *)
Fixpoint keep_last (l : list (RistrettoPublicKey * bytes)) : list (RistrettoPublicKey * bytes) :=
  match l with
  | [] => []
  | e :: l => if decide (Exists (fun e' => e'.1 = e.1) l) then keep_last l else e :: keep_last l
  end.

Definition get_vn_set (start_height end_height : Z) (db : SideTables) : list (RistrettoPublicKey * bytes) :=
  let entries := filter (fun e => start_height <= e.1.1.1 <= end_height) (map_to_list (db_validator_nodes db)) in
  let nodes := map (fun e => (vn_public_key e.2, vn_shard_key e.2)) (merge_sort vn_key_le entries) in
  merge_sort shard_le (keep_last nodes).

Definition fetch_active_validator_nodes (height : Z) (db : Database) : stored_result (list (RistrettoPublicKey * bytes)) :=
  constants ← consensus_constants manager height;
  end_epoch ← block_height_to_epoch constants height;
  let start_epoch := Z.max 0 (end_epoch - vn_validity_period_epochs constants) in
  start_height ← arith 0 U64_MAX (start_epoch * vn_epoch_length constants);
  end_height ← arith 0 U64_MAX (end_epoch * vn_epoch_length constants);
  Ok (get_vn_set start_height end_height (side_tables (lmdb db))).

Definition hash_node (node : RistrettoPublicKey * bytes) : bytes := consensus_hash TransactionHashDomain "validator_node" [pk_serialize node.1; node.2].

Definition calculate_validator_node_mr (validator_nodes : list (RistrettoPublicKey * bytes)) : stored_result bytes :=
  vn_bmt ← @tree_create validator_node_hasher ChainStorageError (map hash_node validator_nodes);
  Ok (@tree_get_merkle_root validator_node_hasher vn_bmt).

(** ** The roots of a block *)

(** A new output: its hash joins the range; a burned output is to be deleted. *)
Definition root_output (st : OutputMmr * list bytes * list Z) (output : TransactionOutput) : stored_result (OutputMmr * list bytes * list Z) :=
  let '(output_mmr, witness, deleted_outputs) := st in
  output_hash ← output_hash output;
  output_mmr ← om_push output_hash output_mmr;
  let witness := witness ++ [witness_hash output] in
  if output_is_burned output then
    index ← ok_or (om_find_leaf_index output_hash output_mmr) ValueNotFound;
    Ok (output_mmr, witness, deleted_outputs ++ [index])
  else Ok (output_mmr, witness, deleted_outputs).

(** An input: its hash joins the range of inputs; the output it spends is of the database or of the block. *)
Definition root_input (db : Database) (output_mmr : OutputMmr) (st : list bytes * list Z) (input : TransactionInput) : stored_result (list bytes * list Z) :=
  let '(input_leaves, deleted_outputs) := st in
  hash ← canonical_hash input;
  output_hash ← input_output_hash input;
  index ←
    match fst <$> txos_hash_to_index_db (txo_tables (lmdb db)) !! output_hash with
    | Some index => Ok index
    | None => ok_or (om_find_leaf_index output_hash output_mmr) ValueNotFound
    end;
  Ok (input_leaves ++ [hash], deleted_outputs ++ [index]).

Definition delete_all (output_mmr : OutputMmr) (indices : list Z) : stored_result OutputMmr :=
  foldM (fun output_mmr index => ok_or (om_delete index output_mmr) InvalidOperation) indices output_mmr.

Definition calculate_mmr_roots (db : Database) (block : Block) : stored_result MmrRoots :=
  let header := block_header block in
  let body := block_body block in
  if negb (bool_decide (bh_prev_hash header = best_block (md_tip (metadata db)))) then Err CannotCalculateNonTipMmr
  else
    let deleted := deleted_bitmap (lmdb db) in
    height ← or_not_found (block_hashes_db (header_tables (lmdb db)) !! bh_prev_hash header);
    data ← or_not_found (block_accumulated_data_db (lmdb db) !! height);
    _ ← (if U32_MAX <? Z.of_nat (length (acc_outputs data)) then Panic else Ok tt);
    let kernel_leaves := acc_kernels data ++ map kernel_hash (kernels body) in
    '(output_mmr, witness, deleted_outputs) ← foldM root_output (outputs body)
      ({| om_base := Z.of_nat (length (acc_outputs data)); om_new := []; om_deleted := deleted |}, acc_witness data, []);
    '(input_leaves, deleted_outputs) ← foldM (root_input db output_mmr) (inputs body) ([], deleted_outputs);
    output_mmr ← delete_all output_mmr deleted_outputs;
    let block_height := bh_height header in
    constants ← consensus_constants manager block_height;
    validator_node_mr ←
      (if vn_epoch_length constants =? 0 then Panic
       else if block_height mod vn_epoch_length constants =? 0 then
         validator_nodes ← fetch_active_validator_nodes block_height db;
         root ← calculate_validator_node_mr validator_nodes;
         fixed_hash root
       else
         before ← arith 0 U64_MAX (block_height - 1);
         tip_header ← fetch_header before db;
         Ok (bh_validator_node_mr tip_header));
    let output_leaves := acc_outputs data ++ om_new output_mmr in
    kernel_mr ← (root ← range_root kernel_hasher kernel_leaves; fixed_hash root);
    input_mr ← (root ← range_root input_hasher input_leaves; fixed_hash root);
    output_mr ← (root ← mutable_root output_hasher output_leaves (om_deleted output_mmr); fixed_hash root);
    witness_mr ← (root ← range_root witness_hasher witness; fixed_hash root);
    Ok {| mr_kernel_mr := kernel_mr; mr_kernel_mmr_size := Z.of_nat (length kernel_leaves); mr_input_mr := input_mr; mr_output_mr := output_mr;
          mr_output_mmr_size := Z.of_nat (length output_leaves); mr_witness_mr := witness_mr; mr_validator_node_mr := validator_node_mr |}.

(** ** The body validator *)

Inductive CandidateError :=
| FullValidationError (e : ValidationError)
| MismatchedMmrRoots (kind : string)
| MismatchedMmrSize (mmr_tree : string) (expected actual : Z)
| IncorrectPreviousHash
| IncorrectHeight (expected block_height : Z)
| FuelExhausted.

(** [impl From<ChainStorageError> for ValidationError] *)
Definition from_storage {A} (r : stored_result A) : result CandidateError A := map_err (fun _ => FullValidationError FatalStorageError) r.

Definition check_mmr_roots (header : BlockHeader) (mmr_roots : MmrRoots) : result CandidateError unit :=
  if negb (bool_decide (bh_kernel_mr header = mr_kernel_mr mmr_roots)) then Err (MismatchedMmrRoots "Kernel")
  else if negb (bh_kernel_mmr_size header =? mr_kernel_mmr_size mmr_roots) then Err (MismatchedMmrSize "Kernel" (mr_kernel_mmr_size mmr_roots) (bh_kernel_mmr_size header))
  else if negb (bool_decide (bh_output_mr header = mr_output_mr mmr_roots)) then Err (MismatchedMmrRoots "Utxo")
  else if negb (bool_decide (bh_witness_mr header = mr_witness_mr mmr_roots)) then Err (MismatchedMmrRoots "Witness")
  else if negb (bh_output_mmr_size header =? mr_output_mmr_size mmr_roots) then Err (MismatchedMmrSize "UTXO" (mr_output_mmr_size mmr_roots) (bh_output_mmr_size header))
  else if negb (bool_decide (bh_input_mr header = mr_input_mr mmr_roots)) then Err (MismatchedMmrRoots "Input")
  else if negb (bool_decide (bh_validator_node_mr header = mr_validator_node_mr mmr_roots)) then Err (MismatchedMmrRoots "Validator Node")
  else Ok tt.

Definition validate_block_metadata (block : Block) (metadata : ChainMetadata) : result CandidateError unit :=
  if negb (bool_decide (bh_prev_hash (block_header block) = best_block metadata)) then Err IncorrectPreviousHash
  else
    expected ← arith 0 U64_MAX (height_of_longest_chain metadata + 1);
    if bh_height (block_header block) =? expected then Ok tt else Err (IncorrectHeight expected (bh_height (block_header block))).

(** What the internal validator reads of a block. *)
Definition full_block (block : Block) : FullBlock :=
  {| fb_height := bh_height (block_header block); fb_prev_hash := bh_prev_hash (block_header block);
     fb_kernel_offset := bh_total_kernel_offset (block_header block); fb_script_offset := bh_total_script_offset (block_header block);
     fb_body := block_body block |}.

Definition of_option {A} (r : option (result ValidationError A)) : result CandidateError A :=
  match r with Some r => map_err FullValidationError r | None => Err FuelExhausted end.

(** [fuel] bounds the emission loop of the internal validator. *)
Definition full_validate (fuel : nat) (bypass : bool) (db : Database) (block : Block) (metadata_option : option ChainMetadata) : result CandidateError Block :=
  _ ← match metadata_option with Some metadata => validate_block_metadata block metadata | None => Ok tt end;
  body ← map_err FullValidationError (chain_validate (db := backend_of (lmdb db)) manager (block_body block) (bh_height (block_header block)));
  let block := {| block_header := block_header block; block_body := body |} in
  _ ← of_option (validate_block fuel {| bypass_range_proof_verification := bypass; iv_manager := manager |} (full_block block));
  mmr_roots ← from_storage (calculate_mmr_roots db block);
  _ ← check_mmr_roots (block_header block) mmr_roots;
  Ok block.

(** ** The validators of a base node *)

(** builder.rs of the base node: the body validator always bypasses the range proofs, the orphan validator does so as configured. *)
Definition node_validators `{U256Ops} `{EpochOps} `{EpochMean} (fuel : nat) (bypass : bool) (now : Z) : Validators := {|
  validate_internal_consistency block :=
    map_err (fun _ => BodyValidationFailed)
      (of_option (validate_block fuel {| bypass_range_proof_verification := bypass; iv_manager := manager |} (full_block block)));
  validate_body_with_metadata db block metadata :=
    map_err (fun _ => BodyValidationFailed) (_ ← full_validate fuel true db (cb_block block) (Some metadata); Ok tt);
  validate_header db header prev_header prev_timestamps :=
    map_err (fun _ => HeaderValidationFailed) (header_validate manager false now db header prev_header prev_timestamps None);
  check_achieved_and_target_difficulty db header := map_err (fun _ => HeaderValidationFailed) (calculator_check manager db header);
|}.

(** ** Block synchronisation *)

Inductive BlockSyncError :=
| RpcRequestError
| SyncStorageError (e : ChainStorageError)
| PeerSentBlockThatDidNotFormAChain (expected got : bytes)
| SyncValidationError (e : CandidateError)
| FailedToConstructChainBlock
| SyncProtocolViolation
| MaxLatencyExceeded
| SyncFixedHashSizeError.

(** An item of the stream of a peer: an error of the transport, or a hash and a body, [None] where it is missing or malformed.
    [sb_slow]: the average latency after this block is above the maximum. *)
Record StreamBlock := { sb_hash : bytes; sb_body : option TxBody; sb_slow : bool }.

(** The errors after which the block is not added to the bad blocks; [FuelExhausted] is no outcome of the code. *)
Definition keeps_block (e : CandidateError) : bool :=
  match e with
  | FullValidationError FatalStorageError | FullValidationError CustomError | FuelExhausted => true
  | _ => false
  end.

Definition fetch_chain_header_by_block_hash (hash : bytes) (db : Database) : stored_result (option LinkedHeader) :=
  match fetch_header_by_block_hash hash db with
  | None => Ok None
  | Some header =>
      data ← or_not_found (fetch_header_accumulated_data hash db);
      header ← ok_or (header_try_construct header data) DataInconsistencyDetected;
      Ok (Some header)
  end.

(** The header of an item, and the block to validate. *)
Definition expect_block (item : StreamBlock) (prev_hash : bytes) (db : Database) : result BlockSyncError (LinkedHeader * Block) :=
  _ ← map_err (fun _ => SyncFixedHashSizeError) (fixed_hash (sb_hash item));
  found ← map_err SyncStorageError (fetch_chain_header_by_block_hash (sb_hash item) db);
  header ← ok_or found SyncProtocolViolation;
  if negb (bool_decide (bh_prev_hash (lh_header header) = prev_hash)) then Err (PeerSentBlockThatDidNotFormAChain prev_hash (bh_prev_hash (lh_header header)))
  else
    body ← ok_or (sb_body item) SyncProtocolViolation;
    Ok (header, {| block_header := lh_header header; block_body := body |}).

(** A failed write is logged. *)
Definition add_to_bad_blocks (header : LinkedHeader) (db : Database) : Database :=
  let hash := acc_hash (lh_accumulated_data header) in
  match db_write manager [DeleteOrphan hash; InsertBadBlock hash (bh_height (lh_header header))] db with Ok db => db | _ => db end.

Definition store_block (header : LinkedHeader) (block : Block) (db : Database) : result BlockSyncError Database :=
  let data := lh_accumulated_data header in
  chain_block ← ok_or (block_try_construct block data) FailedToConstructChainBlock;
  map_err SyncStorageError (db_write manager
    [DeleteOrphan (acc_hash data); InsertBlockBody chain_block;
     SetBestBlock (bh_height (block_header block)) (acc_hash data) (total_accumulated_difficulty data) (bh_prev_hash (block_header block))
       (bh_timestamp (lh_header header))] db).

(** One turn of the loop: the database after it, and the hash the next block builds on. *)
Definition sync_block (fuel : nat) (bypass : bool) (item : StreamBlock) (prev_hash : bytes) (db : Database) : Database * result BlockSyncError bytes :=
  match expect_block item prev_hash db with
  | Err e => (db, Err e)
  | Panic => (db, Panic)
  | Ok (header, block) =>
      match full_validate fuel bypass db block None with
      | Panic => (db, Panic)
      | Err e => (if keeps_block e then db else add_to_bad_blocks header db, Err (SyncValidationError e))
      | Ok block =>
          match store_block header block db with
          | Ok db => (db, if sb_slow item then Err MaxLatencyExceeded else Ok (acc_hash (lh_accumulated_data header)))
          | Err e => (db, Err e)
          | Panic => (db, Panic)
          end
      end
  end.

Fixpoint sync_blocks (fuel : nat) (bypass : bool) (stream : list (option StreamBlock)) (prev_hash : bytes) (db : Database) : Database * result BlockSyncError unit :=
  match stream with
  | [] => (db, Ok tt)
  | None :: _ => (db, Err RpcRequestError)
  | Some item :: stream =>
      match sync_block fuel bypass item prev_hash db with
      | (db, Ok prev_hash) => sync_blocks fuel bypass stream prev_hash db
      | (db, Err e) => (db, Err e)
      | (db, Panic) => (db, Panic)
      end
  end.

Definition synchronize_blocks (fuel : nat) (bypass : bool) (stream : list (option StreamBlock)) (db : Database) : Database * result BlockSyncError unit :=
  match map_err SyncStorageError (fetch_last_header db) with
  | Ok tip_header =>
      let best_height := height_of_longest_chain (md_tip (metadata db)) in
      if bh_height tip_header <=? best_height then (db, Ok tt)
      else
        match map_err SyncStorageError (fetch_chain_header_by_height best_height db) with
        | Ok chain_header => sync_blocks fuel bypass stream (acc_hash (lh_accumulated_data chain_header)) db
        | Err e => (db, Err e)
        | Panic => (db, Panic)
        end
  | Err e => (db, Err e)
  | Panic => (db, Panic)
  end.

End FullValidator.
