(* ===== verification/ChainTables.v ===== *)
(** * The tables of a chain

    What the database of [ChainStorage] holds for a chain of blocks: every table is the map of a list of rows that the
    blocks determine. The unspent outputs are those that no input names and that are not
    burned. *)

From S2P Require Import Prelude ScriptTypes Opcodes ScriptStack TariScript Amounts Emission ConsensusConstants ConsensusManager MmrCommon.
From S2P Require Import Covenants TxComponents BlockHeader CovenantFilters CovenantSpec AggregatedBody BodyValidator ChainStorage.
From stdpp Require Import sorting.

Local Open Scope Z_scope.

(** ** Maps of rows *)

Section Rows.
Context {A K V : Type} `{Countable K}.
Implicit Types (kv : A -> K * V) (rows : list A).

Definition table_of kv rows : gmap K V := list_to_map (map kv rows).

Lemma table_lookup_None kv rows k : k ∉ map (fun r => (kv r).1) rows -> table_of kv rows !! k = None.
Proof.
  intros Hk. apply not_elem_of_list_to_map. intros Hin. apply Hk. change (map kv rows).*1 with (fst <$> (kv <$> rows)) in Hin.
  rewrite <- list_fmap_compose in Hin. exact Hin.
Qed.

Lemma table_lookup_Some kv rows k v : NoDup (map (fun r => (kv r).1) rows) ->
  table_of kv rows !! k = Some v <-> exists r, r ∈ rows /\ kv r = (k, v).
Proof.
  intros Hnd. unfold table_of. rewrite <- elem_of_list_to_map.
  - rewrite list_elem_of_fmap. naive_solver.
  - change (NoDup (fst <$> (kv <$> rows))). by rewrite <- list_fmap_compose.
Qed.

Lemma lmdb_insert_row kv rows r k v : kv r = (k, v) -> k ∉ map (fun r => (kv r).1) rows ->
  lmdb_insert k v (table_of kv rows) = Ok (table_of kv (rows ++ [r])).
Proof.
  intros Hr Hk. unfold lmdb_insert. rewrite table_lookup_None by done. unfold table_of. rewrite map_app. cbn [map]. rewrite Hr.
  rewrite list_to_map_snoc; [done|]. intros Hin. apply Hk. change (map kv rows).*1 with (fst <$> (kv <$> rows)) in Hin. by rewrite <- list_fmap_compose in Hin.
Qed.

Lemma table_delete kv rows k : delete k (table_of kv rows) = table_of kv (filter (fun r => (kv r).1 <> k) rows).
Proof.
  unfold table_of. induction rows as [|r rows IH]; [apply delete_empty|]. cbn [map]. rewrite filter_cons. destruct (kv r) as [k' v] eqn:Hr. cbn [list_to_map fst snd].
  destruct (decide (k' = k)) as [->|Hne].
  - rewrite decide_False by tauto. cbn. by rewrite delete_insert_eq, IH.
  - rewrite decide_True by done. cbn [map list_to_map]. rewrite Hr. cbn. by rewrite delete_insert_ne, IH.
Qed.

Lemma lmdb_delete_row kv rows r k : r ∈ rows -> (kv r).1 = k -> lmdb_delete k (table_of kv rows) = Ok (table_of kv (filter (fun r => (kv r).1 <> k) rows)).
Proof.
  intros Hin Hk. unfold lmdb_delete. destruct (table_of kv rows !! k) as [v|] eqn:Hl; [by rewrite table_delete|]. exfalso.
  apply not_elem_of_list_to_map in Hl. apply Hl. rewrite <- Hk. change (map kv rows).*1 with (fst <$> (kv <$> rows)). rewrite <- list_fmap_compose.
  by apply (list_elem_of_fmap_2 (fst ∘ kv)).
Qed.

End Rows.

(** ** Rows of a chain *)

Section Chain.
Context {C : ScriptCrypto} {B : BorshPrims C} {X : TxCrypto C}.

(** Chains are lists of blocks, the newest first. *)
Implicit Types (c : list (BlockHeader * TxBody)) (hd : BlockHeader) (b : TxBody).

Definition hash_of (o : TransactionOutput) : bytes := match @output_hash _ _ _ ChainStorageError o with Ok h => h | _ => [] end.
Definition input_hash_of (i : TransactionInput) : bytes := match @input_output_hash _ _ _ ChainStorageError i with Ok h => h | _ => [] end.

Definition output_row hd (pos : Z) (o : TransactionOutput) : TransactionOutputRowData :=
  {| or_output := Some o; or_header_hash := bh_hash hd; or_mmr_position := pos; or_hash := hash_of o; or_witness_hash := witness_hash o;
     or_mined_height := bh_height hd; or_mined_timestamp := bh_timestamp hd |}.

Definition new_rows hd (base : nat) (l : list TransactionOutput) : list TransactionOutputRowData :=
  imap (fun i o => output_row hd (Z.of_nat base + Z.of_nat i) o) l.

Fixpoint rows c : list TransactionOutputRowData :=
  match c with
  | [] => []
  | (hd, b) :: c => rows c ++ new_rows hd (length (rows c)) (outputs b)
  end.

(** The hashes that inputs name. *)
Fixpoint spent_hashes c : list bytes :=
  match c with
  | [] => []
  | (hd, b) :: c => spent_hashes c ++ map input_hash_of (inputs b)
  end.

Definition row_burned (r : TransactionOutputRowData) : bool := match or_output r with Some o => output_is_burned o | None => false end.
Definition row_commitment (r : TransactionOutputRowData) : bytes := match or_output r with Some o => com_as_bytes (out_commitment o) | None => [] end.

(** Spent by an input, or burned when it was created. *)
Definition gone (hashes : list bytes) (r : TransactionOutputRowData) : Prop := or_hash r ∈ hashes \/ row_burned r = true.

#[export] Instance gone_dec hashes r : Decision (gone hashes r).
Proof. unfold gone. apply _. Defined.

Definition unspent_rows c : list TransactionOutputRowData := filter (fun r => ~ gone (spent_hashes c) r) (rows c).

(** The position of the output with a given hash. *)
Definition position_of (l : list TransactionOutputRowData) (h : bytes) : Z :=
  match list_find (fun r => or_hash r = h) l with Some (_, r) => or_mmr_position r | None => -1 end.

Definition compact_input (i : TransactionInput) : TransactionInput :=
  {| in_version := in_version i; spent_output := OutputHash (input_hash_of i); input_data := input_data i; script_signature := script_signature i |}.

Definition canonical_hash_of (i : TransactionInput) : bytes := match @canonical_hash _ _ _ ChainStorageError i with Ok h => h | _ => [] end.

Definition input_row hd (l : list TransactionOutputRowData) (i : TransactionInput) : TransactionInputRowData :=
  {| ir_input := compact_input i; ir_header_hash := bh_hash hd; ir_mmr_position := position_of l (input_hash_of i); ir_hash := canonical_hash_of i |}.

(** With the height of the block. *)
Fixpoint input_rows c : list (Z * TransactionInputRowData) :=
  match c with
  | [] => []
  | (hd, b) :: c' => input_rows c' ++ map (fun i => (bh_height hd, input_row hd (rows c) i)) (inputs b)
  end.

Definition kernel_row hd (n : nat) (k : TransactionKernel) : TransactionKernelRowData :=
  {| kr_kernel := k; kr_header_hash := bh_hash hd; kr_mmr_position := mmr_size (Z.of_nat (S n)) - 1; kr_hash := kernel_hash k |}.

Definition new_kernel_rows hd (base : nat) (l : list TransactionKernel) : list TransactionKernelRowData := imap (fun i k => kernel_row hd (base + i) k) l.

Fixpoint kernel_rows c : list TransactionKernelRowData :=
  match c with
  | [] => []
  | (hd, b) :: c => kernel_rows c ++ new_kernel_rows hd (length (kernel_rows c)) (kernels b)
  end.

(** ** Tables of a chain *)

Definition commitment_entry (r : TransactionOutputRowData) : bytes * bytes := (row_commitment r, or_hash r).
Definition hash_entry (r : TransactionOutputRowData) : bytes * (Z * (bytes * Z)) := (or_hash r, (or_mmr_position r, (or_header_hash r, or_mmr_position r))).
Definition output_entry (r : TransactionOutputRowData) : (bytes * Z) * TransactionOutputRowData := ((or_header_hash r, or_mmr_position r), r).
Definition input_entry (r : Z * TransactionInputRowData) : (bytes * Z * bytes) * TransactionInputRowData :=
  ((ir_header_hash r.2, ir_mmr_position r.2, ir_hash r.2), r.2).
Definition deleted_entry (r : Z * TransactionInputRowData) : Z * (Z * bytes) := (ir_mmr_position r.2, (r.1, ir_header_hash r.2)).

Definition txo_tables_of (unspent l : list TransactionOutputRowData) (ins : list (Z * TransactionInputRowData)) : TxoTables :=
  {| utxo_commitment_index := table_of commitment_entry unspent; txos_hash_to_index_db := table_of hash_entry l; utxos_db := table_of output_entry l;
     inputs_db := table_of input_entry ins; deleted_txo_mmr_position_to_height_index := table_of deleted_entry ins |}.

Definition kernel_key (r : TransactionKernelRowData) : bytes * Z * bytes := (kr_header_hash r, kr_mmr_position r, kr_hash r).
Definition excess_entry (r : TransactionKernelRowData) : bytes * (bytes * Z * bytes) := (com_as_bytes (k_excess (kr_kernel r)), kernel_key r).
Definition sig_entry (r : TransactionKernelRowData) : bytes * (bytes * Z * bytes) := (excess_sig_key (kr_kernel r), kernel_key r).
Definition kernel_entry (r : TransactionKernelRowData) : (bytes * Z * bytes) * TransactionKernelRowData := (kernel_key r, r).

Definition kernel_tables_of (l : list TransactionKernelRowData) : KernelTables :=
  {| kernel_excess_index := table_of excess_entry l; kernel_excess_sig_index := table_of sig_entry l; kernels_db := table_of kernel_entry l |}.

Definition deleted_of c : gset Z := list_to_set (map or_mmr_position (filter (gone (spent_hashes c)) (rows c))).

(** What a block adds to the deleted positions: its inputs and its burned outputs. *)
Definition deleted_by c hd b : gset Z :=
  list_to_set (map (fun i => position_of (rows ((hd, b) :: c)) (input_hash_of i)) (inputs b)) ∪
  list_to_set (map or_mmr_position (filter (fun r => row_burned r = true) (new_rows hd (length (rows c)) (outputs b)))).

Definition accumulated_entry c hd b : Z * BlockAccumulatedData :=
  (bh_height hd,
   {| acc_kernels := map kr_hash (kernel_rows ((hd, b) :: c)); acc_outputs := map or_hash (rows ((hd, b) :: c));
      acc_witness := map or_witness_hash (rows ((hd, b) :: c)); acc_deleted := deleted_by c hd b;
      acc_kernel_sum := fold_left com_add (map k_excess (kernels b)) com_default |}).

Fixpoint accumulated_entries c : list (Z * BlockAccumulatedData) :=
  match c with
  | [] => []
  | (hd, b) :: c => accumulated_entries c ++ [accumulated_entry c hd b]
  end.

(** The database holds the chain. *)
Record represents (db : LMDBDatabase) c : Prop := {
  rep_txos : txo_tables db = txo_tables_of (unspent_rows c) (rows c) (input_rows c);
  rep_kernels : kernel_tables db = kernel_tables_of (kernel_rows c);
  rep_deleted : deleted_bitmap db = deleted_of c;
  rep_accumulated : block_accumulated_data_db db = table_of id (accumulated_entries c);
  rep_headers : Forall (fun blk => headers_db (header_tables db) !! bh_height blk.1 = Some blk.1 /\ block_hashes_db (header_tables db) !! bh_hash blk.1 = Some (bh_height blk.1)) c;
}.

(** ** Well-formed chains *)

(** The data an input carries of the output it spends. *)
Definition data_of (o : TransactionOutput) : SpentOutput :=
  OutputData (out_version o) (out_features o) (out_commitment o) (out_script o) (out_sender_offset_public_key o) (out_covenant o) (out_encrypted_data o)
    (out_minimum_value_promise o).

(** An input spends an unspent output, or an output of its block that is not burned. *)
Definition spends c b (i : TransactionInput) : Prop := exists o, spent_output i = data_of o /\
  ((exists r, r ∈ unspent_rows c /\ or_output r = Some o) \/ (o ∈ outputs b /\ output_is_burned o = false)).

Record block_ok c hd b : Prop := {
  bk_height : bh_height hd = Z.of_nat (length c);
  bk_hash : bh_hash hd ∉ map (fun blk => bh_hash blk.1) c;
  bk_encodable : Forall encodable (outputs b);
  bk_plain : Forall (fun o => validator_node_registration (out_features o) = None /\ template_registration (out_features o) = None) (outputs b);
  bk_hashes : NoDup (map hash_of (outputs b));
  bk_hashes_new : Forall (fun o => hash_of o ∉ map or_hash (rows c)) (outputs b);
  bk_commitments : NoDup (map out_commitment (outputs b));
  bk_commitments_new : Forall (fun o => com_as_bytes (out_commitment o) ∉ map row_commitment (unspent_rows c)) (outputs b);
  bk_inputs : Forall (spends c b) (inputs b);
  bk_inputs_once : NoDup (map input_hash_of (inputs b));
  bk_excess : NoDup (map k_excess (kernels b));
  bk_excess_new : Forall (fun k => com_as_bytes (k_excess k) ∉ map (fun r => (excess_entry r).1) (kernel_rows c)) (kernels b);
  bk_sigs : NoDup (map k_excess_sig (kernels b));
  bk_sigs_new : Forall (fun k => excess_sig_key k ∉ map (fun r => (sig_entry r).1) (kernel_rows c)) (kernels b);
  bk_size : Z.of_nat (length (rows c) + length (outputs b)) <= U32_MAX;
  bk_kernel_size : mmr_size (Z.of_nat (length (kernel_rows c) + length (kernels b))) - 1 <= U32_MAX;
}.

Fixpoint chain_ok c : Prop :=
  match c with
  | [] => True
  | (hd, b) :: c => block_ok c hd b /\ chain_ok c
  end.

End Chain.
