(* ===== verification/ChainStorageSpec.v ===== *)
(** * Blocks can be stored and removed

    Adding the body of a block to a database that holds a chain succeeds and gives a database that holds the longer
    chain; removing it again gives the shorter one back. *)

From S2P Require Import Prelude ScriptTypes Opcodes ScriptStack TariScript Amounts Emission ConsensusConstants ConsensusManager MmrCommon.
From S2P Require Import Covenants TxComponents BlockHeader CovenantFilters CovenantSpec AggregatedBody BodyValidator ChainStorage ChainTables.
From stdpp Require Import sorting.

Local Open Scope Z_scope.

Section Spec.
Context {C : ScriptCrypto} {CL : ScriptCryptoLaws C} {B : BorshPrims C} {X : TxCrypto C}.
Implicit Types (c : list (BlockHeader * TxBody)) (hd : BlockHeader) (b : TxBody).

(** ** Keys *)

Lemma com_bytes_inj a a' : com_as_bytes a = com_as_bytes a' -> a = a'.
Proof. intros H. pose proof (com_roundtrip a) as Ha. rewrite H, com_roundtrip in Ha. by injection Ha. Qed.

Lemma pk_bytes_inj a a' : pk_as_bytes a = pk_as_bytes a' -> a = a'.
Proof. intros H. pose proof (pk_roundtrip a) as Ha. rewrite H, pk_roundtrip in Ha. by injection Ha. Qed.

Lemma sk_bytes_inj a a' : sk_as_bytes a = sk_as_bytes a' -> a = a'.
Proof. intros H. pose proof (sk_roundtrip a) as Ha. rewrite H, sk_roundtrip in Ha. by injection Ha. Qed.

Lemma hash_of_Ok {E} o : encodable o -> @output_hash _ _ _ E o = Ok (hash_of o).
Proof.
  intros He. destruct (@encodable_hash _ _ _ ChainStorageError o He) as (h & Hh & Hc), (@encodable_hash _ _ _ E o He) as (h' & Hh' & Hc').
  unfold hash_of. rewrite Hh, Hh'. congruence.
Qed.

Lemma sig_key_inj k1 k2 : excess_sig_key k1 = excess_sig_key k2 -> k_excess_sig k1 = k_excess_sig k2.
Proof.
  unfold excess_sig_key. intros H. apply app_inj_1 in H as [Hn Hs]; [|by rewrite !pk_length].
  apply pk_bytes_inj in Hn. apply sk_bytes_inj in Hs. rewrite <- (sig_eta (k_excess_sig k1)), <- (sig_eta (k_excess_sig k2)). congruence.
Qed.

Lemma NoDup_map_app {A K} (f : A -> K) l1 l2 :
  NoDup (map f (l1 ++ l2)) <-> NoDup (map f l1) /\ (forall x, x ∈ l2 -> f x ∉ map f l1) /\ NoDup (map f l2).
Proof.
  rewrite map_app, NoDup_app. split; intros (H1 & H2 & H3); split_and!; try done.
  - intros x Hx Hf. apply (H2 _ Hf). by apply (list_elem_of_fmap_2 f).
  - intros k Hk Hk2. change (k ∈ f <$> l2) in Hk2. apply list_elem_of_fmap in Hk2 as (x & -> & Hx). by apply (H2 x).
Qed.

(** The next element of a list without repeated keys is new. *)
Lemma NoDup_map_next {A K} (f : A -> K) done x rest : NoDup (map f (done ++ x :: rest)) -> f x ∉ map f done.
Proof. intros (_ & H & _)%NoDup_map_app. apply H. left. Qed.

(** ** Rows of a block *)

Lemma new_rows_snoc hd base done o : new_rows hd base (done ++ [o]) = new_rows hd base done ++ [output_row hd (Z.of_nat base + Z.of_nat (length done)) o].
Proof. unfold new_rows. rewrite imap_app. cbn. by rewrite Nat.add_0_r. Qed.

Lemma new_kernel_rows_snoc hd base done k : new_kernel_rows hd base (done ++ [k]) = new_kernel_rows hd base done ++ [kernel_row hd (base + length done) k].
Proof. unfold new_kernel_rows. rewrite imap_app. cbn. by rewrite Nat.add_0_r. Qed.

Lemma length_new_rows hd base l : length (new_rows hd base l) = length l.
Proof. apply length_imap. Qed.

Lemma length_new_kernel_rows hd base l : length (new_kernel_rows hd base l) = length l.
Proof. apply length_imap. Qed.

Lemma map_new_rows {K} (f : TransactionOutputRowData -> K) (g : TransactionOutput -> K) hd base l :
  (forall pos o, f (output_row hd pos o) = g o) -> map f (new_rows hd base l) = map g l.
Proof.
  intros Hf. unfold new_rows. change (f <$> imap (fun i o => output_row hd (Z.of_nat base + Z.of_nat i) o) l = map g l). rewrite fmap_imap.
  rewrite (imap_ext _ (fun _ => g)) by (intros; apply Hf). apply imap_const.
Qed.

Lemma map_new_kernel_rows {K} (f : TransactionKernelRowData -> K) (g : TransactionKernel -> K) hd base l :
  (forall n k, f (kernel_row hd n k) = g k) -> map f (new_kernel_rows hd base l) = map g l.
Proof.
  intros Hf. unfold new_kernel_rows. change (f <$> imap (fun i k => kernel_row hd (base + i) k) l = map g l). rewrite fmap_imap.
  rewrite (imap_ext _ (fun _ => g)) by (intros; apply Hf). apply imap_const.
Qed.

(** Every prefix of a table without repeated keys takes the next row. *)
Lemma lmdb_insert_next {A K V} `{Countable K} (kv : A -> K * V) l r rest :
  NoDup (map (fun r => (kv r).1) (l ++ r :: rest)) -> lmdb_insert (kv r).1 (kv r).2 (table_of kv l) = Ok (table_of kv (l ++ [r])).
Proof. intros Hnd. apply lmdb_insert_row; [by destruct (kv r)|]. exact (NoDup_map_next _ _ _ _ Hnd). Qed.

(** ** Kernels *)

Definition kernel_loop hd (l : list TransactionKernelRowData) (done : list TransactionKernel) : KernelLoop :=
  {| kl_sum := fold_left com_add (map k_excess done) com_default; kl_hashes := map kr_hash (l ++ new_kernel_rows hd (length l) done);
     kl_tables := kernel_tables_of (l ++ new_kernel_rows hd (length l) done) |}.

Definition kernel_keys_distinct (l : list TransactionKernelRowData) : Prop :=
  NoDup (map (fun r => (excess_entry r).1) l) /\ NoDup (map (fun r => (sig_entry r).1) l) /\ NoDup (map kernel_key l).

Lemma insert_kernel_Ok l r rest : kr_hash r = kernel_hash (kr_kernel r) -> kernel_keys_distinct (l ++ r :: rest) ->
  insert_kernel (kr_header_hash r) (kr_kernel r) (kr_mmr_position r) (kernel_tables_of l) = Ok (kernel_tables_of (l ++ [r])).
Proof.
  intros Hh (He & Hs & Hk). unfold insert_kernel. rewrite <- Hh.
  pose proof (lmdb_insert_next excess_entry l r rest He) as H1. pose proof (lmdb_insert_next sig_entry l r rest Hs) as H2.
  pose proof (lmdb_insert_next kernel_entry l r rest Hk) as H3. cbn [excess_entry sig_entry kernel_entry fst snd] in H1, H2, H3. unfold kernel_key in H1, H2, H3.
  cbn [kernel_excess_index kernel_excess_sig_index kernels_db kernel_tables_of]. rewrite H1. cbn. rewrite H2. cbn. destruct r. cbn in *. by rewrite H3.
Qed.

Lemma new_kernel_rows_next hd base done k rest : exists rows,
  new_kernel_rows hd base (done ++ k :: rest) = new_kernel_rows hd base done ++ kernel_row hd (base + length done) k :: rows.
Proof. eexists. unfold new_kernel_rows. rewrite imap_app. cbn [imap]. by rewrite Nat.add_0_r. Qed.

Lemma add_kernels_Ok hd l ks : kernel_keys_distinct (l ++ new_kernel_rows hd (length l) ks) ->
  mmr_size (Z.of_nat (length l + length ks)) - 1 <= U32_MAX ->
  foldM (add_kernel_row hd) ks (kernel_loop hd l []) = Ok (kernel_loop hd l ks).
Proof.
  intros Hd Hsize. apply (foldM_prefix _ _ (kernel_loop hd l)). intros done k rest Hks. subst ks.
  destruct (new_kernel_rows_next hd (length l) done k rest) as [rows Hrows]. rewrite Hrows, app_assoc in Hd. clear Hrows.
  apply (insert_kernel_Ok _ (kernel_row hd (length l + length done) k)) in Hd; [|done].
  unfold add_kernel_row. cbn [kl_hashes kl_tables kl_sum kernel_loop].
  assert (length (map kr_hash (l ++ new_kernel_rows hd (length l) done) ++ [kernel_hash k]) = S (length l + length done)) as ->.
  { rewrite length_app, length_map, length_app, length_new_kernel_rows. cbn. lia. }
  pose proof (mmr_size_mono (Z.of_nat (S (length l + length done))) (Z.of_nat (length l + length (done ++ k :: rest)))) as Hm. rewrite length_app in Hm. cbn [length] in Hm.
  rewrite length_app in Hsize. cbn [length] in Hsize.
  destruct (Z.ltb_spec U32_MAX (mmr_size (Z.of_nat (S (length l + length done))) - 1)) as [Hlt|Hge]; [lia|].
  cbn [kr_header_hash kr_kernel kr_mmr_position kernel_row] in Hd. rewrite Hd. cbn.
  unfold kernel_loop. rewrite new_kernel_rows_snoc, (app_assoc l), !map_app, fold_left_app. done.
Qed.

(** ** Outputs *)

Definition burned_positions hd (base : nat) (l : list TransactionOutput) : gset Z :=
  list_to_set (map or_mmr_position (filter (fun r => row_burned r = true) (new_rows hd base l))).

Definition output_loop hd (base : nat) (witness : list bytes) (done : list TransactionOutput) : OutputLoop :=
  {| ol_mmr := {| om_base := Z.of_nat base; om_new := map hash_of done; om_deleted := burned_positions hd base done |};
     ol_witness := witness ++ map witness_hash done; ol_burned := map out_commitment (filter (fun o => output_is_burned o = true) done) |}.

Lemma elem_of_new_rows hd base l r : r ∈ new_rows hd base l <-> exists i o, l !! i = Some o /\ r = output_row hd (Z.of_nat base + Z.of_nat i) o.
Proof.
  unfold new_rows. rewrite elem_of_lookup_imap. naive_solver.
Qed.

Lemma new_rows_bounds hd base l r : r ∈ new_rows hd base l -> Z.of_nat base <= or_mmr_position r < Z.of_nat base + Z.of_nat (length l).
Proof. intros (i & o & Hi & ->)%elem_of_new_rows. apply lookup_lt_Some in Hi. cbn. lia. Qed.

Lemma find_leaf_index_new base l deleted i o : NoDup (map hash_of l) -> l !! i = Some o ->
  om_find_leaf_index (hash_of o) {| om_base := base; om_new := map hash_of l; om_deleted := deleted |} = Some (base + Z.of_nat i).
Proof.
  intros Hnd Hi. unfold om_find_leaf_index. cbn [om_new om_base].
  assert (list_find (fun h => h = hash_of o) (map hash_of l) = Some (i, hash_of o)) as ->; [|done].
  apply list_find_Some. change (map hash_of l) with (hash_of <$> l) in *. rewrite list_lookup_fmap, Hi. split_and!; [done|done|].
  intros j y Hj Hlt ->. assert (j = i) as ->; [|lia]. eapply NoDup_lookup; [exact Hnd|exact Hj|]. by rewrite list_lookup_fmap, Hi.
Qed.

Lemma burned_positions_snoc hd base done o : burned_positions hd base (done ++ [o]) =
  if output_is_burned o then {[Z.of_nat base + Z.of_nat (length done)]} ∪ burned_positions hd base done else burned_positions hd base done.
Proof.
  unfold burned_positions. rewrite new_rows_snoc, filter_app, map_app, list_to_set_app_L, filter_cons.
  change (row_burned (output_row hd (Z.of_nat base + Z.of_nat (length done)) o)) with (output_is_burned o).
  generalize (filter (fun r => row_burned r = true) (new_rows hd base done)) as l. intros l. rewrite filter_nil.
  destruct (output_is_burned o); [rewrite decide_True by done|rewrite decide_False by done]; cbn [map list_to_set or_mmr_position output_row]; set_solver.
Qed.

Lemma output_loop_snoc hd base witness done o : output_loop hd base witness (done ++ [o]) =
  {| ol_mmr := {| om_base := Z.of_nat base; om_new := map hash_of (done ++ [o]);
       om_deleted := if output_is_burned o then {[Z.of_nat base + Z.of_nat (length done)]} ∪ burned_positions hd base done else burned_positions hd base done |};
     ol_witness := (witness ++ map witness_hash done) ++ [witness_hash o];
     ol_burned := map out_commitment (filter (fun o => output_is_burned o = true) done) ++ (if output_is_burned o then [out_commitment o] else []) |}.
Proof.
  unfold output_loop. rewrite burned_positions_snoc, filter_app, filter_cons, filter_nil, (map_app witness_hash), app_assoc, (map_app out_commitment).
  destruct (output_is_burned o) eqn:Hb; [by rewrite decide_True|by rewrite decide_False].
Qed.

Lemma push_outputs_Ok hd base witness l : Forall encodable l -> NoDup (map hash_of l) -> Z.of_nat (base + length l) <= U32_MAX ->
  foldM push_output l (output_loop hd base witness []) = Ok (output_loop hd base witness l).
Proof.
  intros He Hnd Hsize. apply (foldM_prefix _ _ (output_loop hd base witness)). intros done o rest ->.
  apply Forall_app in He as [_ He]. apply Forall_cons in He as [He _].
  replace (done ++ o :: rest) with ((done ++ [o]) ++ rest) in Hnd by by rewrite <- app_assoc. apply NoDup_map_app in Hnd as [Hnd _].
  rewrite length_app in Hsize. cbn [length] in Hsize.
  unfold push_output. rewrite (hash_of_Ok o He). cbn [mbind result_bind]. unfold om_push, om_size at 1. cbn [om_base om_new om_deleted ol_mmr output_loop].
  rewrite length_map. destruct (Z.eqb_spec (Z.of_nat base + Z.of_nat (length done)) U32_MAX) as [Heq|_]; [lia|]. cbn [mbind result_bind ol_witness ol_burned].
  change (map hash_of done ++ [hash_of o]) with (map hash_of done ++ map hash_of [o]). rewrite <- map_app, output_loop_snoc.
  destruct (output_is_burned o) eqn:Hb.
  - rewrite (find_leaf_index_new _ (done ++ [o]) _ (length done) o); [|done|by rewrite lookup_app_r, Nat.sub_diag]. cbn [ok_or mbind result_bind].
    unfold om_delete, om_size. cbn [om_base om_new om_deleted]. rewrite length_map, length_app. cbn [length].
    rewrite bool_decide_false; [by rewrite (proj2 (Z.leb_gt _ _)) by lia|].
    unfold burned_positions. rewrite elem_of_list_to_set. intros Hin. change (map or_mmr_position) with (fmap or_mmr_position (M := list)) in Hin.
    apply list_elem_of_fmap in Hin as (r & Hr & [_ Hin]%list_elem_of_filter). apply new_rows_bounds in Hin. lia.
  - by rewrite app_nil_r.
Qed.

(** ** Rows of a chain *)

Lemma rows_position c i r : rows c !! i = Some r -> or_mmr_position r = Z.of_nat i.
Proof.
  revert i. induction c as [|[hd b] c IH]; intros i; [done|]. cbn [rows]. intros [Hi|[Hge Hi]]%lookup_app_Some; [by apply IH|].
  unfold new_rows in Hi. rewrite list_lookup_imap in Hi. apply fmap_Some in Hi as (o & _ & ->). cbn. lia.
Qed.

Lemma rows_position_inj c r1 r2 : r1 ∈ rows c -> r2 ∈ rows c -> or_mmr_position r1 = or_mmr_position r2 -> r1 = r2.
Proof.
  intros (i & Hi)%list_elem_of_lookup (j & Hj)%list_elem_of_lookup Heq. rewrite (rows_position _ _ _ Hi), (rows_position _ _ _ Hj) in Heq.
  assert (i = j) as -> by lia. congruence.
Qed.

Lemma rows_position_bound c r : r ∈ rows c -> 0 <= or_mmr_position r < Z.of_nat (length (rows c)).
Proof. intros (i & Hi)%list_elem_of_lookup. rewrite (rows_position _ _ _ Hi). apply lookup_lt_Some in Hi. lia. Qed.

Lemma elem_of_map {A K} (f : A -> K) k l : k ∈ map f l <-> exists x, k = f x /\ x ∈ l.
Proof. apply list_elem_of_fmap. Qed.

Lemma rows_hashes c : chain_ok c -> NoDup (map or_hash (rows c)).
Proof.
  induction c as [|[hd b] c IH]; cbn [rows chain_ok]; [constructor|]. intros [Hb Hc]. apply NoDup_map_app. split_and!; [by apply IH| |].
  - intros r (i & o & Hi & ->)%elem_of_new_rows. cbn [or_hash output_row]. pose proof (bk_hashes_new _ _ _ Hb) as Hn. rewrite Forall_forall in Hn. apply Hn.
    apply list_elem_of_lookup. by eexists.
  - rewrite (map_new_rows or_hash hash_of) by done. apply Hb.
Qed.

Lemma row_eq_hash c r1 r2 : chain_ok c -> r1 ∈ rows c -> r2 ∈ rows c -> or_hash r1 = or_hash r2 -> r1 = r2.
Proof.
  intros Hc (i & Hi)%list_elem_of_lookup (j & Hj)%list_elem_of_lookup Heq. pose proof (rows_hashes c Hc) as Hnd.
  assert (i = j) as ->; [|congruence]. change (map or_hash (rows c)) with (or_hash <$> rows c) in Hnd.
  eapply NoDup_lookup; [exact Hnd| |]; rewrite list_lookup_fmap; [by rewrite Hi|]. rewrite Hj. cbn. by rewrite Heq.
Qed.

Lemma position_of_row c r : chain_ok c -> r ∈ rows c -> position_of (rows c) (or_hash r) = or_mmr_position r.
Proof.
  intros Hc Hr. unfold position_of. destruct (list_find _ _) as [[i r']|] eqn:Hf.
  - apply list_find_Some in Hf as (Hi & Heq & _). f_equal. apply (row_eq_hash c); [done| |done|done]. apply list_elem_of_lookup. by eexists.
  - apply list_find_None in Hf. rewrite Forall_forall in Hf. by destruct (Hf r Hr).
Qed.

Lemma new_row_in hd b c o : o ∈ outputs b -> exists r, r ∈ new_rows hd (length (rows c)) (outputs b) /\ or_hash r = hash_of o /\ or_output r = Some o.
Proof. intros (i & Hi)%list_elem_of_lookup. eexists. split; [apply elem_of_new_rows; eauto|done]. Qed.

Lemma rows_output c r : chain_ok c -> r ∈ rows c -> exists o, or_output r = Some o /\ or_hash r = hash_of o /\ encodable o.
Proof.
  induction c as [|[hd b] c IH]; [intros _ []%not_elem_of_nil|]. intros [Hb Hc] [Hr|(i & o & Hi & ->)%elem_of_new_rows]%elem_of_app; [by apply IH|]. exists o. split_and!; [done|done|].
  pose proof (bk_encodable _ _ _ Hb) as He. rewrite Forall_forall in He. apply He, list_elem_of_lookup. by eexists.
Qed.

Lemma unspent_in_rows c r : r ∈ unspent_rows c -> r ∈ rows c.
Proof. by intros [_ Hr]%list_elem_of_filter. Qed.

Lemma rows_plain c r o : chain_ok c -> r ∈ rows c -> or_output r = Some o -> validator_node_registration (out_features o) = None.
Proof.
  induction c as [|[hd b] c IH]; [intros _ []%not_elem_of_nil|]. intros [Hb Hc] [Hr|(i & o' & Hi & ->)%elem_of_new_rows]%elem_of_app; [by apply IH|]. cbn. intros [= ->].
  pose proof (bk_plain _ _ _ Hb) as Hp. rewrite Forall_forall in Hp. apply Hp. apply list_elem_of_lookup. by eexists.
Qed.

(** The contents of an input. *)
Lemma spent_data i o : spent_output i = data_of o -> encodable o -> in_commitment i = Ok (out_commitment o) /\ in_features i = Ok (out_features o) /\
  input_hash_of i = hash_of o /\ forall E, @input_output_hash _ _ _ E i = Ok (hash_of o).
Proof.
  intros Hd He. assert (forall E, @input_output_hash _ _ _ E i = Ok (hash_of o)) as Hh.
  { intros E. rewrite <- (hash_of_Ok o He). unfold input_output_hash. by rewrite Hd. }
  unfold in_commitment, in_features, input_hash_of. by rewrite Hh, Hd.
Qed.

Lemma spent_in_rows c h : chain_ok c -> h ∈ spent_hashes c -> h ∈ map or_hash (rows c).
Proof.
  induction c as [|[hd b] c IH]; cbn [rows chain_ok spent_hashes]; [done|]. intros [Hb Hc]. rewrite map_app, !elem_of_app, elem_of_map. intros [Hh|(i & -> & Hi)]; [left; by apply IH|].
  pose proof (bk_inputs _ _ _ Hb) as Hs. rewrite Forall_forall in Hs. destruct (Hs i Hi) as (o & Hd & [(r & Hr & Hro)|(Ho & _)]).
  - left. pose proof (unspent_in_rows c r Hr) as Hr'. destruct (rows_output c r Hc Hr') as (o' & Ho' & Hh & He). rewrite Hro in Ho'. injection Ho' as <-.
    destruct (spent_data i o Hd He) as (_ & _ & -> & _). rewrite <- Hh. by apply (list_elem_of_fmap_2 or_hash).
  - right. destruct (new_row_in hd b c o Ho) as (r & Hr & Hh & _). pose proof (bk_encodable _ _ _ Hb) as He. rewrite Forall_forall in He.
    destruct (spent_data i o Hd (He o Ho)) as (_ & _ & -> & _). rewrite <- Hh. by apply (list_elem_of_fmap_2 or_hash).
Qed.

(** The row an input spends. *)
Lemma spends_output c hd b i : chain_ok ((hd, b) :: c) -> i ∈ inputs b -> exists o r,
  spent_output i = data_of o /\ encodable o /\ r ∈ rows ((hd, b) :: c) /\ or_output r = Some o /\ or_hash r = hash_of o /\ row_burned r = false /\
  or_hash r ∉ spent_hashes c.
Proof.
  intros [Hb Hc] Hi. pose proof (bk_inputs _ _ _ Hb) as Hs. rewrite Forall_forall in Hs. destruct (Hs i Hi) as (o & Hd & Hsp). exists o. cbn [rows].
  destruct Hsp as [(r & Hr & Hro)|(Hin & Hburn)].
  - exists r. destruct (rows_output c r Hc (unspent_in_rows c r Hr)) as (o' & Ho' & Hh & He). rewrite Hro in Ho'. injection Ho' as <-.
    apply list_elem_of_filter in Hr as [Hg Hr]. unfold gone in Hg. split_and!; try done; [apply elem_of_app; by left|destruct (row_burned r); tauto|tauto].
  - destruct (new_row_in hd b c o Hin) as (r & Hr & Hh & Hro). exists r. pose proof (bk_encodable _ _ _ Hb) as He. rewrite Forall_forall in He.
    unfold row_burned. rewrite Hro. split_and!; try done; [by apply He|apply elem_of_app; by right|].
    intros Hsp%spent_in_rows; [|done]. pose proof (bk_hashes_new _ _ _ Hb) as Hn. rewrite Forall_forall in Hn. apply (Hn o Hin). congruence.
Qed.

Lemma spends_row c hd b i : chain_ok ((hd, b) :: c) -> i ∈ inputs b -> exists com f r,
  in_commitment i = Ok com /\ in_features i = Ok f /\ validator_node_registration f = None /\ @input_output_hash _ _ _ ChainStorageError i = Ok (input_hash_of i) /\
  r ∈ rows ((hd, b) :: c) /\ or_hash r = input_hash_of i /\ row_commitment r = com_as_bytes com /\ row_burned r = false /\ or_hash r ∉ spent_hashes c.
Proof.
  intros Hok Hi. destruct (spends_output c hd b i Hok Hi) as (o & r & Hd & He & Hr & Hro & Hh & Hb & Hs). destruct (spent_data i o Hd He) as (Hcom & Hf & Hih & Hio).
  exists (out_commitment o), (out_features o), r. unfold row_commitment. rewrite Hro. split_and!; try done; [by apply (rows_plain ((hd, b) :: c) r)|congruence|congruence].
Qed.

Lemma input_rows_position c x : chain_ok c -> x ∈ input_rows c -> exists r, r ∈ rows c /\ or_hash r ∈ spent_hashes c /\ ir_mmr_position x.2 = or_mmr_position r.
Proof.
  induction c as [|[hd b] c IH]; [intros _ []%not_elem_of_nil|]. intros Hok. cbn [input_rows spent_hashes]. rewrite elem_of_app, elem_of_map. intros [Hx|(i & -> & Hi)].
  - destruct IH as (r & Hr & Hh & Hp); [by destruct Hok|done|]. exists r. cbn [rows]. rewrite !elem_of_app. tauto.
  - destruct (spends_row c hd b i Hok Hi) as (com & f & r & _ & _ & _ & _ & Hr & Hh & _). exists r. split_and!; [done| |].
    + apply elem_of_app. right. rewrite Hh. by apply (list_elem_of_fmap_2 input_hash_of).
    + cbn [snd ir_mmr_position input_row]. by rewrite <- Hh, position_of_row.
Qed.

(** ** Inputs *)

Definition input_com (i : TransactionInput) : PedersenCommitment := match in_commitment i with Ok com => com | _ => com_default end.
Definition input_position c (i : TransactionInput) : Z := position_of (rows c) (input_hash_of i).

Definition input_loop side c hd b (done : list TransactionInput) : InputLoop :=
  {| il_mmr := {| om_base := Z.of_nat (length (rows c)); om_new := map hash_of (outputs b);
       om_deleted := list_to_set (map (input_position ((hd, b) :: c)) done) ∪ burned_positions hd (length (rows c)) (outputs b) |};
     il_zero_conf := map input_com (filter (fun i => input_hash_of i ∉ map or_hash (rows c)) done);
     il_txos := txo_tables_of (filter (fun r => row_commitment r ∉ map (fun i => com_as_bytes (input_com i)) done) (unspent_rows c)) (rows c)
       (input_rows c ++ map (fun i => (bh_height hd, input_row hd (rows ((hd, b) :: c)) i)) done);
     il_side := side |}.

Lemma hash_index_lookup c r : chain_ok c -> r ∈ rows c -> table_of hash_entry (rows c) !! or_hash r = Some (or_mmr_position r, (or_header_hash r, or_mmr_position r)).
Proof. intros Hc Hr. apply table_lookup_Some; [by apply rows_hashes|]. by exists r. Qed.

(** The position of the spent row, and whether it is of the block. *)
Lemma spent_index side c hd b done i com r : chain_ok ((hd, b) :: c) -> in_commitment i = Ok com ->
  r ∈ rows ((hd, b) :: c) -> or_hash r = input_hash_of i ->
  match txos_hash_to_index_db (il_txos (input_loop side c hd b done)) !! input_hash_of i with
  | Some (index, _) => Ok (index, il_zero_conf (input_loop side c hd b done))
  | None =>
      match om_find_leaf_index (input_hash_of i) (il_mmr (input_loop side c hd b done)) with
      | Some index => commitment ← map_err StorageTransactionError (in_commitment i); Ok (index, il_zero_conf (input_loop side c hd b done) ++ [commitment])
      | None => Err UnspendableInput
      end
  end = Ok (or_mmr_position r, il_zero_conf (input_loop side c hd b (done ++ [i]))).
Proof.
  intros Hok Hcom Hr Hh. pose proof Hok as [Hb Hc]. cbn [input_loop il_txos txos_hash_to_index_db txo_tables_of il_zero_conf il_mmr]. rewrite filter_app, filter_cons, filter_nil, map_app.
  cbn [rows] in Hr. apply elem_of_app in Hr as [Hr|Hr].
  - rewrite <- Hh, (hash_index_lookup c r Hc Hr). rewrite decide_False; [by rewrite app_nil_r|]. intros Hn. apply Hn. by apply (list_elem_of_fmap_2 or_hash).
  - apply elem_of_new_rows in Hr as (j & o & Hj & ->). cbn [or_hash output_row] in Hh.
    assert (hash_of o ∉ map or_hash (rows c)) as Hn. { pose proof (bk_hashes_new _ _ _ Hb) as Hn. rewrite Forall_forall in Hn. apply Hn. apply list_elem_of_lookup. by eexists. }
    rewrite <- Hh, (table_lookup_None hash_entry) by done. rewrite (find_leaf_index_new _ (outputs b) _ j o) by (done || apply Hb).
    unfold input_com. rewrite decide_True by done. cbn [map]. by rewrite Hcom.
Qed.

Lemma insert_input_Ok hd u l ins full i com : in_commitment i = Ok com -> @input_output_hash _ _ _ ChainStorageError i = Ok (input_hash_of i) ->
  position_of full (input_hash_of i) ∉ map (fun x => ir_mmr_position x.2) ins ->
  insert_input hd i (position_of full (input_hash_of i)) (txo_tables_of u l ins) =
  Ok (txo_tables_of (filter (fun r => row_commitment r <> com_as_bytes com) u) l (ins ++ [(bh_height hd, input_row hd full i)])).
Proof.
  intros Hcom Hh Hp. set (x := (bh_height hd, input_row hd full i)). unfold insert_input. rewrite Hcom. cbn [map_err mbind result_bind txo_tables_of].
  cbn [utxo_commitment_index deleted_txo_mmr_position_to_height_index inputs_db txos_hash_to_index_db utxos_db txo_tables_of].
  rewrite (lmdb_insert_row deleted_entry ins x) by done. cbn [mbind result_bind].
  assert (@canonical_hash _ _ _ ChainStorageError i = Ok (canonical_hash_of i)) as ->.
  { unfold canonical_hash_of. destruct (@canonical_hash _ _ _ ChainStorageError i) eqn:Hc; [done| |]; unfold canonical_hash in Hc; by rewrite Hh in Hc. }
  unfold input_to_compact. rewrite Hh. cbn [mbind result_bind]. rewrite (lmdb_insert_row input_entry ins x); [by rewrite table_delete|done|].
  rewrite elem_of_map. intros (y & Hy & Hin). apply Hp. apply elem_of_map. exists y. split; [|done]. by injection Hy.
Qed.

Lemma om_delete_Ok mmr p : p < om_size mmr -> p ∉ om_deleted mmr ->
  om_delete p mmr = Some {| om_base := om_base mmr; om_new := om_new mmr; om_deleted := {[p]} ∪ om_deleted mmr |}.
Proof. intros Hlt Hn. unfold om_delete. rewrite bool_decide_false by done. by rewrite (proj2 (Z.leb_gt _ _)). Qed.

(** The position of a spent row is not deleted yet. *)
Lemma spent_position_new c hd b done i r : chain_ok ((hd, b) :: c) -> incl done (inputs b) -> input_hash_of i ∉ map input_hash_of done ->
  r ∈ rows ((hd, b) :: c) -> or_hash r = input_hash_of i -> row_burned r = false -> or_hash r ∉ spent_hashes c ->
  (or_mmr_position r ∉ map (input_position ((hd, b) :: c)) done) /\ (or_mmr_position r ∉ burned_positions hd (length (rows c)) (outputs b)) /\
  (or_mmr_position r ∉ map (fun x => ir_mmr_position x.2) (input_rows c ++ map (fun i => (bh_height hd, input_row hd (rows ((hd, b) :: c)) i)) done)).
Proof.
  intros Hok Hincl Hnew Hr Hh Hburn Hun.
  assert (or_mmr_position r ∉ map (input_position ((hd, b) :: c)) done) as Hdone.
  { rewrite elem_of_map. intros (j & Hj & Hin). destruct (spends_row c hd b j Hok) as (_ & _ & r' & _ & _ & _ & _ & Hr' & Hh' & _); [by apply list_elem_of_In, Hincl, list_elem_of_In|].
    unfold input_position in Hj. rewrite <- Hh', position_of_row in Hj by done. apply (rows_position_inj _ _ _ Hr Hr') in Hj as ->.
    apply Hnew. rewrite <- Hh, Hh'. by apply (list_elem_of_fmap_2 input_hash_of). }
  split_and!; [done| |].
  - unfold burned_positions. rewrite elem_of_list_to_set, elem_of_map. intros (r' & Hp & [Hb' Hr']%list_elem_of_filter).
    apply (rows_position_inj ((hd, b) :: c)) in Hp as ->; [congruence|done|]. cbn [rows]. apply elem_of_app. by right.
  - rewrite map_app, elem_of_app, map_map. intros [Hin|Hin]; [|by apply Hdone]. apply elem_of_map in Hin as (x & Hp & Hx).
    destruct (input_rows_position c x) as (r' & Hr' & Hsp & Hp'); [by destruct Hok|done|]. rewrite Hp' in Hp.
    apply (rows_position_inj ((hd, b) :: c)) in Hp as ->; [done|done|]. cbn [rows]. apply elem_of_app. by left.
Qed.

Lemma spend_inputs_Ok side c hd b : chain_ok ((hd, b) :: c) -> foldM (spend_input hd) (inputs b) (input_loop side c hd b []) = Ok (input_loop side c hd b (inputs b)).
Proof.
  intros Hok. apply (foldM_prefix _ _ (input_loop side c hd b)). intros done i rest Hl.
  assert (i ∈ inputs b) as Hi by (rewrite Hl; set_solver).
  destruct (spends_row c hd b i Hok Hi) as (com & f & r & Hcom & Hf & Hv & Hh & Hr & Hrh & Hrc & Hburn & Hun).
  pose proof (bk_inputs_once _ _ _ (proj1 Hok)) as Honce. rewrite Hl in Honce. apply NoDup_map_next in Honce.
  destruct (spent_position_new c hd b done i r Hok) as (Hn1 & Hn2 & Hn3); try done; [intros x Hx; rewrite Hl; apply in_app_iff; by left|].
  unfold spend_input. rewrite Hh. cbn [mbind result_bind].
  rewrite (spent_index side c hd b done i com r Hok Hcom Hr Hrh). cbn [mbind result_bind]. rewrite Hf. cbn [map_err mbind result_bind]. rewrite Hv. cbn [mbind result_bind].
  assert (or_mmr_position r = position_of (rows ((hd, b) :: c)) (input_hash_of i)) as Hpos by by rewrite <- Hrh, position_of_row.
  rewrite om_delete_Ok.
  - unfold ok_or. cbn [mbind result_bind]. rewrite Hpos in *. cbn [il_txos input_loop]. rewrite (insert_input_Ok _ _ _ _ _ _ com) by done. cbn [mbind result_bind].
    f_equal. unfold input_loop. cbn [il_mmr om_base om_new om_deleted il_zero_conf il_side]. f_equal.
    + f_equal. rewrite map_app, list_to_set_app_L. cbn [map list_to_set]. unfold input_position at 3. set_solver.
    + rewrite list_filter_filter, !map_app, <- app_assoc. f_equal. apply list_filter_iff. intros x. rewrite not_elem_of_app. cbn [map].
      assert (input_com i = com) as -> by (unfold input_com; by rewrite Hcom). set_solver.
  - unfold om_size. cbn [il_mmr input_loop om_base om_new]. rewrite length_map. apply rows_position_bound in Hr. cbn [rows] in Hr. rewrite length_app, length_new_rows in Hr. lia.
  - cbn [il_mmr input_loop om_deleted]. rewrite elem_of_union, elem_of_list_to_set. tauto.
Qed.

(** ** Rows of outputs *)

Lemma rows_positions_distinct c : NoDup (map or_mmr_position (rows c)).
Proof.
  apply NoDup_alt. intros i j p Hi Hj. change (map or_mmr_position (rows c)) with (or_mmr_position <$> rows c) in *.
  rewrite list_lookup_fmap, fmap_Some in Hi, Hj. destruct Hi as (r & Hr%rows_position & ->), Hj as (r' & Hr'%rows_position & ?). lia.
Qed.

Lemma NoDup_map_weaken {A K K'} (f : A -> K) (g : A -> K') l : (forall x y, g x = g y -> f x = f y) -> NoDup (map f l) -> NoDup (map g l).
Proof.
  intros Hfg. induction l as [|x l IH]; cbn; [constructor|]. rewrite !NoDup_cons, !elem_of_map. intros [Hx Hl]. split; [|by apply IH].
  intros (y & Hy & Hin). apply Hx. exists y. split; [by apply Hfg|done].
Qed.

Lemma NoDup_map_filter {A K} (f : A -> K) (P : A -> Prop) `{!forall x, Decision (P x)} l : NoDup (map f l) -> NoDup (map f (filter P l)).
Proof.
  induction l as [|x l IH]; cbn [map]; [by rewrite filter_nil|]. rewrite NoDup_cons, filter_cons. intros [Hx Hl]. destruct (decide (P x)); [|by apply IH]. cbn [map].
  apply NoDup_cons. split; [|by apply IH]. rewrite elem_of_map in *. intros (y & Hy & Hin). apply Hx. exists y. split; [done|]. by apply list_elem_of_filter in Hin as [_ Hin].
Qed.

Lemma filter_iff_in {A} (P Q : A -> Prop) `{!forall x, Decision (P x), !forall x, Decision (Q x)} (l : list A) :
  (forall x, x ∈ l -> P x <-> Q x) -> filter P l = filter Q l.
Proof.
  induction l as [|x l IH]; intros Hl; [done|]. rewrite !filter_cons, IH by (intros; apply Hl; by right). pose proof (Hl x ltac:(left)).
  destruct (decide (P x)), (decide (Q x)); tauto || done.
Qed.

Lemma filter_keeps {A} (P : A -> Prop) `{!forall x, Decision (P x)} (l : list A) : (forall x, x ∈ l -> P x) -> filter P l = l.
Proof. induction l as [|x l IH]; intros Hl; [done|]. rewrite filter_cons, decide_True, IH; [done|intros; apply Hl; by right|apply Hl; left]. Qed.

Definition output_keys_distinct (u l : list TransactionOutputRowData) : Prop :=
  NoDup (map row_commitment u) /\ NoDup (map or_hash l) /\ NoDup (map or_mmr_position l).

Lemma output_entries_distinct l : NoDup (map or_mmr_position l) -> NoDup (map (fun r => (output_entry r).1) l).
Proof. apply NoDup_map_weaken. intros x y Hxy. by injection Hxy. Qed.

Lemma insert_output_Ok hd u l ins o p ru rl : encodable o ->
  output_keys_distinct (u ++ output_row hd p o :: ru) (l ++ output_row hd p o :: rl) ->
  insert_output (bh_hash hd) (bh_height hd) o p (bh_timestamp hd) (txo_tables_of u l ins) = Ok (txo_tables_of (u ++ [output_row hd p o]) (l ++ [output_row hd p o]) ins).
Proof.
  intros He (Hc & Hh & Hp). unfold insert_output. rewrite (hash_of_Ok o He). cbn [mbind result_bind utxo_commitment_index txos_hash_to_index_db utxos_db inputs_db deleted_txo_mmr_position_to_height_index txo_tables_of].
  pose proof (lmdb_insert_next commitment_entry u _ ru Hc) as H1. pose proof (lmdb_insert_next hash_entry l _ rl Hh) as H2.
  pose proof (lmdb_insert_next output_entry l _ rl (output_entries_distinct _ Hp)) as H3.
  cbn [fst snd commitment_entry hash_entry output_entry row_commitment or_hash or_mmr_position or_header_hash or_output output_row] in H1, H2, H3.
  rewrite H1. cbn [mbind result_bind]. rewrite H2. cbn [mbind result_bind]. unfold output_row in H3. rewrite H3. done.
Qed.

Lemma new_rows_next hd base done o rest : exists more,
  new_rows hd base (done ++ o :: rest) = new_rows hd base done ++ output_row hd (Z.of_nat base + Z.of_nat (length done)) o :: more.
Proof. eexists. unfold new_rows. rewrite imap_app. cbn [imap]. by rewrite Nat.add_0_r. Qed.

Lemma add_outputs_Ok manager hd u l ins side os :
  Forall encodable os -> Forall (fun o => validator_node_registration (out_features o) = None /\ template_registration (out_features o) = None) os ->
  Z.of_nat (length l + length os) <= U32_MAX ->
  output_keys_distinct (u ++ new_rows hd (length l) os) (l ++ new_rows hd (length l) os) ->
  foldM (add_output_row manager hd) (imap (fun i o => (o, Z.of_nat (length l) + Z.of_nat i + 1)) os) (txo_tables_of u l ins, side) =
  Ok (txo_tables_of (u ++ new_rows hd (length l) os) (l ++ new_rows hd (length l) os) ins, side).
Proof.
  intros He Hv Hsize Hd. set (ps := imap _ os).
  pose (st := fun done : list (TransactionOutput * Z) => (txo_tables_of (u ++ new_rows hd (length l) (map fst done)) (l ++ new_rows hd (length l) (map fst done)) ins, side)).
  assert (map fst ps = os) as Hos. { subst ps. change (fst <$> imap (fun i o => (o, Z.of_nat (length l) + Z.of_nat i + 1)) os = os). rewrite fmap_imap. etransitivity; [apply (imap_const id)|]. apply list_fmap_id. }
  replace (txo_tables_of u l ins, side) with (st []) by (unfold st; cbn; by rewrite !app_nil_r).
  assert (forall o, o ∈ os -> encodable o /\ validator_node_registration (out_features o) = None /\ template_registration (out_features o) = None) as Hall.
  { intros o Ho. rewrite Forall_forall in He, Hv. by split; [apply He|apply Hv]. }
  rewrite (foldM_prefix _ ps st); [unfold st; by rewrite Hos|]. intros done [o n] rest Hps.
  assert (n = Z.of_nat (length l) + Z.of_nat (length done) + 1) as ->.
  { assert (ps !! length done = Some (o, n)) as Hl by (rewrite Hps; by apply list_lookup_middle). subst ps. rewrite list_lookup_imap in Hl. apply fmap_Some in Hl as (? & _ & [= _ ->]). done. }
  rewrite Hps, map_app in Hos. cbn [map fst] in Hos. destruct (Hall o) as (Heo & Hvo & Hto); [rewrite <- Hos; set_solver|].
  destruct (new_rows_next hd (length l) (map fst done) o (map fst rest)) as [more Hmore]. rewrite <- Hos in Hd, Hsize. rewrite Hmore, !app_assoc, length_map in Hd. rewrite length_app, length_map in Hsize. cbn [length] in Hsize.
  unfold add_output_row, st. rewrite (proj2 (Z.ltb_ge _ _)) by lia. rewrite (hash_of_Ok o Heo). cbn [mbind result_bind]. rewrite Hvo. cbn [mbind result_bind]. rewrite Hto. cbn [mbind result_bind].
  replace (Z.of_nat (length l) + Z.of_nat (length done) + 1 - 1) with (Z.of_nat (length l) + Z.of_nat (length done)) by lia.
  rewrite (insert_output_Ok _ _ _ _ _ _ more more) by done. cbn [mbind result_bind]. rewrite map_app. cbn [map fst]. by rewrite new_rows_snoc, length_map, !app_assoc.
Qed.

Lemma delete_commitments_Ok cs l : NoDup cs -> (forall com, com ∈ cs -> com_as_bytes com ∈ map row_commitment l) ->
  foldM delete_commitment cs (table_of commitment_entry l) = Ok (table_of commitment_entry (filter (fun r => row_commitment r ∉ map com_as_bytes cs) l)).
Proof.
  intros Hnd Hin. pose (st := fun done => table_of commitment_entry (filter (fun r => row_commitment r ∉ map com_as_bytes done) l)).
  replace (table_of commitment_entry l) with (st []).
  - apply (foldM_prefix _ cs st). intros done com rest Hcs. unfold delete_commitment, st.
    destruct (elem_of_map row_commitment (com_as_bytes com) l) as [Hx _]. destruct Hx as (r & Hr & Hl); [apply Hin; rewrite Hcs; set_solver|].
    rewrite (lmdb_delete_row commitment_entry _ r); [|apply list_elem_of_filter; split; [|done]|done].
    + rewrite list_filter_filter. do 2 f_equal. apply list_filter_iff. intros x. rewrite map_app, not_elem_of_app. cbn. set_solver.
    + rewrite <- Hr, elem_of_map. intros (com' & Heq%com_bytes_inj & Hd). subst com'. rewrite Hcs in Hnd. apply NoDup_app in Hnd as (_ & Hnd & _). apply (Hnd com Hd). left.
  - unfold st. f_equal. apply filter_keeps. intros r _. apply not_elem_of_nil.
Qed.

(** ** Unspent rows *)

Lemma unspent_step c hd b : unspent_rows ((hd, b) :: c) =
  filter (fun r => ~ gone (spent_hashes ((hd, b) :: c)) r) (unspent_rows c ++ new_rows hd (length (rows c)) (outputs b)).
Proof.
  unfold unspent_rows. cbn [rows]. rewrite !filter_app, list_filter_filter. f_equal. apply list_filter_iff. intros r. unfold gone. cbn [spent_hashes]. rewrite elem_of_app. tauto.
Qed.

Lemma unspent_commitments c hd b : block_ok c hd b -> NoDup (map row_commitment (unspent_rows c)) ->
  NoDup (map row_commitment (unspent_rows c ++ new_rows hd (length (rows c)) (outputs b))).
Proof.
  intros Hb Hu. apply NoDup_map_app. split_and!; [done| |].
  - intros r (i & o & Hi & ->)%elem_of_new_rows. pose proof (bk_commitments_new _ _ _ Hb) as Hn. rewrite Forall_forall in Hn. apply Hn. apply list_elem_of_lookup. by eexists.
  - rewrite (map_new_rows row_commitment (fun o => com_as_bytes (out_commitment o))) by done. eapply NoDup_map_weaken; [|exact (bk_commitments _ _ _ Hb)]. intros x y Hxy. by apply com_bytes_inj.
Qed.

Lemma unspent_commitments_distinct c : chain_ok c -> NoDup (map row_commitment (unspent_rows c)).
Proof.
  induction c as [|[hd b] c IH]; [constructor|]. intros [Hb Hc]. rewrite unspent_step. apply NoDup_map_filter, unspent_commitments; [done|by apply IH].
Qed.

Lemma row_eq_commitment c hd b r1 r2 : chain_ok ((hd, b) :: c) -> let l := unspent_rows c ++ new_rows hd (length (rows c)) (outputs b) in
  r1 ∈ l -> r2 ∈ l -> row_commitment r1 = row_commitment r2 -> r1 = r2.
Proof.
  intros [Hb Hc] l (i & Hi)%list_elem_of_lookup (j & Hj)%list_elem_of_lookup Heq.
  pose proof (unspent_commitments c hd b Hb (unspent_commitments_distinct c Hc)) as Hnd. fold l in Hnd.
  assert (i = j) as ->; [|congruence]. change (map row_commitment l) with (row_commitment <$> l) in Hnd.
  eapply NoDup_lookup; [exact Hnd| |]; rewrite list_lookup_fmap; [by rewrite Hi|]. rewrite Hj. cbn. by rewrite Heq.
Qed.

(** An input spends the unspent or new row with its commitment. *)
Lemma input_row_spent c hd b i r : chain_ok ((hd, b) :: c) -> i ∈ inputs b -> r ∈ unspent_rows c ++ new_rows hd (length (rows c)) (outputs b) ->
  or_hash r = input_hash_of i <-> row_commitment r = com_as_bytes (input_com i).
Proof.
  intros Hok Hi Hr. destruct (spends_row c hd b i Hok Hi) as (com & f & r' & Hcom & _ & _ & _ & Hr' & Hh & Hc & Hb & Hs).
  assert (input_com i = com) as -> by (unfold input_com; by rewrite Hcom). rewrite <- Hh, <- Hc.
  assert (r' ∈ unspent_rows c ++ new_rows hd (length (rows c)) (outputs b)) as Hr''.
  { cbn [rows] in Hr'. rewrite elem_of_app in *. destruct Hr' as [Hr'|Hr']; [left|by right]. apply list_elem_of_filter. split; [|done]. unfold gone. rewrite Hb. intros [?|?]; done. }
  split; intros Heq; [apply (row_eq_hash ((hd, b) :: c)) in Heq as ->|apply (row_eq_commitment c hd b) in Heq as ->]; try done.
  cbn [rows]. rewrite elem_of_app in *. destruct Hr as [Hr|Hr]; [left|by right]. by apply list_elem_of_filter in Hr as [_ Hr].
Qed.

(** What the deletions leave of the index. *)
Lemma index_of_unspent c hd b r : chain_ok ((hd, b) :: c) -> r ∈ unspent_rows c ++ new_rows hd (length (rows c)) (outputs b) ->
  ~ gone (spent_hashes ((hd, b) :: c)) r <->
  (forall i, i ∈ inputs b -> row_commitment r <> com_as_bytes (input_com i)) /\ row_burned r = false.
Proof.
  intros Hok Hr. unfold gone. cbn [spent_hashes]. rewrite elem_of_app, elem_of_map. split.
  - intros Hg. split; [|destruct (row_burned r); tauto]. intros i Hi Heq. apply Hg. left; right. exists i. split; [|done]. by apply (input_row_spent c hd b i r).
  - intros [Hi Hb] [[Hs|(i & Heq & Hin)]|Hb']; [| |congruence].
    + apply elem_of_app in Hr as [Hr|Hr]; [apply list_elem_of_filter in Hr as [Hg _]; unfold gone in Hg; tauto|].
      apply spent_in_rows in Hs; [|by destruct Hok]. apply elem_of_new_rows in Hr as (j & o & Hj & ->).
      pose proof (bk_hashes_new _ _ _ (proj1 Hok)) as Hn. rewrite Forall_forall in Hn. apply (Hn o); [|done]. apply list_elem_of_lookup. by eexists.
    + apply (Hi i Hin). by apply (input_row_spent c hd b i r).
Qed.

(** ** Deletions from the index *)

Definition zero_conf c b : list PedersenCommitment := map input_com (filter (fun i => input_hash_of i ∉ map or_hash (rows c)) (inputs b)).
Definition burned b : list PedersenCommitment := map out_commitment (filter (fun o => output_is_burned o = true) (outputs b)).

Lemma zero_conf_row c hd b com : chain_ok ((hd, b) :: c) -> com ∈ zero_conf c b -> exists i r, com = input_com i /\ i ∈ inputs b /\
  r ∈ new_rows hd (length (rows c)) (outputs b) /\ or_hash r = input_hash_of i /\ row_commitment r = com_as_bytes com /\ row_burned r = false.
Proof.
  intros Hok (i & -> & [Hn Hi]%list_elem_of_filter)%elem_of_map. destruct (spends_row c hd b i Hok Hi) as (com & f & r & Hcom & _ & _ & _ & Hr & Hh & Hc & Hb & _).
  exists i, r. assert (input_com i = com) as -> by (unfold input_com; by rewrite Hcom). split_and!; try done.
  cbn [rows] in Hr. apply elem_of_app in Hr as [Hr|Hr]; [|done]. destruct Hn. rewrite <- Hh. by apply (list_elem_of_fmap_2 or_hash).
Qed.

Lemma burned_row c hd b com : com ∈ burned b -> exists r, r ∈ new_rows hd (length (rows c)) (outputs b) /\ row_commitment r = com_as_bytes com /\ row_burned r = true.
Proof.
  intros (o & -> & [Hb (j & Hj)%list_elem_of_lookup]%list_elem_of_filter)%elem_of_map. eexists. split; [apply elem_of_new_rows; eauto|done].
Qed.

Lemma deletions_distinct c hd b : chain_ok ((hd, b) :: c) -> NoDup (zero_conf c b ++ burned b).
Proof.
  intros Hok. assert (forall r1 r2, r1 ∈ new_rows hd (length (rows c)) (outputs b) -> r2 ∈ new_rows hd (length (rows c)) (outputs b) -> row_commitment r1 = row_commitment r2 -> r1 = r2) as Hinj.
  { intros r1 r2 H1 H2. apply (row_eq_commitment c hd b); [done| |]; apply elem_of_app; by right. }
  apply NoDup_app. split_and!.
  - apply NoDup_fmap_2_strong; [|apply NoDup_filter; eapply NoDup_fmap_1; apply (bk_inputs_once _ _ _ (proj1 Hok))].
    intros i j [Hni Hi]%list_elem_of_filter [Hnj Hj]%list_elem_of_filter Heq.
    destruct (spends_row c hd b i Hok Hi) as (_ & _ & r & _ & _ & _ & _ & Hr & Hh & _).
    assert (r ∈ unspent_rows c ++ new_rows hd (length (rows c)) (outputs b)) as Hr'.
    { cbn [rows] in Hr. rewrite elem_of_app in *. destruct Hr as [Hr|Hr]; [|by right]. destruct Hni. rewrite <- Hh. by apply (list_elem_of_fmap_2 or_hash). }
    pose proof (proj1 (input_row_spent c hd b i r Hok Hi Hr') Hh) as Hc. rewrite Heq in Hc. apply (input_row_spent c hd b j r Hok Hj Hr') in Hc.
    pose proof (bk_inputs_once _ _ _ (proj1 Hok)) as Hnd. change (map input_hash_of (inputs b)) with (input_hash_of <$> inputs b) in Hnd.
    apply list_elem_of_lookup in Hi as (n & Hn), Hj as (m & Hm). assert (n = m) as ->; [|congruence].
    eapply NoDup_lookup; [exact Hnd| |]; rewrite list_lookup_fmap; [by rewrite Hn|]. rewrite Hm. cbn. congruence.
  - intros com Hz Hb. destruct (zero_conf_row c hd b com Hok Hz) as (_ & r & _ & _ & Hr & _ & Hc & Hnb), (burned_row c hd b com Hb) as (r' & Hr' & Hc' & Hb').
    assert (r = r') as -> by (apply Hinj; congruence). congruence.
  - apply NoDup_map_filter, (bk_commitments _ _ _ (proj1 Hok)).
Qed.

Lemma new_row_kept c hd b r : chain_ok ((hd, b) :: c) -> r ∈ new_rows hd (length (rows c)) (outputs b) ->
  (row_commitment r ∉ map com_as_bytes (zero_conf c b ++ burned b)) -> (forall i, i ∈ inputs b -> row_commitment r <> com_as_bytes (input_com i)) /\ row_burned r = false.
Proof.
  intros Hok Hr Hn. assert (r ∈ unspent_rows c ++ new_rows hd (length (rows c)) (outputs b)) as Hr' by (apply elem_of_app; by right). split.
  - intros i Hi Heq. apply Hn. rewrite Heq. apply (list_elem_of_fmap_2 com_as_bytes), elem_of_app. left. apply (list_elem_of_fmap_2 input_com), list_elem_of_filter. split; [|done].
    apply (input_row_spent c hd b i r Hok Hi Hr') in Heq. rewrite <- Heq. apply elem_of_new_rows in Hr as (j & o & Hj & ->).
    pose proof (bk_hashes_new _ _ _ (proj1 Hok)) as Hh. rewrite Forall_forall in Hh. apply (Hh o). apply list_elem_of_lookup. by eexists.
  - apply elem_of_new_rows in Hr as (j & o & Hj & ->). change (row_burned _) with (output_is_burned o). destruct (output_is_burned o) eqn:Hb; [|done]. destruct Hn.
    apply (list_elem_of_fmap_2 com_as_bytes), elem_of_app. right. apply (list_elem_of_fmap_2 out_commitment), list_elem_of_filter. split; [done|]. apply list_elem_of_lookup. by eexists.
Qed.

Lemma unspent_not_deleted c hd b r : chain_ok ((hd, b) :: c) -> r ∈ unspent_rows c ++ new_rows hd (length (rows c)) (outputs b) ->
  (forall i, i ∈ inputs b -> row_commitment r <> com_as_bytes (input_com i)) -> row_burned r = false -> row_commitment r ∉ map com_as_bytes (zero_conf c b ++ burned b).
Proof.
  intros Hok Hr Hi Hb. rewrite elem_of_map. intros (com & Hc & [Hz|Hz]%elem_of_app).
  - destruct (zero_conf_row c hd b com Hok Hz) as (i & _ & -> & Hin & _). by apply (Hi i).
  - destruct (burned_row c hd b com Hz) as (r' & Hr' & Hc' & Hb'). assert (r = r') as ->; [|congruence].
    apply (row_eq_commitment c hd b); [done|done|apply elem_of_app; by right|congruence].
Qed.

Lemma index_deletions c hd b : chain_ok ((hd, b) :: c) ->
  foldM delete_commitment (zero_conf c b ++ burned b) (table_of commitment_entry
    (filter (fun r => row_commitment r ∉ map (fun i => com_as_bytes (input_com i)) (inputs b)) (unspent_rows c) ++ new_rows hd (length (rows c)) (outputs b))) =
  Ok (table_of commitment_entry (unspent_rows ((hd, b) :: c))).
Proof.
  intros Hok. rewrite delete_commitments_Ok; [do 2 f_equal|by apply (deletions_distinct c hd b)|].
  - rewrite unspent_step, !filter_app, list_filter_filter. f_equal; apply filter_iff_in; intros r Hr.
    + assert (r ∈ unspent_rows c ++ new_rows hd (length (rows c)) (outputs b)) as Hr' by (apply elem_of_app; by left). rewrite (index_of_unspent c hd b r Hok Hr'). split.
      * intros [_ Hin]. split; [intros i Hi Heq; apply Hin, elem_of_map; by exists i|]. apply list_elem_of_filter in Hr as [Hg _]. unfold gone in Hg. destruct (row_burned r); tauto.
      * intros [Hi Hb]. split; [by apply (unspent_not_deleted c hd b)|]. intros (i & Heq & Hin)%elem_of_map. by apply (Hi i).
    + assert (r ∈ unspent_rows c ++ new_rows hd (length (rows c)) (outputs b)) as Hr' by (apply elem_of_app; by right). rewrite (index_of_unspent c hd b r Hok Hr'). split.
      * intros Hn. by apply (new_row_kept c hd b r).
      * intros [Hi Hb]. by apply (unspent_not_deleted c hd b).
  - intros com [Hz|Hz]%elem_of_app; rewrite map_app, elem_of_app; right.
    + destruct (zero_conf_row c hd b com Hok Hz) as (i & r & _ & _ & Hr & _ & <- & _). by apply (list_elem_of_fmap_2 row_commitment).
    + destruct (burned_row c hd b com Hz) as (r & Hr & <- & _). by apply (list_elem_of_fmap_2 row_commitment).
Qed.

(** ** Deleted positions *)

Lemma elem_of_deleted_of c p : p ∈ deleted_of c <-> exists r, r ∈ rows c /\ gone (spent_hashes c) r /\ p = or_mmr_position r.
Proof. unfold deleted_of. rewrite elem_of_list_to_set, elem_of_map. setoid_rewrite list_elem_of_filter. naive_solver. Qed.

Lemma elem_of_deleted_by c hd b p : chain_ok ((hd, b) :: c) ->
  p ∈ deleted_by c hd b <-> exists r, r ∈ rows ((hd, b) :: c) /\ p = or_mmr_position r /\
    (or_hash r ∈ map input_hash_of (inputs b) \/ (r ∈ new_rows hd (length (rows c)) (outputs b) /\ row_burned r = true)).
Proof.
  intros Hok. unfold deleted_by. rewrite elem_of_union, !elem_of_list_to_set, !elem_of_map. split.
  - intros [(i & -> & Hi)|(r & -> & [Hb Hr]%list_elem_of_filter)].
    + destruct (spends_row c hd b i Hok Hi) as (_ & _ & r & _ & _ & _ & _ & Hr & Hh & _). exists r. rewrite <- Hh. split_and!; [done|by apply position_of_row|left]. rewrite Hh. by apply (list_elem_of_fmap_2 input_hash_of).
    + exists r. split_and!; [cbn [rows]; apply elem_of_app; by right|done|by right].
  - intros (r & Hr & -> & [(i & Heq & Hi)%elem_of_map|[Hn Hb]]); [left; exists i|right; exists r].
    + split; [|done]. by rewrite <- Heq, position_of_row.
    + split; [done|]. by apply list_elem_of_filter.
Qed.

Lemma gone_step c hd b r : gone (spent_hashes ((hd, b) :: c)) r <-> gone (spent_hashes c) r \/ or_hash r ∈ map input_hash_of (inputs b).
Proof. unfold gone. cbn [spent_hashes]. rewrite elem_of_app. tauto. Qed.

Lemma gone_old c hd b r : chain_ok ((hd, b) :: c) -> r ∈ rows ((hd, b) :: c) -> gone (spent_hashes c) r ->
  r ∈ rows c \/ (r ∈ new_rows hd (length (rows c)) (outputs b) /\ row_burned r = true).
Proof.
  intros Hok Hr Hg. pose proof Hr as Hr'. cbn [rows] in Hr'. apply elem_of_app in Hr' as [Hr'|Hr']; [by left|]. destruct Hg as [Hs|Hb]; [left|by right].
  pose proof (spent_in_rows c _ (proj2 Hok) Hs) as (r' & Heq & Hin)%elem_of_map.
  apply (row_eq_hash ((hd, b) :: c)) in Heq as ->; [done|done|done|]. cbn [rows]. apply elem_of_app. by left.
Qed.

Lemma deleted_step c hd b : chain_ok ((hd, b) :: c) -> deleted_of c ∪ deleted_by c hd b = deleted_of ((hd, b) :: c).
Proof.
  intros Hok. apply set_eq. intros p. rewrite elem_of_union, !elem_of_deleted_of, elem_of_deleted_by by done. setoid_rewrite gone_step. split.
  - intros [(r & Hr & Hg & ->)|(r & Hr & -> & Hg)]; exists r; (split; [|unfold gone; tauto]); [cbn [rows]; apply elem_of_app; by left|done].
  - intros (r & Hr & [Hg|Hi] & ->); [|right; exists r; tauto]. destruct (gone_old c hd b r Hok Hr Hg) as [Hr'|[Hn Hb]]; [left; by exists r|right]. exists r. tauto.
Qed.

(** ** Accumulated data *)

Lemma accumulated_heights c : chain_ok c -> map (fun e => (id e).1) (accumulated_entries c) = map Z.of_nat (seq 0 (length c)).
Proof.
  induction c as [|[hd b] c IH]; [done|]. intros [Hb Hc]. cbn [accumulated_entries length]. rewrite seq_S, !map_app, IH by done. cbn. by rewrite (bk_height _ _ _ Hb).
Qed.

Lemma accumulated_height_new c : chain_ok c -> Z.of_nat (length c) ∉ map (fun e => (id e).1) (accumulated_entries c).
Proof. intros Hc. rewrite accumulated_heights, elem_of_map by done. intros (n & Hn & Hin%elem_of_seq). lia. Qed.

Lemma previous_data c hd : chain_ok c -> bh_height hd = Z.of_nat (length c) -> exists data,
  (if bh_height hd =? 0 then Ok accumulated_default else or_not_found (table_of id (accumulated_entries c) !! (bh_height hd - 1))) = Ok data /\
  acc_kernels data = map kr_hash (kernel_rows c) /\ acc_outputs data = map or_hash (rows c) /\ acc_witness data = map or_witness_hash (rows c).
Proof.
  intros Hc Hh. rewrite Hh. destruct c as [|[hd' b'] c]; [by eexists|]. cbn [length]. rewrite (proj2 (Z.eqb_neq _ _)) by lia.
  exists (accumulated_entry c hd' b').2. split; [|done]. destruct Hc as [Hb Hc].
  assert (table_of id (accumulated_entries ((hd', b') :: c)) !! (Z.of_nat (S (length c)) - 1) = Some (accumulated_entry c hd' b').2) as ->; [|done].
  apply table_lookup_Some.
  - rewrite (accumulated_heights ((hd', b') :: c)) by done. apply (NoDup_fmap_2_strong Z.of_nat); [intros; lia|apply NoDup_seq].
  - exists (accumulated_entry c hd' b'). split; [apply elem_of_app; right; left|]. unfold id, accumulated_entry. rewrite (bk_height _ _ _ Hb). f_equal. lia.
Qed.

(** ** Kernels of a chain *)

Lemma kernel_rows_lookup c i r : kernel_rows c !! i = Some r -> kr_mmr_position r = mmr_size (Z.of_nat (S i)) - 1.
Proof.
  revert i. induction c as [|[hd b] c IH]; intros i; [done|]. cbn [kernel_rows]. intros [Hi|[Hge Hi]]%lookup_app_Some; [by apply IH|].
  unfold new_kernel_rows in Hi. rewrite list_lookup_imap in Hi. apply fmap_Some in Hi as (o & _ & ->). cbn [kr_mmr_position kernel_row].
  do 3 f_equal. rewrite Nat.add_comm, Nat.sub_add by done. done.
Qed.

Lemma kernel_positions_distinct c : NoDup (map kernel_key (kernel_rows c)).
Proof.
  apply NoDup_alt. intros i j k Hi Hj. change (map kernel_key (kernel_rows c)) with (kernel_key <$> kernel_rows c) in *.
  rewrite list_lookup_fmap, fmap_Some in Hi, Hj. destruct Hi as (r & Hr%kernel_rows_lookup & ->), Hj as (r' & Hr'%kernel_rows_lookup & Heq). injection Heq as _ Hp _.
  destruct (Nat.lt_trichotomy i j) as [Hlt|[Heq|Hlt]]; [|done|].
  - pose proof (mmr_size_strict (Z.of_nat (S i)) (Z.of_nat (S j))). lia.
  - pose proof (mmr_size_strict (Z.of_nat (S j)) (Z.of_nat (S i))). lia.
Qed.

Lemma kernel_rows_distinct c : chain_ok c -> kernel_keys_distinct (kernel_rows c).
Proof.
  intros Hc. split_and!; [| |apply kernel_positions_distinct]; induction c as [|[hd b] c IH]; [constructor| |constructor|]; destruct Hc as [Hb Hc]; specialize (IH Hc);
    cbn [kernel_rows]; rewrite NoDup_map_app; (split_and!; [done| |]).
  - intros r Hr. apply elem_of_lookup_imap in Hr as (i & k & -> & Hi). pose proof (bk_excess_new _ _ _ Hb) as Hn. rewrite Forall_forall in Hn. apply (Hn k). apply list_elem_of_lookup. by eexists.
  - rewrite (map_new_kernel_rows _ (fun k => com_as_bytes (k_excess k))) by done. eapply NoDup_map_weaken; [|exact (bk_excess _ _ _ Hb)]. intros x y Hxy. by apply com_bytes_inj.
  - intros r Hr. apply elem_of_lookup_imap in Hr as (i & k & -> & Hi). pose proof (bk_sigs_new _ _ _ Hb) as Hn. rewrite Forall_forall in Hn. apply (Hn k). apply list_elem_of_lookup. by eexists.
  - rewrite (map_new_kernel_rows _ excess_sig_key) by done. eapply NoDup_map_weaken; [|exact (bk_sigs _ _ _ Hb)]. intros x y Hxy. by apply sig_key_inj.
Qed.

(** ** Storing a block *)

Lemma input_loop_nil side c hd b : input_loop side c hd b [] =
  {| il_mmr := ol_mmr (output_loop hd (length (rows c)) (map or_witness_hash (rows c)) (outputs b)); il_zero_conf := [];
     il_txos := txo_tables_of (unspent_rows c) (rows c) (input_rows c); il_side := side |}.
Proof.
  unfold input_loop. cbn [map output_loop ol_mmr]. rewrite app_nil_r. f_equal; [|f_equal].
  - f_equal. cbn. set_solver.
  - apply filter_keeps. intros r _. apply not_elem_of_nil.
Qed.

Lemma stored_keys_distinct c hd b (P : TransactionOutputRowData -> Prop) `{!forall r, Decision (P r)} : chain_ok ((hd, b) :: c) ->
  output_keys_distinct (filter P (unspent_rows c) ++ new_rows hd (length (rows c)) (outputs b)) (rows ((hd, b) :: c)).
Proof.
  intros Hok. split_and!; [|by apply rows_hashes|apply rows_positions_distinct].
  pose proof (unspent_commitments c hd b (proj1 Hok) (unspent_commitments_distinct c (proj2 Hok))) as (H1 & H2 & H3)%NoDup_map_app.
  apply NoDup_map_app. split_and!; [by apply NoDup_map_filter| |done]. intros r Hr (r' & Heq & [_ Hr']%list_elem_of_filter)%elem_of_map.
  apply (H2 r Hr), elem_of_map. by exists r'.
Qed.

Lemma accumulated_row side c hd b : id (accumulated_entry c hd b) =
  (bh_height hd,
   {| acc_kernels := kl_hashes (kernel_loop hd (kernel_rows c) (kernels b));
      acc_outputs := map or_hash (rows c) ++ om_new (il_mmr (input_loop side c hd b (inputs b)));
      acc_witness := ol_witness (output_loop hd (length (rows c)) (map or_witness_hash (rows c)) (outputs b));
      acc_deleted := om_deleted (il_mmr (input_loop side c hd b (inputs b))); acc_kernel_sum := kl_sum (kernel_loop hd (kernel_rows c) (kernels b)) |}).
Proof.
  unfold accumulated_entry, id. cbn [kl_hashes kernel_loop il_mmr input_loop om_new om_deleted ol_witness output_loop kl_sum rows kernel_rows]. rewrite !map_app.
  by rewrite (map_new_rows or_hash hash_of), (map_new_rows or_witness_hash witness_hash).
Qed.

(** A block that extends the chain is stored, and the database then holds the longer chain. *)
Lemma insert_block_body_Ok manager db c hd b : represents db c -> chain_ok ((hd, b) :: c) ->
  headers_db (header_tables db) !! bh_height hd = Some hd -> block_hashes_db (header_tables db) !! bh_hash hd = Some (bh_height hd) ->
  exists db', insert_block_body manager hd b db = Ok db' /\ represents db' ((hd, b) :: c) /\ side_tables db' = side_tables db /\
    header_tables db' = header_tables db.
Proof.
  intros [Htx Hk Hdel Hacc Hhd] Hok Hh1 Hh2. pose proof Hok as [Hb Hc]. destruct (previous_data c hd Hc (bk_height _ _ _ Hb)) as (data & Hdata & Hdk & Hdo & Hdw).
  unfold insert_block_body. rewrite Hh1. change (or_not_found (Some hd)) with (@Ok ChainStorageError _ hd). cbn [mbind result_bind]. rewrite bool_decide_true by done. cbn [negb]. rewrite Hacc, Hdata. cbn [mbind result_bind].
  rewrite Hk, Hdk, Hdo, Hdw, !length_map, Htx, Hdel.
  replace {| kl_sum := com_default; kl_hashes := map kr_hash (kernel_rows c); kl_tables := kernel_tables_of (kernel_rows c) |} with (kernel_loop hd (kernel_rows c) [])
    by (unfold kernel_loop; cbn; by rewrite !app_nil_r).
  rewrite (add_kernels_Ok hd (kernel_rows c) (kernels b)); [|by apply (kernel_rows_distinct ((hd, b) :: c))|apply Hb]. cbn [mbind result_bind].
  replace {| ol_mmr := _; ol_witness := _; ol_burned := _ |} with (output_loop hd (length (rows c)) (map or_witness_hash (rows c)) [])
    by (unfold output_loop; cbn; by rewrite !app_nil_r).
  rewrite push_outputs_Ok by apply Hb. cbn [mbind result_bind].
  rewrite <- input_loop_nil, spend_inputs_Ok by done. cbn [mbind result_bind il_txos il_side input_loop].
  rewrite add_outputs_Ok; [|apply Hb|apply Hb|apply Hb|by apply stored_keys_distinct]. cbn [mbind result_bind].
  pose proof (index_deletions c hd b Hok) as Hix. rewrite foldM_app in Hix. apply bind_Ok_iff in Hix as (ix & Hix1 & Hix2).
  cbn [utxo_commitment_index txo_tables_of]. unfold zero_conf in Hix1. cbn [il_zero_conf input_loop]. rewrite Hix1. cbn [mbind result_bind].
  unfold burned in Hix2. cbn [ol_burned output_loop]. rewrite Hix2. cbn [mbind result_bind].
  rewrite (lmdb_insert_row id (accumulated_entries c) (accumulated_entry c hd b)); [|apply accumulated_row|rewrite (bk_height _ _ _ Hb); by apply accumulated_height_new].
  cbn [mbind result_bind]. eexists. split; [done|]. split; [|done]. split; cbn.
  - done.
  - done.
  - exact (deleted_step c hd b Hok).
  - done.
  - apply Forall_cons. split; done.
Qed.

End Spec.
