(* ===== verification/ChainRewind.v ===== *)
(** * Removing the last block

    Removing the body of the last block from a database that holds a chain succeeds and gives a database that holds the
    chain without it. *)

From S2P Require Import Prelude ScriptTypes Opcodes ScriptStack TariScript Amounts Emission ConsensusConstants ConsensusManager MmrCommon.
From S2P Require Import Covenants TxComponents BlockHeader CovenantFilters CovenantSpec AggregatedBody BodyValidator ChainStorage ChainTables ChainStorageSpec.
From stdpp Require Import sorting.

Local Open Scope Z_scope.

(** ** Tables *)

Lemma mapM_map_Ok {E A B} (f : A -> result E B) (g : A -> B) l : (forall x, x ∈ l -> f x = Ok (g x)) -> mapM f l = Ok (map g l).
Proof. induction l as [|x l IH]; intros Hl; [done|]. cbn. rewrite Hl by left. cbn. rewrite IH by (intros; apply Hl; by right). done. Qed.

Lemma Forall2_map_Ok {E A K} (f : A -> result E K) (g : A -> K) l : (forall x, x ∈ l -> f x = Ok (g x)) -> Forall2 (fun x k => f x = Ok k) l (map g l).
Proof. induction l as [|x l IH]; intros Hl; constructor; [apply Hl; left|]. apply IH. intros. apply Hl. by right. Qed.

Section Tables.
Context {A K V : Type} `{Countable K}.
Implicit Types (kv : A -> K * V) (l : list A).

Lemma filter_none {T} (P : T -> Prop) `{!forall x, Decision (P x)} (l : list T) : (forall x, x ∈ l -> ~ P x) -> filter P l = [].
Proof. induction l as [|x l IH]; intros Hl; [done|]. rewrite filter_cons, decide_False, IH; [done|intros; apply Hl; by right|apply Hl; left]. Qed.

Lemma table_of_filter kv l (P : K * V -> Prop) (Q : A -> Prop) `{!forall e, Decision (P e), !forall r, Decision (Q r)} : NoDup (map (fun r => (kv r).1) l) ->
  (forall r, P (kv r) <-> Q r) -> filter P (table_of kv l) = table_of kv (filter Q l).
Proof.
  intros Hnd HPQ. apply map_eq. intros k. apply option_eq. intros v. rewrite map_lookup_filter_Some, !table_lookup_Some; [|by apply NoDup_map_filter|done].
  setoid_rewrite list_elem_of_filter. setoid_rewrite <- HPQ. split.
  - intros [(r & Hr & Heq) HP]. exists r. split; [|done]. split; [|done]. by rewrite Heq.
  - intros (r & [HP Hr] & Heq). rewrite Heq in HP. split; [by exists r|done].
Qed.

Lemma table_rows kv l : NoDup (map (fun r => (kv r).1) l) -> map_to_list (table_of kv l) ≡ₚ map kv l.
Proof. intros Hnd. apply map_to_list_to_map. change (NoDup (fst <$> (kv <$> l))). by rewrite <- list_fmap_compose. Qed.

(** The rows of a block, and what is left without them. *)
Lemma block_rows kv (h : A -> bytes) l1 l2 hash (P N : K * V -> Prop) `{!forall e, Decision (P e), !forall e, Decision (N e)} :
  NoDup (map (fun r => (kv r).1) (l1 ++ l2)) -> (forall r, r ∈ l1 -> h r <> hash) -> (forall r, r ∈ l2 -> h r = hash) ->
  (forall r, P (kv r) <-> h r = hash) -> (forall r, N (kv r) <-> h r <> hash) ->
  map_to_list (filter P (table_of kv (l1 ++ l2))) ≡ₚ map kv l2 /\ filter N (table_of kv (l1 ++ l2)) = table_of kv l1.
Proof.
  intros Hnd Hl1 Hl2 HP HN. rewrite (table_of_filter kv _ P (fun r => h r = hash)), (table_of_filter kv _ N (fun r => h r <> hash)) by done. rewrite !filter_app. split.
  - rewrite filter_none, filter_keeps by done. apply table_rows. by apply NoDup_map_app in Hnd as (_ & _ & Hnd).
  - rewrite filter_keeps, filter_none; [by rewrite app_nil_r| |done]. intros r Hr Hn. by apply Hn, Hl2.
Qed.

(** The next row of those to be removed. *)
Lemma lmdb_delete_next kv l done r : r ∈ l -> (kv r).1 ∉ map (fun r => (kv r).1) done ->
  lmdb_delete (kv r).1 (table_of kv (filter (fun x => (kv x).1 ∉ map (fun r => (kv r).1) done) l)) =
  Ok (table_of kv (filter (fun x => (kv x).1 ∉ map (fun r => (kv r).1) (done ++ [r])) l)).
Proof.
  intros Hr Hn. rewrite (lmdb_delete_row kv _ r); [|by apply list_elem_of_filter|done]. rewrite list_filter_filter. do 2 f_equal. apply list_filter_iff. intros x.
  rewrite map_app, not_elem_of_app. cbn. set_solver.
Qed.

(** What is left when the last rows are removed. *)
Lemma filter_old {T} (f : A -> T) `{!EqDecision T} l1 l2 l2' : NoDup (map f (l1 ++ l2)) -> l2' ≡ₚ l2 -> filter (fun x => f x ∉ map f l2') (l1 ++ l2) = l1.
Proof.
  intros (_ & Hn & _)%NoDup_map_app Hp. rewrite filter_app, filter_keeps, filter_none; [apply app_nil_r| |].
  - intros x Hx Hnx. apply Hnx. rewrite Hp. by apply (list_elem_of_fmap_2 f).
  - intros x Hx. rewrite Hp, elem_of_map. intros (y & Hy & Hin). apply (Hn y Hin). rewrite <- Hy. by apply (list_elem_of_fmap_2 f).
Qed.

Lemma lmdb_insert_back kv l r (P Q : A -> Prop) `{!forall x, Decision (P x), !forall x, Decision (Q x)} : NoDup (map (fun r => (kv r).1) l) ->
  r ∈ l -> ~ P r -> (forall x, x ∈ l -> Q x <-> P x \/ (kv x).1 = (kv r).1) ->
  lmdb_insert (kv r).1 (kv r).2 (table_of kv (filter P l)) = Ok (table_of kv (filter Q l)).
Proof.
  intros Hnd Hr HP HQ.
  assert (forall x, x ∈ l -> (kv x).1 = (kv r).1 -> x = r) as Hinj.
  { intros x (i & Hi)%list_elem_of_lookup Heq. apply list_elem_of_lookup in Hr as (j & Hj). assert (i = j) as ->; [|congruence].
    change (map (fun r => (kv r).1) l) with ((fun r => (kv r).1) <$> l) in Hnd. eapply NoDup_lookup; [exact Hnd| |]; rewrite list_lookup_fmap; [by rewrite Hi|]. rewrite Hj. cbn. by rewrite Heq. }
  unfold lmdb_insert. rewrite table_lookup_None.
  - f_equal. apply map_eq. intros k. apply option_eq. intros v. rewrite lookup_insert_Some, !table_lookup_Some by by apply NoDup_map_filter.
    setoid_rewrite list_elem_of_filter. split.
    + intros [[<- <-]|[Hne (x & [HPx Hx] & Heq)]]; [exists r; split; [split; [apply HQ; auto|done]|by destruct (kv r)]|]. exists x. split; [split; [apply HQ; auto|done]|done].
    + intros (x & [HQx Hx] & Heq). destruct (decide ((kv r).1 = k)) as [Hk|Hk]; [left|right; split; [done|]].
      * assert (x = r) as -> by (apply Hinj; [done|by rewrite Heq, Hk]). rewrite Heq. done.
      * exists x. split; [|done]. split; [|done]. destruct (proj1 (HQ x Hx) HQx) as [HPx|Hkx]; [done|]. rewrite Heq in Hkx. by destruct Hk.
  - rewrite elem_of_map. intros (x & Heq & [HPx Hx]%list_elem_of_filter). apply HP. rewrite <- (Hinj x); done.
Qed.

End Tables.

Section Rewind.
Context {C : ScriptCrypto} {CL : ScriptCryptoLaws C} {B : BorshPrims C} {X : TxCrypto C}.
Implicit Types (c : list (BlockHeader * TxBody)) (hd : BlockHeader) (b : TxBody).

(** ** Rows of the block *)

Lemma rows_header c r : r ∈ rows c -> or_header_hash r ∈ map (fun blk => bh_hash blk.1) c.
Proof.
  induction c as [|[hd b] c IH]; [intros []%not_elem_of_nil|]. cbn [rows map]. rewrite elem_of_app, elem_of_cons. intros [Hr|(i & o & _ & ->)%elem_of_new_rows]; [right; by apply IH|by left].
Qed.

Lemma input_rows_header c x : x ∈ input_rows c -> ir_header_hash x.2 ∈ map (fun blk => bh_hash blk.1) c.
Proof.
  induction c as [|[hd b] c IH]; [intros []%not_elem_of_nil|]. cbn [input_rows map]. rewrite elem_of_app, elem_of_cons, elem_of_map. intros [Hr|(i & -> & _)]; [right; by apply IH|by left].
Qed.

Lemma kernel_rows_header c r : r ∈ kernel_rows c -> kr_header_hash r ∈ map (fun blk => bh_hash blk.1) c.
Proof.
  induction c as [|[hd b] c IH]; [intros []%not_elem_of_nil|]. cbn [kernel_rows map]. rewrite elem_of_app, elem_of_cons.
  intros [Hr|(i & o & -> & _)%elem_of_lookup_imap]; [right; by apply IH|by left].
Qed.

Lemma kernel_rows_of_block c hd b : chain_ok ((hd, b) :: c) ->
  kernel_rows_of (bh_hash hd) (table_of kernel_entry (kernel_rows ((hd, b) :: c))) ≡ₚ new_kernel_rows hd (length (kernel_rows c)) (kernels b) /\
  filter (fun kv => kv.1.1.1 <> bh_hash hd) (table_of kernel_entry (kernel_rows ((hd, b) :: c))) = table_of kernel_entry (kernel_rows c).
Proof.
  intros Hok. pose proof (kernel_rows_distinct _ Hok) as (_ & _ & Hk).
  destruct (block_rows kernel_entry kr_header_hash (kernel_rows c) (new_kernel_rows hd (length (kernel_rows c)) (kernels b)) (bh_hash hd)
    (fun kv => kv.1.1.1 = bh_hash hd) (fun kv => kv.1.1.1 <> bh_hash hd)) as [H1 H2]; try done.
  - intros r Hr%kernel_rows_header Heq. apply (bk_hash _ _ _ (proj1 Hok)). by rewrite <- Heq.
  - intros r Hr. by apply elem_of_lookup_imap in Hr as (i & o & -> & _).
  - split; [|done]. unfold kernel_rows_of. rewrite merge_sort_Permutation. cbn [kernel_rows]. rewrite (Permutation_map snd H1), map_map. cbn. by rewrite map_id.
Qed.

Lemma delete_block_kernels_Ok c hd b : chain_ok ((hd, b) :: c) ->
  delete_block_kernels (bh_hash hd) (kernel_tables_of (kernel_rows ((hd, b) :: c))) = Ok (kernel_tables_of (kernel_rows c)).
Proof.
  intros Hok. destruct (kernel_rows_of_block c hd b Hok) as [Hp Hf]. pose proof (kernel_rows_distinct _ Hok) as (He & Hs & _).
  unfold delete_block_kernels. cbn [kernels_db kernel_excess_index kernel_excess_sig_index kernel_tables_of]. rewrite Hf. set (l := kernel_rows_of _ _) in *. clearbody l.
  pose (st := fun done => {| kernel_excess_index := table_of excess_entry (filter (fun x => (excess_entry x).1 ∉ map (fun r => (excess_entry r).1) done) (kernel_rows ((hd, b) :: c)));
    kernel_excess_sig_index := table_of sig_entry (filter (fun x => (sig_entry x).1 ∉ map (fun r => (sig_entry r).1) done) (kernel_rows ((hd, b) :: c)));
    kernels_db := table_of kernel_entry (kernel_rows c) |}).
  assert (forall {K} (f : TransactionKernelRowData -> K), NoDup (map f (kernel_rows ((hd, b) :: c))) -> NoDup (map f l)) as Hnd.
  { intros K f Hf'. cbn [kernel_rows] in Hf'. apply NoDup_map_app in Hf' as (_ & _ & Hf'). assert (map f l ≡ₚ map f (new_kernel_rows hd (length (kernel_rows c)) (kernels b))) as -> by by apply Permutation_map. done. }
  apply Hnd in He as He', Hs as Hs'.
  etransitivity; [|etransitivity; [apply (foldM_prefix remove_kernel_row l st)|]].
  - unfold st. f_equal. cbn [map]. by rewrite !filter_keeps by (intros; apply not_elem_of_nil).
  - intros done r rest ->. assert (r ∈ kernel_rows ((hd, b) :: c)) as Hr. { cbn [kernel_rows]. apply elem_of_app. right. rewrite <- Hp. set_solver. }
    unfold remove_kernel_row, st. cbn [kernel_excess_index kernel_excess_sig_index kernels_db].
    pose proof (lmdb_delete_next excess_entry _ done r Hr (NoDup_map_next _ _ _ _ He')) as H1. cbn [excess_entry fst] in H1. cbn [excess_entry sig_entry fst]. rewrite H1. cbn [mbind result_bind].
    pose proof (lmdb_delete_next sig_entry _ done r Hr (NoDup_map_next _ _ _ _ Hs')) as H2. cbn [sig_entry fst] in H2. by rewrite H2.
  - unfold st. cbn [kernel_rows]. rewrite !filter_old with (l1 := kernel_rows c) by done. done.
Qed.

(** ** Inputs and outputs of the block *)

Lemma NoDup_map_inj {A K} (f : A -> K) l x y : NoDup (map f l) -> x ∈ l -> y ∈ l -> f x = f y -> x = y.
Proof.
  intros Hnd (i & Hi)%list_elem_of_lookup (j & Hj)%list_elem_of_lookup Heq. assert (i = j) as ->; [|congruence]. change (map f l) with (f <$> l) in Hnd.
  eapply NoDup_lookup; [exact Hnd| |]; rewrite list_lookup_fmap; [by rewrite Hi|]. rewrite Hj. cbn. by rewrite Heq.
Qed.

Lemma input_position_row c hd b i r : chain_ok ((hd, b) :: c) -> i ∈ inputs b -> r ∈ rows ((hd, b) :: c) ->
  input_position ((hd, b) :: c) i = or_mmr_position r -> or_hash r = input_hash_of i.
Proof.
  intros Hok Hi Hr. destruct (spends_row c hd b i Hok Hi) as (_ & _ & r' & _ & _ & _ & _ & Hr' & Hh & _). unfold input_position. rewrite <- Hh, position_of_row by done.
  intros Heq. by apply (rows_position_inj ((hd, b) :: c)) in Heq as ->.
Qed.

Lemma input_positions_distinct c : chain_ok c -> NoDup (map (fun x => ir_mmr_position x.2) (input_rows c)).
Proof.
  induction c as [|[hd b] c IH]; [constructor|]. intros Hok. pose proof Hok as [Hb Hc]. cbn [input_rows]. apply NoDup_map_app. split_and!; [by apply IH| |].
  - intros x (i & -> & Hi)%elem_of_map Hin. apply elem_of_map in Hin as (y & Heq & Hy). destruct (input_rows_position c y Hc Hy) as (r & Hr & Hs & Hp).
    destruct (spends_row c hd b i Hok Hi) as (_ & _ & r' & _ & _ & _ & _ & Hr' & Hh & _ & _ & Hn). apply Hn. rewrite Hh, <- (input_position_row c hd b i r); [done|done|done| |].
    + cbn [rows]. apply elem_of_app. by left.
    + rewrite <- Hp. exact Heq.
  - rewrite map_map. apply NoDup_fmap_2_strong; [|eapply NoDup_fmap_1, (bk_inputs_once _ _ _ Hb)]. intros i j Hi Hj Heq.
    apply (NoDup_map_inj input_hash_of (inputs b)); [apply Hb|done|done|].
    destruct (spends_row c hd b i Hok Hi) as (_ & _ & r & _ & _ & _ & _ & Hr & Hh & _). rewrite <- Hh. apply (input_position_row c hd b); [done|done|done|].
    etransitivity; [symmetry; exact Heq|]. cbn [snd ir_mmr_position input_row]. by rewrite <- Hh, position_of_row.
Qed.

Lemma output_rows_of_block c hd b : chain_ok ((hd, b) :: c) ->
  output_rows_of (bh_hash hd) (table_of output_entry (rows ((hd, b) :: c))) ≡ₚ new_rows hd (length (rows c)) (outputs b) /\
  filter (fun kv => kv.1.1 <> bh_hash hd) (table_of output_entry (rows ((hd, b) :: c))) = table_of output_entry (rows c).
Proof.
  intros Hok. destruct (block_rows output_entry or_header_hash (rows c) (new_rows hd (length (rows c)) (outputs b)) (bh_hash hd)
    (fun kv => kv.1.1 = bh_hash hd) (fun kv => kv.1.1 <> bh_hash hd)) as [H1 H2]; try done.
  - apply (output_entries_distinct (rows ((hd, b) :: c))), rows_positions_distinct.
  - intros r Hr%rows_header Heq. apply (bk_hash _ _ _ (proj1 Hok)). by rewrite <- Heq.
  - by intros r (i & o & _ & ->)%elem_of_new_rows.
  - split; [|done]. unfold output_rows_of. rewrite merge_sort_Permutation. cbn [rows]. rewrite (Permutation_map snd H1), map_map. cbn. by rewrite map_id.
Qed.

Lemma input_rows_of_block c hd b : chain_ok ((hd, b) :: c) ->
  input_rows_of (bh_hash hd) (table_of input_entry (input_rows ((hd, b) :: c))) ≡ₚ map (input_row hd (rows ((hd, b) :: c))) (inputs b) /\
  filter (fun kv => kv.1.1.1 <> bh_hash hd) (table_of input_entry (input_rows ((hd, b) :: c))) = table_of input_entry (input_rows c).
Proof.
  intros Hok. destruct (block_rows input_entry (fun x => ir_header_hash x.2) (input_rows c) (map (fun i => (bh_height hd, input_row hd (rows ((hd, b) :: c)) i)) (inputs b)) (bh_hash hd)
    (fun kv => kv.1.1.1 = bh_hash hd) (fun kv => kv.1.1.1 <> bh_hash hd)) as [H1 H2]; try done.
  - eapply NoDup_map_weaken; [|exact (input_positions_distinct _ Hok)]. intros x y Heq. by injection Heq.
  - intros r Hr%input_rows_header Heq. apply (bk_hash _ _ _ (proj1 Hok)). by rewrite <- Heq.
  - by intros r (i & -> & _)%elem_of_map.
  - split; [|done]. unfold input_rows_of. rewrite merge_sort_Permutation. change (input_rows ((hd, b) :: c)) with (input_rows c ++ map (fun i => (bh_height hd, input_row hd (rows ((hd, b) :: c)) i)) (inputs b)).
    rewrite (Permutation_map snd H1), !map_map. done.
Qed.

(** ** Removing the outputs *)

(** The hash a stored input names. *)
Definition named_hash (x : TransactionInputRowData) : bytes := match spent_output (ir_input x) with OutputHash h => h | OutputData _ _ _ _ _ _ _ _ => [] end.

Lemma stored_input_hash {E} hd l is_ x : x ∈ map (input_row hd l) is_ -> @input_output_hash _ _ _ E (ir_input x) = Ok (named_hash x).
Proof. by intros (i & -> & _)%elem_of_map. Qed.

Lemma commitment_delete_next c done r : chain_ok c -> r ∈ unspent_rows c -> or_hash r ∉ map or_hash done ->
  lmdb_delete (row_commitment r) (table_of commitment_entry (filter (fun x => or_hash x ∉ map or_hash done) (unspent_rows c))) =
  Ok (table_of commitment_entry (filter (fun x => or_hash x ∉ map or_hash (done ++ [r])) (unspent_rows c))).
Proof.
  intros Hc Hr Hn. rewrite (lmdb_delete_row commitment_entry _ r); [|by apply list_elem_of_filter|done]. rewrite list_filter_filter. do 2 f_equal. apply filter_iff_in. intros x Hx.
  rewrite map_app, not_elem_of_app. cbn [map commitment_entry fst]. rewrite list_elem_of_singleton. split.
  - intros [Hne Hd]. split; [done|]. intros Heq. apply Hne. f_equal. by apply (row_eq_hash c); [|apply unspent_in_rows|apply unspent_in_rows|].
  - intros [Hd Hne]. split; [|done]. intros Heq. apply Hne. f_equal. by apply (NoDup_map_inj row_commitment (unspent_rows c)); [apply unspent_commitments_distinct| | |].
Qed.

Definition outputs_removed c hd b (done : list TransactionOutputRowData) : TxoTables :=
  {| utxo_commitment_index := table_of commitment_entry (filter (fun x => or_hash x ∉ map or_hash done) (unspent_rows ((hd, b) :: c)));
     txos_hash_to_index_db := table_of hash_entry (filter (fun x => (hash_entry x).1 ∉ map (fun r => (hash_entry r).1) done) (rows ((hd, b) :: c)));
     utxos_db := table_of output_entry (rows c); inputs_db := table_of input_entry (input_rows c);
     deleted_txo_mmr_position_to_height_index := table_of deleted_entry (input_rows ((hd, b) :: c)) |}.

Lemma remove_output_row_Ok c hd b irs done r : chain_ok ((hd, b) :: c) -> irs ≡ₚ map (input_row hd (rows ((hd, b) :: c))) (inputs b) ->
  r ∈ new_rows hd (length (rows c)) (outputs b) -> or_hash r ∉ map or_hash done ->
  remove_output_row irs (outputs_removed c hd b done) r = Ok (outputs_removed c hd b (done ++ [r])).
Proof.
  intros Hok Hirs Hr Hn. assert (r ∈ rows ((hd, b) :: c)) as Hr' by (cbn [rows]; apply elem_of_app; by right).
  unfold remove_output_row. cbn [txos_hash_to_index_db outputs_removed]. rewrite (lmdb_delete_next hash_entry _ done r Hr' Hn). cbn [mbind result_bind].
  destruct (rows_output _ r Hok Hr') as (o & Ho & Hh & He). rewrite Ho, (hash_of_Ok o He), <- Hh. cbn [mbind result_bind].
  rewrite (mapM_map_Ok _ named_hash) by (intros x Hx; rewrite Hirs in Hx; by eapply stored_input_hash). cbn [mbind result_bind].
  assert (or_hash r ∈ map named_hash irs <-> or_hash r ∈ map input_hash_of (inputs b)) as Hiff. { rewrite (Permutation_map named_hash Hirs), map_map. done. }
  assert (row_burned r = output_is_burned o) as Hburn by (unfold row_burned; by rewrite Ho).
  assert (row_commitment r = com_as_bytes (out_commitment o)) as Hcom by (unfold row_commitment; by rewrite Ho).
  assert (gone (spent_hashes ((hd, b) :: c)) r -> filter (fun x => or_hash x ∉ map or_hash done) (unspent_rows ((hd, b) :: c)) = filter (fun x => or_hash x ∉ map or_hash (done ++ [r])) (unspent_rows ((hd, b) :: c))) as Hsame.
  { intros Hg. apply filter_iff_in. intros x [Hx Hin]%list_elem_of_filter. rewrite map_app, not_elem_of_app. cbn [map]. rewrite list_elem_of_singleton.
    split; [intros Hx'; split; [done|]|tauto]. intros Heq. apply Hx. apply (row_eq_hash ((hd, b) :: c)) in Heq as ->; done. }
  cbn [utxo_commitment_index outputs_removed]. case_bool_decide as Hin; [|destruct (output_is_burned o) eqn:Hb].
  - cbn [mbind result_bind]. unfold outputs_removed. rewrite Hsame; [done|]. apply gone_step. right. by apply Hiff.
  - cbn [mbind result_bind]. unfold outputs_removed. rewrite Hsame; [done|]. right. by rewrite Hburn.
  - rewrite <- Hcom, commitment_delete_next; [done|done| |done]. apply list_elem_of_filter. split; [|done]. rewrite gone_step. intros [Hg|Hi]; [|by apply Hin, Hiff].
    destruct Hg as [Hs|Hg]; [|congruence]. apply spent_in_rows in Hs as (r' & Heq & Hold)%elem_of_map; [|by destruct Hok].
    pose proof (rows_hashes _ Hok) as Hnd. cbn [rows] in Hnd. apply NoDup_map_app in Hnd as (_ & Hnd & _). apply (Hnd r Hr). rewrite Heq. by apply (list_elem_of_fmap_2 or_hash).
Qed.

(** ** Restoring the inputs *)

Definition inputs_restored c hd b (done : list TransactionInputRowData) : TxoTables :=
  {| utxo_commitment_index := table_of commitment_entry (filter (fun r => ~ gone (spent_hashes ((hd, b) :: c)) r \/ or_hash r ∈ map named_hash done) (unspent_rows c));
     txos_hash_to_index_db := table_of hash_entry (rows c); utxos_db := table_of output_entry (rows c); inputs_db := table_of input_entry (input_rows c);
     deleted_txo_mmr_position_to_height_index := table_of deleted_entry (filter (fun x => ir_mmr_position x.2 ∉ map ir_mmr_position done) (input_rows ((hd, b) :: c))) |}.

Lemma outputs_removed_all c hd b orows : chain_ok ((hd, b) :: c) -> orows ≡ₚ new_rows hd (length (rows c)) (outputs b) ->
  outputs_removed c hd b orows = inputs_restored c hd b [].
Proof.
  intros Hok Hp. pose proof (rows_hashes _ Hok) as Hnd. cbn [rows] in Hnd. pose proof Hnd as (_ & Hn & _)%NoDup_map_app. unfold outputs_removed, inputs_restored. f_equal.
  - f_equal. rewrite unspent_step, list_filter_filter, filter_app, (filter_none _ (new_rows _ _ _)), app_nil_r.
    + apply filter_iff_in. intros r Hr%unspent_in_rows. cbn [map]. rewrite (Permutation_map or_hash Hp). split; [tauto|]. intros [Hg|[]%not_elem_of_nil]. split; [|done].
      intros (r' & Heq & Hr')%elem_of_map. apply (Hn r' Hr'). rewrite <- Heq. by apply (list_elem_of_fmap_2 or_hash).
    + intros r Hr [Hh _]. apply Hh. rewrite (Permutation_map or_hash Hp). by apply (list_elem_of_fmap_2 or_hash).
  - f_equal. by apply (filter_old or_hash (rows c)).
  - f_equal. symmetry. apply filter_keeps. intros x _. apply not_elem_of_nil.
Qed.

Lemma fetch_stored_output c db r o : chain_ok c -> r ∈ rows c -> or_output r = Some o -> txos_hash_to_index_db db = table_of hash_entry (rows c) -> utxos_db db = table_of output_entry (rows c) ->
  fetch_output_in_txn (or_hash r) db = Some (NotPruned o).
Proof.
  intros Hc Hr Ho H1 H2. unfold fetch_output_in_txn. rewrite H1, (hash_index_lookup c r Hc Hr). cbn.
  assert (utxos_db db !! (or_header_hash r, or_mmr_position r) = Some r) as ->; [|cbn; by rewrite Ho].
  rewrite H2. apply table_lookup_Some; [apply output_entries_distinct, rows_positions_distinct|]. by exists r.
Qed.

(** The output an input of the block spends is unspent without the block. *)
Lemma spent_old_row c hd b i : chain_ok ((hd, b) :: c) -> i ∈ inputs b -> input_hash_of i ∉ map or_hash (new_rows hd (length (rows c)) (outputs b)) ->
  exists r, r ∈ unspent_rows c /\ or_hash r = input_hash_of i.
Proof.
  intros Hok Hi Hn. destruct (spends_row c hd b i Hok Hi) as (_ & _ & r & _ & _ & _ & _ & Hr & Hh & _ & Hb & Hs). exists r. split; [|done].
  apply list_elem_of_filter. unfold gone. split; [intros [?|?]; [done|congruence]|]. cbn [rows] in Hr. apply elem_of_app in Hr as [Hr|Hr]; [done|].
  destruct Hn. rewrite <- Hh. by apply (list_elem_of_fmap_2 or_hash).
Qed.

Lemma restored_index c hd b done i r : chain_ok ((hd, b) :: c) -> i ∈ inputs b -> r ∈ unspent_rows c -> or_hash r = input_hash_of i ->
  or_hash r ∉ map named_hash done ->
  lmdb_insert (row_commitment r) (or_hash r) (utxo_commitment_index (inputs_restored c hd b done)) =
  Ok (utxo_commitment_index (inputs_restored c hd b (done ++ [input_row hd (rows ((hd, b) :: c)) i]))).
Proof.
  intros Hok Hi Hr Hh Hn. cbn [inputs_restored utxo_commitment_index]. apply (lmdb_insert_back commitment_entry).
  - by apply unspent_commitments_distinct, Hok.
  - done.
  - intros [Hg|Hd]; [|done]. apply Hg, gone_step. right. rewrite Hh. by apply (list_elem_of_fmap_2 input_hash_of).
  - intros x Hx. rewrite map_app, elem_of_app. cbn [map commitment_entry fst]. rewrite list_elem_of_singleton. change (named_hash _) with (input_hash_of i). rewrite <- Hh.
    assert (or_hash x = or_hash r <-> row_commitment x = row_commitment r) as ->; [|tauto]. split; intros Heq.
    + apply (row_eq_hash c) in Heq as ->; [done|apply Hok|by apply unspent_in_rows|by apply unspent_in_rows].
    + apply (NoDup_map_inj row_commitment (unspent_rows c)) in Heq as ->; [done|by apply unspent_commitments_distinct, Hok|done|done].
Qed.

Lemma restored_deleted c hd b done i : chain_ok ((hd, b) :: c) -> i ∈ inputs b -> let x := input_row hd (rows ((hd, b) :: c)) i in
  ir_mmr_position x ∉ map ir_mmr_position done ->
  lmdb_delete (ir_mmr_position x) (deleted_txo_mmr_position_to_height_index (inputs_restored c hd b done)) =
  Ok (deleted_txo_mmr_position_to_height_index (inputs_restored c hd b (done ++ [x]))).
Proof.
  intros Hok Hi x Hn. cbn [inputs_restored deleted_txo_mmr_position_to_height_index]. rewrite (lmdb_delete_row deleted_entry _ (bh_height hd, x)); [| |done].
  - rewrite list_filter_filter. do 2 f_equal. apply list_filter_iff. intros y. rewrite map_app, not_elem_of_app. cbn. set_solver.
  - apply list_elem_of_filter. split; [done|]. cbn [input_rows]. apply elem_of_app. right. by apply (list_elem_of_fmap_2 (fun i => (bh_height hd, input_row hd (rows ((hd, b) :: c)) i))).
Qed.

Lemma unspend_input_row_Ok c hd b orows done i : chain_ok ((hd, b) :: c) -> orows ≡ₚ new_rows hd (length (rows c)) (outputs b) -> i ∈ inputs b ->
  let x := input_row hd (rows ((hd, b) :: c)) i in ir_mmr_position x ∉ map ir_mmr_position done -> input_hash_of i ∉ map named_hash done ->
  unspend_input_row orows (inputs_restored c hd b done) x = Ok (inputs_restored c hd b (done ++ [x])).
Proof.
  intros Hok Hp Hi x Hpos Hnew. unfold unspend_input_row. change (input_output_hash (ir_input x)) with (@Ok ChainStorageError _ (input_hash_of i)). cbn [mbind result_bind].
  pose proof (restored_deleted c hd b done i Hok Hi Hpos) as Hdel. fold x in Hdel. rewrite Hdel. cbn [mbind result_bind].
  case_bool_decide as Hin; rewrite (Permutation_map or_hash Hp) in Hin.
  - cbn [mbind result_bind]. f_equal. unfold inputs_restored. cbn [utxo_commitment_index txos_hash_to_index_db utxos_db inputs_db deleted_txo_mmr_position_to_height_index]. f_equal. f_equal.
    apply filter_iff_in. intros r Hr%unspent_in_rows. rewrite map_app, elem_of_app. cbn [map]. rewrite list_elem_of_singleton. split; [tauto|].
    intros [Hg|[Hd|Heq]]; [tauto|tauto|]. exfalso. change (named_hash x) with (input_hash_of i) in Heq. apply elem_of_map in Hin as (r' & Heq' & Hr').
    pose proof (rows_hashes _ Hok) as Hnd. cbn [rows] in Hnd. apply NoDup_map_app in Hnd as (_ & Hnd & _). apply (Hnd r' Hr'). rewrite <- Heq', <- Heq. by apply (list_elem_of_fmap_2 or_hash).
  - destruct (spent_old_row c hd b i Hok Hi Hin) as (r & Hr & Hh). destruct (rows_output c r) as (o & Ho & Hro & He); [apply Hok|by apply unspent_in_rows|].
    rewrite <- Hh at 1. rewrite (fetch_stored_output c _ r o); [|apply Hok|by apply unspent_in_rows|done|done|done]. unfold or_not_found, ok_or. cbn [mbind result_bind].
    cbn [in_commitment add_output_data spent_output map_err mbind result_bind].
    change (input_output_hash _) with (@output_hash _ _ _ ChainStorageError o). rewrite (hash_of_Ok o He), <- Hro. cbn [mbind result_bind].
    replace (com_as_bytes (out_commitment o)) with (row_commitment r) by (unfold row_commitment; by rewrite Ho).
    rewrite (restored_index c hd b done i r Hok Hi Hr Hh) by by rewrite Hh. done.
Qed.

(** ** Removing a block *)

Lemma inputs_restored_all c hd b irs : chain_ok ((hd, b) :: c) -> irs ≡ₚ map (input_row hd (rows ((hd, b) :: c))) (inputs b) ->
  inputs_restored c hd b irs = txo_tables_of (unspent_rows c) (rows c) (input_rows c).
Proof.
  intros Hok Hp. unfold inputs_restored, txo_tables_of. f_equal; f_equal.
  - apply filter_keeps. intros r [Hg Hr]%list_elem_of_filter. rewrite (Permutation_map named_hash Hp), map_map. change (map (fun x => _) (inputs b)) with (map input_hash_of (inputs b)).
    destruct (decide (or_hash r ∈ map input_hash_of (inputs b))) as [Hi|Hi]; [by right|left]. rewrite gone_step. tauto.
  - cbn [input_rows]. pose proof (input_positions_distinct _ Hok) as Hnd. cbn [input_rows] in Hnd. etransitivity; [|eapply (filter_old (fun x => ir_mmr_position x.2)); [exact Hnd|reflexivity]].
    apply list_filter_iff. intros x. rewrite (Permutation_map ir_mmr_position Hp), !map_map. done.
Qed.

Lemma delete_block_inputs_outputs_Ok c hd b : chain_ok ((hd, b) :: c) ->
  delete_block_inputs_outputs (bh_hash hd) (txo_tables_of (unspent_rows ((hd, b) :: c)) (rows ((hd, b) :: c)) (input_rows ((hd, b) :: c))) =
  Ok (txo_tables_of (unspent_rows c) (rows c) (input_rows c)).
Proof.
  intros Hok. destruct (output_rows_of_block c hd b Hok) as [Ho Ho'], (input_rows_of_block c hd b Hok) as [Hi Hi'].
  unfold delete_block_inputs_outputs. cbn [utxos_db inputs_db txos_hash_to_index_db utxo_commitment_index deleted_txo_mmr_position_to_height_index txo_tables_of]. rewrite Ho', Hi'.
  set (orows := output_rows_of _ _) in *. set (irs := input_rows_of _ _) in *. clearbody orows irs.
  replace {| utxo_commitment_index := _; txos_hash_to_index_db := _; utxos_db := _; inputs_db := _; deleted_txo_mmr_position_to_height_index := _ |}
    with (outputs_removed c hd b []) by (unfold outputs_removed; cbn [map]; by rewrite !filter_keeps by (intros; apply not_elem_of_nil)).
  rewrite (foldM_prefix (remove_output_row irs) orows (outputs_removed c hd b)).
  - cbn [mbind result_bind]. rewrite (outputs_removed_all c hd b orows) by done. rewrite <- (inputs_restored_all c hd b irs Hok Hi).
    assert (NoDup (map ir_mmr_position irs) /\ NoDup (map named_hash irs)) as [Hnp Hnh].
    { rewrite (Permutation_map ir_mmr_position Hi), (Permutation_map named_hash Hi), !map_map. split; [|apply (bk_inputs_once _ _ _ (proj1 Hok))].
      pose proof (input_positions_distinct _ Hok) as Hnd. cbn [input_rows] in Hnd. apply NoDup_map_app in Hnd as (_ & _ & Hnd). by rewrite map_map in Hnd. }
    apply (foldM_prefix _ _ (inputs_restored c hd b)). intros done x rest ->.
    assert (x ∈ map (input_row hd (rows ((hd, b) :: c))) (inputs b)) as (i & -> & Hin)%elem_of_map by (rewrite <- Hi; set_solver).
    apply unspend_input_row_Ok; [done|done|done|exact (NoDup_map_next _ _ _ _ Hnp)|exact (NoDup_map_next _ _ _ _ Hnh)].
  - intros done r rest ->. apply remove_output_row_Ok; [done|done|rewrite <- Ho; set_solver|]. eapply NoDup_map_next. rewrite (Permutation_map or_hash Ho).
    pose proof (rows_hashes _ Hok) as Hnd. cbn [rows] in Hnd. by apply NoDup_map_app in Hnd as (_ & _ & Hnd).
Qed.

Lemma deleted_back c hd b : chain_ok ((hd, b) :: c) -> deleted_of ((hd, b) :: c) ∖ deleted_by c hd b = deleted_of c.
Proof.
  intros Hok. rewrite <- deleted_step by done. apply set_eq. intros p. rewrite elem_of_difference, elem_of_union. split; [tauto|]. intros Hp. split; [tauto|].
  rewrite elem_of_deleted_by by done. apply elem_of_deleted_of in Hp as (r & Hr & Hg & ->). intros (r' & Hr' & Heq & Hc').
  assert (r ∈ rows ((hd, b) :: c)) as Hr'' by (cbn [rows]; apply elem_of_app; by left). apply (rows_position_inj ((hd, b) :: c)) in Heq as <-; [|done|done].
  destruct Hc' as [(i & Hh & Hi)%elem_of_map|[Hn _]].
  - destruct (spends_row c hd b i Hok Hi) as (_ & _ & r' & _ & _ & _ & _ & Hin & Hh' & _ & Hb & Hs). rewrite <- Hh in Hh'.
    apply (row_eq_hash ((hd, b) :: c)) in Hh' as ->; [|done|done|done]. unfold gone in Hg. destruct Hg; [done|congruence].
  - pose proof (rows_position_bound c r Hr). apply new_rows_bounds in Hn. lia.
Qed.

(** Removing the body of the last block gives the database of the chain without it. *)
Lemma delete_block_body_Ok db c hd b : represents db ((hd, b) :: c) -> chain_ok ((hd, b) :: c) ->
  exists db', delete_block_body (bh_hash hd) db = Ok db' /\ represents db' c /\ side_tables db' = side_tables db /\
    header_tables db' = header_tables db.
Proof.
  intros [Htx Hk Hdel Hacc Hhd] Hok. apply Forall_cons in Hhd as [[_ Hh] Hhd]. pose proof Hok as [Hb Hc]. unfold delete_block_body. cbn [fst] in Hh. rewrite Hh.
  change (or_not_found (Some (bh_height hd))) with (@Ok ChainStorageError _ (bh_height hd)). cbn [mbind result_bind]. rewrite Hacc, Htx, Hk, Hdel.
  assert (NoDup (map (fun e => (id e).1) (accumulated_entries ((hd, b) :: c)))) as Hnd.
  { rewrite (accumulated_heights ((hd, b) :: c)) by done. apply (NoDup_fmap_2_strong Z.of_nat); [intros; lia|apply NoDup_seq]. }
  assert (accumulated_entry c hd b ∈ accumulated_entries ((hd, b) :: c)) as Hin by (cbn [accumulated_entries]; apply elem_of_app; right; left).
  assert (table_of id (accumulated_entries ((hd, b) :: c)) !! bh_height hd = Some (accumulated_entry c hd b).2) as ->.
  { apply table_lookup_Some; [done|]. by exists (accumulated_entry c hd b). }
  change (or_not_found (Some ?d)) with (@Ok ChainStorageError _ d). cbn [mbind result_bind].
  rewrite (lmdb_delete_row id _ (accumulated_entry c hd b)) by done. cbn [mbind result_bind].
  rewrite delete_block_inputs_outputs_Ok, delete_block_kernels_Ok by done. cbn [mbind result_bind]. eexists. split; [done|]. split; [|done]. split; [done|done|..]; cbn [deleted_bitmap block_accumulated_data_db header_tables].
  - exact (deleted_back c hd b Hok).
  - f_equal. cbn [accumulated_entries] in Hnd |- *. etransitivity; [|apply (filter_old (fun e => (id e).1) (accumulated_entries c) [accumulated_entry c hd b] [accumulated_entry c hd b]); done].
    apply list_filter_iff. intros e. cbn. by rewrite list_elem_of_singleton.
  - done.
Qed.

(** C20: storing a block and deleting it again is the identity on the database. A block whose header is stored, and that may follow the chain the
    database holds and therefore has no validator node or template registration, is stored, the database then holds the longer chain, and deleting the block brings back every table: the
    outputs it created are gone, those it spent are unspent again, and so are the kernels and positions. Registrations are excluded because [delete_block_body] leaves them in their tables. *)
Theorem block_store_delete_roundtrip manager db c hd b : represents db c -> chain_ok ((hd, b) :: c) ->
  headers_db (header_tables db) !! bh_height hd = Some hd -> block_hashes_db (header_tables db) !! bh_hash hd = Some (bh_height hd) ->
  exists db', insert_block_body manager hd b db = Ok db' /\ represents db' ((hd, b) :: c) /\ delete_block_body (bh_hash hd) db' = Ok db.
Proof.
  intros Hrep Hok H1 H2. destruct (insert_block_body_Ok manager db c hd b Hrep Hok H1 H2) as (db1 & Hi & Hrep1 & Hs1 & Hh1). exists db1. split; [done|]. split; [done|].
  destruct (delete_block_body_Ok db1 c hd b Hrep1 Hok) as (db2 & -> & Hrep2 & Hs2 & Hh2). f_equal. destruct Hrep as [A1 A2 A3 A4 _], Hrep2 as [B1 B2 B3 B4 _].
  destruct db, db2. cbn in *. congruence.
Qed.

End Rewind.
