(* ===== verification/BlockReading.v ===== *)
(** * The orphan pool

    The operations of [ChainDatabase] on orphan tables keep them consistent. *)

From S2P Require Import Prelude ScriptTypes Opcodes ScriptStack TariScript MmrCommon Amounts Emission Difficulty ConsensusConstants ConsensusManager Covenants.
From S2P Require Import TxComponents BlockHeader CovenantFilters CovenantSpec AggregatedBody BodyValidator BodyBalance BodyValidatorSpec ChainStorage ChainDatabase ChainTables ChainStorageSpec.
From S2P Require Import ChainRewind.
From stdpp Require Import sorting.

Local Open Scope Z_scope.

Section Pool.
Context {C : ScriptCrypto} {B : BorshPrims C} {X : TxCrypto C}.
Implicit Types (o : OrphanTables) (h : bytes).

(** Every orphan is listed under its parent, and what is known of orphans is known of stored ones. *)
Record pool_ok o : Prop := {
  po_hash : forall h blk, orphans_db o !! h = Some blk -> bh_hash (block_header blk) = h;
  po_parent : forall h blk, orphans_db o !! h = Some blk -> h ∈ default ∅ (orphan_parent_map_index o !! bh_prev_hash (block_header blk));
  po_data : forall h d, orphan_header_accumulated_data_db o !! h = Some d -> acc_hash d = h /\ is_Some (orphans_db o !! h);
  po_tips : forall h h', orphan_chain_tips_db o !! h = Some h' -> h' = h /\ is_Some (orphans_db o !! h);
}.

Lemma is_Some_insert {K V} `{Countable K} (m : gmap K V) k v k' : is_Some (m !! k') -> is_Some (<[k := v]> m !! k').
Proof. intros Hm. apply lookup_insert_is_Some'. by right. Qed.

Lemma pool_insert_block o blk : pool_ok o -> orphans_db o !! bh_hash (block_header blk) = None -> exists o', insert_orphan_block blk o = Ok o' /\ pool_ok o' /\
  orphans_db o' = <[bh_hash (block_header blk) := blk]> (orphans_db o) /\ orphan_chain_tips_db o' = orphan_chain_tips_db o /\
  orphan_header_accumulated_data_db o' = orphan_header_accumulated_data_db o.
Proof.
  intros [Hh Hp Hd Ht] Hn. unfold insert_orphan_block, lmdb_insert. rewrite Hn. cbn. eexists. split; [done|]. split; [|done]. split; cbn.
  - intros h blk' [[<- <-]|[Hne Hl]]%lookup_insert_Some; [done|by apply Hh].
  - intros h blk' [[<- <-]|[Hne Hl]]%lookup_insert_Some; unfold lmdb_insert_dup.
    + rewrite lookup_insert_eq. cbn. set_solver.
    + destruct (decide (bh_prev_hash (block_header blk) = bh_prev_hash (block_header blk'))) as [Heq|Hneq].
      * rewrite Heq, lookup_insert_eq. cbn. apply elem_of_union. right. by apply Hp.
      * rewrite lookup_insert_ne by done. by apply Hp.
  - intros h d Hl. destruct (Hd h d Hl). split; [done|]. by apply is_Some_insert.
  - intros h h' Hl. destruct (Ht h h' Hl). split; [done|]. by apply is_Some_insert.
Qed.

Lemma pool_set_data o d : pool_ok o -> is_Some (orphans_db o !! acc_hash d) -> orphan_header_accumulated_data_db o !! acc_hash d = None ->
  exists o', set_accumulated_data_for_orphan d o = Ok o' /\ pool_ok o' /\ orphans_db o' = orphans_db o /\ orphan_chain_tips_db o' = orphan_chain_tips_db o.
Proof.
  intros [Hh Hp Hd Ht] [blk Hb] Hn. unfold set_accumulated_data_for_orphan, lmdb_insert. rewrite Hb, Hn. cbn. eexists. split; [done|]. split; [|done]. split; cbn; [done|done| |done].
  intros h d' [[<- <-]|[Hne Hl]]%lookup_insert_Some; [split; [done|by eexists]|by apply Hd].
Qed.

Lemma pool_insert_tip o h : pool_ok o -> is_Some (orphans_db o !! h) -> orphan_chain_tips_db o !! h = None ->
  exists o', insert_orphan_chain_tip h o = Ok o' /\ pool_ok o' /\ orphans_db o' = orphans_db o.
Proof.
  intros [Hh Hp Hd Ht] Hb Hn. unfold insert_orphan_chain_tip, lmdb_insert. rewrite Hn. cbn. eexists. split; [done|]. split; [|done]. split; cbn; [done|done|done|].
  intros h' h'' [[<- <-]|[Hne Hl]]%lookup_insert_Some; [done|by apply Ht].
Qed.

Lemma is_Some_delete {K V} `{Countable K} (m : gmap K V) k k' : is_Some (m !! k') -> k' <> k -> is_Some (delete k m !! k').
Proof. intros Hm Hne. by rewrite lookup_delete_ne. Qed.

(** An orphan whose parent is not in the pool can be deleted. *)
Lemma pool_delete o h : pool_ok o -> (forall blk, orphans_db o !! h = Some blk -> orphans_db o !! bh_prev_hash (block_header blk) = None) ->
  exists o', delete_orphan h o = Ok o' /\ pool_ok o' /\ orphans_db o' = delete h (orphans_db o).
Proof.
  intros Hpo Hpar. pose proof Hpo as [Hh Hp Hd Ht]. unfold delete_orphan. destruct (orphans_db o !! h) as [blk|] eqn:Hb; [|exists o; split; [done|split; [done|by rewrite delete_id]]].
  unfold lmdb_delete_key_value. rewrite bool_decide_true by by apply Hp. cbn [mbind result_bind]. rewrite (Hpar blk eq_refl).
  set (parents := <[_ := _]> (orphan_parent_map_index o)).
  assert (exists tips, match orphan_chain_tips_db o !! h with
      | Some _ => tips ← lmdb_delete h (orphan_chain_tips_db o); Ok tips
      | None => Ok (orphan_chain_tips_db o)
      end = Ok tips /\ (forall k k', tips !! k = Some k' -> orphan_chain_tips_db o !! k = Some k' /\ k <> h)) as (tips & Htips & Htl).
  { unfold lmdb_delete. destruct (orphan_chain_tips_db o !! h) eqn:Hth; cbn; eexists; (split; [done|]).
    - intros k k' [Hne Hl]%lookup_delete_Some. done.
    - intros k k' Hl. split; [done|]. intros ->. congruence. }
  rewrite Htips. cbn [mbind result_bind]. unfold lmdb_delete. rewrite Hb. cbn [mbind result_bind]. eexists. split; [done|]. split; [|done]. split; cbn.
  - intros k blk' [Hne Hl]%lookup_delete_Some. by apply Hh.
  - intros k blk' [Hne Hl]%lookup_delete_Some. pose proof (Hp k blk' Hl) as Hin. subst parents.
    destruct (decide (bh_prev_hash (block_header blk) = bh_prev_hash (block_header blk'))) as [Heq|Hneq].
    + rewrite Heq, lookup_insert_eq. cbn. set_solver.
    + by rewrite lookup_insert_ne.
  - intros k d [Hne Hl]%lookup_delete_Some. destruct (Hd k d Hl). split; [done|]. by apply is_Some_delete.
  - intros k k' Hl. apply Htl in Hl as [Hl Hne]. destruct (Ht k k' Hl). split; [done|]. by apply is_Some_delete.
Qed.

End Pool.

(** * Blocks are read back as they were stored

    [fetch_block] of [ChainDatabase] on the last block of a chain. *)

(** ** Sorting *)

Lemma StronglySorted_lookup {A} (R : A -> A -> Prop) (l : list A) : (forall i j x y, (i < j)%nat -> l !! i = Some x -> l !! j = Some y -> R x y) -> StronglySorted R l.
Proof.
  induction l as [|x l IH]; intros H; constructor.
  - apply IH. intros i j a b Hij Hi Hj. by apply (H (S i) (S j)); [lia| |].
  - apply Forall_lookup. intros j y Hj. by apply (H 0%nat (S j)); [lia| |].
Qed.

#[local] Instance position_total {A} (pos : A -> Z) : Total (position_le pos).
Proof. intros x y. unfold position_le. lia. Qed.

#[local] Instance position_trans {A} (pos : A -> Z) : Transitive (position_le pos).
Proof. intros x y z. unfold position_le. lia. Qed.

Lemma merge_sort_eq {A} (pos : A -> Z) `{!forall x y, Decision (position_le pos x y)} l l' : l ≡ₚ l' ->
  (forall i j x y, (i < j)%nat -> l' !! i = Some x -> l' !! j = Some y -> pos x < pos y) -> merge_sort (position_le pos) l = l'.
Proof.
  intros Hp Hs. apply (StronglySorted_unique_strong (position_le pos)).
  - intros x y (i & Hi)%list_elem_of_lookup (j & Hj)%list_elem_of_lookup Hxy Hyx. assert (x ∈ l') as (k & Hk)%list_elem_of_lookup.
    { rewrite <- Hp, <- merge_sort_Permutation. apply list_elem_of_lookup. by eexists. }
    unfold position_le in *. destruct (Nat.lt_trichotomy k j) as [Hlt|[->|Hlt]]; [pose proof (Hs _ _ _ _ Hlt Hk Hj); lia|congruence|pose proof (Hs _ _ _ _ Hlt Hj Hk); lia].
  - apply StronglySorted_merge_sort; apply _.
  - apply StronglySorted_lookup. intros i j x y Hij Hi Hj. pose proof (Hs _ _ _ _ Hij Hi Hj). unfold position_le. lia.
  - by rewrite merge_sort_Permutation.
Qed.

Section SortBy.
Context {A K : Type} (cmp : K -> K -> comparison) (key : A -> K).
Hypothesis cmp_refl : forall k, cmp k k = Eq.
Hypothesis cmp_trans : forall a b c, cmp a b = Gt -> cmp b c = Gt -> cmp a c = Gt.

Lemma sort_by_ascending l : is_all_unique_and_sorted (fun a b => Ok (cmp (key a) (key b))) l = Ok true -> sort_by cmp (map (fun x => (key x, x)) l) = l.
Proof.
  intros H. unfold sort_by. assert (foldr (insert_by cmp) [] (map (fun x => (key x, x)) l) = map (fun x => (key x, x)) l) as ->; [|by rewrite map_map, map_id].
  induction l as [|x [|y l] IH]; [done|done|]. cbn in H. destruct (cmp (key y) (key x)) eqn:Hc; [done|done|]. cbn [map foldr]. cbn [map foldr] in IH. rewrite IH by done. cbn.
  destruct (cmp (key x) (key y)) eqn:Hc'; [done|done|]. pose proof (cmp_trans _ _ _ Hc Hc') as Hr. by rewrite cmp_refl in Hr.
Qed.

Hypothesis cmp_eq : forall a b, cmp a b = Eq -> a = b.
Hypothesis cmp_opp : forall a b, cmp b a = CompOpp (cmp a b).

Lemma insert_by_comm (x y : K * A) l : x.1 <> y.1 -> insert_by cmp x (insert_by cmp y l) = insert_by cmp y (insert_by cmp x l).
Proof.
  intros Hne. assert (cmp x.1 y.1 <> Eq) as Hxy by (intros H%cmp_eq; done). induction l as [|z l IH]; cbn.
  - rewrite (cmp_opp x.1 y.1). destruct (cmp x.1 y.1); done.
  - destruct (cmp y.1 z.1) eqn:Hyz, (cmp x.1 z.1) eqn:Hxz; cbn; rewrite ?Hyz, ?Hxz, ?(cmp_opp x.1 y.1); destruct (cmp x.1 y.1) eqn:E; cbn; try done; rewrite ?IH; try done; exfalso.
    all: assert (cmp y.1 x.1 = CompOpp (cmp x.1 y.1)) as Ho by apply cmp_opp; rewrite E in Ho.
    all: first [pose proof (cmp_trans _ _ _ E Hyz) | pose proof (cmp_trans _ _ _ Ho Hxz)]; congruence.
Qed.

Lemma sort_by_perm l l' : NoDup (map key l) -> l' ≡ₚ l -> sort_by cmp (map (fun x => (key x, x)) l') = sort_by cmp (map (fun x => (key x, x)) l).
Proof.
  intros Hnd Hp. unfold sort_by. f_equal. symmetry in Hp. induction Hp as [|x l l' Hp IH|x y l|l1 l2 l3 Hp1 IH1 Hp2 IH2]; cbn [map foldr].
  - done.
  - cbn [map] in Hnd. apply NoDup_cons in Hnd as [_ Hnd]. by rewrite IH.
  - apply insert_by_comm. cbn. cbn [map] in Hnd. apply NoDup_cons in Hnd as [Hn _]. intros Heq. apply Hn. rewrite Heq. left.
  - rewrite IH2, IH1; [done|done|]. by rewrite <- (Permutation_map key Hp1).
Qed.

End SortBy.

Section Reading.
Context {C : ScriptCrypto} {CL : ScriptCryptoLaws C} {B : BorshPrims C} {X : TxCrypto C} {L : TxLaws X}.
Implicit Types (c : list (BlockHeader * TxBody)) (hd : BlockHeader) (b : TxBody).

(** ** Rows of the last block in order *)

Lemma output_rows_in_order c hd b : chain_ok ((hd, b) :: c) ->
  output_rows_of (bh_hash hd) (table_of output_entry (rows ((hd, b) :: c))) = new_rows hd (length (rows c)) (outputs b).
Proof.
  intros Hok. destruct (output_rows_of_block c hd b Hok) as [Hp _]. unfold output_rows_of in *. rewrite merge_sort_Permutation in Hp. apply merge_sort_eq; [done|].
  intros i j x y Hij Hi Hj. unfold new_rows in Hi, Hj. rewrite list_lookup_imap, fmap_Some in Hi, Hj. destruct Hi as (? & _ & ->), Hj as (? & _ & ->). cbn. lia.
Qed.

Lemma kernel_rows_in_order c hd b : chain_ok ((hd, b) :: c) ->
  kernel_rows_of (bh_hash hd) (table_of kernel_entry (kernel_rows ((hd, b) :: c))) = new_kernel_rows hd (length (kernel_rows c)) (kernels b).
Proof.
  intros Hok. destruct (kernel_rows_of_block c hd b Hok) as [Hp _]. unfold kernel_rows_of in *. rewrite merge_sort_Permutation in Hp. apply merge_sort_eq; [done|].
  intros i j x y Hij Hi Hj. unfold new_kernel_rows in Hi, Hj. rewrite list_lookup_imap, fmap_Some in Hi, Hj. destruct Hi as (? & _ & ->), Hj as (? & _ & ->). cbn [kr_mmr_position kernel_row].
  pose proof (mmr_size_strict (Z.of_nat (S (length (kernel_rows c) + i))) (Z.of_nat (S (length (kernel_rows c) + j)))). lia.
Qed.

(** ** Inputs *)

Lemma populate_stored (t : Database) c hd b i : chain_ok ((hd, b) :: c) -> represents (lmdb t) ((hd, b) :: c) -> i ∈ inputs b ->
  populate_input false t (compact_input i) = Ok i.
Proof.
  intros Hok Hrep Hi. destruct (spends_output c hd b i Hok Hi) as (o & r & Hd & He & Hr & Hro & Hh & _). destruct (spent_data i o Hd He) as (_ & _ & Hih & _).
  unfold populate_input. change (input_output_hash (compact_input i)) with (@Ok ChainStorageError _ (input_hash_of i)). cbn [mbind result_bind].
  rewrite Hih, <- Hh, (fetch_stored_output ((hd, b) :: c) _ r o Hok Hr Hro); [|by rewrite (rep_txos _ _ Hrep)|by rewrite (rep_txos _ _ Hrep)].
  unfold ok_or. cbn [mbind result_bind]. f_equal. unfold add_output_data, compact_input. cbn. destruct i as [v so d sg]. cbn in *. f_equal. by rewrite Hd.
Qed.

(** ** Bodies *)

Lemma sorted_ext {A} (f g : A -> A -> result ValidationError comparison) l : (forall x y, x ∈ l -> y ∈ l -> f x y = g x y) ->
  is_all_unique_and_sorted f l = is_all_unique_and_sorted g l.
Proof.
  destruct l as [|x l]; [done|]. cbn. intros H. assert (forall y, y ∈ l -> f y x = g y x) as Hx by (intros; apply H; [by right|left]).
  assert (forall y z, y ∈ l -> z ∈ l -> f y z = g y z) as Hl by (intros; apply H; by right). clear H. revert x Hx. induction l as [|y l IH]; intros x Hx; [done|]. cbn.
  rewrite Hx by left. destruct (g y x) as [[]| |]; cbn; try done. apply IH; intros; apply Hl; (by right) || (by left).
Qed.

Lemma Permutation_short {A} (l l' : list A) : l ≡ₚ l' -> (length l <= 1)%nat -> l = l'.
Proof.
  intros Hp Hl. destruct l as [|x [|y l]]; [by apply Permutation_nil in Hp|by apply Permutation_length_1_inv in Hp|cbn in Hl; lia].
Qed.

Lemma zip_keys {A K} (f : A -> K) l : zip (map f l) l = map (fun x => (f x, x)) l.
Proof. induction l as [|x l IH]; [done|]. cbn. by rewrite IH. Qed.

Lemma body_sort_stored {E} b ins : check_sorting_and_duplicates b = Ok tt -> sorted b = true ->
  (forall i, i ∈ inputs b -> forall E, @input_output_hash _ _ _ E i = Ok (input_hash_of i)) -> ins ≡ₚ inputs b ->
  @body_sort _ _ _ E (body_new ins (outputs b) (kernels b)) = Ok b.
Proof.
  intros Hs Hsorted Hh Hp. destruct (check_sorting_Ok b Hs) as (Hi & Ho & Hk).
  assert (NoDup (map input_hash_of (inputs b))) as Hnd by (eapply sorted_inputs_NoDup; [exact Hs|]; apply Forall2_map_Ok; intros i Hin; by apply Hh).
  unfold body_sort. cbn [sorted body_new inputs outputs kernels].
  rewrite (sort_by_ascending com_compare out_commitment com_compare_refl com_compare_trans) by exact Ho.
  rewrite (sort_by_ascending sig_compare k_excess_sig sig_compare_refl sig_compare_trans) by exact Hk.
  destruct (length ins <=? 1)%nat eqn:Hlen.
  - cbn. assert (ins = inputs b) as ->; [|by destruct b; cbn in *; rewrite Hsorted]. apply Permutation_short; [done|]. by apply Nat.leb_le.
  - rewrite (mapM_map_Ok _ input_hash_of) by (intros i Hin; rewrite Hp in Hin; by apply Hh). cbn [mbind result_bind].
    rewrite zip_keys, (sort_by_perm bytes_compare input_hash_of bytes_gt_trans) with (l := inputs b);
      [|intros x y; by apply bytes_compare_eq|apply bytes_compare_antisym|done|done].
    rewrite (sort_by_ascending bytes_compare input_hash_of); [by destruct b; cbn in *; rewrite Hsorted|intros k; by apply bytes_compare_eq|apply bytes_gt_trans|].
    rewrite <- Hi. apply sorted_ext. intros x y Hx Hy. unfold compare_inputs. by rewrite !Hh.
Qed.

(** ** Parts of a block *)

Section Parts.
Context (db : Database) (hd : BlockHeader) (b : TxBody) (c : list (BlockHeader * TxBody)).
Hypothesis Hok : chain_ok ((hd, b) :: c).
Hypothesis Hrep : represents (lmdb db) ((hd, b) :: c).

Lemma stored_kernels : fetch_kernels_in_block (bh_hash hd) db = kernels b.
Proof.
  unfold fetch_kernels_in_block. rewrite (rep_kernels _ _ Hrep). cbn [kernels_db kernel_tables_of]. rewrite kernel_rows_in_order by done.
  rewrite (map_new_kernel_rows kr_kernel id) by done. apply map_id.
Qed.

Lemma stored_outputs : fetch_outputs_in_block (bh_hash hd) db = map NotPruned (outputs b).
Proof.
  unfold fetch_outputs_in_block. rewrite (rep_txos _ _ Hrep). cbn [utxos_db txo_tables_of]. rewrite output_rows_in_order by done.
  by rewrite (map_new_rows row_to_pruned NotPruned).
Qed.

Lemma stored_inputs : exists ins, ins ≡ₚ inputs b /\ mapM (populate_input false db) (fetch_inputs_in_block (bh_hash hd) db) = Ok ins.
Proof.
  unfold fetch_inputs_in_block. rewrite (rep_txos _ _ Hrep). cbn [inputs_db txo_tables_of]. destruct (input_rows_of_block c hd b Hok) as [Hin _].
  apply Permutation_map_inv in Hin as (ins & -> & Hp). exists ins. split; [done|]. rewrite map_map.
  assert (forall l, (forall i, i ∈ l -> i ∈ inputs b) -> mapM (populate_input false db) (map (fun i => ir_input (input_row hd (rows ((hd, b) :: c)) i)) l) = Ok l) as Hl.
  { induction l as [|i l IH]; intros Hi; [done|]. cbn [map mapM]. change (ir_input (input_row hd (rows ((hd, b) :: c)) i)) with (compact_input i).
    rewrite (populate_stored db c hd b i Hok Hrep) by (apply Hi; left). cbn [mbind result_bind]. by rewrite IH by (intros; apply Hi; by right). }
  apply Hl. intros i Hi. by rewrite Hp.
Qed.

Lemma omap_stored {A} (f : PrunedOutput -> option A) (g : TransactionOutput -> option A) l : (forall o, f (NotPruned o) = g o) -> omap f (map NotPruned l) = omap g l.
Proof. intros Hf. induction l as [|o l IH]; [done|]. cbn. by rewrite Hf, IH. Qed.

(** The block of the parts. *)
Lemma stored_block_built total ins : check_sorting_and_duplicates b = Ok tt -> sorted b = true -> foldM mt_add (map k_fee (kernels b)) 0 = @Ok ChainStorageError _ total -> ins ≡ₚ inputs b ->
  block_build hd ins (outputs b) (kernels b) = Ok {| block_header := hd; block_body := b |}.
Proof.
  intros Hs Hsd Hf Hp. unfold block_build. rewrite Hf. cbn [mbind result_bind]. rewrite (body_sort_stored b ins Hs Hsd); [done| |done].
  intros i Hi E. destruct (spends_output c hd b i Hok Hi) as (o & r & Hd & He & _). destruct (spent_data i o Hd He) as (_ & _ & -> & Hh). apply Hh.
Qed.

End Parts.

End Reading.
