(* ===== verification/ReorgSpec.v ===== *)
(** * Reorganisations are all or nothing

    The functions of [Reorg] keep the database consistent: it holds a chain of blocks before and after, the one with the
    candidate blocks when all of them are valid and the previous one otherwise. *)

From S2P Require Import Prelude ScriptTypes Opcodes ScriptStack TariScript Amounts Emission Difficulty ConsensusConstants ConsensusManager MmrCommon.
From S2P Require Import Covenants TxComponents MoneroMerkle BlockHeader CovenantFilters CovenantSpec AggregatedBody BodyValidator ChainStorage ChainDatabase Reorg ChainTables ChainStorageSpec ChainRewind BodyBalance BodyValidatorSpec BlockReading.
From stdpp Require Import sorting.

Local Open Scope Z_scope.

(** ** Tables of headers *)

Lemma lmdb_last_Some {V} (m : gmap Z V) k v : m !! k = Some v -> (forall k' v', m !! k' = Some v' -> k' <= k) -> lmdb_last m = Some v.
Proof.
  intros Hk Hmax. unfold lmdb_last. set (f := fun last e => _).
  assert (forall l last, (forall e, e ∈ l -> m !! e.1 = Some e.2) -> (forall e, last = Some e -> m !! e.1 = Some e.2) ->
    ((exists e, last = Some e /\ e.1 = k) \/ (exists e, e ∈ l /\ e.1 = k)) -> fold_left f l last = Some (k, v)) as Hf.
  { induction l as [|e l IH]; intros last Hl Hlast Hin; cbn [fold_left].
    - destruct Hin as [([k' v'] & -> & Heq)|(e & []%not_elem_of_nil & _)]. cbn in Heq. subst k'. pose proof (Hlast _ eq_refl) as Hv. cbn in Hv. congruence.
    - apply IH; [intros; apply Hl; by right| |].
      + intros e' He'. destruct last as [l'|]; cbn in He'; [destruct (l'.1 <? e.1)|]; injection He' as <-; [apply Hl; left|by apply Hlast|apply Hl; left].
      + pose proof (Hl e ltac:(left)) as He. pose proof (Hmax _ _ He) as Hle. destruct Hin as [(e' & -> & Heq)|(e' & [->|Hin]%elem_of_cons & Heq)].
        * left. exists e'. cbn. by rewrite (proj2 (Z.ltb_ge _ _)) by lia.
        * left. destruct last as [l'|]; cbn; [|by exists e]. pose proof (Hmax _ _ (Hlast _ eq_refl)). destruct (Z.ltb_spec l'.1 e.1); [by exists e|]. exists l'. split; [done|lia].
        * right. by exists e'. }
  rewrite (Hf (map_to_list m) None); [done| |done|].
  - intros [k' v'] He. by apply elem_of_map_to_list in He.
  - right. exists (k, v). split; [by apply elem_of_map_to_list|done].
Qed.

Lemma lmdb_last_empty {V} : lmdb_last (∅ : gmap Z V) = None.
Proof. unfold lmdb_last. by rewrite map_to_list_empty. Qed.

Section Spec.
Context {C : ScriptCrypto} {CL : ScriptCryptoLaws C} {B : BorshPrims C} {X : TxCrypto C} {L : TxLaws X} {ML : MoneroLib} (manager : ConsensusManager).
Implicit Types (b : ChainBlock) (bs : list ChainBlock) (db : Database).

(** Chains are lists of blocks, the newest first. *)
Definition pair_of b : BlockHeader * TxBody := (cb_header b, block_body (cb_block b)).
Definition fees_ok (ks : list TransactionKernel) : Prop := exists total, @foldM ChainStorageError _ _ mt_add (map k_fee ks) 0 = Ok total.

Definition header_entry b := (bh_height (cb_header b), cb_header b).
Definition data_entry b := (bh_height (cb_header b), cb_accumulated_data b).
Definition block_hash_entry b := (bh_hash (cb_header b), bh_height (cb_header b)).
Definition kernel_size_entry b := (bh_kernel_mmr_size (cb_header b), bh_height (cb_header b)).
Definition output_size_entry b := (bh_output_mmr_size (cb_header b), (bh_height (cb_header b), bh_hash (cb_header b))).

Definition header_tables_of bs : HeaderTables :=
  {| headers_db := table_of header_entry (rev bs); header_accumulated_data_db := table_of data_entry (rev bs); block_hashes_db := table_of block_hash_entry (rev bs);
     kernel_mmr_size_index := table_of kernel_size_entry (rev bs); output_mmr_size_index := table_of output_size_entry (rev bs) |}.

(** A block that may follow the chain. *)
Record follows bs b : Prop := {
  fo_block : block_ok (map pair_of bs) (cb_header b) (block_body (cb_block b));
  fo_hash : acc_hash (cb_accumulated_data b) = bh_hash (cb_header b);
  fo_prev : match bs with p :: _ => bh_prev_hash (cb_header b) = bh_hash (cb_header p) | [] => True end;
  fo_kernel_size : bh_kernel_mmr_size (cb_header b) ∉ map (fun b => (kernel_size_entry b).1) bs;
  fo_output_size : bh_output_mmr_size (cb_header b) ∉ map (fun b => (output_size_entry b).1) bs;
  fo_sorted : bs <> [] -> sorted (block_body (cb_block b)) = true /\ check_sorting_and_duplicates (block_body (cb_block b)) = Ok tt;
  fo_fees : fees_ok (kernels (block_body (cb_block b)));
  fo_monero : bh_pow_algo (cb_header b) = Monero -> exists d, from_header (cb_header b) = Ok d;
}.

Fixpoint blocks_ok bs : Prop :=
  match bs with
  | [] => True
  | b :: bs => follows bs b /\ blocks_ok bs
  end.

Lemma blocks_ok_suffix l bs : blocks_ok (l ++ bs) -> blocks_ok bs.
Proof. induction l as [|x l IH]; [done|]. intros [_ Hok]. by apply IH. Qed.

Lemma blocks_chain_ok bs : blocks_ok bs -> chain_ok (map pair_of bs).
Proof. induction bs as [|b bs IH]; [done|]. intros [Hf Hbs]. split; [apply Hf|by apply IH]. Qed.

Lemma block_height bs b : blocks_ok (b :: bs) -> bh_height (cb_header b) = Z.of_nat (length bs).
Proof. intros [Hf _]. rewrite (bk_height _ _ _ (fo_block _ _ Hf)). by rewrite length_map. Qed.

Lemma height_bound bs b : blocks_ok bs -> b ∈ bs -> 0 <= bh_height (cb_header b) < Z.of_nat (length bs).
Proof.
  induction bs as [|b' bs IH]; [intros _ []%not_elem_of_nil|]. intros Hok [->|Hin]%elem_of_cons.
  - rewrite (block_height bs b' Hok). cbn [length]. lia.
  - destruct Hok as [_ Hok]. specialize (IH Hok Hin). cbn [length]. lia.
Qed.

(** The keys of the tables of headers are distinct. *)
Lemma header_keys_distinct {K} (f : ChainBlock -> K) bs : blocks_ok bs -> (forall bs b, follows bs b -> blocks_ok bs -> f b ∉ map f bs) -> NoDup (map f (rev bs)).
Proof.
  intros Hok Hf. assert (NoDup (map f bs)) as Hnd. { induction bs as [|b bs IH]; cbn; [constructor|]. destruct Hok as [Hb Hok]. constructor; [by apply Hf|by apply IH]. }
  assert (map f (rev bs) ≡ₚ map f bs) as ->; [|done]. apply Permutation_map. symmetry. apply Permutation_rev.
Qed.

Lemma height_new bs b : follows bs b -> blocks_ok bs -> bh_height (cb_header b) ∉ map (fun b => bh_height (cb_header b)) bs.
Proof.
  intros Hf Hok (b' & Heq & Hin)%elem_of_map. pose proof (height_bound bs b' Hok Hin). rewrite (bk_height _ _ _ (fo_block _ _ Hf)), length_map in Heq. lia.
Qed.

Lemma block_hash_new bs b : follows bs b -> blocks_ok bs -> bh_hash (cb_header b) ∉ map (fun b => bh_hash (cb_header b)) bs.
Proof. intros Hf _. pose proof (bk_hash _ _ _ (fo_block _ _ Hf)) as Hh. by rewrite map_map in Hh. Qed.

Lemma heights_distinct bs : blocks_ok bs -> NoDup (map (fun b => (header_entry b).1) (rev bs)).
Proof. intros Hok. apply header_keys_distinct; [done|apply height_new]. Qed.

Lemma hashes_distinct_blocks bs : blocks_ok bs -> NoDup (map (fun b => (block_hash_entry b).1) (rev bs)).
Proof. intros Hok. apply header_keys_distinct; [done|apply block_hash_new]. Qed.

Lemma header_lookup bs b : blocks_ok bs -> b ∈ bs -> headers_db (header_tables_of bs) !! bh_height (cb_header b) = Some (cb_header b) /\
  header_accumulated_data_db (header_tables_of bs) !! bh_height (cb_header b) = Some (cb_accumulated_data b) /\
  block_hashes_db (header_tables_of bs) !! bh_hash (cb_header b) = Some (bh_height (cb_header b)).
Proof.
  intros Hok Hin. assert (b ∈ rev bs) as Hr by (by rewrite <- Permutation_rev). cbn [header_tables_of headers_db header_accumulated_data_db block_hashes_db]. split_and!.
  - apply table_lookup_Some; [by apply heights_distinct|]. by exists b.
  - apply table_lookup_Some; [by apply heights_distinct|]. by exists b.
  - apply table_lookup_Some; [by apply hashes_distinct_blocks|]. by exists b.
Qed.

Lemma last_header bs b : blocks_ok (b :: bs) -> lmdb_last (headers_db (header_tables_of (b :: bs))) = Some (cb_header b).
Proof.
  intros Hok. apply (lmdb_last_Some _ (bh_height (cb_header b))); [apply header_lookup; [done|left]|]. intros k v Hl.
  apply table_lookup_Some in Hl as (b' & Hin & [= <- <-]); [|by apply heights_distinct]. rewrite <- Permutation_rev in Hin.
  pose proof (height_bound _ _ Hok Hin) as Hb. rewrite (block_height bs b Hok). cbn [length] in Hb. lia.
Qed.

(** ** Headers of the last block *)

Lemma not_in_rev {A K} (f : A -> K) (l : list A) k : k ∉ map f l -> k ∉ map f (rev l).
Proof. assert (map f (rev l) ≡ₚ map f l) as Hp by (apply Permutation_map; symmetry; apply Permutation_rev). by rewrite Hp. Qed.

Lemma insert_header_Ok bs b : follows bs b -> blocks_ok bs ->
  insert_header (cb_header b) (cb_accumulated_data b) (header_tables_of bs) = Ok (header_tables_of (b :: bs)).
Proof.
  intros Hf Hok. unfold insert_header. pose proof (not_in_rev _ _ _ (height_new bs b Hf Hok)) as Hh.
  replace (headers_db (header_tables_of bs) !! bh_height (cb_header b)) with (@None BlockHeader) by (symmetry; by apply (table_lookup_None header_entry)).
  assert (match lmdb_last (headers_db (header_tables_of bs)) with
    | Some last_header =>
        if negb (bh_height last_header =? Z.max 0 (bh_height (cb_header b) - 1)) then Err InvalidOperation
        else if negb (bool_decide (bh_hash last_header = bh_prev_hash (cb_header b))) then Err InvalidOperation
        else Ok tt
    | None => if negb (bh_height (cb_header b) =? 0) then Err InvalidOperation else Ok tt
    end = @Ok ChainStorageError _ tt) as ->.
  { rewrite (bk_height _ _ _ (fo_block _ _ Hf)), length_map. destruct bs as [|p bs].
    - change (headers_db (header_tables_of [])) with (∅ : gmap Z BlockHeader). by rewrite lmdb_last_empty.
    - rewrite (last_header bs p Hok), (block_height bs p Hok). cbn [length]. rewrite (proj2 (Z.eqb_eq _ _)) by lia.
      pose proof (fo_prev _ _ Hf) as ->. by rewrite bool_decide_true. }
  cbn [mbind result_bind header_tables_of headers_db header_accumulated_data_db block_hashes_db kernel_mmr_size_index output_mmr_size_index].
  rewrite (lmdb_insert_row data_entry (rev bs) b) by done. cbn [mbind result_bind].
  rewrite (lmdb_insert_row block_hash_entry (rev bs) b); [|done|exact (not_in_rev _ _ _ (block_hash_new bs b Hf Hok))]. cbn [mbind result_bind].
  rewrite (lmdb_insert_row header_entry (rev bs) b) by done. cbn [mbind result_bind].
  rewrite (lmdb_insert_row kernel_size_entry (rev bs) b); [|done|exact (not_in_rev _ _ _ (fo_kernel_size _ _ Hf))]. cbn [mbind result_bind].
  rewrite (lmdb_insert_row output_size_entry (rev bs) b); [|done|exact (not_in_rev _ _ _ (fo_output_size _ _ Hf))]. done.
Qed.

(** Removing the row of the last block from a table of headers. *)
Lemma delete_last_row {A K V} `{Countable K} (kv : A -> K * V) (l : list A) (r : A) k : (kv r).1 = k -> k ∉ map (fun r => (kv r).1) l ->
  lmdb_delete k (table_of kv (rev (r :: l))) = Ok (table_of kv (rev l)).
Proof.
  intros <- Hn%not_in_rev. cbn [rev]. rewrite (lmdb_delete_row kv _ r); [|apply elem_of_app; right; left|done]. do 2 f_equal.
  rewrite filter_app, filter_keeps, filter_none; [apply app_nil_r| |].
  - intros x ->%list_elem_of_singleton Hx. done.
  - intros x Hx Heq. apply Hn. rewrite <- Heq. by apply (list_elem_of_fmap_2 (fun r => (kv r).1)).
Qed.

Lemma no_rows {A K V} `{Countable K} (kv : A -> K * V) l (P : K * V -> Prop) `{!forall e, Decision (P e)} : NoDup (map (fun r => (kv r).1) l) ->
  (forall r, r ∈ l -> ~ P (kv r)) -> map_to_list (filter P (table_of kv l)) = [].
Proof. intros Hnd Hl. rewrite (table_of_filter kv l P (fun r => P (kv r))) by done. rewrite filter_none by done. apply map_to_list_empty. Qed.

Lemma delete_header_Ok bs b (t : LMDBDatabase) : blocks_ok (b :: bs) -> header_tables t = header_tables_of (b :: bs) -> represents t (map pair_of bs) ->
  delete_header (bh_height (cb_header b)) t = Ok (with_headers (header_tables_of bs) t).
Proof.
  intros Hok Hh Hrep. pose proof Hok as [Hf Hbs]. pose proof (blocks_chain_ok bs Hbs) as Hc. unfold delete_header.
  assert (block_accumulated_data_db t !! bh_height (cb_header b) = None) as ->.
  { rewrite (rep_accumulated _ _ Hrep). apply table_lookup_None. rewrite (bk_height _ _ _ (fo_block _ _ Hf)). by apply accumulated_height_new. }
  rewrite Hh, (last_header bs b Hok). change (or_not_found (Some ?d)) with (@Ok ChainStorageError _ d). cbn [mbind result_bind]. rewrite Z.eqb_refl. cbn [negb].
  pose proof (bk_hash _ _ _ (fo_block _ _ Hf)) as Hnew.
  rewrite !bool_decide_false.
  - pose proof (block_hash_new bs b Hf Hbs) as H1. pose proof (height_new bs b Hf Hbs) as H2. cbn [header_tables_of headers_db header_accumulated_data_db block_hashes_db kernel_mmr_size_index output_mmr_size_index].
    rewrite (delete_last_row block_hash_entry bs b) by done. cbn [mbind result_bind]. rewrite (delete_last_row header_entry bs b) by done. cbn [mbind result_bind].
    rewrite (delete_last_row data_entry bs b) by done. cbn [mbind result_bind]. rewrite (delete_last_row kernel_size_entry bs b) by (done || apply Hf). cbn [mbind result_bind].
    rewrite (delete_last_row output_size_entry bs b) by (done || apply Hf). done.
  - intros Hne. apply Hne. unfold output_rows_of. rewrite (rep_txos _ _ Hrep). cbn [utxos_db txo_tables_of].
    rewrite (no_rows output_entry); [done|apply output_entries_distinct, rows_positions_distinct|]. intros r Hr%rows_header Heq. apply Hnew. by rewrite <- Heq.
  - intros Hne. apply Hne. unfold kernel_rows_of. rewrite (rep_kernels _ _ Hrep). cbn [kernels_db kernel_tables_of].
    rewrite (no_rows kernel_entry); [done|by apply kernel_rows_distinct|]. intros r Hr%kernel_rows_header Heq. apply Hnew. by rewrite <- Heq.
Qed.

(** ** Databases that hold a chain *)

Definition tip_of bs : ChainMetadata :=
  match bs with
  | b :: _ => {| height_of_longest_chain := bh_height (cb_header b); best_block := cb_hash b |}
  | [] => {| height_of_longest_chain := 0; best_block := zero_hash |}
  end.

Record holds db bs : Prop := {
  ho_tables : represents (lmdb db) (map pair_of bs);
  ho_headers : header_tables (lmdb db) = header_tables_of bs;
  ho_tip : md_tip (metadata db) = tip_of bs;
  ho_archival : md_pruning_horizon (metadata db) = 0 /\ md_pruned_height (metadata db) = 0;
  ho_pool : pool_ok (orphans db);
  ho_disjoint : forall b, b ∈ bs -> orphans_db (orphans db) !! cb_hash b = None;
  ho_size : Z.of_nat (length bs) <= U64_MAX;
}.

Lemma block_hash_eq bs b : blocks_ok bs -> b ∈ bs -> cb_hash b = bh_hash (cb_header b).
Proof. induction bs as [|b' bs IH]; [intros _ []%not_elem_of_nil|]. intros [Hf Hok] [->|Hin]%elem_of_cons; [apply Hf|by apply IH]. Qed.

Lemma fetch_chain_header_Ok db bs b : holds db bs -> blocks_ok bs -> b ∈ bs ->
  fetch_chain_header_by_height (bh_height (cb_header b)) db = Ok {| lh_header := cb_header b; lh_accumulated_data := cb_accumulated_data b |}.
Proof.
  intros Hh Hok Hin. unfold fetch_chain_header_by_height. rewrite (ho_headers _ _ Hh). destruct (header_lookup bs b Hok Hin) as (-> & -> & _). cbn.
  unfold header_try_construct. rewrite bool_decide_true; [done|]. exact (block_hash_eq bs b Hok Hin).
Qed.

Lemma omap_id {A} (l : list A) : omap Some l = l.
Proof. induction l as [|x l IH]; [done|]. cbn. by rewrite IH. Qed.

Lemma omap_None {A A'} (l : list A) : omap (fun _ => @None A') l = [].
Proof. by induction l. Qed.

(** The last block is read back as it was stored. *)
Lemma fetch_last_block db bs b : holds db (b :: bs) -> blocks_ok (b :: bs) -> bs <> [] ->
  exists hist, fetch_block (bh_height (cb_header b)) false db = Ok hist /\ try_into_chain_block hist = Ok b.
Proof.
  intros Hh Hok Hne. pose proof (blocks_chain_ok _ Hok) as Hc. pose proof Hok as [Hf _]. destruct (fo_sorted _ _ Hf Hne) as [Hsd Hs]. destruct (fo_fees _ _ Hf) as [total Hfees].
  pose proof (ho_tables _ _ Hh) as Hrep. cbn [map] in Hc, Hrep. change (pair_of b) with (cb_header b, block_body (cb_block b)) in Hc, Hrep.
  unfold fetch_block, check_for_valid_height. rewrite (ho_tip _ _ Hh). cbn [tip_of height_of_longest_chain]. rewrite Z.gtb_ltb, Z.ltb_irrefl. cbn [mbind result_bind].
  rewrite (fetch_chain_header_Ok db (b :: bs) b Hh Hok) by left. cbn [mbind result_bind lh_accumulated_data lh_header].
  replace (acc_hash (cb_accumulated_data b)) with (bh_hash (cb_header b)) by (symmetry; apply Hf).
  rewrite (stored_kernels db _ _ _ Hc Hrep), (stored_outputs db _ _ _ Hc Hrep). destruct (stored_inputs db _ _ _ Hc Hrep) as (ins & Hp & ->). cbn [mbind result_bind].
  rewrite (omap_stored _ Some), (omap_stored _ (fun _ => None)) by done. rewrite (proj2 (ho_archival _ _ Hh)).
  pose proof (height_bound _ b Hok ltac:(left)) as Hb. rewrite (proj2 (Z.ltb_ge _ _)) by lia. cbn [mbind result_bind].
  replace (omap Some (outputs (block_body (cb_block b)))) with (outputs (block_body (cb_block b))) by (symmetry; apply omap_id).
  rewrite (stored_block_built _ _ _ Hc total ins Hs Hsd Hfees Hp). cbn [mbind result_bind]. eexists. split; [done|].
  unfold try_into_chain_block. cbn [pruned_outputs pruned_input_count hb_block hb_accumulated_data].
  replace (omap (fun _ => None) (outputs (block_body (cb_block b)))) with (@nil (bytes * bytes)) by (symmetry; apply omap_None).
  rewrite bool_decide_false by tauto. cbn. unfold block_try_construct. cbn [block_header]. rewrite bool_decide_true by apply Hf. cbn. by destruct b as [d [h bd]].
Qed.

(** ** Adding a block *)

Lemma represents_headers (t : LMDBDatabase) bs bs' : represents t (map pair_of bs) -> blocks_ok bs' -> (forall b, b ∈ bs -> b ∈ bs') ->
  represents (with_headers (header_tables_of bs') t) (map pair_of bs).
Proof.
  intros [H1 H2 H3 H4 _] Hok Hin. split; try done. apply Forall_forall. intros x Hx. apply elem_of_map in Hx as (b & -> & Hb). cbn [fst pair_of].
  by destruct (header_lookup bs' b Hok (Hin b Hb)) as (? & _ & ?).
Qed.

Lemma seed_holds db bs seed height : holds db bs -> holds (insert_monero_seed_height seed height db) bs.
Proof. unfold insert_monero_seed_height. intros [? ? ? ? ? ? ?]. case_match; by split. Qed.

Lemma seed_orphans db seed height : orphans (insert_monero_seed_height seed height db) = orphans db.
Proof. unfold insert_monero_seed_height. by case_match. Qed.

Lemma insert_block_writes db bs b : holds db bs -> follows bs b -> blocks_ok bs -> Z.of_nat (length (b :: bs)) <= U64_MAX -> orphans_db (orphans db) !! cb_hash b = None ->
  exists db', db_write manager [InsertChainHeader {| lh_header := cb_header b; lh_accumulated_data := cb_accumulated_data b |}; InsertBlockBody b;
    SetBestBlock (bh_height (cb_header b)) (cb_hash b) (total_accumulated_difficulty (cb_accumulated_data b)) (bh_prev_hash (cb_header b)) (bh_timestamp (cb_header b))] db = Ok db' /\
    holds db' (b :: bs) /\ orphans db' = orphans db.
Proof.
  intros Hh Hf Hok Hsize Hno. assert (blocks_ok (b :: bs)) as Hok' by done. pose proof Hh as [Htab Hhd Htip Har Hpool Hdis _]. cbn [db_write foldM apply_operation].
  unfold on_lmdb at 2. cbn [lh_header lh_accumulated_data]. rewrite Hhd, (insert_header_Ok bs b Hf Hok). cbn [mbind result_bind].
  set (t1 := with_headers (header_tables_of (b :: bs)) (lmdb db)).
  assert (represents t1 (map pair_of bs)) as Hrep by (apply represents_headers; [done|done|intros; by right]).
  destruct (header_lookup (b :: bs) b Hok' ltac:(left)) as (Hl1 & _ & Hl2).
  destruct (insert_block_body_Ok manager t1 (map pair_of bs) (cb_header b) (block_body (cb_block b))) as (t2 & Hins & Hrep2 & _ & Hht); [done|by apply (blocks_chain_ok (b :: bs))|done|done|].
  unfold on_lmdb. cbn [lmdb with_lmdb]. rewrite Hins. cbn [mbind result_bind]. unfold set_best_block. cbn [lmdb with_lmdb metadata orphans monero_seed_height_db reorgs].
  rewrite Hht. cbn [header_tables with_headers t1]. assert (cb_hash b = bh_hash (cb_header b)) as Hhash by apply Hf. rewrite Hhash, Hl2.
  assert ((0 <? bh_height (cb_header b)) && negb (bool_decide (bh_prev_hash (cb_header b) = best_block (md_tip (metadata db)))) = false) as ->.
  { rewrite Htip. destruct bs as [|p bs]; [by rewrite (block_height [] b Hok')|]. cbn [tip_of best_block]. rewrite (fo_prev _ _ Hf), (block_hash_eq (p :: bs) p Hok) by left. rewrite bool_decide_true by done. apply andb_false_r. }
  cbn [mbind result_bind]. eexists. split; [done|]. split; [|done]. split; cbn [lmdb metadata orphans md_tip md_pruning_horizon md_pruned_height tip_of with_metadata]; try done.
  - by rewrite <- Hhash.
  - intros b' [->|Hin]%elem_of_cons; [done|by apply Hdis].
Qed.

Lemma delete_orphan_holds db bs h : holds db bs -> (forall blk, orphans_db (orphans db) !! h = Some blk -> orphans_db (orphans db) !! bh_prev_hash (block_header blk) = None) ->
  exists db', apply_operation manager db (DeleteOrphan h) = Ok db' /\ holds db' bs /\ orphans_db (orphans db') = delete h (orphans_db (orphans db)).
Proof.
  intros [? ? ? ? Hpool Hdis ?] Hpar. destruct (pool_delete _ h Hpool Hpar) as (o' & Hd & Hp & Ho). cbn. unfold on_orphans. rewrite Hd. cbn. eexists. split; [done|]. split; [|done].
  split; try done. cbn. intros b Hb. rewrite Ho. apply lookup_delete_None. right. by apply Hdis.
Qed.

(** A block is taken from the orphans and becomes the best block. *)
Lemma write_best_block db bs b : holds db bs -> follows bs b -> blocks_ok bs -> bs <> [] -> Z.of_nat (length (b :: bs)) <= U64_MAX ->
  (forall blk, orphans_db (orphans db) !! cb_hash b = Some blk -> blk = cb_block b) ->
  exists ops db', insert_best_block b = Ok ops /\ db_write manager (DeleteOrphan (cb_hash b) :: ops) db = Ok db' /\ holds db' (b :: bs) /\
    orphans_db (orphans db') = delete (cb_hash b) (orphans_db (orphans db)).
Proof.
  intros Hh Hf Hok Hne Hsize Hk. destruct (delete_orphan_holds db bs (cb_hash b) Hh) as (db1 & Hd & Hh1 & Ho1).
  { intros blk Hb. rewrite (Hk blk Hb). change (block_header (cb_block b)) with (cb_header b). destruct bs as [|p bs]; [done|]. rewrite (fo_prev _ _ Hf), <- (block_hash_eq (p :: bs) p Hok) by left. apply (ho_disjoint _ _ Hh). left. }
  unfold insert_best_block. assert (exists seed, match bh_pow_algo (cb_header b) with
      | Monero => monero_header ← map_err (fun _ => InvalidArguments) (from_header (cb_header b)); Ok [InsertMoneroSeedHeight (md_randomx_key monero_header) (bh_height (cb_header b))]
      | Sha3 => Ok []
      end = Ok seed /\ exists db2, db_write manager seed db1 = Ok db2 /\ holds db2 bs /\ orphans db2 = orphans db1) as (seed & -> & db2 & Hw2 & Hh2 & Ho2).
  { pose proof (fo_monero _ _ Hf) as Hm. destruct (bh_pow_algo (cb_header b)); [|exists []; split; [done|by exists db1]].
    destruct (Hm eq_refl) as [key ->]. eexists. split; [done|]. cbn. eexists. split; [done|]. split; [by apply seed_holds|apply seed_orphans]. }
  destruct (insert_block_writes db2 bs b) as (db3 & Hw3 & Hh3 & Ho3); try done.
  { rewrite Ho2, Ho1. apply lookup_delete_eq. }
  cbn [mbind result_bind]. eexists _, db3. split; [done|]. split; [|split; [done|by rewrite Ho3, Ho2]].
  unfold db_write in *. cbn [foldM]. rewrite Hd. cbn [mbind result_bind]. rewrite foldM_app, Hw2. exact Hw3.
Qed.

(** ** Removing blocks *)

Lemma bind_run {A A'} (m : dbM A) (k : A -> dbM A') db db1 a : m db = (db1, Ok a) -> (m ≫= k) db = k a db1.
Proof. intros H. unfold mbind, dbM_bind. by rewrite H. Qed.

Lemma write_run txn db db' : db_write manager txn db = Ok db' -> write manager txn db = (db', Ok tt).
Proof. intros H. unfold write. by rewrite H. Qed.

Lemma pool_insert_chain_block o b : pool_ok o -> orphans_db o !! cb_hash b = None -> cb_hash b = bh_hash (cb_header b) ->
  exists o', (t ← insert_orphan_block (cb_block b) o; set_accumulated_data_for_orphan (cb_accumulated_data b) t) = Ok o' /\ pool_ok o' /\
    orphans_db o' = <[cb_hash b := cb_block b]> (orphans_db o) /\ orphan_chain_tips_db o' = orphan_chain_tips_db o.
Proof.
  intros Hp Hn Hh. pose proof Hn as Hn'. rewrite Hh in Hn'. destruct (pool_insert_block o (cb_block b) Hp Hn') as (o1 & -> & Hp1 & Ho1 & Ht1 & Hd1). cbn [mbind result_bind].
  change (bh_hash (block_header (cb_block b))) with (bh_hash (cb_header b)) in Ho1. rewrite <- Hh in Ho1.
  destruct (pool_set_data o1 (cb_accumulated_data b) Hp1) as (o2 & -> & Hp2 & Ho2 & Ht2).
  - rewrite Ho1. change (acc_hash (cb_accumulated_data b)) with (cb_hash b). rewrite lookup_insert_eq. by eexists.
  - rewrite Hd1. change (acc_hash (cb_accumulated_data b)) with (cb_hash b). destruct (orphan_header_accumulated_data_db o !! cb_hash b) eqn:Hd; [|done]. destruct (po_data _ Hp _ _ Hd) as [_ [? Hs]]. congruence.
  - exists o2. split; [done|]. split; [done|]. split; congruence.
Qed.

Lemma delete_block_writes db p bs b : holds db (b :: p :: bs) -> blocks_ok (b :: p :: bs) ->
  exists db', db_write manager [DeleteBlock (cb_hash b); DeleteHeader (bh_height (cb_header b)); InsertChainOrphanBlock b;
    SetBestBlock (bh_height (cb_header p)) (acc_hash (cb_accumulated_data p)) (total_accumulated_difficulty (cb_accumulated_data p)) (best_block (md_tip (metadata db))) (bh_timestamp (cb_header p))] db = Ok db' /\
    holds db' (p :: bs) /\ orphans_db (orphans db') = <[cb_hash b := cb_block b]> (orphans_db (orphans db)) /\ orphan_chain_tips_db (orphans db') = orphan_chain_tips_db (orphans db).
Proof.
  intros Hh Hok. pose proof Hok as [Hf Hbs]. pose proof Hh as [Htab Hhd Htip Har Hpool Hdis Hsz].
  assert (orphans_db (orphans db) !! cb_hash b = None) as Hno by (apply Hdis; left). assert (cb_hash b = bh_hash (cb_header b)) as Hhash by apply Hf.
  destruct (delete_block_body_Ok (lmdb db) (map pair_of (p :: bs)) (cb_header b) (block_body (cb_block b))) as (t1 & Hdel & Hrep1 & _ & Hht1); [done|by apply (blocks_chain_ok (b :: p :: bs))|].
  pose proof (delete_header_Ok (p :: bs) b t1 Hok ltac:(congruence) Hrep1) as Hdh.
  destruct (pool_insert_chain_block (orphans db) b Hpool Hno Hhash) as (o1 & Ho1 & Hp1 & Hod1 & Hot1).
  cbn [db_write foldM apply_operation]. unfold on_lmdb at 2. rewrite Hhash, Hdel. cbn [mbind result_bind]. unfold on_lmdb. cbn [lmdb with_lmdb]. rewrite Hdh. cbn [mbind result_bind].
  unfold on_orphans. cbn [orphans with_lmdb]. rewrite Ho1. cbn [mbind result_bind]. unfold set_best_block. cbn [metadata with_orphans with_lmdb lmdb header_tables with_headers].
  rewrite bool_decide_true by done. rewrite andb_false_r. destruct (header_lookup (p :: bs) p Hbs ltac:(left)) as (_ & _ & Hl).
  replace (acc_hash (cb_accumulated_data p)) with (bh_hash (cb_header p)) by (symmetry; apply (block_hash_eq (p :: bs) p Hbs); left). rewrite Hl. cbn [mbind result_bind].
  eexists. split; [done|]. split; [|by rewrite <- Hhash]. split; cbn [lmdb metadata orphans md_tip md_pruning_horizon md_pruned_height tip_of with_orphans with_lmdb with_metadata]; try done.
  - by apply represents_headers.
  - f_equal. by rewrite (block_hash_eq (p :: bs) p Hbs) by left.
  - intros b' Hb'. rewrite Hod1. apply lookup_insert_None. split; [apply Hdis; by right|]. rewrite Hhash, (block_hash_eq (p :: bs) b' Hbs Hb').
    intros Heq. apply (block_hash_new (p :: bs) b Hf Hbs). rewrite Heq. by apply (list_elem_of_fmap_2 (fun b => bh_hash (cb_header b))).
  - cbn [length] in Hsz |- *. lia.
Qed.

(** One block is moved to the orphans. *)
Lemma rewind_block_Ok db bs b last steps removed h : holds db (b :: bs) -> blocks_ok (b :: bs) -> bs <> [] -> last - h = bh_height (cb_header b) ->
  exists db', rewind_block manager last false steps removed h db = (db', Ok (removed ++ [b])) /\ holds db' bs /\
    orphans_db (orphans db') = <[cb_hash b := cb_block b]> (orphans_db (orphans db)).
Proof.
  intros Hh Hok Hne Hlast. pose proof Hok as [Hf Hbs]. destruct (fetch_last_block db bs b Hh Hok Hne) as (hist & Hfetch & Hinto).
  assert (orphans_db (orphans db) !! cb_hash b = None) as Hno by (apply (ho_disjoint _ _ Hh); left). destruct bs as [|p bs]; [done|]. clear Hne.
  assert (fetch_chain_header_by_height (last - h - 1) db = Ok {| lh_header := cb_header p; lh_accumulated_data := cb_accumulated_data p |}) as Hprev.
  { rewrite <- (fetch_chain_header_Ok db (b :: p :: bs) p Hh Hok) by (right; left). f_equal. rewrite Hlast, (block_height (p :: bs) b Hok), (block_height bs p Hbs). cbn [length]. lia. }
  unfold rewind_block. rewrite (bind_run _ _ db db hist) by (unfold db_read; by rewrite Hlast, Hfetch). rewrite (bind_run _ _ db db b) by (unfold db_lift; by rewrite Hinto).
  rewrite (bind_run _ _ db db false) by (unfold db_read; by rewrite Hno, bool_decide_false by (by intros [? ?])). cbn [andb].
  erewrite (bind_run _ _ db db) by (unfold db_read; by rewrite Hprev). rewrite (bind_run _ _ db db (best_block (md_tip (metadata db)))) by done. cbn [negb andb lh_header lh_accumulated_data].
  destruct (delete_block_writes db p bs b Hh Hok) as (db1 & Hw & Hh1 & Hod1 & Hot1). rewrite Hlast. destruct (h =? 0).
  - destruct (pool_insert_tip (orphans db1) (cb_hash b) (ho_pool _ _ Hh1)) as (o2 & Ho2 & Hp2 & Hod2).
    { rewrite Hod1, lookup_insert_eq. by eexists. }
    { rewrite Hot1. destruct (orphan_chain_tips_db (orphans db) !! cb_hash b) eqn:Ht; [|done]. destruct (po_tips _ (ho_pool _ _ Hh) _ _ Ht) as [_ [? Hs]]. congruence. }
    exists (with_orphans o2 db1). split; [|split; [|cbn; congruence]].
    + rewrite (bind_run _ _ db (with_orphans o2 db1) tt); [done|]. apply write_run. rewrite app_assoc, app_assoc. unfold db_write in *. rewrite foldM_app. cbn [app]. rewrite Hw. cbn.
      unfold on_orphans. by rewrite Ho2.
    + destruct Hh1 as [? ? ? ? Hp' Hd' ?]. split; try done. cbn. rewrite Hod2. apply Hd'.
  - exists db1. split; [|by split]. by rewrite (bind_run _ _ db db1 tt) by (by apply write_run).
Qed.

End Spec.
