(* ===== verification/HeaderSpec.v ===== *)
(** * Validation of headers: what is proved

    The windows of target difficulties that are read from the database and those that are kept while headers are
    synchronised are the same; what an accepted header guarantees; where the timestamps that are compared come from. *)

From S2P Require Import Prelude ScriptTypes Opcodes ScriptStack TariScript Amounts Emission Difficulty ConsensusConstants ConsensusManager MmrCommon.
From S2P Require Import Covenants MoneroMerkle TxComponents BlockHeader CovenantFilters AggregatedBody BodyValidator ChainStorage ChainDatabase Reorg HeaderValidator.
From S2P Require Import BodyBalance ChainTables ChainStorageSpec ChainRewind BlockReading ReorgSpec.

Local Open Scope Z_scope.

(** ** Windows *)

Section Windows.
Context {C : ScriptCrypto}.
Implicit Types (h : LinkedHeader) (hs seen : list LinkedHeader) (w : LinearWeightedMovingAverage).

(** What the window of an algorithm keeps of a list of headers, the newest first. *)
Definition sample h : Z * Difficulty := (bh_timestamp (lh_header h), target_difficulty (lh_accumulated_data h)).

Definition samples (algo : PowAlgorithm) hs : list (Z * Difficulty) := sample <$> filter (fun h => bh_pow_algo (lh_header h) = algo) hs.

(** The window [w], empty, filled with the newest samples. *)
Definition window_of w (algo : PowAlgorithm) hs : LinearWeightedMovingAverage :=
  set_difficulties (rev (take (Z.to_nat (block_window w + 1)) (samples algo hs))) w.

Definition empty_window w : Prop := 0 < block_window w /\ target_difficulties w = [].

Lemma samples_app algo hs1 hs2 : samples algo (hs1 ++ hs2) = samples algo hs1 ++ samples algo hs2.
Proof. unfold samples. by rewrite filter_app, fmap_app. Qed.

Lemma samples_cons_hit algo h hs : bh_pow_algo (lh_header h) = algo -> samples algo (h :: hs) = sample h :: samples algo hs.
Proof. intros Ha. unfold samples. by rewrite filter_cons_True. Qed.

Lemma samples_cons_miss algo h hs : bh_pow_algo (lh_header h) <> algo -> samples algo (h :: hs) = samples algo hs.
Proof. intros Ha. unfold samples. by rewrite filter_cons_False. Qed.

Lemma window_of_nil w algo : empty_window w -> window_of w algo [] = w.
Proof. intros [_ Hd]. unfold window_of, set_difficulties. change (samples algo []) with (@nil (Z * Difficulty)). rewrite take_nil. cbn. rewrite <- Hd. by destruct w. Qed.

Lemma window_full w algo hs : empty_window w -> lwma_is_full (window_of w algo hs) = true <-> (Z.to_nat (block_window w + 1) <= length (samples algo hs))%nat.
Proof.
  intros [Hw _]. unfold lwma_is_full, num_samples, window_of. cbn [target_difficulties block_window set_difficulties].
  rewrite length_rev, length_take, Z.eqb_eq. lia.
Qed.

Lemma window_of_full w algo hs rest : empty_window w -> lwma_is_full (window_of w algo hs) = true -> window_of w algo (hs ++ rest) = window_of w algo hs.
Proof. intros He Hf. apply window_full in Hf; [|done]. unfold window_of. rewrite samples_app, take_app_le; done. Qed.

Lemma add_front_window w algo h hs : empty_window w -> lwma_is_full (window_of w algo hs) = false -> bh_pow_algo (lh_header h) = algo ->
  lwma_add_front (bh_timestamp (lh_header h)) (target_difficulty (lh_accumulated_data h)) (window_of w algo hs) = window_of w algo (hs ++ [h]).
Proof.
  intros He Hf Ha. unfold lwma_add_front. rewrite Hf.
  assert (length (samples algo hs) < Z.to_nat (block_window w + 1))%nat as Hl.
  { destruct (decide (Z.to_nat (block_window w + 1) <= length (samples algo hs))%nat) as [Hle|]; [|lia].
    apply (window_full w algo hs He) in Hle. congruence. }
  unfold window_of, set_difficulties. cbn [target_difficulties block_window target_time max_block_time]. f_equal.
  rewrite samples_app, samples_cons_hit by done. change (samples algo []) with (@nil (Z * Difficulty)).
  rewrite (take_ge (samples algo hs ++ _)) by (rewrite length_app; cbn; lia). rewrite rev_app_distr, take_ge by lia. done.
Qed.

Lemma window_of_miss w algo h hs : bh_pow_algo (lh_header h) <> algo -> window_of w algo (hs ++ [h]) = window_of w algo hs.
Proof. intros Ha. unfold window_of. by rewrite samples_app, samples_cons_miss, app_nil_r. Qed.

Lemma add_target_window w algo h hs : empty_window w -> lwma_is_full (window_of w algo hs) = false ->
  add_target algo h (window_of w algo hs) = window_of w algo (hs ++ [h]).
Proof.
  intros He Hf. unfold add_target. case_decide; [by apply add_front_window|by rewrite window_of_miss].
Qed.

Lemma add_back_window w algo h hs : empty_window w -> bh_pow_algo (lh_header h) = algo ->
  lwma_add_back (bh_timestamp (lh_header h)) (target_difficulty (lh_accumulated_data h)) (window_of w algo hs) = window_of w algo (h :: hs).
Proof.
  intros He Ha. pose proof (window_full w algo hs He) as Hfull. destruct He as [Hw _]. unfold lwma_add_back.
  destruct (lwma_is_full (window_of w algo hs)) eqn:Hf; unfold window_of, set_difficulties; cbn [target_difficulties block_window target_time max_block_time]; f_equal;
    rewrite samples_cons_hit by done; set (m := Z.to_nat (block_window w + 1)) in *; assert (exists n, m = S n) as [n Hn] by (exists (pred m); lia).
  - assert (m <= length (samples algo hs))%nat as Hle by (by apply Hfull). rewrite Hn in *. cbn [take rev].
    destruct (lookup_lt_is_Some_2 (samples algo hs) n) as [x Hx]; [lia|]. rewrite (take_S_r _ _ _ Hx), rev_app_distr. done.
  - assert (length (samples algo hs) < m)%nat as Hlt by (destruct (decide (m <= length (samples algo hs))%nat) as [Hle|]; [apply Hfull in Hle; congruence|lia]).
    rewrite take_ge by lia. rewrite (take_ge (_ :: _)) by (cbn; lia). done.
Qed.

Lemma window_of_cons_miss w algo h hs : bh_pow_algo (lh_header h) <> algo -> window_of w algo (h :: hs) = window_of w algo hs.
Proof. intros Ha. unfold window_of. by rewrite samples_cons_miss. Qed.

End Windows.

(** ** Windows from the database *)

Section Database.
Context {C : ScriptCrypto} {CL : ScriptCryptoLaws C} {B : BorshPrims C} {X : TxCrypto C} {L : TxLaws X} {ML : MoneroLib} `{U256Ops} `{EpochOps} `{EpochMean} (manager : ConsensusManager).
Implicit Types (b : ChainBlock) (bs : list ChainBlock) (db : Database) (algo : PowAlgorithm) (w : LinearWeightedMovingAverage).

Definition linked_of b : LinkedHeader := {| lh_header := cb_header b; lh_accumulated_data := cb_accumulated_data b |}.

Lemma fetch_in_all_chains_Ok db bs b : holds db bs -> blocks_ok bs -> b ∈ bs -> fetch_chain_header_in_all_chains (bh_hash (cb_header b)) db = Ok (linked_of b).
Proof.
  intros Hh Hok Hb. unfold fetch_chain_header_in_all_chains. rewrite (ho_headers _ _ Hh).
  destruct (header_lookup bs b Hok Hb) as (_ & _ & ->). by apply (fetch_chain_header_Ok db bs).
Qed.

Lemma new_target_empty algo height w : @new_target_difficulty ChainStorageError manager algo height = Ok w -> empty_window w.
Proof.
  unfold new_target_difficulty, window_new, lwma_new. intros (constants & _ & (bw & _ & Hw)%bind_Ok_iff)%bind_Ok_iff.
  destruct (Z.ltb_spec 0 bw); [|done]. apply bind_Ok_iff in Hw as (n & _ & [= <-]). done.
Qed.

Lemma header_count db bs : holds db bs -> blocks_ok bs -> (length bs <= size (headers_db (header_tables (lmdb db))))%nat.
Proof.
  intros Hh Hok. rewrite (ho_headers _ _ Hh). cbn [header_tables_of headers_db]. unfold table_of.
  rewrite map_size_list_to_map; [|change (map header_entry (rev bs)).*1 with (fst <$> (header_entry <$> rev bs)); rewrite <- list_fmap_compose; by apply heights_distinct].
  by rewrite length_map, length_rev.
Qed.

(** The parent of a block of the chain. *)
Lemma fetch_parent db pre b p post : holds db (pre ++ b :: p :: post) -> blocks_ok (pre ++ b :: p :: post) ->
  0 < linked_height (linked_of b) /\ fetch_chain_header_in_all_chains (bh_prev_hash (lh_header (linked_of b))) db = Ok (linked_of p).
Proof.
  intros Hh Hok. assert (blocks_ok (b :: p :: post)) as Hok'.
  { clear Hh. induction pre as [|x pre IH]; [done|]. destruct Hok as [_ Hok]. by apply IH. }
  split.
  - unfold linked_height. cbn [lh_header linked_of]. rewrite (block_height _ _ Hok'). cbn [length]. lia.
  - destruct Hok' as [Hf _]. cbn [lh_header linked_of]. rewrite (fo_prev _ _ Hf). apply (fetch_in_all_chains_Ok db (pre ++ b :: p :: post)); [done|done|set_solver].
Qed.

Lemma genesis_height db pre b : blocks_ok (pre ++ [b]) -> linked_height (linked_of b) = 0.
Proof.
  intros Hok. assert (blocks_ok [b]) as Hok' by (induction pre as [|x pre IH]; [done|]; destruct Hok as [_ Hok]; by apply IH).
  unfold linked_height. cbn [lh_header linked_of]. by rewrite (block_height _ _ Hok').
Qed.

Lemma target_window_spec fuel algo w db pre b post : empty_window w -> holds db (pre ++ b :: post) -> blocks_ok (pre ++ b :: post) -> (length post < fuel)%nat ->
  target_window fuel algo (linked_of b) (window_of w algo (map linked_of (pre ++ [b]))) db = Ok (window_of w algo (map linked_of (pre ++ b :: post))).
Proof.
  intros He. revert pre b fuel. induction post as [|p post IH]; intros pre b [|fuel] Hh Hok Hf; try lia; cbn [target_window].
  - by rewrite (genesis_height db pre b Hok).
  - destruct (lwma_is_full (window_of w algo (map linked_of (pre ++ [b])))) eqn:Hfull.
    + rewrite andb_false_r. change (b :: p :: post) with ([b] ++ p :: post). rewrite app_assoc, (map_app linked_of (pre ++ [b])), window_of_full; done.
    + destruct (fetch_parent db pre b p post Hh Hok) as [Hpos ->]. apply Z.ltb_lt in Hpos as ->. cbn [andb negb mbind result_bind].
      rewrite add_target_window by done. change [linked_of p] with (map linked_of [p]). rewrite <- map_app.
      change (b :: p :: post) with ([b] ++ p :: post) in *. rewrite app_assoc in *. apply IH; [done|done|cbn in Hf; lia].
Qed.

Lemma fetch_target_spec algo db b bs w : holds db (b :: bs) -> blocks_ok (b :: bs) -> Z.of_nat (length (b :: bs)) <= U64_MAX ->
  @new_target_difficulty ChainStorageError manager algo (Z.of_nat (length (b :: bs))) = Ok w ->
  fetch_target_difficulty_for_next_block manager algo (bh_hash (cb_header b)) db = Ok (window_of w algo (map linked_of (b :: bs))).
Proof.
  intros Hh Hok Hl Hw. unfold fetch_target_difficulty_for_next_block. rewrite (fetch_in_all_chains_Ok db (b :: bs)) by (done || left). cbn [mbind result_bind].
  assert (linked_height (linked_of b) + 1 = Z.of_nat (length (b :: bs))) as Hht.
  { unfold linked_height. cbn [lh_header linked_of]. rewrite (block_height _ _ Hok). cbn [length]. lia. }
  rewrite Hht, arith_ok by lia. cbn [mbind result_bind]. rewrite Hw. cbn [mbind result_bind]. pose proof (new_target_empty _ _ _ Hw) as He.
  rewrite <- (window_of_nil w algo He) at 1. rewrite add_target_window; [|done|].
  2:{ destruct (lwma_is_full (window_of w algo [])) eqn:Hf; [|done]. apply window_full in Hf; [|done]. destruct He as [Hp _]. cbn in Hf. lia. }
  apply (target_window_spec _ algo w db [] b bs He Hh Hok). unfold header_fuel. pose proof (header_count db (b :: bs) Hh Hok). cbn [length] in *. lia.
Qed.

(** ** Windows of the synchronisation *)

Record targets_rep (wm ws : LinearWeightedMovingAverage) (hs : list LinkedHeader) (targets : TargetDifficulties) : Prop := {
  tr_monero : td_monero targets = window_of wm Monero hs;
  tr_sha3 : td_sha3 targets = window_of ws Sha3 hs;
}.

Section Targets.
Context (wm ws : LinearWeightedMovingAverage) (Hm : empty_window wm) (Hs : empty_window ws).

Lemma targets_rep_full hs rest targets : targets_rep wm ws hs targets -> targets_is_full targets = true -> targets_rep wm ws (hs ++ rest) targets.
Proof.
  intros [Rm Rs] [Fs Fm]%andb_true_iff. rewrite Rm in Fm. rewrite Rs in Fs. split; [rewrite Rm|rewrite Rs]; symmetry; by apply window_of_full.
Qed.

Lemma targets_rep_front hs h targets : targets_rep wm ws hs targets ->
  targets_rep wm ws (hs ++ [h]) (if lwma_is_full (targets_get (bh_pow_algo (lh_header h)) targets) then targets else targets_add_linked h targets).
Proof.
  intros [Rm Rs]. unfold targets_add_linked, targets_add_front, targets_alter. destruct (bh_pow_algo (lh_header h)) eqn:Ha; cbn [targets_get].
  - rewrite Rm. destruct (lwma_is_full (window_of wm Monero hs)) eqn:Hf; split; cbn [td_monero td_sha3].
    + rewrite Rm. symmetry. by apply window_of_full.
    + rewrite Rs. symmetry. apply window_of_miss. congruence.
    + by apply add_front_window.
    + rewrite Rs. symmetry. apply window_of_miss. congruence.
  - rewrite Rs. destruct (lwma_is_full (window_of ws Sha3 hs)) eqn:Hf; split; cbn [td_monero td_sha3].
    + rewrite Rm. symmetry. apply window_of_miss. congruence.
    + rewrite Rs. symmetry. by apply window_of_full.
    + rewrite Rm. symmetry. apply window_of_miss. congruence.
    + by apply add_front_window.
Qed.

Lemma targets_rep_back hs h targets : targets_rep wm ws hs targets ->
  targets_rep wm ws (h :: hs) (targets_add_back (lh_header h) (target_difficulty (lh_accumulated_data h)) targets).
Proof.
  intros [Rm Rs]. unfold targets_add_back, targets_alter. destruct (bh_pow_algo (lh_header h)) eqn:Ha; split; cbn [td_monero td_sha3].
  - rewrite Rm. by apply add_back_window.
  - rewrite Rs. symmetry. apply window_of_cons_miss. congruence.
  - rewrite Rm. symmetry. apply window_of_cons_miss. congruence.
  - rewrite Rs. by apply add_back_window.
Qed.

Lemma target_windows_spec fuel targets db pre b post : holds db (pre ++ b :: post) -> blocks_ok (pre ++ b :: post) -> (length post < fuel)%nat ->
  targets_rep wm ws (map linked_of (pre ++ [b])) targets ->
  exists targets', target_windows fuel (linked_of b) targets db = Ok targets' /\ targets_rep wm ws (map linked_of (pre ++ b :: post)) targets'.
Proof.
  revert pre b fuel targets. induction post as [|p post IH]; intros pre b [|fuel] targets Hh Hok Hf Hrep; try lia; cbn [target_windows].
  - rewrite (genesis_height db pre b Hok). by exists targets.
  - assert (pre ++ b :: p :: post = (pre ++ [b]) ++ p :: post) as Happ by (by rewrite <- app_assoc).
    destruct (targets_is_full targets) eqn:Hfull.
    + rewrite andb_false_r. exists targets. split; [done|]. rewrite Happ, map_app. by apply targets_rep_full.
    + destruct (fetch_parent db pre b p post Hh Hok) as [Hpos ->]. apply Z.ltb_lt in Hpos as ->. cbn [andb negb mbind result_bind].
      pose proof (targets_rep_front _ (linked_of p) _ Hrep) as Hrep'. change [linked_of p] with (map linked_of [p]) in Hrep'. rewrite <- map_app in Hrep'.
      set (targets' := if lwma_is_full _ then targets else _) in *. destruct (targets_is_full targets') eqn:Hfull'.
      * exists targets'. split; [done|]. rewrite Happ. replace ((pre ++ [b]) ++ p :: post) with (((pre ++ [b]) ++ [p]) ++ post) by (by rewrite <- app_assoc).
        rewrite map_app. by apply targets_rep_full.
      * rewrite Happ in *. apply IH; [done|done|cbn in Hf; lia|done].
Qed.

End Targets.

Lemma fetch_targets_spec db b bs wm ws : holds db (b :: bs) -> blocks_ok (b :: bs) -> Z.of_nat (length (b :: bs)) <= U64_MAX ->
  @new_target_difficulty ChainStorageError manager Monero (Z.of_nat (length (b :: bs))) = Ok wm ->
  @new_target_difficulty ChainStorageError manager Sha3 (Z.of_nat (length (b :: bs))) = Ok ws ->
  exists targets, fetch_target_difficulties_for_next_block manager (bh_hash (cb_header b)) db = Ok targets /\
    targets_rep wm ws (map linked_of (b :: bs)) targets.
Proof.
  intros Hh Hok Hl Hwm Hws. unfold fetch_target_difficulties_for_next_block. rewrite (fetch_in_all_chains_Ok db (b :: bs)) by (done || left). cbn [mbind result_bind].
  assert (linked_height (linked_of b) + 1 = Z.of_nat (length (b :: bs))) as Hht.
  { unfold linked_height. cbn [lh_header linked_of]. rewrite (block_height _ _ Hok). cbn [length]. lia. }
  rewrite Hht, arith_ok by lia. cbn [mbind result_bind]. unfold targets_new. rewrite Hwm, Hws. cbn [mbind result_bind].
  pose proof (new_target_empty _ _ _ Hwm) as Hm. pose proof (new_target_empty _ _ _ Hws) as Hs.
  set (targets := {| td_monero := wm; td_sha3 := ws |}).
  assert (targets_rep wm ws [] targets) as Hrep by (split; symmetry; by apply window_of_nil).
  pose proof (targets_rep_front wm ws Hm Hs [] (linked_of b) targets Hrep) as Hrep'.
  assert (forall w, empty_window w -> lwma_is_full w = false) as Hnf.
  { intros w [Hp Hd]. unfold lwma_is_full, num_samples. rewrite Hd. cbn [length]. apply Z.eqb_neq. lia. }
  replace (lwma_is_full (targets_get (bh_pow_algo (lh_header (linked_of b))) targets)) with false in Hrep'
    by (symmetry; destruct (bh_pow_algo _); by apply Hnf).
  apply (target_windows_spec wm ws Hm Hs _ _ db [] b bs Hh Hok); [|done].
  unfold header_fuel. pose proof (header_count db (b :: bs) Hh Hok). cbn [length] in *. lia.
Qed.

(** One header after the other. *)
Definition sync_headers (now : Z) (headers : list BlockHeader) (db : Database) (state : SyncState) : result HeaderError SyncState :=
  foldM (fun state header => snd <$> sync_validate manager now header db state) headers state.

Lemma check_target_Ok header target at_ : check_target_difficulty header target = Ok at_ ->
  Difficulty.target at_ = target /\ target <= achieved at_ /\ pow_algo at_ = bh_pow_algo header.
Proof.
  unfold check_target_difficulty. intros (achieved & _ & Ht)%bind_Ok_iff. apply ok_or_Ok in Ht. unfold try_construct in Ht.
  destruct (Z.ltb_spec achieved target); [done|]. injection Ht as <-. done.
Qed.

Lemma next_data_Ok parent header at_ data : next_data parent header at_ = Ok data ->
  target_difficulty data = target at_ /\ acc_hash data = bh_hash header.
Proof.
  unfold next_data. destruct (accumulated_build _ _) as [d|e|] eqn:Hb; [|done|done]. intros [= <-].
  unfold accumulated_build in Hb. cbn [builder_hash with_total_kernel_offset with_achieved_target_difficulty with_hash ok_or mbind result_bind] in Hb.
  case_decide; [done|]. cbn [current_achieved_target with_total_kernel_offset with_achieved_target_difficulty ok_or mbind result_bind] in Hb.
  apply bind_Ok_iff in Hb as ([m sh] & _ & (o & _ & (t & _ & [= <-])%bind_Ok_iff)%bind_Ok_iff). done.
Qed.

Lemma header_validate_target bypass now db header prev ts target at_ : header_validate manager bypass now db header prev ts (Some target) = Ok at_ ->
  check_target_difficulty header target = Ok at_.
Proof. unfold header_validate. intros Hv. by do 8 (apply bind_Ok_iff in Hv as (? & _ & Hv)). Qed.

(** What one step of the synchronisation adds. *)
Lemma sync_validate_Ok now header db state r : sync_validate manager now header db state = Ok r ->
  exists h, lh_header h = header /\ ss_valid_headers r.2 = ss_valid_headers state ++ [h] /\
    ss_target_difficulties r.2 = targets_add_back header (target_difficulty (lh_accumulated_data h)) (ss_target_difficulties state).
Proof.
  unfold sync_validate.
  intros (constants & _ & (target & _ & (at_ & Hat & (ts & _ & (data & Hd & (h & Hh & [= <-])%bind_Ok_iff)%bind_Ok_iff)%bind_Ok_iff)%bind_Ok_iff)%bind_Ok_iff)%bind_Ok_iff.
  apply header_validate_target, check_target_Ok in Hat as (Ht & _ & _).
  destruct (next_data (ss_previous_accum state) header at_) as [d|e|] eqn:Hn; [|done|done]. injection Hd as <-. apply next_data_Ok in Hn as [Hn _].
  apply unwrap_Ok in Hh. unfold header_try_construct in Hh. case_bool_decide; [|done]. injection Hh as <-.
  exists {| lh_header := header; lh_accumulated_data := d |}. split; [done|]. cbn [ss_valid_headers ss_target_difficulties snd lh_accumulated_data]. split; [done|]. by rewrite Hn, Ht.
Qed.

Lemma sync_headers_rep wm ws chain now headers db state state' : empty_window wm -> empty_window ws ->
  targets_rep wm ws (rev (ss_valid_headers state) ++ chain) (ss_target_difficulties state) -> sync_headers now headers db state = Ok state' ->
  targets_rep wm ws (rev (ss_valid_headers state') ++ chain) (ss_target_difficulties state').
Proof.
  intros Hm Hs. unfold sync_headers. revert state. induction headers as [|header headers IH]; intros state Hrep; cbn [foldM]; [by intros [= <-]|].
  intros (s1 & Hs1 & Hrest)%bind_Ok_iff. apply (IH s1); [|done]. destruct (sync_validate manager now header db state) as [r|e|] eqn:Hr; [|done|done].
  injection Hs1 as <-. destruct (sync_validate_Ok _ _ _ _ _ Hr) as (h & <- & -> & ->). rewrite rev_app_distr. cbn [rev app]. by apply targets_rep_back.
Qed.

(** C30: header synchronisation and block validation demand the same work. The synchronisation starts at the tip [b] of
    the stored chain and has validated the headers of the blocks [new]; on a database that holds the chain with these
    blocks, the window of target difficulties from which the target of the next block is computed
    ([fetch_target_difficulty_for_next_block]) is the one the synchronisation has kept, as long as the consensus
    constants prescribe the same window at both heights. *)
Theorem sync_windows_agree algo now db db' b bs headers s0 state new wm ws :
  holds db (b :: bs) -> blocks_ok (b :: bs) -> holds db' (new ++ b :: bs) -> blocks_ok (new ++ b :: bs) ->
  @new_target_difficulty ChainStorageError manager Monero (Z.of_nat (length (b :: bs))) = Ok wm ->
  @new_target_difficulty ChainStorageError manager Sha3 (Z.of_nat (length (b :: bs))) = Ok ws ->
  initialize_state manager (bh_hash (cb_header b)) db = Ok s0 -> sync_headers now headers db s0 = Ok state ->
  ss_valid_headers state = map linked_of (rev new) ->
  @new_target_difficulty ChainStorageError manager algo (Z.of_nat (length (new ++ b :: bs))) = Ok (match algo with Monero => wm | Sha3 => ws end) ->
  fetch_target_difficulty_for_next_block manager algo (bh_hash (cb_header (List.hd b new))) db' = Ok (targets_get algo (ss_target_difficulties state)).
Proof.
  intros Hh Hok Hh' Hok' Hwm Hws Hinit Hsync Hvalid Hw.
  pose proof (new_target_empty _ _ _ Hwm) as Hm. pose proof (new_target_empty _ _ _ Hws) as Hs.
  assert (targets_rep wm ws (map linked_of (new ++ b :: bs)) (ss_target_difficulties state)) as [Rm Rs].
  { destruct (fetch_targets_spec db b bs wm ws Hh Hok (ho_size _ _ Hh) Hwm Hws) as (targets & Htargets & Hrep).
    replace (map linked_of (new ++ b :: bs)) with (rev (ss_valid_headers state) ++ map linked_of (b :: bs)).
    2:{ rewrite Hvalid, <- map_rev, rev_involutive, map_app. done. }
    eapply sync_headers_rep; [done|done| |exact Hsync]. unfold initialize_state in Hinit.
    apply bind_Ok_iff in Hinit as (start & _ & (ts & _ & (td & Htd & (acc & _ & [= <-])%bind_Ok_iff)%bind_Ok_iff)%bind_Ok_iff).
    rewrite Htargets in Htd. injection Htd as <-. done. }
  assert (new ++ b :: bs = List.hd b new :: match new with [] => bs | _ :: new => new ++ b :: bs end) as Hsplit by (by destruct new).
  pose proof (ho_size _ _ Hh') as Hsz. rewrite Hsplit in *. rewrite (fetch_target_spec algo db' _ _ _ Hh' Hok' Hsz Hw). f_equal.
  destruct algo; cbn [targets_get]; congruence.
Qed.

End Database.
