(* ===== verification/HeaderChain.v ===== *)
(** * Chains of headers

    The tables of headers of a database whose header chain may be longer than its chain of blocks: reading, adding and removing headers, going back to
    an earlier header, and the windows of target difficulties at any header. *)

From S2P Require Import Prelude ScriptTypes Opcodes ScriptStack TariScript Amounts Emission Difficulty ConsensusConstants ConsensusManager MmrCommon.
From S2P Require Import Covenants MoneroMerkle TxComponents BlockHeader CovenantFilters AggregatedBody BodyValidator ChainStorage ChainDatabase Reorg HeaderValidator.
From S2P Require Import BodyBalance ChainTables ChainStorageSpec ChainRewind BlockReading ReorgSpec HeaderSpec.

Local Open Scope Z_scope.

Section HeaderChain.
Context {C : ScriptCrypto} {CL : ScriptCryptoLaws C} {B : BorshPrims C} {X : TxCrypto C} {L : TxLaws X} {ML : MoneroLib} `{U256Ops} `{EpochOps} `{EpochMean} (manager : ConsensusManager).
Implicit Types (h : LinkedHeader) (hs top base : list LinkedHeader) (b : ChainBlock) (bs : list ChainBlock) (db : Database).

(** ** Tables *)

(** Chains are lists of headers, the newest first. *)
Definition hash_at h : bytes := bh_hash (lh_header h).
Definition height_at h : Z := bh_height (lh_header h).

Definition header_row h := (height_at h, lh_header h).
Definition data_row h := (height_at h, lh_accumulated_data h).
Definition hash_row h := (hash_at h, height_at h).
Definition kernel_size_row h := (bh_kernel_mmr_size (lh_header h), height_at h).
Definition output_size_row h := (bh_output_mmr_size (lh_header h), (height_at h, hash_at h)).

Definition headers_of hs : HeaderTables :=
  {| headers_db := table_of header_row (rev hs); header_accumulated_data_db := table_of data_row (rev hs); block_hashes_db := table_of hash_row (rev hs);
     kernel_mmr_size_index := table_of kernel_size_row (rev hs); output_mmr_size_index := table_of output_size_row (rev hs) |}.

(** A header that may follow a chain of headers. *)
Record header_follows hs h : Prop := {
  hf_height : height_at h = Z.of_nat (length hs);
  hf_data : acc_hash (lh_accumulated_data h) = hash_at h;
  hf_prev : match hs with p :: _ => bh_prev_hash (lh_header h) = hash_at p | [] => True end;
  hf_hash : hash_at h ∉ map hash_at hs;
  hf_kernel_size : bh_kernel_mmr_size (lh_header h) ∉ map (fun h => bh_kernel_mmr_size (lh_header h)) hs;
  hf_output_size : bh_output_mmr_size (lh_header h) ∉ map (fun h => bh_output_mmr_size (lh_header h)) hs;
}.

Fixpoint headers_ok hs : Prop :=
  match hs with
  | [] => True
  | h :: hs => header_follows hs h /\ headers_ok hs
  end.

Lemma table_map {A A' K V} `{Countable K} (kv : A -> K * V) (kv' : A' -> K * V) (g : A -> A') l : (forall a, kv' (g a) = kv a) -> table_of kv' (rev (map g l)) = table_of kv (rev l).
Proof. intros Hg. unfold table_of. rewrite <- map_rev, map_map. f_equal. apply map_ext. exact Hg. Qed.

Lemma headers_of_blocks bs : headers_of (map linked_of bs) = header_tables_of bs.
Proof. unfold headers_of, header_tables_of. f_equal; by apply table_map. Qed.

Lemma headers_ok_blocks bs : blocks_ok bs -> headers_ok (map linked_of bs).
Proof.
  induction bs as [|b bs IH]; [done|]. intros Hok. pose proof Hok as [Hf Hbs]. split; [|by apply IH]. split.
  - unfold height_at. cbn [linked_of lh_header]. by rewrite (block_height _ _ Hok), length_map.
  - apply Hf.
  - pose proof (fo_prev _ _ Hf) as Hp. by destruct bs.
  - rewrite map_map. exact (block_hash_new bs b Hf Hbs).
  - rewrite map_map. exact (fo_kernel_size _ _ Hf).
  - rewrite map_map. exact (fo_output_size _ _ Hf).
Qed.

Lemma headers_ok_suffix top base : headers_ok (top ++ base) -> headers_ok base.
Proof. induction top as [|h top IH]; [done|]. intros [_ Hok]. by apply IH. Qed.

Lemma height_position top h base : headers_ok (top ++ h :: base) -> height_at h = Z.of_nat (length base).
Proof. intros [Hf _]%headers_ok_suffix. apply Hf. Qed.

Lemma height_at_bound hs h : headers_ok hs -> h ∈ hs -> 0 <= height_at h < Z.of_nat (length hs).
Proof.
  intros Hok (top & base & ->)%list_elem_of_split. rewrite (height_position _ _ _ Hok), length_app. cbn [length]. lia.
Qed.

Lemma header_keys {K} (f : LinkedHeader -> K) hs : headers_ok hs -> (forall hs h, header_follows hs h -> headers_ok hs -> f h ∉ map f hs) -> NoDup (map f (rev hs)).
Proof.
  intros Hok Hf. assert (map f (rev hs) ≡ₚ map f hs) as -> by (apply Permutation_map; symmetry; apply Permutation_rev).
  induction hs as [|h hs IH]; cbn; [constructor|]. destruct Hok as [Hh Hok]. constructor; [by apply Hf|by apply IH].
Qed.

Lemma height_fresh hs h : header_follows hs h -> headers_ok hs -> height_at h ∉ map height_at hs.
Proof. intros Hf Hok (h' & Heq & Hin)%elem_of_map. pose proof (height_at_bound hs h' Hok Hin). rewrite (hf_height _ _ Hf) in Heq. lia. Qed.

Lemma heights_nodup hs : headers_ok hs -> NoDup (map (fun h => (header_row h).1) (rev hs)).
Proof. intros Hok. by apply header_keys, height_fresh. Qed.

Lemma hashes_nodup hs : headers_ok hs -> NoDup (map (fun h => (hash_row h).1) (rev hs)).
Proof. intros Hok. apply header_keys; [done|]. intros hs' h Hf _. apply Hf. Qed.

(** ** Reading *)

Lemma in_headers hs h : headers_ok hs -> h ∈ hs -> headers_db (headers_of hs) !! height_at h = Some (lh_header h) /\
  header_accumulated_data_db (headers_of hs) !! height_at h = Some (lh_accumulated_data h) /\ block_hashes_db (headers_of hs) !! hash_at h = Some (height_at h).
Proof.
  intros Hok Hin. assert (h ∈ rev hs) as Hr by (by rewrite <- Permutation_rev). split_and!; apply table_lookup_Some; try by exists h.
  all: try by apply heights_nodup. by apply hashes_nodup.
Qed.

Lemma data_at hs h : headers_ok hs -> h ∈ hs -> acc_hash (lh_accumulated_data h) = hash_at h.
Proof. intros Hok (top & base & ->)%list_elem_of_split. destruct (headers_ok_suffix _ _ Hok) as [Hf _]. apply Hf. Qed.

Lemma header_height_lookup hs k header : headers_ok hs -> headers_db (headers_of hs) !! k = Some header -> exists h, h ∈ hs /\ height_at h = k /\ lh_header h = header.
Proof. intros Hok (h & Hin & [= <- <-])%table_lookup_Some; [|by apply heights_nodup]. exists h. by rewrite <- Permutation_rev in Hin. Qed.

Lemma no_header_above hs k : headers_ok hs -> Z.of_nat (length hs) <= k -> headers_db (headers_of hs) !! k = None.
Proof.
  intros Hok Hk. destruct (headers_db (headers_of hs) !! k) as [header|] eqn:Hl; [|done]. destruct (header_height_lookup hs k header Hok Hl) as (h & Hin & Heq & _).
  pose proof (height_at_bound hs h Hok Hin). lia.
Qed.

Lemma unknown_hash hs hash : hash ∉ map hash_at hs -> block_hashes_db (headers_of hs) !! hash = None.
Proof. intros Hn. apply (table_lookup_None hash_row). by apply (not_in_rev hash_at). Qed.

Lemma last_of_headers hs h : headers_ok (h :: hs) -> lmdb_last (headers_db (headers_of (h :: hs))) = Some (lh_header h).
Proof.
  intros Hok. apply (lmdb_last_Some _ (height_at h)); [apply in_headers; [done|left]|]. intros k v (h' & Hin & <- & _)%header_height_lookup; [|done].
  pose proof (height_at_bound _ _ Hok Hin) as Hb. rewrite (hf_height _ _ (proj1 Hok)). cbn [length] in Hb. lia.
Qed.

(** ** Adding a header *)

Lemma insert_follows hs h : header_follows hs h -> headers_ok hs -> insert_header (lh_header h) (lh_accumulated_data h) (headers_of hs) = Ok (headers_of (h :: hs)).
Proof.
  intros Hf Hok. unfold insert_header. fold (height_at h). rewrite no_header_above by (done || rewrite (hf_height _ _ Hf); lia).
  assert (match lmdb_last (headers_db (headers_of hs)) with
    | Some last_header =>
        if negb (bh_height last_header =? Z.max 0 (height_at h - 1)) then Err InvalidOperation
        else if negb (bool_decide (bh_hash last_header = bh_prev_hash (lh_header h))) then Err InvalidOperation
        else Ok tt
    | None => if negb (height_at h =? 0) then Err InvalidOperation else Ok tt
    end = @Ok ChainStorageError _ tt) as ->.
  { rewrite (hf_height _ _ Hf). destruct hs as [|p hs]; [done|]. rewrite (last_of_headers hs p Hok). fold (height_at p). rewrite (hf_height _ _ (proj1 Hok)). cbn [length].
    rewrite (proj2 (Z.eqb_eq _ _)) by lia. pose proof (hf_prev _ _ Hf) as ->. by rewrite bool_decide_true. }
  pose proof (not_in_rev _ _ _ (height_fresh hs h Hf Hok)) as Hh. cbn [mbind result_bind headers_of headers_db header_accumulated_data_db block_hashes_db kernel_mmr_size_index output_mmr_size_index].
  rewrite (lmdb_insert_row data_row (rev hs) h) by done. cbn [mbind result_bind].
  rewrite (lmdb_insert_row hash_row (rev hs) h); [|done|exact (not_in_rev _ _ _ (hf_hash _ _ Hf))]. cbn [mbind result_bind].
  rewrite (lmdb_insert_row header_row (rev hs) h) by done. cbn [mbind result_bind].
  rewrite (lmdb_insert_row kernel_size_row (rev hs) h); [|done|exact (not_in_rev _ _ _ (hf_kernel_size _ _ Hf))]. cbn [mbind result_bind].
  by rewrite (lmdb_insert_row output_size_row (rev hs) h); [|done|exact (not_in_rev _ _ _ (hf_output_size _ _ Hf))].
Qed.

Lemma insert_fresh {K V} `{Countable K} (kv : LinkedHeader -> K * V) hs k v t : lmdb_insert k v (table_of kv (rev hs)) = Ok t -> k ∉ map (fun h => (kv h).1) hs.
Proof.
  unfold lmdb_insert. destruct (table_of kv (rev hs) !! k) eqn:Hl; [done|]. intros _ Hin. apply not_elem_of_list_to_map in Hl. apply Hl.
  change (map kv (rev hs)).*1 with (fst <$> (kv <$> rev hs)). rewrite <- list_fmap_compose. assert (map (fun h => (kv h).1) (rev hs) ≡ₚ map (fun h => (kv h).1) hs) as Hp by (apply Permutation_map; symmetry; apply Permutation_rev).
  change (k ∈ map (fun h => (kv h).1) (rev hs)). by rewrite Hp.
Qed.

(** A header the tables accept follows the chain. *)
Lemma insert_inv hs h t : headers_ok hs -> hs <> [] -> acc_hash (lh_accumulated_data h) = hash_at h -> 0 <= height_at h ->
  insert_header (lh_header h) (lh_accumulated_data h) (headers_of hs) = Ok t -> header_follows hs h /\ t = headers_of (h :: hs).
Proof.
  intros Hok Hne Hd Hpos Hins. assert (header_follows hs h) as Hf; [|split; [done|]; rewrite (insert_follows hs h Hf Hok) in Hins; by injection Hins]. revert Hins. unfold insert_header. fold (height_at h).
  destruct (headers_db (headers_of hs) !! height_at h) eqn:Hfree; [done|]. destruct hs as [|p hs]; [done|]. rewrite (last_of_headers hs p Hok). fold (height_at p).
  intros (? & Hprev & (accum & _ & (hashes & Hhash & (headers & _ & (ks & Hks & (os & Hos & _)%bind_Ok_iff)%bind_Ok_iff)%bind_Ok_iff)%bind_Ok_iff)%bind_Ok_iff)%bind_Ok_iff.
  destruct (Z.eqb_spec (height_at p) (Z.max 0 (height_at h - 1))) as [Hheight|]; [|done]. cbn [negb] in Hprev. case_bool_decide as Hlink; [|done].
  assert (height_at p = Z.of_nat (length hs)) as Hp by apply Hok.
  split; [|done|by symmetry|exact (insert_fresh hash_row _ _ _ _ Hhash)|exact (insert_fresh kernel_size_row _ _ _ _ Hks)|exact (insert_fresh output_size_row _ _ _ _ Hos)].
  cbn [length]. destruct (decide (height_at h = 0)) as [Hz|]; [|lia]. rewrite Hz in *. assert (height_at p = 0) as Hp0 by lia. rewrite <- Hp0 in Hfree.
  destruct (in_headers (p :: hs) p Hok ltac:(left)) as (Hl & _). congruence.
Qed.

(** ** Databases with headers ahead of their blocks *)

Record header_state hs bs db : Prop := {
  hd_headers : header_tables (lmdb db) = headers_of hs;
  hd_ok : headers_ok hs;
  hd_size : Z.of_nat (length hs) <= U64_MAX + 1;
  hd_above : exists above, hs = above ++ map linked_of bs;
  hd_nonempty : bs <> [];
  hd_blocks : blocks_ok bs;
  hd_tables : represents (lmdb db) (map pair_of bs);
  hd_tip : md_tip (metadata db) = tip_of bs;
  hd_archival : md_pruning_horizon (metadata db) = 0 /\ md_pruned_height (metadata db) = 0;
  hd_pool : pool_ok (orphans db);
  hd_disjoint : forall b, b ∈ bs -> orphans_db (orphans db) !! cb_hash b = None;
  hd_blocks_size : Z.of_nat (length bs) <= U64_MAX;
}.

Lemma state_holds bs db : header_state (map linked_of bs) bs db -> holds db bs.
Proof. intros []. split; try done. by rewrite <- headers_of_blocks. Qed.

Lemma holds_state bs db : holds db bs -> blocks_ok bs -> bs <> [] -> header_state (map linked_of bs) bs db.
Proof.
  intros [] Hok Hne. split; try done; [by rewrite headers_of_blocks|by apply headers_ok_blocks|rewrite length_map; lia|by exists []].
Qed.

Lemma state_nonempty hs bs db : header_state hs bs db -> hs <> [].
Proof. intros Hs ->. destruct (hd_above _ _ _ Hs) as [above Ha]. symmetry in Ha. apply app_nil in Ha as [_ Ha%map_eq_nil]. by apply (hd_nonempty _ _ _ Hs). Qed.

Definition store_headers hs db : Database := with_lmdb (with_headers (headers_of hs) (lmdb db)) db.

(** Changing the headers above the blocks. *)
Lemma state_store hs hs' bs db : header_state hs bs db -> headers_ok hs' -> Z.of_nat (length hs') <= U64_MAX + 1 -> (exists above, hs' = above ++ map linked_of bs) ->
  header_state hs' bs (store_headers hs' db).
Proof.
  intros Hs Hok Hsz [above Ha]. destruct Hs as [? ? ? _ ? ? [R1 R2 R3 R4 _] ? ? ? ? ?]. split; try done; [by exists above|].
  split; try done. apply Forall_forall. intros x (b & -> & Hb)%elem_of_map. cbn [fst pair_of lmdb store_headers with_lmdb header_tables with_headers].
  destruct (in_headers hs' (linked_of b) Hok) as (? & _ & ?); [|done]. rewrite Ha. apply elem_of_app. right. by apply list_elem_of_fmap_2.
Qed.

(** ** Adding headers *)

Lemma insert_headers_Ok new : forall hs bs db, header_state hs bs db -> headers_ok (rev new ++ hs) ->
  db_write manager (map InsertChainHeader new) db = Ok (match new with [] => db | _ => store_headers (rev new ++ hs) db end).
Proof.
  induction new as [|h new IH] using rev_ind; intros hs bs db Hs Hok; [done|]. rewrite rev_app_distr in *. cbn [rev app] in *. destruct Hok as [Hf Hok].
  unfold db_write in *. rewrite map_app, foldM_app, (IH hs bs db Hs Hok). cbn [mbind result_bind map foldM apply_operation]. unfold on_lmdb.
  assert (header_tables (lmdb (match new with [] => db | _ => store_headers (rev new ++ hs) db end)) = headers_of (rev new ++ hs)) as ->.
  { destruct new; [apply Hs|done]. }
  rewrite (insert_follows _ h Hf Hok). cbn [mbind result_bind]. destruct new; done.
Qed.

(** Headers that are written follow the chain; otherwise nothing is written. *)
Lemma insert_headers_inv new hs bs db db' : header_state hs bs db -> Forall (fun h => acc_hash (lh_accumulated_data h) = hash_at h /\ 0 <= height_at h <= U64_MAX) new ->
  db_write manager (map InsertChainHeader new) db = Ok db' -> headers_ok (rev new ++ hs) /\ header_state (rev new ++ hs) bs db'.
Proof.
  intros Hs Hnew Hw. assert (headers_ok (rev new ++ hs)) as Hok.
  { revert db' Hw. induction new as [|h new IH] using rev_ind; intros db' Hw; [apply Hs|]. apply Forall_app in Hnew as [Hnew [[Hd Hh] _]%Forall_cons]. rewrite rev_app_distr. cbn [rev app].
    unfold db_write in *. rewrite map_app, foldM_app in Hw. apply bind_Ok_iff in Hw as (db1 & Hw1 & Hw2). specialize (IH Hnew db1 Hw1).
    assert (header_tables (lmdb db1) = headers_of (rev new ++ hs)) as Hh1.
    { pose proof (insert_headers_Ok new hs bs db Hs IH) as Hi. unfold db_write in Hi. rewrite Hi in Hw1. injection Hw1 as <-. destruct new; [apply Hs|done]. }
    cbn [map foldM apply_operation] in Hw2. unfold on_lmdb in Hw2. rewrite Hh1 in Hw2. apply bind_Ok_iff in Hw2 as (db2 & Hw2 & _). apply bind_Ok_iff in Hw2 as (t & (t1 & Ht & _)%bind_Ok_iff & _).
    assert (rev new ++ hs <> []) as Hne by (pose proof (state_nonempty _ _ _ Hs); by destruct (rev new)). by destruct (insert_inv _ h t1 IH Hne Hd ltac:(lia) Ht) as [Hf _]. }
  split; [done|]. rewrite (insert_headers_Ok new hs bs db Hs Hok) in Hw. injection Hw as <-. destruct (hd_above _ _ _ Hs) as [above Ha]. destruct new as [|h new]; [done|].
  apply (state_store hs); [done|done| |by exists (rev (h :: new) ++ above); rewrite Ha, app_assoc]. destruct (rev (h :: new)) as [|top rest] eqn:Hr; [apply Hs|].
  cbn [app] in Hok |- *. pose proof (hf_height _ _ (proj1 Hok)) as Hht. rewrite Forall_forall in Hnew. destruct (Hnew top) as [_ Hb]; [rewrite Permutation_rev, Hr; left|]. cbn [length]. lia.
Qed.

(** ** Going back *)

Lemma delete_top h hs bs db : header_state (h :: hs) bs db -> (exists above, hs = above ++ map linked_of bs) ->
  db_write manager [DeleteHeader (height_at h)] db = Ok (store_headers hs db).
Proof.
  intros Hs [above Ha]. pose proof (hd_ok _ _ _ Hs) as Hok. pose proof (hd_tables _ _ _ Hs) as Hrep. pose proof Hok as [Hf Hhs]. cbn [db_write foldM apply_operation]. unfold on_lmdb, delete_header.
  assert (Z.of_nat (length bs) <= height_at h) as Hb by (rewrite (hf_height _ _ Hf), Ha, length_app, length_map; lia).
  assert (block_accumulated_data_db (lmdb db) !! height_at h = None) as ->.
  { rewrite (rep_accumulated _ _ Hrep). apply table_lookup_None. rewrite accumulated_heights by (apply blocks_chain_ok, Hs). rewrite elem_of_map. intros (n & Hn & Hin%elem_of_seq). rewrite length_map in Hin. lia. }
  assert (forall hash, hash ∈ map (fun blk => bh_hash blk.1) (map pair_of bs) -> hash = hash_at h -> False) as Hnew.
  { intros hash Hin ->. apply (hf_hash _ _ Hf). rewrite Ha, map_app, map_map. apply elem_of_app. right. by rewrite map_map in Hin. }
  rewrite (hd_headers _ _ _ Hs), (last_of_headers hs h Hok). change (or_not_found (Some ?d)) with (@Ok ChainStorageError _ d). cbn [mbind result_bind]. fold (height_at h). rewrite Z.eqb_refl. cbn [negb].
  rewrite !bool_decide_false.
  - cbn [headers_of headers_db header_accumulated_data_db block_hashes_db kernel_mmr_size_index output_mmr_size_index].
    rewrite (delete_last_row hash_row hs h) by (done || apply Hf). cbn [mbind result_bind]. rewrite (delete_last_row header_row hs h) by (done || by apply height_fresh). cbn [mbind result_bind].
    rewrite (delete_last_row data_row hs h) by (done || by apply height_fresh). cbn [mbind result_bind]. rewrite (delete_last_row kernel_size_row hs h) by (done || apply Hf). cbn [mbind result_bind].
    by rewrite (delete_last_row output_size_row hs h) by (done || apply Hf).
  - intros Hne. apply Hne. unfold output_rows_of. rewrite (rep_txos _ _ Hrep). cbn [utxos_db txo_tables_of].
    rewrite (no_rows output_entry); [done|apply output_entries_distinct, rows_positions_distinct|]. intros r Hr%rows_header Heq. by apply (Hnew _ Hr).
  - intros Hne. apply Hne. unfold kernel_rows_of. rewrite (rep_kernels _ _ Hrep). cbn [kernels_db kernel_tables_of].
    rewrite (no_rows kernel_entry); [done|apply kernel_rows_distinct, blocks_chain_ok, Hs|]. intros r Hr%kernel_rows_header Heq. by apply (Hnew _ Hr).
Qed.

Lemma delete_headers above : forall hs bs db last i, header_state (above ++ hs) bs db -> (exists rest, hs = rest ++ map linked_of bs) ->
  last - Z.of_nat i = Z.of_nat (length (above ++ hs)) - 1 ->
  exists db', db_for (fun _ k => write manager [DeleteHeader (last - k)]) (map Z.of_nat (seq i (length above))) tt db = (db', Ok tt) /\ header_state hs bs db'.
Proof.
  induction above as [|h above IH]; intros hs bs db last i Hs Hr Hl; [by exists db|]. cbn [app length seq map db_for] in *. pose proof (hd_ok _ _ _ Hs) as [Hf Hok].
  assert (exists rest, above ++ hs = rest ++ map linked_of bs) as Hr' by (destruct Hr as [rest ->]; exists (above ++ rest); by rewrite app_assoc).
  assert (last - Z.of_nat i = height_at h) as -> by (rewrite (hf_height _ _ Hf); lia). rewrite (bind_run _ _ db (store_headers (above ++ hs) db) tt) by (by apply write_run, (delete_top h (above ++ hs) bs)).
  apply IH; [|done|lia]. apply (state_store (h :: above ++ hs)); [done|done| |done]. pose proof (hd_size _ _ _ Hs). cbn [length] in *. lia.
Qed.

Lemma rewind_blocks (top : list ChainBlock) : forall (old : list ChainBlock) db last steps i removed, old <> [] -> holds db (top ++ old) -> blocks_ok (top ++ old) -> last - Z.of_nat i = Z.of_nat (length (top ++ old)) - 1 ->
  exists db', db_for (rewind_block manager last false steps) (map Z.of_nat (seq i (length top))) removed db = (db', Ok (removed ++ top)) /\ holds db' old.
Proof.
  induction top as [|b top IH]; intros old db last steps i removed Hne Hh Hok Hl; [exists db; by rewrite app_nil_r|]. cbn [app length seq map db_for] in *.
  destruct (rewind_block_Ok manager db (top ++ old) b last steps removed (Z.of_nat i)) as (db1 & Hr & Hh1 & _); [done|done|by destruct top|rewrite (block_height _ _ Hok); lia|].
  rewrite (bind_run _ _ _ _ _ Hr). destruct (IH old db1 last steps (S i) (removed ++ [b])) as (db' & Hr' & Hh'); [done|done|apply Hok|lia|]. exists db'. split; [|done]. by rewrite <- app_assoc in Hr'.
Qed.

Lemma split_blocks top base bs above : top ++ base = above ++ map linked_of bs ->
  (exists rest, base = rest ++ map linked_of bs /\ above = top ++ rest) \/ (exists removed bs', removed <> [] /\ bs = removed ++ bs' /\ base = map linked_of bs').
Proof.
  intros Heq. apply app_eq_inv in Heq as [(k & -> & Hk)|(k & -> & Hk)].
  - destruct k as [|x k]; [left; exists []; cbn [app] in Hk; by rewrite !app_nil_r, Hk|]. right. apply map_eq_app in Hk as (removed & bs' & -> & Hr & <-). exists removed, bs'. split; [by intros ->|done].
  - left. by exists k.
Qed.

(** The blocks [bs] without those after the first [n] of the chain, which are [removed]. *)
Definition cut (n : nat) (bs removed bs' : list ChainBlock) : Prop := bs = removed ++ bs' /\ length removed = (length bs - n)%nat.

Lemma cut_drop n bs removed bs' : cut n bs removed bs' -> bs' = drop (length bs - n) bs.
Proof. intros [Hbs Hl]. rewrite <- Hl, Hbs. by rewrite drop_app_length. Qed.

(** Rewinding to a header of the chain removes the headers after it and the blocks that belong to them. *)
Lemma rewind_state top s base bs db : header_state (top ++ s :: base) bs db ->
  exists db' removed bs', rewind_to_hash manager (hash_at s) db = (db', Ok removed) /\ header_state (s :: base) bs' db' /\ cut (S (length base)) bs removed bs'.
Proof.
  intros Hs. pose proof (hd_ok _ _ _ Hs) as Hok. pose proof (hd_size _ _ _ Hs) as Hsz. destruct (hd_above _ _ _ Hs) as [above Ha]. assert (s ∈ top ++ s :: base) as Hin by (apply elem_of_app; right; left).
  pose proof (height_position _ _ _ Hok) as Hheight. destruct (in_headers _ _ Hok Hin) as (Hl1 & _ & Hl2).
  assert (fetch_header_by_block_hash (hash_at s) db = Some (lh_header s)) as Hfetch by (unfold fetch_header_by_block_hash; rewrite (hd_headers _ _ _ Hs), Hl2; exact Hl1).
  unfold rewind_to_hash. erewrite (bind_run _ _ db db) by (unfold db_read; by rewrite Hfetch). fold (height_at s).
  destruct bs as [|b bs]; [by destruct (hd_nonempty _ _ _ Hs)|]. pose proof (block_height _ _ (hd_blocks _ _ _ Hs)) as Hb.
  assert (exists l, fetch_last_header db = Ok l /\ bh_height l = Z.of_nat (length (top ++ s :: base)) - 1) as (l & Hlast & Hlh).
  { unfold fetch_last_header. rewrite (hd_headers _ _ _ Hs). destruct (top ++ s :: base) as [|t rest] eqn:Ht; [by destruct top|]. rewrite (last_of_headers rest t Hok). exists (lh_header t).
    split; [done|]. fold (height_at t). rewrite (hf_height _ _ (proj1 Hok)). cbn [length]. lia. }
  unfold rewind_to_height. erewrite (bind_run _ _ db db) by (unfold db_read; by rewrite Hlast). rewrite (bind_run _ _ db db (metadata db)) by done. cbn beta zeta.
  rewrite (hd_tip _ _ _ Hs). cbn [tip_of height_of_longest_chain]. rewrite Hb, Hlh, Hheight.
  assert (length (top ++ s :: base) = (length above + length (b :: bs))%nat) as Hlen by (by rewrite Ha, length_app, length_map). rewrite length_app in *. cbn [length] in *.
  set (steps := Z.of_nat (length top + S (length base)) - 1 - Z.max (Z.of_nat (length bs)) (Z.of_nat (length base))).
  assert (@checked 0 U64_MAX steps = Some steps) as Hck by (apply checked_Some; lia).
  rewrite (bind_run _ _ db db steps) by (unfold db_lift; by rewrite Hck).
  destruct (split_blocks _ _ _ _ Ha) as [(rest & Hbase & ->)|(removed & bs' & Hne & Hbs & Hbase)].
  - pose proof (f_equal length Hbase) as Hbl. rewrite length_app, length_map in Hbl. cbn [length] in Hbl.
    destruct (delete_headers top (s :: base) (b :: bs) db (Z.of_nat (length top + S (length base)) - 1) 0 Hs) as (db1 & Hd & Hs1); [by exists rest|rewrite length_app; cbn [length]; lia|].
    rewrite (bind_run _ _ db db1 tt); [|unfold range; replace (Z.to_nat steps) with (length top) by lia; exact Hd].
    rewrite (proj2 (Z.eqb_eq _ _)) by lia. exists db1, [], (b :: bs). split_and!; [done|done|]. split; [done|]. cbn [length]. lia.
  - pose proof (f_equal length Hbase) as Hbl. pose proof (f_equal length Hbs) as Hbsl. rewrite length_map in Hbl. rewrite length_app in Hbsl. cbn [length] in Hbl, Hbsl. assert (length removed <> 0%nat) by (by destruct removed).
    rewrite Ha in Hs. destruct (delete_headers above (map linked_of (b :: bs)) (b :: bs) db (Z.of_nat (length top + S (length base)) - 1) 0 Hs) as (db1 & Hd & Hs1); [by exists []|rewrite length_app, length_map; cbn [length]; lia|].
    rewrite (bind_run _ _ db db1 tt); [|unfold range; replace (Z.to_nat steps) with (length above) by lia; exact Hd].
    rewrite Z.max_r by lia. rewrite (proj2 (Z.eqb_neq _ _)) by lia. destruct (hd_archival _ _ _ Hs) as [Har1 Har2]. pose proof (hd_blocks_size _ _ _ Hs) as Hbsz. cbn [length] in Hbsz.
    rewrite (bind_run _ _ db1 db1 (Z.of_nat (length bs))) by (unfold db_lift; rewrite Har2, arith_ok by lia; by rewrite Z.sub_0_r). unfold is_pruned_node. rewrite Har1. cbn [negb Z.eqb andb].
    rewrite Hbs in Hs1. pose proof (state_holds _ _ Hs1) as Hh1. pose proof (hd_blocks _ _ _ Hs1) as Hbok.
    destruct (rewind_blocks removed bs' db1 (Z.of_nat (length bs)) (Z.of_nat (length bs) - Z.of_nat (length base)) 0 []) as (db2 & Hr & Hh2); [by intros ->|done|done|rewrite length_app; lia|].
    exists db2, removed, bs'. unfold range. replace (Z.to_nat (Z.of_nat (length bs) - Z.of_nat (length base))) with (length removed) by lia. rewrite (bind_run _ _ _ _ _ Hr). split; [done|]. split; [|split; [done|cbn [length]; lia]].
    rewrite Hbase. apply holds_state; [done|by apply (blocks_ok_suffix removed)|by intros ->].
Qed.

(** ** Windows of target difficulties *)

Definition has_headers hs db : Prop := header_tables (lmdb db) = headers_of hs /\ headers_ok hs.

Lemma state_headers hs bs db : header_state hs bs db -> has_headers hs db.
Proof. intros Hs. split; apply Hs. Qed.

Lemma chain_header hs db h : has_headers hs db -> h ∈ hs -> fetch_chain_header_by_height (height_at h) db = Ok h.
Proof.
  intros [Hd Hok] Hin. unfold fetch_chain_header_by_height. rewrite Hd. destruct (in_headers hs h Hok Hin) as (-> & -> & _). cbn. unfold header_try_construct.
  rewrite bool_decide_true by exact (data_at hs h Hok Hin). by destruct h.
Qed.

Lemma chain_header_by_hash hs db h : has_headers hs db -> h ∈ hs -> fetch_chain_header_in_all_chains (hash_at h) db = Ok h.
Proof.
  intros Hh Hin. pose proof Hh as [Hd Hok]. unfold fetch_chain_header_in_all_chains. rewrite Hd. destruct (in_headers hs h Hok Hin) as (_ & _ & ->). by apply (chain_header hs).
Qed.

Lemma known_header hs db h : has_headers hs db -> h ∈ hs -> fetch_header_by_block_hash (hash_at h) db = Some (lh_header h).
Proof. intros [Hd Hok] Hin. unfold fetch_header_by_block_hash. rewrite Hd. destruct (in_headers hs h Hok Hin) as (Hl & _ & ->). exact Hl. Qed.

Lemma unknown_header hs db hash : has_headers hs db -> hash ∉ map hash_at hs -> fetch_header_by_block_hash hash db = None.
Proof. intros [Hd _] Hn. unfold fetch_header_by_block_hash. by rewrite Hd, unknown_hash. Qed.

Section Windows.
Context (wm ws : LinearWeightedMovingAverage) (Hm : empty_window wm) (Hs : empty_window ws).

Lemma windows_below fuel top pre s base targets db : has_headers (top ++ pre ++ s :: base) db -> (length base < fuel)%nat -> targets_rep wm ws (pre ++ [s]) targets ->
  exists targets', target_windows fuel s targets db = Ok targets' /\ targets_rep wm ws (pre ++ s :: base) targets'.
Proof.
  revert pre s fuel targets. induction base as [|p base IH]; intros pre s [|fuel] targets Hh Hf Hrep; try lia; cbn [target_windows]; pose proof Hh as [_ Hok]; apply headers_ok_suffix in Hok;
    pose proof (height_position _ _ _ Hok) as Hheight; change (linked_height s) with (height_at s); rewrite Hheight; [by exists targets|].
  assert (pre ++ s :: p :: base = (pre ++ [s]) ++ p :: base) as Happ by (by rewrite <- app_assoc). cbn [length]. rewrite (proj2 (Z.ltb_lt _ _)) by lia. cbn [andb].
  destruct (targets_is_full targets) eqn:Hfull; cbn [negb].
  { exists targets. split; [done|]. rewrite Happ. by apply targets_rep_full. }
  destruct (headers_ok_suffix _ _ Hok) as [Hfo _]. rewrite (hf_prev _ _ Hfo), (chain_header_by_hash _ db p Hh) by (apply elem_of_app; right; apply elem_of_app; right; right; left).
  cbn [mbind result_bind]. pose proof (targets_rep_front wm ws Hm Hs _ p _ Hrep) as Hrep'. set (targets' := if lwma_is_full _ then targets else _) in *. destruct (targets_is_full targets') eqn:Hfull'.
  - exists targets'. split; [done|]. replace (pre ++ s :: p :: base) with (((pre ++ [s]) ++ [p]) ++ base) by (by rewrite <- !app_assoc). by apply targets_rep_full.
  - rewrite Happ in *. apply IH; [done|cbn in Hf; lia|done].
Qed.

End Windows.

(** The windows of the constants at a height. *)
Definition windows (n : nat) (wm ws : LinearWeightedMovingAverage) : Prop :=
  @new_target_difficulty ChainStorageError manager Monero (Z.of_nat n) = Ok wm /\ @new_target_difficulty ChainStorageError manager Sha3 (Z.of_nat n) = Ok ws.

Lemma headers_count hs db : has_headers hs db -> (length hs <= size (headers_db (header_tables (lmdb db))))%nat.
Proof.
  intros [-> Hok]. cbn [headers_of headers_db]. unfold table_of. rewrite map_size_list_to_map; [by rewrite length_map, length_rev|].
  change (map header_row (rev hs)).*1 with (fst <$> (header_row <$> rev hs)). rewrite <- list_fmap_compose. by apply heights_nodup.
Qed.

Lemma windows_at top s base db targets : has_headers (top ++ s :: base) db -> fetch_target_difficulties_for_next_block manager (hash_at s) db = Ok targets ->
  exists wm ws, windows (length (s :: base)) wm ws /\ targets_rep wm ws (s :: base) targets.
Proof.
  intros Hh. pose proof Hh as [_ Hok]. pose proof (headers_count _ _ Hh) as Hcount. unfold fetch_target_difficulties_for_next_block. rewrite (chain_header_by_hash _ db s Hh) by (apply elem_of_app; right; left).
  cbn [mbind result_bind]. change (linked_height s) with (height_at s). rewrite (height_position _ _ _ Hok). intros (height & [-> _]%arith_Ok_iff & (t0 & Ht0 & Hw)%bind_Ok_iff)%bind_Ok_iff.
  replace (Z.of_nat (length base) + 1) with (Z.of_nat (length (s :: base))) in Ht0 by (cbn [length]; lia). apply bind_Ok_iff in Ht0 as (wm & Hwm & (ws & Hws & [= <-])%bind_Ok_iff).
  pose proof (new_target_empty manager _ _ _ Hwm) as Hm. pose proof (new_target_empty manager _ _ _ Hws) as Hs. exists wm, ws. split; [by split|].
  assert (targets_rep wm ws [] {| td_monero := wm; td_sha3 := ws |}) as Hrep by (split; symmetry; by apply window_of_nil). apply (targets_rep_front wm ws Hm Hs [] s) in Hrep.
  assert (forall w, empty_window w -> lwma_is_full w = false) as Hnf by (intros w [Hp Hd]; unfold lwma_is_full, num_samples; rewrite Hd; apply Z.eqb_neq; cbn; lia).
  replace (lwma_is_full (targets_get (bh_pow_algo (lh_header s)) _)) with false in Hrep by (symmetry; destruct (bh_pow_algo _); by apply Hnf).
  assert (length base < header_fuel db)%nat as Hfuel by (unfold header_fuel; rewrite length_app in Hcount; cbn [length] in Hcount; lia).
  destruct (windows_below wm ws Hm Hs (header_fuel db) top [] s base _ db Hh Hfuel Hrep) as (targets' & Ht & Hr). rewrite Ht in Hw. by injection Hw as <-.
Qed.

End HeaderChain.
