(* ===== verification/ReorgAtomic.v ===== *)
(** * Switching chains

    Every step of [Reorg.reorganize_chain] keeps a database that holds a chain; the orphan pool is a function of the blocks
    above the fork. The reorganisation ends with the candidate chain, or with the previous one. *)

From S2P Require Import Prelude ScriptTypes Opcodes ScriptStack TariScript Amounts Emission Difficulty ConsensusConstants ConsensusManager MmrCommon.
From S2P Require Import Covenants TxComponents MoneroMerkle BlockHeader CovenantFilters CovenantSpec AggregatedBody BodyValidator ChainStorage ChainDatabase Reorg ChainTables ChainStorageSpec ChainRewind BodyBalance BodyValidatorSpec BlockReading ReorgSpec.
From stdpp Require Import sorting.

Local Open Scope Z_scope.

Section Atomic.
Context {C : ScriptCrypto} {CL : ScriptCryptoLaws C} {B : BorshPrims C} {X : TxCrypto C} {L : TxLaws X} {ML : MoneroLib} (manager : ConsensusManager).
Implicit Types (b : ChainBlock) (bs top old : list ChainBlock) (db : Database) (M : gmap bytes Block) (gone : list bytes).

(** ** The pool during a reorganisation *)

Definition without (hs : list bytes) M : gmap bytes Block := filter (fun e => e.1 ∉ hs) M.

(** [M] has every block of the pool and of both chains; the chain is [top] on the fork [old], and the pool has the rest
    without the blocks that were found invalid. *)
Record over M gone old top db : Prop := {
  ov_holds : holds db (top ++ old);
  ov_ok : blocks_ok (top ++ old);
  ov_pool : orphans_db (orphans db) = without (map cb_hash top ++ gone) M;
  ov_known : Forall (fun b => M !! cb_hash b = Some (cb_block b)) top;
}.

(** The validator is trusted with the candidate blocks: those it accepts have a seed where they need one, and follow the
    chain when the database takes them. *)
Definition validator_sound `{!Validators} (old chain : list ChainBlock) : Prop := forall added x rest db, chain = added ++ x :: rest ->
  holds db (rev added ++ old) -> blocks_ok (rev added ++ old) -> orphans_db (orphans db) !! cb_hash x = Some (cb_block x) ->
  match validate_body_with_metadata db x (md_tip (metadata db)) with
  | Ok _ => (bh_pow_algo (cb_header x) = Monero -> exists d, from_header (cb_header x) = Ok d) /\
      forall ops, insert_best_block x = Ok ops -> match db_write manager (DeleteOrphan (cb_hash x) :: ops) db with Ok _ => follows (rev added ++ old) x | Err _ => True | Panic => False end
  | Err _ => True
  | Panic => False
  end.

Fixpoint linked (parent : bytes) (chain : list ChainBlock) : Prop :=
  match chain with
  | [] => True
  | b :: chain => bh_prev_hash (cb_header b) = parent /\ linked (cb_hash b) chain
  end.

Lemma without_insert S M h blk : M !! h = Some blk -> h ∉ S -> <[h := blk]> (without (h :: S) M) = without S M.
Proof.
  intros Hm Hn. apply map_eq. intros k. unfold without. destruct (decide (k = h)) as [->|Hne].
  - rewrite lookup_insert_eq. symmetry. by apply map_lookup_filter_Some.
  - rewrite lookup_insert_ne by done. rewrite !map_lookup_filter. destruct (M !! k); [|done]. cbn. rewrite (option_guard_iff (k ∉ h :: S) (k ∉ S)); [done|set_solver].
Qed.

Lemma without_delete S S' M h : (forall k, k ∈ S' <-> k = h \/ k ∈ S) -> delete h (without S M) = without S' M.
Proof.
  intros HS. apply map_eq. intros k. unfold without. destruct (decide (k = h)) as [->|Hne].
  - rewrite lookup_delete_eq. symmetry. apply map_lookup_filter_None. right. intros blk _. cbn. rewrite HS. tauto.
  - rewrite lookup_delete_ne by done. rewrite !map_lookup_filter. destruct (M !! k); [|done]. cbn. rewrite (option_guard_iff (k ∉ S) (k ∉ S')); [done|]. rewrite HS. tauto.
Qed.

(** ** Steps back *)

Lemma over_hash M gone old top b db : over M gone old (b :: top) db -> cb_hash b ∉ map cb_hash (top ++ old).
Proof.
  intros Hov. pose proof (ov_ok _ _ _ _ _ Hov) as Hok. cbn [app] in Hok. pose proof Hok as [Hf Hbs]. intros (b' & Heq & Hin)%elem_of_map.
  apply (block_hash_new _ _ Hf Hbs). replace (cb_hash b) with (bh_hash (cb_header b)) in Heq by (symmetry; apply Hf). rewrite (block_hash_eq _ b' Hbs Hin) in Heq. rewrite Heq.
  by apply (list_elem_of_fmap_2 (fun b => bh_hash (cb_header b))).
Qed.

Lemma over_rewind M gone old top b db last steps removed h : over M gone old (b :: top) db -> old <> [] -> cb_hash b ∉ gone -> last - h = bh_height (cb_header b) ->
  exists db', rewind_block manager last false steps removed h db = (db', Ok (removed ++ [b])) /\ over M gone old top db'.
Proof.
  intros Hov Hne Hg Hlast. pose proof (over_hash _ _ _ _ _ _ Hov) as Hnew. destruct Hov as [Hh Hok Hp Hk]. cbn [app] in Hh, Hok. apply Forall_cons in Hk as [Hkb Hk].
  destruct (rewind_block_Ok manager db (top ++ old) b last steps removed h Hh Hok) as (db' & Hr & Hh' & Ho'); [by destruct top|done|].
  exists db'. split; [done|]. split; [done|by destruct Hok| |done]. rewrite Ho', Hp. cbn [map app]. apply without_insert; [done|].
  rewrite map_app in Hnew. set_solver.
Qed.

Lemma over_rewinds M gone old top : old <> [] -> forall db last steps i removed, over M gone old top db -> Forall (fun b => cb_hash b ∉ gone) top ->
  last - Z.of_nat i = Z.of_nat (length (top ++ old)) - 1 ->
  exists db', db_for (rewind_block manager last false steps) (map Z.of_nat (seq i (length top))) removed db = (db', Ok (removed ++ top)) /\ over M gone old [] db'.
Proof.
  intros Hne. induction top as [|b top IH]; intros db last steps i removed Hov Hg Hlast; [exists db; rewrite app_nil_r; by split|].
  apply Forall_cons in Hg as [Hgb Hg]. cbn [length seq map db_for].
  destruct (over_rewind _ _ _ _ _ _ last steps removed (Z.of_nat i) Hov Hne Hgb) as (db1 & Hr & Hov1).
  { pose proof (ov_ok _ _ _ _ _ Hov) as Hok. cbn [app] in Hok. rewrite (block_height _ _ Hok), Hlast. cbn [app length]. lia. }
  rewrite (bind_run _ _ _ _ _ Hr). destruct (IH db1 last steps (S i) (removed ++ [b]) Hov1 Hg) as (db' & Hr' & Hov').
  { cbn [app length] in Hlast. lia. }
  exists db'. split; [|done]. by rewrite <- app_assoc in Hr'.
Qed.

Lemma last_block_fetched db b bs : holds db (b :: bs) -> blocks_ok (b :: bs) -> fetch_last_header db = Ok (cb_header b).
Proof. intros Hh Hok. unfold fetch_last_header. by rewrite (ho_headers _ _ Hh), (last_header bs b Hok). Qed.

Lemma rewind_to_height_Ok M gone t old top db : over M gone (t :: old) top db -> Forall (fun b => cb_hash b ∉ gone) top ->
  exists db', rewind_to_height manager (bh_height (cb_header t)) db = (db', Ok top) /\ over M gone (t :: old) [] db' /\ (top = [] -> db' = db).
Proof.
  intros Hov Hg. pose proof Hov as [Hh Hok _ _]. destruct (top ++ t :: old) as [|l bs] eqn:Hbs; [by destruct top|].
  assert (blocks_ok (t :: old)) as Hold. { clear -Hok Hbs. rewrite <- Hbs in Hok. clear Hbs. induction top as [|b top IH]; [done|]. apply IH. apply Hok. }
  pose proof (block_height bs l Hok) as Hl. pose proof (block_height old t Hold) as Ht. assert (length (top ++ t :: old) = S (length bs)) as Hlen by by rewrite Hbs. rewrite length_app in Hlen. cbn [length] in Hlen.
  unfold rewind_to_height. erewrite (bind_run _ _ db db) by (unfold db_read; by rewrite (last_block_fetched db l bs Hh Hok)).
  rewrite (bind_run _ _ db db (metadata db)) by done. cbn beta zeta. rewrite (ho_tip _ _ Hh). cbn [tip_of height_of_longest_chain].
  rewrite (bind_run _ _ db db 0) by (unfold db_lift, checked; rewrite Z.max_l, Z.sub_diag by lia; done). cbn [range Z.to_nat seq map db_for].
  rewrite (bind_run _ _ db db tt) by done. rewrite Z.max_r by lia. destruct (Z.eqb_spec (bh_height (cb_header l) - bh_height (cb_header t)) 0) as [Hz|Hz].
  - destruct top as [|x top]; [exists db; by split|]. cbn [length] in Hlen. lia.
  - pose proof (ho_size _ _ Hh) as Hsz. cbn [length] in Hsz. destruct (ho_archival _ _ Hh) as [Ha1 Ha2].
    assert (arith 0 U64_MAX (bh_height (cb_header l) - md_pruned_height (metadata db)) = @Ok ChainStorageError _ (bh_height (cb_header l))) as Har by (apply arith_Ok_iff; rewrite Ha2; lia).
    rewrite (bind_run _ _ db db (bh_height (cb_header l))) by (unfold db_lift; by rewrite Har).
    unfold is_pruned_node. rewrite Ha1. cbn [negb Z.eqb andb].
    destruct (over_rewinds M gone (t :: old) top ltac:(done) db (bh_height (cb_header l)) (bh_height (cb_header l) - bh_height (cb_header t)) 0 [] Hov Hg) as (db' & Hr & Hov').
    { rewrite length_app. cbn [length]. lia. }
    exists db'. split; [|split; [done|intros ->; cbn [length] in Hlen; lia]]. unfold range. replace (Z.to_nat (bh_height (cb_header l) - bh_height (cb_header t))) with (length top) by lia.
    rewrite (bind_run _ _ _ _ _ Hr). done.
Qed.

Lemma over_base M gone old top db : over M gone old top db -> blocks_ok old.
Proof. intros Hov. pose proof (ov_ok _ _ _ _ _ Hov) as Hok. clear Hov. induction top as [|b top IH]; [done|]. apply IH. apply Hok. Qed.

Lemma rewind_to_hash_Ok M gone t old top db : over M gone (t :: old) top db -> Forall (fun b => cb_hash b ∉ gone) top ->
  exists db', rewind_to_hash manager (cb_hash t) db = (db', Ok top) /\ over M gone (t :: old) [] db'.
Proof.
  intros Hov Hg. unfold rewind_to_hash. assert (fetch_header_by_block_hash (cb_hash t) db = Some (cb_header t)) as Hf.
  { unfold fetch_header_by_block_hash. rewrite (ho_headers _ _ (ov_holds _ _ _ _ _ Hov)), (block_hash_eq (t :: old) t (over_base _ _ _ _ _ Hov)) by left.
    destruct (header_lookup (top ++ t :: old) t (ov_ok _ _ _ _ _ Hov)) as (H1 & _ & H2); [set_solver|]. rewrite H2. cbn. exact H1. }
  erewrite (bind_run _ _ db db) by (unfold db_read; by rewrite Hf). destruct (rewind_to_height_Ok _ _ _ _ _ _ Hov Hg) as (db' & ? & ? & _). by exists db'.
Qed.

(** ** Steps forward *)

Lemma over_add M gone old top b db : over M gone old top db -> old <> [] -> follows (top ++ old) b -> M !! cb_hash b = Some (cb_block b) -> Z.of_nat (length (b :: top ++ old)) <= U64_MAX ->
  exists ops db', insert_best_block b = Ok ops /\ db_write manager (DeleteOrphan (cb_hash b) :: ops) db = Ok db' /\ over M gone old (b :: top) db'.
Proof.
  intros [Hh Hok Hp Hk] Hne Hf Hm Hsz. destruct (write_best_block manager db (top ++ old) b) as (ops & db' & H1 & H2 & H3 & H4); try done.
  - by destruct top.
  - intros blk. rewrite Hp. unfold without. rewrite map_lookup_filter_Some. intros [? _]. congruence.
  - exists ops, db'. split; [done|]. split; [done|]. split; [done|done| |by constructor]. rewrite H4, Hp. apply without_delete. cbn [map app]. set_solver.
Qed.

Lemma restore_writes M gone old l : old <> [] -> forall db, over M gone old [] db -> blocks_ok (l ++ old) -> Forall (fun b => M !! cb_hash b = Some (cb_block b)) l -> Z.of_nat (length (l ++ old)) <= U64_MAX ->
  exists txns db', mapM (fun block => ops ← insert_best_block block; Ok (DeleteOrphan (cb_hash block) :: ops)) (rev l) = Ok txns /\ db_write manager (concat txns) db = Ok db' /\ over M gone old l db'.
Proof.
  intros Hne db Hov. induction l as [|b l IH]; intros Hok Hk Hsz; [exists [], db; split_and!; done|].
  destruct Hok as [Hf Hok]. apply Forall_cons in Hk as [Hb Hk]. cbn [app length] in Hsz. destruct IH as (txns & db1 & Hm & Hw & Hov1); [done|done|lia|].
  destruct (over_add _ _ _ _ _ _ Hov1 Hne Hf Hb) as (ops & db' & Hi & Hw' & Hov'); [cbn [length]; lia|].
  exists (txns ++ [DeleteOrphan (cb_hash b) :: ops]), db'. split; [|split; [|done]].
  - cbn [rev]. apply mapM_app_Ok; [done|]. cbn. by rewrite Hi.
  - rewrite concat_app. cbn [concat]. rewrite app_nil_r. unfold db_write in *. by rewrite foldM_app, Hw.
Qed.

Lemma restore_Ok M gone t old top prev db : over M gone (t :: old) top db -> Forall (fun b => cb_hash b ∉ gone) top ->
  blocks_ok (prev ++ t :: old) -> Forall (fun b => M !! cb_hash b = Some (cb_block b)) prev -> Z.of_nat (length (prev ++ t :: old)) <= U64_MAX ->
  exists db', restore_reorged_chain manager (cb_hash t) prev db = (db', Ok tt) /\ over M gone (t :: old) prev db'.
Proof.
  intros Hov Hg Hok Hk Hsz. unfold restore_reorged_chain. destruct (rewind_to_hash_Ok _ _ _ _ _ _ Hov Hg) as (db1 & Hr & Hov1). rewrite (bind_run _ _ _ _ _ Hr).
  destruct (restore_writes M gone (t :: old) prev ltac:(done) db1 Hov1 Hok Hk Hsz) as (txns & db2 & Hm & Hw & Hov2). exists db2. split; [|done].
  rewrite (bind_run _ _ db1 db1 txns) by (unfold db_lift; by rewrite Hm). by apply write_run.
Qed.

(** An invalid block leaves the pool: its parent is in the chain. *)
Lemma remove_orphan_Ok M old top x db : over M [] old top db -> M !! cb_hash x = Some (cb_block x) -> (exists p bs, top ++ old = p :: bs /\ bh_prev_hash (cb_header x) = cb_hash p) ->
  exists db', remove_orphan manager (cb_hash x) db = (db', Ok tt) /\ over M [cb_hash x] old top db'.
Proof.
  intros [Hh Hok Hp Hk] Hx (p & bs & Heq & Hprev). destruct (delete_orphan_holds manager db (top ++ old) (cb_hash x) Hh) as (db' & Hd & Hh' & Ho').
  - intros blk. rewrite Hp at 1. unfold without. rewrite map_lookup_filter_Some. intros [Hb _]. assert (blk = cb_block x) as -> by congruence. change (block_header (cb_block x)) with (cb_header x). rewrite Hprev.
    apply (ho_disjoint _ _ Hh). rewrite Heq. left.
  - exists db'. split; [apply write_run; unfold db_write; cbn [foldM]; by rewrite Hd|]. split; [done|done| |done]. rewrite Ho', Hp. apply without_delete. set_solver.
Qed.

Lemma validator_sound_cons `{!Validators} bs x chain : validator_sound bs (x :: chain) -> validator_sound bs [x] /\ validator_sound (x :: bs) chain.
Proof.
  intros Hs. split.
  - intros added y rest db Heq. destruct added as [|? [|]]; [|done|done]. injection Heq as -> <-. by apply (Hs [] y chain db).
  - intros added y rest db -> Hh Hok. specialize (Hs (x :: added) y rest db eq_refl). cbn [rev] in Hs. rewrite <- app_assoc in Hs. by apply Hs.
Qed.

Lemma bind_fail {A A'} (m : dbM A) (k : A -> dbM A') db db1 e : m db = (db1, Err e) -> (m ≫= k) db = (db1, Err e).
Proof. intros H. unfold mbind, dbM_bind. by rewrite H. Qed.

Section Candidates.
Context `{!Validators} (M : gmap bytes Block) (t : ChainBlock) (old prev : list ChainBlock).
Hypothesis prev_ok : blocks_ok (prev ++ t :: old).
Hypothesis prev_known : Forall (fun b => M !! cb_hash b = Some (cb_block b)) prev.
Hypothesis prev_size : Z.of_nat (length (prev ++ t :: old)) <= U64_MAX.

(** The previous chain is back; the pool lost at most the block that was found invalid. *)
Definition restored (x : ChainBlock) db : Prop := over M [] (t :: old) prev db \/ over M [cb_hash x] (t :: old) prev db.

Lemma add_fork_block_cases top x db : over M [] (t :: old) top db -> M !! cb_hash x = Some (cb_block x) -> cb_hash x ∉ map cb_hash top ->
  (exists p bs, top ++ t :: old = p :: bs /\ bh_prev_hash (cb_header x) = cb_hash p) -> Z.of_nat (length (x :: top ++ t :: old)) <= U64_MAX -> validator_sound (top ++ t :: old) [x] ->
  exists db', (add_fork_block manager (cb_hash t) prev x db = (db', Ok tt) /\ over M [] (t :: old) (x :: top) db') \/
    (exists e, add_fork_block manager (cb_hash t) prev x db = (db', Err e) /\ restored x db').
Proof.
  intros Hov Hx Hnew Hp Hsz Hs.
  assert (orphans_db (orphans db) !! cb_hash x = Some (cb_block x)) as Hpool by (rewrite (ov_pool _ _ _ _ _ Hov), app_nil_r; by apply map_lookup_filter_Some).
  specialize (Hs [] x [] db eq_refl (ov_holds _ _ _ _ _ Hov) (ov_ok _ _ _ _ _ Hov) Hpool). unfold add_fork_block. rewrite (bind_run _ _ db db (md_tip (metadata db))) by done.
  destruct (validate_body_with_metadata db x (md_tip (metadata db))) as [[]|e|] eqn:Hv; [| |done].
  - rewrite (bind_run _ _ db db (Ok tt)) by (unfold db_try, db_read; by rewrite Hv). destruct Hs as [Hseed Hs].
    assert (exists ops, insert_best_block x = Ok ops) as [ops Hops]. { unfold insert_best_block. destruct (bh_pow_algo (cb_header x)); [|by eexists]. destruct (Hseed eq_refl) as [key ->]. by eexists. }
    rewrite (bind_run _ _ db db ops) by (unfold db_lift; by rewrite Hops). specialize (Hs ops Hops). destruct (db_write manager (DeleteOrphan (cb_hash x) :: ops) db) as [db1|e|] eqn:Hw; [| |done].
    + destruct (over_add M [] (t :: old) top x db Hov ltac:(done) Hs Hx Hsz) as (ops' & db' & Hops' & Hw' & Hov'). assert (ops' = ops) as -> by congruence.
      exists db'. left. split; [|done]. rewrite (bind_run _ _ db db' (Ok tt)) by (unfold db_try, write; by rewrite Hw'). done.
    + rewrite (bind_run _ _ db db (Err e)) by (unfold db_try, write; by rewrite Hw). destruct (restore_Ok M [] t old top prev db Hov) as (db' & Hr & Hov'); [apply Forall_true; set_solver|done|done|done|].
      exists db'. right. exists e. split; [|by left]. by rewrite (bind_run _ _ _ _ _ Hr).
  - rewrite (bind_run _ _ db db (Err e)) by (unfold db_try, db_read; by rewrite Hv). destruct (remove_orphan_Ok M (t :: old) top x db Hov Hx Hp) as (db1 & Hd & Hov1). rewrite (bind_run _ _ _ _ _ Hd).
    destruct (restore_Ok M [cb_hash x] t old top prev db1 Hov1) as (db' & Hr & Hov'); try done.
    { apply Forall_forall. intros b Hb Hin%list_elem_of_singleton. apply Hnew. rewrite <- Hin. by apply (list_elem_of_fmap_2 cb_hash). }
    exists db'. right. exists e. split; [|by right]. by rewrite (bind_run _ _ _ _ _ Hr).
Qed.

Lemma candidates_cases chain : forall top db, over M [] (t :: old) top db -> linked (default zero_hash (cb_hash <$> head (top ++ t :: old))) chain ->
  Forall (fun b => M !! cb_hash b = Some (cb_block b)) chain -> NoDup (map cb_hash (rev top ++ chain)) -> Z.of_nat (length (chain ++ top ++ t :: old)) <= U64_MAX -> validator_sound (top ++ t :: old) chain ->
  exists db', (db_for (fun _ block => add_fork_block manager (cb_hash t) prev block) chain tt db = (db', Ok tt) /\ over M [] (t :: old) (rev chain ++ top) db') \/
    (exists e x, x ∈ chain /\ db_for (fun _ block => add_fork_block manager (cb_hash t) prev block) chain tt db = (db', Err e) /\ restored x db').
Proof.
  induction chain as [|x chain IH]; intros top db Hov Hl Hk Hnd Hsz Hs; [exists db; by left|]. cbn [linked] in Hl. destruct Hl as [Hprev Hl]. apply Forall_cons in Hk as [Hx Hk].
  apply validator_sound_cons in Hs as [Hsx Hs]. cbn [db_for]. destruct (add_fork_block_cases top x db Hov Hx) as (db1 & [[Ha Hov1]|(e & Ha & Hr)]).
  - intros (b & Heq & Hin)%elem_of_map. rewrite map_app in Hnd. apply NoDup_app in Hnd as (_ & Hnd & _). apply (Hnd (cb_hash x)); [|left]. rewrite Heq. apply (list_elem_of_fmap_2 cb_hash). by rewrite <- Permutation_rev.
  - destruct (top ++ t :: old) as [|p bs] eqn:Heq; [by destruct top|]. by exists p, bs.
  - cbn [length app] in Hsz |- *. rewrite length_app in Hsz. lia.
  - done.
  - destruct (IH (x :: top) db1) as (db' & Hc); try done.
    + cbn [rev]. by rewrite <- app_assoc.
    + cbn [length app] in Hsz |- *. rewrite length_app in Hsz |- *. cbn [length]. lia.
    + exists db'. rewrite (bind_run _ _ _ _ _ Ha). cbn [rev]. rewrite <- app_assoc. destruct Hc as [Hc|(e & y & Hin & Hc)]; [by left|]. right. exists e, y. split; [by right|done].
  - exists db1. right. exists e, x. split; [left|]. split; [by apply bind_fail|done].
Qed.

End Candidates.

(** ** Reorganisations *)

(** The pool together with removed blocks. *)
Definition with_blocks (l : list ChainBlock) (m : gmap bytes Block) : gmap bytes Block := foldr (fun b m => <[cb_hash b := cb_block b]> m) m l.

Lemma with_blocks_old l m h : h ∉ map cb_hash l -> with_blocks l m !! h = m !! h.
Proof. induction l as [|b l IH]; [done|]. cbn. intros Hn. rewrite lookup_insert_ne by set_solver. apply IH. set_solver. Qed.

Lemma with_blocks_new l m : NoDup (map cb_hash l) -> Forall (fun b => with_blocks l m !! cb_hash b = Some (cb_block b)) l.
Proof.
  induction l as [|b l IH]; [done|]. cbn. intros [Hn Hnd]%NoDup_cons. constructor; [by rewrite lookup_insert_eq|]. specialize (IH Hnd). apply Forall_forall. intros b' Hb'. rewrite lookup_insert_ne.
  - by apply (proj1 (Forall_forall _ _) IH).
  - intros Heq. apply Hn. rewrite Heq. by apply (list_elem_of_fmap_2 cb_hash).
Qed.

Lemma without_blocks l m : (forall b, b ∈ l -> m !! cb_hash b = None) -> without (map cb_hash l) (with_blocks l m) = m.
Proof.
  intros Hn. apply map_eq. intros h. unfold without. rewrite map_lookup_filter. destruct (decide (h ∈ map cb_hash l)) as [Hin|Hout].
  - apply elem_of_map in Hin as (b & -> & Hb). rewrite (Hn b Hb). destruct (with_blocks l m !! cb_hash b); [|done]. cbn. rewrite option_guard_False; [done|]. intros Hf. apply Hf. by apply (list_elem_of_fmap_2 cb_hash).
  - rewrite with_blocks_old by done. destruct (m !! h); [|done]. cbn. by rewrite option_guard_True.
Qed.

Lemma block_hashes_distinct top old : blocks_ok (top ++ old) -> NoDup (map cb_hash top).
Proof.
  induction top as [|b top IH]; [constructor|]. intros [Hf Hok]. cbn. constructor; [|by apply IH]. intros (b' & Heq & Hin)%elem_of_map. apply (block_hash_new _ _ Hf Hok).
  assert (b' ∈ top ++ old) as Hin' by set_solver. replace (bh_hash (cb_header b)) with (cb_hash b) by apply Hf. rewrite Heq, (block_hash_eq _ b' Hok Hin').
  by apply (list_elem_of_fmap_2 (fun b => bh_hash (cb_header b))).
Qed.

(** The cases of a reorganisation. *)
Lemma reorganize_cases `{!Validators} db t old prev chain : holds db (prev ++ t :: old) -> blocks_ok (prev ++ t :: old) -> linked (cb_hash t) chain ->
  Forall (fun b => orphans_db (orphans db) !! cb_hash b = Some (cb_block b)) chain -> NoDup (map cb_hash chain) -> Z.of_nat (length (chain ++ t :: old)) <= U64_MAX -> validator_sound (t :: old) chain ->
  exists db', (reorganize_chain manager (cb_hash t) chain db = (db', Ok prev) /\ holds db' (rev chain ++ t :: old) /\ blocks_ok (rev chain ++ t :: old) /\
      orphans_db (orphans db') = without (map cb_hash chain) (with_blocks prev (orphans_db (orphans db)))) \/
    (exists e x, x ∈ chain /\ reorganize_chain manager (cb_hash t) chain db = (db', Err e) /\ holds db' (prev ++ t :: old) /\
      (orphans_db (orphans db') = orphans_db (orphans db) \/ orphans_db (orphans db') = delete (cb_hash x) (orphans_db (orphans db)))).
Proof.
  intros Hh Hok Hl Hc Hnd Hsz Hs. set (M := with_blocks prev (orphans_db (orphans db))). pose proof (block_hashes_distinct _ _ Hok) as Hdist.
  assert (forall b, b ∈ prev -> orphans_db (orphans db) !! cb_hash b = None) as Hdis by (intros b Hb; apply (ho_disjoint _ _ Hh); set_solver).
  assert (without (map cb_hash prev) M = orphans_db (orphans db)) as HM by by apply without_blocks.
  assert (over M [] (t :: old) prev db) as Hov by (split; [done|done|by rewrite app_nil_r|by apply with_blocks_new]).
  assert (Forall (fun b => M !! cb_hash b = Some (cb_block b)) chain) as HcM.
  { apply Forall_forall. intros b Hb. pose proof (proj1 (Forall_forall _ _) Hc b Hb) as Hb'. rewrite <- HM in Hb'. unfold without in Hb'. by apply map_lookup_filter_Some in Hb' as [? _]. }
  unfold reorganize_chain. destruct (rewind_to_hash_Ok M [] t old prev db Hov) as (db1 & Hr & Hov1); [apply Forall_true; set_solver|]. rewrite (bind_run _ _ _ _ _ Hr).
  destruct (candidates_cases M t old prev Hok (ov_known _ _ _ _ _ Hov) (ho_size _ _ Hh) chain [] db1 Hov1) as (db' & [[Hf Hov']|(e & x & Hin & Hf & Hre)]); try done.
  - exists db'. left. rewrite (bind_run _ _ _ _ _ Hf). rewrite app_nil_r in Hov'. destruct Hov' as [H1 H2 H3 _]. split_and!; try done.
    rewrite H3, app_nil_r. unfold without. apply map_filter_ext. intros h blk _. cbn. rewrite map_rev. by rewrite <- (Permutation_rev (map cb_hash chain)).
  - exists db'. right. exists e, x. split; [done|]. split; [by apply bind_fail|]. destruct Hre as [[H1 _ H3 _]|[H1 _ H3 _]]; (split; [done|]).
    + left. by rewrite H3, app_nil_r.
    + right. rewrite H3, <- HM. symmetry. apply without_delete. set_solver.
Qed.

(** ** The chain of a candidate tip *)

Lemma fetch_orphan_chain_block_Some db h b : pool_ok (orphans db) -> fetch_orphan_chain_block h db = Ok (Some b) -> cb_hash b = h /\ orphans_db (orphans db) !! h = Some (cb_block b).
Proof.
  intros Hp. unfold fetch_orphan_chain_block. destruct (orphans_db (orphans db) !! h) as [blk|] eqn:Hb; [|done]. destruct (orphan_header_accumulated_data_db (orphans db) !! h) as [d|] eqn:Hd; [|done].
  unfold block_try_construct. case_bool_decide; [|done]. cbn. intros [= <-]. split; [|done]. by destruct (po_data _ Hp _ _ Hd).
Qed.

Lemma fetch_orphan_chain_block_returns db h : no_panic (fetch_orphan_chain_block h db).
Proof. unfold fetch_orphan_chain_block. repeat case_match; try done. apply bind_no_panic; [apply ok_or_no_panic|done]. Qed.

(** The blocks from a parent in the main chain to the tip. *)
Lemma orphan_link_Ok fuel db h chain r : pool_ok (orphans db) -> linked h chain -> Forall (fun b => orphans_db (orphans db) !! cb_hash b = Some (cb_block b)) chain ->
  orphan_link fuel db h chain = Ok r ->
  (exists p, linked p r /\ is_Some (block_hashes_db (header_tables (lmdb db)) !! p)) /\ Forall (fun b => orphans_db (orphans db) !! cb_hash b = Some (cb_block b)) r /\
  (exists b, last r = Some b /\ cb_hash b = default h (cb_hash <$> last chain)) /\ (length r <= fuel + length chain)%nat.
Proof.
  intros Hp. revert h chain. induction fuel as [|fuel IH]; intros h chain Hl Hc; [done|]. cbn [orphan_link]. intros (found & Hfetch & (b & Hb & Hr)%bind_Ok_iff)%bind_Ok_iff.
  destruct found as [b'|]; [|done]. injection Hb as ->. destruct (fetch_orphan_chain_block_Some db h b Hp Hfetch) as [Hh Hin]. rewrite <- Hh in Hin.
  assert (Forall (fun b => orphans_db (orphans db) !! cb_hash b = Some (cb_block b)) (b :: chain)) as Hc' by by constructor.
  assert (linked (bh_prev_hash (cb_header b)) (b :: chain)) as Hl' by (split; [done|by rewrite Hh]).
  assert (forall d, cb_hash <$> last (b :: chain) = Some (default h (cb_hash <$> last chain)) /\ default d (cb_hash <$> last (b :: chain)) = default h (cb_hash <$> last chain)) as Hlast.
  { intros d. rewrite last_cons. destruct (last chain); cbn; [done|by rewrite Hh]. }
  destruct (block_hashes_db (header_tables (lmdb db)) !! bh_prev_hash (cb_header b)) eqn:Hbh.
  - injection Hr as <-. split_and!; [by eexists|done| |cbn [length]; lia]. destruct (Hlast h) as [Hs _]. destruct (last (b :: chain)) as [y|] eqn:Hy; [|done]. exists y. split; [done|]. by injection Hs.
  - destruct (IH _ _ Hl' Hc' Hr) as (H1 & H2 & (y & Hy & Hhy) & H4). split_and!; [done|done| |cbn [length] in H4; lia]. exists y. split; [done|]. rewrite Hhy. by apply Hlast.
Qed.

(** Headers are validated before they are linked: an orphan that has accumulated data is one above its parent. *)
Definition pool_heights (o : OrphanTables) : Prop := forall h blk p, orphans_db o !! h = Some blk -> is_Some (orphan_header_accumulated_data_db o !! h) ->
  orphans_db o !! bh_prev_hash (block_header blk) = Some p -> is_Some (orphan_header_accumulated_data_db o !! bh_prev_hash (block_header blk)) ->
  bh_height (block_header p) + 1 = bh_height (block_header blk).

Definition linked_orphan (o : OrphanTables) b : Prop := orphans_db o !! cb_hash b = Some (cb_block b) /\ is_Some (orphan_header_accumulated_data_db o !! cb_hash b).

Lemma orphans_length (m : gmap bytes Block) chain : Forall (fun b => m !! cb_hash b = Some (cb_block b)) chain -> NoDup (map cb_hash chain) -> (length chain <= size m)%nat.
Proof.
  intros Hc Hnd. rewrite <- (length_map cb_hash), <- (size_list_to_set (C := gset bytes)) by done. rewrite <- size_dom. apply subseteq_size. intros h. rewrite elem_of_list_to_set, elem_of_dom.
  intros (b & -> & Hin)%elem_of_map. rewrite Forall_forall in Hc. rewrite (Hc b Hin). by eexists.
Qed.

Lemma rising_distinct (m : gmap bytes Block) chain : Forall (fun b => m !! cb_hash b = Some (cb_block b)) chain -> StronglySorted (fun b b' => bh_height (cb_header b) < bh_height (cb_header b')) chain -> NoDup (map cb_hash chain).
Proof.
  intros Hc Hs. induction Hs as [|b l Hs IH Hb]; [constructor|]. apply Forall_cons in Hc as [Hcb Hc]. cbn. constructor; [|by apply IH]. intros (b' & Heq & Hin)%elem_of_map.
  rewrite Forall_forall in Hb. specialize (Hb b' Hin). rewrite Forall_forall in Hc. pose proof (Hc b' Hin) as Hcb'. cbn in Hcb'. rewrite <- Heq, Hcb in Hcb'. injection Hcb' as Hcb'. unfold cb_header in Hb. rewrite Hcb' in Hb. lia.
Qed.

(** The walk to the main chain comes to an end. *)
Lemma orphan_link_terminates fuel db h chain : pool_ok (orphans db) -> pool_heights (orphans db) -> Forall (linked_orphan (orphans db)) chain -> StronglySorted (fun b b' => bh_height (cb_header b) < bh_height (cb_header b')) chain ->
  match chain with b :: _ => bh_prev_hash (cb_header b) = h | [] => True end -> (size (orphans_db (orphans db)) < fuel + length chain)%nat ->
  orphan_link fuel db h chain <> Err NotTerminating.
Proof.
  intros Hp Hph. revert h chain. induction fuel as [|fuel IH]; intros h chain Hc Hs Hh Hf.
  { assert (Forall (fun b => orphans_db (orphans db) !! cb_hash b = Some (cb_block b)) chain) as Hk by (eapply Forall_impl; [exact Hc|by intros ? []]). pose proof (orphans_length _ _ Hk (rising_distinct _ _ Hk Hs)). cbn in Hf. lia. }
  cbn [orphan_link].
  destruct (fetch_orphan_chain_block h db) as [[b|]|e|] eqn:Hb; cbn [mbind result_bind ok_or]; [|done| |done].
  - destruct (fetch_orphan_chain_block_Some db h b Hp Hb) as [Hbh Hin]. assert (is_Some (orphan_header_accumulated_data_db (orphans db) !! h)) as Hd.
    { unfold fetch_orphan_chain_block in Hb. rewrite Hin in Hb. by destruct (orphan_header_accumulated_data_db (orphans db) !! h). }
    destruct (block_hashes_db (header_tables (lmdb db)) !! bh_prev_hash (cb_header b)); [done|]. apply IH; [constructor; [split; by rewrite Hbh|done]| |done|cbn [length]; lia]. constructor; [done|]. destruct chain as [|b1 chain]; [done|].
    apply Forall_cons in Hc as [[H1 H2] _]. pose proof (Hph _ _ (cb_block b) H1 H2) as Hlt. change (bh_prev_hash (block_header (cb_block b1))) with (bh_prev_hash (cb_header b1)) in Hlt. rewrite Hh in Hlt. specialize (Hlt Hin Hd).
    fold (cb_header b) in Hlt. fold (cb_header b1) in Hlt. apply StronglySorted_inv in Hs as [_ Hs]. constructor; [lia|]. eapply Forall_impl; [exact Hs|]. cbn. lia.
  - intros [= ->]. unfold fetch_orphan_chain_block in Hb. destruct (orphans_db (orphans db) !! h); [|done]. destruct (orphan_header_accumulated_data_db (orphans db) !! h); [|done].
    unfold block_try_construct in Hb. by case_bool_decide.
Qed.

Lemma orphan_link_returns fuel db h chain : no_panic (orphan_link fuel db h chain).
Proof.
  revert h chain. induction fuel as [|fuel IH]; intros h chain; [done|]. cbn [orphan_link]. apply bind_no_panic; [apply fetch_orphan_chain_block_returns|]. intros found _.
  apply bind_no_panic; [apply ok_or_no_panic|]. intros b _. by case_match.
Qed.

Lemma linked_lookup parent chain i x : linked parent chain -> chain !! i = Some x ->
  match i with O => bh_prev_hash (cb_header x) = parent | S i => exists w, chain !! i = Some w /\ bh_prev_hash (cb_header x) = cb_hash w end.
Proof.
  revert parent i. induction chain as [|b chain IH]; intros parent i Hl Hx; [done|]. destruct Hl as [Hb Hl]. destruct i as [|i]; cbn in Hx; [by injection Hx as <-|].
  specialize (IH _ i Hl Hx). destruct i as [|i]; [by exists b|]. destruct IH as (w & ? & ?). by exists w.
Qed.

(** A chain of orphans does not come back to itself: going back from a repeated block would reach a parent that is not an
    orphan. *)
Lemma linked_distinct (m : gmap bytes Block) parent chain : linked parent chain -> m !! parent = None -> Forall (fun b => m !! cb_hash b = Some (cb_block b)) chain -> NoDup (map cb_hash chain).
Proof.
  intros Hl Hp Hc. assert (forall i j x y, (i < j)%nat -> chain !! i = Some x -> chain !! j = Some y -> cb_hash x <> cb_hash y) as Hne.
  { induction i as [|i IH]; intros [|j] x y Hij Hx Hy Heq; [lia| |lia|].
    - pose proof (linked_lookup _ _ _ _ Hl Hx) as H1. pose proof (linked_lookup _ _ _ _ Hl Hy) as (w & Hw & H2). cbn in H1.
      pose proof (Forall_lookup_1 _ _ _ _ Hc Hx) as Hcx. pose proof (Forall_lookup_1 _ _ _ _ Hc Hy) as Hcy. pose proof (Forall_lookup_1 _ _ _ _ Hc Hw) as Hcw. cbn in Hcx, Hcy, Hcw.
      rewrite Heq, Hcy in Hcx. injection Hcx as Hcx. unfold cb_header in H1, H2. rewrite Hcx in H2. congruence.
    - pose proof (linked_lookup _ _ _ _ Hl Hx) as (v & Hv & H1). pose proof (linked_lookup _ _ _ _ Hl Hy) as (w & Hw & H2).
      pose proof (Forall_lookup_1 _ _ _ _ Hc Hx) as Hcx. pose proof (Forall_lookup_1 _ _ _ _ Hc Hy) as Hcy. cbn in Hcx, Hcy.
      rewrite Heq, Hcy in Hcx. injection Hcx as Hcx. unfold cb_header in H1, H2. rewrite Hcx in H2. apply (IH j v w); [lia|done|done|congruence]. }
  apply NoDup_alt. intros i j h Hi Hj. apply list_lookup_fmap_Some in Hi as (x & -> & Hx). apply list_lookup_fmap_Some in Hj as (y & Hxy & Hy).
  destruct (Nat.lt_trichotomy i j) as [Hlt|[Heq|Hlt]]; [|done|]; exfalso; [by eapply (Hne i j x y)|by eapply (Hne j i y x)].
Qed.

(** ** The strongest candidate *)

Definition strength_of (h : LinkedHeader) : list Z := strength (to_chain_header h).

Lemma lex_refl l : lex l l = Eq.
Proof. induction l as [|x l IH]; [done|]. cbn. by rewrite Z.compare_refl. Qed.

Definition strongest_in (best : option LinkedHeader) (tips : list LinkedHeader) : Prop :=
  match best with
  | Some best => best ∈ tips /\ forall tip, tip ∈ tips -> lex (strength_of best) (strength_of tip) <> Lt
  | None => tips = []
  end.

Lemma find_strongest_spec (cmp : Comparer) tips : (forall x y, cmp x y = lex (strength x) (strength y)) -> strongest_in (find_strongest_orphan_tip cmp tips) tips.
Proof.
  intros Hcmp. unfold find_strongest_orphan_tip. set (f := fun best tip => _). change (strongest_in (fold_left f tips None) ([] ++ tips)).
  assert (strongest_in None []) as H0 by done. revert H0. generalize (@None LinkedHeader) as acc, (@nil LinkedHeader) as seen.
  induction tips as [|x tips IH]; intros acc seen Hacc; cbn [fold_left]; [by rewrite app_nil_r|]. rewrite (cons_middle x), app_assoc. apply IH. subst f. cbn beta.
  destruct acc as [c|]; cbn [strongest_in] in Hacc; [|subst seen; cbn [strongest_in app]; split; [left|]; intros tip ->%list_elem_of_singleton; by rewrite lex_refl].
  destruct Hacc as [Hin Hmax]. rewrite Hcmp. change (strength (to_chain_header ?h)) with (strength_of h). destruct (lex (strength_of c) (strength_of x)) eqn:Hc; cbn [strongest_in]; (split; [set_solver|]);
    intros tip [Ht| ->%list_elem_of_singleton]%elem_of_app; try (rewrite ?Hc, ?lex_refl; done); try by apply Hmax.
  intros Hlt. apply (Hmax tip Ht). by apply (lex_trans _ (strength_of x)); [..|rewrite Hlt].
Qed.

Lemma fetch_tips_returns db : no_panic (fetch_all_orphan_chain_tips db).
Proof.
  unfold fetch_all_orphan_chain_tips. apply mapM_no_panic, Forall_forall. intros h _. unfold fetch_orphan_tip, or_not_found. apply bind_no_panic; [apply ok_or_no_panic|]. intros ? _.
  apply bind_no_panic; [apply ok_or_no_panic|]. intros ? _. apply ok_or_no_panic.
Qed.

Lemma reorg_holds db bs r : holds db bs -> holds (insert_reorg r db) bs.
Proof. intros [? ? ? ? ? ? ?]. by split. Qed.

(** What swapping to the strongest chain ends with, for a database that held [bs]. *)
Inductive swap_outcome (db : Database) (bs : list ChainBlock) : Database -> stored_result BlockAddResult -> Prop :=
| swap_none tips tip rest : bs = tip :: rest -> fetch_all_orphan_chain_tips db = Ok tips ->
    (forall h, h ∈ tips -> lex (strength_of h) (strength_of {| lh_header := cb_header tip; lh_accumulated_data := cb_accumulated_data tip |}) <> Gt) ->
    swap_outcome db bs db (Ok OrphanBlock)
| swap_done tips tip rest best prev t old chain new_tip db' r : bs = tip :: rest -> fetch_all_orphan_chain_tips db = Ok tips -> best ∈ tips ->
    (forall h, h ∈ tips -> lex (strength_of best) (strength_of h) <> Lt) ->
    lex (strength_of best) (strength_of {| lh_header := cb_header tip; lh_accumulated_data := cb_accumulated_data tip |}) = Gt ->
    bs = prev ++ t :: old -> last chain = Some new_tip -> cb_hash new_tip = acc_hash (lh_accumulated_data best) ->
    holds db' (rev chain ++ t :: old) -> blocks_ok (rev chain ++ t :: old) ->
    r = match prev, chain with [], [b] => BlockAdded b | _, _ => ChainReorg chain prev end -> swap_outcome db bs db' (Ok r)
| swap_failed db' e : holds db' bs -> swap_outcome db bs db' (Err e).

Lemma tip_header_fetched db b bs : holds db (b :: bs) -> blocks_ok (b :: bs) -> fetch_tip_header db = Ok {| lh_header := cb_header b; lh_accumulated_data := cb_accumulated_data b |}.
Proof. intros Hh Hok. unfold fetch_tip_header. rewrite (ho_tip _ _ Hh). apply (fetch_chain_header_Ok db (b :: bs)); [done|done|left]. Qed.

Lemma rewind_to_tip db b bs : holds db (b :: bs) -> blocks_ok (b :: bs) -> rewind_to_height manager (bh_height (cb_header b)) db = (db, Ok []).
Proof.
  intros Hh Hok. destruct (rewind_to_height_Ok (orphans_db (orphans db)) [] b bs [] db) as (db' & Hr & _ & Heq); [split; try done|done|].
  - symmetry. unfold without. apply map_filter_id. intros h blk _. cbn. set_solver.
  - by rewrite (Heq eq_refl) in Hr.
Qed.

(** The chain of a candidate starts at a block of the main chain. *)
Lemma candidate_fork db bs h chain : holds db bs -> blocks_ok bs -> get_orphan_link_main_chain h db = Ok chain ->
  exists prev t old front new_tip, bs = prev ++ t :: old /\ linked (cb_hash t) chain /\ head chain = Some front /\ bh_prev_hash (cb_header front) = cb_hash t /\
    last chain = Some new_tip /\ cb_hash new_tip = h /\ Forall (fun b => orphans_db (orphans db) !! cb_hash b = Some (cb_block b)) chain /\ NoDup (map cb_hash chain) /\
    (length chain <= size (orphans_db (orphans db)))%nat.
Proof.
  intros Hh Hok Hc. unfold get_orphan_link_main_chain in Hc. destruct (orphan_link_Ok _ db h [] chain (ho_pool _ _ Hh) I ltac:(done) Hc) as ((p & Hl & [height Hp]) & Ho & (y & Hy & Hhy) & Hlen).
  rewrite (ho_headers _ _ Hh) in Hp. apply table_lookup_Some in Hp as (t & Ht & Hpt); [|by apply hashes_distinct_blocks]. injection Hpt as Hpt _. rewrite <- Permutation_rev in Ht.
  pose proof (block_hash_eq bs t Hok Ht) as Hth. assert (p = cb_hash t) as -> by congruence. pose proof Ht as (prev & old & Hbs)%list_elem_of_split.
  destruct chain as [|front chain]; [done|]. exists prev, t, old, front, y. assert (NoDup (map cb_hash (front :: chain))) as Hnd by (apply (linked_distinct (orphans_db (orphans db)) (cb_hash t)); [done|by apply (ho_disjoint _ _ Hh)|done]).
  split_and!; try done; [apply Hl|by apply orphans_length].
Qed.

Lemma swap_reorganizes `{!Validators} db tip rest tips best chain (track : bool) now : holds db (tip :: rest) -> blocks_ok (tip :: rest) ->
  Z.of_nat (length (tip :: rest) + size (orphans_db (orphans db))) <= U64_MAX -> fetch_all_orphan_chain_tips db = Ok tips -> best ∈ tips ->
  (forall h, h ∈ tips -> lex (strength_of best) (strength_of h) <> Lt) ->
  lex (strength_of best) (strength_of {| lh_header := cb_header tip; lh_accumulated_data := cb_accumulated_data tip |}) = Gt ->
  get_orphan_link_main_chain (acc_hash (lh_accumulated_data best)) db = Ok chain ->
  (forall prev t old, tip :: rest = prev ++ t :: old -> linked (cb_hash t) chain -> validator_sound (t :: old) chain) ->
  let '(db', r) := (front ← db_lift (expect (ok_or (head chain) InvalidOperation));
    removed_blocks ← reorganize_chain manager (bh_prev_hash (cb_header front)) chain;
    if (0 <? Z.of_nat (length removed_blocks)) || (1 <? Z.of_nat (length chain)) then
      _ ← (if track then _ ← db_try (write manager [InsertReorg (from_reorged_blocks now chain removed_blocks)]); mret tt else mret tt);
      mret (ChainReorg chain removed_blocks)
    else mret (BlockAdded front)) db in swap_outcome db (tip :: rest) db' r.
Proof.
  intros Hh Hok Hsz Htips Hin Hmax Hgt Hc Hs. destruct (candidate_fork _ _ _ _ Hh Hok Hc) as (prev & t & old & front & new_tip & Hbs & Hl & Hhd & Hfp & Hlast & Hnt & Ho & Hnd & Hlen).
  rewrite (bind_run _ _ db db front) by (unfold db_lift; by rewrite Hhd). rewrite Hfp. pose proof Hh as Hh0. pose proof Hok as Hok0. rewrite Hbs in Hh0, Hok0, Hsz.
  destruct (reorganize_cases db t old prev chain Hh0 Hok0 Hl Ho Hnd) as (db' & [(Hr & Hh' & Hok' & _)|(e & x & _ & Hr & Hh' & _)]).
  - rewrite length_app in Hsz |- *. lia.
  - by apply (Hs prev).
  - rewrite (bind_run _ _ _ _ _ Hr). destruct chain as [|b [|b' chain]]; [done| |].
    + injection Hhd as <-. destruct prev as [|y prev].
      * cbn. by eapply (swap_done _ _ tips tip rest best [] t old [b] new_tip).
      * cbn [length]. rewrite (proj2 (Z.ltb_lt _ _)) by lia. cbn [orb]. destruct track; cbn; by eapply (swap_done _ _ tips tip rest best (y :: prev) t old [b] new_tip); try apply reorg_holds.
    + cbn [length]. rewrite (proj2 (Z.ltb_lt 1 _)) by lia. rewrite orb_true_r. destruct track; cbn; eapply (swap_done _ _ tips tip rest best prev t old (b :: b' :: chain) new_tip); try apply reorg_holds; try done; by destruct prev.
  - rewrite (bind_fail _ _ _ _ _ Hr). apply swap_failed. by rewrite Hbs.
Qed.



End Atomic.
