(* ===== verification/ChainStored.v ===== *)
(** * Validated blocks are stored

    The validators read the tables of [ChainStorage]: a block that passes them, and that the exceptions of [storable]
    do not concern, can be added to the database. *)

From S2P Require Import Prelude ScriptTypes Opcodes ScriptStack TariScript ScriptEncoding Amounts Emission ConsensusConstants ConsensusManager MmrCommon.
From S2P Require Import Covenants TxComponents BlockHeader CovenantFilters CovenantSpec AggregatedBody BodyValidator ChainStorage ChainTables ChainStorageSpec ChainRewind.
From S2P Require Import BodyBalance OutputHash BodyValidatorSpec.

Local Open Scope Z_scope.

Section Stored.
Context {C : ScriptCrypto} {CL : ScriptCryptoLaws C} {B : BorshPrims C} {BL : BorshLaws B} {X : TxCrypto C} {L : TxLaws X} {XL : EncodingLaws X}.
Implicit Types (c : list (BlockHeader * TxBody)) (hd : BlockHeader) (b : TxBody).

(** ** Reading the tables *)

Lemma table_None_iff {A K V} `{Countable K} (kv : A -> K * V) l k : table_of kv l !! k = None <-> k ∉ map (fun r => (kv r).1) l.
Proof.
  unfold table_of. rewrite <- not_elem_of_list_to_map. change (map kv l).*1 with (fst <$> (kv <$> l)). rewrite <- list_fmap_compose. done.
Qed.

Section Backend.
Context (db : LMDBDatabase) (c : list (BlockHeader * TxBody)) (Hrep : represents db c) (Hc : chain_ok c).

Lemma unspent_lookup com h : fetch_unspent_output_hash_by_commitment (BlockchainBackend := backend_of db) com = Some (Some h) ->
  exists r, r ∈ unspent_rows c /\ or_hash r = h /\ row_commitment r = com_as_bytes com.
Proof.
  cbn. rewrite (rep_txos _ _ Hrep). cbn. intros [= Hl]. apply table_lookup_Some in Hl as (r & Hr & [= H1 H2]); [by exists r|]. by apply unspent_commitments_distinct.
Qed.

Lemma new_output_lookup o : new_output (db := backend_of db) o -> encodable o ->
  (hash_of o ∉ map or_hash (rows c)) /\ com_as_bytes (out_commitment o) ∉ map row_commitment (unspent_rows c).
Proof.
  intros (h & Hh & Hi & Hu) He. rewrite (hash_of_Ok o He) in Hh. injection Hh as <-. cbn in Hi, Hu. rewrite (rep_txos _ _ Hrep) in Hi, Hu. cbn in Hi, Hu.
  injection Hi as Hi. injection Hu as Hu. apply fmap_None in Hi. apply table_None_iff in Hi, Hu. done.
Qed.

Lemma new_kernel_lookup k : new_kernel (db := backend_of db) k -> excess_sig_key k ∉ map (fun r => (sig_entry r).1) (kernel_rows c).
Proof.
  unfold new_kernel. cbn. unfold fetch_kernel. rewrite (rep_kernels _ _ Hrep). cbn. intros [= Hl]. apply (table_None_iff sig_entry).
  fold (excess_sig_key k) in Hl. destruct (table_of sig_entry (kernel_rows c) !! excess_sig_key k) as [key|] eqn:Hk; [|done]. exfalso. pose proof (kernel_rows_distinct c Hc) as (_ & Hs & Hd).
  apply table_lookup_Some in Hk as (r & Hr & [= _ Hkey]); [|done]. cbn in Hl.
  assert (table_of kernel_entry (kernel_rows c) !! key = Some r) as Hrow; [|by rewrite Hrow in Hl]. apply table_lookup_Some; [done|]. exists r. split; [done|]. by unfold kernel_entry; rewrite Hkey.
Qed.

End Backend.

(** ** Blocks that can be stored *)

(** What the validators do not check: the excesses of the kernels are pairwise different and new, no input spends a
    burned output of the block, nothing is registered, and the ranges are not full. *)
Record storable c b : Prop := {
  st_excess : NoDup (map k_excess (kernels b));
  st_excess_new : Forall (fun k => com_as_bytes (k_excess k) ∉ map (fun r => (excess_entry r).1) (kernel_rows c)) (kernels b);
  st_plain : Forall (fun o => validator_node_registration (out_features o) = None /\ template_registration (out_features o) = None) (outputs b);
  st_not_burned : Forall (fun i => Forall (fun o => hash_of o = input_hash_of i -> output_is_burned o = false) (outputs b)) (inputs b);
  st_size : Z.of_nat (length (rows c) + length (outputs b)) <= U32_MAX;
  st_kernel_size : mmr_size (Z.of_nat (length (kernel_rows c) + length (kernels b))) - 1 <= U32_MAX;
}.

(** Two different outputs, of the block, its inputs or the chain, with the same digest. *)
Definition collision_at_hand c b : Prop := exists o1 o2,
  (o1 ∈ outputs b \/ exists i, i ∈ inputs b /\ as_output i = Some o1) /\ (o2 ∈ outputs b \/ exists r, r ∈ unspent_rows c /\ or_output r = Some o2) /\
  hash_collision o1 o2.

Definition outputs_wf c b : Prop := Forall output_ok (outputs b) /\ Forall (fun i => forall o, as_output i = Some o -> output_ok o) (inputs b) /\
  Forall (fun r => forall o, or_output r = Some o -> output_ok o) (rows c).

Lemma Forall_or {A} (P : A -> Prop) (Q : Prop) l : Forall (fun x => P x \/ Q) l -> Forall P l \/ Q.
Proof. induction 1 as [|x l [Hx|Hq] _ [IH|Hq']]; auto. Qed.

Lemma input_hash_Ok i o : as_output i = Some o -> encodable o -> input_hash_of i = hash_of o /\ @input_output_hash _ _ _ ChainStorageError i = Ok (input_hash_of i).
Proof.
  intros Ho He. unfold input_hash_of. destruct (@as_output_hash _ _ _ ChainStorageError i o Ho) as [-> _]. by rewrite (hash_of_Ok o He).
Qed.

Lemma same_contents_data i o o' : as_output i = Some o -> same_contents o o' -> spent_output i = data_of o'.
Proof.
  unfold as_output. destruct (spent_output i) as [|v f cm sc k cov e m]; [done|]. intros [= <-] (H1 & H2 & H3 & H4 & H5 & H6 & H7 & H8). cbn in *. unfold data_of. congruence.
Qed.

(** An input the chain knows spends an output as the storage requires. *)
Lemma known_input_stored db c b i com : represents db c -> chain_ok c -> storable c b -> outputs_wf c b -> i ∈ inputs b ->
  known_input (db := backend_of db) b i -> in_commitment i = Ok com -> spends c b i \/ collision_at_hand c b.
Proof.
  intros Hrep Hc Hst (Wo & Wi & Wr) Hi (h & Hh & Hk) Hcom. destruct (in_commitment_as_output i com Hcom) as (o & Ho & Hoc). rewrite Forall_forall in Wo. rewrite Forall_forall in Wi. rewrite Forall_forall in Wr.
  pose proof (Wi i Hi o Ho) as Hok. destruct (input_hash_Ok i o Ho (output_ok_encodable o Hok)) as [Hih _].
  assert (h = hash_of o) as -> by (rewrite (proj1 (@as_output_hash _ _ _ ValidationError i o Ho)), (hash_of_Ok o (output_ok_encodable o Hok)) in Hh; congruence).
  pose proof (@hash_of_Ok _ _ _ ChainStorageError o (output_ok_encodable o Hok)) as Hho.
  destruct Hk as [(com' & Hcom' & Hl)|(o' & Hin & Ho')].
  - rewrite Hcom in Hcom'. injection Hcom' as <-. destruct (unspent_lookup db c Hrep Hc com _ Hl) as (r & Hr & Hrh & Hrc).
    destruct (rows_output c r Hc (unspent_in_rows c r Hr)) as (o' & Hro & Hh' & He'). pose proof (@hash_of_Ok _ _ _ ChainStorageError o' He') as Hho'. rewrite <- Hh', Hrh in Hho'.
    destruct (output_hash_binds o o' _ Hok (Wr r (unspent_in_rows c r Hr) o' Hro) Hho Hho') as [Hs|Hcoll].
    + left. exists o'. split; [by apply (same_contents_data i o)|left; by exists r].
    + right. exists o, o'. split_and!; [right; by exists i|right; by exists r|done].
  - pose proof (Wo o' Hin) as Hok'. rewrite (hash_of_Ok o' (output_ok_encodable o' Hok')) in Ho'. injection Ho' as Heq.
    pose proof (@hash_of_Ok _ _ _ ChainStorageError o' (output_ok_encodable o' Hok')) as Hho'. rewrite Heq in Hho'.
    destruct (output_hash_binds o o' _ Hok Hok' Hho Hho') as [Hs|Hcoll].
    + left. exists o'. split; [by apply (same_contents_data i o)|right; split; [done|]]. destruct Hst as [_ _ _ Hn _ _]. rewrite Forall_forall in Hn. specialize (Hn i Hi). rewrite Forall_forall in Hn. apply Hn; [done|congruence].
    + right. exists o, o'. split_and!; [right; by exists i|by left|done].
Qed.

(** A header that extends the chain. *)
Definition extends c hd : Prop := bh_height hd = Z.of_nat (length c) /\ bh_hash hd ∉ map (fun blk => bh_hash blk.1) c.

Lemma hashes_distinct_or b : Forall output_ok (outputs b) -> NoDup (map out_commitment (outputs b)) -> NoDup (map hash_of (outputs b)) \/ outputs_collide (outputs b).
Proof.
  intros Hok Hnd. destruct (outputs_distinct_or (outputs b) Hok Hnd) as [Hd|]; [left|by right]. apply NoDup_alt. intros i j h Hi Hj. change (map hash_of (outputs b)) with (hash_of <$> outputs b) in *.
  rewrite list_lookup_fmap, fmap_Some in Hi, Hj. destruct Hi as (o & Ho & ->), Hj as (o' & Ho' & Heq). rewrite Forall_lookup in Hok.
  apply (Hd i j o o' (hash_of o)); [done|done|by eapply hash_of_Ok, output_ok_encodable, Hok|rewrite Heq; by eapply hash_of_Ok, output_ok_encodable, Hok].
Qed.

Lemma validated_block_ok db c hd b fuel iv block manager height body : represents db c -> chain_ok c -> extends c hd -> outputs_wf c b -> storable c b ->
  chain_validate (db := backend_of db) manager body height = Ok b -> validate_block fuel iv block = Some (Ok tt) -> fb_body block = b ->
  block_ok c hd b \/ collision_at_hand c b.
Proof.
  intros Hrep Hc [Hht Hhash] Hwf Hst Hcv Hvb Hbody. apply chain_validate_Ok in Hcv as (_ & Ho & Hk & Hki & Hno & Hnk). rewrite <- Ho in Hno. rewrite <- Hk in Hnk.
  apply validate_block_Ok in Hvb as (constants & _ & total & _ & _ & _ & _ & Hiv). rewrite Hbody in Hiv. apply internal_validate_iff in Hiv as [constants' Hiv].
  pose proof (iv_sorted _ _ _ _ _ _ _ _ Hiv) as Hs. destruct (kernel_sum_Ok _ _ (iv_kernel_sum _ _ _ _ _ _ _ _ Hiv)) as (cs & Hcs & _). apply mapM_Ok_Forall2 in Hcs.
  pose proof Hwf as (Wo & Wi & Wr). assert (Forall encodable (outputs b)) as He by (eapply Forall_impl; [exact Wo|apply output_ok_encodable]).
  assert (Forall (fun i => spends c b i \/ collision_at_hand c b) (inputs b)) as Hsp.
  { rewrite Forall_forall in Hki |- *. intros i Hi. pose proof Hi as [n Hn]%list_elem_of_lookup. destruct (Forall2_lookup_l _ _ _ _ _ Hcs Hn) as (com & _ & Hcom). by eapply known_input_stored; eauto. }
  destruct (Forall_or _ _ _ Hsp) as [Hspends|]; [|by right]. destruct (hashes_distinct_or b Wo (sorted_outputs_NoDup _ Hs)) as [Hnd|(o1 & o2 & H1 & H2 & H3)]; [left|right; exists o1, o2; tauto].
  rewrite Forall_forall in Hno. rewrite Forall_forall in He. pose proof Hst as []. constructor; try done.
  - by apply Forall_forall.
  - apply Forall_forall. intros o Hin. by eapply (new_output_lookup db c Hrep o); [apply Hno|apply He].
  - by apply sorted_outputs_NoDup.
  - apply Forall_forall. intros o Hin. by eapply (new_output_lookup db c Hrep o); [apply Hno|apply He].
  - eapply sorted_inputs_NoDup; [exact Hs|]. apply Forall2_map_Ok. intros i Hi. pose proof Hi as [n Hn]%list_elem_of_lookup.
    destruct (Forall2_lookup_l _ _ _ _ _ Hcs Hn) as (com & _ & Hcom). apply in_commitment_as_output in Hcom as (o & Hio & _). rewrite Forall_forall in Wi.
    destruct (input_hash_Ok i o Hio (output_ok_encodable o (Wi i Hi o Hio))) as [-> _]. rewrite (proj1 (@as_output_hash _ _ _ ValidationError i o Hio)). by apply hash_of_Ok, output_ok_encodable, (Wi i Hi).
  - by apply sorted_kernels_NoDup.
  - eapply Forall_impl; [exact Hnk|]. intros k. by apply new_kernel_lookup.
Qed.

(** C19: a block that extends the chain and passes the validators on the tables of the database is added to the database, which then holds the
    longer chain, unless it is one of those [storable] excludes, or two different outputs at hand have the same digest. *)
Theorem validated_block_stored db c hd b fuel iv block manager height body : represents db c -> chain_ok c -> extends c hd ->
  headers_db (header_tables db) !! bh_height hd = Some hd -> block_hashes_db (header_tables db) !! bh_hash hd = Some (bh_height hd) ->
  chain_validate (db := backend_of db) manager body height = Ok b -> validate_block fuel iv block = Some (Ok tt) -> fb_body block = b ->
  outputs_wf c b -> storable c b ->
  (exists db', insert_block_body manager hd b db = Ok db' /\ represents db' ((hd, b) :: c) /\ chain_ok ((hd, b) :: c)) \/ collision_at_hand c b.
Proof.
  intros Hrep Hc Hext H1 H2 Hcv Hvb Hbody Hwf Hst. destruct (validated_block_ok db c hd b fuel iv block manager height body) as [Hb|]; try done; [left|by right].
  destruct (insert_block_body_Ok manager db c hd b) as (db' & Hi & Hr & _); try done. exists db'. done.
Qed.

End Stored.
