(* ===== verification/FullValidatorSpec.v ===== *)
(** * What the validation of a block against the chain establishes

    On a database that holds a chain, an accepted block commits in its header to the kernels, outputs, witnesses and deletions of the chain
    with the block, and follows the chain; and the effects of one step of the block synchronisation on the database. *)

From S2P Require Import Prelude ScriptTypes Opcodes ScriptStack TariScript Amounts Emission Difficulty ConsensusConstants ConsensusManager MmrCommon Mmr MutableMmr BalancedMerkle.
From S2P Require Import ScriptEncoding Covenants MoneroMerkle TxComponents BlockHeader CovenantFilters CovenantSpec AggregatedBody BodyValidator BodyBalance OutputHash BodyValidatorSpec.
From S2P Require Import ChainStorage ChainDatabase Reorg HeaderValidator FullValidator ChainTables ChainStorageSpec ChainRewind BlockReading ReorgSpec ReorgAtomic ChainStored.

Local Open Scope Z_scope.

Section FullValidatorSpec.
Context {C : ScriptCrypto} {CL : ScriptCryptoLaws C} {B : BorshPrims C} {BL : BorshLaws B} {X : TxCrypto C} {L : TxLaws X} {XL : EncodingLaws X} {ML : MoneroLib} {BH : BlockHashers} (manager : ConsensusManager).

Implicit Types (db : Database) (block : Block) (bs : list ChainBlock).

(** ** The checks of an accepted block *)

Lemma check_mmr_roots_Ok header roots : check_mmr_roots header roots = Ok tt ->
  bh_kernel_mr header = mr_kernel_mr roots /\ bh_kernel_mmr_size header = mr_kernel_mmr_size roots /\ bh_output_mr header = mr_output_mr roots /\
  bh_witness_mr header = mr_witness_mr roots /\ bh_output_mmr_size header = mr_output_mmr_size roots /\ bh_input_mr header = mr_input_mr roots /\
  bh_validator_node_mr header = mr_validator_node_mr roots.
Proof.
  unfold check_mmr_roots. intros H.
  repeat match type of H with (if negb ?b then _ else _) = _ => destruct b eqn:?; cbn [negb] in H; [|discriminate H] end.
  rewrite ?bool_decide_eq_true, ?Z.eqb_eq in *. done.
Qed.

Lemma fixed_hash_Ok h h' : fixed_hash h = Ok h' -> h' = h /\ length h = 32%nat.
Proof. unfold fixed_hash. case_decide; [|done]. by intros [= <-]. Qed.

Lemma fixed_root_Ok (r : stored_result bytes) h : (root ← r; fixed_hash root) = Ok h -> r = Ok h.
Proof. intros (root & -> & [-> _]%fixed_hash_Ok)%bind_Ok_iff. done. Qed.

Lemma chain_validate_sorted (db : LMDBDatabase) body height body' : chain_validate (db := backend_of db) manager body height = Ok body' -> sorted body' = true.
Proof.
  unfold chain_validate, validate_input_and_maturity. intros (constants & _ & (u & _ & (ins & _ & H)%bind_Ok_iff)%bind_Ok_iff)%bind_Ok_iff.
  do 6 (apply bind_Ok_iff in H as (? & _ & H)). by injection H as <-.
Qed.

Lemma full_validate_checks fuel bypass db block metadata block' : full_validate manager fuel bypass db block metadata = Ok block' ->
  exists body roots, block' = {| block_header := block_header block; block_body := body |} /\
    chain_validate (db := backend_of (lmdb db)) manager (block_body block) (bh_height (block_header block)) = Ok body /\
    validate_block fuel {| bypass_range_proof_verification := bypass; iv_manager := manager |} (full_block block') = Some (Ok tt) /\
    calculate_mmr_roots manager db block' = Ok roots /\ check_mmr_roots (block_header block) roots = Ok tt.
Proof.
  unfold full_validate. intros ([] & _ & (body & Hb & (u & Hv & (roots & Hr & ([] & Hc & [= <-])%bind_Ok_iff)%bind_Ok_iff)%bind_Ok_iff)%bind_Ok_iff)%bind_Ok_iff.
  exists body, roots. unfold from_storage, of_option in *.
  destruct (chain_validate _ _ _) as [?| |] eqn:Hcv; [|discriminate Hb..]. injection Hb as ->.
  destruct (calculate_mmr_roots _ _ _) as [?| |] eqn:Hcr; [|discriminate Hr..]. injection Hr as ->.
  destruct (validate_block _ _ _) as [[[]| |]|] eqn:Hvb; try discriminate Hv. done.
Qed.

(** ** The ranges the roots are computed of *)

(** The state of the loop over the outputs after those of [done]. *)
Definition root_outputs_state hd (base : nat) (deleted : gset Z) (witness : list bytes) (done : list TransactionOutput) : OutputMmr * list bytes * list Z :=
  ({| om_base := Z.of_nat base; om_new := map hash_of done; om_deleted := deleted |}, witness ++ map witness_hash done,
   map or_mmr_position (filter (fun r => row_burned r = true) (new_rows hd base done))).

Lemma root_outputs_Ok hd base deleted witness l : Forall encodable l -> NoDup (map hash_of l) -> Z.of_nat (base + length l) <= U32_MAX ->
  foldM root_output l (root_outputs_state hd base deleted witness []) = Ok (root_outputs_state hd base deleted witness l).
Proof.
  intros He Hnd Hsize. apply (foldM_prefix _ _ (root_outputs_state hd base deleted witness)). intros done o rest ->.
  apply Forall_app in He as [_ He]. apply Forall_cons in He as [He _].
  replace (done ++ o :: rest) with ((done ++ [o]) ++ rest) in Hnd by by rewrite <- app_assoc. apply NoDup_map_app in Hnd as [Hnd _].
  rewrite length_app in Hsize. cbn [length] in Hsize.
  unfold root_output, root_outputs_state. rewrite (hash_of_Ok o He). cbn [mbind result_bind]. unfold om_push, om_size at 1. cbn [om_base om_new om_deleted].
  rewrite length_map. destruct (Z.eqb_spec (Z.of_nat base + Z.of_nat (length done)) U32_MAX) as [Heq|_]; [lia|]. cbn [mbind result_bind].
  change (map hash_of done ++ [hash_of o]) with (map hash_of done ++ map hash_of [o]). rewrite <- map_app, <- app_assoc, (map_app witness_hash), new_rows_snoc, filter_app, filter_cons, filter_nil.
  change (row_burned (output_row hd (Z.of_nat base + Z.of_nat (length done)) o)) with (output_is_burned o). destruct (output_is_burned o) eqn:Hb.
  - rewrite (find_leaf_index_new _ (done ++ [o]) _ (length done) o); [|done|by rewrite lookup_app_r, Nat.sub_diag]. cbn [ok_or mbind result_bind].
    rewrite decide_True by done. by rewrite (map_app or_mmr_position).
  - rewrite decide_False by done. by rewrite app_nil_r.
Qed.

Lemma root_inputs_Ok db c hd b deleted indices : represents (lmdb db) c -> chain_ok ((hd, b) :: c) ->
  foldM (root_input db {| om_base := Z.of_nat (length (rows c)); om_new := map hash_of (outputs b); om_deleted := deleted |}) (inputs b) ([], indices) =
  Ok (map canonical_hash_of (inputs b), indices ++ map (input_position ((hd, b) :: c)) (inputs b)).
Proof.
  intros Hrep Hok. pose proof Hok as [Hb Hc]. replace ([], indices) with (map canonical_hash_of [], indices ++ map (input_position ((hd, b) :: c)) []) by (cbn; by rewrite app_nil_r).
  apply (foldM_prefix _ _ (fun done => (map canonical_hash_of done, indices ++ map (input_position ((hd, b) :: c)) done))). intros done i rest Heq.
  destruct (spends_row c hd b i Hok) as (com & f & r & _ & _ & _ & Hh & Hr & Hrh & _); [rewrite Heq; apply elem_of_app; right; left|].
  unfold root_input. assert (@canonical_hash _ _ _ ChainStorageError i = Ok (canonical_hash_of i)) as ->.
  { unfold canonical_hash_of. destruct (@canonical_hash _ _ _ ChainStorageError i) eqn:Hi; [done| |]; unfold canonical_hash in Hi; by rewrite Hh in Hi. }
  cbn [mbind result_bind]. rewrite Hh. cbn [mbind result_bind]. rewrite (rep_txos _ _ Hrep). cbn [txos_hash_to_index_db txo_tables_of].
  assert (or_mmr_position r = input_position ((hd, b) :: c) i) as Hp by (unfold input_position; by rewrite <- Hrh, position_of_row).
  rewrite !map_app, app_assoc. cbn [map]. rewrite <- Hp. cbn [rows] in Hr. apply elem_of_app in Hr as [Hr|Hr].
  - rewrite <- Hrh, (hash_index_lookup c r Hc Hr). done.
  - apply elem_of_new_rows in Hr as (j & o & Hj & ->). cbn [or_hash output_row] in Hrh. pose proof (bk_hashes_new _ _ _ Hb) as Hn. rewrite Forall_forall in Hn.
    rewrite <- Hrh, (table_lookup_None hash_entry) by (apply Hn, list_elem_of_lookup; by eexists). cbn [fmap option_fmap option_map].
    by rewrite (find_leaf_index_new _ (outputs b) _ j o) by (done || apply Hb).
Qed.

Lemma delete_all_leaves indices : forall m m', delete_all m indices = Ok m' -> om_base m' = om_base m /\ om_new m' = om_new m /\ om_deleted m' = list_to_set indices ∪ om_deleted m.
Proof.
  unfold delete_all. induction indices as [|i indices IH]; intros m m' H; cbn [foldM] in H.
  - injection H as <-. split_and!; [done|done|set_solver].
  - apply bind_Ok_iff in H as (m1 & Hd & H). destruct (IH _ _ H) as (-> & -> & ->). unfold om_delete in Hd. destruct (_ || _); [discriminate Hd|]. injection Hd as <-.
    cbn. split_and!; [done|done|set_solver].
Qed.

(** ** What a header commits to *)

Record commits hd c : Prop := {
  cm_kernel_size : bh_kernel_mmr_size hd = Z.of_nat (length (kernel_rows c));
  cm_output_size : bh_output_mmr_size hd = Z.of_nat (length (rows c));
  cm_kernels : range_root kernel_hasher (map kr_hash (kernel_rows c)) = Ok (bh_kernel_mr hd);
  cm_outputs : mutable_root output_hasher (map or_hash (rows c)) (deleted_of c) = Ok (bh_output_mr hd);
  cm_witnesses : range_root witness_hasher (map or_witness_hash (rows c)) = Ok (bh_witness_mr hd);
}.

Lemma tip_data db p bs : holds db (p :: bs) -> blocks_ok (p :: bs) -> let c := map pair_of (p :: bs) in exists data,
  block_hashes_db (header_tables (lmdb db)) !! bh_hash (cb_header p) = Some (bh_height (cb_header p)) /\
  block_accumulated_data_db (lmdb db) !! bh_height (cb_header p) = Some data /\
  acc_kernels data = map kr_hash (kernel_rows c) /\ acc_outputs data = map or_hash (rows c) /\ acc_witness data = map or_witness_hash (rows c).
Proof.
  intros Hh Hok c. pose proof (blocks_chain_ok _ Hok) as Hc. pose proof (rep_headers _ _ (ho_tables _ _ Hh)) as Hr. apply Forall_cons in Hr as [[_ Hhash] _].
  exists (accumulated_entry (map pair_of bs) (cb_header p) (block_body (cb_block p))).2. split; [exact Hhash|]. split; [|done].
  rewrite (rep_accumulated _ _ (ho_tables _ _ Hh)). apply table_lookup_Some.
  - rewrite (accumulated_heights _ Hc). apply (NoDup_fmap_2_strong Z.of_nat); [intros; lia|apply NoDup_seq].
  - exists (accumulated_entry (map pair_of bs) (cb_header p) (block_body (cb_block p))). split; [apply elem_of_app; right; left|done].
Qed.

Lemma roots_commit db c height data block roots : represents (lmdb db) c -> chain_ok ((block_header block, block_body block) :: c) ->
  block_hashes_db (header_tables (lmdb db)) !! bh_prev_hash (block_header block) = Some height -> block_accumulated_data_db (lmdb db) !! height = Some data ->
  acc_kernels data = map kr_hash (kernel_rows c) -> acc_outputs data = map or_hash (rows c) -> acc_witness data = map or_witness_hash (rows c) ->
  calculate_mmr_roots manager db block = Ok roots -> check_mmr_roots (block_header block) roots = Ok tt ->
  commits (block_header block) ((block_header block, block_body block) :: c).
Proof.
  intros Hrep Hc Hhash Hdata Hk Ho Hw Hr Hchk. unfold calculate_mmr_roots in Hr. revert Hc Hhash Hr Hchk. generalize (block_header block) as hd. generalize (block_body block) as b.
  intros b hd Hc Hhash Hr Hchk. pose proof Hc as [Hb _]. destruct (negb _); [discriminate Hr|]. rewrite Hhash in Hr. cbn [or_not_found ok_or mbind result_bind] in Hr.
  rewrite Hdata in Hr. cbn [or_not_found ok_or mbind result_bind] in Hr. apply bind_Ok_iff in Hr as (u & _ & Hr). rewrite Hk, Ho, Hw, (rep_deleted _ _ Hrep), length_map in Hr.
  pose proof (root_outputs_Ok hd (length (rows c)) (deleted_of c) (map or_witness_hash (rows c)) (outputs b) (bk_encodable _ _ _ Hb) (bk_hashes _ _ _ Hb) (bk_size _ _ _ Hb)) as Hro.
  unfold root_outputs_state in Hro at 1. cbn [map new_rows imap filter list_filter] in Hro. rewrite app_nil_r in Hro. setoid_rewrite Hro in Hr. clear Hro.
  unfold root_outputs_state in Hr. cbn [mbind result_bind] in Hr. rewrite (root_inputs_Ok db c hd b _ _ Hrep Hc) in Hr. cbn [mbind result_bind] in Hr.
  apply bind_Ok_iff in Hr as (m & Hm & Hr). apply delete_all_leaves in Hm as (_ & Hnew & Hdel). cbn [om_new om_deleted] in Hnew, Hdel.
  apply bind_Ok_iff in Hr as (constants & _ & (vn & _ & Hr)%bind_Ok_iff). rewrite Hnew, Hdel in Hr.
  apply bind_Ok_iff in Hr as (kr & Hkr%fixed_root_Ok & (ir & _ & (orr & Hor%fixed_root_Ok & (wr & Hwr%fixed_root_Ok & [= <-])%bind_Ok_iff)%bind_Ok_iff)%bind_Ok_iff).
  apply check_mmr_roots_Ok in Hchk as (C1 & C2 & C3 & C4 & C5 & _). cbn [mr_kernel_mr mr_kernel_mmr_size mr_output_mr mr_witness_mr mr_output_mmr_size] in *.
  replace (list_to_set _ ∪ deleted_of c) with (deleted_of ((hd, b) :: c)) in Hor.
  2:{ rewrite <- (deleted_step c hd b Hc). unfold deleted_by, input_position. rewrite list_to_set_app_L. set_solver. }
  rewrite length_app, !length_map in C2, C5.
  split; cbn [kernel_rows rows]; rewrite ?length_app, ?length_new_rows, ?length_new_kernel_rows, ?map_app; [done|done| | |].
  - rewrite (map_new_kernel_rows kr_hash kernel_hash) by done. by rewrite C1.
  - rewrite (map_new_rows or_hash hash_of) by done. by rewrite C3.
  - rewrite (map_new_rows or_witness_hash witness_hash) by done. by rewrite C4.
Qed.

(** ** Blocks that pass the validators *)

(** Each header of the chain gives the numbers of kernels and outputs up to its block. *)
Fixpoint sizes_ok bs : Prop :=
  match bs with
  | [] => True
  | x :: bs' => bh_kernel_mmr_size (cb_header x) = Z.of_nat (length (kernel_rows (map pair_of bs))) /\
      bh_output_mmr_size (cb_header x) = Z.of_nat (length (rows (map pair_of bs))) /\ sizes_ok bs'
  end.

Lemma sizes_bound bs x : sizes_ok bs -> x ∈ bs -> bh_kernel_mmr_size (cb_header x) <= Z.of_nat (length (kernel_rows (map pair_of bs))) /\
  bh_output_mmr_size (cb_header x) <= Z.of_nat (length (rows (map pair_of bs))).
Proof.
  induction bs as [|y bs IH]; [intros _ []%not_elem_of_nil|]. intros (Hk & Ho & Hs) [->|Hin]%elem_of_cons; [lia|]. destruct (IH Hs Hin).
  cbn [map pair_of kernel_rows rows]. rewrite !length_app. lia.
Qed.

Lemma fees_summed ks acc acc' : foldM sum_kernels_step ks acc = Ok acc' -> foldM (@mt_add ChainStorageError) (map k_fee ks) (ks_fees acc) = Ok (ks_fees acc').
Proof.
  revert acc. induction ks as [|k ks IH]; intros acc H; [by injection H as <-|]. cbn [foldM map] in *. apply bind_Ok_iff in H as (acc1 & Hs & H).
  apply bind_Ok_iff in Hs as (fees & Hf & [= <-]). apply arith_Ok_iff in Hf as [-> Hf]. 
  assert (@mt_add ChainStorageError (ks_fees acc) (k_fee k) = Ok (ks_fees acc + k_fee k)) as -> by (unfold mt_add; by rewrite arith_ok). exact (IH _ H).
Qed.

(** The internal validator: the coinbase makes the ranges grow, the fees have a sum, the body is sorted. *)
Lemma validated_body fuel iv (block : FullBlock) : validate_block fuel iv block = Some (Ok tt) ->
  kernels (fb_body block) <> [] /\ outputs (fb_body block) <> [] /\ fees_ok (kernels (fb_body block)) /\ check_sorting_and_duplicates (fb_body block) = Ok tt.
Proof.
  intros (constants & emission & total & _ & _ & _ & Hcb & Hiv)%validate_block_Ok. apply internal_validate_iff in Hiv as [constants' Hiv].
  unfold check_coinbase_output in Hcb. split_and!.
  - intros Hk. rewrite Hk in Hcb. apply bind_Ok_iff in Hcb as (utxos & _ & Hcb). destruct (1 <? length utxos)%nat, (length utxos =? 0)%nat; discriminate Hcb.
  - intros Ho. rewrite Ho in Hcb. discriminate Hcb.
  - pose proof (iv_kernel_sum _ _ _ _ _ _ _ _ Hiv) as Hs. unfold validate_kernel_sum in Hs. apply bind_Ok_iff in Hs as (ks & Hks & _). eexists. exact (fees_summed _ _ _ Hks).
  - apply Hiv.
Qed.

Lemma monero_data_present `{U256Ops} `{EpochOps} `{EpochMean} bypass now db hd prev ts target at_ : header_validate manager bypass now db hd prev ts target = Ok at_ ->
  bh_pow_algo hd = Monero -> exists d, from_header hd = Ok d.
Proof.
  unfold header_validate. intros Hv Halgo. do 8 (apply bind_Ok_iff in Hv as (? & ? & Hv)).
  match goal with Hp : check_pow_data _ _ _ = Ok _ |- _ => unfold check_pow_data in Hp; change (pw_algo (bh_pow hd)) with (bh_pow_algo hd) in Hp; rewrite Halgo in Hp; apply bind_Ok_iff in Hp as (d & Hd & _) end.
  exists d. by destruct (from_header hd); [injection Hd as ->| |].
Qed.

Lemma metadata_height block p bs : blocks_ok (p :: bs) -> validate_block_metadata block (tip_of (p :: bs)) = Ok tt ->
  bh_prev_hash (block_header block) = bh_hash (cb_header p) /\ bh_height (block_header block) = Z.of_nat (length (p :: bs)).
Proof.
  intros Hok. unfold validate_block_metadata. cbn [tip_of best_block height_of_longest_chain]. case_bool_decide as Hp; [|done]. cbn [negb].
  intros (e & [-> _]%arith_Ok_iff & Hh)%bind_Ok_iff. destruct (Z.eqb_spec (bh_height (block_header block)) (bh_height (cb_header p) + 1)) as [Heq|]; [|done].
  rewrite Hp, (block_hash_eq _ p Hok ltac:(left)), Heq, (block_height bs p Hok). cbn [length]. split; [done|lia].
Qed.

(** C8: the validators of the base node accept what the database can rely on. On a database of an archival node that holds a chain whose headers give the sizes of
    its ranges, a block that passes the header validator and the full body validator follows the chain - the condition under which storing blocks and
    reorganising are proved correct - and its header gives the sizes and commits to the kernels, the outputs, the witnesses and the spent positions of the
    chain with the block; unless two different outputs at hand have the same digest. What the validators do not check is assumed: the hash of the block is new, it carries the outputs it spends
    ([outputs_wf]), and it is [storable], that is, it repeats no kernel excess of its own or of the chain, has no validator node or template registration, spends no output of its own that is burned, and
    the ranges keep to 32 bits. *)
Theorem validated_block_follows `{U256Ops} `{EpochOps} `{EpochMean} fuel bypass now db hdb p bs x prev ts at_ :
  holds db (p :: bs) -> blocks_ok (p :: bs) -> sizes_ok (p :: bs) ->
  header_validate manager false now hdb (cb_header x) prev ts None = Ok at_ ->
  full_validate manager fuel bypass db (cb_block x) (Some (md_tip (metadata db))) = Ok (cb_block x) ->
  acc_hash (cb_accumulated_data x) = bh_hash (cb_header x) -> bh_hash (cb_header x) ∉ map (fun b => bh_hash (cb_header b)) (p :: bs) ->
  outputs_wf (map pair_of (p :: bs)) (block_body (cb_block x)) -> storable (map pair_of (p :: bs)) (block_body (cb_block x)) ->
  (follows (p :: bs) x /\ sizes_ok (x :: p :: bs) /\ commits (cb_header x) (map pair_of (x :: p :: bs))) \/
  collision_at_hand (map pair_of (p :: bs)) (block_body (cb_block x)).
Proof.
  intros Hh Hok Hsz Hhv Hfv Hacc Hnew Hwf Hst. pose proof Hfv as Hmd. unfold full_validate in Hmd. apply bind_Ok_iff in Hmd as ([] & Hmd & _). rewrite (ho_tip _ _ Hh) in Hmd.
  destruct (metadata_height _ _ _ Hok Hmd) as [Hprev Hht]. apply full_validate_checks in Hfv as (body & roots & Hx & Hcv & Hvb & Hroots & Hchk).
  assert (body = block_body (cb_block x)) as -> by (by rewrite Hx).
  assert (sorted (block_body (cb_block x)) = true) as Hsorted by (eapply chain_validate_sorted; exact Hcv).
  destruct (validated_body _ _ _ Hvb) as (Hk & Ho & Hfees & Hsort).
  assert (extends (map pair_of (p :: bs)) (cb_header x)) as Hext by (split; [by rewrite length_map|by rewrite map_map]).
  destruct (validated_block_ok _ _ _ _ _ _ _ _ _ _ (ho_tables _ _ Hh) (blocks_chain_ok _ Hok) Hext Hwf Hst Hcv Hvb eq_refl) as [Hb|]; [left|by right].
  destruct (tip_data db p bs Hh Hok) as (data & Hhash & Hdata & D1 & D2 & D3). rewrite <- Hprev in Hhash.
  pose proof (roots_commit db _ _ data (cb_block x) roots (ho_tables _ _ Hh) (conj Hb (blocks_chain_ok _ Hok)) Hhash Hdata D1 D2 D3 Hroots Hchk) as Hcm.
  pose proof (cm_kernel_size _ _ Hcm) as Sk. pose proof (cm_output_size _ _ Hcm) as So. split; [|done].
  assert (forall y, y ∈ p :: bs -> bh_kernel_mmr_size (cb_header x) <> bh_kernel_mmr_size (cb_header y) /\ bh_output_mmr_size (cb_header x) <> bh_output_mmr_size (cb_header y)) as Hdiff.
  { intros y Hy. destruct (sizes_bound _ y Hsz Hy) as [B1 B2]. cbn [full_block fb_body] in Hk, Ho. fold (cb_header x) in Sk, So. rewrite Sk, So. change (kernel_rows ((cb_header x, block_body (cb_block x)) :: ?c)) with (kernel_rows c ++ new_kernel_rows (cb_header x) (length (kernel_rows c)) (kernels (block_body (cb_block x)))).
    change (rows ((cb_header x, block_body (cb_block x)) :: ?c)) with (rows c ++ new_rows (cb_header x) (length (rows c)) (outputs (block_body (cb_block x)))).
    rewrite !length_app, length_new_rows, length_new_kernel_rows. destruct (kernels (block_body (cb_block x))), (outputs (block_body (cb_block x))); try done. cbn [length]. lia. }
  split; try done.
  - intros (y & Hy & Hin)%elem_of_map. by apply (proj1 (Hdiff y Hin)).
  - intros (y & Hy & Hin)%elem_of_map. by apply (proj2 (Hdiff y Hin)).
  - by eapply monero_data_present.
Qed.

End FullValidatorSpec.
