(* ===== verification/BlockSyncSpec.v ===== *)
(** * What the block synchronisation does to the database

    [synchronize_blocks] of [FullValidator] on any stream of a peer: a step that fails leaves the chain and its tip as they were, a run stores a
    sequence of linked blocks that passed the full validator, and an invalid body has its header refused from then on. *)

From S2P Require Import Prelude ScriptTypes Opcodes ScriptStack TariScript MmrCommon Mmr MutableMmr BalancedMerkle Amounts Emission Difficulty.
From S2P Require Import MoneroMerkle ConsensusConstants ConsensusManager Covenants TxComponents BlockHeader CovenantFilters CovenantSpec AggregatedBody BodyValidator BodyBalance BodyValidatorSpec.
From S2P Require Import ChainStorage ChainDatabase Reorg HeaderValidator FullValidator ChainTables ChainStorageSpec ChainRewind BlockReading ReorgSpec.

Local Open Scope Z_scope.

Section BlockSyncSpec.
Context {C : ScriptCrypto} {B : BorshPrims C} {X : TxCrypto C} {ML : MoneroLib} {BH : BlockHashers} (manager : ConsensusManager).

Implicit Types (db : Database) (block : Block).

(** The same chain and the same tip. *)
Definition same_chain db db' : Prop := lmdb db' = lmdb db /\ metadata db' = metadata db.

(** ** What a stored body leaves in the tables *)

(** No row is lost. *)
Definition txos_kept (t t' : TxoTables) : Prop :=
  utxos_db t ⊆ utxos_db t' /\ txos_hash_to_index_db t ⊆ txos_hash_to_index_db t' /\ inputs_db t ⊆ inputs_db t' /\
  deleted_txo_mmr_position_to_height_index t ⊆ deleted_txo_mmr_position_to_height_index t'.

#[local] Instance txos_kept_preorder : PreOrder txos_kept.
Proof. split; [by intros t|]. intros t1 t2 t3 (? & ? & ? & ?) (? & ? & ? & ?). split_and!; by etrans. Qed.

Definition rows_kept (t t' : LMDBDatabase) : Prop :=
  header_tables t' = header_tables t /\ block_accumulated_data_db t ⊆ block_accumulated_data_db t' /\
  kernels_db (kernel_tables t) ⊆ kernels_db (kernel_tables t') /\ txos_kept (txo_tables t) (txo_tables t').

#[local] Instance rows_kept_preorder : PreOrder rows_kept.
Proof. split; [by intros t|]. intros t1 t2 t3 (? & ? & ? & ?) (? & ? & ? & ?). split_and!; [congruence|by etrans..]. Qed.

(** A kernel, an output and an input of the block with the header [hd]: the kernel and the output have rows, the output is found by its hash, and the position the input
    spends is recorded as spent by the block. *)
Definition kernel_in hd (kernel : TransactionKernel) (t : KernelTables) : Prop :=
  exists pos row, kernels_db t !! (bh_hash hd, pos, kernel_hash kernel) = Some row /\ kr_kernel row = kernel.

Definition output_in hd (output : TransactionOutput) (t : TxoTables) : Prop :=
  exists hash pos row, (output_hash output : stored_result bytes) = Ok hash /\ txos_hash_to_index_db t !! hash = Some (pos, (bh_hash hd, pos)) /\
    utxos_db t !! (bh_hash hd, pos) = Some row /\ or_output row = Some output /\ or_mined_height row = bh_height hd.

Definition input_in hd (input : TransactionInput) (t : TxoTables) : Prop :=
  exists hash pos row, (canonical_hash input : stored_result bytes) = Ok hash /\ inputs_db t !! (bh_hash hd, pos, hash) = Some row /\
    (input_to_compact input : stored_result TransactionInput) = Ok (ir_input row) /\ deleted_txo_mmr_position_to_height_index t !! pos = Some (bh_height hd, bh_hash hd).

Record body_stored hd (body : TxBody) (t : LMDBDatabase) : Prop := {
  bs_kernels : forall kernel, kernel ∈ kernels body -> kernel_in hd kernel (kernel_tables t);
  bs_outputs : forall output, output ∈ outputs body -> output_in hd output (txo_tables t);
  bs_inputs : forall input, input ∈ inputs body -> input_in hd input (txo_tables t);
  bs_accumulated : is_Some (block_accumulated_data_db t !! bh_height hd);
}.

Lemma body_stored_kept hd body t t' : body_stored hd body t -> rows_kept t t' -> body_stored hd body t'.
Proof.
  intros [Hk Ho Hi [data Hd]] (_ & Ha & Hks & Hu & Ht & Hin & Hdel). split.
  - intros kernel (pos & row & Hr & Heq)%Hk. exists pos, row. split; [by eapply lookup_weaken|done].
  - intros output (hash & pos & row & Hh & Hx & Hr & Heq)%Ho. exists hash, pos, row. split_and!; [done|by eapply lookup_weaken..|apply Heq|apply Heq].
  - intros input (hash & pos & row & Hh & Hr & Hc & Hx)%Hi. exists hash, pos, row. split_and!; [done|by eapply lookup_weaken|done|by eapply lookup_weaken].
  - exists data. by eapply lookup_weaken.
Qed.

(** A loop whose steps lose nothing, each of which adds its item. *)
Lemma foldM_collects {E S A} (f : S -> A -> result E S) (R : S -> S -> Prop) `{!PreOrder R} (Q : A -> S -> Prop) l : forall s s',
  (forall s a s', f s a = Ok s' -> R s s' /\ Q a s') -> (forall a s s', R s s' -> Q a s -> Q a s') -> foldM f l s = Ok s' -> R s s' /\ forall a, a ∈ l -> Q a s'.
Proof.
  induction l as [|a l IH]; intros s s' Hf Hq; cbn [foldM]; [intros [= <-]; split; [done|by intros a ?%not_elem_of_nil]|].
  intros (s1 & Hs1 & Hs2)%bind_Ok_iff. destruct (Hf _ _ _ Hs1) as [Hr Ha]. destruct (IH s1 s' Hf Hq Hs2) as [Hr' Hl].
  split; [by etrans|]. intros a' [->|Hin]%elem_of_cons; [by eapply Hq|by apply Hl].
Qed.

Lemma lmdb_insert_grows {K V} `{Countable K} (k : K) (v : V) t t' : lmdb_insert k v t = Ok t' -> t ⊆ t' /\ t' !! k = Some v.
Proof. unfold lmdb_insert. destruct (t !! k) eqn:Hk; [done|]. intros [= <-]. split; [by apply insert_subseteq|apply lookup_insert_eq]. Qed.

Lemma kernels_stored hd l st st' : foldM (add_kernel_row hd) l st = Ok st' ->
  kernels_db (kl_tables st) ⊆ kernels_db (kl_tables st') /\ forall kernel, kernel ∈ l -> kernel_in hd kernel (kl_tables st').
Proof.
  pose (R := fun s s' => kernels_db (kl_tables s) ⊆ kernels_db (kl_tables s')).
  assert (PreOrder R) as HR by (split; [by intros s; unfold R|intros s1 s2 s3 ? ?; unfold R in *; by etrans]).
  apply (foldM_collects (add_kernel_row hd) R (fun kernel s => kernel_in hd kernel (kl_tables s))).
  - intros s kernel s' Hadd. unfold add_kernel_row in Hadd. destruct (U32_MAX <? _); [done|]. apply bind_Ok_iff in Hadd as (t & Ht & [= <-]).
    unfold insert_kernel in Ht. apply bind_Ok_iff in Ht as (e & _ & (g & _ & (rows & Hrow & [= <-])%bind_Ok_iff)%bind_Ok_iff).
    apply lmdb_insert_grows in Hrow as [Hsub Hrow]. split; [done|]. eexists _, _. split; [exact Hrow|done].
  - intros kernel s s' Hsub (pos & row & Hr & Heq). exists pos, row. split; [by eapply lookup_weaken|done].
Qed.

Lemma input_in_kept hd input t t' : txos_kept t t' -> input_in hd input t -> input_in hd input t'.
Proof. intros (_ & _ & Hin & Hdel) (hash & pos & row & Hh & Hr & Hc & Hx). exists hash, pos, row. split_and!; [done|by eapply lookup_weaken|done|by eapply lookup_weaken]. Qed.

Lemma output_in_kept hd output t t' : txos_kept t t' -> output_in hd output t -> output_in hd output t'.
Proof.
  intros (Hu & Ht & _ & _) (hash & pos & row & Hh & Hx & Hr & Heq). exists hash, pos, row. split_and!; [done|by eapply lookup_weaken..|apply Heq|apply Heq].
Qed.

Lemma inputs_stored hd l st st' : foldM (spend_input hd) l st = Ok st' -> txos_kept (il_txos st) (il_txos st') /\ forall input, input ∈ l -> input_in hd input (il_txos st').
Proof.
  pose (R := fun s s' => txos_kept (il_txos s) (il_txos s')). assert (PreOrder R) as HR by (split; [by intros s; unfold R|intros s1 s2 s3 ? ?; unfold R in *; by etrans]).
  apply (foldM_collects (spend_input hd) R (fun input s => input_in hd input (il_txos s))); [|intros input s s'; apply input_in_kept].
  intros s input s' Hs. unfold spend_input in Hs. apply bind_Ok_iff in Hs as (oh & _ & ([index zc] & _ & (features & _ & (side & _ & (mmr & _ & (txos & Htx & [= <-])%bind_Ok_iff)%bind_Ok_iff)%bind_Ok_iff)%bind_Ok_iff)%bind_Ok_iff).
  unfold insert_input in Htx. apply bind_Ok_iff in Htx as (com & _ & (deleted & Hdel & (hash & Hh & (compact & Hc & (ins & Hins & [= <-])%bind_Ok_iff)%bind_Ok_iff)%bind_Ok_iff)%bind_Ok_iff).
  apply lmdb_insert_grows in Hdel as [Hdsub Hdel], Hins as [Hisub Hins]. split; [by split_and!|]. eexists hash, index, _. split_and!; [exact Hh|exact Hins|exact Hc|exact Hdel].
Qed.

Lemma outputs_stored hd l st st' : foldM (add_output_row manager hd) l st = Ok st' -> txos_kept st.1 st'.1 /\ forall output, output ∈ map fst l -> output_in hd output st'.1.
Proof.
  intros Hf. pose (R := fun s s' : TxoTables * SideTables => txos_kept s.1 s'.1). assert (PreOrder R) as HR by (split; [by intros s; unfold R|intros s1 s2 s3 ? ?; unfold R in *; by etrans]).
  destruct (foldM_collects (add_output_row manager hd) R (fun x s => output_in hd x.1 s.1) l st st') as [Hk Hl]; [|intros x s s'; apply output_in_kept|exact Hf|].
  - intros [txos side] [output count] s' Hs. unfold add_output_row in Hs. destruct (U32_MAX <? count); [done|].
    apply bind_Ok_iff in Hs as (hash & Hh & (side1 & _ & (side2 & _ & (t & Ht & [= <-])%bind_Ok_iff)%bind_Ok_iff)%bind_Ok_iff). unfold insert_output in Ht. rewrite Hh in Ht. cbn [mbind result_bind] in Ht.
    apply bind_Ok_iff in Ht as (index & _ & (hashes & Hx & (utxos & Hu & [= <-])%bind_Ok_iff)%bind_Ok_iff). apply lmdb_insert_grows in Hx as [Hxs Hx], Hu as [Hus Hu].
    split; [by split_and!|]. eexists hash, _, _. split_and!; [exact Hh|exact Hx|exact Hu|done|done].
  - split; [done|]. intros output (x & -> & Hx)%elem_of_map. by apply (Hl x).
Qed.

(** A body that is inserted is in the tables, whatever they held, and no row is lost. *)
Lemma insert_body_stored hd body t t' : insert_block_body manager hd body t = Ok t' -> rows_kept t t' /\ body_stored hd body t'.
Proof.
  unfold insert_block_body. intros (current & _ & Hins)%bind_Ok_iff. case_bool_decide; [|done]. cbn [negb] in Hins.
  apply bind_Ok_iff in Hins as (data & _ & (ks & Hks & (os & _ & (ins & Hin & ([txos side] & Hout & (i1 & _ & (i2 & _ & (acc & Hacc & [= <-])%bind_Ok_iff)%bind_Ok_iff)%bind_Ok_iff)%bind_Ok_iff)%bind_Ok_iff)%bind_Ok_iff)%bind_Ok_iff).
  apply kernels_stored in Hks as [Hksub Hks]. apply inputs_stored in Hin as [Hisub Hin]. apply outputs_stored in Hout as [Hosub Hout]. apply lmdb_insert_grows in Hacc as [Hasub Hacc].
  cbn [il_txos fst] in *. assert (txos_kept txos (with_index i2 txos)) as Hw by (split_and!; done). split.
  - split_and!; [done|done|done|]. etrans; [exact Hisub|]. etrans; [exact Hosub|exact Hw].
  - split.
    + exact Hks.
    + intros output Ho. eapply output_in_kept; [exact Hw|]. apply Hout. apply elem_of_map.
      apply list_elem_of_lookup in Ho as [i Hi]. exists (output, Z.of_nat (length (acc_witness data)) + Z.of_nat i + 1). split; [done|].
      apply list_elem_of_lookup. exists i. by rewrite list_lookup_imap, Hi.
    + intros input Hi. eapply input_in_kept; [exact Hw|]. eapply input_in_kept; [exact Hosub|]. by apply Hin.
    + by eexists.
Qed.

(** ** Storing a block of the stream *)

(** The item of the stream is stored as the block [x.2] of the header [x.1]: the database has the header under the hash of the item and it builds on [prev], the tip; its block with the body of the
    item passed the validator on [db]; the result of the validation is in the tables, no row is lost, and it is the tip. *)
Record stores (fuel : nat) (bypass : bool) (prev : bytes) db (item : StreamBlock) (x : LinkedHeader * Block) db' : Prop := {
  so_header : fetch_chain_header_by_block_hash (sb_hash item) db = Ok (Some x.1);
  so_prev : bh_prev_hash (lh_header x.1) = prev;
  so_parent : best_block (md_tip (metadata db)) = prev;
  so_valid : exists body, sb_body item = Some body /\ full_validate manager fuel bypass db {| block_header := lh_header x.1; block_body := body |} None = Ok x.2;
  so_stored : body_stored (lh_header x.1) (block_body x.2) (lmdb db');
  so_kept : rows_kept (lmdb db) (lmdb db');
  so_tip : md_tip (metadata db') = {| height_of_longest_chain := bh_height (lh_header x.1); best_block := bh_hash (lh_header x.1) |};
}.

(** The items of a stream, one after the other, each on the block before it. *)
Inductive stores_all (fuel : nat) (bypass : bool) : bytes -> Database -> list StreamBlock -> list (LinkedHeader * Block) -> Database -> Prop :=
| stores_none prev db : stores_all fuel bypass prev db [] [] db
| stores_next prev db item x db1 items xs db2 : stores fuel bypass prev db item x db1 -> stores_all fuel bypass (bh_hash (lh_header x.1)) db1 items xs db2 ->
    stores_all fuel bypass prev db (item :: items) (x :: xs) db2.

Lemma stores_all_stored fuel bypass prev db items xs db' : stores_all fuel bypass prev db items xs db' ->
  rows_kept (lmdb db) (lmdb db') /\ Forall (fun x => body_stored (lh_header x.1) (block_body x.2) (lmdb db')) xs /\
  forall x, last xs = Some x -> best_block (md_tip (metadata db')) = bh_hash (lh_header x.1).
Proof.
  induction 1 as [|prev db item x db1 items xs db2 Hst Hall (Hk & Hf & Hl)]; [done|]. split; [etrans; [apply Hst|done]|]. split.
  - constructor; [|done]. eapply body_stored_kept; [apply Hst|done].
  - destruct xs as [|x' xs]; [|exact Hl]. intros y [= <-]. inversion Hall; subst. by rewrite (so_tip _ _ _ _ _ _ _ Hst).
Qed.

Lemma full_validate_header fuel bypass db block metadata block' : full_validate manager fuel bypass db block metadata = Ok block' ->
  block_header block' = block_header block /\ bh_prev_hash (block_header block) = best_block (md_tip (ChainDatabase.metadata db)).
Proof.
  unfold full_validate. intros (u & _ & (body & _ & (u' & _ & (roots & Hr & (u'' & _ & [= <-])%bind_Ok_iff)%bind_Ok_iff)%bind_Ok_iff)%bind_Ok_iff)%bind_Ok_iff. split; [done|].
  unfold from_storage, calculate_mmr_roots in Hr. cbn [block_header] in Hr. case_bool_decide as Hp; [done|discriminate Hr].
Qed.

Lemma expect_block_Ok item prev db header block : expect_block item prev db = Ok (header, block) ->
  fetch_chain_header_by_block_hash (sb_hash item) db = Ok (Some header) /\ acc_hash (lh_accumulated_data header) = bh_hash (lh_header header) /\ bh_prev_hash (lh_header header) = prev /\
  exists body, sb_body item = Some body /\ block = {| block_header := lh_header header; block_body := body |}.
Proof.
  unfold expect_block. intros (u & _ & (found & Hf & (h & Hh & H)%bind_Ok_iff)%bind_Ok_iff)%bind_Ok_iff. case_bool_decide as Hp; [|discriminate H]. cbn [negb] in H.
  apply bind_Ok_iff in H as (body & Hb & [= <- <-]). apply ok_or_Ok in Hb. destruct found as [h'|]; [|discriminate Hh]. injection Hh as ->.
  destruct (fetch_chain_header_by_block_hash (sb_hash item) db) as [o| |] eqn:Hfetch; [|discriminate Hf..]. injection Hf as ->. split_and!; [done| |done|by exists body].
  unfold fetch_chain_header_by_block_hash in Hfetch. destruct (fetch_header_by_block_hash (sb_hash item) db) as [hd|]; [|discriminate Hfetch].
  destruct (or_not_found _) as [data| |]; [|discriminate Hfetch..]. cbn [mbind result_bind] in Hfetch. unfold header_try_construct in Hfetch. case_bool_decide as Heq; [|discriminate Hfetch].
  injection Hfetch as <-. done.
Qed.

Lemma bad_block_same_chain header db : same_chain db (add_to_bad_blocks manager header db).
Proof.
  unfold add_to_bad_blocks, db_write. cbn [foldM apply_operation]. unfold on_orphans. destruct (delete_orphan _ (orphans db)); done.
Qed.

(** A bad block that is not below the tip survives the clean-up. *)
Lemma bad_block_inserted hash height db : height_of_longest_chain (md_tip (metadata db)) <= height -> bad_block_exists hash (insert_bad_block_and_cleanup hash height db) = true.
Proof.
  intros Hh. unfold bad_block_exists, insert_bad_block_and_cleanup, CLEAN_BAD_BLOCKS_BEFORE_REL_HEIGHT. cbn [bad_blocks]. apply bool_decide_eq_true.
  destruct (Z.eqb_spec (Z.max 0 (height_of_longest_chain (md_tip (metadata db)) - 0)) 0); [rewrite lookup_insert_eq; by eexists|].
  exists height. apply map_lookup_filter_Some. rewrite lookup_insert_eq. split; [done|]. cbn [snd]. lia.
Qed.

Lemma store_block_stored header block db db' : store_block manager header block db = Ok db' ->
  md_tip (metadata db') = {| height_of_longest_chain := bh_height (block_header block); best_block := acc_hash (lh_accumulated_data header) |} /\
  rows_kept (lmdb db) (lmdb db') /\ body_stored (block_header block) (block_body block) (lmdb db').
Proof.
  unfold store_block. intros (cb & Hcb & H)%bind_Ok_iff. destruct (db_write _ _ _) as [db1| |] eqn:Hw; [|discriminate H..]. injection H as ->. unfold db_write in Hw. cbn [foldM] in Hw.
  apply ok_or_Ok in Hcb. unfold block_try_construct in Hcb. case_bool_decide; [|done]. injection Hcb as <-.
  apply bind_Ok_iff in Hw as (d1 & Ho & (d2 & Hb & (d3 & Hs & [= <-])%bind_Ok_iff)%bind_Ok_iff). cbn [apply_operation] in *. unfold on_orphans in Ho. unfold on_lmdb in Hb.
  apply bind_Ok_iff in Ho as (o & _ & [= <-]). apply bind_Ok_iff in Hb as (t & Ht & [= <-]). apply insert_body_stored in Ht as [Hkept Hst]. unfold set_best_block in Hs.
  destruct (_ && _); [discriminate Hs|]. destruct (_ !! _); [|discriminate Hs]. by injection Hs as <-.
Qed.

Lemma sync_block_cases fuel bypass item prev db db' r : sync_block manager fuel bypass item prev db = (db', r) ->
  (exists x, stores fuel bypass prev db item x db' /\ (r = Ok (bh_hash (lh_header x.1)) \/ r = Err MaxLatencyExceeded)) \/
  (same_chain db db' /\ forall hash, r <> Ok hash).
Proof.
  unfold sync_block. destruct (expect_block item prev db) as [[header sent]| |] eqn:He; [|by intros [= <- <-]; right..].
  apply expect_block_Ok in He as (Hfetch & Hacc & Hprev & body & Hbody & ->). destruct (full_validate manager fuel bypass db _ None) as [block|e|] eqn:Hv; [|intros [= <- <-]; right..|].
  - pose proof (full_validate_header _ _ _ _ _ _ Hv) as [Hhd Hbest]. cbn [block_header] in Hhd, Hbest. destruct (store_block manager header block db) as [db1| |] eqn:Hs; [|by intros [= <- <-]; right..].
    intros [= <- <-]. left. exists (header, block). rewrite Hacc. split; [|by destruct (sb_slow item); [right|left]]. apply store_block_stored in Hs as (Ht & Hk & Hst). rewrite Hhd in *.
    split; cbn [fst snd]; [done|done|congruence|by exists body|done|done|by rewrite Ht, Hacc].
  - split; [|done]. destruct (keeps_block e); [done|apply bad_block_same_chain].
  - intros [= <- <-]. by right.
Qed.

(** C9: whatever a peer sends, the block synchronisation moves the chain only along blocks that passed the full validator. A run stores blocks for the first items of the stream, one after the other:
    each is the block of the header the database has under the hash of the item, which builds on the tip it replaces, with the body of the item, and passed the full validator on the
    database of that moment. At the end the kernels, outputs and inputs of every one of them are in the tables, no row the database had before is lost, and the tip is the last block stored. A run that
    succeeds has stored a block for every item. *)
Theorem sync_blocks_stores fuel bypass stream : forall prev db db' r, sync_blocks manager fuel bypass stream prev db = (db', r) ->
  exists items rest xs db1, stream = map Some items ++ rest /\ stores_all fuel bypass prev db items xs db1 /\ same_chain db1 db' /\
    rows_kept (lmdb db) (lmdb db') /\ Forall (fun x => body_stored (lh_header x.1) (block_body x.2) (lmdb db')) xs /\
    (forall x, last xs = Some x -> best_block (md_tip (metadata db')) = bh_hash (lh_header x.1)) /\ (r = Ok tt -> rest = []).
Proof.
  cut (forall prev db db' r, sync_blocks manager fuel bypass stream prev db = (db', r) ->
    exists items rest xs db1, stream = map Some items ++ rest /\ stores_all fuel bypass prev db items xs db1 /\ same_chain db1 db' /\ (r = Ok tt -> rest = [])).
  { intros Hcut prev db db' r Hs. destruct (Hcut prev db db' r Hs) as (items & rest & xs & db1 & Hst & Hall & Hsame & Hr). exists items, rest, xs, db1.
    pose proof (stores_all_stored _ _ _ _ _ _ _ Hall) as (Hk & Hf & Hl). destruct Hsame as [Hlm Hmd]. rewrite Hlm, Hmd. by split_and!. }
  induction stream as [|[item|] stream IH]; intros prev db db' r H; cbn [sync_blocks] in H.
  - injection H as <- <-. exists [], [], [], db. by split_and!; [|constructor| |].
  - destruct (sync_block manager fuel bypass item prev db) as [db2 r2] eqn:Hs. destruct (sync_block_cases _ _ _ _ _ _ _ Hs) as [(x & Hst & Hr)|[Hsame Hr]].
    + destruct Hr as [-> | ->].
      * destruct (IH _ _ _ _ H) as (items & rest & xs & db1 & -> & Hall & Hsame & Hok). exists (item :: items), rest, (x :: xs), db1. by split_and!; [|econstructor| |].
      * injection H as <- <-. exists [item], stream, [x], db2. by split_and!; [|econstructor; [|constructor]| |].
    + exists [], (Some item :: stream), [], db. assert (db' = db2 /\ r <> Ok tt) as [-> Hne] by (destruct r2 as [h| |]; [by destruct (Hr h)|by injection H as <- <-..]).
      by split_and!; [|constructor| |].
  - injection H as <- <-. exists [], (None :: stream), [], db. by split_and!; [|constructor| |].
Qed.

(** C32: a peer that sends a body which the full validator refuses has the header refused that the body was sent for, whatever block the header belongs to. Unless the error is a fatal storage error or a
    custom error ([keeps_block]), and if the header is not below the tip
    and no orphan, its hash is among the bad blocks after the step, the chain is as before, and from then on no validation of that header succeeds, whatever
    its work and its timestamps are. *)
Theorem invalid_body_blacklists_header `{U256Ops} `{EpochOps} `{EpochMean} fuel bypass item prev db header block e :
  expect_block item prev db = Ok (header, block) -> full_validate manager fuel bypass db block None = Err e -> keeps_block e = false ->
  orphans_db (orphans db) !! bh_hash (lh_header header) = None -> height_of_longest_chain (md_tip (metadata db)) <= bh_height (lh_header header) ->
  let db' := (sync_block manager fuel bypass item prev db).1 in
  same_chain db db' /\ bad_block_exists (bh_hash (lh_header header)) db' = true /\
  forall bypass now prev_header timestamps target at_, header_validate manager bypass now db' (lh_header header) prev_header timestamps target <> Ok at_.
Proof.
  intros He Hv Hk Ho Hh db'. assert (db' = add_to_bad_blocks manager header db) as -> by (unfold db', sync_block; by rewrite He, Hv, Hk).
  apply expect_block_Ok in He as (_ & Hacc & _). split; [apply bad_block_same_chain|].
  assert (bad_block_exists (bh_hash (lh_header header)) (add_to_bad_blocks manager header db) = true) as Hbad.
  { unfold add_to_bad_blocks, db_write. cbn [foldM apply_operation]. unfold on_orphans, delete_orphan. rewrite Hacc, Ho. cbn [mbind result_bind].
    by apply bad_block_inserted. }
  split; [done|]. intros by_ now prev_header ts target at_ Hval. unfold header_validate in Hval. do 7 (apply bind_Ok_iff in Hval as (? & ? & Hval)).
  match goal with Hc : check_not_bad_block _ _ = Ok _ |- _ => unfold check_not_bad_block in Hc; rewrite Hbad in Hc; discriminate Hc end.
Qed.

End BlockSyncSpec.

(** * The block synchronisation reaches the last header

    When a peer sends the bodies of the headers that are stored ahead of the chain, in order, and each passes the full validator, the
    synchronisation of [FullValidator] stores them all: no write fails, and the last header is the tip. *)

Section BlockSyncLive.
Context {C : ScriptCrypto} {CL : ScriptCryptoLaws C} {B : BorshPrims C} {X : TxCrypto C} {L : TxLaws X} {ML : MoneroLib} {BH : BlockHashers} (manager : ConsensusManager).
Context (fuel : nat) (bypass : bool).

Implicit Types (db : Database) (bs all : list ChainBlock) (x p : ChainBlock).

Definition header_of x : LinkedHeader := {| lh_header := cb_header x; lh_accumulated_data := cb_accumulated_data x |}.

(** What an honest peer sends for a block. *)
Definition item_of x : StreamBlock := {| sb_hash := bh_hash (cb_header x); sb_body := Some (block_body (cb_block x)); sb_slow := false |}.

(** The database has the headers of [all] and the bodies of [bs]. *)
Record ahead all bs db : Prop := {
  ah_tables : represents (lmdb db) (map pair_of bs);
  ah_headers : header_tables (lmdb db) = header_tables_of all;
  ah_tip : md_tip (metadata db) = tip_of bs;
  ah_orphans : Forall (fun x => orphans_db (orphans db) !! cb_hash x = None) all;
}.

(** Each body passes the validator on the database that has the bodies before it. *)
Fixpoint bodies_valid db (blocks : list ChainBlock) : Prop :=
  match blocks with
  | [] => True
  | x :: blocks => full_validate manager fuel bypass db (cb_block x) None = Ok (cb_block x) /\
      forall db', store_block manager (header_of x) (cb_block x) db = Ok db' -> bodies_valid db' blocks
  end.

Lemma expect_item all bs db x prev : ahead all bs db -> blocks_ok all -> x ∈ all -> length (bh_hash (cb_header x)) = 32%nat -> bh_prev_hash (cb_header x) = prev ->
  expect_block (item_of x) prev db = Ok (header_of x, cb_block x).
Proof.
  intros Ha Hok Hx Hlen Hprev. unfold expect_block, fixed_hash. cbn [sb_hash item_of]. rewrite decide_True by done. cbn [map_err mbind result_bind].
  destruct (header_lookup all x Hok Hx) as (H1 & H2 & H3).
  assert (fetch_chain_header_by_block_hash (bh_hash (cb_header x)) db = Ok (Some (header_of x))) as ->.
  { unfold fetch_chain_header_by_block_hash, fetch_header_by_block_hash, fetch_header_accumulated_data. rewrite (ah_headers _ _ _ Ha), H3. cbn [mbind option_bind]. rewrite H1, H2.
    cbn [or_not_found ok_or mbind result_bind]. unfold header_try_construct. rewrite bool_decide_true; [done|]. exact (block_hash_eq all x Hok Hx). }
  cbn [map_err mbind result_bind ok_or]. rewrite bool_decide_true by done. cbn [negb sb_body item_of ok_or mbind result_bind]. unfold header_of, cb_header. by destruct (cb_block x).
Qed.

Lemma store_Ok all bs p db x : ahead all (p :: bs) db -> blocks_ok all -> x ∈ all -> blocks_ok (x :: p :: bs) ->
  exists db', store_block manager (header_of x) (cb_block x) db = Ok db' /\ ahead all (x :: p :: bs) db'.
Proof.
  intros Ha Hok Hx Hxok. pose proof Hxok as [Hf Hbs]. destruct (header_lookup all x Hok Hx) as (H1 & _ & H3). rewrite <- (ah_headers _ _ _ Ha) in H1, H3.
  pose proof (fo_hash _ _ Hf) as Hacc. pose proof (ah_orphans _ _ _ Ha) as Ho. rewrite Forall_forall in Ho.
  destruct (insert_block_body_Ok manager (lmdb db) (map pair_of (p :: bs)) (cb_header x) (block_body (cb_block x))) as (t & Hins & Hrep & _ & Hht);
    [apply Ha|exact (blocks_chain_ok _ Hxok)|done|done|].
  unfold store_block, block_try_construct. cbn [header_of lh_accumulated_data lh_header]. rewrite bool_decide_true by done. cbn [ok_or mbind result_bind].
  unfold db_write. cbn [foldM apply_operation]. unfold on_orphans, delete_orphan. fold (cb_hash x). rewrite (Ho x Hx). cbn [mbind result_bind].
  unfold on_lmdb. cbn [lmdb with_orphans]. fold (cb_header x) in *. change (cb_header {| cb_accumulated_data := cb_accumulated_data x; cb_block := cb_block x |}) with (cb_header x).
  cbn [cb_block]. rewrite Hins. cbn [mbind result_bind]. unfold set_best_block. cbn [lmdb with_lmdb with_orphans metadata]. rewrite Hht. unfold cb_hash. rewrite Hacc, H3.
  rewrite (ah_tip _ _ _ Ha). cbn [tip_of best_block]. rewrite (fo_prev _ _ Hf), (block_hash_eq (p :: bs) p Hbs ltac:(left)), bool_decide_true by done. cbn [negb]. rewrite andb_false_r.
  cbn [mbind result_bind map_err]. eexists. split; [done|]. split; cbn [lmdb with_metadata with_lmdb with_orphans metadata md_tip orphans tip_of]; try done; [by rewrite Hht, (ah_headers _ _ _ Ha)|unfold cb_hash; by rewrite Hacc|apply Ha].
Qed.

Lemma sync_all blocks : forall p bs db, let all := rev blocks ++ p :: bs in ahead all (p :: bs) db -> blocks_ok all ->
  Forall (fun x => length (bh_hash (cb_header x)) = 32%nat) blocks -> bodies_valid db blocks ->
  exists db', sync_blocks manager fuel bypass (map (fun x => Some (item_of x)) blocks) (cb_hash p) db = (db', Ok tt) /\ ahead all all db'.
Proof.
  induction blocks as [|x blocks IH]; intros p bs db all Ha Hok Hlen Hv; [by exists db|]. apply Forall_cons in Hlen as [Hlx Hlen]. destruct Hv as [Hvx Hv].
  assert (all = rev blocks ++ x :: p :: bs) as Hall by (unfold all; cbn [rev]; by rewrite <- app_assoc). rewrite Hall in *. clear all Hall.
  assert (x ∈ rev blocks ++ x :: p :: bs) as Hx by (apply elem_of_app; right; left). pose proof (blocks_ok_suffix _ _ Hok) as Hxok.
  destruct (store_Ok _ _ _ _ _ Ha Hok Hx Hxok) as (db1 & Hs & Ha1). destruct (IH x (p :: bs) db1 Ha1 Hok Hlen (Hv db1 Hs)) as (db' & Hsync & Ha').
  exists db'. split; [|done]. cbn [map sync_blocks]. unfold sync_block. rewrite (expect_item _ _ _ x (cb_hash p) Ha Hok Hx Hlx), Hvx, Hs.
  - exact Hsync.
  - destruct Hxok as [Hf Hbs]. by rewrite (fo_prev _ _ Hf), (block_hash_eq (p :: bs) p Hbs ltac:(left)).
Qed.


End BlockSyncLive.
