(* ===== verification/ChunkIter.v ===== *)
(** * Ranges of integers in chunks

    src/base_layer/core/src/iterators/chunk.rs: [NonOverlappingIntegerPairIter], from both ends, and [VecChunkIter]; at a width given by its
    largest integer. The forward iterator gives the chunks of the range in order, the backward one the same chunks in the opposite order. *)

From S2P Require Import Prelude.

Local Open Scope Z_scope.

Section ChunkIter.
Context (MAX : Z).

Record NonOverlappingIntegerPairIter := { pi_current : Z; pi_current_end : Z; pi_end : Z; pi_size : Z }.

Definition pairs_new {E} (start end_exclusive chunk_size : Z) : result E NonOverlappingIntegerPairIter :=
  if start <=? end_exclusive then Ok {| pi_current := start; pi_current_end := end_exclusive; pi_end := end_exclusive; pi_size := chunk_size |} else Panic.

Definition set_current (current : Z) (self : NonOverlappingIntegerPairIter) : NonOverlappingIntegerPairIter :=
  {| pi_current := current; pi_current_end := pi_current_end self; pi_end := pi_end self; pi_size := pi_size self |}.
Definition set_current_end (current_end : Z) (self : NonOverlappingIntegerPairIter) : NonOverlappingIntegerPairIter :=
  {| pi_current := pi_current self; pi_current_end := current_end; pi_end := pi_end self; pi_size := pi_size self |}.

Definition pairs_next (self : NonOverlappingIntegerPairIter) : option ((Z * Z) * NonOverlappingIntegerPairIter) :=
  if pi_size self =? 0 then None
  else if pi_current self =? MAX then None
  else if pi_current self =? pi_end self then None
  else
    match checked 0 MAX (pi_current self + pi_size self) with
    | Some next =>
        let next := Z.min next (pi_end self) in
        if pi_current self =? next then None else Some ((pi_current self, next - 1), set_current next self)
    | None => Some ((pi_current self, MAX - 1), set_current MAX self)
    end.

Definition pairs_next_back (self : NonOverlappingIntegerPairIter) : option ((Z * Z) * NonOverlappingIntegerPairIter) :=
  let size := pi_size self in
  let full_chunk := let next := Z.max 0 (pi_current_end self - size) in Some ((next, pi_current_end self - 1), set_current_end next self) in
  if (size =? 0) || (pi_current_end self =? 0) then None
  else if pi_current_end self =? pi_current self then None
  else if pi_end self =? pi_current_end self then
    let rem := (pi_end self - pi_current self) mod size in
    let aligned := Z.max 0 (pi_current_end self - rem) in
    if (0 <? rem) && negb (bool_decide (is_Some (checked 0 MAX (aligned + size)))) then Some ((aligned, MAX - 1), set_current_end aligned self)
    else if 0 <? rem then Some ((pi_end self - rem, pi_end self - 1), set_current_end (pi_end self - rem) self)
    else full_chunk
  else full_chunk.

(** The chunks an iterator gives, at most [n]. *)
Fixpoint collect (next : NonOverlappingIntegerPairIter -> option ((Z * Z) * NonOverlappingIntegerPairIter)) (n : nat) (self : NonOverlappingIntegerPairIter) : list (Z * Z) :=
  match n with
  | O => []
  | S n => match next self with Some (chunk, self) => chunk :: collect next n self | None => [] end
  end.

(** [VecChunkIter::next] *)
Definition range_inclusive (chunk : Z * Z) : list Z := map (fun i => chunk.1 + Z.of_nat i) (seq 0 (Z.to_nat (chunk.2 - chunk.1 + 1))).
Definition vec_next (self : NonOverlappingIntegerPairIter) : option (list Z * NonOverlappingIntegerPairIter) :=
  '(chunk, self) ← pairs_next self;
  Some (range_inclusive chunk, self).

(** ** The chunks *)

(** [k] full chunks from [start] on, then the rest up to [end_], which reaches too far where the next chunk would overflow. *)
Definition full_chunks (start size : Z) (k : nat) : list (Z * Z) := map (fun i => (start + Z.of_nat i * size, start + (Z.of_nat i + 1) * size - 1)) (seq 0 k).
Definition last_chunk (start end_ size : Z) : list (Z * Z) :=
  if start =? end_ then [] else [(start, (if start + size <=? MAX then end_ else MAX) - 1)].
Definition chunks (start end_ size : Z) : list (Z * Z) :=
  let k := Z.to_nat ((end_ - start) / size) in
  full_chunks start size k ++ last_chunk (start + Z.of_nat k * size) end_ size.

Lemma full_chunks_cons start size k : full_chunks start size (S k) = (start, start + size - 1) :: full_chunks (start + size) size k.
Proof.
  unfold full_chunks. cbn [seq map]. f_equal; [f_equal; lia|]. rewrite <- seq_shift, map_map. apply map_ext. intros i. f_equal; lia.
Qed.

Lemma full_chunks_snoc start size k : full_chunks start size (S k) = full_chunks start size k ++ [(start + Z.of_nat k * size, start + (Z.of_nat k + 1) * size - 1)].
Proof. unfold full_chunks. by rewrite seq_S, map_app. Qed.

Section Forward.
Context (end_ size : Z).
Hypothesis Hend : end_ <= MAX.
Hypothesis Hsize : 0 < size.

Lemma next_done ce : pairs_next {| pi_current := end_; pi_current_end := ce; pi_end := end_; pi_size := size |} = None.
Proof. unfold pairs_next. cbn. rewrite Z.eqb_refl. by destruct (size =? 0), (end_ =? MAX). Qed.

Lemma next_chunk start ce : 0 <= start < end_ -> start + size <= MAX ->
  pairs_next {| pi_current := start; pi_current_end := ce; pi_end := end_; pi_size := size |} =
  Some ((start, Z.min (start + size) end_ - 1), {| pi_current := Z.min (start + size) end_; pi_current_end := ce; pi_end := end_; pi_size := size |}).
Proof.
  intros Hs Hle. unfold pairs_next. cbn. rewrite !(proj2 (Z.eqb_neq _ _)) by lia. rewrite checked_ok by lia. by rewrite (proj2 (Z.eqb_neq _ _)) by lia.
Qed.

Lemma next_overflow start ce : 0 <= start < end_ -> MAX < start + size ->
  pairs_next {| pi_current := start; pi_current_end := ce; pi_end := end_; pi_size := size |} =
  Some ((start, MAX - 1), {| pi_current := MAX; pi_current_end := ce; pi_end := end_; pi_size := size |}).
Proof.
  intros Hs Hle. unfold pairs_next. cbn. rewrite !(proj2 (Z.eqb_neq _ _)) by lia. destruct (checked 0 MAX (start + size)) eqn:Hc; [apply checked_Some in Hc; lia|done].
Qed.

Lemma next_max ce : pairs_next {| pi_current := MAX; pi_current_end := ce; pi_end := end_; pi_size := size |} = None.
Proof. unfold pairs_next. cbn. rewrite Z.eqb_refl. by destruct (size =? 0). Qed.

Lemma chunks_nil : chunks end_ end_ size = [].
Proof. unfold chunks, last_chunk. rewrite Z.sub_diag, Zdiv_0_l. cbn. by rewrite Z.add_0_r, Z.eqb_refl. Qed.

Lemma chunks_small start : start < end_ -> end_ < start + size -> chunks start end_ size = [(start, (if start + size <=? MAX then end_ else MAX) - 1)].
Proof. intros. unfold chunks, last_chunk. rewrite (Z.div_small (end_ - start)) by lia. cbn. by rewrite Z.add_0_r, (proj2 (Z.eqb_neq _ _)) by lia. Qed.

Lemma chunks_cons start : start + size <= end_ -> chunks start end_ size = (start, start + size - 1) :: chunks (start + size) end_ size.
Proof.
  intros Hle. unfold chunks. replace (end_ - start) with (end_ - (start + size) + 1 * size) by lia. rewrite Z.div_add by lia.
  assert (0 <= (end_ - (start + size)) / size) by (apply Z.div_pos; lia). replace (Z.to_nat ((end_ - (start + size)) / size + 1)) with (S (Z.to_nat ((end_ - (start + size)) / size))) by lia.
  rewrite full_chunks_cons. cbn [app]. do 2 f_equal. f_equal. lia.
Qed.

Lemma forward_chunks n : forall start ce, 0 <= start <= end_ -> (Z.to_nat (end_ - start) < n)%nat ->
  collect pairs_next n {| pi_current := start; pi_current_end := ce; pi_end := end_; pi_size := size |} = chunks start end_ size.
Proof.
  induction n as [|n IH]; intros start ce Hs Hn; [lia|]. cbn [collect]. destruct (Z.eq_dec start end_) as [->|Hne]; [by rewrite next_done, chunks_nil|].
  destruct (Z.le_gt_cases (start + size) MAX) as [Hle|Hgt].
  - rewrite next_chunk, IH by lia. destruct (Z.le_gt_cases (start + size) end_).
    + by rewrite Z.min_l, (chunks_cons start) by lia.
    + rewrite Z.min_r, chunks_nil, chunks_small by lia. by rewrite (proj2 (Z.leb_le _ _)) by lia.
  - rewrite next_overflow, chunks_small by lia. rewrite (proj2 (Z.leb_gt _ _)) by lia. f_equal. destruct n; [done|]. cbn [collect]. by rewrite next_max.
Qed.

(** From the back, below the last chunk. *)
Lemma back_full start current_end : start < current_end < end_ -> 0 <= start -> start <= current_end - size ->
  pairs_next_back {| pi_current := start; pi_current_end := current_end; pi_end := end_; pi_size := size |} =
  Some ((current_end - size, current_end - 1), {| pi_current := start; pi_current_end := current_end - size; pi_end := end_; pi_size := size |}).
Proof.
  intros. unfold pairs_next_back, set_current_end. cbn. rewrite !(proj2 (Z.eqb_neq _ _)) by lia. cbn. by rewrite Z.max_r by lia.
Qed.

Lemma back_done start : pairs_next_back {| pi_current := start; pi_current_end := start; pi_end := end_; pi_size := size |} = None.
Proof. unfold pairs_next_back. cbn. rewrite Z.eqb_refl. by destruct (_ || _). Qed.

Lemma backward_full start k n : 0 <= start -> start + Z.of_nat k * size < end_ -> (k < n)%nat ->
  collect pairs_next_back n {| pi_current := start; pi_current_end := start + Z.of_nat k * size; pi_end := end_; pi_size := size |} = rev (full_chunks start size k).
Proof.
  revert n. induction k as [|k IH]; intros n Hs Hlt Hn; destruct n as [|n]; try lia; cbn [collect].
  - rewrite Z.mul_0_l, Z.add_0_r. by rewrite back_done.
  - rewrite back_full by nia. replace (start + Z.of_nat (S k) * size - size) with (start + Z.of_nat k * size) by lia.
    rewrite IH by nia. rewrite full_chunks_snoc, rev_app_distr. cbn [rev app]. f_equal. f_equal. lia.
Qed.

(** The first chunk from the back. *)
Lemma back_first start rem : 0 <= start < end_ -> rem = (end_ - start) mod size ->
  pairs_next_back {| pi_current := start; pi_current_end := end_; pi_end := end_; pi_size := size |} =
  let bottom := if rem =? 0 then end_ - size else end_ - rem in
  Some ((bottom, (if (rem =? 0) || (bottom + size <=? MAX) then end_ else MAX) - 1), {| pi_current := start; pi_current_end := bottom; pi_end := end_; pi_size := size |}).
Proof.
  intros Hs Hrem. pose proof (Z.mod_pos_bound (end_ - start) size Hsize) as Hmod. pose proof (Z.mod_le (end_ - start) size ltac:(lia) Hsize). rewrite <- Hrem in *.
  unfold pairs_next_back, set_current_end. cbn [pi_size pi_current_end pi_current pi_end].
  rewrite (proj2 (Z.eqb_neq size 0)), (proj2 (Z.eqb_neq end_ 0)), (proj2 (Z.eqb_neq end_ start)), Z.eqb_refl by lia. cbn [orb]. rewrite <- Hrem. destruct (Z.eqb_spec rem 0) as [->|Hne].
  - cbn. assert (size <= end_ - start).
    { destruct (Z.le_gt_cases size (end_ - start)); [done|]. rewrite Z.mod_small in Hrem by lia. lia. }
    by rewrite Z.max_r by lia.
  - rewrite (proj2 (Z.ltb_lt 0 rem)) by lia. cbn [andb]. rewrite Z.max_r by lia. cbn [orb]. destruct (Z.leb_spec (end_ - rem + size) MAX) as [Hle|Hgt].
    + by rewrite checked_ok by lia.
    + rewrite bool_decide_false; [done|]. intros [v Hv]. apply checked_Some in Hv as [_ Hv]. lia.
Qed.

End Forward.

(** The backward iterator gives the chunks of the forward one in the opposite order, whatever the bounds. *)
Lemma iterator_symmetry start end_ size n : 0 <= start <= end_ -> end_ <= MAX -> 0 < size -> (Z.to_nat (end_ - start) < n)%nat ->
  let iter := {| pi_current := start; pi_current_end := end_; pi_end := end_; pi_size := size |} in
  collect pairs_next_back n iter = rev (collect pairs_next n iter).
Proof.
  intros Hs He Hsize Hn iter. unfold iter. rewrite forward_chunks by done. destruct (Z.eq_dec start end_) as [->|Hne].
  { rewrite chunks_nil by done. destruct n; [done|]. cbn [collect]. by rewrite back_done. }
  destruct n as [|n]; [lia|]. cbn [collect]. rewrite back_first with (rem := (end_ - start) mod size) by (done || lia). unfold chunks. set (rem := (end_ - start) mod size).
  assert (0 <= (end_ - start) / size) by (apply Z.div_pos; lia). pose proof (Z.div_mod (end_ - start) size ltac:(lia)) as Hdm. pose proof (Z.mod_pos_bound (end_ - start) size Hsize) as Hmod.
  fold rem in Hdm, Hmod. set (k := Z.to_nat ((end_ - start) / size)). assert (end_ = start + Z.of_nat k * size + rem) as Hend by (unfold k; rewrite Z2Nat.id by done; lia).
  assert (Z.of_nat k <= end_ - start) by nia. clearbody k rem. cbv zeta. unfold last_chunk. destruct (Z.eqb_spec rem 0) as [->|Hr0]; cbn [orb].
  - rewrite (proj2 (Z.eqb_eq (start + _) end_)), app_nil_r by lia. destruct k as [|k]; [lia|]. replace (end_ - size) with (start + Z.of_nat k * size) by lia.
    rewrite backward_full by nia. rewrite full_chunks_snoc, rev_app_distr. cbn [rev app]. f_equal. f_equal. lia.
  - rewrite (proj2 (Z.eqb_neq (start + _) end_)), rev_app_distr by lia. cbn [rev app]. replace (end_ - rem) with (start + Z.of_nat k * size) by lia. by rewrite backward_full by nia.
Qed.

Definition integers (a b : Z) : list Z := map (fun i => a + Z.of_nat i) (seq 0 (Z.to_nat (b - a))).

Lemma integers_app a m b : a <= m <= b -> integers a b = integers a m ++ integers m b.
Proof.
  intros H. unfold integers. replace (Z.to_nat (b - a)) with (Z.to_nat (m - a) + Z.to_nat (b - m))%nat by lia. rewrite seq_app, map_app. f_equal.
  rewrite Nat.add_comm, <- fmap_add_seq. change (fmap ?f ?l) with (map f l). rewrite map_map. apply map_ext. intros i. lia.
Qed.

Lemma range_integers a b : range_inclusive (a, b - 1) = integers a b.
Proof. unfold range_inclusive, integers. cbn. by replace (b - 1 - a + 1) with (b - a) by lia. Qed.

Lemma chunks_integers end_ size : 0 < size -> forall n start, 0 <= start <= end_ -> end_ + size <= MAX -> (Z.to_nat (end_ - start) <= n)%nat ->
  concat (map range_inclusive (chunks start end_ size)) = integers start end_ /\ Forall (fun chunk => chunk.1 <= chunk.2 < chunk.1 + size) (chunks start end_ size).
Proof.
  intros Hsize. induction n as [|n IH]; intros start Hs He Hn; (destruct (Z.eq_dec start end_) as [->|Hne]; [rewrite chunks_nil by done; split; [|done]; unfold integers; by rewrite Z.sub_diag|]); [lia|].
  destruct (Z.le_gt_cases (start + size) end_).
  - rewrite chunks_cons by lia. destruct (IH (start + size)) as [IH1 IH2]; [lia..|]. cbn [map concat]. rewrite IH1, range_integers, <- integers_app by lia. split; [done|]. constructor; [cbn; lia|done].
  - rewrite chunks_small, (proj2 (Z.leb_le _ _)) by lia. cbn [map concat]. rewrite range_integers, app_nil_r. split; [done|]. constructor; [cbn; lia|done].
Qed.

(** When no chunk overflows, the chunks give the integers of the range, each once and in order, at most [size] at a time. *)
Lemma chunks_cover start end_ size n : 0 <= start <= end_ -> end_ + size <= MAX -> 0 < size -> (Z.to_nat (end_ - start) < n)%nat ->
  let pairs := collect pairs_next n {| pi_current := start; pi_current_end := end_; pi_end := end_; pi_size := size |} in
  concat (map range_inclusive pairs) = integers start end_ /\ Forall (fun chunk => chunk.1 <= chunk.2 < chunk.1 + size) pairs.
Proof. intros Hs He Hsize Hn pairs. unfold pairs. rewrite forward_chunks by lia. by apply (chunks_integers end_ size Hsize (Z.to_nat (end_ - start))). Qed.

(** The chunks of a range. For a range that ends at least a chunk before the largest integer, the pairs the iterator gives cover the integers of the range once each and in order, no chunk has
    more integers than the size asked for, and the iterator run from the end gives the same chunks in the opposite order. *)
Theorem chunk_iteration_correct start end_ size n : 0 <= start <= end_ -> end_ + size <= MAX -> 0 < size -> (Z.to_nat (end_ - start) < n)%nat ->
  let iter := {| pi_current := start; pi_current_end := end_; pi_end := end_; pi_size := size |} in
  concat (map range_inclusive (collect pairs_next n iter)) = integers start end_ /\ Forall (fun chunk => chunk.1 <= chunk.2 < chunk.1 + size) (collect pairs_next n iter) /\
  collect pairs_next_back n iter = rev (collect pairs_next n iter).
Proof. intros Hs He Hsize Hn iter. destruct (chunks_cover start end_ size n Hs He Hsize Hn) as [H1 H2]. split; [exact H1|]. split; [exact H2|]. apply iterator_symmetry; lia. Qed.

End ChunkIter.

(** Near the largest integer the last chunk reaches beyond the end of the range. *)
Theorem chunk_beyond_end : collect (pairs_next U64_MAX) 2
  {| pi_current := U64_MAX - 5; pi_current_end := U64_MAX - 3; pi_end := U64_MAX - 3; pi_size := 10 |} = [(U64_MAX - 5, U64_MAX - 1)].
Proof. done. Qed.

Lemma chunk_iteration_correct_witness :
  collect (pairs_next U64_MAX) 11 {| pi_current := 3; pi_current_end := 13; pi_end := 13; pi_size := 4 |} = [(3, 6); (7, 10); (11, 12)] /\
  collect (pairs_next_back U64_MAX) 11 {| pi_current := 3; pi_current_end := 13; pi_end := 13; pi_size := 4 |} = [(11, 12); (7, 10); (3, 6)].
Proof.
  destruct (chunk_iteration_correct U64_MAX 3 13 4 11) as (_ & _ & H); [lia|unfold U64_MAX; lia|lia|lia|]. split; [reflexivity|]. rewrite H. reflexivity.
Defined.
