(* ===== verification/HorizonSync.v ===== *)
(** * Horizon state synchronisation

    src/base_layer/core/src/base_node/sync/horizon_state_sync/synchronizer.rs: a node that does not keep all blocks asks a peer for the kernels
    and the outputs of a chain whose headers it has, checks them against the headers, and makes the header of the horizon its tip when the balance of
    the chain validates; validation/chain_balance.rs: [ChainBalanceValidator].

    What a peer sends is a list of items in the order they arrive. Items are decoded messages, or say that the transport or the decoding failed, and
    whether the average latency after the item is above the maximum. What was written before an error stays written. *)

From S2P Require Import Prelude ScriptTypes Opcodes ScriptStack TariScript Amounts Emission Difficulty ConsensusConstants ConsensusManager MmrCommon Mmr MutableMmr BalancedMerkle.
From S2P Require Import Covenants MoneroMerkle TxComponents BlockHeader CovenantFilters AggregatedBody BodyValidator ChainStorage ChainDatabase Reorg HeaderValidator FullValidator.

Local Open Scope Z_scope.

Inductive MmrTree := UtxoTree | KernelTree | WitnessTree.

(** The codes of a status the service answers with. *)
Inductive RpcStatus := RpcNotFound | RpcBadRequest | RpcForbidden | RpcGeneral.

(** Errors of the transport; those that are not treated in a way of their own are one. *)
Inductive RpcError := ReplyTimeout | HandshakeTimedOut | RequestFailed (status : RpcStatus) | OtherRpcError.

Inductive DialError := DialConnectivity | DialRpc (e : RpcError).

Inductive HorizonSyncError :=
| IncorrectResponse
| HorizonStorageError (e : ChainStorageError)
| FinalStateValidationFailed (e : ValidationError)
| HorizonRangeProofError (e : RangeProofError)
| HorizonTransactionError (e : TransactionError)
| InvalidKernelSignature (e : TransactionError)
| InvalidMmrRoot (mmr_tree : MmrTree) (at_height : Z)
| HorizonRpcError (e : RpcError)
| HorizonRpcStatus
| HorizonConversionError
| HorizonMmrError
| HorizonConnectivityError
| HorizonValidationError (e : ValidationError)
| NoSyncPeers
| FailedSyncAllPeers
| HorizonMaxLatencyExceeded
| AllSyncPeersExceedLatency
| HorizonFixedHashSizeError
| HorizonFuelExhausted.

(** [Bitmap::try_deserialize] of the croaring library. *)
Class BitmapDecoder := try_deserialize : bytes -> option (gset Z).

(** An item of a stream. *)
Inductive Received (A : Type) := RpcFailed | Undecodable | Decoded (a : A).
Arguments RpcFailed {A}.
Arguments Undecodable {A}.
Arguments Decoded {A} a.

Definition received {A} (item : Received A) : result HorizonSyncError A :=
  match item with RpcFailed => Err HorizonRpcStatus | Undecodable => Err HorizonConversionError | Decoded a => Ok a end.

Section Messages.
Context {C : ScriptCrypto} {X : TxCrypto C}.

(** [UtxoOrDeleted]; [None] for an output that does not convert. *)
Inductive UtxoOrDeleted :=
| SyncOutput (output : option TransactionOutput)
| SyncPrunedOutput (hash witness_hash : bytes)
| DeletedDiff (diff_bitmap : bytes)
| InvalidSyncUtxo.

Record SyncUtxosResponse := { mmr_index : Z; utxo_or_deleted : option UtxoOrDeleted }.

Record Timed (A : Type) := { ti_item : A; ti_slow : bool }.

(** What a peer does: accept the connection or not, and answer the two requests. *)
Record SyncSource := {
  ss_dial : option DialError;
  ss_kernels : result RpcError (list (Timed (Received TransactionKernel)));
  ss_outputs : result RpcError (list (Timed (Received SyncUtxosResponse)));
}.

End Messages.
Arguments ti_item {A}.
Arguments ti_slow {A}.

(** ** Operations on the database *)

Section Monad.
Context {C : ScriptCrypto} {X : TxCrypto C}.

Definition hsM (A : Type) : Type := Database -> Database * result HorizonSyncError A.

#[export] Instance hsM_ret : MRet hsM := fun A a db => (db, Ok a).

#[export] Instance hsM_bind : MBind hsM := fun A A' k m db =>
  match m db with
  | (db, Ok a) => k a db
  | (db, Err e) => (db, Err e)
  | (db, Panic) => (db, Panic)
  end.

Definition hs_lift {A} (r : result HorizonSyncError A) : hsM A := fun db => (db, r).

Definition hs_read {A} (f : Database -> stored_result A) : hsM A := fun db => (db, map_err HorizonStorageError (f db)).

Definition hs_run {A} (m : dbM A) : hsM A := fun db => let '(db, r) := m db in (db, map_err HorizonStorageError r).

Fixpoint hs_for {A S} (f : S -> A -> hsM S) (l : list A) (s : S) : hsM S :=
  match l with
  | [] => mret s
  | x :: l => s ← f s x; hs_for f l s
  end.

End Monad.

Section HorizonSync.
Context {C : ScriptCrypto} {B : BorshPrims C} {X : TxCrypto C} {ML : MoneroLib} {BH : BlockHashers} {BD : BitmapDecoder} (manager : ConsensusManager).

(** ** Reads *)

(** A length of a table. *)
Definition fetch_mmr_size (tree : MmrTree) (db : Database) : Z :=
  match tree with
  | KernelTree => Z.of_nat (size (kernels_db (kernel_tables (lmdb db))))
  | WitnessTree | UtxoTree => Z.of_nat (size (utxos_db (txo_tables (lmdb db))))
  end.

Definition fetch_header_containing_kernel_mmr (mmr_position : Z) (db : Database) : stored_result LinkedHeader :=
  mmr_position ← arith 0 U64_MAX (mmr_position + 1);
  height ← or_not_found (lmdb_first_after mmr_position (kernel_mmr_size_index (header_tables (lmdb db))));
  fetch_chain_header_by_height height db.

Definition fetch_header_containing_utxo_mmr (mmr_position : Z) (db : Database) : stored_result LinkedHeader :=
  mmr_position ← arith 0 U64_MAX (mmr_position + 1);
  '(height, _) ← or_not_found (lmdb_first_after mmr_position (output_mmr_size_index (header_tables (lmdb db))));
  fetch_chain_header_by_height height db.

Definition fetch_block_accumulated_data (at_hash : bytes) (db : Database) : stored_result BlockAccumulatedData :=
  height ← or_not_found (block_hashes_db (header_tables (lmdb db)) !! at_hash);
  or_not_found (block_accumulated_data_db (lmdb db) !! height).

Definition fetch_utxos_in_block (hash : bytes) (deleted : option (gset Z)) (db : Database) : stored_result (list PrunedOutput * gset Z) :=
  let utxos := map (fun row =>
    if match deleted with Some b => bool_decide (or_mmr_position row ∈ b) | None => false end then Pruned (or_hash row) (or_witness_hash row)
    else row_to_pruned row) (output_rows_of hash (utxos_db (txo_tables (lmdb db)))) in
  height ← or_not_found (block_hashes_db (header_tables (lmdb db)) !! hash);
  acc_data ← or_not_found (block_accumulated_data_db (lmdb db) !! height);
  Ok (utxos, acc_deleted acc_data).

(** ** Kernels *)

Record KernelSync := { kn_header : LinkedHeader; kn_hashes : list bytes; kn_txn : list WriteOperation; kn_position : Z }.

Definition header_hash (self : LinkedHeader) : bytes := acc_hash (lh_accumulated_data self).

Definition kernels_update (leaves : list bytes) : AccumulatedDataUpdate :=
  {| kernel_hash_set := Some leaves; utxo_hash_set := None; witness_hash_set := None; deleted_diff := None; update_kernel_sum := None |}.

(** The last kernel of a block: the root is checked and the kernels of the block are written. *)
Definition commit_kernels (last : Z) (st : KernelSync) : hsM KernelSync :=
  let header := kn_header st in
  block_data ← hs_read (fetch_block_accumulated_data (bh_prev_hash (lh_header header)));
  let leaves := acc_kernels block_data ++ kn_hashes st in
  mmr_root ← hs_lift (map_err (fun _ => HorizonMmrError) (range_root kernel_hasher leaves));
  if negb (bool_decide (mmr_root = bh_kernel_mr (lh_header header))) then hs_lift (Err (InvalidMmrRoot KernelTree (bh_height (lh_header header))))
  else
    _ ← hs_run (write manager (kn_txn st ++ [UpdateBlockAccumulatedData (header_hash header) (kernels_update leaves)]));
    header ← (if kn_position st <? last then
                next ← hs_lift (arith 0 U64_MAX (bh_height (lh_header header) + 1));
                hs_read (fetch_chain_header_by_height next)
              else mret header);
    mret {| kn_header := header; kn_hashes := []; kn_txn := []; kn_position := kn_position st |}.

Definition sync_kernel (end_ : Z) (st : KernelSync) (item : Timed (Received TransactionKernel)) : hsM KernelSync :=
  kernel ← hs_lift (received (ti_item item));
  _ ← hs_lift (map_err InvalidKernelSignature (verify_signature kernel));
  let st := {| kn_header := kn_header st; kn_hashes := kn_hashes st ++ [kernel_hash kernel];
               kn_txn := kn_txn st ++ [InsertKernel (header_hash (kn_header st)) kernel (as_u32 (kn_position st))]; kn_position := kn_position st |} in
  last_of_block ← hs_lift (arith 0 U64_MAX (bh_kernel_mmr_size (lh_header (kn_header st)) - 1));
  st ← (if kn_position st =? last_of_block then commit_kernels (end_ - 1) st else mret st);
  position ← hs_lift (arith 0 U64_MAX (kn_position st + 1));
  if ti_slow item then hs_lift (Err HorizonMaxLatencyExceeded)
  else mret {| kn_header := kn_header st; kn_hashes := kn_hashes st; kn_txn := kn_txn st; kn_position := position |}.

Definition synchronize_kernels (peer : SyncSource) (to_header : BlockHeader) : hsM unit :=
  local_num_kernels ← hs_read (fun db => Ok (fetch_mmr_size KernelTree db));
  let remote_num_kernels := bh_kernel_mmr_size to_header in
  if remote_num_kernels <=? local_num_kernels then mret tt
  else
    current_header ← hs_read (fetch_header_containing_kernel_mmr local_num_kernels);
    kernel_stream ← hs_lift (map_err HorizonRpcError (ss_kernels peer));
    st ← hs_for (sync_kernel remote_num_kernels) kernel_stream {| kn_header := current_header; kn_hashes := []; kn_txn := []; kn_position := local_num_kernels |};
    if kn_position st =? remote_num_kernels then mret tt else hs_lift (Err IncorrectResponse).

(** ** Outputs *)

Record OutputSync := {
  on_header : LinkedHeader;
  on_txn : list WriteOperation;
  on_unpruned : list TransactionOutput;
  on_position : Z;
  on_outputs : list bytes;
  on_witness : list bytes;
  on_max_script_size : Z;
  on_bitmap : gset Z;
}.

Fixpoint take_chunks (concurrency chunk_size : nat) (l : list TransactionOutput) : list (list TransactionOutput) :=
  match concurrency, l with
  | S concurrency, _ :: _ => take chunk_size l :: take_chunks concurrency chunk_size (drop chunk_size l)
  | _, _ => []
  end.

(** The chunks are verified in parallel; the error reported is that of a chunk that fails. *)
Definition validate_rangeproofs (concurrency : nat) (unpruned_outputs : list TransactionOutput) : result HorizonSyncError unit :=
  match concurrency with
  | O => Panic
  | _ =>
      let chunk_size := (length unpruned_outputs / concurrency)%nat in
      let chunk_size := if (0 <? length unpruned_outputs mod concurrency)%nat then S chunk_size else chunk_size in
      foldM (fun _ chunk => map_err HorizonRangeProofError (batch_verify_range_proofs chunk)) (take_chunks concurrency chunk_size unpruned_outputs) tt
  end.

Definition MAX_DIFF_BITMAP_BYTE_LEN : Z := 4 * 1024 * 1024.

(** [u32::try_from] *)
Definition position_u32 (position : Z) : result HorizonSyncError Z := ok_or (checked 0 U32_MAX position) HorizonConversionError.

(** An output, whole or pruned: the operation is queued, the ranges grow. *)
Definition push_txo (st : OutputSync) (hash witness : bytes) (unpruned : list TransactionOutput) (op : WriteOperation) : result HorizonSyncError OutputSync :=
  position ← arith 0 U64_MAX (on_position st + 1);
  Ok {| on_header := on_header st; on_txn := on_txn st ++ [op]; on_unpruned := on_unpruned st ++ unpruned; on_position := position;
        on_outputs := on_outputs st ++ [hash]; on_witness := on_witness st ++ [witness]; on_max_script_size := on_max_script_size st; on_bitmap := on_bitmap st |}.

Definition sync_full_output (st : OutputSync) (output : option TransactionOutput) : result HorizonSyncError OutputSync :=
  output ← ok_or output HorizonConversionError;
  _ ← map_err HorizonValidationError (check_tari_script_byte_size (out_script output) (on_max_script_size st));
  hash ← output_hash output;
  position ← position_u32 (on_position st);
  let header := on_header st in
  push_txo st hash (witness_hash output) [output]
    (InsertOutput (header_hash header) (bh_height (lh_header header)) output position (bh_timestamp (lh_header header))).

Definition fixed_size (hash : bytes) : result HorizonSyncError bytes := if decide (length hash = 32%nat) then Ok hash else Err HorizonFixedHashSizeError.

Definition sync_pruned_output (st : OutputSync) (hash witness : bytes) : result HorizonSyncError OutputSync :=
  hash ← fixed_size hash;
  witness ← fixed_size witness;
  position ← position_u32 (on_position st);
  let header := on_header st in
  push_txo st hash witness []
    (InsertPrunedOutput (header_hash header) (bh_height (lh_header header)) hash witness position (bh_timestamp (lh_header header))).

Definition outputs_update (outputs witness : list bytes) (diff : gset Z) : AccumulatedDataUpdate :=
  {| kernel_hash_set := None; utxo_hash_set := Some outputs; witness_hash_set := Some witness; deleted_diff := Some diff; update_kernel_sum := None |}.

(** The checks of the deleted bitmap that ends a block: the bitmap, and the merged bitmap. *)
Definition check_deleted_diff (concurrency : nat) (st : OutputSync) (diff_bitmap : bytes) : result HorizonSyncError (gset Z * gset Z) :=
  let header := lh_header (on_header st) in
  if negb (on_position st =? bh_output_mmr_size header) then Err IncorrectResponse
  else if Z.of_nat (length diff_bitmap) >? MAX_DIFF_BITMAP_BYTE_LEN then Err IncorrectResponse
  else
    diff ← ok_or (try_deserialize diff_bitmap) IncorrectResponse;
    let bitmap := on_bitmap st ∪ diff in
    _ ← unwrap (checked 0 U32_MAX (Z.of_nat (length (on_outputs st))));
    mmr_root ← map_err (fun _ => HorizonMmrError) (mutable_root output_hasher (on_outputs st) bitmap);
    if negb (bool_decide (mmr_root = bh_output_mr header)) then Err (InvalidMmrRoot UtxoTree (bh_height header))
    else
      mmr_root ← map_err (fun _ => HorizonMmrError) (range_root witness_hasher (on_witness st));
      if negb (bool_decide (mmr_root = bh_witness_mr header)) then Err (InvalidMmrRoot WitnessTree (bh_height header))
      else
        _ ← validate_rangeproofs concurrency (on_unpruned st);
        Ok (diff, bitmap).

(** The outputs of the block are written; [true] when this was the last block. *)
Definition commit_outputs (concurrency : nat) (end_ : Z) (st : OutputSync) (diff_bitmap : bytes) : hsM (bool * OutputSync) :=
  '(diff, bitmap) ← hs_lift (check_deleted_diff concurrency st diff_bitmap);
  let header := on_header st in
  _ ← hs_run (write manager (on_txn st ++
        [UpdateDeletedBitmap diff; UpdateBlockAccumulatedData (header_hash header) (outputs_update (on_outputs st) (on_witness st) diff)]));
  let next header max_script_size := {| on_header := header; on_txn := []; on_unpruned := []; on_position := on_position st; on_outputs := on_outputs st;
    on_witness := on_witness st; on_max_script_size := max_script_size; on_bitmap := bitmap |} in
  if on_position st =? end_ then mret (true, next header (on_max_script_size st))
  else
    height ← hs_lift (arith 0 U64_MAX (bh_height (lh_header header) + 1));
    header ← hs_read (fetch_chain_header_by_height height);
    constants ← hs_lift (consensus_constants manager (bh_height (lh_header header)));
    mret (false, next header (max_script_byte_size constants)).

Definition sync_output (concurrency : nat) (end_ : Z) (st : OutputSync) (item : Received SyncUtxosResponse) : hsM (bool * OutputSync) :=
  res ← hs_lift (received item);
  if negb (mmr_index res =? 0) && negb (mmr_index res =? on_position st) then hs_lift (Err IncorrectResponse)
  else
    txo ← hs_lift (ok_or (utxo_or_deleted res) IncorrectResponse);
    match txo with
    | SyncOutput output => st ← hs_lift (sync_full_output st output); mret (false, st)
    | SyncPrunedOutput hash witness => st ← hs_lift (sync_pruned_output st hash witness); mret (false, st)
    | DeletedDiff diff_bitmap => commit_outputs concurrency end_ st diff_bitmap
    | InvalidSyncUtxo => hs_lift (Err IncorrectResponse)
    end.

(** The loop ends with the stream, or after the last block. *)
Fixpoint sync_outputs (concurrency : nat) (end_ : Z) (stream : list (Timed (Received SyncUtxosResponse))) (st : OutputSync) : hsM OutputSync :=
  match stream with
  | [] => mret st
  | item :: stream =>
      '(last, st) ← sync_output concurrency end_ st (ti_item item);
      if (last : bool) then mret st
      else if ti_slow item then hs_lift (Err HorizonMaxLatencyExceeded)
      else sync_outputs concurrency end_ stream st
  end.

(** The bitmap of all spent outputs is the result. *)
Definition synchronize_outputs (concurrency : nat) (peer : SyncSource) (to_header : BlockHeader) (full_bitmap : gset Z) : hsM (gset Z) :=
  local_num_outputs ← hs_read (fun db => Ok (fetch_mmr_size UtxoTree db));
  let remote_num_outputs := bh_output_mmr_size to_header in
  if remote_num_outputs <=? local_num_outputs then mret full_bitmap
  else
    current_header ← hs_read (fetch_header_containing_utxo_mmr local_num_outputs);
    output_stream ← hs_lift (map_err HorizonRpcError (ss_outputs peer));
    block_data ← hs_read (fetch_block_accumulated_data (bh_prev_hash (lh_header current_header)));
    constants ← hs_lift (consensus_constants manager (bh_height (lh_header current_header)));
    st ← sync_outputs concurrency remote_num_outputs output_stream
      {| on_header := current_header; on_txn := []; on_unpruned := []; on_position := local_num_outputs; on_outputs := acc_outputs block_data;
         on_witness := acc_witness block_data; on_max_script_size := max_script_byte_size constants; on_bitmap := full_bitmap |};
    if on_position st =? remote_num_outputs then mret (on_bitmap st) else hs_lift (Err IncorrectResponse).

(** ** The balance of the chain *)

(** [fuel] bounds the loop of the emission. *)
Definition get_emission_commitment_at (fuel : nat) (height : Z) : option (result ValidationError PedersenCommitment) :=
  total_emission ← get_total_emission_at fuel manager height;
  Some (total_emission ← total_emission;
        constants ← consensus_constants manager height;
        total_supply ← mt_add total_emission (faucet_value constants);
        Ok (commit_value sk_default total_supply)).

Definition fetch_total_offset_commitment (height : Z) (db : Database) : result ValidationError PedersenCommitment :=
  chain_header ← map_err (fun _ => FatalStorageError) (fetch_chain_header_by_height height db);
  Ok (commit_value (total_kernel_offset (lh_accumulated_data chain_header)) 0).

(** [ChainBalanceValidator::validate] *)
Definition validate_chain_balance (fuel : nat) (db : Database) (height : Z) (total_utxo_sum total_kernel_sum total_burned_sum : PedersenCommitment)
    : option (result ValidationError unit) :=
  emission_h ← get_emission_commitment_at fuel height;
  Some (emission_h ← emission_h;
        total_offset ← fetch_total_offset_commitment height db;
        let input := com_add (com_add emission_h total_kernel_sum) total_offset in
        if bool_decide (com_add total_utxo_sum total_burned_sum = input) then Ok tt else Err (ChainBalanceValidationFailed height)).

(** ** The sums of the stored state *)

Record CommitmentSums := {
  cs_utxo_sum : PedersenCommitment; cs_kernel_sum : PedersenCommitment; cs_burned_sum : PedersenCommitment; cs_position : Z; cs_prune_positions : list Z;
}.

Definition sum_utxo (bitmap : gset Z) (st : CommitmentSums) (u : PrunedOutput) : result HorizonSyncError CommitmentSums :=
  let p := cs_position st in
  let '(utxo_sum, prune_positions) :=
    match u with
    | NotPruned output =>
        if bool_decide (p ∈ bitmap) then (cs_utxo_sum st, cs_prune_positions st ++ [p]) else (com_add (out_commitment output) (cs_utxo_sum st), cs_prune_positions st)
    | Pruned _ _ => (cs_utxo_sum st, cs_prune_positions st)
    end in
  position ← arith 0 U32_MAX (p + 1);
  Ok {| cs_utxo_sum := utxo_sum; cs_kernel_sum := cs_kernel_sum st; cs_burned_sum := cs_burned_sum st; cs_position := position; cs_prune_positions := prune_positions |}.

Definition sum_kernel (st : CommitmentSums) (k : TransactionKernel) : result HorizonSyncError CommitmentSums :=
  burned_sum ← (if kernel_is_burned k then c ← map_err HorizonTransactionError (get_burn_commitment k); Ok (com_add c (cs_burned_sum st)) else Ok (cs_burned_sum st));
  Ok {| cs_utxo_sum := cs_utxo_sum st; cs_kernel_sum := com_add (k_excess k) (cs_kernel_sum st); cs_burned_sum := burned_sum; cs_position := cs_position st;
        cs_prune_positions := cs_prune_positions st |}.

Definition sum_block (bitmap : gset Z) (db : Database) (st : CommitmentSums) (h : Z) : result HorizonSyncError CommitmentSums :=
  curr_header ← map_err HorizonStorageError (fetch_chain_header_by_height h db);
  '(utxos, _) ← map_err HorizonStorageError (fetch_utxos_in_block (header_hash curr_header) None db);
  st ← foldM (sum_utxo bitmap) utxos st;
  foldM sum_kernel (fetch_kernels_in_block (header_hash curr_header) db) st.

(** The outputs that are in the bitmap but still whole are pruned. *)
Definition calculate_commitment_sums (header : LinkedHeader) (bitmap : gset Z) : hsM (PedersenCommitment * PedersenCommitment * PedersenCommitment) :=
  sums ← (fun db => (db, foldM (sum_block bitmap db) (range (bh_height (lh_header header) + 1))
    {| cs_utxo_sum := com_default; cs_kernel_sum := com_default; cs_burned_sum := com_default; cs_position := 0; cs_prune_positions := [] |}));
  _ ← (if bool_decide (cs_prune_positions sums = []) then mret tt else hs_run (write manager [PruneOutputsAtMmrPositions (cs_prune_positions sums)]));
  mret (cs_utxo_sum sums, cs_kernel_sum sums, cs_burned_sum sums).

(** The header of the horizon becomes the tip when the balance validates. *)
Definition finalize_horizon_sync (fuel : nat) (horizon_sync_height : Z) (full_bitmap : gset Z) : hsM unit :=
  header ← hs_read (fetch_chain_header_by_height horizon_sync_height);
  '(calc_utxo_sum, calc_kernel_sum, calc_burned_sum) ← calculate_commitment_sums header full_bitmap;
  _ ← (fun db => (db,
        match validate_chain_balance fuel db (bh_height (lh_header header)) calc_utxo_sum calc_kernel_sum calc_burned_sum with
        | Some r => map_err FinalStateValidationFailed r
        | None => Err HorizonFuelExhausted
        end));
  metadata ← hs_read (fun db => Ok (metadata db));
  hs_run (write manager
    [SetBestBlock (bh_height (lh_header header)) (header_hash header) (total_accumulated_difficulty (lh_accumulated_data header))
       (best_block (md_tip metadata)) (bh_timestamp (lh_header header));
     SetPrunedHeight (bh_height (lh_header header));
     SetHorizonData {| hz_kernel_sum := calc_kernel_sum; hz_utxo_sum := calc_utxo_sum |}]).

(** ** The synchronisation *)

(** The local chain is pruned to the horizon; the bitmap of its tip is the result. *)
Definition initialize (horizon_sync_height : Z) : hsM (gset Z) :=
  local_metadata ← hs_read (fun db => Ok (metadata db));
  let new_prune_height := Z.min (height_of_longest_chain (md_tip local_metadata)) horizon_sync_height in
  _ ← (if md_pruned_height local_metadata <? new_prune_height then hs_run (prune_to_height manager new_prune_height) else mret tt);
  hs_read (fun db => Ok (deleted_bitmap (lmdb db))).

Definition begin_sync (concurrency : nat) (horizon_sync_height : Z) (peer : SyncSource) (to_header : BlockHeader) : hsM (gset Z) :=
  full_bitmap ← initialize horizon_sync_height;
  _ ← synchronize_kernels peer to_header;
  synchronize_outputs concurrency peer to_header full_bitmap.

Definition dial (peer : SyncSource) : result HorizonSyncError unit :=
  match ss_dial peer with
  | None => Ok tt
  | Some DialConnectivity => Err HorizonConnectivityError
  | Some (DialRpc e) => Err (HorizonRpcError e)
  end.

(** One round over the peers: the next one is tried only when one is slow. *)
Fixpoint sync (fuel concurrency : nat) (horizon_sync_height : Z) (to_header : BlockHeader) (sync_peers : list SyncSource) : hsM unit :=
  match sync_peers with
  | [] => hs_lift (Err FailedSyncAllPeers)
  | peer :: sync_peers => fun db =>
      match dial peer with
      | Ok _ =>
          match begin_sync concurrency horizon_sync_height peer to_header db with
          | (db, Ok full_bitmap) => finalize_horizon_sync fuel horizon_sync_height full_bitmap db
          | (db, Err (HorizonRpcError ReplyTimeout)) | (db, Err HorizonMaxLatencyExceeded) =>
              match sync_peers with [] => (db, Err AllSyncPeersExceedLatency) | _ => sync fuel concurrency horizon_sync_height to_header sync_peers db end
          | (db, Err e) => (db, Err e)
          | (db, Panic) => (db, Panic)
          end
      | Err e => (db, Err e)
      | Panic => (db, Panic)
      end
  end.

(** The rounds of the loop, each with what the peers do in it; with no more rounds given the loop goes on. *)
Fixpoint sync_rounds (fuel concurrency : nat) (horizon_sync_height : Z) (to_header : BlockHeader) (rounds : list (list SyncSource)) (db : Database)
    : Database * option (result HorizonSyncError unit) :=
  match rounds with
  | [] => (db, None)
  | sync_peers :: rounds =>
      match sync fuel concurrency horizon_sync_height to_header sync_peers db with
      | (db, Err AllSyncPeersExceedLatency) =>
          if (length sync_peers <? 2)%nat then (db, Some (Err AllSyncPeersExceedLatency)) else sync_rounds fuel concurrency horizon_sync_height to_header rounds db
      | (db, r) => (db, Some r)
      end
  end.

Definition synchronize (fuel concurrency : nat) (horizon_sync_height : Z) (rounds : list (list SyncSource)) (db : Database)
    : Database * option (result HorizonSyncError unit) :=
  match rounds with
  | [] :: _ => (db, Some (Err NoSyncPeers))
  | _ =>
      match map_err HorizonStorageError (fetch_header horizon_sync_height db) with
      | Ok header => sync_rounds fuel concurrency horizon_sync_height header rounds db
      | Err e => (db, Some (Err e))
      | Panic => (db, Some Panic)
      end
  end.

End HorizonSync.
