(* ===== verification/SyncService.v ===== *)
(** * What a base node serves to synchronising peers

    src/base_layer/core/src/base_node/sync/rpc: [sync_blocks], [sync_headers], [sync_kernels], [find_chain_split] and [get_header_by_height] of service.rs, with the sessions of peers, and
    [SyncUtxosTask] of sync_utxos_task.rs; [fetch_blocks], [fetch_headers] and [fetch_complete_deleted_bitmap_at] of
    chain_storage/blockchain_database.rs.

    A stream is the list of the items that are sent to a peer that keeps its end open; a peer that closes it gets a prefix. The conversion of values to
    messages and back is the identity. *)

From S2P Require Import Prelude ScriptTypes Opcodes ScriptStack TariScript Amounts Emission Difficulty ConsensusConstants ConsensusManager MmrCommon Mmr MutableMmr BalancedMerkle.
From S2P Require Import Covenants MoneroMerkle TxComponents BlockHeader CovenantFilters AggregatedBody BodyValidator ChainStorage ChainDatabase Reorg HeaderValidator FullValidator ChunkIter HorizonSync.

Local Open Scope Z_scope.

(** ** Sessions *)

(** The sessions of the service: the peer, and whether its stream is still alive (the weak reference can be upgraded). *)
Definition Sessions : Type := list (bytes * bool).

Definition try_add_exclusive_session (peer : bytes) (active_sessions : Sessions) : Sessions * result RpcStatus unit :=
  let live := filter (fun s => s.2 = true) active_sessions in
  if bool_decide (peer ∈ map fst live) then (live, Err RpcForbidden) else (live ++ [(peer, true)], Ok tt).

(** The end of a stream drops the token of its peer. *)
Definition end_session (peer : bytes) (active_sessions : Sessions) : Sessions :=
  map (fun s => if bool_decide (s.1 = peer) then (s.1, false) else s) active_sessions.

Section SyncService.
Context {C : ScriptCrypto} {B : BorshPrims C} {X : TxCrypto C} {BH : BlockHashers}.

Implicit Types db : Database.

(** [rpc_status_internal_error] *)
Definition internal_error {A} (r : stored_result A) : result RpcStatus A := map_err (fun _ => RpcGeneral) r.

Definition hash_of_request {A} (hash : bytes) (k : bytes -> result RpcStatus A) : result RpcStatus A :=
  if decide (length hash = 32%nat) then k hash else Err RpcBadRequest.

(** ** Kernels *)

(** The height goes up by one in each turn: [fuel] is the number of heights left. *)
Fixpoint stream_kernels (fuel : nat) (current_height end_height : Z) (current_header_hash : bytes) db : list (Received TransactionKernel) :=
  match fuel with
  | O => []
  | S fuel =>
      let kernels := fetch_kernels_in_block current_header_hash db in
      if bool_decide (kernels = []) then [RpcFailed]
      else
        map Decoded kernels ++
        (if current_height + 1 <=? end_height then
           match headers_db (header_tables (lmdb db)) !! (current_height + 1) with
           | Some header => stream_kernels fuel (current_height + 1) end_height (bh_hash header) db
           | None => [RpcFailed]
           end
         else [])
  end.

Definition sync_kernels_rpc (start : Z) (end_header_hash : bytes) db : result RpcStatus (list (Received TransactionKernel)) :=
  start_header ← internal_error (fetch_header_containing_kernel_mmr start db);
  hash_of_request end_header_hash (fun hash =>
    end_header ← ok_or (fetch_header_by_block_hash hash db) RpcNotFound;
    let current_height := bh_height (lh_header start_header) in
    let end_height := bh_height end_header in
    if current_height >? end_height then Err RpcBadRequest
    else Ok (stream_kernels (Z.to_nat (end_height - current_height + 1)) current_height end_height (bh_hash (lh_header start_header)) db)).

(** ** Outputs *)

(** [Bitmap::xor_inplace] *)
Definition xor_set (a b : gset Z) : gset Z := (a ∖ b) ∪ (b ∖ a).

Definition fetch_complete_deleted_bitmap_at (hash : bytes) db : stored_result (gset Z) :=
  end_header ← or_not_found (fetch_header_by_block_hash hash db);
  let height := height_of_longest_chain (md_tip (metadata db)) in
  foldM (fun deleted i =>
    data ← or_not_found (block_accumulated_data_db (lmdb db) !! (bh_height end_header + i + 1));
    Ok (xor_set deleted (acc_deleted data))) (range (height - bh_height end_header)) (deleted_bitmap (lmdb db)).

(** A bitmap with the given elements, serialized. *)
Definition serialize_set (s : gset Z) : bytes := bitmap_serialize (foldr bitmap_add bitmap_create (elements s)).

Definition is_pruned (utxo : PrunedOutput) : bool := match utxo with Pruned _ _ => true | NotPruned _ => false end.

(** [SyncUtxo::try_from] *)
Definition sync_utxo (utxo : PrunedOutput) : UtxoOrDeleted :=
  match utxo with NotPruned output => SyncOutput (Some output) | Pruned hash witness_hash => SyncPrunedOutput hash witness_hash end.

Definition utxo_responses (include_pruned : bool) (start : Z) (utxos : list PrunedOutput) : list (Received SyncUtxosResponse) :=
  omap (fun iu => if include_pruned || negb (is_pruned iu.2) then Some (Decoded {| mmr_index := start + Z.of_nat iu.1; utxo_or_deleted := Some (sync_utxo iu.2) |}) else None)
    (imap pair utxos).

(** The loop over the headers; [fuel] is the number of heights left. An error ends the stream. *)
Fixpoint stream_utxos (fuel : nat) (bitmap : gset Z) (current_header : BlockHeader) (skip_outputs prev_utxo_mmr_size : Z) (end_header : BlockHeader)
    (include_pruned include_deleted : bool) db : list (Received SyncUtxosResponse) :=
  match fuel with
  | O => []
  | S fuel =>
      let start := prev_utxo_mmr_size + skip_outputs in
      match fetch_utxos_in_block (bh_hash current_header) (Some bitmap) db with
      | Ok (utxos, deleted_diff) =>
          utxo_responses include_pruned start (drop (Z.to_nat skip_outputs) utxos) ++
          (if include_deleted then [Decoded {| mmr_index := 0; utxo_or_deleted := Some (DeletedDiff (serialize_set deleted_diff)) |}] else []) ++
          (if bh_height current_header + 1 >? bh_height end_header then []
           else
             match headers_db (header_tables (lmdb db)) !! (bh_height current_header + 1) with
             | Some next => stream_utxos fuel bitmap next 0 (bh_output_mmr_size current_header) end_header include_pruned include_deleted db
             | None => [RpcFailed]
             end)
      | _ => [RpcFailed]
      end
  end.

Definition sync_utxos_rpc (start : Z) (end_header_hash : bytes) (include_pruned include_deleted : bool) db : result RpcStatus (list (Received SyncUtxosResponse)) :=
  start_header ← map_err (fun e => match e with ValueNotFound => RpcNotFound | _ => RpcGeneral end) (fetch_header_containing_utxo_mmr start db);
  let start_header := lh_header start_header in
  hash_of_request end_header_hash (fun hash =>
    end_header ← ok_or (fetch_header_by_block_hash hash db) RpcNotFound;
    if bh_height start_header >? bh_height end_header then Err RpcBadRequest
    else
      '(skip_outputs, prev_utxo_mmr_size) ←
        (if bh_height start_header =? 0 then Ok (start, 0)
         else
           prev_header ← ok_or (fetch_header_by_block_hash (bh_prev_hash start_header) db) RpcNotFound;
           skip ← ok_or (checked 0 U64_MAX (start - bh_output_mmr_size prev_header)) RpcGeneral;
           Ok (skip, bh_output_mmr_size prev_header));
      Ok (match fetch_complete_deleted_bitmap_at (bh_hash end_header) db with
          | Ok bitmap => stream_utxos (Z.to_nat (bh_height end_header - bh_height start_header + 1)) bitmap start_header skip_outputs prev_utxo_mmr_size end_header
              include_pruned include_deleted db
          | _ => [RpcFailed]
          end)).

(** ** Headers *)

(** The headers of [start..=end], up to the first that is missing; [n] of them are looked for. *)
Fixpoint headers_from (n : nat) (start : Z) db : list BlockHeader :=
  match n with
  | O => []
  | S n => match headers_db (header_tables (lmdb db)) !! start with Some header => header :: headers_from n (start + 1) db | None => [] end
  end.

Definition fetch_headers (start end_inclusive : Z) db : list BlockHeader :=
  if start >? end_inclusive then [] else headers_from (Z.to_nat (end_inclusive - start + 1)) start db.

(** [fuel] bounds the number of chunks. *)
Fixpoint stream_headers (fuel : nat) (iter : NonOverlappingIntegerPairIter) db : list BlockHeader :=
  match fuel with
  | O => []
  | S fuel =>
      match pairs_next U64_MAX iter with
      | Some ((start, end_), iter) =>
          let headers := fetch_headers start end_ db in
          if bool_decide (headers = []) then [] else headers ++ stream_headers fuel iter db
      | None => []
      end
  end.

Definition sync_headers_rpc (fuel : nat) (start_hash : bytes) (count : Z) db : result RpcStatus (list BlockHeader) :=
  hash_of_request start_hash (fun hash =>
    start_header ← ok_or (fetch_header_by_block_hash hash db) RpcNotFound;
    count ← (if count =? 0 then tip_header ← internal_error (fetch_tip_header db); Ok (Z.max 0 (bh_height (lh_header tip_header) - bh_height start_header)) else Ok count);
    if count =? 0 then Ok []
    else
      start ← arith 0 U64_MAX (bh_height start_header + 1);
      iter ← pairs_new start (Z.min U64_MAX (Z.min U64_MAX (bh_height start_header + count) + 1)) (Z.min 100 count);
      Ok (stream_headers fuel iter db)).

(** ** The split of two chains *)

(** [None] for a header that does not convert. *)
Record FindChainSplitResponse := { fs_fork_hash_index : N; fs_headers : list (option BlockHeader); fs_tip_height : Z }.

Definition MAX_ALLOWED_BLOCK_HASHES : Z := 1000.
Definition MAX_ALLOWED_HEADER_COUNT : Z := 1000.

(** The position of the first hash of a known header, which is [i] or after it, and at most [count] headers that follow it. *)
Fixpoint find_headers_after_hash (i : N) (ordered_hashes : list bytes) (count : Z) db : stored_result (option (N * list BlockHeader)) :=
  match ordered_hashes with
  | [] => Ok None
  | hash :: ordered_hashes =>
      if decide (length hash = 32%nat) then
        match fetch_header_by_block_hash hash db with
        | Some header =>
            if count =? 0 then Ok (Some (i, []))
            else
              end_height ← ok_or (checked 0 U64_MAX (bh_height header + count)) InvalidArguments;
              Ok (Some (i, fetch_headers (bh_height header + 1) end_height db))
        | None => find_headers_after_hash (N.succ i) ordered_hashes count db
        end
      else Err InvalidArguments
  end.

Definition find_chain_split_rpc (block_hashes : list bytes) (header_count : Z) db : result RpcStatus FindChainSplitResponse :=
  if bool_decide (block_hashes = []) then Err RpcBadRequest
  else if MAX_ALLOWED_BLOCK_HASHES <? Z.of_nat (length block_hashes) then Err RpcBadRequest
  else if MAX_ALLOWED_HEADER_COUNT <? header_count then Err RpcBadRequest
  else
    hashes ← mapM (fun hash => hash_of_request hash Ok) block_hashes;
    maybe_headers ← internal_error (find_headers_after_hash 0 hashes header_count db);
    match maybe_headers with
    | Some (idx, headers) => Ok {| fs_fork_hash_index := idx; fs_headers := map Some headers; fs_tip_height := height_of_longest_chain (md_tip (metadata db)) |}
    | None => Err RpcNotFound
    end.

Definition get_header_by_height_rpc (height : Z) db : result RpcStatus BlockHeader :=
  ok_or (headers_db (header_tables (lmdb db)) !! height) RpcNotFound.

(** ** Blocks *)

Definition fetch_blocks (start end_ : Z) (compact : bool) db : stored_result (list HistoricalBlock) :=
  if end_ >? height_of_longest_chain (md_tip (metadata db)) then Err ValueNotFound else mapM (fun i => fetch_block i compact db) (range_inclusive (start, end_)).

(** [try_into_block], and the message. *)
Definition block_response (hb : HistoricalBlock) : option StreamBlock :=
  if bool_decide (pruned_outputs hb <> []) || (0 <? pruned_input_count hb) then None
  else Some {| sb_hash := bh_hash (block_header (hb_block hb)); sb_body := Some (block_body (hb_block hb)); sb_slow := false |}.

(** [reorged i]: before chunk [i] the events of the node include a reorganisation that removed a block of the range. The error for the peer is
    made and dropped: the future that would send it is not awaited. *)
Fixpoint stream_blocks (fuel i : nat) (reorged : nat -> bool) (iter : NonOverlappingIntegerPairIter) db : list (option StreamBlock) :=
  match fuel with
  | O => []
  | S fuel =>
      match pairs_next U64_MAX iter with
      | Some ((start, end_), iter) =>
          if reorged i then []
          else
            match fetch_blocks start end_ true db with
            | Ok [] => []
            | Ok blocks => map block_response blocks ++ stream_blocks fuel (S i) reorged iter db
            | _ => [None]
            end
      | None => []
      end
  end.

Definition BATCH_SIZE : Z := 2.

Definition sync_blocks_rpc (reorged : nat -> bool) (start_hash end_hash : bytes) db : result RpcStatus (list (option StreamBlock)) :=
  hash_of_request start_hash (fun start_hash =>
    start_header ← ok_or (fetch_header_by_block_hash start_hash db) RpcNotFound;
    start_height ← arith 0 U64_MAX (bh_height start_header + 1);
    if start_height <? md_pruned_height (metadata db) then Err RpcBadRequest
    else if start_height >? height_of_longest_chain (md_tip (metadata db)) then Ok []
    else hash_of_request end_hash (fun end_hash =>
      end_header ← ok_or (fetch_header_by_block_hash end_hash db) RpcNotFound;
      let end_height := bh_height end_header in
      if start_height >? end_height then Err RpcBadRequest
      else
        end_exclusive ← arith 0 U64_MAX (end_height + 1);
        iter ← pairs_new start_height end_exclusive BATCH_SIZE;
        Ok (stream_blocks (S (Z.to_nat (end_exclusive - start_height))) 0 reorged iter db))).

(** ** A peer that serves its database *)

Definition timed {A} (items : list A) : list (Timed A) := map (fun item => {| ti_item := item; ti_slow := false |}) items.

(** A status other than success reaches the client as a failed request. *)
Definition answer {A} (r : result RpcStatus (list A)) : result RpcError (list (Timed A)) :=
  match r with Ok items => Ok (timed items) | Err status => Err (RequestFailed status) | Panic => Err OtherRpcError end.

(** The requests of a client that has [num_kernels] kernels and [num_outputs] outputs. *)
Definition serving_peer db (num_kernels num_outputs : Z) (to_header : BlockHeader) : SyncSource := {|
  ss_dial := None;
  ss_kernels := answer (sync_kernels_rpc num_kernels (bh_hash to_header) db);
  ss_outputs := answer (sync_utxos_rpc num_outputs (bh_hash to_header) true true db);
|}.

End SyncService.
