(* ===== verification/HeaderSync.v ===== *)
(** * The header synchronisation protocol

    src/base_layer/core/src/base_node/sync/header_sync/synchronizer.rs: a node looks for the last header it shares with a peer, validates the headers
    that follow it at the peer, and replaces its own headers after the split, and the blocks it has for them, when those of the peer are not weaker.
    [fetch_block_hashes_from_header_tip] of chain_storage/blockchain_database.rs and [fetch_last_chain_header] of lmdb_db.rs.

    What a peer answers is a function of what it is asked; an item of a stream says as well whether the average latency after it is above the maximum. The
    time at which a header is validated is given for its height: in one attempt a height is validated once. Bans are kept in the order they are
    issued. What was written before an error stays written. *)

From S2P Require Import Prelude ScriptTypes Opcodes ScriptStack TariScript Amounts Emission Difficulty ConsensusConstants ConsensusManager MmrCommon Mmr MutableMmr BalancedMerkle.
From S2P Require Import Covenants MoneroMerkle TxComponents BlockHeader CovenantFilters AggregatedBody BodyValidator ChainStorage ChainDatabase Reorg HeaderValidator FullValidator ChunkIter HorizonSync SyncService.

Local Open Scope Z_scope.

Definition NUM_INITIAL_HEADERS_TO_REQUEST : nat := 1000.
Definition NUM_CHAIN_SPLIT_HEADERS : nat := 500.
Definition MAX_CHAIN_SPLIT_ITERS : nat := 20.
Definition COMMIT_EVERY_N_HEADERS : nat := 1000.

(** The variants [InvalidBlockHeight], [NetworkSilence] and [ChainLinkBroken], which nothing constructs, and the reason for a ban for the last are left out. *)
Inductive BlockHeaderSyncError :=
| HeaderRpcError (e : RpcError)
| HeaderRpcRequestError
| ReceivedInvalidHeader
| HeaderSyncStorageError (e : ChainStorageError)
| HeaderValidationFailed (e : HeaderError)
| SyncFailedAllPeers
| FoundHashIndexOutOfRange (expected found : Z)
| FailedToBan
| HeaderConnectivityError
| NotInSync
| StartHashNotFound
| ChainSplitNotFound (peer : bytes)
| InvalidProtocolResponse
| HeaderBlockError (e : ChainStorageError)
| PeerSentInaccurateChainMetadata (claimed : Z) (actual : option Z) (local : Z)
| HeaderMaxLatencyExceeded
| HeaderPeersExceedLatency.

Inductive BanReason :=
| PeerSentTooManyHeaders (n : Z)
| PeerSentInvalidTipHeight (actual expected : Z)
| SplitHashGreaterThanHashes (fork_hash_index num_block_hashes : Z)
| BanValidationFailed (e : HeaderError)
| BanChainSplitNotFound
| RpcNegotiationTimedOut
| BanInaccurateChainMetadata (claimed actual local : Z).

Inductive BanPeriod := BanLong | BanShort.

Record Ban := { ban_node_id : bytes; ban_period : BanPeriod; ban_reason : BanReason }.

Section Protocol.
Context {C : ScriptCrypto} {B : BorshPrims C} {X : TxCrypto C} {ML : MoneroLib} `{U256Ops} `{EpochOps} `{EpochMean} (manager : ConsensusManager).
Implicit Types db : Database.

(** What a peer does in a round: it accepts the connection or not, in time or not, and answers the two requests; [hp_bannable] says that the
    connectivity service takes a ban of it. *)
Record HeaderPeer := {
  hp_node_id : bytes;
  hp_claimed : Z;
  hp_connect : option DialError;
  hp_slow : bool;
  hp_find_chain_split : list bytes -> Z -> result RpcError FindChainSplitResponse;
  hp_sync_headers : bytes -> Z -> result RpcError (list (Timed (Received BlockHeader)));
  hp_bannable : bool;
}.

(** ** Operations on the database *)

Record HeaderSyncState := { hy_db : Database; hy_bans : list Ban }.

Definition hdM (A : Type) : Type := HeaderSyncState -> HeaderSyncState * result BlockHeaderSyncError A.

#[export] Instance hdM_ret : MRet hdM := fun A a s => (s, Ok a).

#[export] Instance hdM_bind : MBind hdM := fun A A' k m s =>
  match m s with
  | (s, Ok a) => k a s
  | (s, Err e) => (s, Err e)
  | (s, Panic) => (s, Panic)
  end.

Definition hd_lift {A} (r : result BlockHeaderSyncError A) : hdM A := fun s => (s, r).

Definition hd_read {A} (f : Database -> result BlockHeaderSyncError A) : hdM A := fun s => (s, f (hy_db s)).

Definition hd_run {A} (m : dbM A) : hdM A := fun s =>
  let '(db, r) := m (hy_db s) in ({| hy_db := db; hy_bans := hy_bans s |}, map_err HeaderSyncStorageError r).

(** [let _result = ...] *)
Definition hd_ignore {A} (m : hdM A) : hdM unit := fun s =>
  match m s with (s, Panic) => (s, Panic) | (s, _) => (s, Ok tt) end.

(** ** Reads *)

Definition fetch_last_chain_header db : stored_result LinkedHeader :=
  header ← ok_or (lmdb_last (headers_db (header_tables (lmdb db)))) InvalidOperation;
  accumulated_data ← or_not_found (header_accumulated_data_db (header_tables (lmdb db)) !! bh_height header);
  ok_or (header_try_construct header accumulated_data) DataInconsistencyDetected.

Definition fetch_block_hashes_from_header_tip (n offset : nat) db : stored_result (list bytes) :=
  if (n =? 0)%nat then Ok []
  else
    tip_header ← fetch_last_header db;
    match checked 0 U64_MAX (bh_height tip_header - Z.of_nat offset) with
    | Some end_height => let start := Z.max 0 (end_height - (Z.of_nat n - 1)) in Ok (rev (map bh_hash (fetch_headers start end_height db)))
    | None => Ok []
    end.

(** ** Bans *)

Section Synchronizer.
Context (forced_sync_peers : list bytes).

Definition ban_peer_for (period : BanPeriod) (peer : HeaderPeer) (reason : BanReason) : hdM unit := fun s =>
  if bool_decide (hp_node_id peer ∈ forced_sync_peers) then (s, Ok tt)
  else if hp_bannable peer then ({| hy_db := hy_db s; hy_bans := hy_bans s ++ [{| ban_node_id := hp_node_id peer; ban_period := period; ban_reason := reason |}] |}, Ok tt)
  else (s, Err FailedToBan).

Definition ban_peer_long : HeaderPeer -> BanReason -> hdM unit := ban_peer_for BanLong.
Definition ban_peer_short : HeaderPeer -> BanReason -> hdM unit := ban_peer_for BanShort.

(** ** The split *)

(** [iters] of the attempts are left, the last one was [iter_count]. *)
Fixpoint find_chain_split_loop (iters iter_count : nat) (peer : HeaderPeer) (header_count : Z) db : result BlockHeaderSyncError (FindChainSplitResponse * list bytes * Z) :=
  match iters with
  | O => Err (ChainSplitNotFound (hp_node_id peer))
  | S iters =>
      let offset := (NUM_CHAIN_SPLIT_HEADERS * iter_count)%nat in
      block_hashes ← map_err HeaderSyncStorageError (fetch_block_hashes_from_header_tip NUM_CHAIN_SPLIT_HEADERS offset db);
      if bool_decide (block_hashes = []) then Err (ChainSplitNotFound (hp_node_id peer))
      else
        match hp_find_chain_split peer block_hashes header_count with
        | Ok resp =>
            steps_back ← arith 0 U64_MAX (Z.of_N (fs_fork_hash_index resp) + Z.of_nat offset);
            Ok (resp, block_hashes, steps_back)
        | Err (RequestFailed RpcNotFound) =>
            if (length block_hashes <? NUM_CHAIN_SPLIT_HEADERS)%nat then Err (ChainSplitNotFound (hp_node_id peer))
            else find_chain_split_loop iters (S iter_count) peer header_count db
        | Err e => Err (HeaderRpcError e)
        | Panic => Panic
        end
  end.

Definition find_chain_split (peer : HeaderPeer) (header_count : Z) db : result BlockHeaderSyncError (FindChainSplitResponse * list bytes * Z) :=
  find_chain_split_loop MAX_CHAIN_SPLIT_ITERS 0 peer header_count db.

Record ChainSplitInfo := { si_local_tip_header : LinkedHeader; si_remote_tip_height : Z; si_reorg_steps_back : Z; si_chain_split_hash : bytes }.

(** A lagging node has initialised its header validator, whose state is [validator]. *)
Inductive SyncStatus :=
| InSync
| WereAhead
| Lagging (split_info : ChainSplitInfo) (validator : SyncState).

(** ** Validation *)

Section Clock.
Context (clock : Z -> Z) (cmp : @Comparer bytes RistrettoSecretKey).

(** The data of a validated header are built by [BlockHeaderAccumulatedData], whose errors are not those of the validation. *)
Definition validation_error (e : HeaderError) : BlockHeaderSyncError :=
  match e with HeaderStorageError e => HeaderBlockError e | e => HeaderValidationFailed e end.

Definition validate (validator : SyncState) (header : BlockHeader) db : result BlockHeaderSyncError (Z * SyncState) :=
  map_err validation_error (sync_validate manager (clock (bh_height header)) header db validator).

Definition initialize_validator (start_hash : bytes) db : result BlockHeaderSyncError SyncState :=
  match fetch_header_by_block_hash start_hash db with
  | Some _ => map_err HeaderSyncStorageError (initialize_state manager start_hash db)
  | None => Err StartHashNotFound
  end.

Definition take_valid_headers (validator : SyncState) : list LinkedHeader * SyncState :=
  (ss_valid_headers validator,
   {| ss_current_height := ss_current_height validator; ss_timestamps := ss_timestamps validator; ss_target_difficulties := ss_target_difficulties validator;
      ss_previous_accum := ss_previous_accum validator; ss_previous_header := ss_previous_header validator; ss_valid_headers := [] |}).

Definition current_valid_chain_tip_header (validator : SyncState) : option LinkedHeader := last (ss_valid_headers validator).

Definition determine_sync_status (peer : HeaderPeer) (local_tip_header : LinkedHeader) : hdM SyncStatus :=
  '(resp, block_hashes, steps_back) ← hd_read (find_chain_split peer (Z.of_nat NUM_INITIAL_HEADERS_TO_REQUEST));
  let headers := fs_headers resp in
  let fork_hash_index := Z.of_N (fs_fork_hash_index resp) in
  let num_block_hashes := Z.of_nat (length block_hashes) in
  if (NUM_INITIAL_HEADERS_TO_REQUEST <? length headers)%nat then
    _ ← ban_peer_long peer (PeerSentTooManyHeaders (Z.of_nat (length headers)));
    hd_lift (Err NotInSync)
  else if num_block_hashes <=? fork_hash_index then
    _ ← hd_ignore (ban_peer_long peer (SplitHashGreaterThanHashes fork_hash_index num_block_hashes));
    hd_lift (Err (FoundHashIndexOutOfRange num_block_hashes fork_hash_index))
  else if bool_decide (headers = []) then mret (if 0 <? fork_hash_index then WereAhead else InSync)
  else
    headers ← hd_lift (ok_or (mapM (fun header => header) headers) ReceivedInvalidHeader);
    chain_split_hash ← hd_lift (unwrap (block_hashes !! Z.to_nat fork_hash_index));
    validator ← hd_read (initialize_validator chain_split_hash);
    validator ← hd_read (fun db => foldM (fun validator header => '(_, validator) ← validate validator header db; Ok validator) headers validator);
    let split_height := Z.max 0 (bh_height (lh_header local_tip_header) - steps_back) in
    if fs_tip_height resp <? split_height then
      _ ← ban_peer_short peer (PeerSentInvalidTipHeight (fs_tip_height resp) split_height);
      hd_lift (Err InvalidProtocolResponse)
    else
      mret (Lagging {| si_local_tip_header := local_tip_header; si_remote_tip_height := fs_tip_height resp; si_reorg_steps_back := steps_back;
                       si_chain_split_hash := chain_split_hash |} validator).

(** ** The headers of the peer *)

Definition commit_pending_headers (validator : SyncState) : hdM SyncState :=
  let '(chain_headers, validator) := take_valid_headers validator in
  _ ← hd_lift (unwrap (last chain_headers));
  _ ← hd_run (write manager (map InsertChainHeader chain_headers));
  mret validator.

(** [is_le]: a chain of the same strength is taken as well. *)
Definition pending_chain_has_higher_pow (validator : SyncState) (current_tip : LinkedHeader) : bool :=
  match last (ss_valid_headers validator) with
  | Some proposed_tip => match cmp (to_chain_header current_tip) (to_chain_header proposed_tip) with Gt => false | _ => true end
  | None => false
  end.

Definition switch_to_pending_chain (split_info : ChainSplitInfo) (validator : SyncState) : hdM SyncState :=
  _ ← (if 0 <? si_reorg_steps_back split_info then _ ← hd_run (rewind_to_hash manager (si_chain_split_hash split_info)); mret tt else mret tt);
  commit_pending_headers validator.

(** The loop over the stream: the validator, whether the chain was switched, and the accumulated difficulty of the last header. *)
Record HeaderLoop := { hl_validator : SyncState; hl_switched : bool; hl_last_difficulty : Z }.

Definition sync_header (split_info : ChainSplitInfo) (st : HeaderLoop) (item : Timed (Received BlockHeader)) : hdM HeaderLoop :=
  header ← hd_lift (match ti_item item with RpcFailed => Err HeaderRpcRequestError | Undecodable => Err ReceivedInvalidHeader | Decoded header => Ok header end);
  existing_header ← hd_read (fun db => Ok (fetch_header_by_block_hash (bh_hash header) db));
  match existing_header with
  | Some _ => mret st
  | None =>
      '(last_difficulty, validator) ← hd_read (validate (hl_validator st) header);
      '(validator, switched) ←
        (if hl_switched st then
           if (COMMIT_EVERY_N_HEADERS <=? length (ss_valid_headers validator))%nat then validator ← commit_pending_headers validator; mret (validator, true) else mret (validator, true)
         else if pending_chain_has_higher_pow validator (si_local_tip_header split_info) then validator ← switch_to_pending_chain split_info validator; mret (validator, true)
         else mret (validator, false));
      if ti_slow item then hd_lift (Err HeaderMaxLatencyExceeded)
      else mret {| hl_validator := validator; hl_switched := switched; hl_last_difficulty := last_difficulty |}
  end.

Fixpoint sync_header_stream (split_info : ChainSplitInfo) (stream : list (Timed (Received BlockHeader))) (st : HeaderLoop) : hdM HeaderLoop :=
  match stream with
  | [] => mret st
  | item :: stream => st ← sync_header split_info st item; sync_header_stream split_info stream st
  end.

Definition difficulty_of (h : LinkedHeader) : Z := total_accumulated_difficulty (lh_accumulated_data h).

Definition synchronize_headers (peer : HeaderPeer) (split_info : ChainSplitInfo) (validator : SyncState) : hdM unit :=
  let local := difficulty_of (si_local_tip_header split_info) in
  let pending_len := length (ss_valid_headers validator) in
  start_header ← hd_lift (unwrap (current_valid_chain_tip_header validator));
  let has_better_pow := pending_chain_has_higher_pow validator (si_local_tip_header split_info) in
  validator ← (if has_better_pow then switch_to_pending_chain split_info validator else mret validator);
  if (pending_len <? NUM_INITIAL_HEADERS_TO_REQUEST)%nat then
    if has_better_pow then mret tt else hd_lift (Err (PeerSentInaccurateChainMetadata (hp_claimed peer) (Some (difficulty_of start_header)) local))
  else
    header_stream ← hd_lift (map_err HeaderRpcError (hp_sync_headers peer (acc_hash (lh_accumulated_data start_header)) 0));
    st ← sync_header_stream split_info header_stream {| hl_validator := validator; hl_switched := has_better_pow; hl_last_difficulty := 0 |};
    if hl_switched st then
      _ ← (if bool_decide (ss_valid_headers (hl_validator st) = []) then mret tt else _ ← commit_pending_headers (hl_validator st); mret tt);
      if hl_last_difficulty st <? hp_claimed peer then hd_lift (Err (PeerSentInaccurateChainMetadata (hp_claimed peer) (Some (hl_last_difficulty st)) local))
      else mret tt
    else
      let actual := difficulty_of <$> current_valid_chain_tip_header (hl_validator st) in
      if hp_claimed peer <? default 0 actual then hd_lift (Err (PeerSentInaccurateChainMetadata (hp_claimed peer) actual local))
      else mret tt.

(** ** An attempt with one peer *)

(** [local_difficulty] is the accumulated difficulty of the metadata with which the synchronisation was started. *)
Definition attempt_sync (local_difficulty : Z) (peer : HeaderPeer) : hdM unit :=
  local_tip_header ← hd_read (fun db => map_err HeaderSyncStorageError (fetch_last_chain_header db));
  let header_tip_height := bh_height (lh_header local_tip_header) in
  sync_status ← determine_sync_status peer local_tip_header;
  match sync_status with
  | InSync | WereAhead =>
      metadata ← hd_read (fun db => Ok (metadata db));
      if height_of_longest_chain (md_tip metadata) <? header_tip_height then mret tt
      else if local_difficulty <=? hp_claimed peer then mret tt
      else hd_lift (Err (PeerSentInaccurateChainMetadata (hp_claimed peer) None (difficulty_of local_tip_header)))
  | Lagging split_info validator => synchronize_headers peer split_info validator
  end.

Definition connect_and_attempt_sync (local_difficulty : Z) (peer : HeaderPeer) : hdM bytes :=
  _ ← hd_lift (match hp_connect peer with Some DialConnectivity => Err HeaderConnectivityError | Some (DialRpc e) => Err (HeaderRpcError e) | None => Ok tt end);
  if hp_slow peer then hd_lift (Err HeaderMaxLatencyExceeded)
  else _ ← attempt_sync local_difficulty peer; mret (hp_node_id peer).

(** ** All peers *)

(** What a failed attempt has for the peer; [true] when the synchronisation goes on with the next one. *)
Definition punish (peer : HeaderPeer) (e : BlockHeaderSyncError) : hdM unit :=
  match e with
  | HeaderRpcError HandshakeTimedOut => ban_peer_short peer RpcNegotiationTimedOut
  | HeaderValidationFailed e => ban_peer_long peer (BanValidationFailed e)
  | ChainSplitNotFound _ => ban_peer_long peer BanChainSplitNotFound
  | PeerSentInaccurateChainMetadata claimed actual local => ban_peer_long peer (BanInaccurateChainMetadata claimed (default 0 actual) local)
  | _ => mret tt
  end.

Definition too_slow (e : BlockHeaderSyncError) : bool :=
  match e with HeaderRpcError ReplyTimeout | HeaderMaxLatencyExceeded => true | _ => false end.

Fixpoint try_sync_from_all_peers (local_difficulty : Z) (sync_peers : list HeaderPeer) : hdM bytes :=
  match sync_peers with
  | [] => hd_lift (Err SyncFailedAllPeers)
  | peer :: sync_peers => fun s =>
      match connect_and_attempt_sync local_difficulty peer s with
      | (s, Err e) =>
          if too_slow e && bool_decide (sync_peers = []) then (s, Err HeaderPeersExceedLatency)
          else (_ ← punish peer e; try_sync_from_all_peers local_difficulty sync_peers) s
      | (s, r) => (s, r)
      end
  end.

(** The rounds of the loop, each with what the peers do in it; with no more rounds given the loop goes on. *)
Fixpoint synchronize_header_rounds (local_difficulty : Z) (rounds : list (list HeaderPeer)) (s : HeaderSyncState)
    : HeaderSyncState * option (result BlockHeaderSyncError bytes) :=
  match rounds with
  | [] => (s, None)
  | sync_peers :: rounds =>
      match try_sync_from_all_peers local_difficulty sync_peers s with
      | (s, Err HeaderPeersExceedLatency) =>
          if (length sync_peers <? 2)%nat then (s, Some (Err HeaderPeersExceedLatency)) else synchronize_header_rounds local_difficulty rounds s
      | (s, r) => (s, Some r)
      end
  end.

End Clock.
End Synchronizer.

(** ** A peer that serves its database *)

(** [fuel] bounds the number of chunks of the stream. *)
Definition header_peer (node_id : bytes) (claimed : Z) (fuel : nat) db : HeaderPeer := {|
  hp_node_id := node_id;
  hp_claimed := claimed;
  hp_connect := None;
  hp_slow := false;
  hp_find_chain_split := fun block_hashes header_count =>
    match find_chain_split_rpc block_hashes header_count db with Ok resp => Ok resp | Err status => Err (RequestFailed status) | Panic => Err OtherRpcError end;
  hp_sync_headers := fun start_hash count => answer (map Decoded <$> sync_headers_rpc fuel start_hash count db);
  hp_bannable := true;
|}.

End Protocol.
