(* ===== verification/HeaderSyncSpec.v ===== *)
(** * What the header synchronisation does to the chain of headers

    [HeaderSync] on a database whose headers form a chain: with any peers, headers are replaced only by headers that passed the validation and whose
    chain is not weaker; with a peer that serves a stronger chain, the node ends with its headers; and two answers of a peer that the code does not treat as
    it means to. *)

From S2P Require Import Prelude ScriptTypes Opcodes ScriptStack TariScript Amounts Emission Difficulty ConsensusConstants ConsensusManager MmrCommon Mmr MutableMmr BalancedMerkle.
From S2P Require Import Covenants MoneroMerkle TxComponents BlockHeader CovenantFilters AggregatedBody BodyValidator ChainStorage ChainDatabase Reorg HeaderValidator FullValidator.
From S2P Require Import BodyBalance ChainTables ChainStorageSpec ChainRewind BlockReading ReorgSpec HeaderSpec HeaderChain ReorgAtomic ChunkIter HorizonSync SyncService HeaderSync.

Local Open Scope Z_scope.

Section HeaderSyncSpec.
Context {C : ScriptCrypto} {CL : ScriptCryptoLaws C} {B : BorshPrims C} {X : TxCrypto C} {L : TxLaws X} {ML : MoneroLib} `{U256Ops} `{EpochOps} `{EpochMean} (manager : ConsensusManager).
Implicit Types (h : LinkedHeader) (hs top base chain new : list LinkedHeader) (b : ChainBlock) (bs : list ChainBlock) (db : Database).

(** ** Validated headers *)

Definition window_for (wm ws : LinearWeightedMovingAverage) (algo : PowAlgorithm) chain : LinearWeightedMovingAverage :=
  window_of (match algo with Monero => wm | Sha3 => ws end) algo chain.

(** A header that passed the header validator after the last header of a chain, with the target the chain prescribes, and has the data that follow. *)
Definition proven (wm ws : LinearWeightedMovingAverage) chain h : Prop :=
  match chain with
  | [] => False
  | p :: _ => exists now db timestamps constants target achieved, @consensus_constants HeaderError manager (height_at h) = Ok constants /\
      window_calculate (E := HeaderError) (min_pow_difficulty constants (bh_pow_algo (lh_header h))) (max_pow_difficulty constants (bh_pow_algo (lh_header h))) (window_for wm ws (bh_pow_algo (lh_header h)) chain) = Ok target /\
      header_validate manager true now db (lh_header h) (lh_header p) timestamps (Some target) = Ok achieved /\ next_data (lh_accumulated_data p) (lh_header h) achieved = Ok (lh_accumulated_data h)
  end.

(** Each header after those before it; the oldest is the first. *)
Fixpoint all_proven (wm ws : LinearWeightedMovingAverage) chain new : Prop :=
  match new with
  | [] => True
  | h :: new => proven wm ws chain h /\ all_proven wm ws (h :: chain) new
  end.

(** The validator has come to the end of a chain. *)
Record validator_at (wm ws : LinearWeightedMovingAverage) chain (st : SyncState) : Prop := {
  va_targets : targets_rep wm ws chain (ss_target_difficulties st);
  va_windows : empty_window wm /\ empty_window ws;
  va_last : exists p rest, chain = p :: rest /\ ss_previous_header st = lh_header p /\ ss_previous_accum st = lh_accumulated_data p;
}.

Lemma all_proven_app wm ws chain new1 new2 : all_proven wm ws chain (new1 ++ new2) <-> all_proven wm ws chain new1 /\ all_proven wm ws (rev new1 ++ chain) new2.
Proof. revert chain. induction new1 as [|h new1 IH]; intros chain; [cbn; tauto|]. cbn [app all_proven rev]. rewrite IH, <- app_assoc. cbn [app]. tauto. Qed.

Lemma proven_fields wm ws chain h : proven wm ws chain h -> acc_hash (lh_accumulated_data h) = hash_at h /\ 0 <= height_at h <= U64_MAX.
Proof.
  destruct chain as [|p rest]; [done|]. intros (now & db & ts & constants & target & at_ & _ & _ & Hv & Hn). split; [by apply next_data_Ok in Hn as [_ Hn]|]. unfold header_validate in Hv.
  apply bind_Ok_iff in Hv as (? & _ & Hv). apply bind_Ok_iff in Hv as (? & _ & Hv). apply bind_Ok_iff in Hv as (? & _ & Hv). apply bind_Ok_iff in Hv as (? & Hh & _). unfold check_height in Hh.
  apply bind_Ok_iff in Hh as (e & [-> Hb]%arith_Ok_iff & Hh). destruct (Z.eqb_spec (bh_height (lh_header h)) (bh_height (lh_header p) + 1)) as [Heq|]; [|done]. unfold height_at. lia.
Qed.

Lemma all_proven_fields wm ws chain new : all_proven wm ws chain new -> Forall (fun h => acc_hash (lh_accumulated_data h) = hash_at h /\ 0 <= height_at h <= U64_MAX) new.
Proof. revert chain. induction new as [|h new IH]; intros chain; [by constructor|]. intros [Hp Hn]. constructor; [exact (proven_fields _ _ _ _ Hp)|exact (IH _ Hn)]. Qed.

Lemma validate_step wm ws chain now header db st r : validator_at wm ws chain st -> sync_validate manager now header db st = Ok r ->
  exists h, lh_header h = header /\ proven wm ws chain h /\ ss_valid_headers r.2 = ss_valid_headers st ++ [h] /\ r.1 = difficulty_of h /\ validator_at wm ws (h :: chain) r.2.
Proof.
  intros [Ht [Hm Hs] (p & rest & Hc & Hp1 & Hp2)] Hv. pose proof Hv as Hv'. unfold sync_validate in Hv'.
  apply bind_Ok_iff in Hv' as (constants & Hcon & (target & Htar & (at_ & Hat & (ts & _ & (data & Hd & (h & Hh & [= <-])%bind_Ok_iff)%bind_Ok_iff)%bind_Ok_iff)%bind_Ok_iff)%bind_Ok_iff).
  destruct (next_data (ss_previous_accum st) header at_) as [d|e|] eqn:Hn; [|done|done]. injection Hd as <-. apply unwrap_Ok in Hh. unfold header_try_construct in Hh. case_bool_decide as Hhash; [|done]. injection Hh as <-.
  pose proof Hat as Hat'. apply header_validate_target, check_target_Ok in Hat' as (Htgt & _ & _). pose proof (next_data_Ok _ _ _ _ Hn) as [Hdt _].
  exists {| lh_header := header; lh_accumulated_data := d |}. split; [done|]. cbn [fst snd ss_valid_headers]. split_and!; [|done|done|].
  - subst chain. exists now, db, (rv_items (ss_timestamps st)), constants, target, at_. cbn [lh_header lh_accumulated_data]. unfold height_at. cbn [lh_header]. split_and!; [done| |by rewrite <- Hp1|by rewrite <- Hp2].
    rewrite <- Htar. f_equal. destruct Ht as [Hm1 Hs1]. by destruct (bh_pow_algo header); cbn [targets_get]; rewrite ?Hm1, ?Hs1.
  - split; [|done|by eexists _, _]. cbn [ss_target_difficulties]. rewrite <- Htgt, <- Hdt. by apply (targets_rep_back wm ws Hm Hs chain {| lh_header := header; lh_accumulated_data := d |}).
Qed.

Lemma initialized_at top s base db st : has_headers (top ++ s :: base) db -> initialize_state manager (hash_at s) db = Ok st ->
  exists wm ws, windows manager (length (s :: base)) wm ws /\ validator_at wm ws (s :: base) st /\ ss_valid_headers st = [].
Proof.
  intros Hh. assert (s ∈ top ++ s :: base) as Hin by (apply elem_of_app; right; left). unfold initialize_state. rewrite (known_header _ _ _ Hh Hin).
  change (or_not_found (Some ?d)) with (@Ok ChainStorageError _ d). cbn [mbind result_bind].
  intros (ts & _ & (targets & Ht & (acc & Ha & [= <-])%bind_Ok_iff)%bind_Ok_iff)%bind_Ok_iff. destruct (windows_at manager top s base db targets Hh Ht) as (wm & ws & Hw & Hrep). exists wm, ws. split; [done|]. split; [|done].
  unfold fetch_header_accumulated_data in Ha. pose proof Hh as [Hd Hok]. rewrite Hd in Ha. destruct (in_headers _ _ Hok Hin) as (_ & Hl & Hl'). rewrite Hl' in Ha. cbn [mbind option_bind] in Ha. rewrite Hl in Ha. injection Ha as <-.
  destruct Hw as [Hwm Hws]. split; [done|split; by eapply new_target_empty|by exists s, base].
Qed.

(** ** Reading headers *)

Lemma header_at_height hs (i : nat) h : headers_ok hs -> rev hs !! i = Some h -> h ∈ hs /\ height_at h = Z.of_nat i.
Proof.
  intros Hok Hl. split; [rewrite Permutation_rev; by apply list_elem_of_lookup_2 in Hl|]. apply list_elem_of_split_length in Hl as (l1 & l2 & Hr & ->).
  apply (f_equal (@rev LinkedHeader)) in Hr. rewrite rev_involutive, rev_app_distr in Hr. cbn [rev] in Hr. rewrite <- app_assoc in Hr. cbn [app] in Hr. rewrite Hr in Hok.
  by rewrite (height_position _ _ _ Hok), length_rev.
Qed.

Lemma headers_read hs db n : has_headers hs db -> forall i : nat, headers_from n (Z.of_nat i) db = map lh_header (take n (drop i (rev hs))).
Proof.
  intros [Hd Hok]. induction n as [|n IH]; intros i; [done|]. cbn [headers_from]. rewrite Hd. destruct (rev hs !! i) as [h|] eqn:Hl.
  - destruct (header_at_height hs i h Hok Hl) as [Hin Hh]. rewrite <- Hh. destruct (in_headers hs h Hok Hin) as (-> & _). rewrite Hh, (drop_S _ _ _ Hl). cbn [take map]. f_equal.
    replace (Z.of_nat i + 1) with (Z.of_nat (S i)) by lia. apply IH.
  - apply lookup_ge_None in Hl. rewrite length_rev in Hl. rewrite no_header_above by (done || lia). by rewrite drop_ge by (rewrite length_rev; lia).
Qed.

Lemma fetch_last_state hs bs db : header_state hs bs db -> exists tip rest, hs = tip :: rest /\ fetch_last_chain_header db = Ok tip /\ fetch_last_header db = Ok (lh_header tip) /\ height_at tip = Z.of_nat (length rest).
Proof.
  intros Hs. pose proof (state_nonempty _ _ _ Hs) as Hne. pose proof (hd_ok _ _ _ Hs) as Hok. destruct hs as [|tip rest]; [done|]. exists tip, rest. split; [done|].
  unfold fetch_last_chain_header, fetch_last_header. rewrite (hd_headers _ _ _ Hs), (last_of_headers rest tip Hok). split_and!; [|done|apply Hok]. cbn [ok_or mbind result_bind]. fold (height_at tip).
  destruct (in_headers _ tip Hok ltac:(left)) as (_ & -> & _). cbn [or_not_found ok_or mbind result_bind]. unfold header_try_construct. rewrite bool_decide_true by apply Hok. by destruct tip.
Qed.

(** The hashes that are sent to the peer. *)
Lemma hashes_from_tip hs bs db n offset : header_state hs bs db -> (0 < n)%nat ->
  fetch_block_hashes_from_header_tip n offset db = Ok (map hash_at (take n (drop offset hs))).
Proof.
  intros Hs Hn. destruct (fetch_last_state _ _ _ Hs) as (tip & rest & Hhs & _ & Hl & Hh). unfold fetch_block_hashes_from_header_tip. rewrite (proj2 (Nat.eqb_neq _ _)) by lia. rewrite Hl. cbn [mbind result_bind]. fold (height_at tip).
  assert (length hs = S (length rest)) as Hlen by (by rewrite Hhs). rewrite Hh. pose proof (hd_size _ _ _ Hs) as Hsz. destruct (checked 0 U64_MAX (Z.of_nat (length rest) - Z.of_nat offset)) as [e|] eqn:Hc.
  - apply checked_Some in Hc as [-> Hc]. unfold fetch_headers. set (start := Z.max 0 _). rewrite Z.gtb_ltb, (proj2 (Z.ltb_ge _ _)) by lia.
    replace start with (Z.of_nat (Z.to_nat start)) at 2 by lia. rewrite (headers_read hs db _ (state_headers _ _ _ Hs)), map_map. f_equal.
    set (m := (length hs - offset)%nat). assert (rev hs = rev (drop offset hs) ++ rev (take offset hs)) as Hr by (rewrite <- rev_app_distr, take_drop; done).
    rewrite Hr, drop_app_le, take_app_le by (rewrite ?length_drop, ?length_rev, ?length_drop; lia).
    rewrite take_ge by (rewrite length_drop, length_rev, length_drop; lia). rewrite skipn_rev, map_rev, rev_involutive, length_drop. f_equal. fold m.
    destruct (decide (n <= m)%nat); [f_equal; lia|]. rewrite !take_ge by (rewrite length_drop; lia). done.
  - rewrite drop_ge; [by rewrite take_nil|]. unfold checked in Hc. destruct (fits 0 U64_MAX (Z.of_nat (length rest) - Z.of_nat offset)) eqn:Hf; [done|]. unfold fits in Hf. apply andb_false_iff in Hf as [Hf%Z.leb_gt|Hf%Z.leb_gt]; lia.
Qed.

(** ** How the chain of headers moves *)

(** The headers after [base] are replaced: [new] is proven after [base], and its last header is not weaker than [tip]. *)
Definition better (tip : LinkedHeader) base new : Prop :=
  exists wm ws t, base <> [] /\ windows manager (length base) wm ws /\ all_proven wm ws base new /\ last new = Some t /\ lex (strength_of tip) (strength_of t) <> Gt.

(** The third move is what is left when the new headers cannot be stored because one of them repeats a hash, or the number of kernels or outputs. *)
Inductive header_move : list LinkedHeader -> list LinkedHeader -> Prop :=
| move_switch top base new tip rest : top ++ base = tip :: rest -> better tip base new -> header_move (top ++ base) (rev new ++ base)
| move_extend hs new n wm ws : windows manager n wm ws -> (n <= length hs)%nat -> all_proven wm ws hs new -> header_move hs (rev new ++ hs)
| move_rewind top base new tip rest : top ++ base = tip :: rest -> better tip base new -> ~ headers_ok (rev new ++ base) -> header_move (top ++ base) base.

Abbreviation header_moves := (rtc header_move).

(** The headers moved, and the blocks that are left are the first ones. *)
Definition moved hs bs db : Prop := exists hs' bs' removed, header_moves hs hs' /\ header_state hs' bs' db /\ bs = removed ++ bs'.

Lemma moved_refl hs bs db : header_state hs bs db -> moved hs bs db.
Proof. intros Hs. by exists hs, bs, []. Qed.

Section Moves.
Context (forced : list bytes) (clock : Z -> Z) (cmp : @Comparer bytes RistrettoSecretKey).
Hypothesis Hcmp : forall x y, cmp x y = lex (strength x) (strength y).

Lemma ban_db period peer reason s s' r : ban_peer_for forced period peer reason s = (s', r) -> hy_db s' = hy_db s.
Proof. unfold ban_peer_for. case_bool_decide; [by intros [= <- _]|]. destruct (hp_bannable peer); by intros [= <- _]. Qed.

Lemma commit_outcome wm ws hs bs st s s' r : header_state hs bs (hy_db s) -> all_proven wm ws hs (ss_valid_headers st) -> commit_pending_headers manager st s = (s', r) ->
  match r with
  | Ok st' => header_state (rev (ss_valid_headers st) ++ hs) bs (hy_db s') /\ st' = (take_valid_headers st).2 /\ ss_valid_headers st <> []
  | _ => s' = s /\ (ss_valid_headers st = [] \/ ~ headers_ok (rev (ss_valid_headers st) ++ hs))
  end.
Proof.
  intros Hs Hp. pose proof (all_proven_fields _ _ _ _ Hp) as Hf. unfold commit_pending_headers. cbn [take_valid_headers]. set (st' := Build_SyncState _ _ _ _ _ _). set (new := ss_valid_headers st) in *.
  unfold mbind at 1, hdM_bind at 1, hd_lift. destruct (last new) as [t|] eqn:Hl; [|intros [= <- <-]; split; [done|left]; by apply last_None]. cbn [unwrap].
  unfold mbind, hdM_bind, hd_run, write. destruct (db_write manager (map InsertChainHeader new) (hy_db s)) as [db'|e|] eqn:Hw; cbn [map_err].
  - intros [= <- <-]. cbn [hy_db]. split_and!; [by apply (insert_headers_inv manager new hs bs (hy_db s) db')|done|by intros Hn; rewrite Hn in Hl].
  - intros [= <- <-]. split; [by destruct s|]. right. intros Hok. by rewrite (insert_headers_Ok manager new hs bs _ Hs Hok) in Hw.
  - intros [= <- <-]. split; [by destruct s|]. right. intros Hok. by rewrite (insert_headers_Ok manager new hs bs _ Hs Hok) in Hw.
Qed.

Lemma higher_pow st tip : pending_chain_has_higher_pow cmp st tip = true -> exists t, last (ss_valid_headers st) = Some t /\ lex (strength_of tip) (strength_of t) <> Gt.
Proof.
  unfold pending_chain_has_higher_pow. destruct (last _) as [t|]; [|done]. rewrite Hcmp. change (strength (to_chain_header ?h)) with (strength_of h). intros Hc. exists t. split; [done|]. by destruct (lex _ _).
Qed.

(** What is known of a split. *)
Record split_at hs (info : ChainSplitInfo) top base : Prop := {
  sp_hs : hs = top ++ base;
  sp_tip : exists rest, hs = si_local_tip_header info :: rest;
  sp_base : exists split rest, base = split :: rest /\ si_chain_split_hash info = hash_at split;
  sp_steps : si_reorg_steps_back info = Z.of_nat (length top);
}.

Lemma switch_outcome wm ws hs bs info top base st s s' r : header_state hs bs (hy_db s) -> split_at hs info top base -> windows manager (length base) wm ws ->
  all_proven wm ws base (ss_valid_headers st) -> pending_chain_has_higher_pow cmp st (si_local_tip_header info) = true -> switch_to_pending_chain manager info st s = (s', r) ->
  match r with
  | Ok st' => st' = (take_valid_headers st).2 /\ header_move hs (rev (ss_valid_headers st) ++ base) /\
      exists bs' removed, header_state (rev (ss_valid_headers st) ++ base) bs' (hy_db s') /\ bs = removed ++ bs'
  | _ => moved hs bs (hy_db s')
  end.
Proof.
  intros Hs [Hhs (rest & Htip) (split & brest & Hbase & Hhash) Hsteps] Hw Hp Hpow. set (new := ss_valid_headers st) in *. apply higher_pow in Hpow as (t & Ht & Hlex).
  assert (better (si_local_tip_header info) base new) as Hbetter by (exists wm, ws, t; split_and!; try done; by rewrite Hbase). rewrite Htip in Hhs. symmetry in Hhs.
  assert (header_move hs (rev new ++ base)) as Hmove by (rewrite Htip, <- Hhs; exact (move_switch _ _ _ _ _ Hhs Hbetter)).
  unfold switch_to_pending_chain. rewrite Hsteps. unfold mbind at 1, hdM_bind at 1. destruct (Z.ltb_spec 0 (Z.of_nat (length top))) as [Hpos|Hz].
  - rewrite Htip, <- Hhs, Hbase in Hs. destruct (rewind_state manager top split brest bs (hy_db s) Hs) as (db1 & removed & bs' & Hr & Hs1 & Hbs & _). unfold mbind at 1, hdM_bind at 1, hd_run. rewrite Hhash, Hr. cbn [map_err mret hdM_ret].
    rewrite <- Hbase in Hs1. intros Hc. apply (commit_outcome wm ws base bs') in Hc; [|done|done]. destruct r as [st'|e|].
    + destruct Hc as (Hs2 & -> & _). split; [done|]. split; [done|]. by exists bs', removed.
    + destruct Hc as [-> [Hnil|Hno]]; [by rewrite Hnil in Ht|]. exists base, bs', removed. split; [|done]. apply rtc_once. rewrite Htip, <- Hhs. exact (move_rewind _ _ _ _ _ Hhs Hbetter Hno).
    + destruct Hc as [-> [Hnil|Hno]]; [by rewrite Hnil in Ht|]. exists base, bs', removed. split; [|done]. apply rtc_once. rewrite Htip, <- Hhs. exact (move_rewind _ _ _ _ _ Hhs Hbetter Hno).
  - destruct top as [|x top]; [|cbn [length] in Hz; lia]. cbn [app] in Hhs. cbn [mret hdM_ret]. assert (hs = base) as Heq by congruence. rewrite Heq in *. intros Hc. apply (commit_outcome wm ws base bs) in Hc; [|done|done].
    destruct r as [st'|e|]; [|destruct Hc as [-> _]; by apply moved_refl..]. destruct Hc as (Hs2 & -> & _). split; [done|]. split; [done|]. by exists bs, [].
Qed.

(** ** The split that is found *)

Lemma find_split_outcome hs bs db iters k peer count resp hashes steps : header_state hs bs db -> find_chain_split_loop iters k peer count db = Ok (resp, hashes, steps) ->
  exists offset, hashes = map hash_at (take NUM_CHAIN_SPLIT_HEADERS (drop offset hs)) /\ steps = Z.of_N (fs_fork_hash_index resp) + Z.of_nat offset.
Proof.
  intros Hs. revert k. induction iters as [|iters IH]; intros k; cbn [find_chain_split_loop]; [done|]. rewrite (hashes_from_tip hs bs db _ _ Hs) by (unfold NUM_CHAIN_SPLIT_HEADERS; lia). cbn [map_err mbind result_bind].
  case_bool_decide; [done|]. destruct (hp_find_chain_split peer _ count) as [resp'|e|]; [| |done].
  - intros (steps' & [-> _]%arith_Ok_iff & [= <- <- <-])%bind_Ok_iff. by eexists.
  - destruct e as [| |[]|]; try done. destruct (_ <? _)%nat; [done|apply IH].
Qed.

Lemma fold_validate wm ws chain headers db : forall st st', validator_at wm ws chain st ->
  foldM (fun st header => '(_, st) ← validate manager clock st header db; Ok st) headers st = Ok st' ->
  exists new, map lh_header new = headers /\ ss_valid_headers st' = ss_valid_headers st ++ new /\ all_proven wm ws chain new /\ validator_at wm ws (rev new ++ chain) st'.
Proof.
  revert chain. induction headers as [|header headers IH]; intros chain st st' Hv; cbn [foldM]; [intros [= <-]; exists []; by rewrite app_nil_r|].
  intros (st1 & ([d st2] & Hv1 & [= <-])%bind_Ok_iff & Hrest)%bind_Ok_iff. unfold validate in Hv1. destruct (sync_validate manager _ header db st) as [r|e|] eqn:Hr; [|done|done]. injection Hv1 as ->.
  destruct (validate_step wm ws chain _ _ _ _ _ Hv Hr) as (h & Hh & Hp & Hvalid & _ & Hva). cbn [snd] in *. destruct (IH (h :: chain) st2 st' Hva Hrest) as (new & Hnew & Hvs & Hps & Hva').
  exists (h :: new). cbn [map rev]. rewrite Hh, Hnew, Hvs, Hvalid, <- !app_assoc. split_and!; done.
Qed.

(** A lagging node knows where the chains split, and has validated the headers that follow there. *)
Lemma status_outcome hs bs peer tip rest s s' r : header_state hs bs (hy_db s) -> hs = tip :: rest -> determine_sync_status manager forced clock peer tip s = (s', r) ->
  hy_db s' = hy_db s /\
  match r with
  | Ok (Lagging info st) => exists top base wm ws, split_at hs info top base /\ windows manager (length base) wm ws /\ all_proven wm ws base (ss_valid_headers st) /\
      validator_at wm ws (rev (ss_valid_headers st) ++ base) st
  | _ => True
  end.
Proof.
  intros Hs Htip. unfold determine_sync_status. unfold mbind at 1, hdM_bind at 1, hd_read. destruct (find_chain_split peer _ (hy_db s)) as [[[resp hashes] steps]|e|] eqn:Hfind; [|by intros [= <- <-]..].
  destruct (find_split_outcome hs bs _ _ _ _ _ _ _ _ Hs Hfind) as (offset & -> & ->). destruct (_ <? length (fs_headers resp))%nat.
  { unfold mbind, hdM_bind. destruct (ban_peer_long forced peer _ s) as [s1 r1] eqn:Hban. apply ban_db in Hban. destruct r1; by intros [= <- <-]. }
  destruct (Z.leb_spec (Z.of_nat (length (map hash_at (take NUM_CHAIN_SPLIT_HEADERS (drop offset hs))))) (Z.of_N (fs_fork_hash_index resp))) as [_|Hlt].
  { unfold mbind, hdM_bind, hd_ignore. destruct (ban_peer_long forced peer _ s) as [s1 r1] eqn:Hban. apply ban_db in Hban. destruct r1; by intros [= <- <-]. }
  case_bool_decide; [intros [= <- <-]; by destruct (0 <? _)|]. unfold mbind at 1, hdM_bind at 1, hd_lift. destruct (mapM _ (fs_headers resp)) as [headers|]; cbn [ok_or]; [|by intros [= <- <-]].
  set (hashes := map hash_at _) in *. unfold mbind at 1, hdM_bind at 1. destruct (hashes !! Z.to_nat (Z.of_N (fs_fork_hash_index resp))) as [hash|] eqn:Hhash; cbn [unwrap]; [|by intros [= <- <-]].
  unfold mbind at 1, hdM_bind at 1. destruct (initialize_validator manager hash (hy_db s)) as [st0|e|] eqn:Hinit; [|by intros [= <- <-]..].
  unfold mbind at 1, hdM_bind at 1. destruct (foldM _ headers st0) as [st|e|] eqn:Hfold; [|by intros [= <- <-]..]. destruct (_ <? _).
  { unfold mbind, hdM_bind. destruct (ban_peer_short forced peer _ s) as [s1 r1] eqn:Hban. apply ban_db in Hban. destruct r1; by intros [= <- <-]. }
  intros [= <- <-]. split; [done|]. unfold hashes in Hhash. apply list_lookup_fmap_Some in Hhash as (split & -> & Hl). apply lookup_take_Some in Hl as [Hl _]. rewrite lookup_drop in Hl.
  set (k := (offset + Z.to_nat (Z.of_N (fs_fork_hash_index resp)))%nat) in *. pose proof (take_drop_middle hs k split Hl) as Hsplit. pose proof (lookup_lt_Some _ _ _ Hl) as Hk.
  pose proof (state_headers _ _ _ Hs) as Hh. rewrite <- Hsplit in Hh. unfold initialize_validator in Hinit. rewrite (known_header _ _ split Hh) in Hinit by (apply elem_of_app; right; left).
  destruct (initialize_state manager (hash_at split) (hy_db s)) as [st1|e|] eqn:Hi; [|done|done]. injection Hinit as ->. destruct (initialized_at _ _ _ _ _ Hh Hi) as (wm & ws & Hw & Hva & Hnil).
  destruct (fold_validate wm ws _ _ _ _ _ Hva Hfold) as (new & _ & Hvs & Hp & Hva'). rewrite Hnil in Hvs. cbn [app] in Hvs. rewrite <- Hvs in Hp, Hva'.
  exists (take k hs), (split :: drop (S k) hs), wm, ws. split; [|done]. split; cbn [si_local_tip_header si_chain_split_hash si_reorg_steps_back]; [done|by exists rest|by eexists _, _|]. rewrite length_take. lia.
Qed.

(** ** The stream of headers *)

Lemma validator_taken wm ws chain st : validator_at wm ws chain st -> validator_at wm ws chain (take_valid_headers st).2.
Proof. intros []. by split. Qed.

Section Stream.
Context (hs : list LinkedHeader) (bs : list ChainBlock) (info : ChainSplitInfo) (top base : list LinkedHeader) (wm ws : LinearWeightedMovingAverage).
Hypothesis Hsplit : split_at hs info top base.
Hypothesis Hwin : windows manager (length base) wm ws.

(** The validated headers are not stored and start after the split, or follow the headers that are stored. *)
Definition loop_inv (switched : bool) (st : SyncState) db : Prop :=
  if switched then exists hs' bs' removed, header_moves hs hs' /\ header_state hs' bs' db /\ bs = removed ++ bs' /\ (length base <= length hs')%nat /\
    all_proven wm ws hs' (ss_valid_headers st) /\ validator_at wm ws (rev (ss_valid_headers st) ++ hs') st
  else header_state hs bs db /\ all_proven wm ws base (ss_valid_headers st) /\ validator_at wm ws (rev (ss_valid_headers st) ++ base) st.

Lemma loop_moved switched st db : loop_inv switched st db -> moved hs bs db.
Proof. destruct switched; [|intros [Hs _]; by apply moved_refl]. intros (hs' & bs' & removed & Hm & Hs & Hb & _). by exists hs', bs', removed. Qed.

Lemma loop_commit st s s' r : loop_inv true st (hy_db s) -> commit_pending_headers manager st s = (s', r) -> match r with Ok st' => loop_inv true st' (hy_db s') | _ => moved hs bs (hy_db s') end.
Proof.
  intros Hl Hc. pose proof (loop_moved _ _ _ Hl) as Hmoved. destruct Hl as (hs' & bs' & removed & Hm & Hs & Hb & Hlen & Hp & Hva). apply (commit_outcome wm ws hs' bs') in Hc; [|done|done].
  destruct r as [st'|e|]; [|by destruct Hc as [-> _]..]. destruct Hc as (Hs' & -> & _). exists (rev (ss_valid_headers st) ++ hs'), bs', removed. split_and!; try done.
  - eapply rtc_r; [exact Hm|]. by eapply move_extend.
  - rewrite length_app. lia.
  - by apply validator_taken.
Qed.

Lemma loop_switch st s s' r : loop_inv false st (hy_db s) -> pending_chain_has_higher_pow cmp st (si_local_tip_header info) = true -> switch_to_pending_chain manager info st s = (s', r) ->
  match r with Ok st' => loop_inv true st' (hy_db s') | _ => moved hs bs (hy_db s') end.
Proof.
  intros (Hs & Hp & Hva) Hpow Hsw. apply (switch_outcome wm ws hs bs info top base) in Hsw; try done. destruct r as [st'|e|]; [|done..]. destruct Hsw as (-> & Hm & bs' & removed & Hs' & Hb).
  exists (rev (ss_valid_headers st) ++ base), bs', removed. split_and!; try done; [by apply rtc_once|rewrite length_app; lia|by apply validator_taken].
Qed.

Lemma loop_validate switched st header s d st' : loop_inv switched st (hy_db s) -> validate manager clock st header (hy_db s) = Ok (d, st') -> loop_inv switched st' (hy_db s).
Proof.
  intros Hl Hv. unfold validate in Hv. destruct (sync_validate manager _ header (hy_db s) st) as [[d' st1]|e|] eqn:Hr; [|done|done]. injection Hv as -> ->.
  assert (forall chain, all_proven wm ws chain (ss_valid_headers st) -> validator_at wm ws (rev (ss_valid_headers st) ++ chain) st ->
    all_proven wm ws chain (ss_valid_headers st') /\ validator_at wm ws (rev (ss_valid_headers st') ++ chain) st') as Hstep.
  { intros chain Hp Hva. destruct (validate_step wm ws _ _ _ _ _ _ Hva Hr) as (h & _ & Hph & Hvs & _ & Hva'). cbn [snd] in *. rewrite Hvs, rev_app_distr, all_proven_app. cbn [rev app all_proven]. by split_and!. }
  destruct switched; [|destruct Hl as (Hs & Hp & Hva); split; [done|by apply Hstep]].
  destruct Hl as (hs' & bs' & removed & Hm & Hs & Hb & Hlen & Hp & Hva). exists hs', bs', removed. destruct (Hstep hs' Hp Hva). by split_and!.
Qed.

Lemma sync_header_outcome st item s s' r : loop_inv (hl_switched st) (hl_validator st) (hy_db s) -> sync_header manager clock cmp info st item s = (s', r) ->
  match r with Ok st' => loop_inv (hl_switched st') (hl_validator st') (hy_db s') | _ => moved hs bs (hy_db s') end.
Proof.
  intros Hl. pose proof (loop_moved _ _ _ Hl) as Hmoved. unfold sync_header. unfold mbind at 1, hdM_bind at 1, hd_lift at 1. destruct (ti_item item) as [| |header]; [by intros [= <- <-]..|].
  unfold mbind at 1, hdM_bind at 1, hd_read at 1. destruct (fetch_header_by_block_hash _ _); [by intros [= <- <-]|]. unfold mbind at 1, hdM_bind at 1, hd_read at 1.
  destruct (validate manager clock (hl_validator st) header (hy_db s)) as [[d v]|e|] eqn:Hv; [|by intros [= <- <-]..]. pose proof (loop_validate _ _ _ _ _ _ Hl Hv) as Hl'. unfold mbind at 1, hdM_bind at 1.
  set (m := if hl_switched st then _ else _). assert (forall s1 r1, m s = (s1, r1) -> match r1 with Ok (v', sw) => loop_inv sw v' (hy_db s1) | _ => moved hs bs (hy_db s1) end) as Hm.
  { intros s1 r1. unfold m. destruct (hl_switched st).
    - destruct (_ <=? _)%nat; [|by intros [= <- <-]]. unfold mbind, hdM_bind. destruct (commit_pending_headers manager v s) as [s2 r2] eqn:Hc. apply loop_commit in Hc; [|done]. destruct r2; by intros [= <- <-].
    - destruct (pending_chain_has_higher_pow cmp v (si_local_tip_header info)) eqn:Hpow; [|by intros [= <- <-]]. unfold mbind, hdM_bind. destruct (switch_to_pending_chain manager info v s) as [s2 r2] eqn:Hc.
      apply loop_switch in Hc; [|done|done]. destruct r2; by intros [= <- <-]. }
  destruct (m s) as [s1 r1] eqn:Hms. specialize (Hm _ _ eq_refl). destruct r1 as [[v' sw]|e|]; [|by intros [= <- <-]..]. destruct (ti_slow item); intros [= <- <-]; [by apply loop_moved in Hm|done].
Qed.

Lemma stream_outcome stream : forall st s s' r, loop_inv (hl_switched st) (hl_validator st) (hy_db s) -> sync_header_stream manager clock cmp info stream st s = (s', r) ->
  match r with Ok st' => loop_inv (hl_switched st') (hl_validator st') (hy_db s') | _ => moved hs bs (hy_db s') end.
Proof.
  induction stream as [|item stream IH]; intros st s s' r Hl; cbn [sync_header_stream]; [by intros [= <- <-]|]. unfold mbind, hdM_bind. destruct (sync_header manager clock cmp info st item s) as [s1 r1] eqn:Hh.
  apply sync_header_outcome in Hh; [|done]. destruct r1 as [st1|e|]; [by apply IH|by intros [= <- <-]..].
Qed.

Lemma synchronize_headers_outcome peer st s s' r : loop_inv false st (hy_db s) -> synchronize_headers manager clock cmp peer info st s = (s', r) -> moved hs bs (hy_db s').
Proof.
  intros Hl. pose proof (loop_moved _ _ _ Hl) as Hmoved. unfold synchronize_headers. unfold mbind at 1, hdM_bind at 1, hd_lift at 1. destruct (current_valid_chain_tip_header st) as [start|]; cbn [unwrap]; [|by intros [= <- <-]].
  set (pow := pending_chain_has_higher_pow cmp st _). unfold mbind at 1, hdM_bind at 1. set (m := if pow then _ else _).
  assert (forall s1 r1, m s = (s1, r1) -> match r1 with Ok v => loop_inv pow v (hy_db s1) | _ => moved hs bs (hy_db s1) end) as Hm.
  { intros s1 r1. unfold m. destruct pow eqn:Hpow; [|by intros [= <- <-]]. intros Hsw. apply loop_switch in Hsw; done. }
  destruct (m s) as [s1 r1] eqn:Hms. specialize (Hm _ _ eq_refl). destruct r1 as [v|e|]; [|by intros [= <- <-]..]. apply loop_moved in Hm as Hmoved1.
  destruct (_ <? _)%nat; [destruct pow; by intros [= <- <-]|]. unfold mbind at 1, hdM_bind at 1, hd_lift at 1. destruct (hp_sync_headers peer _ 0) as [stream|e|]; cbn [map_err]; [|by intros [= <- <-]..].
  unfold mbind at 1, hdM_bind at 1. destruct (sync_header_stream manager clock cmp info stream _ s1) as [s2 r2] eqn:Hst. apply stream_outcome in Hst; [|done]. destruct r2 as [st2|e|]; [|by intros [= <- <-]..].
  apply loop_moved in Hst as Hmoved2. destruct (hl_switched st2); [|destruct (_ <? _); by intros [= <- <-]]. unfold mbind at 1, hdM_bind at 1. case_bool_decide.
  - cbn [mret hdM_ret]. destruct (_ <? _); by intros [= <- <-].
  - unfold mbind at 1, hdM_bind at 1. destruct (commit_pending_headers manager (hl_validator st2) s2) as [s3 r3] eqn:Hc. apply loop_commit in Hc; [|done]. destruct r3 as [v3|e|]; [|by intros [= <- <-]..].
    apply loop_moved in Hc. cbn [mret hdM_ret]. destruct (_ <? _); by intros [= <- <-].
Qed.

End Stream.

(** ** All peers *)

Lemma attempt_outcome hs bs local peer s s' r : header_state hs bs (hy_db s) -> attempt_sync manager forced clock cmp local peer s = (s', r) -> moved hs bs (hy_db s').
Proof.
  intros Hs. pose proof (moved_refl _ _ _ Hs) as Hmoved. destruct (fetch_last_state _ _ _ Hs) as (tip & rest & Hhs & Hlast & _). unfold attempt_sync. unfold mbind at 1, hdM_bind at 1, hd_read at 1. rewrite Hlast. cbn [map_err].
  unfold mbind at 1, hdM_bind at 1. destruct (determine_sync_status manager forced clock peer tip s) as [s1 r1] eqn:Hst. apply (status_outcome hs bs peer tip rest) in Hst as [Hdb Hst]; [|done|done]. rewrite <- Hdb in Hs, Hmoved.
  destruct r1 as [[| |info st]|e|]; [| | |by intros [= <- <-]..].
  1-2: unfold mbind, hdM_bind, hd_read; destruct (_ <? _); [by intros [= <- <-]|]; destruct (_ <=? _); by intros [= <- <-].
  destruct Hst as (top & base & wm & ws & Hsp & Hw & Hp & Hva). by apply (synchronize_headers_outcome hs bs info top base wm ws Hsp Hw).
Qed.

Lemma moved_trans hs bs hs' bs' db removed : header_moves hs hs' -> bs = removed ++ bs' -> moved hs' bs' db -> moved hs bs db.
Proof. intros Hm -> (hs2 & bs2 & removed2 & Hm2 & Hs2 & ->). exists hs2, bs2, (removed ++ removed2). split; [by etrans|]. split; [done|]. by rewrite app_assoc. Qed.

Lemma punish_db peer e s s' r : punish forced peer e s = (s', r) -> hy_db s' = hy_db s.
Proof. destruct e as [[]| | | | | | | | | | | | | | | |]; cbn; (apply ban_db || by intros [= <- _]). Qed.

Lemma peers_outcome local peers : forall hs bs s s' r, header_state hs bs (hy_db s) -> try_sync_from_all_peers manager forced clock cmp local peers s = (s', r) -> moved hs bs (hy_db s').
Proof.
  induction peers as [|peer peers IH]; intros hs bs s s' r Hs; cbn [try_sync_from_all_peers]; [intros [= <- <-]; by apply moved_refl|].
  destruct (connect_and_attempt_sync manager forced clock cmp local peer s) as [s1 r1] eqn:Hc. assert (moved hs bs (hy_db s1)) as Hmoved.
  { revert Hc. unfold connect_and_attempt_sync. unfold mbind at 1, hdM_bind at 1, hd_lift at 1. destruct (match hp_connect peer with Some _ => _ | None => _ end); [|intros [= <- <-]; by apply moved_refl..].
    destruct (hp_slow peer); [intros [= <- <-]; by apply moved_refl|]. unfold mbind, hdM_bind. destruct (attempt_sync manager forced clock cmp local peer s) as [s2 r2] eqn:Ha. apply (attempt_outcome hs bs) in Ha; [|done].
    destruct r2; by intros [= <- <-]. }
  destruct r1 as [id|e|]; [by intros [= <- <-]| |by intros [= <- <-]]. destruct (too_slow e && _); [by intros [= <- <-]|]. unfold mbind, hdM_bind. destruct (punish forced peer e s1) as [s2 r2] eqn:Hp. apply punish_db in Hp.
  rewrite <- Hp in Hmoved. destruct r2; [|by intros [= <- <-]..]. destruct Hmoved as (hs' & bs' & removed & Hm & Hs' & Hb). intros Hrest. by eapply (moved_trans hs bs hs' bs'); [| |eapply IH].
Qed.

Lemma header_rounds_outcome local rounds : forall hs bs s s' r, header_state hs bs (hy_db s) -> synchronize_header_rounds manager forced clock cmp local rounds s = (s', r) -> moved hs bs (hy_db s').
Proof.
  induction rounds as [|peers rounds IH]; intros hs bs s s' r Hs; cbn [synchronize_header_rounds]; [intros [= <- <-]; by apply moved_refl|].
  destruct (try_sync_from_all_peers manager forced clock cmp local peers s) as [s1 r1] eqn:Hc. apply (peers_outcome _ _ hs bs) in Hc; [|done].
  destruct r1 as [id|e|]; [by intros [= <- <-]| |by intros [= <- <-]]. destruct e; try by intros [= <- <-]. destruct (_ <? _)%nat; [by intros [= <- <-]|].
  destruct Hc as (hs' & bs' & removed & Hm & Hs' & Hb). intros Hrest. by eapply (moved_trans hs bs hs' bs'); [| |eapply IH].
Qed.

End Moves.

(** C14: whatever the peers send, the chain of headers of an archival node, whose blocks carry no registrations ([header_state]), changes only in three ways. It is replaced after a header it shares with the
    peer, by headers that each passed the
    header validator with the target difficulty that the headers before it prescribe, when the last of them is not weaker than the last header of the node; it is
    extended by such headers; or, when new headers that are not weaker cannot be stored because one of them repeats a hash, or a number of kernels or outputs, it is left
    cut off at the shared header. The blocks that are left are the first blocks of the chain, and the tables are those of these headers and blocks. (Registrations in removed blocks would stay in their
    tables.) *)
Theorem header_sync_verified forced clock cmp local rounds hs bs s s' r : @default_comparer bytes RistrettoSecretKey unit = Ok cmp -> header_state hs bs (hy_db s) ->
  synchronize_header_rounds manager forced clock cmp local rounds s = (s', r) ->
  exists hs' bs' removed, header_moves hs hs' /\ header_state hs' bs' (hy_db s') /\ bs = removed ++ bs'.
Proof. intros Hcmp. apply (header_rounds_outcome forced clock cmp (default_comparer_lex cmp Hcmp)). Qed.

(** ** What the validation reads of the database *)

Definition checks db : gmap bytes Z * gmap bytes Z := (bad_blocks db, monero_seed_height_db db).

Lemma header_validate_checks bypass now db db' header prev ts target : checks db = checks db' ->
  header_validate manager bypass now db header prev ts (Some target) = header_validate manager bypass now db' header prev ts (Some target).
Proof. intros [= Hb Hm]. unfold header_validate, check_not_bad_block, bad_block_exists, check_pow_data, fetch_monero_seed_first_seen_height. by rewrite Hb, Hm. Qed.

Definition set_pending (l : list LinkedHeader) (st : SyncState) : SyncState :=
  {| ss_current_height := ss_current_height st; ss_timestamps := ss_timestamps st; ss_target_difficulties := ss_target_difficulties st; ss_previous_accum := ss_previous_accum st;
     ss_previous_header := ss_previous_header st; ss_valid_headers := l |}.

Lemma validate_pending now header db db' st d st' h l : sync_validate manager now header db st = Ok (d, st') -> ss_valid_headers st' = ss_valid_headers st ++ [h] -> checks db = checks db' ->
  sync_validate manager now header db' (set_pending l st) = Ok (d, set_pending (l ++ [h]) st').
Proof.
  intros Hv Hvalid Hc. unfold sync_validate in *. cbn [set_pending ss_target_difficulties ss_previous_header ss_timestamps ss_previous_accum ss_valid_headers].
  apply bind_Ok_iff in Hv as (constants & -> & (target & Ht & (at_ & Hat & (ts & Hts & (data & Hd & (ch & Hch & [= <- <-])%bind_Ok_iff)%bind_Ok_iff)%bind_Ok_iff)%bind_Ok_iff)%bind_Ok_iff).
  rewrite (header_validate_checks _ _ _ _ _ _ _ _ Hc) in Hat. cbn [mbind result_bind]. rewrite Ht. cbn [mbind result_bind]. rewrite Hat. cbn [mbind result_bind]. rewrite Hts. cbn [mbind result_bind]. rewrite Hd. cbn [mbind result_bind]. rewrite Hch.
  cbn [ss_valid_headers] in Hvalid. apply app_inv_head in Hvalid as [= ->]. done.
Qed.

Definition keeps {A} (m : dbM A) : Prop := forall db, checks (m db).1 = checks db.

Lemma keeps_bind {A A'} (m : dbM A) (k : A -> dbM A') : keeps m -> (forall a, keeps (k a)) -> keeps (m ≫= k).
Proof. intros Hm Hk db. unfold mbind, dbM_bind. specialize (Hm db). destruct (m db) as [db1 [a|e|]]; [by rewrite (Hk a)|done|done]. Qed.

Lemma keeps_ret {A} (a : A) : keeps (mret a).
Proof. done. Qed.

Lemma keeps_read {A} (f : Database -> stored_result A) : keeps (db_read f).
Proof. done. Qed.

Lemma keeps_lift {A} (r : stored_result A) : keeps (db_lift r).
Proof. done. Qed.

Lemma keeps_for {A S} (f : S -> A -> dbM S) l : (forall s a, keeps (f s a)) -> forall s, keeps (db_for f l s).
Proof. intros Hf. induction l as [|a l IH]; intros s; [done|]. cbn [db_for]. by apply keeps_bind. Qed.

Definition plain (op : WriteOperation) : Prop := match op with InsertMoneroSeedHeight _ _ | InsertBadBlock _ _ => False | _ => True end.

Lemma op_checks op db db' : plain op -> apply_operation manager db op = Ok db' -> checks db' = checks db.
Proof.
  destruct op; try done; intros _; cbn [apply_operation]; try (intros [= <-]; done); try (intros (t & _ & [= <-])%bind_Ok_iff; done).
  unfold set_best_block. intros H2. repeat case_match; try done; by repeat (apply bind_Ok_iff in H2 as (? & _ & H2) || injection H2 as <-).
Qed.

Lemma keeps_write txn : Forall plain txn -> keeps (write manager txn).
Proof.
  intros Hp db. unfold write. destruct (db_write manager txn db) as [db'|e|] eqn:Hw; [|done|done]. cbn [fst]. revert db Hw. unfold db_write. induction Hp as [|op txn Hop Hp IH]; intros db; cbn [foldM]; [by intros [= <-]|].
  intros (db1 & H2 & Hw)%bind_Ok_iff. rewrite (IH _ Hw). by apply (op_checks op).
Qed.

Lemma rewind_checks hash : keeps (rewind_to_hash manager hash).
Proof.
  unfold rewind_to_hash, rewind_to_height. repeat (apply keeps_bind; [apply keeps_read || apply keeps_lift|intros ?]). apply keeps_bind; [apply keeps_for; intros; apply keeps_write; by repeat constructor|intros ?].
  case_match; [apply keeps_ret|]. apply keeps_bind; [apply keeps_lift|intros ?]. apply keeps_bind.
  - apply keeps_for. intros. unfold rewind_block. repeat (apply keeps_bind; [apply keeps_read || apply keeps_lift|intros ?]). apply keeps_bind; [|intros; apply keeps_ret]. apply keeps_write.
    repeat (apply Forall_app; split); repeat case_match; by repeat constructor.
  - intros ?. apply keeps_bind; [|intros; apply keeps_ret]. case_match; [|apply keeps_ret]. apply keeps_for. intros. apply keeps_bind; [apply keeps_read|intros]. apply keeps_write. by repeat constructor.
Qed.

(** ** What a node serves *)

(** The last header of the node is that of its last block. *)
Record serves_headers db hs : Prop := {
  sh_headers : has_headers hs db;
  sh_tip : height_of_longest_chain (md_tip (metadata db)) = Z.of_nat (length hs) - 1;
  sh_size : Z.of_nat (length hs) + 1000 <= U64_MAX;
}.

Lemma hash_at_length h : length (hash_at h) = 32%nat.
Proof. apply blake256_length. Qed.

Lemma fetch_headers_read hs db (i n : nat) : has_headers hs db -> (0 < n)%nat -> fetch_headers (Z.of_nat i) (Z.of_nat i + Z.of_nat n - 1) db = map lh_header (take n (drop i (rev hs))).
Proof.
  intros Hh Hn. unfold fetch_headers. rewrite Z.gtb_ltb, (proj2 (Z.ltb_ge _ _)) by lia. replace (Z.to_nat _) with n by lia. by apply headers_read.
Qed.

Lemma after_split new split base : drop (S (length base)) (rev (rev new ++ split :: base)) = new.
Proof.
  rewrite rev_app_distr, rev_involutive. cbn [rev]. replace (S (length base)) with (length (rev base ++ [split])) by (rewrite length_app, length_rev; cbn; lia). apply drop_app_length.
Qed.

Lemma found_after i pre split base new rest db : serves_headers db (rev new ++ split :: base) -> Forall (fun h => hash_at h ∉ map hash_at (rev new ++ split :: base)) pre ->
  find_headers_after_hash i (map hash_at (pre ++ split :: rest)) (Z.of_nat NUM_INITIAL_HEADERS_TO_REQUEST) db = Ok (Some ((i + N.of_nat (length pre))%N, map lh_header (take NUM_INITIAL_HEADERS_TO_REQUEST new))).
Proof.
  intros [Hh _ Hsz]. revert i. induction pre as [|h pre IH]; intros i Hpre; cbn [app map find_headers_after_hash]; rewrite decide_True by apply hash_at_length.
  - rewrite (known_header _ db split Hh) by (apply elem_of_app; right; left). pose proof Hh as [_ Hok]. pose proof (height_position _ _ _ Hok) as Hp. fold (height_at split). rewrite Hp. change (Z.of_nat NUM_INITIAL_HEADERS_TO_REQUEST =? 0) with false.
    rewrite length_app in Hsz. cbn [length] in Hsz. rewrite checked_ok by (unfold NUM_INITIAL_HEADERS_TO_REQUEST; lia). cbn [ok_or mbind result_bind]. replace (i + N.of_nat (length []))%N with i by (cbn; lia). do 3 f_equal.
    pose proof (fetch_headers_read _ db (S (length base)) NUM_INITIAL_HEADERS_TO_REQUEST Hh ltac:(unfold NUM_INITIAL_HEADERS_TO_REQUEST; lia)) as Hr. rewrite after_split in Hr. rewrite <- Hr. f_equal; lia.
  - apply Forall_cons in Hpre as [Hx Hpre]. rewrite (unknown_header _ _ _ Hh Hx), IH by done. do 3 f_equal. cbn [length]. lia.
Qed.

Lemma none_found i pre hs db : has_headers hs db -> Forall (fun h => hash_at h ∉ map hash_at hs) pre -> forall count, find_headers_after_hash i (map hash_at pre) count db = Ok None.
Proof.
  intros Hh Hpre count. revert i. induction Hpre as [|h pre Hx Hpre IH]; intros i; [done|]. cbn [map find_headers_after_hash]. rewrite decide_True by apply hash_at_length. by rewrite (unknown_header _ _ _ Hh Hx).
Qed.

Lemma stream_reads hs db size fuel : has_headers hs db -> 0 < size -> forall i j ce, (i <= j <= length hs)%nat -> Z.of_nat j + size <= U64_MAX -> (j - i < fuel)%nat ->
  stream_headers fuel {| pi_current := Z.of_nat i; pi_current_end := ce; pi_end := Z.of_nat j; pi_size := size |} db = map lh_header (take (j - i) (drop i (rev hs))).
Proof.
  intros Hh Hsize. induction fuel as [|fuel IH]; intros i j ce Hij Hmax Hf; [lia|]. cbn [stream_headers]. destruct (decide (i = j)) as [->|Hne]; [by rewrite next_done, Nat.sub_diag|].
  rewrite next_chunk by lia. set (c := Z.to_nat (Z.min (Z.of_nat i + size) (Z.of_nat j) - Z.of_nat i)). assert (0 < c <= j - i)%nat as Hc by lia.
  replace (Z.min (Z.of_nat i + size) (Z.of_nat j) - 1) with (Z.of_nat i + Z.of_nat c - 1) by lia. rewrite (fetch_headers_read hs db i c Hh) by lia. rewrite bool_decide_false.
  2:{ intros Hnil. apply (f_equal length) in Hnil. rewrite length_map, length_take, length_drop, length_rev in Hnil. cbn in Hnil. lia. }
  replace (Z.min (Z.of_nat i + size) (Z.of_nat j)) with (Z.of_nat (i + c)) by lia. rewrite IH by lia. rewrite <- map_app. f_equal.
  replace (drop (i + c) (rev hs)) with (drop c (drop i (rev hs))) by (rewrite drop_drop; f_equal; lia). rewrite take_take_drop. f_equal. lia.
Qed.

(** The rest of the headers, from any of those that follow the split. *)
Lemma served_rest past h rest split base db fuel : serves_headers db (rev (past ++ h :: rest) ++ split :: base) -> (length rest < fuel)%nat ->
  sync_headers_rpc fuel (hash_at h) 0 db = Ok (map lh_header rest).
Proof.
  intros [Hh Htip Hsz] Hf. pose proof Hh as [Hd Hok]. set (hs := rev (past ++ h :: rest) ++ split :: base) in *. assert (hs = rev rest ++ h :: rev past ++ split :: base) as Hhs.
  { unfold hs. rewrite rev_app_distr. cbn [rev]. by rewrite <- !app_assoc. }
  assert (h ∈ hs) as Hin by (rewrite Hhs; apply elem_of_app; right; left). unfold sync_headers_rpc, hash_of_request. rewrite decide_True by apply hash_at_length. rewrite (known_header hs db h Hh Hin). cbn [ok_or mbind result_bind].
  rewrite Hhs in Hok. pose proof (height_position _ _ _ Hok) as Hheight. rewrite <- Hhs in Hok. set (below := rev past ++ split :: base) in *. assert (length hs = (length rest + S (length below))%nat) as Hlen by (rewrite Hhs, length_app, length_rev; done).
  assert (exists t, fetch_tip_header db = Ok t /\ height_at t = Z.of_nat (length hs) - 1) as (t & Ht & Hth).
  { unfold fetch_tip_header. rewrite Htip. destruct hs as [|t l] eqn:Hl; [cbn in Hlen; lia|]. exists t. assert (height_at t = Z.of_nat (length (t :: l)) - 1) as <- by (rewrite (hf_height _ _ (proj1 Hok)); cbn [length]; lia).
    split; [|done]. apply (chain_header (t :: l)); [done|left]. }
  rewrite Ht. cbn [internal_error map_err mbind result_bind Z.eqb]. fold (height_at t) (height_at h). rewrite Hth, Hheight, Hlen. set (count := Z.max 0 _). assert (count = Z.of_nat (length rest)) as -> by lia.
  destruct (Z.eqb_spec (Z.of_nat (length rest)) 0) as [Hz|Hz]; [by destruct rest; [|cbn in Hz; lia]|]. rewrite arith_ok by lia. cbn [mbind result_bind]. rewrite !Z.min_r by lia. unfold pairs_new. rewrite (proj2 (Z.leb_le _ _)) by lia.
  cbn [mbind result_bind]. replace (Z.of_nat (length below) + 1) with (Z.of_nat (S (length below))) by lia. replace (Z.of_nat (length below) + Z.of_nat (length rest) + 1) with (Z.of_nat (length hs)) by lia.
  rewrite (stream_reads hs db _ fuel Hh) by lia. rewrite Hlen, Hhs, after_split, take_ge; [done|lia].
Qed.

(** ** A peer with a chain that is not weaker *)

Section Live.
Context (forced : list bytes) (clock : Z -> Z) (cmp : @Comparer bytes RistrettoSecretKey).
Hypothesis Hcmp : forall x y, cmp x y = lex (strength x) (strength y).

(** The validator accepts headers one after the other, with the data they have. *)
Fixpoint accepts db (st : SyncState) new (st' : SyncState) : Prop :=
  match new with
  | [] => st' = st
  | h :: new => exists st1, sync_validate manager (clock (height_at h)) (lh_header h) db st = Ok (difficulty_of h, st1) /\ ss_valid_headers st1 = ss_valid_headers st ++ [h] /\ accepts db st1 new st'
  end.

(** Headers that are validated one after the other are accepted, with the data the validator builds. *)
Lemma validated_accepts db headers : forall st st', foldM (fun st header => snd <$> sync_validate manager (clock (bh_height header)) header db st) headers st = Ok st' ->
  exists new, map lh_header new = headers /\ accepts db st new st'.
Proof.
  induction headers as [|header headers IH]; intros st st'; cbn [foldM]; [intros [= <-]; by exists []|]. intros (st1 & Hv & Hf)%bind_Ok_iff.
  destruct (sync_validate manager (clock (bh_height header)) header db st) as [[d st2]|e|] eqn:Hr; [|done|done]. injection Hv as ->. destruct (IH _ _ Hf) as (new & Hmap & Ha).
  pose proof Hr as Hr'. unfold sync_validate in Hr'. apply bind_Ok_iff in Hr' as (constants & _ & (target & _ & (at_ & _ & (ts & _ & (data & _ & (h & Hh & [= <- <-])%bind_Ok_iff)%bind_Ok_iff)%bind_Ok_iff)%bind_Ok_iff)%bind_Ok_iff).
  apply unwrap_Ok in Hh. unfold header_try_construct in Hh. case_bool_decide; [|done]. injection Hh as <-. exists ({| lh_header := header; lh_accumulated_data := data |} :: new). cbn [map lh_header accepts]. rewrite Hmap. split; [done|].
  eexists. split; [exact Hr|]. split; [done|exact Ha].
Qed.

Lemma accepts_app db st new1 new2 st' : accepts db st (new1 ++ new2) st' <-> exists st1, accepts db st new1 st1 /\ accepts db st1 new2 st'.
Proof.
  revert st. induction new1 as [|h new1 IH]; intros st; cbn [app accepts]; [split; [intros Ha; by exists st|by intros (? & -> & Ha)]|]. setoid_rewrite IH. split.
  - intros (a & Hv & Hl & st1 & H1a & H2a). exists st1. split; [by exists a|done].
  - intros (st1 & (a & Hv & Hl & H1a) & H2a). exists a. split_and!; [done|done|by exists st1].
Qed.

Lemma accepts_valid db st new st' : accepts db st new st' -> ss_valid_headers st' = ss_valid_headers st ++ new.
Proof. revert st. induction new as [|h new IH]; intros st; cbn [accepts]; [intros ->; by rewrite app_nil_r|]. intros (st1 & _ & Hv & Ha). rewrite (IH _ Ha), Hv, <- app_assoc. done. Qed.

Lemma accepts_det db st new st1 st2 : accepts db st new st1 -> accepts db st new st2 -> st1 = st2.
Proof. revert st. induction new as [|h new IH]; intros st; cbn [accepts]; [congruence|]. intros (a & Ha & _ & H1a) (b & Hb & _ & H2b). rewrite Ha in Hb. injection Hb as ->. by apply (IH b). Qed.

Lemma accepts_fold db st new st' : accepts db st new st' -> foldM (fun st header => '(_, st) ← validate manager clock st header db; Ok st) (map lh_header new) st = Ok st'.
Proof.
  revert st. induction new as [|h new IH]; intros st; cbn [accepts map foldM]; [by intros ->|]. intros (st1 & Hv & _ & Ha). 
  assert (validate manager clock st (lh_header h) db = Ok (difficulty_of h, st1)) as -> by (unfold validate; fold (height_at h); by rewrite Hv). cbn [mbind result_bind]. by apply IH.
Qed.

Context (top base new : list LinkedHeader) (split : LinkedHeader) (bs : list ChainBlock) (server : Database) (s : HeaderSyncState) (node : bytes) (fuel : nat) (claimed : Z).
Abbreviation ours := (top ++ split :: base).
Abbreviation theirs := (rev new ++ split :: base).
Abbreviation peer := (header_peer node claimed fuel server).
Hypothesis Hstate : header_state ours bs (hy_db s).
Hypothesis Hserver : serves_headers server theirs.
Hypothesis Hfork : Forall (fun h => hash_at h ∉ map hash_at theirs) top.
Hypothesis Hdepth : (length top < NUM_CHAIN_SPLIT_HEADERS * MAX_CHAIN_SPLIT_ITERS)%nat.

Lemma hashes_requested (l : list LinkedHeader) : mapM (fun hash => hash_of_request hash Ok) (map hash_at l) = Ok (map hash_at l).
Proof.
  induction l as [|h l IH]; [done|]. assert (hash_of_request (hash_at h) Ok = Ok (hash_at h)) as Hh by (unfold hash_of_request; by rewrite decide_True by apply hash_at_length).
  cbn [map mapM]. rewrite Hh. cbn [mbind result_bind]. by rewrite IH.
Qed.

Lemma split_found iters : forall k, (NUM_CHAIN_SPLIT_HEADERS * k <= length top < NUM_CHAIN_SPLIT_HEADERS * (k + iters))%nat ->
  exists resp hashes, find_chain_split_loop iters k peer (Z.of_nat NUM_INITIAL_HEADERS_TO_REQUEST) (hy_db s) = Ok (resp, hashes, Z.of_nat (length top)) /\
    fs_headers resp = map Some (map lh_header (take NUM_INITIAL_HEADERS_TO_REQUEST new)) /\ hashes !! Z.to_nat (Z.of_N (fs_fork_hash_index resp)) = Some (hash_at split) /\
    fs_tip_height resp = Z.of_nat (length theirs) - 1.
Proof.
  induction iters as [|iters IH]; intros k Hk; [lia|]. cbn [find_chain_split_loop]. rewrite (hashes_from_tip _ _ _ _ _ Hstate) by (unfold NUM_CHAIN_SPLIT_HEADERS; lia). cbn [map_err mbind result_bind].
  set (offset := (NUM_CHAIN_SPLIT_HEADERS * k)%nat) in *. pose proof (hd_size _ _ _ Hstate) as Hsz. rewrite length_app in Hsz. cbn [length] in Hsz. rewrite drop_app_le by lia. set (sent := take NUM_CHAIN_SPLIT_HEADERS _).
  assert (length sent <= NUM_CHAIN_SPLIT_HEADERS)%nat as Hlen by (unfold sent; rewrite length_take; lia).
  assert (sent <> []) as Hne. { intros Hnil%(f_equal length). unfold sent in Hnil. rewrite length_take, length_app in Hnil. cbn [length] in Hnil. unfold NUM_CHAIN_SPLIT_HEADERS in Hnil. lia. }
  rewrite bool_decide_false by (by intros ->%map_eq_nil). cbn [hp_find_chain_split header_peer]. unfold find_chain_split_rpc. rewrite bool_decide_false by (by intros ->%map_eq_nil). rewrite length_map.
  rewrite (proj2 (Z.ltb_ge _ _)) by (unfold MAX_ALLOWED_BLOCK_HASHES, NUM_CHAIN_SPLIT_HEADERS in *; lia). change (MAX_ALLOWED_HEADER_COUNT <? Z.of_nat NUM_INITIAL_HEADERS_TO_REQUEST) with false. cbn iota.
  rewrite hashes_requested. cbn [mbind result_bind]. destruct (decide (length top < offset + NUM_CHAIN_SPLIT_HEADERS)%nat) as [Hhere|Hfar].
  - assert (exists rest, sent = drop offset top ++ split :: rest) as [rest Hsent].
    { unfold sent. exists (take (NUM_CHAIN_SPLIT_HEADERS - length (drop offset top) - 1) base). rewrite take_app_ge by (rewrite length_drop; lia). f_equal.
      destruct (NUM_CHAIN_SPLIT_HEADERS - length (drop offset top))%nat as [|m] eqn:Hm; [rewrite length_drop in Hm; lia|]. cbn [take]. by rewrite Nat.sub_1_r. }
    rewrite Hsent, (found_after 0 _ split base new rest server Hserver) by (by apply Forall_drop). cbn [internal_error map_err mbind result_bind]. rewrite arith_ok.
    2:{ cbn [fs_fork_hash_index]. rewrite length_drop. lia. }
    cbn [mbind result_bind]. eexists _, _. split; [apply f_equal, f_equal2; [reflexivity|]|split_and!; [done| |]].
    + cbn [fs_fork_hash_index]. rewrite length_drop. lia.
    + cbn [fs_fork_hash_index]. rewrite list_lookup_fmap, lookup_app_r by lia. replace (_ - _)%nat with 0%nat by lia. done.
    + cbn [fs_tip_height]. apply Hserver.
  - assert (sent = take NUM_CHAIN_SPLIT_HEADERS (drop offset top)) as Hsent by (unfold sent; rewrite take_app_le by (rewrite length_drop; lia); done).
    rewrite Hsent, (none_found 0 _ theirs server (sh_headers _ _ Hserver)) by (by apply Forall_take, Forall_drop). cbn [internal_error map_err mbind result_bind].
    rewrite (proj2 (Nat.ltb_ge _ _)) by (rewrite length_take, length_drop; lia). apply IH. unfold offset in *. lia.
Qed.

Context (st0 st_end : SyncState) (tip : LinkedHeader) (rest : list LinkedHeader) (t : LinkedHeader).
Hypothesis Htip : ours = tip :: rest.
Hypothesis Hinit : initialize_state manager (hash_at split) (hy_db s) = Ok st0.
Hypothesis Haccepts : accepts (hy_db s) st0 new st_end.
Hypothesis Hlast : last new = Some t.
Hypothesis Hstronger : lex (strength_of tip) (strength_of t) <> Gt.

Lemma init_valid : ss_valid_headers st0 = [].
Proof. destruct (initialized_at top split base _ _ (state_headers _ _ _ Hstate) Hinit) as (wm & ws & _ & _ & Hv). exact Hv. Qed.

Definition live_info : ChainSplitInfo :=
  {| si_local_tip_header := tip; si_remote_tip_height := Z.of_nat (length theirs) - 1; si_reorg_steps_back := Z.of_nat (length top); si_chain_split_hash := hash_at split |}.

Lemma status_live st1 : accepts (hy_db s) st0 (take NUM_INITIAL_HEADERS_TO_REQUEST new) st1 -> determine_sync_status manager forced clock peer tip s = (s, Ok (Lagging live_info st1)).
Proof.
  intros Ha. destruct (split_found MAX_CHAIN_SPLIT_ITERS 0) as (resp & hashes & Hfind & Hheaders & Hhash & Hheight); [lia|].
  unfold determine_sync_status. unfold mbind at 1, hdM_bind at 1, hd_read. unfold find_chain_split. rewrite Hfind, Hheaders. rewrite (proj2 (Nat.ltb_ge _ _)) by (rewrite !length_map, length_take; lia).
  pose proof (lookup_lt_Some _ _ _ Hhash) as Hlt. rewrite (proj2 (Z.leb_gt _ _)) by lia. rewrite bool_decide_false.
  2:{ intros Hnil%map_eq_nil%map_eq_nil. destruct new as [|h l]; [done|]. done. }
  assert (forall l : list BlockHeader, mapM (fun header => header) (map Some l) = Some l) as -> by (induction l as [|h l IH]; [done|]; cbn [map mapM]; cbn [mbind option_bind]; by rewrite IH).
  unfold mbind at 1, hdM_bind at 1, hd_lift. cbn [ok_or]. unfold mbind at 1, hdM_bind at 1. rewrite Hhash. cbn [unwrap]. unfold mbind at 1, hdM_bind at 1. unfold initialize_validator.
  rewrite (known_header _ _ split (state_headers _ _ _ Hstate)) by (apply elem_of_app; right; left). rewrite Hinit. cbn [map_err]. unfold mbind at 1, hdM_bind at 1. rewrite (accepts_fold _ _ _ _ Ha).
  pose proof (hd_ok _ _ _ Hstate) as Hok. rewrite Htip in Hok. assert (bh_height (lh_header tip) = Z.of_nat (length rest)) as -> by apply Hok. pose proof (f_equal length Htip) as Hl. rewrite length_app in Hl. cbn [length] in Hl.
  rewrite Hheight, length_app. cbn [length]. rewrite (proj2 (Z.ltb_ge _ _)) by lia. unfold live_info. by rewrite length_app.
Qed.

(** ** Storing the headers *)

Lemma theirs_ok : headers_ok theirs.
Proof. apply (sh_headers _ _ Hserver). Qed.

Lemma prefix_ok past more : new = past ++ more -> headers_ok (rev past ++ split :: base).
Proof. intros Hn. pose proof theirs_ok as Hok. rewrite Hn, rev_app_distr, <- app_assoc in Hok. by apply headers_ok_suffix in Hok. Qed.

Lemma pending_commit hs' bs' pend st s1 : header_state hs' bs' (hy_db s1) -> pend <> [] -> headers_ok (rev pend ++ hs') -> Z.of_nat (length (rev pend ++ hs')) <= U64_MAX ->
  exists s2, commit_pending_headers manager (set_pending pend st) s1 = (s2, Ok (set_pending [] st)) /\ header_state (rev pend ++ hs') bs' (hy_db s2) /\ checks (hy_db s2) = checks (hy_db s1) /\ hy_bans s2 = hy_bans s1.
Proof.
  intros Hs Hne Hok Hsz. exists {| hy_db := store_headers (rev pend ++ hs') (hy_db s1); hy_bans := hy_bans s1 |}. destruct (hd_above _ _ _ Hs) as [above Ha]. split_and!; [|apply (state_store hs'); [done|done|lia|]|done|done].
  - unfold commit_pending_headers. cbn [take_valid_headers set_pending ss_valid_headers]. unfold mbind at 1, hdM_bind at 1, hd_lift. destruct (last pend) as [x|] eqn:Hl; [|by apply last_None in Hl]. cbn [unwrap].
    unfold mbind, hdM_bind, hd_run, write. rewrite (insert_headers_Ok manager pend hs' bs' _ Hs Hok). by destruct pend.
  - exists (rev pend ++ above). by rewrite Ha, app_assoc.
Qed.

Lemma pending_switch pend more st s1 : new = pend ++ more -> pend <> [] -> hy_db s1 = hy_db s ->
  exists s2 bs' removed, switch_to_pending_chain manager live_info (set_pending pend st) s1 = (s2, Ok (set_pending [] st)) /\ header_state (rev pend ++ split :: base) bs' (hy_db s2) /\ cut (S (length base)) bs removed bs' /\
    checks (hy_db s2) = checks (hy_db s1) /\ hy_bans s2 = hy_bans s1.
Proof.
  intros Hnew Hne Hdb. pose proof (prefix_ok _ _ Hnew) as Hok. pose proof (sh_size _ _ Hserver) as Hsz. rewrite Hnew, length_app, length_rev, length_app in Hsz.
  assert (Z.of_nat (length (rev pend ++ split :: base)) <= U64_MAX) as Hsz' by (rewrite length_app, length_rev; lia). unfold switch_to_pending_chain. cbn [si_reorg_steps_back si_chain_split_hash live_info]. unfold mbind at 1, hdM_bind at 1.
  destruct (Z.ltb_spec 0 (Z.of_nat (length top))) as [_|Hz].
  - destruct (rewind_state manager top split base bs (hy_db s) Hstate) as (db1 & removed & bs' & Hr & Hs1 & Hb). unfold mbind at 1, hdM_bind at 1, hd_run. rewrite Hdb, Hr. cbn [map_err mret hdM_ret].
    pose proof (rewind_checks (hash_at split) (hy_db s)) as Hc. rewrite Hr in Hc. cbn [fst] in Hc.
    destruct (pending_commit (split :: base) bs' pend st {| hy_db := db1; hy_bans := hy_bans s1 |} Hs1 Hne Hok Hsz') as (s2 & Hcm & Hs2 & Hc2 & Hb2). exists s2, bs', removed. by rewrite Hc2.
  - assert (top = []) as Hnil by (destruct top; [done|cbn [length] in Hz; lia]). pose proof Hstate as Hs. rewrite Hnil, <- Hdb in Hs. cbn [mret hdM_ret].
    destruct (pending_commit (split :: base) bs pend st s1 Hs Hne Hok Hsz') as (s2 & Hcm & Hs2 & Hc2 & Hb2). exists s2, bs, []. split_and!; [done|done| |done|done]. split; [done|]. destruct (hd_above _ _ _ Hs) as [above Ha]. apply (f_equal length) in Ha. rewrite !length_app, length_map in Ha. cbn [length] in *. lia.
Qed.

(** ** The stream *)

(** The headers [past] are validated, and stored up to those that are pending, or none is stored yet. *)
Definition live_at past (sw : bool) (v : SyncState) (s1 : HeaderSyncState) : Prop :=
  hy_bans s1 = hy_bans s /\ checks (hy_db s1) = checks (hy_db s) /\ exists st, accepts (hy_db s) st0 past st /\
  if sw then exists stored pend bs' removed, past = stored ++ pend /\ v = set_pending pend st /\ header_state (rev stored ++ split :: base) bs' (hy_db s1) /\ cut (S (length base)) bs removed bs'
  else v = set_pending past st /\ hy_db s1 = hy_db s.

Definition item_for h : Timed (Received BlockHeader) := {| ti_item := Decoded (lh_header h); ti_slow := false |}.

Lemma set_pending_last past h st : last (ss_valid_headers (set_pending (past ++ [h]) st)) = Some h.
Proof. apply last_snoc. Qed.

Lemma not_stored past h more s1 sw v : new = past ++ h :: more -> live_at past sw v s1 -> fetch_header_by_block_hash (hash_at h) (hy_db s1) = None.
Proof.
  intros Hnew (_ & _ & st & _ & Hl). assert (header_follows (rev past ++ split :: base) h) as Hf.
  { assert (new = (past ++ [h]) ++ more) as Hn by (by rewrite <- app_assoc). pose proof (prefix_ok _ _ Hn) as Hok. rewrite rev_app_distr in Hok. apply Hok. }
  pose proof (hf_hash _ _ Hf) as Hfresh. destruct sw.
  - destruct Hl as (stored & pend & bs' & removed & Hp & _ & Hs & _). apply (unknown_header _ _ _ (state_headers _ _ _ Hs)). intros Hin. apply Hfresh. rewrite Hp, rev_app_distr, <- app_assoc, map_app. apply elem_of_app. by right.
  - destruct Hl as [_ ->]. apply (unknown_header _ _ _ (state_headers _ _ _ Hstate)). rewrite map_app. intros [Hin|Hin]%elem_of_app.
    + apply elem_of_map in Hin as (x & Heq & Hx). rewrite Forall_forall in Hfork. apply (Hfork x Hx). rewrite <- Heq, Hnew. apply (list_elem_of_fmap_2 hash_at). apply elem_of_app. left. rewrite <- Permutation_rev. apply elem_of_app. right. left.
    + apply Hfresh. rewrite map_app. apply elem_of_app. by right.
Qed.

Lemma live_step past h more sw v d s1 : new = past ++ h :: more -> live_at past sw v s1 ->
  exists v' sw' s2, sync_header manager clock cmp live_info {| hl_validator := v; hl_switched := sw; hl_last_difficulty := d |} (item_for h) s1 =
    (s2, Ok {| hl_validator := v'; hl_switched := sw'; hl_last_difficulty := difficulty_of h |}) /\ live_at (past ++ [h]) sw' v' s2 /\ (sw' = true \/ lex (strength_of tip) (strength_of h) = Gt).
Proof.
  intros Hnew Hl. pose proof (not_stored _ _ _ _ _ _ Hnew Hl) as Hnone. destruct Hl as (Hbans & Hchecks & st & Ha & Hl). assert (new = (past ++ [h]) ++ more) as Hn by (by rewrite <- app_assoc).
  assert (exists st1, sync_validate manager (clock (height_at h)) (lh_header h) (hy_db s) st = Ok (difficulty_of h, st1) /\ ss_valid_headers st1 = ss_valid_headers st ++ [h]) as (st1 & Hv & Hvalid).
  { rewrite Hnew in Haccepts. apply accepts_app in Haccepts as (st' & Ha' & st1 & Hv & Hvalid & _). exists st1. by rewrite (accepts_det _ _ _ _ _ Ha Ha'). }
  assert (accepts (hy_db s) st0 (past ++ [h]) st1) as Ha1 by (apply accepts_app; exists st; split; [done|by exists st1]).
  unfold sync_header. unfold mbind at 1, hdM_bind at 1, hd_lift at 1. cbn [ti_item item_for]. unfold mbind at 1, hdM_bind at 1, hd_read at 1. fold (hash_at h). rewrite Hnone. unfold mbind at 1, hdM_bind at 1, hd_read at 1. cbn [hl_validator hl_switched ti_slow item_for].
  assert (forall l, v = set_pending l st -> validate manager clock v (lh_header h) (hy_db s1) = Ok (difficulty_of h, set_pending (l ++ [h]) st1)) as Hval.
  { intros l ->. unfold validate. fold (height_at h). by rewrite (validate_pending _ _ _ _ _ _ _ _ l Hv Hvalid (eq_sym Hchecks)). }
  destruct sw.
  - destruct Hl as (stored & pend & bs' & removed & -> & Hpend & Hs & Hb). rewrite (Hval _ Hpend). cbn [ss_valid_headers set_pending]. assert (stored ++ pend ++ [h] = (stored ++ pend) ++ [h]) as Happ by apply app_assoc.
    destruct (_ <=? _)%nat.
    + destruct (pending_commit (rev stored ++ split :: base) bs' (pend ++ [h]) st1 s1 Hs) as (s2 & Hc & Hs2 & Hc2 & Hb2); [by destruct pend| | |].
      * rewrite app_assoc, <- rev_app_distr, Happ. by apply (prefix_ok _ more).
      * pose proof (sh_size _ _ Hserver) as Hsz. rewrite Hn, !length_app, length_rev in Hsz. rewrite app_assoc, <- rev_app_distr, Happ, length_app, length_rev. rewrite !length_app in *. cbn [length] in *. lia.
      * exists (set_pending [] st1), true, s2. unfold mbind at 1, hdM_bind at 1. unfold mbind at 1, hdM_bind at 1. rewrite Hc. cbn [mret hdM_ret]. split; [done|]. split; [|by left]. rewrite <- Happ in *. split; [congruence|]. split; [congruence|]. exists st1. split; [done|].
        exists (stored ++ pend ++ [h]), [], bs', removed. split; [by rewrite app_nil_r|]. split; [done|]. split; [|done]. by rewrite rev_app_distr, <- app_assoc.
    + exists (set_pending (pend ++ [h]) st1), true, s1. split; [done|]. split; [|by left]. split; [done|]. split; [done|]. exists st1. split; [done|]. exists stored, (pend ++ [h]), bs', removed. by rewrite <- Happ.
  - destruct Hl as [Hpend Hdb]. rewrite (Hval _ Hpend). unfold pending_chain_has_higher_pow. rewrite set_pending_last, Hcmp. change (strength (to_chain_header ?h)) with (strength_of h). cbn [si_local_tip_header live_info].
    assert (exists s2, switch_to_pending_chain manager live_info (set_pending (past ++ [h]) st1) s1 = (s2, Ok (set_pending [] st1)) /\ live_at (past ++ [h]) true (set_pending [] st1) s2) as (s2 & Hsw & Hl2).
    { destruct (pending_switch (past ++ [h]) more st1 s1 Hn ltac:(by destruct past) Hdb) as (s2 & bs' & removed & Hsw & Hs2 & Hb & Hc2 & Hb2). exists s2. split; [done|]. split; [congruence|]. split; [congruence|]. exists st1. split; [done|].
      exists (past ++ [h]), [], bs', removed. by rewrite app_nil_r. }
    destruct (lex (strength_of tip) (strength_of h)) eqn:Hlex.
    1-2: exists (set_pending [] st1), true, s2; unfold mbind at 1, hdM_bind at 1; unfold mbind at 1, hdM_bind at 1; rewrite Hsw; cbn [mret hdM_ret]; split; [done|]; split; [done|by left].
    exists (set_pending (past ++ [h]) st1), false, s1. split; [done|]. split; [|by right]. split; [done|]. split; [done|]. by exists st1.
Qed.

Lemma live_stream more : forall past sw v d s1, new = past ++ more -> live_at past sw v s1 ->
  exists v' sw' s2, sync_header_stream manager clock cmp live_info (map item_for more) {| hl_validator := v; hl_switched := sw; hl_last_difficulty := d |} s1 =
    (s2, Ok {| hl_validator := v'; hl_switched := sw'; hl_last_difficulty := match more with [] => d | _ => difficulty_of t end |}) /\ live_at new sw' v' s2 /\ (more = [] -> sw' = sw) /\ (more <> [] -> sw' = true).
Proof.
  induction more as [|h more IH]; intros past sw v d s1 Hnew Hl; [exists v, sw, s1; rewrite app_nil_r in Hnew; by rewrite Hnew|]. cbn [map sync_header_stream].
  destruct (live_step past h more sw v d s1 Hnew Hl) as (v1 & sw1 & s2 & Hstep & Hl1 & Hsw). assert (new = (past ++ [h]) ++ more) as Hn by (by rewrite <- app_assoc).
  destruct (IH (past ++ [h]) sw1 v1 (difficulty_of h) s2 Hn Hl1) as (v' & sw' & s3 & Hrest & Hl' & Hsame & Hswitched). exists v', sw', s3. unfold mbind, hdM_bind. rewrite Hstep, Hrest. destruct more as [|h' more].
  - assert (h = t) as -> by (rewrite Hnew, last_snoc in Hlast; congruence). split; [done|]. split; [done|]. split; [done|]. intros _. rewrite Hsame by done. by destruct Hsw.
  - split; [done|]. split; [done|]. split; [done|]. intros _. by apply Hswitched.
Qed.

(** The node has the headers of the peer. *)
Definition synced (s1 : HeaderSyncState) : Prop := exists bs' removed, header_state theirs bs' (hy_db s1) /\ cut (S (length base)) bs removed bs' /\ hy_bans s1 = hy_bans s.

Lemma pending_eta st l : ss_valid_headers st = l -> st = set_pending l st.
Proof. intros <-. by destruct st. Qed.

Lemma first_pending st1 n : accepts (hy_db s) st0 (take n new) st1 -> st1 = set_pending (take n new) st1.
Proof. intros Ha. apply pending_eta. by rewrite (accepts_valid _ _ _ _ Ha), init_valid. Qed.

Lemma higher_pow_last pend st h : last pend = Some h -> lex (strength_of tip) (strength_of h) <> Gt -> pending_chain_has_higher_pow cmp (set_pending pend st) tip = true.
Proof. intros Hl Hlex. unfold pending_chain_has_higher_pow. cbn [set_pending ss_valid_headers]. rewrite Hl, Hcmp. change (strength (to_chain_header ?h)) with (strength_of h). by destruct (lex (strength_of tip) (strength_of h)). Qed.

Lemma sync_short : (length new < NUM_INITIAL_HEADERS_TO_REQUEST)%nat -> exists s1, synchronize_headers manager clock cmp peer live_info st_end s = (s1, Ok tt) /\ synced s1.
Proof.
  intros Hlen. pose proof Haccepts as Ha. rewrite <- (take_ge new NUM_INITIAL_HEADERS_TO_REQUEST) in Ha by lia. pose proof (first_pending _ _ Ha) as Hp. rewrite take_ge in Hp by lia. rewrite Hp.
  unfold synchronize_headers. unfold mbind at 1, hdM_bind at 1, hd_lift at 1. unfold current_valid_chain_tip_header. cbn [set_pending ss_valid_headers]. rewrite Hlast. cbn [unwrap]. fold (set_pending new st_end).
  cbn [si_local_tip_header live_info]. rewrite (higher_pow_last new st_end t Hlast Hstronger). assert (new = new ++ []) as Hn by (by rewrite app_nil_r). assert (new <> []) as Hne by (by intros Hn'; rewrite Hn' in Hlast).
  destruct (pending_switch new [] st_end s Hn Hne eq_refl) as (s2 & bs' & removed & Hsw & Hs2 & Hb & _ & Hb2). unfold mbind at 1, hdM_bind at 1. fold live_info. rewrite Hsw, (proj2 (Nat.ltb_lt _ _)) by done.
  exists s2. split; [done|]. by exists bs', removed.
Qed.

Lemma timed_items (l : list LinkedHeader) : timed (map Decoded (map lh_header l)) = map item_for l.
Proof. unfold timed. by rewrite !map_map. Qed.

Lemma sync_long st1 : (NUM_INITIAL_HEADERS_TO_REQUEST <= length new)%nat -> (length new < fuel)%nat -> accepts (hy_db s) st0 (take NUM_INITIAL_HEADERS_TO_REQUEST new) st1 ->
  let last_difficulty := match drop NUM_INITIAL_HEADERS_TO_REQUEST new with [] => 0 | _ => difficulty_of t end in
  exists s1, synchronize_headers manager clock cmp peer live_info st1 s =
    (s1, if last_difficulty <? claimed then Err (PeerSentInaccurateChainMetadata claimed (Some last_difficulty) (difficulty_of tip)) else Ok tt) /\ synced s1.
Proof.
  intros Hlen Hfuel Ha last_difficulty. set (past := take NUM_INITIAL_HEADERS_TO_REQUEST new) in *. set (more := drop NUM_INITIAL_HEADERS_TO_REQUEST new) in *. assert (new = past ++ more) as Hnew by (symmetry; apply take_drop).
  assert (length past = NUM_INITIAL_HEADERS_TO_REQUEST) as Hpl by (unfold past; rewrite length_take; lia). pose proof (first_pending _ _ Ha) as Hp. fold past in Hp. rewrite Hp.
  destruct (last past) as [x|] eqn:Hx; [|apply last_None in Hx; rewrite Hx in Hpl; done]. assert (exists before, past = before ++ [x]) as [before Hbefore] by (by apply last_Some in Hx). assert (new = before ++ x :: more) as Hnx by (rewrite Hnew, Hbefore, <- app_assoc; done).
  unfold synchronize_headers. unfold mbind at 1, hdM_bind at 1, hd_lift at 1. unfold current_valid_chain_tip_header. cbn [set_pending ss_valid_headers]. rewrite Hx, Hpl. cbn [unwrap]. fold (set_pending past st1). cbn [si_local_tip_header live_info]. fold live_info.
  set (pow := pending_chain_has_higher_pow cmp _ tip). unfold mbind at 1, hdM_bind at 1.
  assert (exists v s1, (if pow then switch_to_pending_chain manager live_info (set_pending past st1) else mret (set_pending past st1)) s = (s1, Ok v) /\ live_at past pow v s1) as (v & s1 & -> & Hl).
  { destruct pow; [|exists (set_pending past st1), s; split; [done|]; split; [done|]; split; [done|]; by exists st1].
    destruct (pending_switch past more st1 s Hnew ltac:(by intros Hn; rewrite Hn in Hx) eq_refl) as (s2 & bs' & removed & Hsw & Hs2 & Hb & Hc & Hb2). exists (set_pending [] st1), s2. split; [done|]. split; [done|]. split; [done|]. exists st1. split; [done|].
    exists past, [], bs', removed. by rewrite app_nil_r. }
  rewrite Nat.ltb_irrefl. unfold mbind at 1, hdM_bind at 1, hd_lift at 1. cbn [hp_sync_headers header_peer].
  assert (x ∈ theirs) as Hin by (rewrite Hnx; apply elem_of_app; left; rewrite <- Permutation_rev; apply elem_of_app; right; left). rewrite (data_at _ _ theirs_ok Hin).
  pose proof Hserver as Hsv. rewrite Hnx in Hsv. rewrite (served_rest before x more split base server fuel Hsv) by (rewrite Hnew, length_app in Hfuel; lia). cbn [fmap result_fmap answer map_err]. rewrite timed_items.
  destruct (live_stream more past pow v 0 s1 Hnew Hl) as (v' & sw' & s2 & Hst & Hl2 & Hsame & Hsw). unfold mbind at 1, hdM_bind at 1. rewrite Hst. cbn [hl_switched hl_validator hl_last_difficulty]. fold last_difficulty.
  assert (sw' = true) as ->.
  { destruct more as [|h l] eqn:Hm; [|by apply Hsw]. rewrite Hsame by done. rewrite app_nil_r in Hnew. apply (higher_pow_last past st1 t); [congruence|done]. }
  destruct Hl2 as (Hbans & _ & st2 & _ & stored & pend & bs' & removed & Hsp & -> & Hs2 & Hb). cbn [set_pending ss_valid_headers]. unfold mbind at 1, hdM_bind at 1. case_bool_decide as Hnil.
  - rewrite Hnil, app_nil_r in Hsp. rewrite <- Hsp in Hs2. cbn [mret hdM_ret]. exists s2. split; [by destruct (_ <? _)|]. by exists bs', removed.
  - fold (set_pending pend st2). assert (rev pend ++ rev stored ++ split :: base = theirs) as Hth by (rewrite app_assoc, <- rev_app_distr, <- Hsp; done).
    destruct (pending_commit (rev stored ++ split :: base) bs' pend st2 s2 Hs2 Hnil) as (s3 & Hc & Hs3 & _ & Hb3); [rewrite Hth; apply theirs_ok|rewrite Hth; pose proof (sh_size _ _ Hserver); lia|].
    unfold mbind at 1, hdM_bind at 1. rewrite Hc. cbn [mret hdM_ret]. exists s3. split; [by destruct (_ <? _)|]. exists bs', removed. rewrite Hth in Hs3. split; [done|]. split; [done|]. congruence.
Qed.

End Live.

(** A peer serves a chain that parts from that of a node at [split]: the node has [top] after it, the peer [new], which the node accepts and which is not weaker. *)
Record better_peer (clock : Z -> Z) db server bs top split base new (t : LinkedHeader) : Prop := {
  bt_client : header_state (top ++ split :: base) bs db;
  bt_server : serves_headers server (rev new ++ split :: base);
  bt_fork : Forall (fun h => hash_at h ∉ map hash_at (rev new ++ split :: base)) top;
  bt_depth : (length top < NUM_CHAIN_SPLIT_HEADERS * MAX_CHAIN_SPLIT_ITERS)%nat;
  bt_valid : exists st st', initialize_state manager (hash_at split) db = Ok st /\ accepts clock db st new st';
  bt_last : last new = Some t;
  bt_stronger : forall tip, head (top ++ split :: base) = Some tip -> lex (strength_of tip) (strength_of t) <> Gt;
}.

Section Served.
Context (forced : list bytes) (clock : Z -> Z) (cmp : @Comparer bytes RistrettoSecretKey) (local : Z) (node : bytes) (claimed : Z) (fuel : nat).
Hypothesis Hcmp : forall x y, cmp x y = lex (strength x) (strength y).
Context (server : Database) (bs : list ChainBlock) (top base new : list LinkedHeader) (split t tip : LinkedHeader) (s : HeaderSyncState).
Hypothesis Hpeer : better_peer clock (hy_db s) server bs top split base new t.
Hypothesis Htip : head (top ++ split :: base) = Some tip.
Abbreviation peer := (header_peer node claimed fuel server).

Lemma attempt_served : (length new < fuel)%nat -> exists s1 bs' removed,
  connect_and_attempt_sync manager forced clock cmp local peer s = (s1,
    let last_difficulty := match drop NUM_INITIAL_HEADERS_TO_REQUEST new with [] => 0 | _ => difficulty_of t end in
    if (NUM_INITIAL_HEADERS_TO_REQUEST <=? length new)%nat && (last_difficulty <? claimed) then Err (PeerSentInaccurateChainMetadata claimed (Some last_difficulty) (difficulty_of tip)) else Ok node) /\
  header_state (rev new ++ split :: base) bs' (hy_db s1) /\ cut (S (length base)) bs removed bs' /\ hy_bans s1 = hy_bans s.
Proof.
  intros Hfuel. destruct Hpeer as [Hc Hs Hf Hd (st & st' & Hi & Ha) Hl Hst]. specialize (Hst tip Htip). assert (exists rest, top ++ split :: base = tip :: rest) as [rest Hrest] by (destruct (top ++ split :: base); [done|]; injection Htip as ->; by eexists).
  assert (exists st1, accepts clock (hy_db s) st (take NUM_INITIAL_HEADERS_TO_REQUEST new) st1) as [st1 Ha1] by (rewrite <- (take_drop NUM_INITIAL_HEADERS_TO_REQUEST new) in Ha; apply accepts_app in Ha as (st1 & Ha1 & _); by exists st1).
  destruct (fetch_last_state _ _ _ Hc) as (tip' & rest' & Heq & Hlast & _). rewrite Hrest in Heq. injection Heq as <- <-.
  unfold connect_and_attempt_sync. unfold mbind at 1, hdM_bind at 1, hd_lift at 1. cbn [hp_connect hp_slow header_peer hp_node_id]. unfold mbind at 1, hdM_bind at 1. unfold attempt_sync. unfold mbind at 1, hdM_bind at 1, hd_read at 1. rewrite Hlast. cbn [map_err].
  unfold mbind at 1, hdM_bind at 1. rewrite (status_live forced clock top base new split bs server s node fuel claimed Hc Hs Hf Hd st st' tip rest t Hrest Hi Ha Hl st1 Ha1).
  destruct (Nat.leb_spec NUM_INITIAL_HEADERS_TO_REQUEST (length new)) as [Hlong|Hshort].
  - destruct (sync_long clock cmp Hcmp top base new split bs server s node fuel claimed Hc Hs Hf Hd st st' tip rest t Hrest Hi Ha Hl Hst st1 Hlong Hfuel Ha1) as (s1 & Hsync & bs' & removed & H1s & H2s & H3s). exists s1, bs', removed. rewrite Hsync. cbn [andb]. cbn zeta. by destruct (_ <? _).
  - rewrite take_ge in Ha1 by lia. assert (st1 = st') as -> by (by apply (accepts_det clock (hy_db s) st new)).
    destruct (sync_short clock cmp Hcmp top base new split bs server s node fuel claimed Hc Hs Hf Hd st st' tip rest t Hrest Hi Ha Hl Hst Hshort) as (s1 & Hsync & bs' & removed & H1s & H2s & H3s). exists s1, bs', removed. rewrite Hsync. done.
Qed.

End Served.

(** C13: the header synchronisation makes progress. The node is archival and its blocks carry no registrations. The first peer serves a chain that parts from that of the node less than 10000 headers
    before the end of the headers of the node, which accepts the headers of
    the peer one after the other, and the last of them is not weaker than its own and has the difficulty the peer claims. Unless there are exactly 1000 of them, in which case the peer is banned, the synchronisation returns this peer without banning anyone, the headers of
    the node are those of the peer, and its blocks are those it had up to the split. *)
Theorem header_sync_completes forced clock cmp local node fuel server bs top split base new t s peers rounds : @default_comparer bytes RistrettoSecretKey unit = Ok cmp ->
  better_peer clock (hy_db s) server bs top split base new t -> length new <> NUM_INITIAL_HEADERS_TO_REQUEST -> (length new < fuel)%nat ->
  exists s', synchronize_header_rounds manager forced clock cmp local ((header_peer node (difficulty_of t) fuel server :: peers) :: rounds) s = (s', Some (Ok node)) /\
    header_state (rev new ++ split :: base) (drop (length bs - length (split :: base)) bs) (hy_db s') /\ hy_bans s' = hy_bans s.
Proof.
  intros Hcmp Hpeer Hlen Hfuel. destruct (head (top ++ split :: base)) as [tip|] eqn:Htip; [|by destruct top].
  destruct (attempt_served forced clock cmp local node (difficulty_of t) fuel (default_comparer_lex cmp Hcmp) server bs top base new split t tip s Hpeer Htip Hfuel) as (s' & bs' & removed & Hc & Hs & Hb & Hbans).
  apply cut_drop in Hb. exists s'. cbn [length]. rewrite <- Hb. split; [|done]. cbn [synchronize_header_rounds try_sync_from_all_peers]. rewrite Hc. cbn zeta. destruct (Nat.leb_spec NUM_INITIAL_HEADERS_TO_REQUEST (length new)) as [Hle|_]; [|done].
  destruct (drop NUM_INITIAL_HEADERS_TO_REQUEST new) as [|x l] eqn:Hd; [apply (f_equal length) in Hd; rewrite length_drop in Hd; cbn in Hd; lia|]. by rewrite Z.ltb_irrefl.
Qed.

(** C18: a peer that is exactly 1000 headers ahead is banned. The node stores its headers, asks for more, gets none, and compares the claim of the peer with the difficulty 0: it reports that the peer sent
    inaccurate metadata, bans it for the long period, and the synchronisation fails although all headers of the peer are stored. *)
Theorem full_batch_bans_peer forced clock cmp local node fuel server bs top split base new t tip s : @default_comparer bytes RistrettoSecretKey unit = Ok cmp ->
  better_peer clock (hy_db s) server bs top split base new t -> length new = NUM_INITIAL_HEADERS_TO_REQUEST -> (length new < fuel)%nat -> 0 < difficulty_of t -> node ∉ forced ->
  head (top ++ split :: base) = Some tip ->
  exists s' bs' removed, synchronize_header_rounds manager forced clock cmp local [[header_peer node (difficulty_of t) fuel server]] s = (s', Some (Err SyncFailedAllPeers)) /\
    header_state (rev new ++ split :: base) bs' (hy_db s') /\ bs = removed ++ bs' /\
    hy_bans s' = hy_bans s ++ [{| ban_node_id := node; ban_period := BanLong; ban_reason := BanInaccurateChainMetadata (difficulty_of t) 0 (difficulty_of tip) |}].
Proof.
  intros Hcmp Hpeer Hlen Hfuel Hpos Hforced Htip.
  destruct (attempt_served forced clock cmp local node (difficulty_of t) fuel (default_comparer_lex cmp Hcmp) server bs top base new split t tip s Hpeer Htip Hfuel) as (s' & bs' & removed & Hc & Hs & Hb & Hbans).
  rewrite Hlen, Nat.leb_refl, drop_ge in Hc by lia. cbn [andb] in Hc. cbn zeta in Hc. rewrite (proj2 (Z.ltb_lt _ _)) in Hc by done. set (ban := Build_Ban _ _ _).
  exists {| hy_db := hy_db s'; hy_bans := hy_bans s' ++ [ban] |}, bs', removed. split; [|split; [done|split; [by destruct Hb|cbn [hy_bans]; by rewrite Hbans]]].
  cbn [synchronize_header_rounds try_sync_from_all_peers]. rewrite Hc. cbn [too_slow andb]. unfold mbind, hdM_bind. cbn [punish]. unfold ban_peer_long, ban_peer_for. cbn [hp_node_id hp_bannable header_peer].
  rewrite bool_decide_false by done. done.
Qed.

(** C17: a peer can stop a node that has more than 500 headers. It answers the first request for the split with not found, and the second one with an index that overflows when the 500 hashes of the
    first request are added: the node aborts, before the index is compared with the number of hashes that were sent. *)
Theorem split_index_aborts forced clock cmp local hs bs s peer peers rounds resp : header_state hs bs (hy_db s) -> (NUM_CHAIN_SPLIT_HEADERS < length hs)%nat ->
  hp_connect peer = None -> hp_slow peer = false ->
  hp_find_chain_split peer (map hash_at (take NUM_CHAIN_SPLIT_HEADERS hs)) (Z.of_nat NUM_INITIAL_HEADERS_TO_REQUEST) = Err (RequestFailed RpcNotFound) ->
  hp_find_chain_split peer (map hash_at (take NUM_CHAIN_SPLIT_HEADERS (drop NUM_CHAIN_SPLIT_HEADERS hs))) (Z.of_nat NUM_INITIAL_HEADERS_TO_REQUEST) = Ok resp ->
  U64_MAX < Z.of_N (fs_fork_hash_index resp) + Z.of_nat NUM_CHAIN_SPLIT_HEADERS ->
  synchronize_header_rounds manager forced clock cmp local ((peer :: peers) :: rounds) s = (s, Some Panic).
Proof.
  intros Hs Hlen Hconn Hslow Hfirst Hsecond Hover. destruct (fetch_last_state _ _ _ Hs) as (tip & rest & _ & Hlast & _).
  assert (find_chain_split peer (Z.of_nat NUM_INITIAL_HEADERS_TO_REQUEST) (hy_db s) = Panic) as Hfind.
  { unfold find_chain_split. change MAX_CHAIN_SPLIT_ITERS with (S (S 18)). generalize 18%nat as n. intros n. cbn [find_chain_split_loop]. rewrite Nat.mul_0_r, Nat.mul_1_r, !(hashes_from_tip _ _ _ _ _ Hs) by (unfold NUM_CHAIN_SPLIT_HEADERS; lia).
    rewrite drop_0. cbn [map_err mbind result_bind]. rewrite bool_decide_false.
    2:{ intros Hn%map_eq_nil%(f_equal length). rewrite length_take in Hn. unfold NUM_CHAIN_SPLIT_HEADERS in *. cbn [length] in Hn. lia. }
    rewrite Hfirst. rewrite (proj2 (Nat.ltb_ge _ _)) by (rewrite length_map, length_take; lia). rewrite bool_decide_false.
    2:{ intros Hn%map_eq_nil%(f_equal length). rewrite length_take, length_drop in Hn. unfold NUM_CHAIN_SPLIT_HEADERS in *. cbn [length] in Hn. lia. }
    rewrite Hsecond. unfold arith. assert (fits 0 U64_MAX (Z.of_N (fs_fork_hash_index resp) + Z.of_nat NUM_CHAIN_SPLIT_HEADERS) = false) as ->; [|done]. unfold fits. apply andb_false_iff. right. apply Z.leb_gt. lia. }
  cbn [synchronize_header_rounds try_sync_from_all_peers]. unfold connect_and_attempt_sync. rewrite Hconn, Hslow. unfold mbind at 1, hdM_bind at 1, hd_lift at 1. unfold mbind at 1, hdM_bind at 1. unfold attempt_sync. unfold mbind at 1, hdM_bind at 1, hd_read at 1.
  rewrite Hlast. cbn [map_err]. unfold mbind at 1, hdM_bind at 1. unfold determine_sync_status. unfold mbind at 1, hdM_bind at 1, hd_read at 1. by rewrite Hfind.
Qed.

End HeaderSyncSpec.
