(* ===== verification/ChainBalance.v ===== *)
(** * A chain of validated blocks balances

    The commitments of the unspent outputs of a chain and of what was burned are those of the emission up to its height, the faucet, the excesses of its
    kernels and its total offset: from one block that balances on, every validated block keeps it so. This is the equation
    [ChainBalanceValidator] of [HorizonSync] checks. *)

From S2P Require Import Prelude ScriptTypes Opcodes ScriptStack TariScript Amounts Emission Difficulty ConsensusConstants ConsensusManager MmrCommon Mmr MutableMmr BalancedMerkle.
From S2P Require Import ScriptEncoding Covenants MoneroMerkle TxComponents BlockHeader CovenantFilters CovenantSpec AggregatedBody BodyValidator BodyBalance OutputHash BodyValidatorSpec.
From S2P Require Import ChainStorage ChainDatabase Reorg HeaderValidator FullValidator ChainTables ChainStorageSpec ChainRewind BlockReading ReorgSpec.
From AAC_tactics Require Import AAC.

Local Open Scope Z_scope.

Section ChainBalance.
Context {C : ScriptCrypto} {CL : ScriptCryptoLaws C} {B : BorshPrims C} {BL : BorshLaws B} {X : TxCrypto C} {L : TxLaws X} {XL : EncodingLaws X} {ML : MoneroLib} (manager : ConsensusManager).

Implicit Types (c : list (BlockHeader * TxBody)) (b : TxBody) (hd : BlockHeader) (bs : list ChainBlock).

#[local] Instance com_add_aac_assoc : Associative eq com_add := com_add_assoc.
#[local] Instance com_add_aac_comm : Commutative eq com_add := com_add_comm.
#[local] Instance com_add_proper : Proper (eq ==> eq ==> eq) com_add.
Proof. by intros ? ? -> ? ? ->. Qed.
#[local] Instance com_lift : AAC_lift (@eq PedersenCommitment) eq := {| aac_lift_equivalence := eq_equivalence; aac_list_proper := _ |}.

(** ** Sums *)

Definition row_com (r : TransactionOutputRowData) : PedersenCommitment := match or_output r with Some o => out_commitment o | None => com_default end.

Definition unspent_sum c : PedersenCommitment := com_sum (map row_com (unspent_rows c)).

Fixpoint excess_sum c : PedersenCommitment :=
  match c with [] => com_default | (_, b) :: c => com_add (excess_sum c) (com_sum (map k_excess (kernels b))) end.

Fixpoint burned_sum c : PedersenCommitment :=
  match c with [] => com_default | (_, b) :: c => com_add (burned_sum c) (com_sum (burned b)) end.

(** The equation, for a supply and an offset. *)
Definition balanced (supply : Z) (offset : RistrettoSecretKey) c : Prop :=
  com_add (unspent_sum c) (burned_sum c) = com_add (com_add (commit_value sk_default supply) (excess_sum c)) (commit_value offset 0).

Lemma com_sum_perm l1 l2 : l1 ≡ₚ l2 -> com_sum l1 = com_sum l2.
Proof.
  induction 1 as [|x l1 l2 _ IH|x y l|]; [done| | |congruence]; rewrite !com_sum_cons; [by rewrite IH|]. by rewrite !com_add_assoc, (com_add_comm x).
Qed.

Lemma filter_split {A} (P : A -> Prop) `{!forall x, Decision (P x)} (l : list A) : l ≡ₚ filter P l ++ filter (fun x => ~ P x) l.
Proof.
  induction l as [|x l IH]; [done|]. rewrite !filter_cons. destruct (decide (P x)) as [Hx|Hx].
  - rewrite decide_False by tauto. cbn. by constructor.
  - rewrite decide_True by done. rewrite <- Permutation_middle. by constructor.
Qed.

(** ** One block *)

(** The rows an input of the block spends are as many as the inputs, with their commitments. *)
Lemma spent_coms c hd b : chain_ok ((hd, b) :: c) ->
  map row_com (filter (fun r => or_hash r ∈ map input_hash_of (inputs b)) (unspent_rows c ++ new_rows hd (length (rows c)) (outputs b))) ≡ₚ map input_com (inputs b).
Proof.
  intros Hok. set (l := unspent_rows c ++ new_rows hd (length (rows c)) (outputs b)).
  assert (Forall (fun r => r ∈ rows ((hd, b) :: c)) l) as Hl.
  { apply Forall_forall. intros r Hr. cbn [rows]. unfold l in Hr. rewrite elem_of_app in *. destruct Hr as [Hr|Hr]; [left; by apply unspent_in_rows|by right]. }
  rewrite Forall_forall in Hl.
  assert (forall i, i ∈ inputs b -> exists r, r ∈ l /\ or_hash r = input_hash_of i /\ row_com r = input_com i) as Hsp.
  { intros i Hi. destruct (spends_output c hd b i Hok Hi) as (o & r & Hd & He & Hr & Hro & Hh & Hb & Hs). destruct (spent_data i o Hd He) as (Hcom & _ & Hio & _).
    exists r. split_and!.
    - unfold l. cbn [rows] in Hr. rewrite elem_of_app in *. destruct Hr as [Hr|Hr]; [left|by right]. apply list_elem_of_filter. split; [|done].
      unfold gone. rewrite Hb. intros [?|?]; done.
    - congruence.
    - unfold row_com, input_com. by rewrite Hro, Hcom. }
  set (spent := filter (fun r => or_hash r ∈ map input_hash_of (inputs b)) l).
  assert (map (fun r => (or_hash r, row_com r)) spent ≡ₚ map (fun i => (input_hash_of i, input_com i)) (inputs b)) as Hp.
  { apply NoDup_Permutation.
    - apply (NoDup_map_weaken or_hash); [by intros ? ? [=]|]. apply NoDup_map_filter. unfold l. apply NoDup_map_app. pose proof (rows_hashes _ Hok) as Hn. cbn [rows] in Hn.
      apply NoDup_map_app in Hn as (H1 & H2 & H3). split_and!; [unfold unspent_rows; by apply NoDup_map_filter| |done].
      intros r Hr Hin. apply (H2 r Hr). apply elem_of_map in Hin as (r' & -> & Hin). apply (list_elem_of_fmap_2 or_hash). by apply unspent_in_rows.
    - eapply (NoDup_map_weaken input_hash_of); [by intros ? ? [=]|]. apply (bk_inputs_once _ _ _ (proj1 Hok)).
    - intros [h com]. rewrite !elem_of_map. split.
      + intros (r & [= -> ->] & [(i & Hh & Hi)%elem_of_map Hr]%list_elem_of_filter). destruct (Hsp i Hi) as (r' & Hr' & Hh' & Hc'). exists i. split; [|done].
        assert (r = r') as -> by (apply (row_eq_hash ((hd, b) :: c)); [done|by apply Hl|by apply Hl|congruence]). congruence.
      + intros (i & [= -> ->] & Hi). destruct (Hsp i Hi) as (r & Hr & Hh & Hc). exists r. split; [congruence|]. apply list_elem_of_filter. split; [|done].
        rewrite Hh. by apply (list_elem_of_fmap_2 input_hash_of). }
  apply (Permutation_map snd) in Hp. by rewrite !map_map in Hp.
Qed.

(** The new rows that are gone without being spent by the block are the burned ones. *)
Lemma new_row_burned c hd b r : chain_ok ((hd, b) :: c) -> r ∈ new_rows hd (length (rows c)) (outputs b) ->
  (gone (spent_hashes ((hd, b) :: c)) r /\ or_hash r ∉ map input_hash_of (inputs b)) <-> row_burned r = true.
Proof.
  intros Hok Hr. assert (r ∈ rows ((hd, b) :: c)) as Hin by (cbn [rows]; apply elem_of_app; by right). rewrite gone_step. split.
  - intros [[Hg|] Hn]; [|done]. destruct (gone_old c hd b r Hok Hin Hg) as [Hold|[_ ?]]; [|done]. destruct Hg as [Hs|?]; [|done].
    apply elem_of_new_rows in Hr as (j & o & Hj & ->). pose proof (bk_hashes_new _ _ _ (proj1 Hok)) as Hnew. rewrite Forall_forall in Hnew.
    destruct (Hnew o); [apply list_elem_of_lookup; by eexists|]. by apply (list_elem_of_fmap_2 or_hash) in Hold.
  - intros Hb. split; [left; by right|]. intros (i & Heq & Hi)%elem_of_map.
    destruct (spends_row c hd b i Hok Hi) as (_ & _ & r' & _ & _ & _ & _ & Hr' & Hh & _ & Hb' & _).
    rewrite (row_eq_hash ((hd, b) :: c) r r') in Hb by (done || congruence). congruence.
Qed.

Lemma burned_rows hd base os : map row_com (filter (fun r => row_burned r = true) (new_rows hd base os)) = map out_commitment (filter (fun o => output_is_burned o = true) os).
Proof.
  induction os as [|o os IH] using rev_ind; [done|]. rewrite new_rows_snoc, !filter_app, !map_app, IH. f_equal. rewrite !filter_cons, !filter_nil.
  change (row_burned (output_row hd (Z.of_nat base + Z.of_nat (length os)) o)) with (output_is_burned o). by case_decide.
Qed.

(** What was unspent and is new is unspent, spent or burned after the block. *)
Lemma unspent_sum_step c hd b : chain_ok ((hd, b) :: c) ->
  com_add (unspent_sum c) (com_sum (map out_commitment (outputs b))) =
  com_add (com_add (unspent_sum ((hd, b) :: c)) (com_sum (map input_com (inputs b)))) (com_sum (burned b)).
Proof.
  intros Hok. unfold unspent_sum. rewrite unspent_step. pose proof (spent_coms c hd b Hok) as Hs.
  assert (map row_com (new_rows hd (length (rows c)) (outputs b)) = map out_commitment (outputs b)) as Hn by (by apply map_new_rows).
  rewrite <- Hn, <- com_sum_app, <- map_app. pose proof (burned_rows hd (length (rows c)) (outputs b)) as Hb. fold (burned b) in Hb.
  set (l := unspent_rows c ++ new_rows hd (length (rows c)) (outputs b)) in *.
  rewrite <- (com_sum_perm _ _ Hs).
  rewrite (com_sum_perm _ _ (Permutation_map row_com (filter_split (fun r => or_hash r ∈ map input_hash_of (inputs b)) l))), map_app, com_sum_app.
  set (rest := filter (fun r => ~ or_hash r ∈ map input_hash_of (inputs b)) l).
  rewrite (com_add_comm _ (com_sum (map row_com rest))), <- !com_add_assoc, (com_add_comm (com_sum (map row_com (filter _ l))) (com_sum (burned b))), !com_add_assoc. f_equal.
  rewrite (com_sum_perm _ _ (Permutation_map row_com (filter_split (fun r => ~ gone (spent_hashes ((hd, b) :: c)) r) rest))), map_app, com_sum_app. f_equal.
  - f_equal. f_equal. unfold rest. rewrite list_filter_filter. apply list_filter_iff. intros r. rewrite gone_step. tauto.
  - f_equal. rewrite <- Hb. f_equal. unfold rest. rewrite list_filter_filter. unfold l. rewrite filter_app.
    replace (filter _ (unspent_rows c)) with (@nil TransactionOutputRowData).
    2:{ symmetry. apply filter_none. intros r [Hg _]%list_elem_of_filter. rewrite gone_step. tauto. }
    apply filter_iff_in. intros r Hr. rewrite <- (new_row_burned c hd b r Hok Hr). destruct (decide (gone (spent_hashes ((hd, b) :: c)) r)); tauto.
Qed.

Lemma input_coms_Ok b ins : mapM in_commitment (inputs b) = Ok ins -> map input_com (inputs b) = ins.
Proof.
  generalize (inputs b) as l. intros l. revert ins. induction l as [|i l IH]; intros ins H; cbn [mapM map] in *; [by injection H as <-|].
  apply bind_Ok_iff in H as (x & Hx & (xs & Hxs & [= <-])%bind_Ok_iff). rewrite (IH _ Hxs). unfold input_com. by rewrite Hx.
Qed.

(** A block whose kernel sum is valid for a reward moves the balance by that reward and by its offset. *)
Lemma balanced_step c hd b supply offset reward block_offset : balanced supply offset c -> chain_ok ((hd, b) :: c) ->
  validate_kernel_sum b (commit_value block_offset (reward + total_fees b)) = Ok tt ->
  balanced (supply + reward) (sk_add offset block_offset) ((hd, b) :: c).
Proof.
  unfold balanced. intros Hc Hok (ins & Hins & _ & Hk)%kernel_sum_Ok. apply input_coms_Ok in Hins as <-. pose proof (unspent_sum_step c hd b Hok) as Hu. cbn [burned_sum excess_sum].
  assert (commit_value block_offset (reward + total_fees b) = com_add (commit_value block_offset reward) (commit_value sk_default (total_fees b))) as Hr.
  { rewrite commit_add, (sk_add_comm block_offset), sk_add_default. done. }
  rewrite Hr in Hk. assert (commit_value (sk_add offset block_offset) 0 = com_add (commit_value offset 0) (commit_value block_offset 0)) as -> by (by rewrite commit_add).
  assert (commit_value sk_default (supply + reward) = com_add (commit_value sk_default supply) (commit_value sk_default reward)) as -> by (by rewrite commit_add, sk_add_default).
  assert (commit_value block_offset reward = com_add (commit_value sk_default reward) (commit_value block_offset 0)) as Hr' by (by rewrite commit_add, sk_add_default, Z.add_0_r).
  rewrite Hr' in Hk. clear Hr Hr'. revert Hc Hu Hk. generalize (unspent_sum ((hd, b) :: c)) (unspent_sum c) (burned_sum c) (excess_sum c) (com_sum (burned b)) (com_sum (map input_com (inputs b)))
    (com_sum (map out_commitment (outputs b))) (com_sum (map k_excess (kernels b))) (commit_value sk_default supply) (commit_value sk_default reward) (commit_value offset 0)
    (commit_value block_offset 0) (commit_value sk_default (total_fees b)).
  intros u' u bu ex bb i o k s r fo fb fees Hc Hu Hk.
  (* both sides with the inputs, the outputs and the fees added *)
  apply (com_cancel _ _ (com_add i (com_add o fees))).
  transitivity (com_add (com_add (com_add (com_add u' i) bb) bu) (com_add o fees)); [by aac_reflexivity|]. rewrite <- Hu.
  transitivity (com_add (com_add (com_add u bu) o) (com_add o fees)); [by aac_reflexivity|]. rewrite Hc.
  transitivity (com_add (com_add (com_add (com_add s ex) fo) o) (com_add (com_add (com_add (com_add r fb) fees) k) i)); [by rewrite Hk|by aac_reflexivity].
Qed.

(** ** The chain *)

(** The supply at a height: the emission and the faucet. *)
Definition supply_of (faucet : Z) (bs : list ChainBlock) : Z := supply_at (emission manager) (length bs - 1) + faucet.

Definition offset_of bs : RistrettoSecretKey := match bs with x :: _ => total_kernel_offset (cb_accumulated_data x) | [] => sk_default end.

(** Every block after the first passed the internal validator, and its accumulated data were computed from those of its parent. *)
Fixpoint validated (bypass : bool) (fuel : nat) bs : Prop :=
  match bs with
  | x :: (p :: _) as bs' =>
      validate_block fuel {| bypass_range_proof_verification := bypass; iv_manager := manager |} (full_block (cb_block x)) = Some (Ok tt) /\
      (exists at_, next_data (cb_accumulated_data p) (cb_header x) at_ = Ok (cb_accumulated_data x)) /\ validated bypass fuel bs'
  | _ => True
  end.

Lemma next_data_offset parent header at_ data : next_data parent header at_ = Ok data -> total_kernel_offset data = sk_add (total_kernel_offset parent) (bh_total_kernel_offset header).
Proof.
  unfold next_data. destruct (accumulated_build _ _) as [d|e|] eqn:Hb; [|done|done]. intros [= <-].
  unfold accumulated_build in Hb. cbn [builder_hash with_total_kernel_offset with_achieved_target_difficulty with_hash ok_or mbind result_bind] in Hb.
  case_decide; [done|]. cbn [current_achieved_target with_total_kernel_offset with_achieved_target_difficulty ok_or mbind result_bind] in Hb.
  apply bind_Ok_iff in Hb as ([m sh] & _ & (o & Ho & (t & _ & [= <-])%bind_Ok_iff)%bind_Ok_iff). by injection Ho as <-.
Qed.

Lemma validated_kernel_sum fuel iv (block : FullBlock) reward : validate_block fuel iv block = Some (Ok tt) ->
  @get_block_reward_at ValidationError fuel (iv_manager iv) (fb_height block) = Some (Ok reward) ->
  validate_kernel_sum (fb_body block) (commit_value (fb_kernel_offset block) (reward + total_fees (fb_body block))) = Ok tt.
Proof.
  intros (constants & emission & total & _ & Hr & Ht & _ & Hiv)%validate_block_Ok Hr'. rewrite Hr in Hr'. injection Hr' as ->.
  apply fees_added in Ht as [-> _]. apply internal_validate_iff in Hiv as [constants' Hiv]. exact (iv_kernel_sum _ _ _ _ _ _ _ _ Hiv).
Qed.

Lemma reward_of_height fuel h : schedule_wf (emission manager) -> supply_at (emission manager) h <= U64_MAX -> Z.of_nat h <= U64_MAX -> (h <= fuel)%nat ->
  @get_block_reward_at ValidationError fuel manager (Z.of_nat h) = Some (Ok (reward_at (emission manager) h)) /\
  @get_total_emission_at ValidationError fuel manager (Z.of_nat h) = Some (Ok (supply_at (emission manager) h)).
Proof.
  intros Hwf Hs Hh Hf. unfold get_block_reward_at, get_total_emission_at, block_reward, supply_at_block. change (rate_new (emission manager)) with (rate_at (emission manager) 0).
  rewrite (@advance_at ValidationError (emission manager) 0 h) by (done || lia). done.
Qed.

Section Chain.
Context (bypass : bool) (fuel : nat) (Hschedule : schedule_wf (emission manager)).

Lemma chain_balanced g faucet : balanced (supply_of faucet [g]) (offset_of [g]) (map pair_of [g]) -> forall bs,
  blocks_ok (bs ++ [g]) -> validated bypass fuel (bs ++ [g]) -> (length bs <= fuel)%nat -> Z.of_nat (length bs) <= U64_MAX ->
  supply_at (emission manager) (length bs) <= U64_MAX -> balanced (supply_of faucet (bs ++ [g])) (offset_of (bs ++ [g])) (map pair_of (bs ++ [g])).
Proof.
  intros Hg. induction bs as [|x bs IH]; [done|]. cbn [app]. intros Hok Hv Hf Hl Hs. pose proof Hok as [Hx Hbs].
  destruct (bs ++ [g]) as [|p rest] eqn:Heq; [by destruct bs|]. destruct Hv as (Hv & (at_ & Hd) & Hvs). cbn [length] in *.
  assert (length (p :: rest) = S (length bs)) as Hlen by (rewrite <- Heq, length_app; cbn; lia).
  assert (supply_at (emission manager) (length bs) <= U64_MAX) as Hs'.
  { pose proof (supply_at_mono (emission manager) (length bs) (S (length bs)) Hschedule ltac:(lia)). lia. }
  pose proof (IH Hbs Hvs ltac:(lia) ltac:(lia) Hs') as IHb. clear IH. destruct (reward_of_height fuel (S (length bs)) Hschedule Hs ltac:(lia) Hf) as [Hr _].
  pose proof (block_height (p :: rest) x Hok) as Hh. rewrite Hlen in Hh.
  pose proof (validated_kernel_sum fuel _ (full_block (cb_block x)) (reward_at (emission manager) (S (length bs))) Hv) as Hk. cbn [iv_manager full_block fb_height fb_body fb_kernel_offset] in Hk.
  fold (cb_header x) in Hk. rewrite Hh in Hk. specialize (Hk Hr).
  pose proof (balanced_step _ (cb_header x) (block_body (cb_block x)) _ _ _ _ IHb (blocks_chain_ok _ Hok) Hk) as Hb. cbn [offset_of]. rewrite (next_data_offset _ _ _ _ Hd).
  replace (supply_of faucet (x :: p :: rest)) with (supply_of faucet (p :: rest) + reward_at (emission manager) (S (length bs))); [exact Hb|].
  unfold supply_of. change (length (x :: p :: rest)) with (S (length (p :: rest))). rewrite Hlen. replace (S (S (length bs)) - 1)%nat with (S (length bs)) by lia.
  replace (S (length bs) - 1)%nat with (length bs) by lia. cbn [supply_at]. lia.
Qed.

End Chain.

End ChainBalance.
