(* ===== verification/SyncServed.v ===== *)
(** * Reading any block of a stored chain

    The rows of a block in the middle of a chain, the block of a position, and the spent outputs at an earlier block, as the database of
    [ChainDatabase] gives them. *)

From S2P Require Import Prelude ScriptTypes Opcodes ScriptStack TariScript MmrCommon Mmr MutableMmr BalancedMerkle Amounts Emission Difficulty.
From S2P Require Import MoneroMerkle ConsensusConstants ConsensusManager Covenants TxComponents BlockHeader CovenantFilters CovenantSpec AggregatedBody BodyValidator BodyBalance.
From S2P Require Import OutputHash BodyValidatorSpec ChainStorage ChainDatabase Reorg HeaderValidator FullValidator ChainTables ChainStorageSpec ChainRewind BlockReading ReorgSpec.
From S2P Require Import ReorgAtomic ChainStored FullValidatorSpec BlockSyncSpec ChunkIter HorizonSync SyncService.
From stdpp Require Import sorting.

Local Open Scope Z_scope.

(** ** Rows in order *)

(** Positions go up along a list. *)
Definition increasing {A} (pos : A -> Z) (l : list A) : Prop := forall i j x y, (i < j)%nat -> l !! i = Some x -> l !! j = Some y -> pos x < pos y.

Lemma increasing_filter {A} (pos : A -> Z) (P : A -> Prop) `{!forall x, Decision (P x)} l : increasing pos l -> increasing pos (filter P l).
Proof.
  intros Hinc. assert (StronglySorted (fun x y => pos x < pos y) (filter P l)) as Hs.
  { assert (StronglySorted (fun x y => pos x < pos y) l) as Hl by (by apply StronglySorted_lookup). clear Hinc. induction Hl as [|x l Hl IH Hx]; [constructor|].
    rewrite filter_cons. case_decide; [|done]. constructor; [done|]. rewrite Forall_forall in *. intros y [_ Hy]%list_elem_of_filter. by apply Hx. }
  clear Hinc. induction Hs as [|x l' Hl IH Hx]; intros i j a b Hij Hi Hj; [done|]. rewrite Forall_forall in Hx. destruct j as [|j]; [lia|]. destruct i as [|i]; cbn in Hi, Hj.
  - injection Hi as <-. apply Hx. apply list_elem_of_lookup. by eexists.
  - apply (IH i j); [lia|done|done].
Qed.

Section Rows.
Context {C : ScriptCrypto} {CL : ScriptCryptoLaws C} {B : BorshPrims C} {BL : BorshLaws B} {X : TxCrypto C} {L : TxLaws X} {XL : EncodingLaws X} {ML : MoneroLib} {BH : BlockHashers}.

Implicit Types (c : list (BlockHeader * TxBody)) (b : TxBody) (hd : BlockHeader) (db : Database) (bs : list ChainBlock) (x : ChainBlock).

Lemma output_rows_filtered l hash : increasing or_mmr_position l -> output_rows_of hash (table_of output_entry l) = filter (fun r => or_header_hash r = hash) l.
Proof.
  intros Hl. assert (NoDup (map (fun r => (output_entry r).1) l)) as Hnd.
  { apply output_entries_distinct. apply NoDup_fmap_2_strong.
    - intros x y (i & Hi)%list_elem_of_lookup (j & Hj)%list_elem_of_lookup Heq. destruct (Nat.lt_trichotomy i j) as [Hlt|[->|Hlt]];
        [pose proof (Hl _ _ _ _ Hlt Hi Hj); lia|congruence|pose proof (Hl _ _ _ _ Hlt Hj Hi); lia].
    - apply NoDup_alt. intros i j x Hi Hj. destruct (Nat.lt_trichotomy i j) as [Hlt|[->|Hlt]]; [pose proof (Hl _ _ _ _ Hlt Hi Hj); lia|done|pose proof (Hl _ _ _ _ Hlt Hj Hi); lia]. }
  unfold output_rows_of. apply merge_sort_eq; [|by apply increasing_filter].
  rewrite (table_of_filter output_entry l _ (fun r => or_header_hash r = hash)) by done. rewrite table_rows; [rewrite map_map; cbn; by rewrite map_id|].
  by apply NoDup_map_filter.
Qed.

Lemma kernel_rows_filtered l hash : NoDup (map kernel_key l) -> increasing kr_mmr_position (filter (fun r => kr_header_hash r = hash) l) ->
  kernel_rows_of hash (table_of kernel_entry l) = filter (fun r => kr_header_hash r = hash) l.
Proof.
  intros Hnd Hl. unfold kernel_rows_of. apply merge_sort_eq; [|done].
  rewrite (table_of_filter kernel_entry l _ (fun r => kr_header_hash r = hash)) by done. rewrite table_rows; [rewrite map_map; cbn; by rewrite map_id|].
  by apply (NoDup_map_filter kernel_key).
Qed.

Lemma rows_increasing c : increasing or_mmr_position (rows c).
Proof. intros i j x y Hij Hi Hj. apply rows_position in Hi, Hj. lia. Qed.

(** ** A block in the chain *)

Lemma block_rows_in c hd b after : chain_ok (after ++ (hd, b) :: c) ->
  filter (fun r => or_header_hash r = bh_hash hd) (rows (after ++ (hd, b) :: c)) = new_rows hd (length (rows c)) (outputs b).
Proof.
  induction after as [|[hd' b'] after IH]; cbn [app].
  - intros [Hb Hc]. cbn [rows]. rewrite filter_app, filter_none, filter_keeps; [done| |].
    + by intros r (i & o & _ & ->)%elem_of_new_rows.
    + intros r Hr%rows_header Heq. apply (bk_hash _ _ _ Hb). by rewrite <- Heq.
  - intros [Hb Hc]. cbn [rows]. rewrite filter_app, IH, filter_none, app_nil_r; [done| |done].
    intros r (i & o & _ & ->)%elem_of_new_rows Heq. cbn in Heq. apply (bk_hash _ _ _ Hb). rewrite Heq, map_app. apply elem_of_app. right. left.
Qed.

Lemma block_kernels_in c hd b after : chain_ok (after ++ (hd, b) :: c) ->
  filter (fun r => kr_header_hash r = bh_hash hd) (kernel_rows (after ++ (hd, b) :: c)) = new_kernel_rows hd (length (kernel_rows c)) (kernels b).
Proof.
  induction after as [|[hd' b'] after IH]; cbn [app].
  - intros [Hb Hc]. cbn [kernel_rows]. rewrite filter_app, filter_none, filter_keeps; [done| |].
    + intros r Hr. by apply elem_of_lookup_imap in Hr as (i & k & -> & _).
    + intros r Hr%kernel_rows_header Heq. apply (bk_hash _ _ _ Hb). by rewrite <- Heq.
  - intros [Hb Hc]. cbn [kernel_rows]. rewrite filter_app, IH, filter_none, app_nil_r; [done| |done].
    intros r Hr Heq. apply elem_of_lookup_imap in Hr as (i & k & -> & _). cbn in Heq. apply (bk_hash _ _ _ Hb). rewrite Heq, map_app. apply elem_of_app. right. left.
Qed.

Lemma new_kernel_rows_increasing hd base l : increasing kr_mmr_position (new_kernel_rows hd base l).
Proof.
  intros i j x y Hij Hi Hj. unfold new_kernel_rows in Hi, Hj. rewrite list_lookup_imap, fmap_Some in Hi, Hj. destruct Hi as (? & _ & ->), Hj as (? & _ & ->). cbn [kr_mmr_position kernel_row].
  pose proof (mmr_size_strict (Z.of_nat (S (base + i))) (Z.of_nat (S (base + j)))). lia.
Qed.

Lemma fetch_kernels_in db after c hd b : represents (lmdb db) (after ++ (hd, b) :: c) -> chain_ok (after ++ (hd, b) :: c) -> fetch_kernels_in_block (bh_hash hd) db = kernels b.
Proof.
  intros Hrep Hok. unfold fetch_kernels_in_block. rewrite (rep_kernels _ _ Hrep). cbn [kernels_db kernel_tables_of].
  rewrite kernel_rows_filtered; [|by apply kernel_positions_distinct|rewrite block_kernels_in by done; apply new_kernel_rows_increasing].
  rewrite block_kernels_in by done. rewrite (map_new_kernel_rows kr_kernel id) by done. apply map_id.
Qed.

End Rows.

(** ** The first key from a key on *)

Lemma lmdb_first_after_Some {V} (m : gmap Z V) key k v : m !! k = Some v -> key <= k -> (forall k' v', m !! k' = Some v' -> key <= k' -> k <= k') -> lmdb_first_after key m = Some v.
Proof.
  intros Hk Hle Hmin. unfold lmdb_first_after. set (f := fun first e => _).
  assert (forall l first, (forall e, e ∈ l -> m !! e.1 = Some e.2) -> (forall e, first = Some e -> m !! e.1 = Some e.2 /\ key <= e.1) ->
    ((exists e, first = Some e /\ e.1 = k) \/ (exists e, e ∈ l /\ e.1 = k)) -> fold_left f l first = Some (k, v)) as Hf.
  { induction l as [|e l IH]; intros first Hl Hfirst Hin; cbn [fold_left].
    - destruct Hin as [([k' v'] & -> & Heq)|(e & []%not_elem_of_nil & _)]. cbn in Heq. subst k'. destruct (Hfirst _ eq_refl) as [Hv _]. cbn in Hv. congruence.
    - pose proof (Hl e ltac:(left)) as He. apply IH; [intros; apply Hl; by right| |].
      + intros e' He'. destruct first as [f'|]; cbn in He'.
        * destruct (Z.leb_spec key e.1), (Z.ltb_spec e.1 f'.1); cbn in He'; injection He' as <-; (by apply Hfirst) || done.
        * destruct (Z.leb_spec key e.1); [|done]. by injection He' as <-.
      + destruct Hin as [(e' & -> & Heq)|(e' & [->|Hin]%elem_of_cons & Heq)].
        * left. exists e'. split; [|done]. cbn. destruct (Z.leb_spec key e.1); [|done]. pose proof (Hmin _ _ He ltac:(lia)). by rewrite (proj2 (Z.ltb_ge _ _)) by lia.
        * left. rewrite Heq in He. destruct first as [f'|]; cbn; rewrite Heq, (proj2 (Z.leb_le key k)) by lia; [|by exists e].
          destruct (Hfirst _ eq_refl) as [Hf' Hkf]. pose proof (Hmin _ _ Hf' Hkf). cbn. destruct (Z.ltb_spec k f'.1); [by exists e|]. exists f'. split; [done|lia].
        * right. by exists e'. }
  rewrite (Hf (map_to_list m) None); [done| |done|].
  - intros [k' v'] He. by apply elem_of_map_to_list in He.
  - right. exists (k, v). split; [by apply elem_of_map_to_list|done].
Qed.

Section Positions.
Context {C : ScriptCrypto} {CL : ScriptCryptoLaws C} {B : BorshPrims C} {BL : BorshLaws B} {X : TxCrypto C} {L : TxLaws X} {XL : EncodingLaws X} {ML : MoneroLib} {BH : BlockHashers}.

Implicit Types (db : Database) (bs after before : list ChainBlock) (x y : ChainBlock).

Lemma sizes_ok_suffix after bs : sizes_ok (after ++ bs) -> sizes_ok bs.
Proof. induction after as [|y after IH]; [done|]. intros (_ & _ & H). by apply IH. Qed.

Lemma rows_suffix_length after bs : (length (rows (map pair_of bs)) <= length (rows (map pair_of (after ++ bs))))%nat /\
  (length (kernel_rows (map pair_of bs)) <= length (kernel_rows (map pair_of (after ++ bs))))%nat.
Proof. induction after as [|y after IH]; cbn [app map pair_of rows kernel_rows]; [done|]. rewrite !length_app. lia. Qed.

(** Later headers have sizes at least as large. *)
Lemma sizes_above after bs y : sizes_ok (after ++ bs) -> y ∈ after ->
  Z.of_nat (length (kernel_rows (map pair_of bs))) <= bh_kernel_mmr_size (cb_header y) /\ Z.of_nat (length (rows (map pair_of bs))) <= bh_output_mmr_size (cb_header y).
Proof.
  induction after as [|z after IH]; [intros _ []%not_elem_of_nil|]. intros (Hk & Ho & Hs) [->|Hin]%elem_of_cons; [|by apply IH]. rewrite Hk, Ho.
  pose proof (rows_suffix_length (z :: after) bs) as H. change ((z :: after) ++ bs) with (z :: after ++ bs) in H. lia.
Qed.

Lemma size_keys_distinct bs : blocks_ok bs -> NoDup (map (fun b => (kernel_size_entry b).1) (rev bs)) /\ NoDup (map (fun b => (output_size_entry b).1) (rev bs)).
Proof. intros Hok. split; (apply header_keys_distinct; [done|]); intros bs' b Hf _; [apply (fo_kernel_size _ _ Hf)|apply (fo_output_size _ _ Hf)]. Qed.

Lemma chain_header_of db bs x : header_tables (lmdb db) = header_tables_of bs -> blocks_ok bs -> x ∈ bs ->
  fetch_chain_header_by_height (bh_height (cb_header x)) db = Ok {| lh_header := cb_header x; lh_accumulated_data := cb_accumulated_data x |}.
Proof.
  intros Hh Hok Hx. unfold fetch_chain_header_by_height. rewrite Hh. destruct (header_lookup bs x Hok Hx) as (-> & -> & _). cbn [or_not_found ok_or mbind result_bind].
  unfold header_try_construct. rewrite bool_decide_true; [done|]. exact (block_hash_eq bs x Hok Hx).
Qed.

Section Containing.
Context (db : Database) (after before : list ChainBlock) (x : ChainBlock) (pos : Z).
Hypothesis Hheaders : header_tables (lmdb db) = header_tables_of (after ++ x :: before).
Hypothesis Hok : blocks_ok (after ++ x :: before).
Hypothesis Hsizes : sizes_ok (after ++ x :: before).

Lemma middle_in : x ∈ after ++ x :: before.
Proof. apply elem_of_app. right. left. Qed.

(** A position below the size of a block and not below that of its parent is of the block. *)
Lemma containing (size : ChainBlock -> Z) (len : list ChainBlock -> Z) {V} (entry : ChainBlock -> Z * V) : (forall y, (entry y).1 = size y) ->
  NoDup (map (fun b => (entry b).1) (rev (after ++ x :: before))) -> size x = len (x :: before) ->
  (forall y, y ∈ before -> size y <= len before) -> (forall y, y ∈ after -> len (x :: before) <= size y) ->
  len before <= pos < len (x :: before) -> lmdb_first_after (pos + 1) (table_of entry (rev (after ++ x :: before))) = Some (entry x).2.
Proof.
  intros He Hnd Hx Hbefore Hafter Hpos. apply (lmdb_first_after_Some _ _ (size x)).
  - apply table_lookup_Some; [done|]. exists x. split; [rewrite <- Permutation_rev; apply middle_in|]. rewrite <- He. by destruct (entry x).
  - lia.
  - intros k v (y & Hy & Hk)%table_lookup_Some Hle; [|done]. rewrite <- Permutation_rev in Hy. pose proof (He y) as Hs. rewrite Hk in Hs. cbn in Hs. subst k.
    apply elem_of_app in Hy as [Hy|[->|Hy]%elem_of_cons]; [rewrite Hx; by apply Hafter|done|]. pose proof (Hbefore y Hy). lia.
Qed.

Lemma header_containing_kernel : pos < U64_MAX -> Z.of_nat (length (kernel_rows (map pair_of before))) <= pos < Z.of_nat (length (kernel_rows (map pair_of (x :: before)))) ->
  fetch_header_containing_kernel_mmr pos db = Ok {| lh_header := cb_header x; lh_accumulated_data := cb_accumulated_data x |}.
Proof.
  intros Hmax Hpos. unfold fetch_header_containing_kernel_mmr. rewrite arith_ok by lia. cbn [mbind result_bind]. rewrite Hheaders. cbn [kernel_mmr_size_index header_tables_of].
  pose proof (sizes_ok_suffix after _ Hsizes) as (Hk & _ & Hb).
  rewrite (containing (fun y => bh_kernel_mmr_size (cb_header y)) (fun bs => Z.of_nat (length (kernel_rows (map pair_of bs)))) kernel_size_entry); try done; [|by apply size_keys_distinct| |].
  - cbn [snd kernel_size_entry or_not_found ok_or mbind result_bind]. exact (chain_header_of db _ x Hheaders Hok middle_in).
  - intros y Hy. by apply sizes_bound.
  - intros y Hy. by apply (sizes_above after (x :: before)).
Qed.

(** The block of the outputs' size index. *)
Lemma block_containing_utxo : Z.of_nat (length (rows (map pair_of before))) <= pos < Z.of_nat (length (rows (map pair_of (x :: before)))) ->
  lmdb_first_after (pos + 1) (output_mmr_size_index (header_tables_of (after ++ x :: before))) = Some (bh_height (cb_header x), bh_hash (cb_header x)).
Proof.
  intros Hpos. cbn [output_mmr_size_index header_tables_of]. pose proof (sizes_ok_suffix after _ Hsizes) as (_ & Ho & Hb).
  rewrite (containing (fun y => bh_output_mmr_size (cb_header y)) (fun bs => Z.of_nat (length (rows (map pair_of bs)))) output_size_entry); try done; [by apply size_keys_distinct| |].
  - intros y Hy. by apply sizes_bound.
  - intros y Hy. by apply (sizes_above after (x :: before)).
Qed.

Lemma header_containing_utxo : pos < U64_MAX -> Z.of_nat (length (rows (map pair_of before))) <= pos < Z.of_nat (length (rows (map pair_of (x :: before)))) ->
  fetch_header_containing_utxo_mmr pos db = Ok {| lh_header := cb_header x; lh_accumulated_data := cb_accumulated_data x |}.
Proof.
  intros Hmax Hpos. unfold fetch_header_containing_utxo_mmr. rewrite arith_ok by lia. cbn [mbind result_bind]. rewrite Hheaders, block_containing_utxo by done.
  cbn [or_not_found ok_or mbind result_bind]. exact (chain_header_of db _ x Hheaders Hok middle_in).
Qed.

End Containing.

(** ** Accumulated data and spent outputs *)

Lemma accumulated_in t after x before : represents t (map pair_of (after ++ x :: before)) -> chain_ok (map pair_of (after ++ x :: before)) ->
  block_accumulated_data_db t !! bh_height (cb_header x) = Some (accumulated_entry (map pair_of before) (cb_header x) (block_body (cb_block x))).2.
Proof.
  intros Hrep Hok. rewrite (rep_accumulated _ _ Hrep). apply table_lookup_Some.
  - rewrite (accumulated_heights _ Hok). apply (NoDup_fmap_2_strong Z.of_nat); [intros; lia|apply NoDup_seq].
  - exists (accumulated_entry (map pair_of before) (cb_header x) (block_body (cb_block x))). split; [|done]. clear. induction after as [|y after IH]; cbn [app map pair_of accumulated_entries];
      apply elem_of_app; [right; left|by left].
Qed.

Lemma deleted_disjoint c hd b : chain_ok ((hd, b) :: c) -> deleted_of c ## deleted_by c hd b.
Proof.
  intros Hok p (r & Hr & Hg & ->)%elem_of_deleted_of (r' & Hr' & Hp & Hd)%elem_of_deleted_by; [|done].
  assert (r ∈ rows ((hd, b) :: c)) as Hin by (cbn [rows]; apply elem_of_app; by left). apply (rows_position_inj _ r r' Hin Hr') in Hp as <-.
  destruct Hd as [(i & Heq & Hi)%elem_of_map|[Hn _]].
  - destruct (spends_row c hd b i Hok Hi) as (_ & _ & r' & _ & _ & _ & _ & Hr'' & Hh & _ & Hb & Hs). rewrite <- Hh in Heq. apply (row_eq_hash _ r r' Hok Hin Hr'') in Heq as <-.
    destruct Hg; [done|congruence].
  - apply new_rows_bounds in Hn. apply rows_position_bound in Hr. lia.
Qed.

(** The deletions of the blocks on top of [bs], the oldest first. *)
Fixpoint deletions (after bs : list ChainBlock) : list (gset Z) :=
  match after with
  | [] => []
  | y :: after => deletions after bs ++ [deleted_by (map pair_of (after ++ bs)) (cb_header y) (block_body (cb_block y))]
  end.

Lemma deleted_with after bs : chain_ok (map pair_of (after ++ bs)) -> deleted_of (map pair_of (after ++ bs)) = deleted_of (map pair_of bs) ∪ ⋃ deletions after bs.
Proof.
  induction after as [|y after IH]; cbn [app deletions map]; [intros _; set_solver|]. intros Hok. unfold pair_of at 1.
  rewrite <- (deleted_step _ _ _ Hok), IH by apply Hok. rewrite union_list_app_L. set_solver.
Qed.

Lemma xor_remove (d : gset Z) e : d ## e -> xor_set (e ∪ d) e = d.
Proof. intros Hd. unfold xor_set. apply set_eq. intros p. specialize (Hd p). rewrite elem_of_union, !elem_of_difference, elem_of_union. destruct (decide (p ∈ e)), (decide (p ∈ d)); tauto. Qed.

(** Undoing the deletions, in the order they were made. *)
Lemma xor_deletions after bs : chain_ok (map pair_of (after ++ bs)) ->
  fold_left xor_set (deletions after bs) (deleted_of (map pair_of (after ++ bs))) = deleted_of (map pair_of bs).
Proof.
  intros Hok. assert (forall d, d ## ⋃ deletions after bs -> fold_left xor_set (deletions after bs) (d ∪ ⋃ deletions after bs) = d) as Hx.
  { clear -Hok CL BL L XL. revert Hok. induction after as [|y after IH]; intros Hok d Hd; cbn [deletions fold_left] in *; [set_solver|].
    cbn [app map] in Hok. unfold pair_of at 1 in Hok. pose proof (deleted_disjoint _ _ _ Hok) as Hdis. rewrite deleted_with in Hdis by apply Hok.
    set (e := deleted_by _ _ _) in *. rewrite union_list_app_L in Hd |- *. cbn [union_list foldr] in Hd |- *. rewrite fold_left_app. cbn [fold_left].
    replace (d ∪ (⋃ deletions after bs ∪ (e ∪ ∅))) with ((e ∪ d) ∪ ⋃ deletions after bs) by set_solver.
    rewrite IH; [apply xor_remove; set_solver|apply Hok|set_solver]. }
  rewrite deleted_with by done. apply Hx. clear Hx. revert Hok. induction after as [|y after IH]; intros Hok; [set_solver|]. cbn [app map] in Hok. unfold pair_of at 1 in Hok.
  pose proof (deleted_disjoint _ _ _ Hok) as Hdis. rewrite deleted_with in Hdis by apply Hok. specialize (IH (proj2 Hok)). cbn [deletions]. rewrite union_list_app_L. set_solver.
Qed.

Lemma fetch_header_of db bs x : header_tables (lmdb db) = header_tables_of bs -> blocks_ok bs -> x ∈ bs -> fetch_header_by_block_hash (bh_hash (cb_header x)) db = Some (cb_header x).
Proof.
  intros Hh Hok Hx. unfold fetch_header_by_block_hash. rewrite Hh. destruct (header_lookup bs x Hok Hx) as (H1 & _ & H3). rewrite H3. cbn [mbind option_bind]. exact H1.
Qed.

(** The spent outputs at an earlier block are those of the chain up to it. *)
Lemma deleted_bitmap_at db after x before : let bs := after ++ x :: before in
  represents (lmdb db) (map pair_of bs) -> header_tables (lmdb db) = header_tables_of bs -> md_tip (metadata db) = tip_of bs -> blocks_ok bs ->
  fetch_complete_deleted_bitmap_at (bh_hash (cb_header x)) db = Ok (deleted_of (map pair_of (x :: before))).
Proof.
  intros bs Hrep Hh Htip Hok. pose proof (blocks_chain_ok _ Hok) as Hc. unfold fetch_complete_deleted_bitmap_at. rewrite (fetch_header_of db bs x Hh Hok ltac:(apply middle_in)). cbn [or_not_found ok_or mbind result_bind].
  rewrite (rep_deleted _ _ Hrep), <- (xor_deletions after (x :: before) Hc), Htip.
  assert (height_of_longest_chain (tip_of bs) - bh_height (cb_header x) = Z.of_nat (length after)) as ->.
  { pose proof (block_height before x (blocks_ok_suffix after _ Hok)) as Hx. rewrite Hx. unfold bs. destruct after as [|y after]; cbn [app tip_of height_of_longest_chain]; [rewrite Hx; cbn; lia|].
    rewrite (block_height (after ++ x :: before) y Hok), length_app. cbn [length]. lia. }
  assert (forall above D, after = above ++ D -> forall d, foldM (fun deleted i =>
    data ← or_not_found (block_accumulated_data_db (lmdb db) !! (bh_height (cb_header x) + i + 1)); Ok (xor_set deleted (acc_deleted data))) (range (Z.of_nat (length D))) d =
    @Ok ChainStorageError _ (fold_left xor_set (deletions D (x :: before)) d)) as Hf; [|exact (Hf [] after eq_refl _)].
  clear -Hrep Hok Hc CL BL L XL. intros above D. revert above. induction D as [|y D IH]; intros above Heq d; [done|]. unfold range in *. rewrite Nat2Z.id in *. cbn [length].
  rewrite seq_S, map_app, foldM_app. rewrite (IH (above ++ [y])) by (by rewrite <- app_assoc). cbn [mbind result_bind map foldM deletions Nat.add].
  assert (bs = above ++ y :: (D ++ x :: before)) as Hbs by (unfold bs; rewrite Heq, <- app_assoc; done).
  assert (bh_height (cb_header x) + Z.of_nat (length D) + 1 = bh_height (cb_header y)) as ->.
  { rewrite Hbs in Hok. pose proof (blocks_ok_suffix above _ Hok) as Hy. rewrite (block_height _ y Hy), (block_height before x (blocks_ok_suffix (y :: D) _ Hy)), length_app. cbn [length]. lia. }
  rewrite Hbs in Hrep, Hc. rewrite (accumulated_in _ above y (D ++ x :: before) Hrep Hc). cbn [or_not_found ok_or mbind result_bind]. by rewrite fold_left_app.
Qed.

End Positions.

(** * What the streams of a node contain

    A node whose database holds a chain streams to a peer the kernels, and the outputs with the deletions, of the blocks the peer asks for, in order;
    outputs that are spent at the last of these blocks are sent as hashes. *)

Section SyncServed.
Context {C : ScriptCrypto} {CL : ScriptCryptoLaws C} {B : BorshPrims C} {BL : BorshLaws B} {X : TxCrypto C} {L : TxLaws X} {XL : EncodingLaws X} {ML : MoneroLib} {BH : BlockHashers}.

Implicit Types (db : Database) (bs after before todo : list ChainBlock) (x y : ChainBlock).

Definition body_of x : TxBody := block_body (cb_block x).

Lemma kernel_count x bs : length (kernel_rows (map pair_of (x :: bs))) = (length (kernel_rows (map pair_of bs)) + length (kernels (body_of x)))%nat.
Proof. cbn [map pair_of kernel_rows]. by rewrite length_app, length_new_kernel_rows. Qed.

Lemma output_count x bs : length (rows (map pair_of (x :: bs))) = (length (rows (map pair_of bs)) + length (outputs (body_of x)))%nat.
Proof. cbn [map pair_of rows]. by rewrite length_app, length_new_rows. Qed.

(** A database that holds a chain, whatever else it holds. *)
Record serves db bs : Prop := {
  sv_tables : represents (lmdb db) (map pair_of bs);
  sv_headers : header_tables (lmdb db) = header_tables_of bs;
  sv_tip : md_tip (metadata db) = tip_of bs;
  sv_ok : blocks_ok bs;
  sv_sizes : sizes_ok bs;
}.

(** [todo], the oldest first, on top of [before]. *)
Lemma split_block after todo before x : after ++ rev (x :: todo) ++ before = (after ++ rev todo) ++ x :: before.
Proof. cbn [rev]. by rewrite <- !app_assoc. Qed.

Section Serving.
Context (db : Database).

Lemma block_at after x before : serves db (after ++ x :: before) -> bh_height (cb_header x) = Z.of_nat (length before) /\
  headers_db (header_tables (lmdb db)) !! Z.of_nat (length before) = Some (cb_header x).
Proof.
  intros Hs. pose proof (sv_ok _ _ Hs) as Hok. assert (bh_height (cb_header x) = Z.of_nat (length before)) as Hx by (apply block_height; exact (blocks_ok_suffix after _ Hok)).
  split; [done|]. rewrite (sv_headers _ _ Hs), <- Hx. by apply header_lookup; [|apply middle_in].
Qed.

Lemma stream_kernels_Ok todo : forall after x before, serves db (after ++ rev (x :: todo) ++ before) -> Forall (fun y => kernels (body_of y) <> []) (x :: todo) ->
  stream_kernels (S (length todo)) (bh_height (cb_header x)) (Z.of_nat (length before + length todo)) (bh_hash (cb_header x)) db =
  map Decoded (concat (map (fun y => kernels (body_of y)) (x :: todo))).
Proof.
  induction todo as [|y todo IH]; intros after x before Hs [Hx Hks]%Forall_cons.
  - rewrite split_block in Hs. cbn [stream_kernels]. destruct (block_at _ _ _ Hs) as [Hh _]. pose proof (sv_ok _ _ Hs) as Hok.
    pose proof (sv_tables _ _ Hs) as Hrep. pose proof (blocks_chain_ok _ Hok) as Hc. rewrite map_app in Hrep, Hc. cbn [map] in Hrep, Hc.
    rewrite (fetch_kernels_in db _ _ _ _ Hrep Hc). fold (body_of x). rewrite bool_decide_false by done. rewrite Hh. cbn [length map concat]. rewrite !app_nil_r.
    rewrite (proj2 (Z.leb_gt _ _)) by lia. by rewrite app_nil_r.
  - pose proof Hs as Hs'. rewrite split_block in Hs. destruct (block_at _ _ _ Hs) as [Hh _]. pose proof (sv_ok _ _ Hs) as Hok.
    pose proof (sv_tables _ _ Hs) as Hrep. pose proof (blocks_chain_ok _ Hok) as Hc. rewrite map_app in Hrep, Hc. cbn [map] in Hrep, Hc.
    assert (serves db (after ++ rev (y :: todo) ++ x :: before)) as Hy by (rewrite app_assoc; exact Hs). pose proof Hy as Hy'. rewrite split_block in Hy'. destruct (block_at _ _ _ Hy') as [Hhy Hy2].
    change (length (y :: todo)) with (S (length todo)). cbn [stream_kernels]. rewrite (fetch_kernels_in db _ _ _ _ Hrep Hc). fold (body_of x). rewrite bool_decide_false by done. rewrite Hh.
    rewrite (proj2 (Z.leb_le _ _)) by lia. replace (Z.of_nat (length before) + 1) with (Z.of_nat (length (x :: before))) by (cbn; lia). rewrite Hy2.
    cbn [map concat]. rewrite map_app. f_equal. specialize (IH after y (x :: before) Hy Hks). rewrite Hhy in IH. cbn [length map concat] in IH.
    replace (length before + S (length todo))%nat with (S (length before) + length todo)%nat by lia. exact IH.
Qed.

(** ** Outputs *)

Definition sent (bitmap : gset Z) (r : TransactionOutputRowData) : UtxoOrDeleted :=
  if decide (or_mmr_position r ∈ bitmap) then SyncPrunedOutput (or_hash r) (or_witness_hash r) else SyncOutput (or_output r).

Definition response (bitmap : gset Z) (r : TransactionOutputRowData) : Received SyncUtxosResponse :=
  Decoded {| mmr_index := or_mmr_position r; utxo_or_deleted := Some (sent bitmap r) |}.

Definition rows_by before x : list TransactionOutputRowData := new_rows (cb_header x) (length (rows (map pair_of before))) (outputs (body_of x)).

Definition diff_of before x : gset Z := deleted_by (map pair_of before) (cb_header x) (body_of x).

Definition block_items (bitmap : gset Z) before x : list (Received SyncUtxosResponse) :=
  map (response bitmap) (rows_by before x) ++ [Decoded {| mmr_index := 0; utxo_or_deleted := Some (DeletedDiff (serialize_set (diff_of before x))) |}].

Fixpoint all_items (bitmap : gset Z) before todo : list (Received SyncUtxosResponse) :=
  match todo with [] => [] | x :: todo => block_items bitmap before x ++ all_items bitmap (x :: before) todo end.

Lemma utxos_in_block bitmap after x before : serves db (after ++ x :: before) ->
  fetch_utxos_in_block (bh_hash (cb_header x)) (Some bitmap) db =
  Ok (map (fun r => if bool_decide (or_mmr_position r ∈ bitmap) then Pruned (or_hash r) (or_witness_hash r) else row_to_pruned r) (rows_by before x), diff_of before x).
Proof.
  intros Hs. pose proof (sv_ok _ _ Hs) as Hok. pose proof (sv_tables _ _ Hs) as Hrep. pose proof (blocks_chain_ok _ Hok) as Hc. unfold fetch_utxos_in_block.
  rewrite (sv_headers _ _ Hs). destruct (header_lookup _ x Hok ltac:(apply middle_in)) as (_ & _ & ->). cbn [or_not_found ok_or mbind result_bind].
  rewrite (accumulated_in _ after x before Hrep Hc). cbn [or_not_found ok_or mbind result_bind]. do 2 f_equal.
  rewrite (rep_txos _ _ Hrep). cbn [utxos_db txo_tables_of]. rewrite output_rows_filtered by apply rows_increasing. unfold rows_by.
  rewrite map_app in Hc |- *. cbn [map] in Hc |- *. unfold pair_of at 2 in Hc. unfold pair_of at 2. by rewrite (block_rows_in _ _ _ _ Hc).
Qed.

Lemma imap_fmap_eq {A D} (f : nat -> A -> D) (g : A -> D) (l : list A) : (forall i a, l !! i = Some a -> f i a = g a) -> imap f l = map g l.
Proof. intros H. apply list_eq. intros i. rewrite list_lookup_imap, list_lookup_fmap. destruct (l !! i) eqn:Hi; [cbn; by rewrite (H i)|done]. Qed.

Lemma responses_Ok bitmap before x (start : Z) : start = Z.of_nat (length (rows (map pair_of before))) ->
  utxo_responses true start (map (fun r => if bool_decide (or_mmr_position r ∈ bitmap) then Pruned (or_hash r) (or_witness_hash r) else row_to_pruned r) (rows_by before x)) =
  map (response bitmap) (rows_by before x).
Proof.
  intros ->. unfold utxo_responses. assert (forall l : list (nat * PrunedOutput), omap (fun iu => if true || negb (is_pruned iu.2) then
    Some (Decoded {| mmr_index := Z.of_nat (length (rows (map pair_of before))) + Z.of_nat iu.1; utxo_or_deleted := Some (sync_utxo iu.2) |}) else None) l =
    map (fun iu => Decoded {| mmr_index := Z.of_nat (length (rows (map pair_of before))) + Z.of_nat iu.1; utxo_or_deleted := Some (sync_utxo iu.2) |}) l) as ->
    by (intros l; induction l as [|e l IH]; [done|]; cbn [omap list_omap map]; by rewrite IH).
  rewrite imap_fmap, <- (imap_fmap_eq (fun _ => response bitmap) (response bitmap)) by done. change (map ?f ?l) with (fmap f l). rewrite fmap_imap. apply imap_ext.
  intros i r Hr. unfold rows_by, new_rows in Hr. rewrite list_lookup_imap, fmap_Some in Hr. destruct Hr as (o & _ & ->). cbn. unfold response, sent. do 3 f_equal. cbn [or_mmr_position output_row or_hash or_witness_hash or_output].
  destruct (decide _); [by rewrite bool_decide_true|by rewrite bool_decide_false].
Qed.

Lemma stream_utxos_Ok bitmap end_header todo : forall after x before prev_size, serves db (after ++ rev (x :: todo) ++ before) ->
  prev_size = Z.of_nat (length (rows (map pair_of before))) -> bh_height end_header = Z.of_nat (length before + length todo) ->
  stream_utxos (S (length todo)) bitmap (cb_header x) 0 prev_size end_header true true db = all_items bitmap before (x :: todo).
Proof.
  induction todo as [|y todo IH]; intros after x before prev_size Hs Hp He.
  - rewrite split_block in Hs. cbn [stream_utxos]. destruct (block_at _ _ _ Hs) as [Hh _]. rewrite (utxos_in_block bitmap _ _ _ Hs). change (drop (Z.to_nat 0) ?l) with l. rewrite responses_Ok by lia. rewrite Hh, He. cbn [length].
    rewrite Z.gtb_ltb, (proj2 (Z.ltb_lt _ _)) by lia. cbn [all_items]. by rewrite !app_nil_r.
  - assert (serves db (after ++ rev (y :: todo) ++ x :: before)) as Hy by (rewrite split_block in Hs; rewrite app_assoc; exact Hs).
    rewrite split_block in Hs. pose proof Hy as Hy'. rewrite split_block in Hy'. destruct (block_at _ _ _ Hs) as [Hh _]. destruct (block_at _ _ _ Hy') as [Hhy Hy2].
    change (length (y :: todo)) with (S (length todo)) in *. set (n := S (length todo)) at 1. cbn [stream_utxos]. rewrite (utxos_in_block bitmap _ _ _ Hs). change (drop (Z.to_nat 0) ?l) with l. rewrite responses_Ok by lia. rewrite Hh, He.
    rewrite Z.gtb_ltb, (proj2 (Z.ltb_ge _ _)) by lia. replace (Z.of_nat (length before) + 1) with (Z.of_nat (length (x :: before))) by (cbn; lia). rewrite Hy2.
    cbn [all_items]. unfold block_items at 1. rewrite <- app_assoc. do 2 f_equal. unfold n. apply (IH after y (x :: before)); [done| |rewrite He; cbn [length]; lia].
    by pose proof (sizes_ok_suffix _ _ (sv_sizes _ _ Hs)) as (_ & Ho & _).
Qed.

(** ** Requests *)

Section Request.
Context (later : list ChainBlock) (todo : list ChainBlock) (y to p : ChainBlock) (before : list ChainBlock).
Hypothesis Hserves : serves db (later ++ rev (y :: todo) ++ p :: before).
Hypothesis Hto : last (y :: todo) = Some to.
Hypothesis Hhash : length (bh_hash (cb_header to)) = 32%nat.
Hypothesis Hkernels : Forall (fun x => kernels (body_of x) <> []) (y :: todo).
Hypothesis Houtputs : outputs (body_of y) <> [].

Lemma to_split : exists todo', rev (y :: todo) = to :: todo' /\ length todo' = length todo.
Proof.
  destruct (rev (y :: todo)) as [|to' todo'] eqn:Hr; [apply (f_equal length) in Hr; rewrite length_rev in Hr; done|]. exists todo'.
  pose proof (f_equal (@rev ChainBlock) Hr) as Hr'. rewrite rev_involutive in Hr'. cbn [rev] in Hr'. rewrite Hr', last_snoc in Hto. injection Hto as ->. split; [done|].
  apply (f_equal length) in Hr'. rewrite length_app, length_rev in Hr'. cbn in Hr'. lia.
Qed.

Lemma to_at : (to ∈ later ++ rev (y :: todo) ++ p :: before) /\ bh_height (cb_header to) = Z.of_nat (length (p :: before) + length todo).
Proof.
  destruct to_split as (todo' & Hr & Hl). pose proof Hserves as Hs. rewrite Hr in Hs. split; [rewrite Hr; apply elem_of_app; right; left|].
  cbn [app] in Hs. destruct (block_at _ _ _ Hs) as [Hh _]. rewrite Hh, length_app. f_equal. lia.
Qed.

Lemma y_at : serves db ((later ++ rev todo) ++ y :: p :: before) /\ bh_height (cb_header y) = Z.of_nat (length (p :: before)).
Proof. pose proof Hserves as Hs. rewrite split_block in Hs. split; [done|]. by destruct (block_at _ _ _ Hs). Qed.

Lemma kernels_bound bs : chain_ok (map pair_of bs) -> bs <> [] -> mmr_size (Z.of_nat (length (kernel_rows (map pair_of bs)))) - 1 <= U32_MAX /\ Z.of_nat (length (rows (map pair_of bs))) <= U32_MAX.
Proof.
  destruct bs as [|x bs]; [done|]. cbn [map]. intros [Hb _] _. cbn [rows kernel_rows pair_of]. rewrite !length_app, length_new_rows, length_new_kernel_rows.
  pose proof (bk_size _ _ _ Hb). pose proof (bk_kernel_size _ _ _ Hb). done.
Qed.

Lemma served_kernels : sync_kernels_rpc (Z.of_nat (length (kernel_rows (map pair_of (p :: before))))) (bh_hash (cb_header to)) db =
  Ok (map Decoded (concat (map (fun x => kernels (body_of x)) (y :: todo)))).
Proof.
  destruct y_at as [Hy Hyh]. destruct to_at as [Hin Hh]. pose proof (sv_ok _ _ Hy) as Hok. unfold sync_kernels_rpc. pose proof Hkernels as [Hyk _]%Forall_cons.
  pose proof (blocks_ok_suffix (later ++ rev todo) (y :: p :: before) Hok) as [_ Hpok]. pose proof (kernels_bound (p :: before) (blocks_chain_ok _ Hpok) ltac:(done)) as [Hkb _].
  assert (Z.of_nat (length (kernel_rows (map pair_of (p :: before)))) < U64_MAX) as Hmax.
  { revert Hkb. generalize (length (kernel_rows (map pair_of (p :: before)))). intros n Hkb. pose proof (mmr_size_bounds (Z.of_nat n) ltac:(lia)). unfold U32_MAX, U64_MAX in *. lia. }
  rewrite (header_containing_kernel db (later ++ rev todo) (p :: before) y _ (sv_headers _ _ Hy) Hok (sv_sizes _ _ Hy) Hmax).
  2:{ rewrite (kernel_count y). destruct (kernels (body_of y)); [done|]. cbn [length]. lia. }
  cbn [internal_error map_err mbind result_bind lh_header]. unfold hash_of_request. rewrite decide_True by done.
  rewrite (fetch_header_of db _ to (sv_headers _ _ Hserves) (sv_ok _ _ Hserves) Hin). cbn [ok_or mbind result_bind]. rewrite Hh, Hyh, Z.gtb_ltb, (proj2 (Z.ltb_ge _ _)) by lia. f_equal.
  replace (Z.to_nat _) with (S (length todo)) by lia. rewrite <- Hyh. exact (stream_kernels_Ok todo later y (p :: before) Hserves Hkernels).
Qed.

Lemma served_outputs : sync_utxos_rpc (Z.of_nat (length (rows (map pair_of (p :: before))))) (bh_hash (cb_header to)) true true db =
  Ok (all_items (deleted_of (map pair_of (rev (y :: todo) ++ p :: before))) (p :: before) (y :: todo)).
Proof.
  destruct y_at as [Hy Hyh]. destruct to_at as [Hin Hh]. pose proof (sv_ok _ _ Hy) as Hok. unfold sync_utxos_rpc.
  pose proof (blocks_ok_suffix (later ++ rev todo) (y :: p :: before) Hok) as [_ Hpok]. pose proof (kernels_bound (p :: before) (blocks_chain_ok _ Hpok) ltac:(done)) as [_ Hob].
  rewrite (header_containing_utxo db (later ++ rev todo) (p :: before) y _ (sv_headers _ _ Hy) Hok (sv_sizes _ _ Hy)); [|unfold U32_MAX, U64_MAX in *; lia|].
  2:{ rewrite (output_count y). destruct (outputs (body_of y)); [done|]. cbn [length]. lia. }
  cbn [map_err mbind result_bind lh_header]. unfold hash_of_request. rewrite decide_True by done.
  rewrite (fetch_header_of db _ to (sv_headers _ _ Hserves) (sv_ok _ _ Hserves) Hin). cbn [ok_or mbind result_bind]. rewrite Hh, Hyh, Z.gtb_ltb, (proj2 (Z.ltb_ge _ _)) by lia.
  rewrite (proj2 (Z.eqb_neq _ 0)) by (cbn [length]; lia).
  pose proof (blocks_ok_suffix (later ++ rev todo) (y :: p :: before) Hok) as [Hfy _]. rewrite (fo_prev _ _ Hfy). assert (p ∈ (later ++ rev todo) ++ y :: p :: before) as Hp by (apply elem_of_app; right; right; left).
  rewrite (fetch_header_of db _ p (sv_headers _ _ Hy) Hok Hp). cbn [ok_or mbind result_bind].
  pose proof (sizes_ok_suffix ((later ++ rev todo) ++ [y]) (p :: before)) as Hsz. rewrite <- app_assoc in Hsz. specialize (Hsz (sv_sizes _ _ Hy)). destruct Hsz as (_ & Ho & _).
  rewrite Ho, Z.sub_diag, checked_ok by (unfold U64_MAX; lia). cbn [ok_or mbind result_bind]. f_equal.
  destruct to_split as (todo' & Hr & _). pose proof Hserves as Hs. rewrite Hr in Hs. cbn [app] in Hs.
  rewrite (deleted_bitmap_at db later to (todo' ++ p :: before) (sv_tables _ _ Hs) (sv_headers _ _ Hs) (sv_tip _ _ Hs) (sv_ok _ _ Hs)). rewrite Hr. cbn [app].
  replace (Z.to_nat _) with (S (length todo)) by lia. by apply (stream_utxos_Ok _ _ todo later y (p :: before)).
Qed.

End Request.

End Serving.

End SyncServed.
