(* ===== verification/HorizonKernels.v ===== *)
(** * The kernels of a chain are synchronised

    [synchronize_kernels] of [HorizonSync] on the stream of kernels of a chain whose headers the node has: every root agrees, and the kernels of all blocks
    are stored. *)

From S2P Require Import Prelude ScriptTypes Opcodes ScriptStack TariScript Amounts Emission Difficulty ConsensusConstants ConsensusManager MmrCommon Mmr MutableMmr BalancedMerkle.
From S2P Require Import Covenants MoneroMerkle TxComponents BlockHeader CovenantFilters CovenantSpec AggregatedBody BodyValidator BodyBalance OutputHash BodyValidatorSpec.
From S2P Require Import ChainStorage ChainDatabase Reorg HeaderValidator FullValidator ChainTables ChainStorageSpec ChainRewind BlockReading ReorgSpec ReorgAtomic ChainStored FullValidatorSpec BlockSyncSpec.
From S2P Require Import ChunkIter HorizonSync SyncService SyncServed.

Local Open Scope Z_scope.

Section HorizonKernels.
Context {C : ScriptCrypto} {CL : ScriptCryptoLaws C} {B : BorshPrims C} {BL : BorshLaws B} {X : TxCrypto C} {L : TxLaws X} {XL : EncodingLaws X} {ML : MoneroLib} {BH : BlockHashers} (manager : ConsensusManager).

Implicit Types (db : Database) (bs after before todo : list ChainBlock) (x y : ChainBlock) (base : list TransactionKernelRowData).

Lemma table_size {A K V} `{Countable K} (kv : A -> K * V) (l : list A) : NoDup (map (fun r => (kv r).1) l) -> size (table_of kv l) = length l.
Proof. intros Hnd. rewrite <- length_map_to_list, (table_rows kv l Hnd). apply length_map. Qed.

(** ** Rows with the positions of leaves *)

Definition synced_kernel x (pos : nat) (k : TransactionKernel) : TransactionKernelRowData :=
  {| kr_kernel := k; kr_header_hash := bh_hash (cb_header x); kr_mmr_position := Z.of_nat pos; kr_hash := kernel_hash k |}.

Definition synced_kernels x (n : nat) (ks : list TransactionKernel) : list TransactionKernelRowData := imap (fun i k => synced_kernel x (n + i) k) ks.

(** [base] has the kernels of the blocks [before], whatever the positions are. *)
Record kernels_of base before : Prop := {
  ko_kernels : map kr_kernel base = map kr_kernel (kernel_rows (map pair_of before));
  ko_distinct : kernel_keys_distinct base;
  ko_headers : Forall (fun r => kr_header_hash r ∈ map (fun x => bh_hash (cb_header x)) before) base;
}.

Lemma map_synced {K} (f : TransactionKernelRowData -> K) (g : TransactionKernel -> K) x n ks : (forall pos k, f (synced_kernel x pos k) = g k) -> map f (synced_kernels x n ks) = map g ks.
Proof. intros Hf. unfold synced_kernels. change (map f ?l) with (fmap f l). rewrite fmap_imap. apply imap_fmap_eq. intros. apply Hf. Qed.

Lemma kernels_of_base g : chain_ok (map pair_of [g]) -> kernels_of (kernel_rows (map pair_of [g])) [g].
Proof.
  intros Hok. split; [done|by apply kernel_rows_distinct|]. apply Forall_forall. intros r Hr%kernel_rows_header. by rewrite map_map in Hr.
Qed.

(** The rows of a further block. *)
Lemma kernels_of_next base x before : kernels_of base before -> chain_ok (map pair_of (x :: before)) ->
  kernels_of (base ++ synced_kernels x (length base) (kernels (body_of x))) (x :: before).
Proof.
  intros [Hk Hd Hh] Hok. cbn [map] in Hok. pose proof (kernel_rows_distinct _ Hok) as (De & Ds & _).
  assert (forall l, map (fun r => (excess_entry r).1) l = map (fun k => com_as_bytes (k_excess k)) (map kr_kernel l)) as Hme by (intros; by rewrite map_map).
  assert (forall l, map (fun r => (sig_entry r).1) l = map excess_sig_key (map kr_kernel l)) as Hms by (intros; by rewrite map_map).
  assert (map kr_kernel (base ++ synced_kernels x (length base) (kernels (body_of x))) = map kr_kernel (kernel_rows (map pair_of (x :: before)))) as Hks.
  { cbn [map pair_of kernel_rows]. rewrite !map_app, Hk, (map_synced kr_kernel id), (map_new_kernel_rows kr_kernel id) by done. done. }
  split; [done| |].
  - unfold kernel_keys_distinct. rewrite Hme, Hms, Hks, <- Hme, <- Hms. split_and!; [exact De|exact Ds|]. apply NoDup_map_app. split_and!; [apply Hd| |].
    + intros r Hr (r' & Heq & Hr')%elem_of_map. apply elem_of_lookup_imap in Hr as (i & k & -> & _). rewrite Forall_forall in Hh. specialize (Hh r' Hr').
      injection Heq as Heq _ _. rewrite <- Heq in Hh. pose proof (bk_hash _ _ _ (proj1 Hok)) as Hn. apply Hn. by rewrite map_map.
    + apply NoDup_alt. intros i j key Hi Hj. rewrite list_lookup_fmap, fmap_Some in Hi, Hj. unfold synced_kernels in Hi, Hj.
      destruct Hi as (r & Hi & ->), Hj as (r' & Hj & Heq). rewrite list_lookup_imap, fmap_Some in Hi, Hj. destruct Hi as (k & _ & ->), Hj as (k' & _ & ->).
      injection Heq as Heq _. lia.
  - rewrite Forall_app. split.
    + eapply Forall_impl; [exact Hh|]. intros r Hr. by right.
    + apply Forall_forall. intros r Hr. apply elem_of_lookup_imap in Hr as (i & k & -> & _). left.
Qed.

Lemma kernels_of_length base before : kernels_of base before -> length base = length (kernel_rows (map pair_of before)).
Proof. intros [Hk _ _]. apply (f_equal length) in Hk. by rewrite !length_map in Hk. Qed.

(** ** Writing the kernels of a block *)

Definition insert_ops x (n : nat) (ks : list TransactionKernel) : list WriteOperation := imap (fun i k => InsertKernel (bh_hash (cb_header x)) k (Z.of_nat (n + i))) ks.

Lemma insert_ops_Ok x base ks db : kernel_keys_distinct (base ++ synced_kernels x (length base) ks) -> kernel_tables (lmdb db) = kernel_tables_of base ->
  foldM (apply_operation manager) (insert_ops x (length base) ks) db = Ok (with_lmdb (with_kernels (kernel_tables_of (base ++ synced_kernels x (length base) ks)) (lmdb db)) db).
Proof.
  revert base db. induction ks as [|k ks IH]; intros base db Hd Ht.
  - cbn [insert_ops synced_kernels imap foldM]. rewrite app_nil_r, <- Ht. by destruct db as [[]].
  - assert (synced_kernels x (length base) (k :: ks) = synced_kernel x (length base) k :: synced_kernels x (length (base ++ [synced_kernel x (length base) k])) ks) as Hs.
    { unfold synced_kernels. cbn [imap]. rewrite Nat.add_0_r. f_equal. rewrite length_app. apply imap_ext. intros i a _. cbn. f_equal. lia. }
    assert (insert_ops x (length base) (k :: ks) = InsertKernel (bh_hash (cb_header x)) k (Z.of_nat (length base)) :: insert_ops x (length (base ++ [synced_kernel x (length base) k])) ks) as ->.
    { unfold insert_ops. cbn [imap]. rewrite Nat.add_0_r. f_equal. rewrite length_app. apply imap_ext. intros i a _. cbn. do 2 f_equal. lia. }
    rewrite Hs in Hd |- *. cbn [foldM apply_operation]. unfold on_lmdb. rewrite Ht.
    pose proof (insert_kernel_Ok base (synced_kernel x (length base) k) _ eq_refl Hd) as Hi. cbn [kr_header_hash kr_kernel kr_mmr_position synced_kernel] in Hi. fold (synced_kernel x (length base) k) in Hi.
    rewrite Hi. cbn [mbind result_bind]. rewrite IH; [|by rewrite <- app_assoc|done]. rewrite <- app_assoc. by destruct db as [[]].
Qed.

(** ** The loop over the kernels of a block *)

Lemma hs_for_app {A S} (f : S -> A -> hsM S) l1 l2 s db : hs_for f (l1 ++ l2) s db =
  match hs_for f l1 s db with (db, Ok s) => hs_for f l2 s db | (db, Err e) => (db, Err e) | (db, Panic) => (db, Panic) end.
Proof.
  revert s db. induction l1 as [|a l1 IH]; intros s db; [done|]. cbn [app hs_for]. unfold mbind, hsM_bind. destruct (f s a db) as [db' [s'| |]]; [apply IH|done..].
Qed.

Lemma timed_app {A} (l1 l2 : list A) : timed (l1 ++ l2) = timed l1 ++ timed l2.
Proof. apply map_app. Qed.

Definition collected x (n : nat) (done : list TransactionKernel) : KernelSync :=
  {| kn_header := header_of x; kn_hashes := map kernel_hash done; kn_txn := insert_ops x n done; kn_position := Z.of_nat (n + length done) |}.

Lemma insert_ops_snoc x n ks k : insert_ops x n (ks ++ [k]) = insert_ops x n ks ++ [InsertKernel (bh_hash (cb_header x)) k (Z.of_nat (n + length ks))].
Proof. unfold insert_ops. rewrite imap_app. cbn [imap]. by rewrite Nat.add_0_r. Qed.

(** One kernel, up to the check of the position. *)
Lemma sync_kernel_step end_ x n done k db : acc_hash (cb_accumulated_data x) = bh_hash (cb_header x) -> verify_signature k = Ok tt ->
  Z.of_nat (n + length done) < bh_kernel_mmr_size (cb_header x) -> bh_kernel_mmr_size (cb_header x) <= U32_MAX + 1 ->
  sync_kernel manager end_ (collected x n done) {| ti_item := Decoded k; ti_slow := false |} db =
  if Z.of_nat (n + length done) =? bh_kernel_mmr_size (cb_header x) - 1 then
    match commit_kernels manager (end_ - 1) {| kn_header := header_of x; kn_hashes := map kernel_hash (done ++ [k]); kn_txn := insert_ops x n (done ++ [k]); kn_position := Z.of_nat (n + length done) |} db with
    | (db, Ok st) =>
        match arith 0 U64_MAX (kn_position st + 1) with
        | Ok p => (db, Ok {| kn_header := kn_header st; kn_hashes := kn_hashes st; kn_txn := kn_txn st; kn_position := p |})
        | Err e => (db, Err e)
        | Panic => (db, Panic)
        end
    | (db, Err e) => (db, Err e)
    | (db, Panic) => (db, Panic)
    end
  else (db, Ok (collected x n (done ++ [k]))).
Proof.
  intros Hacc Hsig Hpos Hsize. unfold sync_kernel. cbn [ti_item ti_slow received]. unfold mbind at 1, hsM_bind at 1, hs_lift at 1. unfold mbind at 1, hsM_bind at 1, hs_lift at 1. rewrite Hsig. cbn [map_err].
  cbn [kn_header kn_hashes kn_txn kn_position collected]. change (header_hash (header_of x)) with (acc_hash (cb_accumulated_data x)). rewrite Hacc.
  assert (as_u32 (Z.of_nat (n + length done)) = Z.of_nat (n + length done)) as -> by (unfold as_u32, U32_MAX in *; rewrite Z.mod_small; lia).
  rewrite <- insert_ops_snoc. change (map kernel_hash done ++ [kernel_hash k]) with (map kernel_hash done ++ map kernel_hash [k]). rewrite <- map_app.
  change (lh_header (header_of x)) with (cb_header x). unfold mbind at 1, hsM_bind at 1, hs_lift at 1. rewrite arith_ok by (unfold U32_MAX, U64_MAX in *; lia).
  destruct (_ =? _); [|].
  - unfold mbind, hsM_bind, hs_lift. destruct (commit_kernels _ _ _ _) as [db' [st| |]]; [|done..]. destruct (arith _ _ _); done.
  - unfold mbind, hsM_bind, hs_lift, mret, hsM_ret. cbn [kn_position kn_header kn_hashes kn_txn]. rewrite arith_ok by (unfold U32_MAX, U64_MAX in *; lia). unfold collected. rewrite length_app. cbn [length]. do 3 f_equal. lia.
Qed.

Lemma kernels_collected end_ x n ks db : acc_hash (cb_accumulated_data x) = bh_hash (cb_header x) -> Forall (fun k => verify_signature k = Ok tt) ks ->
  Z.of_nat (n + length ks) < bh_kernel_mmr_size (cb_header x) -> bh_kernel_mmr_size (cb_header x) <= U32_MAX + 1 ->
  hs_for (sync_kernel manager end_) (timed (map Decoded ks)) (collected x n []) db = (db, Ok (collected x n ks)).
Proof.
  intros Hacc Hsig Hpos Hsize. induction ks as [|k ks IH] using rev_ind; [done|]. apply Forall_app in Hsig as [Hsig [Hk _]%Forall_cons]. rewrite length_app in Hpos. cbn [length] in Hpos.
  rewrite map_app, timed_app, hs_for_app, (IH Hsig ltac:(lia)). cbn [timed map hs_for]. unfold mbind, hsM_bind. rewrite sync_kernel_step by (done || lia).
  rewrite (proj2 (Z.eqb_neq _ _)) by lia. done.
Qed.

(** ** A block *)

(** What a step of the kernel synchronisation leaves as it is. *)
Record kernels_frame (heights : list Z) db db' : Prop := {
  kf_headers : header_tables (lmdb db') = header_tables (lmdb db);
  kf_txos : txo_tables (lmdb db') = txo_tables (lmdb db);
  kf_deleted : deleted_bitmap (lmdb db') = deleted_bitmap (lmdb db);
  kf_metadata : metadata db' = metadata db;
  kf_accumulated h : h ∉ heights -> block_accumulated_data_db (lmdb db') !! h = block_accumulated_data_db (lmdb db) !! h;
}.

Lemma kernels_frame_trans h1 h2 db1 db2 db3 : kernels_frame h1 db1 db2 -> kernels_frame h2 db2 db3 -> kernels_frame (h1 ++ h2) db1 db3.
Proof.
  intros [A1 A2 A3 A4 A5] [B1 B2 B3 B4 B5]. split; [congruence..|]. intros h Hh. rewrite B5, A5; [done|..]; intros Hin; apply Hh, elem_of_app; tauto.
Qed.

(** The kernels of [before] are stored. *)
Record kernels_synced db base before : Prop := {
  kb_tables : kernel_tables (lmdb db) = kernel_tables_of base;
  kb_rows : kernels_of base before;
  kb_data : match before with
    | p :: _ => exists data, block_accumulated_data_db (lmdb db) !! bh_height (cb_header p) = Some data /\ acc_kernels data = map kr_hash (kernel_rows (map pair_of before))
    | [] => False
    end;
}.

Section Block.
Context (end_ : Z) (after : list ChainBlock) (x p : ChainBlock) (before : list ChainBlock).
Hypothesis Hok : blocks_ok (after ++ x :: p :: before).
Hypothesis Hcommits : commits (cb_header x) (map pair_of (x :: p :: before)).
Hypothesis Hkernels : kernels (body_of x) <> [].
Hypothesis Hlength : Z.of_nat (length (after ++ x :: p :: before)) <= U64_MAX.
Hypothesis Hsigs : Forall (fun k => verify_signature k = Ok tt) (kernels (body_of x)).

Lemma kernel_size_bound : bh_kernel_mmr_size (cb_header x) <= U32_MAX + 1.
Proof.
  rewrite (cm_kernel_size _ _ Hcommits). pose proof (blocks_ok_suffix after _ Hok) as Hx. destruct (kernels_bound _ (blocks_chain_ok _ Hx)) as [Hb _]; [done|].
  revert Hb. generalize (length (kernel_rows (map pair_of (x :: p :: before)))). intros n Hb. pose proof (mmr_size_bounds (Z.of_nat n) ltac:(lia)). clear -Hb H. lia.
Qed.

(** The header of the next block, unless the block is the last one. *)
Definition next_header (size : Z) (next : ChainBlock) : Prop :=
  (end_ = size /\ next = x) \/ (size < end_ /\ exists after', after = after' ++ [next]).

Lemma next_height next size : next_header size next -> size < end_ -> bh_height (cb_header next) = bh_height (cb_header x) + 1 /\ (next ∈ after ++ x :: p :: before) /\ bh_height (cb_header next) <= U64_MAX.
Proof.
  intros [[-> _]|[_ [after' Heq]]] Hlt; [lia|]. pose proof (block_height _ _ (blocks_ok_suffix after _ Hok)) as Hh.
  assert (next ∈ after ++ x :: p :: before) as Hin by (rewrite Heq; apply elem_of_app; left; apply elem_of_app; right; left). pose proof (height_bound _ _ Hok Hin).
  rewrite Heq, <- app_assoc in Hok. pose proof (block_height _ _ (blocks_ok_suffix after' _ Hok)) as Hn. rewrite Hh, Hn in *. cbn [length app] in *. split_and!; [lia|done|lia].
Qed.

Lemma commit_kernels_Ok base db next : header_tables (lmdb db) = header_tables_of (after ++ x :: p :: before) -> kernels_synced db base (p :: before) ->
  let size := Z.of_nat (length base + length (kernels (body_of x))) in next_header size next ->
  exists db', commit_kernels manager (end_ - 1)
      {| kn_header := header_of x; kn_hashes := map kernel_hash (kernels (body_of x)); kn_txn := insert_ops x (length base) (kernels (body_of x)); kn_position := size - 1 |} db =
    (db', Ok {| kn_header := header_of next; kn_hashes := []; kn_txn := []; kn_position := size - 1 |}) /\
    kernels_synced db' (base ++ synced_kernels x (length base) (kernels (body_of x))) (x :: p :: before) /\ kernels_frame [bh_height (cb_header x)] db db'.
Proof.
  intros Hh [Ht Hb (data & Hdata & Hleaves)] size Hnext. pose proof (blocks_ok_suffix after _ Hok) as Hx. pose proof Hx as [Hf Hp]. pose proof (fo_prev _ _ Hf) as Hprev. cbn beta iota in Hprev.
  assert (p ∈ after ++ x :: p :: before) as Hpin by (apply elem_of_app; right; right; left). destruct (header_lookup _ p Hok Hpin) as (_ & _ & Hph).
  destruct (header_lookup _ x Hok ltac:(apply middle_in)) as (_ & _ & Hxh).
  pose proof (kernels_of_next base x (p :: before) Hb (blocks_chain_ok _ Hx)) as Hb'.
  set (leaves := map kr_hash (kernel_rows (map pair_of (x :: p :: before)))).
  assert (acc_kernels data ++ map kernel_hash (kernels (body_of x)) = leaves) as Hl.
  { unfold leaves. change (kernel_rows (map pair_of (x :: p :: before))) with (kernel_rows (map pair_of (p :: before)) ++ new_kernel_rows (cb_header x) (length (kernel_rows (map pair_of (p :: before)))) (kernels (body_of x))).
    rewrite map_app, (map_new_kernel_rows kr_hash kernel_hash), Hleaves by done. done. }
  pose proof (insert_ops_Ok x base (kernels (body_of x)) db (ko_distinct _ _ Hb') Ht) as Hins.
  set (db1 := with_lmdb _ db) in Hins. set (m := block_accumulated_data_db (lmdb db)). set (old := default accumulated_default (m !! bh_height (cb_header x))).
  set (new := {| acc_kernels := leaves; acc_outputs := acc_outputs old; acc_witness := acc_witness old; acc_deleted := acc_deleted old; acc_kernel_sum := acc_kernel_sum old |}).
  set (db' := with_lmdb {| header_tables := header_tables (lmdb db1); block_accumulated_data_db := <[bh_height (cb_header x) := new]> m; deleted_bitmap := deleted_bitmap (lmdb db1);
    txo_tables := txo_tables (lmdb db1); kernel_tables := kernel_tables (lmdb db1); side_tables := side_tables (lmdb db1) |} db1).
  exists db'. split; [|split].
  - unfold commit_kernels. cbn [kn_header kn_hashes kn_txn kn_position]. change (lh_header (header_of x)) with (cb_header x).
    unfold mbind at 1, hsM_bind at 1, hs_read at 1, fetch_block_accumulated_data. rewrite Hprev, Hh, Hph. cbn [or_not_found ok_or mbind result_bind]. rewrite Hdata. cbn [or_not_found ok_or map_err].
    rewrite Hl. unfold mbind at 1, hsM_bind at 1, hs_lift at 1. unfold leaves at 1. rewrite (cm_kernels _ _ Hcommits). cbn [map_err]. rewrite bool_decide_true by done. cbn [negb].
    unfold mbind at 1, hsM_bind at 1, hs_run at 1, write, db_write. rewrite foldM_app, Hins. cbn [mbind result_bind foldM apply_operation]. unfold on_lmdb, update_block_accumulated_data.
    change (header_hash (header_of x)) with (acc_hash (cb_accumulated_data x)). rewrite (fo_hash _ _ Hf). change (header_tables (lmdb db1)) with (header_tables (lmdb db)). rewrite Hh, Hxh.
    cbn [or_not_found ok_or mbind result_bind kernels_update kernel_hash_set utxo_hash_set witness_hash_set deleted_diff update_kernel_sum default]. change (block_accumulated_data_db (lmdb db1)) with m. fold old. change (id leaves) with leaves. fold new.
    rewrite <- Hh. change (header_tables (lmdb db)) with (header_tables (lmdb db1)). fold db'. cbn [map_err]. unfold mbind at 1, hsM_bind at 1.
    destruct (Z.ltb_spec (size - 1) (end_ - 1)) as [Hlt|Hge].
    + destruct (next_height next size Hnext ltac:(lia)) as (Hy & Hyin & Hmax). pose proof (height_bound _ _ Hok ltac:(apply middle_in)). unfold mbind, hsM_bind, hs_lift, hs_read, mret, hsM_ret.
      rewrite arith_ok by lia. rewrite <- Hy, (chain_header_of db' _ next Hh Hok Hyin). done.
    + destruct Hnext as [[_ ->]|[? _]]; [done|lia].
  - split; [done|done|]. exists new. split; [apply lookup_insert_eq|done].
  - split; try done. intros h [Hn _]%not_elem_of_cons. change (block_accumulated_data_db (lmdb db')) with (<[bh_height (cb_header x) := new]> m). by rewrite lookup_insert_ne by done.
Qed.

(** All kernels of a block, the last of which has them written. *)
Lemma sync_block_kernels base db next : header_tables (lmdb db) = header_tables_of (after ++ x :: p :: before) -> kernels_synced db base (p :: before) ->
  next_header (Z.of_nat (length base + length (kernels (body_of x)))) next ->
  exists db', hs_for (sync_kernel manager end_) (timed (map Decoded (kernels (body_of x)))) (collected x (length base) []) db =
    (db', Ok (collected next (length base + length (kernels (body_of x))) [])) /\
    kernels_synced db' (base ++ synced_kernels x (length base) (kernels (body_of x))) (x :: p :: before) /\ kernels_frame [bh_height (cb_header x)] db db'.
Proof.
  intros Hh Hs Hnext. destruct (commit_kernels_Ok base db next Hh Hs Hnext) as (db' & Hc & Hs' & Hf). exists db'. split; [|done].
  pose proof (cm_kernel_size _ _ Hcommits) as Hsize. rewrite kernel_count, <- (kernels_of_length _ _ (kb_rows _ _ _ Hs)) in Hsize. pose proof kernel_size_bound as Hbound.
  pose proof (fo_hash _ _ (proj1 (blocks_ok_suffix after (x :: p :: before) Hok))) as Hacc. revert Hc Hsize Hsigs Hkernels. generalize (kernels (body_of x)) as ks. intros ks Hc Hsize Hsg Hne.
  destruct ks as [|k ks _] using rev_ind; [done|]. apply Forall_app in Hsg as [Hsg [Hk _]%Forall_cons]. rewrite (map_app Decoded), timed_app, hs_for_app. rewrite length_app in Hsize, Hc |- *. cbn [length] in Hsize, Hc |- *.
  rewrite (kernels_collected end_ x (length base) ks db Hacc Hsg) by lia. cbn [timed map hs_for]. unfold mbind, hsM_bind. rewrite sync_kernel_step by (done || lia).
  rewrite (proj2 (Z.eqb_eq _ _)) by lia. replace (Z.of_nat (length base + (length ks + 1)) - 1) with (Z.of_nat (length base + length ks)) in Hc by lia. rewrite Hc. cbn [kn_position kn_header kn_hashes kn_txn].
  rewrite arith_ok by (unfold U32_MAX, U64_MAX in *; lia). unfold mret, hsM_ret, collected. cbn [map insert_ops imap length]. do 3 f_equal. lia.
Qed.

End Block.

(** ** All blocks *)

(** The blocks to synchronise: their headers commit to the chain, and their kernels are signed. *)
Fixpoint committed before todo : Prop :=
  match todo with
  | [] => True
  | x :: todo => (commits (cb_header x) (map pair_of (x :: before)) /\ kernels (body_of x) <> [] /\ Forall (fun k => verify_signature k = Ok tt) (kernels (body_of x))) /\ committed (x :: before) todo
  end.

Lemma committed_count end_ todo : forall before to, committed before todo -> last todo = Some to -> end_ = bh_kernel_mmr_size (cb_header to) ->
  end_ = Z.of_nat (length (kernel_rows (map pair_of (rev todo ++ before)))).
Proof.
  induction todo as [|x todo IH]; [done|]. intros before to [(Hc & _) Ht] Hl He. destruct todo as [|y todo]; [injection Hl as ->; by rewrite He, (cm_kernel_size _ _ Hc)|].
  rewrite (IH (x :: before) to Ht Hl He). cbn [rev]. by rewrite <- !app_assoc.
Qed.

Lemma sync_all_kernels later todo : forall x p before base db, let whole := later ++ rev (x :: todo) ++ p :: before in
  blocks_ok whole -> Z.of_nat (length whole) <= U64_MAX -> header_tables (lmdb db) = header_tables_of whole -> committed (p :: before) (x :: todo) -> kernels_synced db base (p :: before) ->
  let end_ := Z.of_nat (length (kernel_rows (map pair_of (rev (x :: todo) ++ p :: before)))) in
  exists db' base' next, hs_for (sync_kernel manager end_) (timed (map Decoded (concat (map (fun y => kernels (body_of y)) (x :: todo))))) (collected x (length base) []) db =
    (db', Ok (collected next (length base') [])) /\ kernels_synced db' base' (rev (x :: todo) ++ p :: before) /\
    kernels_frame (map (fun y => bh_height (cb_header y)) (x :: todo)) db db'.
Proof.
  induction todo as [|y todo IH]; intros x p before base db whole Hok Hlen Hh [(Hc & Hk & Hsg) Hcom] Hs end_.
  - unfold whole in *. rewrite split_block in Hok, Hlen, Hh. destruct (sync_block_kernels end_ (later ++ rev []) x p before Hok Hc Hk Hlen Hsg base db x Hh Hs) as (db' & Hsync & Hs' & Hf).
    { left. split; [|done]. unfold end_. cbn [rev app]. by rewrite kernel_count, (kernels_of_length _ _ (kb_rows _ _ _ Hs)). }
    exists db', (base ++ synced_kernels x (length base) (kernels (body_of x))), x. cbn [map concat]. rewrite app_nil_r, Hsync. split; [|done]. do 3 f_equal.
    rewrite length_app. unfold synced_kernels. by rewrite length_imap.
  - assert (whole = later ++ rev (y :: todo) ++ x :: p :: before) as Hw by (unfold whole; rewrite split_block, app_assoc; done).
    assert (end_ = Z.of_nat (length (kernel_rows (map pair_of (rev (y :: todo) ++ x :: p :: before))))) as He by (unfold end_; cbn [rev]; by rewrite <- !app_assoc).
    pose proof Hok as Hok2. pose proof Hlen as Hlen2. pose proof Hh as Hh2. rewrite Hw in Hok2, Hlen2, Hh2. unfold whole in Hok, Hlen, Hh. rewrite split_block in Hok, Hlen, Hh.
    destruct (sync_block_kernels end_ (later ++ rev (y :: todo)) x p before Hok Hc Hk Hlen Hsg base db y Hh Hs) as (db1 & Hsync & Hs1 & Hf1).
    { right. split.
      - rewrite He. pose proof (rows_suffix_length (rev todo) (y :: x :: p :: before)) as [_ Hl]. cbn [rev]. rewrite <- app_assoc. cbn [app]. rewrite (kernel_count y), (kernel_count x) in Hl.
        rewrite (kernels_of_length _ _ (kb_rows _ _ _ Hs)). destruct Hcom as [(_ & Hky & _) _]. destruct (kernels (body_of y)); [done|]. cbn [length] in Hl. lia.
      - exists (later ++ rev todo). cbn [rev]. by rewrite app_assoc. }
    destruct (IH y x (p :: before) (base ++ synced_kernels x (length base) (kernels (body_of x))) db1 Hok2 Hlen2) as (db' & base' & next & Hsync' & Hs' & Hf'); [by rewrite (kf_headers _ _ _ Hf1)|done|exact Hs1|].
    exists db', base', next. change (map (fun z => kernels (body_of z)) (x :: y :: todo)) with (kernels (body_of x) :: map (fun z => kernels (body_of z)) (y :: todo)).
    cbn [concat]. rewrite map_app, timed_app, hs_for_app, Hsync. rewrite <- He in Hsync'. rewrite length_app in Hsync'. unfold synced_kernels in Hsync' at 1. rewrite length_imap in Hsync'.
    split; [exact Hsync'|]. split; [|exact (kernels_frame_trans _ _ _ _ _ Hf1 Hf')]. replace (rev (x :: y :: todo) ++ p :: before) with (rev (y :: todo) ++ x :: p :: before); [exact Hs'|]. cbn [rev]. by rewrite <- !app_assoc.
Qed.

(** [synchronize_kernels] with a peer that streams the kernels of the blocks. *)
Lemma kernels_synchronized later todo x p before base db peer to : let whole := later ++ rev (x :: todo) ++ p :: before in
  blocks_ok whole -> sizes_ok whole -> Z.of_nat (length whole) <= U64_MAX -> header_tables (lmdb db) = header_tables_of whole -> committed (p :: before) (x :: todo) -> kernels_synced db base (p :: before) ->
  last (x :: todo) = Some to -> ss_kernels peer = Ok (timed (map Decoded (concat (map (fun y => kernels (body_of y)) (x :: todo))))) ->
  exists db' base', synchronize_kernels manager peer (cb_header to) db = (db', Ok tt) /\ kernels_synced db' base' (rev (x :: todo) ++ p :: before) /\
    kernels_frame (map (fun y => bh_height (cb_header y)) (x :: todo)) db db'.
Proof.
  intros whole Hok Hsz Hlen Hh Hcom Hs Hto Hpeer. destruct (sync_all_kernels later todo x p before base db Hok Hlen Hh Hcom Hs) as (db' & base' & next & Hsync & Hs' & Hf).
  exists db', base'. split; [|done]. set (end_ := Z.of_nat _) in Hsync. pose proof (committed_count _ _ _ _ Hcom Hto eq_refl) as Hend.
  unfold synchronize_kernels. unfold mbind at 1, hsM_bind at 1, hs_read at 1. cbn [map_err].
  assert (fetch_mmr_size KernelTree db = Z.of_nat (length base)) as ->.
  { unfold fetch_mmr_size. rewrite (kb_tables _ _ _ Hs). cbn [kernels_db kernel_tables_of]. by rewrite (table_size kernel_entry) by apply (ko_distinct _ _ (kb_rows _ _ _ Hs)). }
  rewrite (kernels_of_length _ _ (kb_rows _ _ _ Hs)). destruct Hcom as [(_ & Hk & _) _].
  assert (Z.of_nat (length (kernel_rows (map pair_of (p :: before)))) < bh_kernel_mmr_size (cb_header to)) as Hlt.
  { rewrite Hend. cbn [rev]. rewrite <- app_assoc. pose proof (rows_suffix_length (rev todo) ([x] ++ p :: before)) as [_ Hl]. cbn [app] in Hl |- *. rewrite (kernel_count x) in Hl. destruct (kernels (body_of x)); [done|]. cbn [length] in Hl. lia. }
  rewrite (proj2 (Z.leb_gt _ _)) by exact Hlt. unfold mbind at 1, hsM_bind at 1, hs_read at 1. unfold whole in Hok, Hsz, Hh. rewrite split_block in Hok, Hsz, Hh.
  rewrite (header_containing_kernel db (later ++ rev todo) (p :: before) x _ Hh Hok Hsz).
  - cbn [map_err]. unfold mbind at 1, hsM_bind at 1, hs_lift at 1. rewrite Hpeer. cbn [map_err]. unfold mbind at 1, hsM_bind at 1. rewrite Hend. fold end_.
    match goal with |- context [hs_for _ _ ?st db] => assert (st = collected x (length base) []) as -> end.
    { unfold collected, header_of. cbn [map insert_ops imap length]. by rewrite Nat.add_0_r, (kernels_of_length _ _ (kb_rows _ _ _ Hs)). }
    rewrite Hsync.
    cbn [kn_position collected length]. rewrite Nat.add_0_r, (kernels_of_length _ _ (kb_rows _ _ _ Hs')). unfold end_. by rewrite Z.eqb_refl.
  - pose proof (blocks_ok_suffix (later ++ rev todo) (x :: p :: before) Hok) as [_ Hpok]. destruct (kernels_bound (p :: before) (blocks_chain_ok _ Hpok) ltac:(done)) as [Hb _].
    revert Hb. generalize (length (kernel_rows (map pair_of (p :: before)))). intros n Hb. pose proof (mmr_size_bounds (Z.of_nat n) ltac:(lia)). unfold U32_MAX, U64_MAX in *. lia.
  - rewrite (kernel_count x). destruct (kernels (body_of x)); [done|]. cbn [length]. lia.
Qed.

End HorizonKernels.
