(* ===== verification/HorizonSafe.v ===== *)
(** * What a horizon synchronisation writes

    Whatever the peers send, [synchronize] of [HorizonSync] changes the database only by steps that were checked: pruning what is there, the kernels of a block whose
    root is in its header, and the outputs of a block whose roots are in its header; the tip moves only when the balance of the chain was validated. *)

From S2P Require Import Prelude ScriptTypes Opcodes ScriptStack TariScript Amounts Emission Difficulty ConsensusConstants ConsensusManager MmrCommon Mmr MutableMmr BalancedMerkle.
From S2P Require Import Covenants MoneroMerkle TxComponents BlockHeader CovenantFilters CovenantSpec AggregatedBody BodyValidator.
From S2P Require Import ChainStorage ChainDatabase Reorg HeaderValidator FullValidator HorizonSync.

Local Open Scope Z_scope.

Section HorizonSafe.
Context {C : ScriptCrypto} {B : BorshPrims C} {X : TxCrypto C} {ML : MoneroLib} {BH : BlockHashers} {BD : BitmapDecoder} (manager : ConsensusManager) (concurrency : nat).

Implicit Types (db : Database) (header : LinkedHeader) (op : WriteOperation) (ops : list WriteOperation).

(** ** Steps *)

Definition pruning_op op : Prop :=
  match op with PruneOutputsAtMmrPositions _ | DeleteAllInputsInBlock _ | SetPrunedHeight _ => True | _ => False end.

(** A stored header. *)
Definition known header db : Prop := exists height, fetch_chain_header_by_height height db = Ok header.

(** An operation that stores an output with a given hash and witness hash, whole only if it is one of [outputs]. *)
Definition stores_output header (outputs : list TransactionOutput) op (leaf : bytes * bytes) : Prop :=
  (exists o position, op = InsertOutput (header_hash header) (bh_height (lh_header header)) o position (bh_timestamp (lh_header header)) /\ o ∈ outputs /\
     @output_hash _ _ _ HorizonSyncError o = Ok leaf.1 /\ witness_hash o = leaf.2) \/
  (exists position, op = InsertPrunedOutput (header_hash header) (bh_height (lh_header header)) leaf.1 leaf.2 position (bh_timestamp (lh_header header))).

Inductive verified_step db db' : Prop :=
| prune_step ops : Forall pruning_op ops -> db_write manager ops db = Ok db' -> verified_step db db'
| kernels_step header data ks ops : known header db -> fetch_block_accumulated_data (bh_prev_hash (lh_header header)) db = Ok data ->
    Forall (fun k => verify_signature k = Ok tt) ks -> range_root kernel_hasher (acc_kernels data ++ map kernel_hash ks) = Ok (bh_kernel_mr (lh_header header)) ->
    Forall2 (fun op k => exists position, op = InsertKernel (header_hash header) k position) ops ks ->
    db_write manager (ops ++ [UpdateBlockAccumulatedData (header_hash header) (kernels_update (acc_kernels data ++ map kernel_hash ks))]) db = Ok db' -> verified_step db db'
| outputs_step header outputs_before witness_before leaves outputs deleted diff ops : known header db ->
    mutable_root output_hasher (outputs_before ++ map fst leaves) (deleted ∪ diff) = Ok (bh_output_mr (lh_header header)) ->
    range_root witness_hasher (witness_before ++ map snd leaves) = Ok (bh_witness_mr (lh_header header)) ->
    validate_rangeproofs concurrency outputs = Ok tt -> Forall2 (stores_output header outputs) ops leaves ->
    db_write manager (ops ++ [UpdateDeletedBitmap diff; UpdateBlockAccumulatedData (header_hash header) (outputs_update (outputs_before ++ map fst leaves) (witness_before ++ map snd leaves) diff)]) db = Ok db' ->
    verified_step db db'.

Abbreviation verified_steps := (rtc verified_step).

(** ** What the steps keep *)

Definition sync_op op : Prop :=
  match op with
  | PruneOutputsAtMmrPositions _ | DeleteAllInputsInBlock _ | SetPrunedHeight _ | InsertKernel _ _ _ | InsertOutput _ _ _ _ _ | InsertPrunedOutput _ _ _ _ _ _
  | UpdateBlockAccumulatedData _ _ | UpdateDeletedBitmap _ => True
  | _ => False
  end.

(** The headers and the tip stay, and no entry leaves the index of unspent outputs. *)
Record kept db db' : Prop := {
  kp_headers : header_tables (lmdb db') = header_tables (lmdb db);
  kp_tip : md_tip (metadata db') = md_tip (metadata db);
  kp_index : utxo_commitment_index (txo_tables (lmdb db)) ⊆ utxo_commitment_index (txo_tables (lmdb db'));
}.

#[local] Instance kept_preorder : PreOrder kept.
Proof. split; [by split|]. intros db1 db2 db3 [A1 A2 A3] [B1 B2 B3]. split; [congruence..|by etrans]. Qed.

Lemma lmdb_insert_kept {K V} `{Countable K} (k : K) (v : V) m m' : lmdb_insert k v m = Ok m' -> m ⊆ m'.
Proof. unfold lmdb_insert. destruct (m !! k) eqn:Hk; [done|]. intros [= <-]. by apply insert_subseteq. Qed.

Lemma pruned_kept index ps t t' : foldM (prune_output_at index) ps t = Ok t' -> utxo_commitment_index t' = utxo_commitment_index t.
Proof.
  revert t. induction ps as [|p ps IH]; intros t Hf; cbn [foldM] in Hf; [by injection Hf as <-|]. apply bind_Ok_iff in Hf as (t1 & H1 & Hf). rewrite (IH _ Hf). clear -H1.
  unfold prune_output_at in H1. apply bind_Ok_iff in H1 as (after & _ & ([? hash] & _ & H1)%bind_Ok_iff). unfold prune_output in H1. apply bind_Ok_iff in H1 as (row & _ & (o & _ & [= <-])%bind_Ok_iff). done.
Qed.

Lemma sync_op_kept op db db' : sync_op op -> apply_operation manager db op = Ok db' -> kept db db'.
Proof.
  destruct op; intros Hop H; try done; cbn [apply_operation] in H; try (unfold on_lmdb in H; apply bind_Ok_iff in H as (t & Ht & [= <-]));
    try (injection Ht as <-; by split); try (injection H as <-; by split).
  - apply bind_Ok_iff in Ht as (k & _ & [= <-]). by split.
  - apply bind_Ok_iff in Ht as (k & Hk & [= <-]). split; [done|done|]. unfold insert_output in Hk. apply bind_Ok_iff in Hk as (h & _ & (i & Hi & (x & _ & (u & _ & [= <-])%bind_Ok_iff)%bind_Ok_iff)%bind_Ok_iff). by apply lmdb_insert_kept in Hi.
  - unfold insert_pruned_output in Ht. destruct (block_hashes_db _ !! _); [|done]. apply bind_Ok_iff in Ht as (x & _ & (u & _ & [= <-])%bind_Ok_iff). by split.
  - unfold update_block_accumulated_data in Ht. apply bind_Ok_iff in Ht as (h & _ & [= <-]). by split.
  - unfold prune_outputs_at_positions in Ht. apply bind_Ok_iff in Ht as (x & Hx & [= <-]). split; [done|done|]. cbn. by rewrite (pruned_kept _ _ _ _ Hx).
Qed.

Lemma writes_kept ops db db' : Forall sync_op ops -> db_write manager ops db = Ok db' -> kept db db'.
Proof.
  unfold db_write. revert db. induction ops as [|op ops IH]; intros db Hops Hw; cbn [foldM] in Hw; [by injection Hw as <-|]. apply Forall_cons in Hops as [Hop Hops]. apply bind_Ok_iff in Hw as (db1 & H1 & Hw).
  etrans; [by eapply sync_op_kept|by apply IH].
Qed.

Lemma step_kept db db' : verified_step db db' -> kept db db'.
Proof.
  intros [ops Hops Hw|header data ks ops _ _ _ _ Hops Hw|header ob wb leaves outputs deleted diff ops _ _ _ _ Hops Hw]; eapply writes_kept; try exact Hw.
  - eapply Forall_impl; [exact Hops|]. intros []; done.
  - apply Forall_app. split; [|by repeat constructor]. eapply Forall2_Forall_l; [exact Hops|]. apply Forall_true. intros k op [position ->]. done.
  - apply Forall_app. split; [|by repeat constructor]. eapply Forall2_Forall_l; [exact Hops|]. apply Forall_true. intros leaf op [(o & position & -> & _)|[position ->]]; done.
Qed.

Lemma steps_kept db db' : verified_steps db db' -> kept db db'.
Proof. induction 1 as [|db db1 db' Hs _ IH]; [done|]. etrans; [by apply step_kept|done]. Qed.

Lemma known_kept header db db' : kept db db' -> known header db -> known header db'.
Proof. intros [Hh _ _] [height Hk]. exists height. unfold fetch_chain_header_by_height in *. by rewrite Hh. Qed.

(** ** Specifications of the operations *)

(** From a database with [P], only verified steps are made, and a result is one with [Q]. *)
Definition htriple {A} (P : Database -> Prop) (m : hsM A) (Q : A -> Database -> Prop) : Prop :=
  forall db db' r, P db -> m db = (db', r) -> verified_steps db db' /\ forall a, r = Ok a -> Q a db'.

Lemma ht_ret {A} (P : Database -> Prop) (a : A) (Q : A -> Database -> Prop) : (forall db, P db -> Q a db) -> htriple P (mret a) Q.
Proof. intros HQ db db' r HP [= <- <-]. split; [done|]. intros a' [= <-]. auto. Qed.

Lemma ht_lift {A} (P : Database -> Prop) (r : result HorizonSyncError A) (Q : A -> Database -> Prop) : (forall a db, r = Ok a -> P db -> Q a db) -> htriple P (hs_lift r) Q.
Proof. intros HQ db db' r' HP [= <- <-]. split; [done|]. auto. Qed.

Lemma ht_read {A} (P : Database -> Prop) (f : Database -> stored_result A) (Q : A -> Database -> Prop) : (forall a db, f db = Ok a -> P db -> Q a db) -> htriple P (hs_read f) Q.
Proof. intros HQ db db' r' HP [= <- <-]. split; [done|]. intros a Ha. destruct (f db) as [a'| |] eqn:Hf; [|done..]. injection Ha as <-. auto. Qed.

Lemma ht_bind {A A'} (P : Database -> Prop) (m : hsM A) (k : A -> hsM A') (R : A -> Database -> Prop) (Q : A' -> Database -> Prop) :
  htriple P m R -> (forall a, htriple (R a) (k a) Q) -> htriple P (m ≫= k) Q.
Proof.
  intros Hm Hk db db' r HP. unfold mbind, hsM_bind. destruct (m db) as [db1 r1] eqn:Hmd. destruct (Hm _ _ _ HP Hmd) as [Hs HR]. destruct r1 as [a|e|].
  - intros Hkd. destruct (Hk a _ _ _ (HR a eq_refl) Hkd) as [Hs' HQ]. split; [by etrans|done].
  - intros [= <- <-]. by split.
  - intros [= <- <-]. by split.
Qed.

Lemma ht_write ops (P : Database -> Prop) (Q : unit -> Database -> Prop) : (forall db db', P db -> db_write manager ops db = Ok db' -> verified_step db db' /\ (kept db db' -> Q tt db')) ->
  htriple P (hs_run (write manager ops)) Q.
Proof.
  intros HQ db db' r HP. unfold hs_run, write. destruct (db_write manager ops db) as [db1| |] eqn:Hw; intros [= <- <-]; [|by split..]. destruct (HQ _ _ HP Hw) as [Hs Hq].
  split; [by apply rtc_once|]. intros [] _. by apply Hq, step_kept.
Qed.

Lemma ht_for {A S} (f : S -> A -> hsM S) (I : S -> Database -> Prop) l : (forall s x, htriple (I s) (f s x) I) -> forall s, htriple (I s) (hs_for f l s) I.
Proof. intros Hf. induction l as [|x l IH]; intros s; cbn [hs_for]; [by apply ht_ret|]. eapply ht_bind; [apply Hf|]. intros s'. apply IH. Qed.

Lemma ht_weaken {A} (P : Database -> Prop) (m : hsM A) (Q Q' : A -> Database -> Prop) : htriple P m Q -> (forall a db, Q a db -> Q' a db) -> htriple P m Q'.
Proof. intros Hm Hq db db' r HP H. destruct (Hm _ _ _ HP H) as [Hs HQ]. split; [done|]. auto. Qed.

Lemma ht_Err {A} (P : Database -> Prop) e (Q : A -> Database -> Prop) : htriple P (hs_lift (Err e)) Q.
Proof. by apply ht_lift. Qed.

(** ** Kernels *)

(** The kernels that wait for the end of their block. *)
Definition waiting_kernels (st : KernelSync) db : Prop :=
  known (kn_header st) db /\ exists ks, kn_hashes st = map kernel_hash ks /\ Forall (fun k => verify_signature k = Ok tt) ks /\
    Forall2 (fun op k => exists position, op = InsertKernel (header_hash (kn_header st)) k position) (kn_txn st) ks.

Lemma read_known height (P : Database -> Prop) : htriple P (hs_read (fetch_chain_header_by_height height)) known.
Proof. apply ht_read. intros header db Hf _. by exists height. Qed.

Lemma commit_kernels_verified last st : htriple (waiting_kernels st) (commit_kernels manager last st) waiting_kernels.
Proof.
  unfold commit_kernels. eapply ht_bind; [apply (ht_read _ _ (fun data db => waiting_kernels st db /\ fetch_block_accumulated_data (bh_prev_hash (lh_header (kn_header st))) db = Ok data)); by intros|]. intros data.
  eapply ht_bind; [apply (ht_lift _ _ (fun root db => (waiting_kernels st db /\ fetch_block_accumulated_data (bh_prev_hash (lh_header (kn_header st))) db = Ok data) /\
    range_root kernel_hasher (acc_kernels data ++ kn_hashes st) = Ok root))|].
  { intros root db Hr HP. split; [done|]. destruct (range_root _ _); [by injection Hr as ->|done..]. }
  intros root. case_bool_decide as Hroot; cbn [negb]; [|apply ht_Err].
  eapply (ht_bind _ _ _ (fun _ db => known (kn_header st) db)).
  - apply ht_write. intros db db' [[(Hk & ks & Hh & Hv & Hops) Hd] Hr] Hw. split; [|intros Hkept; by eapply known_kept]. rewrite Hh in Hr, Hw. subst root. by eapply (kernels_step _ _ (kn_header st)).
  - intros []. eapply (ht_bind _ _ _ known).
    + case_match; [|by apply ht_ret]. eapply (ht_bind _ _ _ (fun _ _ => True)); [by apply ht_lift|]. intros next. apply read_known.
    + intros header. apply ht_ret. intros db Hk. split; [done|]. exists []. by split_and!.
Qed.

Lemma sync_kernel_verified end_ st item : htriple (waiting_kernels st) (sync_kernel manager end_ st item) waiting_kernels.
Proof.
  unfold sync_kernel. eapply ht_bind; [apply (ht_lift _ _ (fun _ => waiting_kernels st)); by intros|]. intros kernel.
  eapply ht_bind; [apply (ht_lift _ _ (fun _ db => waiting_kernels st db /\ verify_signature kernel = Ok tt))|].
  { intros [] db Hv HP. split; [done|]. destruct (verify_signature kernel) as [[]| |]; done. }
  intros []. set (st1 := Build_KernelSync _ _ _ _).
  eapply (ht_bind _ _ _ (fun _ => waiting_kernels st1)).
  { apply ht_lift. intros last db _ [(Hk & ks & Hh & Hvs & Hops) Hv]. split; [done|]. exists (ks ++ [kernel]). cbn [kn_hashes kn_txn kn_header st1]. rewrite Hh, map_app. split_and!; [done|by apply Forall_app; split; [|constructor]|].
    apply Forall2_app; [done|]. constructor; [by eexists|constructor]. }
  intros last. eapply (ht_bind _ _ _ waiting_kernels); [case_match; [apply commit_kernels_verified|by apply ht_ret]|]. intros st2.
  eapply ht_bind; [apply (ht_lift _ _ (fun _ => waiting_kernels st2)); by intros|]. intros position. destruct (ti_slow item); [apply ht_Err|]. by apply ht_ret.
Qed.

Lemma synchronize_kernels_verified peer to_header : htriple (fun _ => True) (synchronize_kernels manager peer to_header) (fun _ _ => True).
Proof.
  unfold synchronize_kernels. eapply (ht_bind _ _ _ (fun _ _ => True)); [by apply ht_read|]. intros local. case_match; [by apply ht_ret|].
  eapply (ht_bind _ _ _ known).
  { apply ht_read. intros header db Hf _. unfold fetch_header_containing_kernel_mmr in Hf. apply bind_Ok_iff in Hf as (pos & _ & (height & _ & Hf)%bind_Ok_iff). by exists height. }
  intros header. eapply (ht_bind _ _ _ (fun _ => known header)); [apply ht_lift; by intros|]. intros stream.
  eapply (ht_bind _ _ _ (fun _ _ => True)); [|intros st; case_match; [by apply ht_ret|apply ht_Err]]. eapply ht_weaken; [|done].
  intros db db' r Hk H'. refine (ht_for _ waiting_kernels stream (sync_kernel_verified _) _ db db' r _ H'). split; [done|]. exists []. by split_and!.
Qed.

(** ** Outputs *)

(** The outputs that wait for the end of their block. *)
Definition waiting_outputs (st : OutputSync) db : Prop :=
  known (on_header st) db /\ exists outputs_before witness_before leaves, on_outputs st = outputs_before ++ map fst leaves /\ on_witness st = witness_before ++ map snd leaves /\
    Forall2 (stores_output (on_header st) (on_unpruned st)) (on_txn st) leaves.

Lemma stores_output_more header outputs more op leaf : stores_output header outputs op leaf -> stores_output header (outputs ++ more) op leaf.
Proof. intros [(o & position & H1 & H2 & H3 & H4)|H]; [left|by right]. exists o, position. split_and!; try done. apply elem_of_app. by left. Qed.

Lemma push_waiting st hash witness unpruned op st' db : waiting_outputs st db -> push_txo st hash witness unpruned op = Ok st' ->
  stores_output (on_header st) (on_unpruned st ++ unpruned) op (hash, witness) -> waiting_outputs st' db.
Proof.
  intros (Hk & ob & wb & leaves & Ho & Hw & Hops) Hp Hop. unfold push_txo in Hp. apply bind_Ok_iff in Hp as (position & _ & [= <-]). split; [done|]. exists ob, wb, (leaves ++ [(hash, witness)]).
  cbn [on_outputs on_witness on_txn on_unpruned on_header]. rewrite Ho, Hw, !map_app, !app_assoc. split_and!; [done|done|]. apply Forall2_app; [|by constructor].
  eapply Forall2_impl; [exact Hops|]. intros op' leaf. apply stores_output_more.
Qed.

Lemma commit_outputs_verified end_ st bitmap : htriple (waiting_outputs st) (commit_outputs manager concurrency end_ st bitmap) (fun r => waiting_outputs r.2).
Proof.
  unfold commit_outputs. eapply (ht_bind _ _ _ (fun r db => waiting_outputs st db /\ check_deleted_diff concurrency st bitmap = Ok r)); [apply ht_lift; by intros|]. intros [diff full].
  eapply (ht_bind _ _ _ (fun _ db => waiting_outputs st db)).
  - apply ht_write. intros db db' [(Hk & ob & wb & leaves & Ho & Hw & Hops) Hc] Hdb. split.
    + unfold check_deleted_diff in Hc. destruct (negb _); [done|]. destruct (_ >? _); [done|]. apply bind_Ok_iff in Hc as (d & _ & (? & _ & (root & Hr & Hc)%bind_Ok_iff)%bind_Ok_iff).
      case_bool_decide as Hroot; cbn [negb] in Hc; [|done]. apply bind_Ok_iff in Hc as (root' & Hr' & Hc). case_bool_decide as Hroot'; cbn [negb] in Hc; [|done]. apply bind_Ok_iff in Hc as ([] & Hp & [= <- <-]).
      eapply (outputs_step _ _ (on_header st) ob wb leaves (on_unpruned st) (on_bitmap st) d (on_txn st)); rewrite <- ?Ho, <- ?Hw; try done; subst root root';
        [by destruct (mutable_root _ _ _); [injection Hr as ->|..]|by destruct (range_root _ _); [injection Hr' as ->|..]].
    + intros Hkept. split; [by eapply known_kept|]. by exists ob, wb, leaves.
  - intros []. assert (forall header m db, known header db -> waiting_outputs st db -> waiting_outputs {| on_header := header; on_txn := []; on_unpruned := []; on_position := on_position st; on_outputs := on_outputs st;
      on_witness := on_witness st; on_max_script_size := m; on_bitmap := full |} db) as Hnext.
    { intros header m db Hk _. split; [done|]. exists (on_outputs st), (on_witness st), []. cbn [map on_outputs on_witness on_txn]. rewrite !app_nil_r. by split_and!. }
    case_match; [apply ht_ret; intros db H'; apply Hnext; [apply H'|done]|].
    eapply (ht_bind _ _ _ (fun _ => waiting_outputs st)); [apply ht_lift; by intros|]. intros height. eapply (ht_bind _ _ _ (fun header db => known header db /\ waiting_outputs st db)).
    { apply ht_read. intros header db Hf Hs. split; [by exists height|done]. }
    intros header. eapply (ht_bind _ _ _ (fun _ db => known header db /\ waiting_outputs st db)); [apply ht_lift; by intros|]. intros constants. apply ht_ret. intros db [H1 H2]. by apply Hnext.
Qed.

Lemma sync_output_verified end_ st item : htriple (waiting_outputs st) (sync_output manager concurrency end_ st item) (fun r => waiting_outputs r.2).
Proof.
  unfold sync_output. eapply (ht_bind _ _ _ (fun _ => waiting_outputs st)); [apply ht_lift; by intros|]. intros res. case_match; [apply ht_Err|].
  eapply (ht_bind _ _ _ (fun _ => waiting_outputs st)); [apply ht_lift; by intros|]. intros [output|hash witness|diff|]; [| |apply commit_outputs_verified|apply ht_Err].
  - eapply (ht_bind _ _ _ waiting_outputs); [|by intros st'; apply ht_ret]. apply ht_lift. intros st' db Hf Hs. unfold sync_full_output in Hf.
    apply bind_Ok_iff in Hf as (o & _ & (? & _ & (h & Hh & (pos & _ & Hp)%bind_Ok_iff)%bind_Ok_iff)%bind_Ok_iff). eapply push_waiting; [exact Hs|exact Hp|]. left. exists o, pos.
    split_and!; [done|apply elem_of_app; right; left|done|done].
  - eapply (ht_bind _ _ _ waiting_outputs); [|by intros st'; apply ht_ret]. apply ht_lift. intros st' db Hf Hs. unfold sync_pruned_output, fixed_size in Hf.
    apply bind_Ok_iff in Hf as (h & Hh & (w & Hw & (pos & _ & Hp)%bind_Ok_iff)%bind_Ok_iff). repeat case_decide; try done. injection Hh as <-. injection Hw as <-. eapply push_waiting; [exact Hs|exact Hp|]. right. by exists pos.
Qed.

Lemma sync_outputs_verified end_ stream : forall st, htriple (waiting_outputs st) (sync_outputs manager concurrency end_ stream st) waiting_outputs.
Proof.
  induction stream as [|item stream IH]; intros st; cbn [sync_outputs]; [by apply ht_ret|]. eapply ht_bind; [apply sync_output_verified|]. intros [last st']. cbn [snd]. destruct last; [by apply ht_ret|].
  destruct (ti_slow item); [apply ht_Err|apply IH].
Qed.

Lemma synchronize_outputs_verified peer to_header bitmap : htriple (fun _ => True) (synchronize_outputs manager concurrency peer to_header bitmap) (fun _ _ => True).
Proof.
  unfold synchronize_outputs. eapply (ht_bind _ _ _ (fun _ _ => True)); [by apply ht_read|]. intros local. case_match; [by apply ht_ret|].
  eapply (ht_bind _ _ _ known).
  { apply ht_read. intros header db Hf _. unfold fetch_header_containing_utxo_mmr in Hf. apply bind_Ok_iff in Hf as (pos & _ & ([height ?] & _ & Hf)%bind_Ok_iff). by exists height. }
  intros header. eapply (ht_bind _ _ _ (fun _ => known header)); [apply ht_lift; by intros|]. intros stream. eapply (ht_bind _ _ _ (fun _ => known header)); [apply ht_read; by intros|]. intros data.
  eapply (ht_bind _ _ _ (fun _ => known header)); [apply ht_lift; by intros|]. intros constants.
  eapply (ht_bind _ _ _ (fun _ _ => True)); [|intros st; case_match; [by apply ht_ret|apply ht_Err]]. eapply ht_weaken; [|done].
  intros db db' r Hk H'. refine (sync_outputs_verified _ stream _ db db' r _ H'). split; [done|]. exists (acc_outputs data), (acc_witness data), []. cbn [map on_outputs on_witness on_txn]. rewrite !app_nil_r. by split_and!.
Qed.

(** ** The whole *)

(** [prune_to_height] makes pruning steps. *)
Lemma prune_block_steps st h db db' r : Forall pruning_op st.2 -> prune_block manager st h db = (db', r) -> verified_steps db db' /\ forall st', r = Ok st' -> Forall pruning_op st'.2.
Proof.
  destruct st as [last txn]. cbn [snd]. intros Hops. unfold prune_block. unfold mbind, dbM_bind, db_read.
  destruct (fetch_chain_header_by_height h db) as [header| |]; [|by intros [= <- <-]..]. destruct (or_not_found _) as [data| |]; [|by intros [= <- <-]..].
  set (ops := txn ++ _). assert (Forall pruning_op ops) as Hall by (apply Forall_app; split; [done|by repeat constructor]). case_match; [|intros [= <- <-]; split; [done|]; by intros st' [= <-]].
  unfold write. destruct (db_write _ _ db) as [db1| |] eqn:Hw; intros [= <- <-]; [|by split..]. split; [|by intros st' [= <-]]. apply rtc_once. eapply prune_step; [|exact Hw]. apply Forall_app. split; [done|by repeat constructor].
Qed.

Lemma prune_blocks_steps l : forall st db db' r, Forall pruning_op st.2 -> db_for (prune_block manager) l st db = (db', r) -> verified_steps db db' /\ forall st', r = Ok st' -> Forall pruning_op st'.2.
Proof.
  induction l as [|h l IH]; intros st db db' r Hst; cbn [db_for]; [intros [= <- <-]; split; [done|]; by intros st' [= <-]|]. unfold mbind, dbM_bind. destruct (prune_block manager st h db) as [db1 r1] eqn:Hb.
  destruct (prune_block_steps _ _ _ _ _ Hst Hb) as [Hs Hst']. destruct r1 as [st1| |]; [|by intros [= <- <-]..]. intros Hl. destruct (IH st1 _ _ _ (Hst' st1 eq_refl) Hl) as [Hs' Hr]. split; [by etrans|done].
Qed.

Lemma prune_to_height_steps h db db' r : prune_to_height manager h db = (db', r) -> verified_steps db db'.
Proof.
  unfold prune_to_height. unfold mbind at 1, dbM_bind at 1, db_read at 1. repeat (case_match; [by intros [= <- <-]|]). unfold mbind at 1, dbM_bind at 1, db_read at 1. destruct (or_not_found _) as [data| |]; [|by intros [= <- <-]..].
  unfold mbind, dbM_bind. destruct (db_for _ _ _ db) as [db1 r1] eqn:Hf. apply prune_blocks_steps in Hf as [Hs Hr]; [|by constructor]. destruct r1 as [[last txn]| |]; [|by intros [= <- <-]..].
  unfold write. destruct (db_write _ _ db1) as [db2| |] eqn:Hw; intros [= <- <-]; [|done..]. etrans; [exact Hs|]. apply rtc_once. eapply prune_step; [|exact Hw]. apply Forall_app. split; [exact (Hr _ eq_refl)|by repeat constructor].
Qed.

Lemma begin_sync_verified height peer to_header : htriple (fun _ => True) (begin_sync manager concurrency height peer to_header) (fun _ _ => True).
Proof.
  unfold begin_sync, initialize. eapply (ht_bind _ _ _ (fun _ _ => True)).
  - eapply (ht_bind _ _ _ (fun _ _ => True)); [by apply ht_read|]. intros metadata. eapply (ht_bind _ _ _ (fun _ _ => True)); [|intros []; by apply ht_read]. case_match; [|by apply ht_ret].
    intros db db' r _. unfold hs_run. destruct (prune_to_height _ _ db) as [db1 r1] eqn:Hp. intros [= <- <-]. split; [by eapply prune_to_height_steps|done].
  - intros bitmap. eapply (ht_bind _ _ _ (fun _ _ => True)); [apply synchronize_kernels_verified|]. intros []. apply synchronize_outputs_verified.
Qed.

Context (fuel : nat).

(** The last step: the sums of what is stored, the balance they satisfy, and the metadata. *)
Definition final_step (height : Z) db db' : Prop :=
  exists header bitmap sums db1, fetch_chain_header_by_height height db = Ok header /\
    foldM (sum_block bitmap db) (range (bh_height (lh_header header) + 1))
      {| cs_utxo_sum := com_default; cs_kernel_sum := com_default; cs_burned_sum := com_default; cs_position := 0; cs_prune_positions := [] |} = Ok sums /\
    db_write manager (if bool_decide (cs_prune_positions sums = []) then [] else [PruneOutputsAtMmrPositions (cs_prune_positions sums)]) db = Ok db1 /\
    validate_chain_balance manager fuel db1 (bh_height (lh_header header)) (cs_utxo_sum sums) (cs_kernel_sum sums) (cs_burned_sum sums) = Some (Ok tt) /\
    db_write manager [SetBestBlock (bh_height (lh_header header)) (header_hash header) (total_accumulated_difficulty (lh_accumulated_data header)) (best_block (md_tip (metadata db1)))
        (bh_timestamp (lh_header header)); SetPrunedHeight (bh_height (lh_header header)); SetHorizonData {| hz_kernel_sum := cs_kernel_sum sums; hz_utxo_sum := cs_utxo_sum sums |}] db1 = Ok db'.

(** With a result, the last step was made; without, none but verified steps. *)
Definition outcome (height : Z) db db' (succeeded : bool) : Prop :=
  exists db1, verified_steps db db1 /\ if succeeded then final_step height db1 db' else db' = db1.

Lemma finalize_outcome height bitmap db db' r : finalize_horizon_sync manager fuel height bitmap db = (db', r) -> outcome height db db' (match r with Ok _ => true | _ => false end).
Proof.
  unfold finalize_horizon_sync. unfold mbind at 1, hsM_bind at 1, hs_read at 1. destruct (fetch_chain_header_by_height height db) as [header| |] eqn:Hh; cbn [map_err]; [|intros [= <- <-]; by exists db..].
  unfold calculate_commitment_sums. unfold mbind at 1, hsM_bind at 1. unfold mbind at 1, hsM_bind at 1.
  destruct (foldM (sum_block bitmap db) _ _) as [sums| |] eqn:Hsum; [|intros [= <- <-]; by exists db..].
  assert ((_ ← (if bool_decide (cs_prune_positions sums = []) then mret tt else hs_run (write manager [PruneOutputsAtMmrPositions (cs_prune_positions sums)]));
    mret (cs_utxo_sum sums, cs_kernel_sum sums, cs_burned_sum sums) : hsM _) db =
    match db_write manager (if bool_decide (cs_prune_positions sums = []) then [] else [PruneOutputsAtMmrPositions (cs_prune_positions sums)]) db with
    | Ok db1 => (db1, Ok (cs_utxo_sum sums, cs_kernel_sum sums, cs_burned_sum sums)) | Err e => (db, Err (HorizonStorageError e)) | Panic => (db, Panic) end) as ->.
  { unfold mbind, hsM_bind. case_bool_decide; [done|]. unfold hs_run, write. by destruct (db_write _ _ db). }
  destruct (db_write manager (if bool_decide _ then _ else _) db) as [db1| |] eqn:Hw; [|intros [= <- <-]; by exists db..].
  assert (verified_steps db db1) as Hs1. { apply rtc_once. eapply prune_step; [|exact Hw]. case_match; by repeat constructor. }
  unfold mbind at 1, hsM_bind at 1. destruct (validate_chain_balance manager fuel db1 _ _ _ _) as [[[]| |]|] eqn:Hv; cbn [map_err]; [|intros [= <- <-]; by exists db1..].
  unfold mbind at 1, hsM_bind at 1, hs_read at 1. cbn [map_err]. unfold hs_run, write. destruct (db_write manager [SetBestBlock _ _ _ _ _; _; _] db1) as [db2| |] eqn:Hf; intros [= <- <-]; [|by exists db1..].
  exists db. split; [done|]. cbn [map_err]. by exists header, bitmap, sums, db1.
Qed.

Lemma sync_outcome height to_header peers : forall db db' r, sync manager fuel concurrency height to_header peers db = (db', r) -> outcome height db db' (match r with Ok _ => true | _ => false end).
Proof.
  induction peers as [|peer peers IH]; intros db db' r; cbn [sync]; [intros [= <- <-]; by exists db|]. destruct (dial peer); [|intros [= <- <-]; by exists db..].
  destruct (begin_sync manager concurrency height peer to_header db) as [db1 r1] eqn:Hb. destruct (begin_sync_verified height peer to_header db db1 r1 I Hb) as [Hs _].
  assert (forall succeeded, outcome height db1 db' succeeded -> outcome height db db' succeeded) as Htrans by (intros succeeded (db2 & Hs2 & Ho); exists db2; split; [by etrans|done]).
  assert (forall e : HorizonSyncError, (db1, Err e) = (db', r) -> outcome height db db' (match r with Ok _ => true | _ => false end)) as Herr by (intros e [= <- <-]; by exists db1).
  destruct r1 as [bitmap|e|]; [intros H; apply Htrans; by eapply finalize_outcome| |intros [= <- <-]; by exists db1].
  destruct e as [| | | | | | |rpc| | | | | | | | | | |]; try (by apply Herr); try (destruct rpc; try (by apply Herr)); destruct peers; try (by apply Herr); intros H; apply Htrans; by eapply IH.
Qed.

Lemma rounds_outcome height to_header rounds : forall db db' r, sync_rounds manager fuel concurrency height to_header rounds db = (db', r) -> outcome height db db' (match r with Some (Ok _) => true | _ => false end).
Proof.
  induction rounds as [|peers rounds IH]; intros db db' r; cbn [sync_rounds]; [intros [= <- <-]; by exists db|]. destruct (sync manager fuel concurrency height to_header peers db) as [db1 r1] eqn:Hs. apply sync_outcome in Hs.
  destruct r1 as [[]|e|]; [intros [= <- <-]; exact Hs| |intros [= <- <-]; exact Hs]. destruct Hs as (db2 & Hs & ->).
  assert (forall e : HorizonSyncError, (db2, Some (Err e)) = (db', r) -> outcome height db db' (match r with Some (Ok _) => true | _ => false end)) as Herr by (intros e' [= <- <-]; by exists db2).
  destruct e; try (by apply Herr). destruct (length peers <? 2)%nat; [by apply Herr|]. intros Hr. destruct (IH _ _ _ Hr) as (db3 & Hs3 & Ho). exists db3. split; [by etrans|done].
Qed.

(** C12: whatever the peers send, the horizon synchronisation changes the database only by verified steps: pruning what is stored, the kernels of a block, all signed and whose root is the one in
    its header, and the outputs of a block with valid range proofs, whose roots and deletions are those in its header. These leave the tip, the headers and the entries of the index of unspent
    outputs. [synchronize] succeeds exactly when the last step follows, which moves the tip to the horizon, and then the sums of the stored outputs and kernels satisfy the balance of the chain. *)
Theorem horizon_sync_verified height rounds db db' r : synchronize manager fuel concurrency height rounds db = (db', r) ->
  exists db1, verified_steps db db1 /\ kept db db1 /\ match r with Some (Ok _) => final_step height db1 db' | _ => db' = db1 end.
Proof.
  intros H. assert (outcome height db db' (match r with Some (Ok _) => true | _ => false end)) as (db1 & Hs & Ho).
  { unfold synchronize in H. assert (forall m, match map_err HorizonStorageError m with Ok header => sync_rounds manager fuel concurrency height header rounds db | Err e => (db, Some (Err e)) | Panic => (db, Some Panic) end = (db', r) ->
      outcome height db db' (match r with Some (Ok _) => true | _ => false end)) as Hm.
    { intros [header|e|]; cbn [map_err]; [apply rounds_outcome|intros [= <- <-]; by exists db..]. }
    destruct rounds as [|[|peer peers] rounds]; [by eapply Hm|injection H as <- <-; by exists db|by eapply Hm]. }
  exists db1. split; [done|]. split; [by apply steps_kept|]. by destruct r as [[]|].
Qed.

End HorizonSafe.
