(* ===== verification/HorizonOutputs.v ===== *)
(** * The outputs of a chain are synchronised

    [synchronize_outputs] of [HorizonSync] on the stream of outputs and deletions of a chain whose headers the node has: every root agrees, and the
    outputs of all blocks are stored, without the data of those that are spent. *)

From S2P Require Import Prelude ScriptTypes Opcodes ScriptStack TariScript Amounts Emission Difficulty ConsensusConstants ConsensusManager MmrCommon Mmr MutableMmr BalancedMerkle.
From S2P Require Import Covenants MoneroMerkle TxComponents BlockHeader CovenantFilters CovenantSpec AggregatedBody BodyValidator BodyBalance OutputHash BodyValidatorSpec.
From S2P Require Import ChainStorage ChainDatabase Reorg HeaderValidator FullValidator ChainTables ChainStorageSpec ChainRewind BlockReading ReorgSpec ReorgAtomic ChainStored FullValidatorSpec BlockSyncSpec.
From S2P Require Import ChunkIter HorizonSync SyncService SyncServed HorizonKernels.

Local Open Scope Z_scope.

(** Decoding the serialization of a set gives the set. *)
Class BitmapCodec `{BlockHashers} `{BitmapDecoder} : Prop := bitmap_round_trip (s : gset Z) : try_deserialize (serialize_set s) = Some s.

Section HorizonOutputs.
Context {C : ScriptCrypto} {CL : ScriptCryptoLaws C} {B : BorshPrims C} {BL : BorshLaws B} {X : TxCrypto C} {L : TxLaws X} {XL : EncodingLaws X} {ML : MoneroLib} {BH : BlockHashers} {BD : BitmapDecoder} {BR : BitmapCodec}.
Context (manager : ConsensusManager) (concurrency : nat).

Implicit Types (db : Database) (bs after before todo : list ChainBlock) (x y : ChainBlock) (r : TransactionOutputRowData).

(** ** Rows *)

(** A row without the output. *)
Definition prune_row r : TransactionOutputRowData :=
  {| or_output := None; or_header_hash := or_header_hash r; or_mmr_position := or_mmr_position r; or_hash := or_hash r; or_witness_hash := or_witness_hash r;
     or_mined_height := or_mined_height r; or_mined_timestamp := or_mined_timestamp r |}.

Section Rows.
(** [D]: the positions that are spent at the horizon. [local]: the chain the node has the outputs of; [all_new]: the rows of the blocks above it. *)
Context (D : gset Z) (local : list (BlockHeader * TxBody)) (all_new : list TransactionOutputRowData).

Definition stored_row r : TransactionOutputRowData := if decide (or_mmr_position r ∈ D) then prune_row r else r.

Definition kept_rows (done : list TransactionOutputRowData) : list TransactionOutputRowData := filter (fun r => or_mmr_position r ∉ D) done.

(** The tables when the rows [done] are stored. *)
Definition tables_at (done : list TransactionOutputRowData) : TxoTables :=
  txo_tables_of (unspent_rows local ++ kept_rows done) (rows local ++ map stored_row done) (input_rows local).

Definition row_op r : WriteOperation :=
  match decide (or_mmr_position r ∈ D), or_output r with
  | right _, Some o => InsertOutput (or_header_hash r) (or_mined_height r) o (or_mmr_position r) (or_mined_timestamp r)
  | _, _ => InsertPrunedOutput (or_header_hash r) (or_mined_height r) (or_hash r) (or_witness_hash r) (or_mmr_position r) (or_mined_timestamp r)
  end.

(** A row of an output that is stored whole. *)
Definition plain_row r : Prop := exists x pos o, r = output_row (cb_header x) pos o /\ encodable o.

Hypothesis Hdistinct : output_keys_distinct (unspent_rows local ++ kept_rows all_new) (rows local ++ all_new).
Hypothesis Hplain : Forall plain_row all_new.

Lemma stored_keys (l : list TransactionOutputRowData) : map or_hash (map stored_row l) = map or_hash l /\ map or_mmr_position (map stored_row l) = map or_mmr_position l.
Proof. rewrite !map_map. split; apply map_ext; intros r; unfold stored_row; by case_decide. Qed.

Lemma insert_row done r rest db : all_new = done ++ r :: rest -> txo_tables (lmdb db) = tables_at done -> is_Some (block_hashes_db (header_tables (lmdb db)) !! or_header_hash r) ->
  apply_operation manager db (row_op r) = Ok (with_lmdb (with_txos (tables_at (done ++ [r])) (lmdb db)) db).
Proof.
  intros Heq Ht [h Hh]. rewrite Heq in Hdistinct, Hplain. apply Forall_app in Hplain as [_ [(x & pos & o & Hr & He) _]%Forall_cons]. destruct Hdistinct as (Dc & Dh & Dp).
  unfold kept_rows in Dc. rewrite filter_app, filter_cons in Dc. unfold tables_at, kept_rows in *. rewrite filter_app, filter_cons, filter_nil, map_app. cbn [map]. unfold row_op, stored_row at 2.
  assert (output_keys_distinct [] ((rows local ++ map stored_row done) ++ r :: rest)) as (_ & Kh & Kp).
  { destruct (stored_keys done) as [E1 E2]. split_and!; [constructor| |]; rewrite !map_app, ?E1, ?E2; rewrite !map_app in Dh, Dp; by rewrite <- app_assoc. }
  destruct (decide (or_mmr_position r ∈ D)) as [Hd|Hd].
  - rewrite decide_False in Dc |- * by tauto. rewrite app_nil_r. cbn [apply_operation]. unfold on_lmdb, insert_pruned_output. rewrite Hh, Ht.
    cbn [utxo_commitment_index txos_hash_to_index_db utxos_db inputs_db deleted_txo_mmr_position_to_height_index txo_tables_of].
    pose proof (lmdb_insert_next hash_entry (rows local ++ map stored_row done) (prune_row r) rest) as H2. pose proof (lmdb_insert_next output_entry (rows local ++ map stored_row done) (prune_row r) rest) as H3.
    cbn [hash_entry output_entry fst snd or_hash or_mmr_position or_header_hash prune_row] in H2, H3.
    rewrite H2 by (rewrite map_app in *; exact Kh). cbn [mbind result_bind]. unfold prune_row in H3 at 2. rewrite H3 by (apply output_entries_distinct; rewrite map_app in *; exact Kp). cbn [mbind result_bind]. rewrite app_assoc. done.
  - rewrite decide_True in Dc |- * by done. rewrite Hr in *. cbn [or_output output_row or_header_hash or_mined_height or_mmr_position or_mined_timestamp].
    cbn [apply_operation]. unfold on_lmdb. rewrite Ht. rewrite app_assoc in Dc.
    rewrite (insert_output_Ok (cb_header x) (unspent_rows local ++ filter (fun r => or_mmr_position r ∉ D) done) (rows local ++ map stored_row done) (input_rows local) o pos _ rest He (conj Dc (conj Kh Kp))).
    cbn [mbind result_bind]. by rewrite <- !app_assoc.
Qed.

Lemma insert_rows new : forall done rest db, all_new = done ++ new ++ rest -> txo_tables (lmdb db) = tables_at done ->
  Forall (fun r => is_Some (block_hashes_db (header_tables (lmdb db)) !! or_header_hash r)) new ->
  foldM (apply_operation manager) (map row_op new) db = Ok (with_lmdb (with_txos (tables_at (done ++ new)) (lmdb db)) db).
Proof.
  induction new as [|r new IH]; intros done rest db Heq Ht Hh.
  - cbn [map foldM]. rewrite app_nil_r, <- Ht. by destruct db as [[]].
  - apply Forall_cons in Hh as [Hr Hh]. cbn [map foldM]. rewrite (insert_row done r (new ++ rest) db Heq Ht Hr). cbn [mbind result_bind].
    rewrite (IH (done ++ [r]) rest) by (done || by rewrite <- app_assoc). rewrite <- app_assoc. by destruct db as [[]].
Qed.

End Rows.

(** ** The loop over the outputs of a block *)

Definition whole_outputs (D : gset Z) (l : list TransactionOutputRowData) : list TransactionOutput :=
  omap (fun r => if decide (or_mmr_position r ∈ D) then None else or_output r) l.

Definition gathered (D : gset Z) x before (max_size : Z) (done : list TransactionOutputRowData) : OutputSync :=
  {| on_header := header_of x; on_txn := map (row_op D) done; on_unpruned := whole_outputs D done; on_position := Z.of_nat (length (rows (map pair_of before)) + length done);
     on_outputs := map or_hash (rows (map pair_of before)) ++ map or_hash done; on_witness := map or_witness_hash (rows (map pair_of before)) ++ map or_witness_hash done;
     on_max_script_size := max_size; on_bitmap := deleted_of (map pair_of before) |}.

(** What the checks of an output ask for. *)
Definition sendable (max_size : Z) (o : TransactionOutput) : Prop :=
  encodable o /\ check_tari_script_byte_size (out_script o) max_size = Ok tt /\ length (hash_of o) = 32%nat /\ length (witness_hash o) = 32%nat.

Lemma sync_row D end_ x before max_size done o db : acc_hash (cb_accumulated_data x) = bh_hash (cb_header x) -> sendable max_size o ->
  let n := (length (rows (map pair_of before)) + length done)%nat in Z.of_nat n <= U32_MAX ->
  let r := output_row (cb_header x) (Z.of_nat n) o in
  sync_output manager concurrency end_ (gathered D x before max_size done) (response D r) db = (db, Ok (false, gathered D x before max_size (done ++ [r]))).
Proof.
  intros Hacc (He & Hscript & Hh & Hw) n Hn r. unfold sync_output, response. cbn [received]. unfold mbind at 1, hsM_bind at 1, hs_lift at 1. cbn [mmr_index utxo_or_deleted].
  change (or_mmr_position r) with (Z.of_nat n). cbn [on_position gathered]. fold n. rewrite Z.eqb_refl, andb_false_r. cbn [ok_or]. unfold mbind at 1, hsM_bind at 1, hs_lift at 1.
  assert (forall hash witness unpruned op, hash = or_hash r -> witness = or_witness_hash r -> op = row_op D r -> unpruned = whole_outputs D [r] ->
    push_txo (gathered D x before max_size done) hash witness unpruned op = Ok (gathered D x before max_size (done ++ [r]))) as Hpush.
  { intros hash witness unpruned op -> -> -> ->. unfold push_txo. cbn [on_position gathered]. fold n. rewrite arith_ok by (unfold U32_MAX, U64_MAX in *; lia). cbn [mbind result_bind].
    unfold gathered. cbn [on_header on_txn on_unpruned on_outputs on_witness on_max_script_size on_bitmap]. rewrite !map_app. cbn [map]. rewrite !app_assoc, length_app. cbn [length]. unfold whole_outputs at 3. rewrite omap_app.
    do 2 f_equal. unfold n. lia. }
  unfold sent. change (or_mmr_position r) with (Z.of_nat n). change (or_hash r) with (hash_of o). change (or_witness_hash r) with (witness_hash o). change (or_output r) with (Some o).
  assert (position_u32 (Z.of_nat n) = Ok (Z.of_nat n)) as Hpos by (unfold position_u32; rewrite checked_ok by lia; done).
  destruct (decide (Z.of_nat n ∈ D)) as [Hd|Hd].
  - unfold mbind at 1, hsM_bind at 1, hs_lift at 1, sync_pruned_output, fixed_size. rewrite !decide_True by done. cbn [mbind result_bind on_position gathered]. fold n. rewrite Hpos. cbn [mbind result_bind].
    rewrite Hpush; [done|done|done| |]; change (or_mmr_position r) with (Z.of_nat n).
    + unfold row_op. change (or_mmr_position r) with (Z.of_nat n). rewrite decide_True by done. cbn [on_header gathered]. change (header_hash (header_of x)) with (acc_hash (cb_accumulated_data x)). by rewrite Hacc.
    + unfold whole_outputs. cbn [omap list_omap]. change (or_mmr_position r) with (Z.of_nat n). by rewrite decide_True.
  - unfold mbind at 1, hsM_bind at 1, hs_lift at 1, sync_full_output. cbn [ok_or mbind result_bind on_max_script_size gathered on_position]. rewrite Hscript. cbn [map_err mbind result_bind].
    rewrite (hash_of_Ok o He). cbn [mbind result_bind]. fold n. rewrite Hpos. cbn [mbind result_bind].
    rewrite Hpush; [done|done|done| |]; change (or_mmr_position r) with (Z.of_nat n).
    + unfold row_op. change (or_mmr_position r) with (Z.of_nat n). change (or_output r) with (Some o). rewrite decide_False by done. cbn [on_header gathered]. change (header_hash (header_of x)) with (acc_hash (cb_accumulated_data x)). by rewrite Hacc.
    + unfold whole_outputs. cbn [omap list_omap]. change (or_mmr_position r) with (Z.of_nat n). by rewrite decide_False.
Qed.

Lemma sync_rows D end_ x before max_size rest db : acc_hash (cb_accumulated_data x) = bh_hash (cb_header x) -> forall os, Forall (sendable max_size) os ->
  Z.of_nat (length (rows (map pair_of before)) + length os) <= U32_MAX ->
  sync_outputs manager concurrency end_ (timed (map (response D) (new_rows (cb_header x) (length (rows (map pair_of before))) os)) ++ rest) (gathered D x before max_size []) db =
  sync_outputs manager concurrency end_ rest (gathered D x before max_size (new_rows (cb_header x) (length (rows (map pair_of before))) os)) db.
Proof.
  intros Hacc os. revert rest. induction os as [|o os IH] using rev_ind; intros rest Hos Hn; [done|]. apply Forall_app in Hos as [Hos [Ho _]%Forall_cons]. rewrite length_app in Hn. cbn [length] in Hn.
  rewrite new_rows_snoc, map_app, timed_app, <- app_assoc, IH by (done || lia). cbn [map timed app sync_outputs ti_item ti_slow]. unfold mbind, hsM_bind.
  pose proof (sync_row D end_ x before max_size (new_rows (cb_header x) (length (rows (map pair_of before))) os) o db Hacc Ho) as Hr. rewrite length_new_rows in Hr. cbv zeta in Hr. rewrite Nat2Z.inj_add in Hr.
  rewrite Hr by lia. done.
Qed.

(** ** The end of a block *)

(** What the output synchronisation leaves as it is. *)
Record outputs_frame db db' : Prop := {
  of_headers : header_tables (lmdb db') = header_tables (lmdb db);
  of_kernels : kernel_tables (lmdb db') = kernel_tables (lmdb db);
  of_metadata : metadata db' = metadata db;
  of_accumulated h : is_Some (block_accumulated_data_db (lmdb db) !! h) -> is_Some (block_accumulated_data_db (lmdb db') !! h);
}.

Lemma outputs_frame_trans db1 db2 db3 : outputs_frame db1 db2 -> outputs_frame db2 db3 -> outputs_frame db1 db3.
Proof. intros [A1 A2 A3 A4] [B1 B2 B3 B4]. split; [congruence..|]. intros h Hh. auto. Qed.

Lemma rows_cons x bs : rows (map pair_of (x :: bs)) = rows (map pair_of bs) ++ rows_by bs x.
Proof. done. Qed.

Lemma deleted_cons x bs : chain_ok (map pair_of (x :: bs)) -> deleted_of (map pair_of bs) ∪ diff_of bs x = deleted_of (map pair_of (x :: bs)).
Proof. intros Hok. exact (deleted_step _ _ _ Hok). Qed.

(** What a block needs to pass: its header commits to the chain, its outputs can be sent, and their proofs are valid. *)
Record block_ready (D : gset Z) x before : Prop := {
  br_commits : commits (cb_header x) (map pair_of (x :: before));
  br_outputs : outputs (body_of x) <> [];
  br_constants : exists constants, (forall E, @consensus_constants E manager (bh_height (cb_header x)) = Ok constants) /\ Forall (sendable (max_script_byte_size constants)) (outputs (body_of x));
  br_proofs : validate_rangeproofs concurrency (whole_outputs D (rows_by before x)) = Ok tt;
  br_diff : Z.of_nat (length (serialize_set (diff_of before x))) <= MAX_DIFF_BITMAP_BYTE_LEN;
}.

Lemma check_block D x before max_size : block_ready D x before -> chain_ok (map pair_of (x :: before)) ->
  check_deleted_diff concurrency (gathered D x before max_size (rows_by before x)) (serialize_set (diff_of before x)) = Ok (diff_of before x, deleted_of (map pair_of (x :: before))).
Proof.
  intros [Hc Ho _ Hp Hd] Hok. unfold check_deleted_diff. cbn [on_header on_position on_outputs on_witness on_unpruned on_bitmap gathered]. change (lh_header (header_of x)) with (cb_header x).
  rewrite <- !map_app, <- rows_cons. replace (length (rows (map pair_of before)) + length (rows_by before x))%nat with (length (rows (map pair_of (x :: before)))) by (by rewrite rows_cons, length_app).
  rewrite (cm_output_size _ _ Hc), Z.eqb_refl. cbn [negb]. rewrite Z.gtb_ltb, (proj2 (Z.ltb_ge _ _)) by exact Hd. rewrite bitmap_round_trip. cbn [ok_or mbind result_bind].
  rewrite (deleted_cons x before Hok), length_map. destruct (kernels_bound (x :: before) Hok) as [_ Hb]; [done|]. rewrite checked_ok by (clear -Hb; lia). cbn [unwrap mbind result_bind].
  rewrite (cm_outputs _ _ Hc). cbn [map_err mbind result_bind]. rewrite bool_decide_true by done. cbn [negb]. rewrite (cm_witnesses _ _ Hc). cbn [map_err mbind result_bind]. rewrite bool_decide_true by done. cbn [negb].
  rewrite Hp. done.
Qed.

Section Commit.
Context (D : gset Z) (local : list ChainBlock) (all_new : list TransactionOutputRowData) (end_ : Z) (after : list ChainBlock) (x : ChainBlock) (before : list ChainBlock).
Hypothesis Hdistinct : output_keys_distinct (unspent_rows (map pair_of local) ++ kept_rows D all_new) (rows (map pair_of local) ++ all_new).
Hypothesis Hplain : Forall plain_row all_new.
Hypothesis Hok : blocks_ok (after ++ x :: before).
Hypothesis Hlength : Z.of_nat (length (after ++ x :: before)) <= U64_MAX.
Hypothesis Hready : block_ready D x before.

(** The database after the block. *)
Record outputs_synced db (done : list TransactionOutputRowData) bs : Prop := {
  os_tables : txo_tables (lmdb db) = tables_at D (map pair_of local) done;
  os_deleted : deleted_bitmap (lmdb db) = deleted_of (map pair_of bs);
  os_data : Forall (fun y => is_Some (block_accumulated_data_db (lmdb db) !! bh_height (cb_header y))) bs;
}.

Lemma write_block done rest db : header_tables (lmdb db) = header_tables_of (after ++ x :: before) -> outputs_synced db done before -> all_new = done ++ rows_by before x ++ rest ->
  exists db', db_write manager (map (row_op D) (rows_by before x) ++
      [UpdateDeletedBitmap (diff_of before x); UpdateBlockAccumulatedData (bh_hash (cb_header x)) (outputs_update (map or_hash (rows (map pair_of (x :: before)))) (map or_witness_hash (rows (map pair_of (x :: before)))) (diff_of before x))] ) db = Ok db' /\
    outputs_synced db' (done ++ rows_by before x) (x :: before) /\ outputs_frame db db'.
Proof.
  intros Hh [Ht Hd Hdata] Heq. destruct (header_lookup _ x Hok ltac:(apply middle_in)) as (_ & _ & Hxh).
  unfold db_write. rewrite foldM_app, (insert_rows D (map pair_of local) all_new Hdistinct Hplain (rows_by before x) done rest db Heq Ht).
  2:{ apply Forall_forall. intros r Hr. unfold rows_by in Hr. apply elem_of_new_rows in Hr as (i & o & _ & ->). rewrite Hh. cbn [or_header_hash output_row]. rewrite Hxh. by eexists. }
  cbn [mbind result_bind foldM apply_operation]. unfold on_lmdb, update_block_accumulated_data. cbn [mbind result_bind]. unfold update_deleted_bitmap. cbn [lmdb with_lmdb with_txos header_tables block_accumulated_data_db deleted_bitmap txo_tables kernel_tables side_tables].
  rewrite Hh, Hxh. cbn [or_not_found ok_or mbind result_bind]. eexists. split; [done|]. split.
  - split; cbn [lmdb with_lmdb txo_tables deleted_bitmap block_accumulated_data_db]; [done| |].
    + rewrite Hd. apply deleted_cons. exact (blocks_chain_ok _ (blocks_ok_suffix after _ Hok)).
    + constructor; [rewrite lookup_insert_eq; by eexists|]. eapply Forall_impl; [exact Hdata|]. intros y Hy. cbn beta. destruct (decide (bh_height (cb_header y) = bh_height (cb_header x))) as [->|Hne]; [rewrite lookup_insert_eq; by eexists|].
      by rewrite lookup_insert_ne by congruence.
  - split; cbn [lmdb with_lmdb header_tables kernel_tables metadata block_accumulated_data_db]; [by rewrite <- Hh|done|done|].
    intros h Hs. destruct (decide (h = bh_height (cb_header x))) as [->|Hne]; [rewrite lookup_insert_eq; by eexists|]. by rewrite lookup_insert_ne by congruence.
Qed.

(** The last item of a block: the block is written, and the next one is expected unless it was the last one. *)
Lemma commit_outputs_Ok done rest db max_size next constants : header_tables (lmdb db) = header_tables_of (after ++ x :: before) -> outputs_synced db done before -> all_new = done ++ rows_by before x ++ rest ->
  let size := Z.of_nat (length (rows (map pair_of (x :: before)))) in
  (size = end_ /\ next = x) \/ (size <> end_ /\ (exists after', after = after' ++ [next]) /\ forall E, @consensus_constants E manager (bh_height (cb_header next)) = Ok constants) ->
  exists db', commit_outputs manager concurrency end_ (gathered D x before max_size (rows_by before x)) (serialize_set (diff_of before x)) db =
    (db', Ok (size =? end_, gathered D next (x :: before) (if size =? end_ then max_size else max_script_byte_size constants) [])) /\
    outputs_synced db' (done ++ rows_by before x) (x :: before) /\ outputs_frame db db'.
Proof.
  intros Hh Hs Heq size Hnext. destruct (write_block done rest db Hh Hs Heq) as (db' & Hw & Hs' & Hf). exists db'. split; [|done].
  unfold commit_outputs. unfold mbind at 1, hsM_bind at 1, hs_lift at 1. rewrite (check_block D x before max_size Hready (blocks_chain_ok _ (blocks_ok_suffix after _ Hok))).
  cbn [on_txn on_header on_outputs on_witness on_position on_max_script_size gathered]. rewrite <- !map_app, <- rows_cons.
  replace (length (rows (map pair_of before)) + length (rows_by before x))%nat with (length (rows (map pair_of (x :: before)))) by (by rewrite rows_cons, length_app). fold size.
  change (header_hash (header_of x)) with (acc_hash (cb_accumulated_data x)). rewrite (fo_hash _ _ (proj1 (blocks_ok_suffix after (x :: before) Hok))).
  unfold mbind at 1, hsM_bind at 1, hs_run at 1, write. rewrite Hw. cbn [map_err].
  assert (forall y m, {| on_header := header_of y; on_txn := []; on_unpruned := []; on_position := size; on_outputs := map or_hash (rows (map pair_of (x :: before)));
    on_witness := map or_witness_hash (rows (map pair_of (x :: before))); on_max_script_size := m; on_bitmap := deleted_of (map pair_of (x :: before)) |} = gathered D y (x :: before) m []) as Hg.
  { intros y m. unfold gathered. cbn [map whole_outputs omap list_omap length]. rewrite !app_nil_r, Nat.add_0_r. done. }
  destruct (Z.eqb_spec size end_) as [He|He].
  - destruct Hnext as [[_ ->]|[? _]]; [|done]. unfold mret, hsM_ret. by rewrite Hg.
  - destruct Hnext as [[? _]|(_ & (after' & Ha) & Hc)]; [done|]. pose proof (block_height before x (blocks_ok_suffix after _ Hok)) as Hxh.
    assert (next ∈ after ++ x :: before) as Hin by (rewrite Ha; apply elem_of_app; left; apply elem_of_app; right; left). pose proof (height_bound _ _ Hok Hin) as Hb.
    assert (bh_height (cb_header next) = bh_height (cb_header x) + 1) as Hn.
    { pose proof Hok as Hok'. rewrite Ha, <- app_assoc in Hok'. pose proof (block_height _ _ (blocks_ok_suffix after' _ Hok')) as Hn. rewrite Hxh, Hn. cbn [length app]. lia. }
    unfold mbind, hsM_bind, hs_lift, hs_read, mret, hsM_ret. change (lh_header (header_of x)) with (cb_header x). rewrite <- Hn, arith_ok by lia.
    rewrite (chain_header_of db' _ next (eq_trans (of_headers _ _ Hf) Hh) Hok Hin). cbn [map_err lh_header]. rewrite Hc. fold (header_of next). by rewrite Hg.
Qed.

End Commit.

(** ** All blocks *)

Fixpoint rows_above before todo : list TransactionOutputRowData :=
  match todo with [] => [] | x :: todo => rows_by before x ++ rows_above (x :: before) todo end.

Lemma rows_above_all todo : forall before, rows (map pair_of (rev todo ++ before)) = rows (map pair_of before) ++ rows_above before todo.
Proof.
  induction todo as [|x todo IH]; intros before; cbn [rev rows_above]; [by rewrite app_nil_r|]. rewrite <- app_assoc. cbn [app]. by rewrite IH, rows_cons, <- app_assoc.
Qed.

Fixpoint all_ready (D : gset Z) before todo : Prop :=
  match todo with [] => True | x :: todo => block_ready D x before /\ all_ready D (x :: before) todo end.

Lemma ready_size D todo : forall before to, all_ready D before todo -> last todo = Some to -> bh_output_mmr_size (cb_header to) = Z.of_nat (length (rows (map pair_of (rev todo ++ before)))).
Proof.
  induction todo as [|x todo IH]; [done|]. intros before to [Hr Ht] Hl. destruct todo as [|y todo]; [injection Hl as ->; exact (cm_output_size _ _ (br_commits _ _ _ Hr))|].
  rewrite (IH (x :: before) to Ht Hl). cbn [rev]. by rewrite <- !app_assoc.
Qed.

Section All.
Context (D : gset Z) (local : list ChainBlock) (all_new : list TransactionOutputRowData) (later : list ChainBlock).
Hypothesis Hdistinct : output_keys_distinct (unspent_rows (map pair_of local) ++ kept_rows D all_new) (rows (map pair_of local) ++ all_new).
Hypothesis Hplain : Forall plain_row all_new.

Lemma sync_all_outputs todo : forall x before done db constants, let whole := later ++ rev (x :: todo) ++ before in
  blocks_ok whole -> Z.of_nat (length whole) <= U64_MAX -> header_tables (lmdb db) = header_tables_of whole -> all_ready D before (x :: todo) ->
  outputs_synced D local db done before -> all_new = done ++ rows_above before (x :: todo) -> (forall E, @consensus_constants E manager (bh_height (cb_header x)) = Ok constants) ->
  let end_ := Z.of_nat (length (rows (map pair_of (rev (x :: todo) ++ before)))) in
  exists db' st, sync_outputs manager concurrency end_ (timed (all_items D before (x :: todo))) (gathered D x before (max_script_byte_size constants) []) db = (db', Ok st) /\
    on_position st = end_ /\ on_bitmap st = deleted_of (map pair_of (rev (x :: todo) ++ before)) /\ outputs_synced D local db' all_new (rev (x :: todo) ++ before) /\ outputs_frame db db'.
Proof.
  induction todo as [|y todo IH]; intros x before done db constants whole Hok Hlen Hh [Hr Hrs] Hs Heq Hconst end_; pose proof Hr as [_ _ (constants' & Hc' & Hsend) _ _];
    (assert (constants' = constants) as -> by (specialize (Hc' unit); rewrite Hconst in Hc'; by injection Hc'));
    unfold whole in Hok, Hlen, Hh; pose proof Hok as Hok1; pose proof Hlen as Hlen1; pose proof Hh as Hh1; rewrite split_block in Hok1, Hlen1, Hh1;
    pose proof (blocks_ok_suffix _ (x :: before) Hok1) as [Hf _]; cbn [all_items]; unfold block_items, rows_by; rewrite <- app_assoc, timed_app;
    (rewrite sync_rows; [|exact (fo_hash _ _ Hf)|exact Hsend|exact (bk_size _ _ _ (fo_block _ _ Hf))]); fold (rows_by before x); cbn [app timed map sync_outputs ti_item ti_slow];
    unfold mbind at 1, hsM_bind at 1, sync_output; cbn [received]; unfold mbind at 1, hsM_bind at 1, hs_lift at 1; cbn [mmr_index utxo_or_deleted]; cbn [Z.eqb negb andb ok_or];
    unfold mbind at 1, hsM_bind at 1, hs_lift at 1; cbn [rows_above] in Heq.
  - destruct (commit_outputs_Ok D local all_new end_ (later ++ rev []) x before Hdistinct Hplain Hok1 Hlen1 Hr done [] db (max_script_byte_size constants) x constants Hh1 Hs Heq) as (db' & Hc & Hs' & Hf'); [by left|].
    rewrite Hc. unfold end_ at 2. cbn [rev app]. rewrite Z.eqb_refl. eexists db', _. split; [done|]. cbn [on_position on_bitmap gathered length]. rewrite Nat.add_0_r, Heq, app_nil_r.
    split_and!; [done|done|done|done].
  - assert (later ++ rev (x :: y :: todo) ++ before = later ++ rev (y :: todo) ++ x :: before) as Hw by (rewrite split_block, app_assoc; done). rewrite Hw in Hok, Hlen, Hh.
    assert (end_ = Z.of_nat (length (rows (map pair_of (rev (y :: todo) ++ x :: before))))) as He by (unfold end_; cbn [rev]; by rewrite <- !app_assoc).
    pose proof Hrs as [[_ Hoy (cy & Hcy & _) _ _] _].
    destruct (commit_outputs_Ok D local all_new end_ (later ++ rev (y :: todo)) x before Hdistinct Hplain Hok1 Hlen1 Hr done (rows_above (x :: before) (y :: todo)) db (max_script_byte_size constants) y cy Hh1 Hs Heq) as (db1 & Hc & Hs1 & Hf1).
    { right. split_and!; [|exists (later ++ rev todo); cbn [rev]; by rewrite app_assoc|exact Hcy]. rewrite He, rows_above_all, length_app. cbn [rows_above]. rewrite length_app. unfold rows_by at 1. rewrite length_new_rows.
      destruct (outputs (body_of y)); [done|]. cbn [length]. lia. }
    rewrite Hc. assert (Z.of_nat (length (rows (map pair_of (x :: before)))) <> end_) as Hne.
    { rewrite He, rows_above_all, length_app. cbn [rows_above]. rewrite length_app. unfold rows_by at 1. rewrite length_new_rows. destruct (outputs (body_of y)); [done|]. cbn [length]. lia. }
    rewrite (proj2 (Z.eqb_neq _ _) Hne). rewrite He.
    destruct (IH y (x :: before) (done ++ rows_by before x) db1 cy Hok Hlen) as (db' & st & Hsync & Hp & Hb & Hs' & Hf'); [by rewrite (of_headers _ _ Hf1)|done|done|by rewrite <- app_assoc|done|].
    exists db', st. split; [exact Hsync|]. cbn [rev] in *. rewrite <- !app_assoc in *. split_and!; [done|done|done|]. by eapply outputs_frame_trans.
Qed.

End All.

(** The database before the outputs are synchronised: it has those of the blocks [local]. *)
Record outputs_local db local : Prop := {
  ol_tables : txo_tables (lmdb db) = txo_tables_of (unspent_rows (map pair_of local)) (rows (map pair_of local)) (input_rows (map pair_of local));
  ol_deleted : deleted_bitmap (lmdb db) = deleted_of (map pair_of local);
  ol_tip : match local with
    | p :: _ => exists data, block_accumulated_data_db (lmdb db) !! bh_height (cb_header p) = Some data /\
        acc_outputs data = map or_hash (rows (map pair_of local)) /\ acc_witness data = map or_witness_hash (rows (map pair_of local))
    | [] => False
    end;
  ol_data : Forall (fun y => is_Some (block_accumulated_data_db (lmdb db) !! bh_height (cb_header y))) local;
}.

(** The keys of the outputs that are written do not clash with those that are there. *)
Definition keys_free (D : gset Z) local todo : Prop :=
  output_keys_distinct (unspent_rows (map pair_of local) ++ kept_rows D (rows_above local todo)) (rows (map pair_of local) ++ rows_above local todo).

Lemma rows_above_plain D todo : forall before, all_ready D before todo -> Forall plain_row (rows_above before todo).
Proof.
  induction todo as [|x todo IH]; intros before Hr; [constructor|]. destruct Hr as [Hx Hr]. cbn [rows_above]. apply Forall_app. split; [|by apply IH].
  destruct Hx as [_ _ (constants & _ & Hsend) _ _]. rewrite Forall_forall in Hsend. apply Forall_forall. intros r (i & o & Hi & ->)%elem_of_new_rows. exists x, (Z.of_nat (length (rows (map pair_of before))) + Z.of_nat i), o. split; [done|].
  apply (Hsend o). apply list_elem_of_lookup. by eexists.
Qed.

(** [synchronize_outputs] with a peer that streams the outputs and the deletions of the blocks. *)
Lemma outputs_synchronized later todo x p before db peer to : let local := p :: before in let target := rev (x :: todo) ++ local in let D := deleted_of (map pair_of target) in
  blocks_ok (later ++ target) -> sizes_ok (later ++ target) -> Z.of_nat (length (later ++ target)) <= U64_MAX -> header_tables (lmdb db) = header_tables_of (later ++ target) ->
  all_ready D local (x :: todo) -> outputs_local db local -> keys_free D local (x :: todo) ->
  last (x :: todo) = Some to -> ss_outputs peer = Ok (timed (all_items D local (x :: todo))) ->
  exists db', synchronize_outputs manager concurrency peer (cb_header to) (deleted_of (map pair_of local)) db = (db', Ok D) /\
    outputs_synced D local db' (rows_above local (x :: todo)) target /\ outputs_frame db db'.
Proof.
  intros local target D Hok Hsz Hlen Hh Hr Hl Hfree Hto Hpeer. pose proof (ready_size _ _ _ _ Hr Hto) as Hend.
  pose proof Hr as [[_ Hxo (constants & Hconst & _) _ _] _]. pose proof Hl as [Ht Hd (data & Hdata & Ho & Hw) Hall].
  pose proof Hok as Hok1. pose proof Hsz as Hsz1. pose proof Hh as Hh1. unfold target in Hok1, Hsz1, Hh1. rewrite split_block in Hok1, Hsz1, Hh1.
  pose proof (blocks_ok_suffix (later ++ rev todo) (x :: local) Hok1) as [Hf Hpok].
  assert (outputs_synced D local db [] local) as Hs by (split; [rewrite Ht; unfold tables_at, kept_rows; cbn [map]; by rewrite filter_nil, !app_nil_r|done|done]).
  destruct (sync_all_outputs D local (rows_above local (x :: todo)) later Hfree (rows_above_plain _ _ _ Hr) todo x local [] db constants Hok Hlen Hh Hr Hs eq_refl Hconst) as (db' & st & Hsync & Hp & Hb & Hs' & Hf').
  exists db'. split; [|done]. unfold synchronize_outputs. unfold mbind at 1, hsM_bind at 1, hs_read at 1. cbn [map_err].
  assert (fetch_mmr_size UtxoTree db = Z.of_nat (length (rows (map pair_of local)))) as ->.
  { unfold fetch_mmr_size. rewrite Ht. cbn [utxos_db txo_tables_of]. rewrite (table_size output_entry); [done|]. apply output_entries_distinct. apply rows_positions_distinct. }
  fold target in Hend. rewrite Hend. assert (Z.of_nat (length (rows (map pair_of local))) < Z.of_nat (length (rows (map pair_of target)))) as Hlt.
  { unfold target. rewrite rows_above_all, length_app. cbn [rows_above]. rewrite length_app. unfold rows_by at 1. rewrite length_new_rows. destruct (outputs (body_of x)); [done|]. cbn [length]. lia. }
  rewrite (proj2 (Z.leb_gt _ _)) by exact Hlt. unfold mbind at 1, hsM_bind at 1, hs_read at 1.
  destruct (kernels_bound local (blocks_chain_ok _ Hpok) ltac:(done)) as [_ Hob].
  rewrite (header_containing_utxo db (later ++ rev todo) local x _ Hh1 Hok1 Hsz1); [|unfold U32_MAX, U64_MAX in *; lia|].
  2:{ rewrite (output_count x). destruct (outputs (body_of x)); [done|]. cbn [length]. lia. }
  cbn [map_err]. unfold mbind at 1, hsM_bind at 1, hs_lift at 1. rewrite Hpeer. cbn [map_err lh_header]. unfold mbind at 1, hsM_bind at 1, hs_read at 1.
  assert (fetch_block_accumulated_data (bh_prev_hash (cb_header x)) db = Ok data) as ->.
  { unfold fetch_block_accumulated_data. rewrite (fo_prev _ _ Hf), Hh1. destruct (header_lookup _ p Hok1) as (_ & _ & Hph); [apply elem_of_app; right; right; left|]. rewrite Hph. cbn [or_not_found ok_or mbind result_bind]. by rewrite Hdata. }
  cbn [map_err]. unfold mbind at 1, hsM_bind at 1, hs_lift at 1. rewrite Hconst. unfold mbind at 1, hsM_bind at 1. fold target in Hsync.
  match goal with |- context [sync_outputs _ _ _ _ ?st db] => replace st with (gathered D x local (max_script_byte_size constants) []) end.
  - rewrite Hsync, Hp. fold target. rewrite Z.eqb_refl. unfold mret, hsM_ret. by rewrite Hb.
  - unfold gathered. cbn [map length]. rewrite !app_nil_r, Nat.add_0_r, Ho, Hw. done.
Qed.

End HorizonOutputs.
