(* ===== verification/HorizonFinal.v ===== *)
(** * The horizon state is final

    What [finalize_horizon_sync] of [HorizonSync] computes of a database that has the outputs and the kernels of a chain: the sums of what is stored are those
    of the chain, the outputs that are spent and still whole are pruned, and the chain balances. *)

From S2P Require Import Prelude ScriptTypes Opcodes ScriptStack TariScript Amounts Emission Difficulty ConsensusConstants ConsensusManager MmrCommon Mmr MutableMmr BalancedMerkle.
From S2P Require Import Covenants MoneroMerkle TxComponents BlockHeader CovenantFilters CovenantSpec AggregatedBody BodyValidator BodyBalance OutputHash BodyValidatorSpec.
From S2P Require Import ChainStorage ChainDatabase Reorg HeaderValidator FullValidator ChainTables ChainStorageSpec ChainRewind BlockReading ReorgSpec ReorgAtomic ChainStored FullValidatorSpec BlockSyncSpec.
From S2P Require Import ChunkIter HorizonSync SyncService ChainBalance SyncServed HorizonKernels HorizonOutputs.
From stdpp Require Import sorting.

Local Open Scope Z_scope.

Section HorizonFinal.
Context {C : ScriptCrypto} {CL : ScriptCryptoLaws C} {B : BorshPrims C} {BL : BorshLaws B} {X : TxCrypto C} {L : TxLaws X} {XL : EncodingLaws X} {ML : MoneroLib} {BH : BlockHashers} {BD : BitmapDecoder} {BR : BitmapCodec}.
Context (manager : ConsensusManager).

Implicit Types (db : Database) (bs after before todo local target : list ChainBlock) (x y : ChainBlock) (r : TransactionOutputRowData) (ks : list TransactionKernel).

(** ** The sums *)

Definition burn_of (k : TransactionKernel) : option PedersenCommitment := if kernel_is_burned k then k_burn_commitment k else None.

Definition burn_given (k : TransactionKernel) : Prop := kernel_is_burned k = true -> is_Some (k_burn_commitment k).

Section Sums.
(** [D]: the positions that are spent; [n]: the outputs before this position are stored whole. *)
Context (D : gset Z) (n : Z).

Definition on_disk r : TransactionOutputRowData := if decide (or_mmr_position r < n) then r else stored_row D r.

Definition sums (l : list TransactionOutputRowData) ks : CommitmentSums :=
  {| cs_utxo_sum := com_sum (map row_com (filter (fun r => or_mmr_position r ∉ D) l)); cs_kernel_sum := com_sum (map k_excess ks); cs_burned_sum := com_sum (omap burn_of ks);
     cs_position := Z.of_nat (length l); cs_prune_positions := map or_mmr_position (filter (fun r => or_mmr_position r ∈ D /\ or_mmr_position r < n) l) |}.

Lemma com_sum_snoc l com : com_sum (l ++ [com]) = com_add com (com_sum l).
Proof. rewrite com_sum_app, com_sum_cons. change (com_sum []) with com_default. by rewrite (com_add_comm com), com_add_default, com_add_comm. Qed.

Lemma sum_rows l' : forall l ks, (forall i r, (l ++ l') !! i = Some r -> or_mmr_position r = Z.of_nat i /\ is_Some (or_output r)) -> Z.of_nat (length (l ++ l')) <= U32_MAX ->
  foldM (sum_utxo D) (map (fun r => row_to_pruned (on_disk r)) l') (sums l ks) = Ok (sums (l ++ l') ks).
Proof.
  induction l' as [|r l' IH]; intros l ks Hl Hn; [cbn; by rewrite app_nil_r|]. cbn [map foldM]. destruct (Hl (length l) r) as [Hp [o Ho]]; [by rewrite lookup_app_r, Nat.sub_diag by done|].
  rewrite length_app in Hn. cbn [length] in Hn.
  assert (sum_utxo D (sums l ks) (row_to_pruned (on_disk r)) = Ok (sums (l ++ [r]) ks)) as ->.
  2:{ cbn [mbind result_bind]. rewrite IH; [by rewrite <- app_assoc|by rewrite <- app_assoc|rewrite !length_app; cbn [length]; lia]. }
  unfold sum_utxo. cbn [cs_position cs_utxo_sum cs_prune_positions cs_kernel_sum cs_burned_sum sums]. rewrite <- Hp. unfold sums. rewrite !filter_app, !filter_cons, !filter_nil, length_app. cbn [length].
  unfold on_disk, stored_row, row_to_pruned. replace (Z.of_nat (length l + 1)) with (or_mmr_position r + 1) by lia.
  destruct (decide (or_mmr_position r < n)) as [Hlt|Hge]; destruct (decide (or_mmr_position r ∈ D)) as [Hd|Hd]; rewrite ?Ho; cbn [or_output prune_row]; rewrite ?bool_decide_true, ?bool_decide_false by done;
    rewrite arith_ok by (unfold U32_MAX in *; lia); cbn [mbind result_bind]; do 2 f_equal; (repeat case_decide); try tauto; rewrite ?map_app, ?app_nil_r; try done;
    cbn [map]; rewrite com_sum_snoc; unfold row_com at 2; by rewrite Ho.
Qed.

Lemma sum_kernels l ks' : forall ks, Forall burn_given ks' -> foldM sum_kernel ks' (sums l ks) = Ok (sums l (ks ++ ks')).
Proof.
  induction ks' as [|k ks' IH]; intros ks Hb; [cbn; by rewrite app_nil_r|]. apply Forall_cons in Hb as [Hk Hb]. cbn [foldM].
  assert (sum_kernel (sums l ks) k = Ok (sums l (ks ++ [k]))) as ->; [|cbn [mbind result_bind]; rewrite IH by done; by rewrite <- app_assoc].
  unfold sum_kernel. cbn [cs_position cs_utxo_sum cs_prune_positions cs_kernel_sum cs_burned_sum sums]. unfold sums. rewrite map_app, omap_app. cbn [map omap list_omap]. rewrite com_sum_snoc.
  unfold burn_given in Hk. unfold get_burn_commitment. destruct (burn_of k) as [com|] eqn:Hbk; unfold burn_of in Hbk; destruct (kernel_is_burned k); try done.
  - rewrite Hbk. cbn [map_err mbind result_bind]. by rewrite com_sum_snoc.
  - rewrite Hbk in Hk. by destruct (Hk eq_refl).
  - cbn [mbind result_bind]. by rewrite app_nil_r.
Qed.

(** ** Over the blocks *)

Context (db : Database) (later target : list ChainBlock) (base : list TransactionKernelRowData).
Hypothesis Hheaders : header_tables (lmdb db) = header_tables_of (later ++ target).
Hypothesis Hok : blocks_ok (later ++ target).
Hypothesis Hutxos : utxos_db (txo_tables (lmdb db)) = table_of output_entry (map on_disk (rows (map pair_of target))).
Hypothesis Hkernels : kernel_tables (lmdb db) = kernel_tables_of base.
Hypothesis Hbase : kernels_of base target.
Hypothesis Hdata : Forall (fun y => is_Some (block_accumulated_data_db (lmdb db) !! bh_height (cb_header y))) target.
Hypothesis Hburns : Forall burn_given (map kr_kernel base).

Lemma target_ok : blocks_ok target.
Proof. exact (blocks_ok_suffix later target Hok). Qed.

Lemma on_disk_keys r : or_header_hash (on_disk r) = or_header_hash r /\ or_mmr_position (on_disk r) = or_mmr_position r /\ or_hash (on_disk r) = or_hash r.
Proof. unfold on_disk, stored_row. repeat case_decide; done. Qed.

Lemma filter_map_keep {A} (f : A -> A) (P : A -> Prop) `{!forall a, Decision (P a)} l : (forall a, P (f a) <-> P a) -> filter P (map f l) = map f (filter P l).
Proof. intros Hf. induction l as [|a l IH]; [done|]. cbn [map]. rewrite !filter_cons, IH. destruct (decide (P (f a))) as [Ha|Ha]; rewrite Hf in Ha; [by rewrite decide_True|by rewrite decide_False]. Qed.

Lemma filter_everything {A} (P : A -> Prop) `{!forall a, Decision (P a)} (l : list A) : (forall a, a ∈ l -> P a) -> filter P l = l.
Proof. induction l as [|a l IH]; [done|]. intros Hl. rewrite filter_cons, decide_True by (apply Hl; left). f_equal. apply IH. intros. apply Hl. by right. Qed.

Lemma disk_block after x before : target = after ++ x :: before ->
  exists diff, fetch_utxos_in_block (bh_hash (cb_header x)) None db = Ok (map (fun r => row_to_pruned (on_disk r)) (rows_by before x), diff).
Proof.
  intros Ht. unfold fetch_utxos_in_block. assert (x ∈ target) as Hx by (rewrite Ht; apply middle_in).
  destruct (header_lookup (later ++ target) x Hok) as (_ & _ & Hh); [apply elem_of_app; by right|]. rewrite Hheaders, Hh. cbn [or_not_found ok_or mbind result_bind].
  pose proof Hdata as Hd. rewrite Forall_forall in Hd. destruct (Hd x Hx) as [data Hdx]. rewrite Hdx. cbn [or_not_found ok_or mbind result_bind]. exists (acc_deleted data). do 2 f_equal.
  rewrite Hutxos, output_rows_filtered.
  - rewrite filter_map_keep by (intros r; by rewrite (proj1 (on_disk_keys r))). rewrite map_map. f_equal. unfold rows_by. rewrite Ht, map_app. cbn [map]. unfold pair_of at 2. apply block_rows_in.
    pose proof (blocks_chain_ok _ target_ok) as Hc. by rewrite Ht, map_app in Hc.
  - intros i j a z Hij Hi Hj. rewrite list_lookup_fmap, fmap_Some in Hi, Hj. destruct Hi as (r1 & Hi & ->), Hj as (r2 & Hj & ->). rewrite !(proj1 (proj2 (on_disk_keys _))).
    exact (rows_increasing _ i j r1 r2 Hij Hi Hj).
Qed.

Lemma disk_kernels hash : fetch_kernels_in_block hash db ≡ₚ map kr_kernel (filter (fun row => kr_header_hash row = hash) base).
Proof.
  unfold fetch_kernels_in_block. apply Permutation_map. rewrite Hkernels. cbn [kernels_db kernel_tables_of]. unfold kernel_rows_of. rewrite merge_sort_Permutation.
  rewrite (table_of_filter kernel_entry base _ (fun row => kr_header_hash row = hash)) by (done || apply (ko_distinct _ _ Hbase)).
  rewrite table_rows; [rewrite map_map; cbn; by rewrite map_id|]. apply (NoDup_map_filter kernel_key), (ko_distinct _ _ Hbase).
Qed.

Lemma rows_whole bs : chain_ok (map pair_of bs) -> forall i r, rows (map pair_of bs) !! i = Some r -> or_mmr_position r = Z.of_nat i /\ is_Some (or_output r).
Proof.
  intros Hc i r Hi. split; [by eapply rows_position|]. destruct (rows_output _ r Hc) as (o & -> & _); [apply list_elem_of_lookup; by eexists|]. by eexists.
Qed.

Lemma hash_fresh x before : blocks_ok (x :: before) -> bh_hash (cb_header x) ∉ map (fun y => bh_hash (cb_header y)) before.
Proof. intros Hxok Hin. pose proof (blocks_chain_ok _ Hxok) as Hc. cbn [map] in Hc. apply (bk_hash _ _ _ (proj1 Hc)). by rewrite map_map. Qed.

Lemma range_snoc (k : nat) : range (Z.of_nat (S k)) = range (Z.of_nat k) ++ [Z.of_nat k].
Proof. unfold range. rewrite !Nat2Z.id, seq_S, map_app. done. Qed.

Lemma sum_blocks before : forall after, target = after ++ before -> exists ks, foldM (sum_block D db) (range (Z.of_nat (length before))) (sums [] []) = Ok (sums (rows (map pair_of before)) ks) /\
  ks ≡ₚ map kr_kernel (filter (fun row => kr_header_hash row ∈ map (fun y => bh_hash (cb_header y)) before) base).
Proof.
  induction before as [|x before IH]; intros after Ht.
  - exists []. split; [done|]. rewrite (filter_none _ base); [done|]. intros r _ []%not_elem_of_nil.
  - destruct (IH (after ++ [x])) as (ks & Hks & Hp); [by rewrite <- app_assoc|]. cbn [length]. rewrite range_snoc, foldM_app, Hks. cbn [mbind result_bind foldM]. unfold sum_block.
    assert (x ∈ target) as Hx by (rewrite Ht; apply middle_in). pose proof (blocks_ok_suffix after (x :: before) ltac:(rewrite <- Ht; exact target_ok)) as Hxok.
    rewrite <- (block_height before x Hxok), (chain_header_of db _ x Hheaders Hok) by (apply elem_of_app; by right). cbn [map_err mbind result_bind]. unfold header_hash. cbn [lh_accumulated_data].
    rewrite (fo_hash _ _ (proj1 Hxok)). destruct (disk_block after x before Ht) as (diff & Hd). rewrite Hd. cbn [map_err mbind result_bind].
    rewrite sum_rows; rewrite <- ?rows_cons.
    + cbn [mbind result_bind]. pose proof (disk_kernels (bh_hash (cb_header x))) as Hk. rewrite sum_kernels.
      * cbn [mbind result_bind]. eexists. split; [done|]. rewrite Hk, Hp, <- map_app. apply Permutation_map.
        etransitivity; [|symmetry; apply (filter_split (fun row => kr_header_hash row ∈ map (fun y => bh_hash (cb_header y)) before))]. rewrite !list_filter_filter.
        pose proof (hash_fresh x before Hxok) as Hn. apply eq_subrelation; [apply _|]. f_equal; apply list_filter_iff; intros row; cbn [map]; rewrite elem_of_cons; [tauto|].
        split; [|tauto]. intros ->. split; [exact Hn|by left].
      * rewrite Hk, Forall_forall. intros k (row & -> & [_ Hrow]%list_elem_of_filter)%elem_of_map. rewrite Forall_forall in Hburns. apply Hburns. by apply (list_elem_of_fmap_2 kr_kernel).
    + apply rows_whole. exact (blocks_chain_ok _ Hxok).
    + destruct (kernels_bound (x :: before) (blocks_chain_ok _ Hxok) ltac:(done)) as [_ Hb]. exact Hb.
Qed.

End Sums.

(** ** Pruning *)

Definition with_utxos (utxos : gmap (bytes * Z) TransactionOutputRowData) (t : TxoTables) : TxoTables :=
  {| utxo_commitment_index := utxo_commitment_index t; txos_hash_to_index_db := txos_hash_to_index_db t; utxos_db := utxos; inputs_db := inputs_db t;
     deleted_txo_mmr_position_to_height_index := deleted_txo_mmr_position_to_height_index t |}.

Definition prune_at (positions : list Z) r : TransactionOutputRowData := if decide (or_mmr_position r ∈ positions) then prune_row r else r.

Lemma prune_at_entry positions r : (output_entry (prune_at positions r)).1 = (output_entry r).1.
Proof. unfold prune_at. by case_decide. Qed.

Lemma prune_table l r : NoDup (map or_mmr_position l) -> r ∈ l ->
  <[(or_header_hash r, or_mmr_position r) := prune_row r]> (table_of output_entry l) = table_of output_entry (map (prune_at [or_mmr_position r]) l).
Proof.
  intros Hnd Hr. assert (NoDup (map (fun r => (output_entry r).1) l)) as Hk by (by apply output_entries_distinct).
  assert (NoDup (map (fun r => (output_entry r).1) (map (prune_at [or_mmr_position r]) l))) as Hk'.
  { rewrite map_map. erewrite map_ext; [exact Hk|]. intros r'. apply prune_at_entry. }
  apply map_eq. intros k. apply option_eq. intros v. rewrite table_lookup_Some by done. split.
  - rewrite lookup_insert_Some. intros [[<- <-]|[Hne (r' & Hr' & [= <- <-])%table_lookup_Some]]; [| |done].
    + exists (prune_row r). split; [|done]. apply elem_of_map. exists r. split; [|done]. unfold prune_at. by rewrite decide_True by (by left).
    + exists r'. split; [|done]. apply elem_of_map. exists r'. split; [|done]. unfold prune_at. rewrite decide_False; [done|]. intros Heq%list_elem_of_singleton.
      apply Hne. assert (r' = r) as ->; [|done]. by apply (NoDup_map_inj or_mmr_position l).
  - intros (r'' & (r' & -> & Hr')%elem_of_map & Heq). apply lookup_insert_Some. unfold prune_at in Heq. case_decide as Hd.
    + apply list_elem_of_singleton in Hd. assert (r' = r) as -> by (by apply (NoDup_map_inj or_mmr_position l)). left. by injection Heq as <- <-.
    + right. injection Heq as <- <-. split; [intros [= _ Hp]; apply Hd; rewrite Hp; by left|]. apply table_lookup_Some; [done|]. by exists r'.
Qed.

(** A position that can be pruned: its block is found, and its row is whole. *)
Definition prunable (index : gmap Z (Z * bytes)) (l : list TransactionOutputRowData) (pos : Z) : Prop :=
  exists r h, r ∈ l /\ or_mmr_position r = pos /\ is_Some (or_output r) /\ 0 <= pos < U32_MAX /\ lmdb_first_after (pos + 1) index = Some (h, or_header_hash r).

Lemma prune_positions index ps : forall l t, NoDup ps -> NoDup (map or_mmr_position l) -> Forall (prunable index l) ps -> utxos_db t = table_of output_entry l ->
  foldM (prune_output_at index) ps t = Ok (with_utxos (table_of output_entry (map (prune_at ps) l)) t).
Proof.
  induction ps as [|pos ps IH]; intros l t Hps Hl Hpr Ht.
  - cbn [foldM]. assert (map (prune_at []) l = l) as ->; [|rewrite <- Ht; by destruct t]. rewrite <- (map_id l) at 2. apply map_ext. intros r. unfold prune_at. rewrite decide_False; [done|]. apply not_elem_of_nil.
  - apply NoDup_cons in Hps as [Hnew Hps]. apply Forall_cons in Hpr as [(r & h & Hr & <- & [o Ho] & Hb & Hi) Hpr]. cbn [foldM].
    assert (prune_output_at index t (or_mmr_position r) = Ok (with_utxos (table_of output_entry (map (prune_at [or_mmr_position r]) l)) t)) as ->.
    { unfold prune_output_at. rewrite arith_ok by lia. cbn [mbind result_bind]. rewrite Hi. cbn [or_not_found ok_or mbind result_bind]. unfold prune_output.
      assert (utxos_db t !! (or_header_hash r, or_mmr_position r) = Some r) as ->. { rewrite Ht. apply table_lookup_Some; [by apply output_entries_distinct|]. by exists r. }
      cbn [or_not_found ok_or mbind result_bind]. rewrite Ho. cbn [ok_or mbind result_bind]. fold (prune_row r). rewrite Ht, (prune_table l r Hl Hr). done. }
    cbn [mbind result_bind]. rewrite (IH (map (prune_at [or_mmr_position r]) l)); [| done | | |done].
    + rewrite map_map. unfold with_utxos. cbn. do 3 f_equal. apply map_ext. intros r'. unfold prune_at. destruct (decide (or_mmr_position r' ∈ [or_mmr_position r])) as [Hd|Hd].
      * cbn [or_mmr_position prune_row]. rewrite (decide_True (P := or_mmr_position r' ∈ or_mmr_position r :: ps)) by (apply list_elem_of_singleton in Hd; rewrite Hd; left). by case_decide.
      * rewrite list_elem_of_singleton in Hd. repeat case_decide; try done; rewrite elem_of_cons in *; tauto.
    + rewrite map_map. erewrite map_ext; [exact Hl|]. intros r'. unfold prune_at. by case_decide.
    + rewrite Forall_forall in Hpr |- *. intros p Hp. destruct (Hpr p Hp) as (r' & h' & Hr' & <- & Ho' & Hb' & Hi'). exists r', h'. split_and!; try done; try lia.
      apply elem_of_map. exists r'. split; [|done]. unfold prune_at. rewrite decide_False; [done|]. rewrite list_elem_of_singleton. intros Heq. apply Hnew. by rewrite <- Heq.
Qed.

(** Every row of the chain is found by its position. *)
Lemma row_located later target r : blocks_ok (later ++ target) -> sizes_ok (later ++ target) -> r ∈ rows (map pair_of target) ->
  exists h, lmdb_first_after (or_mmr_position r + 1) (output_mmr_size_index (header_tables_of (later ++ target))) = Some (h, or_header_hash r).
Proof.
  revert later. induction target as [|x target IH]; intros later Hok Hsz Hr; [by apply not_elem_of_nil in Hr|]. rewrite rows_cons in Hr. apply elem_of_app in Hr as [Hr|Hr].
  - specialize (IH (later ++ [x])). rewrite <- app_assoc in IH. by apply IH.
  - exists (bh_height (cb_header x)). unfold rows_by in Hr. apply elem_of_new_rows in Hr as (i & o & Hi & ->). cbn [or_header_hash or_mmr_position output_row]. apply block_containing_utxo; [done|done|].
    rewrite (output_count x). apply lookup_lt_Some in Hi. lia.
Qed.

(** ** The totals of a chain *)

(** The burn kernels of a body name its burned outputs. *)
Definition burns_matched (b : TxBody) : Prop :=
  map k_burn_commitment (filter (fun k => kernel_is_burned k = true) (kernels b)) ≡ₚ map (fun o => Some (out_commitment o)) (filter (fun o => output_is_burned o = true) (outputs b)).

Lemma omap_filter_burned ks : omap burn_of ks = omap id (map k_burn_commitment (filter (fun k => kernel_is_burned k = true) ks)).
Proof.
  induction ks as [|k ks IH]; [done|]. rewrite filter_cons. unfold burn_of in *. destruct (kernel_is_burned k) eqn:Hk; rewrite ?(decide_True (P := true = true)), ?(decide_False (P := false = true)) by done;
    cbn [map omap list_omap]; rewrite Hk, IH; done.
Qed.

Lemma matched_burns b : burns_matched b -> omap burn_of (kernels b) ≡ₚ burned b /\ Forall burn_given (kernels b).
Proof.
  unfold burns_matched. intros Hm. split.
  - rewrite omap_filter_burned, Hm. unfold burned. set (l := filter _ (outputs b)). clearbody l. induction l as [|o l IH]; [done|]. cbn [map omap list_omap id]. by constructor.
  - apply Forall_forall. intros k Hk Hb. assert (k_burn_commitment k ∈ map (fun o => Some (out_commitment o)) (filter (fun o => output_is_burned o = true) (outputs b))) as Hin.
    { rewrite <- Hm. apply (list_elem_of_fmap_2 k_burn_commitment). by apply list_elem_of_filter. }
    apply elem_of_map in Hin as (o & -> & _). by eexists.
Qed.

Lemma kernels_total (c : list (BlockHeader * TxBody)) : com_sum (map k_excess (map kr_kernel (kernel_rows c))) = excess_sum c.
Proof.
  induction c as [|[hd b] c IH]; [done|]. cbn [kernel_rows excess_sum]. rewrite !map_app, com_sum_app, IH, (map_new_kernel_rows kr_kernel id), map_id by done. done.
Qed.

Lemma burned_total (c : list (BlockHeader * TxBody)) : Forall (fun blk => burns_matched blk.2) c ->
  com_sum (omap burn_of (map kr_kernel (kernel_rows c))) = burned_sum c /\ Forall burn_given (map kr_kernel (kernel_rows c)).
Proof.
  induction c as [|[hd b] c IH]; [done|]. intros [Hb Hc]%Forall_cons. destruct (IH Hc) as [Hs Hg]. destruct (matched_burns b Hb) as [Hp Hgb]. cbn [kernel_rows burned_sum].
  rewrite !map_app, omap_app, com_sum_app, Hs, (map_new_kernel_rows kr_kernel id), map_id by done. split; [by rewrite (com_sum_perm _ _ Hp)|]. by apply Forall_app.
Qed.

Lemma unspent_total (c : list (BlockHeader * TxBody)) : filter (fun r => or_mmr_position r ∉ deleted_of c) (rows c) = unspent_rows c.
Proof.
  unfold unspent_rows. apply filter_iff_in. intros r Hr. rewrite elem_of_deleted_of. split; intros Hn Hx; apply Hn; [by exists r|].
  destruct Hx as (r' & Hr' & Hg & Hp). by rewrite (rows_position_inj c r r').
Qed.

(** ** The final step *)

Section Finalize.
Context (fuel : nat) (n : Z) (db : Database) (later : list ChainBlock) (to : ChainBlock) (rest : list ChainBlock) (base : list TransactionKernelRowData) (faucet : Z) (constants : ConsensusConstants).
Let target := to :: rest.
Let D := deleted_of (map pair_of target).
Hypothesis Hheaders : header_tables (lmdb db) = header_tables_of (later ++ target).
Hypothesis Hok : blocks_ok (later ++ target).
Hypothesis Hsizes : sizes_ok (later ++ target).
Hypothesis Hutxos : utxos_db (txo_tables (lmdb db)) = table_of output_entry (map (on_disk D n) (rows (map pair_of target))).
Hypothesis Hkernels : kernel_tables (lmdb db) = kernel_tables_of base.
Hypothesis Hbase : kernels_of base target.
Hypothesis Hdata : Forall (fun y => is_Some (block_accumulated_data_db (lmdb db) !! bh_height (cb_header y))) target.
Hypothesis Hmatched : Forall (fun y => burns_matched (body_of y)) target.
Hypothesis Hschedule : schedule_wf (emission manager).
Hypothesis Hfuel : (length rest <= fuel)%nat.
Hypothesis Hlength : Z.of_nat (length rest) <= U64_MAX.
Hypothesis Hconstants : forall E, @consensus_constants E manager (bh_height (cb_header to)) = Ok constants.
Hypothesis Hfaucet : faucet_value constants = faucet /\ 0 <= faucet /\ supply_of manager faucet target <= U64_MAX.
Hypothesis Hbalanced : balanced (supply_of manager faucet target) (offset_of target) (map pair_of target).

Definition spent_positions : list Z := map or_mmr_position (filter (fun r => or_mmr_position r ∈ D /\ or_mmr_position r < n) (rows (map pair_of target))).

Lemma pruned_disk : map (prune_at spent_positions) (map (on_disk D n) (rows (map pair_of target))) = map (stored_row D) (rows (map pair_of target)).
Proof.
  rewrite map_map. apply map_ext_in. intros r Hr%list_elem_of_In. unfold prune_at. rewrite (proj1 (proj2 (on_disk_keys D n r))). unfold on_disk, stored_row. unfold spent_positions.
  destruct (decide (or_mmr_position r ∈ map or_mmr_position _)) as [(r' & Heq & [[Hd Hlt] _]%list_elem_of_filter)%elem_of_map|Hn].
  - rewrite <- Heq in Hd, Hlt. rewrite (decide_True (P := or_mmr_position r < n)), (decide_True (P := or_mmr_position r ∈ D)) by done. done.
  - destruct (decide (or_mmr_position r < n)) as [Hlt|]; [|done]. rewrite decide_False; [done|]. intros Hd. apply Hn. apply (list_elem_of_fmap_2 or_mmr_position). by apply list_elem_of_filter.
Qed.

Lemma spent_prunable : NoDup spent_positions /\ NoDup (map or_mmr_position (map (on_disk D n) (rows (map pair_of target)))) /\
  Forall (prunable (output_mmr_size_index (header_tables (lmdb db))) (map (on_disk D n) (rows (map pair_of target)))) spent_positions.
Proof.
  pose proof (rows_positions_distinct (map pair_of target)) as Hnd. pose proof (blocks_chain_ok _ (blocks_ok_suffix later _ Hok)) as Hc. split_and!.
  - unfold spent_positions. by apply NoDup_map_filter.
  - rewrite map_map. erewrite map_ext; [exact Hnd|]. intros r. by rewrite (proj1 (proj2 (on_disk_keys D n r))).
  - apply Forall_forall. intros pos (r & -> & [[Hd Hlt] Hr]%list_elem_of_filter)%elem_of_map. destruct (row_located later target r Hok Hsizes Hr) as [h Hh].
    exists r, h. destruct (rows_output _ r Hc Hr) as (o & Ho & _). pose proof (rows_position_bound _ _ Hr) as Hb. destruct (kernels_bound target Hc ltac:(done)) as [_ Hm]. split_and!; try done; try lia.
    + apply elem_of_map. exists r. split; [|done]. unfold on_disk. by rewrite decide_True.
    + by rewrite Hheaders.
Qed.

Lemma commitment_sums : exists db', calculate_commitment_sums manager (header_of to) D db = (db', Ok (unspent_sum (map pair_of target), excess_sum (map pair_of target), burned_sum (map pair_of target))) /\
  db' = with_lmdb (with_txos (with_utxos (table_of output_entry (map (stored_row D) (rows (map pair_of target)))) (txo_tables (lmdb db))) (lmdb db)) db.
Proof.
  pose proof (blocks_ok_suffix later _ Hok) as Htok. assert (Forall (fun blk => burns_matched blk.2) (map pair_of target)) as Hm.
  { apply Forall_forall. intros blk (y & -> & Hy)%elem_of_map. pose proof Hmatched as Hm. rewrite Forall_forall in Hm. exact (Hm y Hy). }
  destruct (burned_total _ Hm) as [Hbt Hbg]. rewrite <- (ko_kernels _ _ Hbase) in Hbt, Hbg. pose proof (kernels_total (map pair_of target)) as Hkt. rewrite <- (ko_kernels _ _ Hbase) in Hkt.
  destruct (sum_blocks D n db later target base Hheaders Hok Hutxos Hkernels Hbase Hdata Hbg target []) as (ks & Hks & Hp); [done|].
  rewrite (filter_everything _ base) in Hp. 2:{ intros row Hrow. pose proof (ko_headers _ _ Hbase) as Hh. rewrite Forall_forall in Hh. by apply Hh. }
  assert (calculate_commitment_sums manager (header_of to) D db = (_ ← (if bool_decide (spent_positions = []) then mret tt else hs_run (write manager [PruneOutputsAtMmrPositions spent_positions]));
    mret (unspent_sum (map pair_of target), excess_sum (map pair_of target), burned_sum (map pair_of target)) : hsM _) db) as ->.
  { unfold calculate_commitment_sums. unfold mbind at 1, hsM_bind at 1. change (lh_header (header_of to)) with (cb_header to). rewrite (block_height rest to Htok).
    replace (Z.of_nat (length rest) + 1) with (Z.of_nat (length target)) by (unfold target; cbn [length]; lia). unfold sums in Hks at 1. cbn [filter list_filter map omap list_omap length] in Hks.
    change (com_sum []) with com_default in Hks. change (Z.of_nat 0) with 0 in Hks. rewrite Hks. cbn [cs_utxo_sum cs_kernel_sum cs_burned_sum cs_prune_positions sums]. fold spent_positions.
    rewrite (com_sum_perm _ _ (Permutation_map k_excess Hp)), Hkt, (com_sum_perm _ _ (omap_Permutation burn_of _ _ Hp)), Hbt. unfold D at 1. rewrite unspent_total. done. }
  destruct spent_prunable as (H1 & H2 & H3). pose proof (prune_positions _ _ _ _ H1 H2 H3 Hutxos) as Hpr. rewrite pruned_disk in Hpr. eexists. split; [|done].
  revert Hpr. generalize (table_of output_entry (map (stored_row D) (rows (map pair_of target)))) as utxos. intros utxos Hpr. unfold mbind, hsM_bind. case_bool_decide as Hnil.
  - rewrite Hnil in Hpr. cbn [foldM] in Hpr. injection Hpr as Hpr. rewrite <- Hpr. unfold mret, hsM_ret. f_equal. by destruct db as [[]].
  - unfold hs_run, write, db_write. cbn [foldM apply_operation]. unfold on_lmdb, prune_outputs_at_positions. rewrite Hpr. done.
Qed.

Lemma chain_validates db1 : header_tables (lmdb db1) = header_tables_of (later ++ target) ->
  validate_chain_balance manager fuel db1 (bh_height (cb_header to)) (unspent_sum (map pair_of target)) (excess_sum (map pair_of target)) (burned_sum (map pair_of target)) = Some (Ok tt).
Proof.
  intros Hh. pose proof (blocks_ok_suffix later _ Hok) as Htok. pose proof Hbalanced as Hb. unfold balanced, offset_of in Hb. cbn [target] in Hb. destruct Hfaucet as (Hfv & Hf0 & Hsup).
  unfold supply_of in Hb, Hsup. unfold target in Hb, Hsup. cbn [length] in Hb, Hsup. rewrite Nat.sub_succ, Nat.sub_0_r in Hb, Hsup.
  unfold validate_chain_balance, get_emission_commitment_at. destruct (reward_of_height manager fuel (length rest) Hschedule ltac:(lia) Hlength Hfuel) as [_ He]. rewrite (block_height rest to Htok), He. cbn [mbind option_bind result_bind].
  rewrite <- (block_height rest to Htok), Hconstants. cbn [mbind result_bind]. rewrite Hfv. unfold mt_add. pose proof (supply_at_mono (emission manager) 0 (length rest) Hschedule ltac:(lia)) as Hmono. destruct Hschedule as [Hinit _]. cbn [supply_at] in Hmono. unfold is_u64 in Hinit. rewrite arith_ok by lia. cbn [mbind result_bind].
  unfold fetch_total_offset_commitment. rewrite (chain_header_of db1 _ to Hh Hok) by (apply elem_of_app; right; left). cbn [map_err mbind result_bind lh_accumulated_data]. by rewrite bool_decide_true.
Qed.

(** The metadata when the chain is synchronised. *)
Definition final_metadata (metadata : DbMetadata) : DbMetadata :=
  {| md_tip := tip_of target; md_accumulated_difficulty := total_accumulated_difficulty (cb_accumulated_data to); md_timestamp := bh_timestamp (cb_header to);
     md_pruning_horizon := md_pruning_horizon metadata; md_pruned_height := bh_height (cb_header to);
     md_horizon_data := Some {| hz_kernel_sum := excess_sum (map pair_of target); hz_utxo_sum := unspent_sum (map pair_of target) |} |}.

Lemma finalized : exists db', finalize_horizon_sync manager fuel (bh_height (cb_header to)) D db = (db', Ok tt) /\ metadata db' = final_metadata (metadata db) /\
  lmdb db' = with_txos (with_utxos (table_of output_entry (map (stored_row D) (rows (map pair_of target)))) (txo_tables (lmdb db))) (lmdb db).
Proof.
  assert (to ∈ later ++ target) as Hin by (apply elem_of_app; right; left). destruct (header_lookup _ to Hok Hin) as (_ & _ & Hhash). pose proof (fo_hash _ _ (proj1 (blocks_ok_suffix later _ Hok))) as Hacc.
  destruct commitment_sums as (db1 & Hs & Hdb1). unfold finalize_horizon_sync. unfold mbind at 1, hsM_bind at 1, hs_read at 1. rewrite (chain_header_of db _ to Hheaders Hok Hin). cbn [map_err]. fold (header_of to).
  unfold mbind at 1, hsM_bind at 1. rewrite Hs. unfold mbind at 1, hsM_bind at 1. change (lh_header (header_of to)) with (cb_header to).
  assert (header_tables (lmdb db1) = header_tables_of (later ++ target)) as Hh1 by (by rewrite Hdb1). rewrite (chain_validates db1 Hh1). cbn [map_err].
  unfold mbind at 1, hsM_bind at 1, hs_read at 1. cbn [map_err]. unfold hs_run, write, db_write. cbn [foldM apply_operation]. unfold set_best_block. rewrite bool_decide_true by done. cbn [negb]. rewrite andb_false_r, Hh1.
  change (header_hash (header_of to)) with (acc_hash (cb_accumulated_data to)). rewrite Hacc, Hhash. cbn [mbind result_bind map_err]. eexists. split; [done|]. split; [|by rewrite Hdb1].
  unfold final_metadata, tip_of, target. unfold cb_hash. rewrite Hacc. rewrite Hdb1. done.
Qed.

End Finalize.

End HorizonFinal.
