(* ===== verification/HorizonLive.v ===== *)
(** * The horizon synchronisation completes

    A node that has the headers of a chain and the body of its first block synchronises the state at one of its headers with a peer that has the chain:
    [synchronize] of [HorizonSync] with what [SyncService] answers. Every block of the chain passed the internal validator and its header commits to the chain.
    What is then stored, and what is left of the outputs that were spent. *)

From S2P Require Import Prelude ScriptTypes Opcodes ScriptStack TariScript Amounts Emission Difficulty ConsensusConstants ConsensusManager MmrCommon Mmr MutableMmr BalancedMerkle.
From S2P Require Import Covenants MoneroMerkle TxComponents BlockHeader CovenantFilters CovenantSpec AggregatedBody BodyValidator BodyBalance OutputHash BodyValidatorSpec.
From S2P Require Import ChainStorage ChainDatabase Reorg HeaderValidator FullValidator ChainTables ChainStorageSpec ChainRewind BlockReading ReorgSpec ReorgAtomic ChainStored FullValidatorSpec BlockSyncSpec.
From S2P Require Import ChunkIter HorizonSync SyncService ChainBalance SyncServed HorizonKernels HorizonOutputs HorizonFinal.

Local Open Scope Z_scope.

(** A batch of range proofs is valid when each of them is, against its statement. *)
Class BatchLaws {C : ScriptCrypto} (X : TxCrypto C) : Prop :=
  batch_each ps ss : verify_batch ps ss = true <-> Forall2 (fun p s => verify_batch [p] [s] = true) ps ss.

Section RangeProofs.
Context {C : ScriptCrypto} {B : BorshPrims C} {X : TxCrypto C} {BA : BatchLaws X}.

Implicit Types (o : TransactionOutput) (os : list TransactionOutput).

Definition proof_valid o : Prop := verify_range_proof o = Ok tt.

Lemma bulletproofs_valid os : Forall (fun o => feat_range_proof_type (out_features o) = BulletProofPlus) os ->
  (exists proofs, mapM output_proof_result os = Ok proofs /\ verify_batch proofs (map (fun o => (out_commitment o, out_minimum_value_promise o)) os) = true) <-> Forall proof_valid os.
Proof.
  induction os as [|o os IH]; intros Ht.
  - split; [done|]. intros _. exists []. split; [done|]. apply batch_each. constructor.
  - apply Forall_cons in Ht as [Ho Ht]. rewrite Forall_cons, <- (IH Ht). unfold proof_valid, verify_range_proof. rewrite Ho. cbn [mapM map]. split.
    + intros (proofs & Hp & Hb). apply bind_Ok_iff in Hp as (p & Hp & (ps & Hps & [= <-])%bind_Ok_iff). apply batch_each in Hb. apply Forall2_cons in Hb as [Hb Hbs]. rewrite Hp. split; [cbn; unfold MicroTari in *; by rewrite Hb|]. exists ps. split; [done|]. by apply batch_each.
    + intros [Hv (ps & Hps & Hbs)]. apply bind_Ok_iff in Hv as (p & Hp & Hv). destruct (output_proof_result o) as [p'| |] eqn:Hpo; [|done..]. injection Hp as ->. rewrite Hps. exists (p :: ps). split; [done|].
      apply batch_each. constructor; [unfold MicroTari in *; by destruct (verify_batch [p] _)|]. by apply batch_each.
Qed.

Lemma revealed_valid os : Forall (fun o => feat_range_proof_type (out_features o) = RevealedValue) os ->
  foldM (fun _ o => revealed_value_range_proof_check o) os tt = Ok tt <-> Forall proof_valid os.
Proof.
  induction os as [|o os IH]; intros Ht; [done|]. apply Forall_cons in Ht as [Ho Ht]. rewrite Forall_cons, <- (IH Ht). unfold proof_valid, verify_range_proof. rewrite Ho. cbn [foldM].
  destruct (revealed_value_range_proof_check o) as [[]|e|]; cbn; naive_solver.
Qed.

(** The batch of the outputs is valid exactly when each of them is. *)
Lemma batch_valid os : batch_verify_range_proofs os = Ok tt <-> Forall proof_valid os.
Proof.
  unfold batch_verify_range_proofs. set (bs := filter (fun o => _ = BulletProofPlus) os). set (rs := filter (fun o => _ = RevealedValue) os).
  assert (Forall (fun o => feat_range_proof_type (out_features o) = BulletProofPlus) bs) as Hbs by (apply Forall_forall; by intros o [? _]%list_elem_of_filter).
  assert (Forall (fun o => feat_range_proof_type (out_features o) = RevealedValue) rs) as Hrs by (apply Forall_forall; by intros o [? _]%list_elem_of_filter).
  assert (Forall proof_valid os <-> Forall proof_valid bs /\ Forall proof_valid rs) as ->.
  { rewrite !Forall_forall. unfold bs, rs. setoid_rewrite list_elem_of_filter. split; [naive_solver|]. intros [H1 H2] o Ho. destruct (feat_range_proof_type (out_features o)) eqn:Ht; [by apply H1|by apply H2]. }
  rewrite <- (revealed_valid rs Hrs), <- (bulletproofs_valid bs Hbs). clearbody bs rs. destruct (decide (bs = [])) as [->|Hne].
  - cbn [mbind result_bind]. split; [|tauto]. intros H. split; [|done]. exists []. split; [done|]. apply batch_each. constructor.
  - destruct (mapM output_proof_result bs) as [proofs|e|]; cbn [mbind result_bind]; [|naive_solver..].
    destruct (verify_batch proofs _) eqn:Hv; cbn [mbind result_bind]; [split; [intros H; split; [by exists proofs|done]|by intros [_ ?]]|].
    split; [intros H; exfalso; destruct (mapM _ bs) as [l|e|]; done|intros [(ps & [= <-] & Hp) _]; congruence].
Qed.

Lemma take_chunks_concat n k os : (length os <= n * k)%nat -> concat (take_chunks n k os) = os.
Proof.
  revert os. induction n as [|n IH]; intros os Hl; cbn [take_chunks]; [destruct os; [done|cbn in Hl; lia]|]. destruct os as [|o os]; [done|]. cbn [concat]. rewrite IH; [apply take_drop|]. rewrite length_drop. cbn [length] in *. lia.
Qed.

Lemma chunks_valid concurrency os : concurrency <> O -> validate_rangeproofs concurrency os = Ok tt <-> Forall proof_valid os.
Proof.
  intros Hc. unfold validate_rangeproofs. destruct concurrency as [|c]; [done|]. set (k := if (0 <? _)%nat then _ else _).
  assert (length os <= S c * k)%nat as Hk. { unfold k. pose proof (Nat.div_mod_eq (length os) (S c)) as Hd. pose proof (Nat.mod_upper_bound (length os) (S c) ltac:(done)). destruct (Nat.ltb_spec 0 (length os mod S c)); nia. }
  rewrite <- (take_chunks_concat (S c) k os Hk) at 2. generalize (take_chunks (S c) k os) as chunks. induction chunks as [|chunk chunks IH]; [done|]. cbn [foldM concat]. rewrite Forall_app, <- batch_valid, <- IH.
  destruct (batch_verify_range_proofs chunk) as [[]| |]; cbn; naive_solver.
Qed.

(** The proofs that are verified in parallel are all proofs. With any number of tasks, [validate_rangeproofs] accepts the outputs of a block exactly when the range proof of each of them is
    valid, whatever the chunks are. *)
Theorem parallel_range_proofs concurrency os : concurrency <> O -> validate_rangeproofs concurrency os = Ok tt <-> Forall (fun o => verify_range_proof o = Ok tt) os.
Proof. apply chunks_valid. Qed.

End RangeProofs.

Section Validated.
Context {C : ScriptCrypto} {CL : ScriptCryptoLaws C} {B : BorshPrims C} {BL : BorshLaws B} {X : TxCrypto C} {L : TxLaws X} {XL : EncodingLaws X} {ML : MoneroLib} {BH : BlockHashers} {BD : BitmapDecoder} {BR : BitmapCodec} {BA : BatchLaws X}.
Context (manager : ConsensusManager) (fuel concurrency : nat).

Implicit Types (db : Database) (bs before todo : list ChainBlock) (x y g : ChainBlock).

(** ** What a validated block promises *)

Lemma hash_length o : encodable o -> length (hash_of o) = 32%nat /\ length (witness_hash o) = 32%nat.
Proof.
  intros He. split; [|apply blake256_length]. assert (@output_hash _ _ _ ChainStorageError o = Ok (hash_of o)) as Hh by (by apply hash_of_Ok). unfold output_hash, hash_output in Hh.
  apply bind_Ok_iff in Hh as (b & _ & Hh). injection Hh as <-. apply blake256_length.
Qed.

Lemma coinbase_outputs_in m l us : coinbase_outputs m l = Ok us -> us <> [] -> l <> [].
Proof. destruct l; [by intros [= <-]|done]. Qed.

(** A block that passed: it has outputs and kernels, the signatures and the proofs are valid, the scripts are short enough, and what it burns is named. *)
Record block_passed x : Prop := {
  bp_outputs : outputs (body_of x) <> [];
  bp_kernels : kernels (body_of x) <> [] /\ Forall (fun k => verify_signature k = Ok tt) (kernels (body_of x));
  bp_scripts : exists constants, @consensus_constants ValidationError manager (bh_height (cb_header x)) = Ok constants /\
    Forall (fun o => check_tari_script_byte_size (out_script o) (max_script_byte_size constants) = Ok tt) (outputs (body_of x));
  bp_proofs : Forall proof_valid (outputs (body_of x));
  bp_burns : burns_matched (body_of x);
}.

Lemma validated_passed x : validate_block fuel {| bypass_range_proof_verification := false; iv_manager := manager |} (full_block (cb_block x)) = Some (Ok tt) -> block_passed x.
Proof.
  intros (constants & emission & total & Hc & _ & _ & Hcb & Hiv)%validate_block_Ok. cbn [iv_manager full_block fb_height fb_body] in *. fold (cb_header x) in *.
  pose proof (burned_outputs_matched _ _ _ _ _ _ _ Hiv) as Hburn. apply internal_validate_iff in Hiv as [constants' H].
  pose proof (iv_constants _ _ _ _ _ _ _ _ H) as Hc'. cbn [iv_manager] in Hc'. rewrite Hc in Hc'. injection Hc' as <-. unfold check_coinbase_output in Hcb. apply bind_Ok_iff in Hcb as (us & Hus & Hcb).
  destruct (1 <? length us)%nat; [done|]. destruct (Nat.eqb_spec (length us) 0) as [|Hne]; [done|]. destruct (negb _) eqn:Hk; [done|]. split.
  - apply (coinbase_outputs_in _ _ _ Hus). by intros ->.
  - split.
    + unfold body_of. intros Hnil. rewrite Hnil in Hk. done.
    + pose proof (iv_kernel_signatures _ _ _ _ _ _ _ _ H) as Hs. unfold verify_kernel_signatures in Hs. apply for_each_Ok in Hs. eapply Forall_impl; [exact Hs|]. intros k Hv. cbn beta in Hv. destruct (verify_signature k) as [[]| |]; done.
  - exists constants. split; [exact Hc|]. pose proof (iv_script_size _ _ _ _ _ _ _ _ H) as Hs. by apply for_each_Ok in Hs.
  - apply batch_valid. pose proof (iv_range_proofs _ _ _ _ _ _ _ _ H eq_refl) as Hr. unfold validate_range_proofs in Hr. unfold body_of. by destruct (batch_verify_range_proofs _) as [[]| |].
  - exact Hburn.
Qed.

Lemma constants_any x constants : @consensus_constants ValidationError manager (bh_height (cb_header x)) = Ok constants -> forall E, @consensus_constants E manager (bh_height (cb_header x)) = Ok constants.
Proof. unfold consensus_constants. intros H E. destruct (head _) as [first|]; [|done]. by injection H as <-. Qed.

(** The headers commit to the chain, and no set of deletions is too long to send. *)
Fixpoint rooted before todo : Prop :=
  match todo with
  | [] => True
  | x :: todo => commits (cb_header x) (map pair_of (x :: before)) /\ Z.of_nat (length (serialize_set (diff_of before x))) <= MAX_DIFF_BITMAP_BYTE_LEN /\ rooted (x :: before) todo
  end.

Lemma passed_ready D x before : concurrency <> O -> block_passed x -> blocks_ok (x :: before) -> commits (cb_header x) (map pair_of (x :: before)) ->
  Z.of_nat (length (serialize_set (diff_of before x))) <= MAX_DIFF_BITMAP_BYTE_LEN -> block_ready manager concurrency D x before.
Proof.
  intros Hconc [Ho _ (constants & Hc & Hs) Hp _] Hok Hcom Hd. pose proof (blocks_chain_ok _ Hok) as Hch. cbn [map] in Hch. pose proof (bk_encodable _ _ _ (proj1 Hch)) as He. split; [done|done| | |done].
  - exists constants. split; [by apply constants_any|]. rewrite Forall_forall in Hs, He |- *. intros o Hin. destruct (hash_length o (He o Hin)). split_and!; [by apply He|by apply Hs|done|done].
  - apply chunks_valid; [done|]. rewrite Forall_forall in Hp |- *. intros o (r & Hr & Hro)%list_elem_of_omap. unfold rows_by in Hr. apply elem_of_new_rows in Hr as (i & o' & Hi & ->). case_decide; [done|].
    injection Hro as ->. apply Hp. apply list_elem_of_lookup. by eexists.
Qed.

Lemma all_passed D todo : concurrency <> O -> forall before, before <> [] -> blocks_ok (rev todo ++ before) -> validated manager false fuel (rev todo ++ before) -> rooted before todo ->
  all_ready manager concurrency D before todo /\ committed before todo /\ Forall (fun y => block_passed y) todo.
Proof.
  intros Hconc. induction todo as [|x todo IH]; intros before Hne Hok Hv Hr; [done|]. destruct Hr as (Hcom & Hd & Hr). cbn [rev] in Hok, Hv. rewrite <- app_assoc in Hok, Hv. cbn [app] in Hok, Hv.
  destruct (IH (x :: before) ltac:(done) Hok Hv Hr) as (H1 & H2 & H3). assert (validated manager false fuel (x :: before)) as Hvx.
  { clear -Hv. induction (rev todo) as [|y l IHl]; [done|]. apply IHl. cbn [app] in Hv. destruct (l ++ x :: before) as [|z zs] eqn:Hz; [by destruct l|]. by destruct Hv as (_ & _ & ?). }
  destruct before as [|p before]; [done|]. destruct Hvx as (Hvb & _). pose proof (validated_passed x Hvb) as Hp. pose proof (blocks_ok_suffix (rev todo) _ Hok) as Hxok.
  split_and!; [split; [by apply passed_ready|done]|split; [|done]|by constructor]. split; [done|]. apply (bp_kernels _ Hp).
Qed.

End Validated.

Section HorizonLive.
Context {C : ScriptCrypto} {CL : ScriptCryptoLaws C} {B : BorshPrims C} {BL : BorshLaws B} {X : TxCrypto C} {L : TxLaws X} {XL : EncodingLaws X} {ML : MoneroLib} {BH : BlockHashers} {BD : BitmapDecoder} {BR : BitmapCodec} {BA : BatchLaws X}.
Context (manager : ConsensusManager) (fuel concurrency : nat).

Implicit Types (db : Database) (bs before todo later : list ChainBlock) (x y g to : ChainBlock).

(** ** The chain that is synchronised *)

(** [todo]: the blocks above the first block [g] up to the horizon, the oldest first. *)
Definition at_horizon g todo : list ChainBlock := rev todo ++ [g].

Definition spent_at g todo : gset Z := deleted_of (map pair_of (at_horizon g todo)).

Record horizon_chain (faucet : Z) g todo to : Prop := {
  hc_last : last todo = Some to;
  hc_validated : validated manager false fuel (at_horizon g todo);
  hc_rooted : rooted [g] todo;
  hc_balanced : balanced (supply_of manager faucet [g]) (offset_of [g]) (map pair_of [g]);
  hc_burns : burns_matched (body_of g);
  hc_faucet : exists constants, @consensus_constants ValidationError manager (bh_height (cb_header to)) = Ok constants /\ faucet_value constants = faucet;
  hc_schedule : schedule_wf (emission manager);
  hc_supply : 0 <= faucet /\ supply_of manager faucet (at_horizon g todo) <= U64_MAX;
  hc_fuel : (length todo <= fuel)%nat;
  (* no unspent output has the commitment of an output of the first block *)
  hc_fresh : Forall (fun r => row_commitment r ∉ map row_commitment (unspent_rows (map pair_of [g]))) (kept_rows (spent_at g todo) (rows_above [g] todo));
}.

(** The node has the headers of a chain and the body of its first block. *)
Record headers_only all g db : Prop := {
  ho_ahead : ahead all [g] db;
  ho_ok : blocks_ok all;
  ho_sizes : sizes_ok all;
  ho_length : Z.of_nat (length all) <= U64_MAX;
  ho_pruned : 0 <= md_pruned_height (metadata db);
}.

(** The state at the horizon. *)
Record horizon_state g todo to db db' : Prop := {
  hz_tip : md_tip (metadata db') = tip_of (at_horizon g todo);
  hz_pruned : md_pruned_height (metadata db') = bh_height (cb_header to);
  hz_data : md_horizon_data (metadata db') = Some {| hz_kernel_sum := excess_sum (map pair_of (at_horizon g todo)); hz_utxo_sum := unspent_sum (map pair_of (at_horizon g todo)) |};
  hz_headers : header_tables (lmdb db') = header_tables (lmdb db);
  hz_kernels : exists base, kernel_tables (lmdb db') = kernel_tables_of base /\ map kr_kernel base = map kr_kernel (kernel_rows (map pair_of (at_horizon g todo)));
  hz_outputs : utxos_db (txo_tables (lmdb db')) = table_of output_entry (map (stored_row (spent_at g todo)) (rows (map pair_of (at_horizon g todo))));
  hz_hashes : txos_hash_to_index_db (txo_tables (lmdb db')) = table_of hash_entry (rows (map pair_of (at_horizon g todo)));
  hz_deleted : deleted_bitmap (lmdb db') = spent_at g todo;
  hz_index : utxo_commitment_index (txo_tables (lmdb db')) = table_of commitment_entry (unspent_rows (map pair_of [g]) ++ kept_rows (spent_at g todo) (rows_above [g] todo));
}.

(** ** What is on the disk *)

Lemma rows_on_disk D local todo : rows (map pair_of local) ++ map (stored_row D) (rows_above local todo) =
  map (on_disk D (Z.of_nat (length (rows (map pair_of local))))) (rows (map pair_of (rev todo ++ local))).
Proof.
  pose proof (rows_above_all todo local) as Heq. pose proof (rows_position (map pair_of (rev todo ++ local))) as Hpos. rewrite Heq in Hpos |- *. rewrite map_app. f_equal.
  - rewrite <- (map_id (rows _)) at 1. apply map_ext_in. intros r Hr%list_elem_of_In. pose proof (rows_position_bound _ _ Hr). unfold on_disk. by rewrite decide_True by lia.
  - apply map_ext_in. intros r (i & Hi)%list_elem_of_In%list_elem_of_lookup. specialize (Hpos (length (rows (map pair_of local)) + i)%nat r). rewrite lookup_app_r, Nat.add_comm, Nat.add_sub in Hpos by lia.
    specialize (Hpos Hi). unfold on_disk. by rewrite decide_False by lia.
Qed.

Lemma hash_entries_stored D l : map hash_entry (map (stored_row D) l) = map hash_entry l.
Proof. rewrite map_map. apply map_ext. intros r. unfold stored_row. by case_decide. Qed.

Lemma keys_are_free faucet g todo to : horizon_chain faucet g todo to -> blocks_ok (at_horizon g todo) -> keys_free (spent_at g todo) [g] todo.
Proof.
  intros Hc Hok. pose proof (blocks_chain_ok _ Hok) as Hch. pose proof (rows_above_all todo [g]) as Heq. fold (at_horizon g todo) in Heq. unfold keys_free, output_keys_distinct. rewrite <- Heq.
  split_and!; [|by apply rows_hashes|apply rows_positions_distinct]. apply NoDup_map_app. pose proof (hc_fresh _ _ _ _ Hc) as Hfresh. rewrite Forall_forall in Hfresh. split_and!.
  - apply unspent_commitments_distinct. exact (blocks_chain_ok _ (blocks_ok_suffix (rev todo) [g] Hok)).
  - intros r Hr Hin. by apply (Hfresh r Hr).
  - assert (unspent_rows (map pair_of (at_horizon g todo)) = filter (fun r => or_mmr_position r ∉ spent_at g todo) (rows (map pair_of [g])) ++ kept_rows (spent_at g todo) (rows_above [g] todo)) as Hu.
    { rewrite <- unspent_total, Heq, filter_app. done. }
    pose proof (unspent_commitments_distinct _ Hch) as Hnd. rewrite Hu in Hnd. by apply NoDup_map_app in Hnd as (_ & _ & ?).
Qed.

(** ** The stages *)

Lemma bh_hash_length header : length (bh_hash header) = 32%nat.
Proof. apply blake256_length. Qed.

(** The blocks above the first one are above height 0. *)
Lemma block_in_todo g todo y : blocks_ok (rev todo ++ [g]) -> y ∈ todo -> 0 < bh_height (cb_header y).
Proof.
  intros Hok Hy. apply list_elem_of_split in Hy as (l1 & l2 & ->). rewrite rev_app_distr in Hok. cbn [rev] in Hok. rewrite <- !app_assoc in Hok. cbn [app] in Hok.
  rewrite (block_height _ y (blocks_ok_suffix _ _ Hok)), length_app. cbn [length]. lia.
Qed.

Lemma start_state all g db : ahead all [g] db -> blocks_ok [g] -> kernels_synced db (kernel_rows (map pair_of [g])) [g] /\ outputs_local db [g].
Proof.
  intros Ha Hg. pose proof (ah_tables _ _ _ Ha) as Hrep. pose proof (blocks_chain_ok _ Hg) as Hc. pose proof (accumulated_in (lmdb db) [] g [] Hrep Hc) as Hdata. split.
  - split; [apply Hrep|by apply kernels_of_base|]. eexists. split; [exact Hdata|done].
  - split; [apply Hrep|apply Hrep|eexists; split; [exact Hdata|done]|constructor; [by eexists|constructor]].
Qed.

(** The database when the kernels and the outputs are there. *)
Record gathered_state later g todo db db2 : Prop := {
  gs_headers : header_tables (lmdb db2) = header_tables_of (later ++ at_horizon g todo);
  gs_metadata : metadata db2 = metadata db;
  gs_kernels : exists base, kernel_tables (lmdb db2) = kernel_tables_of base /\ kernels_of base (at_horizon g todo);
  gs_outputs : outputs_synced (spent_at g todo) [g] db2 (rows_above [g] todo) (at_horizon g todo);
}.

Section Stages.
Context (faucet : Z) (server db : Database) (others later : list ChainBlock) (g to : ChainBlock) (todo : list ChainBlock).
Hypothesis Hconcurrency : concurrency <> O.
Hypothesis Hchain : horizon_chain faucet g todo to.
Hypothesis Hserver : serves server (others ++ at_horizon g todo).
Hypothesis Hclient : headers_only (later ++ at_horizon g todo) g db.

Let peer := serving_peer server (Z.of_nat (length (kernel_rows (map pair_of [g])))) (Z.of_nat (length (rows (map pair_of [g])))) (cb_header to).

Lemma target_blocks : blocks_ok (at_horizon g todo).
Proof. exact (blocks_ok_suffix later _ (ho_ok _ _ _ Hclient)). Qed.

Lemma todo_passed : all_ready manager concurrency (spent_at g todo) [g] todo /\ committed [g] todo /\ Forall (fun y => block_passed manager y) todo.
Proof. apply (all_passed manager fuel); [done|done|exact target_blocks|apply Hchain|apply Hchain]. Qed.

(** What the peer answers. *)
Lemma peer_answers : ss_kernels peer = Ok (timed (map Decoded (concat (map (fun y => kernels (body_of y)) todo)))) /\ ss_outputs peer = Ok (timed (all_items (spent_at g todo) [g] todo)).
Proof.
  pose proof (hc_last _ _ _ _ Hchain) as Hlast. destruct todo_passed as (_ & _ & Hp). pose proof Hserver as Hs. unfold spent_at, at_horizon in *. destruct todo as [|x todo']; [done|].
  assert (Forall (fun y => kernels (body_of y) <> []) (x :: todo')) as Hk by (eapply Forall_impl; [exact Hp|]; intros y Hy; apply (bp_kernels _ _ Hy)).
  apply Forall_cons in Hp as [Hx _]. unfold peer, serving_peer. cbn [ss_kernels ss_outputs].
  rewrite (served_kernels server others todo' x to g [] Hs Hlast (bh_hash_length _) Hk), (served_outputs server others todo' x to g [] Hs Hlast (bh_hash_length _) (bp_outputs _ _ Hx)). done.
Qed.

Lemma begin_sync_Ok : exists db2, begin_sync manager concurrency (bh_height (cb_header to)) peer (cb_header to) db = (db2, Ok (spent_at g todo)) /\ gathered_state later g todo db db2.
Proof.
  pose proof Hclient as [Ha Hok Hsz Hlen Hpr]. pose proof target_blocks as Htb. pose proof (blocks_ok_suffix (rev todo) [g] Htb) as Hg. destruct (start_state _ g db Ha Hg) as [Hks Hol].
  destruct todo_passed as (Hready & Hcom & _). destruct peer_answers as [Hpk Hpo]. pose proof (keys_are_free _ _ _ _ Hchain Htb) as Hfree. pose proof (hc_last _ _ _ _ Hchain) as Hlast.
  unfold begin_sync. unfold mbind at 1, hsM_bind at 1.
  assert (initialize manager (bh_height (cb_header to)) db = (db, Ok (deleted_of (map pair_of [g])))) as ->.
  { unfold initialize. unfold mbind at 1, hsM_bind at 1, hs_read at 1. cbn [map_err]. rewrite (ah_tip _ _ _ Ha). cbn [tip_of height_of_longest_chain]. rewrite (block_height [] g Hg). cbn [length]. change (Z.of_nat 0) with 0.
    rewrite (proj2 (Z.ltb_ge _ _)) by lia. unfold mbind, hsM_bind, hs_read, mret, hsM_ret. cbn [map_err]. by rewrite (ol_deleted _ _ Hol). }
  unfold spent_at, at_horizon in *. destruct todo as [|x todo']; [done|].
  destruct (kernels_synchronized manager later todo' x g [] _ db peer to Hok Hsz Hlen (ah_headers _ _ _ Ha) Hcom Hks Hlast Hpk) as (db1 & base & Hk & Hks1 & Hf1). unfold mbind at 1, hsM_bind at 1. rewrite Hk.
  assert (outputs_local db1 [g]) as Hol1.
  { assert (block_accumulated_data_db (lmdb db1) !! bh_height (cb_header g) = block_accumulated_data_db (lmdb db) !! bh_height (cb_header g)) as Hsame.
    { apply (kf_accumulated _ _ _ Hf1). intros (y & Heq & Hy)%elem_of_map. pose proof (block_in_todo _ _ _ Htb Hy) as Hlt. rewrite (block_height [] g Hg) in Heq. cbn [length] in Heq. lia. }
    destruct Hol as [O1 O2 O3 O4]. split; [by rewrite (kf_txos _ _ _ Hf1)|by rewrite (kf_deleted _ _ _ Hf1)|by rewrite Hsame|]. apply Forall_cons in O4 as [O4 _]. constructor; [by rewrite Hsame|constructor]. }
  destruct (outputs_synchronized manager concurrency later todo' x g [] db1 peer to Hok Hsz Hlen ltac:(by rewrite (kf_headers _ _ _ Hf1), (ah_headers _ _ _ Ha)) Hready Hol1 Hfree Hlast Hpo) as (db2 & Ho & Hs2 & Hf2).
  exists db2. split; [exact Ho|]. split; [by rewrite (of_headers _ _ Hf2), (kf_headers _ _ _ Hf1), (ah_headers _ _ _ Ha)|by rewrite (of_metadata _ _ Hf2), (kf_metadata _ _ _ Hf1)| |exact Hs2].
  exists base. split; [by rewrite (of_kernels _ _ Hf2), (kb_tables _ _ _ Hks1)|exact (kb_rows _ _ _ Hks1)].
Qed.

Lemma horizon_top : exists rest, at_horizon g todo = to :: rest /\ length rest = length todo.
Proof.
  pose proof (hc_last _ _ _ _ Hchain) as Hlast. apply last_Some in Hlast as [l Hl]. unfold at_horizon. rewrite Hl, rev_app_distr. cbn [rev app]. eexists. split; [done|].
  rewrite !length_app, length_rev. done.
Qed.

Lemma all_burns : Forall (fun y => burns_matched (body_of y)) (at_horizon g todo).
Proof.
  destruct todo_passed as (_ & _ & Hp). unfold at_horizon. apply Forall_app. split; [|by constructor; [apply Hchain|]]. apply Forall_rev. eapply Forall_impl; [exact Hp|]. intros y Hy. apply Hy.
Qed.

Lemma horizon_balanced : balanced (supply_of manager faucet (at_horizon g todo)) (offset_of (at_horizon g todo)) (map pair_of (at_horizon g todo)).
Proof.
  pose proof Hchain as [_ Hv _ Hb _ _ Hsch [Hf0 Hsup] Hfl _]. pose proof Hclient as [_ _ _ Hlen _]. pose proof target_blocks as Htb. unfold at_horizon in Hv, Hsup, Hlen, Htb |- *.
  assert (supply_of manager faucet (rev todo ++ [g]) = supply_at (emission manager) (length todo) + faucet) as Hs by (unfold supply_of; rewrite length_app, length_rev; cbn [length]; by rewrite Nat.add_sub).
  rewrite !length_app, length_rev in Hlen. apply (chain_balanced manager false fuel Hsch g faucet Hb (rev todo)); rewrite ?length_rev; [exact Htb|exact Hv|done|lia|lia].
Qed.

Lemma finish_sync db2 : gathered_state later g todo db db2 -> exists db', finalize_horizon_sync manager fuel (bh_height (cb_header to)) (spent_at g todo) db2 = (db', Ok tt) /\ horizon_state g todo to db db'.
Proof.
  intros [Gh Gm (base & Gk & Gb) [Gt Gd Ga]]. pose proof Hclient as [Ha Hok Hsz Hlen _]. destruct horizon_top as (rest & Htop & Hrest). destruct (hc_faucet _ _ _ _ Hchain) as (constants & Hconst & Hfv).
  pose proof horizon_balanced as Hbal. pose proof all_burns as Hburns. pose proof (hc_supply _ _ _ _ Hchain) as [Hf0 Hsup]. pose proof (rows_on_disk (spent_at g todo) [g] todo) as Hdisk. fold (at_horizon g todo) in Hdisk.
  assert (utxos_db (txo_tables (lmdb db2)) = table_of output_entry (map (on_disk (spent_at g todo) (Z.of_nat (length (rows (map pair_of [g]))))) (rows (map pair_of (at_horizon g todo))))) as Hutxos by (rewrite Gt, <- Hdisk; done).
  unfold spent_at in Gt, Hdisk, Hutxos |- *. rewrite Htop in Gh, Gb, Gt, Gd, Ga, Hok, Hsz, Hlen, Hbal, Hburns, Hsup, Hdisk, Hutxos |- *.
  destruct (finalized manager fuel (Z.of_nat (length (rows (map pair_of [g])))) db2 later to rest base faucet constants Gh Hok Hsz Hutxos Gk Gb Ga Hburns (hc_schedule _ _ _ _ Hchain)) as (db' & Hf & Hm & Ht);
    [rewrite Hrest; apply Hchain|rewrite length_app in Hlen; cbn [length] in Hlen; lia|by apply constants_any|done|done|].
  exists db'. split; [exact Hf|]. split; rewrite ?Hm, ?Ht; unfold spent_at; rewrite ?Htop; cbn [md_tip md_pruned_height md_horizon_data final_metadata header_tables with_txos kernel_tables txo_tables utxos_db txos_hash_to_index_db with_utxos deleted_bitmap utxo_commitment_index]; try done.
  - by rewrite Gh, (ah_headers _ _ _ Ha), Htop.
  - exists base. split; [done|]. apply Gb.
  - rewrite Gt. unfold tables_at. cbn [txos_hash_to_index_db txo_tables_of]. unfold table_of. rewrite <- Htop, map_app, hash_entries_stored, <- map_app. unfold at_horizon. by rewrite rows_above_all.
  - by rewrite Gt.
Qed.

End Stages.

Lemma synchronize_Ok faucet server db others later g to todo peers rounds :
  concurrency <> O -> horizon_chain faucet g todo to -> serves server (others ++ at_horizon g todo) -> headers_only (later ++ at_horizon g todo) g db ->
  let peer := serving_peer server (Z.of_nat (length (kernel_rows (map pair_of [g])))) (Z.of_nat (length (rows (map pair_of [g])))) (cb_header to) in
  exists db', synchronize manager fuel concurrency (bh_height (cb_header to)) ((peer :: peers) :: rounds) db = (db', Some (Ok tt)) /\ horizon_state g todo to db db'.
Proof.
  intros Hconc Hchain Hserver Hclient peer. destruct (begin_sync_Ok faucet server db others later g to todo Hconc Hchain Hserver Hclient) as (db2 & Hb & Hg).
  destruct (finish_sync faucet db later g to todo Hconc Hchain Hclient db2 Hg) as (db' & Hf & Hs). exists db'. split; [|done].
  destruct (horizon_top faucet g to todo Hchain) as (rest & Htop & _). pose proof Hclient as [Ha Hok _ _ _]. unfold synchronize, fetch_header. rewrite (ah_headers _ _ _ Ha).
  destruct (header_lookup _ to Hok) as (Hh & _ & _); [rewrite Htop; apply elem_of_app; right; left|]. rewrite Hh. cbn [or_not_found ok_or map_err sync_rounds sync].
  fold peer in Hb. assert (dial peer = Ok tt) as -> by done. rewrite Hb, Hf. done.
Qed.


(** C15: a chain of validated blocks balances. From a first block whose unspent outputs are worth the emission and the faucet, if each further block passed the internal validator and its accumulated
    data follow from those of its parent, then the sums of the unspent outputs, of the kernels and of what was burned pass [ChainBalanceValidator] at every height. *)
Theorem validated_chain_balances bypass faucet db later g bs to rest constants : bs ++ [g] = to :: rest -> header_tables (lmdb db) = header_tables_of (later ++ bs ++ [g]) -> blocks_ok (later ++ bs ++ [g]) ->
  balanced (supply_of manager faucet [g]) (offset_of [g]) (map pair_of [g]) -> validated manager bypass fuel (bs ++ [g]) -> schedule_wf (emission manager) -> (length bs <= fuel)%nat ->
  Z.of_nat (length bs) <= U64_MAX -> @consensus_constants ValidationError manager (bh_height (cb_header to)) = Ok constants -> faucet_value constants = faucet ->
  0 <= faucet -> supply_of manager faucet (bs ++ [g]) <= U64_MAX ->
  validate_chain_balance manager fuel db (bh_height (cb_header to)) (unspent_sum (map pair_of (bs ++ [g]))) (excess_sum (map pair_of (bs ++ [g]))) (burned_sum (map pair_of (bs ++ [g]))) = Some (Ok tt).
Proof.
  intros Htop Hh Hok Hg Hv Hsch Hfuel Hlen Hc Hf Hf0 Hs. assert (length rest = length bs) as Hl. { apply (f_equal length) in Htop. rewrite length_app in Htop. cbn in Htop. lia. }
  assert (supply_at (emission manager) (length bs) <= U64_MAX) as Hsup. { unfold supply_of in Hs. rewrite length_app in Hs. cbn [length] in Hs. rewrite Nat.add_sub in Hs. lia. }
  pose proof (chain_balanced manager bypass fuel Hsch g faucet Hg bs (blocks_ok_suffix later _ Hok) Hv Hfuel Hlen Hsup) as Hb. rewrite Htop in *.
  apply (chain_validates manager fuel later to rest faucet constants Hok Hsch); [by rewrite Hl|by rewrite Hl|by apply constants_any|done|done|done].
Qed.

(** C11: the horizon synchronisation completes. A node has the headers of a chain without registrations and the body of the first block, none of its blocks is an orphan, and a peer has the blocks up to
    the horizon and answers as the sync service does, in time; every block passed the internal validator, each header commits to the chain up to it, the first block balances, the supply fits in 64 bits, and no
    output unspent at the horizon reuses the commitment of an output of the first block (otherwise it cannot be inserted: see the theorem on spent outputs that stay indexed). Then [synchronize] returns
    without an error: the header of the horizon is the tip, the kernels and outputs up to it are stored, those outputs that are spent without their data, and
    the sums recorded are those of the kernels and of the unspent outputs. *)
Theorem horizon_sync_completes faucet server db others later g to todo peers rounds :
  concurrency <> O -> horizon_chain faucet g todo to -> serves server (others ++ at_horizon g todo) -> headers_only (later ++ at_horizon g todo) g db ->
  let peer := serving_peer server (Z.of_nat (length (kernel_rows (map pair_of [g])))) (Z.of_nat (length (rows (map pair_of [g])))) (cb_header to) in
  exists db', synchronize manager fuel concurrency (bh_height (cb_header to)) ((peer :: peers) :: rounds) db = (db', Some (Ok tt)) /\ horizon_state g todo to db db'.
Proof. apply synchronize_Ok. Qed.

(** ** Outputs spent before the horizon *)

Lemma gone_later after bs r : gone (spent_hashes (map pair_of bs)) r -> gone (spent_hashes (map pair_of (after ++ bs))) r.
Proof. intros [Hh|Hb]; [left|by right]. induction after as [|y after IH]; [done|]. cbn [app map pair_of spent_hashes]. apply elem_of_app. by left. Qed.

Section Spent.
Context (faucet : Z) (g to : ChainBlock) (todo : list ChainBlock) (r : TransactionOutputRowData) (o : TransactionOutput).
Hypothesis Hchain : horizon_chain faucet g todo to.
Hypothesis Hok : blocks_ok (at_horizon g todo).
Hypothesis Hr : r ∈ unspent_rows (map pair_of [g]).
Hypothesis Hspent : or_mmr_position r ∈ spent_at g todo.
Hypothesis Ho : or_output r = Some o.

Lemma spent_row : r ∈ rows (map pair_of (at_horizon g todo)) /\ or_hash r = hash_of o /\ encodable o.
Proof.
  assert (r ∈ rows (map pair_of [g])) as Hin by (by apply unspent_in_rows). split; [unfold at_horizon; rewrite rows_above_all; apply elem_of_app; by left|].
  destruct (rows_output _ r (blocks_chain_ok _ (blocks_ok_suffix (rev todo) [g] Hok)) Hin) as (o' & Ho' & Hh & He). rewrite Ho in Ho'. by injection Ho' as <-.
Qed.

(** No unspent output has the commitment. *)
Lemma commitment_gone : com_as_bytes (out_commitment o) ∉ map row_commitment (unspent_rows (map pair_of (at_horizon g todo))).
Proof.
  assert (row_commitment r = com_as_bytes (out_commitment o)) as Hc by (unfold row_commitment; by rewrite Ho). rewrite <- Hc. intros (r' & Heq & Hr')%elem_of_map. rewrite <- unspent_total in Hr'. fold (spent_at g todo) in Hr'.
  apply list_elem_of_filter in Hr' as [Hn Hr']. unfold at_horizon in Hr'. rewrite rows_above_all in Hr'. apply elem_of_app in Hr' as [Hr'|Hr'].
  - apply Hn. assert (r' ∈ unspent_rows (map pair_of [g])) as Hu.
    { apply list_elem_of_filter. split; [|done]. intros Hg. apply Hn. unfold spent_at. apply elem_of_deleted_of. exists r'. split_and!; [unfold at_horizon; rewrite rows_above_all; apply elem_of_app; by left| |done].
      by apply gone_later. }
    replace r' with r; [done|]. apply (NoDup_map_inj row_commitment (unspent_rows (map pair_of [g]))); try done. apply unspent_commitments_distinct. exact (blocks_chain_ok _ (blocks_ok_suffix (rev todo) [g] Hok)).
  - pose proof (hc_fresh _ _ _ _ Hchain) as Hf. rewrite Forall_forall in Hf. apply (Hf r'); [by apply list_elem_of_filter|]. rewrite <- Heq. by apply (list_elem_of_fmap_2 row_commitment).
Qed.

(** The index of a node that synchronised to the horizon, and of one that stored the blocks. *)
Lemma synced_index db db' : horizon_state g todo to db db' -> keys_free (spent_at g todo) [g] todo ->
  fetch_unspent_output_hash_by_commitment (BlockchainBackend := backend_of (lmdb db')) (out_commitment o) = Some (Some (hash_of o)).
Proof.
  intros Hs (Hnd & _ & _). destruct spent_row as (_ & Hh & _). cbn [fetch_unspent_output_hash_by_commitment backend_of]. f_equal. rewrite (hz_index _ _ _ _ _ Hs). apply table_lookup_Some; [exact Hnd|].
  exists r. split; [apply elem_of_app; by left|]. unfold commitment_entry, row_commitment. by rewrite Ho, Hh.
Qed.

Lemma stored_index t : represents t (map pair_of (at_horizon g todo)) -> fetch_unspent_output_hash_by_commitment (BlockchainBackend := backend_of t) (out_commitment o) = Some None.
Proof.
  intros Hrep. cbn [fetch_unspent_output_hash_by_commitment backend_of]. f_equal. rewrite (rep_txos _ _ Hrep). apply table_lookup_None. exact commitment_gone.
Qed.

Lemma stored_output t : represents t (map pair_of (at_horizon g todo)) -> fetch_output (BlockchainBackend := backend_of t) (hash_of o) = Some (Some (NotPruned o)).
Proof.
  intros Hrep. pose proof (blocks_chain_ok _ Hok) as Hch. destruct spent_row as (Hin & Hh & He). cbn [fetch_output backend_of]. f_equal. unfold fetch_output_in_txn. rewrite (rep_txos _ _ Hrep).
  cbn [txos_hash_to_index_db utxos_db txo_tables_of].
  assert (table_of hash_entry (rows (map pair_of (at_horizon g todo))) !! hash_of o = Some (or_mmr_position r, (or_header_hash r, or_mmr_position r))) as ->.
  { apply table_lookup_Some; [by apply rows_hashes|]. exists r. split; [done|]. unfold hash_entry. by rewrite Hh. }
  cbn [mbind option_bind]. assert (table_of output_entry (rows (map pair_of (at_horizon g todo))) !! (or_header_hash r, or_mmr_position r) = Some r) as ->.
  { apply table_lookup_Some; [apply output_entries_distinct, rows_positions_distinct|]. by exists r. }
  cbn [mbind option_bind]. by rewrite Ho.
Qed.

End Spent.

Lemma spent_data_hash i o : spent_output i = data_of o -> encodable o -> forall E, @input_output_hash _ _ _ E i = Ok (hash_of o) /\ in_commitment i = Ok (out_commitment o).
Proof.
  intros Hd He E. split; [|by destruct (spent_data i o Hd He) as (-> & _)]. unfold input_output_hash. rewrite Hd. by rewrite <- (hash_of_Ok o He).
Qed.

(** C16: an output that is spent before the horizon stays in the index of unspent outputs of a node that synchronised to it. For an output of the first block that a later block spends, the two
    checks of the validators differ from those of a node that stored the blocks: an input that spends the output again is found to spend a known output, where the other node finds the output
    spent; and a new output with its commitment is refused as a duplicate, where the other node accepts it. *)
Theorem spent_output_stays_indexed faucet server db later g to todo peers rounds r o i o' :
  concurrency <> O -> horizon_chain faucet g todo to -> serves server (at_horizon g todo) -> headers_only (later ++ at_horizon g todo) g db ->
  r ∈ unspent_rows (map pair_of [g]) -> or_mmr_position r ∈ spent_at g todo -> or_output r = Some o -> spent_output i = data_of o ->
  encodable o' -> out_commitment o' = out_commitment o -> hash_of o' ∉ map or_hash (rows (map pair_of (at_horizon g todo))) ->
  let peer := serving_peer server (Z.of_nat (length (kernel_rows (map pair_of [g])))) (Z.of_nat (length (rows (map pair_of [g])))) (cb_header to) in
  exists db', synchronize manager fuel concurrency (bh_height (cb_header to)) ((peer :: peers) :: rounds) db = (db', Some (Ok tt)) /\
    check_input_is_utxo (db := backend_of (lmdb db')) i = Ok tt /\ check_input_is_utxo (db := backend_of (lmdb server)) i = Err ContainsSTxO /\
    check_not_duplicate_txo (db := backend_of (lmdb db')) o' = Err ContainsDuplicateUtxoCommitment /\ check_not_duplicate_txo (db := backend_of (lmdb server)) o' = Ok tt.
Proof.
  intros Hconc Hchain Hserver Hclient Hr Hspent Ho Hi He' Hc' Hn' peer. pose proof (sv_ok _ _ Hserver) as Hok. pose proof (sv_tables _ _ Hserver) as Hrep.
  destruct (synchronize_Ok faucet server db [] later g to todo peers rounds Hconc Hchain Hserver Hclient) as (db' & Hsync & Hs). exists db'. split; [exact Hsync|].
  destruct (spent_row g todo r o Hok Hr Ho) as (_ & _ & He). destruct (spent_data_hash i o Hi He ValidationError) as [Hih Hic].
  pose proof (synced_index g to todo r o Hok Hr Ho db db' Hs (keys_are_free _ _ _ _ Hchain Hok)) as Hnew. pose proof (stored_index faucet g to todo r o Hchain Hok Hr Hspent Ho _ Hrep) as Hold.
  pose proof (stored_output g todo r o Hok Hr Ho _ Hrep) as Hout.
  assert (forall d, txos_hash_to_index_db (txo_tables d) = table_of hash_entry (rows (map pair_of (at_horizon g todo))) -> fetch_utxo_mmr_leaf_index (BlockchainBackend := backend_of d) (hash_of o') = Some None) as Hleaf.
  { intros d Hd. cbn [fetch_utxo_mmr_leaf_index backend_of]. f_equal. rewrite Hd, table_lookup_None; [done|]. exact Hn'. }
  unfold check_input_is_utxo, check_not_duplicate_txo. rewrite Hih, Hic, (hash_of_Ok o' He'), Hc'. cbn [mbind result_bind map_err]. rewrite Hnew, Hold, Hout, (Hleaf _ (hz_hashes _ _ _ _ _ Hs)), (Hleaf (lmdb server)).
  - unfold stored. cbn [ok_or mbind result_bind]. by rewrite bool_decide_true.
  - by rewrite (rep_txos _ _ Hrep).
Qed.

End HorizonLive.
