(* ===== verification/TxModel.v ===== *)
(** * A concrete model of transactions

    Instances of the classes of [Covenants], [TxComponents], [BodyBalance] and [OutputHash] over the integers modulo
    256 of [CryptoModel], and a transaction and a block that the validators accept, on which
    the theorems of the transaction components are applied. *)

From S2P Require Import Prelude ScriptTypes CryptoModel Opcodes ScriptStack TariScript ScriptEncoding Amounts Emission Difficulty MoneroMerkle MoneroMerkleSpec.
From S2P Require Import ConsensusConstants ConsensusManager Covenants TxComponents BlockHeader CovenantFilters CovenantSpec AggregatedBody BodyValidator BodyBalance OutputHash.
From S2P Require Import MergeMining BodyValidatorSpec.
From Stdlib Require Import Ascii.

Local Open Scope Z_scope.

Module TxMod256.
Import Mod256.

(** ** Encodings *)

Definition read_point (b : bytes) : option (ascii * bytes) := k ← dec (take 32 b); Some (k, drop 32 b).

Definition read_le (n : nat) (b : bytes) : option (Z * bytes) :=
  if decide (n <= length b)%nat then Some (le_value (take n b) mod 256 ^ Z.of_nat n, drop n b) else None.

Definition read_vec (b : bytes) : option (bytes * bytes) :=
  '(len, b) ← read_le 4 b;
  let n := Z.to_nat len in
  if decide (n <= length b)%nat then Some (take n b, drop n b) else None.

Definition read_u16 (b : bytes) : option (Z * bytes) :=
  '(v, n) ← dec_word b;
  if decide (v <= U16_MAX) then Some (v, drop n b) else None.

#[export] Instance borsh : BorshPrims crypto := {|
  pk_serialize := (enc : @RistrettoPublicKey crypto -> bytes); pk_deserialize := (read_point : bytes -> option (@RistrettoPublicKey crypto * bytes));
  com_serialize := (enc : @PedersenCommitment crypto -> bytes); com_deserialize := (read_point : bytes -> option (@PedersenCommitment crypto * bytes));
  u64_serialize := le_bytes 8; u64_deserialize := read_le 8;
  vec_u8_serialize b := le_bytes 4 (Z.of_nat (length b)) ++ b; vec_u8_deserialize := read_vec;
  read_varint_u16 := read_u16;
|}.

Lemma read_point_enc k rest : read_point (enc k ++ rest) = Some (k, rest).
Proof. unfold read_point. rewrite take_app_length', drop_app_length' by done. by rewrite dec_enc. Qed.

Lemma read_point_suffix b k r : read_point b = Some (k, r) -> r `suffix_of` b.
Proof. unfold read_point. destruct (dec (take 32 b)); [|done]. intros [= _ <-]. eexists. symmetry. apply take_drop. Qed.

Lemma read_le_bytes n v rest : 0 <= v < 256 ^ Z.of_nat n -> read_le n (le_bytes n v ++ rest) = Some (v, rest).
Proof.
  intros Hv. unfold read_le. rewrite decide_True by (rewrite length_app, length_le_bytes; lia).
  rewrite take_app_length', drop_app_length' by (by rewrite length_le_bytes). rewrite le_value_bytes, Z.mod_mod by lia. by rewrite Z.mod_small.
Qed.

Lemma read_le_suffix n b v r : read_le n b = Some (v, r) -> r `suffix_of` b.
Proof. unfold read_le. case_decide; [|done]. intros [= _ <-]. eexists. symmetry. apply take_drop. Qed.

#[export] Instance borsh_laws : BorshLaws borsh.
Proof.
  split; cbn -[enc read_le le_bytes enc_word]; try (intros; apply read_point_enc); try (intros ? ? ?; apply read_point_suffix); try (intros ? ? ?; apply read_le_suffix).
  - intros v rest Hv. apply read_le_bytes. unfold is_u64, U64_MAX in Hv. lia.
  - intros v rest Hv. unfold read_vec. rewrite <- app_assoc, read_le_bytes by (unfold U32_MAX in Hv; lia). cbn -[enc read_le le_bytes].
    rewrite Nat2Z.id, decide_True by (rewrite length_app; lia). by rewrite take_app_length, drop_app_length.
  - intros v rest Hv. unfold read_u16, U16_MAX in *. rewrite dec_word_app, Z.mod_small by lia. cbn -[enc_word]. by rewrite decide_True by lia.
  - intros b v r. unfold read_vec. destruct (read_le 4 b) as [[len b']|] eqn:Hl; [|done]. apply read_le_suffix in Hl. cbn. case_decide; [|done].
    intros [= _ <-]. etrans; [|exact Hl]. eexists. symmetry. apply take_drop.
  - intros b v r. unfold read_u16. destruct (dec_word b) as [[w n]|]; [|done]. cbn. case_decide; [|done]. intros [= _ <-]. eexists. symmetry. apply take_drop.
  - intros b v r. destruct (dec_word b) as [[w n]|]; [|done]. cbn. intros [= _ <-]. eexists. symmetry. apply take_drop.
Qed.

(** ** Keys, commitments and signatures *)

(** Commitments are [k + 7 * v]; a signature [u_x, u_a, u_y] answers the challenge [e] for an opening and a key. *)
Record com_sig := { e_com : ascii; e_pk : ascii; s_a : ascii; s_x : ascii; s_y : ascii }.

#[export] Instance com_sig_eq_dec : EqDecision com_sig.
Proof. solve_decision. Defined.

Definition commit (k : ascii) (v : Z) : ascii := of_z (to_z k + 7 * v).
Definition challenge_of (m : bytes) : Z := foldr Z.add 1 m.

Definition com_sig_verify (s : com_sig) (c p : ascii) (m : bytes) : bool :=
  bool_decide (of_z (to_z (e_com s) + challenge_of m * to_z c) = commit (s_x s) (to_z (s_a s))) &&
  bool_decide (of_z (to_z (e_pk s) + challenge_of m * to_z p) = s_y s).

(** The signature of the opening [(k, v)] and the key [y], with nonces 11, 0 and 13. *)
Definition com_sign (k : ascii) (v : Z) (y : ascii) (challenge : ascii -> ascii -> bytes) : com_sig :=
  let c := commit (of_z 11) 0 in
  let p := of_z 13 in
  let e := challenge_of (challenge c p) in
  {| e_com := c; e_pk := p; s_a := of_z (e * v); s_x := of_z (11 + e * to_z k); s_y := of_z (13 + e * to_z y) |}.

Definition sig_key (s : schnorr) : Z := 256 * to_z (nonce s) + to_z (response s).
Definition domain_byte (d : HashDomain) : Z := match d with TransactionHashDomain => 1 | ValidatorNodeHashDomain => 2 | BaseLayerCovenantsDomain => 3 | BlocksHashDomain => 4 end.

#[export] Instance tx_crypto : TxCrypto crypto := {|
  pk_sub := (sub : @RistrettoPublicKey crypto -> _ -> _); sk_default := (of_z 0 : @RistrettoSecretKey crypto);
  sk_add := (add : @RistrettoSecretKey crypto -> _ -> _); sk_mul := fun x y => of_z (to_z x * to_z y); sk_from_u64 := of_z;
  as_public_key := fun c => c; commit_value := commit;
  com_compare := fun a b => to_z a ?= to_z b; sig_compare := fun a b => sig_key a ?= sig_key b;
  sig_serialize := fun s => enc (nonce s) ++ enc (response s); sk_serialize := (enc : @RistrettoSecretKey crypto -> bytes);
  u16_serialize := le_bytes 2; u16_deserialize := read_le 2; u32_serialize := le_bytes 4; u32_deserialize := read_le 4;
  ComAndPubSignature := com_sig;
  cps_serialize := fun s => enc (e_com s) ++ enc (e_pk s) ++ enc (s_a s) ++ enc (s_x s) ++ enc (s_y s);
  ephemeral_commitment := e_com; ephemeral_pubkey := e_pk; u_a := s_a; cps_verify_challenge := com_sig_verify;
  verify_batch := fun proofs statements => bool_decide (length proofs = length statements);
  domain_tag := fun d label => domain_byte d :: map to_z (String.list_ascii_of_string label);
|}.

Lemma to_of_z z : to_z (of_z z) = z mod 256.
Proof. unfold to_z, of_z. pose proof (Z.mod_pos_bound z 256). rewrite N_ascii_embedding by lia. lia. Qed.

Lemma of_z_eq x y : x mod 256 = y mod 256 -> of_z x = of_z y.
Proof. unfold of_z. by intros ->. Qed.

Lemma add_assoc a b c : add a (add b c) = add (add a b) c.
Proof. unfold add. rewrite !to_of_z. apply of_z_eq. rewrite Zplus_mod_idemp_l, Zplus_mod_idemp_r. f_equal. lia. Qed.

Lemma add_comm a b : add a b = add b a.
Proof. unfold add. f_equal. lia. Qed.

Lemma add_zero a : add (of_z 0) a = a.
Proof. unfold add. apply of_to_z. Qed.

Lemma sub_add a b : add (sub a b) b = a.
Proof. unfold add, sub. rewrite to_of_z. transitivity (of_z (to_z a)); [|apply of_to_z]. apply of_z_eq. rewrite Zplus_mod_idemp_l. f_equal. lia. Qed.

Lemma add_commit k1 v1 k2 v2 : add (commit k1 v1) (commit k2 v2) = commit (add k1 k2) (v1 + v2).
Proof. unfold add, commit. rewrite !to_of_z. apply of_z_eq. rewrite Zplus_mod_idemp_l, !Zplus_mod_idemp_r, Zplus_mod_idemp_l. f_equal. lia. Qed.

Lemma compare_gt_trans x y z : (x ?= y) = Gt -> (y ?= z) = Gt -> (x ?= z) = Gt.
Proof. rewrite !Z.compare_gt_iff. lia. Qed.

#[export] Instance tx_laws : TxLaws tx_crypto.
Proof.
  split; cbn -[add sub commit of_z]; intros; try apply Z.compare_refl; try (by eapply compare_gt_trans); auto using add_assoc, add_comm, add_zero, sub_add, add_commit.
Qed.

#[export] Instance encoding_laws : EncodingLaws tx_crypto.
Proof.
  split; cbn -[enc le_bytes].
  - intros [x1 y1] [x2 y2] r s _ _ H. cbn -[enc] in H. rewrite <- !app_assoc in H. apply app_inj_1 in H as [Hx H]; [|done]. apply app_inj_1 in H as [Hy ->]; [|done].
    apply (f_equal dec) in Hx, Hy. rewrite !dec_enc in Hx, Hy. by simplify_eq.
  - intros x y r s _ _ H. apply app_inj_1 in H as [H ->]; [|done]. apply (f_equal dec) in H. rewrite !dec_enc in H. by simplify_eq.
  - intros v rest Hv. apply read_le_bytes. unfold U16_MAX in Hv. lia.
  - intros v rest Hv. apply read_le_bytes. unfold U32_MAX in Hv. lia.
Qed.

End TxMod256.

(** * A concrete model of merge mining

    An instance of [MoneroLib] in which a Monero header is a number and a transaction is its extra field, and the
    theorems of [MoneroMerkleSpec] and [MergeMining] applied to a block of four transactions. *)

Module MoneroMod.
Import Mod256 TxMod256.

(** ** Encodings: a number is one element, a list is preceded by its length *)

Definition encode_list (l : bytes) : bytes := Z.of_nat (length l) :: l.

Definition decode_list (b : bytes) : option (bytes * bytes) :=
  match b with
  | n :: b => if decide (0 <= n <= Z.of_nat (length b)) then Some (take (Z.to_nat n) b, drop (Z.to_nat n) b) else None
  | [] => None
  end.

Definition encode_field (f : SubField) : bytes :=
  match f with
  | MergeMining None h => 0 :: encode_list h
  | MergeMining (Some d) h => 1 :: d :: encode_list h
  | Padding n => [2; n]
  | OtherSubField data => 3 :: encode_list data
  end.

Definition decode_field (b : bytes) : option (SubField * bytes) :=
  match b with
  | 0 :: b => '(h, b) ← decode_list b; Some (MergeMining None h, b)
  | 1 :: d :: b => '(h, b) ← decode_list b; Some (MergeMining (Some d) h, b)
  | 2 :: n :: b => Some (Padding n, b)
  | 3 :: b => '(h, b) ← decode_list b; Some (OtherSubField h, b)
  | _ => None
  end.

Fixpoint decode_fields (n : nat) (b : bytes) : option (list SubField * bytes) :=
  match n with
  | O => Some ([], b)
  | S n => '(f, b) ← decode_field b; '(fs, b) ← decode_fields n b; Some (f :: fs, b)
  end.

Definition encode_tx (t : list SubField) : bytes := Z.of_nat (length t) :: concat (map encode_field t).

Definition decode_tx (b : bytes) : option (list SubField * bytes) :=
  match b with
  | n :: b => if decide (0 <= n) then decode_fields (Z.to_nat n) b else None
  | [] => None
  end.

#[export] Instance monero_lib : MoneroLib := {|
  keccak := digest 4;
  monero_hash_encode h := h;
  monero_hash_decode b := if decide (32 <= length b)%nat then Some (take 32 b, drop 32 b) else None;
  MoneroBlockHeader := Z;
  monero_header_encode h := [h];
  monero_header_decode b := match b with h :: b => Some (h, b) | [] => None end;
  MoneroTransaction := list SubField;
  monero_tx_encode := encode_tx;
  monero_tx_decode := decode_tx;
  monero_tx_hash t := digest 5 (encode_tx t);
  monero_tx_extra t := Some t;
  monero_tx_with_extra _ fields := fields;
  monero_varint := enc_word;
  randomx_hash key input := Some (digest 6 (key ++ input));
|}.

Lemma decode_encode_list l rest : decode_list (encode_list l ++ rest) = Some (l, rest).
Proof.
  unfold decode_list, encode_list. cbn [app]. rewrite decide_True by (rewrite length_app; lia).
  by rewrite Nat2Z.id, take_app_length, drop_app_length.
Qed.

Lemma decode_encode_field f rest : decode_field (encode_field f ++ rest) = Some (f, rest).
Proof. destruct f as [[d|] h|n|data]; cbn -[decode_list encode_list]; rewrite ?decode_encode_list; done. Qed.

Lemma decode_encode_fields t rest : decode_fields (length t) (concat (map encode_field t) ++ rest) = Some (t, rest).
Proof. induction t as [|f t IH]; cbn -[decode_field encode_field]; [done|]. rewrite <- app_assoc, decode_encode_field. cbn. by rewrite IH. Qed.

#[export] Instance monero_laws : MoneroLaws monero_lib.
Proof.
  split.
  - split. intros b. apply length_le_bytes.
  - intros h rest Hh. cbn. rewrite decide_True by (rewrite length_app; lia). by rewrite <- Hh, take_app_length, drop_app_length.
  - done.
  - intros t rest. cbn -[decode_tx encode_tx]. unfold decode_tx, encode_tx. cbn [app]. rewrite decide_True by lia. rewrite Nat2Z.id. apply decode_encode_fields.
  - intros t. apply length_le_bytes.
  - done.
Qed.

#[local] Instance u256 : U256Ops := {| from_big_endian b := le_value (rev b); from_little_endian := le_value |}.

(** ** A block of four transactions *)

Definition mm_hash (n : Z) : bytes := replicate 32 n.

Definition mm_hashes : list bytes := map mm_hash [1; 2; 3; 4; 5].

Definition mm_root : bytes := match tree_hash mm_hashes with Ok r => r | _ => [] end.
Definition mm_proof : MerkleProof :=
  match create_merkle_proof mm_hashes (mm_hash 4) with Ok (Some p) => p | _ => merkle_proof_default end.

Lemma merkle_proof_binding_witness :
  create_merkle_proof mm_hashes (mm_hash 4) = Ok (Some mm_proof) /\ tree_hash mm_hashes = Ok mm_root /\
  (mm_hash 4 = mm_hash 4 \/ exists n x y, path_inputs (mm_hash 4) (steps_of mm_proof) !! n = Some x /\
     path_inputs (mm_hash 4) (steps_of mm_proof) !! n = Some y /\ x <> y /\ keccak x = keccak y).
Proof.
  split; [vm_compute; reflexivity|]. split; [vm_compute; reflexivity|].
  apply (merkle_proof_binding mm_hashes (mm_hash 4) mm_proof mm_root mm_proof (mm_hash 4)).
  - cbn. lia.
  - repeat constructor.
  - done.
  - apply Forall_forall. intros h. vm_compute. intros Hh. repeat (apply elem_of_cons in Hh as [->|Hh]; [done|]). by apply elem_of_nil in Hh.
  - vm_compute. reflexivity.
  - vm_compute. reflexivity.
  - done.
  - done.
  - vm_compute. reflexivity.
Defined.

Definition mm_header : BlockHeader :=
  {| bh_version := 1; bh_height := 5; bh_prev_hash := mm_hash 1; bh_timestamp := 1000; bh_output_mr := mm_hash 2;
     bh_witness_mr := mm_hash 3; bh_output_mmr_size := 10; bh_kernel_mr := mm_hash 4; bh_kernel_mmr_size := 7; bh_input_mr := mm_hash 5;
     bh_total_kernel_offset := of_z 3; bh_total_script_offset := of_z 4; bh_nonce := 77; bh_pow := pow_default;
     bh_validator_node_mr := mm_hash 6 |}.

Lemma mm_header_ok mr : header_ok (with_validator_node_mr mr mm_header).
Proof. split; cbn; unfold is_u64, short, U16_MAX, U32_MAX, U64_MAX; cbn; try lia; done. Qed.

Lemma header_hash_binds_witness :
  let other := with_validator_node_mr (mm_hash 9) mm_header in
  bh_hash mm_header = bh_hash other /\
  (with_validator_node_mr (bh_validator_node_mr mm_header) other = mm_header \/ header_collision mm_header other).
Proof.
  split; [reflexivity|]. apply (header_hash_binds mm_header (with_validator_node_mr (mm_hash 9) mm_header)).
  - apply (mm_header_ok (mm_hash 6)).
  - apply mm_header_ok.
  - reflexivity.
Defined.

(** ** Merge mining *)

Definition mm_block : MoneroBlock := {| mb_header := 8; mb_miner_tx := [OtherSubField [1; 2]]; mb_tx_hashes := map mm_hash [1; 2; 3] |}.

Definition mm_tag (h : BlockHeader) : SubField := MergeMining (Some 0) (bh_mining_hash h).

Lemma merge_mining_complete_witness :
  exists tagged d blob, append_merge_mining_tag mm_block (bh_mining_hash mm_header) = Ok tagged /\
    construct_monero_data tagged [7; 7] = Ok d /\ create_blockhashing_blob_from_block tagged = Ok blob /\
    verify_header (mined mm_header d []) = Ok d /\ monero_difficulty (mined mm_header d []) = get_random_x_difficulty blob [7; 7].
Proof.
  apply (merge_mining_complete mm_header mm_block [OtherSubField [1; 2]] [7; 7]).
  - reflexivity.
  - repeat constructor.
  - unfold U16_MAX. cbn. lia.
  - repeat constructor.
  - cbn. lia.
Defined.

Definition mm_data (p : MerkleProof) (tx : list SubField) : @MoneroPowData monero_lib :=
  {| md_header := 8; md_randomx_key := [7; 7]; md_transaction_count := 4; md_merkle_root := mm_hash 1;
     md_coinbase_merkle_proof := p; md_coinbase_tx := tx |}.

Lemma monero_work_reusable_witness :
  let forged := mm_data {| mp_branch := [mm_hash 1]; mp_depth := 0; mp_path_bitmap := 0 |} [mm_tag mm_header] in
  verify_header (mined mm_header forged [1; 2; 3]) = Ok forged /\
  monero_difficulty (mined mm_header forged [1; 2; 3]) =
    get_random_x_difficulty (to_blockhashing_blob (mm_data merkle_proof_default [])) [7; 7].
Proof.
  apply (monero_work_reusable mm_header (mm_data merkle_proof_default []) [mm_tag mm_header] [mm_tag mm_header] [1; 2; 3]).
  - split; [cbn; lia|cbn; unfold U16_MAX; lia|done|]. split; cbn; [by constructor|unfold I64_MAX; lia|unfold U16_MAX; lia|unfold U32_MAX; lia].
  - reflexivity.
  - by left.
Defined.

Lemma malformed_merkle_proof_panics_witness :
  let d := mm_data {| mp_branch := []; mp_depth := 0; mp_path_bitmap := 0 |} [mm_tag mm_header] in
  from_header (mined mm_header d []) = Ok d /\ verify_header (mined mm_header d []) = Panic /\
  monero_difficulty (mined mm_header d []) = Panic.
Proof.
  apply (malformed_merkle_proof_panics mm_header
    (mm_data {| mp_branch := []; mp_depth := 0; mp_path_bitmap := 0 |} [mm_tag mm_header]) [mm_tag mm_header] []).
  - split; [cbn; lia|cbn; unfold U16_MAX; lia|done|]. split; cbn; [by constructor|unfold I64_MAX; lia|unfold U16_MAX; lia|unfold U32_MAX; lia].
  - reflexivity.
  - by left.
  - by left.
Defined.

End MoneroMod.
