(* ===== verification/TxExamples.v ===== *)
(** * A transaction and a block that are accepted

    On the model of [TxModel]: a transaction that spends an output of 200 with a covenant into an output of 90 and a
    burned output of 100, with a fee of 10, and the block that adds a coinbase to it; the theorems
    of the transaction components applied to them. *)

From S2P Require Import Prelude ScriptTypes CryptoModel Opcodes ScriptStack TariScript ScriptEncoding Amounts Emission ConsensusConstants ConsensusManager.
From S2P Require Import Covenants TxComponents CovenantFilters CovenantSpec AggregatedBody BodyValidator BodyBalance OutputHash BodyValidatorSpec TxModel.

Local Open Scope Z_scope.

Import Mod256 TxMod256.

Definition ok_or_default {E A} (d : A) (r : result E A) : A := match r with Ok x => x | _ => d end.

(** ** Building blocks *)

Definition nop_script : TariScript := {| script := [Nop] |}.

(** An output of the amount [v] with the key [k]; [o] is the sender's offset. *)
Definition make_output (features : OutputFeatures) (k v o : Z) (covenant : Covenant) : TransactionOutput :=
  let c := commit (of_z k) v in
  let sig := com_sign (of_z k) v (of_z o) (fun ec ep =>
    build_metadata_signature_challenge OutputV0 nop_script features (of_z o) ec ep c (ok_or_default [] (covenant_borsh_serialize covenant)) (replicate 80 0) 0) in
  {| out_version := OutputV0; out_features := features; out_commitment := c; out_proof := Some [1]; out_script := nop_script;
     out_sender_offset_public_key := of_z o; out_metadata_signature := sig; out_covenant := covenant; out_encrypted_data := replicate 80 0;
     out_minimum_value_promise := 0 |}.

(** The input that spends such an output with the script key [y]. *)
Definition make_input (out : TransactionOutput) (k v y : Z) : TransactionInput :=
  let stack := {| items := [PublicKey (of_z y)] |} in
  let sig := com_sign (of_z k) v (of_z y) (fun ec ep =>
    build_script_signature_challenge InputV0 ec ep (out_script out) stack (of_z y) (out_commitment out)) in
  {| in_version := InputV0;
     spent_output := OutputData (out_version out) (out_features out) (out_commitment out) (out_script out) (out_sender_offset_public_key out)
       (out_covenant out) (out_encrypted_data out) (out_minimum_value_promise out);
     input_data := stack; script_signature := sig |}.

Definition make_kernel (features fee k : Z) (burn : option PedersenCommitment) : TransactionKernel :=
  let r := of_z 17 in
  let m := build_kernel_signature_challenge KernelV0 r (of_z k) fee 0 features burn in
  {| k_version := KernelV0; k_features := features; k_fee := fee; k_lock_height := 0; k_excess := commit (of_z k) 0;
     k_excess_sig := sign (of_z k) r m; k_burn_commitment := burn |}.

Definition with_type (t : OutputType) : OutputFeatures :=
  {| feat_version := FeaturesV0; feat_output_type := t; feat_maturity := 0; coinbase_extra := []; sidechain_feature := None;
     feat_range_proof_type := BulletProofPlus |}.

(** ** The transaction *)

(** Some output keeps the script, and not before height 5. *)
Definition example_expr : cexpr := EAnd (EFieldsPreserved {| fields := [Field_Script] |}) (EAbsoluteHeight 5).
Definition example_covenant : Covenant := tokens_of example_expr.

Definition example_utxo : TransactionOutput := make_output (with_type Standard) 3 200 21 example_covenant.
Definition example_input : TransactionInput := make_input example_utxo 3 200 9.
Definition example_change : TransactionOutput := make_output (with_type Standard) 4 90 4 [].
Definition example_burn : TransactionOutput := make_output (with_type Burn) 7 100 3 [].
Definition example_kernel : TransactionKernel := make_kernel BURN_KERNEL 10 7 (Some (out_commitment example_burn)).

Definition example_body : TxBody := new_sorted_unchecked [example_input] [example_change; example_burn] [example_kernel].
Definition example_tx : FullTransaction := {| tx_offset := of_z 1; tx_body := example_body; tx_script_offset := of_z 2 |}.

Definition example_manager : ConsensusManager := {| consensus_constants_list := localnet; emission := example_schedule |}.
Definition example_validator : InternalValidator := {| bypass_range_proof_verification := false; iv_manager := example_manager |}.
Definition example_tip : ChainMetadata := {| height_of_longest_chain := 10; best_block := replicate 32 1 |}.

(** The database before the transaction. *)
Definition example_hash : bytes := ok_or_default [] (@output_hash _ _ _ unit example_utxo).

#[export] Instance example_db : BlockchainBackend := {|
  fetch_output h := Some (if decide (h = example_hash) then Some (NotPruned example_utxo) else None);
  fetch_unspent_output_hash_by_commitment c := Some (if decide (c = out_commitment example_utxo) then Some example_hash else None);
  fetch_utxo_mmr_leaf_index h := Some (if decide (h = example_hash) then Some 0 else None);
  fetch_kernel_by_excess_sig _ := Some None;
|}.

(** ** The block *)

Definition example_reward : Z := 10000070 + 10.
Definition example_coinbase : TransactionOutput := make_output (create_coinbase 12 None) 8 example_reward 4 [].
Definition example_coinbase_kernel : TransactionKernel := make_kernel COINBASE_KERNEL 0 8 None.
Definition example_block : FullBlock :=
  {| fb_height := 10; fb_prev_hash := replicate 32 1; fb_kernel_offset := of_z 1; fb_script_offset := of_z 2;
     fb_body := new_sorted_unchecked [example_input] [example_change; example_coinbase; example_burn] [example_coinbase_kernel; example_kernel] |}.

(** ** Another transaction *)

Definition other_utxo : TransactionOutput := make_output (with_type Standard) 10 50 22 [].
Definition other_body : TxBody :=
  new_sorted_unchecked [make_input other_utxo 10 50 30] [make_output (with_type Standard) 12 45 20 []] [make_kernel 0 5 1 None].
Definition other_tx : FullTransaction := {| tx_offset := of_z 1; tx_body := other_body; tx_script_offset := of_z 10 |}.

(** ** Facts *)

Lemma nop_script_ok : script_ok nop_script.
Proof. split; [repeat constructor|by vm_compute]. Qed.

Lemma with_type_ok t : features_ok (with_type t).
Proof. split; [by vm_compute|]. split; [by vm_compute|done]. Qed.

Lemma make_output_ok t k v o covenant : covenant_wf covenant -> output_ok (make_output (with_type t) k v o covenant).
Proof. intros Hc. split; [apply with_type_ok|]. split; [apply nop_script_ok|]. split; [exact Hc|]. split; [apply length_replicate|by vm_compute]. Qed.

Lemma empty_covenant_wf : covenant_wf [].
Proof. split; [done|]. exists []. split; [done|]. cbn. lia. Qed.

Lemma example_covenant_wf : covenant_wf example_covenant.
Proof.
  split; [repeat constructor; cbn; unfold NUM_FIELDS, is_u64, U64_MAX; lia|]. eexists. split; [by vm_compute|]. vm_compute. lia.
Qed.

Lemma example_outputs_ok : Forall output_ok (outputs example_body).
Proof. repeat constructor; apply make_output_ok, empty_covenant_wf. Qed.

Lemma example_utxo_ok : output_ok example_utxo.
Proof. apply make_output_ok, example_covenant_wf. Qed.

Lemma make_input_ok out k v y o : as_output (make_input out k v y) = Some o -> output_ok out -> output_ok o.
Proof. by intros [= <-]. Qed.

Lemma example_encodable : Forall encodable (outputs example_body).
Proof. eapply Forall_impl; [apply example_outputs_ok|apply output_ok_encodable]. Qed.

Lemma example_hashes_differ :
  ok_or_default [] (@output_hash _ _ _ CovenantError example_change) <> ok_or_default [] (@output_hash _ _ _ CovenantError example_burn).
Proof. apply (bool_decide_unpack _). by vm_compute. Qed.

Lemma example_distinct : outputs_distinct (outputs example_body).
Proof.
  intros i j a b h Hi Hj Ha Hb. destruct i as [|[|i]], j as [|[|j]]; cbn in Hi, Hj; try done; injection Hi as <-; injection Hj as <-;
    destruct example_hashes_differ; by rewrite Ha, Hb.
Qed.

Lemma example_count_10 : length (List.filter (sat {| cx_input := example_input; cx_block_height := 10 |} example_expr) (outputs example_body)) = 2%nat.
Proof. by vm_compute. Qed.

Lemma example_count_4 : length (List.filter (sat {| cx_input := example_input; cx_block_height := 4 |} example_expr) (outputs example_body)) = 0%nat.
Proof. by vm_compute. Qed.

Lemma example_index_ok : utxo_index_ok.
Proof.
  intros c h. cbn [fetch_unspent_output_hash_by_commitment fetch_output example_db]. case_decide; [|done]. intros [= <-]. exists example_utxo.
  rewrite decide_True by done. split; [done|]. split; [by vm_compute|apply example_utxo_ok].
Qed.

Lemma example_internal_valid : internal_validate example_validator example_body (of_z 1) (of_z 2) (Some 0) (Some (best_block example_tip)) 10 = Ok tt.
Proof. by vm_compute. Qed.

Lemma example_block_valid : validate_block 100 example_validator example_block = Some (Ok tt).
Proof. by vm_compute. Qed.

Lemma example_tx_valid : transaction_full_validate example_validator example_tx example_tip = Ok tt.
Proof. by vm_compute. Qed.

Lemma example_openings : body_openings example_body [(of_z 3, 200)] [(of_z 4, 90); (of_z 7, 100)] [of_z 7].
Proof. split; [repeat constructor|done|done|repeat constructor; by vm_compute|done]. Qed.

Lemma example_block_openings :
  body_openings (fb_body example_block) [(of_z 3, 200)] [(of_z 4, 90); (of_z 8, example_reward); (of_z 7, 100)] [of_z 8; of_z 7].
Proof. split; [repeat constructor|done|done|repeat constructor; by vm_compute|done]. Qed.

(** ** The theorems applied *)

Lemma covenant_encoding_roundtrip_witness : covenant_wf example_covenant /\
  exists b b', covenant_to_bytes example_covenant = Ok b /\ covenant_from_bytes b = Ok example_covenant /\
    covenant_borsh_serialize example_covenant = Ok b' /\ covenant_borsh_deserialize (b' ++ [1; 2]) = Ok (example_covenant, [1; 2]).
Proof. split; [apply example_covenant_wf|apply (covenant_encoding_roundtrip example_covenant [1; 2]), example_covenant_wf]. Defined.

Lemma covenant_execute_correct_witness : covenant_execute example_covenant 10 example_input (outputs example_body) = Ok 2 /\
  covenant_execute example_covenant 4 example_input (outputs example_body) = Err NoMatchingOutputs.
Proof.
  pose proof (covenant_execute_correct example_expr 10 example_input _ eq_refl example_encodable example_distinct) as H10.
  pose proof (covenant_execute_correct example_expr 4 example_input _ eq_refl example_encodable example_distinct) as H4.
  cbv zeta in H10, H4. rewrite example_count_10 in H10. rewrite example_count_4 in H4. by split.
Defined.

Lemma covenant_malformed_fails_witness :
  exists err, covenant_execute [Token_Filter F_And; Token_Filter F_Identity] 10 example_input (outputs example_body) = Err err.
Proof.
  pose proof (covenant_malformed_fails [Token_Filter F_And; Token_Filter F_Identity] 10 example_input (outputs example_body)) as H.
  rewrite decide_False in H by done. apply H; [apply example_encodable|].
  intros [] Heq; try discriminate Heq. injection Heq as _ Heq. by destruct (operands _) in Heq.
Defined.

Lemma validated_body_balances_witness : 190 + total_fees example_body = 200 + 0 \/
  double_opening (2 ^ 130) (opening_in (of_z 1, 0) [(of_z 3, 200)] [of_z 7]) (opening_out example_body [(of_z 4, 90); (of_z 7, 100)]).
Proof.
  apply (validated_body_balances _ _ _ _ _ _ _ _ _ _ (2 ^ 130) example_internal_valid example_openings); [by vm_compute|lia].
Defined.

Lemma aggregation_balances_witness : let t := add_no_cut_through example_tx other_tx in
  validate_kernel_sum (tx_body t) (commit_value (tx_offset t) 0) = Ok tt /\
  validate_script_and_script_offset (tx_body t) (pk_from_secret_key (tx_script_offset t)) None 10 = Ok tt.
Proof. apply (aggregation_balances example_tx other_tx None 10); [repeat constructor; by vm_compute|by vm_compute..]. Defined.

Lemma valid_block_emission_witness : exists emission, @get_block_reward_at ValidationError 100 example_manager 10 = Some (Ok emission) /\
  (190 + example_reward = 200 + emission \/ exists p q, double_opening (2 ^ 130) p q).
Proof.
  destruct (valid_block_emission 100 example_validator example_block _ _ _ (2 ^ 130) example_block_valid example_block_openings ltac:(lia))
    as (constants & emission & utxo & kernel & _ & Hr & _ & _ & _ & _ & Hs).
  exists emission. split; [exact Hr|]. destruct Hs as [Hs|Hs]; [left; exact Hs|right; by do 2 eexists].
Defined.

Lemma burned_outputs_matched_witness :
  map k_burn_commitment (filter (fun k => kernel_is_burned k = true) (kernels example_body)) ≡ₚ [Some (out_commitment example_burn)].
Proof. exact (burned_outputs_matched _ _ _ _ _ _ _ example_internal_valid). Defined.

Lemma validated_transaction_spends_witness :
  Forall (fun i => exists o o', as_output i = Some o /\ (unspent (out_commitment o) o' \/ o' ∈ outputs example_body) /\
    (same_contents o o' \/ hash_collision o o')) (inputs example_body).
Proof.
  apply (validated_transaction_spends example_validator example_tx example_tip); [apply example_tx_valid|apply example_index_ok| |apply example_outputs_ok].
  constructor; [|constructor]. intros o Ho. exact (make_input_ok example_utxo 3 200 9 o Ho example_utxo_ok).
Defined.

Lemma validated_covenants_hold_witness :
  Forall (fun i => exists c, in_covenant i = Ok c /\ (c = [] \/ exists e, c = tokens_of e /\
    (well_typed e = true -> exists o, o ∈ outputs example_body /\ sat {| cx_input := i; cx_block_height := 10 |} e o = true))) (inputs example_body) \/
  outputs_collide (outputs example_body).
Proof. exact (validated_covenants_hold _ _ _ _ _ _ _ example_internal_valid example_outputs_ok). Defined.
