(* ===== verification/ChainExamples.v ===== *)
(** * A chain with a fork

    On the model of [TxModel]: a genesis block with an output of 200, a block that spends it and a fork of two empty blocks; the theorems on the database applied to them. *)

From S2P Require Import Prelude ScriptTypes CryptoModel Opcodes ScriptStack TariScript ScriptEncoding Amounts Emission Difficulty ConsensusConstants ConsensusManager MmrCommon.
From S2P Require Import Covenants TxComponents MoneroMerkle MoneroMerkleSpec BlockHeader CovenantFilters CovenantSpec AggregatedBody BodyValidator BodyBalance OutputHash MergeMining BodyValidatorSpec.
From S2P Require Import ChainStorage ChainDatabase Reorg ChainTables ChainStorageSpec ChainRewind BlockReading ReorgSpec ReorgAtomic ChainStored TxModel TxExamples.

Local Open Scope Z_scope.

Import Mod256 TxMod256 MoneroMod.

(** ** Blocks *)

Definition make_data (hash : bytes) (difficulty : Z) : HeaderData :=
  {| acc_hash := hash; total_kernel_offset := of_z 0; achieved_difficulty := 1; total_accumulated_difficulty := difficulty;
     accumulated_monero_difficulty := 1; accumulated_sha_difficulty := difficulty; target_difficulty := 1 |}.

Definition make_header (height : Z) (prev : bytes) (nonce : Z) : BlockHeader :=
  {| bh_version := 0; bh_height := height; bh_prev_hash := prev; bh_timestamp := height; bh_output_mr := zero_hash; bh_witness_mr := zero_hash;
     bh_output_mmr_size := height + 1; bh_kernel_mr := zero_hash; bh_kernel_mmr_size := height + 1; bh_input_mr := zero_hash;
     bh_total_kernel_offset := of_z 0; bh_total_script_offset := of_z 0; bh_nonce := nonce; bh_pow := pow_default; bh_validator_node_mr := zero_hash |}.

Definition hash_0 : bytes := Eval vm_compute in bh_hash (make_header 0 zero_hash 0).
Definition hash_a : bytes := Eval vm_compute in bh_hash (make_header 1 hash_0 1).
Definition hash_b : bytes := Eval vm_compute in bh_hash (make_header 1 hash_0 2).
Definition hash_c : bytes := Eval vm_compute in bh_hash (make_header 2 hash_b 3).

Definition make_block (height : Z) (hash prev : bytes) (nonce : Z) (difficulty : Z) (body : TxBody) : ChainBlock :=
  {| cb_accumulated_data := make_data hash difficulty; cb_block := {| block_header := make_header height prev nonce; block_body := body |} |}.

Definition genesis_block : ChainBlock := make_block 0 hash_0 zero_hash 0 1 (new_sorted_unchecked [] [example_utxo] [make_kernel 0 0 5 None]).
Definition block_a : ChainBlock := make_block 1 hash_a hash_0 1 2 example_body.
Definition block_b : ChainBlock := make_block 1 hash_b hash_0 2 3 (new_sorted_unchecked [] [] []).
Definition block_c : ChainBlock := make_block 2 hash_c hash_b 3 4 (new_sorted_unchecked [] [] []).

(** ** Databases *)

Section Databases.
Context {C : ScriptCrypto} {CL : ScriptCryptoLaws C} {B : BorshPrims C} {X : TxCrypto C} {L : TxLaws X} {ML : MoneroLib}.

Definition lmdb_of (bs : list ChainBlock) : LMDBDatabase :=
  let c := map pair_of bs in
  {| header_tables := header_tables_of bs; block_accumulated_data_db := table_of id (accumulated_entries c); deleted_bitmap := deleted_of c;
     txo_tables := txo_tables_of (unspent_rows c) (rows c) (input_rows c); kernel_tables := kernel_tables_of (kernel_rows c);
     side_tables := {| db_validator_nodes := ∅; db_validator_nodes_mapping := ∅; template_registrations := ∅ |} |}.

(** The orphans of a pool, each with its data, of which some are tips. *)
Definition pool_of (l : list ChainBlock) (tips : list bytes) : OrphanTables :=
  {| orphans_db := list_to_map (map (fun b => (cb_hash b, cb_block b)) l); orphan_header_accumulated_data_db := list_to_map (map (fun b => (cb_hash b, cb_accumulated_data b)) l);
     orphan_chain_tips_db := list_to_map (map (fun h => (h, h)) tips);
     orphan_parent_map_index := foldr (fun b m => lmdb_insert_dup (bh_prev_hash (cb_header b)) (cb_hash b) m) ∅ l |}.

Definition database_of (bs pool : list ChainBlock) (tips : list bytes) : Database :=
  {| lmdb := lmdb_of bs; orphans := pool_of pool tips;
     metadata := {| md_tip := tip_of bs; md_accumulated_difficulty := 0; md_timestamp := 0; md_pruning_horizon := 0; md_pruned_height := 0; md_horizon_data := None |};
     monero_seed_height_db := ∅; reorgs := ∅; bad_blocks := ∅ |}.

Lemma lmdb_of_represents bs : blocks_ok bs -> represents (lmdb_of bs) (map pair_of bs).
Proof.
  intros Hok. split; try done. apply Forall_forall. intros x Hx. apply elem_of_map in Hx as (b & -> & Hb). cbn [fst pair_of].
  by destruct (header_lookup bs b Hok Hb) as (? & _ & ?).
Qed.

Lemma empty_pool_ok : pool_ok (pool_of [] []).
Proof. split; cbn; intros ? ? ?%lookup_empty_Some; done. Qed.

Lemma database_holds bs : blocks_ok bs -> Z.of_nat (length bs) <= U64_MAX -> holds (database_of bs [] []) bs.
Proof. intros Hok Hsz. split; [by apply lmdb_of_represents|done|done|done|apply empty_pool_ok|intros; apply lookup_empty|done]. Qed.

End Databases.

(** A validator that refuses the blocks with the given hashes. *)
Definition refusing (hashes : list bytes) : Validators := {|
  validate_internal_consistency _ := Ok tt;
  validate_body_with_metadata _ b _ := if decide (cb_hash b ∈ hashes) then Err BodyValidationFailed else Ok tt;
  validate_header _ _ _ _ := Err HeaderValidationFailed;
  check_achieved_and_target_difficulty _ _ := Err HeaderValidationFailed;
|}.

Definition example_comparer : Comparer := match @default_comparer bytes (@RistrettoSecretKey crypto) unit with Ok cmp => cmp | _ => fun _ _ => Eq end.

(** ** Facts *)

Ltac computed := apply (bool_decide_unpack _); vm_compute; exact I.

Lemma encodable_outputs l : Forall output_ok l -> Forall encodable l.
Proof. intros H. eapply Forall_impl; [exact H|apply output_ok_encodable]. Qed.

Lemma genesis_follows : follows [] genesis_block.
Proof.
  split; [|computed|done|computed|computed|done|by eexists|done]. split; try computed; try done.
  apply encodable_outputs. constructor; [apply example_utxo_ok|constructor].
Qed.

(** The output of the genesis block can be spent. *)
Lemma utxo_spendable b : spends (map pair_of [genesis_block]) b example_input.
Proof.
  exists example_utxo. split; [done|]. left. exists (output_row (cb_header genesis_block) 0 example_utxo). split; [|done].
  apply list_elem_of_filter. split; [computed|left].
Qed.

Lemma block_a_follows : follows [genesis_block] block_a.
Proof.
  split; [|computed|computed|computed|computed|by repeat split|by eexists|done]. split; try computed; try done.
  - apply encodable_outputs, example_outputs_ok.
  - constructor; [apply utxo_spendable|constructor].
Qed.

Lemma block_b_follows : follows [genesis_block] block_b.
Proof. split; [|computed|computed|computed|computed|by repeat split|by eexists|done]. split; try done; try constructor; computed. Qed.

Lemma block_c_follows : follows [block_b; genesis_block] block_c.
Proof. split; [|computed|computed|computed|computed|by repeat split|by eexists|done]. split; try done; try constructor; computed. Qed.

Lemma main_chain_ok : blocks_ok [block_a; genesis_block].
Proof. split; [apply block_a_follows|]. split; [apply genesis_follows|done]. Qed.

Definition example_database : Database := database_of [block_a; genesis_block] [block_b; block_c] [hash_c].

Lemma fork_pool_ok : pool_ok (pool_of [block_b; block_c] [hash_c]).
Proof.
  split; cbn [orphans_db orphan_header_accumulated_data_db orphan_chain_tips_db pool_of map list_to_map foldr].
  - intros h blk [[<- <-]|[_ [[<- <-]|[_ []%lookup_empty_Some]]%lookup_insert_Some]]%lookup_insert_Some; computed.
  - intros h blk [[<- <-]|[_ [[<- <-]|[_ []%lookup_empty_Some]]%lookup_insert_Some]]%lookup_insert_Some; computed.
  - intros h blk [[<- <-]|[_ [[<- <-]|[_ []%lookup_empty_Some]]%lookup_insert_Some]]%lookup_insert_Some; (split; [done|computed]).
  - intros h blk [[<- <-]|[_ []%lookup_empty_Some]]%lookup_insert_Some. split; [done|computed].
Qed.

Lemma example_holds : holds example_database [block_a; genesis_block].
Proof.
  split; [apply lmdb_of_represents, main_chain_ok|done|done|done|apply fork_pool_ok| |computed].
  intros b [->|[->|[]%not_elem_of_nil]%elem_of_cons]%elem_of_cons; computed.
Qed.

(** ** The theorems applied *)

(** A validator that refuses some blocks is sound on blocks that follow the chain. *)
Lemma refusing_sound hashes old chain : old <> [] -> Forall (fun b => bh_pow_algo (cb_header b) = Sha3) chain ->
  (forall added x rest, chain = added ++ x :: rest -> follows (rev added ++ old) x) -> Z.of_nat (length chain + length old) <= U64_MAX ->
  validator_sound (H := refusing hashes) example_manager old chain.
Proof.
  intros Hne Hal Hf Hsz added x rest db Heq Hh Hok Hx. cbn [validate_body_with_metadata refusing]. case_decide; [done|]. rewrite Heq, Forall_app, Forall_cons in Hal. destruct Hal as (_ & Hal & _).
  split; [by rewrite Hal|]. intros ops Hops. specialize (Hf added x rest Heq). destruct (write_best_block example_manager db (rev added ++ old) x Hh Hf Hok) as (ops' & db' & Hops' & Hw & _).
  - by destruct (rev added).
  - rewrite Heq, length_app in Hsz. cbn [length] in Hsz |- *. rewrite length_app, length_rev. lia.
  - intros blk Hblk. congruence.
  - assert (ops' = ops) as -> by congruence. by rewrite Hw.
Qed.

Lemma fork_follows added x rest : [block_b; block_c] = added ++ x :: rest -> follows (rev added ++ [genesis_block]) x.
Proof.
  destruct added as [|? [|? [|? added]]]; intros [=]; subst; [apply block_b_follows|apply block_c_follows].
Qed.

Lemma fork_sound hashes : validator_sound (H := refusing hashes) example_manager [genesis_block] [block_b; block_c].
Proof. apply refusing_sound; [done|by repeat constructor|apply fork_follows|computed]. Qed.

Definition succeeds {A} (m : Database * stored_result A) : bool := match m.2 with Ok _ => true | _ => false end.


(** The candidates of the example are the fork and its first block. *)
Lemma fork_links h chain : get_orphan_link_main_chain h example_database = Ok chain -> chain = [block_b; block_c] \/ chain = [block_b].
Proof.
  assert (get_orphan_link_main_chain hash_c example_database = Ok [block_b; block_c]) as H3 by vm_cast_no_check (@eq_refl (stored_result (list ChainBlock)) (Ok [block_b; block_c])).
  assert (get_orphan_link_main_chain hash_b example_database = Ok [block_b]) as H2 by vm_cast_no_check (@eq_refl (stored_result (list ChainBlock)) (Ok [block_b])).
  destruct (decide (h = hash_c)) as [->|Hn3]; [intros Hc; left; congruence|]. destruct (decide (h = hash_b)) as [->|Hn2]; [intros Hc; right; congruence|].
  unfold get_orphan_link_main_chain. cbn [orphan_link]. assert (fetch_orphan_chain_block h example_database = Ok None) as ->; [|done].
  unfold fetch_orphan_chain_block. assert (orphans_db (orphans example_database) !! h = None) as ->; [|done].
  cbn [orphans example_database database_of orphans_db pool_of map list_to_map foldr fst snd]. rewrite lookup_insert_ne by exact (not_eq_sym Hn2). rewrite lookup_insert_ne by exact (not_eq_sym Hn3). apply lookup_empty.
Qed.

Lemma first_sound hashes : validator_sound (H := refusing hashes) example_manager [genesis_block] [block_b].
Proof.
  apply refusing_sound; [done|by repeat constructor| |computed]. intros [|? [|? added]] x rest [=]; subst. apply block_b_follows.
Qed.

Lemma candidates_sound hashes h chain prev t old : get_orphan_link_main_chain h example_database = Ok chain -> [block_a; genesis_block] = prev ++ t :: old ->
  linked (cb_hash t) chain -> validator_sound (H := refusing hashes) example_manager (t :: old) chain.
Proof.
  intros Hc Hsplit Hl. assert (t = genesis_block /\ old = []) as [-> ->].
  { destruct prev as [|? [|? prev]]; injection Hsplit as ? ?; subst; [|done|by destruct prev]. destruct (fork_links h chain Hc) as [-> | ->]; by destruct Hl as [? _]. }
  destruct (fork_links h chain Hc) as [-> | ->]; [apply fork_sound|apply first_sound].
Qed.

Lemma fork_heights : pool_heights (orphans example_database).
Proof.
  intros h blk p. cbn [orphans example_database database_of orphans_db orphan_header_accumulated_data_db pool_of map list_to_map foldr fst snd].
  intros [[<- <-]|[_ [[<- <-]|[_ []%lookup_empty_Some]]%lookup_insert_Some]]%lookup_insert_Some _ Hp _; [|].
  - rewrite !lookup_insert_ne in Hp by done. by apply lookup_empty_Some in Hp.
  - change (bh_prev_hash (block_header (cb_block block_c))) with hash_b in Hp. change (cb_hash block_b) with hash_b in Hp. rewrite lookup_insert_eq in Hp. by injection Hp as <-.
Qed.


(** Deleting the block that spends the output of the genesis block. *)
Definition stored_genesis : LMDBDatabase := with_headers (header_tables_of [block_a; genesis_block]) (lmdb_of [genesis_block]).

Lemma block_store_delete_roundtrip_witness : exists db', insert_block_body example_manager (cb_header block_a) example_body stored_genesis = Ok db' /\
  represents db' (map pair_of [block_a; genesis_block]) /\ delete_block_body (bh_hash (cb_header block_a)) db' = Ok stored_genesis.
Proof.
  apply (block_store_delete_roundtrip example_manager stored_genesis (map pair_of [genesis_block]) (cb_header block_a) example_body).
  - apply represents_headers; [apply lmdb_of_represents; split; [apply genesis_follows|done]|apply main_chain_ok|set_solver].
  - apply (blocks_chain_ok [block_a; genesis_block]), main_chain_ok.
  - exact (proj1 (header_lookup _ block_a main_chain_ok ltac:(left))).
  - exact (proj2 (proj2 (header_lookup _ block_a main_chain_ok ltac:(left)))).
Defined.

(** The block of [TxExamples], validated on the tables that hold the genesis block. *)
Lemma block_outputs_ok : Forall output_ok (outputs (fb_body example_block)).
Proof.
  assert (output_ok example_coinbase) as Hc.
  { split; [split; [by vm_compute|]; split; [by vm_compute|done]|]. split; [apply nop_script_ok|]. split; [apply empty_covenant_wf|]. split; [apply length_replicate|by vm_compute]. }
  apply Forall_cons_2; [apply make_output_ok, empty_covenant_wf|]. apply Forall_cons_2; [exact Hc|]. apply Forall_cons_2; [apply make_output_ok, empty_covenant_wf|constructor].
Qed.

Lemma block_chain_validated : chain_validate (db := backend_of stored_genesis) example_manager (fb_body example_block) 10 = Ok (fb_body example_block).
Proof. vm_cast_no_check (@eq_refl (result ValidationError TxBody) (Ok (fb_body example_block))). Qed.

Lemma block_wf : outputs_wf (map pair_of [genesis_block]) (fb_body example_block).
Proof.
  split; [apply block_outputs_ok|]. split.
  - constructor; [|constructor]. intros o Ho. exact (make_input_ok example_utxo 3 200 9 o Ho example_utxo_ok).
  - constructor; [|constructor]. intros o [= <-]. apply example_utxo_ok.
Qed.

Lemma block_storable : storable (map pair_of [genesis_block]) (fb_body example_block).
Proof. split; computed. Qed.

Lemma validated_block_stored_witness :
  (exists db', insert_block_body example_manager (cb_header block_a) (fb_body example_block) stored_genesis = Ok db' /\
    represents db' ((cb_header block_a, fb_body example_block) :: map pair_of [genesis_block]) /\ chain_ok ((cb_header block_a, fb_body example_block) :: map pair_of [genesis_block])) \/
  collision_at_hand (map pair_of [genesis_block]) (fb_body example_block).
Proof.
  apply (validated_block_stored stored_genesis (map pair_of [genesis_block]) (cb_header block_a) (fb_body example_block) 100 example_validator example_block example_manager 10 (fb_body example_block)).
  - apply represents_headers; [apply lmdb_of_represents; split; [apply genesis_follows|done]|apply main_chain_ok|set_solver].
  - apply (blocks_chain_ok [genesis_block]). split; [apply genesis_follows|done].
  - split; [done|computed].
  - exact (proj1 (header_lookup _ block_a main_chain_ok ltac:(left))).
  - exact (proj2 (proj2 (header_lookup _ block_a main_chain_ok ltac:(left)))).
  - apply block_chain_validated.
  - apply example_block_valid.
  - done.
  - apply block_wf.
  - apply block_storable.
Defined.
