(* ===== verification/FullExamples.v ===== *)
(** * A block that passes all validators

    On the model of [TxModel] and the chain of [ChainExamples]: a block with a coinbase on the genesis block, whose header commits to the ranges with it; the theorems on the
    header synchronisation, the full validator and the block synchronisation applied to it. [LongChain] has a chain of headers of any length, with
    hashes that are cheap to compute, and the theorems on the header synchronisation protocol applied to it. *)

From S2P Require Import Prelude ScriptTypes CryptoModel Opcodes ScriptStack TariScript ScriptEncoding Amounts Emission Difficulty ConsensusConstants ConsensusManager MmrCommon Mmr MutableMmr BalancedMerkle.
From S2P Require Import Covenants TxComponents MoneroMerkle BlockHeader CovenantFilters CovenantSpec AggregatedBody BodyValidator BodyBalance OutputHash BodyValidatorSpec.
From S2P Require Import ChainStorage ChainDatabase Reorg HeaderValidator FullValidator ChainTables ChainStorageSpec ChainRewind BlockReading ReorgSpec HeaderSpec ReorgAtomic ChainStored.
From S2P Require Import FullValidatorSpec BlockSyncSpec ChunkIter HorizonSync SyncService HeaderChain HeaderSync HeaderSyncSpec TxModel TxExamples ChainExamples.
From Stdlib Require Import Ascii.

Local Open Scope Z_scope.

Import Mod256 TxMod256 MoneroMod.

(** ** Instances *)

#[local] Instance full_u256 : U256Ops := {| from_big_endian b := le_value (rev b); from_little_endian := le_value |}.
#[local] Instance full_epoch : EpochOps := {| increase := Z.add; since := Z.sub |}.
#[local] Instance full_mean : EpochMean := fun a b => (a + b) / 2.

#[local] Instance full_bitmap : CRoaring := {|
  Bitmap := gset Z; bitmap_create := ∅; bitmap_add i b := {[i]} ∪ b; bitmap_contains b i := bool_decide (i ∈ b); bitmap_cardinality b := Z.of_nat (size b);
  bitmap_or b b' := b ∪ b'; bitmap_remove_range_closed lo hi b := filter (fun i => ~ (lo <= i <= hi)) b; bitmap_run_optimize b := (false, b);
  bitmap_serialize b := elements b;
|}.

(** The same digest in domains of their own. *)
#[local] Instance full_hashers : BlockHashers := {|
  kernel_hasher := Mod256.digest 1; output_hasher := Mod256.digest 2; witness_hasher := Mod256.digest 3; input_hasher := Mod256.digest 4;
  validator_node_hasher := Mod256.digest 5; block_roaring := full_bitmap;
|}.

(** ** The block *)

Definition genesis_database : Database := database_of [genesis_block] [] [].

Definition reward_1 : Z := Eval vm_compute in match @get_block_reward_at unit 100 example_manager 1 with Some (Ok r) => r | _ => 0 end.
Definition coinbase_1 : TransactionOutput := make_output (create_coinbase 3 None) 8 reward_1 4 [].
Definition body_1 : TxBody := new_sorted_unchecked [] [coinbase_1] [make_kernel COINBASE_KERNEL 0 8 None].

Definition no_roots : MmrRoots :=
  {| mr_kernel_mr := []; mr_kernel_mmr_size := 0; mr_input_mr := []; mr_output_mr := []; mr_output_mmr_size := 0; mr_witness_mr := []; mr_validator_node_mr := [] |}.
Definition roots_1 : MmrRoots := Eval vm_compute in
  ok_or_default no_roots (calculate_mmr_roots example_manager genesis_database {| block_header := make_header 1 hash_0 7; block_body := body_1 |}).

Definition header_1 : BlockHeader :=
  {| bh_version := 0; bh_height := 1; bh_prev_hash := hash_0; bh_timestamp := 1; bh_output_mr := mr_output_mr roots_1; bh_witness_mr := mr_witness_mr roots_1;
     bh_output_mmr_size := 2; bh_kernel_mr := mr_kernel_mr roots_1; bh_kernel_mmr_size := 2; bh_input_mr := mr_input_mr roots_1; bh_total_kernel_offset := of_z 0;
     bh_total_script_offset := of_z 0; bh_nonce := 7; bh_pow := pow_default; bh_validator_node_mr := mr_validator_node_mr roots_1 |}.
Definition hash_1 : bytes := Eval vm_compute in bh_hash header_1.

Definition achieved_1 : AchievedTargetDifficulty := {| pow_algo := Sha3; achieved := 2; target := 1 |}.
Definition data_1 : HeaderData := Eval vm_compute in ok_or_default (make_data hash_1 2) (next_data (cb_accumulated_data genesis_block) header_1 achieved_1).
Definition block_1 : ChainBlock := {| cb_accumulated_data := data_1; cb_block := {| block_header := header_1; block_body := body_1 |} |}.

(** The database after the header is synchronised, and after the block is stored. *)
Definition headers_database : Database :=
  {| lmdb := with_headers (header_tables_of [block_1; genesis_block]) (lmdb_of [genesis_block]); orphans := orphans genesis_database; metadata := metadata genesis_database;
     monero_seed_height_db := ∅; reorgs := ∅; bad_blocks := ∅ |}.
Definition full_database : Database := database_of [block_1; genesis_block] [] [].

(** ** Facts *)

Lemma genesis_ok : blocks_ok [genesis_block].
Proof. split; [apply genesis_follows|done]. Qed.

Lemma coinbase_1_ok : output_ok coinbase_1.
Proof. split; [split; [by vm_compute|]; split; [by vm_compute|done]|]. split; [apply nop_script_ok|]. split; [apply empty_covenant_wf|]. split; [apply length_replicate|by vm_compute]. Qed.

Lemma block_1_follows : follows [genesis_block] block_1.
Proof.
  split; [|computed|computed|computed|computed|by repeat split|by eexists|done]. split; try computed; try done; try constructor; [|constructor].
  apply output_ok_encodable, coinbase_1_ok.
Qed.

Lemma block_1_ok : blocks_ok [block_1; genesis_block].
Proof. split; [apply block_1_follows|apply genesis_ok]. Qed.

Lemma block_1_validated db metadata : db = genesis_database -> metadata = Some (md_tip (ChainDatabase.metadata genesis_database)) ->
  full_validate example_manager 100 true db (cb_block block_1) metadata = Ok (cb_block block_1).
Proof. intros -> ->. vm_cast_no_check (@eq_refl (result CandidateError Block) (Ok (cb_block block_1))). Qed.

Lemma header_1_validated : header_validate example_manager false 10 genesis_database header_1 (cb_header genesis_block) [0] None = Ok achieved_1.
Proof. vm_cast_no_check (@eq_refl (result HeaderError AchievedTargetDifficulty) (Ok achieved_1)). Qed.

(** ** The theorems applied *)

Lemma validated_block_follows_witness :
  (follows [genesis_block] block_1 /\ sizes_ok [block_1; genesis_block] /\ commits (cb_header block_1) (map pair_of [block_1; genesis_block])) \/
  collision_at_hand (map pair_of [genesis_block]) body_1.
Proof.
  apply (validated_block_follows example_manager 100 true 10 genesis_database genesis_database genesis_block [] block_1 (cb_header genesis_block) [0] achieved_1).
  - apply database_holds; [apply genesis_ok|computed].
  - apply genesis_ok.
  - split; [computed|]. split; [computed|done].
  - apply header_1_validated.
  - by apply block_1_validated.
  - computed.
  - computed.
  - split; [constructor; [apply coinbase_1_ok|constructor]|]. split; [constructor|]. constructor; [|constructor]. intros o [= <-]. apply example_utxo_ok.
  - split; computed.
Defined.

(** The synchronisation of the header, from the genesis block. *)
Definition initial_state : option SyncState := match initialize_state example_manager hash_0 genesis_database with Ok s => Some s | _ => None end.
Definition synced_state : option SyncState := s ← initial_state; match sync_headers example_manager 10 [header_1] genesis_database s with Ok s => Some s | _ => None end.

Lemma sync_windows_agree_witness : exists state, synced_state = Some state /\
  fetch_target_difficulty_for_next_block example_manager Sha3 (bh_hash header_1) full_database = Ok (targets_get Sha3 (ss_target_difficulties state)).
Proof.
  assert (ss_valid_headers <$> synced_state = Some [linked_of block_1]) as Hs by vm_cast_no_check (@eq_refl (option (list LinkedHeader)) (Some [linked_of block_1])).
  unfold synced_state, initial_state in *. destruct (initialize_state example_manager hash_0 genesis_database) as [s0| |] eqn:H0; [|discriminate Hs..]. cbn [mbind option_bind] in *.
  destruct (sync_headers example_manager 10 [header_1] genesis_database s0) as [state| |] eqn:H1; [|discriminate Hs..]. exists state. split; [done|].
  destruct (@new_target_difficulty ChainStorageError example_manager Monero 1) as [wm| |] eqn:Hm; [|vm_compute in Hm; discriminate Hm..].
  destruct (@new_target_difficulty ChainStorageError example_manager Sha3 1) as [ws| |] eqn:Hw; [|vm_compute in Hw; discriminate Hw..].
  apply (sync_windows_agree example_manager Sha3 10 genesis_database full_database genesis_block [] [header_1] s0 state [block_1] wm ws).
  - apply database_holds; [apply genesis_ok|computed].
  - apply genesis_ok.
  - apply database_holds; [apply block_1_ok|computed].
  - apply block_1_ok.
  - exact Hm.
  - exact Hw.
  - assert (bh_hash (cb_header genesis_block) = hash_0) as -> by computed. exact H0.
  - exact H1.
  - by injection Hs.
  - rewrite <- Hw. vm_compute. exact eq_refl.
Defined.

(** The stream with the block: the block becomes the tip. *)
Definition item_1 (body : option TxBody) : StreamBlock := {| sb_hash := hash_1; sb_body := body; sb_slow := false |}.
Definition sync_ok {A} (r : Database * result BlockSyncError A) : bool := match r.2 with Ok _ => true | _ => false end.

Lemma sync_blocks_stores_witness : exists db' x, sync_blocks example_manager 100 true [Some (item_1 (Some body_1))] hash_0 headers_database = (db', Ok tt) /\
  stores example_manager 100 true hash_0 headers_database (item_1 (Some body_1)) x db' /\ best_block (md_tip (metadata db')) = bh_hash (lh_header x.1).
Proof.
  assert (sync_ok (sync_blocks example_manager 100 true [Some (item_1 (Some body_1))] hash_0 headers_database) = true) as Hr by (vm_compute; exact eq_refl).
  destruct (sync_blocks example_manager 100 true [Some (item_1 (Some body_1))] hash_0 headers_database) as [db' [[]| |]] eqn:Hs; [|discriminate Hr..].
  destruct (sync_blocks_stores example_manager 100 true [Some (item_1 (Some body_1))] hash_0 headers_database db' (Ok tt) Hs) as (items & rest & xs & db1 & Hst & Hall & Hsame & _ & _ & Hlast & Hok).
  specialize (Hok eq_refl). subst rest. rewrite app_nil_r in Hst. destruct items as [|i [|]]; [discriminate Hst| |discriminate Hst]. injection Hst as <-.
  inversion Hall as [|prev db item x db2 items xs' db3 Hx Hnil]; subst. inversion Hnil; subst. exists db', x. split; [exact eq_refl|]. split; [|exact (Hlast x eq_refl)].
  destruct Hsame as [Hl Hm]. destruct Hx as [X1 X2 X3 X4 X5 X6 X7]. rewrite <- Hl, <- Hm in *. split; assumption.
Defined.

(** An empty body for the header of the valid block. *)
Lemma invalid_body_blacklists_header_witness :
  bad_block_exists hash_1 (sync_block example_manager 100 true (item_1 (Some body_empty)) hash_0 headers_database).1 = true /\
  forall at_, header_validate example_manager false 10 (sync_block example_manager 100 true (item_1 (Some body_empty)) hash_0 headers_database).1 header_1 (cb_header genesis_block) [0] None <> Ok at_.
Proof.
  assert (bh_hash header_1 = hash_1) as Hh by computed.
  pose proof (invalid_body_blacklists_header example_manager 100 true (item_1 (Some body_empty)) hash_0 headers_database {| lh_header := header_1; lh_accumulated_data := data_1 |}
    {| block_header := header_1; block_body := body_empty |} (FullValidationError (ValTransactionError NoCoinbase))) as H.
  destruct H as (_ & Hbad & Hval).
  - vm_cast_no_check (@eq_refl (result BlockSyncError (LinkedHeader * Block)) (Ok ({| lh_header := header_1; lh_accumulated_data := data_1 |}, {| block_header := header_1; block_body := body_empty |}))).
  - vm_cast_no_check (@eq_refl (result CandidateError Block) (Err (FullValidationError (ValTransactionError NoCoinbase)))).
  - done.
  - apply lookup_empty.
  - computed.
  - split; [|intros at_; apply Hval]. cbn [lh_header] in Hbad. rewrite Hh in Hbad. exact Hbad.
Defined.


(** ** Long chains of headers

    The hash of a header is its nonce, and every header has the difficulty 1. *)

Module LongChain.

Definition last_bytes (b : bytes) : bytes := take 32 (drop (length b - 8) b ++ replicate 32 0).

#[local] Instance light_crypto : ScriptCrypto := {|
  RistrettoPublicKey := ascii; pk_from_bytes := dec; pk_as_bytes := enc; pk_add := add; pk_default := of_z 0;
  RistrettoSecretKey := ascii; sk_from_bytes := dec; sk_as_bytes := enc; pk_from_secret_key k := k;
  PedersenCommitment := ascii; com_from_bytes := dec; com_as_bytes := enc; com_default := of_z 0; com_add := add; com_sub := sub;
  RistrettoSchnorr := schnorr; sig_new := Build_schnorr; get_public_nonce := nonce; get_signature := response;
  sig_add s t := {| nonce := add (nonce s) (nonce t); response := add (response s) (response t) |}; verify_challenge := schnorr_verify;
  blake256 := last_bytes; sha256 := last_bytes; sha3_256 := fun _ => replicate 32 255;
  encode_var_u64 := enc_word; decode_var_u64 := dec_word; encode_var_i64 := enc_word; decode_var_i64 := dec_signed; write_varint := enc_word;
  read_varint b := '(v, n) ← dec_word b; Some (v, drop n b);
|}.

Lemma last_bytes_length b : length (last_bytes b) = 32%nat.
Proof. unfold last_bytes. rewrite length_take, length_app, length_replicate. lia. Qed.

#[local] Instance light_laws : ScriptCryptoLaws light_crypto.
Proof. pose proof Mod256.laws as []. split; try assumption; apply last_bytes_length || (intros; apply length_replicate). Qed.

#[local] Instance light_borsh : BorshPrims light_crypto := {|
  pk_serialize := (enc : @RistrettoPublicKey light_crypto -> bytes); pk_deserialize := (read_point : bytes -> option (@RistrettoPublicKey light_crypto * bytes));
  com_serialize := (enc : @PedersenCommitment light_crypto -> bytes); com_deserialize := (read_point : bytes -> option (@PedersenCommitment light_crypto * bytes));
  u64_serialize := le_bytes 8; u64_deserialize := read_le 8; vec_u8_serialize b := le_bytes 4 (Z.of_nat (length b)) ++ b; vec_u8_deserialize := read_vec;
  read_varint_u16 := read_u16;
|}.

#[local] Instance light_tx : TxCrypto light_crypto := {|
  pk_sub := (sub : @RistrettoPublicKey light_crypto -> _ -> _); sk_default := (of_z 0 : @RistrettoSecretKey light_crypto);
  sk_add := (add : @RistrettoSecretKey light_crypto -> _ -> _); sk_mul := fun x y => of_z (to_z x * to_z y); sk_from_u64 := of_z;
  as_public_key := fun c => c; commit_value := commit; com_compare := fun a b => to_z a ?= to_z b; sig_compare := fun a b => sig_key a ?= sig_key b;
  sig_serialize := fun s => enc (nonce s) ++ enc (response s); sk_serialize := (enc : @RistrettoSecretKey light_crypto -> bytes);
  u16_serialize := le_bytes 2; u16_deserialize := read_le 2; u32_serialize := le_bytes 4; u32_deserialize := read_le 4; ComAndPubSignature := com_sig;
  cps_serialize := fun s => enc (e_com s) ++ enc (e_pk s) ++ enc (s_a s) ++ enc (s_x s) ++ enc (s_y s);
  ephemeral_commitment := e_com; ephemeral_pubkey := e_pk; u_a := s_a; cps_verify_challenge := com_sig_verify;
  verify_batch := fun proofs statements => bool_decide (length proofs = length statements);
  domain_tag := fun d label => domain_byte d :: map to_z (String.list_ascii_of_string label);
|}.

#[local] Instance light_tx_laws : TxLaws light_tx.
Proof. pose proof tx_laws as []. split; assumption. Qed.

(** *** Headers and blocks *)

Definition light_hash (nonce : Z) : bytes := le_bytes 8 nonce ++ replicate 24 0.

Definition light_header (height nonce : Z) (prev : bytes) : BlockHeader :=
  {| bh_version := 0; bh_height := height; bh_prev_hash := prev; bh_timestamp := 120 * height; bh_output_mr := zero_hash; bh_witness_mr := zero_hash;
     bh_output_mmr_size := height; bh_kernel_mr := zero_hash; bh_kernel_mmr_size := height; bh_input_mr := zero_hash; bh_total_kernel_offset := of_z 0;
     bh_total_script_offset := of_z 0; bh_nonce := nonce; bh_pow := pow_default; bh_validator_node_mr := zero_hash |}.

Definition light_data (hash : bytes) (difficulty : Z) : HeaderData :=
  {| acc_hash := hash; total_kernel_offset := of_z 0; achieved_difficulty := 1; total_accumulated_difficulty := difficulty;
     accumulated_monero_difficulty := 1; accumulated_sha_difficulty := difficulty; target_difficulty := 1 |}.

(** The header at a height has the height as its nonce. *)
Definition main_header (k : Z) : BlockHeader := light_header k k (if k =? 0 then zero_hash else light_hash (k - 1)).
Definition linked (k : Z) : LinkedHeader := {| lh_header := main_header k; lh_accumulated_data := light_data (light_hash k) (k + 1) |}.
Definition fork_header : BlockHeader := light_header 1 5000 (light_hash 0).

Definition light_block (header : BlockHeader) (data : HeaderData) : ChainBlock :=
  {| cb_accumulated_data := data; cb_block := {| block_header := header; block_body := new_sorted_unchecked [] [] [] |} |}.
Definition block_0 : ChainBlock := light_block (main_header 0) (light_data (light_hash 0) 1).
Definition fork_block : ChainBlock := light_block fork_header (light_data (light_hash 5000) 2).

(** The first [n] headers, the last first, and those after the first. *)
Definition chain (n : nat) : list LinkedHeader := map (fun i => linked (Z.of_nat i)) (rev (seq 0 n)).
Definition ahead (n : nat) : list LinkedHeader := map (fun i => linked (Z.of_nat i)) (seq 1 n).

Definition light_database : Database := database_of [block_0] [] [].
Definition forked_database : Database := database_of [fork_block; block_0] [] [].

(** A peer with [n] blocks after the first one. *)
Definition peer_database (n : nat) : Database :=
  {| lmdb := with_headers (headers_of (chain (S n))) (lmdb light_database); orphans := orphans light_database;
     metadata := {| md_tip := {| height_of_longest_chain := Z.of_nat n; best_block := light_hash (Z.of_nat n) |}; md_accumulated_difficulty := 0; md_timestamp := 0;
                    md_pruning_horizon := 0; md_pruned_height := 0; md_horizon_data := None |};
     monero_seed_height_db := ∅; reorgs := ∅; bad_blocks := ∅ |}.

Definition noon (height : Z) : Z := 1000000.
Definition light_comparer : @Comparer bytes (@RistrettoSecretKey light_crypto) := match @default_comparer bytes (@RistrettoSecretKey light_crypto) unit with Ok cmp => cmp | _ => fun _ _ => Eq end.
Definition peer_id : bytes := [7].
Definition starting db : HeaderSyncState := {| hy_db := db; hy_bans := [] |}.

(** *** Facts *)

Lemma last_bytes_app b v : last_bytes (b ++ le_bytes 8 v) = light_hash v.
Proof.
  unfold last_bytes. rewrite length_app, length_le_bytes, Nat.add_sub, drop_app_length. rewrite take_app_ge by (rewrite length_le_bytes; lia).
  rewrite length_le_bytes. done.
Qed.

Lemma light_header_hash height nonce prev : bh_hash (light_header height nonce prev) = light_hash nonce.
Proof. unfold bh_hash, consensus_hash. cbn [concat blake256 light_crypto u64_serialize light_borsh light_header bh_nonce]. rewrite app_nil_r, !app_assoc. apply last_bytes_app. Qed.

Lemma linked_hash k : hash_at (linked k) = light_hash k.
Proof. apply light_header_hash. Qed.

Lemma light_hash_inj v w : 0 <= v <= U64_MAX -> 0 <= w <= U64_MAX -> light_hash v = light_hash w -> v = w.
Proof.
  unfold U64_MAX. intros Hv Hw [Heq _]%app_inj_1; [|by rewrite !length_le_bytes]. apply (f_equal le_value) in Heq. rewrite !le_value_bytes in Heq.
  change (256 ^ Z.of_nat 8) with (2 ^ 64) in Heq. rewrite !Z.mod_small in Heq by lia. done.
Qed.

Lemma chain_S n : chain (S n) = linked (Z.of_nat n) :: chain n.
Proof. unfold chain. rewrite seq_S, rev_app_distr. done. Qed.

Lemma chain_length n : length (chain n) = n.
Proof. unfold chain. by rewrite length_map, length_rev, length_seq. Qed.

Lemma chain_fresh {A} (f : LinkedHeader -> A) n : (forall i, (i < n)%nat -> f (linked (Z.of_nat n)) <> f (linked (Z.of_nat i))) -> f (linked (Z.of_nat n)) ∉ map f (chain n).
Proof. intros Hf (h & Heq & (i & -> & Hi)%elem_of_map)%elem_of_map. rewrite <- Permutation_rev in Hi. apply elem_of_seq in Hi. by apply (Hf i); [lia|]. Qed.

Lemma chain_ok n : Z.of_nat n <= U64_MAX -> headers_ok (chain n).
Proof.
  induction n as [|n IH]; [done|]. intros Hn. rewrite chain_S. split; [|apply IH; lia]. split.
  - by rewrite chain_length.
  - by rewrite linked_hash.
  - destruct n as [|n]; [done|]. rewrite chain_S, linked_hash. cbn [lh_header linked main_header light_header bh_prev_hash]. destruct (Z.eqb_spec (Z.of_nat (S n)) 0); [lia|]. f_equal. lia.
  - apply chain_fresh. intros i Hi. rewrite !linked_hash. intros Heq%light_hash_inj; lia.
  - apply (chain_fresh (fun h => bh_kernel_mmr_size (lh_header h))). cbn. lia.
  - apply (chain_fresh (fun h => bh_output_mmr_size (lh_header h))). cbn. lia.
Qed.

Lemma chain_above n : exists above, chain (S n) = above ++ map linked_of [block_0].
Proof. induction n as [|n [above IH]]; [by exists []|]. rewrite chain_S, IH. by eexists (_ :: _). Qed.

Lemma ahead_chain n : rev (ahead n) ++ [linked 0] = chain (S n).
Proof. unfold ahead, chain. rewrite <- map_rev. cbn [seq rev]. rewrite map_app. done. Qed.

Lemma light_block_ok : blocks_ok [block_0].
Proof. split; [|done]. split; [|computed|done|computed|computed|done|by eexists|done]. split; try computed; done. Qed.

Lemma fork_block_ok : blocks_ok [fork_block; block_0].
Proof.
  split; [|apply light_block_ok]. split; [|computed|computed|computed|computed|by repeat split|by eexists|done]. split; try computed; done.
Qed.

Lemma light_state : header_state (chain 1) [block_0] light_database.
Proof. apply (holds_state [block_0]); [|apply light_block_ok|done]. apply database_holds; [apply light_block_ok|computed]. Qed.

Lemma forked_state : header_state ([linked_of fork_block] ++ [linked 0]) [fork_block; block_0] forked_database.
Proof. apply (holds_state [fork_block; block_0]); [|apply fork_block_ok|done]. apply database_holds; [apply fork_block_ok|computed]. Qed.

Lemma long_state n : Z.of_nat (S n) <= U64_MAX -> header_state (chain (S n)) [block_0] (store_headers (chain (S n)) light_database).
Proof. intros Hn. apply (state_store (chain 1)); [apply light_state|by apply chain_ok|rewrite chain_length; lia|apply chain_above]. Qed.

Lemma peer_serves n : Z.of_nat n + 2000 <= U64_MAX -> serves_headers (peer_database n) (rev (ahead n) ++ [linked 0]).
Proof. intros Hn. rewrite ahead_chain. split; [split; [done|apply chain_ok; lia]|cbn [metadata peer_database md_tip height_of_longest_chain]; rewrite chain_length; lia|rewrite chain_length; lia]. Qed.

(** The headers are validated, from the first one. *)
Definition validated (n : nat) db : result HeaderError SyncState :=
  st ← map_err HeaderStorageError (initialize_state example_manager (light_hash 0) db);
  foldM (fun st header => snd <$> sync_validate example_manager (noon (bh_height header)) header db st) (map lh_header (ahead n)) st.
Definition valid_headers (r : result HeaderError SyncState) : option (list LinkedHeader) := match r with Ok st => Some (ss_valid_headers st) | _ => None end.

Lemma batch_validated : valid_headers (validated 1000 light_database) = Some (ahead 1000).
Proof. vm_cast_no_check (@eq_refl (option (list LinkedHeader)) (Some (ahead 1000))). Qed.

Lemma two_validated : valid_headers (validated 2 forked_database) = Some (ahead 2).
Proof. vm_cast_no_check (@eq_refl (option (list LinkedHeader)) (Some (ahead 2))). Qed.

Lemma validated_accepted n db top : has_headers (top ++ [linked 0]) db -> valid_headers (validated n db) = Some (ahead n) ->
  exists st st', initialize_state example_manager (hash_at (linked 0)) db = Ok st /\ accepts example_manager noon db st (ahead n) st'.
Proof.
  intros Hh. rewrite linked_hash. unfold validated. destruct (initialize_state example_manager (light_hash 0) db) as [st| |] eqn:Hi; [|done|done]. cbn [map_err mbind result_bind].
  destruct (foldM _ _ st) as [st'| |] eqn:Hf; [|done|done]. cbn [valid_headers]. intros [= Hv]. exists st, st'. split; [done|].
  destruct (validated_accepts example_manager noon db _ _ _ Hf) as (new & _ & Ha). rewrite (accepts_valid _ _ _ _ _ _ Ha) in Hv. rewrite <- (linked_hash 0) in Hi.
  assert (ss_valid_headers st = []) as Hnil by (by destruct (initialized_at example_manager top (linked 0) [] db st Hh Hi) as (? & ? & ? & ? & ?)).
  rewrite Hnil in Hv. cbn [app] in Hv. by subst new.
Qed.

Lemma light_comparer_default : @default_comparer bytes (@RistrettoSecretKey light_crypto) unit = Ok light_comparer.
Proof. unfold light_comparer. destruct (@default_comparer bytes (@RistrettoSecretKey light_crypto) unit) eqn:Hc; [done| |]; vm_compute in Hc; discriminate Hc. Qed.

Lemma two_better : better_peer example_manager noon forked_database (peer_database 2) [fork_block; block_0] [linked_of fork_block] (linked 0) [] (ahead 2) (linked 2).
Proof.
  split.
  - apply forked_state.
  - apply peer_serves. computed.
  - constructor; [computed|constructor].
  - unfold NUM_CHAIN_SPLIT_HEADERS, MAX_CHAIN_SPLIT_ITERS. cbn [length]. lia.
  - apply (validated_accepted 2 forked_database [linked_of fork_block]); [apply (state_headers _ _ _ forked_state)|apply two_validated].
  - done.
  - intros tip [= <-]. computed.
Qed.

Lemma batch_better : better_peer example_manager noon light_database (peer_database 1000) [block_0] [] (linked 0) [] (ahead 1000) (linked 1000).
Proof.
  split.
  - apply light_state.
  - apply peer_serves. computed.
  - constructor.
  - unfold NUM_CHAIN_SPLIT_HEADERS, MAX_CHAIN_SPLIT_ITERS. cbn [length]. lia.
  - apply (validated_accepted 1000 light_database []); [apply (state_headers _ _ _ light_state)|apply batch_validated].
  - unfold ahead. rewrite seq_S, map_app. apply last_snoc.
  - intros tip [= <-]. computed.
Qed.

(** *** The theorems applied *)

(** The node drops its block and takes the two headers of the peer. *)
Lemma header_sync_completes_witness : exists s',
  synchronize_header_rounds example_manager [] noon light_comparer 2 [[header_peer peer_id 3 10 (peer_database 2)]] (starting forked_database) = (s', Some (Ok peer_id)) /\
  header_state (chain 3) [block_0] (hy_db s') /\ hy_bans s' = [].
Proof.
  destruct (header_sync_completes example_manager [] noon light_comparer 2 peer_id 10 (peer_database 2) [fork_block; block_0] [linked_of fork_block] (linked 0) [] (ahead 2) (linked 2)
    (starting forked_database) [] []) as (s' & Hs & Hstate & Hbans).
  - exact light_comparer_default.
  - exact two_better.
  - discriminate.
  - cbn [length ahead map seq]. lia.
  - rewrite ahead_chain in Hstate. exists s'. split; [exact Hs|split; [exact Hstate|exact Hbans]].
Defined.

Lemma header_sync_verified_witness : exists hs' bs' removed,
  let s' := (synchronize_header_rounds example_manager [] noon light_comparer 2 [[header_peer peer_id 3 10 (peer_database 2)]] (starting forked_database)).1 in
  rtc (header_move example_manager) [linked_of fork_block; linked 0] hs' /\ header_state hs' bs' (hy_db s') /\ [fork_block; block_0] = removed ++ bs'.
Proof.
  apply (header_sync_verified example_manager [] noon light_comparer 2 [[header_peer peer_id 3 10 (peer_database 2)]] [linked_of fork_block; linked 0] [fork_block; block_0] (starting forked_database) _
    (synchronize_header_rounds example_manager [] noon light_comparer 2 [[header_peer peer_id 3 10 (peer_database 2)]] (starting forked_database)).2).
  - exact light_comparer_default.
  - exact forked_state.
  - apply surjective_pairing.
Defined.

Lemma full_batch_bans_peer_witness : exists s' bs' removed,
  synchronize_header_rounds example_manager [] noon light_comparer 1 [[header_peer peer_id 1001 1001 (peer_database 1000)]] (starting light_database) = (s', Some (Err SyncFailedAllPeers)) /\
  header_state (chain 1001) bs' (hy_db s') /\ [block_0] = removed ++ bs' /\
  hy_bans s' = [{| ban_node_id := peer_id; ban_period := BanLong; ban_reason := BanInaccurateChainMetadata 1001 0 1 |}].
Proof.
  destruct (full_batch_bans_peer example_manager [] noon light_comparer 1 peer_id 1001 (peer_database 1000) [block_0] [] (linked 0) [] (ahead 1000) (linked 1000) (linked 0)
    (starting light_database)) as (s' & bs' & removed & Hs & Hstate & Hb & Hbans).
  - exact light_comparer_default.
  - exact batch_better.
  - unfold ahead. rewrite length_map, length_seq. reflexivity.
  - unfold ahead. rewrite length_map, length_seq. lia.
  - computed.
  - computed.
  - reflexivity.
  - rewrite ahead_chain in Hstate. exists s', bs', removed. split; [exact Hs|split; [exact Hstate|split; [exact Hb|exact Hbans]]].
Defined.

(** A peer that finds none of the first hashes, and the last index there is with the others. *)
Definition bad_index : FindChainSplitResponse := {| fs_fork_hash_index := Z.to_N U64_MAX; fs_headers := []; fs_tip_height := 0 |}.
Definition aborting_peer : HeaderPeer := {|
  hp_node_id := peer_id; hp_claimed := 0; hp_connect := None; hp_slow := false;
  hp_find_chain_split := fun hashes _ => if bool_decide (light_hash 599 ∈ hashes) then Err (RequestFailed RpcNotFound) else Ok bad_index;
  hp_sync_headers := fun _ _ => Ok []; hp_bannable := true;
|}.

Lemma split_index_aborts_witness :
  synchronize_header_rounds example_manager [] noon light_comparer 1 [[aborting_peer]] (starting (store_headers (chain 600) light_database)) = (starting (store_headers (chain 600) light_database), Some Panic).
Proof.
  apply (split_index_aborts example_manager [] noon light_comparer 1 (chain 600) [block_0] (starting (store_headers (chain 600) light_database)) aborting_peer [] [] bad_index).
  - apply long_state. computed.
  - rewrite chain_length. unfold NUM_CHAIN_SPLIT_HEADERS. lia.
  - reflexivity.
  - reflexivity.
  - vm_cast_no_check (@eq_refl (result RpcError FindChainSplitResponse) (Err (RequestFailed RpcNotFound))).
  - vm_cast_no_check (@eq_refl (result RpcError FindChainSplitResponse) (Ok bad_index)).
  - computed.
Defined.

End LongChain.
