(* ===== verification/HorizonExamples.v ===== *)
(** * A horizon synchronisation that completes

    On the model of [TxModel]: a first block that balances, and a block that spends its output; a node with their headers synchronises the state with a peer that
    has both. The theorems on the horizon synchronisation and the sync service applied to them. *)

From S2P Require Import Prelude ScriptTypes CryptoModel Opcodes ScriptStack TariScript ScriptEncoding Amounts Emission Difficulty ConsensusConstants ConsensusManager MmrCommon Mmr MutableMmr BalancedMerkle.
From S2P Require Import Covenants TxComponents MoneroMerkle BlockHeader CovenantFilters CovenantSpec AggregatedBody BodyValidator BodyBalance OutputHash BodyValidatorSpec.
From S2P Require Import ChainStorage ChainDatabase Reorg HeaderValidator FullValidator ChainTables ChainStorageSpec ChainRewind BlockReading ReorgSpec HeaderSpec ReorgAtomic ChainStored.
From S2P Require Import FullValidatorSpec BlockSyncSpec ChunkIter HorizonSync SyncService ChainBalance SyncServed HorizonKernels HorizonSafe HorizonOutputs HorizonFinal HorizonLive.
From S2P Require Import TxModel TxExamples ChainExamples FullExamples.

Local Open Scope Z_scope.

Import Mod256 TxMod256 MoneroMod.

(** ** Instances *)

#[local] Existing Instance full_bitmap.
#[local] Existing Instance full_hashers.

#[local] Instance set_decoder : BitmapDecoder := fun b => Some (list_to_set b).

#[local] Instance set_codec : BitmapCodec.
Proof.
  intros s. unfold try_deserialize, set_decoder, serialize_set. cbn [bitmap_serialize block_roaring full_hashers full_bitmap bitmap_add bitmap_create]. f_equal. rewrite list_to_set_elements_L.
  rewrite <- (list_to_set_elements_L s) at 2. induction (elements s) as [|i l IH]; [done|]. cbn [foldr list_to_set]. by rewrite IH.
Qed.

#[local] Instance counting_batches : BatchLaws tx_crypto.
Proof.
  intros ps ss. cbn. rewrite bool_decide_eq_true. split; [|by intros ?%Forall2_length]. intros Hl. apply Forall2_same_length_lookup_2; [done|]. intros. by apply bool_decide_eq_true.
Qed.

(** ** The chain *)

Definition faucet : Z := Eval vm_compute in match @consensus_constants unit example_manager 1 with Ok c => faucet_value c | _ => 0 end.

(** The key of the kernel makes the first block balance. *)
Definition first_key : Z := Eval vm_compute in (10 + 7 * 50 - 7 * (initial example_schedule + faucet)) mod 256.
Definition first_block : ChainBlock := make_block 0 hash_0 zero_hash 0 1 (new_sorted_unchecked [] [other_utxo] [make_kernel 0 0 first_key None]).

Definition coinbase_h : TransactionOutput := make_output (create_coinbase 3 None) 8 (reward_1 + 5) 4 [].
Definition body_h : TxBody := new_sorted_unchecked (inputs other_body) (outputs other_body ++ [coinbase_h]) (make_kernel COINBASE_KERNEL 0 8 None :: kernels other_body).

Definition roots_h : MmrRoots := Eval vm_compute in
  ok_or_default no_roots (calculate_mmr_roots example_manager (database_of [first_block] [] []) {| block_header := make_header 1 hash_0 7; block_body := body_h |}).
Definition header_h : BlockHeader :=
  {| bh_version := 0; bh_height := 1; bh_prev_hash := hash_0; bh_timestamp := 1; bh_output_mr := mr_output_mr roots_h; bh_witness_mr := mr_witness_mr roots_h;
     bh_output_mmr_size := 3; bh_kernel_mr := mr_kernel_mr roots_h; bh_kernel_mmr_size := 3; bh_input_mr := mr_input_mr roots_h; bh_total_kernel_offset := of_z 1;
     bh_total_script_offset := of_z 10; bh_nonce := 7; bh_pow := pow_default; bh_validator_node_mr := mr_validator_node_mr roots_h |}.
Definition hash_h : bytes := Eval vm_compute in bh_hash header_h.
Definition data_h : HeaderData := Eval vm_compute in ok_or_default (make_data hash_h 2) (next_data (cb_accumulated_data first_block) header_h achieved_1).
Definition block_h : ChainBlock := {| cb_accumulated_data := data_h; cb_block := {| block_header := header_h; block_body := body_h |} |}.

Definition ahead_database : Database :=
  {| lmdb := with_headers (header_tables_of [block_h; first_block]) (lmdb_of [first_block]); orphans := pool_of [] []; metadata := metadata (database_of [first_block] [] []);
     monero_seed_height_db := ∅; reorgs := ∅; bad_blocks := ∅ |}.
Definition server_database : Database := database_of [block_h; first_block] [] [].

(** ** Facts *)

Lemma coinbase_h_ok : output_ok coinbase_h.
Proof. split; [split; [by vm_compute|]; split; [by vm_compute|done]|]. split; [apply nop_script_ok|]. split; [apply empty_covenant_wf|]. split; [apply length_replicate|by vm_compute]. Qed.

Lemma block_h_validated : validate_block 100 {| bypass_range_proof_verification := false; iv_manager := example_manager |} (full_block (cb_block block_h)) = Some (Ok tt).
Proof. vm_cast_no_check (@eq_refl (option (result ValidationError unit)) (Some (Ok tt))). Qed.

Lemma first_follows : follows [] first_block.
Proof.
  split; [|computed|computed|computed|computed|by repeat split|by eexists|done]. split; try computed; try done; try constructor; [|constructor].
  apply output_ok_encodable, make_output_ok, empty_covenant_wf.
Qed.

Lemma first_ok : blocks_ok [first_block].
Proof. split; [apply first_follows|done]. Qed.

Lemma other_spendable b : spends (map pair_of [first_block]) b (make_input other_utxo 10 50 30).
Proof.
  exists other_utxo. split; [done|]. left. exists (output_row (cb_header first_block) 0 other_utxo). split; [|done].
  apply list_elem_of_filter. split; [computed|left].
Qed.

Lemma block_h_follows : follows [first_block] block_h.
Proof.
  split; [|computed|computed|computed|computed|by repeat split|by eexists|done]. split; try computed; try done.
  - apply encodable_outputs. constructor; [apply make_output_ok, empty_covenant_wf|]. constructor; [apply coinbase_h_ok|constructor].
  - constructor; [apply other_spendable|constructor].
Qed.

Lemma chain_h_ok : blocks_ok [block_h; first_block].
Proof. split; [apply block_h_follows|apply first_ok]. Qed.

Lemma chain_h_sizes : sizes_ok [block_h; first_block].
Proof. split; [computed|]. split; [computed|]. split; [computed|]. split; [computed|done]. Qed.

Lemma block_h_commits : commits (cb_header block_h) (map pair_of [block_h; first_block]).
Proof.
  split; [computed|computed| | |].
  - vm_cast_no_check (@eq_refl (stored_result bytes) (Ok (bh_kernel_mr header_h))).
  - vm_cast_no_check (@eq_refl (stored_result bytes) (Ok (bh_output_mr header_h))).
  - vm_cast_no_check (@eq_refl (stored_result bytes) (Ok (bh_witness_mr header_h))).
Qed.

Lemma nothing_burned b : length (filter (fun k => kernel_is_burned k = true) (kernels b)) = 0%nat /\ length (filter (fun o => output_is_burned o = true) (outputs b)) = 0%nat -> burns_matched b.
Proof. intros [H1%nil_length_inv H2%nil_length_inv]. unfold burns_matched. by rewrite H1, H2. Qed.

Lemma chain_h_horizon : horizon_chain example_manager 100 faucet first_block [block_h] block_h.
Proof.
  split; [done| | |unfold balanced; computed|apply nothing_burned; computed| | |split; computed|computed|].
  - split; [apply block_h_validated|]. split; [|done]. exists achieved_1. vm_cast_no_check (@eq_refl (stored_result HeaderData) (Ok data_h)).
  - split; [apply block_h_commits|]. split; [computed|done].
  - assert (match @consensus_constants ValidationError example_manager 1 with Ok c => faucet_value c | _ => -1 end = faucet) as Hf by computed. change (bh_height (cb_header block_h)) with 1.
    destruct (consensus_constants example_manager 1) as [c| |]; [by exists c|discriminate Hf..].
  - split; [computed|]. split; [computed|]. split; [|computed]. repeat constructor; lia.
  - computed.
Qed.

Lemma ahead_headers : headers_only [block_h; first_block] first_block ahead_database.
Proof.
  split; [|apply chain_h_ok|apply chain_h_sizes|computed|computed]. split; [|done|done|repeat constructor; apply lookup_empty].
  apply represents_headers; [apply lmdb_of_represents, first_ok|apply chain_h_ok|set_solver].
Qed.

Lemma server_serves : serves server_database [block_h; first_block].
Proof. split; [apply lmdb_of_represents, chain_h_ok|done|done|apply chain_h_ok|apply chain_h_sizes]. Qed.

(** ** The theorems applied *)

Definition serving : SyncSource := serving_peer server_database (Z.of_nat (length (kernel_rows (map pair_of [first_block])))) (Z.of_nat (length (rows (map pair_of [first_block])))) header_h.

Lemma horizon_sync_completes_witness : exists db', synchronize example_manager 100 4 1 [[serving]] ahead_database = (db', Some (Ok tt)) /\ horizon_state first_block [block_h] block_h ahead_database db'.
Proof.
  destruct (horizon_sync_completes example_manager 100 4 faucet server_database ahead_database [] [] first_block block_h [block_h] [] [] ltac:(done) chain_h_horizon server_serves ahead_headers) as (db' & H1 & H2).
  exists db'. split; [exact H1|exact H2].
Defined.

Lemma horizon_sync_verified_witness : exists db', synchronize example_manager 100 4 1 [[serving]] ahead_database = (db', Some (Ok tt)) /\
  exists db1, rtc (verified_step example_manager 4) ahead_database db1 /\ final_step example_manager 100 1 db1 db'.
Proof.
  destruct (synchronize_Ok example_manager 100 4 faucet server_database ahead_database [] [] first_block block_h [block_h] [] [] ltac:(done) chain_h_horizon server_serves ahead_headers) as (db' & H & _).
  exists db'. split; [exact H|]. destruct (horizon_sync_verified example_manager 4 100 1 [[serving]] ahead_database db' (Some (Ok tt)) H) as (db1 & Hs & _ & Hf).
  exists db1. split; [exact Hs|exact Hf].
Defined.

(** The output of the first block that the second one spends. *)
Definition spent_again : TransactionInput := make_input other_utxo 10 50 30.
Definition recreated : TransactionOutput := make_output (with_type Standard) 10 50 23 [].

Lemma first_unspent : output_row (cb_header first_block) 0 other_utxo ∈ unspent_rows (map pair_of [first_block]).
Proof. apply list_elem_of_filter. split; [computed|left]. Qed.

Lemma first_spent : or_mmr_position (output_row (cb_header first_block) 0 other_utxo) ∈ spent_at first_block [block_h].
Proof. computed. Qed.

Lemma recreated_encodable : encodable recreated.
Proof. apply output_ok_encodable, make_output_ok, empty_covenant_wf. Qed.

Lemma recreated_same : out_commitment recreated = out_commitment other_utxo.
Proof. computed. Qed.

Lemma recreated_new : hash_of recreated ∉ map or_hash (rows (map pair_of (at_horizon first_block [block_h]))).
Proof. computed. Qed.

Lemma spent_output_stays_indexed_witness : exists db', synchronize example_manager 100 4 1 [[serving]] ahead_database = (db', Some (Ok tt)) /\
  check_input_is_utxo (db := backend_of (lmdb db')) spent_again = Ok tt /\ check_input_is_utxo (db := backend_of (lmdb server_database)) spent_again = Err ContainsSTxO /\
  check_not_duplicate_txo (db := backend_of (lmdb db')) recreated = Err ContainsDuplicateUtxoCommitment /\ check_not_duplicate_txo (db := backend_of (lmdb server_database)) recreated = Ok tt.
Proof.
  destruct (spent_output_stays_indexed example_manager 100 4 faucet server_database ahead_database [] first_block block_h [block_h] [] [] (output_row (cb_header first_block) 0 other_utxo) other_utxo spent_again recreated
    ltac:(done) chain_h_horizon server_serves ahead_headers first_unspent first_spent eq_refl eq_refl recreated_encodable recreated_same recreated_new) as (db' & H1 & H2).
  exists db'. split; [exact H1|exact H2].
Defined.

Lemma validated_chain_balances_witness : validate_chain_balance example_manager 100 ahead_database 1 (unspent_sum (map pair_of [block_h; first_block])) (excess_sum (map pair_of [block_h; first_block]))
  (burned_sum (map pair_of [block_h; first_block])) = Some (Ok tt).
Proof.
  pose proof chain_h_horizon as [_ Hv _ Hb _ (constants & Hc & Hf) Hsch [Hf0 Hs] _ _].
  apply (validated_chain_balances example_manager 100 false faucet ahead_database [] first_block [block_h] block_h [first_block] constants).
  - done.
  - done.
  - apply chain_h_ok.
  - exact Hb.
  - exact Hv.
  - exact Hsch.
  - computed.
  - computed.
  - exact Hc.
  - exact Hf.
  - exact Hf0.
  - exact Hs.
Defined.

Lemma parallel_range_proofs_witness : validate_rangeproofs 4 (outputs body_h) = Ok tt <-> Forall (fun o => verify_range_proof o = Ok tt) (outputs body_h).
Proof. apply (parallel_range_proofs 4 (outputs body_h)). done. Defined.
